(* ===== verification/_CoqProject ===== *)
-Q . S2P
Prelude.v
Common.v
GoHeap.v
Verifier.v
BftHeader.v
BftSnapshot.v
BftTypes.v
BftCore.v
BftEngine.v
BftProofs.v
BftSafety.v
StateDb.v
StateDbProofs.v
Svm.v
SvmProofs.v
SysContracts.v
SysProofs.v
SysSpec.v
PoolQueue.v
PoolQueueProofs.v
Pool.v
PoolProofs.v
PoolSafety.v
EvmWord.v
Evm.v
EvmAlu.v
EvmJump.v
EvmMemory.v
EvmSafety.v
EvmOps.v
EvmMemOps.v
EvmCallOps.v
EvmStore.v
EvmRun.v
EvmProcess.v
Rlp.v
Trie.v
TrieProofs.v
TrieCommit.v
TrieVerify.v
ChainStore.v
Merkle.v
ChainLaws.v
ChainCanon.v
BlockLeaves.v
ChainCache.v
ChainTree.v
ChainProofs.v
ChainCrash.v
ChainPurge.v
ChainExamples.v
ChainSpec.v
Stem.v
StemProofs.v
BlockTypes.v
BlockApply.v
MinerTask.v
BlockProofs.v
BlockSpec.v
TxBatch.v
Download.v
DownloadProofs.v
DownloadLive.v
DownloadServe.v
DownloadChain.v
DownloadReverse.v
DownloadExamples.v
DownloadSpec.v
