(* ===== verification/Prelude.v ===== *)
(** * go-seele-sub: a verification development

    go-seele-sub is the node of a Seele sub-chain. Its blocks are agreed on by a
    Byzantine fault tolerant engine (consensus/bft), whose set of verifiers changes
    by votes in block headers. Transactions wait in a pool (core/object_pool.go,
    core/tx_pool.go) that orders them by price and nonce; a block runs its
    transactions (core/svm), contracts in a virtual machine (core/vm), on the account
    state (core/state), which is kept in a Merkle Patricia trie (trie) over a key
    value store; light clients check values with Merkle proofs of that trie. Blocks
    are kept in a store (core/store) with a mapping from heights to the blocks of the
    canonical chain, which a write of a block updates (core/blockchain.go) and which is
    recovered after a crash (core/blockchain_recover.go). The miner builds the block
    that a node proposes (miner/task.go), with Merkle roots in its second witness by
    which the stem chain checks balances and transactions of the sub-chain
    (api/api_subchain.go); every node validates a block, runs it and compares the
    roots before it writes it (doWriteBlock of core/blockchain.go). A node that is behind
    gets the missing blocks from a peer (seele/download), after it has gone back to the
    last block that the two have in common.
    This development models these parts as executable definitions and proves what
    makes them correct, and where they are not, what goes wrong.

    ** Conventions

    A byte string, a hash or an address is a list of integers; a 64-bit integer is
    a [Z] with its wrap-around written out ([u64], [i64]). A method that changes
    its receiver is a function in the monad [GoM]: from the state to a result, the
    new state and the effects in their order, with [None] for a panic; the rules of
    [wp] give total correctness, so that every statement about a method includes
    that it does not panic. A Go error is a value of a sum or option type. What is
    not in the repository is a type class of operations ([Codec], [HeaderCodec],
    [ArcCache], [ServerCodec], [TrieOps], [PoolEnv], [EvmEnv], [TrieEnv], [StoreCodec],
    [LruCache], [SysEnv], [MerkleEnv], [StemEnv], [BlockEnv], [NodeEnv], [MinerEnv]); what the code
    relies on is a separate class of laws ([ShaLaws], [EvmLaws], [TrieWrites],
    [StoreCodecLaws], [LruLaws], [SysLaws], [MerkleLaws], [StemLaws], [TxHashLaws] and the laws in the
    codec classes), and the witnesses of the theorems instantiate both. An interface between
    two parts is a class too: [VmOps] with [VmLaws] is what the processing of
    transactions expects of the virtual machine, and [EvmProcess] discharges it with
    the interpreter; [VmEnvLaws] is what the replay of a block expects of it, and
    [BlockSpec] discharges it; [MinerPools] is what the miner expects of the two pools;
    [BlockchainStore] with [StoreLaws] is what the chain expects of a
    store, and [ChainLaws] and [ChainCache] discharge it with the database and with the
    cached store.

    ** Files

    - [Prelude]: integers, byte strings, the monad and its proof rules.
    - [Common] (common/Address.go, common/hash.go, common/hexutil): addresses, hashes,
      the hex codec, address kinds and shards.
    - [GoHeap] (common/heap.go and the algorithms of container/heap it calls): the
      heap whose items know their position.
    - [Verifier] (consensus/bft/verifier): the sorted verifier set, the proposer
      policies, the fault bound [F].
    - [BftHeader] (core/types/block.go, bft.go, istanbul.go, secondWitness.go): headers,
      the extra data of the engine and the seals in it.
    - [BftSnapshot] (consensus/bft/server/snapshot.go): votes, their tally and the
      verifier set they lead to.
    - [BftTypes] (consensus/bft/types.go, core/messageset.go, core/state.go): messages,
      message sets and the state of a round.
    - [BftCore] (consensus/bft/core): the state machine of a node, with every handler,
      the backlog, pending requests and timers. The effects are messages, events and
      timers; a run is any sequence of events.
    - [BftEngine] (consensus/bft/server): snapshots of a block, verification of headers
      and seals, what the core asks of the server, the exchange of messages.
    - [BftProofs], [BftSafety]: the invariant of the state machine and its safety.
    - [StateDb], [StateDbProofs] (core/state): accounts, journal, snapshots, the flush
      into the trie, over the interface [TrieOps].
    - [Svm], [SvmProofs] (core/svm, core/vm/evm.go, contract/system/interface.go):
      processing a transaction, over [StateDb] and the interpreter [VmOps].
    - [SysContracts], [SysProofs], [SysSpec] (contract/system): domain names, sub-chains,
      hash time locks, deposits of master nodes, the Bitcoin relay; what they read and
      write of the state; what they promise.
    - [PoolQueue], [PoolQueueProofs] (core/pool_queue.go, pool_object_collection.go):
      the collections of an account by nonce and the queue of accounts in two heaps,
      on [GoHeap].
    - [Pool], [PoolProofs], [PoolSafety] (core/object_pool.go, core/tx_pool.go,
      core/blockchain_txs_cache.go): the pool with its map and its queue, every
      operation of it, and the cache of known transactions in front of it.
    - [EvmWord] (core/vm/common.go, stack.go, memory.go, memory_table.go, analysis.go and
      the vendored math package): words, the stack and its checks, the memory, the
      analysis of jump destinations.
    - [Evm] (core/vm/gas_table.go, instructions.go, jump_table.go, interpreter.go, evm.go):
      the price and the effect of every instruction, the instruction tables, the loop
      of the interpreter, the calls and the creation of contracts.
    - [EvmAlu], [EvmJump], [EvmMemory], [EvmStore]: the arithmetic, the jumps, the price of
      memory and the two stores of the machine.
    - [EvmSafety], [EvmOps], [EvmMemOps], [EvmCallOps], [EvmRun]: the instructions
      need no more of the stack and the memory than was checked and paid for, and
      the loop ends.
    - [EvmProcess] (core/svm/evm/evm.go): the context of a run, and [Svm] with the
      interpreter in place of its interface.
    - [Rlp] (the vendored rlp package): the encoding buffer and the splitting of
      encoded values.
    - [Trie], [TrieProofs], [TrieCommit], [TrieVerify] (trie): the trie, its
      refinement of a map, committing and loading, Merkle proofs.
    - [ChainStore] (core/store/db_store.go, cached_store.go): the keys and entries of the
      database, the two stores and their interface. [ChainLaws], [ChainCache]: the laws
      of the interface, for the database and for the cached store.
    - [ChainCanon] (core/blockchain.go, blockchain_recover.go): the end of [doWriteBlock],
      the updates of the canonical chain, the recovery point and the recovery. The
      effects are the disks that a run passes through, one per write of the database and
      two per write of the recovery file, which is truncated first.
    - [ChainTree], [ChainProofs], [ChainCrash], [ChainExamples], [ChainSpec]: the tree of
      blocks and the chain of a head, a logic with a condition on every disk, the
      loops, crashes and recovery, examples, and what a node promises over any store.
    - [BlockLeaves] (core/block_index.go): the leaves of the block tree in a map and two
      heaps, on [GoHeap]. [ChainPurge]: the purging of a fork.
    - [Merkle] (merkle/derive_sha.go): the binary Merkle root and its proofs.
    - [Stem], [StemProofs] (miner/task.go, core/blockchain.go, seele/seeleservice.go,
      api/api_subchain.go): the numbering of the accounts, the roots for the stem chain
      and the calls that return proofs.
    - [BlockTypes] (core/types/transaction.go, debt.go, receipt.go, block.go, verifier.go,
      core/txs/tx_reward.go, consensus/reward.go): the checks of transactions, debts and
      blocks, the roots of a block, the reward. [TxBatch]: the cache of signatures and
      the goroutines of [BatchValidate], as steps of threads over shared variables.
    - [BlockApply] (core/blockchain.go): [doWriteBlock] from the validation of a block to
      the event of the new head, over [Svm], [Stem], [ChainCanon] and [BlockLeaves].
    - [MinerTask] (miner/task.go): the making of a block, over the pools and [Svm].
    - [BlockProofs], [BlockSpec]: a block that is made and a block that is received.
    - [Download] (seele/download/taskMgr.go, peer.go, downloader.go, seele/seeleprotocol.go):
      the task manager, the wait for an answer, the search for the common ancestor, the
      answers of the node that is asked; a session is the goroutine of the peer and the
      one that takes the blocks, and a run of it is any sequence of their turns.
    - [DownloadChain] (seele/download/downloader.go, core/blockchain.go): going back to the
      ancestor, the start of a session, the writing of its blocks and the return to the
      local ones.
    - [DownloadProofs], [DownloadLive], [DownloadServe], [DownloadReverse]: the manager with
      any peers, a session with an honest one, what an honest node answers, going back.
      [DownloadExamples], [DownloadSpec]: two chains with a fork, and what a session
      promises.

    ** Theorems

    - Consensus: a node commits only a proposal for which commit messages in the names of a
      quorum came with the events of its run, and once per view; no sequence of events makes it panic or go back to an earlier
      view; a locked node refuses other proposals; what the bound [F] means for the
      overlap of quorums; every verifier becomes the proposer.
    - Votes and headers: the tally agrees with the votes, the set changes exactly by a
      majority, what an accepted header has gone through and against which snapshots,
      storage round trips.
    - State: reverting to a snapshot restores every reading but the count of
      transactions, balances are never negative, what the balance methods do; what is
      not reverted.
    - Transactions: a rejected transaction leaves no trace but in that count, a payment
      moves what it should (in [EvmProcess], with the interpreter), the gas used is within
      the limit and its fee within the balance; the two paths where the fee and the nonce
      go wrong.
    - System contracts: domain names are written once, and names outside ASCII can share a
      key; hash time locks are an escrow that pays an open lock once, to the right account
      at the right time, and never lacks money, and a refused call can be undone; a query of a master node stops the nodes, and deposits can be stolen.
    - Virtual machine: for every code and gas the interpreter returns, without a panic,
      with no more gas than it got and a state that can be reverted; a call that
      fails changes nothing but that count, at any depth; the arithmetic is that of words, the jumps go to
      instructions only, the price of memory adds up below 2^37 bytes and wraps above;
      processing a transaction with it returns a receipt or an error.
    - Pool: its map, its queue and its counters agree after every operation, none of
      which panics; what adding an object does on every branch; the order in which
      transactions are handed out is the greedy one by price, with nonces ascending.
    - Trie: any sequence of calls answers as a finite map; the walks end; a trie
      that is committed can be opened from its root hash and holds the same map; a
      value that is proved is in the trie, and a value in the trie can be proved; how
      the root hash depends on the history, and what proofs do not show.
    - Chain: over any store, writing a block makes the mapping of the heights the chain
      of that block, and a restart from a disk on the way, also one with a recovery file
      that is cut, gives the chain from before or the one after, as long as no block has
      debts and but for two kinds of disks, from which the node is stuck or keeps heights
      of the old chain; examples of these disks and of a debt that spoils the recovery.
      The caches of the store cannot be seen by a program that does not use
      [DeleteBlockHeader] and deletes blocks whose height is mapped; examples of both calls.
      The leaves of the tree are a map with a best and a worst entry, and purging a fork
      leaves the canonical chain alone.
    - Blocks: what a proposer makes is accepted by every node with the state of the
      parent; what an accepted block has gone through, and what a refused one leaves
      behind; the cache of signatures cannot be seen, and the parallel validation ends
      with the answer of the sequential one under every schedule. A challenge spoils a
      proposal; debts are refused or paid unchecked.
    - Stem chain: the proofs of the Merkle tree are complete and sound; the proposer and
      the other nodes number the accounts alike; where the proofs that are returned do
      not verify, and what a discarded proposal does to the numbering.
    - Download: whatever the peers send, blocks are handed over by height, without a gap
      and once; with an honest peer every fair schedule ends with all its blocks; the
      ancestor that is found is where the chains part; going back leaves its chain. What
      a peer that lies, a crash while going back, and an abandoned session do.
    - RLP: the two-pass encoding buffer computes the recursive encoding, and what is
      encoded can be split again.

    ** Bounds

    Recursion that is not structural has fuel, and the theorems show that it is
    enough: a queue is processed with its length as fuel, the exchange sort of the
    verifiers with the length of the list, the heap walks with the size of the heap,
    [verifyHeader] with the depth of the headers it is given, the walks of the trie
    with two steps per nibble of the key and two more ([trie_walks_end]), a proof
    with the pairs of a proof node and a rest of the key, [CountValues] with the
    bytes it reads. The interpreter has one round more than it has gas, which is
    enough because every instruction that goes on costs gas and a call is given less
    than its caller has ([interpreter_terminates]); to run out of it is a panic of the
    model. The walk to an ancestor has a round for every block below. The loops that
    update the canonical chain have a round for every entry of the database and one
    more: a round takes an entry away or goes from a block to its parent; purging a
    fork has the same. A level of a Merkle tree is at most as long as the one below, so
    that the number of leaves is enough. The loops of the miner have a round for every
    object left in the pool and one more. The goroutines of [BatchValidate] have no fuel:
    a measure of what the threads have left bounds every run. The search for the ancestor
    makes at most 353 requests, 256 headers each for 90000 heights and one more; a session
    for [n] blocks is done after 18 n + 3 rounds in which both goroutines run, by a measure
    of what every block has still to go through. Lengths of
    encoded values are below 2^64 ([fits]), as those of Go slices are.

    ** Not modelled

    Goroutines, channels, timers and mutexes (an event that is posted later is an
    effect) but for [BatchValidate] and the session of a download, sockets and the wire protocols (p2p, rpc), the precompiled contracts of
    core/vm/contracts.go, which wrap the cryptographic libraries and [big.Int] (parameters that
    have a price and return; the modular exponentiation returns for the lengths that the memory
    of the process has room for), the tracer of the machine and its pool of integers, the proof of
    work engines, cryptography and storage drivers (parameters), the tools and
    commands, metrics and logging. The configuration of the machine is that of
    [NewEVMByDefaultConfig], without debugging and without a limit on recursion. Reading
    an error is modelled, its text is not.

    The set-up of the chain and of the service at the start of the node, the header
    chain of light clients, the debt pool, and of the synchronization the choice of the
    peer, the status and the locks of [Synchronise], the ancestor that the stem chain
    imposes, and the messages other than those for headers and blocks are left out as
    well. *)

From Stdlib Require Import ZArith Lia.
From stdpp Require Export base tactics list gmap sorting option fin_maps.

(** ** Machine integers

    Go's [uint64] and [int64] are integers with explicit wrap-around. *)

Open Scope Z_scope.

Definition u64 (z : Z) : Z := z mod 2 ^ 64.

Definition i64 (z : Z) : Z := (z + 2 ^ 63) mod 2 ^ 64 - 2 ^ 63.

Definition is_u64 (z : Z) : Prop := 0 <= z < 2 ^ 64.

Definition is_byte (z : Z) : Prop := 0 <= z < 256.

#[export] Instance is_byte_dec z : Decision (is_byte z).
Proof. unfold is_byte. apply _. Defined.

Create HintDb seele.

Lemma u64_range z : is_u64 (u64 z).
Proof. apply Z.mod_pos_bound. lia. Qed.

Lemma u64_small z : is_u64 z -> u64 z = z.
Proof. intros H. apply Z.mod_small, H. Qed.

Lemma i64_small z : - 2 ^ 63 <= z < 2 ^ 63 -> i64 z = z.
Proof. intros H. unfold i64. rewrite Z.mod_small; lia. Qed.

#[export] Hint Resolve u64_range : seele.

(** ** Byte strings

    A Go [[]byte], [string], [Hash] or [Address] is the list of its byte
    values. [bytes_cmp] is [bytes.Compare] (and [strings.Compare]): the sign of
    the lexicographic comparison. *)

Abbreviation bytes := (list Z).

Fixpoint bytes_cmp (a b : bytes) : Z :=
  match a, b with
  | [], [] => 0
  | [], _ :: _ => -1
  | _ :: _, [] => 1
  | x :: a', y :: b' =>
      if x <? y then -1 else if y <? x then 1 else bytes_cmp a' b'
  end.

Definition bytes_eqb (a b : bytes) : bool := bool_decide (a = b).

Lemma bytes_cmp_refl a : bytes_cmp a a = 0.
Proof. induction a as [|x a IH]; simpl; [done|]. by rewrite Z.ltb_irrefl. Qed.

Lemma bytes_cmp_eq a b : bytes_cmp a b = 0 -> a = b.
Proof.
  revert b; induction a as [|x a IH]; intros [|y b]; simpl; try done.
  destruct (Z.ltb_spec x y), (Z.ltb_spec y x); try done.
  intros Heq%IH. f_equal; [lia|done].
Qed.

Lemma bytes_cmp_values a b : bytes_cmp a b = -1 \/ bytes_cmp a b = 0 \/ bytes_cmp a b = 1.
Proof.
  revert b; induction a as [|x a IH]; intros [|y b]; simpl; auto.
  destruct (x <? y), (y <? x); auto.
Qed.

Lemma bytes_cmp_antisym a b : bytes_cmp b a = - bytes_cmp a b.
Proof.
  revert b; induction a as [|x a IH]; intros [|y b]; simpl; auto.
  destruct (Z.ltb_spec x y), (Z.ltb_spec y x); try lia. apply IH.
Qed.

Lemma bytes_cmp_trans a b c :
  bytes_cmp a b <= 0 -> bytes_cmp b c <= 0 -> bytes_cmp a c <= 0.
Proof.
  revert b c; induction a as [|x a IH]; intros [|y b] [|z c]; simpl; try lia.
  destruct (Z.ltb_spec x y), (Z.ltb_spec y x), (Z.ltb_spec y z),
    (Z.ltb_spec z y), (Z.ltb_spec x z), (Z.ltb_spec z x); try lia.
  intros; eauto.
Qed.

Definition bytes_le (a b : bytes) : Prop := bytes_cmp a b <= 0.

#[export] Instance bytes_le_dec a b : Decision (bytes_le a b).
Proof. unfold bytes_le. apply _. Defined.

#[export] Instance bytes_le_total : Total bytes_le.
Proof. intros a b. unfold bytes_le. rewrite (bytes_cmp_antisym a b). lia. Qed.

#[export] Instance bytes_le_preorder : PreOrder bytes_le.
Proof.
  split.
  - intros a. unfold bytes_le. rewrite bytes_cmp_refl. lia.
  - intros a b c. apply bytes_cmp_trans.
Qed.

#[export] Instance bytes_le_antisymm : AntiSymm (=) bytes_le.
Proof.
  intros a b Hab Hba. unfold bytes_le in *. apply bytes_cmp_eq.
  rewrite bytes_cmp_antisym in Hba. lia.
Qed.

(** ** Stateful code

    A method that mutates its receiver and talks to the outside is a function
    from the state to a value, a new state and the list of the effects it
    performed, in order; [None] is a Go panic. *)

Definition GoM (S O A : Type) : Type := S -> option (A * S * list O).

Section go_monad.
Context {S O : Type}.

Definition go_ret {A} (a : A) : GoM S O A := fun s => Some (a, s, []).

Definition go_bind {A B} (m : GoM S O A) (k : A -> GoM S O B) : GoM S O B :=
  fun s =>
    match m s with
    | Some (a, s1, o1) =>
        match k a s1 with
        | Some (b, s2, o2) => Some (b, s2, o1 ++ o2)
        | None => None
        end
    | None => None
    end.

Definition go_panic {A} : GoM S O A := fun _ => None.

Definition go_get : GoM S O S := fun s => Some (s, s, []).

Definition go_modify (f : S -> S) : GoM S O unit := fun s => Some (tt, f s, []).

Definition go_emit (o : O) : GoM S O unit := fun s => Some (tt, s, [o]).

(** A nil dereference panics. *)
Definition go_deref {A} (o : option A) : GoM S O A :=
  match o with Some a => go_ret a | None => go_panic end.

(** Total correctness: [m] does not panic from [s] and its outcome satisfies
    the postcondition. *)
Definition wp {A} (m : GoM S O A) (s : S) (Q : A -> S -> list O -> Prop) : Prop :=
  match m s with Some (a, s', o) => Q a s' o | None => False end.

Lemma wp_mono {A} (m : GoM S O A) s (Q Q' : A -> S -> list O -> Prop) :
  wp m s Q -> (forall a s' o, Q a s' o -> Q' a s' o) -> wp m s Q'.
Proof. unfold wp. destruct (m s) as [[[a s'] o]|]; auto. Qed.

Lemma wp_run_mono {A} (m : GoM S O A) s (Q Q' : A -> S -> list O -> Prop) :
  wp m s Q -> (forall a s' o, m s = Some (a, s', o) -> Q a s' o -> Q' a s' o) -> wp m s Q'.
Proof. unfold wp. destruct (m s) as [[[a s'] o]|]; auto. Qed.

Lemma wp_ret {A} (a : A) s (Q : A -> S -> list O -> Prop) :
  Q a s [] -> wp (go_ret a) s Q.
Proof. done. Qed.

Lemma wp_get s (Q : S -> S -> list O -> Prop) : Q s s [] -> wp go_get s Q.
Proof. done. Qed.

Lemma wp_modify f s (Q : unit -> S -> list O -> Prop) :
  Q tt (f s) [] -> wp (go_modify f) s Q.
Proof. done. Qed.

Lemma wp_emit o s (Q : unit -> S -> list O -> Prop) :
  Q tt s [o] -> wp (go_emit o) s Q.
Proof. done. Qed.

Lemma wp_deref {A} (o : option A) a s (Q : A -> S -> list O -> Prop) :
  o = Some a -> Q a s [] -> wp (go_deref o) s Q.
Proof. by intros ->. Qed.

Lemma wp_bind {A B} (m : GoM S O A) (k : A -> GoM S O B) s Q :
  wp m s (fun a s1 o1 => wp (k a) s1 (fun b s2 o2 => Q b s2 (o1 ++ o2))) ->
  wp (go_bind m k) s Q.
Proof.
  unfold wp, go_bind. destruct (m s) as [[[a s1] o1]|]; [|done].
  by destruct (k a s1) as [[[b s2] o2]|].
Qed.

Lemma wp_run {A} (m : GoM S O A) s Q a s' o :
  wp m s Q -> m s = Some (a, s', o) -> Q a s' o.
Proof. unfold wp. intros Hwp Hrun. by rewrite Hrun in Hwp. Qed.
End go_monad.

(** Code without effects of its own performs none. *)
Lemma wp_no_output {S A} (m : GoM S Empty_set A) s (Q : A -> S -> Prop) :
  wp m s (fun a s' _ => Q a s') -> exists a s', m s = Some (a, s', []) /\ Q a s'.
Proof.
  unfold wp. destruct (m s) as [[[a s'] o]|]; [|done]. intros HQ. exists a, s'.
  destruct o as [|[]]. done.
Qed.

Declare Scope go_scope.
Delimit Scope go_scope with go.
Notation "x <- m ;; k" := (go_bind m (fun x => k))
  (at level 100, m at next level, right associativity) : go_scope.
Notation "m ;;; k" := (go_bind m (fun _ => k))
  (at level 100, right associativity) : go_scope.

(** One symbolic step of a [wp] goal: the structural rules. *)
Ltac wp_step :=
  lazymatch goal with
  | |- wp (go_bind _ _) _ _ => apply wp_bind
  | |- wp (go_ret _) _ _ => apply wp_ret
  | |- wp go_get _ _ => apply wp_get
  | |- wp (go_modify _) _ _ => apply wp_modify
  | |- wp (go_emit _) _ _ => apply wp_emit
  | |- wp (if ?b then _ else _) _ _ => let E := fresh "Hif" in destruct b eqn:E
  | |- wp (match ?o with _ => _ end) _ _ => let E := fresh "Hm" in destruct o eqn:E
  end; cbn beta iota.

(** Linear arithmetic with division and modulo by constants. *)
Ltac zdiv := Z.to_euclidean_division_equations; lia.

(** Drop the wrap-around of the [u64] terms that are in range. *)
Ltac u64_norm :=
  repeat match goal with
  | |- context [u64 ?x] => rewrite (u64_small x) by (unfold is_u64; lia)
  end.

(** Run the sequential steps of a [wp] goal up to a call or a branch. *)
Ltac wp_seq :=
  repeat (lazymatch goal with
  | |- wp (go_bind _ _) _ _ => apply wp_bind
  | |- wp (go_ret _) _ _ => apply wp_ret
  | |- wp go_get _ _ => apply wp_get
  | |- wp (go_modify _) _ _ => apply wp_modify
  | |- wp (go_emit _) _ _ => apply wp_emit
  end; cbn beta iota); cbn [app].
