(* ===== verification/Common.v ===== *)
(** * Addresses, hashes and hex strings

    Models [common/hexutil/hexutil.go], [common/Address.go] and
    [common/hash.go]: the hex codec with its error cases, the 20-byte [Address]
    and 32-byte [Hash] conversions, the address classification and the contract
    address derivation. A Go array of n bytes is a list of length n. *)

From Stdlib Require Import ZArith Lia.
From S2P Require Import Prelude.

Open Scope Z_scope.

(** ** hexutil *)

Inductive HexError : Type :=
| ErrEmptyString | ErrSyntax | ErrMissingPrefix | ErrInvalidOddLength.

(** [encoding/hex]: the digits are lower case when encoding, and both cases are
    read when decoding ([fromHexChar]). *)
Definition hexDigit (n : Z) : Z := if n <? 10 then 48 + n else 87 + n.

Definition hex_Encode (b : bytes) : bytes :=
  concat (map (fun x => [hexDigit (x / 16); hexDigit (x mod 16)]) b).

Definition fromHexChar (c : Z) : option Z :=
  if (48 <=? c) && (c <=? 57) then Some (c - 48)
  else if (97 <=? c) && (c <=? 102) then Some (c - 87)
  else if (65 <=? c) && (c <=? 70) then Some (c - 55)
  else None.

(** [hex.DecodeString]: an invalid character is reported before the odd length. *)
Fixpoint hex_DecodeString (s : bytes) : bytes * option HexError :=
  match s with
  | [] => ([], None)
  | [c] =>
      match fromHexChar c with
      | None => ([], Some ErrSyntax)
      | Some _ => ([], Some ErrInvalidOddLength)
      end
  | c1 :: c2 :: s' =>
      match fromHexChar c1, fromHexChar c2 with
      | Some a, Some b =>
          let '(rest, err) := hex_DecodeString s' in (a * 16 + b :: rest, err)
      | _, _ => ([], Some ErrSyntax)
      end
  end.

Definition BytesToHex (b : bytes) : bytes := [48; 120] ++ hex_Encode b.

Definition Has0xPrefix (input : bytes) : bool :=
  match input with
  | c0 :: c1 :: _ => (c0 =? 48) && ((c1 =? 120) || (c1 =? 88))
  | _ => false
  end.

Definition HexToBytes (input : bytes) : bytes * option HexError :=
  if bool_decide (length input = 0%nat) then ([], Some ErrEmptyString)
  else if negb (Has0xPrefix input) then ([], Some ErrMissingPrefix)
  else hex_DecodeString (drop 2 input).

(** ** Address *)

Definition AddressLen : nat := 20.
Definition HashLength : nat := 32.

Abbreviation Address := (list Z).
Abbreviation Hash := (list Z).

(** The arrays of the Go types: the right length, and bytes. *)
Definition wf_address (a : Address) : Prop :=
  length a = AddressLen /\ Forall is_byte a.

Definition wf_hash (h : Hash) : Prop := length h = HashLength /\ Forall is_byte h.

Definition EmptyAddress : Address := replicate AddressLen 0.
Definition EmptyHash : Hash := replicate HashLength 0.

#[global] Arguments EmptyAddress : simpl never.
#[global] Arguments EmptyHash : simpl never.

(** [copy(dst[len(dst)-len(bs):], bs)] into a zero array, keeping the last
    bytes when [bs] is too long. *)
Definition right_align (n : nat) (bs : bytes) : bytes :=
  let bs' := if decide (n < length bs)%nat then drop (length bs - n) bs else bs in
  replicate (n - length bs') 0 ++ bs'.

Definition BytesToAddress (bs : bytes) : Address := right_align AddressLen bs.

Definition BytesToHash (b : bytes) : Hash := right_align HashLength b.

Inductive AddrError : Type :=
| ErrAddressLenInvalid (len want : nat)
| ErrAddressHex (e : HexError).

Definition Address_Validate (id : Address) : option AddrError := None.

Definition NewAddress (b : bytes) : Address * option AddrError :=
  if bool_decide (length b <> AddressLen)
  then (EmptyAddress, Some (ErrAddressLenInvalid (length b) AddressLen))
  else
    match Address_Validate b with
    | Some err => (EmptyAddress, Some err)
    | None => (b, None)
    end.

Definition Address_Equal (id b : Address) : bool := bytes_eqb id b.

Definition Address_IsEmpty (id : Address) : bool := Address_Equal id EmptyAddress.

Definition Address_Hex (id : Address) : bytes := BytesToHex id.

Definition Address_String (id : Address) : bytes := Address_Hex id.

Definition HexToAddress (id : bytes) : Address * option AddrError :=
  match HexToBytes id with
  | (_, Some err) => (EmptyAddress, Some (ErrAddressHex err))
  | (b, None) =>
      match NewAddress b with
      | (_, Some err) => (EmptyAddress, Some err)
      | (nid, None) => (nid, None)
      end
  end.

Definition AddressTypeReserved : Z := 16.
Definition AddressTypeContract : Z := 2.

Definition MaxSystemContractAddress : Address := BytesToAddress [4; 255].

Definition Address_IsReserved (id : Address) : bool :=
  negb (Address_IsEmpty id) && (bytes_cmp id MaxSystemContractAddress <=? 0).

Definition Address_Type (id : Address) : Z :=
  if Address_IsReserved id then AddressTypeReserved
  else Z.land (nth (AddressLen - 1) id 0) 15.

Definition Address_IsEVMContract (id : Address) : bool :=
  Address_Type id =? AddressTypeContract.

(** The shard of an address: the byte sum of the first 18 bytes plus the last
    two bytes without the 4 type bits, modulo the number of shards (1 on a
    subchain). *)
Definition ShardCount : Z := 1.

Definition byte_sum (b : bytes) : Z := foldr Z.add 0 b.

Definition Address_Shard_of (shardCount : Z) (id : Address) : Z :=
  let sum := byte_sum (take 18 id) in
  let tail := nth 18 id 0 * 256 + nth 19 id 0 in
  (sum + Z.shiftr tail 4) mod shardCount + 1.

Definition Address_Shard : Address -> Z := Address_Shard_of ShardCount.

(** [CreateContractAddressWithHash], for any number of shards: the constant of
    the code is [ShardCount]. *)
Definition contract_address_of (shardCount : Z) (id : Address) (hash : Hash) : Address :=
  let targetShardNum := Address_Shard_of shardCount id in
  let sum := byte_sum (drop 14 hash) in
  let shardNum := sum mod shardCount + 1 in
  let mod0 := if shardNum <=? targetShardNum then targetShardNum - shardNum
              else shardCount + targetShardNum - shardNum in
  let mod1 := Z.lor (Z.shiftl mod0 4) AddressTypeContract in
  let encoded := (mod1 mod 65536) in
  take 18 (drop 14 hash) ++ [encoded / 256; encoded mod 256].

Definition CreateContractAddressWithHash (id : Address) (h : Hash) : Address :=
  contract_address_of ShardCount id h.

(** ** Lemmas *)

Lemma hexDigit_decode n : 0 <= n < 16 -> fromHexChar (hexDigit n) = Some n.
Proof.
  intros Hn. unfold hexDigit, fromHexChar.
  destruct (Z.ltb_spec n 10);
    repeat match goal with |- context [?x <=? ?y] => destruct (Z.leb_spec x y) end;
    simpl; f_equal; lia.
Qed.

Lemma hexDigit_ltb x y : 0 <= x -> 0 <= y -> (hexDigit x <? hexDigit y) = (x <? y).
Proof.
  intros Hx Hy. unfold hexDigit.
  destruct (Z.ltb_spec x 10), (Z.ltb_spec y 10);
    match goal with |- (?u <? ?v) = _ => destruct (Z.ltb_spec u v) end;
    destruct (Z.ltb_spec x y); lia.
Qed.

Lemma nibbles x : is_byte x -> 0 <= x / 16 < 16 /\ 0 <= x mod 16 < 16 /\ x / 16 * 16 + x mod 16 = x.
Proof. unfold is_byte. intros Hx. zdiv. Qed.

Lemma hex_DecodeString_Encode b :
  Forall is_byte b -> hex_DecodeString (hex_Encode b) = (b, None).
Proof.
  induction 1 as [|x b Hx Hb IH]; [done|].
  unfold hex_Encode in *. cbn [map concat app hex_DecodeString].
  destruct (nibbles x Hx) as (H1 & H2 & H3).
  by rewrite !hexDigit_decode, IH, H3.
Qed.

Lemma HexToBytes_BytesToHex b :
  Forall is_byte b -> HexToBytes (BytesToHex b) = (b, None).
Proof. intros Hb. unfold HexToBytes, BytesToHex. simpl. by apply hex_DecodeString_Encode. Qed.

(** Byte strings of bytes are compared by their hex forms. *)
Lemma hex_Encode_cmp a b :
  Forall is_byte a -> Forall is_byte b -> bytes_cmp (hex_Encode a) (hex_Encode b) = bytes_cmp a b.
Proof.
  intros Ha; revert b; induction Ha as [|x a Hx Ha IH]; intros b Hb;
    destruct Hb as [|y b Hy Hb]; try done.
  unfold hex_Encode in *. cbn [map concat app bytes_cmp].
  destruct (nibbles x Hx) as (? & ? & ?), (nibbles y Hy) as (? & ? & ?).
  rewrite IH by done.
  rewrite !hexDigit_ltb by lia.
  repeat match goal with |- context [?u <? ?v] => destruct (Z.ltb_spec u v) end; lia.
Qed.

Lemma Address_String_cmp a b :
  wf_address a -> wf_address b ->
  bytes_cmp (Address_String a) (Address_String b) = bytes_cmp a b.
Proof.
  intros [_ Ha] [_ Hb]. unfold Address_String, Address_Hex, BytesToHex.
  cbn [app bytes_cmp]. rewrite !Z.ltb_irrefl. by apply hex_Encode_cmp.
Qed.

Lemma right_align_length n bs : length (right_align n bs) = n.
Proof.
  unfold right_align. case_decide; rewrite length_app, length_replicate, ?length_drop; lia.
Qed.

Lemma right_align_id n bs : length bs = n -> right_align n bs = bs.
Proof.
  intros <-. unfold right_align. case_decide; [lia|]. by rewrite Nat.sub_diag.
Qed.

Lemma byte_sum_app a b : byte_sum (a ++ b) = byte_sum a + byte_sum b.
Proof. unfold byte_sum. induction a as [|x a IH]; simpl; [done|]. rewrite IH. lia. Qed.

Lemma wf_EmptyAddress : wf_address EmptyAddress.
Proof. split; [done|]. apply Forall_replicate. unfold is_byte. lia. Qed.

#[export] Hint Resolve wf_EmptyAddress : seele.

Lemma Address_Shard_range n id : 1 <= n -> 1 <= Address_Shard_of n id <= n.
Proof.
  intros Hn. unfold Address_Shard_of.
  pose proof (Z.mod_pos_bound (byte_sum (take 18 id)
    + Z.shiftr (nth 18 id 0 * 256 + nth 19 id 0) 4) n). lia.
Qed.

(** The offset that moves a byte sum [s] to shard [t]. *)
Lemma shard_offset n s t :
  1 <= n -> 1 <= t <= n ->
  let m0 := if s mod n + 1 <=? t then t - (s mod n + 1) else n + t - (s mod n + 1) in
  0 <= m0 < n /\ (s + m0) mod n + 1 = t.
Proof.
  intros Hn Ht m0. pose proof (Z.mod_pos_bound s n). pose proof (Z.div_mod s n).
  assert (Hm0 : 0 <= m0 < n) by (subst m0; destruct (Z.leb_spec (s mod n + 1) t); lia).
  split; [done|]. subst m0. destruct (Z.leb_spec (s mod n + 1) t).
  - replace (s + _) with (t - 1 + (s / n) * n) by lia.
    rewrite Z_mod_plus_full, Z.mod_small; lia.
  - replace (s + _) with (t - 1 + (s / n + 1) * n) by lia.
    rewrite Z_mod_plus_full, Z.mod_small; lia.
Qed.

Lemma contract_tail m0 : 0 <= m0 -> Z.lor (Z.shiftl m0 4) AddressTypeContract = m0 * 16 + 2.
Proof.
  intros Hm. unfold AddressTypeContract.
  assert (Hl : Z.land (Z.shiftl m0 4) 2 = 0).
  { apply Z.bits_inj'. intros n Hn. rewrite Z.land_spec, Z.bits_0, Z.shiftl_spec by done.
    destruct (Z.ltb_spec n 4) as [Hlt|Hge]; [by rewrite (Z.testbit_neg_r m0) by lia|].
    rewrite (Z.bits_above_log2 2) by (simpl; lia). apply andb_false_r. }
  pose proof (Z.add_lor_land (Z.shiftl m0 4) 2) as Hadd.
  rewrite Hl, Z.shiftl_mul_pow2 in *; lia.
Qed.

(** ** Properties *)

(** Parsing the string form of an address gives the address back. *)
Theorem HexToAddress_roundtrip (id : Address) :
  wf_address id -> HexToAddress (Address_String id) = (id, None).
Proof.
  intros [Hlen Hb]. unfold HexToAddress, Address_String, Address_Hex.
  rewrite HexToBytes_BytesToHex by done. unfold NewAddress.
  rewrite bool_decide_false by (by intros Hne). done.
Qed.

Lemma HexToAddress_roundtrip_witness :
  HexToAddress (Address_String (BytesToAddress [222; 173; 190; 239]))
  = (BytesToAddress [222; 173; 190; 239], None).
Proof. apply HexToAddress_roundtrip. split; [done|]. repeat constructor; done. Defined.

(** A contract address derived from an account lies in the shard of the
    account and is marked as a contract, for every hash and up to 4096
    shards. *)
Theorem contract_address_shard (shardCount : Z) (id : Address) (h : Hash) :
  1 <= shardCount <= 4096 -> wf_hash h ->
  Address_Shard_of shardCount (contract_address_of shardCount id h)
    = Address_Shard_of shardCount id
  /\ nth 19 (contract_address_of shardCount id h) 0 mod 16 = AddressTypeContract.
Proof.
  intros Hn [Hlen Hb]. unfold contract_address_of. cbv zeta.
  destruct (shard_offset shardCount (byte_sum (drop 14 h)) (Address_Shard_of shardCount id))
    as [Hm0 Hsum]; [lia|apply Address_Shard_range; lia|].
  set (m0 := if _ <=? _ then _ else _) in *.
  rewrite contract_tail, (Z.mod_small (m0 * 16 + 2)) by lia.
  assert (Hd : length (drop 14 h) = 18%nat) by (rewrite length_drop, Hlen; done).
  rewrite (take_ge (drop 14 h)) by lia. split.
  - unfold Address_Shard_of at 1. rewrite (take_app_length' (drop 14 h)) by done.
    rewrite !app_nth2, Hd by lia. cbn [nth Nat.sub].
    replace (_ / 256 * 256 + _) with (m0 * 16 + 2) by zdiv.
    rewrite Z.shiftr_div_pow2 by lia.
    by replace ((m0 * 16 + 2) / 2 ^ 4) with m0 by zdiv.
  - rewrite app_nth2, Hd by lia. cbn [nth Nat.sub]. unfold AddressTypeContract. zdiv.
Qed.

Lemma contract_address_shard_witness :
  Address_Shard_of 7 (contract_address_of 7 (BytesToAddress [9; 1]) (BytesToHash [77; 250]))
  = Address_Shard_of 7 (BytesToAddress [9; 1])
  /\ nth 19 (contract_address_of 7 (BytesToAddress [9; 1]) (BytesToHash [77; 250])) 0 mod 16
     = AddressTypeContract.
Proof.
  apply contract_address_shard; [lia|]. split; [done|]. repeat constructor; done.
Defined.
