(* ===== verification/GoHeap.v ===== *)
(** * Binary heaps: [container/heap], [common.Heap] and [prque]

    [container/heap] is an algorithm over an interface (Len, Less, Swap, Push,
    Pop); here the interface is the class [HeapInterface] and the algorithm is
    written over it, as in Go. Its two clients in the repository are instances:
    [common.Heap] ([common/heap.go]), whose items carry their own position so
    that they can be removed or fixed by index, and the priority queue of the
    consensus core. What a client relies on, the heap order, is proved once
    against the laws of the interface. *)

From Stdlib Require Import ZArith Lia.
From S2P Require Import Prelude.

Open Scope nat_scope.

(** ** The interface *)

Class HeapInterface (H A : Type) := {
  hp_Len : H -> nat;
  hp_Less : H -> nat -> nat -> bool;
  hp_Swap : H -> nat -> nat -> H;
  hp_Push : H -> A -> H;
  hp_Pop : H -> option (A * H)
}.

(** ** The algorithm of [container/heap]

    The loops stop because the index strictly decreases in [up] and strictly
    increases in [down]; the fuel given by the callers is a bound on it. *)

Section container_heap.
Context {H A : Type} `{HeapInterface H A}.

Fixpoint heap_up (fuel : nat) (h : H) (j : nat) : H :=
  match fuel with
  | 0 => h
  | S fuel' =>
      let i := (j - 1) / 2 in
      if (i =? j) || negb (hp_Less h j i) then h
      else heap_up fuel' (hp_Swap h i j) i
  end.

(** The position where the loop of [down] stops, and the heap there. *)
Fixpoint heap_down_loop (fuel : nat) (h : H) (i n : nat) : H * nat :=
  match fuel with
  | 0 => (h, i)
  | S fuel' =>
      let j1 := 2 * i + 1 in
      if n <=? j1 then (h, i)
      else
        let j2 := j1 + 1 in
        let j := if (j2 <? n) && hp_Less h j2 j1 then j2 else j1 in
        if negb (hp_Less h j i) then (h, i)
        else heap_down_loop fuel' (hp_Swap h i j) j n
  end.

Definition heap_down (h : H) (i0 n : nat) : H * bool :=
  let '(h', i) := heap_down_loop n h i0 n in (h', i0 <? i).

Definition heap_Push (h : H) (x : A) : H :=
  let h1 := hp_Push h x in heap_up (hp_Len h1) h1 (hp_Len h1 - 1).

(** Popping from an empty heap panics. *)
Definition heap_Pop (h : H) : option (A * H) :=
  match hp_Len h with
  | 0 => None
  | S n => let '(h1, _) := heap_down (hp_Swap h 0 n) 0 n in hp_Pop h1
  end.

(** [down], and [up] when [down] did not move the element. *)
Definition heap_down_or_up (h : H) (i n : nat) : H :=
  let '(h1, moved) := heap_down h i n in
  if moved then h1 else heap_up (S i) h1 i.

(** An index out of range panics. *)
Definition heap_Remove (h : H) (i : nat) : option (A * H) :=
  match hp_Len h with
  | 0 => None
  | S n =>
      if n <? i then None
      else if n =? i then hp_Pop h
      else hp_Pop (heap_down_or_up (hp_Swap h i n) i n)
  end.

Definition heap_Fix (h : H) (i : nat) : option H :=
  if i <? hp_Len h then Some (heap_down_or_up h i (hp_Len h))
  else if i =? 0 then Some h else None.
End container_heap.

(** ** [common.Heap]

    An item is a pointer, and its [BaseHeapItem.heapIndex] is a field in the
    store behind it: [hd_index] maps the items ever pushed to the field. *)

Record Heap (P : Type) `{Countable P} := mkHeap {
  hd_data : list P;
  hd_index : gmap P nat
}.
Arguments mkHeap {P _ _} _ _.
Arguments hd_data {P _ _} _.
Arguments hd_index {P _ _} _.

Section common_heap.
Context {P : Type} `{Countable P}.
Context (lessFunc : P -> P -> bool).

Definition NewHeap : Heap P := mkHeap [] ∅.

Definition Heap_Len (h : Heap P) : nat := length (hd_data h).

Definition Heap_Less (h : Heap P) (i j : nat) : bool :=
  match hd_data h !! i, hd_data h !! j with
  | Some x, Some y => lessFunc x y
  | _, _ => false
  end.

Definition Heap_Swap (h : Heap P) (i j : nat) : Heap P :=
  match hd_data h !! i, hd_data h !! j with
  | Some x, Some y =>
      mkHeap (<[j := x]> (<[i := y]> (hd_data h))) (<[x := j]> (<[y := i]> (hd_index h)))
  | _, _ => h
  end.

Definition Heap_Push (h : Heap P) (x : P) : Heap P :=
  mkHeap (hd_data h ++ [x]) (<[x := Heap_Len h]> (hd_index h)).

Definition Heap_Pop (h : Heap P) : option (P * Heap P) :=
  match last (hd_data h) with
  | Some x => Some (x, mkHeap (take (Heap_Len h - 1) (hd_data h)) (hd_index h))
  | None => None
  end.

Definition Heap_Peek (h : Heap P) : option P := hd_data h !! 0.

Definition GetHeapIndex (h : Heap P) (x : P) : nat := default 0 (hd_index h !! x).

Definition Heap_interface : HeapInterface (Heap P) P := {|
  hp_Len := Heap_Len;
  hp_Less := Heap_Less;
  hp_Swap := Heap_Swap;
  hp_Push := Heap_Push;
  hp_Pop := Heap_Pop
|}.
End common_heap.

(** ** The priority queue of the consensus core

    [prque.Prque]: values with a priority, the greatest first. A priority is a
    [float32] that holds an integer, kept as that integer. *)

Section prque.
Context {V : Type}.

Abbreviation Prque := (list (V * Z)).

Definition prque_New : Prque := [].

#[export] Instance Prque_interface : HeapInterface Prque (V * Z) := {|
  hp_Len := length;
  hp_Less := fun q i j =>
    match q !! i, q !! j with
    | Some x, Some y => (y.2 <? x.2)%Z
    | _, _ => false
    end;
  hp_Swap := fun q i j =>
    match q !! i, q !! j with
    | Some x, Some y => <[j := x]> (<[i := y]> q)
    | _, _ => q
    end;
  hp_Push := fun q x => q ++ [x];
  hp_Pop := fun q =>
    match last q with
    | Some x => Some (x, take (length q - 1) q)
    | None => None
    end
|}.

Definition prque_Push (q : Prque) (data : V) (priority : Z) : Prque :=
  heap_Push q (data, priority).

Definition prque_Pop (q : Prque) : option (V * Z * Prque) := heap_Pop q.

Definition prque_Empty (q : Prque) : bool := bool_decide (length q = 0).
End prque.

Abbreviation Prque V := (list (V * Z)).

(** ** What a heap promises

    [HeapLaws] relates an implementation of the interface to the list of its
    items, and its comparison to a total preorder: [less] may be the strict
    order (the nonce and the best heap) or the reflexive one (the worst heap). *)

Class HeapLaws (St A : Type) {HI : HeapInterface St A} := {
  hp_view : St -> list A;
  hp_le : A -> A -> Prop;
  law_preorder :: PreOrder hp_le;
  law_len h : hp_Len h = length (hp_view h);
  law_less_true h i j x y :
    hp_view h !! i = Some x -> hp_view h !! j = Some y ->
    hp_Less h i j = true -> hp_le x y;
  law_less_false h i j x y :
    hp_view h !! i = Some x -> hp_view h !! j = Some y ->
    hp_Less h i j = false -> hp_le y x;
  law_swap h i j x y :
    hp_view h !! i = Some x -> hp_view h !! j = Some y ->
    hp_view (hp_Swap h i j) = <[j := x]> (<[i := y]> (hp_view h));
  law_push h x : hp_view (hp_Push h x) = hp_view h ++ [x];
  law_pop h l x :
    hp_view h = l ++ [x] -> exists h', hp_Pop h = Some (x, h') /\ hp_view h' = l
}.

(** [c] is a child of [p] in the array layout of the heap. *)
Definition heap_child (p c : nat) : Prop := c = 2 * p + 1 \/ c = 2 * p + 2.

Lemma heap_parent_child j : 0 < j -> heap_child ((j - 1) / 2) j.
Proof.
  intros Hj. unfold heap_child.
  pose proof (Nat.div_mod_eq (j - 1) 2). pose proof (Nat.mod_upper_bound (j - 1) 2). lia.
Qed.

Section heap_order.
Context {A : Type} (R : A -> A -> Prop) {R_pre : PreOrder R}.

(** The heap order on the first [n] positions, *)
Definition heap_upto (l : list A) (n : nat) : Prop :=
  forall p c x y, heap_child p c -> c < n ->
    l !! p = Some x -> l !! c = Some y -> R x y.

Definition heap_ok (l : list A) : Prop := heap_upto l (length l).

(** and the same except around position [i], whose item may be anything. *)
Definition heap_except (l : list A) (n i : nat) : Prop :=
  (forall p c x y, heap_child p c -> c < n -> c <> i -> p <> i ->
     l !! p = Some x -> l !! c = Some y -> R x y)
  /\ (forall p c x y, heap_child p i -> heap_child i c -> c < n ->
     l !! p = Some x -> l !! c = Some y -> R x y).

(** The edge above [i], and the edges below [i]. *)
Definition edge_above (l : list A) (i : nat) : Prop :=
  forall p x y, heap_child p i -> l !! p = Some x -> l !! i = Some y -> R x y.

Definition edges_below (l : list A) (n i : nat) : Prop :=
  forall c x y, heap_child i c -> c < n -> l !! i = Some x -> l !! c = Some y -> R x y.

Lemma heap_from_except l n i :
  heap_except l n i -> edge_above l i -> edges_below l n i -> heap_upto l n.
Proof.
  intros [Hex _] Ha Hb p c x y Hpc Hc Hx Hy.
  destruct (decide (c = i)) as [->|]; [by eapply Ha|].
  destruct (decide (p = i)) as [->|]; [by eapply Hb|]. by eapply Hex.
Qed.

Lemma heap_to_except l n i :
  heap_upto l n -> i < n -> n <= length l -> heap_except l n i.
Proof.
  intros Hh Hi Hn. split; [intros; by eapply Hh|].
  intros p c x y Hp Hc Hcn Hx Hy.
  destruct (lookup_lt_is_Some_2 l i) as [z Hz]; [lia|].
  transitivity z; [eapply (Hh p i)|eapply (Hh i c)]; eauto.
Qed.

Lemma swap_lookup (l : list A) i j x y k :
  l !! i = Some x -> l !! j = Some y ->
  <[j := x]> (<[i := y]> l) !! k =
    if decide (k = j) then Some x else if decide (k = i) then Some y else l !! k.
Proof.
  intros Hi Hj. apply lookup_lt_Some in Hi, Hj.
  repeat case_decide; subst.
  - rewrite list_lookup_insert_eq; [done|by rewrite length_insert].
  - rewrite list_lookup_insert_ne by done. by rewrite list_lookup_insert_eq.
  - by rewrite !list_lookup_insert_ne.
Qed.

Lemma swap_perm (l : list A) i j x y :
  l !! i = Some x -> l !! j = Some y -> <[j := x]> (<[i := y]> l) ≡ₚ l.
Proof.
  intros Hi Hj. apply Permutation_inj. split.
  { by rewrite !length_insert. }
  exists (fun k => if decide (k = j) then i else if decide (k = i) then j else k). split.
  - intros a b Hab. repeat case_decide; congruence.
  - intros k. rewrite (swap_lookup l i j x y) by done. repeat case_decide; congruence.
Qed.
End heap_order.

(** Rewrite the lookups of a swapped list and split on the positions. *)
Ltac swap_cases :=
  repeat match goal with
  | Hl : context [<[_ := _]> (<[_ := _]> _) !! _] |- _ =>
      erewrite swap_lookup in Hl by eassumption
  | |- context [<[_ := _]> (<[_ := _]> _) !! _] => erewrite swap_lookup by eassumption
  end; repeat case_decide; simplify_eq.

Section heap_correct.
Context {St A : Type} {HI : HeapInterface St A} {HL : HeapLaws St A}.
Implicit Types (h : St) (l : list A).

#[local] Abbreviation heap_upto := (heap_upto hp_le).
#[local] Abbreviation heap_ok := (heap_ok hp_le).
#[local] Abbreviation heap_except := (heap_except hp_le).
#[local] Abbreviation edge_above := (edge_above hp_le).
#[local] Abbreviation edges_below := (edges_below hp_le).

(** An edge that the swap left alone, or the edge across the swapped pair. *)
Ltac by_edge ex1 ex2 :=
  solve [ lia
        | eapply ex1; [| | | |eassumption|eassumption]; lia
        | eapply ex2; [| | |eassumption|eassumption]; lia ].

(** Moving the item of [j] up: the violation moves from [j] to its parent. *)
Lemma up_step l n i j x y :
  heap_child i j -> j < n -> l !! i = Some x -> l !! j = Some y -> hp_le y x ->
  heap_except l n j -> edges_below l n j ->
  let l' := <[j := x]> (<[i := y]> l) in heap_except l' n i /\ edges_below l' n i.
Proof.
  intros Hij Hj Hx Hy Hle [Hex1 Hex2] Hb l'.
  unfold GoHeap.heap_except, GoHeap.edges_below, heap_child in *.
  assert (Hedge : forall c z, (c = 2 * i + 1 \/ c = 2 * i + 2) -> c <> j -> c < n ->
    l !! c = Some z -> hp_le x z).
  { intros c z Hc ? ? Hz. eapply (Hex1 i c); eauto; lia. }
  subst l'. repeat split.
  - intros p c u v Hpc Hc ? ? Hu Hv. swap_cases; by_edge Hex1 Hex2.
  - intros p c u v Hp Hc Hcn Hu Hv. swap_cases; try by_edge Hex1 Hex2.
    transitivity x; [by_edge Hex1 Hex2|eapply Hedge; eauto; lia].
  - intros c u v Hc Hcn Hu Hv. swap_cases; try lia; try done.
    transitivity x; [done|eapply Hedge; eauto; lia].
Qed.

(** Moving the item of [i] down to its smaller child [j]. *)
Lemma down_step l n i j x y :
  heap_child i j -> j < n -> l !! i = Some x -> l !! j = Some y -> hp_le y x ->
  (forall c z, heap_child i c -> c < n -> l !! c = Some z -> hp_le y z) ->
  heap_except l n i ->
  let l' := <[j := x]> (<[i := y]> l) in heap_except l' n j /\ edge_above l' j.
Proof.
  intros Hij Hj Hx Hy Hle Hmin [Hex1 Hex2] l'.
  unfold GoHeap.heap_except, GoHeap.edge_above, heap_child in *. subst l'. repeat split.
  - intros p c u v Hpc Hc ? ? Hu Hv. swap_cases; try by_edge Hex1 Hex2.
    eapply Hmin; eauto; lia.
  - intros p c u v Hp Hc Hcn Hu Hv. swap_cases; by_edge Hex1 Hex2.
  - intros p u v Hp Hu Hv. swap_cases; try lia; try done.
Qed.

Lemma heap_up_spec fuel h j n :
  j < fuel -> j < n -> n <= length (hp_view h) ->
  heap_except (hp_view h) n j -> edges_below (hp_view h) n j ->
  let h' := heap_up fuel h j in
  heap_upto (hp_view h') n /\ hp_view h' ≡ₚ hp_view h
  /\ (forall k, n <= k -> hp_view h' !! k = hp_view h !! k).
Proof.
  revert h j; induction fuel as [|fuel IH]; intros h j Hf Hj Hn Hex Hb; [lia|].
  cbn [heap_up]. destruct (decide (j = 0)) as [->|Hj0].
  { cbn. split; [|done]. apply (heap_from_except _ _ _ 0); [done| |done].
    intros p x y [?|?]; lia. }
  pose proof (heap_parent_child j) as Hpar. specialize (Hpar ltac:(lia)).
  set (i := (j - 1) / 2) in *.
  assert (Hi : i < j) by (unfold heap_child in Hpar; lia).
  destruct (Nat.eqb_spec i j) as [|_]; [lia|]. cbn [orb].
  destruct (lookup_lt_is_Some_2 (hp_view h) i) as [x Hx]; [lia|].
  destruct (lookup_lt_is_Some_2 (hp_view h) j) as [y Hy]; [lia|].
  destruct (hp_Less h j i) eqn:Hless; cbn [negb].
  - apply (law_less_true _ _ _ _ _ Hy Hx) in Hless.
    destruct (up_step _ _ _ _ _ _ Hpar Hj Hx Hy Hless Hex Hb) as [Hex' Hb'].
    rewrite <- (law_swap _ _ _ _ _ Hx Hy) in Hex', Hb'.
    destruct (IH (hp_Swap h i j) i) as (IH1 & IH2 & IH3); try done; [lia|lia| |].
    { rewrite (law_swap _ _ _ _ _ Hx Hy), !length_insert. lia. }
    split; [done|]. rewrite (law_swap _ _ _ _ _ Hx Hy) in IH2, IH3. split.
    + rewrite IH2. by apply swap_perm.
    + intros k Hk. rewrite IH3 by done. rewrite !list_lookup_insert_ne; [done|lia|lia].
  - split; [|done]. apply (heap_from_except _ _ _ j); [done| |done].
    intros p u v Hp Hu Hv. unfold heap_child in *. assert (p = i) as -> by lia.
    simplify_eq. by eapply (law_less_false h j i).
Qed.

Lemma smaller_child h n i j1 j :
  j1 = 2 * i + 1 -> j1 < n -> n <= length (hp_view h) ->
  j = (if (j1 + 1 <? n) && hp_Less h (j1 + 1) j1 then j1 + 1 else j1) ->
  heap_child i j /\ j < n /\
  forall y, hp_view h !! j = Some y ->
    forall c z, heap_child i c -> c < n -> hp_view h !! c = Some z -> hp_le y z.
Proof.
  intros -> Hj1 Hn ->. unfold heap_child.
  replace (2 * i + 1 + 1) with (2 * i + 2) by lia.
  destruct (Nat.ltb_spec (2 * i + 2) n) as [Hlt|Hge]; cbn [andb].
  - destruct (hp_Less h _ _) eqn:Hless; (split; [lia|split; [lia|]]);
      intros y Hy c z [->| ->] Hc Hz; simplify_eq; try done.
    + eapply law_less_true; [exact Hy|exact Hz|done].
    + eapply law_less_false; [exact Hz|exact Hy|done].
  - split; [lia|split; [lia|]]. intros y Hy c z [->| ->] Hc Hz; [by simplify_eq|lia].
Qed.

Lemma heap_down_loop_spec fuel h i n :
  n <= fuel + i -> i < n -> n <= length (hp_view h) -> heap_except (hp_view h) n i ->
  let '(h', i') := heap_down_loop fuel h i n in
  hp_view h' ≡ₚ hp_view h /\ (forall k, n <= k -> hp_view h' !! k = hp_view h !! k)
  /\ (i' = i -> h' = h /\ edges_below (hp_view h) n i)
  /\ (i < i' \/ edge_above (hp_view h) i -> heap_upto (hp_view h') n)
  /\ i <= i'.
Proof.
  revert h i; induction fuel as [|fuel IH]; intros h i Hf Hi Hn Hex; [lia|].
  cbn [heap_down_loop].
  assert (Hstop : edges_below (hp_view h) n i ->
    hp_view h ≡ₚ hp_view h /\ (forall k, n <= k -> hp_view h !! k = hp_view h !! k)
    /\ (i = i -> h = h /\ edges_below (hp_view h) n i)
    /\ (i < i \/ edge_above (hp_view h) i -> heap_upto (hp_view h) n) /\ i <= i).
  { intros Hb. repeat split; auto. intros [?|Ha]; [lia|]. by eapply heap_from_except. }
  destruct (Nat.leb_spec n (2 * i + 1)) as [Hle|Hlt].
  { apply Hstop. intros c x y [->| ->]; lia. }
  destruct (smaller_child h n i _ _ eq_refl Hlt Hn eq_refl) as (Hc & Hjn & Hmin).
  set (j := if _ && _ then _ else _) in *.
  destruct (lookup_lt_is_Some_2 (hp_view h) i) as [x Hx]; [lia|].
  destruct (lookup_lt_is_Some_2 (hp_view h) j) as [y Hy]; [lia|].
  specialize (Hmin y Hy). destruct (hp_Less h j i) eqn:Hless; cbn [negb].
  - apply (law_less_true _ _ _ _ _ Hy Hx) in Hless.
    destruct (down_step _ _ _ _ _ _ Hc Hjn Hx Hy Hless Hmin Hex) as [Hex' Ha'].
    rewrite <- (law_swap _ _ _ _ _ Hx Hy) in Hex', Ha'.
    assert (i < j) by (unfold heap_child in Hc; lia).
    specialize (IH (hp_Swap h i j) j). rewrite (law_swap _ _ _ _ _ Hx Hy) in IH.
    rewrite !length_insert in IH. rewrite (law_swap _ _ _ _ _ Hx Hy) in Hex', Ha'.
    specialize (IH ltac:(lia) Hjn Hn Hex').
    destruct (heap_down_loop fuel (hp_Swap h i j) j n) as [h' i'].
    destruct IH as (IH1 & IH2 & IH3 & IH4 & IH5). repeat split; [| |lia..| |lia].
    + rewrite IH1. by apply swap_perm.
    + intros k Hk. rewrite IH2 by done. rewrite !list_lookup_insert_ne; [done|lia|lia].
    + intros _. by apply IH4; right.
  - apply Hstop. intros c u v Hic Hcn Hu Hv. simplify_eq.
    transitivity y; [by eapply (law_less_false h j i)|by eapply Hmin].
Qed.

Lemma heap_down_or_up_spec h i n :
  i < n -> n <= length (hp_view h) -> heap_except (hp_view h) n i ->
  let h' := heap_down_or_up h i n in
  heap_upto (hp_view h') n /\ hp_view h' ≡ₚ hp_view h
  /\ (forall k, n <= k -> hp_view h' !! k = hp_view h !! k).
Proof.
  intros Hi Hn Hex. unfold heap_down_or_up, heap_down.
  pose proof (heap_down_loop_spec n h i n ltac:(lia) Hi Hn Hex) as Hd.
  destruct (heap_down_loop n h i n) as [h' i'].
  destruct Hd as (Hp & Hk & Hsame & Hmoved & Hle).
  destruct (Nat.ltb_spec i i') as [Hlt|Hge]; [by auto|].
  destruct (Hsame ltac:(lia)) as [-> Hb].
  by apply heap_up_spec; [lia| | | |].
Qed.

(** The root is a minimum. *)
Lemma heap_root_min l x k y :
  heap_ok l -> l !! 0 = Some x -> l !! k = Some y -> hp_le x y.
Proof.
  intros Hok Hx. revert y. induction k as [k IH] using lt_wf_ind. intros y Hy.
  destruct (decide (k = 0)) as [->|Hk]; [by simplify_eq|].
  pose proof (heap_parent_child k ltac:(lia)) as Hc.
  pose proof (lookup_lt_Some _ _ _ Hy).
  assert ((k - 1) / 2 < k) by (unfold heap_child in Hc; lia).
  destruct (lookup_lt_is_Some_2 l ((k - 1) / 2)) as [z Hz]; [lia|].
  transitivity z; [by eapply IH|by eapply Hok].
Qed.

Lemma heap_upto_ext l l' n :
  (forall k, k < n -> l !! k = l' !! k) -> heap_upto l n -> heap_upto l' n.
Proof.
  intros Heq Hl p c x y Hpc Hc. unfold heap_child in Hpc.
  rewrite <- !Heq by lia. by apply Hl.
Qed.

Lemma heap_Push_spec h x :
  heap_ok (hp_view h) ->
  heap_ok (hp_view (heap_Push h x)) /\ hp_view (heap_Push h x) ≡ₚ x :: hp_view h.
Proof.
  intros Hok. unfold heap_Push. rewrite law_len, law_push, length_app. cbn [length].
  rewrite Nat.add_sub. set (n := length (hp_view h)).
  assert (Hlk : forall k y, k < n -> (hp_view h ++ [x]) !! k = Some y -> hp_view h !! k = Some y)
    by (intros k y Hk; by rewrite lookup_app_l).
  assert (Hlen : length (hp_view (hp_Push h x)) = n + 1) by (by rewrite law_push, length_app).
  destruct (heap_up_spec (n + 1) (hp_Push h x) n (n + 1)) as (H1 & H2 & _); try lia.
  - rewrite law_push. unfold GoHeap.heap_except, heap_child. split; [|lia].
    intros p c u v Hpc Hc ? ? Hu Hv.
    apply (Hok p c); [done|fold n; lia| |]; apply Hlk; auto; lia.
  - intros c u v Hc ? _ _. unfold heap_child in Hc; lia.
  - rewrite law_push in H2. split.
    + unfold GoHeap.heap_ok. by rewrite (Permutation_length H2), length_app.
    + rewrite H2. by rewrite Permutation_app_comm.
Qed.

(** After the last position has been exchanged with [i] and the first [n]
    restored, popping returns the item that was at [i]. *)
Lemma heap_pop_last h' l n x :
  heap_upto (hp_view h') n -> hp_view h' ≡ₚ l -> length l = S n ->
  hp_view h' !! n = Some x ->
  exists h'', hp_Pop h' = Some (x, h'') /\ heap_ok (hp_view h'') /\ l ≡ₚ x :: hp_view h''.
Proof.
  intros Hh Hp Hl Hx. assert (Hlen : length (hp_view h') = S n) by (by rewrite (Permutation_length Hp)).
  assert (Hv : hp_view h' = take n (hp_view h') ++ [x]).
  { rewrite <- (take_drop n (hp_view h')) at 1. f_equal.
    rewrite (drop_S _ x) by done. by rewrite drop_ge by lia. }
  destruct (law_pop _ _ _ Hv) as (h'' & Hpop & Hv'').
  exists h''. split; [done|]. rewrite Hv''. split.
  - unfold GoHeap.heap_ok. rewrite length_take, Hlen, Nat.min_l by lia.
    eapply heap_upto_ext; [|done]. intros k Hk. by rewrite lookup_take_lt.
  - rewrite <- Hp, Hv at 1. by rewrite Permutation_app_comm.
Qed.

Lemma heap_Pop_spec h x :
  heap_ok (hp_view h) -> hp_view h !! 0 = Some x ->
  exists h', heap_Pop h = Some (x, h') /\ heap_ok (hp_view h')
    /\ hp_view h ≡ₚ x :: hp_view h'.
Proof.
  intros Hok Hx. pose proof (lookup_lt_Some _ _ _ Hx) as Hlen.
  unfold heap_Pop. rewrite law_len.
  destruct (length (hp_view h)) as [|n] eqn:Hn; [lia|].
  destruct (lookup_lt_is_Some_2 (hp_view h) n) as [y Hy]; [lia|].
  pose proof (law_swap _ _ _ _ _ Hx Hy) as Hsw.
  unfold heap_down.
  assert (Hspec : let '(h1, _) := heap_down_loop n (hp_Swap h 0 n) 0 n in
    heap_upto (hp_view h1) n /\ hp_view h1 ≡ₚ hp_view h /\ hp_view h1 !! n = Some x).
  { pose proof (swap_perm (hp_view h) 0 n x y Hx Hy) as Hperm.
    pose proof (swap_lookup (hp_view h) 0 n x y n Hx Hy) as Hlast.
    rewrite decide_True in Hlast by done.
    destruct (decide (n = 0)) as [->|Hn0].
    { cbn. rewrite Hsw. repeat split; [|done|done]. intros p c u v Hpc Hc. lia. }
    pose proof (heap_down_loop_spec n (hp_Swap h 0 n) 0 n) as Hd.
    rewrite Hsw, !length_insert in Hd. specialize (Hd ltac:(lia) ltac:(lia) ltac:(lia)).
    destruct (heap_down_loop _ _ _ _) as [h1 i1]. destruct Hd as (Hp & Hk & _ & Hh & _).
    - unfold heap_child. split; [|intros; unfold heap_child in *; lia].
      intros p c u v Hpc Hc ? ? Hu Hv. swap_cases; unfold heap_child in *; try lia.
      eapply (Hok p c); eauto. lia.
    - rewrite Hk by done. repeat split; [|by rewrite Hp|done].
      apply Hh. right. intros p u v Hp0. unfold heap_child in Hp0. lia. }
  destruct (heap_down_loop n (hp_Swap h 0 n) 0 n) as [h1 i1].
  destruct Hspec as (Hh & Hp & Hl). by eapply heap_pop_last.
Qed.

(** Removing an item is possible also when the order around it is broken. *)
Lemma heap_Remove_except_spec h i x :
  heap_except (hp_view h) (length (hp_view h)) i -> hp_view h !! i = Some x ->
  exists h', heap_Remove h i = Some (x, h') /\ heap_ok (hp_view h')
    /\ hp_view h ≡ₚ x :: hp_view h'.
Proof.
  intros Hex Hx. pose proof (lookup_lt_Some _ _ _ Hx) as Hlen.
  unfold heap_Remove. rewrite law_len. revert Hex.
  destruct (length (hp_view h)) as [|n] eqn:Hn; [lia|]. intros [He1 He2].
  destruct (Nat.ltb_spec n i); [lia|]. destruct (Nat.eqb_spec n i) as [->|Hne].
  { apply (heap_pop_last h (hp_view h) i x); try done.
    intros p c u v Hpc Hc. unfold heap_child in *. apply (He1 p c); unfold heap_child; lia. }
  destruct (lookup_lt_is_Some_2 (hp_view h) n) as [y Hy]; [lia|].
  pose proof (law_swap _ _ _ _ _ Hx Hy) as Hsw.
  pose proof (swap_perm (hp_view h) i n x y Hx Hy) as Hperm.
  pose proof (swap_lookup (hp_view h) i n x y n Hx Hy) as Hlast.
  rewrite decide_True in Hlast by done.
  destruct (heap_down_or_up_spec (hp_Swap h i n) i n) as (Hh & Hp & Hk).
  - lia.
  - rewrite Hsw, !length_insert. lia.
  - rewrite Hsw. unfold heap_child in *. split; intros; swap_cases; unfold heap_child in *; try lia.
    + eapply He1; [| | | |eassumption|eassumption]; unfold heap_child; lia.
    + eapply He2; [| | |eassumption|eassumption]; unfold heap_child; lia.
  - eapply heap_pop_last; [done| |done|].
    + rewrite Hp, Hsw. done.
    + rewrite Hk, Hsw by done. done.
Qed.

Lemma heap_Remove_spec h i x :
  heap_ok (hp_view h) -> hp_view h !! i = Some x ->
  exists h', heap_Remove h i = Some (x, h') /\ heap_ok (hp_view h')
    /\ hp_view h ≡ₚ x :: hp_view h'.
Proof.
  intros Hok Hx. apply heap_Remove_except_spec; [|done].
  pose proof (lookup_lt_Some _ _ _ Hx). apply (heap_to_except _ _ _ i Hok); lia.
Qed.

Lemma heap_Fix_spec h i :
  i < length (hp_view h) -> heap_except (hp_view h) (length (hp_view h)) i ->
  exists h', heap_Fix h i = Some h' /\ heap_ok (hp_view h') /\ hp_view h' ≡ₚ hp_view h.
Proof.
  intros Hi Hex. unfold heap_Fix. rewrite law_len.
  destruct (Nat.ltb_spec i (length (hp_view h))) as [_|]; [|lia].
  destruct (heap_down_or_up_spec h i _ Hi (Nat.le_refl _) Hex) as (Hh & Hp & _).
  eexists; split; [done|]. split; [|done]. unfold GoHeap.heap_ok. by rewrite (Permutation_length Hp).
Qed.
End heap_correct.

(** ** Invariants that the exchanges keep *)

Section heap_invariant.
Context {St A : Type} {HI : HeapInterface St A}.
Context (Inv : St -> Prop).
Context (Inv_swap : forall h i j, Inv h -> Inv (hp_Swap h i j)).

Lemma heap_up_inv fuel h j : Inv h -> Inv (heap_up fuel h j).
Proof.
  revert h j; induction fuel as [|fuel IH]; intros h j Hh; cbn [heap_up]; [done|].
  destruct (_ || _); auto.
Qed.

Lemma heap_down_loop_inv fuel h i n : Inv h -> Inv (heap_down_loop fuel h i n).1.
Proof.
  revert h i; induction fuel as [|fuel IH]; intros h i Hh; cbn [heap_down_loop]; [done|].
  destruct (_ <=? _); [done|]. destruct (negb _); auto.
Qed.

Lemma heap_down_inv h i n : Inv h -> Inv (heap_down h i n).1.
Proof.
  intros Hh. unfold heap_down. pose proof (heap_down_loop_inv n h i n Hh).
  by destruct (heap_down_loop n h i n).
Qed.

Lemma heap_down_or_up_inv h i n : Inv h -> Inv (heap_down_or_up h i n).
Proof.
  intros Hh. unfold heap_down_or_up. pose proof (heap_down_inv h i n Hh).
  destruct (heap_down h i n) as [h1 []]; [done|]. by apply heap_up_inv.
Qed.
End heap_invariant.

(** ** The priority queue satisfies the laws *)

Section prque_laws.
Context {V : Type}.
Implicit Types q : Prque V.

Definition prio_ge (x y : V * Z) : Prop := (y.2 <= x.2)%Z.

#[export] Instance prio_ge_preorder : PreOrder prio_ge.
Proof. unfold prio_ge. split; [intros x; lia|intros x y z; lia]. Qed.

#[export] Program Instance Prque_laws : HeapLaws (Prque V) (V * Z) := {|
  hp_view := fun q => q;
  hp_le := prio_ge
|}.
Next Obligation. done. Qed.
Next Obligation. cbn. intros * -> ->. unfold prio_ge. lia. Qed.
Next Obligation. cbn. intros * -> ->. unfold prio_ge. lia. Qed.
Next Obligation. cbn. by intros * -> ->. Qed.
Next Obligation. done. Qed.
Next Obligation.
  cbn. intros h l x ->. exists l. rewrite last_snoc, length_app. cbn.
  by rewrite Nat.add_sub, take_app_length.
Qed.

Definition prque_ok q : Prop := heap_ok prio_ge q.

Lemma prque_New_ok : prque_ok prque_New.
Proof. intros p c x y _ Hc. cbn in Hc. lia. Qed.

Lemma prque_Push_ok q v p :
  prque_ok q -> prque_ok (prque_Push q v p) /\ prque_Push q v p ≡ₚ (v, p) :: q.
Proof. intros Hok. exact (heap_Push_spec q (v, p) Hok). Qed.

(** A non-empty queue gives its greatest priority first and loses only that
    item. *)
Lemma prque_Pop_spec q :
  prque_ok q -> q <> [] ->
  exists v p q', prque_Pop q = Some (v, p, q') /\ prque_ok q' /\ q ≡ₚ (v, p) :: q'
    /\ (forall w r, (w, r) ∈ q -> (r <= p)%Z).
Proof.
  intros Hok Hne. destruct q as [|[v p] q0] eqn:Hq; [done|]. rewrite <- Hq in *.
  assert (Hx : q !! 0 = Some (v, p)) by (by rewrite Hq).
  destruct (heap_Pop_spec (HL := Prque_laws) q (v, p) Hok Hx) as (q' & Hpop & Hok' & Hp).
  exists v, p, q'. split; [done|]. split; [done|]. split; [done|].
  intros w r [k Hk]%list_elem_of_lookup. exact (heap_root_min (HL := Prque_laws) q _ _ _ Hok Hx Hk).
Qed.

Lemma prque_Pop_length q v p q' :
  prque_Pop q = Some (v, p, q') -> prque_ok q -> length q = S (length q').
Proof.
  intros Hpop Hok. destruct (prque_Pop_spec q Hok) as (v' & p' & q'' & Hpop' & _ & Hperm & _).
  { by intros ->. }
  rewrite Hpop' in Hpop. simplify_eq. by rewrite (Permutation_length Hperm).
Qed.

Lemma prque_Empty_spec q : prque_Empty q = true <-> q = [].
Proof.
  unfold prque_Empty. rewrite bool_decide_eq_true. split; [apply nil_length_inv|by intros ->].
Qed.
End prque_laws.

(** ** [common.Heap] satisfies the laws, for any comparison that decides a
    total preorder, and keeps the position recorded in each item *)

Section common_heap_laws.
Context {P : Type} `{Countable P}.
Context (lessFunc : P -> P -> bool) (le : P -> P -> Prop) {le_pre : PreOrder le}.
Context (less_true : forall x y, lessFunc x y = true -> le x y).
Context (less_false : forall x y, lessFunc x y = false -> le y x).

#[local] Instance Heap_interface_here : HeapInterface (Heap P) P := Heap_interface lessFunc.

#[local] Program Instance Heap_laws : HeapLaws (Heap P) P := {|
  hp_view := hd_data;
  hp_le := le
|}.
Next Obligation. done. Qed.
Next Obligation.
  intros h i j x y Hx Hy. cbn. unfold Heap_Less. rewrite Hx, Hy. apply less_true.
Qed.
Next Obligation.
  intros h i j x y Hx Hy. cbn. unfold Heap_Less. rewrite Hx, Hy. apply less_false.
Qed.
Next Obligation. intros h i j x y Hx Hy. cbn. unfold Heap_Swap. by rewrite Hx, Hy. Qed.
Next Obligation. done. Qed.
Next Obligation.
  intros h l x Hv. cbn. unfold Heap_Pop, Heap_Len. rewrite Hv, last_snoc, length_app. cbn.
  eexists; split; [done|]. cbn. by rewrite Nat.add_sub, take_app_length.
Qed.

(** Every item in the heap knows its position. *)
Definition heap_index_ok (h : Heap P) : Prop :=
  forall i x, hd_data h !! i = Some x -> hd_index h !! x = Some i.

Lemma heap_index_swap h i j : heap_index_ok h -> heap_index_ok (Heap_Swap h i j).
Proof.
  intros Hok. unfold Heap_Swap.
  destruct (hd_data h !! i) as [x|] eqn:Hx; [|done].
  destruct (hd_data h !! j) as [y|] eqn:Hy; [|done].
  intros k z Hz. cbn in *. swap_cases.
  - by rewrite lookup_insert_eq.
  - destruct (decide (x = z)) as [->|Hne].
    + apply Hok in Hx, Hy. congruence.
    + rewrite lookup_insert_ne by done. by rewrite lookup_insert_eq.
  - pose proof (Hok _ _ Hx). pose proof (Hok _ _ Hy). pose proof (Hok _ _ Hz).
    rewrite !lookup_insert_ne by congruence. done.
Qed.

(** The well-formedness of a heap: ordered, and indexed. *)
Definition Heap_wf (h : Heap P) : Prop := heap_ok le (hd_data h) /\ heap_index_ok h.

Lemma NewHeap_wf : Heap_wf NewHeap.
Proof. split; [intros p c x y _ Hc; cbn in Hc; lia|done]. Qed.

Lemma Heap_Pop_index h x h' :
  Heap_Pop h = Some (x, h') -> heap_index_ok h -> heap_index_ok h'.
Proof.
  unfold Heap_Pop. destruct (last (hd_data h)) as [z|]; [|done].
  intros [= -> <-] Hok i y Hy. cbn in *. apply Hok.
  destruct (decide (i < Heap_Len h - 1)); [by rewrite lookup_take_lt in Hy|].
  rewrite lookup_take_ge in Hy by lia. done.
Qed.

Lemma Heap_Push_wf h x :
  Heap_wf h -> x ∉ hd_data h ->
  let h' := heap_Push h x in Heap_wf h' /\ hd_data h' ≡ₚ x :: hd_data h.
Proof.
  intros [Hok Hi] Hx h'. destruct (heap_Push_spec (HL := Heap_laws) h x Hok) as [Hok' Hp].
  split; [|exact Hp]. split; [exact Hok'|].
  apply (heap_up_inv (HI := Heap_interface_here) heap_index_ok heap_index_swap).
  intros i y Hy. cbn in *. apply lookup_app_Some in Hy as [Hy|[Hge Hy]].
  - rewrite lookup_insert_ne; [by apply Hi|].
    intros ->. apply Hx, list_elem_of_lookup. eauto.
  - apply list_lookup_singleton_Some in Hy as [Hi0 ->]. rewrite lookup_insert_eq.
    unfold Heap_Len. f_equal. lia.
Qed.

(** Removing by the recorded position removes that very item. *)
Lemma Heap_Remove_except h x i :
  heap_index_ok h -> hd_data h !! i = Some x ->
  heap_except le (hd_data h) (length (hd_data h)) i ->
  exists h', heap_Remove h (GetHeapIndex h x) = Some (x, h') /\ Heap_wf h'
    /\ hd_data h ≡ₚ x :: hd_data h'.
Proof.
  intros Hi Hx Hex. unfold GetHeapIndex. rewrite (Hi _ _ Hx). cbn [default].
  destruct (heap_Remove_except_spec (HL := Heap_laws) h i x Hex Hx) as (h' & Hr & Hok' & Hp).
  exists h'. split; [done|]. split; [|done]. split; [done|].
  revert Hr. unfold heap_Remove. change (hp_Len h) with (Heap_Len h). destruct (Heap_Len h) as [|n]; [done|].
  destruct (n <? i); [done|]. destruct (n =? i); intros Hr.
  - exact (Heap_Pop_index _ _ _ Hr Hi).
  - refine (Heap_Pop_index _ _ _ Hr _).
    apply (heap_down_or_up_inv (HI := Heap_interface_here) heap_index_ok heap_index_swap). by apply heap_index_swap.
Qed.

Lemma Heap_Remove_wf h x :
  Heap_wf h -> x ∈ hd_data h ->
  exists h', heap_Remove h (GetHeapIndex h x) = Some (x, h') /\ Heap_wf h'
    /\ hd_data h ≡ₚ x :: hd_data h'.
Proof.
  intros [Hok Hi] [i Hx]%list_elem_of_lookup. apply (Heap_Remove_except h x i); [done|done|].
  pose proof (lookup_lt_Some _ _ _ Hx). apply (heap_to_except _ _ _ i Hok); lia.
Qed.

Lemma Heap_Pop_wf h x :
  Heap_wf h -> Heap_Peek h = Some x ->
  exists h', heap_Pop h = Some (x, h') /\ Heap_wf h' /\ hd_data h ≡ₚ x :: hd_data h'
    /\ (forall y, y ∈ hd_data h -> le x y).
Proof.
  intros [Hok Hi] Hx. destruct (heap_Pop_spec (HL := Heap_laws) h x Hok Hx) as (h' & Hr & Hok' & Hp).
  exists h'. repeat split; try done.
  - revert Hr. unfold heap_Pop. change (hp_Len h) with (Heap_Len h). destruct (Heap_Len h) as [|n]; [done|].
    pose proof (heap_down_inv (HI := Heap_interface_here) heap_index_ok heap_index_swap (Heap_Swap h 0 n) 0 n) as Hd.
    destruct (heap_down _ 0 n) as [h1 b]. intros Hr. refine (Heap_Pop_index _ _ _ Hr _).
    apply Hd. by apply heap_index_swap.
  - intros y [k Hk]%list_elem_of_lookup. exact (heap_root_min (HL := Heap_laws) _ _ _ _ Hok Hx Hk).
Qed.

(** After the value behind one item changed, [heap.Fix] at its position
    restores the order. *)
Lemma Heap_Fix_wf h x i :
  heap_index_ok h -> hd_data h !! i = Some x ->
  heap_except le (hd_data h) (length (hd_data h)) i ->
  exists h', heap_Fix h (GetHeapIndex h x) = Some h' /\ Heap_wf h'
    /\ hd_data h' ≡ₚ hd_data h.
Proof.
  intros Hi Hx Hex. unfold GetHeapIndex. rewrite (Hi _ _ Hx). cbn [default].
  pose proof (lookup_lt_Some _ _ _ Hx) as Hlt.
  destruct (heap_Fix_spec (HL := Heap_laws) h i Hlt Hex) as (h' & Hf & Hok & Hp).
  exists h'. repeat split; try done.
  revert Hf. unfold heap_Fix. change (hp_Len h) with (Heap_Len h). destruct (i <? Heap_Len h) eqn:E.
  - intros [= <-]. by apply (heap_down_or_up_inv (HI := Heap_interface_here) heap_index_ok heap_index_swap).
  - apply Nat.ltb_ge in E. unfold Heap_Len in E. lia.
Qed.
End common_heap_laws.

(** ** Properties of [common.Heap] *)

(** Popping until the heap is empty. *)
Fixpoint heap_drain {P} `{Countable P} (lessFunc : P -> P -> bool) (fuel : nat) (h : Heap P)
    : option (list P) :=
  match fuel with
  | O => Some []
  | S fuel' =>
      match heap_Pop (H0 := Heap_interface lessFunc) h with
      | None => None
      | Some (x, h') =>
          match heap_drain lessFunc fuel' h' with
          | Some l => Some (x :: l)
          | None => None
          end
      end
  end.

(** Popping a well-formed heap until it is empty gives all its items in the
    order of the comparison. *)
Theorem heap_drain_sorted {P} `{Countable P} (lessFunc : P -> P -> bool) (le : P -> P -> Prop)
    {le_pre : PreOrder le} (h : Heap P) :
  (forall x y, lessFunc x y = true -> le x y) -> (forall x y, lessFunc x y = false -> le y x) ->
  Heap_wf le h ->
  exists l, heap_drain lessFunc (Heap_Len h) h = Some l /\ l ≡ₚ hd_data h /\ StronglySorted le l.
Proof.
  intros Ht Hf. remember (Heap_Len h) as n eqn:Hn. revert h Hn.
  induction n as [|n IH]; intros h Hn Hwf; cbn [heap_drain].
  { exists []. symmetry in Hn. apply nil_length_inv in Hn. rewrite Hn. repeat constructor. }
  destruct (hd_data h) as [|x d] eqn:Hd; [unfold Heap_Len in Hn; by rewrite Hd in Hn|].
  destruct (Heap_Pop_wf lessFunc le Ht Hf h x Hwf) as (h' & Hpop & Hwf' & Hp & Hmin).
  { unfold Heap_Peek. by rewrite Hd. }
  unfold Heap_interface_here in Hpop. rewrite Hpop.
  destruct (IH h') as (l & -> & Hpl & Hs); [|done|].
  { apply Permutation_length in Hp. unfold Heap_Len in *. rewrite Hp in Hn. cbn in Hn. lia. }
  exists (x :: l). split; [done|]. rewrite <- Hd. split; [by rewrite Hpl, Hp|].
  constructor; [done|]. apply Forall_forall. intros y Hy. apply Hmin. rewrite Hp, <- Hpl. by right.
Qed.

Lemma heap_drain_sorted_witness :
  let push := heap_Push (H0 := Heap_interface (fun x y : Z => (x <? y)%Z)) in
  heap_drain (fun x y : Z => (x <? y)%Z) 4 (push (push (push (push NewHeap 5%Z) 3%Z) 9%Z) 1%Z)
  = Some [1%Z; 3%Z; 5%Z; 9%Z].
Proof.
  intros push. set (h := push (push (push (push NewHeap 5%Z) 3%Z) 9%Z) 1%Z).
  destruct (heap_drain_sorted (fun x y : Z => (x <? y)%Z) Z.le h) as (l & Hl & _ & _).
  - intros x y. lia.
  - intros x y. lia.
  - assert (Hpush : forall h x, Heap_wf Z.le h -> x ∉ hd_data h -> Heap_wf Z.le (push h x)).
    { intros h0 x Hwf Hx.
      apply (Heap_Push_wf (fun x y : Z => (x <? y)%Z) Z.le); [intros; lia|intros; lia|done|done]. }
    unfold h. repeat apply Hpush; [apply NewHeap_wf|..];
      apply (bool_decide_unpack _); vm_compute; exact I.
  - change (Heap_Len h) with 4 in Hl. rewrite Hl. vm_compute in Hl. injection Hl as <-. reflexivity.
Defined.

(** Removing an item by the position it records removes exactly that item
    and leaves a well-formed heap. *)
Theorem heap_remove_by_index {P} `{Countable P} (lessFunc : P -> P -> bool) (le : P -> P -> Prop)
    {le_pre : PreOrder le} (h : Heap P) (x : P) :
  (forall x y, lessFunc x y = true -> le x y) -> (forall x y, lessFunc x y = false -> le y x) ->
  Heap_wf le h -> x ∈ hd_data h ->
  exists h', heap_Remove (H0 := Heap_interface lessFunc) h (GetHeapIndex h x) = Some (x, h')
    /\ Heap_wf le h' /\ hd_data h ≡ₚ x :: hd_data h'.
Proof. intros Ht Hf. by apply Heap_Remove_wf. Qed.

Lemma heap_remove_by_index_witness :
  let push := heap_Push (H0 := Heap_interface (fun x y : Z => (x <? y)%Z)) in
  let h := push (push NewHeap 5%Z) 3%Z in
  exists h', heap_Remove (H0 := Heap_interface (fun x y : Z => (x <? y)%Z)) h (GetHeapIndex h 5%Z)
    = Some (5%Z, h') /\ hd_data h' = [3%Z].
Proof.
  intros push h.
  destruct (heap_remove_by_index (fun x y : Z => (x <? y)%Z) Z.le h 5%Z) as (h' & Hr & _ & _).
  - intros x y. lia.
  - intros x y. lia.
  - assert (Hpush : forall h x, Heap_wf Z.le h -> x ∉ hd_data h -> Heap_wf Z.le (push h x)).
    { intros h0 x Hwf Hx.
      apply (Heap_Push_wf (fun x y : Z => (x <? y)%Z) Z.le); [intros; lia|intros; lia|done|done]. }
    unfold h. repeat apply Hpush; [apply NewHeap_wf|..];
      apply (bool_decide_unpack _); vm_compute; exact I.
  - apply list_elem_of_In. vm_compute. tauto.
  - exists h'. split; [exact Hr|]. vm_compute in Hr. injection Hr as <-. reflexivity.
Defined.
