(* ===== verification/Verifier.v ===== *)
(** * The verifier set

    Models [consensus/bft/verifier/basics.go], [consensus/bft/verifier/verifier.go]
    and the interface of [consensus/bft/verifier.go]: the ordered set of
    verifiers, the choice of the proposer, membership changes and the number of
    faults [F] the quorums are computed from. A verifier is its address; a nil
    [bft.Verifier] is [None]. *)

From Stdlib Require Import ZArith Lia.
From S2P Require Import Prelude Common.

Open Scope Z_scope.

(** ** Data *)

(** [bft.ProposerPolicy] is a [uint64]; any value but [Sticky] selects round
    robin. *)
Definition RoundRobin : Z := 0.
Definition Sticky : Z := 1.

Inductive ProposalSelector : Type := roundRobinSelector | stickySelector.

Record basicSet := mkBasicSet {
  bs_verifiers : list Address;
  bs_policy : Z;
  bs_proposer : option Address;
  bs_selector : ProposalSelector
}.

(** ** Operations *)

(** [Verifiers.Less] compares the [String] forms. [sort.Sort] yields an
    ordered permutation, which is unique for addresses
    ([sort_verifiers_unique]). *)
Definition verifier_le (a b : Address) : Prop := bytes_le (Address_String a) (Address_String b).

#[export] Instance verifier_le_dec a b : Decision (verifier_le a b).
Proof. unfold verifier_le. apply _. Defined.

Definition sort_verifiers (l : list Address) : list Address := merge_sort verifier_le l.

Definition Size (verSet : basicSet) : Z := Z.of_nat (length (bs_verifiers verSet)).

Definition GetVerByIndex (verSet : basicSet) (i : Z) : option Address :=
  if i <? Size verSet then bs_verifiers verSet !! Z.to_nat i else None.

Fixpoint find_index (addr : Address) (l : list Address) (i : Z) : Z * option Address :=
  match l with
  | [] => (-1, None)
  | ver :: l' => if bool_decide (addr = ver) then (i, Some ver) else find_index addr l' (i + 1)
  end.

Definition GetVerByAddress (verSet : basicSet) (addr : Address) : Z * option Address :=
  find_index addr (bs_verifiers verSet) 0.

Definition newBasicSet (addrs : list Address) (policy : Z) : basicSet :=
  let verifiers := sort_verifiers addrs in
  let verSet := mkBasicSet verifiers policy None roundRobinSelector in
  let proposer := if 0 <? Size verSet then GetVerByIndex verSet 0 else None in
  mkBasicSet verifiers policy proposer
    (if policy =? Sticky then stickySelector else roundRobinSelector).

Definition NewVerifierSet := newBasicSet.

Definition GetProposer (verSet : basicSet) : option Address := bs_proposer verSet.

(** [reflect.DeepEqual] on the two verifiers; two nils are equal. *)
Definition IsProposer (verSet : basicSet) (address : Address) : bool :=
  let '(_, val) := GetVerByAddress verSet address in
  bool_decide (GetProposer verSet = val).

Definition isEmptyAddress (addr : Address) : bool := bool_decide (addr = EmptyAddress).

Definition calcSeed (verSet : basicSet) (proposer : Address) (round : Z) : Z :=
  let offset := match GetVerByAddress verSet proposer with
                | (idx, Some _) => idx
                | (_, None) => 0
                end in
  u64 (u64 offset + round).

Definition roundRobinProposer (verSet : basicSet) (proposer : Address) (round : Z) : option Address :=
  if Size verSet =? 0 then None
  else
    let seed := if isEmptyAddress proposer then round
                else u64 (calcSeed verSet proposer round + 1) in
    GetVerByIndex verSet (seed mod u64 (Size verSet)).

Definition stickyProposer (verSet : basicSet) (proposer : Address) (round : Z) : option Address :=
  if Size verSet =? 0 then None
  else
    let seed := if isEmptyAddress proposer then round else calcSeed verSet proposer round in
    GetVerByIndex verSet (seed mod u64 (Size verSet)).

Definition CalcProposer (verSet : basicSet) (lastProposer : Address) (round : Z) : basicSet :=
  let proposer := match bs_selector verSet with
                  | roundRobinSelector => roundRobinProposer verSet lastProposer round
                  | stickySelector => stickyProposer verSet lastProposer round
                  end in
  mkBasicSet (bs_verifiers verSet) (bs_policy verSet) proposer (bs_selector verSet).

Definition set_verifiers (verSet : basicSet) (l : list Address) : basicSet :=
  mkBasicSet l (bs_policy verSet) (bs_proposer verSet) (bs_selector verSet).

Definition AddVerifier (verSet : basicSet) (address : Address) : basicSet * bool :=
  if existsb (fun v => bool_decide (v = address)) (bs_verifiers verSet) then (verSet, false)
  else (set_verifiers verSet (sort_verifiers (bs_verifiers verSet ++ [address])), true).

(** The first occurrence is removed. *)
Fixpoint remove_first (address : Address) (l : list Address) : option (list Address) :=
  match l with
  | [] => None
  | v :: l' =>
      if bool_decide (v = address) then Some l'
      else match remove_first address l' with
           | Some r => Some (v :: r)
           | None => None
           end
  end.

Definition RemoveVerifier (verSet : basicSet) (address : Address) : basicSet * bool :=
  match remove_first address (bs_verifiers verSet) with
  | Some l => (set_verifiers verSet l, true)
  | None => (verSet, false)
  end.

Definition Copy (verSet : basicSet) : basicSet :=
  NewVerifierSet (bs_verifiers verSet) (bs_policy verSet).

(** [int(float64(verSet.Size()) / 3) - 1]: the quotient is truncated. (The
    float division is exact enough for every slice length that fits in
    memory.) *)
Definition F (verSet : basicSet) : Z := Size verSet / 3 - 1.

(** [ExtractVerifiers]: consecutive 20-byte slices. *)
Definition ExtractVerifiers (extraData : bytes) : list Address :=
  map (fun i => take AddressLen (drop (i * AddressLen)%nat extraData))
      (seq 0 (length extraData / AddressLen)%nat).

Definition ValidExtraData (extraData : bytes) : bool :=
  bool_decide ((length extraData mod AddressLen)%nat = 0%nat).

(** ** Lemmas *)

#[export] Instance verifier_le_total : Total verifier_le.
Proof. intros a b. apply (total bytes_le). Qed.

#[export] Instance verifier_le_preorder : PreOrder verifier_le.
Proof. split; unfold verifier_le; [intros a; reflexivity|intros a b c; apply transitivity]. Qed.

Lemma verifier_le_antisym a b :
  wf_address a -> wf_address b -> verifier_le a b -> verifier_le b a -> a = b.
Proof.
  intros Ha Hb. unfold verifier_le, bytes_le. rewrite !Address_String_cmp by done.
  apply (anti_symm bytes_le).
Qed.

Lemma sort_verifiers_perm l : sort_verifiers l ≡ₚ l.
Proof. apply merge_sort_Permutation. Qed.

Lemma sort_verifiers_sorted l : StronglySorted verifier_le (sort_verifiers l).
Proof. apply Sorted_StronglySorted; [apply _|]. apply Sorted_merge_sort, _. Qed.

(** Whatever order [sort.Sort] compares in, its result is this list. *)
Lemma sort_verifiers_unique l l' :
  Forall wf_address l -> l' ≡ₚ l -> StronglySorted verifier_le l' -> l' = sort_verifiers l.
Proof.
  intros Hwf Hp Hs. rewrite Forall_forall in Hwf.
  apply (StronglySorted_unique_strong verifier_le).
  - intros a b Ha Hb. apply verifier_le_antisym; apply Hwf.
    + by rewrite <- Hp.
    + by rewrite <- (sort_verifiers_perm l).
  - done.
  - apply sort_verifiers_sorted.
  - by rewrite Hp, sort_verifiers_perm.
Qed.

(** The invariant of a verifier set. *)
Record verSet_wf (vs : basicSet) : Prop := {
  vs_nodup : NoDup (bs_verifiers vs);
  vs_addrs : Forall wf_address (bs_verifiers vs);
  vs_sorted : StronglySorted verifier_le (bs_verifiers vs);
  vs_selector : bs_selector vs = if bs_policy vs =? Sticky then stickySelector else roundRobinSelector
}.

Definition is_verifier (vs : basicSet) (a : Address) : Prop := a ∈ bs_verifiers vs.

#[export] Instance is_verifier_dec vs a : Decision (is_verifier vs a).
Proof. unfold is_verifier. apply _. Defined.

Lemma find_index_none a l i : a ∉ l -> find_index a l i = (-1, None).
Proof.
  revert i; induction l as [|v l IH]; intros i Ha; cbn; [done|].
  apply not_elem_of_cons in Ha as [Hne Ha]. rewrite bool_decide_false by done. auto.
Qed.

Lemma find_index_some a l i k :
  NoDup l -> l !! k = Some a -> find_index a l i = (i + Z.of_nat k, Some a).
Proof.
  intros Hnd; revert i k; induction Hnd as [|v l Hv Hnd IH]; intros i k Hk; [done|].
  destruct k as [|k]; cbn in *; simplify_eq.
  - rewrite bool_decide_true by done. f_equal. lia.
  - rewrite bool_decide_false.
    + rewrite (IH (i + 1) k Hk). f_equal. lia.
    + intros ->. apply Hv. apply list_elem_of_lookup. eauto.
Qed.

Lemma find_index_is_some a l i : a ∈ l -> exists k, find_index a l i = (k, Some a).
Proof.
  revert i; induction l as [|v l IH]; intros i Ha; [by apply not_elem_of_nil in Ha|].
  cbn. destruct (decide (a = v)) as [->|Hne].
  - rewrite bool_decide_true by done. eauto.
  - rewrite bool_decide_false by done. apply IH. by apply elem_of_cons in Ha as [?|?].
Qed.

Lemma GetVerByAddress_None vs a :
  (GetVerByAddress vs a).2 = None <-> ~ is_verifier vs a.
Proof.
  unfold GetVerByAddress, is_verifier. split.
  - intros Hn Ha. destruct (find_index_is_some a _ 0 Ha) as [k Hk]. by rewrite Hk in Hn.
  - intros Ha. by rewrite find_index_none.
Qed.

Lemma GetVerByAddress_Some vs a v :
  (GetVerByAddress vs a).2 = Some v <-> v = a /\ is_verifier vs a.
Proof.
  unfold GetVerByAddress, is_verifier. split.
  - intros Hs. destruct (decide (a ∈ bs_verifiers vs)) as [Ha|Ha].
    + destruct (find_index_is_some a _ 0 Ha) as [k Hk]. rewrite Hk in Hs. cbn in Hs. by simplify_eq.
    + by rewrite find_index_none in Hs.
  - intros [-> Ha]. destruct (find_index_is_some a _ 0 Ha) as [k Hk]. by rewrite Hk.
Qed.

Lemma remove_first_spec a l :
  match remove_first a l with
  | Some l' => a ∈ l /\ l ≡ₚ a :: l' /\ sublist l' l
  | None => a ∉ l
  end.
Proof.
  induction l as [|v l IH]; cbn; [apply not_elem_of_nil|].
  destruct (decide (v = a)) as [->|Hne].
  - rewrite bool_decide_true by done. split; [set_solver|]. split; [done|]. by constructor.
  - rewrite bool_decide_false by done. destruct (remove_first a l) as [l'|].
    + destruct IH as (Ha & Hp & Hs). split; [set_solver|]. split.
      * rewrite Hp. constructor.
      * by constructor.
    + apply not_elem_of_cons. auto.
Qed.

Lemma StronglySorted_sublist {A} (R : A -> A -> Prop) l l' :
  sublist l' l -> StronglySorted R l -> StronglySorted R l'.
Proof.
  induction 1 as [|x l1 l2 Hs IH|x l1 l2 Hs IH]; intros Hl; [done| |]; inversion Hl; subst.
  - constructor; [auto|]. rewrite Forall_forall in *. intros y Hy.
    match goal with Hf : forall z, z ∈ l2 -> _ |- _ => apply Hf end.
    by eapply elem_of_submseteq, sublist_submseteq.
  - auto.
Qed.

Lemma Copy_bs_verifiers vs : verSet_wf vs -> bs_verifiers (Copy vs) = bs_verifiers vs.
Proof.
  intros Hwf. cbn. symmetry. apply sort_verifiers_unique; [apply Hwf|done|apply Hwf].
Qed.

Lemma Size_nonneg vs : 0 <= Size vs.
Proof. unfold Size. lia. Qed.

#[export] Hint Resolve Size_nonneg : seele.

Lemma GetVerByIndex_Some vs k a :
  bs_verifiers vs !! k = Some a -> GetVerByIndex vs (Z.of_nat k) = Some a.
Proof.
  intros Hk. pose proof (lookup_lt_Some _ _ _ Hk). unfold GetVerByIndex, Size.
  destruct (Z.ltb_spec (Z.of_nat k) (Z.of_nat (length (bs_verifiers vs)))); [|lia].
  by rewrite Nat2Z.id.
Qed.

Lemma set_verifiers_wf vs l :
  verSet_wf vs -> NoDup l -> Forall wf_address l -> StronglySorted verifier_le l ->
  verSet_wf (set_verifiers vs l).
Proof. intros [? ? ? ?]. by constructor. Qed.

(** The outcome of [AddVerifier]: the flag tells whether the address is new. *)
Lemma AddVerifier_cases vs a :
  (is_verifier vs a /\ AddVerifier vs a = (vs, false)) \/
  (~ is_verifier vs a /\
   AddVerifier vs a = (set_verifiers vs (sort_verifiers (bs_verifiers vs ++ [a])), true)).
Proof.
  unfold AddVerifier, is_verifier. destruct (existsb _ _) eqn:E.
  - left. split; [|done]. apply existsb_exists in E as (x & Hx & Heq).
    apply bool_decide_eq_true in Heq as ->. by apply list_elem_of_In.
  - right. split; [|done]. intros Ha. apply list_elem_of_In in Ha.
    assert (existsb (fun v => bool_decide (v = a)) (bs_verifiers vs) = true); [|congruence].
    apply existsb_exists. exists a. split; [done|]. by apply bool_decide_eq_true.
Qed.

Lemma sort_snoc_wf vs a :
  verSet_wf vs -> wf_address a -> ~ is_verifier vs a ->
  verSet_wf (set_verifiers vs (sort_verifiers (bs_verifiers vs ++ [a]))).
Proof.
  intros Hwf Ha Hn. apply set_verifiers_wf; [done| | |apply sort_verifiers_sorted].
  - rewrite sort_verifiers_perm. apply NoDup_app. split; [apply Hwf|]. split.
    + intros x Hx ->%list_elem_of_singleton. done.
    + apply NoDup_singleton.
  - rewrite sort_verifiers_perm. apply Forall_app. split; [apply Hwf|]. by constructor.
Qed.

Lemma RemoveVerifier_cases vs a :
  match RemoveVerifier vs a with
  | (vs', true) =>
      is_verifier vs a /\ bs_verifiers vs ≡ₚ a :: bs_verifiers vs'
      /\ sublist (bs_verifiers vs') (bs_verifiers vs)
      /\ vs' = set_verifiers vs (bs_verifiers vs')
  | (vs', false) => ~ is_verifier vs a /\ vs' = vs
  end.
Proof.
  unfold RemoveVerifier, is_verifier. pose proof (remove_first_spec a (bs_verifiers vs)) as Hr.
  destruct (remove_first a (bs_verifiers vs)) as [l|]; [|done]. cbn.
  destruct Hr as (? & ? & ?). done.
Qed.

Lemma RemoveVerifier_keeps_wf vs a : verSet_wf vs -> verSet_wf (RemoveVerifier vs a).1.
Proof.
  intros Hwf. pose proof (RemoveVerifier_cases vs a) as Hc.
  destruct (RemoveVerifier vs a) as [vs' []]; cbn in *; [|by destruct Hc as [_ ->]].
  destruct Hc as (_ & Hp & Hs & Heq). rewrite Heq. apply set_verifiers_wf; [done| | |].
  - pose proof (vs_nodup _ Hwf) as Hn. rewrite Hp in Hn. by apply NoDup_cons in Hn as [_ ?].
  - pose proof (vs_addrs _ Hwf) as Hf. rewrite Hp in Hf. by apply Forall_cons in Hf as [_ ?].
  - eapply StronglySorted_sublist; [done|apply Hwf].
Qed.

Lemma AddVerifier_keeps_wf vs a :
  verSet_wf vs -> wf_address a -> verSet_wf (AddVerifier vs a).1.
Proof.
  intros Hwf Ha. destruct (AddVerifier_cases vs a) as [[_ ->]|[Hn ->]]; [done|].
  by apply sort_snoc_wf.
Qed.

Lemma newBasicSet_ok addrs policy :
  NoDup addrs -> Forall wf_address addrs ->
  verSet_wf (newBasicSet addrs policy) /\ bs_verifiers (newBasicSet addrs policy) ≡ₚ addrs.
Proof.
  intros Hnd Hwf. pose proof (sort_verifiers_perm addrs) as Hp. split; [|done].
  constructor; cbn; [by rewrite Hp|by rewrite Hp|apply sort_verifiers_sorted|done].
Qed.

Lemma Copy_wf vs : verSet_wf vs -> verSet_wf (Copy vs).
Proof. intros Hwf. apply newBasicSet_ok; apply Hwf. Qed.

Lemma AddVerifier_mem vs a x : is_verifier (AddVerifier vs a).1 x <-> x = a \/ is_verifier vs x.
Proof.
  destruct (AddVerifier_cases vs a) as [[Hin ->]|[Hn ->]]; cbn.
  - split; [auto|]. by intros [->|].
  - unfold is_verifier. cbn.
    rewrite (sort_verifiers_perm (bs_verifiers vs ++ [a])), elem_of_app, list_elem_of_singleton. tauto.
Qed.

Lemma RemoveVerifier_mem vs a x :
  verSet_wf vs -> is_verifier (RemoveVerifier vs a).1 x <-> x <> a /\ is_verifier vs x.
Proof.
  intros Hwf. pose proof (RemoveVerifier_cases vs a) as Hc.
  destruct (RemoveVerifier vs a) as [vs' []]; cbn.
  - destruct Hc as (Hin & Hp & _). unfold is_verifier. rewrite Hp, elem_of_cons.
    pose proof (vs_nodup _ Hwf) as Hn. rewrite Hp, NoDup_cons in Hn. destruct Hn as [Hn _].
    split; [|tauto]. intros Hx. split; [congruence|auto].
  - destruct Hc as [Hn ->]. split; [|tauto]. intros Hx. split; [|done]. by intros ->.
Qed.

Lemma RemoveVerifier_size vs a vs' :
  RemoveVerifier vs a = (vs', true) -> Size vs' = Size vs - 1.
Proof.
  intros Hr. pose proof (RemoveVerifier_cases vs a) as Hc. rewrite Hr in Hc.
  destruct Hc as (_ & Hp & _). unfold Size. rewrite (Permutation_length Hp). cbn [length]. lia.
Qed.

(** The index that round robin picks. *)
Lemma roundRobin_index vs last k round :
  verSet_wf vs -> bs_policy vs = RoundRobin -> Size vs < 2 ^ 63 ->
  bs_verifiers vs !! k = Some last -> last <> EmptyAddress -> 0 <= round < 2 ^ 63 ->
  GetProposer (CalcProposer vs last round)
    = bs_verifiers vs !! Z.to_nat ((Z.of_nat k + round + 1) mod Size vs).
Proof.
  intros Hwf Hpol Hsz Hk Hne Hr. pose proof (lookup_lt_Some _ _ _ Hk) as Hlt.
  assert (Hkn : 0 <= Z.of_nat k < Size vs) by (unfold Size; lia).
  unfold CalcProposer, GetProposer. cbn.
  rewrite (vs_selector _ Hwf), Hpol. cbn. unfold roundRobinProposer, isEmptyAddress.
  destruct (Z.eqb_spec (Size vs) 0); [lia|]. rewrite bool_decide_false by done.
  unfold calcSeed, GetVerByAddress. rewrite (find_index_some _ _ _ _ (vs_nodup _ Hwf) Hk).
  rewrite Z.add_0_l. u64_norm. unfold GetVerByIndex.
  pose proof (Z.mod_pos_bound (Z.of_nat k + round + 1) (Size vs)).
  destruct (Z.ltb_spec ((Z.of_nat k + round + 1) mod Size vs) (Size vs)); [done|lia].
Qed.

Lemma filter_none {A} (P : A -> Prop) `{forall x, Decision (P x)} (l : list A) :
  (forall x, x ∈ l -> ~ P x) -> filter P l = [].
Proof.
  induction l as [|x l IH]; intros Hn; [done|]. rewrite filter_cons_False by (apply Hn; set_solver).
  apply IH. set_solver.
Qed.

(** Two windows of [q] items over a list without repetition share at most
    [2 q - n] items. *)
Lemma windows_overlap (l : list Address) (q : nat) :
  NoDup l -> (q <= length l)%nat ->
  let Q1 := take q l in let Q2 := drop (length l - q) l in
  length Q1 = q /\ length Q2 = q /\
  (length (filter (fun x => x ∈ Q2) Q1) <= 2 * q - length l)%nat.
Proof.
  intros Hnd Hq Q1 Q2. subst Q1 Q2.
  rewrite length_take, length_drop. split; [lia|]. split; [lia|].
  set (m := (length l - q)%nat).
  assert (Hdis : forall x, x ∈ take m l -> x ∉ drop m l).
  { rewrite <- (take_drop m l) in Hnd at 1. apply NoDup_app in Hnd as (_ & Hd & _). done. }
  assert (Hempty : forall k, (k <= m)%nat -> filter (fun x => x ∈ drop m l) (take k l) = []).
  { intros k Hk. apply filter_none. intros x Hx. apply Hdis.
    replace (take k l) with (take k (take m l)) in Hx by (rewrite take_take; f_equal; lia).
    by apply elem_of_take in Hx as (i & Hi & _); apply list_elem_of_lookup; eauto. }
  destruct (decide (q <= m)%nat) as [Hle|Hgt]; [rewrite Hempty by done; cbn; lia|].
  replace (take q l) with (take m l ++ take (q - m) (drop m l)).
  - rewrite filter_app, Hempty by lia. cbn [app].
    etransitivity; [apply length_filter|]. rewrite length_take, length_drop. lia.
  - rewrite take_drop_commute. replace (m + (q - m))%nat with q by lia.
    rewrite <- (take_drop m (take q l)) at 2. rewrite take_take. f_equal. f_equal. lia.
Qed.

(** ** Properties *)

(** C40: A new verifier set is sorted and holds exactly the given addresses,
    each as often as it is given: it is well formed, without duplicates,
    exactly when the given addresses have none, which the code does not
    check. Its first proposer is a member, the smallest one, and there is
    none exactly when no address is given. *)
Theorem newBasicSet_wf (addrs : list Address) (policy : Z) :
  Forall wf_address addrs ->
  let vs := newBasicSet addrs policy in
  bs_verifiers vs ≡ₚ addrs /\ StronglySorted verifier_le (bs_verifiers vs)
  /\ (verSet_wf vs <-> NoDup addrs)
  /\ match GetProposer vs with
     | Some p => is_verifier vs p /\ forall a, is_verifier vs a -> verifier_le p a
     | None => addrs = []
     end.
Proof.
  intros Hwf vs. pose proof (sort_verifiers_perm addrs) as Hp. pose proof (sort_verifiers_sorted addrs) as Hs.
  split; [exact Hp|]. split; [exact Hs|]. split.
  - split; [|intros Hnd; by apply newBasicSet_ok]. intros Hvs. pose proof (vs_nodup _ Hvs) as Hnd. cbn in Hnd. by rewrite Hp in Hnd.
  - unfold vs, is_verifier, GetProposer, newBasicSet, GetVerByIndex, Size. cbn.
    destruct (sort_verifiers addrs) as [|p l]; cbn; [by apply Permutation_nil_l in Hp|].
    split; [left|]. intros a Ha. inversion Hs as [|? ? _ Hall]; subst. rewrite Forall_forall in Hall.
    apply elem_of_cons in Ha as [->|Ha]; [reflexivity|by apply Hall].
Qed.

(** Adding an address to a verifier set keeps it sorted without duplicates,
    adds exactly that member, reports whether it was new, keeps the
    proposer, and removing it again gives the list back. *)
Theorem AddVerifier_spec (vs : basicSet) (a : Address) :
  verSet_wf vs -> wf_address a ->
  let '(vs', added) := AddVerifier vs a in
  verSet_wf vs' /\ (added = true <-> ~ is_verifier vs a)
  /\ (forall x, is_verifier vs' x <-> x = a \/ is_verifier vs x)
  /\ GetProposer vs' = GetProposer vs
  /\ (added = true -> bs_verifiers (RemoveVerifier vs' a).1 = bs_verifiers vs).
Proof.
  intros Hwf Ha. pose proof (AddVerifier_mem vs a) as Hmem.
  destruct (AddVerifier_cases vs a) as [[Hin Heq]|[Hn Heq]]; rewrite Heq in *; cbn [fst] in Hmem.
  { done. }
  pose proof (sort_snoc_wf vs a Hwf Ha Hn) as Hwf'. split; [done|]. split; [done|].
  pose proof (sort_verifiers_perm (bs_verifiers vs ++ [a])) as Hp.
  split; [done|]. split; [done|].
  - intros _. set (vs' := set_verifiers _ _) in *.
    pose proof (RemoveVerifier_keeps_wf vs' a Hwf') as Hwf''.
    pose proof (RemoveVerifier_cases vs' a) as Hc.
    destruct (RemoveVerifier vs' a) as [vs'' []]; cbn in *.
    + destruct Hc as (_ & Hp' & _).
      rewrite (sort_verifiers_unique (bs_verifiers vs) (bs_verifiers vs'')).
      * symmetry. apply sort_verifiers_unique; [apply Hwf|done|apply Hwf].
      * apply Hwf.
      * apply (Permutation_cons_inv (a := a)). rewrite <- Hp', Hp.
        by rewrite Permutation_app_comm.
      * apply Hwf''.
    + destruct Hc as [Hc _]. destruct Hc. unfold is_verifier. cbn. rewrite Hp. set_solver.
Qed.

(** Removing an address from a verifier set keeps it sorted without
    duplicates, removes exactly that member, reports whether it was there
    and keeps the proposer. *)
Theorem RemoveVerifier_spec (vs : basicSet) (a : Address) :
  verSet_wf vs ->
  let '(vs', removed) := RemoveVerifier vs a in
  verSet_wf vs' /\ (removed = true <-> is_verifier vs a)
  /\ (forall x, is_verifier vs' x <-> x <> a /\ is_verifier vs x)
  /\ GetProposer vs' = GetProposer vs.
Proof.
  intros Hwf. pose proof (RemoveVerifier_keeps_wf vs a Hwf) as Hwf'.
  pose proof (RemoveVerifier_cases vs a) as Hc.
  assert (Hmem := fun x => RemoveVerifier_mem vs a x Hwf).
  destruct (RemoveVerifier vs a) as [vs' []]; cbn in Hwf', Hmem; split; try done.
  - destruct Hc as (Hin & _ & _ & Heq). split; [done|]. split; [done|by rewrite Heq].
  - destruct Hc as [Hn Heq]. split; [done|]. split; [done|by rewrite Heq].
Qed.

(** From any round on, every verifier becomes the proposer within as many
    rounds as there are verifiers, under the round robin policy. *)
Theorem roundRobin_fair (vs : basicSet) (last v : Address) (r0 : Z) :
  verSet_wf vs -> bs_policy vs = RoundRobin -> Size vs < 2 ^ 62 ->
  is_verifier vs last -> last <> EmptyAddress -> is_verifier vs v -> 0 <= r0 < 2 ^ 62 ->
  exists r, r0 <= r < r0 + Size vs
    /\ GetProposer (CalcProposer vs last r) = Some v
    /\ forall r', r0 <= r' < r -> GetProposer (CalcProposer vs last r') <> Some v.
Proof.
  intros Hwf Hpol Hsz [k Hk]%list_elem_of_lookup Hne [m Hm]%list_elem_of_lookup Hr0.
  pose proof (lookup_lt_Some _ _ _ Hm) as Hlt.
  assert (Hmn : 0 <= Z.of_nat m < Size vs) by (unfold Size; lia).
  set (d := (Z.of_nat m - (Z.of_nat k + r0 + 1)) mod Size vs).
  assert (Hd : 0 <= d < Size vs) by (apply Z.mod_pos_bound; lia).
  assert (Hidx : (Z.of_nat k + (r0 + d) + 1) mod Size vs = Z.of_nat m).
  { replace (Z.of_nat k + (r0 + d) + 1) with (Z.of_nat k + r0 + 1 + d) by lia. subst d.
    rewrite Z.add_mod_idemp_r by lia.
    replace (_ + (_ - _)) with (Z.of_nat m) by lia. apply Z.mod_small. lia. }
  exists (r0 + d). split; [lia|]. split.
  { rewrite (roundRobin_index vs last k) by (done || lia). by rewrite Hidx, Nat2Z.id. }
  intros r' Hr'. rewrite (roundRobin_index vs last k) by (done || lia). intros Heq.
  assert (Hr'm : (Z.of_nat k + r' + 1) mod Size vs = Z.of_nat m).
  { pose proof (Z.mod_pos_bound (Z.of_nat k + r' + 1) (Size vs)).
    pose proof (NoDup_lookup _ _ _ _ (vs_nodup _ Hwf) Heq Hm). lia. }
  pose proof (Z.div_mod (Z.of_nat k + r' + 1) (Size vs) ltac:(lia)) as H1.
  pose proof (Z.div_mod (Z.of_nat k + (r0 + d) + 1) (Size vs) ltac:(lia)) as H2.
  rewrite Hr'm in H1. rewrite Hidx in H2.
  destruct (Z.lt_trichotomy ((Z.of_nat k + r' + 1) / Size vs)
    ((Z.of_nat k + (r0 + d) + 1) / Size vs)) as [?|[?|?]]; nia.
Qed.

(** A set of verifiers whose commits make the code commit a block: the test of
    [handleCommit] is [c.current.Commits.Size() > 2*c.verSet.F()]. *)
Definition commit_quorum (vs : basicSet) (Q : list Address) : Prop :=
  NoDup Q /\ (forall a, a ∈ Q -> is_verifier vs a) /\ Z.of_nat (length Q) > 2 * F vs.

(** With the truncating F of the code, for every verifier set of at least
    three there are two quorums of more than 2F verifiers that share at most
    F verifiers; for up to eight verifiers they share none. *)
Theorem commit_quorums_overlap_at_most_F (vs : basicSet) :
  verSet_wf vs -> 3 <= Size vs ->
  exists Q1 Q2, commit_quorum vs Q1 /\ commit_quorum vs Q2
    /\ Z.of_nat (length (filter (fun x => x ∈ Q2) Q1)) <= F vs
    /\ (Size vs <= 8 -> forall x, x ∈ Q1 -> x ∉ Q2).
Proof.
  intros Hwf Hn. pose proof (vs_nodup _ Hwf) as Hnd.
  set (q := Z.to_nat (2 * F vs + 1)). set (l := bs_verifiers vs) in *.
  assert (Hl : Size vs = Z.of_nat (length l)) by done.
  assert (HF : 0 <= F vs /\ 3 * F vs + 3 <= Size vs <= 3 * F vs + 5) by (unfold F; zdiv).
  destruct (windows_overlap l q Hnd ltac:(lia)) as (H1 & H2 & H3).
  set (Q2 := drop (length l - q) l) in *.
  exists (take q l), Q2. split; [|split; [|split]].
  - split; [by apply (sublist_NoDup _ l), sublist_take|]. split; [|lia].
    intros a Ha. eapply elem_of_submseteq, sublist_submseteq, sublist_take. exact Ha.
  - split; [by apply (sublist_NoDup _ l), sublist_drop|]. split; [|lia].
    intros a Ha. eapply elem_of_submseteq, sublist_submseteq, sublist_drop. exact Ha.
  - lia.
  - intros H8 x Hx Hx2.
    assert (Hin : x ∈ filter (fun x => x ∈ Q2) (take q l)) by (by apply list_elem_of_filter).
    destruct (filter _ _) as [|y f]; [by apply not_elem_of_nil in Hin|]. cbn in H3. lia.
Qed.

(** ** Examples *)

Definition example_addrs : list Address := map (fun n => replicate 20 n) [4; 2; 6; 1; 3; 5].

Lemma example_addrs_ok : NoDup example_addrs /\ Forall wf_address example_addrs.
Proof.
  split; [apply (bool_decide_unpack _); vm_compute; exact I|].
  apply Forall_forall. intros a Ha. apply list_elem_of_In, in_map_iff in Ha as (n & <- & Hn).
  split; [apply length_replicate|]. apply Forall_forall. intros x Hx.
  apply elem_of_replicate in Hx as [-> _]. unfold is_byte. cbn in Hn. lia.
Qed.

Lemma example_set_wf : verSet_wf (newBasicSet example_addrs RoundRobin).
Proof. apply newBasicSet_ok; apply example_addrs_ok. Qed.

Lemma newBasicSet_wf_witness :
  verSet_wf (newBasicSet example_addrs RoundRobin)
  /\ GetProposer (newBasicSet example_addrs RoundRobin) = Some (replicate 20 1).
Proof.
  split; [|vm_compute; reflexivity].
  apply (newBasicSet_wf example_addrs RoundRobin); apply example_addrs_ok.
Defined.

Lemma AddVerifier_spec_witness :
  let '(vs', added) := AddVerifier (newBasicSet example_addrs RoundRobin) (replicate 20 9) in
  added = true /\ verSet_wf vs'.
Proof.
  pose proof (AddVerifier_spec (newBasicSet example_addrs RoundRobin) (replicate 20 9)
    example_set_wf) as Hs.
  destruct (AddVerifier (newBasicSet example_addrs RoundRobin) (replicate 20 9)) as [vs' added].
  destruct Hs as (Hwf & Hadd & _).
  - split; [apply length_replicate|]. apply Forall_forall. intros x Hx.
    apply elem_of_replicate in Hx as [-> _]. unfold is_byte. lia.
  - split; [|exact Hwf]. apply Hadd. apply (bool_decide_unpack _). vm_compute. exact I.
Defined.

Lemma RemoveVerifier_spec_witness :
  let '(vs', removed) := RemoveVerifier (newBasicSet example_addrs RoundRobin) (replicate 20 3) in
  removed = true /\ verSet_wf vs'.
Proof.
  pose proof (RemoveVerifier_spec (newBasicSet example_addrs RoundRobin) (replicate 20 3)
    example_set_wf) as Hs.
  destruct (RemoveVerifier (newBasicSet example_addrs RoundRobin) (replicate 20 3)) as [vs' removed].
  destruct Hs as (Hwf & Hrem & _). split; [|exact Hwf].
  apply Hrem. apply (bool_decide_unpack _). vm_compute. exact I.
Defined.

Lemma roundRobin_fair_witness :
  exists r, 5 <= r < 11
    /\ GetProposer (CalcProposer (newBasicSet example_addrs RoundRobin) (replicate 20 2) r)
       = Some (replicate 20 6).
Proof.
  destruct (roundRobin_fair (newBasicSet example_addrs RoundRobin) (replicate 20 2)
    (replicate 20 6) 5) as (r & Hr & Hp & _).
  - apply example_set_wf.
  - reflexivity.
  - vm_compute. reflexivity.
  - apply (bool_decide_unpack _). vm_compute. exact I.
  - discriminate.
  - apply (bool_decide_unpack _). vm_compute. exact I.
  - lia.
  - assert (Hs : Size (newBasicSet example_addrs RoundRobin) = 6) by (vm_compute; reflexivity).
    rewrite Hs in Hr. exists r. split; [lia|exact Hp].
Defined.

Lemma commit_quorums_overlap_at_most_F_witness :
  exists Q1 Q2, commit_quorum (newBasicSet example_addrs RoundRobin) Q1
    /\ commit_quorum (newBasicSet example_addrs RoundRobin) Q2
    /\ forall x, x ∈ Q1 -> x ∉ Q2.
Proof.
  destruct (commit_quorums_overlap_at_most_F (newBasicSet example_addrs RoundRobin))
    as (Q1 & Q2 & H1 & H2 & _ & H8).
  - apply example_set_wf.
  - vm_compute. discriminate.
  - exists Q1, Q2. split; [exact H1|]. split; [exact H2|]. apply H8. vm_compute. discriminate.
Defined.
