(* ===== verification/BftHeader.v ===== *)
(** * Block headers and their BFT extra data

    Models the header of [core/types/block.go], the extra data of
    [core/types/bft.go] and [core/types/istanbul.go] (the two structs have the
    same fields and the same RLP form), and the functions of
    [consensus/bft/server/engine_implement.go] that write seals into it. RLP,
    the header hash and the signature recovery are parameters. *)

From Stdlib Require Import ZArith Lia.
From S2P Require Import Prelude Common.

Open Scope Z_scope.

(** ** Data *)

(** A nil [big.Int] is [None]. A nil slice and an empty one are both []. *)
Record BlockHeader := mkHeader {
  h_PreviousBlockHash : Hash;
  h_Creator : Address;
  h_StateHash : Hash;
  h_TxHash : Hash;
  h_ReceiptHash : Hash;
  h_TxDebtHash : Hash;
  h_DebtHash : Hash;
  h_Difficulty : option Z;
  h_Height : Z;
  h_CreateTimestamp : option Z;
  h_Witness : bytes;
  h_SecondWitness : bytes;
  h_Consensus : Z;
  h_ExtraData : bytes
}.

#[export] Instance BlockHeader_eq_dec : EqDecision BlockHeader.
Proof. solve_decision. Defined.

(** [iota] is 1 and 2 in the second and third lines of the constants. *)
Definition PowConsensus : Z := 0.
Definition IstanbulConsensus : Z := 2.
Definition BftConsensus : Z := 4.

Record BftExtra := mkBftExtra {
  be_Verifiers : list Address;
  be_Seal : bytes;
  be_CommittedSeal : list bytes
}.

Definition BftExtraVanity : nat := 32.
Definition BftExtraSeal : nat := 65.

(** The errors of the headers, of the voting and of the verification. *)
Inductive SrvError : Type :=
| ErrInvalidBftHeaderExtra
| errRlpExtra
| errSignatureRecovery
| errInvalidSignature
| errCommittedSealsInvalid
| errEmptyCommittedSeals
| errVotingChainInvalid
| errUnauthorized
| errVoteInvalid
| errBFTConsensus
| errBlockCreateTimeOld
| errExtraDataFormatInvalid
| errNonceInvalid
| errDifficultyInvalid
| errTimestampInvalid
| errBlockUnknown
| errMismatchTxhashes
| errJson
| errDatabase
| ErrBlockInvalidParentHash
| errProposalInvalid.

#[export] Instance SrvError_eq_dec : EqDecision SrvError.
Proof. solve_decision. Defined.

(** What is used of RLP and of the [crypto] package. *)
Class HeaderCodec := {
  encode_extra : BftExtra -> option bytes;
  decode_extra : bytes -> option BftExtra;
  (** [crypto.MustHash] of a header pointer, which may be nil. *)
  MustHash : option BlockHeader -> Hash;
  (** [bft.GetSignatureAddress] *)
  GetSignatureAddress : bytes -> bytes -> option Address
}.

(** RLP encodes every list of byte strings, decoding inverts it, and the hash
    has no collisions. *)
Class HeaderCodecLaws `{HeaderCodec} := {
  extra_encodes e : is_Some (encode_extra e);
  extra_roundtrip e b : encode_extra e = Some b -> decode_extra b = Some e;
  MustHash_inj h h' : MustHash h = MustHash h' -> h = h'
}.

(** ** Functions *)

Section header.
Context `{HeaderCodec}.

Definition set_ExtraData (h : BlockHeader) (b : bytes) : BlockHeader :=
  mkHeader (h_PreviousBlockHash h) (h_Creator h) (h_StateHash h) (h_TxHash h) (h_ReceiptHash h)
    (h_TxDebtHash h) (h_DebtHash h) (h_Difficulty h) (h_Height h) (h_CreateTimestamp h)
    (h_Witness h) (h_SecondWitness h) (h_Consensus h) b.

(** The clone has no nil number. *)
Definition Clone (h : BlockHeader) : BlockHeader :=
  mkHeader (h_PreviousBlockHash h) (h_Creator h) (h_StateHash h) (h_TxHash h) (h_ReceiptHash h)
    (h_TxDebtHash h) (h_DebtHash h) (Some (default 0 (h_Difficulty h))) (h_Height h)
    (Some (default 0 (h_CreateTimestamp h))) (h_Witness h) (h_SecondWitness h) (h_Consensus h)
    (h_ExtraData h).

Definition ExtractBftExtra (h : BlockHeader) : BftExtra + SrvError :=
  if (length (h_ExtraData h) <? BftExtraVanity)%nat then inr ErrInvalidBftHeaderExtra
  else match decode_extra (drop BftExtraVanity (h_ExtraData h)) with
       | Some e => inl e
       | None => inr errRlpExtra
       end.

(** The first 32 bytes of the extra data, then the RLP of the rest. *)
Definition put_extra (h : BlockHeader) (e : BftExtra) : option BlockHeader :=
  match encode_extra e with
  | Some payload => Some (set_ExtraData h (take BftExtraVanity (h_ExtraData h) ++ payload))
  | None => None
  end.

(** [None] is the nil header. *)
Definition BftFilteredHeader (h : BlockHeader) (keepSeal : bool) : option BlockHeader :=
  let newHeader := Clone h in
  match ExtractBftExtra newHeader with
  | inr _ => None
  | inl e =>
      put_extra newHeader (mkBftExtra (be_Verifiers e) (if keepSeal then be_Seal e else []) [])
  end.

(** The same function under another name. *)
Definition IstanbulFilteredHeader (h : BlockHeader) (keepSeal : bool) : option BlockHeader :=
  let newHeader := Clone h in
  match ExtractBftExtra newHeader with
  | inr _ => None
  | inl e =>
      put_extra newHeader (mkBftExtra (be_Verifiers e) (if keepSeal then be_Seal e else []) [])
  end.

Definition header_Hash (h : BlockHeader) : Hash :=
  match (if h_Consensus h =? IstanbulConsensus then IstanbulFilteredHeader h true else None) with
  | Some f => MustHash (Some f)
  | None =>
      match (if h_Consensus h =? BftConsensus then BftFilteredHeader h true else None) with
      | Some f => MustHash (Some f)
      | None => MustHash (Some h)
      end
  end.

Definition sigHash (h : BlockHeader) : Hash := MustHash (IstanbulFilteredHeader h false).

(** [extractAccount] without its cache. *)
Definition recover_creator (h : BlockHeader) : Address + SrvError :=
  match ExtractBftExtra h with
  | inr err => inr err
  | inl e =>
      match GetSignatureAddress (sigHash h) (be_Seal e) with
      | Some a => inl a
      | None => inr errSignatureRecovery
      end
  end.

(** [prepareExtra]: the extra data is padded to the vanity length. *)
Definition prepareExtra (h : BlockHeader) (vers : list Address) : bytes + SrvError :=
  let extra := h_ExtraData h ++ replicate (BftExtraVanity - length (h_ExtraData h)) 0 in
  match encode_extra (mkBftExtra vers [] []) with
  | Some payload => inl (take BftExtraVanity extra ++ payload)
  | None => inr errRlpExtra
  end.

Definition writeSeal (h : BlockHeader) (seal : bytes) : BlockHeader + SrvError :=
  if negb (length seal mod BftExtraSeal =? 0)%nat then inr errInvalidSignature
  else match ExtractBftExtra h with
       | inr err => inr err
       | inl e =>
           match put_extra h (mkBftExtra (be_Verifiers e) seal (be_CommittedSeal e)) with
           | Some h' => inl h'
           | None => inr errRlpExtra
           end
       end.

Definition writeCommittedSeals (h : BlockHeader) (committedSeals : list bytes)
    : BlockHeader + SrvError :=
  if (length committedSeals =? 0)%nat then inr errCommittedSealsInvalid
  else if negb (forallb (fun seal => (length seal =? BftExtraSeal)%nat) committedSeals)
  then inr errCommittedSealsInvalid
  else match ExtractBftExtra h with
       | inr err => inr err
       | inl e =>
           match put_extra h (mkBftExtra (be_Verifiers e) (be_Seal e) committedSeals) with
           | Some h' => inl h'
           | None => inr errRlpExtra
           end
       end.

(** ** Lemmas *)

Lemma IstanbulFilteredHeader_eq h keep : IstanbulFilteredHeader h keep = BftFilteredHeader h keep.
Proof. done. Qed.

Lemma ExtractBftExtra_inl h e :
  ExtractBftExtra h = inl e <->
  (BftExtraVanity <= length (h_ExtraData h))%nat
  /\ decode_extra (drop BftExtraVanity (h_ExtraData h)) = Some e.
Proof.
  unfold ExtractBftExtra. destruct (Nat.ltb_spec (length (h_ExtraData h)) BftExtraVanity).
  - split; [done|]. intros [? _]. lia.
  - destruct (decode_extra _); naive_solver.
Qed.

Lemma ExtractBftExtra_Clone h : ExtractBftExtra (Clone h) = ExtractBftExtra h.
Proof. done. Qed.
End header.

(** ** What the extra data holds after a write *)

Section header_laws.
Context `{HeaderCodecLaws}.

Lemma put_extra_Extract h e h' e0 :
  ExtractBftExtra h = inl e0 -> put_extra h e = Some h' ->
  ExtractBftExtra h' = inl e
  /\ take BftExtraVanity (h_ExtraData h') = take BftExtraVanity (h_ExtraData h)
  /\ h' = set_ExtraData h (h_ExtraData h').
Proof.
  intros [Hlen _]%ExtractBftExtra_inl Hput. unfold put_extra in Hput.
  destruct (encode_extra e) as [payload|] eqn:He; [|done]. simplify_eq.
  assert (Hl : length (take BftExtraVanity (h_ExtraData h)) = BftExtraVanity)
    by (rewrite length_take; lia).
  split; [|split; [|done]].
  - apply ExtractBftExtra_inl. cbn [h_ExtraData set_ExtraData]. split; [rewrite length_app; lia|].
    rewrite drop_app_length' by done. by apply extra_roundtrip.
  - cbn [h_ExtraData set_ExtraData]. by rewrite take_app_length'.
Qed.

(** Writing the extra data does not change the filtered header when it keeps
    the verifiers and the seal. *)
Lemma BftFilteredHeader_put h e e' h' keep :
  ExtractBftExtra h = inl e -> put_extra h e' = Some h' ->
  be_Verifiers e' = be_Verifiers e -> (keep = true -> be_Seal e' = be_Seal e) ->
  BftFilteredHeader h' keep = BftFilteredHeader h keep.
Proof.
  intros He Hput Hv Hs. destruct (put_extra_Extract h e' h' e He Hput) as (He' & Ht & Hh).
  unfold BftFilteredHeader. rewrite !ExtractBftExtra_Clone, He, He', Hv.
  replace (if keep then be_Seal e' else []) with (if keep then be_Seal e else [])
    by (destruct keep; [by rewrite Hs|done]).
  unfold put_extra. destruct (encode_extra _) as [payload|]; [|done]. f_equal.
  change (h_ExtraData (Clone h')) with (h_ExtraData h').
  change (h_ExtraData (Clone h)) with (h_ExtraData h). rewrite Ht, Hh. done.
Qed.

Lemma put_extra_total h e : is_Some (put_extra h e).
Proof. unfold put_extra. destruct (extra_encodes e) as [b ->]. eauto. Qed.

Lemma BftFilteredHeader_total h e keep :
  ExtractBftExtra h = inl e -> is_Some (BftFilteredHeader h keep).
Proof.
  intros He. unfold BftFilteredHeader. rewrite ExtractBftExtra_Clone, He. apply put_extra_total.
Qed.

Lemma writeSeal_inl h seal h' :
  writeSeal h seal = inl h' -> exists e, ExtractBftExtra h = inl e
    /\ put_extra h (mkBftExtra (be_Verifiers e) seal (be_CommittedSeal e)) = Some h'.
Proof.
  unfold writeSeal. destruct (negb _); [done|].
  destruct (ExtractBftExtra h) as [e|]; [|done].
  destruct (put_extra _ _) eqn:Hp; [|done]. intros [= ->]. by exists e.
Qed.

Lemma writeCommittedSeals_inl h seals h' :
  writeCommittedSeals h seals = inl h' ->
  seals <> [] /\ Forall (fun s => length s = BftExtraSeal) seals /\
  exists e, ExtractBftExtra h = inl e
    /\ put_extra h (mkBftExtra (be_Verifiers e) (be_Seal e) seals) = Some h'.
Proof.
  unfold writeCommittedSeals. destruct seals as [|s l]; [done|]. cbn [length Nat.eqb].
  destruct (forallb _ (s :: l)) eqn:Hall; [|done]. cbn [negb].
  destruct (ExtractBftExtra h) as [e|]; [|done].
  destruct (put_extra _ _) eqn:Hp; [|done]. intros [= ->]. split; [done|].
  split; [|by exists e]. apply Forall_forall. intros x Hx. rewrite forallb_forall in Hall.
  apply Nat.eqb_eq, Hall. by apply list_elem_of_In.
Qed.

Lemma Clone_Clone h : Clone (Clone h) = Clone h.
Proof. done. Qed.

Lemma BftFilteredHeader_Clone h keep : BftFilteredHeader (Clone h) keep = BftFilteredHeader h keep.
Proof. done. Qed.

(** The filtered header holds the same seal, and filtering it again gives the
    same result. *)
Lemma BftFilteredHeader_true h f :
  BftFilteredHeader h true = Some f ->
  exists e, ExtractBftExtra h = inl e
    /\ ExtractBftExtra f = inl (mkBftExtra (be_Verifiers e) (be_Seal e) [])
    /\ (forall keep, BftFilteredHeader f keep = BftFilteredHeader h keep)
    /\ h_Consensus f = h_Consensus h.
Proof.
  intros Hf. unfold BftFilteredHeader in Hf. rewrite ExtractBftExtra_Clone in Hf.
  destruct (ExtractBftExtra h) as [e|] eqn:He; [|done]. exists e. split; [done|].
  rewrite <- (ExtractBftExtra_Clone h) in He.
  destruct (put_extra_Extract _ _ _ _ He Hf) as (He' & _ & Hff). split; [done|]. split.
  - intros keep. rewrite <- (BftFilteredHeader_Clone h).
    by eapply (BftFilteredHeader_put _ e).
  - rewrite Hff. done.
Qed.

(** The header whose hash is the hash of the block. *)
Definition hashed_header (h : BlockHeader) : BlockHeader :=
  if (h_Consensus h =? IstanbulConsensus) || (h_Consensus h =? BftConsensus)
  then default h (BftFilteredHeader h true) else h.

Lemma header_Hash_hashed h : header_Hash h = MustHash (Some (hashed_header h)).
Proof.
  unfold header_Hash, hashed_header. rewrite IstanbulFilteredHeader_eq.
  destruct (Z.eqb_spec (h_Consensus h) IstanbulConsensus) as [Hi|Hi].
  - rewrite Hi. cbn [orb]. destruct (BftFilteredHeader h true); done.
  - cbn [orb]. destruct (_ =? BftConsensus); [|done]. by destruct (BftFilteredHeader h true).
Qed.

Lemma hashed_header_Consensus h : h_Consensus (hashed_header h) = h_Consensus h.
Proof.
  unfold hashed_header. destruct (_ || _); [|done].
  destruct (BftFilteredHeader h true) as [f|] eqn:Hf; [|done].
  by destruct (BftFilteredHeader_true _ _ Hf) as (? & _ & _ & _ & ?).
Qed.

(** Blocks of one hash have one creator. *)
Lemma header_Hash_creator h h' :
  header_Hash h = header_Hash h' -> recover_creator h = recover_creator h'.
Proof.
  rewrite !header_Hash_hashed. intros Heq%MustHash_inj. injection Heq as Heq.
  pose proof (f_equal h_Consensus Heq) as Hc. rewrite !hashed_header_Consensus in Hc.
  unfold hashed_header in Heq. rewrite Hc in Heq.
  destruct (_ || _); [|by subst].
  destruct (BftFilteredHeader h true) as [f|] eqn:Hf, (BftFilteredHeader h' true) as [f'|] eqn:Hf';
    cbn in Heq; subst.
  - destruct (BftFilteredHeader_true _ _ Hf) as (e & He & Hfe & Hk & _).
    destruct (BftFilteredHeader_true _ _ Hf') as (e' & He' & Hfe' & Hk' & _).
    unfold recover_creator, sigHash. rewrite !IstanbulFilteredHeader_eq, <- Hk, <- Hk', He, He'.
    assert (Hs : be_Seal e = be_Seal e') by congruence. by rewrite Hs.
  - destruct (BftFilteredHeader_true _ _ Hf) as (_ & _ & _ & Hk & _).
    rewrite Hk, Hf in Hf'. done.
  - destruct (BftFilteredHeader_true _ _ Hf') as (_ & _ & _ & Hk & _).
    rewrite Hk, Hf' in Hf. done.
  - done.
Qed.
End header_laws.

(** ** A concrete codec, for examples *)

Definition example_enc_list (l : list bytes) : bytes :=
  Z.of_nat (length l) :: concat (map (fun b => Z.of_nat (length b) :: b) l).

Fixpoint example_dec_items (n : nat) (b : bytes) : option (list bytes * bytes) :=
  match n with
  | O => Some ([], b)
  | S n' =>
      match b with
      | [] => None
      | len :: b' =>
          match example_dec_items n' (drop (Z.to_nat len) b') with
          | Some (l, rest) => Some (take (Z.to_nat len) b' :: l, rest)
          | None => None
          end
      end
  end.

Lemma example_dec_items_app l rest :
  example_dec_items (length l) (concat (map (fun b => Z.of_nat (length b) :: b) l) ++ rest)
  = Some (l, rest).
Proof.
  induction l as [|b l IH]; [done|]. cbn. rewrite Nat2Z.id, <- app_assoc.
  by rewrite drop_app_length, take_app_length, IH.
Qed.

(** The hash of a header is its fields, encoded. *)
Definition example_header_codec : HeaderCodec := {|
  encode_extra e := Some (example_enc_list (be_Verifiers e) ++ example_enc_list [be_Seal e]
                          ++ example_enc_list (be_CommittedSeal e));
  decode_extra b :=
    match b with
    | [] => None
    | n :: b1 =>
        match example_dec_items (Z.to_nat n) b1 with
        | Some (vers, _ :: b2) =>
            match example_dec_items 1 b2 with
            | Some ([seal], m :: b3) =>
                match example_dec_items (Z.to_nat m) b3 with
                | Some (seals, _) => Some (mkBftExtra vers seal seals)
                | None => None
                end
            | _ => None
            end
        | _ => None
        end
    end;
  MustHash o :=
    match o with
    | None => []
    | Some h =>
        let num (x : option Z) := match x with Some z => [1; z] | None => [] end in
        example_enc_list [h_PreviousBlockHash h; h_Creator h; h_StateHash h; h_TxHash h;
          h_ReceiptHash h; h_TxDebtHash h; h_DebtHash h; num (h_Difficulty h); [h_Height h];
          num (h_CreateTimestamp h); h_Witness h; h_SecondWitness h; [h_Consensus h]; h_ExtraData h]
    end;
  GetSignatureAddress data sig := Some (take AddressLen sig)
|}.

Lemma example_enc_list_inj l l' : example_enc_list l = example_enc_list l' -> l = l'.
Proof.
  intros Heq. unfold example_enc_list in Heq. injection Heq as Hlen Hj.
  pose proof (example_dec_items_app l []) as H1. pose proof (example_dec_items_app l' []) as H2.
  apply Nat2Z.inj in Hlen. rewrite Hj, Hlen, H2 in H1. by injection H1.
Qed.

#[export] Instance example_header_codec_laws : @HeaderCodecLaws example_header_codec.
Proof.
  constructor.
  - intros e. eexists. reflexivity.
  - intros [vers seal seals] b Hb. unfold encode_extra, example_header_codec in Hb.
    apply Some_inj in Hb as <-. unfold decode_extra, example_header_codec, example_enc_list.
    cbn [be_Verifiers be_Seal be_CommittedSeal]. cbn [app]. rewrite Nat2Z.id, example_dec_items_app.
    change (example_dec_items 1) with (example_dec_items (length [seal])).
    rewrite example_dec_items_app, Nat2Z.id.
    rewrite <- (app_nil_r (concat (map _ seals))). by rewrite example_dec_items_app.
  - intros [[]|] [[]|] Heq; unfold MustHash, example_header_codec in Heq; try done.
    apply example_enc_list_inj in Heq. cbn in Heq. simplify_eq.
    assert (Hnum : forall x y : option Z,
      match x with Some z => [1; z] | None => [] end = match y with Some z => [1; z] | None => [] end
      -> x = y) by (intros [] [] ?; by simplify_eq).
    repeat match goal with
    | Hx : match ?x with _ => _ end = match ?y with _ => _ end |- _ => apply Hnum in Hx
    end. by subst.
Qed.

(** ** Properties *)

(** Writing committed seals into a BFT header changes neither the hash of
    the block nor the creator recovered from it, and the seals are read back
    as they were written, with the verifiers and the seal unchanged. *)
Theorem writeCommittedSeals_keeps_block `{HeaderCodecLaws} (h h' : BlockHeader) (seals : list bytes) :
  h_Consensus h = BftConsensus -> writeCommittedSeals h seals = inl h' ->
  header_Hash h' = header_Hash h /\ recover_creator h' = recover_creator h
  /\ exists e, ExtractBftExtra h = inl e
       /\ ExtractBftExtra h' = inl (mkBftExtra (be_Verifiers e) (be_Seal e) seals).
Proof.
  intros Hc Hw. destruct (writeCommittedSeals_inl _ _ _ Hw) as (_ & _ & e & He & Hput).
  destruct (put_extra_Extract _ _ _ _ He Hput) as (He' & _ & Hh).
  assert (Hhash : header_Hash h' = header_Hash h).
  { rewrite !header_Hash_hashed. unfold hashed_header.
    assert (h_Consensus h' = h_Consensus h) as -> by (by rewrite Hh). rewrite Hc. cbn [orb].
    rewrite (BftFilteredHeader_put h e _ h' true He Hput) by done.
    by destruct (BftFilteredHeader_total h e true He) as [f ->]. }
  split; [done|]. split; [by apply header_Hash_creator|]. by exists e.
Qed.

Definition example_header : BlockHeader :=
  mkHeader [1] [2] [3] [4] [5] [6] [7] (Some 1) 5 (Some 100) [0] [] BftConsensus
    (replicate 32 0 ++ default [] (@encode_extra example_header_codec
       (mkBftExtra [[1]; [2]] [9; 9] []))).

Lemma writeCommittedSeals_keeps_block_witness :
  exists h', @writeCommittedSeals example_header_codec example_header [replicate 65 1; replicate 65 2]
      = inl h'
    /\ @header_Hash example_header_codec h' = @header_Hash example_header_codec example_header.
Proof.
  eexists. split; [vm_compute; reflexivity|].
  eapply (@writeCommittedSeals_keeps_block example_header_codec example_header_codec_laws
            example_header _ [replicate 65 1; replicate 65 2]).
  - reflexivity.
  - vm_compute. reflexivity.
Defined.

(** Writing a seal into a header does not change the hash that is signed,
    so that the creator recovered from the sealed header is the signer of
    that hash. *)
Theorem writeSeal_creator `{HeaderCodecLaws} (h h' : BlockHeader) (seal : bytes) :
  writeSeal h seal = inl h' ->
  sigHash h' = sigHash h
  /\ recover_creator h' = match GetSignatureAddress (sigHash h) seal with
                          | Some a => inl a
                          | None => inr errSignatureRecovery
                          end.
Proof.
  intros Hw. destruct (writeSeal_inl _ _ _ Hw) as (e & He & Hput).
  destruct (put_extra_Extract _ _ _ _ He Hput) as (He' & _ & _).
  assert (Hsig : sigHash h' = sigHash h).
  { unfold sigHash. rewrite !IstanbulFilteredHeader_eq. f_equal. by eapply BftFilteredHeader_put. }
  split; [done|]. unfold recover_creator. by rewrite He', Hsig.
Qed.

Lemma writeSeal_creator_witness :
  exists h', @writeSeal example_header_codec example_header (replicate 65 7) = inl h'
    /\ @recover_creator example_header_codec h' = inl (replicate 20 7).
Proof.
  eexists. split; [vm_compute; reflexivity|].
  destruct (@writeSeal_creator example_header_codec example_header_codec_laws
    example_header (match @writeSeal example_header_codec example_header (replicate 65 7) with
                    | inl h' => h' | inr _ => example_header end) (replicate 65 7)) as [_ Hc].
  - vm_compute. reflexivity.
  - vm_compute in Hc. vm_compute. exact Hc.
Defined.
