(* ===== verification/BftSnapshot.v ===== *)
(** * Voting snapshots

    Models [consensus/bft/server/snapshot.go]: the votes on the verifier set, their
    tally, the snapshot that the headers are applied to and its JSON form; and
    [extractAccount] of [engine_implement.go], which the headers are attributed
    with, together with its cache. *)

From Stdlib Require Import ZArith Lia.
From S2P Require Import Prelude Common Verifier BftHeader.

Open Scope Z_scope.
Open Scope go_scope.

(** ** Data *)

Record Vote := mkVote {
  vote_Verifier : Address;
  vote_Block : Z;
  vote_Address : Address;
  vote_Authorize : bool
}.

Record Tally := mkTally { t_Authorize : bool; t_Votes : Z }.

Record Snapshot := mkSnapshot {
  s_Epoch : Z;
  s_Height : Z;
  s_Hash : Hash;
  s_Votes : list Vote;
  s_Tally : gmap Address Tally;
  s_VerSet : basicSet
}.

Definition set_Votes (s : Snapshot) (v : list Vote) : Snapshot :=
  mkSnapshot (s_Epoch s) (s_Height s) (s_Hash s) v (s_Tally s) (s_VerSet s).
Definition set_Tally (s : Snapshot) (t : gmap Address Tally) : Snapshot :=
  mkSnapshot (s_Epoch s) (s_Height s) (s_Hash s) (s_Votes s) t (s_VerSet s).
Definition set_VerSet (s : Snapshot) (v : basicSet) : Snapshot :=
  mkSnapshot (s_Epoch s) (s_Height s) (s_Hash s) (s_Votes s) (s_Tally s) v.

(** ** Votes *)

Definition newSnapshot (epoch number : Z) (hash : Hash) (verSet : basicSet) : Snapshot :=
  mkSnapshot epoch number hash [] ∅ verSet.

Definition snap_copy (s : Snapshot) : Snapshot :=
  mkSnapshot (s_Epoch s) (s_Height s) (s_Hash s) (s_Votes s) (s_Tally s) (Copy (s_VerSet s)).

Definition checkVote (s : Snapshot) (address : Address) (authorize : bool) : bool :=
  match (GetVerByAddress (s_VerSet s) address).2 with
  | Some _ => negb authorize
  | None => authorize
  end.

Definition cast (s : Snapshot) (address : Address) (authorize : bool) : Snapshot * bool :=
  if negb (checkVote s address authorize) then (s, false)
  else
    match s_Tally s !! address with
    | Some old =>
        (set_Tally s (<[address := mkTally (t_Authorize old) (t_Votes old + 1)]> (s_Tally s)), true)
    | None => (set_Tally s (<[address := mkTally authorize 1]> (s_Tally s)), true)
    end.

Definition uncast (s : Snapshot) (address : Address) (authorize : bool) : Snapshot * bool :=
  match s_Tally s !! address with
  | None => (s, false)
  | Some tally =>
      if negb (eqb (t_Authorize tally) authorize) then (s, false)
      else if 1 <? t_Votes tally
      then (set_Tally s (<[address := mkTally (t_Authorize tally) (t_Votes tally - 1)]> (s_Tally s)),
            true)
      else (set_Tally s (delete address (s_Tally s)), true)
  end.

(** The first vote of the signer on the account, and the votes without it. *)
Fixpoint find_vote (signer creator : Address) (l : list Vote) : option (Vote * list Vote) :=
  match l with
  | [] => None
  | v :: l' =>
      if bool_decide (vote_Verifier v = signer) && bool_decide (vote_Address v = creator)
      then Some (v, l')
      else match find_vote signer creator l' with
           | Some (x, rest) => Some (x, v :: rest)
           | None => None
           end
  end.

Definition discard_previous (s : Snapshot) (signer creator : Address) : Snapshot :=
  match find_vote signer creator (s_Votes s) with
  | None => s
  | Some (v, rest) => set_Votes (uncast s (vote_Address v) (vote_Authorize v)).1 rest
  end.

(** The votes cast by [creator] are dropped from the list and the tally. *)
Fixpoint discard_cast_by (creator : Address) (l : list Vote) (s : Snapshot) : Snapshot * list Vote :=
  match l with
  | [] => (s, [])
  | v :: l' =>
      if bool_decide (vote_Verifier v = creator) then
        discard_cast_by creator l' (uncast s (vote_Address v) (vote_Authorize v)).1
      else
        let '(s', kept) := discard_cast_by creator l' s in (s', v :: kept)
  end.

(** The votes about [creator] are dropped from the list only. *)
Fixpoint discard_about (creator : Address) (l : list Vote) : list Vote :=
  match l with
  | [] => []
  | v :: l' =>
      if bool_decide (vote_Address v = creator) then discard_about creator l'
      else v :: discard_about creator l'
  end.

Definition nonceAuthVote : bytes := replicate 8 255.
Definition nonceDropVote : bytes := replicate 8 0.

(** What happens when a majority agrees on the account. *)
Definition apply_passed (s : Snapshot) (creator : Address) : Snapshot :=
  let tally := default (mkTally false 0) (s_Tally s !! creator) in
  if Size (s_VerSet s) / 2 <? t_Votes tally then
    let s1 :=
      if t_Authorize tally then set_VerSet s (AddVerifier (s_VerSet s) creator).1
      else
        let s1 := set_VerSet s (RemoveVerifier (s_VerSet s) creator).1 in
        let '(s2, kept) := discard_cast_by creator (s_Votes s1) s1 in
        set_Votes s2 kept in
    let s2 := set_Votes s1 (discard_about creator (s_Votes s1)) in
    set_Tally s2 (delete creator (s_Tally s2))
  else s.

(** The body of the loop over the headers, once the signer is known and
    authorized. *)
Definition apply_vote (s : Snapshot) (signer : Address) (header : BlockHeader)
    : Snapshot + SrvError :=
  let creator := h_Creator header in
  let s1 := discard_previous s signer creator in
  let vote :=
    if bool_decide (h_Witness header = nonceAuthVote) then Some true
    else if bool_decide (h_Witness header = nonceDropVote) then Some false
    else None in
  match vote with
  | None => inr errVoteInvalid
  | Some authorize =>
      let '(s2, ok) := cast s1 creator authorize in
      let s3 := if ok then set_Votes s2 (s_Votes s2 ++ [mkVote signer (h_Height header) creator authorize])
                else s2 in
      inl (apply_passed s3 creator)
  end.

(** ** The signer of a header, and its cache *)

(** The caches are hashicorp's ARC caches: adding an entry may drop others. *)
Class ArcCache := {
  arc_Add : forall {A : Type}, gmap Hash A -> Hash -> A -> gmap Hash A
}.

Class ArcCacheLaws `{ArcCache} := {
  arc_Add_lookup {A} (m : gmap Hash A) k v k' v' :
    arc_Add m k v !! k' = Some v' -> (k' = k /\ v' = v) \/ m !! k' = Some v';
  arc_Add_new {A} (m : gmap Hash A) k v : arc_Add m k v !! k = Some v
}.

(** The state of the server that these functions use. *)
Record SrvState := mkSrvState {
  cachedAddrs : gmap Hash Address;
  recents : gmap Hash Snapshot;
  srv_db : gmap bytes bytes
}.

Abbreviation SrvM A := (GoM SrvState Empty_set (A + SrvError)).

(** [if err != nil { return err }] *)
Definition try_bind {A B} (m : SrvM A) (k : A -> SrvM B) : SrvM B :=
  go_bind m (fun r => match r with inl a => k a | inr e => go_ret (inr e) end).

Notation "x <-? m ;; k" := (try_bind m (fun x => k))
  (at level 100, m at next level, right associativity) : go_scope.

Section snapshot.
Context `{HeaderCodec, ArcCache}.

Definition extractAccount (header : BlockHeader) : SrvM Address :=
  let hash := header_Hash header in
  st <- go_get ;;
  match cachedAddrs st !! hash with
  | Some addr => go_ret (inl addr)
  | None =>
      match recover_creator header with
      | inr err => go_ret (inr err)
      | inl addr =>
          go_modify (fun st => mkSrvState (arc_Add (cachedAddrs st) hash addr) (recents st) (srv_db st)) ;;;
          go_ret (inl addr)
      end
  end.

(** ** [applyHeaders] *)

Fixpoint consecutive (l : list BlockHeader) : bool :=
  match l with
  | h1 :: ((h2 :: _) as l') => (h_Height h2 =? u64 (h_Height h1 + 1)) && consecutive l'
  | _ => true
  end.

(** A modulo by a zero [Epoch] panics. *)
Fixpoint apply_each (epoch : Z) (headers : list BlockHeader) (snap : Snapshot) : SrvM Snapshot :=
  match headers with
  | [] => go_ret (inl snap)
  | header :: headers' =>
      let number := h_Height header in
      m <- (if epoch =? 0 then go_panic else go_ret (number mod epoch)) ;;
      let snap1 := if m =? 0 then set_Tally (set_Votes snap []) ∅ else snap in
      signer <-? extractAccount header ;;
      match (GetVerByAddress (s_VerSet snap1) signer).2 with
      | None => go_ret (inr errUnauthorized)
      | Some _ =>
          match apply_vote snap1 signer header with
          | inr err => go_ret (inr err)
          | inl snap2 => apply_each epoch headers' snap2
          end
      end
  end.

Definition applyHeaders (s : Snapshot) (headers : list BlockHeader) : SrvM Snapshot :=
  let snap := snap_copy s in
  match headers with
  | [] => go_ret (inl s)
  | h0 :: _ =>
      if negb (h_Height h0 =? u64 (s_Height s + 1)) then go_ret (inr errVotingChainInvalid)
      else if negb (consecutive headers) then go_ret (inr errVotingChainInvalid)
      else
        snap' <-? apply_each (s_Epoch s) headers snap ;;
        go_ret (inl (mkSnapshot (s_Epoch snap')
          (u64 (s_Height snap' + Z.of_nat (length headers)))
          (header_Hash (default h0 (last headers)))
          (s_Votes snap') (s_Tally snap') (s_VerSet snap')))
  end.
End snapshot.

(** ** The ordered list of verifiers and the JSON form *)

(** One round of the inner loop: the element in front, swapped with every
    smaller one behind it. *)
Fixpoint exchange_pass (x : Address) (l : list Address) : Address * list Address :=
  match l with
  | [] => (x, [])
  | y :: l' =>
      if 0 <? bytes_cmp x y
      then let '(m, r) := exchange_pass y l' in (m, x :: r)
      else let '(m, r) := exchange_pass x l' in (m, y :: r)
  end.

(** The outer loop; the length of the list is enough fuel. *)
Fixpoint exchange_sort (fuel : nat) (l : list Address) : list Address :=
  match fuel, l with
  | S fuel', x :: l' =>
      let '(m, r) := exchange_pass x l' in m :: exchange_sort fuel' r
  | _, _ => l
  end.

Definition snap_verifiers (s : Snapshot) : list Address :=
  exchange_sort (length (bs_verifiers (s_VerSet s))) (bs_verifiers (s_VerSet s)).

Record snapshotJSON := mkSnapshotJSON {
  j_Epoch : Z;
  j_Number : Z;
  j_Hash : Hash;
  j_Votes : list Vote;
  j_Tally : gmap Address Tally;
  j_Verifiers : list Address;
  j_Policy : Z
}.

Definition toJSONStruct (s : Snapshot) : snapshotJSON :=
  mkSnapshotJSON (s_Epoch s) (s_Height s) (s_Hash s) (s_Votes s) (s_Tally s)
    (snap_verifiers s) (bs_policy (s_VerSet s)).

(** [UnmarshalJSON], after the standard library decoded the struct. *)
Definition fromJSONStruct (j : snapshotJSON) : Snapshot :=
  mkSnapshot (j_Epoch j) (j_Number j) (j_Hash j) (j_Votes j) (j_Tally j)
    (NewVerifierSet (j_Verifiers j) (j_Policy j)).

(** ** The invariant of a snapshot *)

Definition votes_on (a : Address) (l : list Vote) : Z :=
  Z.of_nat (length (filter (fun v => vote_Address v = a) l)).

(** The tally entry of an account with [n] votes. *)
Definition tally_entry (auth : Address -> bool) (a : Address) (n : Z) : option Tally :=
  if n =? 0 then None else Some (mkTally (auth a) n).

(** The tally counts the votes of the list. *)
Definition tally_ok (auth : Address -> bool) (t : gmap Address Tally) (l : list Vote) : Prop :=
  forall a, t !! a = tally_entry auth a (votes_on a l).

(** A vote asks for the change that is still possible. *)
Definition vote_auth (vs : basicSet) (a : Address) : bool := negb (bool_decide (is_verifier vs a)).

Definition vote_key (v : Vote) : Address * Address := (vote_Verifier v, vote_Address v).

Record snap_ok (s : Snapshot) : Prop := {
  so_verSet : verSet_wf (s_VerSet s);
  so_tally : tally_ok (vote_auth (s_VerSet s)) (s_Tally s) (s_Votes s);
  so_auth : forall v, v ∈ s_Votes s -> vote_Authorize v = vote_auth (s_VerSet s) (vote_Address v);
  so_voters : forall v, v ∈ s_Votes s -> is_verifier (s_VerSet s) (vote_Verifier v);
  so_once : NoDup (map vote_key (s_Votes s))
}.

Lemma votes_on_cons a v l :
  votes_on a (v :: l) = (if bool_decide (vote_Address v = a) then 1 else 0) + votes_on a l.
Proof.
  unfold votes_on. rewrite filter_cons. destruct (decide (vote_Address v = a)).
  - rewrite bool_decide_true by done. cbn [length]. lia.
  - rewrite bool_decide_false by done. lia.
Qed.

Lemma votes_on_app a l l' : votes_on a (l ++ l') = votes_on a l + votes_on a l'.
Proof. unfold votes_on. rewrite filter_app, length_app. lia. Qed.

Lemma votes_on_nonneg a l : 0 <= votes_on a l.
Proof. unfold votes_on. lia. Qed.

Lemma votes_on_perm a l l' : l ≡ₚ l' -> votes_on a l = votes_on a l'.
Proof. intros Hp. unfold votes_on. by rewrite Hp. Qed.

Lemma tally_ok_perm auth t l l' : l ≡ₚ l' -> tally_ok auth t l -> tally_ok auth t l'.
Proof. intros Hp Ht a. rewrite (Ht a). by rewrite (votes_on_perm a l l'). Qed.

(** Taking a counted vote back. *)
Lemma uncast_ok auth s v l :
  tally_ok auth (s_Tally s) (v :: l) -> vote_Authorize v = auth (vote_Address v) ->
  tally_ok auth (s_Tally (uncast s (vote_Address v) (vote_Authorize v)).1) l.
Proof.
  intros Ht Hv. unfold uncast. pose proof (Ht (vote_Address v)) as Hl.
  rewrite votes_on_cons, bool_decide_true in Hl by done.
  pose proof (votes_on_nonneg (vote_Address v) l) as Hn.
  unfold tally_entry in Hl. destruct (Z.eqb_spec (1 + votes_on (vote_Address v) l) 0); [lia|].
  rewrite Hl, Hv. cbn [t_Authorize t_Votes]. rewrite eqb_reflx. cbn [negb].
  assert (Hother : forall a, a <> vote_Address v -> s_Tally s !! a = tally_entry auth a (votes_on a l)).
  { intros a Ha. rewrite (Ht a), votes_on_cons, bool_decide_false by congruence. done. }
  destruct (Z.ltb_spec 1 (1 + votes_on (vote_Address v) l)); cbn; intros a;
    destruct (decide (a = vote_Address v)) as [->|Ha].
  - rewrite lookup_insert_eq. unfold tally_entry.
    destruct (Z.eqb_spec (votes_on (vote_Address v) l) 0); [lia|]. do 2 f_equal. lia.
  - rewrite lookup_insert_ne by done. auto.
  - rewrite lookup_delete_eq. unfold tally_entry.
    destruct (Z.eqb_spec (votes_on (vote_Address v) l) 0); [done|lia].
  - rewrite lookup_delete_ne by done. auto.
Qed.

Lemma uncast_same s a b : s_VerSet (uncast s a b).1 = s_VerSet s /\ s_Votes (uncast s a b).1 = s_Votes s
  /\ s_Epoch (uncast s a b).1 = s_Epoch s /\ s_Height (uncast s a b).1 = s_Height s.
Proof. unfold uncast. repeat case_match; done. Qed.

Lemma checkVote_spec s a b : checkVote s a b = true <-> b = vote_auth (s_VerSet s) a.
Proof.
  unfold checkVote, vote_auth.
  destruct (GetVerByAddress (s_VerSet s) a).2 as [v|] eqn:Hg.
  - apply GetVerByAddress_Some in Hg as [_ Hv]. rewrite bool_decide_true by done. by destruct b.
  - apply GetVerByAddress_None in Hg. rewrite bool_decide_false by done. by destruct b.
Qed.

(** Counting a new vote. *)
Lemma cast_ok s a b v :
  tally_ok (vote_auth (s_VerSet s)) (s_Tally s) (s_Votes s) ->
  vote_Address v = a -> (cast s a b).2 = true ->
  b = vote_auth (s_VerSet s) a
  /\ tally_ok (vote_auth (s_VerSet s)) (s_Tally (cast s a b).1) (s_Votes s ++ [v]).
Proof.
  intros Ht Hv. unfold cast. destruct (checkVote s a b) eqn:Hc; [|done]. cbn [negb].
  apply checkVote_spec in Hc. intros _. split; [by destruct (s_Tally s !! a)|].
  intros a'. rewrite votes_on_app. unfold votes_on at 2. rewrite filter_cons, filter_nil, Hv.
  pose proof (Ht a) as Hl. unfold tally_entry in Hl.
  pose proof (votes_on_nonneg a (s_Votes s)). unfold tally_entry.
  destruct (decide (a = a')) as [<-|Hne].
  - cbn [length]. destruct (Z.eqb_spec (votes_on a (s_Votes s) + Z.of_nat 1) 0); [lia|].
    destruct (Z.eqb_spec (votes_on a (s_Votes s)) 0) as [He|He]; rewrite Hl; cbn;
      rewrite lookup_insert_eq; do 2 f_equal; [done|lia].
  - cbn [length]. rewrite Z.add_0_r.
    destruct (s_Tally s !! a); cbn; rewrite lookup_insert_ne by done; apply Ht.
Qed.

Lemma cast_same s a b : s_VerSet (cast s a b).1 = s_VerSet s /\ s_Votes (cast s a b).1 = s_Votes s
  /\ s_Epoch (cast s a b).1 = s_Epoch s /\ s_Height (cast s a b).1 = s_Height s.
Proof. unfold cast. destruct (negb _); [done|]. by destruct (s_Tally s !! a). Qed.

Lemma find_vote_perm signer creator l v rest :
  find_vote signer creator l = Some (v, rest) -> l ≡ₚ v :: rest /\ vote_key v = (signer, creator).
Proof.
  revert rest; induction l as [|x l IH]; intros rest Hf; [done|]. cbn in Hf.
  case_bool_decide as H1; case_bool_decide as H2; cbn in Hf; simplify_eq; try done.
  all: destruct (find_vote _ _ l) as [[y r]|]; [|done]; simplify_eq;
    destruct (IH _ eq_refl) as [Hp ?]; (split; [rewrite Hp; apply Permutation_swap|done]).
Qed.

Lemma find_vote_none signer creator l :
  find_vote signer creator l = None -> (signer, creator) ∉ map vote_key l.
Proof.
  induction l as [|x l IH]; [intros _; apply not_elem_of_nil|]. cbn.
  destruct (bool_decide (vote_Verifier x = signer) && bool_decide (vote_Address x = creator)) eqn:Hb;
    [done|].
  destruct (find_vote _ _ l) as [[? ?]|]; [done|]. intros _.
  apply not_elem_of_cons. split; [|auto]. unfold vote_key. intros [= -> ->].
  by rewrite !bool_decide_true in Hb.
Qed.

(** Any part of the votes, with its tally. *)
Lemma snap_ok_part s s' l :
  snap_ok s -> s_VerSet s' = s_VerSet s -> s_Votes s' = l -> (exists rest, s_Votes s ≡ₚ rest ++ l) ->
  tally_ok (vote_auth (s_VerSet s)) (s_Tally s') l -> snap_ok s'.
Proof.
  intros [Hwf Ht Ha Hv Ho] Hvs Hl [rest Hp] Ht'.
  assert (Hin : forall v, v ∈ l -> v ∈ s_Votes s) by (intros v Hl'; rewrite Hp; apply elem_of_app; auto).
  constructor; rewrite ?Hvs, ?Hl; auto.
  rewrite Hp, map_app, NoDup_app in Ho. apply Ho.
Qed.

Lemma discard_previous_ok s signer creator :
  snap_ok s ->
  snap_ok (discard_previous s signer creator)
  /\ s_VerSet (discard_previous s signer creator) = s_VerSet s
  /\ (signer, creator) ∉ map vote_key (s_Votes (discard_previous s signer creator)).
Proof.
  intros Hs. unfold discard_previous.
  destruct (find_vote signer creator (s_Votes s)) as [[v rest]|] eqn:Hf.
  - apply find_vote_perm in Hf as [Hp Hk].
    pose proof (uncast_same s (vote_Address v) (vote_Authorize v)) as (Hvs & _).
    assert (Hv : v ∈ s_Votes s) by (rewrite Hp; left).
    split; [|split; [done|]].
    + eapply (snap_ok_part s); try done; [by exists [v]|]. cbn.
      apply uncast_ok; [by eapply tally_ok_perm, Hs|by apply Hs].
    + pose proof (so_once _ Hs) as Ho. rewrite Hp in Ho. cbn in Ho.
      apply NoDup_cons in Ho as [Ho _]. by rewrite <- Hk.
  - split; [done|]. split; [done|]. by apply find_vote_none.
Qed.

Lemma discard_about_filter creator l :
  discard_about creator l = filter (fun v => vote_Address v <> creator) l.
Proof.
  induction l as [|v l IH]; [done|]. cbn [discard_about]. rewrite filter_cons, IH.
  destruct (decide (vote_Address v = creator)).
  - rewrite bool_decide_true by done. by destruct (decide _).
  - rewrite bool_decide_false by done. by destruct (decide _).
Qed.

Lemma discard_cast_by_spec auth creator l : forall pre s,
  tally_ok auth (s_Tally s) (pre ++ l) ->
  (forall v, v ∈ l -> vote_Authorize v = auth (vote_Address v)) ->
  let '(s', kept) := discard_cast_by creator l s in
  kept = filter (fun v => vote_Verifier v <> creator) l
  /\ tally_ok auth (s_Tally s') (pre ++ kept) /\ s_VerSet s' = s_VerSet s.
Proof.
  induction l as [|v l IH]; intros pre s Ht Ha; cbn [discard_cast_by]; [done|].
  assert (Ha' : forall x, x ∈ l -> vote_Authorize x = auth (vote_Address x))
    by (intros x Hx; apply Ha; by right).
  rewrite filter_cons. destruct (decide (vote_Verifier v = creator)) as [He|He].
  - rewrite bool_decide_true by done. destruct (decide (vote_Verifier v <> creator)); [done|].
    pose proof (uncast_same s (vote_Address v) (vote_Authorize v)) as (Hvs & _).
    specialize (IH pre (uncast s (vote_Address v) (vote_Authorize v)).1).
    destruct (discard_cast_by creator l _) as [s' kept]. rewrite <- Hvs. apply IH; [|done].
    apply uncast_ok; [|apply Ha; left]. eapply tally_ok_perm; [|exact Ht].
    by rewrite <- Permutation_middle.
  - rewrite bool_decide_false by done. destruct (decide (vote_Verifier v <> creator)); [|done].
    specialize (IH (pre ++ [v]) s). destruct (discard_cast_by creator l s) as [s' kept].
    rewrite <- !app_assoc in IH. cbn [app] in IH.
    destruct (IH Ht Ha') as (-> & ? & ?). done.
Qed.

(** Dropping what concerns an account from the votes and the tally. *)
Lemma forget_account auth t l creator :
  tally_ok auth t l ->
  tally_ok auth (delete creator t) (discard_about creator l).
Proof.
  intros Ht a. rewrite discard_about_filter. unfold votes_on. rewrite list_filter_filter.
  destruct (decide (a = creator)) as [->|Hne].
  - rewrite lookup_delete_eq, filter_none; [done|]. naive_solver.
  - rewrite lookup_delete_ne by done. rewrite (Ht a). unfold votes_on. do 3 f_equal.
    apply list_filter_iff. naive_solver.
Qed.

(** The tally only depends on the answers about the accounts voted on. *)
Lemma tally_ok_auth auth auth' t l :
  (forall v, v ∈ l -> auth' (vote_Address v) = auth (vote_Address v)) ->
  tally_ok auth t l -> tally_ok auth' t l.
Proof.
  intros Ha Ht a. rewrite (Ht a). unfold tally_entry.
  destruct (Z.eqb_spec (votes_on a l) 0) as [|Hn]; [done|]. do 2 f_equal.
  assert (Hex : exists v, v ∈ l /\ vote_Address v = a).
  { unfold votes_on in Hn. destruct (filter _ l) as [|v f] eqn:Hf; [cbn in Hn; lia|].
    assert (Hv : v ∈ filter (fun v => vote_Address v = a) l) by (rewrite Hf; left).
    apply list_elem_of_filter in Hv as [? ?]. by exists v. }
  destruct Hex as (v & Hv & <-). by symmetry; apply Ha.
Qed.

(** What is left of the votes when the verifier set changes at one account. *)
Lemma change_account_ok s s' creator l :
  snap_ok s -> sublist l (s_Votes s) ->
  tally_ok (vote_auth (s_VerSet s)) (s_Tally s') l ->
  verSet_wf (s_VerSet s') ->
  (forall a, a <> creator -> is_verifier (s_VerSet s') a <-> is_verifier (s_VerSet s) a) ->
  (forall v, v ∈ l -> is_verifier (s_VerSet s') (vote_Verifier v)) ->
  snap_ok (set_Tally (set_Votes s' (discard_about creator l)) (delete creator (s_Tally s'))).
Proof.
  intros [Hwf Ht Ha Hv Ho] Hsub Ht' Hwf' Hmem Hvot.
  assert (Hin : forall v, v ∈ discard_about creator l -> v ∈ l /\ vote_Address v <> creator).
  { intros v. rewrite discard_about_filter. rewrite list_elem_of_filter. tauto. }
  assert (Hauth : forall v, v ∈ discard_about creator l ->
    vote_auth (s_VerSet s') (vote_Address v) = vote_auth (s_VerSet s) (vote_Address v)).
  { intros v [_ Hne]%Hin. unfold vote_auth. f_equal. apply bool_decide_ext. by apply Hmem. }
  assert (Hl : forall v, v ∈ l -> v ∈ s_Votes s).
  { intros v Hv'. eapply elem_of_submseteq, sublist_submseteq; done. }
  constructor; cbn.
  - done.
  - eapply tally_ok_auth; [exact Hauth|]. by apply forget_account.
  - intros v Hv'. rewrite Hauth by done. by apply Ha, Hl, Hin.
  - intros v [? _]%Hin. auto.
  - eapply sublist_NoDup; [exact Ho|].
    assert (Hs : sublist (discard_about creator l) (s_Votes s)).
    { etransitivity; [|exact Hsub]. rewrite discard_about_filter. apply sublist_filter. }
    clear - Hs. induction Hs; cbn; constructor; done.
Qed.

Lemma apply_passed_ok s creator :
  snap_ok s -> wf_address creator -> snap_ok (apply_passed s creator).
Proof.
  intros Hs Hcr. unfold apply_passed. set (tally := default _ _).
  destruct (_ <? t_Votes tally) eqn:Hpass; [|done].
  pose proof (Size_nonneg (s_VerSet s)) as Hsz.
  destruct (t_Authorize tally).
  - apply (change_account_ok s (set_VerSet s (AddVerifier (s_VerSet s) creator).1) creator (s_Votes s));
      try done; cbn.
    + apply Hs.
    + apply AddVerifier_keeps_wf; [apply Hs|done].
    + intros a Ha. rewrite AddVerifier_mem. tauto.
    + intros v Hv. apply AddVerifier_mem. right. by apply Hs.
  - set (s1 := set_VerSet s _).
    pose proof (discard_cast_by_spec (vote_auth (s_VerSet s)) creator (s_Votes s) [] s1) as Hd.
    change (s_Votes s1) with (s_Votes s).
    destruct (discard_cast_by creator (s_Votes s) s1) as [s2 kept].
    destruct Hd as (Hkept & Ht & Hvs); [apply Hs|apply Hs|]. cbn [app] in Ht.
    apply (change_account_ok s (set_Votes s2 kept) creator kept); try done; cbn.
    + rewrite Hkept. apply sublist_filter.
    + rewrite Hvs. apply RemoveVerifier_keeps_wf, Hs.
    + intros a Ha. rewrite Hvs. cbn. rewrite RemoveVerifier_mem by apply Hs. tauto.
    + intros v Hv. rewrite Hvs. cbn. rewrite RemoveVerifier_mem by apply Hs.
      rewrite Hkept in Hv. apply list_elem_of_filter in Hv as [? ?]. split; [done|by apply Hs].
Qed.

(** ** Majorities *)

Lemma voters_on_nodup l a :
  NoDup (map vote_key l) -> NoDup (map vote_Verifier (filter (fun v => vote_Address v = a) l)).
Proof.
  induction l as [|v l IH]; intros Hnd; [constructor|]. cbn [map] in Hnd.
  apply NoDup_cons in Hnd as [Hv Hnd]. rewrite filter_cons.
  destruct (decide (vote_Address v = a)) as [Ha|]; [|auto]. cbn [map]. constructor; [|auto].
  intros Hin. apply Hv. rewrite list_elem_of_In, in_map_iff in Hin.
  destruct Hin as (w & Hw & Hin). apply list_elem_of_In, list_elem_of_filter in Hin as [Hwa Hin].
  rewrite list_elem_of_In, in_map_iff. exists w. split; [|by apply list_elem_of_In].
  unfold vote_key. congruence.
Qed.

(** The vote of the header asks for the change of its account that is possible. *)
Definition asks_change (s : Snapshot) (header : BlockHeader) : bool :=
  bool_decide (h_Witness header = if bool_decide (is_verifier (s_VerSet s) (h_Creator header)) then nonceDropVote else nonceAuthVote).

(** A verifier supports the change: the signer with the vote of the header, any other with a vote
    that is listed. *)
Definition supports (s : Snapshot) (signer : Address) (header : BlockHeader) (w : Address) : bool :=
  if decide (w = signer) then asks_change s header
  else bool_decide (Exists (fun v => vote_Verifier v = w /\ vote_Address v = h_Creator header) (s_Votes s)).

(** More than half of the verifiers support it. *)
Definition majority (s : Snapshot) (signer : Address) (header : BlockHeader) : bool :=
  Size (s_VerSet s) <? 2 * Z.of_nat (length (filter (fun w => supports s signer header w = true) (bs_verifiers (s_VerSet s)))).

(** The account changes exactly when more than half of the verifiers have a vote on it. *)
Lemma apply_passed_members s creator a :
  snap_ok s ->
  is_verifier (s_VerSet (apply_passed s creator)) a <->
    (if decide (a = creator /\ Size (s_VerSet s) < 2 * votes_on creator (s_Votes s))
     then ~ is_verifier (s_VerSet s) a else is_verifier (s_VerSet s) a).
Proof.
  intros Hs. unfold apply_passed. set (tally := default _ _).
  pose proof (Size_nonneg (s_VerSet s)) as Hsz. pose proof (votes_on_nonneg creator (s_Votes s)).
  assert (Ht : t_Votes tally = votes_on creator (s_Votes s)
    /\ (votes_on creator (s_Votes s) <> 0 -> t_Authorize tally = vote_auth (s_VerSet s) creator)).
  { unfold tally. rewrite (so_tally _ Hs creator). unfold tally_entry. by destruct (Z.eqb_spec (votes_on creator (s_Votes s)) 0). }
  destruct Ht as [-> Hauth]. destruct (Z.ltb_spec (Size (s_VerSet s) / 2) (votes_on creator (s_Votes s))) as [Hpass|Hno].
  2: { rewrite decide_False; [done|]. intros [_ ?]. zdiv. }
  rewrite Hauth by zdiv. unfold vote_auth. destruct (bool_decide_reflect (is_verifier (s_VerSet s) creator)) as [Hv|Hv]; cbn [negb].
  - set (s1 := set_VerSet s _).
    pose proof (discard_cast_by_spec (vote_auth (s_VerSet s)) creator (s_Votes s) [] s1) as Hd.
    change (s_Votes s1) with (s_Votes s). destruct (discard_cast_by creator (s_Votes s) s1) as [s2 kept].
    destruct Hd as (_ & _ & Hvs); [apply Hs|apply Hs|]. cbn. rewrite Hvs. cbn. rewrite RemoveVerifier_mem by apply Hs.
    case_decide as Hc; [destruct Hc as [-> _]; tauto|]. split; [tauto|]. intros Ha. split; [|done].
    intros ->. apply Hc. split; [done|zdiv].
  - cbn. rewrite AddVerifier_mem. case_decide as Hc; [destruct Hc as [-> _]; tauto|]. split; [|tauto].
    intros [->|?]; [|done]. destruct Hc. split; [done|zdiv].
Qed.

(** The votes without that of the signer. *)
Lemma discard_previous_votes s signer creator v :
  snap_ok s -> v ∈ s_Votes (discard_previous s signer creator) <-> v ∈ s_Votes s /\ vote_key v <> (signer, creator).
Proof.
  intros Hs. unfold discard_previous. destruct (find_vote signer creator (s_Votes s)) as [[x rest]|] eqn:Hf.
  - apply find_vote_perm in Hf as [Hp Hk]. cbn [set_Votes s_Votes]. rewrite Hp, elem_of_cons.
    pose proof (so_once _ Hs) as Ho. rewrite Hp in Ho. cbn in Ho. apply NoDup_cons in Ho as [Ho _]. rewrite Hk in Ho. split.
    + intros Hv. split; [by right|]. intros E. apply Ho. rewrite <-E. by apply list_elem_of_fmap_2.
    + intros [[->|?] ?]; done.
  - apply find_vote_none in Hf. split; [|by intros [? _]]. intros Hv. split; [done|]. intros E. apply Hf. rewrite <-E. by apply list_elem_of_fmap_2.
Qed.

(** The votes on an account are those of the verifiers that have one. *)
Lemma votes_on_count s a (P : Address -> bool) :
  snap_ok s -> (forall w, P w = true <-> exists v, v ∈ s_Votes s /\ vote_Verifier v = w /\ vote_Address v = a) ->
  votes_on a (s_Votes s) = Z.of_nat (length (filter (fun w => P w = true) (bs_verifiers (s_VerSet s)))).
Proof.
  intros Hs HP. unfold votes_on. f_equal. rewrite <-(length_map vote_Verifier). apply Permutation_length, NoDup_Permutation.
  - apply voters_on_nodup, Hs.
  - apply NoDup_filter, Hs.
  - intros w. rewrite list_elem_of_filter, HP. change (map vote_Verifier ?l) with (vote_Verifier <$> l). rewrite list_elem_of_fmap. split.
    + intros (v & -> & [Ha Hv]%list_elem_of_filter). split; [by exists v|]. by apply Hs.
    + intros [(v & Hv & <- & Ha) _]. exists v. split; [done|]. by apply list_elem_of_filter.
Qed.

(** The snapshot that the vote of the header was added to. *)
Lemma apply_vote_passed s signer header s' :
  snap_ok s -> is_verifier (s_VerSet s) signer ->
  apply_vote s signer header = inl s' ->
  exists s3, snap_ok s3 /\ s_VerSet s3 = s_VerSet s /\ s' = apply_passed s3 (h_Creator header)
    /\ (forall w, supports s signer header w = true <-> exists v, v ∈ s_Votes s3 /\ vote_Verifier v = w /\ vote_Address v = h_Creator header).
Proof.
  intros Hs Hsig. unfold apply_vote.
  destruct (discard_previous_ok s signer (h_Creator header) Hs) as (Hs1 & Hvs1 & Hfresh).
  set (s1 := discard_previous s signer (h_Creator header)) in *.
  pose proof (fun v => discard_previous_votes s signer (h_Creator header) v Hs) as Hprev. fold s1 in Hprev.
  set (vote := if bool_decide _ then _ else _).
  assert (Hask : forall authorize, vote = Some authorize -> asks_change s header = eqb authorize (vote_auth (s_VerSet s) (h_Creator header))).
  { assert (nonceAuthVote <> nonceDropVote) by done. intros authorize. unfold vote, asks_change, vote_auth. destruct (bool_decide (is_verifier _ _)); cbn [negb];
      repeat case_bool_decide; try congruence; by intros [= <-]. }
  destruct vote as [authorize|]; [|done]. specialize (Hask _ eq_refl).
  pose proof (cast_same s1 (h_Creator header) authorize) as (Hvs2 & Hv2 & _).
  set (v := mkVote signer (h_Height header) (h_Creator header) authorize).
  pose proof (cast_ok s1 (h_Creator header) authorize v (so_tally _ Hs1) eq_refl) as Hcast.
  destruct (cast s1 (h_Creator header) authorize) as [s2 []] eqn:Hc; cbn in Hvs2, Hv2, Hcast;
    intros [= <-]; (eexists; split; [|split; [|split; [reflexivity|]]]).
  - destruct (Hcast eq_refl) as [Hb Ht].
    destruct Hs1 as [? ? Ha Hv Ho]. constructor; cbn; rewrite ?Hvs2, ?Hv2; try done.
    + intros x [Hx| ->%list_elem_of_singleton]%elem_of_app; [auto|done].
    + intros x [Hx| ->%list_elem_of_singleton]%elem_of_app; [auto|]. by rewrite Hvs1.
    + rewrite map_app, NoDup_app. split; [done|]. split; [|apply NoDup_singleton].
      intros k Hk ->%list_elem_of_singleton. done.
  - cbn. congruence.
  - destruct (Hcast eq_refl) as [Hb _]. intros w. cbn. rewrite Hv2. unfold supports. case_decide as Hw.
    + subst w. rewrite Hask, Hb, Hvs1, eqb_reflx. split; [|done]. intros _. exists v. split; [apply elem_of_app; by right; left|done].
    + rewrite bool_decide_eq_true, Exists_exists. split.
      * intros (x & Hx & E1 & E2). exists x. split; [|done]. apply elem_of_app. left. apply Hprev. split; [done|]. unfold vote_key. congruence.
      * intros (x & [Hx| ->%list_elem_of_singleton]%elem_of_app & E1 & E2); [|done]. exists x. by apply Hprev in Hx as [? _].
  - unfold cast in Hc. destruct (negb _); [by simplify_eq|]. by destruct (s_Tally s1 !! _).
  - congruence.
  - intros w. rewrite Hv2. unfold supports. case_decide as Hw.
    + subst w. rewrite Hask. assert (Hn : eqb authorize (vote_auth (s_VerSet s) (h_Creator header)) = false).
      { apply not_true_iff_false. intros E%eqb_prop. rewrite <-Hvs1 in E. apply checkVote_spec in E. unfold cast in Hc. rewrite E in Hc.
        cbn in Hc. by destruct (s_Tally s1 !! _). }
      rewrite Hn. split; [done|]. intros (x & Hx & E1 & E2). apply Hprev in Hx as [_ Hx]. destruct Hx. unfold vote_key. congruence.
    + rewrite bool_decide_eq_true, Exists_exists. split.
      * intros (x & Hx & E1 & E2). exists x. split; [|done]. apply Hprev. split; [done|]. unfold vote_key. congruence.
      * intros (x & Hx & E1 & E2). exists x. by apply Hprev in Hx as [? _].
Qed.

Lemma apply_vote_ok s signer header s' :
  snap_ok s -> is_verifier (s_VerSet s) signer -> wf_address (h_Creator header) ->
  apply_vote s signer header = inl s' -> snap_ok s'.
Proof.
  intros Hs Hsig Hcr Hap. destruct (apply_vote_passed _ _ _ _ Hs Hsig Hap) as (s3 & ? & _ & -> & _).
  by apply apply_passed_ok.
Qed.

(** ** The cache of the signers is transparent *)

Section snapshot_laws.
Context `{HeaderCodecLaws, ArcCacheLaws}.

Definition cache_ok (st : SrvState) : Prop :=
  forall h a, cachedAddrs st !! header_Hash h = Some a -> recover_creator h = inl a.

Lemma extractAccount_spec h st :
  cache_ok st ->
  wp (extractAccount h) st (fun r st' _ => r = recover_creator h /\ cache_ok st'
    /\ recents st' = recents st /\ srv_db st' = srv_db st).
Proof.
  intros Hok. unfold extractAccount. wp_seq.
  destruct (cachedAddrs st !! header_Hash h) as [a|] eqn:Hl.
  { wp_seq. by rewrite (Hok h a Hl). }
  destruct (recover_creator h) as [a|err] eqn:Hr; wp_seq; [|done].
  split; [done|]. split; [|done]. intros h' a' [[Heq ->]|?]%arc_Add_lookup; [|by apply Hok].
  by rewrite (header_Hash_creator h' h Heq).
Qed.

(** The headers applied one by one, the signer of each being computed. *)
Fixpoint apply_all (epoch : Z) (headers : list BlockHeader) (snap : Snapshot) : Snapshot + SrvError :=
  match headers with
  | [] => inl snap
  | header :: headers' =>
      let snap1 := if h_Height header mod epoch =? 0 then set_Tally (set_Votes snap []) ∅ else snap in
      match recover_creator header with
      | inr err => inr err
      | inl signer =>
          if bool_decide (is_verifier (s_VerSet snap1) signer) then
            match apply_vote snap1 signer header with
            | inr err => inr err
            | inl snap2 => apply_all epoch headers' snap2
            end
          else inr errUnauthorized
      end
  end.

Lemma apply_each_spec epoch headers snap st :
  epoch <> 0 -> cache_ok st ->
  wp (apply_each epoch headers snap) st (fun r st' _ => r = apply_all epoch headers snap
    /\ cache_ok st' /\ recents st' = recents st /\ srv_db st' = srv_db st).
Proof.
  intros He. revert snap st; induction headers as [|h headers IH]; intros snap st Hok;
    cbn [apply_each apply_all]; [by wp_seq|].
  destruct (Z.eqb_spec epoch 0); [done|]. wp_seq. unfold try_bind. wp_seq.
  set (snap1 := if _ =? 0 then _ else _).
  eapply wp_mono; [by apply extractAccount_spec|]. intros r st1 o (-> & Hok1 & Hr & Hd).
  destruct (recover_creator h) as [signer|err]; [|by wp_seq].
  destruct (GetVerByAddress (s_VerSet snap1) signer).2 as [v|] eqn:Hg.
  - apply GetVerByAddress_Some in Hg as [_ Hv]. rewrite bool_decide_true by done.
    destruct (apply_vote snap1 signer h) as [snap2|err]; [|by wp_seq].
    eapply wp_mono; [by apply IH|]. intros r st2 o2 (-> & ? & ? & ?). naive_solver congruence.
  - apply GetVerByAddress_None in Hg. rewrite bool_decide_false by done. by wp_seq.
Qed.

Lemma snap_reset_ok s : snap_ok s -> snap_ok (set_Tally (set_Votes s []) ∅).
Proof.
  intros Hs. constructor; cbn; [apply Hs| |by intros v Hv%not_elem_of_nil..|constructor].
  intros a. by rewrite lookup_empty.
Qed.

Lemma apply_all_ok epoch headers snap snap' :
  snap_ok snap -> Forall (fun h => wf_address (h_Creator h)) headers ->
  apply_all epoch headers snap = inl snap' ->
  snap_ok snap' .
Proof.
  intros Hs Hh; revert snap Hs; induction Hh as [|h headers Hcr Hh IH]; intros snap Hs;
    cbn [apply_all]; [by intros [= <-]|].
  set (snap1 := if _ =? 0 then _ else _).
  assert (Hs1 : snap_ok snap1) by (unfold snap1; destruct (_ =? 0); [by apply snap_reset_ok|done]).
  destruct (recover_creator h) as [signer|]; [|done]. case_bool_decide as Hv; [|done].
  destruct (apply_vote snap1 signer h) as [snap2|] eqn:Hap; [|done].
  apply IH. by eapply apply_vote_ok.
Qed.

Lemma uncast_frame s a b :
  s_Epoch (uncast s a b).1 = s_Epoch s /\ s_Height (uncast s a b).1 = s_Height s.
Proof. apply uncast_same. Qed.

Lemma discard_cast_by_frame creator l : forall s,
  s_Epoch (discard_cast_by creator l s).1 = s_Epoch s
  /\ s_Height (discard_cast_by creator l s).1 = s_Height s.
Proof.
  induction l as [|v l IH]; intros s; cbn [discard_cast_by]; [done|].
  case_bool_decide.
  - destruct (IH (uncast s (vote_Address v) (vote_Authorize v)).1) as [-> ->]. apply uncast_frame.
  - specialize (IH s). by destruct (discard_cast_by creator l s).
Qed.

Lemma apply_passed_frame s creator :
  s_Epoch (apply_passed s creator) = s_Epoch s /\ s_Height (apply_passed s creator) = s_Height s.
Proof.
  unfold apply_passed. destruct (_ <? _); [|done]. destruct (t_Authorize _); [done|].
  set (s1 := set_VerSet s _).
  pose proof (discard_cast_by_frame creator (s_Votes s1) s1) as Hf.
  by destruct (discard_cast_by creator (s_Votes s1) s1) as [s2 kept].
Qed.

Lemma apply_vote_frame s signer header s' :
  apply_vote s signer header = inl s' -> s_Epoch s' = s_Epoch s /\ s_Height s' = s_Height s.
Proof.
  unfold apply_vote. set (s1 := discard_previous s signer (h_Creator header)).
  assert (Hf1 : s_Epoch s1 = s_Epoch s /\ s_Height s1 = s_Height s).
  { unfold s1, discard_previous. destruct (find_vote _ _ _) as [[v rest]|]; [|done].
    apply (uncast_frame s). }
  set (vote := if bool_decide _ then _ else _). destruct vote as [authorize|]; [|done].
  pose proof (cast_same s1 (h_Creator header) authorize) as (_ & _ & ? & ?).
  destruct (cast s1 (h_Creator header) authorize) as [s2 []]; cbn in *; intros [= <-];
    rewrite (proj1 (apply_passed_frame _ _)), (proj2 (apply_passed_frame _ _)); cbn;
    destruct Hf1; split; congruence.
Qed.

Lemma apply_all_frame epoch headers snap snap' :
  apply_all epoch headers snap = inl snap' ->
  s_Epoch snap' = s_Epoch snap /\ s_Height snap' = s_Height snap.
Proof.
  revert snap; induction headers as [|h headers IH]; intros snap; cbn [apply_all];
    [by intros [= <-]|].
  set (snap1 := if _ =? 0 then _ else _).
  assert (Hf : s_Epoch snap1 = s_Epoch snap /\ s_Height snap1 = s_Height snap)
    by (unfold snap1; by destruct (_ =? 0)).
  destruct (recover_creator h) as [signer|]; [|done]. case_bool_decide as Hv; [|done].
  destruct (apply_vote snap1 signer h) as [snap2|] eqn:Hap; [|done].
  apply apply_vote_frame in Hap as [? ?]. intros [? ?]%IH. destruct Hf. split; congruence.
Qed.

Lemma snap_copy_ok s : snap_ok s -> snap_ok (snap_copy s).
Proof.
  intros [Hwf Ht Ha Hv Ho]. pose proof (Copy_bs_verifiers _ Hwf) as Hc.
  assert (Hiff : forall a, is_verifier (Copy (s_VerSet s)) a <-> is_verifier (s_VerSet s) a)
    by (intros a; unfold is_verifier; by rewrite Hc).
  assert (Hauth : forall a, vote_auth (Copy (s_VerSet s)) a = vote_auth (s_VerSet s) a)
    by (intros a; unfold vote_auth; f_equal; by apply bool_decide_ext).
  constructor; cbn.
  - by apply Copy_wf.
  - eapply tally_ok_auth; [|exact Ht]. auto.
  - intros v Hin. rewrite Hauth. auto.
  - intros v Hin. apply Hiff. auto.
  - done.
Qed.
End snapshot_laws.

(** ** The ordered list of the verifiers *)

Lemma exchange_pass_spec x l :
  let '(m, r) := exchange_pass x l in
  m :: r ≡ₚ x :: l /\ bytes_le m x /\ forall y, y ∈ r -> bytes_le m y.
Proof.
  revert x; induction l as [|y l IH]; intros x; cbn [exchange_pass].
  { split; [done|]. split; [reflexivity|]. intros y Hy. by apply not_elem_of_nil in Hy. }
  destruct (Z.ltb_spec 0 (bytes_cmp x y)) as [Hlt|Hle].
  - specialize (IH y). destruct (exchange_pass y l) as [m r]. destruct IH as (Hp & Hm & Hr).
    assert (Hyx : bytes_le y x) by (unfold bytes_le; rewrite bytes_cmp_antisym; lia).
    assert (Hmx : bytes_le m x) by (by transitivity y).
    split; [|split; [done|]].
    + rewrite <- Hp. apply Permutation_swap.
    + intros z [->|Hz]%elem_of_cons; auto.
  - specialize (IH x). destruct (exchange_pass x l) as [m r]. destruct IH as (Hp & Hm & Hr).
    split; [|split; [done|]].
    + etransitivity; [apply Permutation_swap|]. rewrite Hp. apply Permutation_swap.
    + intros z [->|Hz]%elem_of_cons; [by transitivity x|auto].
Qed.

Lemma exchange_sort_spec l :
  exchange_sort (length l) l ≡ₚ l /\ StronglySorted bytes_le (exchange_sort (length l) l).
Proof.
  assert (Hgen : forall n l, length l = n ->
    exchange_sort n l ≡ₚ l /\ StronglySorted bytes_le (exchange_sort n l)).
  { clear l. induction n as [|n IH]; intros [|x l] Hl; try done; cbn [exchange_sort].
    - split; [done|constructor].
    - pose proof (exchange_pass_spec x l) as Hpass.
      destruct (exchange_pass x l) as [m r]. destruct Hpass as (Hp & _ & Hr).
      destruct (IH r) as [Hpr Hs].
      { pose proof (Permutation_length Hp) as Hpl. cbn in Hpl, Hl. lia. }
      split; [by rewrite Hpr|]. constructor; [done|]. apply Forall_forall. intros y Hy.
      apply Hr. by rewrite <- Hpr. }
  by apply Hgen.
Qed.

(** On the addresses of a well-formed set the loops change nothing. *)
Lemma snap_verifiers_eq s : verSet_wf (s_VerSet s) -> snap_verifiers s = bs_verifiers (s_VerSet s).
Proof.
  intros Hwf. unfold snap_verifiers.
  destruct (exchange_sort_spec (bs_verifiers (s_VerSet s))) as [Hp Hs].
  apply (StronglySorted_unique_strong bytes_le).
  - intros a b _ _ Hab Hba. by apply (anti_symm bytes_le).
  - done.
  - pose proof (vs_sorted _ Hwf) as Hsrt. pose proof (vs_addrs _ Hwf) as Haddr.
    clear Hp Hs Hwf. induction Hsrt as [|x l Hsrt IH Hall]; [constructor|].
    apply Forall_cons in Haddr as [Hx Hl]. constructor; [auto|].
    rewrite Forall_forall in *. intros y Hy. specialize (Hall y Hy).
    unfold verifier_le, bytes_le in *. by rewrite Address_String_cmp in Hall by auto.
  - done.
Qed.

(** ** An example: three verifiers voting on a fourth *)

Definition example_arc : ArcCache := {| arc_Add A m k v := <[k := v]> m |}.

#[export] Instance example_arc_laws : @ArcCacheLaws example_arc.
Proof.
  constructor; intros A m k v; [|apply lookup_insert_eq]. intros k' v' Hl. cbn in Hl.
  apply lookup_insert_Some in Hl as [[-> ->]|[_ ?]]; auto.
Qed.

Definition example_addr (n : Z) : Address := replicate 20 n.

Definition example_snapshot : Snapshot :=
  newSnapshot 1024 7 [42] (newBasicSet [example_addr 1; example_addr 2; example_addr 3] RoundRobin).

(** A header of height [n] sealed by [signer], voting on [account]. *)
Definition example_vote (n : Z) (signer account : Address) (witness : bytes) : BlockHeader :=
  mkHeader [1] account [3] [4] [5] [6] [7] (Some 1) n (Some 100) witness [] BftConsensus
    (replicate 32 0 ++ default [] (@encode_extra example_header_codec (mkBftExtra [] signer []))).

Definition example_headers : list BlockHeader :=
  [example_vote 8 (example_addr 1) (example_addr 9) nonceAuthVote;
   example_vote 9 (example_addr 2) (example_addr 9) nonceAuthVote].

Definition example_state : SrvState := mkSrvState ∅ ∅ ∅.

Lemma example_addr_wf n : is_byte n -> wf_address (example_addr n).
Proof.
  intros Hn. split; [apply length_replicate|]. apply Forall_forall.
  intros x Hx. apply elem_of_replicate in Hx as [-> _]. done.
Qed.

Lemma newSnapshot_ok epoch number hash vs : verSet_wf vs -> snap_ok (newSnapshot epoch number hash vs).
Proof.
  intros Hwf. constructor; cbn; [done| |by intros v Hv%not_elem_of_nil..|constructor].
  intros a. by rewrite lookup_empty.
Qed.

Lemma example_snapshot_ok : snap_ok example_snapshot.
Proof.
  apply newSnapshot_ok, newBasicSet_ok.
  - apply (bool_decide_unpack _). vm_compute. exact I.
  - do 3 (apply Forall_cons; split; [apply example_addr_wf; unfold is_byte; lia|]). constructor.
Qed.

Lemma example_state_ok : @cache_ok example_header_codec example_state.
Proof. intros h a Hl. cbn in Hl. by rewrite lookup_empty in Hl. Qed.

(** ** Properties *)

(** C37: Applying headers to a snapshot does not panic and keeps its invariant:
    the tally of every account counts the listed votes on it, every vote
    asks for the change that is still possible, voters are current verifiers
    with at most one vote per account, and the verifier set stays sorted
    without duplicates. The height advances by the number of headers. *)
Theorem applyHeaders_keeps_votes `{HeaderCodecLaws, ArcCacheLaws}
    (s : Snapshot) (headers : list BlockHeader) (st : SrvState) :
  snap_ok s -> is_u64 (s_Height s) -> s_Epoch s <> 0 -> cache_ok st ->
  Forall (fun h => wf_address (h_Creator h)) headers ->
  exists r st', applyHeaders s headers st = Some (r, st', []) /\ cache_ok st'
    /\ match r with
       | inl s' => snap_ok s' /\ s_Epoch s' = s_Epoch s
           /\ s_Height s' = u64 (s_Height s + Z.of_nat (length headers))
       | inr _ => headers <> []
       end.
Proof.
  intros Hs Hh He Hok Hcr.
  assert (Hwp : wp (applyHeaders s headers) st (fun r st' _ => cache_ok st' /\
    match r with
    | inl s' => snap_ok s' /\ s_Epoch s' = s_Epoch s
        /\ s_Height s' = u64 (s_Height s + Z.of_nat (length headers))
    | inr _ => headers <> []
    end)); [|apply wp_no_output in Hwp; exact Hwp].
  unfold applyHeaders. destruct headers as [|h0 headers].
  { wp_seq. split; [done|]. split; [done|]. split; [done|]. cbn. by rewrite Z.add_0_r, u64_small. }
  destruct (negb _); [by wp_seq|]. destruct (negb _); [by wp_seq|].
  unfold try_bind. wp_seq. eapply wp_mono; [by apply apply_each_spec|].
  intros r st1 o (-> & Hok1 & _). destruct (apply_all _ _ _) as [snap'|err] eqn:Hap; [|by wp_seq].
  wp_seq. split; [done|].
  destruct (apply_all_frame _ _ _ _ Hap) as [-> ->]. split; [|done].
  apply apply_all_ok in Hap; [|by apply snap_copy_ok|done].
  destruct Hap. by constructor.
Qed.

Lemma applyHeaders_keeps_votes_witness :
  exists r st', @applyHeaders example_header_codec example_arc example_snapshot example_headers
      example_state = Some (inl r, st', [])
    /\ snap_ok r /\ s_Height r = 9 /\ is_verifier (s_VerSet r) (example_addr 9).
Proof.
  destruct (@applyHeaders_keeps_votes example_header_codec example_header_codec_laws example_arc
    example_arc_laws example_snapshot example_headers example_state) as (r & st' & Hrun & _ & Hr).
  - apply example_snapshot_ok.
  - unfold is_u64. cbn. lia.
  - cbn. lia.
  - apply example_state_ok.
  - apply Forall_cons; split; [apply example_addr_wf; unfold is_byte; lia|].
    apply Forall_cons; split; [apply example_addr_wf; unfold is_byte; lia|constructor].
  - assert (Hc : match @applyHeaders example_header_codec example_arc example_snapshot example_headers
                         example_state with
                 | Some (inl r, _, _) => bool_decide (is_verifier (s_VerSet r) (example_addr 9))
                 | _ => false
                 end = true) by (vm_compute; reflexivity).
    rewrite Hrun in Hc. destruct r as [s'|err]; [|discriminate].
    exists s', st'. split; [exact Hrun|]. split; [apply Hr|]. split; [apply Hr|].
    by apply bool_decide_eq_true in Hc.
Defined.

(** C38: The vote of a header changes the verifier set exactly when a majority
    asks for it: after the vote an account is a verifier when it was one
    before, except for the account that the header votes on, which is added
    or removed when more than half of the current verifiers support the
    change: the signer with the vote of this header, any other verifier with
    a vote on the account that the snapshot lists. The snapshot is well
    formed and the signer is a verifier. *)
Theorem membership_needs_majority (s s' : Snapshot) (signer a : Address) (header : BlockHeader) :
  snap_ok s -> is_verifier (s_VerSet s) signer -> apply_vote s signer header = inl s' ->
  is_verifier (s_VerSet s') a <->
    (if decide (a = h_Creator header /\ majority s signer header = true)
     then ~ is_verifier (s_VerSet s) a else is_verifier (s_VerSet s) a).
Proof.
  intros Hs Hsig Hap. destruct (apply_vote_passed _ _ _ _ Hs Hsig Hap) as (s3 & Hs3 & Hvs & -> & Hsup).
  rewrite apply_passed_members by done. rewrite (votes_on_count s3 (h_Creator header) (supports s signer header) Hs3 Hsup), Hvs.
  unfold majority. destruct (Z.ltb_spec (Size (s_VerSet s)) (2 * Z.of_nat (length (filter (fun w => supports s signer header w = true)
    (bs_verifiers (s_VerSet s)))))); do 2 case_decide; try done; exfalso; intuition (done || lia).
Qed.

(** The second of three verifiers adds the account. *)
Lemma membership_needs_majority_witness :
  exists s1 s2,
    apply_vote example_snapshot (example_addr 1)
      (example_vote 8 (example_addr 1) (example_addr 9) nonceAuthVote) = inl s1
    /\ apply_vote s1 (example_addr 2)
         (example_vote 9 (example_addr 2) (example_addr 9) nonceAuthVote) = inl s2
    /\ ~ is_verifier (s_VerSet s1) (example_addr 9) /\ is_verifier (s_VerSet s2) (example_addr 9).
Proof.
  set (h1 := example_vote 8 (example_addr 1) (example_addr 9) nonceAuthVote).
  set (h2 := example_vote 9 (example_addr 2) (example_addr 9) nonceAuthVote).
  assert (Hc : match apply_vote example_snapshot (example_addr 1) h1 with
    | inl s1 =>
        match apply_vote s1 (example_addr 2) h2 with
        | inl s2 => bool_decide (is_verifier (s_VerSet example_snapshot) (example_addr 1)
            /\ is_verifier (s_VerSet s1) (example_addr 2)
            /\ ~ is_verifier (s_VerSet s1) (example_addr 9)) && majority s1 (example_addr 2) h2
        | inr _ => false
        end
    | inr _ => false
    end = true) by (vm_compute; reflexivity).
  destruct (apply_vote example_snapshot (example_addr 1) h1) as [s1|] eqn:H1; [|discriminate].
  destruct (apply_vote s1 (example_addr 2) h2) as [s2|] eqn:H2; [|discriminate].
  apply andb_true_iff in Hc as [(Hv1 & Hv2 & Hn)%bool_decide_eq_true Hm].
  assert (Hs1 : snap_ok s1).
  { eapply apply_vote_ok; [apply example_snapshot_ok|exact Hv1| |exact H1].
    apply example_addr_wf. unfold is_byte. lia. }
  exists s1, s2. split; [reflexivity|]. split; [exact H2|]. split; [exact Hn|].
  apply (membership_needs_majority s1 s2 (example_addr 2) (example_addr 9) h2 Hs1 Hv2 H2).
  rewrite decide_True; [exact Hn|]. split; [reflexivity|exact Hm].
Defined.

(** Storing a snapshot and reading it back gives a copy of it, with the
    same verifiers in the same order: the exchange sort of the JSON form
    changes nothing on a well-formed set. *)
Theorem snapshot_json_roundtrip (s : Snapshot) :
  snap_ok s -> fromJSONStruct (toJSONStruct s) = snap_copy s /\ snap_ok (snap_copy s)
  /\ bs_verifiers (s_VerSet (snap_copy s)) = bs_verifiers (s_VerSet s).
Proof.
  intros Hs. split; [|split; [by apply snap_copy_ok|by apply Copy_bs_verifiers, Hs]].
  unfold fromJSONStruct, toJSONStruct, snap_copy, Copy. cbn.
  by rewrite snap_verifiers_eq by apply Hs.
Qed.

Lemma snapshot_json_roundtrip_witness :
  fromJSONStruct (toJSONStruct example_snapshot) = snap_copy example_snapshot.
Proof. apply (snapshot_json_roundtrip example_snapshot). apply example_snapshot_ok. Defined.
