(* ===== verification/BftTypes.v ===== *)
(** * Data of the BFT consensus core

    Models [consensus/bft/types.go] (views, subjects, proposals) and, of
    [consensus/bft/core], [types.go] (messages, states), [errors.go],
    [messageset.go], the [roundState] of [state.go], the [roundChangeSet] of
    [round.go] and the priorities of [backlog.go] and [request.go]. *)

From Stdlib Require Import ZArith Lia.
From S2P Require Import Prelude Common Verifier.

Open Scope Z_scope.

(** ** [consensus/bft/types.go] *)

(** The [big.Int]s of a view are integers; [Uint64()] takes them modulo 2^64. *)
Record View := mkView { v_Round : Z; v_Sequence : Z }.

#[export] Instance View_eq_dec : EqDecision View.
Proof. solve_decision. Defined.

(** [big.Int.Cmp] *)
Definition big_Cmp (x y : Z) : Z := if x <? y then -1 else if y <? x then 1 else 0.

Definition View_Cmp (v y : View) : Z :=
  if negb (big_Cmp (v_Sequence v) (v_Sequence y) =? 0) then big_Cmp (v_Sequence v) (v_Sequence y)
  else if negb (big_Cmp (v_Round v) (v_Round y) =? 0) then big_Cmp (v_Round v) (v_Round y)
  else 0.

(** The interface [Proposal]: what the core uses of a block. *)
Record Proposal := mkProposal { p_Height : Z; p_Hash : Hash }.

#[export] Instance Proposal_eq_dec : EqDecision Proposal.
Proof. solve_decision. Defined.

(** A nil proposal in a request is [None]. *)
Record Request := mkRequest { req_Proposal : option Proposal }.

Record Preprepare := mkPreprepare { pp_View : View; pp_Proposal : Proposal }.

Record Subject := mkSubject { sub_View : View; sub_Digest : Hash }.

#[export] Instance Subject_eq_dec : EqDecision Subject.
Proof. solve_decision. Defined.

(** ** [core/types.go] *)

Definition msgPreprepare : Z := 0.
Definition msgPrepare : Z := 1.
Definition msgCommit : Z := 2.
Definition msgRoundChange : Z := 3.

Record message := mkMessage {
  m_Code : Z;
  m_Msg : bytes;
  m_Address : Address;
  m_Signature : bytes;
  m_CommittedSeal : bytes
}.

Inductive State : Type :=
| StateAcceptRequest | StatePreprepared | StatePrepared | StateCommitted.

#[export] Instance State_eq_dec : EqDecision State.
Proof. solve_decision. Defined.

Definition state_num (s : State) : Z :=
  match s with
  | StateAcceptRequest => 0
  | StatePreprepared => 1
  | StatePrepared => 2
  | StateCommitted => 3
  end.

Definition State_Cmp (s y : State) : Z :=
  if state_num s <? state_num y then -1
  else if state_num y <? state_num s then 1
  else 0.

(** ** Errors: [core/errors.go], [bft/errors.go], and those of the codec, the
    signature recovery and the block verification *)

Inductive BftError : Type :=
| errInconsistentSubjects
| errNotProposer
| errMsgIgnored
| errMsgFromFuture
| errOldMsg
| errInvalidMsg
| errDecodePreprepare
| errDecodePrepare
| errDecodeCommit
| ErrAddressUnauthorized
| bftErrAddressUnauthorized
| errRlp
| errSignature
| ErrBlockCreateTimeOld
| errVerifyOther (code : Z)
| errCommitOther (code : Z).

#[export] Instance BftError_eq_dec : EqDecision BftError.
Proof. solve_decision. Defined.

(** ** [core/messageset.go]

    A Go map from addresses to messages; the order in which [Values] lists it
    is not specified by Go, and is the one of [map_to_list] here. *)

Record messageSet := mkMessageSet {
  ms_verSet : basicSet;
  ms_messages : gmap Address message
}.

Definition newMessageSet (verSet : basicSet) : messageSet := mkMessageSet verSet ∅.

Definition messageSet_Size (ms : messageSet) : Z := Z.of_nat (size (ms_messages ms)).

Definition messageSet_verify (ms : messageSet) (msg : message) : option BftError :=
  match (GetVerByAddress (ms_verSet ms) (m_Address msg)).2 with
  | None => Some bftErrAddressUnauthorized
  | Some _ => None
  end.

Definition addVerifiedMessage (ms : messageSet) (msg : message) : messageSet :=
  mkMessageSet (ms_verSet ms) (<[m_Address msg := msg]> (ms_messages ms)).

Definition messageSet_Add (ms : messageSet) (msg : message) : messageSet * option BftError :=
  match messageSet_verify ms msg with
  | Some err => (ms, Some err)
  | None => (addVerifiedMessage ms msg, None)
  end.

Definition messageSet_Values (ms : messageSet) : list message :=
  map snd (map_to_list (ms_messages ms)).

Definition messageSet_Get (ms : messageSet) (address : Address) : option message :=
  ms_messages ms !! address.

(** ** [core/state.go]: the state of a round *)

Record roundState := mkRoundState {
  rs_round : Z;
  rs_sequence : Z;
  rs_Preprepare : option Preprepare;
  rs_Prepares : messageSet;
  rs_Commits : messageSet;
  rs_lockedHash : Hash;
  rs_pendingRequest : option Request
}.

Definition newRoundState (view : View) (verifierSet : basicSet) (lockedHash : Hash)
    (preprepare : option Preprepare) (pendingRequest : option Request) : roundState :=
  mkRoundState (v_Round view) (v_Sequence view) preprepare
    (newMessageSet verifierSet) (newMessageSet verifierSet) lockedHash pendingRequest.

Definition rs_set_lockedHash (s : roundState) (h : Hash) : roundState :=
  mkRoundState (rs_round s) (rs_sequence s) (rs_Preprepare s) (rs_Prepares s) (rs_Commits s)
    h (rs_pendingRequest s).

Definition LockHash (s : roundState) : roundState :=
  match rs_Preprepare s with
  | Some pp => rs_set_lockedHash s (p_Hash (pp_Proposal pp))
  | None => s
  end.

Definition UnlockHash (s : roundState) : roundState := rs_set_lockedHash s EmptyHash.

(** [hasBadProposal] is the server's method, asked at the time of the call. *)
Definition IsHashLocked (hasBadProposal : Hash -> bool) (s : roundState) : bool :=
  if bool_decide (EmptyHash = rs_lockedHash s) then false
  else negb (hasBadProposal (rs_lockedHash s)).

Definition GetLockedHash (s : roundState) : Hash := rs_lockedHash s.

Definition roundState_Subject (s : roundState) : option Subject :=
  match rs_Preprepare s with
  | None => None
  | Some pp => Some (mkSubject (mkView (rs_round s) (rs_sequence s)) (p_Hash (pp_Proposal pp)))
  end.

Definition roundState_Proposal (s : roundState) : option Proposal :=
  match rs_Preprepare s with
  | Some pp => Some (pp_Proposal pp)
  | None => None
  end.

Definition GetPrepareOrCommitSize (s : roundState) : Z :=
  let result := messageSet_Size (rs_Prepares s) + messageSet_Size (rs_Commits s) in
  fold_left (fun r m => if messageSet_Get (rs_Commits s) (m_Address m) is Some _ then r - 1 else r)
    (messageSet_Values (rs_Prepares s)) result.

Definition SetPreprepare (s : roundState) (preprepare : Preprepare) : roundState :=
  mkRoundState (rs_round s) (rs_sequence s) (Some preprepare) (rs_Prepares s) (rs_Commits s)
    (rs_lockedHash s) (rs_pendingRequest s).

Definition rs_set_Prepares (s : roundState) (ms : messageSet) : roundState :=
  mkRoundState (rs_round s) (rs_sequence s) (rs_Preprepare s) ms (rs_Commits s)
    (rs_lockedHash s) (rs_pendingRequest s).

Definition rs_set_Commits (s : roundState) (ms : messageSet) : roundState :=
  mkRoundState (rs_round s) (rs_sequence s) (rs_Preprepare s) (rs_Prepares s) ms
    (rs_lockedHash s) (rs_pendingRequest s).

Definition rs_set_pendingRequest (s : roundState) (r : option Request) : roundState :=
  mkRoundState (rs_round s) (rs_sequence s) (rs_Preprepare s) (rs_Prepares s) (rs_Commits s)
    (rs_lockedHash s) r.

(** ** [core/round.go]: the round change messages, by round *)

Record roundChangeSet := mkRoundChangeSet {
  rcs_verifierSet : basicSet;
  rcs_roundChanges : gmap Z messageSet
}.

Definition newRoundChangeSet (verSet : basicSet) : roundChangeSet := mkRoundChangeSet verSet ∅.

(** [big.NewInt(int64(k))] of the [uint64] key. *)
Definition roundChangeSet_MaxRound (rcs : roundChangeSet) (num : Z) : option Z :=
  fold_left (fun maxRound (kv : Z * messageSet) =>
      if messageSet_Size kv.2 <? num then maxRound
      else
        let r := i64 kv.1 in
        match maxRound with
        | None => Some r
        | Some m => if big_Cmp m r <? 0 then Some r else maxRound
        end)
    (map_to_list (rcs_roundChanges rcs)) None.

(** The set of the round is created even when the message is then refused. *)
Definition roundChangeSet_Add (rcs : roundChangeSet) (r : Z) (msg : message)
    : roundChangeSet * (Z * option BftError) :=
  let round := u64 r in
  let ms := match rcs_roundChanges rcs !! round with
            | Some ms => ms
            | None => newMessageSet (rcs_verifierSet rcs)
            end in
  let '(ms', err) := messageSet_Add ms msg in
  let rcs' := mkRoundChangeSet (rcs_verifierSet rcs) (<[round := ms']> (rcs_roundChanges rcs)) in
  match err with
  | Some e => (rcs', (0, Some e))
  | None => (rcs', (messageSet_Size ms', None))
  end.

Definition roundChangeSet_Clear (rcs : roundChangeSet) (round : Z) : roundChangeSet :=
  mkRoundChangeSet (rcs_verifierSet rcs)
    (filter (fun kv : Z * messageSet =>
       ~ (size (ms_messages kv.2) = 0%nat \/ kv.1 < u64 round)) (rcs_roundChanges rcs)).

(** ** Priorities

    [float32(n)] of a [uint64]: the nearest value with a 24-bit significand,
    ties to even. *)
Definition float32_of_u64 (n : Z) : Z :=
  if n <? 2 ^ 24 then n
  else
    let e := Z.log2 n - 23 in
    let q := n / 2 ^ e in
    let r := n mod 2 ^ e in
    let half := 2 ^ (e - 1) in
    let q' := if r <? half then q
              else if half <? r then q + 1
              else if Z.even q then q else q + 1 in
    q' * 2 ^ e.

(** The map [msgPriority]; a missing key reads as 0. *)
Definition msgPriority (msgCode : Z) : Z :=
  if msgCode =? msgPreprepare then 1
  else if msgCode =? msgCommit then 2
  else if msgCode =? msgPrepare then 3
  else 0.

Definition toPriority (msgCode : Z) (view : View) : Z :=
  if msgCode =? msgRoundChange then - float32_of_u64 (u64 (u64 (v_Sequence view) * 1000))
  else - float32_of_u64 (u64 (u64 (v_Sequence view) * 1000 + u64 (v_Round view) * 10
                              + msgPriority msgCode)).

(** [float32(-request.Proposal.Height())]: the negation is of a [uint64]. *)
Definition request_priority (height : Z) : Z := float32_of_u64 (u64 (- height)).

(** ** Counting and ordering *)

Lemma fold_left_count {A} (f : A -> bool) (l : list A) (n : Z) :
  fold_left (fun r x => if f x then r - 1 else r) l n
  = n - Z.of_nat (length (List.filter f l)).
Proof.
  revert n; induction l as [|x l IH]; intros n; cbn [fold_left List.filter]; [cbn; lia|].
  rewrite IH. destruct (f x); cbn [length]; lia.
Qed.

(** The messages of a map whose address is in a set, counted by the map. *)
Lemma filter_values_length (m : gmap Address message) (f : Address -> bool) :
  (forall a x, m !! a = Some x -> m_Address x = a) ->
  length (List.filter (fun x => f (m_Address x)) (map snd (map_to_list m)))
  = length (List.filter f (map_to_list m).*1).
Proof.
  intros Hk.
  assert (Hall : forall kv, kv ∈ map_to_list m -> m_Address kv.2 = kv.1).
  { intros [a x] Hin%elem_of_map_to_list. by apply Hk. }
  induction (map_to_list m) as [|kv l IH]; [done|]. cbn. rewrite Hall by left.
  assert (IH' := IH (fun kv' Hin => Hall kv' (list_elem_of_further _ _ _ Hin))).
  destruct (f kv.1); cbn; lia.
Qed.

Lemma filter_decide_length {A} (P : A -> Prop) `{forall x, Decision (P x)} (l : list A) :
  length (List.filter (fun x => bool_decide (P x)) l) = length (filter P l).
Proof.
  induction l as [|x l IH]; [done|]. cbn [List.filter]. rewrite filter_cons.
  destruct (decide (P x)); [rewrite bool_decide_true by done|rewrite bool_decide_false by done];
    cbn; lia.
Qed.

Lemma elements_dom_fst (m : gmap Address message) : elements (dom m) ≡ₚ (map_to_list m).*1.
Proof.
  apply NoDup_Permutation; [apply NoDup_elements|apply NoDup_fst_map_to_list|].
  intros a. rewrite elem_of_elements, elem_of_dom, list_elem_of_fmap. split.
  - intros [x Hx]. exists (a, x). by rewrite elem_of_map_to_list.
  - intros ([a' x] & -> & Hin%elem_of_map_to_list). eauto.
Qed.

(** The optimised count of prepares and commits equals the number of
    distinct addresses that sent a prepare or a commit. *)
Theorem GetPrepareOrCommitSize_union (s : roundState) :
  (forall a m, ms_messages (rs_Prepares s) !! a = Some m -> m_Address m = a) ->
  GetPrepareOrCommitSize s
  = Z.of_nat (size (dom (ms_messages (rs_Prepares s)) ∪ dom (ms_messages (rs_Commits s)))).
Proof.
  intros Hk. unfold GetPrepareOrCommitSize, messageSet_Size, messageSet_Get, messageSet_Values.
  set (P := ms_messages (rs_Prepares s)) in *. set (C := ms_messages (rs_Commits s)).
  set (inC := fun a => bool_decide (a ∈ dom C)).
  assert (Hext : forall l n,
    fold_left (fun r m => if C !! m_Address m is Some _ then r - 1 else r) l n
    = fold_left (fun r m => if inC (m_Address m) then r - 1 else r) l n).
  { induction l as [|m l IH]; intros n; [done|]. cbn. rewrite IH. f_equal. unfold inC.
    destruct (C !! m_Address m) eqn:Hl.
    - rewrite bool_decide_true; [done|]. apply elem_of_dom. eauto.
    - rewrite bool_decide_false; [done|]. by apply not_elem_of_dom. }
  rewrite Hext, (fold_left_count (fun m => inC (m_Address m))), (filter_values_length P inC Hk).
  unfold inC. rewrite filter_decide_length.
  rewrite <- (elements_dom_fst P), <- (size_dom P), <- (size_dom C).
  assert (Hint : filter (fun a => a ∈ dom C) (elements (dom P)) ≡ₚ elements (dom P ∩ dom C)).
  { apply NoDup_Permutation; [apply NoDup_filter, NoDup_elements|apply NoDup_elements|].
    intros a. rewrite list_elem_of_filter, !elem_of_elements. set_solver. }
  rewrite Hint. change (length (elements (dom P ∩ dom C))) with (size (dom P ∩ dom C)).
  pose proof (size_union_alt (dom P) (dom C)) as Hu.
  pose proof (size_difference_alt (dom C) (dom P)) as Hd.
  assert (Hcomm : dom C ∩ dom P = dom P ∩ dom C) by set_solver. rewrite Hcomm in Hd.
  assert (Hsub : (size (dom P ∩ dom C) <= size (dom C))%nat) by (apply subseteq_size; set_solver).
  lia.
Qed.

Lemma GetPrepareOrCommitSize_union_witness :
  let ms := mkMessageSet (mkBasicSet [] 0 None roundRobinSelector)
              {[ [1] := mkMessage 1 [] [1] [] []; [2] := mkMessage 1 [] [2] [] [] ]} in
  GetPrepareOrCommitSize (mkRoundState 0 1 None ms ms EmptyHash None) = 2.
Proof.
  intros ms. rewrite (GetPrepareOrCommitSize_union (mkRoundState 0 1 None ms ms EmptyHash None)).
  - by vm_compute.
  - cbn. intros a m [[<- <-]|[_ Hm]]%lookup_insert_Some; [done|].
    apply lookup_singleton_Some in Hm as [<- <-]. done.
Defined.

(** The larger of an optional candidate and the best one so far. *)
Definition omax (best cand : option Z) : option Z :=
  match cand, best with
  | None, _ => best
  | Some r, None => Some r
  | Some r, Some m => if big_Cmp m r <? 0 then Some r else best
  end.

Lemma omax_Some best r : exists m, omax best (Some r) = Some m /\ r <= m
  /\ (m = r \/ best = Some m) /\ forall b, best = Some b -> b <= m.
Proof.
  unfold omax, big_Cmp. destruct best as [b|]; [|exists r; naive_solver lia].
  destruct (Z.ltb_spec b r), (Z.ltb_spec r b); cbn; eexists; naive_solver lia.
Qed.

Lemma fold_omax_spec {A} (f : A -> option Z) (l : list A) (acc : option Z) :
  match fold_left (fun best x => omax best (f x)) l acc with
  | Some m => (acc = Some m \/ exists x, x ∈ l /\ f x = Some m)
      /\ (forall a, acc = Some a -> a <= m) /\ forall x r, x ∈ l -> f x = Some r -> r <= m
  | None => acc = None /\ forall x, x ∈ l -> f x = None
  end.
Proof.
  revert acc; induction l as [|x l IH]; intros acc; cbn [fold_left].
  { destruct acc as [a|]; [|by split; [|intros x Hx; apply not_elem_of_nil in Hx]].
    split; [by left|]. split; [intros ? [= ->]; lia|]. intros x r Hx. by apply not_elem_of_nil in Hx. }
  specialize (IH (omax acc (f x))). destruct (f x) as [r|] eqn:Hf.
  - destruct (omax_Some acc r) as (m0 & Hm0 & Hr & Hor & Hacc). rewrite Hm0 in *.
    destruct (fold_left _ l (Some m0)) as [m|]; [|by destruct IH].
    destruct IH as (IH1 & IH2 & IH3). specialize (IH2 _ eq_refl). split; [|split].
    + destruct IH1 as [[= ->]|(y & Hy & Hfy)].
      * destruct Hor as [-> | ->]; [|by left]. right. exists x. split; [left|done].
      * right. exists y. split; [by right|done].
    + intros a Ha. specialize (Hacc a Ha). lia.
    + intros y s [->|Hy]%elem_of_cons Hs; [|by eapply IH3]. simplify_eq. lia.
  - change (omax acc None) with acc in *. destruct (fold_left _ l acc) as [m|].
    + destruct IH as (IH1 & IH2 & IH3). split; [|split; [done|]].
      * destruct IH1 as [?|(y & ? & ?)]; [by left|]. right. exists y. split; [by right|done].
      * intros y s [->|Hy]%elem_of_cons Hs; [congruence|by eapply IH3].
    + destruct IH as [? IH]. split; [done|]. intros y [->|Hy]%elem_of_cons; [done|auto].
Qed.

(** A round with at least [num] round change messages. *)
Definition round_with (rcs : roundChangeSet) (num r : Z) : Prop :=
  exists k ms, rcs_roundChanges rcs !! k = Some ms /\ num <= messageSet_Size ms /\ r = i64 k.

(** The maximal round of a round change set is the greatest round that has
    at least the given number of messages, and nil exactly when no round
    has. *)
Theorem MaxRound_spec (rcs : roundChangeSet) (num : Z) :
  match roundChangeSet_MaxRound rcs num with
  | Some m => round_with rcs num m /\ forall r, round_with rcs num r -> r <= m
  | None => forall r, ~ round_with rcs num r
  end.
Proof.
  set (cand := fun kv : Z * messageSet =>
    if messageSet_Size kv.2 <? num then None else Some (i64 kv.1)).
  assert (Hfold : roundChangeSet_MaxRound rcs num
    = fold_left (fun best kv => omax best (cand kv)) (map_to_list (rcs_roundChanges rcs)) None).
  { unfold roundChangeSet_MaxRound. generalize (@None Z).
    induction (map_to_list (rcs_roundChanges rcs)) as [|kv l IH]; intros acc; [done|].
    cbn [fold_left]. rewrite IH. f_equal. unfold cand. by destruct (_ <? num). }
  assert (Hcand : forall r, round_with rcs num r <->
    exists kv, kv ∈ map_to_list (rcs_roundChanges rcs) /\ cand kv = Some r).
  { intros r. unfold cand. split.
    - intros (k & ms & Hk & Hsz & ->). exists (k, ms). rewrite elem_of_map_to_list.
      split; [done|]. cbn. destruct (Z.ltb_spec (messageSet_Size ms) num); [lia|done].
    - intros ([k ms] & Hin%elem_of_map_to_list & Hc). cbn in Hc.
      destruct (Z.ltb_spec (messageSet_Size ms) num); [done|]. simplify_eq. by exists k, ms. }
  pose proof (fold_omax_spec cand (map_to_list (rcs_roundChanges rcs)) None) as Hspec.
  rewrite Hfold. destruct (fold_left _ _ _) as [m|].
  - destruct Hspec as ([?|Hin] & _ & Hmax); [done|]. split; [by apply Hcand|].
    intros r (kv & ? & ?)%Hcand. by eapply Hmax.
  - intros r (kv & Hin & Hkv)%Hcand. destruct Hspec as [_ Hnone].
    rewrite (Hnone _ Hin) in Hkv. done.
Qed.

(** ** Priorities of stored messages *)

Lemma float32_of_u64_small n : n < 2 ^ 24 -> float32_of_u64 n = n.
Proof. intros Hn. unfold float32_of_u64. destruct (Z.ltb_spec n (2 ^ 24)); [done|lia]. Qed.

(** The order in which the messages of a sender are to be handled: by view, and
    in a view by kind. *)
Definition handled_before (code : Z) (v : View) (code' : Z) (v' : View) : Prop :=
  v_Sequence v < v_Sequence v'
  \/ (v_Sequence v = v_Sequence v'
      /\ (v_Round v < v_Round v'
          \/ (v_Round v = v_Round v' /\ msgPriority code < msgPriority code'))).

Lemma msgPriority_range code : 0 <= msgPriority code <= 3.
Proof. unfold msgPriority. repeat case_match; lia. Qed.

Lemma toPriority_small code v :
  code <> msgRoundChange -> 0 <= v_Sequence v < 16777 -> 0 <= v_Round v < 99 ->
  toPriority code v = - (v_Sequence v * 1000 + v_Round v * 10 + msgPriority code).
Proof.
  intros Hc Hs Hr. pose proof (msgPriority_range code). unfold toPriority.
  destruct (Z.eqb_spec code msgRoundChange); [done|]. u64_norm.
  rewrite float32_of_u64_small; lia.
Qed.

(** For heights below 16777 and rounds below 99 the backlog priority orders
    the messages of a sender by height, round and kind. *)
Theorem toPriority_order (code code' : Z) (v v' : View) :
  code <> msgRoundChange -> code' <> msgRoundChange ->
  0 <= v_Sequence v < 16777 -> 0 <= v_Sequence v' < 16777 ->
  0 <= v_Round v < 99 -> 0 <= v_Round v' < 99 ->
  (toPriority code' v' < toPriority code v <-> handled_before code v code' v').
Proof.
  intros Hc Hc' Hs Hs' Hr Hr'. rewrite !toPriority_small by done.
  pose proof (msgPriority_range code). pose proof (msgPriority_range code').
  unfold handled_before. lia.
Qed.

Lemma toPriority_order_witness :
  toPriority msgPrepare (mkView 0 7) < toPriority msgPreprepare (mkView 0 7)
  <-> handled_before msgPreprepare (mkView 0 7) msgPrepare (mkView 0 7).
Proof. apply (toPriority_order msgPreprepare msgPrepare (mkView 0 7) (mkView 0 7)); first [done|cbn; lia]. Defined.

(** From some height on the significand of a [float32] is too short: the kinds
    of messages of a view, and those of the next rounds, get one priority. *)
Lemma toPriority_collapse :
  toPriority msgPreprepare (mkView 0 1000000) = toPriority msgPrepare (mkView 0 1000000)
  /\ toPriority msgPreprepare (mkView 0 1000000) = toPriority msgCommit (mkView 2 1000000).
Proof. by vm_compute. Qed.

(** The priority of a pending request is the same, 2^64, for all heights
    from 1 to 2^39: the queue does not order requests by height. *)
Theorem request_priority_constant (h : Z) :
  1 <= h <= 2 ^ 39 -> request_priority h = 2 ^ 64.
Proof.
  intros Hh. unfold request_priority.
  assert (Hu : u64 (- h) = 2 ^ 64 - h).
  { unfold u64. rewrite <- (Z.mod_add (- h) 1 (2 ^ 64)) by lia. rewrite Z.mod_small; lia. }
  rewrite Hu. unfold float32_of_u64.
  destruct (Z.ltb_spec (2 ^ 64 - h) (2 ^ 24)); [lia|].
  assert (Hlog : Z.log2 (2 ^ 64 - h) = 63) by (apply Z.log2_unique; lia). rewrite Hlog.
  change (63 - 23) with 40.
  assert (Hq : (2 ^ 64 - h) / 2 ^ 40 = 2 ^ 24 - 1) by zdiv.
  assert (Hr : (2 ^ 64 - h) mod 2 ^ 40 = 2 ^ 40 - h) by zdiv.
  rewrite Hq, Hr. change (40 - 1) with 39.
  destruct (Z.ltb_spec (2 ^ 40 - h) (2 ^ 39)); [lia|].
  destruct (Z.ltb_spec (2 ^ 39) (2 ^ 40 - h)); [lia|]. by vm_compute.
Qed.

Lemma request_priority_constant_witness : request_priority 5 = 2 ^ 64 /\ request_priority 9 = 2 ^ 64.
Proof. split; apply request_priority_constant; lia. Defined.
