(* ===== verification/BftCore.v ===== *)
(** * The BFT consensus core

    Models [consensus/bft/core]: the state machine of one node ([core.go],
    [state.go], [round.go]), its handlers ([preprepare.go], [prepare.go],
    [commit.go], [request.go], [backlog.go]) and its event loop
    ([handler_core.go]). A handler is a [GoM] computation over the [core]
    record; its calls on the server, the timers it starts and the events it
    posts are its effects.

    The server ([bft.Server]) is a record of the answers it gives during one
    event. RLP, the signature recovery and the conversion of an out-of-range
    float are parameters ([Codec]). *)

From Stdlib Require Import ZArith Lia.
From S2P Require Import Prelude Common GoHeap Verifier BftHeader BftTypes.

Open Scope Z_scope.
Open Scope go_scope.

(** ** The surroundings of the core *)

(** RLP encoding may fail; so may decoding. *)
Class Codec := {
  encode_preprepare : Preprepare -> option bytes;
  decode_preprepare : bytes -> option Preprepare;
  encode_subject : Subject -> option bytes;
  decode_subject : bytes -> option Subject;
  encode_message : message -> option bytes;
  decode_message : bytes -> option message;
  (** [crypto.SigToPub] and the address of the key. *)
  recover_signer : bytes -> bytes -> option Address;
  (** [int64(f)] for [f] of 2^63 or more, which Go leaves to the platform. *)
  float_to_int64_overflow : Z
}.

(** What is relied on of RLP: decoding inverts encoding. *)
Class CodecLaws `{Codec} := {
  preprepare_roundtrip p b : encode_preprepare p = Some b -> decode_preprepare b = Some p;
  subject_roundtrip s b : encode_subject s = Some b -> decode_subject b = Some s;
  message_roundtrip m b : encode_message m = Some b -> decode_message b = Some m
}.

(** [bft.Server] *)
Record Server := mkServer {
  srv_Address : Address;
  srv_Verifiers : Proposal -> basicSet;
  srv_ParentVerifiers : Proposal -> basicSet;
  srv_LastProposal : option Proposal * Address;
  srv_Verify : Proposal -> Z * option BftError;
  srv_Sign : bytes -> option bytes;
  srv_Commit : Proposal -> list bytes -> option BftError;
  srv_HasPropsal : Hash -> bool;
  srv_GetProposer : Z -> Address;
  srv_HasBadProposal : Hash -> bool
}.

Inductive Event : Type :=
| RequestEvent (p : option Proposal)
| MessageEvent (payload : bytes)
| backlogEvent (src : Address) (msg : message)
| timeoutEvent
| FinalCommittedEvent.

(** The effects of a handler. [OBroadcast] also records the message that the
    payload encodes. *)
Inductive Output : Type :=
| OBroadcast (verSet : basicSet) (msg : message) (payload : bytes)
| OGossip (verSet : basicSet) (payload : bytes)
| OCommit (proposal : Proposal) (seals : list bytes)
| OPost (e : Event)
| OStartRoundTimer (timeout : Z)
| OStartFuturePreprepareTimer (duration : Z) (e : Event)
| OStopFuturePreprepareTimer
| OStopRoundTimer.

(** ** The state: [type core struct] *)

Record core := mkCore {
  c_RequestTimeout : Z;
  c_address : Address;
  c_state : State;
  c_verSet : option basicSet;
  c_waitingForRoundChange : bool;
  c_backlogs : gmap Address (Prque message);
  c_current : option roundState;
  c_roundChangeSet : option roundChangeSet;
  c_pendingRequests : Prque Request
}.

Definition NewCore (server : Server) (requestTimeout : Z) : core :=
  mkCore requestTimeout (srv_Address server) StateAcceptRequest None false ∅ None None prque_New.

Definition set_state (s : State) (c : core) : core :=
  mkCore (c_RequestTimeout c) (c_address c) s (c_verSet c) (c_waitingForRoundChange c)
    (c_backlogs c) (c_current c) (c_roundChangeSet c) (c_pendingRequests c).
Definition set_verSet (v : basicSet) (c : core) : core :=
  mkCore (c_RequestTimeout c) (c_address c) (c_state c) (Some v) (c_waitingForRoundChange c)
    (c_backlogs c) (c_current c) (c_roundChangeSet c) (c_pendingRequests c).
Definition set_waiting (b : bool) (c : core) : core :=
  mkCore (c_RequestTimeout c) (c_address c) (c_state c) (c_verSet c) b
    (c_backlogs c) (c_current c) (c_roundChangeSet c) (c_pendingRequests c).
Definition set_backlogs (b : gmap Address (Prque message)) (c : core) : core :=
  mkCore (c_RequestTimeout c) (c_address c) (c_state c) (c_verSet c) (c_waitingForRoundChange c)
    b (c_current c) (c_roundChangeSet c) (c_pendingRequests c).
Definition set_current (r : roundState) (c : core) : core :=
  mkCore (c_RequestTimeout c) (c_address c) (c_state c) (c_verSet c) (c_waitingForRoundChange c)
    (c_backlogs c) (Some r) (c_roundChangeSet c) (c_pendingRequests c).
Definition set_roundChangeSet (r : roundChangeSet) (c : core) : core :=
  mkCore (c_RequestTimeout c) (c_address c) (c_state c) (c_verSet c) (c_waitingForRoundChange c)
    (c_backlogs c) (c_current c) (Some r) (c_pendingRequests c).
Definition set_pendingRequests (q : Prque Request) (c : core) : core :=
  mkCore (c_RequestTimeout c) (c_address c) (c_state c) (c_verSet c) (c_waitingForRoundChange c)
    (c_backlogs c) (c_current c) (c_roundChangeSet c) q.

(** A handler's type, and the fields read through a pointer: a nil panics. *)
Abbreviation CoreM A := (GoM core Output A).

Definition get_current : CoreM roundState := c <- go_get ;; go_deref (c_current c).
Definition get_verSet : CoreM basicSet := c <- go_get ;; go_deref (c_verSet c).
Definition get_roundChangeSet : CoreM roundChangeSet :=
  c <- go_get ;; go_deref (c_roundChangeSet c).

Section core.
Context `{Codec}.
Context (server : Server).

(** ** Sending messages: [core.go] *)

Definition PrepareCommittedSeal (hash : Hash) : bytes := hash ++ [msgCommit].

(** [message.PayloadNoSig] *)
Definition PayloadNoSig (m : message) : option bytes :=
  encode_message (mkMessage (m_Code m) (m_Msg m) (m_Address m) [] (m_CommittedSeal m)).

(** The message signed, and its payload; [None] is an error. *)
Definition finalizeMessage (msg : message) : CoreM (option (message * bytes)) :=
  c <- go_get ;;
  seal <- (if m_Code msg =? msgCommit then
             cur <- get_current ;;
             go_ret (match roundState_Proposal cur with
                     | Some p => srv_Sign server (PrepareCommittedSeal (p_Hash p))
                     | None => Some []
                     end)
           else go_ret (Some [])) ;;
  go_ret (
    match seal with
    | None => None
    | Some seal =>
        let msg1 := mkMessage (m_Code msg) (m_Msg msg) (c_address c) (m_Signature msg) seal in
        match PayloadNoSig msg1 with
        | None => None
        | Some data =>
            match srv_Sign server data with
            | None => None
            | Some sig =>
                let msg2 := mkMessage (m_Code msg1) (m_Msg msg1) (m_Address msg1) sig seal in
                match encode_message msg2 with
                | None => None
                | Some payload => Some (msg2, payload)
                end
            end
        end
    end).

Definition broadcast (msg : message) : CoreM unit :=
  r <- finalizeMessage msg ;;
  match r with
  | None => go_ret tt
  | Some (msg', payload) =>
      verSet <- get_verSet ;;
      go_emit (OBroadcast verSet msg' payload)
  end.

(** [&message{Code: code, Msg: msg}] *)
Definition new_message (code : Z) (msg : bytes) : message := mkMessage code msg EmptyAddress [] [].

Definition currentView : CoreM View :=
  cur <- get_current ;; go_ret (mkView (rs_round cur) (rs_sequence cur)).

Definition isProposer : CoreM bool :=
  c <- go_get ;;
  match c_verSet c with
  | None => go_ret false
  | Some v => go_ret (IsProposer v (srv_Address server))
  end.

(** ** Checks: [backlog.go] and [request.go] *)

Definition checkMessage (msgCode : Z) (view : option View) : CoreM (option BftError) :=
  match view with
  | None => go_ret (Some errInvalidMsg)
  | Some view =>
      cv <- currentView ;;
      c <- go_get ;;
      go_ret (
        if 0 <? View_Cmp view cv then Some errMsgFromFuture
        else if View_Cmp view cv <? 0 then Some errOldMsg
        else if c_waitingForRoundChange c then Some errMsgFromFuture
        else if bool_decide (c_state c = StateAcceptRequest) then
          (if msgPreprepare <? msgCode then Some errMsgFromFuture else None)
        else None)
  end.

Definition checkRequestMsg (request : option Request) : CoreM (option BftError) :=
  match request with
  | None => go_ret (Some errInvalidMsg)
  | Some r =>
      match req_Proposal r with
      | None => go_ret (Some errInvalidMsg)
      | Some p =>
          cur <- get_current ;;
          go_ret (
            if p_Height p <? u64 (rs_sequence cur) then Some errOldMsg
            else if u64 (rs_sequence cur) <? p_Height p then Some errMsgFromFuture
            else None)
      end
  end.

(** ** Stored messages: [backlog.go] *)

(** The view carried by a message, [None] when it does not decode. *)
Definition message_view (msg : message) : option View :=
  if m_Code msg =? msgPreprepare
  then match decode_preprepare (m_Msg msg) with
       | Some p => Some (pp_View p)
       | None => None
       end
  else match decode_subject (m_Msg msg) with
       | Some s => Some (sub_View s)
       | None => None
       end.

Definition storeBacklog (msg : message) (src : Address) : CoreM unit :=
  c <- go_get ;;
  if bool_decide (src = c_address c) then go_ret tt
  else
    let backlog := match c_backlogs c !! src with
                   | Some q => q
                   | None => prque_New
                   end in
    let backlog' := match message_view msg with
                    | Some v => prque_Push backlog msg (toPriority (m_Code msg) v)
                    | None => backlog
                    end in
    go_modify (set_backlogs (<[src := backlog']> (c_backlogs c))).

(** The inner loop of [processBacklog] for one sender; every turn pops one
    message, so its length is enough fuel. *)
Fixpoint process_queue (fuel : nat) (src : Address) (backlog : Prque message)
    : CoreM (Prque message) :=
  match fuel with
  | O => go_ret backlog
  | S fuel' =>
      if prque_Empty backlog then go_ret backlog
      else
        popped <- go_deref (prque_Pop backlog) ;;
        let '(msg, prio, rest) := popped in
        match message_view msg with
        | None => process_queue fuel' src rest
        | Some view =>
            err <- checkMessage (m_Code msg) (Some view) ;;
            match err with
            | Some errMsgFromFuture => go_ret (prque_Push rest msg prio)
            | Some _ => process_queue fuel' src rest
            | None =>
                go_emit (OPost (backlogEvent src msg)) ;;;
                process_queue fuel' src rest
            end
        end
  end.

Fixpoint process_senders (l : list (Address * Prque message)) : CoreM unit :=
  match l with
  | [] => go_ret tt
  | (srcAddress, backlog) :: l' =>
      verSet <- get_verSet ;;
      match (GetVerByAddress verSet srcAddress).2 with
      | None =>
          go_modify (fun c => set_backlogs (delete srcAddress (c_backlogs c)) c) ;;;
          process_senders l'
      | Some src =>
          q <- process_queue (length backlog) src backlog ;;
          go_modify (fun c => set_backlogs (<[srcAddress := q]> (c_backlogs c)) c) ;;;
          process_senders l'
      end
  end.

Definition processBacklog : CoreM unit :=
  c <- go_get ;; process_senders (map_to_list (c_backlogs c)).

(** ** Pending requests: [request.go] *)

Fixpoint process_requests (fuel : nat) : CoreM unit :=
  match fuel with
  | O => go_ret tt
  | S fuel' =>
      c <- go_get ;;
      if prque_Empty (c_pendingRequests c) then go_ret tt
      else
        popped <- go_deref (prque_Pop (c_pendingRequests c)) ;;
        let '(req, priority, rest) := popped in
        go_modify (set_pendingRequests rest) ;;;
        err <- checkRequestMsg (Some req) ;;
        match err with
        | Some errMsgFromFuture =>
            go_modify (set_pendingRequests (prque_Push rest req priority))
        | Some _ => process_requests fuel'
        | None =>
            go_emit (OPost (RequestEvent (req_Proposal req))) ;;;
            process_requests fuel'
        end
  end.

Definition processPendingRequests : CoreM unit :=
  c <- go_get ;; process_requests (length (c_pendingRequests c)).

Definition storeRequestMsg (request : Request) : CoreM unit :=
  p <- go_deref (req_Proposal request) ;;
  c <- go_get ;;
  go_modify (set_pendingRequests
    (prque_Push (c_pendingRequests c) request (request_priority (p_Height p)))).

(** ** State changes: [core.go] *)

Definition setState (state : State) : CoreM unit :=
  go_modify (set_state state) ;;;
  (if bool_decide (state = StateAcceptRequest) then processPendingRequests else go_ret tt) ;;;
  processBacklog.

Definition stopTimer : CoreM unit :=
  go_emit OStopFuturePreprepareTimer ;;; go_emit OStopRoundTimer.

(** [time.Duration(math.Pow(2, float64(round)))] *)
Definition pow2_duration (round : Z) : Z :=
  if round <? 63 then 2 ^ round else float_to_int64_overflow.

(** Nanoseconds, in an [int64]. *)
Definition round_timeout (requestTimeout round : Z) : Z :=
  let timeout := i64 (i64 requestTimeout * 1000000) in
  if 0 <? round then i64 (timeout + i64 (pow2_duration round * 1000000000)) else timeout.

Definition newRoundChangeTimer : CoreM unit :=
  stopTimer ;;;
  c <- go_get ;;
  cur <- get_current ;;
  go_emit (OStartRoundTimer (round_timeout (c_RequestTimeout c) (u64 (rs_round cur)))).

(** [round.go] *)
Definition updateRoundState (view : View) (verifierSet : basicSet) (roundChanged : bool) : CoreM unit :=
  c <- go_get ;;
  match c_current c with
  | Some cur =>
      if roundChanged then
        if IsHashLocked (srv_HasBadProposal server) cur
        then go_modify (set_current (newRoundState view verifierSet (GetLockedHash cur)
               (rs_Preprepare cur) (rs_pendingRequest cur)))
        else go_modify (set_current (newRoundState view verifierSet EmptyHash None
               (rs_pendingRequest cur)))
      else go_modify (set_current (newRoundState view verifierSet EmptyHash None None))
  | None => go_modify (set_current (newRoundState view verifierSet EmptyHash None None))
  end.

Definition catchUpRound (view : View) : CoreM unit :=
  go_modify (set_waiting true) ;;;
  verSet <- get_verSet ;;
  updateRoundState view verSet true ;;;
  rcs <- get_roundChangeSet ;;
  go_modify (set_roundChangeSet (roundChangeSet_Clear rcs (v_Round view))) ;;;
  newRoundChangeTimer.

Definition sendRoundChange (round : Z) : CoreM unit :=
  cv <- currentView ;;
  if 0 <=? big_Cmp (v_Round cv) round then go_ret tt
  else
    catchUpRound (mkView round (v_Sequence cv)) ;;;
    cv' <- currentView ;;
    match encode_subject (mkSubject cv' EmptyHash) with
    | None => go_ret tt
    | Some payload => broadcast (new_message msgRoundChange payload)
    end.

Definition sendNextRoundChange : CoreM unit :=
  cv <- currentView ;; sendRoundChange (v_Round cv + 1).

(** ** Preprepare: [preprepare.go] *)

Definition sendPreprepare (request : Request) : CoreM unit :=
  cur <- get_current ;;
  p <- go_deref (req_Proposal request) ;;
  prop <- isProposer ;;
  if (u64 (rs_sequence cur) =? p_Height p) && prop then
    curView <- currentView ;;
    match encode_preprepare (mkPreprepare curView p) with
    | None => go_ret tt
    | Some preprepare => broadcast (new_message msgPreprepare preprepare)
    end
  else go_ret tt.

(** The branch taken by [startNewRound]: the new view, or nothing to do. *)
Definition round_change_decision (cur : option roundState) (lastHeight round : Z)
    : option bool :=
  match cur with
  | None => Some false
  | Some cur =>
      if u64 (rs_sequence cur) <=? lastHeight then Some false
      else if lastHeight =? u64 (u64 (rs_sequence cur) - 1) then
        if big_Cmp round 0 =? 0 then None
        else if big_Cmp round (rs_round cur) <? 0 then None
        else Some true
      else None
  end.

Definition startNewRound (round : Z) : CoreM unit :=
  let '(last, lastProposer) := srv_LastProposal server in
  c <- go_get ;;
  lastProposal <- go_deref last ;;
  match round_change_decision (c_current c) (p_Height lastProposal) round with
  | None => go_ret tt
  | Some roundChanged =>
      newView <-
        (if roundChanged then
           cur <- get_current ;; go_ret (mkView round (rs_sequence cur))
         else
           go_modify (set_verSet (srv_Verifiers server lastProposal)) ;;;
           go_ret (mkView 0 (p_Height lastProposal + 1))) ;;
      verSet <- get_verSet ;;
      go_modify (set_roundChangeSet (newRoundChangeSet verSet)) ;;;
      updateRoundState newView verSet roundChanged ;;;
      go_modify (set_verSet (CalcProposer verSet lastProposer (u64 (v_Round newView)))) ;;;
      go_modify (set_waiting false) ;;;
      setState StateAcceptRequest ;;;
      prop <- isProposer ;;
      cur <- get_current ;;
      (if roundChanged && prop then
         if IsHashLocked (srv_HasBadProposal server) cur
         then sendPreprepare (mkRequest (roundState_Proposal cur))
         else match rs_pendingRequest cur with
              | Some r => sendPreprepare r
              | None => go_ret tt
              end
       else go_ret tt) ;;;
      newRoundChangeTimer
  end.

Definition acceptPreprepare (preprepare : Preprepare) : CoreM unit :=
  cur <- get_current ;; go_modify (set_current (SetPreprepare cur preprepare)).

(** ** Prepare and commit: [prepare.go], [commit.go] *)

(** RLP calls [EncodeRLP] on a nil subject too, which dereferences it. *)
Definition broadcast_subject (code : Z) (sub : option Subject) : CoreM unit :=
  s <- go_deref sub ;;
  match encode_subject s with
  | None => go_ret tt
  | Some b => broadcast (new_message code b)
  end.

Definition sendPrepare : CoreM unit :=
  cur <- get_current ;; broadcast_subject msgPrepare (roundState_Subject cur).

Definition broadcastCommit (sub : option Subject) : CoreM unit := broadcast_subject msgCommit sub.

Definition sendCommit : CoreM unit :=
  cur <- get_current ;; broadcastCommit (roundState_Subject cur).

Definition sendOldCommit (view : View) (digest : Hash) : CoreM unit :=
  broadcastCommit (Some (mkSubject view digest)).

(** [make([]byte, BftExtraSeal)] filled with the seal. *)
Definition fixed_seal (seal : bytes) : bytes :=
  take BftExtraSeal (seal ++ replicate BftExtraSeal 0).

Definition core_commit : CoreM unit :=
  setState StateCommitted ;;;
  cur <- get_current ;;
  match roundState_Proposal cur with
  | None => go_ret tt
  | Some proposal =>
      let committedSeals := map (fun v => fixed_seal (m_CommittedSeal v))
                              (messageSet_Values (rs_Commits cur)) in
      go_emit (OCommit proposal committedSeals) ;;;
      match srv_Commit server proposal committedSeals with
      | None => go_ret tt
      | Some _ =>
          cur <- get_current ;;
          go_modify (set_current (UnlockHash cur)) ;;;
          sendNextRoundChange
      end
  end.

Definition handlePreprepare (msg : message) (src : Address) : CoreM (option BftError) :=
  match decode_preprepare (m_Msg msg) with
  | None => go_ret (Some errDecodePreprepare)
  | Some preprepare =>
      let proposal := pp_Proposal preprepare in
      err <- checkMessage msgPreprepare (Some (pp_View preprepare)) ;;
      match err with
      | Some err =>
          if bool_decide (err = errOldMsg) then
            let verSet := CalcProposer (Copy (srv_ParentVerifiers server proposal))
                            (srv_GetProposer server (u64 (p_Height proposal - 1)))
                            (u64 (v_Round (pp_View preprepare))) in
            if IsProposer verSet src && srv_HasPropsal server (p_Hash proposal) then
              sendOldCommit (pp_View preprepare) (p_Hash proposal) ;;;
              go_ret None
            else go_ret (Some err)
          else go_ret (Some err)
      | None =>
          verSet <- get_verSet ;;
          if negb (IsProposer verSet src) then go_ret (Some errNotProposer)
          else
            match srv_Verify server proposal with
            | (duration, Some err) =>
                (if bool_decide (err = ErrBlockCreateTimeOld) then
                   go_emit OStopFuturePreprepareTimer ;;;
                   go_emit (OStartFuturePreprepareTimer duration (backlogEvent src msg))
                 else sendNextRoundChange) ;;;
                go_ret (Some err)
            | (_, None) =>
                c <- go_get ;;
                (if bool_decide (c_state c = StateAcceptRequest) then
                   cur <- get_current ;;
                   if IsHashLocked (srv_HasBadProposal server) cur then
                     if bool_decide (p_Hash proposal = GetLockedHash cur) then
                       acceptPreprepare preprepare ;;;
                       setState StatePrepared ;;;
                       sendCommit
                     else sendNextRoundChange
                   else
                     acceptPreprepare preprepare ;;;
                     setState StatePreprepared ;;;
                     sendPrepare
                 else go_ret tt) ;;;
                go_ret None
            end
      end
  end.

(** [verifyPrepare] and [verifyCommit]: [reflect.DeepEqual] of the received
    subject and the one of the round. *)
Definition verify_subject (sub : Subject) : CoreM (option BftError) :=
  cur <- get_current ;;
  go_ret (if bool_decide (Some sub = roundState_Subject cur) then None
          else Some errInconsistentSubjects).

(** The result of adding the message is not looked at by the callers. *)
Definition acceptPrepare (msg : message) : CoreM unit :=
  cur <- get_current ;;
  go_modify (set_current (rs_set_Prepares cur (messageSet_Add (rs_Prepares cur) msg).1)).

Definition acceptCommit (msg : message) : CoreM unit :=
  cur <- get_current ;;
  go_modify (set_current (rs_set_Commits cur (messageSet_Add (rs_Commits cur) msg).1)).

Definition lock_current : CoreM unit :=
  cur <- get_current ;; go_modify (set_current (LockHash cur)).

Definition handlePrepare (msg : message) (src : Address) : CoreM (option BftError) :=
  match decode_subject (m_Msg msg) with
  | None => go_ret (Some errDecodePrepare)
  | Some prepare =>
      err <- checkMessage msgPrepare (Some (sub_View prepare)) ;;
      match err with
      | Some err => go_ret (Some err)
      | None =>
          err <- verify_subject prepare ;;
          match err with
          | Some err => go_ret (Some err)
          | None =>
              acceptPrepare msg ;;;
              c <- go_get ;;
              cur <- get_current ;;
              verSet <- get_verSet ;;
              (if ((IsHashLocked (srv_HasBadProposal server) cur
                    && bool_decide (sub_Digest prepare = GetLockedHash cur))
                   || (2 * F verSet <? GetPrepareOrCommitSize cur))
                  && (State_Cmp (c_state c) StatePrepared <? 0)
               then lock_current ;;; setState StatePrepared ;;; sendCommit
               else go_ret tt) ;;;
              go_ret None
          end
      end
  end.

Definition handleCommit (msg : message) (src : Address) : CoreM (option BftError) :=
  match decode_subject (m_Msg msg) with
  | None => go_ret (Some errDecodeCommit)
  | Some commit =>
      err <- checkMessage msgCommit (Some (sub_View commit)) ;;
      match err with
      | Some err => go_ret (Some err)
      | None =>
          err <- verify_subject commit ;;
          match err with
          | Some err => go_ret (Some err)
          | None =>
              acceptCommit msg ;;;
              c <- go_get ;;
              cur <- get_current ;;
              verSet <- get_verSet ;;
              (if (2 * F verSet <? messageSet_Size (rs_Commits cur))
                  && (State_Cmp (c_state c) StateCommitted <? 0)
               then lock_current ;;; core_commit
               else go_ret tt) ;;;
              go_ret None
          end
      end
  end.

(** ** Requests: [request.go] *)

Definition handleRequest (request : Request) : CoreM (option BftError) :=
  err <- checkRequestMsg (Some request) ;;
  match err with
  | Some err => go_ret (Some err)
  | None =>
      cur <- get_current ;;
      go_modify (set_current (rs_set_pendingRequest cur (Some request))) ;;;
      c <- go_get ;;
      (if bool_decide (c_state c = StateAcceptRequest) then sendPreprepare request
       else go_ret tt) ;;;
      go_ret None
  end.

(** ** Round changes: [round.go] *)

Definition handleRoundChange (msg : message) (src : Address) : CoreM (option BftError) :=
  match decode_subject (m_Msg msg) with
  | None => go_ret (Some errRlp)
  | Some rc =>
      cv <- currentView ;;
      let roundView := sub_View rc in
      rcs <- get_roundChangeSet ;;
      let '(rcs', (num, err)) := roundChangeSet_Add rcs (v_Round roundView) msg in
      go_modify (set_roundChangeSet rcs') ;;;
      match err with
      | Some err => go_ret (Some err)
      | None =>
          c <- go_get ;;
          verSet <- get_verSet ;;
          if c_waitingForRoundChange c && (num =? F verSet + 1) then
            (if big_Cmp (v_Round cv) (v_Round roundView) <? 0
             then sendRoundChange (v_Round roundView) else go_ret tt) ;;;
            go_ret None
          else if (num =? 2 * F verSet + 1)
                  && (c_waitingForRoundChange c
                      || (big_Cmp (v_Round cv) (v_Round roundView) <? 0)) then
            startNewRound (v_Round roundView) ;;;
            go_ret None
          else if big_Cmp (v_Round cv) (v_Round roundView) <? 0 then
            go_ret (Some errMsgIgnored)
          else go_ret None
      end
  end.

(** ** The event loop: [handler_core.go] *)

Definition handleCheckedMsg (msg : message) (src : Address) : CoreM (option BftError) :=
  let backlog (r : CoreM (option BftError)) : CoreM (option BftError) :=
    err <- r ;;
    (if bool_decide (err = Some errMsgFromFuture) then storeBacklog msg src else go_ret tt) ;;;
    go_ret err in
  if m_Code msg =? msgPreprepare then backlog (handlePreprepare msg src)
  else if m_Code msg =? msgPrepare then backlog (handlePrepare msg src)
  else if m_Code msg =? msgCommit then backlog (handleCommit msg src)
  else if m_Code msg =? msgRoundChange then backlog (handleRoundChange msg src)
  else go_ret (Some errInvalidMsg).

(** [bft.CheckVerifierSignature] *)
Definition CheckVerifierSignature (verSet : basicSet) (data sig : bytes) : Address * option BftError :=
  match recover_signer data sig with
  | None => (EmptyAddress, Some errSignature)
  | Some signer =>
      match (GetVerByAddress verSet signer).2 with
      | Some val => (val, None)
      | None => (EmptyAddress, Some bftErrAddressUnauthorized)
      end
  end.

(** [message.ValidatePayload] with the core's [verifyFn]. The address that the
    signature recovers to is dropped. *)
Definition ValidatePayload (verSet : basicSet) (b : bytes) : message + BftError :=
  match decode_message b with
  | None => inr errRlp
  | Some m =>
      match PayloadNoSig m with
      | None => inr errRlp
      | Some payload =>
          match CheckVerifierSignature verSet payload (m_Signature m) with
          | (_, Some err) => inr err
          | (_, None) => inl m
          end
      end
  end.

Definition handleMsg (payload : bytes) : CoreM (option BftError) :=
  verSet <- get_verSet ;;
  match ValidatePayload verSet payload with
  | inr err => go_ret (Some err)
  | inl msg =>
      match (GetVerByAddress verSet (m_Address msg)).2 with
      | None => go_ret (Some ErrAddressUnauthorized)
      | Some src => handleCheckedMsg msg src
      end
  end.

Definition handleTimeoutMsg : CoreM unit :=
  c <- go_get ;;
  cur <- get_current ;;
  let rest : CoreM unit :=
    lastProposal <- go_deref (srv_LastProposal server).1 ;;
    if u64 (rs_sequence cur) <=? p_Height lastProposal
    then startNewRound 0
    else sendNextRoundChange in
  if c_waitingForRoundChange c then rest
  else
    rcs <- get_roundChangeSet ;;
    verSet <- get_verSet ;;
    match roundChangeSet_MaxRound rcs (F verSet + 1) with
    | Some maxRound =>
        if 0 <? big_Cmp maxRound (rs_round cur) then sendRoundChange maxRound else rest
    | None => rest
    end.

Definition handleFinalCommitted : CoreM unit := startNewRound 0.

(** One turn of the loop of [handleEvents]. *)
Definition handleEvent (e : Event) : CoreM unit :=
  match e with
  | RequestEvent p =>
      let req := mkRequest p in
      err <- handleRequest req ;;
      if bool_decide (err = Some errMsgFromFuture) then storeRequestMsg req else go_ret tt
  | MessageEvent payload =>
      err <- handleMsg payload ;;
      match err with
      | None => verSet <- get_verSet ;; go_emit (OGossip verSet payload)
      | Some _ => go_ret tt
      end
  | backlogEvent src msg =>
      err <- handleCheckedMsg msg src ;;
      match err with
      | None =>
          match encode_message msg with
          | None => go_ret tt
          | Some p => verSet <- get_verSet ;; go_emit (OGossip verSet p)
          end
      | Some _ => go_ret tt
      end
  | timeoutEvent => handleTimeoutMsg
  | FinalCommittedEvent => handleFinalCommitted
  end.

(** [Start]: the first round; the loop then runs the handlers. *)
Definition Start : CoreM unit := startNewRound 0.
End core.

(** ** The round timer *)

(** The timer of a round is as computed, without overflow, up to round 33. *)
Lemma round_timeout_exact `{Codec} (ms round : Z) :
  0 <= ms <= 600000000000 -> 0 <= round <= 33 ->
  round_timeout ms round = ms * 1000000 + (if 0 <? round then 2 ^ round * 1000000000 else 0).
Proof.
  intros Hms Hr. unfold round_timeout, pow2_duration.
  rewrite (i64_small ms), (i64_small (ms * 1000000)) by lia.
  destruct (Z.ltb_spec 0 round); [|lia]. destruct (Z.ltb_spec round 63); [|lia].
  assert (Hp : 1 <= 2 ^ round <= 2 ^ 33).
  { split; [change 1 with (2 ^ 0)|]; apply Z.pow_le_mono_r; lia. }
  rewrite (i64_small (2 ^ round * 1000000000)) by lia. rewrite i64_small; lia.
Qed.

(** The timer of a round is the request timeout plus two to the round
    seconds up to round 33; in round 34 it has overflowed to a negative
    duration, and from round 55 to 62 the round adds nothing. *)
Theorem round_timeout_bounds `{Codec} (ms round : Z) :
  0 <= ms <= 600000000000 ->
  (0 <= round <= 33 ->
    round_timeout ms round
    = ms * 1000000 + (if 0 <? round then 2 ^ round * 1000000000 else 0))
  /\ (round = 34 -> round_timeout ms round < 0)
  /\ (55 <= round < 63 -> round_timeout ms round = ms * 1000000).
Proof.
  intros Hms. split; [by apply round_timeout_exact|].
  unfold round_timeout, pow2_duration.
  rewrite (i64_small ms), (i64_small (ms * 1000000)) by lia. split; [intros ->|intros Hr].
  - change (0 <? 34) with true. change (34 <? 63) with true. cbn iota.
    change (i64 (2 ^ 34 * 1000000000)) with (-1266874889709551616).
    rewrite i64_small; lia.
  - destruct (Z.ltb_spec 0 round); [|lia]. destruct (Z.ltb_spec round 63); [|lia].
    assert (Hz : i64 (2 ^ round * 1000000000) = 0).
    { unfold i64. replace (2 ^ round * 1000000000 + 2 ^ 63)
        with (2 ^ 63 + (2 ^ (round - 55) * 1953125) * 2 ^ 64).
      - rewrite Z.mod_add by lia. rewrite Z.mod_small; lia.
      - replace round with ((round - 55) + 55) at 2 by lia.
        rewrite Z.pow_add_r by lia. lia. }
    rewrite Hz, Z.add_0_r. apply i64_small. lia.
Qed.

(** ** A concrete codec

    An encoding of the messages as lists, for evaluating the handlers on
    examples: the fields one after the other, with their lengths. *)
Definition enc_bytes (b : bytes) : bytes := Z.of_nat (length b) :: b.

Definition dec_bytes (b : bytes) : option (bytes * bytes) :=
  match b with
  | n :: b' => Some (take (Z.to_nat n) b', drop (Z.to_nat n) b')
  | [] => None
  end.

Definition example_codec : Codec := {|
  encode_preprepare p := Some (v_Round (pp_View p) :: v_Sequence (pp_View p)
                               :: p_Height (pp_Proposal p) :: p_Hash (pp_Proposal p));
  decode_preprepare b := match b with
                         | r :: s :: h :: d => Some (mkPreprepare (mkView r s) (mkProposal h d))
                         | _ => None
                         end;
  encode_subject s := Some (v_Round (sub_View s) :: v_Sequence (sub_View s) :: sub_Digest s);
  decode_subject b := match b with
                      | r :: s :: d => Some (mkSubject (mkView r s) d)
                      | _ => None
                      end;
  encode_message m := Some (m_Code m :: enc_bytes (m_Msg m) ++ enc_bytes (m_Address m)
                            ++ enc_bytes (m_Signature m) ++ m_CommittedSeal m);
  decode_message b :=
    match b with
    | code :: b =>
        match dec_bytes b with
        | Some (msg, b) =>
            match dec_bytes b with
            | Some (addr, b) =>
                match dec_bytes b with
                | Some (sig, b) => Some (mkMessage code msg addr sig b)
                | None => None
                end
            | None => None
            end
        | None => None
        end
    | [] => None
    end;
  recover_signer data sig := Some sig;
  float_to_int64_overflow := - 2 ^ 63
|}.

Lemma round_timeout_bounds_witness :
  @round_timeout example_codec 3000 5 = 35000000000 /\ @round_timeout example_codec 3000 34 < 0.
Proof.
  split.
  - destruct (@round_timeout_bounds example_codec 3000 5) as [Hx _]; [lia|].
    rewrite Hx by lia. reflexivity.
  - destruct (@round_timeout_bounds example_codec 3000 34) as (_ & Hx & _); [lia|].
    by apply Hx.
Defined.

Lemma dec_enc_bytes b rest : dec_bytes (enc_bytes b ++ rest) = Some (b, rest).
Proof. unfold dec_bytes, enc_bytes. cbn. by rewrite Nat2Z.id, take_app_length, drop_app_length. Qed.

(** The laws relied on of a codec hold for it. *)
#[export] Instance example_codec_laws : @CodecLaws example_codec.
Proof.
  constructor.
  - by intros [[r s] [h d]] b [= <-].
  - by intros [[r s] d] b [= <-].
  - intros [code msg addr sig seal] b Hb. unfold encode_message, example_codec in Hb.
    apply Some_inj in Hb as <-. unfold decode_message, example_codec.
    by rewrite !dec_enc_bytes.
Qed.
