(* ===== verification/BftEngine.v ===== *)
(** * The BFT server

    Models [consensus/bft/server]: the snapshots the server takes of the verifier
    set, the verification of headers and their seals ([engine_implement.go]), the
    methods the core calls ([server.go]), the preparation of a block
    ([engine.go], [verifier.go]) and the exchange of messages with peers
    ([handler_server.go]). The chain, the database, the clock and the peers are
    arguments. *)

From Stdlib Require Import ZArith Lia.
From S2P Require Import Prelude Common Verifier BftHeader BftSnapshot BftTypes BftCore.

Open Scope Z_scope.
Open Scope go_scope.

(** ** The surroundings *)

(** [consensus.ChainReader]; a missing header is nil. *)
Record Chain := mkChain {
  ch_GetHeaderByHeight : Z -> option BlockHeader;
  ch_GetHeaderByHash : Hash -> option BlockHeader
}.

Record BFTConfig := mkBFTConfig {
  cfg_BlockPeriod : Z;
  cfg_ProposerPolicy : Z;
  cfg_Epoch : Z
}.

(** [types.SecondWitnessInfo]: what [snapshot] reads of it. *)
Record SecondWitnessInfo := mkSWInfo {
  sw_ChallengedTxs : nat;
  sw_DepositVers : list Address;
  sw_ExitVers : list Address
}.

(** RLP of the second witness, JSON of a snapshot, and whether a write to the
    database fails. *)
Class ServerCodec := {
  decode_sw : bytes -> option SecondWitnessInfo;
  json_Marshal : snapshotJSON -> option bytes;
  json_Unmarshal : bytes -> option snapshotJSON;
  db_Put_fails : bytes -> bool
}.

Definition checkInterval : Z := 1024.
Definition WitnessSize : nat := 8.
Definition defaultDifficulty : Z := 1.

(** "bft-snapshot" *)
Definition dbKeySnapshotPrefix : bytes := [98; 102; 116; 45; 115; 110; 97; 112; 115; 104; 111; 116].

Section engine.
Context `{HeaderCodec, ArcCache, ServerCodec}.
Context (config : BFTConfig) (chain : Chain) (now : Z).

Definition try_ret {A} (a : A) : SrvM A := go_ret (inl a).
Definition try_err {A} (e : SrvError) : SrvM A := go_ret (inr e).
Definition try_of {A} (r : A + SrvError) : SrvM A := go_ret r.
Definition try_deref {A} (o : option A) : SrvM A := a <- go_deref o ;; go_ret (inl a).

(** ** Stored snapshots: [snapshot.go] *)

Definition retrieveSnapshot (epoch : Z) (hash : Hash) : SrvM Snapshot :=
  st <- go_get ;;
  match srv_db st !! (dbKeySnapshotPrefix ++ hash) with
  | None => try_err errDatabase
  | Some blob =>
      match json_Unmarshal blob with
      | None => try_err errJson
      | Some j =>
          let snap := fromJSONStruct j in
          try_ret (mkSnapshot epoch (s_Height snap) (s_Hash snap) (s_Votes snap) (s_Tally snap)
                     (s_VerSet snap))
      end
  end.

Definition snap_save (s : Snapshot) : SrvM unit :=
  match json_Marshal (toJSONStruct s) with
  | None => try_err errJson
  | Some blob =>
      let key := dbKeySnapshotPrefix ++ s_Hash s in
      if db_Put_fails key then try_err errDatabase
      else
        go_modify (fun st => mkSrvState (cachedAddrs st) (recents st) (<[key := blob]> (srv_db st))) ;;;
        try_ret tt
  end.

(** [types.ExtractSecondWitnessInfo]: the length that is checked is the one of
    the extra data; slicing a shorter second witness panics. *)
Definition ExtractSecondWitnessInfo (h : BlockHeader) : SrvM SecondWitnessInfo :=
  if (length (h_ExtraData h) <? BftExtraVanity)%nat then try_err ErrInvalidBftHeaderExtra
  else if (length (h_SecondWitness h) <? BftExtraVanity)%nat then go_panic
  else match decode_sw (drop BftExtraVanity (h_SecondWitness h)) with
       | Some sw => try_ret sw
       | None => try_err errRlpExtra
       end.

(** ** Verification of a header, given the snapshots it is checked against *)

(** [verifyHeaderCommon]; a nil number panics when it is compared. *)
Definition verifyHeaderCommon (header : BlockHeader) : SrvM unit :=
  if negb (h_Consensus header =? BftConsensus) then try_err errBFTConsensus
  else
    ts <-? try_deref (h_CreateTimestamp header) ;;
    if now <? ts then try_err errBlockCreateTimeOld
    else
      match ExtractBftExtra header with
      | inr _ => try_err errExtraDataFormatInvalid
      | inl _ =>
          if negb (h_Height header =? 0)
             && negb (bool_decide (h_Witness header = nonceAuthVote))
             && negb (bool_decide (h_Witness header = nonceDropVote))
          then try_err errNonceInvalid
          else
            d <-? try_deref (h_Difficulty header) ;;
            if d =? defaultDifficulty then try_ret tt else try_err errDifficultyInvalid
      end.

(** [take_snapshot] is [s.snapshot] at a height and hash. *)
Definition snapshot_fn : Type := Z -> Hash -> SrvM Snapshot.

Definition verifySigner_with (take_snapshot : snapshot_fn) (header : BlockHeader) : SrvM unit :=
  if h_Height header =? 0 then try_err errBlockUnknown
  else
    snap <-? take_snapshot (u64 (h_Height header - 1)) (h_PreviousBlockHash header) ;;
    signer <-? extractAccount header ;;
    match (GetVerByAddress (s_VerSet snap) signer).2 with
    | None => try_err errUnauthorized
    | Some _ => try_ret tt
    end.

(** The loop over the seals: every signer is removed from the copy. *)
Fixpoint count_seals (data : bytes) (seals : list bytes) (verifiers : basicSet) (n : Z)
    : Z + SrvError :=
  match seals with
  | [] => inl n
  | seal :: seals' =>
      match GetSignatureAddress data seal with
      | None => inr errInvalidSignature
      | Some addr =>
          match RemoveVerifier verifiers addr with
          | (verifiers', true) => count_seals data seals' verifiers' (n + 1)
          | (_, false) => inr errCommittedSealsInvalid
          end
      end
  end.

Definition verifyCommittedSeals_with (take_snapshot : snapshot_fn) (header : BlockHeader) : SrvM unit :=
  if h_Height header =? 0 then try_ret tt
  else
    snap <-? take_snapshot (u64 (h_Height header - 1)) (h_PreviousBlockHash header) ;;
    extra <-? try_of (ExtractBftExtra header) ;;
    if (length (be_CommittedSeal extra) =? 0)%nat then try_err errEmptyCommittedSeals
    else
      let proposalSeal := PrepareCommittedSeal (header_Hash header) in
      validSealCount <-? try_of (count_seals proposalSeal (be_CommittedSeal extra)
                                   (Copy (s_VerSet snap)) 0) ;;
      if validSealCount <? 2 * F (s_VerSet snap) then try_err errCommittedSealsInvalid
      else try_ret tt.

(** A nil parent or time stamp panics. *)
Definition verifyBFTCore_with (take_snapshot : snapshot_fn) (header : BlockHeader)
    (parents : list BlockHeader) : SrvM unit :=
  if h_Height header =? 0 then try_ret tt
  else
    parent <-? try_deref (match last parents with
                          | Some p => Some p
                          | None => ch_GetHeaderByHash chain (h_PreviousBlockHash header)
                          end) ;;
    pts <-? try_deref (h_CreateTimestamp parent) ;;
    ts <-? try_deref (h_CreateTimestamp header) ;;
    if u64 ts <? u64 (u64 pts + cfg_BlockPeriod config) then try_err errTimestampInvalid
    else
      snap <-? take_snapshot (u64 (h_Height header - 1)) (h_PreviousBlockHash header) ;;
      r <-? verifySigner_with take_snapshot header ;;
      verifyCommittedSeals_with take_snapshot header.

Definition verifyHeader_with (take_snapshot : snapshot_fn) (header : BlockHeader)
    (parents : list BlockHeader) : SrvM unit :=
  r <-? verifyHeaderCommon header ;;
  verifyBFTCore_with take_snapshot header parents.

(** ** [snapshot] *)

(** Deposits are added, then exits are removed. *)
Definition change_verifiers (verSet : basicSet) (sw : SecondWitnessInfo) : basicSet :=
  let added := fold_left (fun vs a => (AddVerifier vs a).1) (sw_DepositVers sw) verSet in
  fold_left (fun vs a => (RemoveVerifier vs a).1) (sw_ExitVers sw) added.

(** The height looked up after a successful challenge. *)
Definition revert_height (height : Z) : Z :=
  let checkpoint := height / checkInterval in
  if 0 <? checkpoint then checkpoint - 1 else checkpoint.

(** The snapshot of a block that is not cached: both branches of the loop end
    it, so that no header is ever gathered. *)
Definition fresh_snapshot (verify_genesis : BlockHeader -> SrvM unit) (height : Z) : SrvM Snapshot :=
  if height =? 0 then
    genesis <-? try_deref (ch_GetHeaderByHeight chain 0) ;;
    r <-? verify_genesis genesis ;;
    bftExtra <-? try_of (ExtractBftExtra genesis) ;;
    let snap := newSnapshot (cfg_Epoch config) 0 (header_Hash genesis)
                  (NewVerifierSet (be_Verifiers bftExtra) (cfg_ProposerPolicy config)) in
    r <-? snap_save snap ;;
    try_ret snap
  else
    h <-? try_deref (ch_GetHeaderByHeight chain height) ;;
    bftExtra <-? try_of (ExtractBftExtra h) ;;
    let snap := newSnapshot (cfg_Epoch config) height (header_Hash h)
                  (NewVerifierSet (be_Verifiers bftExtra) (cfg_ProposerPolicy config)) in
    swExtra <-? ExtractSecondWitnessInfo h ;;
    let use_header : SrvM Snapshot :=
      let snap' := set_VerSet snap (change_verifiers (s_VerSet snap) swExtra) in
      r <-? snap_save snap' ;;
      try_ret snap' in
    if (sw_ChallengedTxs swExtra =? 0)%nat then use_header
    else
      revert <-? try_deref (ch_GetHeaderByHeight chain (revert_height height)) ;;
      s <- retrieveSnapshot (cfg_Epoch config) (header_Hash revert) ;;
      match s with
      | inl s => try_ret s
      | inr _ => use_header
      end.

Definition snapshot_with (verify_genesis : BlockHeader -> SrvM unit) : snapshot_fn :=
  fun height hash =>
    st <- go_get ;;
    snap <-? match recents st !! hash with
             | Some s => try_ret s
             | None => fresh_snapshot verify_genesis height
             end ;;
    snap <-? applyHeaders snap [] ;;
    go_modify (fun st => mkSrvState (cachedAddrs st) (arc_Add (recents st) (s_Hash snap) snap)
                           (srv_db st)) ;;;
    try_ret snap.

(** The verification of the genesis header calls back into the verification;
    [depth] bounds how often. *)
Fixpoint verifyHeader (depth : nat) (header : BlockHeader) (parents : list BlockHeader) : SrvM unit :=
  match depth with
  | O => go_panic
  | S depth' => verifyHeader_with (snapshot_with (fun g => verifyHeader depth' g [])) header parents
  end.

Definition VerifyHeader (depth : nat) (header : BlockHeader) : SrvM unit := verifyHeader depth header [].

Definition snapshot (depth : nat) : snapshot_fn := snapshot_with (VerifyHeader depth).

Definition VerifySeal (depth : nat) (header : BlockHeader) : SrvM unit :=
  if h_Height header =? 0 then try_err errBlockUnknown
  else
    d <-? try_deref (h_Difficulty header) ;;
    if negb (d =? defaultDifficulty) then try_err errDifficultyInvalid
    else verifySigner_with (snapshot depth) header.

(** ** What the core asks for: [server.go] *)

(** An error gives the empty set. *)
Definition getVerifiers (depth : nat) (height : Z) (hash : Hash) : GoM SrvState Empty_set basicSet :=
  r <- snapshot depth height hash ;;
  go_ret (match r with
          | inl snap => s_VerSet snap
          | inr _ => NewVerifierSet [] (cfg_ProposerPolicy config)
          end).

Definition ParentVerifiers (depth : nat) (block : BlockHeader) : GoM SrvState Empty_set basicSet :=
  getVerifiers depth (u64 (h_Height block - 1)) (h_PreviousBlockHash block).

(** [Verify] of a block whose transactions have the root [txnHash]; the duration
    is in seconds. *)
Definition Verify (depth : nat) (header : BlockHeader) (txnHash : Hash) : SrvM Z :=
  if negb (bool_decide (txnHash = h_TxHash header)) then try_err errMismatchTxhashes
  else
    r <- VerifyHeader depth header ;;
    match r with
    | inl _ => try_ret 0
    | inr errEmptyCommittedSeals => try_ret 0
    | inr err => try_err err
    end.

(** [None] is a nil proposal. *)
Definition LastProposal (current : BlockHeader) : GoM SrvState Empty_set (option BlockHeader * Address) :=
  if 0 <? h_Height current then
    r <- extractAccount current ;;
    go_ret (match r with
            | inl proposer => (Some current, proposer)
            | inr _ => (None, EmptyAddress)
            end)
  else go_ret (Some current, EmptyAddress).

Definition srv_GetProposer_of (height : Z) : GoM SrvState Empty_set Address :=
  match ch_GetHeaderByHeight chain height with
  | Some h =>
      r <- extractAccount h ;;
      go_ret (match r with inl a => a | inr _ => EmptyAddress end)
  | None => go_ret EmptyAddress
  end.

(** [Commit]: the block with its seals goes to the commit channel; the hash it is
    compared with was set to its own in the line before. *)
Definition Commit (header : BlockHeader) (seals : list bytes) : BlockHeader + SrvError :=
  match writeCommittedSeals header seals with
  | inr err => inr err
  | inl h =>
      let block := Clone h in
      let proposedBlockHash := header_Hash h in
      if bool_decide (proposedBlockHash = header_Hash h) then inl block
      else inr errProposalInvalid
  end.

(** ** Preparing a block: [engine.go], [verifier.go] *)

Fixpoint ContainVer (addres : list Address) (ver : Address) (i : Z) : Z * bool :=
  match addres with
  | [] => (-1, false)
  | a :: l => if bool_decide (ver = a) then (i, true) else ContainVer l ver (i + 1)
  end.

Fixpoint GetCurrentVerifiers (verset : list Address) (cands : list (Address * bool)) : list Address :=
  match cands with
  | [] => verset
  | (a, auth) :: l =>
      GetCurrentVerifiers
        (if auth && negb (ContainVer verset a 0).2 then verset ++ [a] else verset) l
  end.

Definition set_prepared (h : BlockHeader) (creator : Address) (witness : bytes) (extra : bytes)
    (ts : Z) : BlockHeader :=
  mkHeader (h_PreviousBlockHash h) creator (h_StateHash h) (h_TxHash h) (h_ReceiptHash h)
    (h_TxDebtHash h) (h_DebtHash h) (Some defaultDifficulty) (h_Height h) (Some ts)
    witness (h_SecondWitness h) BftConsensus extra.

(** [Prepare]: [candidates] are the proposed changes in the order the map lists
    them, [pick] is [rand.Intn]. *)
Definition Prepare (depth : nat) (address : Address) (candidates : list (Address * bool))
    (pick : nat -> nat) (header : BlockHeader) : SrvM BlockHeader :=
  match ch_GetHeaderByHash chain (h_PreviousBlockHash header) with
  | None => try_err ErrBlockInvalidParentHash
  | Some parent =>
      snap <-? snapshot depth (u64 (h_Height header - 1)) (h_PreviousBlockHash header) ;;
      let valid := List.filter (fun c : Address * bool => checkVote snap c.1 c.2) candidates in
      let '(creator, witness) :=
        match nth_error valid (pick (length valid)) with
        | Some (a, auth) => (a, if auth then nonceAuthVote else nonceDropVote)
        | None => (address, replicate WitnessSize 0)
        end in
      extra <-? try_of (prepareExtra header (snap_verifiers snap)) ;;
      pts <-? try_deref (h_CreateTimestamp parent) ;;
      let ts := pts + cfg_BlockPeriod config in
      try_ret (set_prepared header creator witness extra (if i64 ts <? now then now else ts))
  end.
End engine.

(** ** Messages of the peers: [handler_server.go] and [Gossip] *)

(** The key of [recentMessages] is an [interface{}]: [HandleMsg] looks a hash up
    and adds an address. *)
Inductive recent_key : Type := ByHash (h : Hash) | ByAddr (a : Address).

#[export] Instance recent_key_eq_dec : EqDecision recent_key.
Proof. solve_decision. Defined.

#[export] Instance recent_key_countable : Countable recent_key.
Proof.
  apply (inj_countable' (fun k => match k with ByHash h => inl h | ByAddr a => inr a end)
    (fun s => match s with inl h => ByHash h | inr a => ByAddr a end)).
  by intros [].
Defined.

Record PeerState := mkPeerState {
  ps_coreStarted : bool;
  ps_recentMessages : gmap recent_key (gset Hash);
  ps_knownMessages : gset Hash
}.

Inductive PeerOutput : Type :=
| PostMessage (payload : bytes)
| PostFinalCommitted
| SendTo (addr : Address) (payload : bytes).

Inductive PeerError : Type := ErrEngineStopped | errDecodeFailed.

Definition bftMsg : Z := 17.

Section peers.
(** The caches are ARC caches; [Deserialize] and [HashBytes] come from [common]
    and [crypto], [FindPeers] from the protocol manager. *)
Context (known_Add : gset Hash -> Hash -> gset Hash).
Context (recent_Add : gmap recent_key (gset Hash) -> recent_key -> gset Hash -> gmap recent_key (gset Hash)).
Context (Deserialize : bytes -> option bytes) (HashBytes : bytes -> Hash).
Context (FindPeers : list Address -> list Address).

Abbreviation PeerM A := (GoM PeerState PeerOutput A).

Definition remember (key : recent_key) (m : gset Hash) : PeerM unit :=
  go_modify (fun st => mkPeerState (ps_coreStarted st) (recent_Add (ps_recentMessages st) key m)
                         (ps_knownMessages st)).

Definition know (hash : Hash) : PeerM unit :=
  go_modify (fun st => mkPeerState (ps_coreStarted st) (ps_recentMessages st)
                         (known_Add (ps_knownMessages st) hash)).

(** The set found under the hash is shared with the cache, so adding to it
    changes the cached one; a new set is cached before the hash is added to it,
    and shared as well. *)
Definition HandleMsg (addr : Address) (code : Z) (payload : bytes)
    : PeerM (bool * option PeerError) :=
  if code =? bftMsg then
    st <- go_get ;;
    if negb (ps_coreStarted st) then go_ret (true, Some ErrEngineStopped)
    else
      match Deserialize payload with
      | None => go_ret (true, Some errDecodeFailed)
      | Some data =>
          let hash := HashBytes data in
          (match ps_recentMessages st !! ByHash hash with
           | Some m =>
               go_modify (fun st => mkPeerState (ps_coreStarted st)
                 (<[ByHash hash := known_Add m hash]> (ps_recentMessages st)) (ps_knownMessages st))
           | None => remember (ByAddr addr) (known_Add ∅ hash)
           end) ;;;
          if bool_decide (hash ∈ ps_knownMessages st) then go_ret (true, None)
          else
            know hash ;;;
            go_emit (PostMessage data) ;;;
            go_ret (true, None)
      end
  else go_ret (false, None).

Definition HandleNewChainHead : PeerM (option PeerError) :=
  st <- go_get ;;
  if negb (ps_coreStarted st) then go_ret (Some ErrEngineStopped)
  else go_emit PostFinalCommitted ;;; go_ret None.

Fixpoint gossip_to (hash : Hash) (payload : bytes) (peers : list Address) : PeerM unit :=
  match peers with
  | [] => go_ret tt
  | addr :: l =>
      st <- go_get ;;
      let m := default ∅ (ps_recentMessages st !! ByAddr addr) in
      if bool_decide (hash ∈ m) then gossip_to hash payload l
      else
        remember (ByAddr addr) (known_Add m hash) ;;;
        go_emit (SendTo addr payload) ;;;
        gossip_to hash payload l
  end.

Definition Gossip (self : Address) (verSet : basicSet) (has_broadcaster : bool) (payload : bytes)
    : PeerM unit :=
  let hash := HashBytes payload in
  know hash ;;;
  let targets := List.filter (fun a => negb (bool_decide (a = self))) (bs_verifiers verSet) in
  if has_broadcaster && negb (length targets =? 0)%nat
  then gossip_to hash payload (FindPeers targets)
  else go_ret tt.

Definition Broadcast (self : Address) (verSet : basicSet) (has_broadcaster : bool) (payload : bytes)
    : PeerM unit :=
  Gossip self verSet has_broadcaster payload ;;;
  go_emit (PostMessage payload).
End peers.

(** ** Lemmas *)

(** A [try_bind] step of a run that succeeds. *)
Lemma try_bind_inl {A B} (m : SrvM A) (k : A -> SrvM B) st b st' o :
  try_bind m k st = Some (inl b, st', o) ->
  exists a st1, m st = Some (inl a, st1, []) /\ k a st1 = Some (inl b, st', []).
Proof.
  unfold try_bind, go_bind. destruct (m st) as [[[[a|e] st1] o1]|]; [| |done].
  - destruct (k a st1) as [[[b' st2] o2]|] eqn:Hk; [|done]. intros [= -> -> _]. exists a, st1.
    destruct o1 as [|[]], o2 as [|[]]. done.
  - cbn. done.
Qed.

Lemma go_ret_inv {S O A} (a b : A) (st st' : S) (o : list O) :
  go_ret a st = Some (b, st', o) -> a = b /\ st = st' /\ o = [].
Proof. unfold go_ret. by intros [= -> -> <-]. Qed.

Lemma go_bind_first {S A B} (m : GoM S Empty_set A) (k : A -> GoM S Empty_set B) st x st1 b st' :
  m st = Some (x, st1, []) -> go_bind m k st = Some (b, st', []) -> k x st1 = Some (b, st', []).
Proof. unfold go_bind. intros ->. by destruct (k x st1) as [[[? ?] [|[]]]|]. Qed.

Lemma try_deref_inl {A} (x : option A) a st st' o :
  try_deref x st = Some (inl a, st', o) -> x = Some a /\ st' = st.
Proof.
  unfold try_deref, go_bind, go_deref, go_ret, go_panic. destruct x; [|done].
  intros Heq. injection Heq as -> -> _. done.
Qed.

Section engine_lemmas.
Context `{HeaderCodec, ArcCache, ServerCodec}.

(** The signers of the seals are, with their multiplicity, verifiers. *)
Definition seal_signers (data : bytes) (seals : list bytes) (addrs : list Address) : Prop :=
  Forall2 (fun seal a => GetSignatureAddress data seal = Some a) seals addrs.

Lemma count_seals_spec data seals vs n m :
  count_seals data seals vs n = inl m <->
  exists addrs, seal_signers data seals addrs /\ addrs ⊆+ bs_verifiers vs
    /\ m = n + Z.of_nat (length addrs).
Proof.
  revert vs n; induction seals as [|seal seals IH]; intros vs n; cbn [count_seals].
  { split.
    - intros [= ->]. exists []. split; [constructor|]. split; [apply submseteq_nil_l|]. cbn. lia.
    - intros (addrs & Hs & _ & ->). inversion Hs; subst. cbn. f_equal. lia. }
  destruct (GetSignatureAddress data seal) as [addr|] eqn:Hsig.
  2:{ split; [done|]. intros (addrs & Hs & _). inversion Hs; subst. congruence. }
  pose proof (RemoveVerifier_cases vs addr) as Hc.
  destruct (RemoveVerifier vs addr) as [vs' []].
  - destruct Hc as (_ & Hp & _). rewrite IH. split.
    + intros (addrs & Hs & Hsub & ->). exists (addr :: addrs). split; [by constructor|].
      split; [rewrite Hp; by apply submseteq_skip|]. cbn [length]. lia.
    + intros (addrs & Hs & Hsub & ->). inversion Hs as [|? a ? addrs' Ha Hs']; subst.
      assert (a = addr) as -> by congruence. exists addrs'. split; [done|].
      rewrite Hp in Hsub. apply submseteq_app_inv_l with (k := [addr]) in Hsub.
      split; [done|]. cbn [length]. lia.
  - destruct Hc as [Hn _]. split; [done|]. intros (addrs & Hs & Hsub & _).
    inversion Hs as [|? a ? addrs' Ha Hs']; subst. destruct Hn.
    assert (a = addr) as -> by congruence. eapply elem_of_submseteq; [|exact Hsub]. left.
Qed.

Lemma Copy_perm vs : bs_verifiers (Copy vs) ≡ₚ bs_verifiers vs.
Proof. apply sort_verifiers_perm. Qed.

(** The seals of the header are accepted by a verifier set. *)
Definition seals_accepted (vs : basicSet) (header : BlockHeader) : Prop :=
  exists extra addrs, ExtractBftExtra header = inl extra /\ be_CommittedSeal extra <> []
    /\ seal_signers (PrepareCommittedSeal (header_Hash header)) (be_CommittedSeal extra) addrs
    /\ addrs ⊆+ bs_verifiers vs /\ 2 * F vs <= Z.of_nat (length addrs).

Lemma verifyCommittedSeals_accepts ts header st st1 snap :
  h_Height header <> 0 ->
  ts (u64 (h_Height header - 1)) (h_PreviousBlockHash header) st = Some (inl snap, st1, []) ->
  verifyCommittedSeals_with ts header st = Some (inl tt, st1, [])
  <-> seals_accepted (s_VerSet snap) header.
Proof.
  intros Hh Hts. unfold verifyCommittedSeals_with.
  destruct (Z.eqb_spec (h_Height header) 0); [done|].
  unfold try_bind at 1, go_bind at 1. rewrite Hts. unfold seals_accepted, try_of.
  destruct (ExtractBftExtra header) as [extra|err]; cbn.
  2:{ split; [done|]. by intros (? & ? & ? & _). }
  destruct (Nat.eqb_spec (length (be_CommittedSeal extra)) 0) as [Hz|Hz].
  { split; [done|]. intros (? & ? & [= <-] & Hne & _). by destruct (be_CommittedSeal extra). }
  destruct (count_seals _ _ _ 0) as [m|err] eqn:Hc; cbn.
  - apply count_seals_spec in Hc as (addrs & Hs & Hsub & ->). rewrite Copy_perm in Hsub.
    destruct (Z.ltb_spec (0 + Z.of_nat (length addrs)) (2 * F (s_VerSet snap))); cbn.
    + split; [done|]. intros (? & addrs' & [= <-] & _ & Hs' & _ & Hl).
      apply Forall2_length in Hs, Hs'. lia.
    + split; [|done]. intros _. exists extra, addrs. split; [done|].
      split; [by intros Hn; rewrite Hn in Hz|]. split; [done|]. split; [done|lia].
  - split; [done|]. intros (? & addrs & [= <-] & _ & Hs & Hsub & _). exfalso.
    assert (Hok : count_seals (PrepareCommittedSeal (header_Hash header)) (be_CommittedSeal extra)
      (Copy (s_VerSet snap)) 0 = inl (0 + Z.of_nat (length addrs))).
    { apply count_seals_spec. exists addrs. split; [done|]. by rewrite Copy_perm. }
    congruence.
Qed.
End engine_lemmas.

Lemma change_verifiers_spec vs sw :
  verSet_wf vs -> Forall wf_address (sw_DepositVers sw) ->
  verSet_wf (change_verifiers vs sw)
  /\ forall a, is_verifier (change_verifiers vs sw) a <->
       (is_verifier vs a \/ a ∈ sw_DepositVers sw) /\ a ∉ sw_ExitVers sw.
Proof.
  intros Hwf Hdep. unfold change_verifiers.
  assert (Hadd : forall l vs, verSet_wf vs -> Forall wf_address l ->
    let vs' := fold_left (fun vs a => (AddVerifier vs a).1) l vs in
    verSet_wf vs' /\ forall a, is_verifier vs' a <-> is_verifier vs a \/ a ∈ l).
  { clear. induction l as [|x l IH]; intros vs Hwf Hl; cbn.
    { split; [done|]. intros a. rewrite elem_of_nil. tauto. }
    apply Forall_cons in Hl as [Hx Hl].
    destruct (IH (AddVerifier vs x).1) as [Hw Hm]; [by apply AddVerifier_keeps_wf|done|].
    split; [done|]. intros a. rewrite Hm, AddVerifier_mem, elem_of_cons. tauto. }
  assert (Hrem : forall l vs, verSet_wf vs ->
    let vs' := fold_left (fun vs a => (RemoveVerifier vs a).1) l vs in
    verSet_wf vs' /\ forall a, is_verifier vs' a <-> is_verifier vs a /\ a ∉ l).
  { clear. induction l as [|x l IH]; intros vs Hwf; cbn.
    { split; [done|]. intros a. rewrite elem_of_nil. tauto. }
    destruct (IH (RemoveVerifier vs x).1) as [Hw Hm]; [by apply RemoveVerifier_keeps_wf|].
    split; [done|]. intros a. rewrite Hm, RemoveVerifier_mem, not_elem_of_cons by done. tauto. }
  destruct (Hadd (sw_DepositVers sw) vs Hwf Hdep) as [Hw1 Hm1].
  destruct (Hrem (sw_ExitVers sw) _ Hw1) as [Hw2 Hm2]. split; [done|].
  intros a. rewrite Hm2, Hm1. tauto.
Qed.

Section accepted.
Context `{HeaderCodecLaws, ArcCacheLaws, ServerCodec}.
Context (config : BFTConfig) (chain : Chain) (now : Z).

Lemma verifyHeaderCommon_inl header st st' :
  verifyHeaderCommon now header st = Some (inl tt, st', []) ->
  st' = st /\ h_Consensus header = BftConsensus
  /\ (exists ts, h_CreateTimestamp header = Some ts /\ ts <= now)
  /\ (exists e, ExtractBftExtra header = inl e)
  /\ (h_Height header <> 0 -> h_Witness header = nonceAuthVote \/ h_Witness header = nonceDropVote)
  /\ h_Difficulty header = Some defaultDifficulty.
Proof.
  unfold verifyHeaderCommon. destruct (Z.eqb_spec (h_Consensus header) BftConsensus); [|done].
  cbn [negb]. intros (ts & st1 & [Hts ->]%try_deref_inl & Hk)%try_bind_inl.
  destruct (Z.ltb_spec now ts); [done|].
  destruct (ExtractBftExtra header) as [e'|] eqn:He; [|done].
  destruct (negb (h_Height header =? 0) && _ && _) eqn:Hw; [done|].
  apply try_bind_inl in Hk as (d & st1 & [Hd ->]%try_deref_inl & Hk).
  destruct (Z.eqb_spec d defaultDifficulty) as [->|]; [|done].
  apply go_ret_inv in Hk as (_ & -> & _). split; [done|]. split; [done|]. split; [eauto|].
  split; [eauto|]. split; [|done]. intros Hh.
  destruct (Z.eqb_spec (h_Height header) 0); [done|]. cbn in Hw.
  destruct (decide (h_Witness header = nonceAuthVote)); [by left|].
  destruct (decide (h_Witness header = nonceDropVote)); [by right|].
  by rewrite !bool_decide_false in Hw.
Qed.

(** The creator of the header is a verifier of the snapshot. *)
Definition creator_authorized (snap : Snapshot) (header : BlockHeader) : Prop :=
  exists creator, recover_creator header = inl creator /\ is_verifier (s_VerSet snap) creator.

(** Where a snapshot comes from: the recent ones under the hash, the header of the height, or, when that
    has a challenge, the database. *)
Inductive snapshot_source (st : SrvState) (height : Z) (hash : Hash) : Snapshot -> Prop :=
| src_recent snap : recents st !! hash = Some snap -> snapshot_source st height hash snap
| src_genesis g e :
    height = 0 -> ch_GetHeaderByHeight chain 0 = Some g -> ExtractBftExtra g = inl e ->
    snapshot_source st height hash (newSnapshot (cfg_Epoch config) 0 (header_Hash g)
      (NewVerifierSet (be_Verifiers e) (cfg_ProposerPolicy config)))
| src_header h e sw :
    height <> 0 -> ch_GetHeaderByHeight chain height = Some h -> ExtractBftExtra h = inl e ->
    decode_sw (drop BftExtraVanity (h_SecondWitness h)) = Some sw ->
    snapshot_source st height hash (newSnapshot (cfg_Epoch config) height (header_Hash h)
      (change_verifiers (NewVerifierSet (be_Verifiers e) (cfg_ProposerPolicy config)) sw))
| src_stored h sw r blob j :
    height <> 0 -> ch_GetHeaderByHeight chain height = Some h ->
    decode_sw (drop BftExtraVanity (h_SecondWitness h)) = Some sw -> sw_ChallengedTxs sw <> 0%nat ->
    ch_GetHeaderByHeight chain (revert_height height) = Some r ->
    srv_db st !! (dbKeySnapshotPrefix ++ header_Hash r) = Some blob -> json_Unmarshal blob = Some j ->
    snapshot_source st height hash (mkSnapshot (cfg_Epoch config) (s_Height (fromJSONStruct j)) (s_Hash (fromJSONStruct j))
      (s_Votes (fromJSONStruct j)) (s_Tally (fromJSONStruct j)) (s_VerSet (fromJSONStruct j))).

Lemma fresh_snapshot_source vg height hash st snap st' :
  fresh_snapshot config chain vg height st = Some (inl snap, st', []) -> snapshot_source st height hash snap.
Proof.
  unfold fresh_snapshot. destruct (Z.eqb_spec height 0) as [->|Hh].
  - intros (g & st1 & [Hg ->]%try_deref_inl & Hk)%try_bind_inl. apply try_bind_inl in Hk as (_ & st2 & _ & Hk).
    apply try_bind_inl in Hk as (e & st3 & (He & _)%go_ret_inv & Hk). apply try_bind_inl in Hk as (_ & st4 & _ & Hk).
    apply go_ret_inv in Hk as ([= <-] & _). by eapply src_genesis.
  - intros (h & st1 & [Hg ->]%try_deref_inl & Hk)%try_bind_inl.
    apply try_bind_inl in Hk as (e & st3 & (He & <- & _)%go_ret_inv & Hk).
    apply try_bind_inl in Hk as (sw & st4 & Hsw & Hk).
    assert (Hdec : decode_sw (drop BftExtraVanity (h_SecondWitness h)) = Some sw /\ st4 = st).
    { revert Hsw. unfold ExtractSecondWitnessInfo. destruct (_ <? _)%nat; [done|]. destruct (_ <? _)%nat; [done|].
      destruct (decode_sw _) as [x|]; [|done]. by intros ([= <-] & <- & _)%go_ret_inv. }
    destruct Hdec as [Hdec ->].
    assert (Huse : forall st5, (r <-? snap_save (set_VerSet (newSnapshot (cfg_Epoch config) height (header_Hash h)
        (NewVerifierSet (be_Verifiers e) (cfg_ProposerPolicy config))) (change_verifiers (NewVerifierSet (be_Verifiers e) (cfg_ProposerPolicy config)) sw)) ;;
        try_ret (set_VerSet (newSnapshot (cfg_Epoch config) height (header_Hash h)
        (NewVerifierSet (be_Verifiers e) (cfg_ProposerPolicy config))) (change_verifiers (NewVerifierSet (be_Verifiers e) (cfg_ProposerPolicy config)) sw))) st5
        = Some (inl snap, st', []) -> snapshot_source st height hash snap).
    { intros st5 (_ & st6 & _ & ([= <-] & _)%go_ret_inv)%try_bind_inl. by eapply src_header. }
    destruct (Nat.eqb_spec (sw_ChallengedTxs sw) 0) as [|Hch]; [by eapply Huse|].
    apply try_bind_inl in Hk as (r & st5 & [Hr ->]%try_deref_inl & Hk).
    assert (Hret : exists x, retrieveSnapshot (cfg_Epoch config) (header_Hash r) st = Some (x, st, [])
      /\ forall s, x = inl s -> snapshot_source st height hash s).
    { unfold retrieveSnapshot, go_bind, go_get.
      destruct (srv_db st !! (dbKeySnapshotPrefix ++ header_Hash r)) as [blob|] eqn:Hb; [destruct (json_Unmarshal blob) as [j|] eqn:Hj|];
        (eexists; split; [reflexivity|]); intros s [= <-]. by eapply src_stored. }
    destruct Hret as (x & Hret & Hx). apply (go_bind_first _ _ _ _ _ _ _ Hret) in Hk.
    destruct x as [s|err]; [|by eapply Huse]. apply go_ret_inv in Hk as ([= <-] & _). by apply Hx.
Qed.

(** The snapshot is then the most recent one under its own hash. *)
Lemma snapshot_with_source vg height hash st snap st' :
  snapshot_with config chain vg height hash st = Some (inl snap, st', []) ->
  snapshot_source st height hash snap /\ recents st' !! s_Hash snap = Some snap.
Proof.
  unfold snapshot_with. intros Hk%(go_bind_first go_get _ st st st _ _ eq_refl).
  apply try_bind_inl in Hk as (s0 & st1 & Hs0 & Hk).
  apply try_bind_inl in Hk as (s1 & st2 & Happ & Hk).
  unfold applyHeaders in Happ. apply go_ret_inv in Happ as ([= <-] & <- & _).
  unfold go_bind, go_modify, try_ret, go_ret in Hk. injection Hk as <- <-. cbn [recents]. split; [|apply arc_Add_new].
  destruct (recents st !! hash) as [s|] eqn:Hr; [|by eapply fresh_snapshot_source].
  apply go_ret_inv in Hs0 as ([= <-] & _). by apply src_recent.
Qed.

(** A snapshot that is recent is the answer. *)
Lemma snapshot_with_recent vg height hash st snap snap' st' :
  recents st !! hash = Some snap' -> snapshot_with config chain vg height hash st = Some (inl snap, st', []) -> snap = snap'.
Proof.
  intros Hr. unfold snapshot_with, go_bind at 1, go_get at 1. rewrite Hr.
  unfold try_bind, go_bind, try_ret, go_ret, applyHeaders, go_modify. cbn. congruence.
Qed.

(** The snapshot function keeps the cache of the signers right. *)
Definition keeps_cache (ts : snapshot_fn) : Prop :=
  forall n h st r st' o, cache_ok st -> ts n h st = Some (r, st', o) -> cache_ok st'.

Lemma verifySigner_inl ts header st st' :
  keeps_cache ts -> cache_ok st ->
  verifySigner_with ts header st = Some (inl tt, st', []) ->
  exists snap st1, ts (u64 (h_Height header - 1)) (h_PreviousBlockHash header) st = Some (inl snap, st1, [])
    /\ creator_authorized snap header /\ cache_ok st' /\ recents st' = recents st1 /\ srv_db st' = srv_db st1.
Proof.
  intros Hts Hok. unfold verifySigner_with. destruct (_ =? 0); [done|].
  intros (snap & st1 & Hsn & Hk)%try_bind_inl. pose proof (Hts _ _ _ _ _ _ Hok Hsn) as Hok1.
  apply try_bind_inl in Hk as (signer & st2 & Hex & Hk).
  pose proof (wp_run _ _ _ _ _ _ (extractAccount_spec header st1 Hok1) Hex) as (Hr & Hok2 & Hrec & Hdb).
  destruct (GetVerByAddress (s_VerSet snap) signer).2 as [v|] eqn:Hg; [|done].
  apply GetVerByAddress_Some in Hg as [_ Hv]. apply go_ret_inv in Hk as (_ & <- & _).
  exists snap, st1. split; [done|]. split; [by exists signer|done].
Qed.

(** What an accepted header has been checked for. *)
Record header_accepted (header parent : BlockHeader) : Prop := {
  ha_consensus : h_Consensus header = BftConsensus;
  ha_difficulty : h_Difficulty header = Some defaultDifficulty;
  ha_witness : h_Witness header = nonceAuthVote \/ h_Witness header = nonceDropVote;
  ha_time : exists pts t, h_CreateTimestamp parent = Some pts /\ h_CreateTimestamp header = Some t
    /\ t <= now /\ u64 (u64 pts + cfg_BlockPeriod config) <= u64 t
}.

(** The three snapshots that the run takes one after the other, the signer and the seals being
    checked against the second and the third. *)
Record snapshots_taken (ts : snapshot_fn) (header : BlockHeader) (st st' : SrvState) (snap1 snap2 snap3 : Snapshot) : Prop := {
  sn_run : exists st1 st2 st3,
    ts (u64 (h_Height header - 1)) (h_PreviousBlockHash header) st = Some (inl snap1, st1, [])
    /\ ts (u64 (h_Height header - 1)) (h_PreviousBlockHash header) st1 = Some (inl snap2, st2, [])
    /\ recents st3 = recents st2 /\ srv_db st3 = srv_db st2
    /\ ts (u64 (h_Height header - 1)) (h_PreviousBlockHash header) st3 = Some (inl snap3, st', []);
  sn_creator : creator_authorized snap2 header;
  sn_seals : seals_accepted (s_VerSet snap3) header
}.

Lemma verifyHeader_with_inl ts header parents st st' :
  keeps_cache ts -> cache_ok st -> h_Height header <> 0 ->
  verifyHeader_with config chain now ts header parents st = Some (inl tt, st', []) ->
  exists parent, (last parents = Some parent \/
      last parents = None /\ ch_GetHeaderByHash chain (h_PreviousBlockHash header) = Some parent)
    /\ header_accepted header parent /\ exists snap1 snap2 snap3, snapshots_taken ts header st st' snap1 snap2 snap3.
Proof.
  intros Hts Hok Hh. unfold verifyHeader_with.
  intros ([] & st1 & Hcom & Hk)%try_bind_inl.
  apply verifyHeaderCommon_inl in Hcom as (-> & Hcons & (t0 & Ht0 & Hnow) & _ & Hw & Hdif).
  unfold verifyBFTCore_with in Hk. destruct (Z.eqb_spec (h_Height header) 0); [done|].
  apply try_bind_inl in Hk as (parent & st2 & [Hpar ->]%try_deref_inl & Hk).
  apply try_bind_inl in Hk as (pts & st2 & [Hpts ->]%try_deref_inl & Hk).
  apply try_bind_inl in Hk as (t & st2 & [Ht ->]%try_deref_inl & Hk).
  assert (t0 = t) as -> by congruence.
  destruct (Z.ltb_spec (u64 t) (u64 (u64 pts + cfg_BlockPeriod config))); [done|].
  apply try_bind_inl in Hk as (snap & st2 & Hsn & Hk).
  pose proof (Hts _ _ _ _ _ _ Hok Hsn) as Hok2.
  apply try_bind_inl in Hk as ([] & st3 & Hsig & Hk).
  destruct (verifySigner_inl ts header st2 st3 Hts Hok2 Hsig) as (snap1 & st5 & Hp1 & Hc1 & Hok3 & Hrec & Hdb).
  assert (Hseal : exists snap2, ts (u64 (h_Height header - 1)) (h_PreviousBlockHash header) st3 = Some (inl snap2, st', [])
    /\ seals_accepted (s_VerSet snap2) header).
  { pose proof Hk as Hk'. unfold verifyCommittedSeals_with in Hk'.
    destruct (Z.eqb_spec (h_Height header) 0); [done|].
    apply try_bind_inl in Hk' as (snap2 & st4 & Hsn2 & Hk').
    assert (st' = st4) as ->.
    { apply try_bind_inl in Hk' as (extra & st6 & Hx & Hk').
      apply go_ret_inv in Hx as (_ & <- & _). destruct (_ =? 0)%nat; [done|].
      apply try_bind_inl in Hk' as (cnt & st6 & Hx & Hk').
      apply go_ret_inv in Hx as (_ & <- & _). destruct (_ <? _); [done|].
      by apply go_ret_inv in Hk' as (_ & -> & _). }
    exists snap2. split; [done|].
    by apply (verifyCommittedSeals_accepts ts header st3 st4 snap2). }
  exists parent. split; [destruct (last parents); naive_solver|].
  split; [constructor; eauto 10|]. destruct Hseal as (snap2 & Hp2 & Hs2). exists snap, snap1, snap2.
  constructor; [|done|done]. by exists st2, st5, st3.
Qed.
End accepted.

(** ** The cache of the signers is kept right by everything the server runs *)

Section cache_kept.
Context `{HeaderCodecLaws, ArcCacheLaws, ServerCodec}.
Context (config : BFTConfig) (chain : Chain) (now : Z).

Definition cache_kept {A} (m : GoM SrvState Empty_set A) : Prop :=
  forall st r st' o, cache_ok st -> m st = Some (r, st', o) -> cache_ok st'.

Lemma kept_ret {A} (a : A) : cache_kept (go_ret a).
Proof. intros st r st' o Hok (_ & -> & _)%go_ret_inv. done. Qed.

Lemma kept_panic {A} : cache_kept (@go_panic SrvState Empty_set A).
Proof. by intros st r st' o. Qed.

Lemma kept_bind {A B} (m : GoM SrvState Empty_set A) (k : A -> GoM SrvState Empty_set B) :
  cache_kept m -> (forall a, cache_kept (k a)) -> cache_kept (go_bind m k).
Proof.
  intros Hm Hk st r st' o Hok. unfold go_bind. destruct (m st) as [[[a st1] o1]|] eqn:E1; [|done].
  destruct (k a st1) as [[[b st2] o2]|] eqn:E2; [|done]. intros [= <- <- _].
  eapply Hk; [|exact E2]. by eapply Hm.
Qed.

Lemma kept_try {A B} (m : SrvM A) (k : A -> SrvM B) :
  cache_kept m -> (forall a, cache_kept (k a)) -> cache_kept (try_bind m k).
Proof. intros Hm Hk. apply kept_bind; [done|]. intros [a|e]; [apply Hk|apply kept_ret]. Qed.

Lemma kept_get {B} (k : SrvState -> GoM SrvState Empty_set B) :
  (forall st, cache_kept (k st)) -> cache_kept (go_bind go_get k).
Proof. intros Hk. apply kept_bind; [|done]. intros st r st' o Hok [= _ <- _]. done. Qed.

Lemma kept_modify (f : SrvState -> SrvState) :
  (forall st, cachedAddrs (f st) = cachedAddrs st) -> cache_kept (go_modify f).
Proof. intros Hf st r st' o Hok [= _ <- _] h a Hl. rewrite Hf in Hl. by apply Hok. Qed.

Lemma kept_deref {A} (x : option A) : cache_kept (try_deref x).
Proof.
  unfold try_deref. apply kept_bind; [|intros a; apply kept_ret].
  destruct x; [apply kept_ret|apply kept_panic].
Qed.

Lemma kept_extractAccount h : cache_kept (extractAccount h).
Proof.
  intros st r st' o Hok Hrun.
  by pose proof (wp_run _ _ _ _ _ _ (extractAccount_spec h st Hok) Hrun) as (_ & ? & _).
Qed.

Ltac kept_step :=
  first
    [ apply kept_ret | apply kept_panic | apply kept_deref | apply kept_extractAccount
    | apply kept_get; intros ? | apply kept_try; [|intros ?] | apply kept_bind; [|intros ?]
    | apply kept_modify; done | case_match ].

Ltac kept := repeat kept_step.

Lemma kept_save s : cache_kept (snap_save s).
Proof. unfold snap_save, try_err, try_ret. kept. Qed.

Lemma kept_retrieve e h : cache_kept (retrieveSnapshot e h).
Proof. unfold retrieveSnapshot, try_err, try_ret. kept. Qed.

Lemma kept_fresh vg height :
  (forall g, cache_kept (vg g)) -> cache_kept (fresh_snapshot config chain vg height).
Proof.
  intros Hvg. unfold fresh_snapshot, ExtractSecondWitnessInfo, try_of, try_ret, try_err.
  repeat first [apply Hvg | apply kept_save | apply kept_retrieve | kept_step].
Qed.

Lemma kept_snapshot_with vg :
  (forall g, cache_kept (vg g)) -> keeps_cache (snapshot_with config chain vg).
Proof.
  intros Hvg n h. unfold snapshot_with. change (cache_kept (
    st <- go_get ;;
    snap <-? match recents st !! h with
             | Some s => try_ret s
             | None => fresh_snapshot config chain vg n
             end ;;
    snap <-? applyHeaders snap [] ;;
    go_modify (fun st => mkSrvState (cachedAddrs st) (arc_Add (recents st) (s_Hash snap) snap)
                           (srv_db st)) ;;;
    try_ret snap)).
  apply kept_get; intros st. apply kept_try; [|intros snap].
  - destruct (recents st !! h); [apply kept_ret|by apply kept_fresh].
  - unfold applyHeaders, try_ret. kept.
Qed.

Lemma kept_verifyHeader depth : forall g parents, cache_kept (verifyHeader config chain now depth g parents).
Proof.
  induction depth as [|depth IH]; intros g parents; cbn [verifyHeader]; [apply kept_panic|].
  assert (Hts : keeps_cache (snapshot_with config chain (fun g => verifyHeader config chain now depth g [])))
    by (apply kept_snapshot_with; auto).
  assert (Hsn : forall n h, cache_kept
    (snapshot_with config chain (fun g => verifyHeader config chain now depth g []) n h)).
  { intros n h st r st' o. apply Hts. }
  unfold verifyHeader_with, verifyHeaderCommon, verifyBFTCore_with, verifySigner_with,
    verifyCommittedSeals_with, try_of, try_ret, try_err.
  repeat first [apply Hsn | kept_step].
Qed.
End cache_kept.

(** ** Properties *)

(** The seal check accepts a header exactly when it has committed seals,
    every seal recovers to an address, these addresses are verifiers of the
    snapshot of the parent counted with multiplicity, and there are at least
    2F of them. *)
Theorem verifyCommittedSeals_spec `{HeaderCodec, ArcCache, ServerCodec}
    (ts : snapshot_fn) (header : BlockHeader) (st st1 : SrvState) (snap : Snapshot) :
  h_Height header <> 0 ->
  ts (u64 (h_Height header - 1)) (h_PreviousBlockHash header) st = Some (inl snap, st1, []) ->
  (verifyCommittedSeals_with ts header st = Some (inl tt, st1, [])
   <-> exists extra addrs, ExtractBftExtra header = inl extra /\ be_CommittedSeal extra <> []
         /\ Forall2 (fun seal a => GetSignatureAddress (PrepareCommittedSeal (header_Hash header)) seal
                                   = Some a) (be_CommittedSeal extra) addrs
         /\ addrs ⊆+ bs_verifiers (s_VerSet snap)
         /\ 2 * F (s_VerSet snap) <= Z.of_nat (length addrs)).
Proof. apply verifyCommittedSeals_accepts. Qed.


(** An example: six verifiers, and a block of height 2 with two committed seals. *)
Definition example_server_codec : ServerCodec := {|
  decode_sw b := Some (mkSWInfo 0 (if (length b =? 20)%nat then [b] else []) []);
  json_Marshal j := Some [j_Number j];
  json_Unmarshal b := None;
  db_Put_fails k := false
|}.

Definition example_config : BFTConfig := mkBFTConfig 5 RoundRobin 1024.

Definition example_block (height ts : Z) (prev : Hash) (deposit : bytes) (seal : bytes)
    (committed : list bytes) : BlockHeader :=
  mkHeader prev (example_addr 9) [3] [4] [5] [6] [7] (Some 1) height (Some ts) nonceDropVote
    (replicate 32 0 ++ deposit) BftConsensus
    (replicate 32 0 ++ default [] (@encode_extra example_header_codec
       (mkBftExtra (map example_addr [1; 2; 3; 4; 5; 6]) seal committed))).

Definition example_parent : BlockHeader := example_block 1 100 [0] (example_addr 8) (example_addr 1) [].

Definition example_child : BlockHeader :=
  example_block 2 110 (@header_Hash example_header_codec example_parent) [] (example_addr 8)
    [example_addr 2; example_addr 3].

Definition example_chain : Chain :=
  mkChain (fun n => if n =? 1 then Some example_parent else None)
          (fun h => if bool_decide (h = @header_Hash example_header_codec example_parent)
                    then Some example_parent else None).

Definition example_snapshot_fn : snapshot_fn :=
  @snapshot example_header_codec example_arc example_server_codec example_config example_chain 200 1.

Lemma verifyCommittedSeals_spec_witness :
  exists snap st1, example_snapshot_fn 1 (h_PreviousBlockHash example_child) example_state
      = Some (inl snap, st1, [])
    /\ @verifyCommittedSeals_with example_header_codec example_snapshot_fn example_child example_state
      = Some (inl tt, st1, [])
    /\ F (s_VerSet snap) = 1.
Proof.
  destruct (example_snapshot_fn 1 (h_PreviousBlockHash example_child) example_state)
    as [[[[snap|err] st1] o]|] eqn:Hrun.
  2-3: exfalso; assert (Hc : match example_snapshot_fn 1 (h_PreviousBlockHash example_child) example_state with
    | Some (inl _, _, _) => true | _ => false end = true) by (vm_compute; reflexivity);
    rewrite Hrun in Hc; discriminate.
  destruct o as [|[]].
  assert (Hc : match example_snapshot_fn 1 (h_PreviousBlockHash example_child) example_state with
    | Some (inl s, _, _) => bool_decide (bs_verifiers (s_VerSet s)
        = map example_addr [1; 2; 3; 4; 5; 6; 8]) | _ => false end = true)
    by (vm_compute; reflexivity).
  rewrite Hrun in Hc. apply bool_decide_eq_true in Hc.
  exists snap, st1. split; [reflexivity|]. split.
  - apply (@verifyCommittedSeals_spec example_header_codec example_arc example_server_codec
      example_snapshot_fn example_child example_state st1 snap).
    + vm_compute. discriminate.
    + exact Hrun.
    + eexists _, [example_addr 2; example_addr 3]. split; [vm_compute; reflexivity|].
      split; [discriminate|]. split; [repeat constructor|]. rewrite Hc. split.
      * apply sublist_submseteq. do 3 constructor. constructor. apply sublist_nil_l.
      * unfold F, Size. rewrite Hc. vm_compute. discriminate.
  - unfold F, Size. rewrite Hc. vm_compute. reflexivity.
Defined.


(** The snapshot of a block that is not cached and holds no challenge has
    as verifiers those of the extra data of the header and the deposited
    ones, less the exited ones; it is stored in the database under the block
    hash, and satisfies the snapshot invariant with no votes. *)
Theorem snapshot_from_header `{HeaderCodecLaws, ArcCacheLaws, ServerCodec}
    (config : BFTConfig) (chain : Chain) (now : Z) (depth : nat) (st : SrvState)
    (height : Z) (hash : Hash) (h : BlockHeader) (e : BftExtra) (sw : SecondWitnessInfo) :
  (forall j, is_Some (json_Marshal j)) -> (forall k, db_Put_fails k = false) ->
  height <> 0 -> recents st !! hash = None ->
  ch_GetHeaderByHeight chain height = Some h -> ExtractBftExtra h = inl e ->
  (BftExtraVanity <= length (h_SecondWitness h))%nat ->
  decode_sw (drop BftExtraVanity (h_SecondWitness h)) = Some sw -> sw_ChallengedTxs sw = 0%nat ->
  NoDup (be_Verifiers e) -> Forall wf_address (be_Verifiers e) ->
  Forall wf_address (sw_DepositVers sw) ->
  exists snap st', snapshot config chain now depth height hash st = Some (inl snap, st', [])
    /\ s_Height snap = height /\ s_Hash snap = header_Hash h /\ snap_ok snap
    /\ (forall a, is_verifier (s_VerSet snap) a <->
          (a ∈ be_Verifiers e \/ a ∈ sw_DepositVers sw) /\ a ∉ sw_ExitVers sw)
    /\ srv_db st' !! (dbKeySnapshotPrefix ++ header_Hash h) = json_Marshal (toJSONStruct snap).
Proof.
  intros Hjson Hput Hh Hrec Hch He Hlen Hsw Hno Hnd Hwf Hdep.
  destruct (newBasicSet_ok (be_Verifiers e) (cfg_ProposerPolicy config) Hnd Hwf) as [Hvs Hperm].
  destruct (change_verifiers_spec _ sw Hvs Hdep) as [Hwf' Hmem].
  set (snap := newSnapshot (cfg_Epoch config) height (header_Hash h)
    (change_verifiers (NewVerifierSet (be_Verifiers e) (cfg_ProposerPolicy config)) sw)).
  destruct (Hjson (toJSONStruct snap)) as [blob Hblob].
  exists snap. eexists. split.
  - unfold snapshot, snapshot_with, go_bind, go_get. rewrite Hrec.
    unfold fresh_snapshot. destruct (Z.eqb_spec height 0); [done|]. rewrite Hch.
    unfold try_bind, go_bind, try_deref, go_bind, go_deref, go_ret, try_of. cbn [app].
    rewrite He. unfold ExtractSecondWitnessInfo.
    apply ExtractBftExtra_inl in He as [Hle _].
    destruct (Nat.ltb_spec (length (h_ExtraData h)) BftExtraVanity); [lia|].
    destruct (Nat.ltb_spec (length (h_SecondWitness h)) BftExtraVanity); [lia|].
    rewrite Hsw. unfold try_ret, go_ret. rewrite Hno. cbn [Nat.eqb].
    change (set_VerSet _ _) with snap. unfold snap_save. rewrite Hblob, Hput.
    unfold go_bind, go_modify, try_ret, go_ret, applyHeaders. reflexivity.
  - split; [done|]. split; [done|]. split; [by apply newSnapshot_ok|]. split.
    + intros a. etransitivity; [apply Hmem|]. unfold is_verifier. rewrite Hperm. done.
    + cbn. by rewrite lookup_insert_eq.
Qed.

Lemma snapshot_from_header_witness :
  exists snap st', example_snapshot_fn 1 [99] example_state = Some (inl snap, st', [])
    /\ is_verifier (s_VerSet snap) (example_addr 8) /\ ~ is_verifier (s_VerSet snap) (example_addr 9).
Proof.
  destruct (@snapshot_from_header example_header_codec example_header_codec_laws example_arc
    example_arc_laws example_server_codec example_config example_chain 200 1 example_state 1 [99]
    example_parent (mkBftExtra (map example_addr [1; 2; 3; 4; 5; 6]) (example_addr 1) [])
    (mkSWInfo 0 [example_addr 8] [])) as (snap & st' & Hrun & _ & _ & _ & Hmem & _).
  - intros j. eexists. reflexivity.
  - reflexivity.
  - discriminate.
  - reflexivity.
  - reflexivity.
  - vm_compute. reflexivity.
  - vm_compute. lia.
  - vm_compute. reflexivity.
  - reflexivity.
  - apply (bool_decide_unpack _). vm_compute. exact I.
  - apply Forall_forall. intros a Ha. apply list_elem_of_In, in_map_iff in Ha as (n & <- & Hn).
    apply example_addr_wf. unfold is_byte. cbn in Hn. lia.
  - apply Forall_singleton, example_addr_wf. unfold is_byte. lia.
  - exists snap, st'. split; [exact Hrun|]. rewrite !Hmem. split.
    + split; [right; left|apply not_elem_of_nil].
    + intros [[Hin|Hin] _].
      * apply list_elem_of_In in Hin. cbn in Hin. naive_solver.
      * apply list_elem_of_singleton in Hin. discriminate.
Defined.

Lemma HandleMsg_known known_Add recent_Add Deserialize HashBytes addr payload data st :
  ps_coreStarted st = true -> Deserialize payload = Some data ->
  HashBytes data ∈ ps_knownMessages st ->
  exists st', HandleMsg known_Add recent_Add Deserialize HashBytes addr bftMsg payload st
    = Some ((true, None), st', []).
Proof.
  intros Hst Hd Hk. unfold HandleMsg. change (bftMsg =? bftMsg) with true. cbv iota.
  unfold go_bind, go_get. rewrite Hst, Hd. cbn [negb].
  rewrite bool_decide_true by done. unfold remember, go_modify, go_ret. cbn.
  destruct (ps_recentMessages st !! _); eauto.
Qed.

(** A consensus message of a peer is posted to the core exactly when its
    hash is not known, and the same message from any peer is not posted
    again right after. *)
Theorem HandleMsg_posts_once (known_Add : gset Hash -> Hash -> gset Hash)
    (recent_Add : gmap recent_key (gset Hash) -> recent_key -> gset Hash -> gmap recent_key (gset Hash))
    (Deserialize : bytes -> option bytes) (HashBytes : bytes -> Hash)
    (addr addr' : Address) (payload payload' data : bytes) (st st1 : PeerState)
    (r : bool * option PeerError) (o : list PeerOutput) :
  (forall s h, h ∈ known_Add s h) ->
  ps_coreStarted st = true -> Deserialize payload = Some data -> Deserialize payload' = Some data ->
  HandleMsg known_Add recent_Add Deserialize HashBytes addr bftMsg payload st = Some (r, st1, o) ->
  (o = if bool_decide (HashBytes data ∈ ps_knownMessages st) then [] else [PostMessage data])
  /\ exists st2, HandleMsg known_Add recent_Add Deserialize HashBytes addr' bftMsg payload' st1
       = Some ((true, None), st2, []).
Proof.
  intros Hadd Hst Hd Hd' Hrun.
  destruct (decide (HashBytes data ∈ ps_knownMessages st)) as [Hk|Hk].
  - rewrite bool_decide_true by done. unfold HandleMsg in Hrun.
    change (bftMsg =? bftMsg) with true in Hrun. cbv iota in Hrun. unfold go_bind, go_get in Hrun.
    rewrite Hst, Hd in Hrun. cbn [negb] in Hrun. rewrite bool_decide_true in Hrun by done.
    unfold remember, go_modify, go_ret in Hrun. cbn in Hrun.
    assert (Hst1 : o = [] /\ ps_coreStarted st1 = true
      /\ ps_knownMessages st1 = ps_knownMessages st)
      by (destruct (ps_recentMessages st !! _); by simplify_eq).
    destruct Hst1 as (-> & ? & Heq). split; [done|]. eapply HandleMsg_known; [done|done|by rewrite Heq].
  - rewrite bool_decide_false by done. unfold HandleMsg in Hrun.
    change (bftMsg =? bftMsg) with true in Hrun. cbv iota in Hrun. unfold go_bind, go_get in Hrun.
    rewrite Hst, Hd in Hrun. cbn [negb] in Hrun. rewrite bool_decide_false in Hrun by done.
    unfold remember, know, go_emit, go_bind, go_modify, go_ret in Hrun. cbn in Hrun.
    assert (Hst1 : o = [PostMessage data] /\ ps_coreStarted st1 = true
      /\ ps_knownMessages st1 = known_Add (ps_knownMessages st) (HashBytes data))
      by (destruct (ps_recentMessages st !! _); by simplify_eq).
    destruct Hst1 as (-> & ? & Heq). split; [done|].
    eapply HandleMsg_known; [done|done|rewrite Heq; apply Hadd].
Qed.

Lemma HandleMsg_posts_once_witness :
  exists st1 st2, let known_Add := fun (s : gset Hash) h => {[h]} ∪ s in
    let recent_Add := fun m (k : recent_key) (v : gset Hash) => <[k := v]> m in
    HandleMsg known_Add recent_Add Some (fun b => b) [1] bftMsg [5] (mkPeerState true ∅ ∅)
      = Some ((true, None), st1, [PostMessage [5]])
    /\ HandleMsg known_Add recent_Add Some (fun b => b) [2] bftMsg [5] st1
      = Some ((true, None), st2, []).
Proof.
  eexists.
  destruct (HandleMsg_posts_once (fun (s : gset Hash) h => {[h]} ∪ s)
    (fun m k v => <[k := v]> m) Some (fun b => b) [1] [2] [5] [5] [5] (mkPeerState true ∅ ∅)
    (mkPeerState true {[ByAddr [1] := {[[5]]}]} {[[5]]}) (true, None) [PostMessage [5]])
    as [_ [st2 Hrun]].
  - intros s h. apply elem_of_union_l, elem_of_singleton. reflexivity.
  - reflexivity.
  - reflexivity.
  - reflexivity.
  - vm_compute. reflexivity.
  - exists st2. split; [vm_compute; reflexivity|]. exact Hrun.
Defined.
