(* ===== verification/BftProofs.v ===== *)
(** * Correctness of the BFT consensus core

    The invariant of a node between two events, and what every handler keeps:
    no nil dereference, the view never goes back, the messages counted in a
    round all agree with the proposal of the round and come from distinct
    verifiers, and a block is committed only on a quorum of them. *)

From Stdlib Require Import ZArith Lia.
From S2P Require Import Prelude Common GoHeap Verifier BftTypes BftCore.

Open Scope Z_scope.
Open Scope go_scope.

(** ** Views *)

Definition view_le (v v' : View) : Prop :=
  v_Sequence v < v_Sequence v' \/ (v_Sequence v = v_Sequence v' /\ v_Round v <= v_Round v').

Lemma big_Cmp_spec x y :
  (x < y /\ big_Cmp x y = -1) \/ (x = y /\ big_Cmp x y = 0) \/ (y < x /\ big_Cmp x y = 1).
Proof. unfold big_Cmp. destruct (Z.ltb_spec x y), (Z.ltb_spec y x); lia. Qed.

Lemma View_Cmp_le v v' : 0 <= View_Cmp v' v <-> view_le v v'.
Proof.
  unfold View_Cmp, view_le.
  destruct (big_Cmp_spec (v_Sequence v') (v_Sequence v)) as [[? ->]|[[? ->]|[? ->]]];
    destruct (big_Cmp_spec (v_Round v') (v_Round v)) as [[? ->]|[[? ->]|[? ->]]]; cbn; lia.
Qed.

Lemma View_Cmp_zero v v' :
  (0 <? View_Cmp v v') = false -> (View_Cmp v v' <? 0) = false -> v = v'.
Proof.
  destruct v as [r s], v' as [r' s']. unfold View_Cmp. cbn.
  destruct (big_Cmp_spec s s') as [[? ->]|[[? ->]|[? ->]]];
    destruct (big_Cmp_spec r r') as [[? ->]|[[? ->]|[? ->]]]; cbn; try done.
  intros _ _. by subst.
Qed.

Lemma View_Cmp_refl v : View_Cmp v v = 0.
Proof. unfold View_Cmp, big_Cmp. by rewrite !Z.ltb_irrefl. Qed.

Definition view_lt (v v' : View) : Prop :=
  v_Sequence v < v_Sequence v' \/ (v_Sequence v = v_Sequence v' /\ v_Round v < v_Round v').

Lemma view_lt_trans v1 v2 v3 : view_lt v1 v2 -> view_lt v2 v3 -> view_lt v1 v3.
Proof. unfold view_lt. lia. Qed.

Lemma view_lt_irrefl v : ~ view_lt v v.
Proof. unfold view_lt. lia. Qed.

Lemma view_lt_le v v' : view_lt v v' -> view_le v v'.
Proof. unfold view_lt, view_le. lia. Qed.

Definition view_of (cur : roundState) : View := mkView (rs_round cur) (rs_sequence cur).

(** ** The invariant *)

(** The messages that a node has been given so far, while it had a set of verifiers. *)
Class Inbox := delivered : basicSet -> message -> Prop.

Section invariant.
Context `{Codec} {HI : Inbox}.

(** The messages of one code collected in a round: delivered to the node, from
    verifiers, filed under their address, and all for the subject of the round. *)
Record msgs_ok (code : Z) (vs : basicSet) (sub : option Subject) (ms : messageSet) : Prop := {
  mo_verSet : bs_verifiers (ms_verSet ms) = bs_verifiers vs;
  mo_messages : forall a m, ms_messages ms !! a = Some m ->
    m_Address m = a /\ is_verifier vs a
    /\ (exists s, sub = Some s /\ decode_subject (m_Msg m) = Some s)
    /\ m_Code m = code /\ delivered vs m
}.

Record round_wf (vs : basicSet) (cur : roundState) : Prop := {
  rw_round : 0 <= rs_round cur;
  rw_sequence : 0 <= rs_sequence cur < 2 ^ 64;
  rw_locked : rs_lockedHash cur <> EmptyHash -> is_Some (rs_Preprepare cur);
  rw_pending : forall r, rs_pendingRequest cur = Some r -> is_Some (req_Proposal r);
  rw_prepares : msgs_ok msgPrepare vs (roundState_Subject cur) (rs_Prepares cur);
  rw_commits : msgs_ok msgCommit vs (roundState_Subject cur) (rs_Commits cur)
}.

(** No message is counted before the proposal of the round is accepted. *)
Definition quiet_round (cur : roundState) : Prop :=
  ms_messages (rs_Prepares cur) = ∅ /\ ms_messages (rs_Commits cur) = ∅.

Record core_wf (c : core) : Prop := {
  cw_rcs : is_Some (c_roundChangeSet c);
  cw_round : exists vs cur, c_verSet c = Some vs /\ c_current c = Some cur /\ round_wf vs cur
    /\ (c_waitingForRoundChange c = true \/ c_state c = StateAcceptRequest -> quiet_round cur);
  cw_backlogs : forall a q, c_backlogs c !! a = Some q -> prque_ok q;
  cw_pending : prque_ok (c_pendingRequests c)
}.

(** The round has committed its block. *)
Definition closed (c : core) : Prop :=
  c_waitingForRoundChange c = false /\ c_state c = StateCommitted.

(** The view of the current round does not go back, and a closed round stays
    closed. *)
Definition view_mono (c c' : core) : Prop :=
  forall cur, c_current c = Some cur ->
    exists cur', c_current c' = Some cur'
      /\ (view_lt (view_of cur) (view_of cur')
          \/ (view_of cur' = view_of cur /\ (closed c -> closed c'))).

Lemma view_mono_refl c : view_mono c c.
Proof. intros cur Hc. exists cur. eauto. Qed.

Lemma view_mono_trans c1 c2 c3 : view_mono c1 c2 -> view_mono c2 c3 -> view_mono c1 c3.
Proof.
  intros H12 H23 cur Hc. destruct (H12 _ Hc) as (cur2 & Hc2 & Hle).
  destruct (H23 _ Hc2) as (cur3 & Hc3 & Hle'). exists cur3. split; [done|].
  destruct Hle as [Hlt|[Heq ?]], Hle' as [Hlt'|[Heq' ?]].
  - left. by eapply view_lt_trans.
  - left. by rewrite Heq'.
  - left. by rewrite <- Heq.
  - right. split; [congruence|auto].
Qed.

(** What a block is committed on: distinct verifiers, more than [2 F] of
    them, each with a commit message for that very block in that view that was
    delivered to the node. *)
Definition commit_justified (vs : basicSet) (view : View) (p : Proposal) (seals : list bytes) : Prop :=
  exists msgs : list message,
    commit_quorum vs (map m_Address msgs)
    /\ (forall m, m ∈ msgs -> m_Code m = msgCommit /\ delivered vs m
          /\ decode_subject (m_Msg m) = Some (mkSubject view (p_Hash p)))
    /\ seals = map (fun m => fixed_seal (m_CommittedSeal m)) msgs.

Definition is_commit (o : Output) : bool :=
  match o with OCommit _ _ => true | _ => false end.

Definition no_commit (o : list Output) : Prop := forall x, x ∈ o -> is_commit x = false.

Lemma no_commit_app o1 o2 : no_commit o1 -> no_commit o2 -> no_commit (o1 ++ o2).
Proof. intros H1 H2 x [Hx|Hx]%elem_of_app; auto. Qed.

Lemma no_commit_nil : no_commit [].
Proof. intros x Hx. by apply not_elem_of_nil in Hx. Qed.

Lemma no_commit_one x : is_commit x = false -> no_commit [x].
Proof. by intros Hc y ->%list_elem_of_singleton. Qed.

(** What a handler that commits nothing leaves behind. *)
Definition good (c : core) (c' : core) (o : list Output) : Prop :=
  core_wf c' /\ view_mono c c' /\ no_commit o.

Lemma good_refl c : core_wf c -> good c c [].
Proof. intros Hwf. split; [done|]. split; [apply view_mono_refl|apply no_commit_nil]. Qed.

Lemma good_same c o : core_wf c -> no_commit o -> good c c o.
Proof. intros Hc Ho. split; [done|]. split; [apply view_mono_refl|done]. Qed.

Lemma good_trans c1 c2 c3 o1 o2 : good c1 c2 o1 -> good c2 c3 o2 -> good c1 c3 (o1 ++ o2).
Proof.
  intros (? & ? & ?) (? & ? & ?). split; [done|]. split; [by eapply view_mono_trans|].
  by apply no_commit_app.
Qed.

(** The same state but for the stored messages and requests. *)
Record same_round (c c' : core) : Prop := {
  sr_timeout : c_RequestTimeout c' = c_RequestTimeout c;
  sr_address : c_address c' = c_address c;
  sr_state : c_state c' = c_state c;
  sr_verSet : c_verSet c' = c_verSet c;
  sr_waiting : c_waitingForRoundChange c' = c_waitingForRoundChange c;
  sr_current : c_current c' = c_current c;
  sr_rcs : c_roundChangeSet c' = c_roundChangeSet c
}.

Definition queues_ok (c : core) : Prop :=
  (forall a q, c_backlogs c !! a = Some q -> prque_ok q) /\ prque_ok (c_pendingRequests c).

Lemma same_round_refl c : same_round c c.
Proof. by constructor. Qed.

Lemma same_round_trans c1 c2 c3 : same_round c1 c2 -> same_round c2 c3 -> same_round c1 c3.
Proof. intros [] []; constructor; congruence. Qed.

Lemma same_round_wf c c' : core_wf c -> same_round c c' -> queues_ok c' -> core_wf c'.
Proof.
  intros [Hr (vs & cur & ? & ? & ? & Hq) ? ?] [? ? Hs Hv Hw Hc Hrc] [? ?].
  constructor; try done; [by rewrite Hrc|]. exists vs, cur. rewrite Hv, Hc, Hw, Hs. done.
Qed.

Lemma same_round_mono c c' : same_round c c' -> view_mono c c'.
Proof.
  intros Hs cur Hc. exists cur. rewrite (sr_current _ _ Hs). split; [done|]. right.
  split; [done|]. unfold closed. by rewrite (sr_waiting _ _ Hs), (sr_state _ _ Hs).
Qed.

(** Only internal events. *)
Definition only_posts (o : list Output) : Prop := forall x, x ∈ o -> exists e, x = OPost e.

Lemma only_posts_app o1 o2 : only_posts o1 -> only_posts o2 -> only_posts (o1 ++ o2).
Proof. intros H1 H2 x [Hx|Hx]%elem_of_app; auto. Qed.

Lemma only_posts_nil : only_posts [].
Proof. intros x Hx. by apply not_elem_of_nil in Hx. Qed.

Lemma only_posts_one e : only_posts [OPost e].
Proof. intros x ->%list_elem_of_singleton. eauto. Qed.

Lemma only_posts_no_commit o : only_posts o -> no_commit o.
Proof. intros Ho x Hx. destruct (Ho _ Hx) as [e ->]. done. Qed.
End invariant.

#[export] Hint Resolve view_mono_refl no_commit_nil no_commit_app same_round_refl
  only_posts_nil only_posts_one only_posts_app only_posts_no_commit : seele.

(** ** Specifications of the helpers *)

Section helpers.
Context `{Codec}.
Context (server : Server).
Implicit Types (c : core) (Q : core -> list Output -> Prop).

Lemma wp_get_current c cur (Q : roundState -> core -> list Output -> Prop) :
  c_current c = Some cur -> Q cur c [] -> wp get_current c Q.
Proof. intros Hc HQ. unfold wp, get_current, go_bind, go_get. by rewrite Hc. Qed.

Lemma wp_get_verSet c vs (Q : basicSet -> core -> list Output -> Prop) :
  c_verSet c = Some vs -> Q vs c [] -> wp get_verSet c Q.
Proof. intros Hc HQ. unfold wp, get_verSet, go_bind, go_get. by rewrite Hc. Qed.

Lemma wp_get_roundChangeSet c rcs (Q : roundChangeSet -> core -> list Output -> Prop) :
  c_roundChangeSet c = Some rcs -> Q rcs c [] -> wp get_roundChangeSet c Q.
Proof. intros Hc HQ. unfold wp, get_roundChangeSet, go_bind, go_get. by rewrite Hc. Qed.

Lemma wp_currentView c cur (Q : View -> core -> list Output -> Prop) :
  c_current c = Some cur -> Q (view_of cur) c [] -> wp currentView c Q.
Proof. intros Hc HQ. unfold wp, currentView, get_current, go_bind, go_get. by rewrite Hc. Qed.

Lemma wp_isProposer c vs (Q : bool -> core -> list Output -> Prop) :
  c_verSet c = Some vs -> Q (IsProposer vs (srv_Address server)) c [] ->
  wp (isProposer server) c Q.
Proof. intros Hc HQ. unfold wp, isProposer, go_bind, go_get. by rewrite Hc. Qed.

(** The verdict of [checkMessage] on a view. *)
Definition check_verdict (c : core) (cur : roundState) (msgCode : Z) (view : View) : option BftError :=
  if 0 <? View_Cmp view (view_of cur) then Some errMsgFromFuture
  else if View_Cmp view (view_of cur) <? 0 then Some errOldMsg
  else if c_waitingForRoundChange c then Some errMsgFromFuture
  else if bool_decide (c_state c = StateAcceptRequest) then
    (if msgPreprepare <? msgCode then Some errMsgFromFuture else None)
  else None.

Lemma wp_checkMessage c cur code v (Q : option BftError -> core -> list Output -> Prop) :
  c_current c = Some cur -> Q (check_verdict c cur code v) c [] ->
  wp (checkMessage code (Some v)) c Q.
Proof.
  intros Hc HQ. unfold wp, checkMessage, currentView, get_current, go_bind, go_get.
  by rewrite Hc.
Qed.

Lemma check_verdict_None c cur code v :
  check_verdict c cur code v = None ->
  v = view_of cur /\ c_waitingForRoundChange c = false
  /\ (c_state c = StateAcceptRequest -> code <= msgPreprepare).
Proof.
  unfold check_verdict. destruct (0 <? View_Cmp v _) eqn:E1; [done|].
  destruct (View_Cmp v _ <? 0) eqn:E2; [done|].
  destruct (c_waitingForRoundChange c); [done|].
  intros Hn. split; [by apply View_Cmp_zero|]. split; [done|]. intros Hs.
  rewrite bool_decide_true in Hn by done. destruct (msgPreprepare <? code) eqn:E3; [done|]. lia.
Qed.

(** The verdict of [checkRequestMsg]. *)
Definition request_verdict (cur : roundState) (r : Request) : option BftError :=
  match req_Proposal r with
  | None => Some errInvalidMsg
  | Some p =>
      if p_Height p <? u64 (rs_sequence cur) then Some errOldMsg
      else if u64 (rs_sequence cur) <? p_Height p then Some errMsgFromFuture
      else None
  end.

Lemma wp_checkRequestMsg c cur r (Q : option BftError -> core -> list Output -> Prop) :
  c_current c = Some cur -> Q (request_verdict cur r) c [] ->
  wp (checkRequestMsg (Some r)) c Q.
Proof.
  intros Hc HQ. unfold wp, checkRequestMsg, request_verdict in *.
  destruct (req_Proposal r); [|done].
  unfold get_current, go_bind, go_get. by rewrite Hc.
Qed.

Lemma request_verdict_Some cur r :
  request_verdict cur r = None \/ request_verdict cur r = Some errMsgFromFuture ->
  is_Some (req_Proposal r).
Proof. unfold request_verdict. destruct (req_Proposal r); [eauto|]. by intros [?|?]. Qed.

(** Broadcasting changes nothing; what is sent carries this node's address. *)
Definition broadcasts (c : core) (vs : basicSet) (code : Z) (body : bytes) (o : list Output) : Prop :=
  o = [] \/ exists m payload, o = [OBroadcast vs m payload]
    /\ m_Code m = code /\ m_Msg m = body /\ m_Address m = c_address c
    /\ encode_message m = Some payload.

Lemma broadcasts_no_commit c vs code body o : broadcasts c vs code body o -> no_commit o.
Proof. intros [->|(m & pl & -> & _)]; [apply no_commit_nil|by apply no_commit_one]. Qed.

Lemma wp_broadcast c cur vs code body :
  c_current c = Some cur -> c_verSet c = Some vs ->
  wp (broadcast server (new_message code body)) c
    (fun _ c' o => c' = c /\ broadcasts c vs code body o).
Proof.
  intros Hc Hv. unfold broadcast, finalizeMessage.
  wp_step. wp_step. wp_step. wp_step.
  assert (Hseal : exists seal : option bytes,
    wp (if m_Code (new_message code body) =? msgCommit
        then cur <- get_current;; go_ret (match roundState_Proposal cur with
                     | Some p => srv_Sign server (PrepareCommittedSeal (p_Hash p))
                     | None => Some []
                     end)
        else go_ret (Some [])) c (fun a c' o => a = seal /\ c' = c /\ o = [])).
  { destruct (_ =? _); [|by exists (Some [])].
    eexists. wp_step. eapply wp_get_current; [done|]. by wp_step. }
  destruct Hseal as [seal Hseal]. eapply wp_mono; [exact Hseal|].
  intros a c' o (-> & -> & ->). wp_step.
  destruct seal as [seal|]; [|by split; [|left]].
  destruct (PayloadNoSig _) as [data|]; [|by split; [|left]].
  destruct (srv_Sign server data) as [sig|]; [|by split; [|left]].
  destruct (encode_message _) as [payload|] eqn:He; [|by split; [|left]].
  wp_step. eapply wp_get_verSet; [done|]. wp_step. split; [done|]. right.
  eexists _, _. split; [done|]. done.
Qed.

(** ** Stored messages and requests *)

Lemma process_queue_spec fuel src q c cur :
  c_current c = Some cur -> prque_ok q -> (length q <= fuel)%nat ->
  wp (process_queue fuel src q) c
    (fun q' c' o => c' = c /\ prque_ok q' /\ only_posts o).
Proof.
  intros Hc. revert q; induction fuel as [|fuel IH]; intros q Hok Hlen; cbn [process_queue].
  { wp_step. split; [done|]. split; [done|apply only_posts_nil]. }
  destruct (prque_Empty q) eqn:He.
  { wp_step. split; [done|]. split; [done|apply only_posts_nil]. }
  destruct (prque_Pop_spec q Hok) as (msg & prio & rest & Hpop & Hrest & Hperm & _).
  { intros ->. by apply not_true_iff_false in He. }
  pose proof (Permutation_length Hperm) as Hl. cbn [length] in Hl.
  wp_step. eapply wp_deref; [done|]. cbn beta iota.
  destruct (message_view msg) as [view|] eqn:Hv; [|cbn [app]; apply IH; [done|lia]].
  wp_step. eapply wp_checkMessage; [done|]. cbn [app].
  destruct (check_verdict c cur (m_Code msg) view) as [err|].
  - destruct (decide (err = errMsgFromFuture)) as [->|Hne].
    + wp_step. split; [done|]. split; [by apply prque_Push_ok|apply only_posts_nil].
    + destruct err; try done; (apply IH; [done|lia]).
  - wp_step. wp_step. eapply wp_mono; [apply IH; [done|lia]|].
    intros q' c' o (-> & ? & ?). split; [done|]. split; [done|].
    apply only_posts_app; [apply only_posts_one|done].
Qed.

Lemma process_senders_spec l c vs cur :
  c_current c = Some cur -> c_verSet c = Some vs ->
  (forall a q, (a, q) ∈ l -> prque_ok q) -> queues_ok c ->
  wp (process_senders l) c
    (fun _ c' o => same_round c c' /\ queues_ok c' /\ only_posts o).
Proof.
  revert c; induction l as [|[a q] l IH]; intros c Hc Hv Hl Hq; cbn [process_senders].
  { wp_step. split; [apply same_round_refl|]. split; [done|apply only_posts_nil]. }
  wp_step. eapply wp_get_verSet; [done|]. cbn [app].
  assert (Hl' : forall a q, (a, q) ∈ l -> prque_ok q) by (intros a' q' Hin; eapply (Hl a'); by right).
  assert (Hrest : forall c1 o1, same_round c c1 -> queues_ok c1 -> only_posts o1 ->
    wp (process_senders l) c1
      (fun _ c' o => same_round c c' /\ queues_ok c' /\ only_posts (o1 ++ o))).
  { intros c1 o1 Hs Hq1 Ho1.
    eapply wp_mono; [apply IH; rewrite ?(sr_current _ _ Hs), ?(sr_verSet _ _ Hs); done|].
    intros [] c' o (? & ? & ?). split; [by eapply same_round_trans|]. split; [done|].
    by apply only_posts_app. }
  destruct (GetVerByAddress vs a).2 as [src|].
  - wp_step. eapply wp_mono; [eapply process_queue_spec; [done| |done]; eapply (Hl a); by left|].
    intros q' c' o (-> & Hq' & Ho). wp_step. wp_step. cbn [app].
    eapply (Hrest (set_backlogs _ c) o); [by constructor| |done].
    split; [|apply Hq]. cbn. intros a' q'' [[_ <-]|[_ Hlk]]%lookup_insert_Some; [done|].
    by eapply Hq.
  - wp_step. wp_step. cbn [app]. eapply (Hrest (set_backlogs _ c) []);
      [by constructor| |apply only_posts_nil].
    split; [|apply Hq]. cbn. intros a' q'' [_ Hlk]%lookup_delete_Some. by eapply Hq.
Qed.

Lemma processBacklog_spec c vs cur :
  c_current c = Some cur -> c_verSet c = Some vs -> queues_ok c ->
  wp processBacklog c (fun _ c' o => same_round c c' /\ queues_ok c' /\ only_posts o).
Proof.
  intros Hc Hv Hq. unfold processBacklog. wp_step. wp_step. cbn [app].
  eapply process_senders_spec; try done.
  intros a q Hin%elem_of_map_to_list. by eapply Hq.
Qed.

Lemma process_requests_spec fuel c cur :
  c_current c = Some cur -> queues_ok c ->
  wp (process_requests fuel) c (fun _ c' o => same_round c c' /\ queues_ok c' /\ only_posts o).
Proof.
  intros Hc. revert c Hc; induction fuel as [|fuel IH]; intros c Hc Hq; cbn [process_requests].
  { wp_step. split; [apply same_round_refl|]. split; [done|apply only_posts_nil]. }
  wp_step. wp_step. cbn [app]. destruct (prque_Empty _) eqn:He.
  { wp_step. split; [apply same_round_refl|]. split; [done|apply only_posts_nil]. }
  destruct Hq as [Hqb Hqp].
  destruct (prque_Pop_spec (c_pendingRequests c) Hqp)
    as (req & prio & rest & Hpop & Hrest & Hperm & _).
  { intros Hn. rewrite Hn in He. done. }
  wp_step. eapply wp_deref; [done|]. cbn beta iota. cbn [app]. wp_step. wp_step. cbn [app].
  set (c1 := set_pendingRequests rest c).
  assert (Hs1 : same_round c c1) by (by constructor).
  assert (Hcont : forall o1, only_posts o1 -> wp (process_requests fuel) c1
      (fun _ c' o => same_round c c' /\ queues_ok c' /\ only_posts (o1 ++ o))).
  { intros o1 Ho1. eapply wp_mono; [apply (IH c1); [done|by split]|].
    intros [] c' o (? & ? & ?). split; [by eapply same_round_trans|]. split; [done|].
    by apply only_posts_app. }
  wp_step. apply (wp_checkRequestMsg c1 cur); [done|]. cbn [app].
  destruct (request_verdict cur req) as [err|].
  - destruct (decide (err = errMsgFromFuture)) as [->|Hne].
    + wp_step. split; [by constructor|]. split; [|apply only_posts_nil].
      split; [done|]. by apply prque_Push_ok.
    + destruct err; try done; apply (Hcont [] only_posts_nil).
  - wp_step. wp_step. apply (Hcont [_]), only_posts_one.
Qed.

Lemma setState_spec s c vs cur :
  c_current c = Some cur -> c_verSet c = Some vs -> queues_ok c ->
  wp (setState s) c
    (fun _ c' o => same_round (set_state s c) c' /\ queues_ok c' /\ only_posts o).
Proof.
  intros Hc Hv Hq. unfold setState. wp_step. wp_step. cbn [app]. wp_step.
  set (c1 := set_state s c).
  assert (Hpr : wp (if bool_decide (s = StateAcceptRequest) then processPendingRequests
                    else go_ret tt) c1
    (fun _ c' o => same_round c1 c' /\ queues_ok c' /\ only_posts o)).
  { case_bool_decide.
    - unfold processPendingRequests. wp_step. wp_step. cbn [app].
      by eapply process_requests_spec.
    - wp_step. split; [apply same_round_refl|]. split; [done|apply only_posts_nil]. }
  eapply wp_mono; [exact Hpr|]. intros [] c2 o2 (Hs2 & Hq2 & Ho2).
  eapply wp_mono; [eapply processBacklog_spec; [| |done]|].
  - by rewrite (sr_current _ _ Hs2).
  - by rewrite (sr_verSet _ _ Hs2).
  - intros [] c3 o3 (Hs3 & Hq3 & Ho3). split; [by eapply same_round_trans|].
    split; [done|by apply only_posts_app].
Qed.
End helpers.

(** ** Round changes *)

(** What is relied on of the server: it knows its last block, and the heights
    are below the largest [uint64]. *)
Definition server_ok (server : Server) : Prop :=
  exists p, (srv_LastProposal server).1 = Some p /\ 0 <= p_Height p < 2 ^ 64 - 1.

Section round_change.
Context `{Codec} {HI : Inbox}.
Context (server : Server).
Implicit Types (c : core).

(** The round state that [updateRoundState] installs. *)
Definition next_round (cur : option roundState) (view : View) (vs : basicSet) (changed : bool) : roundState :=
  match cur with
  | Some cur =>
      if changed then
        if IsHashLocked (srv_HasBadProposal server) cur
        then newRoundState view vs (GetLockedHash cur) (rs_Preprepare cur) (rs_pendingRequest cur)
        else newRoundState view vs EmptyHash None (rs_pendingRequest cur)
      else newRoundState view vs EmptyHash None None
  | None => newRoundState view vs EmptyHash None None
  end.

Lemma wp_updateRoundState c view vs changed (Q : unit -> core -> list Output -> Prop) :
  Q tt (set_current (next_round (c_current c) view vs changed) c) [] ->
  wp (updateRoundState server view vs changed) c Q.
Proof.
  intros HQ. unfold wp, updateRoundState, go_bind, go_get, next_round in *.
  destruct (c_current c) as [cur|]; [|done].
  destruct changed; [|done]. by destruct (IsHashLocked _ cur).
Qed.

Lemma newMessageSet_ok code vs vs' sub :
  bs_verifiers vs = bs_verifiers vs' -> msgs_ok code vs' sub (newMessageSet vs).
Proof. intros Hvs. constructor; [done|]. intros a m Hm. cbn in Hm. by rewrite lookup_empty in Hm. Qed.

Lemma next_round_view cur view vs changed : view_of (next_round cur view vs changed) = view.
Proof.
  destruct view as [r s]. unfold next_round.
  destruct cur as [cur|]; [|done]. destruct changed; [|done]. by destruct (IsHashLocked _ cur).
Qed.

Lemma next_round_quiet cur view vs changed : quiet_round (next_round cur view vs changed).
Proof.
  unfold next_round. destruct cur as [cur|]; [|done]. destruct changed; [|done].
  by destruct (IsHashLocked _ cur).
Qed.

Lemma IsHashLocked_nonempty bad cur : IsHashLocked bad cur = true -> rs_lockedHash cur <> EmptyHash.
Proof. unfold IsHashLocked. case_bool_decide; [done|]. congruence. Qed.

Lemma next_round_wf cur view vs vs1 changed :
  bs_verifiers vs = bs_verifiers vs1 -> (forall r, cur = Some r -> exists vs', round_wf vs' r) ->
  0 <= v_Round view -> 0 <= v_Sequence view < 2 ^ 64 ->
  round_wf vs1 (next_round cur view vs changed).
Proof.
  intros Hvs Hwf Hr Hs. unfold next_round.
  assert (Hfresh : forall pend, (forall r, pend = Some r -> is_Some (req_Proposal r)) ->
    round_wf vs1 (newRoundState view vs EmptyHash None pend)).
  { intros pend Hp. constructor; try done; by apply newMessageSet_ok. }
  destruct cur as [cur|]; [|by apply Hfresh]. destruct (Hwf _ eq_refl) as [vs' Hc].
  destruct changed; [|by apply Hfresh].
  destruct (IsHashLocked _ cur) eqn:Hl; [|apply Hfresh, Hc].
  constructor; try done; try (by apply newMessageSet_ok); cbn; apply Hc.
Qed.

Lemma newRoundChangeTimer_spec c cur :
  c_current c = Some cur ->
  wp newRoundChangeTimer c (fun _ c' o => c' = c /\ no_commit o).
Proof.
  intros Hc. unfold newRoundChangeTimer, stopTimer.
  wp_seq. eapply wp_get_current; [done|]. wp_seq. split; [done|].
  intros x Hx. cbn in Hx.
  repeat (apply elem_of_cons in Hx as [->|Hx]; [done|]). by apply not_elem_of_nil in Hx.
Qed.

(** Installing a quiet round keeps the invariant. *)
Lemma install_round_wf c vs cur :
  queues_ok c -> c_verSet c = Some vs -> c_current c = Some cur -> is_Some (c_roundChangeSet c) ->
  round_wf vs cur -> quiet_round cur -> core_wf c.
Proof. intros [? ?] ? ? ? ? ?. constructor; try done. exists vs, cur. done. Qed.

Lemma core_wf_queues c : core_wf c -> queues_ok c.
Proof. intros [? ? ? ?]. by split. Qed.

Lemma catchUpRound_spec c cur view :
  core_wf c -> c_current c = Some cur ->
  0 <= v_Round view -> 0 <= v_Sequence view < 2 ^ 64 -> view_lt (view_of cur) view ->
  wp (catchUpRound server view) c (fun _ c' o => good c c' o
    /\ exists cur', c_current c' = Some cur' /\ view_of cur' = view).
Proof.
  intros Hwf Hc Hr Hs Hle. pose proof (core_wf_queues c Hwf) as Hqs.
  destruct Hwf as [[rcs Hrc] (vs & cur' & Hv & Hc' & Hrw & Hq) ? ?].
  assert (cur' = cur) as -> by congruence.
  unfold catchUpRound. wp_step. wp_step. cbn [app]. wp_step.
  eapply wp_get_verSet; [done|]. wp_step. apply wp_updateRoundState. cbn [app]. wp_step.
  eapply wp_get_roundChangeSet; [done|]. wp_step. wp_step. cbn [app c_current set_waiting].
  rewrite Hc. set (cur1 := next_round _ _ _ _).
  eapply wp_mono; [eapply newRoundChangeTimer_spec; done|].
  intros [] c' o [-> Ho].
  split; [|exists cur1; split; [done|apply next_round_view]].
  split; [|split; [|done]].
  - apply (install_round_wf _ vs cur1); try done; [|apply next_round_quiet].
    apply next_round_wf; [done| |done|done]. intros r [= <-]. eauto.
  - intros cur0 Hc0. assert (cur0 = cur) as -> by congruence. exists cur1. split; [done|].
    left. unfold cur1. by rewrite next_round_view.
Qed.

(** Asking for a larger round moves there. *)
Lemma sendRoundChange_moves c cur round :
  core_wf c -> c_current c = Some cur ->
  wp (sendRoundChange server round) c (fun _ c' o => good c c' o
    /\ (rs_round cur < round ->
        exists cur', c_current c' = Some cur' /\ view_of cur' = mkView round (rs_sequence cur))).
Proof.
  intros Hwf Hc. destruct (cw_round _ Hwf) as (vs & cur' & Hv & Hc' & Hrw & _).
  assert (cur' = cur) as -> by congruence.
  unfold sendRoundChange. wp_step. eapply wp_currentView; [done|]. cbn [app].
  assert (Hlt : (0 <=? big_Cmp (v_Round (view_of cur)) round) = negb (rs_round cur <? round)).
  { destruct (big_Cmp_spec (v_Round (view_of cur)) round) as [[? Hb]|[[? Hb]|[? Hb]]];
      rewrite Hb; cbn in *; lia. }
  rewrite Hlt. destruct (Z.ltb_spec (rs_round cur) round) as [Hr|Hr]; cbn [negb].
  2:{ wp_step. split; [by apply good_refl|lia]. }
  pose proof (rw_round _ _ Hrw). pose proof (rw_sequence _ _ Hrw).
  wp_step. eapply wp_mono; [eapply catchUpRound_spec; try done|].
  - cbn. lia.
  - unfold view_lt. cbn. lia.
  - intros [] c1 o1 [Hg1 (cur1 & Hc1 & Hview)]. pose proof Hg1 as (Hwf1 & _ & _).
    destruct (cw_round _ Hwf1) as (vs1 & ? & Hv1 & _).
    wp_step. eapply wp_currentView; [done|]. cbn [app].
    destruct (encode_subject _) as [payload|].
    + eapply wp_mono; [by eapply wp_broadcast|]. intros [] c2 o2 [-> Hb].
      split; [|eauto]. eapply good_trans; [exact Hg1|]. apply good_same; [done|].
      by eapply broadcasts_no_commit.
    + wp_step. rewrite app_nil_r. eauto.
Qed.

Lemma sendRoundChange_spec c round :
  core_wf c -> wp (sendRoundChange server round) c (fun _ c' o => good c c' o).
Proof.
  intros Hwf. destruct (cw_round _ Hwf) as (vs & cur & Hv & Hc & Hrw & _).
  eapply wp_mono; [by eapply sendRoundChange_moves|]. by intros [] c' o [? _].
Qed.

Lemma sendNextRoundChange_moves c cur :
  core_wf c -> c_current c = Some cur ->
  wp (sendNextRoundChange server) c (fun _ c' o => good c c' o
    /\ exists cur', c_current c' = Some cur' /\ view_lt (view_of cur) (view_of cur')).
Proof.
  intros Hwf Hc. unfold sendNextRoundChange. wp_step. eapply wp_currentView; [done|]. cbn [app].
  eapply wp_mono; [by eapply sendRoundChange_moves|]. intros [] c' o [? Hmv]. split; [done|].
  destruct Hmv as (cur' & ? & Hview); [cbn; lia|]. exists cur'. split; [done|].
  rewrite Hview. unfold view_lt. cbn. lia.
Qed.

Lemma sendNextRoundChange_spec c :
  core_wf c -> wp (sendNextRoundChange server) c (fun _ c' o => good c c' o).
Proof.
  intros Hwf. destruct (cw_round _ Hwf) as (vs & cur & Hv & Hc & Hrw & _).
  eapply wp_mono; [by eapply sendNextRoundChange_moves|]. by intros [] c' o [? _].
Qed.

Lemma sendPreprepare_spec c cur vs r :
  c_current c = Some cur -> c_verSet c = Some vs -> is_Some (req_Proposal r) ->
  wp (sendPreprepare server r) c (fun _ c' o => c' = c /\ no_commit o).
Proof.
  intros Hc Hv [p Hp]. unfold sendPreprepare. wp_step. eapply wp_get_current; [done|].
  wp_step. eapply wp_deref; [done|]. cbn [app]. wp_step. eapply wp_isProposer; [done|].
  cbn [app]. destruct (_ && _); [|wp_step; split; [done|apply no_commit_nil]].
  wp_step. eapply wp_currentView; [done|]. cbn [app].
  destruct (encode_preprepare _); [|wp_step; split; [done|apply no_commit_nil]].
  eapply wp_mono; [by eapply wp_broadcast|]. intros [] c' o [-> Hb].
  split; [done|]. by eapply broadcasts_no_commit.
Qed.

(** What follows the choice of the new view in [startNewRound]. *)
Lemma new_round_tail c newView vs lastProposer changed :
  queues_ok c -> c_verSet c = Some vs ->
  (forall r, c_current c = Some r -> exists vs', round_wf vs' r) ->
  0 <= v_Round newView -> 0 <= v_Sequence newView < 2 ^ 64 ->
  (forall cur, c_current c = Some cur ->
    view_lt (view_of cur) newView \/ (newView = view_of cur /\ ~ closed c)) ->
  wp (go_modify (set_roundChangeSet (newRoundChangeSet vs)) ;;;
      updateRoundState server newView vs changed ;;;
      go_modify (set_verSet (CalcProposer vs lastProposer (u64 (v_Round newView)))) ;;;
      go_modify (set_waiting false) ;;;
      setState StateAcceptRequest ;;;
      prop <- isProposer server ;;
      cur <- get_current ;;
      (if changed && prop then
         if IsHashLocked (srv_HasBadProposal server) cur
         then sendPreprepare server (mkRequest (roundState_Proposal cur))
         else match rs_pendingRequest cur with
              | Some r => sendPreprepare server r
              | None => go_ret tt
              end
       else go_ret tt) ;;;
      newRoundChangeTimer) c (fun _ c' o => good c c' o).
Proof.
  intros Hq Hv Hcur Hr Hs Hle. wp_seq. apply wp_updateRoundState. wp_seq.
  cbn [c_current set_roundChangeSet].
  set (cur1 := next_round (c_current c) newView vs changed).
  set (vs1 := CalcProposer vs lastProposer (u64 (v_Round newView))).
  assert (Hrw : round_wf vs1 cur1).
  { by apply next_round_wf. }
  eapply wp_mono; [by eapply setState_spec|].
  intros [] c2 o2 (Hsr & Hq2 & Ho2). cbn beta iota.
  assert (Hc2 : c_current c2 = Some cur1) by (by rewrite (sr_current _ _ Hsr)).
  assert (Hv2 : c_verSet c2 = Some vs1) by (by rewrite (sr_verSet _ _ Hsr)).
  assert (Hwf2 : core_wf c2).
  { apply (install_round_wf _ vs1 cur1); try done; [|apply next_round_quiet].
    rewrite (sr_rcs _ _ Hsr). done. }
  wp_seq. eapply wp_isProposer; [done|]. wp_seq. eapply wp_get_current; [done|]. wp_seq.
  assert (Hsend : wp (if changed && IsProposer vs1 (srv_Address server) then
         if IsHashLocked (srv_HasBadProposal server) cur1
         then sendPreprepare server (mkRequest (roundState_Proposal cur1))
         else match rs_pendingRequest cur1 with
              | Some r => sendPreprepare server r
              | None => go_ret tt
              end
       else go_ret tt) c2 (fun _ c' o => c' = c2 /\ no_commit o)).
  { destruct (changed && _); [|by wp_seq; split; [|apply no_commit_nil]].
    destruct (IsHashLocked _ cur1) eqn:Hl.
    - eapply sendPreprepare_spec; try done. cbn. unfold roundState_Proposal.
      apply IsHashLocked_nonempty in Hl. destruct (rw_locked _ _ Hrw Hl) as [pp ->]. eauto.
    - destruct (rs_pendingRequest cur1) as [r|] eqn:Hp.
      + eapply sendPreprepare_spec; try done. by eapply rw_pending.
      + by wp_seq; split; [|apply no_commit_nil]. }
  eapply wp_mono; [exact Hsend|]. intros [] c3 o3 [-> Ho3]. cbn beta.
  eapply wp_mono; [by eapply newRoundChangeTimer_spec|]. intros [] c4 o4 [-> Ho4].
  split; [done|]. split.
  - intros cur0 Hc0. exists cur1. split; [done|]. unfold cur1. rewrite next_round_view.
    destruct (Hle cur0 Hc0) as [?|[? ?]]; [by left|by right].
  - repeat apply no_commit_app; auto with seele.
Qed.

Lemma startNewRound_spec c round :
  server_ok server -> queues_ok c -> c_current c = None \/ core_wf c ->
  round = 0 \/ c_waitingForRoundChange c = true
    \/ (forall cur, c_current c = Some cur -> rs_round cur < round) ->
  wp (startNewRound server round) c (fun _ c' o => good c c' o).
Proof.
  intros (lp & Hlp & Hh) Hq Hc Hround. unfold startNewRound.
  destruct (srv_LastProposal server) as [last lastProposer]. cbn in Hlp. subst last.
  wp_seq. eapply wp_deref; [done|]. cbn beta iota. cbn [app].
  assert (Hcur : forall r, c_current c = Some r -> exists vs', round_wf vs' r).
  { intros r Hr. destruct Hc as [Hc|[_ (vs & cur & _ & ? & ? & _) _ _]]; [congruence|].
    exists vs. congruence. }
  destruct (round_change_decision _ _ _) as [changed|] eqn:Hd.
  2:{ wp_seq. destruct Hc as [Hn|Hwf]; [by rewrite Hn in Hd|by apply good_refl]. }
  destruct changed; wp_seq.
  - (* a round change: the same sequence, a round that is not smaller *)
    destruct Hc as [Hn|Hwf]; [by rewrite Hn in Hd|].
    destruct (cw_round _ Hwf) as (vs & cur & Hv & Hc & Hrw & _).
    rewrite Hc in Hd. cbn in Hd.
    destruct (u64 (rs_sequence cur) <=? p_Height lp); [done|].
    destruct (p_Height lp =? _); [|done].
    destruct (big_Cmp round 0 =? 0) eqn:H0; [done|].
    destruct (big_Cmp round (rs_round cur) <? 0) eqn:Hcmp; [done|].
    assert (Hge : rs_round cur <= round).
    { destruct (big_Cmp_spec round (rs_round cur)) as [[? Hb]|[[? Hb]|[? Hb]]];
        rewrite Hb in Hcmp; cbn in *; lia. }
    pose proof (rw_round _ _ Hrw). pose proof (rw_sequence _ _ Hrw).
    eapply wp_get_current; [done|]. wp_seq. eapply wp_get_verSet; [done|]. cbn [app].
    apply new_round_tail; try done; cbn; [lia|].
    intros cur0 Hc0. assert (cur0 = cur) as -> by congruence.
    destruct (Z.eq_dec round (rs_round cur)) as [->|Hne]; [|left; right; cbn; lia].
    right. split; [done|]. destruct Hround as [Hr|[Hw|Hlt]].
    + by rewrite Hr in H0.
    + intros [Hw0 _]. congruence.
    + specialize (Hlt _ Hc). lia.
  - (* a new sequence *)
    set (vs := srv_Verifiers server lp).
    eapply wp_get_verSet; [done|]. cbn [app].
    eapply wp_mono; [apply (new_round_tail (set_verSet vs c)); try done; cbn; [lia|]|].
    + intros cur Hc0. left. left. cbn. destruct Hc as [Hn|Hwf]; [congruence|].
      destruct (cw_round _ Hwf) as (vs0 & cur0 & _ & Hc1 & Hrw & _).
      assert (cur0 = cur) as -> by congruence.
      pose proof (rw_sequence _ _ Hrw) as Hseq.
      rewrite Hc0 in Hd. cbn in Hd. rewrite (u64_small (rs_sequence cur)) in Hd by done.
      destruct (Z.leb_spec (rs_sequence cur) (p_Height lp)); [lia|].
      destruct (p_Height lp =? _); [|done].
      destruct (big_Cmp round 0 =? 0); [done|].
      by destruct (big_Cmp round (rs_round cur) <? 0).
    + intros [] c' o (? & ? & ?). done.
Qed.
End round_change.

(** ** Counting messages *)

Section counting.
Context `{Codec} {HI : Inbox}.

Lemma messageSet_Values_elem ms m :
  m ∈ messageSet_Values ms <-> exists a, ms_messages ms !! a = Some m.
Proof.
  unfold messageSet_Values. rewrite list_elem_of_In, in_map_iff. split.
  - intros ([a m'] & <- & Hin). apply list_elem_of_In, elem_of_map_to_list in Hin. eauto.
  - intros [a Ha]. exists (a, m). split; [done|]. by apply list_elem_of_In, elem_of_map_to_list.
Qed.

Lemma messageSet_Values_addresses code vs sub ms :
  msgs_ok code vs sub ms ->
  map m_Address (messageSet_Values ms) = (map_to_list (ms_messages ms)).*1.
Proof.
  intros [_ Hm]. unfold messageSet_Values. rewrite map_map.
  assert (Hall : forall kv, kv ∈ map_to_list (ms_messages ms) -> m_Address kv.2 = kv.1).
  { intros [a m] Hin%elem_of_map_to_list. by destruct (Hm _ _ Hin) as [? _]. }
  induction (map_to_list (ms_messages ms)) as [|kv l IH]; [done|]. cbn. f_equal.
  - apply Hall. by left.
  - apply IH. intros kv' Hin. apply Hall. by right.
Qed.

Lemma messageSet_Values_length ms :
  Z.of_nat (length (messageSet_Values ms)) = messageSet_Size ms.
Proof.
  unfold messageSet_Values, messageSet_Size. rewrite length_map. f_equal.
  apply length_map_to_list.
Qed.

(** The senders of the messages of a set are distinct verifiers. *)
Lemma messageSet_quorum code vs sub ms :
  msgs_ok code vs sub ms -> 2 * F vs < messageSet_Size ms ->
  commit_quorum vs (map m_Address (messageSet_Values ms)).
Proof.
  intros Hm Hsz. split; [|split].
  - rewrite (messageSet_Values_addresses _ _ _ _ Hm). apply NoDup_fst_map_to_list.
  - intros a Ha. apply list_elem_of_In, in_map_iff in Ha as (m & <- & Hin).
    apply list_elem_of_In, messageSet_Values_elem in Hin as [a Hin].
    by destruct (mo_messages _ _ _ _ Hm _ _ Hin) as (-> & ? & _).
  - rewrite length_map, messageSet_Values_length. lia.
Qed.

Lemma messageSet_Add_ok code vs s ms msg :
  msgs_ok code vs (Some s) ms -> decode_subject (m_Msg msg) = Some s ->
  m_Code msg = code -> delivered vs msg -> msgs_ok code vs (Some s) (messageSet_Add ms msg).1.
Proof.
  intros [Hv Hm] Hd Hcode Hdel. unfold messageSet_Add, messageSet_verify.
  destruct (GetVerByAddress (ms_verSet ms) (m_Address msg)).2 as [v|] eqn:Hg; [|done].
  apply GetVerByAddress_Some in Hg as [-> Hin]. constructor; [done|]. cbn.
  intros a m [[<- <-]|[_ Hlk]]%lookup_insert_Some; [|by apply Hm].
  split; [done|]. split; [|eauto 6]. unfold is_verifier in *. by rewrite <- Hv.
Qed.

Lemma msgs_ok_empty code vs sub sub' ms :
  ms_messages ms = ∅ -> msgs_ok code vs sub ms -> msgs_ok code vs sub' ms.
Proof.
  intros He [Hv _]. constructor; [done|]. intros a m Hlk.
  by rewrite He, lookup_empty in Hlk.
Qed.
End counting.

(** ** The handlers *)

Section handlers.
Context `{Codec} {HI : Inbox}.
Context (server : Server).
Implicit Types (c : core).

Lemma set_state_wf c s : core_wf c -> s <> StateAcceptRequest -> core_wf (set_state s c).
Proof.
  intros [? (vs & cur & ? & ? & ? & Hq) ? ?] Hs. constructor; try done. exists vs, cur.
  do 3 (split; [done|]). cbn. intros [?|?]; [apply Hq; by left|done].
Qed.

Lemma setState_good c s :
  core_wf c -> s <> StateAcceptRequest -> c_state c <> StateCommitted ->
  wp (setState s) c (fun _ c' o => good c c' o /\ same_round (set_state s c) c').
Proof.
  intros Hwf Hs Hst. destruct (cw_round _ Hwf) as (vs & cur & Hv & Hc & _).
  eapply wp_mono; [by eapply setState_spec, core_wf_queues|].
  intros [] c' o (Hsr & Hq & Ho). split; [|done]. split; [|split].
  - eapply same_round_wf; [by eapply set_state_wf|done|done].
  - intros cur0 Hc0. exists cur0. rewrite (sr_current _ _ Hsr). split; [done|]. right.
    split; [done|]. by intros [_ ?].
  - auto with seele.
Qed.

(** Replacing the round state by one of the same view. *)
Lemma set_current_wf c vs cur cur' :
  core_wf c -> c_verSet c = Some vs -> c_current c = Some cur -> round_wf vs cur' ->
  (c_waitingForRoundChange c = true \/ c_state c = StateAcceptRequest -> quiet_round cur') ->
  view_of cur' = view_of cur -> core_wf (set_current cur' c) /\ view_mono c (set_current cur' c).
Proof.
  intros [? _ ? ?] Hv Hc Hrw Hq Hview. split.
  - constructor; try done. by exists vs, cur'.
  - intros cur0 Hc0. assert (cur0 = cur) as -> by congruence. exists cur'.
    split; [done|]. by right.
Qed.

Lemma broadcast_subject_spec c code sub :
  core_wf c -> wp (broadcast_subject server code (Some sub)) c
    (fun _ c' o => c' = c /\ no_commit o).
Proof.
  intros Hwf. destruct (cw_round _ Hwf) as (vs & cur & Hv & Hc & _).
  unfold broadcast_subject. wp_seq. eapply wp_deref; [done|]. cbn beta iota. cbn [app].
  destruct (encode_subject sub); [|wp_seq; split; [done|apply no_commit_nil]].
  eapply wp_mono; [by eapply wp_broadcast|]. intros [] c' o [-> Hb].
  split; [done|]. by eapply broadcasts_no_commit.
Qed.

Lemma handleRequest_spec c r :
  core_wf c -> wp (handleRequest server r) c (fun e c' o => good c c' o
    /\ (e = Some errMsgFromFuture -> is_Some (req_Proposal r))).
Proof.
  intros Hwf. destruct (cw_round _ Hwf) as (vs & cur & Hv & Hc & Hrw & Hq).
  unfold handleRequest. wp_seq. eapply wp_checkRequestMsg; [done|]. cbn [app].
  pose proof (request_verdict_Some cur r) as Hsome.
  destruct (request_verdict cur r) as [err|].
  { wp_seq. split; [by apply good_refl|]. intros [= ->]. auto. }
  destruct (Hsome (or_introl eq_refl)) as [p Hp].
  wp_seq. eapply wp_get_current; [done|]. wp_seq.
  set (c1 := set_current _ c).
  assert (Hwf1 : core_wf c1 /\ view_mono c c1).
  { eapply set_current_wf; try done. destruct Hrw. constructor; try done. cbn.
    intros r' [= <-]. eauto. }
  destruct Hwf1 as [Hwf1 Hm1].
  assert (Hsend : wp (if bool_decide (c_state c1 = StateAcceptRequest)
    then sendPreprepare server r else go_ret tt) c1 (fun _ c' o => c' = c1 /\ no_commit o)).
  { case_bool_decide; [|by wp_seq; split; [|apply no_commit_nil]].
    eapply sendPreprepare_spec; [done|done|eauto]. }
  eapply wp_mono; [exact Hsend|]. intros [] c' o [-> Ho]. wp_seq.
  rewrite app_nil_r. split; [|done]. by split.
Qed.

Lemma handleRoundChange_spec c msg src :
  server_ok server -> core_wf c ->
  wp (handleRoundChange server msg src) c (fun _ c' o => good c c' o).
Proof.
  intros Hsrv Hwf. destruct (cw_round _ Hwf) as (vs & cur & Hv & Hc & Hrw & Hq).
  destruct (cw_rcs _ Hwf) as [rcs Hrcs].
  unfold handleRoundChange. destruct (decode_subject _) as [rc|]; [|wp_seq; by apply good_refl].
  wp_seq. eapply wp_currentView; [done|]. wp_seq.
  eapply wp_get_roundChangeSet; [done|]. cbn beta iota. cbn [app].
  destruct (roundChangeSet_Add _ _ _) as [rcs' [num err]]. wp_seq.
  set (c1 := set_roundChangeSet rcs' c).
  assert (Hwf1 : core_wf c1).
  { destruct Hwf as [? ? ? ?]. constructor; try done. }
  assert (Hg1 : forall c' o, good c1 c' o -> good c c' o).
  { intros c' o (? & Hm & ?). split; [done|]. split; [exact Hm|done]. }
  destruct err as [err|]; [wp_seq; by apply Hg1, good_refl|].
  wp_seq. eapply wp_get_verSet; [done|]. cbn beta iota. cbn [app].
  destruct (c_waitingForRoundChange c1 && (num =? F vs + 1)); wp_seq.
  - destruct (_ <? 0).
    + eapply wp_mono; [by apply sendRoundChange_spec|]. intros [] c' o Hg. wp_seq.
      rewrite app_nil_r. by apply Hg1.
    + wp_seq. by apply Hg1, good_refl.
  - destruct ((num =? 2 * F vs + 1) && _) eqn:Hstart; wp_seq.
    + eapply wp_mono; [apply startNewRound_spec; [done|by apply core_wf_queues|by right|]|].
      { right. apply andb_true_iff in Hstart as [_ [?|Hlt]%orb_true_iff]; [by left|right].
        intros cur0 Hc0. assert (cur0 = cur) as -> by (cbn in Hc0; congruence).
        destruct (big_Cmp_spec (v_Round (view_of cur)) (v_Round (sub_View rc)))
          as [[? Hb]|[[? Hb]|[? Hb]]]; rewrite Hb in Hlt; cbn in *; lia. }
      intros [] c' o Hg. wp_seq. rewrite app_nil_r. by apply Hg1.
    + destruct (_ <? 0); wp_seq; by apply Hg1, good_refl.
Qed.

(** Setting the state and then broadcasting a subject. *)
Lemma announce_spec c s code cur sub :
  core_wf c -> s <> StateAcceptRequest -> c_state c <> StateCommitted -> c_current c = Some cur ->
  roundState_Subject cur = Some sub ->
  wp (setState s ;;; cur <- get_current ;; broadcast_subject server code (roundState_Subject cur)) c
    (fun _ c' o => good c c' o).
Proof.
  intros Hwf Hs Hst Hc Hsub. wp_seq. eapply wp_mono; [by apply setState_good|].
  intros [] c1 o1 [Hg Hsr]. wp_seq. eapply (wp_get_current _ cur).
  { by rewrite (sr_current _ _ Hsr). }
  rewrite Hsub. cbn [app].
  eapply wp_mono; [apply broadcast_subject_spec, Hg|]. intros [] c2 o2 [-> Ho].
  eapply good_trans; [exact Hg|]. apply good_same; [apply Hg|done].
Qed.

(** A proposal is accepted while no message is counted. *)
Lemma SetPreprepare_wf vs cur pp :
  round_wf vs cur -> quiet_round cur -> round_wf vs (SetPreprepare cur pp).
Proof.
  intros [? ? ? ? ? ?] [? ?]. constructor; try done; cbn; [eauto|..]; by eapply msgs_ok_empty.
Qed.

Lemma LockHash_wf vs cur : round_wf vs cur -> round_wf vs (LockHash cur).
Proof.
  intros Hrw. unfold LockHash. destruct (rs_Preprepare cur) as [pp|] eqn:Hpp; [|done].
  destruct Hrw as [? ? ? ? Hp Hco]. constructor; done.
Qed.

Lemma LockHash_same cur :
  view_of (LockHash cur) = view_of cur /\ roundState_Subject (LockHash cur) = roundState_Subject cur
  /\ roundState_Proposal (LockHash cur) = roundState_Proposal cur
  /\ rs_Prepares (LockHash cur) = rs_Prepares cur /\ rs_Commits (LockHash cur) = rs_Commits cur.
Proof.
  unfold LockHash, roundState_Subject, roundState_Proposal.
  destruct (rs_Preprepare cur) eqn:Hpp; cbn; by rewrite ?Hpp.
Qed.

(** Accepting a proposal in the round, as the two branches of
    [handlePreprepare] do. *)
Lemma accept_and_announce c vs cur pp s code :
  core_wf c -> c_verSet c = Some vs -> c_current c = Some cur -> round_wf vs cur ->
  quiet_round cur -> s <> StateAcceptRequest -> c_state c <> StateCommitted ->
  wp (acceptPreprepare pp ;;; setState s ;;;
      cur <- get_current ;; broadcast_subject server code (roundState_Subject cur)) c
    (fun _ c' o => good c c' o).
Proof.
  intros Hwf Hv Hc Hrw Hq Hs Hst. unfold acceptPreprepare.
  apply wp_bind, wp_bind. eapply wp_get_current; [done|].
  apply wp_modify. cbn [app].
  destruct (set_current_wf c vs cur (SetPreprepare cur pp)) as [Hwf1 Hm1]; try done.
  { by apply SetPreprepare_wf. }
  eapply wp_mono; [by eapply announce_spec|].
  intros [] c' o (? & ? & ?). split; [done|]. split; [by eapply view_mono_trans|done].
Qed.

Lemma handlePreprepare_spec c msg src :
  core_wf c -> wp (handlePreprepare server msg src) c (fun _ c' o => good c c' o).
Proof.
  intros Hwf. destruct (cw_round _ Hwf) as (vs & cur & Hv & Hc & Hrw & Hq).
  unfold handlePreprepare. destruct (decode_preprepare _) as [pp|]; [|wp_seq; by apply good_refl].
  wp_seq. eapply wp_checkMessage; [done|]. cbn beta iota. cbn [app].
  destruct (check_verdict _ _ _ _) as [err|].
  - case_bool_decide; [|wp_seq; by apply good_refl].
    destruct (_ && _); [|wp_seq; by apply good_refl]. wp_seq.
    eapply wp_mono; [by apply broadcast_subject_spec|]. intros [] c' o [-> Ho]. wp_seq.
    rewrite app_nil_r. by apply good_same.
  - wp_seq. eapply wp_get_verSet; [done|]. cbn beta iota. cbn [app].
    destruct (negb _); [wp_seq; by apply good_refl|].
    destruct (srv_Verify _ _) as [duration [err|]]; wp_seq.
    + case_bool_decide; wp_seq.
      * apply good_same; [done|]. intros x Hx.
        repeat (apply elem_of_cons in Hx as [->|Hx]; [done|]). by apply not_elem_of_nil in Hx.
      * eapply wp_mono; [by apply sendNextRoundChange_spec|]. intros [] c' o Hg. wp_seq.
        by rewrite app_nil_r.
    + eapply (wp_mono _ _ (fun _ c' o => good c c' o));
        [|intros [] c' o Hg; wp_seq; by rewrite app_nil_r].
      case_bool_decide as Hs; [|wp_seq; by apply good_refl].
      wp_seq. eapply wp_get_current; [done|]. cbn beta iota. cbn [app].
      destruct (IsHashLocked _ cur).
      * case_bool_decide; [|by apply sendNextRoundChange_spec].
        eapply accept_and_announce; eauto; congruence.
      * eapply accept_and_announce; eauto; congruence.
Qed.

Lemma wp_verify_subject c cur sub (Q : option BftError -> core -> list Output -> Prop) :
  c_current c = Some cur ->
  Q (if bool_decide (Some sub = roundState_Subject cur) then None
     else Some errInconsistentSubjects) c [] ->
  wp (verify_subject sub) c Q.
Proof. intros Hc HQ. unfold verify_subject. wp_seq. eapply wp_get_current; [done|]. by wp_seq. Qed.

(** The wellformedness of a round in which a message of the round is counted. *)
Lemma accept_wf vs cur sub msg :
  round_wf vs cur -> roundState_Subject cur = Some sub -> decode_subject (m_Msg msg) = Some sub ->
  delivered vs msg ->
  (m_Code msg = msgPrepare -> round_wf vs (rs_set_Prepares cur (messageSet_Add (rs_Prepares cur) msg).1))
  /\ (m_Code msg = msgCommit -> round_wf vs (rs_set_Commits cur (messageSet_Add (rs_Commits cur) msg).1)).
Proof.
  intros [? ? ? ? Hp Hco] Hsub Hd Hdel.
  assert (Hsame : forall ms, roundState_Subject (rs_set_Prepares cur ms) = Some sub
                     /\ roundState_Subject (rs_set_Commits cur ms) = Some sub) by done.
  rewrite Hsub in Hp, Hco.
  split; intros Hcode; constructor; try done; rewrite ?(proj1 (Hsame _)), ?(proj2 (Hsame _)); try done;
    by apply messageSet_Add_ok.
Qed.

(** Locking the round on its proposal. *)
Lemma lock_current_spec c vs cur :
  core_wf c -> c_verSet c = Some vs -> c_current c = Some cur -> round_wf vs cur ->
  c_waitingForRoundChange c = false -> c_state c <> StateAcceptRequest ->
  core_wf (set_current (LockHash cur) c) /\ view_mono c (set_current (LockHash cur) c).
Proof.
  intros Hwf Hv Hc Hrw Hw Hst. eapply set_current_wf; try done.
  - by apply LockHash_wf.
  - intros [?|?]; congruence.
  - apply LockHash_same.
Qed.

Lemma handlePrepare_spec c msg src :
  core_wf c -> m_Code msg = msgPrepare -> (forall vs, c_verSet c = Some vs -> delivered vs msg) ->
  wp (handlePrepare server msg src) c (fun _ c' o => good c c' o).
Proof.
  intros Hwf Hcode Hdel. destruct (cw_round _ Hwf) as (vs & cur & Hv & Hc & Hrw & Hq).
  specialize (Hdel _ Hv).
  unfold handlePrepare. destruct (decode_subject _) as [sub|] eqn:Hd; [|wp_seq; by apply good_refl].
  wp_seq. eapply wp_checkMessage; [done|]. cbn beta iota. cbn [app].
  destruct (check_verdict _ _ _ _) as [err|] eqn:Hcv; [wp_seq; by apply good_refl|].
  apply check_verdict_None in Hcv as (_ & Hw & Hst).
  assert (Hst' : c_state c <> StateAcceptRequest) by (intros Ha; by specialize (Hst Ha)).
  wp_seq. eapply wp_verify_subject; [done|]. cbn beta iota. cbn [app].
  case_bool_decide as Hsub; [|wp_seq; by apply good_refl].
  wp_seq. unfold acceptPrepare. wp_seq. eapply wp_get_current; [done|]. wp_seq.
  set (cur1 := rs_set_Prepares _ _).
  assert (Hrw1 : round_wf vs cur1) by (by eapply accept_wf).
  destruct (set_current_wf c vs cur cur1) as [Hwf1 Hm1]; try done.
  { intros [?|?]; congruence. }
  wp_seq. eapply wp_get_current; [done|]. wp_seq. eapply wp_get_verSet; [done|].
  cbn beta iota. cbn [app].
  apply wp_bind. eapply (wp_mono _ _ (fun _ c' o => good (set_current cur1 c) c' o)).
  2:{ intros [] c' o (? & ? & ?). wp_seq. rewrite app_nil_r. split; [done|].
      split; [by eapply view_mono_trans|done]. }
  destruct (_ && (State_Cmp _ _ <? 0)) eqn:Hif; [|wp_seq; by apply good_refl].
  apply andb_true_iff in Hif as [_ Hlow].
  apply wp_bind. unfold lock_current. wp_seq. eapply wp_get_current; [done|].
  apply wp_modify. cbn [app].
  destruct (lock_current_spec (set_current cur1 c) vs cur1) as [Hwf2 Hm2]; try done.
  eapply wp_mono; [eapply announce_spec; try done|].
  - intros Heq. cbn in Heq, Hlow. by rewrite Heq in Hlow.
  - rewrite (proj1 (proj2 (LockHash_same cur1))). done.
  - intros [] c' o (? & ? & ?). split; [done|]. split; [by eapply view_mono_trans|done].
Qed.
End handlers.
