(* ===== verification/BftSafety.v ===== *)
(** * Safety of the BFT consensus core

    What a node does with one event, and over any run: it never dereferences a
    nil pointer, its view never goes back, a block is handed to the server only
    on a quorum of commit messages for that block in that view, and once per
    view; a node locked on a proposal answers another one with a round change. *)

From Stdlib Require Import ZArith Lia.
From S2P Require Import Prelude Common GoHeap Verifier BftTypes BftCore BftProofs.

Open Scope Z_scope.
Open Scope go_scope.

(** ** Commits *)

Section commits.
Context `{Codec} {HI : Inbox}.
Context (server : Server).
Implicit Types (c : core).

(** The blocks handed to the server, with their seals. *)
Definition commits_of (o : list Output) : list (Proposal * list bytes) :=
  omap (fun x => match x with OCommit p seals => Some (p, seals) | _ => None end) o.

Lemma commits_of_no_commit o : no_commit o -> commits_of o = [].
Proof.
  induction o as [|x o IH]; intros Ho; [done|]. cbn.
  assert (Hx : is_commit x = false) by (apply Ho; left).
  destruct x; try done; apply IH; intros y Hy; apply Ho; by right.
Qed.

Lemma commits_of_app o1 o2 : commits_of (o1 ++ o2) = commits_of o1 ++ commits_of o2.
Proof. apply omap_app. Qed.

(** The round that follows a commit: closed, or left. *)
Definition left_behind (cur : roundState) (c' : core) : Prop :=
  exists cur', c_current c' = Some cur'
    /\ (view_lt (view_of cur) (view_of cur') \/ (view_of cur' = view_of cur /\ closed c')).

(** The event made the node commit the proposal of its round, on a quorum, and
    closed the round (or left it, when the server refused the block). *)
Definition committed_once (c c' : core) (o : list Output) : Prop :=
  exists vs cur p seals,
    c_verSet c = Some vs /\ c_current c = Some cur
    /\ c_waitingForRoundChange c = false /\ c_state c <> StateCommitted
    /\ roundState_Proposal cur = Some p
    /\ commits_of o = [(p, seals)] /\ commit_justified vs (view_of cur) p seals
    /\ left_behind cur c'.

(** What an event leaves behind. *)
Definition event_ok (c c' : core) (o : list Output) : Prop :=
  core_wf c' /\ view_mono c c' /\ (no_commit o \/ committed_once c c' o).

Lemma good_event_ok c c' o : good c c' o -> event_ok c c' o.
Proof. intros (? & ? & ?). split; [done|]. split; [done|by left]. Qed.

(** Doing more that commits nothing and stays in the round. *)
Lemma event_ok_more c c1 c2 o1 o2 :
  event_ok c c1 o1 -> core_wf c2 -> same_round c1 c2 -> no_commit o2 -> event_ok c c2 (o1 ++ o2).
Proof.
  intros (Hwf & Hm & Hc) Hwf2 Hs Ho. split; [done|]. split.
  { eapply view_mono_trans; [done|]. by apply same_round_mono. }
  destruct Hc as [?|(vs & cur & p & seals & ? & ? & ? & ? & ? & Hcm & ? & cur' & Hc1 & Hcl)].
  - left. by apply no_commit_app.
  - right. exists vs, cur, p, seals. do 5 (split; [done|]).
    split; [by rewrite commits_of_app, Hcm, (commits_of_no_commit o2)|]. split; [done|].
    exists cur'. split; [by rewrite (sr_current _ _ Hs)|].
    unfold closed in *. by rewrite (sr_waiting _ _ Hs), (sr_state _ _ Hs).
Qed.

(** [commit]: the quorum of the round is handed to the server. *)
Lemma core_commit_spec c vs cur p :
  core_wf c -> c_verSet c = Some vs -> c_current c = Some cur -> round_wf vs cur ->
  c_waitingForRoundChange c = false -> c_state c <> StateCommitted ->
  roundState_Proposal cur = Some p -> 2 * F vs < messageSet_Size (rs_Commits cur) ->
  wp (core_commit server) c (fun _ c' o => core_wf c' /\ view_mono c c'
    /\ exists seals, commits_of o = [(p, seals)] /\ commit_justified vs (view_of cur) p seals
    /\ left_behind cur c').
Proof.
  intros Hwf Hv Hc Hrw Hw Hst Hp Hsz. unfold core_commit. wp_seq.
  eapply wp_mono; [by apply setState_good|]. intros [] c1 o1 [(Hwf1 & Hm1 & Ho1) Hsr].
  assert (Hc1 : c_current c1 = Some cur) by (by rewrite (sr_current _ _ Hsr)).
  assert (Hv1 : c_verSet c1 = Some vs) by (by rewrite (sr_verSet _ _ Hsr)).
  wp_seq. eapply wp_get_current; [done|]. rewrite Hp. wp_seq.
  set (seals := map _ _).
  assert (Hj : commit_justified vs (view_of cur) p seals).
  { exists (messageSet_Values (rs_Commits cur)). split; [|split; [|done]].
    - by eapply messageSet_quorum, Hsz; eapply rw_commits.
    - intros m [a Hm]%messageSet_Values_elem.
      destruct (mo_messages _ _ _ _ (rw_commits _ _ Hrw) _ _ Hm) as (_ & _ & (sub & Hsub & ->) & Hcode & Hdel).
      do 2 (split; [done|]). rewrite <- Hsub. unfold roundState_Subject, roundState_Proposal in *.
      by destruct (rs_Preprepare cur); simplify_eq. }
  assert (Hcm : commits_of (o1 ++ [OCommit p seals]) = [(p, seals)]).
  { by rewrite commits_of_app, (commits_of_no_commit o1). }
  destruct (srv_Commit server p seals) as [err|]; wp_seq.
  - eapply wp_get_current; [done|]. wp_seq.
    destruct (set_current_wf c1 vs cur (UnlockHash cur)) as [Hwf2 Hm2]; try done.
    { destruct Hrw. constructor; try done. }
    { unfold closed in *. rewrite (sr_waiting _ _ Hsr), (sr_state _ _ Hsr). cbn.
      rewrite Hw. by intros [?|?]. }
    eapply wp_mono; [by eapply sendNextRoundChange_moves|].
    intros [] c3 o3 [(Hwf3 & Hm3 & Ho3) (cur3 & Hc3 & Hlt)].
    split; [done|]. split; [by do 2 (eapply view_mono_trans; [done|])|].
    exists seals. split; [|split; [done|]].
    + change (OCommit p seals :: o3) with ([OCommit p seals] ++ o3).
      by rewrite app_assoc, commits_of_app, Hcm, (commits_of_no_commit o3).
    + exists cur3. split; [done|]. by left.
  - split; [done|]. split; [done|]. exists seals. split; [done|]. split; [done|].
    exists cur. split; [done|]. right. split; [done|]. unfold closed.
    by rewrite (sr_waiting _ _ Hsr), (sr_state _ _ Hsr).
Qed.

Lemma handleCommit_spec c msg src :
  core_wf c -> m_Code msg = msgCommit -> (forall vs, c_verSet c = Some vs -> delivered vs msg) ->
  wp (handleCommit server msg src) c (fun _ c' o => event_ok c c' o).
Proof.
  intros Hwf Hcode Hdel. destruct (cw_round _ Hwf) as (vs & cur & Hv & Hc & Hrw & Hq).
  specialize (Hdel _ Hv).
  assert (Hrefl : event_ok c c []) by (by apply good_event_ok, good_refl).
  unfold handleCommit. destruct (decode_subject _) as [sub|] eqn:Hd; [|by wp_seq].
  wp_seq. eapply wp_checkMessage; [done|]. cbn beta iota. cbn [app].
  destruct (check_verdict _ _ _ _) as [err|] eqn:Hcv; [by wp_seq|].
  apply check_verdict_None in Hcv as (_ & Hw & Hst).
  assert (Hst' : c_state c <> StateAcceptRequest) by (intros Ha; by specialize (Hst Ha)).
  wp_seq. eapply wp_verify_subject; [done|]. cbn beta iota. cbn [app].
  case_bool_decide as Hsub; [|by wp_seq].
  wp_seq. unfold acceptCommit. wp_seq. eapply wp_get_current; [done|]. wp_seq.
  set (cur1 := rs_set_Commits _ _).
  assert (Hrw1 : round_wf vs cur1) by (by eapply accept_wf).
  destruct (set_current_wf c vs cur cur1) as [Hwf1 Hm1]; try done.
  { intros [?|?]; congruence. }
  wp_seq. eapply wp_get_current; [done|]. wp_seq. eapply wp_get_verSet; [done|].
  cbn beta iota. cbn [app]. apply wp_bind.
  destruct (_ && (State_Cmp _ _ <? 0)) eqn:Hif.
  2:{ wp_seq. split; [done|]. split; [done|]. left. apply no_commit_nil. }
  apply andb_true_iff in Hif as [Hsz Hlow].
  assert (Hnc : c_state c <> StateCommitted).
  { intros Heq. cbn in Hlow. by rewrite Heq in Hlow. }
  wp_seq. unfold lock_current. wp_seq. eapply wp_get_current; [done|]. wp_seq.
  destruct (lock_current_spec (set_current cur1 c) vs cur1) as [Hwf2 Hm2]; try done.
  destruct (LockHash_same cur1) as (Hv2 & _ & Hp2 & _ & Hco2).
  assert (Hp : exists p, roundState_Proposal cur = Some p).
  { unfold roundState_Subject, roundState_Proposal in *.
    destruct (rs_Preprepare cur); [eauto|done]. }
  destruct Hp as [p Hp].
  eapply wp_mono; [eapply core_commit_spec with (p := p); try done|].
  - by apply LockHash_wf.
  - by rewrite Hp2.
  - rewrite Hco2. lia.
  - intros [] c' o (? & ? & seals & Hcm & Hj & Hleft). wp_seq. rewrite app_nil_r.
    unfold left_behind in Hleft. rewrite Hv2 in Hj, Hleft.
    split; [done|]. split; [by do 2 (eapply view_mono_trans; [done|])|].
    right. exists vs, cur, p, seals. done.
Qed.
End commits.

(** ** Events *)

(** The message that an event brings to a node with a set of verifiers. *)
Definition event_delivers `{Codec} (vs : basicSet) (e : Event) (m : message) : Prop :=
  match e with
  | MessageEvent payload => ValidatePayload vs payload = inl m
  | backlogEvent _ msg => m = msg
  | _ => False
  end.

(** What some events have brought. *)
Definition inbox_of `{Codec} (es : list Event) : Inbox := fun vs m => exists e, e ∈ es /\ event_delivers vs e m.

Section events.
Context `{Codec} {HI : Inbox}.
Context (server : Server).
Implicit Types (c : core).

Lemma storeBacklog_spec c msg src :
  core_wf c -> wp (storeBacklog msg src) c
    (fun _ c' o => core_wf c' /\ same_round c c' /\ no_commit o).
Proof.
  intros Hwf. unfold storeBacklog. wp_seq.
  case_bool_decide; [wp_seq; auto with seele|]. wp_seq.
  assert (Hs : forall b, same_round c (set_backlogs b c)) by done.
  split; [|split; [done|apply no_commit_nil]].
  eapply same_round_wf; [done|done|]. destruct (core_wf_queues c Hwf) as [Hb Hp].
  split; [|done]. cbn. intros a q [[<- <-]|[_ Hlk]]%lookup_insert_Some; [|by eapply Hb].
  assert (Hold : prque_ok match c_backlogs c !! src with Some q => q | None => prque_New end).
  { destruct (c_backlogs c !! src) eqn:Hq; [by eapply Hb|apply prque_New_ok]. }
  destruct (message_view msg); [by apply prque_Push_ok|done].
Qed.

Lemma storeRequestMsg_spec c r :
  core_wf c -> is_Some (req_Proposal r) ->
  wp (storeRequestMsg r) c (fun _ c' o => core_wf c' /\ same_round c c' /\ no_commit o).
Proof.
  intros Hwf [p Hp]. unfold storeRequestMsg. wp_seq. eapply wp_deref; [done|]. wp_seq.
  destruct (core_wf_queues c Hwf) as [Hb Hq].
  assert (Hs : forall q, same_round c (set_pendingRequests q c)) by done.
  split; [|split; [done|apply no_commit_nil]].
  eapply same_round_wf; [done|done|]. split; [done|]. by apply prque_Push_ok.
Qed.

Lemma handleCheckedMsg_spec c msg src :
  server_ok server -> core_wf c -> (forall vs, c_verSet c = Some vs -> delivered vs msg) ->
  wp (handleCheckedMsg server msg src) c (fun _ c' o => event_ok c c' o).
Proof.
  intros Hsrv Hwf Hdel. unfold handleCheckedMsg.
  assert (Hback : forall r : CoreM (option BftError),
    wp r c (fun _ c' o => event_ok c c' o) ->
    wp (err <- r ;;
        (if bool_decide (err = Some errMsgFromFuture) then storeBacklog msg src else go_ret tt) ;;;
        go_ret err) c (fun _ c' o => event_ok c c' o)).
  { intros r Hr. apply wp_bind. eapply wp_mono; [exact Hr|]. intros err c1 o1 Hev. wp_seq.
    case_bool_decide; wp_seq.
    - eapply wp_mono; [apply storeBacklog_spec, Hev|]. intros [] c2 o2 (? & ? & ?). wp_seq.
      rewrite app_nil_r. eapply event_ok_more; [exact Hev|done..].
    - by rewrite app_nil_r. }
  destruct (_ =? msgPreprepare).
  { apply Hback. eapply wp_mono; [by apply handlePreprepare_spec|]. intros. by apply good_event_ok. }
  destruct (Z.eqb_spec (m_Code msg) msgPrepare).
  { apply Hback. eapply wp_mono; [by apply handlePrepare_spec|]. intros. by apply good_event_ok. }
  destruct (Z.eqb_spec (m_Code msg) msgCommit); [by apply Hback, handleCommit_spec|].
  destruct (_ =? msgRoundChange).
  { apply Hback. eapply wp_mono; [by apply handleRoundChange_spec|]. intros. by apply good_event_ok. }
  wp_seq. by apply good_event_ok, good_refl.
Qed.

Lemma handleMsg_spec c payload :
  server_ok server -> core_wf c ->
  (forall vs m, c_verSet c = Some vs -> ValidatePayload vs payload = inl m -> delivered vs m) ->
  wp (handleMsg server payload) c (fun _ c' o => event_ok c c' o).
Proof.
  intros Hsrv Hwf Hdel. destruct (cw_round _ Hwf) as (vs & cur & Hv & _).
  assert (Hrefl : event_ok c c []) by (by apply good_event_ok, good_refl).
  unfold handleMsg. wp_seq. eapply wp_get_verSet; [done|]. cbn beta iota. cbn [app].
  destruct (ValidatePayload vs payload) as [msg|err] eqn:Hval; [|by wp_seq].
  destruct (GetVerByAddress vs (m_Address msg)).2; [|by wp_seq].
  apply handleCheckedMsg_spec; [done|done|]. intros vs' Hv'. simplify_eq. by apply Hdel.
Qed.

Lemma startNewRound_zero c :
  server_ok server -> core_wf c ->
  wp (startNewRound server 0) c (fun _ c' o => good c c' o).
Proof.
  intros ? Hwf. apply startNewRound_spec; [done|by apply core_wf_queues|by right|by left].
Qed.

Lemma handleTimeoutMsg_spec c :
  server_ok server -> core_wf c ->
  wp (handleTimeoutMsg server) c (fun _ c' o => good c c' o).
Proof.
  intros Hsrv Hwf. destruct (cw_round _ Hwf) as (vs & cur & Hv & Hc & _).
  destruct (cw_rcs _ Hwf) as [rcs Hrcs].
  unfold handleTimeoutMsg. wp_seq. eapply wp_get_current; [done|]. cbn beta iota. cbn [app].
  pose proof Hsrv as (lp & Hlp & _). rewrite Hlp.
  set (rest := go_bind (go_deref (Some lp)) _).
  assert (Hrest : wp rest c (fun _ c' o => good c c' o)).
  { unfold rest. wp_seq. eapply wp_deref; [done|]. cbn beta iota. cbn [app].
    destruct (_ <=? _); [by apply startNewRound_zero|by apply sendNextRoundChange_spec]. }
  destruct (c_waitingForRoundChange c); [done|].
  wp_seq. eapply wp_get_roundChangeSet; [done|]. wp_seq. eapply wp_get_verSet; [done|].
  cbn beta iota. cbn [app]. destruct (roundChangeSet_MaxRound _ _); [|done].
  destruct (0 <? _); [by apply sendRoundChange_spec|done].
Qed.

(** Telling the others about a message that was accepted. *)
Lemma gossip_after c c1 o1 payload :
  event_ok c c1 o1 ->
  wp (verSet <- get_verSet ;; go_emit (OGossip verSet payload)) c1
    (fun _ c' o => event_ok c c' (o1 ++ o)).
Proof.
  intros Hev. destruct (cw_round _ (proj1 Hev)) as (vs & cur & Hv & _).
  wp_seq. eapply wp_get_verSet; [done|]. wp_seq.
  eapply event_ok_more; [done|apply Hev|apply same_round_refl|by apply no_commit_one].
Qed.

Lemma handleEvent_spec c e :
  server_ok server -> core_wf c ->
  (forall vs m, c_verSet c = Some vs -> event_delivers vs e m -> delivered vs m) ->
  wp (handleEvent server e) c (fun _ c' o => event_ok c c' o).
Proof.
  intros Hsrv Hwf Hdel. unfold handleEvent. destruct e as [p|payload|src msg| |].
  - wp_seq. eapply wp_mono; [by apply handleRequest_spec|]. intros err c1 o1 [Hg Hp].
    case_bool_decide as He.
    + eapply wp_mono; [apply storeRequestMsg_spec; [apply Hg|by apply Hp]|].
      intros [] c2 o2 (? & ? & ?). by eapply event_ok_more; [apply good_event_ok|..].
    + wp_seq. rewrite app_nil_r. by apply good_event_ok.
  - wp_seq. eapply wp_mono; [by apply handleMsg_spec|]. intros [err|] c1 o1 Hev.
    + wp_seq. by rewrite app_nil_r.
    + by apply gossip_after.
  - wp_seq. eapply wp_mono; [apply handleCheckedMsg_spec; [done..|]; intros vs Hvs; by eapply Hdel|]. intros [err|] c1 o1 Hev.
    + wp_seq. by rewrite app_nil_r.
    + destruct (encode_message msg); [by apply gossip_after|]. wp_seq. by rewrite app_nil_r.
  - eapply wp_mono; [by apply handleTimeoutMsg_spec|]. intros. by apply good_event_ok.
  - eapply wp_mono; [by apply startNewRound_zero|]. intros. by apply good_event_ok.
Qed.

Lemma Start_spec timeout :
  server_ok server ->
  wp (Start server) (NewCore server timeout) (fun _ c' o => core_wf c' /\ no_commit o).
Proof.
  intros Hsrv. unfold Start. eapply wp_mono.
  - apply startNewRound_spec; [done| |by left|by left].
    split; cbn; [|apply prque_New_ok]. intros a q Hlk. by rewrite lookup_empty in Hlk.
  - by intros [] c' o (? & _ & ?).
Qed.
End events.

(** ** Runs

    A node takes its events from queues that other goroutines fill, so a run is
    any sequence of events, each with the answers that the server gives while
    it is handled. *)

Section runs.
Context `{Codec}.
Implicit Types (c : core).

Definition current_view (c : core) : View :=
  match c_current c with Some cur => view_of cur | None => mkView 0 0 end.

(** The commits of an event, with the view they are made in. *)
Definition commit_log (c : core) (o : list Output) : list (View * Proposal) :=
  map (fun ps => (current_view c, ps.1)) (commits_of o).

Fixpoint run (l : list (Server * Event)) (c : core) : option (core * list (View * Proposal)) :=
  match l with
  | [] => Some (c, [])
  | (server, e) :: l' =>
      match handleEvent server e c with
      | None => None
      | Some (_, c1, o) =>
          match run l' c1 with
          | None => None
          | Some (c2, log) => Some (c2, commit_log c o ++ log)
          end
      end
  end.

(** [Start] and then the events. *)
Definition run_node (server : Server) (timeout : Z) (l : list (Server * Event))
    : option (core * list (View * Proposal)) :=
  match Start server (NewCore server timeout) with
  | None => None
  | Some (_, c, _) => run l c
  end.

(** More events bring more messages. *)
Lemma core_wf_more es es' c : es ⊆ es' -> @core_wf _ (inbox_of es) c -> @core_wf _ (inbox_of es') c.
Proof.
  intros Hsub [? (vs & cur & ? & ? & [? ? ? ? Hp Hco] & Hq) ? ?]. constructor; try done.
  exists vs, cur. do 2 (split; [done|]). split; [|done].
  assert (Hm : forall code sub ms, @msgs_ok _ (inbox_of es) code vs sub ms -> @msgs_ok _ (inbox_of es') code vs sub ms).
  { intros code sub ms [Hv Hms]. constructor; [done|]. intros a m (? & ? & ? & ? & e & ? & ?)%Hms.
    repeat split; try done. exists e. auto. }
  constructor; auto.
Qed.

Lemma current_view_eq c cur : c_current c = Some cur -> current_view c = view_of cur.
Proof. unfold current_view. by intros ->. Qed.

(** Views are not smaller than the one the run starts in, and are larger when
    its round is closed. *)
Definition view_after (c : core) (v : View) : Prop :=
  view_lt (current_view c) v \/ (v = current_view c /\ ~ closed c).

Lemma view_after_mono {HI : Inbox} c c1 v :
  core_wf c -> view_mono c c1 -> view_after c1 v -> view_after c v.
Proof.
  intros Hwf Hm. destruct (cw_round _ Hwf) as (vs & cur & _ & Hc & _).
  destruct (Hm _ Hc) as (cur1 & Hc1 & Hcase). unfold view_after.
  rewrite (current_view_eq _ _ Hc), (current_view_eq _ _ Hc1).
  destruct Hcase as [Hlt|[Heq Hcl]], 1 as [?|[-> ?]]; rewrite ?Heq in *; auto.
  - left. by eapply view_lt_trans.
  - right. split; [done|]. auto.
Qed.

Lemma view_after_left c cur v : left_behind cur c -> view_after c v -> view_lt (view_of cur) v.
Proof.
  intros (cur' & Hc & Hcase). unfold view_after. rewrite (current_view_eq _ _ Hc).
  destruct Hcase as [?|[Heq Hcl]], 1 as [?|[-> ?]]; rewrite ?Heq in *; try done.
  by eapply view_lt_trans.
Qed.

(** The log of one event: empty, or one commit in an open round. *)
Lemma commit_log_event {HI : Inbox} c c' o :
  event_ok c c' o ->
  commit_log c o = []
  \/ exists p, commit_log c o = [(current_view c, p)] /\ ~ closed c
       /\ forall v, view_after c' v -> view_lt (current_view c) v.
Proof.
  intros (_ & _ & [Hn|(vs & cur & p & seals & _ & Hc & Hw & Hst & _ & Hcm & _ & Hleft)]).
  - left. unfold commit_log. by rewrite commits_of_no_commit.
  - right. exists p. unfold commit_log. rewrite Hcm. split; [done|]. split; [by intros []|].
    intros v Hv. rewrite (current_view_eq _ _ Hc). by eapply view_after_left.
Qed.

(** One event, with the inbox that it makes larger. *)
Lemma handleEvent_inbox es server c e :
  server_ok server -> @core_wf _ (inbox_of es) c ->
  wp (handleEvent server e) c (fun _ c' o => @event_ok _ (inbox_of (es ++ [e])) c c' o).
Proof.
  intros Hsrv Hwf. apply handleEvent_spec; [done| |].
  - eapply core_wf_more; [|exact Hwf]. set_solver.
  - intros vs m _ Hm. exists e. set_solver.
Qed.

Lemma run_spec l es c :
  Forall (fun se => server_ok se.1) l -> @core_wf _ (inbox_of es) c ->
  exists c' log, run l c = Some (c', log) /\ @core_wf _ (inbox_of (es ++ l.*2)) c'
    /\ StronglySorted view_lt log.*1 /\ Forall (view_after c) log.*1.
Proof.
  revert es c; induction l as [|[server e] l IH]; intros es c Hl Hwf; cbn [run].
  { exists c, []. rewrite app_nil_r. split; [done|]. split; [done|]. split; constructor. }
  apply Forall_cons in Hl as [Hsrv Hl].
  pose proof (handleEvent_inbox es server c e Hsrv Hwf) as Hev. unfold wp in Hev.
  destruct (handleEvent server e c) as [[[[] c1] o]|]; [|done].
  pose proof Hev as (Hwf1 & Hm & _).
  destruct (IH _ c1 Hl Hwf1) as (c2 & log & -> & Hwf2 & Hsort & Hall). rewrite <-app_assoc in Hwf2.
  exists c2, (commit_log c o ++ log). split; [done|]. split; [done|].
  rewrite fmap_app.
  assert (Hall' : Forall (view_after c) log.*1).
  { eapply Forall_impl; [exact Hall|]. intros v Hv. eapply (@view_after_mono (inbox_of es)); done. }
  destruct (commit_log_event c c1 o Hev) as [->|(p & -> & Hop & Hlt)]; [done|]. cbn. split.
  - constructor; [done|]. eapply Forall_impl; [exact Hall|]. done.
  - constructor; [by right|done].
Qed.
End runs.

(** ** Locked proposals *)

Section locks.
Context `{Codec}.
Context (server : Server).
Implicit Types (c : core).

(** Every message sent is a round change. *)
Definition only_round_changes (o : list Output) : Prop :=
  forall vs m payload, OBroadcast vs m payload ∈ o -> m_Code m = msgRoundChange.

(** The node stays locked on the same proposal. *)
Definition lock_kept (cur : roundState) (c' : core) : Prop :=
  exists cur', c_current c' = Some cur' /\ rs_lockedHash cur' = rs_lockedHash cur
    /\ rs_Preprepare cur' = rs_Preprepare cur.

Lemma catchUpRound_locked c vs cur rcs view :
  c_verSet c = Some vs -> c_current c = Some cur -> c_roundChangeSet c = Some rcs ->
  IsHashLocked (srv_HasBadProposal server) cur = true ->
  wp (catchUpRound server view) c (fun _ c' o =>
    c_verSet c' = Some vs /\ lock_kept cur c' /\ only_round_changes o).
Proof.
  intros Hv Hc Hr Hl. unfold catchUpRound. wp_seq. eapply wp_get_verSet; [done|]. wp_seq.
  apply wp_updateRoundState. cbn [c_current set_waiting]. rewrite Hc. unfold next_round.
  rewrite Hl. wp_seq. eapply wp_get_roundChangeSet; [done|]. wp_seq.
  unfold newRoundChangeTimer, stopTimer. wp_seq. eapply wp_get_current; [done|]. wp_seq.
  split; [done|]. split; [by eexists|]. intros vs' m pl Hin.
  repeat (apply elem_of_cons in Hin as [Hx|Hin]; [done|]). by apply not_elem_of_nil in Hin.
Qed.

Lemma sendNextRoundChange_locked c vs cur rcs :
  c_verSet c = Some vs -> c_current c = Some cur -> c_roundChangeSet c = Some rcs ->
  IsHashLocked (srv_HasBadProposal server) cur = true ->
  wp (sendNextRoundChange server) c (fun _ c' o => lock_kept cur c' /\ only_round_changes o).
Proof.
  intros Hv Hc Hr Hl. unfold sendNextRoundChange, sendRoundChange. wp_seq.
  eapply wp_currentView; [done|]. wp_seq. eapply wp_currentView; [done|].
  cbn beta iota. cbn [app]. destruct (0 <=? _).
  { wp_seq. split; [by eexists|]. intros ? ? ? Hin. by apply not_elem_of_nil in Hin. }
  wp_seq. eapply wp_mono; [by eapply catchUpRound_locked|].
  intros [] c1 o1 (Hv1 & Hlk & Ho). pose proof Hlk as (cur1 & Hc1 & _). wp_seq.
  eapply wp_currentView; [done|]. cbn beta iota. cbn [app].
  destruct (encode_subject _); [|wp_seq; by rewrite app_nil_r].
  eapply wp_mono; [by eapply wp_broadcast|]. intros [] c2 o2 [-> Hb]. split; [done|].
  intros vs' m pl [Hin|Hin]%elem_of_app; [by eapply Ho|].
  destruct Hb as [->|(m' & pl' & -> & Hcode & _)]; [by apply not_elem_of_nil in Hin|].
  apply list_elem_of_singleton in Hin. by simplify_eq.
Qed.

Lemma handlePreprepare_locked c vs cur rcs msg src pp :
  c_verSet c = Some vs -> c_current c = Some cur -> c_roundChangeSet c = Some rcs ->
  IsHashLocked (srv_HasBadProposal server) cur = true ->
  decode_preprepare (m_Msg msg) = Some pp -> pp_View pp = view_of cur ->
  p_Hash (pp_Proposal pp) <> rs_lockedHash cur ->
  wp (handlePreprepare server msg src) c (fun _ c' o => lock_kept cur c' /\ only_round_changes o).
Proof.
  intros Hv Hc Hr Hl Hd Hview Hne. unfold handlePreprepare. rewrite Hd.
  assert (Hnil : lock_kept cur c /\ only_round_changes []).
  { split; [by eexists|]. intros ? ? ? Hin. by apply not_elem_of_nil in Hin. }
  wp_seq. eapply wp_checkMessage; [done|]. cbn beta iota. cbn [app].
  destruct (check_verdict _ _ _ _) as [err|] eqn:Hcv.
  { case_bool_decide as He; [|by wp_seq]. exfalso. subst err. unfold check_verdict in Hcv.
    rewrite Hview, View_Cmp_refl in Hcv. cbn in Hcv. repeat case_match; done. }
  wp_seq. eapply wp_get_verSet; [done|]. cbn beta iota. cbn [app].
  destruct (negb _); [by wp_seq|]. destruct (srv_Verify _ _) as [duration [err|]]; wp_seq.
  - case_bool_decide; wp_seq.
    + split; [apply Hnil|]. intros ? ? ? Hin.
      repeat (apply elem_of_cons in Hin as [Hx|Hin]; [done|]). by apply not_elem_of_nil in Hin.
    + eapply wp_mono; [by eapply sendNextRoundChange_locked|]. intros [] c' o ?. wp_seq.
      by rewrite app_nil_r.
  - case_bool_decide; wp_seq; [|done].
    eapply wp_get_current; [done|]. rewrite Hl, bool_decide_false by done. cbn [app].
    eapply wp_mono; [by eapply sendNextRoundChange_locked|]. intros [] c' o ?. wp_seq.
    by rewrite app_nil_r.
Qed.
End locks.

(** ** An example: six verifiers, of which this node is the first *)

Definition example_verifiers : basicSet := newBasicSet [[1]; [2]; [3]; [4]; [5]; [6]] 0.

Definition example_server : Server :=
  mkServer [1] (fun _ => example_verifiers) (fun _ => example_verifiers)
    (Some (mkProposal 0 [7]), [1]) (fun _ => (0, None)) (fun _ => Some [1]) (fun _ _ => None)
    (fun _ => false) (fun _ => [1]) (fun _ => false).

Definition example_event (code : Z) (body : option bytes) (addr : Address) : Event :=
  MessageEvent (default []
    (@encode_message example_codec (mkMessage code (default [] body) addr addr [9]))).

Definition example_subject : option bytes :=
  @encode_subject example_codec (mkSubject (mkView 0 1) [8]).

Definition example_preprepare (hash : Hash) : option bytes :=
  @encode_preprepare example_codec (mkPreprepare (mkView 0 1) (mkProposal 1 hash)).

(** The proposal of [[2]], a prepare message and two of the three commit messages
    that make a quorum. *)
Definition example_events : list (Server * Event) :=
  map (fun e => (example_server, e))
    [example_event msgPreprepare (example_preprepare [8]) [2];
     example_event msgPrepare example_subject [3];
     example_event msgCommit example_subject [3];
     example_event msgCommit example_subject [4];
     example_event msgCommit example_subject [4]].

Definition example_last : Event := example_event msgCommit example_subject [5].

Lemma example_server_ok : server_ok example_server.
Proof. exists (mkProposal 0 [7]). split; [done|]. cbn. lia. Qed.

Lemma example_servers_ok : Forall (fun se : Server * Event => server_ok se.1) example_events.
Proof. repeat constructor; apply example_server_ok. Qed.

(** The state reached after the example events. *)
Definition example_core : core :=
  match @run_node example_codec example_server 3000 example_events with
  | Some (c, _) => c
  | None => NewCore example_server 3000
  end.

(** Runs from the start of a node keep the invariant. *)
Lemma run_node_wf `{Codec} server timeout l :
  server_ok server -> Forall (fun se => server_ok se.1) l ->
  exists c log, run_node server timeout l = Some (c, log) /\ @core_wf _ (inbox_of l.*2) c
    /\ StronglySorted view_lt log.*1.
Proof.
  intros Hsrv Hl. unfold run_node. pose proof (@Start_spec _ (inbox_of []) server timeout Hsrv) as Hst.
  unfold wp in Hst. destruct (Start server _) as [[[[] c0] o]|]; [|done].
  destruct (run_spec l [] c0 Hl (proj1 Hst)) as (c & log & ? & ? & ? & _). by exists c, log.
Qed.

Lemma example_core_wf : @core_wf example_codec (@inbox_of example_codec example_events.*2) example_core.
Proof.
  unfold example_core.
  destruct (@run_node_wf example_codec example_server 3000 example_events
              example_server_ok example_servers_ok) as (c & log & -> & ? & _). done.
Qed.

(** ** The properties *)

(** C3: A node that is started and then handles any sequence of events never
    dereferences a nil pointer, and stays well formed: the messages it
    counts came with the events, are in the names of distinct verifiers and
    are for the subject of the round, and nothing is counted before a
    proposal is accepted. What is relied on of the server is that it knows
    its last block. *)
Theorem node_never_panics `{Codec} (server : Server) (timeout : Z) (l : list (Server * Event)) :
  server_ok server -> Forall (fun se => server_ok se.1) l ->
  exists c log, run_node server timeout l = Some (c, log) /\ @core_wf _ (inbox_of l.*2) c.
Proof.
  intros Hsrv Hl. destruct (run_node_wf server timeout l Hsrv Hl) as (c & log & ? & ? & _).
  by exists c, log.
Qed.

Lemma node_never_panics_witness :
  exists c log, @run_node example_codec example_server 3000 example_events = Some (c, log)
    /\ @core_wf example_codec (@inbox_of example_codec example_events.*2) c.
Proof.
  exact (@node_never_panics example_codec example_server 3000 example_events
           example_server_ok example_servers_ok).
Defined.

(** C2: Over any sequence of events after the start of a node, with any answers
    of the server, the views in which blocks are committed strictly
    increase: no view commits twice. *)
Theorem commits_once_per_view `{Codec} (server : Server) (timeout : Z)
    (l : list (Server * Event)) (c : core) (log : list (View * Proposal)) :
  server_ok server -> Forall (fun se => server_ok se.1) l ->
  run_node server timeout l = Some (c, log) ->
  StronglySorted view_lt log.*1.
Proof.
  intros Hsrv Hl Hrun. destruct (run_node_wf server timeout l Hsrv Hl) as (c' & log' & Hr & _ & ?).
  by simplify_eq.
Qed.

Lemma commits_once_per_view_witness :
  exists c log,
    @run_node example_codec example_server 3000 (example_events ++ [(example_server, example_last)])
      = Some (c, log)
    /\ length log = 1%nat /\ StronglySorted view_lt log.*1.
Proof.
  eexists _, _. split; [vm_compute; reflexivity|]. split; [reflexivity|].
  eapply (@commits_once_per_view example_codec example_server 3000
            (example_events ++ [(example_server, example_last)])).
  - apply example_server_ok.
  - apply Forall_app_2; [apply example_servers_ok|]. repeat constructor. apply example_server_ok.
  - vm_compute. reflexivity.
Defined.

(** C1: A block that a node hands to the server, on whatever event after
    whatever run, is the proposal of its current round, and the node has
    been given commit messages (of that code, with the block and the view as
    their subject) in the names of more than 2F distinct verifiers: each
    came with an event of the run or with the last one, as a payload that
    the current verifiers validate or as a message from the backlog, and the
    seals handed over are theirs. That the sender of a message is the
    verifier that signed it is not part of the claim, since the code does
    not check it. *)
Theorem commit_needs_quorum `{Codec} (server0 server : Server) (timeout : Z) (l : list (Server * Event))
    (e : Event) (c c' : core) (log : list (View * Proposal)) (o : list Output) (p : Proposal) (seals : list bytes) :
  server_ok server0 -> Forall (fun se => server_ok se.1) l -> server_ok server ->
  run_node server0 timeout l = Some (c, log) ->
  handleEvent server e c = Some (tt, c', o) -> (p, seals) ∈ commits_of o ->
  exists vs cur, c_verSet c = Some vs /\ c_current c = Some cur /\ roundState_Proposal cur = Some p
    /\ exists msgs, commit_quorum vs (map m_Address msgs)
    /\ (forall m, m ∈ msgs -> m_Code m = msgCommit /\ decode_subject (m_Msg m) = Some (mkSubject (view_of cur) (p_Hash p))
          /\ exists e', e' ∈ l.*2 ++ [e] /\ event_delivers vs e' m)
    /\ seals = map (fun m => fixed_seal (m_CommittedSeal m)) msgs.
Proof.
  intros Hsrv0 Hl Hsrv Hr Hrun Hin. destruct (run_node_wf server0 timeout l Hsrv0 Hl) as (c0 & log0 & Hr0 & Hwf & _).
  simplify_eq.
  pose proof (wp_run _ _ _ _ _ _ (handleEvent_inbox _ server c e Hsrv Hwf) Hrun) as (_ & _ & Hc).
  destruct Hc as [Hn|(vs & cur & p' & seals' & ? & ? & _ & _ & ? & Hcm & Hj & _)].
  - rewrite commits_of_no_commit in Hin by done. by apply not_elem_of_nil in Hin.
  - rewrite Hcm in Hin. apply list_elem_of_singleton in Hin. simplify_eq. exists vs, cur. do 3 (split; [done|]).
    destruct Hj as (msgs & Hq & Hm & ->). exists msgs. split; [done|]. split; [|done]. intros m (? & ? & ?)%Hm. done.
Qed.

Lemma commit_needs_quorum_witness :
  exists vs cur msgs, c_verSet example_core = Some vs /\ c_current example_core = Some cur
    /\ roundState_Proposal cur = Some (mkProposal 1 [8]) /\ commit_quorum vs (map m_Address msgs)
    /\ (forall m, m ∈ msgs -> m_Code m = msgCommit
          /\ exists e, e ∈ example_events.*2 ++ [example_last] /\ @event_delivers example_codec vs e m)
    /\ length msgs = 3%nat.
Proof.
  destruct (@handleEvent example_codec example_server example_last example_core)
    as [[[[] c'] o]|] eqn:Hrun; [|vm_compute in Hrun; discriminate].
  destruct (commits_of o) as [|[p seals] rest] eqn:Hcm.
  { vm_compute in Hrun. injection Hrun as <- <-. vm_compute in Hcm. discriminate. }
  destruct (@commit_needs_quorum example_codec example_server example_server 3000 example_events example_last example_core c' [] o p seals
    example_server_ok example_servers_ok example_server_ok ltac:(vm_compute; reflexivity) Hrun) as (vs & cur & Hv & Hc & Hp & msgs & Hq & Hm & Hs).
  { rewrite Hcm. left. }
  exists vs, cur, msgs. vm_compute in Hrun. injection Hrun as <- <-. vm_compute in Hcm.
  injection Hcm as <- Hs' _. do 4 (split; [assumption|]). split.
  { intros m (? & _ & ?)%Hm. auto. }
  apply (f_equal length) in Hs. rewrite length_map in Hs. rewrite <-Hs, <-Hs'. reflexivity.
Defined.

(** An event never moves a node to a smaller view, and a round that has
    committed stays committed as long as the view is the same. *)
Theorem view_never_goes_back `{Codec} (es : list Event) (server : Server) (e : Event) (c c' : core) (o : list Output) :
  server_ok server -> @core_wf _ (inbox_of es) c -> handleEvent server e c = Some (tt, c', o) ->
  @core_wf _ (inbox_of (es ++ [e])) c' /\ view_le (current_view c) (current_view c')
  /\ (closed c -> current_view c' = current_view c -> closed c').
Proof.
  intros Hsrv Hwf Hrun.
  pose proof (wp_run _ _ _ _ _ _ (handleEvent_inbox es server c e Hsrv Hwf) Hrun) as (Hwf' & Hm & _).
  destruct (cw_round _ Hwf) as (vs & cur & _ & Hc & _).
  destruct (Hm _ Hc) as (cur' & Hc' & Hcase).
  rewrite (current_view_eq _ _ Hc), (current_view_eq _ _ Hc'). split; [done|].
  destruct Hcase as [Hlt|[Heq Hcl]].
  - split; [by apply view_lt_le|]. intros _ Heq. rewrite Heq in Hlt. by apply view_lt_irrefl in Hlt.
  - rewrite Heq. split; [unfold view_le; lia|]. auto.
Qed.

Lemma view_never_goes_back_witness :
  exists c', @handleEvent example_codec example_server example_last example_core
      = Some (tt, c', [OCommit (mkProposal 1 [8])
          [fixed_seal [9]; fixed_seal [9]; fixed_seal [9]];
          OGossip (default example_verifiers (c_verSet example_core))
            match example_last with MessageEvent p => p | _ => [] end])
    /\ view_le (current_view example_core) (current_view c').
Proof.
  eexists. split; [vm_compute; reflexivity|].
  eapply (@view_never_goes_back example_codec example_events.*2 example_server example_last example_core).
  - apply example_server_ok.
  - apply example_core_wf.
  - vm_compute. reflexivity.
Defined.

(** A node locked on a proposal that receives a different proposal in its
    view sends no prepare and no commit message: it sends at most a round
    change, and stays locked on the same proposal. *)
Theorem locked_node_refuses_other `{Codec} {HI : Inbox} (server : Server) (c : core) (cur : roundState)
    (msg : message) (src : Address) (pp : Preprepare) :
  core_wf c -> c_current c = Some cur ->
  IsHashLocked (srv_HasBadProposal server) cur = true ->
  decode_preprepare (m_Msg msg) = Some pp -> pp_View pp = view_of cur ->
  p_Hash (pp_Proposal pp) <> rs_lockedHash cur ->
  exists r c' o, handlePreprepare server msg src c = Some (r, c', o)
    /\ lock_kept cur c' /\ only_round_changes o.
Proof.
  intros Hwf Hc Hl Hd Hv Hne. destruct (cw_round _ Hwf) as (vs & cur' & Hvs & Hc' & _).
  assert (cur' = cur) as -> by congruence. destruct (cw_rcs _ Hwf) as [rcs Hr].
  pose proof (handlePreprepare_locked server c vs cur rcs msg src pp Hvs Hc Hr Hl Hd Hv Hne) as Hwp.
  unfold wp in Hwp. destruct (handlePreprepare server msg src c) as [[[r c'] o]|]; [|done].
  by exists r, c', o.
Qed.

(** A node that locked on [[8]] in round 0 and then moved to round 1. *)
Definition example_round_change : option bytes :=
  @encode_subject example_codec (mkSubject (mkView 1 1) EmptyHash).

Definition example_locked_events : list (Server * Event) :=
  map (fun e => (example_server, e))
    [example_event msgPreprepare (example_preprepare [8]) [2];
     example_event msgPrepare example_subject [3];
     example_event msgPrepare example_subject [4];
     example_event msgPrepare example_subject [5];
     timeoutEvent;
     example_event msgRoundChange example_round_change [3];
     example_event msgRoundChange example_round_change [4];
     example_event msgRoundChange example_round_change [5]].

Definition example_locked : core :=
  match @run_node example_codec example_server 3000 example_locked_events with
  | Some (c, _) => c
  | None => NewCore example_server 3000
  end.

Lemma example_locked_wf : @core_wf example_codec (@inbox_of example_codec example_locked_events.*2) example_locked.
Proof.
  unfold example_locked.
  destruct (@run_node_wf example_codec example_server 3000 example_locked_events)
    as (c & log & -> & ? & _); [apply example_server_ok| |done].
  repeat constructor; apply example_server_ok.
Qed.

Definition example_other_proposal : message :=
  mkMessage msgPreprepare (default [] (@encode_preprepare example_codec
    (mkPreprepare (mkView 1 1) (mkProposal 1 [10])))) [3] [3] [].

Lemma locked_node_refuses_other_witness :
  exists cur r c' o, c_current example_locked = Some cur /\ view_of cur = mkView 1 1
    /\ c_state example_locked = StateAcceptRequest /\ rs_lockedHash cur = [8]
    /\ @handlePreprepare example_codec example_server example_other_proposal [3] example_locked
         = Some (r, c', o)
    /\ lock_kept cur c' /\ only_round_changes o /\ length o = 4%nat.
Proof.
  destruct (c_current example_locked) as [cur|] eqn:Hc; [|vm_compute in Hc; discriminate].
  assert (Hcur := Hc). vm_compute in Hcur. injection Hcur as Hcur.
  destruct (@locked_node_refuses_other example_codec (@inbox_of example_codec example_locked_events.*2) example_server example_locked cur
    example_other_proposal [3] (mkPreprepare (mkView 1 1) (mkProposal 1 [10])))
    as (r & c' & o & Hrun & Hlk & Ho).
  - apply example_locked_wf.
  - exact Hc.
  - rewrite <- Hcur. vm_compute. reflexivity.
  - vm_compute. reflexivity.
  - rewrite <- Hcur. vm_compute. reflexivity.
  - rewrite <- Hcur. vm_compute. discriminate.
  - exists cur, r, c', o. split; [reflexivity|].
    split; [rewrite <- Hcur; vm_compute; reflexivity|]. split; [vm_compute; reflexivity|].
    split; [rewrite <- Hcur; vm_compute; reflexivity|].
    split; [exact Hrun|]. split; [exact Hlk|].
    split; [exact Ho|]. vm_compute in Hrun. injection Hrun as _ _ <-. reflexivity.
Defined.

(** A message is accepted when some verifier signed it. *)
Lemma ValidatePayload_inl `{Codec} (vs : basicSet) (b : bytes) (m : message) :
  ValidatePayload vs b = inl m <->
  decode_message b = Some m
  /\ exists payload signer, PayloadNoSig m = Some payload
       /\ recover_signer payload (m_Signature m) = Some signer /\ is_verifier vs signer.
Proof.
  unfold ValidatePayload, CheckVerifierSignature. split.
  - destruct (decode_message b) as [m'|]; [|done].
    destruct (PayloadNoSig m') as [payload|] eqn:Hp; [|done].
    destruct (recover_signer _ _) as [signer|] eqn:Hs; [|done].
    destruct (GetVerByAddress vs signer).2 as [v|] eqn:Hv; [|done].
    intros [= ->]. split; [done|]. exists payload, signer. split; [done|]. split; [done|].
    by apply GetVerByAddress_Some in Hv as [_ ?].
  - intros (-> & payload & signer & -> & -> & Hv).
    by rewrite (proj2 (GetVerByAddress_Some vs signer signer) (conj eq_refl Hv)).
Qed.

(** A message is handled as coming from the address written in it whenever
    some verifier signed it: the address the signature recovers to is not
    compared with the claimed one. *)
Theorem handleMsg_trusts_address {HC : Codec} (server : Server) (c : core) (vs : basicSet)
    (b payload : bytes) (m : message) (signer : Address) :
  c_verSet c = Some vs -> decode_message b = Some m -> PayloadNoSig m = Some payload ->
  recover_signer payload (m_Signature m) = Some signer ->
  is_verifier vs signer -> is_verifier vs (m_Address m) ->
  handleMsg server b c = handleCheckedMsg server m (m_Address m) c.
Proof.
  intros Hv Hd Hp Hr Hs Ha.
  assert (Hval : ValidatePayload vs b = inl m) by (apply ValidatePayload_inl; split; [done|]; by exists payload, signer).
  unfold handleMsg, get_verSet, go_bind, go_get. rewrite Hv. cbn beta iota zeta delta [go_deref go_ret].
  rewrite Hval, (proj2 (GetVerByAddress_Some vs _ _) (conj eq_refl Ha)).
  by destruct (handleCheckedMsg server m (m_Address m) c) as [[[r c'] o]|].
Qed.

(** A message of [[5]] signed by [[6]] is counted as one of [[5]]. *)
Lemma handleMsg_trusts_address_witness :
  let m := mkMessage msgCommit (default [] example_subject) [5] [6] [9] in
  @handleMsg example_codec example_server (default [] (@encode_message example_codec m)) example_core
  = @handleCheckedMsg example_codec example_server m [5] example_core.
Proof.
  intros m. eapply (@handleMsg_trusts_address example_codec example_server example_core
    (default example_verifiers (c_verSet example_core)) _ _ m [6]).
  1-4: vm_compute; reflexivity.
  - unfold is_verifier. apply list_elem_of_In. vm_compute. tauto.
  - unfold is_verifier. apply list_elem_of_In. vm_compute. tauto.
Defined.

(** A message finalized by a verifier (signed and encoded) is accepted by
    the validation of every node that has it in its verifier set, and is
    decoded to the same code, body and sender. *)
Theorem finalized_message_accepted {HC : Codec} {HL : CodecLaws} (server : Server) (vs : basicSet) (c : core)
    (msg m : message) (payload : bytes) :
  (forall data sig, srv_Sign server data = Some sig ->
     recover_signer data sig = Some (srv_Address server)) ->
  c_address c = srv_Address server -> is_verifier vs (srv_Address server) ->
  finalizeMessage server msg c = Some (Some (m, payload), c, []) ->
  ValidatePayload vs payload = inl m
  /\ m_Code m = m_Code msg /\ m_Msg m = m_Msg msg /\ m_Address m = srv_Address server.
Proof.
  intros Hsig Ha Hv. unfold finalizeMessage, go_bind, go_get. rewrite <- Ha.
  set (sealing := if m_Code msg =? msgCommit then _ else _).
  destruct (sealing c) as [[[seal c1] o1]|]; [|done].
  unfold go_ret. destruct seal as [seal|]; [|done].
  destruct (PayloadNoSig _) as [data|] eqn:Hp; [|done].
  destruct (srv_Sign server data) as [sig|] eqn:Hs; [|done].
  destruct (encode_message _) as [payload'|] eqn:He; [|done].
  intros [= <- -> _ _]. split; [|done]. apply ValidatePayload_inl.
  split; [by apply message_roundtrip|]. exists data, (srv_Address server).
  split; [exact Hp|]. split; [by apply Hsig|done].
Qed.

Lemma finalized_message_accepted_witness :
  exists m payload, @finalizeMessage example_codec example_server (new_message msgPrepare [3; 4])
      example_core = Some (Some (m, payload), example_core, [])
    /\ @ValidatePayload example_codec example_verifiers payload = inl m.
Proof.
  eexists _, _. split; [vm_compute; reflexivity|].
  eapply (@finalized_message_accepted example_codec example_codec_laws example_server
            example_verifiers example_core (new_message msgPrepare [3; 4])).
  - intros data sig [= <-]. reflexivity.
  - vm_compute. reflexivity.
  - unfold is_verifier. vm_compute. left.
  - vm_compute. reflexivity.
Defined.
