(* ===== verification/StateDb.v ===== *)
(** * The account state

    Models [core/state]: the accounts and their objects ([stateobject.go]), the
    journal of the changes ([journal.go]) and the state database
    ([statedb.go]). The trie is an interface; so are the serialization of an
    account and the hash functions. A method of [Statedb] is a [GoM]
    computation over its record; the objects of the cache are only reached
    through it, so they are values of a map. *)

From Stdlib Require Import ZArith Lia.
From S2P Require Import Prelude Common.

Open Scope Z_scope.
Open Scope go_scope.

(** ** Data *)

Record account := mkAccount {
  a_Nonce : Z;
  a_Amount : Z;
  a_CodeHash : bytes;
  a_TxCount : Z
}.

(** A nil code is [None]. A nil value of the storage reads like an empty one
    everywhere, and is []. *)
Record stateObject := mkStateObject {
  o_address : Address;
  o_addrHash : Hash;
  o_account : account;
  o_dirtyAccount : bool;
  o_code : option bytes;
  o_dirtyCode : bool;
  o_cachedStorage : gmap Hash bytes;
  o_dirtyStorage : gmap Hash bytes;
  o_suicided : bool;
  o_deleted : bool
}.

Inductive journalEntry : Type :=
| refundChange (prev : Z)
| storageChange (addr : Address) (key : Hash) (prev : bytes)
| balanceChange (addr : Address) (prev : Z)
| codeChange (addr : Address) (prev : option bytes)
| nonceChange (addr : Address) (prev : Z)
| suicideChange (addr : Address) (prevSuicided : bool) (prevBalance : Z)
| createObjectChange (addr : Address).

Record journal := mkJournal {
  j_entries : list journalEntry;
  j_dirties : gmap Address Z
}.

(** The [Trie] interface, over the states [T] of a trie. [Get] tells whether the
    key is there; the operations may fail with an error. *)
Class TrieOps (T : Type) := {
  trie_error : Type;
  trie_Hash : T -> Hash;
  trie_Get : T -> bytes -> option bytes + trie_error;
  trie_Put : T -> bytes -> bytes -> T + trie_error;
  trie_DeletePrefix : T -> bytes -> T + trie_error;
  (** [crypto.MustHash] of an address or a key, [crypto.HashBytes] of a code, and
      the serialization of an account. *)
  MustHash_of : bytes -> Hash;
  HashBytes_of : bytes -> Hash;
  Serialize_account : account -> bytes;
  Deserialize_account : bytes -> option account;
  deserialize_error : trie_error
}.

Record Log := mkLog {
  log_Address : Address;
  log_Topics : list Hash;
  log_Data : bytes;
  log_BlockNumber : Z;
  log_TxIndex : Z
}.

Record Statedb (T : Type) `{TrieOps T} := mkStatedb {
  sd_trie : T;
  sd_stateObjects : gmap Address stateObject;
  sd_dbErr : option trie_error;
  sd_refund : Z;
  sd_curTxIndex : Z;
  sd_curLogs : list Log;
  sd_curJournal : journal
}.
Arguments mkStatedb {T _} _ _ _ _ _ _ _.
Arguments sd_trie {T _} _.
Arguments sd_stateObjects {T _} _.
Arguments sd_dbErr {T _} _.
Arguments sd_refund {T _} _.
Arguments sd_curTxIndex {T _} _.
Arguments sd_curLogs {T _} _.
Arguments sd_curJournal {T _} _.

(** ** [stateobject.go] *)

Definition dataTypeAccount : Z := 48.
Definition dataTypeCode : Z := 49.
Definition dataTypeStorage : Z := 50.

Definition newAccount : account := mkAccount 0 0 [] 0.

(** The clone has no transaction count. *)
Definition account_clone (a : account) : account :=
  mkAccount (a_Nonce a) (a_Amount a) (a_CodeHash a) 0.

Definition set_account (o : stateObject) (a : account) (dirty : bool) : stateObject :=
  mkStateObject (o_address o) (o_addrHash o) a dirty (o_code o) (o_dirtyCode o)
    (o_cachedStorage o) (o_dirtyStorage o) (o_suicided o) (o_deleted o).
Definition set_o_code (o : stateObject) (c : option bytes) (dirty : bool) : stateObject :=
  mkStateObject (o_address o) (o_addrHash o) (o_account o) (o_dirtyAccount o) c dirty
    (o_cachedStorage o) (o_dirtyStorage o) (o_suicided o) (o_deleted o).
Definition set_storage (o : stateObject) (cached dirty : gmap Hash bytes) : stateObject :=
  mkStateObject (o_address o) (o_addrHash o) (o_account o) (o_dirtyAccount o) (o_code o)
    (o_dirtyCode o) cached dirty (o_suicided o) (o_deleted o).
Definition set_flags (o : stateObject) (suicided deleted : bool) : stateObject :=
  mkStateObject (o_address o) (o_addrHash o) (o_account o) (o_dirtyAccount o) (o_code o)
    (o_dirtyCode o) (o_cachedStorage o) (o_dirtyStorage o) suicided deleted.

Definition obj_clone (o : stateObject) : stateObject :=
  set_account o (account_clone (o_account o)) (o_dirtyAccount o).

Definition setNonce (o : stateObject) (nonce : Z) : stateObject :=
  let a := o_account o in
  set_account o (mkAccount nonce (a_Amount a) (a_CodeHash a) (a_TxCount a)) true.

Definition setTxCount (o : stateObject) (count : Z) : stateObject :=
  let a := o_account o in
  set_account o (mkAccount (a_Nonce a) (a_Amount a) (a_CodeHash a) count) true.

(** A negative amount is ignored. *)
Definition setAmount (o : stateObject) (amount : Z) : stateObject :=
  let a := o_account o in
  if 0 <=? amount
  then set_account o (mkAccount (a_Nonce a) amount (a_CodeHash a) (a_TxCount a)) true
  else o.

Definition addAmount (o : stateObject) (amount : Z) : stateObject :=
  setAmount o (a_Amount (o_account o) + amount).

Definition subAmount (o : stateObject) (amount : Z) : stateObject :=
  setAmount o (a_Amount (o_account o) - amount).

Definition dataKey (o : stateObject) (dataType : Z) (prefix : bytes) : bytes :=
  o_addrHash o ++ [dataType] ++ prefix.

Definition obj_empty (o : stateObject) : bool :=
  (a_Nonce (o_account o) =? 0) && (a_Amount (o_account o) =? 0)
  && (length (a_CodeHash (o_account o)) =? 0)%nat.

Definition setState (o : stateObject) (key : Hash) (value : bytes) : stateObject :=
  set_storage o (o_cachedStorage o) (<[key := value]> (o_dirtyStorage o)).

Section objects.
Context {T : Type} `{TrieOps T}.

Definition newStateObject (address : Address) : stateObject :=
  mkStateObject address (MustHash_of address) newAccount true None false ∅ ∅ false false.

(** The object with its account, when the trie has it. *)
Definition loadAccount (o : stateObject) (trie : T) : option stateObject + trie_error :=
  match trie_Get trie (dataKey o dataTypeAccount []) with
  | inr err => inr err
  | inl None => inl None
  | inl (Some value) =>
      match Deserialize_account value with
      | Some a => inl (Some (set_account o a (o_dirtyAccount o)))
      | None => inr deserialize_error
      end
  end.

(** The object, in which the code is now cached, and the code. *)
Definition loadCode (o : stateObject) (trie : T) : stateObject * (option bytes + trie_error) :=
  match o_code o with
  | Some c => (o, inl (Some c))
  | None =>
      if (length (a_CodeHash (o_account o)) =? 0)%nat then (o, inl None)
      else match trie_Get trie (dataKey o dataTypeCode []) with
           | inr err => (o, inr err)
           | inl None => (o, inl None)
           | inl (Some code) => (set_o_code o (Some code) (o_dirtyCode o), inl (Some code))
           end
  end.

Definition setCode (o : stateObject) (code : option bytes) : stateObject :=
  let a := o_account o in
  let hash := match code with
              | Some (b :: c) => HashBytes_of (b :: c)
              | _ => []
              end in
  set_account (set_o_code o code true) (mkAccount (a_Nonce a) (a_Amount a) hash (a_TxCount a)) true.

Definition storageKey (o : stateObject) (key : Hash) : bytes :=
  dataKey o dataTypeStorage (MustHash_of key).

(** The object, in which the value is now cached, and the value. *)
Definition getState (o : stateObject) (trie : T) (key : Hash) (committed : bool)
    : stateObject * (bytes + trie_error) :=
  match (if committed then None else o_dirtyStorage o !! key) with
  | Some value => (o, inl value)
  | None =>
      match o_cachedStorage o !! key with
      | Some value => (o, inl value)
      | None =>
          match trie_Get trie (storageKey o key) with
          | inr err => (o, inr err)
          | inl None => (o, inl [])
          | inl (Some value) =>
              (set_storage o (<[key := value]> (o_cachedStorage o)) (o_dirtyStorage o), inl value)
          end
      end
  end.

(** The writes of the changed storage, in the order the map lists it. *)
Fixpoint flush_storage (l : list (Hash * bytes)) (o : stateObject) (trie : T)
    : stateObject * T * option trie_error :=
  match l with
  | [] => (o, trie, None)
  | (k, v) :: l' =>
      if bool_decide (o_cachedStorage o !! k = Some v) then flush_storage l' o trie
      else
        let o1 := set_storage o (<[k := v]> (o_cachedStorage o)) (o_dirtyStorage o) in
        match trie_Put trie (storageKey o k) v with
        | inr err => (o1, trie, Some err)
        | inl trie1 => flush_storage l' o1 trie1
        end
  end.

Definition flush_code (o : stateObject) (trie : T) : stateObject * T * option trie_error :=
  if o_dirtyCode o then
    match trie_Put trie (dataKey o dataTypeCode []) (default [] (o_code o)) with
    | inr err => (o, trie, Some err)
    | inl trie1 => (set_o_code o (o_code o) false, trie1, None)
    end
  else (o, trie, None).

Definition flush_account (o : stateObject) (trie : T) : stateObject * T * option trie_error :=
  if o_dirtyAccount o then
    match trie_Put trie (dataKey o dataTypeAccount []) (Serialize_account (o_account o)) with
    | inr err => (o, trie, Some err)
    | inl trie1 => (set_account o (o_account o) false, trie1, None)
    end
  else (o, trie, None).

Definition flush_suicide (o : stateObject) (trie : T) : stateObject * T * option trie_error :=
  if o_suicided o && negb (o_deleted o) then
    match trie_DeletePrefix trie (o_addrHash o) with
    | inr err => (o, trie, Some err)
    | inl trie1 => (set_flags o (o_suicided o) true, trie1, None)
    end
  else (o, trie, None).

(** An error stops the writes; what was written stays. *)
Definition flush_then (r : stateObject * T * option trie_error)
    (k : stateObject -> T -> stateObject * T * option trie_error)
    : stateObject * T * option trie_error :=
  match r with
  | (o, trie, None) => k o trie
  | (o, trie, Some err) => (o, trie, Some err)
  end.

Definition flush (o : stateObject) (trie : T) : stateObject * T * option trie_error :=
  let storage :=
    if (size (o_dirtyStorage o) =? 0)%nat then (o, trie, None)
    else flush_then (flush_storage (map_to_list (o_dirtyStorage o)) o trie)
           (fun o trie => (set_storage o (o_cachedStorage o) ∅, trie, None)) in
  flush_then (flush_then (flush_then storage flush_code) flush_account) flush_suicide.
End objects.

(** ** [journal.go] *)

Definition newJournal : journal := mkJournal [] ∅.

Definition dirtyAccount (e : journalEntry) : option Address :=
  match e with
  | refundChange _ => None
  | storageChange a _ _ => Some a
  | balanceChange a _ => Some a
  | codeChange a _ => Some a
  | nonceChange a _ => Some a
  | suicideChange a _ _ => Some a
  | createObjectChange a => Some a
  end.

Definition journal_append (j : journal) (entry : journalEntry) : journal :=
  mkJournal (j_entries j ++ [entry])
    (match dirtyAccount entry with
     | Some a => <[a := default 0 (j_dirties j !! a) + 1]> (j_dirties j)
     | None => j_dirties j
     end).

(** [j.dirties[*addr]--], a zero being deleted. *)
Definition undirty (d : gmap Address Z) (entry : journalEntry) : gmap Address Z :=
  match dirtyAccount entry with
  | None => d
  | Some a =>
      let n := default 0 (d !! a) - 1 in
      if n =? 0 then delete a d else <[a := n]> d
  end.

(** ** [statedb.go] *)

Section statedb.
Context {T : Type} `{TrieOps T}.

Abbreviation StM A := (GoM (Statedb T) Empty_set A).

Definition NewStatedbWithTrie (trie : T) : Statedb T :=
  mkStatedb trie ∅ None 0 0 [] newJournal.

Definition upd_objects (f : gmap Address stateObject -> gmap Address stateObject) (s : Statedb T)
    : Statedb T :=
  mkStatedb (sd_trie s) (f (sd_stateObjects s)) (sd_dbErr s) (sd_refund s) (sd_curTxIndex s)
    (sd_curLogs s) (sd_curJournal s).
Definition upd_journal (f : journal -> journal) (s : Statedb T) : Statedb T :=
  mkStatedb (sd_trie s) (sd_stateObjects s) (sd_dbErr s) (sd_refund s) (sd_curTxIndex s)
    (sd_curLogs s) (f (sd_curJournal s)).
Definition upd_refund (r : Z) (s : Statedb T) : Statedb T :=
  mkStatedb (sd_trie s) (sd_stateObjects s) (sd_dbErr s) r (sd_curTxIndex s)
    (sd_curLogs s) (sd_curJournal s).
Definition upd_trie (t : T) (s : Statedb T) : Statedb T :=
  mkStatedb t (sd_stateObjects s) (sd_dbErr s) (sd_refund s) (sd_curTxIndex s)
    (sd_curLogs s) (sd_curJournal s).

(** Only the first error is recorded. *)
Definition setError (err : trie_error) : StM unit :=
  go_modify (fun s => mkStatedb (sd_trie s) (sd_stateObjects s)
    (match sd_dbErr s with None => Some err | Some e => Some e end)
    (sd_refund s) (sd_curTxIndex s) (sd_curLogs s) (sd_curJournal s)).

(** Writing through the pointer of an object that is in the cache. *)
Definition put_object (addr : Address) (o : stateObject) : StM unit :=
  go_modify (upd_objects (<[addr := o]>)).

Definition journal_add (e : journalEntry) : StM unit :=
  go_modify (upd_journal (fun j => journal_append j e)).

Definition getStateObject (addr : Address) : StM (option stateObject) :=
  s <- go_get ;;
  match sd_stateObjects s !! addr with
  | Some object => go_ret (if o_deleted object then None else Some object)
  | None =>
      match loadAccount (newStateObject addr) (sd_trie s) with
      | inr err => setError err ;;; go_ret None
      | inl None => go_ret None
      | inl (Some object) => put_object addr object ;;; go_ret (Some object)
      end
  end.

(** The methods that do something with the object when it exists. *)
Definition with_object {A} (addr : Address) (none : A) (k : stateObject -> StM A) : StM A :=
  object <- getStateObject addr ;;
  match object with
  | Some o => k o
  | None => go_ret none
  end.

Definition GetBalance (addr : Address) : StM Z :=
  with_object addr 0 (fun o => go_ret (a_Amount (o_account o))).

Definition SetBalance (addr : Address) (balance : Z) : StM unit :=
  with_object addr tt (fun o =>
    journal_add (balanceChange addr (a_Amount (o_account o))) ;;;
    put_object addr (setAmount o balance)).

Definition AddBalance (addr : Address) (amount : Z) : StM unit :=
  with_object addr tt (fun o =>
    journal_add (balanceChange addr (a_Amount (o_account o))) ;;;
    put_object addr (addAmount o amount)).

Definition SubBalance (addr : Address) (amount : Z) : StM unit :=
  with_object addr tt (fun o =>
    journal_add (balanceChange addr (a_Amount (o_account o))) ;;;
    put_object addr (subAmount o amount)).

Definition GetNonce (addr : Address) : StM Z :=
  with_object addr 0 (fun o => go_ret (a_Nonce (o_account o))).

Definition SetNonce (addr : Address) (nonce : Z) : StM unit :=
  with_object addr tt (fun o =>
    journal_add (nonceChange addr (a_Nonce (o_account o))) ;;;
    put_object addr (setNonce o nonce)).

(** The transaction count is not journaled. *)
Definition SetNonce2 (addr : Address) (nonce count : Z) : StM unit :=
  with_object addr tt (fun o =>
    journal_add (nonceChange addr (a_Nonce (o_account o))) ;;;
    put_object addr (setTxCount (setNonce o nonce) count)).

Definition GetTxCount (addr : Address) : StM Z :=
  with_object addr 0 (fun o => go_ret (a_TxCount (o_account o))).

Definition getData (addr : Address) (key : Hash) (committed : bool) : StM bytes :=
  with_object addr [] (fun o =>
    s <- go_get ;;
    let '(o', r) := getState o (sd_trie s) key committed in
    put_object addr o' ;;;
    match r with
    | inl data => go_ret data
    | inr err => setError err ;;; go_ret []
    end).

Definition GetData (addr : Address) (key : Hash) : StM bytes := getData addr key false.

Definition GetCommittedData (addr : Address) (key : Hash) : StM bytes := getData addr key true.

Definition SetData (addr : Address) (key : Hash) (value : bytes) : StM unit :=
  with_object addr tt (fun o =>
    s <- go_get ;;
    let '(o', r) := getState o (sd_trie s) key false in
    put_object addr o' ;;;
    match r with
    | inr err => setError err
    | inl prevValue =>
        if bool_decide (prevValue = value) then go_ret tt
        else
          journal_add (storageChange addr key prevValue) ;;;
          put_object addr (setState o' key value)
    end).

Definition CreateAccount (addr : Address) : StM unit :=
  object <- getStateObject addr ;;
  match object with
  | Some _ => go_ret tt
  | None =>
      journal_add (createObjectChange addr) ;;;
      put_object addr (newStateObject addr)
  end.

Definition GetCodeHash (addr : Address) : StM Hash :=
  with_object addr EmptyHash (fun o => go_ret (BytesToHash (a_CodeHash (o_account o)))).

Definition GetCode (addr : Address) : StM bytes :=
  with_object addr [] (fun o =>
    s <- go_get ;;
    let '(o', r) := loadCode o (sd_trie s) in
    put_object addr o' ;;;
    match r with
    | inl code => go_ret (default [] code)
    | inr err => setError err ;;; go_ret []
    end).

Definition GetCodeSize (addr : Address) : StM Z :=
  code <- GetCode addr ;; go_ret (Z.of_nat (length code)).

Definition SetCode (addr : Address) (code : option bytes) : StM unit :=
  with_object addr tt (fun o =>
    s <- go_get ;;
    let '(o', r) := loadCode o (sd_trie s) in
    put_object addr o' ;;;
    match r with
    | inr err => setError err
    | inl prevCode =>
        journal_add (codeChange addr prevCode) ;;;
        put_object addr (setCode o' code)
    end).

Definition Exist (addr : Address) : StM bool :=
  with_object addr false (fun _ => go_ret true).

Definition Empty (addr : Address) : StM bool :=
  with_object addr true (fun o => go_ret (obj_empty o)).

Definition Suicide (addr : Address) : StM bool :=
  with_object addr false (fun o =>
    journal_add (suicideChange addr (o_suicided o) (a_Amount (o_account o))) ;;;
    let o1 := setAmount o 0 in
    put_object addr (set_flags o1 true (o_deleted o1)) ;;;
    go_ret true).

Definition HasSuicided (addr : Address) : StM bool :=
  with_object addr false (fun o => go_ret (o_suicided o)).

Definition AddLog (log : Log) : StM unit :=
  go_modify (fun s => mkStatedb (sd_trie s) (sd_stateObjects s) (sd_dbErr s) (sd_refund s)
    (sd_curTxIndex s) (sd_curLogs s ++ [mkLog (log_Address log) (log_Topics log) (log_Data log)
                        (log_BlockNumber log) (sd_curTxIndex s)]) (sd_curJournal s)).

Definition AddRefund (gas : Z) : StM unit :=
  s <- go_get ;;
  journal_add (refundChange (sd_refund s)) ;;;
  go_modify (upd_refund (u64 (sd_refund s + gas))).

Definition SubRefund (gas : Z) : StM unit :=
  s <- go_get ;;
  journal_add (refundChange (sd_refund s)) ;;;
  if sd_refund s <? gas then go_panic
  else go_modify (upd_refund (sd_refund s - gas)).

(** ** Reverting *)

(** [revert] of an entry; an object that is not there is dereferenced, except by
    [suicideChange]. *)
Definition entry_revert (e : journalEntry) : StM unit :=
  let write (addr : Address) (f : stateObject -> stateObject) : StM unit :=
    object <- getStateObject addr ;;
    o <- go_deref object ;;
    put_object addr (f o) in
  let set_amount (o : stateObject) (amount : Z) :=
    let a := o_account o in
    set_account o (mkAccount (a_Nonce a) amount (a_CodeHash a) (a_TxCount a)) (o_dirtyAccount o) in
  match e with
  | refundChange prev => go_modify (upd_refund prev)
  | storageChange a key prev => write a (fun o => setState o key prev)
  | balanceChange a prev => write a (fun o => set_amount o prev)
  | codeChange a prev => write a (fun o => setCode o prev)
  | nonceChange a prev =>
      write a (fun o =>
        let acc := o_account o in
        set_account o (mkAccount prev (a_Amount acc) (a_CodeHash acc) (a_TxCount acc))
          (o_dirtyAccount o))
  | suicideChange a prevSuicided prevBalance =>
      object <- getStateObject a ;;
      match object with
      | Some o => put_object a (set_amount (set_flags o prevSuicided (o_deleted o)) prevBalance)
      | None => go_ret tt
      end
  | createObjectChange a => go_modify (upd_objects (delete a))
  end.

(** The loop of [revert], from the last entry down; [es] is in that order. The
    snapshot is one that [Snapshot] returned: a number that is not greater than the
    length of the journal. *)
Fixpoint revert_entries (es : list journalEntry) : StM unit :=
  match es with
  | [] => go_ret tt
  | e :: es' =>
      entry_revert e ;;;
      go_modify (upd_journal (fun j => mkJournal (j_entries j) (undirty (j_dirties j) e))) ;;;
      revert_entries es'
  end.

Definition Snapshot_ : StM nat := s <- go_get ;; go_ret (length (j_entries (sd_curJournal s))).

Definition RevertToSnapshot (revid : nat) : StM unit :=
  s <- go_get ;;
  revert_entries (rev (drop revid (j_entries (sd_curJournal s)))) ;;;
  go_modify (upd_journal (fun j => mkJournal (take revid (j_entries j)) (j_dirties j))).

(** ** Committing *)

Definition clearJournalAndRefund : StM unit :=
  go_modify (fun s => upd_journal (fun _ => newJournal) (upd_refund 0 s)).

Definition Prepare_tx (txIndex : Z) : StM nat :=
  go_modify (fun s => mkStatedb (sd_trie s) (sd_stateObjects s) (sd_dbErr s) (sd_refund s)
    txIndex [] (sd_curJournal s)) ;;;
  clearJournalAndRefund ;;;
  Snapshot_.

(** Flush the objects at the addresses, in the order given. *)
Fixpoint flush_all (l : list Address) : StM (option trie_error) :=
  match l with
  | [] => go_ret None
  | addr :: l' =>
      s <- go_get ;;
      match sd_stateObjects s !! addr with
      | None => flush_all l'
      | Some object =>
          let '(o', trie', err) := flush object (sd_trie s) in
          go_modify (upd_trie trie') ;;;
          put_object addr o' ;;;
          match err with
          | Some e => go_ret (Some e)
          | None => flush_all l'
          end
      end
  end.

Definition state_Hash : StM (Hash + trie_error) :=
  s <- go_get ;;
  match sd_dbErr s with
  | Some err => go_ret (inr err)
  | None =>
      err <- flush_all (map fst (map_to_list (j_dirties (sd_curJournal s)))) ;;
      match err with
      | Some e => go_ret (inr e)
      | None =>
          clearJournalAndRefund ;;;
          s' <- go_get ;;
          go_ret (inl (trie_Hash (sd_trie s')))
      end
  end.

(** [Commit] with a batch; the root the trie writes is its hash. *)
Definition state_Commit : StM (Hash + trie_error) :=
  s <- go_get ;;
  match sd_dbErr s with
  | Some err => go_ret (inr err)
  | None =>
      err <- flush_all (map fst (map_to_list (sd_stateObjects s))) ;;
      match err with
      | Some e => go_ret (inr e)
      | None => s' <- go_get ;; go_ret (inl (trie_Hash (sd_trie s')))
      end
  end.
End statedb.
