(* ===== verification/StateDbProofs.v ===== *)
(** * Reverting the account state

    What the methods of [Statedb] change, and that [RevertToSnapshot] takes it
    back: every observation of every account is then as it was when the snapshot
    was taken. Balances never become negative. *)

From Stdlib Require Import ZArith Lia.
From S2P Require Import Prelude Common StateDb.

Open Scope Z_scope.
Open Scope go_scope.

(** ** Observations *)

Section observe.
Context {T : Type} `{TrieOps T}.
Implicit Types (s : Statedb T) (t : T) (o : stateObject).

(** The object that the trie has for an address. *)
Definition trie_object (t : T) (addr : Address) : option stateObject :=
  match loadAccount (newStateObject addr) t with
  | inl (Some o) => Some o
  | _ => None
  end.

(** The object that [getStateObject] finds. *)
Definition find_object (s : Statedb T) (addr : Address) : option stateObject :=
  match sd_stateObjects s !! addr with
  | Some o => if o_deleted o then None else Some o
  | None => trie_object (sd_trie s) addr
  end.

(** The value that is read for a key. *)
Definition read_state (t : T) (o : stateObject) (key : Hash) (committed : bool) : bytes :=
  match (getState o t key committed).2 with inl v => v | inr _ => [] end.

(** The code that is read. *)
Definition read_code (t : T) (o : stateObject) : bytes :=
  match (loadCode o t).2 with inl c => default [] c | inr _ => [] end.

(** Two objects that no getter tells apart (the transaction count aside). *)
Record obj_equiv (t : T) (o o' : stateObject) : Prop := {
  oe_addrHash : o_addrHash o = o_addrHash o';
  oe_nonce : a_Nonce (o_account o) = a_Nonce (o_account o');
  oe_amount : a_Amount (o_account o) = a_Amount (o_account o');
  oe_codeHash : a_CodeHash (o_account o) = a_CodeHash (o_account o');
  oe_code : read_code t o = read_code t o';
  oe_state : forall key committed, read_state t o key committed = read_state t o' key committed;
  oe_suicided : o_suicided o = o_suicided o'
}.

#[export] Instance obj_equiv_equivalence t : Equivalence (obj_equiv t).
Proof.
  split.
  - intros o. by constructor.
  - intros o o' []. constructor; by symmetry.
  - intros o1 o2 o3 [] []. constructor; congruence.
Qed.

(** Two states with the same trie, refund and accounts. *)
Record st_equiv (s s' : Statedb T) : Prop := {
  se_trie : sd_trie s = sd_trie s';
  se_refund : sd_refund s = sd_refund s';
  se_objects : forall addr,
    option_Forall2 (obj_equiv (sd_trie s)) (find_object s addr) (find_object s' addr)
}.

#[export] Instance st_equiv_equivalence : Equivalence st_equiv.
Proof.
  split.
  - intros s. by constructor.
  - intros s s' [Ht ? Ho]. constructor; try done. intros addr. specialize (Ho addr).
    rewrite Ht in Ho. inversion Ho; constructor. by symmetry.
  - intros s1 s2 s3 [Ht ? H12] [Ht' ? H23]. constructor; try congruence. intros addr.
    specialize (H12 addr). specialize (H23 addr). rewrite <- Ht in H23.
    inversion H12 as [o1 o2 Ho E1 E2|E1 E2]; inversion H23 as [o2' o3 Ho' E3 E4|E3 E4];
      try congruence; constructor.
    assert (o2' = o2) as -> by congruence. by etransitivity.
Qed.

(** ** The invariant: what the cache says agrees with the trie *)

(** The code hash is the hash of the code. *)
Definition code_ok (t : T) (o : stateObject) : Prop :=
  a_CodeHash (o_account o) = match read_code t o with [] => [] | c => HashBytes_of c end.

(** Reading the object from this trie does not fail. *)
Definition readable (t : T) (o : stateObject) : Prop :=
  (exists c, (loadCode o t).2 = inl c) /\ forall key b, exists v, (getState o t key b).2 = inl v.

Record trie_ok (t : T) : Prop := {
  to_amount : forall addr o, trie_object t addr = Some o -> 0 <= a_Amount (o_account o);
  to_code : forall addr o, trie_object t addr = Some o -> code_ok t o
}.

Record st_ok (s : Statedb T) : Prop := {
  so_trie : trie_ok (sd_trie s);
  so_amount : forall addr o, sd_stateObjects s !! addr = Some o -> 0 <= a_Amount (o_account o);
  so_code : forall addr o, sd_stateObjects s !! addr = Some o -> code_ok (sd_trie s) o;
  so_addrHash : forall addr o, sd_stateObjects s !! addr = Some o -> o_addrHash o = MustHash_of addr;
  so_deleted : forall addr o, sd_stateObjects s !! addr = Some o -> o_deleted o = true ->
    trie_object (sd_trie s) addr = None;
  so_refund : 0 <= sd_refund s
}.

(** ** Finding an object *)

(** Caching what was found changes nothing. *)
Lemma find_object_insert s addr o a :
  o_deleted o = false ->
  find_object (upd_objects (<[addr := o]>) s) a
  = if bool_decide (a = addr) then Some o else find_object s a.
Proof.
  intros Hd. unfold find_object. cbn. case_bool_decide as Ha.
  - subst a. by rewrite lookup_insert_eq, Hd.
  - by rewrite lookup_insert_ne.
Qed.

Lemma trie_object_fields t addr o :
  trie_object t addr = Some o -> o_deleted o = false /\ o_addrHash o = MustHash_of addr.
Proof.
  unfold trie_object, loadAccount. destruct (trie_Get t _) as [[v|]|]; [|done|done].
  destruct (Deserialize_account v); [|done]. by intros [= <-].
Qed.

Lemma find_object_fields s addr o :
  st_ok s -> find_object s addr = Some o ->
  o_deleted o = false /\ o_addrHash o = MustHash_of addr /\ 0 <= a_Amount (o_account o)
  /\ code_ok (sd_trie s) o.
Proof.
  intros Hs. unfold find_object. destruct (sd_stateObjects s !! addr) as [o'|] eqn:Hl.
  - destruct (o_deleted o') eqn:Hd; [done|]. intros [= ->]. split; [done|].
    split; [by eapply so_addrHash|]. split; [by eapply so_amount|by eapply so_code].
  - intros Ht. destruct (trie_object_fields _ _ _ Ht) as [? ?]. split; [done|]. split; [done|].
    split; [by eapply to_amount, Ht; apply Hs|by eapply to_code, Ht; apply Hs].
Qed.

Lemma find_object_none s addr :
  st_ok s -> find_object s addr = None -> trie_object (sd_trie s) addr = None.
Proof.
  intros Hs. unfold find_object. destruct (sd_stateObjects s !! addr) as [o|] eqn:Hl; [|done].
  destruct (o_deleted o) eqn:Hd; [|done]. intros _. by eapply so_deleted.
Qed.

(** Keeping the observations and the journal. *)
Record quiet_step (s s' : Statedb T) : Prop := {
  qs_ok : st_ok s';
  qs_equiv : st_equiv s s';
  qs_journal : sd_curJournal s' = sd_curJournal s
}.

Lemma quiet_refl s : st_ok s -> quiet_step s s.
Proof. intros Hs. by constructor. Qed.

Lemma quiet_trans s1 s2 s3 : quiet_step s1 s2 -> quiet_step s2 s3 -> quiet_step s1 s3.
Proof.
  intros [] []. constructor; [done | by etransitivity | congruence].
Qed.

(** Putting an object of the same class in the cache. *)
Lemma put_equiv s addr o o' :
  st_ok s -> find_object s addr = Some o -> obj_equiv (sd_trie s) o o' ->
  o_deleted o' = false -> quiet_step s (upd_objects (<[addr := o']>) s).
Proof.
  intros Hs Hf He Hd. destruct (find_object_fields _ _ _ Hs Hf) as (_ & Hh & Ha & Hc).
  constructor; try done.
  - destruct Hs as [Ht ? ? ? ? ?]. constructor; cbn; [done|..|done];
      intros a x [[<- <-]|[_ Hl]]%lookup_insert_Some; eauto.
    + rewrite <- (oe_amount _ _ _ He). done.
    + unfold code_ok in *. by rewrite <- (oe_codeHash _ _ _ He), <- (oe_code _ _ _ He).
    + by rewrite <- (oe_addrHash _ _ _ He).
    + congruence.
  - constructor; try done. intros a. rewrite find_object_insert by done. case_bool_decide.
    + subst a. rewrite Hf. by constructor.
    + done.
Qed.

Lemma getStateObject_spec s addr :
  st_ok s -> wp (getStateObject addr) s (fun r s' _ => r = find_object s addr /\ quiet_step s s'
    /\ find_object s' addr = find_object s addr
    /\ forall o, r = Some o -> sd_stateObjects s' !! addr = Some o).
Proof.
  intros Hs. unfold getStateObject. wp_seq. unfold find_object at 1 3.
  destruct (sd_stateObjects s !! addr) as [o|] eqn:Hl.
  { wp_seq. split; [done|]. split; [by apply quiet_refl|].
    split; [unfold find_object; by rewrite Hl|].
    intros o'. destruct (o_deleted o); [done|]. by intros [= ->]. }
  unfold trie_object.
  destruct (loadAccount (newStateObject addr) (sd_trie s)) as [[o|]|err] eqn:Hload.
  - unfold put_object. wp_seq.
    assert (Ht : trie_object (sd_trie s) addr = Some o) by (unfold trie_object; by rewrite Hload).
    assert (Hf : find_object s addr = Some o) by (unfold find_object; by rewrite Hl).
    destruct (trie_object_fields _ _ _ Ht) as [Hd _].
    split; [done|]. split; [by eapply put_equiv|].
    split; [rewrite find_object_insert, bool_decide_true by done; done|].
    intros o' [= ->]. cbn. by rewrite lookup_insert_eq.
  - wp_seq. split; [done|]. split; [by apply quiet_refl|].
    split; [|done]. unfold find_object, trie_object. by rewrite Hl, Hload.
  - unfold setError. wp_seq. split; [done|]. split.
    + constructor; try done. destruct Hs. by constructor.
    + split; [|done]. unfold find_object, trie_object. cbn. by rewrite Hl, Hload.
Qed.

(** ** What a change of an object does to the readings *)

(** A reading depends on few of the fields. *)
Lemma read_code_ext t o o' :
  o_code o' = o_code o -> a_CodeHash (o_account o') = a_CodeHash (o_account o) ->
  o_addrHash o' = o_addrHash o -> read_code t o' = read_code t o.
Proof.
  intros Hc Hh Ha. unfold read_code, loadCode, dataKey. rewrite Hc, Hh, Ha.
  destruct (o_code o); [done|]. destruct (_ =? _)%nat; [done|].
  by destruct (trie_Get _ _) as [[]|].
Qed.

Lemma read_state_ext t o o' (k : Hash) (c : bool) :
  (if c then None else o_dirtyStorage o' !! k) = (if c then None else o_dirtyStorage o !! k) ->
  o_cachedStorage o' !! k = o_cachedStorage o !! k ->
  o_addrHash o' = o_addrHash o -> read_state t o' k c = read_state t o k c.
Proof.
  intros Hd Hc Ha. unfold read_state, getState, storageKey, dataKey. rewrite Hd, Hc, Ha.
  destruct (if c then None else o_dirtyStorage o !! k); [done|].
  destruct (o_cachedStorage o !! k); [done|].
  by destruct (trie_Get _ _) as [[]|].
Qed.

Lemma read_code_setCode t o c : read_code t (setCode o c) = default [] c.
Proof. by destruct c. Qed.

Lemma read_state_setState t o k v k' c :
  read_state t (setState o k v) k' c
  = if negb c && bool_decide (k' = k) then v else read_state t o k' c.
Proof.
  destruct c; cbn [negb andb]; [by apply read_state_ext|]. case_bool_decide as Hk.
  - subst k'. unfold read_state, getState, setState. cbn. by rewrite lookup_insert_eq.
  - apply read_state_ext; [|done|done]. cbn. by rewrite lookup_insert_ne.
Qed.

(** Loading the code or a value only caches it. *)
Lemma loadCode_equiv t o :
  obj_equiv t o (loadCode o t).1 /\ o_deleted (loadCode o t).1 = o_deleted o.
Proof.
  unfold loadCode. destruct (o_code o) as [c|] eqn:Hc; [by split|].
  destruct (_ =? _)%nat eqn:Hl; [by split|].
  destruct (trie_Get _ _) as [[v|]|] eqn:Hg; [|by split|by split].
  split; [|done]. constructor; try done; [|by intros; symmetry; apply read_state_ext].
  unfold read_code, loadCode. by rewrite Hc, Hl, Hg.
Qed.

Lemma getState_equiv t o key c :
  obj_equiv t o (getState o t key c).1 /\ o_deleted (getState o t key c).1 = o_deleted o.
Proof.
  unfold getState. destruct (if c then _ else _); [by split|].
  destruct (o_cachedStorage o !! key) eqn:Hc; [by split|].
  destruct (trie_Get _ _) as [[v|]|] eqn:Hg; [|by split|by split].
  split; [|done]. constructor; try done; [by symmetry; apply read_code_ext|].
  intros k c'. destruct (decide (k = key)) as [-> | Hk].
  - unfold read_state, getState. cbn. destruct (if c' then _ else _); [done|].
    by rewrite lookup_insert_eq, Hc, Hg.
  - symmetry. apply read_state_ext; [done| |done]. cbn. by rewrite lookup_insert_ne.
Qed.
End observe.

(** ** Undoing one operation *)

Section undo.
Context {T : Type} `{TrieOps T}.
Implicit Types (s : Statedb T) (t : T) (o : stateObject) (e : journalEntry).

(** The entry takes [s'] back to [s], from every state like [s']. *)
Definition undoes (e : journalEntry) (s s' : Statedb T) : Prop :=
  forall s1, st_ok s1 -> st_equiv s' s1 ->
    wp (entry_revert e) s1 (fun _ s2 _ => st_ok s2 /\ st_equiv s s2
      /\ sd_curJournal s2 = sd_curJournal s1).

(** What an operation does: nothing that is seen, or one change with its entry. *)
Inductive op_step (s s' : Statedb T) : Prop :=
| step_quiet : quiet_step s s' -> op_step s s'
| step_logged e :
    st_ok s' -> sd_curJournal s' = journal_append (sd_curJournal s) e -> undoes e s s' ->
    op_step s s'.

Lemma op_step_ok s s' : op_step s s' -> st_ok s'.
Proof. intros [[]|]; done. Qed.

Lemma quiet_op s s0 s' : quiet_step s s0 -> op_step s0 s' -> op_step s s'.
Proof.
  intros Hq [Hq'|e Hok Hj Hu].
  - left. by eapply quiet_trans.
  - right with e; [done|by rewrite Hj, (qs_journal _ _ Hq)|]. intros s1 Hs1 He.
    eapply wp_mono; [by apply Hu|]. intros _ s2 _ (? & ? & ?). split; [done|]. split; [|done].
    etransitivity; [apply Hq|done].
Qed.

Lemma put_ok s addr o :
  st_ok s -> o_deleted o = false -> o_addrHash o = MustHash_of addr ->
  0 <= a_Amount (o_account o) -> code_ok (sd_trie s) o ->
  st_ok (upd_objects (<[addr := o]>) s).
Proof.
  intros [Ht ? ? ? ? ?] Hd Hh Ha Hc. constructor; cbn; [done|..|done];
    intros a x [[<- <-]|[_ Hl]]%lookup_insert_Some; eauto. congruence.
Qed.

(** The journal plays no part in what is observed. *)
Lemma upd_journal_ok f s : st_ok s -> st_ok (upd_journal f s).
Proof. intros []. by constructor. Qed.

Lemma upd_refund_ok r s : 0 <= r -> st_ok s -> st_ok (upd_refund r s).
Proof. intros Hr []. by constructor. Qed.

Lemma with_object_step {A} addr (none : A) (k : stateObject -> GoM (Statedb T) Empty_set A) s :
  st_ok s ->
  (forall o s0, st_ok s0 -> find_object s0 addr = Some o ->
    wp (k o) s0 (fun _ s' _ => op_step s0 s')) ->
  wp (with_object addr none k) s (fun _ s' _ => op_step s s').
Proof.
  intros Hs Hk. unfold with_object. apply wp_bind.
  eapply wp_mono; [by apply getStateObject_spec|]. intros r s0 _ (-> & Hq & Hf & _).
  destruct (find_object s addr) as [o|].
  - eapply wp_mono; [by apply Hk; [apply Hq|]|]. intros ? s' ? Hop. by eapply quiet_op.
  - apply wp_ret. by left.
Qed.

(** The object that an entry writes, and how. *)
Definition entry_write (e : journalEntry) : option (Address * (stateObject -> stateObject)) :=
  let amount o v :=
    set_account o (mkAccount (a_Nonce (o_account o)) v (a_CodeHash (o_account o))
      (a_TxCount (o_account o))) (o_dirtyAccount o) in
  match e with
  | storageChange a key prev => Some (a, fun o => setState o key prev)
  | balanceChange a prev => Some (a, fun o => amount o prev)
  | codeChange a prev => Some (a, fun o => setCode o prev)
  | nonceChange a prev =>
      Some (a, fun o => set_account o (mkAccount prev (a_Amount (o_account o))
        (a_CodeHash (o_account o)) (a_TxCount (o_account o))) (o_dirtyAccount o))
  | suicideChange a su v => Some (a, fun o => amount (set_flags o su (o_deleted o)) v)
  | refundChange _ | createObjectChange _ => None
  end.

Lemma entry_revert_write e a f s1 Q :
  entry_write e = Some (a, f) ->
  wp (object <- getStateObject a ;; o <- go_deref object ;; put_object a (f o)) s1 Q ->
  wp (entry_revert e) s1 Q.
Proof.
  destruct e; intros [= <- <-]; try (intros Hw; exact Hw).
  unfold wp. cbn [entry_revert]. unfold go_bind at 1 3.
  by destruct (getStateObject addr s1) as [[[[o|] s2] out]|].
Qed.

(** Changing an object with an entry that takes it back. *)
Lemma logged_put s a o o' e f :
  st_ok s -> find_object s a = Some o -> o_deleted o' = false -> o_addrHash o' = o_addrHash o ->
  0 <= a_Amount (o_account o') -> code_ok (sd_trie s) o' -> entry_write e = Some (a, f) ->
  (forall o1, obj_equiv (sd_trie s) o' o1 -> o_deleted o1 = false ->
    obj_equiv (sd_trie s) o (f o1) /\ o_deleted (f o1) = false) ->
  op_step s (upd_objects (<[a := o']>) (upd_journal (fun j => journal_append j e) s)).
Proof.
  intros Hs Hf Hd Hh Ha Hc He Hback.
  destruct (find_object_fields _ _ _ Hs Hf) as (_ & Hha & Hao & Hco).
  right with e; [apply put_ok; cbn; try done; [by apply upd_journal_ok|congruence]|done|].
  intros s1 Hs1 [Ht Hr Ho]. cbn in Ht, Hr, Ho.
  apply (entry_revert_write _ _ _ _ _ He), wp_bind.
  eapply wp_mono; [by apply getStateObject_spec|]. intros r s2 _ (-> & Hq & Hf2 & _).
  pose proof (Ho a) as Hoa. rewrite find_object_insert, bool_decide_true in Hoa by done.
  inversion Hoa as [? o1 Ho1 E1 E2|]; subst. rewrite <- E2 in Hf2.
  destruct (find_object_fields _ _ _ Hs1 (eq_sym E2)) as (Hd1 & _).
  destruct (Hback o1 Ho1 Hd1) as [Hfo Hfd].
  apply wp_bind. eapply wp_deref; [done|]. apply wp_modify.
  destruct Hq as [Hs2 [Ht2 Hr2 Ho2] Hj2].
  assert (Htt : sd_trie s2 = sd_trie s) by congruence.
  split; [|split; [|done]].
  - apply put_ok; [done|done|..].
    + by rewrite <- (oe_addrHash _ _ _ Hfo).
    + by rewrite <- (oe_amount _ _ _ Hfo).
    + unfold code_ok in *. rewrite Htt, <- (oe_codeHash _ _ _ Hfo), <- (oe_code _ _ _ Hfo). done.
  - constructor; cbn; [congruence|congruence|]. intros x.
    rewrite find_object_insert by done. case_bool_decide as Hx.
    + subst x. rewrite Hf. by constructor.
    + specialize (Ho x). specialize (Ho2 x). rewrite find_object_insert in Ho by done.
      rewrite bool_decide_false in Ho by done. rewrite <- Ht in Ho2.
      by etransitivity.
Qed.
End undo.

(** ** The operations *)

Section operations.
Context {T : Type} `{TrieOps T}.
Implicit Types (s : Statedb T) (t : T) (o : stateObject) (e : journalEntry).

(** The code and the storage of an object are not touched. *)
Record same_data (o o' : stateObject) : Prop := {
  sm_code : o_code o' = o_code o;
  sm_codeHash : a_CodeHash (o_account o') = a_CodeHash (o_account o);
  sm_addrHash : o_addrHash o' = o_addrHash o;
  sm_dirty : o_dirtyStorage o' = o_dirtyStorage o;
  sm_cached : o_cachedStorage o' = o_cachedStorage o;
  sm_deleted : o_deleted o' = o_deleted o
}.

Lemma same_data_code t o o' : same_data o o' -> read_code t o' = read_code t o.
Proof. intros []. by apply read_code_ext. Qed.

Lemma same_data_state t o o' k c : same_data o o' -> read_state t o' k c = read_state t o k c.
Proof. intros [? ? ? Hd Hc ?]. by apply read_state_ext; rewrite ?Hd, ?Hc. Qed.

Lemma same_data_code_ok t o o' : same_data o o' -> code_ok t o -> code_ok t o'.
Proof. intros Hm. unfold code_ok. by rewrite (same_data_code t o o'), (sm_codeHash _ _ Hm). Qed.

(** A change of the nonce, the amount or the suicide mark, with its entry. *)
Lemma fields_step s a o o' e f :
  st_ok s -> find_object s a = Some o -> same_data o o' -> 0 <= a_Amount (o_account o') ->
  entry_write e = Some (a, f) -> (forall o1, same_data o1 (f o1)) ->
  (forall o1, obj_equiv (sd_trie s) o' o1 ->
    a_Nonce (o_account (f o1)) = a_Nonce (o_account o)
    /\ a_Amount (o_account (f o1)) = a_Amount (o_account o)
    /\ o_suicided (f o1) = o_suicided o) ->
  op_step s (upd_objects (<[a := o']>) (upd_journal (fun j => journal_append j e) s)).
Proof.
  intros Hs Hf Hm Ha He Hmf Hback.
  destruct (find_object_fields _ _ _ Hs Hf) as (Hd & _ & _ & Hc).
  eapply (logged_put s a o); [done|done|..|done|].
  - by rewrite (sm_deleted _ _ Hm).
  - apply Hm.
  - done.
  - by eapply same_data_code_ok.
  - intros o1 Ho1 Hd1. split; [|by rewrite (sm_deleted _ _ (Hmf o1))].
    destruct (Hback o1 Ho1) as (? & ? & ?). pose proof (Hmf o1) as Hm1.
    constructor; try done.
    + rewrite (sm_addrHash _ _ Hm1), <- (oe_addrHash _ _ _ Ho1). by rewrite (sm_addrHash _ _ Hm).
    + rewrite (sm_codeHash _ _ Hm1), <- (oe_codeHash _ _ _ Ho1). by rewrite (sm_codeHash _ _ Hm).
    + rewrite (same_data_code _ _ _ Hm1), <- (oe_code _ _ _ Ho1). by rewrite (same_data_code _ _ _ Hm).
    + intros k c. rewrite (same_data_state _ _ _ _ _ Hm1), <- (oe_state _ _ _ Ho1).
      by rewrite (same_data_state _ _ _ _ _ Hm).
Qed.

Lemma setAmount_fields o v :
  same_data o (setAmount o v) /\ o_suicided (setAmount o v) = o_suicided o
  /\ a_Nonce (o_account (setAmount o v)) = a_Nonce (o_account o)
  /\ a_Amount (o_account (setAmount o v)) = (if 0 <=? v then v else a_Amount (o_account o)).
Proof. unfold setAmount. by destruct (Z.leb_spec 0 v). Qed.

(** Writing an amount with its entry, as [SetBalance], [AddBalance] and
    [SubBalance] do. *)
Lemma amount_step s a o v :
  st_ok s -> find_object s a = Some o ->
  wp (journal_add (balanceChange a (a_Amount (o_account o))) ;;; put_object a (setAmount o v)) s
    (fun _ s' _ => op_step s s').
Proof.
  intros Hs Hf. unfold journal_add, put_object. wp_seq.
  destruct (find_object_fields _ _ _ Hs Hf) as (_ & _ & Ha & _).
  destruct (setAmount_fields o v) as (Hm & Hsu & Hn & Hv).
  eapply (fields_step s a o); [done|done|done| |done|by intros|].
  - rewrite Hv. destruct (Z.leb_spec 0 v); lia.
  - intros o1 [_ Hn1 _ _ _ _ Hs1]. cbn. by rewrite <- Hn1, <- Hs1.
Qed.

Lemma SetBalance_step s a v : st_ok s -> wp (SetBalance a v) s (fun _ s' _ => op_step s s').
Proof. intros Hs. apply with_object_step; [done|]. intros. by apply amount_step. Qed.

Lemma AddBalance_step s a v : st_ok s -> wp (AddBalance a v) s (fun _ s' _ => op_step s s').
Proof. intros Hs. apply with_object_step; [done|]. intros. by apply amount_step. Qed.

Lemma SubBalance_step s a v : st_ok s -> wp (SubBalance a v) s (fun _ s' _ => op_step s s').
Proof. intros Hs. apply with_object_step; [done|]. intros. by apply amount_step. Qed.

Lemma SetNonce_step s a n : st_ok s -> wp (SetNonce a n) s (fun _ s' _ => op_step s s').
Proof.
  intros Hs. apply with_object_step; [done|]. clear s Hs. intros o s Hs Hf.
  unfold journal_add, put_object. wp_seq.
  destruct (find_object_fields _ _ _ Hs Hf) as (_ & _ & Ha & _).
  eapply (fields_step s a o); [done|done|done|done|done|by intros|].
  intros o1 [_ _ Ha1 _ _ _ Hs1]. cbn. by rewrite <- Ha1, <- Hs1.
Qed.

Lemma SetNonce2_step s a n c : st_ok s -> wp (SetNonce2 a n c) s (fun _ s' _ => op_step s s').
Proof.
  intros Hs. apply with_object_step; [done|]. clear s Hs. intros o s Hs Hf.
  unfold journal_add, put_object. wp_seq.
  destruct (find_object_fields _ _ _ Hs Hf) as (_ & _ & Ha & _).
  eapply (fields_step s a o); [done|done|done|done|done|by intros|].
  intros o1 [_ _ Ha1 _ _ _ Hs1]. cbn. by rewrite <- Ha1, <- Hs1.
Qed.

Lemma Suicide_step s a : st_ok s -> wp (Suicide a) s (fun _ s' _ => op_step s s').
Proof.
  intros Hs. apply with_object_step; [done|]. clear s Hs. intros o s Hs Hf.
  unfold journal_add, put_object. wp_seq.
  eapply (fields_step s a o); [done|done|done|done|done|by intros|].
  intros o1 [_ Hn1 _ _ _ _ _]. cbn. by rewrite <- Hn1.
Qed.

(** Caching what is read is not seen. *)
Lemma cache_step s a o o' :
  st_ok s -> find_object s a = Some o -> obj_equiv (sd_trie s) o o' /\ o_deleted o' = o_deleted o ->
  quiet_step s (upd_objects (<[a := o']>) s).
Proof.
  intros Hs Hf [He Hd]. eapply put_equiv; [done..|].
  destruct (find_object_fields _ _ _ Hs Hf) as (Hd' & _). congruence.
Qed.

Lemma setError_quiet s err :
  st_ok s -> wp (setError err) s (fun _ s' _ => quiet_step s s').
Proof. intros Hs. apply wp_modify. constructor; [|by constructor|done]. destruct Hs. by constructor. Qed.

Lemma quiet_wp {A} (m : GoM (Statedb T) Empty_set A) s0 s :
  quiet_step s0 s -> wp m s (fun _ s' _ => op_step s s') -> wp m s (fun _ s' _ => op_step s0 s').
Proof. intros Hq Hm. eapply wp_mono; [exact Hm|]. intros ? s' ? Hop. by eapply quiet_op. Qed.

Lemma setError_step s err : st_ok s -> wp (setError err) s (fun _ s' _ => op_step s s').
Proof.
  intros Hs. eapply wp_mono; [by apply setError_quiet|]. intros ? s' ? Hq. by left.
Qed.

Lemma getData_step s a k c : st_ok s -> wp (getData a k c) s (fun _ s' _ => op_step s s').
Proof.
  intros Hs. apply with_object_step; [done|]. clear s Hs. intros o s Hs Hf. wp_seq.
  pose proof (getState_equiv (sd_trie s) o k c) as He.
  destruct (getState o (sd_trie s) k c) as [o' r]. cbn [fst] in He. unfold put_object.
  apply wp_bind, wp_modify. pose proof (cache_step s a o o' Hs Hf He) as Hq.
  apply (quiet_wp _ _ _ Hq). destruct r as [v|err]; [by apply wp_ret; left; apply quiet_refl, Hq|].
  apply wp_bind. eapply wp_mono; [by apply setError_step, Hq|]. intros ? s' ? Hop. by apply wp_ret.
Qed.

Lemma GetCode_step s a : st_ok s -> wp (GetCode a) s (fun _ s' _ => op_step s s').
Proof.
  intros Hs. apply with_object_step; [done|]. clear s Hs. intros o s Hs Hf. wp_seq.
  pose proof (loadCode_equiv (sd_trie s) o) as He.
  destruct (loadCode o (sd_trie s)) as [o' r]. cbn [fst] in He. unfold put_object.
  apply wp_bind, wp_modify. pose proof (cache_step s a o o' Hs Hf He) as Hq.
  apply (quiet_wp _ _ _ Hq). destruct r as [v|err]; [by apply wp_ret; left; apply quiet_refl, Hq|].
  apply wp_bind. eapply wp_mono; [by apply setError_step, Hq|]. intros ? s' ? Hop. by apply wp_ret.
Qed.

(** The object in the cache after it was written. *)
Lemma find_put s a o : o_deleted o = false -> find_object (upd_objects (<[a := o]>) s) a = Some o.
Proof. intros Hd. by rewrite find_object_insert, bool_decide_true by done. Qed.

Lemma storage_step s a o k v :
  st_ok s -> find_object s a = Some o ->
  op_step s (upd_objects (<[a := setState o k v]>)
    (upd_journal (fun j => journal_append j (storageChange a k (read_state (sd_trie s) o k false))) s)).
Proof.
  intros Hs Hf. destruct (find_object_fields _ _ _ Hs Hf) as (Hd & _ & Ha & Hc).
  eapply (logged_put s a o); [done|done|exact Hd|done|exact Ha| |done|].
  - unfold code_ok. by rewrite (read_code_ext _ o (setState o k v)).
  - intros o1 [Ho1 Hn1 Ha1 Hh1 Hc1 Hs1 Hsu1] Hd1. split; [|done]. constructor; try done.
    + rewrite (read_code_ext _ o1 (setState o1 _ _)) by done. rewrite <- Hc1. symmetry.
      by apply read_code_ext.
    + intros k' c. rewrite read_state_setState, <- Hs1, read_state_setState.
      destruct c; [done|]. cbn [negb andb]. case_bool_decide; by subst.
Qed.

Lemma SetData_step s a k v : st_ok s -> wp (SetData a k v) s (fun _ s' _ => op_step s s').
Proof.
  intros Hs. apply with_object_step; [done|]. clear s Hs. intros o s Hs Hf. wp_seq.
  pose proof (getState_equiv (sd_trie s) o k false) as He.
  destruct (getState o (sd_trie s) k false) as [o' r] eqn:Hg. cbn [fst] in He. unfold put_object.
  apply wp_bind, wp_modify. pose proof (cache_step s a o o' Hs Hf He) as Hq.
  apply (quiet_wp _ _ _ Hq). destruct r as [prev|err]; [|by apply setError_step, Hq].
  case_bool_decide; [by apply wp_ret; left; apply quiet_refl, Hq|].
  unfold journal_add. wp_seq.
  assert (Hd : o_deleted o' = false).
  { destruct (find_object_fields _ _ _ Hs Hf) as (Hd & _). destruct He. congruence. }
  assert (Hp : prev = read_state (sd_trie s) o' k false).
  { rewrite <- (oe_state _ _ _ (proj1 He)). unfold read_state. by rewrite Hg. }
  rewrite Hp. by eapply (storage_step (upd_objects _ s)); [apply Hq|apply find_put].
Qed.

Lemma code_step s a o prev code :
  st_ok s -> find_object s a = Some o -> read_code (sd_trie s) o = default [] prev ->
  op_step s (upd_objects (<[a := setCode o code]>)
    (upd_journal (fun j => journal_append j (codeChange a prev)) s)).
Proof.
  intros Hs Hf Hp. destruct (find_object_fields _ _ _ Hs Hf) as (Hd & _ & Ha & Hc).
  eapply (logged_put s a o); [done|done|exact Hd|done|exact Ha| |done|].
  - unfold code_ok. rewrite read_code_setCode. by destruct code as [[]|].
  - intros o1 [Ho1 Hn1 Ha1 Hh1 Hc1 Hs1 Hsu1] Hd1. split; [|done]. constructor; try done.
    + unfold code_ok in Hc. rewrite Hc, Hp. by destruct prev as [[]|].
    + by rewrite read_code_setCode.
    + intros k c. rewrite (read_state_ext _ o1 (setCode o1 _)) by done. rewrite <- Hs1. symmetry.
      by apply read_state_ext.
Qed.

Lemma SetCode_step s a code : st_ok s -> wp (SetCode a code) s (fun _ s' _ => op_step s s').
Proof.
  intros Hs. apply with_object_step; [done|]. clear s Hs. intros o s Hs Hf. wp_seq.
  pose proof (loadCode_equiv (sd_trie s) o) as He.
  destruct (loadCode o (sd_trie s)) as [o' r] eqn:Hg. cbn [fst] in He. unfold put_object.
  apply wp_bind, wp_modify. pose proof (cache_step s a o o' Hs Hf He) as Hq.
  apply (quiet_wp _ _ _ Hq). destruct r as [prev|err]; [|by apply setError_step, Hq].
  unfold journal_add. wp_seq.
  assert (Hd : o_deleted o' = false).
  { destruct (find_object_fields _ _ _ Hs Hf) as (Hd & _). destruct He. congruence. }
  eapply (code_step (upd_objects _ s)); [apply Hq|by apply find_put|].
  cbn. rewrite <- (oe_code _ _ _ (proj1 He)). unfold read_code. by rewrite Hg.
Qed.

Lemma newStateObject_code_ok t a : code_ok t (newStateObject a).
Proof. done. Qed.

(** Dropping the new object uncovers what the trie has: nothing. *)
Lemma create_step s a :
  st_ok s -> find_object s a = None ->
  op_step s (upd_objects (<[a := newStateObject a]>)
    (upd_journal (fun j => journal_append j (createObjectChange a)) s)).
Proof.
  intros Hs Hf. right with (createObjectChange a); [|done|].
  - apply put_ok; try done. by apply upd_journal_ok.
  - intros s1 Hs1 [Ht Hr Ho]. cbn in Ht, Hr, Ho. cbn [entry_revert]. apply wp_modify.
    split; [|split; [|done]].
    + destruct Hs1. constructor; cbn; [done|..|done]; intros x o [_ Hl]%lookup_delete_Some; eauto.
    + constructor; [done|done|]. intros x. unfold find_object at 2. cbn.
      destruct (decide (x = a)) as [-> | Hx].
      * rewrite lookup_delete_eq, Hf, <- Ht. by rewrite find_object_none.
      * rewrite lookup_delete_ne by done. specialize (Ho x).
        by rewrite find_object_insert, bool_decide_false in Ho by done.
Qed.

Lemma CreateAccount_step s a : st_ok s -> wp (CreateAccount a) s (fun _ s' _ => op_step s s').
Proof.
  intros Hs. unfold CreateAccount. apply wp_bind.
  eapply wp_mono; [by apply getStateObject_spec|]. intros r s0 _ (-> & Hq & Hf & _).
  destruct (find_object s a) as [o|].
  - apply wp_ret. by left.
  - unfold journal_add, put_object. wp_seq. eapply quiet_op; [done|]. apply create_step; [apply Hq|done].
Qed.

Lemma refund_step s r :
  0 <= r -> st_ok s ->
  op_step s (upd_refund r (upd_journal (fun j => journal_append j (refundChange (sd_refund s))) s)).
Proof.
  intros Hr0 Hs. right with (refundChange (sd_refund s)); [|done|].
  - by apply upd_refund_ok, upd_journal_ok.
  - intros s1 Hs1 [Ht Hr Ho]. cbn [entry_revert]. apply wp_modify.
    split; [by apply upd_refund_ok; [apply Hs|]|]. split; [|done]. by constructor.
Qed.

Lemma AddRefund_step s gas : st_ok s -> wp (AddRefund gas) s (fun _ s' _ => op_step s s').
Proof. intros Hs. unfold AddRefund, journal_add. wp_seq. apply (refund_step s); [apply u64_range|done]. Qed.

Lemma AddLog_step s log : st_ok s -> wp (AddLog log) s (fun _ s' _ => op_step s s').
Proof.
  intros Hs. apply wp_modify. left. constructor; [|by constructor|done].
  destruct Hs. by constructor.
Qed.
End operations.

(** ** A transaction: operations, and calls that may fail

    The methods that run between the start and the end of a transaction. A call
    takes a snapshot first and reverts to it when it fails. *)

Inductive state_op : Type :=
| OpSetBalance (a : Address) (v : Z)
| OpAddBalance (a : Address) (v : Z)
| OpSubBalance (a : Address) (v : Z)
| OpSetNonce (a : Address) (n : Z)
| OpSetNonce2 (a : Address) (n c : Z)
| OpSetData (a : Address) (k : Hash) (v : bytes)
| OpSetCode (a : Address) (code : option bytes)
| OpCreateAccount (a : Address)
| OpSuicide (a : Address)
| OpAddLog (log : Log)
| OpAddRefund (gas : Z)
| OpSubRefund (gas : Z)
| OpGetBalance (a : Address)
| OpGetNonce (a : Address)
| OpGetData (a : Address) (k : Hash) (committed : bool)
| OpGetCode (a : Address)
| OpGetCodeSize (a : Address)
| OpExist (a : Address)
| OpEmpty (a : Address)
| OpHasSuicided (a : Address)
| OpCall (body : list state_op) (fails : bool).

Section transaction.
Context {T : Type} `{TrieOps T}.
Implicit Types (s : Statedb T) (e : journalEntry) (op : state_op).

Definition discard {A} (m : GoM (Statedb T) Empty_set A) : GoM (Statedb T) Empty_set unit :=
  m ;;; go_ret tt.

Fixpoint run_op (op : state_op) : GoM (Statedb T) Empty_set unit :=
  match op with
  | OpSetBalance a v => SetBalance a v
  | OpAddBalance a v => AddBalance a v
  | OpSubBalance a v => SubBalance a v
  | OpSetNonce a n => SetNonce a n
  | OpSetNonce2 a n c => SetNonce2 a n c
  | OpSetData a k v => SetData a k v
  | OpSetCode a code => SetCode a code
  | OpCreateAccount a => CreateAccount a
  | OpSuicide a => discard (Suicide a)
  | OpAddLog log => AddLog log
  | OpAddRefund gas => AddRefund gas
  | OpSubRefund gas => SubRefund gas
  | OpGetBalance a => discard (GetBalance a)
  | OpGetNonce a => discard (GetNonce a)
  | OpGetData a k c => discard (getData a k c)
  | OpGetCode a => discard (GetCode a)
  | OpGetCodeSize a => discard (GetCodeSize a)
  | OpExist a => discard (Exist a)
  | OpEmpty a => discard (Empty a)
  | OpHasSuicided a => discard (HasSuicided a)
  | OpCall body fails =>
      snapshot <- Snapshot_ ;;
      (fix run l := match l with [] => go_ret tt | op :: l' => run_op op ;;; run l' end) body ;;;
      if fails then RevertToSnapshot snapshot else go_ret tt
  end.

Fixpoint run_ops (l : list state_op) : GoM (Statedb T) Empty_set unit :=
  match l with
  | [] => go_ret tt
  | op :: l' => run_op op ;;; run_ops l'
  end.

Lemma run_op_call body fails :
  run_op (OpCall body fails)
  = (snapshot <- Snapshot_ ;; run_ops body ;;;
     if fails then RevertToSnapshot snapshot else go_ret tt).
Proof. done. Qed.

(** The changes since [s0], the newest first, each of which can be taken back. *)
Inductive history (s0 : Statedb T) : list journalEntry -> Statedb T -> Prop :=
| history_start s :
    st_ok s -> st_equiv s0 s -> sd_curJournal s = sd_curJournal s0 -> history s0 [] s
| history_change es s e s' s'' :
    history s0 es s -> undoes e s s' -> st_ok s'' -> st_equiv s' s'' ->
    sd_curJournal s'' = journal_append (sd_curJournal s) e -> history s0 (e :: es) s''.

Lemma history_ok s0 es s : history s0 es s -> st_ok s.
Proof. by intros []. Qed.

Lemma history_quiet s0 es s s' : history s0 es s -> quiet_step s s' -> history s0 es s'.
Proof.
  intros Hh [Hok He Hj]. destruct Hh as [s ? ? ?|es s1 e s2 s ? ? ? ? ?].
  - apply history_start; [done|by etransitivity|congruence].
  - eapply history_change; [done|done|done|by etransitivity|congruence].
Qed.

Lemma history_step s0 es s s' :
  history s0 es s -> op_step s s' -> exists es1, history s0 (es1 ++ es) s'.
Proof.
  intros Hh [Hq|e Hok Hj Hu].
  - exists []. by eapply history_quiet.
  - exists [e]. by eapply history_change.
Qed.

Lemma history_entries s0 es s :
  history s0 es s -> j_entries (sd_curJournal s) = j_entries (sd_curJournal s0) ++ rev es.
Proof.
  induction 1 as [s _ _ ->|es s e s' s'' Hh IH _ _ _ ->]; cbn; [by rewrite app_nil_r|].
  by rewrite IH, app_assoc.
Qed.

(** Every count of the journal is positive. *)
Definition journal_ok (j : journal) : Prop := map_Forall (fun _ n => 0 < n) (j_dirties j).

Lemma journal_append_ok j e : journal_ok j -> journal_ok (journal_append j e).
Proof.
  intros Hj. unfold journal_ok, journal_append. cbn. destruct (dirtyAccount e) as [a|]; [|done].
  apply map_Forall_insert_2; [|done]. destruct (j_dirties j !! a) as [n|] eqn:Hn; cbn; [|lia].
  specialize (Hj a n Hn). cbn in Hj. lia.
Qed.

Lemma undirty_append j e : journal_ok j -> undirty (j_dirties (journal_append j e)) e = j_dirties j.
Proof.
  intros Hj. unfold undirty, journal_append. cbn. destruct (dirtyAccount e) as [a|]; [|done].
  rewrite lookup_insert_eq. cbn. replace (_ + 1 - 1) with (default 0 (j_dirties j !! a)) by lia.
  destruct (j_dirties j !! a) as [n|] eqn:Hn; cbn.
  - specialize (Hj a n Hn). cbn in Hj. destruct (Z.eqb_spec n 0); [lia|].
    rewrite insert_insert_eq. by apply insert_id.
  - rewrite delete_insert_eq. by apply delete_id.
Qed.

Lemma history_journal_ok s0 es s :
  journal_ok (sd_curJournal s0) -> history s0 es s -> journal_ok (sd_curJournal s).
Proof.
  intros Hj. induction 1 as [s _ _ ->|es s e s' s'' Hh IH _ _ _ ->]; [done|].
  by apply journal_append_ok.
Qed.

Lemma revert_entries_history s0 es1 es s s1 :
  journal_ok (sd_curJournal s0) -> history s0 (es1 ++ es) s ->
  st_ok s1 -> st_equiv s s1 -> j_dirties (sd_curJournal s1) = j_dirties (sd_curJournal s) ->
  wp (revert_entries es1) s1 (fun _ s2 _ => exists s', history s0 es s' /\ st_ok s2
    /\ st_equiv s' s2 /\ j_dirties (sd_curJournal s2) = j_dirties (sd_curJournal s')
    /\ j_entries (sd_curJournal s2) = j_entries (sd_curJournal s1)).
Proof.
  intros Hj. revert s s1. induction es1 as [|e es1 IH]; intros s s1 Hh Hs1 He Hd.
  { apply wp_ret. by exists s. }
  inversion Hh as [|? sp ? s' ? Hp Hu _ Heq Hjs]; subst. cbn [revert_entries]. apply wp_bind.
  eapply wp_mono; [apply Hu; [done|by etransitivity]|]. intros _ s2 _ (Hs2 & He2 & Hj2).
  apply wp_bind, wp_modify. eapply wp_mono.
  - apply (IH sp); [done|by apply upd_journal_ok|..].
    + destruct He2. by constructor.
    + cbn. rewrite Hj2, Hd, Hjs. apply undirty_append. by eapply history_journal_ok.
  - intros _ s3 _ (s4 & ? & ? & ? & ? & Hen). exists s4. repeat (split; [done|]).
    rewrite Hen. cbn. by rewrite Hj2.
Qed.

Lemma revert_history s0 es1 es s n :
  journal_ok (sd_curJournal s0) -> history s0 (es1 ++ es) s ->
  n = length (j_entries (sd_curJournal s0) ++ rev es) ->
  wp (RevertToSnapshot n) s (fun _ s2 _ => history s0 es s2).
Proof.
  intros Hj Hh Hn. pose proof (history_entries _ _ _ Hh) as Hen.
  rewrite rev_app_distr, app_assoc in Hen.
  unfold RevertToSnapshot. wp_seq. rewrite Hen, Hn, drop_app_length, rev_involutive.
  eapply wp_mono; [by eapply (revert_entries_history s0 es1 es); [done|done|by eapply history_ok| |]|].
  intros _ s2 _ (s' & Hh' & Hs2 & He2 & Hd2 & Hen2). wp_seq.
  assert (Hjj : mkJournal (take (length (j_entries (sd_curJournal s0) ++ rev es))
      (j_entries (sd_curJournal s2))) (j_dirties (sd_curJournal s2)) = sd_curJournal s').
  { rewrite Hen2, Hen, take_app_length, <- (history_entries _ _ _ Hh'), Hd2.
    by destruct (sd_curJournal s'). }
  eapply history_quiet; [done|]. constructor; [by apply upd_journal_ok| |done].
  destruct He2. by constructor.
Qed.

(** Operations other than calls. *)
Definition is_call (op : state_op) : bool := match op with OpCall _ _ => true | _ => false end.

Lemma discard_step {A} (m : GoM (Statedb T) Empty_set A) s :
  wp m s (fun _ s' _ => op_step s s') -> wp (discard m) s (fun _ s' _ => op_step s s').
Proof.
  intros Hm. apply wp_bind. eapply wp_mono; [exact Hm|]. intros ? s' ? Hop. by apply wp_ret.
Qed.

(** Methods that only look at the object. *)
Lemma reader_step {A} a (none : A) (f : stateObject -> A) s :
  st_ok s -> wp (with_object a none (fun o => go_ret (f o))) s (fun _ s' _ => op_step s s').
Proof.
  intros Hs. apply with_object_step; [done|]. intros o s0 Hs0 _. apply wp_ret. left.
  by apply quiet_refl.
Qed.

Lemma GetCodeSize_step s a : st_ok s -> wp (GetCodeSize a) s (fun _ s' _ => op_step s s').
Proof.
  intros Hs. unfold GetCodeSize. apply wp_bind. eapply wp_mono; [by apply GetCode_step|].
  intros ? s' ? Hop. by apply wp_ret.
Qed.

(** An operation that does not panic is one step; [SubRefund] is the one that may. *)
Lemma simple_step op s :
  is_call op = false -> st_ok s ->
  match run_op op s with Some (_, s', _) => op_step s s' | None => True end.
Proof.
  intros Hop Hs.
  assert (Hwp : (exists gas, op = OpSubRefund gas)
    \/ wp (run_op op) s (fun _ s' _ => op_step s s')).
  { destruct op; try discriminate; cbn [run_op]; try (left; by eexists); right;
      eauto using SetBalance_step, AddBalance_step, SubBalance_step, SetNonce_step,
        SetNonce2_step, SetData_step, SetCode_step, CreateAccount_step, Suicide_step, AddLog_step,
        AddRefund_step, getData_step, GetCode_step, GetCodeSize_step, discard_step, reader_step. }
  destruct Hwp as [[gas ->]|Hwp].
  - unfold run_op, SubRefund, go_bind, go_get. cbn. destruct (Z.ltb_spec (sd_refund s) gas); [done|].
    cbn. apply (refund_step s); [lia|done].
  - unfold wp in Hwp. by destruct (run_op op s) as [[[? ?] ?]|].
Qed.

Lemma state_op_nested_ind (P : state_op -> Prop) :
  (forall op, is_call op = false -> P op) ->
  (forall body fails, Forall P body -> P (OpCall body fails)) -> forall op, P op.
Proof.
  intros Hs Hc. fix IH 1. intros op. destruct op as [| | | | | | | | | | | | | | | | | | | |body fails];
    try (by apply Hs). apply Hc. induction body as [|x l IHl]; constructor; [apply IH|exact IHl].
Qed.

(** The operation, if it does not panic, adds to the history. *)
Definition adds_history (m : GoM (Statedb T) Empty_set unit) : Prop :=
  forall s0 es s, journal_ok (sd_curJournal s0) -> history s0 es s ->
    match m s with Some (_, s', _) => exists es1, history s0 (es1 ++ es) s' | None => True end.

Lemma run_ops_history l : Forall (fun op => adds_history (run_op op)) l -> adds_history (run_ops l).
Proof.
  induction 1 as [|op l Hop _ IH]; intros s0 es s Hj Hh; [by exists []|].
  cbn [run_ops]. unfold go_bind. specialize (Hop s0 es s Hj Hh).
  destruct (run_op op s) as [[[? s1] ?]|]; [|done]. destruct Hop as [es1 Hh1].
  specialize (IH s0 _ s1 Hj Hh1). destruct (run_ops l s1) as [[[? s2] ?]|]; [|done].
  destruct IH as [es2 Hh2]. exists (es2 ++ es1). by rewrite <- app_assoc.
Qed.

Lemma run_op_history op : adds_history (run_op op).
Proof.
  induction op as [op Hop|body fails IH] using state_op_nested_ind; intros s0 es s Hj Hh.
  - pose proof (simple_step op s Hop (history_ok _ _ _ Hh)) as Hs.
    destruct (run_op op s) as [[[? s'] ?]|]; [|done]. by eapply history_step.
  - rewrite run_op_call. unfold Snapshot_, go_bind at 1 2, go_get, go_ret. cbn [app].
    pose proof (run_ops_history body IH s0 es s Hj Hh) as Hb. unfold go_bind.
    destruct (run_ops body s) as [[[? s1] ?]|]; [|done]. destruct Hb as [es1 Hh1].
    destruct fails; [|by exists es1].
    assert (Hr : wp (RevertToSnapshot (length (j_entries (sd_curJournal s)))) s1
      (fun _ s2 _ => history s0 es s2)).
    { eapply revert_history; [done|done|]. by rewrite (history_entries _ _ _ Hh). }
    unfold wp in Hr. destruct (RevertToSnapshot _ s1) as [[[? s2] ?]|]; [|done]. by exists [].
Qed.

(** ** What the getters return *)

(** The value a method returns; [None] is a panic. *)
Definition value_of {A} (m : GoM (Statedb T) Empty_set A) (s : Statedb T) : option A :=
  match m s with Some (v, _, _) => Some v | None => None end.

Lemma value_of_wp {A} (m : GoM (Statedb T) Empty_set A) s v :
  wp m s (fun r _ _ => r = v) -> value_of m s = Some v.
Proof. unfold wp, value_of. destruct (m s) as [[[r s'] o]|]; [by intros ->|done]. Qed.

Lemma with_object_value {A} a (none : A) (k : stateObject -> GoM (Statedb T) Empty_set A)
    (f : stateObject -> A) s :
  st_ok s ->
  (forall o s0, find_object s a = Some o -> sd_trie s0 = sd_trie s -> wp (k o) s0 (fun r _ _ => r = f o)) ->
  value_of (with_object a none k) s = Some (from_option f none (find_object s a)).
Proof.
  intros Hs Hk. apply value_of_wp. unfold with_object. apply wp_bind.
  eapply wp_mono; [by apply getStateObject_spec|]. intros r s0 _ (-> & Hq & _ & _).
  destruct (find_object s a) as [o|]; [|by apply wp_ret].
  eapply wp_mono; [apply Hk; [done|]|by intros ? ? ? ->].
  symmetry. apply Hq.
Qed.

Lemma reader_value {A} a (none : A) (f : stateObject -> A) s :
  st_ok s -> value_of (with_object a none (fun o => go_ret (f o))) s
    = Some (from_option f none (find_object s a)).
Proof. intros Hs. apply with_object_value; [done|]. intros. by apply wp_ret. Qed.

Lemma getData_value a k c s :
  st_ok s -> value_of (getData a k c) s
    = Some (from_option (fun o => read_state (sd_trie s) o k c) [] (find_object s a)).
Proof.
  intros Hs. apply with_object_value; [done|]. intros o s0 _ Ht. wp_seq. rewrite Ht.
  unfold read_state. destruct (getState o (sd_trie s) k c) as [o' [v|err]];
    unfold put_object, setError; wp_seq; done.
Qed.

Lemma GetCode_value a s :
  st_ok s -> value_of (GetCode a) s
    = Some (from_option (read_code (sd_trie s)) [] (find_object s a)).
Proof.
  intros Hs. apply with_object_value; [done|]. intros o s0 _ Ht. wp_seq. rewrite Ht.
  unfold read_code. destruct (loadCode o (sd_trie s)) as [o' [v|err]];
    unfold put_object, setError; wp_seq; done.
Qed.

(** No getter but [GetTxCount] tells the two states apart: the count of transactions is not journaled
    ([SetNonce2_half_reverted]). *)
Record same_readings (s s' : Statedb T) : Prop := {
  rd_balance : forall a, value_of (GetBalance a) s' = value_of (GetBalance a) s;
  rd_nonce : forall a, value_of (GetNonce a) s' = value_of (GetNonce a) s;
  rd_data : forall a k, value_of (GetData a k) s' = value_of (GetData a k) s;
  rd_committed : forall a k, value_of (GetCommittedData a k) s' = value_of (GetCommittedData a k) s;
  rd_code : forall a, value_of (GetCode a) s' = value_of (GetCode a) s;
  rd_codeHash : forall a, value_of (GetCodeHash a) s' = value_of (GetCodeHash a) s;
  rd_exist : forall a, value_of (Exist a) s' = value_of (Exist a) s;
  rd_empty : forall a, value_of (Empty a) s' = value_of (Empty a) s;
  rd_suicided : forall a, value_of (HasSuicided a) s' = value_of (HasSuicided a) s;
  rd_refund : sd_refund s' = sd_refund s
}.

Lemma equiv_reader {A} a (none : A) (f : stateObject -> A) s s' :
  st_equiv s s' -> (forall o o', obj_equiv (sd_trie s) o o' -> f o' = f o) ->
  from_option f none (find_object s' a) = from_option f none (find_object s a).
Proof.
  intros [_ _ Ho] Hf. specialize (Ho a). inversion Ho as [o o' Hoo|]; cbn; [by apply Hf|done].
Qed.

Lemma equiv_same_readings s s' : st_ok s -> st_ok s' -> st_equiv s s' -> same_readings s s'.
Proof.
  intros Hs Hs' He. pose proof (se_trie _ _ He) as Ht. constructor; intros; try (apply eq_sym, He);
    unfold GetData, GetCommittedData, Exist;
    rewrite ?getData_value, ?GetCode_value by done; unfold GetBalance, GetNonce, GetCodeHash, Empty,
    HasSuicided; rewrite ?reader_value by done; rewrite <- ?Ht;
    apply f_equal, (equiv_reader _ _ _ _ _ He); intros o o' Hoo.
  - by rewrite (oe_amount _ _ _ Hoo).
  - by rewrite (oe_nonce _ _ _ Hoo).
  - by rewrite (oe_state _ _ _ Hoo).
  - by rewrite (oe_state _ _ _ Hoo).
  - by rewrite (oe_code _ _ _ Hoo).
  - by rewrite (oe_codeHash _ _ _ Hoo).
  - done.
  - unfold obj_empty. by rewrite (oe_nonce _ _ _ Hoo), (oe_amount _ _ _ Hoo), (oe_codeHash _ _ _ Hoo).
  - by rewrite (oe_suicided _ _ _ Hoo).
Qed.

Lemma run_ops_spec s ops s1 u out :
  st_ok s -> journal_ok (sd_curJournal s) -> run_ops ops s = Some (u, s1, out) ->
  exists es, history s (es ++ []) s1.
Proof.
  intros Hs Hj Hrun.
  assert (Hh : history s [] s) by (by apply history_start).
  pose proof (run_ops_history ops ltac:(by apply Forall_forall; intros; apply run_op_history)
    s [] s Hj Hh) as Hops. by rewrite Hrun in Hops.
Qed.

Lemma run_ops_ok s ops s1 u out :
  st_ok s -> journal_ok (sd_curJournal s) -> run_ops ops s = Some (u, s1, out) ->
  st_ok s1 /\ journal_ok (sd_curJournal s1).
Proof.
  intros Hs Hj Hrun. destruct (run_ops_spec _ _ _ _ _ Hs Hj Hrun) as [es Hes].
  split; [by eapply history_ok|by eapply history_journal_ok].
Qed.

(** C4: Whatever methods of the state run after a snapshot, nested calls that
    fail included, reverting to it does not panic and restores the journal
    with its counts, the refund, and what every getter returns for every
    account: balance, nonce, data, committed data, code, code hash,
    existence, emptiness and the suicide mark. *)
Theorem revert_restores s ops s1 u out :
  st_ok s -> journal_ok (sd_curJournal s) -> run_ops ops s = Some (u, s1, out) ->
  exists s2, RevertToSnapshot (length (j_entries (sd_curJournal s))) s1 = Some (tt, s2, [])
    /\ st_ok s2 /\ sd_curJournal s2 = sd_curJournal s /\ same_readings s s2.
Proof.
  intros Hs Hj Hrun. destruct (run_ops_spec _ _ _ _ _ Hs Hj Hrun) as [es1 Hes].
  destruct (wp_no_output _ s1 (fun _ s2 => history s [] s2)
    (revert_history s es1 [] s1 _ Hj Hes eq_refl)) as ([] & s2 & Hrev & Hh2).
  cbn [rev] in Hrev. rewrite app_nil_r in Hrev. exists s2. split; [exact Hrev|].
  inversion Hh2 as [? Hs2 He2 ?|]; subst. repeat (split; [done|]). by apply equiv_same_readings.
Qed.

(** Whatever methods run, the balance that is read for any account is never
    negative. *)
Theorem balances_nonnegative s ops s1 u out :
  st_ok s -> journal_ok (sd_curJournal s) -> run_ops ops s = Some (u, s1, out) ->
  forall a, exists v, value_of (GetBalance a) s1 = Some v /\ 0 <= v.
Proof.
  intros Hs Hj Hrun a. destruct (run_ops_ok _ _ _ _ _ Hs Hj Hrun) as [Hes _].
  unfold GetBalance. rewrite reader_value by done. eexists. split; [done|].
  destruct (find_object s1 a) as [o|] eqn:Hf; cbn; [|lia].
  by eapply find_object_fields.
Qed.

(** ** Balances *)

Definition balance (s : Statedb T) (a : Address) : Z :=
  from_option (fun o => a_Amount (o_account o)) 0 (find_object s a).

Lemma GetBalance_value s a : st_ok s -> value_of (GetBalance a) s = Some (balance s a).
Proof. intros Hs. by apply reader_value. Qed.

(** The balance of an account that exists becomes [v], unless [v] is negative. *)
Definition balance_set (s : Statedb T) (a : Address) (v : Z) (x : Address) : Z :=
  if bool_decide (x = a /\ is_Some (find_object s a) /\ 0 <= v) then v else balance s x.

Lemma put_balance s a o' x :
  o_deleted o' = false ->
  balance (upd_objects (<[a := o']>) s) x
  = if bool_decide (x = a) then a_Amount (o_account o') else balance s x.
Proof. intros Hd. unfold balance. rewrite find_object_insert by done. by case_bool_decide. Qed.

(** What the three methods that set an amount have in common. *)
Lemma amount_value s a (g : Z -> Z) :
  st_ok s ->
  wp (with_object a tt (fun o =>
      journal_add (balanceChange a (a_Amount (o_account o))) ;;;
      put_object a (setAmount o (g (a_Amount (o_account o)))))) s
    (fun _ s' _ => st_ok s' /\ (forall x, balance s' x = balance_set s a (g (balance s a)) x)
      /\ forall x, is_Some (find_object s' x) <-> is_Some (find_object s x)).
Proof.
  intros Hs. unfold with_object. apply wp_bind.
  eapply wp_mono; [by apply getStateObject_spec|]. intros r s0 _ (-> & Hq & Hf & _).
  assert (Hb : forall x, balance s0 x = balance s x /\ (is_Some (find_object s0 x) <-> is_Some (find_object s x))).
  { intros x. destruct (qs_equiv _ _ Hq) as [_ _ Ho]. specialize (Ho x). unfold balance.
    inversion Ho as [o o' Hoo E1 E2|E1 E2]; cbn; [|by rewrite !is_Some_alt].
    split; [by rewrite (oe_amount _ _ _ Hoo)|]. split; by eexists. }
  destruct (find_object s a) as [o|] eqn:Ho.
  - pose proof (amount_step s0 a o (g (a_Amount (o_account o))) (qs_ok _ _ Hq) Hf) as Hop.
    unfold journal_add, put_object in *. wp_seq. unfold wp in Hop. cbn in Hop.
    split; [by apply op_step_ok in Hop|].
    destruct (find_object_fields _ _ _ Hs Ho) as (Hd & _ & Ha & _).
    destruct (setAmount_fields o (g (a_Amount (o_account o)))) as ([_ _ _ _ _ Hdel] & _ & _ & Hv).
    split; intros x.
    + unfold balance_set. rewrite put_balance by congruence.
      rewrite Hv. replace (balance s a) with (a_Amount (o_account o)) by (unfold balance; by rewrite Ho).
      change (balance (upd_journal _ s0) x) with (balance s0 x). rewrite (proj1 (Hb x)).
      destruct (decide (x = a)) as [-> | Hx]; [|by rewrite !bool_decide_false by naive_solver].
      rewrite bool_decide_true by done. rewrite Ho.
      destruct (Z.leb_spec 0 (g (a_Amount (o_account o)))).
      * by rewrite bool_decide_true.
      * rewrite bool_decide_false by lia. unfold balance. by rewrite Ho.
    + rewrite find_object_insert by congruence. case_bool_decide as Hx; [subst; by rewrite Ho|].
      apply Hb.
  - apply wp_ret. split; [apply Hq|]. split; intros x; [|apply Hb].
    unfold balance_set. rewrite bool_decide_false; [apply Hb|].
    rewrite Ho. intros (_ & [? ?] & _). done.
Qed.

(** AddBalance, SubBalance and SetBalance set the balance of an account
    that exists to the sum, the difference and the value, unless that is
    negative, in which case nothing changes; no other balance changes. *)
Theorem balance_methods s a v :
  st_ok s ->
  wp (AddBalance a v) s (fun _ s' _ => st_ok s'
    /\ forall x, value_of (GetBalance x) s' = Some (balance_set s a (balance s a + v) x))
  /\ wp (SubBalance a v) s (fun _ s' _ => st_ok s'
    /\ forall x, value_of (GetBalance x) s' = Some (balance_set s a (balance s a - v) x))
  /\ wp (SetBalance a v) s (fun _ s' _ => st_ok s'
    /\ forall x, value_of (GetBalance x) s' = Some (balance_set s a v x)).
Proof.
  intros Hs. split; [|split];
    [eapply wp_mono; [exact (amount_value s a (fun b => b + v) Hs)|]
    |eapply wp_mono; [exact (amount_value s a (fun b => b - v) Hs)|]
    |eapply wp_mono; [exact (amount_value s a (fun _ => v) Hs)|]];
    intros _ s' _ (Hs' & Hb & _); (split; [done|]); intros x; by rewrite GetBalance_value, Hb.
Qed.

(** ** What a revert does not restore *)

Lemma getStateObject_logs a s r s' o :
  getStateObject a s = Some (r, s', o) -> sd_curLogs s' = sd_curLogs s.
Proof.
  unfold getStateObject, go_bind, go_get, setError, put_object, go_modify. cbn.
  destruct (sd_stateObjects s !! a); [by intros [= _ <- _]|].
  destruct (loadAccount _ _) as [[]|]; by intros [= _ <- _].
Qed.

Lemma entry_revert_logs e s u s' o :
  entry_revert e s = Some (u, s', o) -> sd_curLogs s' = sd_curLogs s.
Proof.
  destruct e as [| | | | |a ? ?|]; cbn [entry_revert]; try (by intros [= _ <- _]);
    unfold go_bind; (match goal with |- context [getStateObject ?a ?st] =>
      destruct (getStateObject a st) as [[[[ob|] s0] ?]|] eqn:Hg end); try done; cbn;
    intros [= _ <- _]; by apply getStateObject_logs in Hg.
Qed.

Lemma revert_entries_logs es s u s' o :
  revert_entries es s = Some (u, s', o) -> sd_curLogs s' = sd_curLogs s.
Proof.
  revert s u o. induction es as [|e es IH]; intros s u o; [by intros [= _ <- _]|].
  cbn [revert_entries]. unfold go_bind, go_modify.
  destruct (entry_revert e s) as [[[? s1] ?]|] eqn:He; [|done].
  destruct (revert_entries es _) as [[[? s2] ?]|] eqn:Hr; [|done]. intros [= _ <- _].
  rewrite (IH _ _ _ Hr). by apply entry_revert_logs in He.
Qed.

(** Reverting leaves the logs as they are: those that were added after the
    snapshot stay in the receipt. *)
Theorem reverted_logs_stay s1 revid u s2 out :
  RevertToSnapshot revid s1 = Some (u, s2, out) -> sd_curLogs s2 = sd_curLogs s1.
Proof.
  unfold RevertToSnapshot, go_bind, go_get, go_modify.
  destruct (revert_entries _ s1) as [[[? s3] ?]|] eqn:Hr; [|done]. intros [= _ <- _].
  by apply revert_entries_logs in Hr.
Qed.

Lemma cached_object s a o :
  sd_stateObjects s !! a = Some o -> o_deleted o = false ->
  getStateObject a s = Some (Some o, s, []).
Proof. intros Hl Hd. unfold getStateObject, go_bind, go_get. cbn. by rewrite Hl, Hd. Qed.

Lemma cached_reader {A} a (none : A) (f : stateObject -> A) s o :
  sd_stateObjects s !! a = Some o -> o_deleted o = false ->
  value_of (with_object a none (fun o => go_ret (f o))) s = Some (f o).
Proof. intros Hl Hd. unfold value_of, with_object, go_bind. by rewrite (cached_object s a o). Qed.

(** Reverting SetNonce2 restores the nonce and leaves the transaction count
    that it set. *)
Theorem SetNonce2_half_reverted s a n c o :
  st_ok s -> find_object s a = Some o ->
  wp (snapshot <- Snapshot_ ;; SetNonce2 a n c ;;; RevertToSnapshot snapshot) s
    (fun _ s2 _ => value_of (GetNonce a) s2 = value_of (GetNonce a) s
      /\ value_of (GetTxCount a) s2 = Some c).
Proof.
  intros Hs Hf. destruct (find_object_fields _ _ _ Hs Hf) as (Hd & _).
  assert (Hn : value_of (GetNonce a) s = Some (a_Nonce (o_account o))).
  { unfold GetNonce. by rewrite reader_value, Hf. }
  rewrite Hn. unfold GetNonce, GetTxCount.
  apply wp_bind. unfold Snapshot_. wp_seq. unfold SetNonce2, with_object at 1.
  apply wp_bind.
  eapply wp_mono; [by apply getStateObject_spec|].
  intros r s0 _ (-> & Hq & Hf0 & Hl). rewrite Hf in *.
  unfold journal_add, put_object, RevertToSnapshot. wp_seq. cbn [upd_objects upd_journal sd_curJournal
    journal_append j_entries]. rewrite (qs_journal _ _ Hq), drop_app_length. cbn [rev app revert_entries].
  apply wp_bind. cbn [entry_revert]. apply wp_bind. unfold wp at 1.
  erewrite cached_object; [|apply lookup_insert_eq|exact Hd].
  apply wp_bind, wp_ret. unfold put_object. wp_seq.
  split; (erewrite cached_reader; [|apply lookup_insert_eq|exact Hd]); done.
Qed.
End transaction.

(** ** A trie that is a map

    For the examples: the keys and their values, hashes that are injective and of
    32 bytes, and no errors. *)

Definition example_hash (b : bytes) : Hash := Z.pos (encode b) :: replicate 31 0.

#[export] Instance example_trie : TrieOps (gmap bytes bytes) := {|
  trie_error := unit;
  trie_Hash t := example_hash (mjoin (map (fun kv => kv.1 ++ kv.2) (map_to_list t)));
  trie_Get t k := inl (t !! k);
  trie_Put t k v := inl (<[k := v]> t);
  trie_DeletePrefix t p := inl (filter (fun kv => take (length p) kv.1 <> p) t);
  MustHash_of := example_hash;
  HashBytes_of := example_hash;
  Serialize_account a := [a_Nonce a; a_Amount a; a_TxCount a] ++ a_CodeHash a;
  Deserialize_account b :=
    match b with n :: v :: c :: h => Some (mkAccount n v h c) | _ => None end;
  deserialize_error := tt
|}.

(** A state with two accounts, one of which has code and data. *)
Definition example_ops : list state_op :=
  [OpCreateAccount [1]; OpAddBalance [1] 100; OpSetNonce [1] 7;
   OpCreateAccount [2]; OpSetCode [2] (Some [96; 1]); OpSetData [2] [5] [42]].

Definition empty_state : Statedb (gmap bytes bytes) := NewStatedbWithTrie ∅.

Definition example_statedb : Statedb (gmap bytes bytes) :=
  match run_ops example_ops empty_state with Some (_, s, _) => s | None => empty_state end.

Lemma trie_object_empty a : trie_object (sd_trie empty_state) a = None.
Proof.
  unfold trie_object, loadAccount. cbn [trie_Get example_trie empty_state NewStatedbWithTrie sd_trie].
  by rewrite lookup_empty.
Qed.

Lemma empty_state_ok : st_ok empty_state /\ journal_ok (sd_curJournal empty_state).
Proof.
  split; [|apply map_Forall_empty]. constructor; [|by cbn; intros ? ? ?%lookup_empty_Some..|done].
  constructor; intros a o; by rewrite trie_object_empty.
Qed.

(** Code without effects and without a value, when it does not panic. *)
Lemma runs_through {S} (m : GoM S Empty_set unit) s :
  match m s with Some _ => true | None => false end = true -> exists s', m s = Some (tt, s', []).
Proof.
  destruct (m s) as [[[[] s'] o]|]; [|done]. intros _. exists s'. by destruct o as [|[]].
Qed.

Lemma example_state_run : run_ops example_ops empty_state = Some (tt, example_statedb, []).
Proof.
  destruct (runs_through (run_ops example_ops) empty_state) as [s' Hs'];
    [vm_compute; reflexivity|]. unfold example_statedb. by rewrite Hs'.
Qed.

Lemma example_statedb_ok : st_ok example_statedb /\ journal_ok (sd_curJournal example_statedb).
Proof.
  destruct empty_state_ok. by eapply (run_ops_ok empty_state example_ops);
    [..|exact example_state_run].
Qed.

Definition example_log : Log := mkLog [2] [] [7] 1 0.

(** A payment, a new contract that destroys itself, and a call that fails. *)
Definition example_tx : list state_op :=
  [OpSubBalance [1] 30; OpAddBalance [2] 30; OpSetNonce2 [1] 8 1; OpCreateAccount [3];
   OpSetCode [2] None; OpSetData [2] [5] []; OpSetData [2] [6] [9];
   OpCall [OpSuicide [3]; OpAddRefund 5; OpSubBalance [2] 1000; OpGetCode [2]] true; OpAddLog example_log;
   OpSuicide [2]; OpAddRefund 9; OpSubRefund 4].

Lemma revert_restores_witness :
  exists s1 s2, run_ops example_tx example_statedb = Some (tt, s1, [])
    /\ value_of (GetBalance [1]) s1 = Some 70 /\ value_of (GetData [2] [5]) s1 = Some []
    /\ RevertToSnapshot (length (j_entries (sd_curJournal example_statedb))) s1 = Some (tt, s2, [])
    /\ same_readings example_statedb s2.
Proof.
  destruct (runs_through (run_ops example_tx) example_statedb) as [s1 Hrun];
    [vm_compute; reflexivity|].
  destruct (revert_restores example_statedb example_tx s1 tt [] (proj1 example_statedb_ok)
    (proj2 example_statedb_ok) Hrun) as (s2 & Hrev & _ & _ & Hsame).
  exists s1, s2. split; [done|].
  assert (Hv : match run_ops example_tx example_statedb with
    | Some (_, s, _) => (value_of (GetBalance [1]) s, value_of (GetData [2] [5]) s)
    | None => (None, None) end = (Some 70, Some [])) by (vm_compute; reflexivity).
  rewrite Hrun in Hv. injection Hv as Hv1 Hv2. done.
Defined.

Lemma balances_nonnegative_witness :
  exists s1, run_ops example_tx example_statedb = Some (tt, s1, [])
    /\ forall a, exists v, value_of (GetBalance a) s1 = Some v /\ 0 <= v.
Proof.
  destruct (runs_through (run_ops example_tx) example_statedb) as [s1 Hrun];
    [vm_compute; reflexivity|].
  exists s1. split; [done|].
  exact (balances_nonnegative example_statedb example_tx s1 tt [] (proj1 example_statedb_ok)
    (proj2 example_statedb_ok) Hrun).
Defined.

Lemma balance_methods_witness :
  wp (SubBalance [1] 1000) example_statedb (fun _ s' _ => value_of (GetBalance [1]) s' = Some 100)
  /\ wp (AddBalance [2] 5) example_statedb (fun _ s' _ => value_of (GetBalance [2]) s' = Some 5).
Proof.
  destruct (balance_methods example_statedb [1] 1000 (proj1 example_statedb_ok)) as (_ & Hsub & _).
  destruct (balance_methods example_statedb [2] 5 (proj1 example_statedb_ok)) as (Hadd & _).
  split; (eapply wp_mono; [eassumption|]); intros _ s' _ [_ Hv]; rewrite Hv; vm_compute; reflexivity.
Defined.

Lemma reverted_logs_stay_witness :
  exists s1 s2, run_ops [OpAddLog example_log] example_statedb = Some (tt, s1, [])
    /\ RevertToSnapshot (length (j_entries (sd_curJournal example_statedb))) s1 = Some (tt, s2, [])
    /\ sd_curLogs s2 <> sd_curLogs example_statedb.
Proof.
  set (s1 := match run_ops [OpAddLog example_log] example_statedb with
    | Some (_, s, _) => s | None => example_statedb end).
  destruct (runs_through (RevertToSnapshot (length (j_entries (sd_curJournal example_statedb)))) s1)
    as [s2 Hrev]; [vm_compute; reflexivity|].
  exists s1, s2. split; [done|]. split; [done|].
  rewrite (reverted_logs_stay s1 _ tt s2 [] Hrev).
  assert (Hl : length (sd_curLogs s1) <> length (sd_curLogs example_statedb))
    by (vm_compute; discriminate).
  intros He. by rewrite He in Hl.
Defined.

Lemma SetNonce2_half_reverted_witness :
  wp (snapshot <- Snapshot_ ;; SetNonce2 [1] 9 4 ;;; RevertToSnapshot snapshot) example_statedb
    (fun _ s2 _ => value_of (GetNonce [1]) s2 = Some 7 /\ value_of (GetTxCount [1]) s2 = Some 4).
Proof.
  assert (Hs : match find_object example_statedb [1] with Some _ => true | None => false end = true)
    by (vm_compute; reflexivity).
  destruct (find_object example_statedb [1]) as [o|] eqn:Hf; [|discriminate Hs].
  eapply wp_mono; [exact (SetNonce2_half_reverted example_statedb [1] 9 4 o (proj1 example_statedb_ok) Hf)|].
  intros _ s2 _ [Hn Hc]. split; [|exact Hc]. rewrite Hn. vm_compute. reflexivity.
Defined.
