(* ===== verification/Svm.v ===== *)
(** * Processing a transaction

    Models [core/svm] ([svm.go], the context of [evm/evm.go]), the entry points
    [Call] and [Create] of the virtual machine ([core/vm/evm.go]), the dispatch of
    the system contracts ([contract/system/interface.go]) and the checks of
    [core/types/transaction.go] that it uses. The interpreter, the handlers of the
    system contracts and the texts of the errors are parameters. *)

From Stdlib Require Import ZArith Lia.
From S2P Require Import Prelude Common BftHeader StateDb.

Open Scope Z_scope.
Open Scope go_scope.

(** ** Data *)

(** The amount and the price of a transaction that was decoded or validated are not
    nil. *)
Record TransactionData := mkTxData {
  td_Type : Z;
  td_From : Address;
  td_To : Address;
  td_Amount : Z;
  td_AccountNonce : Z;
  td_GasPrice : Z;
  td_GasLimit : Z;
  td_Timestamp : Z;
  td_Payload : bytes
}.

Record Transaction := mkTx { tx_Hash : Hash; tx_Data : TransactionData; tx_Signature : bytes }.

Record Receipt := mkReceipt {
  r_Result : bytes;
  r_Failed : bool;
  r_UsedGas : Z;
  r_PostState : Hash;
  r_Logs : list Log;
  r_TxHash : Hash;
  r_ContractAddress : bytes;
  r_TotalFee : Z
}.

(** The errors of the system contracts ([contract/system]). *)
Inductive SysError : Type :=
| errExists
| errInvalidSubChainInfo
| errNameEmpty
| errNameTooLong
| errInvalidName
| errNotFound
| errRedunedAgain
| errRefundAfterWithdrawed
| errWithdrawAfterWithdrawed
| errTimeLocked
| errTimeExpired
| errNotFutureTime
| errSender
| errReceiver
| errHashMismatch
| errLockAmount
| errSysJson
| ErrDepositNotRight
| ErrAlreadyExist
| ErrNotQuit
| ErrNotEnoughDistance
| errSerialize
| errRelayFee
| errConfirmation
| errHeaderExists
| errRelayer.

Inductive SvmError : Type :=
| ErrBalanceNotEnough
| ErrNonceTooSmall
| ErrIntrinsicGas
| ErrInsufficientBalance
| ErrOutOfGas
| ErrDepth
| ErrContractAddressCollision
| ErrCodeStoreOutOfGas
| errMaxCodeSizeExceeded
| errExecutionReverted
| errInvalidCommand
| ErrStateHash
| errWriteProtection
| errReturnDataOutOfBounds
| errGasUintOverflow
| errInvalidOpcode (op : Z)
| errStackUnderflow
| errStackLimit
| errInvalidJump
| errSystem (err : SysError)
| ErrOther (code : Z).

#[export] Instance SysError_eq_dec : EqDecision SysError.
Proof. solve_decision. Defined.

#[export] Instance SvmError_eq_dec : EqDecision SvmError.
Proof. solve_decision. Defined.

(** A contract that runs: who called it, its address, the value, the gas, the
    code and the address of the code. *)
Record Frame := mkFrame {
  f_caller : Address;
  f_self : Address;
  f_value : Z;
  f_Gas : Z;
  f_Code : bytes;
  f_CodeAddr : Address
}.

(** The state is threaded; what the interpreter reads of the store is its own. *)
Record Context := mkContext {
  c_Tx : Transaction;
  c_TxIndex : Z;
  c_BlockHeader : BlockHeader
}.

(** ** [core/types/transaction.go] *)

Definition TxGas : Z := 21000.
Definition TxDataZeroGas : Z := 4.
Definition TxDataNonZeroGas : Z := 68.

Definition ethIntrinsicGas (data : bytes) : Z :=
  let gas := TxGas in
  if (length data =? 0)%nat then gas
  else
    let nz := Z.of_nat (length (List.filter (fun b => negb (b =? 0)) data)) in
    let gas := u64 (gas + u64 (nz * TxDataNonZeroGas)) in
    let z := u64 (Z.of_nat (length data) - nz) in
    u64 (gas + u64 (z * TxDataZeroGas)).

Definition TransferAmountIntrinsicGas : Z := ethIntrinsicGas [].
Definition CrossShardTransactionGas : Z := TransferAmountIntrinsicGas.
Definition DebtGas : Z := u64 (2 * TransferAmountIntrinsicGas).
Definition CrossShardTotalGas : Z := u64 (CrossShardTransactionGas + DebtGas).

Definition IsCrossShardTx (tx : Transaction) : bool :=
  let d := tx_Data tx in
  negb (Address_IsEmpty (td_From d)) && negb (Address_IsEmpty (td_To d))
  && negb (Address_IsReserved (td_To d))
  && negb (Address_Shard (td_From d) =? Address_Shard (td_To d)).

Definition IntrinsicGas (tx : Transaction) : Z :=
  let gas := ethIntrinsicGas (td_Payload (tx_Data tx)) in
  if IsCrossShardTx tx then u64 (gas * 2) else gas.

Definition ThirdForkHeight : Z := 735000.
Definition SmartContractNonceForkHeight : Z := 1100000.
Definition SubchainFeeAccount : Address := BytesToAddress [1].

Definition CallCreateDepth : Z := 1024.
Definition MaxCodeSize : Z := 24576.
Definition CreateDataGas : Z := 200.

(** ** [contract/system/interface.go] *)

Definition gasInvalidCommand : Z := 50000.

Section svm.
Context {T : Type} `{TrieOps T}.

Abbreviation StM A := (GoM (Statedb T) Empty_set A).

Record cmdInfo := mkCmd {
  cmdUsedGas : Z;
  cmdHandler : bytes -> Transaction -> BlockHeader -> StM (bytes * option SvmError)
}.

(** A system contract is the table of its commands. *)
Definition contract : Type := gmap Z cmdInfo.

Definition RequiredGas (c : contract) (input : bytes) : Z :=
  match input with
  | [] => gasInvalidCommand
  | b :: _ => match c !! b with Some info => cmdUsedGas info | None => gasInvalidCommand end
  end.

Definition Run (c : contract) (input : bytes) (tx : Transaction) (header : BlockHeader)
    : StM (bytes * option SvmError) :=
  match input with
  | [] => go_ret ([], Some errInvalidCommand)
  | b :: rest =>
      match c !! b with
      | Some info => cmdHandler info rest tx header
      | None => go_ret ([], Some errInvalidCommand)
      end
  end.

(** What the processing of a transaction calls. *)
Class VmOps := {
  (** [contracts], by address. *)
  contracts : Address -> option contract;
  (** [precompiles[addr] != nil]. *)
  precompiled : Address -> bool;
  (** [run]: the result, the gas that is left and the error. *)
  vm_run : BlockHeader -> Frame -> bytes -> StM (bytes * Z * option SvmError);
  (** [crypto.MustHash] of an address and a nonce; [crypto.Keccak256Hash] of no
      bytes. *)
  MustHash_nonce : Address -> Z -> Hash;
  emptyCodeHash : Hash;
  (** [err.Error()]. *)
  error_text : SvmError -> bytes
}.

Context `{VmOps}.

Definition GetContractByAddress (address : Address) : option contract := contracts address.

(** ** [ValidateState] *)

(** The two branches on the height are the same. *)
Definition ValidateState (tx : Transaction) (height : Z) : StM (option SvmError) :=
  let d := tx_Data tx in
  let fee := td_GasPrice d * td_GasLimit d in
  let cost := td_Amount d + fee in
  balance <- GetBalance (td_From d) ;;
  if balance <? cost then go_ret (Some ErrBalanceNotEnough)
  else
    accountNonce <- GetNonce (td_From d) ;;
    if ThirdForkHeight <=? height then
      if td_AccountNonce d <? accountNonce then go_ret (Some ErrNonceTooSmall) else go_ret None
    else
      if td_AccountNonce d <? accountNonce then go_ret (Some ErrNonceTooSmall) else go_ret None.

(** ** The virtual machine *)

Definition canTransfer (addr : Address) (amount : Z) : StM bool :=
  balance <- GetBalance addr ;; go_ret (amount <=? balance).

Definition transfer (sender recipient : Address) (amount : Z) : StM unit :=
  SubBalance sender amount ;;;
  if Address_Shard sender =? Address_Shard recipient then AddBalance recipient amount
  else go_ret tt.

(** [UseGas]: the gas that is left, and whether there was enough. *)
Definition UseGas (gas_left gas : Z) : Z * bool :=
  if gas_left <? gas then (gas_left, false) else (gas_left - gas, true).

(** Code at the entry depth, without recursion limit and without tracer, as the
    default configuration has it. *)
Definition evm_Call (header : BlockHeader) (depth : Z) (caller addr : Address) (input : bytes)
    (gas value : Z) : StM (bytes * Z * option SvmError) :=
  if CallCreateDepth <? depth then go_ret ([], gas, Some ErrDepth)
  else
    can <- canTransfer caller value ;;
    if negb can then go_ret ([], gas, Some ErrInsufficientBalance)
    else
      snapshot <- Snapshot_ ;;
      exist <- Exist addr ;;
      if negb exist && negb (precompiled addr) && (value =? 0) then go_ret ([], gas, None)
      else
        (if exist then go_ret tt else CreateAccount addr) ;;;
        transfer caller addr value ;;;
        _ <- GetCodeHash addr ;;
        code <- GetCode addr ;;
        res <- vm_run header (mkFrame caller addr value gas code addr) input ;;
        let '(ret, gas_left, err) := res in
        match err with
        | None => go_ret (ret, gas_left, None)
        | Some e =>
            RevertToSnapshot snapshot ;;;
            go_ret (ret, (if bool_decide (e = errExecutionReverted) then gas_left
                          else (UseGas gas_left gas_left).1), Some e)
        end.

Definition evm_create (header : BlockHeader) (depth : Z) (caller : Address) (code : bytes)
    (gas value : Z) (address : Address) : StM (bytes * Address * Z * option SvmError) :=
  if CallCreateDepth <? depth then go_ret ([], EmptyAddress, gas, Some ErrDepth)
  else
    can <- canTransfer caller value ;;
    if negb can then go_ret ([], EmptyAddress, gas, Some ErrInsufficientBalance)
    else
      nonce <- GetNonce caller ;;
      count <- GetTxCount caller ;;
      SetNonce2 caller (u64 (nonce + 1)) (u64 (count + 1)) ;;;
      contractHash <- GetCodeHash address ;;
      nonce' <- GetNonce address ;;
      if negb (nonce' =? 0)
         || (negb (bytes_eqb contractHash EmptyHash) && negb (bytes_eqb contractHash emptyCodeHash))
      then go_ret ([], EmptyAddress, 0, Some ErrContractAddressCollision)
      else
        snapshot <- Snapshot_ ;;
        CreateAccount address ;;;
        SetNonce2 address 1 1 ;;;
        transfer caller address value ;;;
        res <- vm_run header (mkFrame caller address value gas code address) [] ;;
        let '(ret, gas_left, err) := res in
        let maxCodeSizeExceeded := MaxCodeSize <? Z.of_nat (length ret) in
        stored <- (match err with
                   | None =>
                       if maxCodeSizeExceeded then go_ret (gas_left, None)
                       else
                         let '(gas_left', ok) :=
                           UseGas gas_left (u64 (Z.of_nat (length ret) * CreateDataGas)) in
                         if ok then SetCode address (Some ret) ;;; go_ret (gas_left', None)
                         else go_ret (gas_left', Some ErrCodeStoreOutOfGas)
                   | Some e => go_ret (gas_left, Some e)
                   end) ;;
        let '(gas_left, err) := stored in
        gas_left <- (if maxCodeSizeExceeded || (if err is Some _ then true else false) then
                       RevertToSnapshot snapshot ;;;
                       go_ret (if bool_decide (err = Some errExecutionReverted) then gas_left
                               else (UseGas gas_left gas_left).1)
                     else go_ret gas_left) ;;
        let err := match err with
                   | None => if maxCodeSizeExceeded then Some errMaxCodeSizeExceeded else None
                   | Some e => Some e
                   end in
        go_ret (ret, address, gas_left, err).

Definition CreateAddress (addr : Address) (nonce : Z) : Address :=
  CreateContractAddressWithHash addr (MustHash_nonce addr nonce).

Definition evm_Create (header : BlockHeader) (depth : Z) (caller : Address) (code : bytes)
    (gas value : Z) : StM (bytes * Address * Z * option SvmError) :=
  nonce <- GetNonce caller ;;
  evm_create header depth caller code gas value (CreateAddress caller nonce).

(** ** [core/svm/svm.go] *)

Definition new_receipt (tx : Transaction) : Receipt :=
  mkReceipt [] false 0 EmptyHash [] (tx_Hash tx) [] 0.

Definition set_result (r : Receipt) (result : bytes) : Receipt :=
  mkReceipt result (r_Failed r) (r_UsedGas r) (r_PostState r) (r_Logs r) (r_TxHash r)
    (r_ContractAddress r) (r_TotalFee r).
Definition set_failed (r : Receipt) (failed : bool) : Receipt :=
  mkReceipt (r_Result r) failed (r_UsedGas r) (r_PostState r) (r_Logs r) (r_TxHash r)
    (r_ContractAddress r) (r_TotalFee r).
Definition set_usedGas (r : Receipt) (gas : Z) : Receipt :=
  mkReceipt (r_Result r) (r_Failed r) gas (r_PostState r) (r_Logs r) (r_TxHash r)
    (r_ContractAddress r) (r_TotalFee r).
Definition set_postState (r : Receipt) (h : Hash) : Receipt :=
  mkReceipt (r_Result r) (r_Failed r) (r_UsedGas r) h (r_Logs r) (r_TxHash r)
    (r_ContractAddress r) (r_TotalFee r).
Definition set_logs (r : Receipt) (logs : list Log) : Receipt :=
  mkReceipt (r_Result r) (r_Failed r) (r_UsedGas r) (r_PostState r) logs (r_TxHash r)
    (r_ContractAddress r) (r_TotalFee r).
Definition set_contractAddress (r : Receipt) (a : bytes) : Receipt :=
  mkReceipt (r_Result r) (r_Failed r) (r_UsedGas r) (r_PostState r) (r_Logs r) (r_TxHash r)
    a (r_TotalFee r).
Definition set_totalFee (r : Receipt) (fee : Z) : Receipt :=
  mkReceipt (r_Result r) (r_Failed r) (r_UsedGas r) (r_PostState r) (r_Logs r) (r_TxHash r)
    (r_ContractAddress r) fee.

Definition revertStatedb {A} (snapshot : nat) (err : SvmError) : StM (option A * option SvmError) :=
  RevertToSnapshot snapshot ;;; go_ret (None, Some err).

(** Count the transaction for an account: the nonce given, one transaction more
    than the account [counted] has. *)
Definition count_tx (addr counted : Address) (nonce : Z) : StM unit :=
  count <- GetTxCount counted ;;
  SetNonce2 addr nonce (u64 (count + 1)).

Definition processCrossShardTransaction (ctx : Context) (snapshot : nat)
    : StM (option Receipt * option SvmError) :=
  let d := tx_Data (c_Tx ctx) in
  let receipt := set_usedGas (new_receipt (c_Tx ctx)) CrossShardTotalGas in
  count_tx (td_From d) (td_From d) (u64 (td_AccountNonce d + 1)) ;;;
  toNonce <- GetNonce (td_To d) ;;
  count_tx (td_To d) (td_To d) toNonce ;;;
  let amount := td_Amount d in
  let sender := td_From d in
  balance <- GetBalance sender ;;
  if balance <? amount then revertStatedb snapshot ErrInsufficientBalance
  else
    SubBalance sender amount ;;;
    let txFee := td_GasPrice d * r_UsedGas receipt in
    balance <- GetBalance sender ;;
    if balance <? txFee then revertStatedb snapshot ErrInsufficientBalance
    else
      let receipt := set_totalFee receipt (u64 txFee) in
      SubBalance sender txFee ;;;
      let minerFee := td_GasPrice d * CrossShardTransactionGas in
      AddBalance (h_Creator (c_BlockHeader ctx)) minerFee ;;;
      root <- state_Hash ;;
      match root with
      | inr _ => revertStatedb snapshot ErrStateHash
      | inl h => go_ret (Some (set_postState receipt h), None)
      end.

(** The second [SetNonce2] of the source is on the sender, with the nonce and the
    count of the contract. *)
Definition processSystemContract (ctx : Context) (c : contract) (snapshot : nat) (leftOverGas : Z)
    : StM (option Receipt * option SvmError) :=
  let tx := c_Tx ctx in
  let d := tx_Data tx in
  exist <- Exist (td_To d) ;;
  (if exist then go_ret tt else CreateAccount (td_To d)) ;;;
  let receipt := new_receipt tx in
  count_tx (td_From d) (td_From d) (u64 (td_AccountNonce d + 1)) ;;;
  toNonce <- GetNonce (td_To d) ;;
  count_tx (td_From d) (td_To d) toNonce ;;;
  let amount := td_Amount d in
  let sender := td_From d in
  let recipient := td_To d in
  balance <- GetBalance sender ;;
  if balance <? amount then revertStatedb snapshot ErrInsufficientBalance
  else
    SubBalance sender amount ;;;
    AddBalance recipient amount ;;;
    let receipt := set_usedGas receipt (RequiredGas c (td_Payload d)) in
    if leftOverGas <? r_UsedGas receipt then go_ret (Some receipt, Some ErrOutOfGas)
    else
      res <- Run c (td_Payload d) tx (c_BlockHeader ctx) ;;
      let '(result, err) := res in
      go_ret (Some (set_result receipt result), err).

Definition processEvmContract (ctx : Context) (gas : Z) : StM (option Receipt * option SvmError) :=
  let tx := c_Tx ctx in
  let d := tx_Data tx in
  let header := c_BlockHeader ctx in
  let receipt := new_receipt tx in
  _ <- go_deref (h_CreateTimestamp header) ;;
  _ <- go_deref (h_Difficulty header) ;;
  if Address_IsEmpty (td_To d) then
    res <- evm_Create header 0 (td_From d) (td_Payload d) gas (td_Amount d) ;;
    let '(ret, created, leftOverGas, err) := res in
    let receipt := set_result receipt ret in
    let receipt := if Address_IsEmpty created then receipt else set_contractAddress receipt created in
    go_ret (Some (set_usedGas receipt (u64 (gas - leftOverGas))), err)
  else
    count_tx (td_From d) (td_From d) (u64 (td_AccountNonce d + 1)) ;;;
    toNonce <- GetNonce (td_To d) ;;
    count_tx (td_To d) (td_To d) toNonce ;;;
    res <- evm_Call header 0 (td_From d) (td_To d) (td_Payload d) gas (td_Amount d) ;;
    let '(ret, leftOverGas, err) := res in
    go_ret (Some (set_usedGas (set_result receipt ret) (u64 (gas - leftOverGas))), err).

Definition handleFee (ctx : Context) (receipt : Receipt) (snapshot : nat)
    : StM (option Receipt * option SvmError) :=
  let d := tx_Data (c_Tx ctx) in
  let totalFee := r_UsedGas receipt * td_GasPrice d in
  SubBalance (td_From d) totalFee ;;;
  (if negb (h_Consensus (c_BlockHeader ctx) =? BftConsensus)
   then AddBalance (h_Creator (c_BlockHeader ctx)) totalFee
   else AddBalance SubchainFeeAccount totalFee) ;;;
  let receipt := set_totalFee receipt (u64 totalFee) in
  root <- state_Hash ;;
  match root with
  | inr _ => revertStatedb snapshot ErrStateHash
  | inl h =>
      s <- go_get ;;
      go_ret (Some (set_logs (set_postState receipt h) (sd_curLogs s)), None)
  end.

(** What a failed transaction leaves: its receipt, and from the fork on its count. *)
Definition failed_tx (ctx : Context) (height : Z) (snapshot : nat) (receipt : Receipt) (err : SvmError)
    : StM Receipt :=
  let d := tx_Data (c_Tx ctx) in
  (if height <=? SmartContractNonceForkHeight then RevertToSnapshot snapshot
   else
     databaseAccountNonce <- GetNonce (td_From d) ;;
     let setNonce :=
       if databaseAccountNonce <=? td_AccountNonce d then u64 (td_AccountNonce d + 1)
       else databaseAccountNonce in
     RevertToSnapshot snapshot ;;;
     count_tx (td_From d) (td_From d) setNonce ;;;
     toNonce <- GetNonce (td_To d) ;;
     count_tx (td_To d) (td_To d) toNonce) ;;;
  go_ret (set_result (set_failed receipt true) (error_text err)).

(** Half of the gas that was used can be refunded. *)
Definition refund_gas (used refund : Z) : Z :=
  let maxRefund := used / 2 in
  used - (if maxRefund <? refund then maxRefund else refund).

(** [Process] after the contract: from the check of [ErrInsufficientBalance] on. *)
Definition Process_finish (ctx : Context) (height : Z) (snapshot : nat) (intrGas : Z)
    (res : option Receipt * option SvmError) : StM (option Receipt * option SvmError) :=
  let '(receipt, err) := res in
  if bool_decide (err = Some ErrInsufficientBalance)
  then revertStatedb snapshot ErrInsufficientBalance
  else
    receipt <- go_deref receipt ;;
    receipt <- (match err with
                | Some e => failed_tx ctx height snapshot receipt e
                | None => go_ret receipt
                end) ;;
    let receipt := set_usedGas receipt (u64 (r_UsedGas receipt + intrGas)) in
    s <- go_get ;;
    let receipt := set_usedGas receipt (refund_gas (r_UsedGas receipt) (sd_refund s)) in
    handleFee ctx receipt snapshot.

(** [Process] after [Prepare]: the contract that the transaction is for. *)
Definition Process_dispatch (ctx : Context) (height leftOverGas intrGas : Z) (snapshot : nat)
    : StM (option Receipt * option SvmError) :=
  let tx := c_Tx ctx in
  let d := tx_Data tx in
  match GetContractByAddress (td_To d) with
  | Some c =>
      res <- processSystemContract ctx c snapshot leftOverGas ;;
      Process_finish ctx height snapshot intrGas res
  | None =>
      if IsCrossShardTx tx && negb (Address_IsEVMContract (td_To d))
      then processCrossShardTransaction ctx snapshot
      else
        res <- processEvmContract ctx leftOverGas ;;
        Process_finish ctx height snapshot intrGas res
  end.

Definition Process (ctx : Context) (height : Z) : StM (option Receipt * option SvmError) :=
  let tx := c_Tx ctx in
  let d := tx_Data tx in
  invalid <- ValidateState tx height ;;
  match invalid with
  | Some err => go_ret (None, Some err)
  | None =>
      let gasLimit := td_GasLimit d in
      let intrGas := IntrinsicGas tx in
      if gasLimit <? intrGas then go_ret (None, Some ErrIntrinsicGas)
      else
        let leftOverGas := gasLimit - intrGas in
        snapshot <- Prepare_tx (c_TxIndex ctx) ;;
        Process_dispatch ctx height leftOverGas intrGas snapshot
  end.
End svm.
