(* ===== verification/SvmProofs.v ===== *)
(** * What the processing of a transaction guarantees

    A transaction that is rejected leaves every account as it was. What a payment
    does to the balances and the nonces; the gas that is paid for; and two cases
    where the system contracts break what the rest keeps. *)

From Stdlib Require Import ZArith Lia.
From S2P Require Import Prelude Common BftHeader StateDb StateDbProofs Svm.

Open Scope Z_scope.
Open Scope go_scope.

(** ** Code that only changes the state through the journal *)

Section journaled.
Context {T : Type} `{TrieOps T}.
Implicit Types (s : Statedb T) (es : list journalEntry).

Abbreviation StM A := (GoM (Statedb T) Empty_set A).

(** From a state whose history goes on from [es], [m] leads to such a state. *)
Definition keeps_above {A} (s0 : Statedb T) (es : list journalEntry) (m : StM A) : Prop :=
  forall es1 s, history s0 (es1 ++ es) s ->
    match m s with Some (_, s', _) => exists es2, history s0 (es2 ++ es) s' | None => True end.

(** The same for every start and history. *)
Definition journaled {A} (m : StM A) : Prop :=
  forall s0 es, journal_ok (sd_curJournal s0) -> keeps_above s0 es m.

Lemma keeps_above_bind {A B} s0 es (m : StM A) (k : A -> StM B) :
  keeps_above s0 es m -> (forall a, keeps_above s0 es (k a)) -> keeps_above s0 es (go_bind m k).
Proof.
  intros Hm Hk es1 s Hh. unfold go_bind. specialize (Hm es1 s Hh).
  destruct (m s) as [[[a s1] o]|]; [|done]. destruct Hm as [es2 Hh2].
  specialize (Hk a es2 s1 Hh2). by destruct (k a s1) as [[[b s2] o2]|].
Qed.

Lemma keeps_above_ret {A} s0 es (a : A) : keeps_above s0 es (go_ret a).
Proof. intros es1 s Hh. by exists es1. Qed.

Lemma keeps_above_get s0 es : keeps_above s0 es go_get.
Proof. intros es1 s Hh. by exists es1. Qed.

Lemma keeps_above_deref {A} s0 es (o : option A) : keeps_above s0 es (go_deref o).
Proof. destruct o; [apply keeps_above_ret|done]. Qed.

Lemma keeps_above_if {A} s0 es (b : bool) (m m' : StM A) :
  keeps_above s0 es m -> keeps_above s0 es m' -> keeps_above s0 es (if b then m else m').
Proof. by destruct b. Qed.

(** A step is one. *)
Lemma keeps_above_step {A} s0 es (m : StM A) :
  (forall s, st_ok s -> wp m s (fun _ s' _ => op_step s s')) -> keeps_above s0 es m.
Proof.
  intros Hm es1 s Hh. specialize (Hm s (history_ok _ _ _ Hh)). unfold wp in Hm.
  destruct (m s) as [[[a s'] o]|]; [|done]. destruct (history_step _ _ _ _ Hh Hm) as [l Hl].
  exists (l ++ es1). by rewrite <- app_assoc.
Qed.

(** The snapshot of the history. *)
Definition snapshot_of (s0 : Statedb T) (es : list journalEntry) : nat :=
  length (j_entries (sd_curJournal s0) ++ rev es).

Lemma keeps_above_revert s0 es :
  journal_ok (sd_curJournal s0) -> keeps_above s0 es (RevertToSnapshot (snapshot_of s0 es)).
Proof.
  intros Hj es1 s Hh. pose proof (revert_history s0 es1 es s _ Hj Hh eq_refl) as Hr.
  unfold wp, snapshot_of in *. destruct (RevertToSnapshot _ s) as [[[? s'] ?]|]; [|done].
  by exists [].
Qed.

(** Taking a snapshot and reverting to it later. *)
Lemma keeps_above_snapshot {A} s0 es (k : nat -> StM A) :
  (forall es', keeps_above s0 (es' ++ es) (k (snapshot_of s0 (es' ++ es)))) ->
  keeps_above s0 es (go_bind Snapshot_ k).
Proof.
  intros Hk es1 s Hh. unfold go_bind at 1.
  change (Snapshot_ s) with (Some (length (j_entries (sd_curJournal s)), s, [] : list Empty_set)).
  cbn beta iota. specialize (Hk es1 [] s Hh). unfold snapshot_of in Hk.
  rewrite (history_entries _ _ _ Hh).
  destruct (k _ s) as [[[a s'] o]|]; [|done]. destruct Hk as [l Hl].
  exists (l ++ es1). by rewrite <- app_assoc.
Qed.

End journaled.

Create HintDb journal.
#[export] Hint Resolve SetBalance_step AddBalance_step SubBalance_step SetNonce_step SetNonce2_step
  SetData_step SetCode_step CreateAccount_step Suicide_step AddLog_step AddRefund_step getData_step
  GetCode_step GetCodeSize_step reader_step : journal.

(** Walk through code made of methods, snapshots and reverts to them. *)
Ltac journal_walk :=
  repeat lazymatch goal with
  | |- keeps_above _ _ (go_bind Snapshot_ _) => apply keeps_above_snapshot; intros ?
  | |- keeps_above _ _ (go_bind _ _) => apply keeps_above_bind; [|intros ?]
  | |- keeps_above _ _ (go_ret _) => apply keeps_above_ret
  | |- keeps_above _ _ go_get => apply keeps_above_get
  | |- keeps_above _ _ (go_deref _) => apply keeps_above_deref
  | |- keeps_above _ _ (RevertToSnapshot _) => apply keeps_above_revert; assumption
  | |- keeps_above _ _ (match ?x with _ => _ end) => destruct x
  | |- keeps_above _ _ _ =>
      solve [eauto with journal | apply keeps_above_step; eauto with journal]
  end.

(** ** The parts of the processing *)

Section parts.
Context {T : Type} {HT : TrieOps T} {HV : @VmOps T HT}.
Implicit Types (s : Statedb T) (es : list journalEntry).

Abbreviation StM A := (GoM (Statedb T) Empty_set A).

(** Code that reaches the state only through its methods. *)
Definition via_ops {A} (m : StM A) : Prop :=
  forall s, match m s with
            | Some (_, s', _) => exists ops, run_ops ops s = Some (tt, s', [])
            | None => True
            end.

(** A contract as the processing starts it. *)
Definition frame_ok (f : Frame) : Prop := 0 <= f_value f /\ is_u64 (f_Gas f).

(** What the processing relies on: the interpreter and the handlers of the system
    contracts change the state in ways that can be reverted, and a run uses gas. *)
Class VmLaws := {
  handler_ops : forall a c b info input tx header,
    contracts a = Some c -> c !! b = Some info -> via_ops (cmdHandler info input tx header);
  vm_run_journaled : forall header f input, frame_ok f -> journaled (vm_run header f input);
  vm_run_gas : forall header f input s ret gas err s' o,
    frame_ok f -> st_ok s -> journal_ok (sd_curJournal s) ->
    vm_run header f input s = Some (ret, gas, err, s', o) -> 0 <= gas <= f_Gas f
}.

Lemma via_ops_keeps {A} s0 es (m : StM A) :
  journal_ok (sd_curJournal s0) -> via_ops m -> keeps_above s0 es m.
Proof.
  intros Hj Hm es1 s Hh. specialize (Hm s). destruct (m s) as [[[a s'] o]|]; [|done].
  destruct Hm as [ops Hops].
  pose proof (run_ops_history ops ltac:(by apply Forall_forall; intros; apply run_op_history)
    s0 (es1 ++ es) s Hj Hh) as Hl. rewrite Hops in Hl. destruct Hl as [l Hl].
  exists (l ++ es1). by rewrite <- app_assoc.
Qed.

Context {HL : VmLaws}.
Variable s0 : Statedb T.
Hypothesis Hj : journal_ok (sd_curJournal s0).

Lemma GetBalance_keeps es a : keeps_above s0 es (GetBalance a).
Proof. apply keeps_above_step. intros. by apply reader_step. Qed.
Lemma GetNonce_keeps es a : keeps_above s0 es (GetNonce a).
Proof. apply keeps_above_step. intros. by apply reader_step. Qed.
Lemma GetTxCount_keeps es a : keeps_above s0 es (GetTxCount a).
Proof. apply keeps_above_step. intros. by apply reader_step. Qed.
Lemma GetCodeHash_keeps es a : keeps_above s0 es (GetCodeHash a).
Proof. apply keeps_above_step. intros. by apply reader_step. Qed.
Lemma Exist_keeps es a : keeps_above s0 es (Exist a).
Proof. apply keeps_above_step. intros. by apply (reader_step a false (fun _ => true)). Qed.
Hint Resolve GetBalance_keeps GetNonce_keeps GetTxCount_keeps GetCodeHash_keeps Exist_keeps : journal.

Lemma vm_run_keeps es header f input : frame_ok f -> keeps_above s0 es (vm_run header f input).
Proof. intros Hf. by apply vm_run_journaled. Qed.
Hint Resolve vm_run_keeps : journal.

Lemma transfer_keeps es a b v : keeps_above s0 es (transfer a b v).
Proof. unfold transfer. journal_walk. Qed.
Hint Resolve transfer_keeps : journal.

Lemma frame_ok_of caller addr v gas code codeAddr :
  0 <= v -> is_u64 gas -> frame_ok (mkFrame caller addr v gas code codeAddr).
Proof. done. Qed.
Hint Resolve frame_ok_of : journal.

Lemma evm_Call_keeps es header depth caller addr input gas v :
  0 <= v -> is_u64 gas -> keeps_above s0 es (evm_Call header depth caller addr input gas v).
Proof. intros Hv Hg. unfold evm_Call, canTransfer. journal_walk. Qed.
Hint Resolve evm_Call_keeps : journal.

Lemma evm_Create_keeps es header depth caller code gas v :
  0 <= v -> is_u64 gas -> keeps_above s0 es (evm_Create header depth caller code gas v).
Proof. intros Hv Hg. unfold evm_Create, evm_create, canTransfer. journal_walk. Qed.
Hint Resolve evm_Create_keeps : journal.

Lemma count_tx_keeps es a b n : keeps_above s0 es (count_tx a b n).
Proof. unfold count_tx. journal_walk. Qed.
Hint Resolve count_tx_keeps : journal.

Lemma processEvmContract_keeps es ctx gas :
  0 <= td_Amount (tx_Data (c_Tx ctx)) -> is_u64 gas -> keeps_above s0 es (processEvmContract ctx gas).
Proof. intros Hv Hg. unfold processEvmContract. journal_walk. Qed.

Lemma Run_keeps es a c input tx header :
  contracts a = Some c -> keeps_above s0 es (Run c input tx header).
Proof.
  intros Hc. unfold Run. destruct input as [|b rest]; [apply keeps_above_ret|].
  destruct (c !! b) eqn:Hb; [|apply keeps_above_ret].
  apply via_ops_keeps; [done|]. by eapply handler_ops.
Qed.

Lemma processSystemContract_run ctx c gas :
  (forall input tx header, keeps_above s0 [] (Run c input tx header)) ->
  keeps_above s0 [] (processSystemContract ctx c (snapshot_of s0 []) gas).
Proof. intros Hrun. unfold processSystemContract, revertStatedb. journal_walk. Qed.

Lemma processSystemContract_keeps ctx c gas a :
  contracts a = Some c ->
  keeps_above s0 [] (processSystemContract ctx c (snapshot_of s0 []) gas).
Proof. intros Hc. apply processSystemContract_run. intros. by eapply Run_keeps. Qed.
End parts.

(** ** The intrinsic gas *)

Lemma ethIntrinsicGas_range data : is_u64 (ethIntrinsicGas data).
Proof. unfold ethIntrinsicGas. destruct (_ =? _)%nat; [done|apply u64_range]. Qed.

Lemma IntrinsicGas_range tx : is_u64 (IntrinsicGas tx).
Proof. unfold IntrinsicGas. destruct (IsCrossShardTx tx); [apply u64_range|apply ethIntrinsicGas_range]. Qed.

(** What is left of the limit. *)
Lemma left_gas_u64 limit tx : is_u64 limit -> IntrinsicGas tx <= limit -> is_u64 (limit - IntrinsicGas tx).
Proof. unfold is_u64. pose proof (IntrinsicGas_range tx) as Hr. unfold is_u64 in Hr. lia. Qed.

(** ** Rejected transactions *)

Section rejected.
Context {T : Type} {HT : TrieOps T} {HV : @VmOps T HT} {HL : VmLaws}.
Implicit Types (s : Statedb T) (es : list journalEntry).

Abbreviation StM A := (GoM (Statedb T) Empty_set A).

#[local] Hint Resolve GetBalance_keeps GetNonce_keeps GetTxCount_keeps count_tx_keeps Exist_keeps
  processEvmContract_keeps processSystemContract_keeps : journal.

Lemma failed_tx_keeps s0 ctx height receipt err :
  journal_ok (sd_curJournal s0) ->
  keeps_above s0 [] (failed_tx ctx height (snapshot_of s0 []) receipt err).
Proof. intros Hj. unfold failed_tx. journal_walk. Qed.

(** An outcome without a receipt leaves no history, unless the hash of the state
    could not be computed. *)
Definition rejects_clean (s0 : Statedb T) (m : StM (option Receipt * option SvmError)) : Prop :=
  forall es s err s' o, history s0 es s -> m s = Some (None, Some err, s', o) ->
    err <> ErrStateHash -> history s0 [] s'.

Lemma rejects_clean_bind {A} s0 (m : StM A) (k : A -> StM (option Receipt * option SvmError)) :
  keeps_above s0 [] m -> (forall a, rejects_clean s0 (k a)) -> rejects_clean s0 (go_bind m k).
Proof.
  intros Hm Hk es s err s' o Hh. unfold go_bind. specialize (Hm es s). rewrite app_nil_r in Hm.
  specialize (Hm Hh). destruct (m s) as [[[a s1] o1]|]; [|done]. destruct Hm as [es2 Hh2].
  rewrite app_nil_r in Hh2.
  destruct (k a s1) as [[[[r e] s2] o2]|] eqn:Hka; [|done]. intros [= -> -> -> _]. by apply (Hk a es2 s1 err s' o2).
Qed.

Lemma rejects_clean_receipt s0 r e : rejects_clean s0 (go_ret (Some r, e)).
Proof. by intros es s err s' o _ [= ]. Qed.

Lemma rejects_clean_revert s0 err :
  journal_ok (sd_curJournal s0) -> rejects_clean s0 (revertStatedb (snapshot_of s0 []) err).
Proof.
  intros Hj es s err' s' o Hh. unfold revertStatedb, go_bind.
  pose proof (revert_history s0 es [] s _ Hj ltac:(by rewrite app_nil_r) eq_refl) as Hr.
  unfold wp, snapshot_of in *. destruct (RevertToSnapshot _ s) as [[[? s1] ?]|]; [|done].
  by intros [= _ <- _].
Qed.

Lemma rejects_clean_hash s0 n (k : Hash -> StM (option Receipt * option SvmError)) :
  (forall h s r e s' o, k h s = Some (r, e, s', o) -> is_Some r) ->
  rejects_clean s0 (root <- state_Hash ;;
    match root with inr _ => revertStatedb n ErrStateHash | inl h => k h end).
Proof.
  intros Hk es s err s' o _. unfold go_bind at 1.
  destruct (state_Hash s) as [[[[h|e] s1] o1]|]; [| |done].
  - destruct (k h s1) as [[[[r e] s2] o2]|] eqn:Hkh; [|done]. intros [= -> -> -> _].
    by destruct (Hk _ _ _ _ _ _ Hkh).
  - unfold revertStatedb, go_bind. destruct (RevertToSnapshot n s1) as [[[? s2] ?]|]; [|done].
    by intros [= <- _ _].
Qed.

Lemma handleFee_clean s0 ctx receipt n : rejects_clean s0 (handleFee ctx receipt n).
Proof.
  unfold handleFee. apply rejects_clean_bind; [journal_walk|]. intros _.
  apply rejects_clean_bind; [journal_walk|]. intros _. apply rejects_clean_hash.
  by intros h s r e s' o [= <- _ _ _].
Qed.

Lemma processCrossShardTransaction_clean s0 ctx :
  journal_ok (sd_curJournal s0) ->
  rejects_clean s0 (processCrossShardTransaction ctx (snapshot_of s0 [])).
Proof.
  intros Hj. unfold processCrossShardTransaction.
  do 4 (apply rejects_clean_bind; [journal_walk|]; intros ?).
  destruct (_ <? _); [by apply rejects_clean_revert|].
  do 2 (apply rejects_clean_bind; [journal_walk|]; intros ?).
  destruct (_ <? _); [by apply rejects_clean_revert|].
  do 2 (apply rejects_clean_bind; [journal_walk|]; intros ?). apply rejects_clean_hash.
  by intros h s r e s' o [= <- _ _ _].
Qed.

Lemma Process_finish_clean s0 ctx height intrGas res :
  journal_ok (sd_curJournal s0) ->
  rejects_clean s0 (Process_finish ctx height (snapshot_of s0 []) intrGas res).
Proof.
  intros Hj. destruct res as [receipt e]. unfold Process_finish.
  destruct (bool_decide _); [by apply rejects_clean_revert|].
  apply rejects_clean_bind; [journal_walk|]. intros rc.
  apply rejects_clean_bind; [destruct e; [by apply failed_tx_keeps|journal_walk]|]. intros rc'.
  apply rejects_clean_bind; [journal_walk|]. intros sx. apply handleFee_clean.
Qed.

Lemma Process_dispatch_clean s0 ctx height gas intrGas :
  journal_ok (sd_curJournal s0) -> 0 <= td_Amount (tx_Data (c_Tx ctx)) -> is_u64 gas ->
  rejects_clean s0 (Process_dispatch ctx height gas intrGas (snapshot_of s0 [])).
Proof.
  intros Hj Hv Hg. unfold Process_dispatch. destruct (GetContractByAddress _) as [c|] eqn:Hget.
  - apply rejects_clean_bind; [by eapply processSystemContract_keeps|].
    intros res. by apply Process_finish_clean.
  - destruct (_ && _); [by apply processCrossShardTransaction_clean|].
    apply rejects_clean_bind; [by apply processEvmContract_keeps|].
    intros res. by apply Process_finish_clean.
Qed.

(** The state when the processing starts. *)
Definition prepared (txIndex : Z) (s : Statedb T) : Statedb T :=
  mkStatedb (sd_trie s) (sd_stateObjects s) (sd_dbErr s) 0 txIndex [] newJournal.

Lemma prepared_ok n s : st_ok s -> st_ok (prepared n s) /\ journal_ok (sd_curJournal (prepared n s)).
Proof. intros Hs. split; [destruct Hs; by constructor; cbn|apply map_Forall_empty]. Qed.

Lemma Prepare_tx_run n s : Prepare_tx n s = Some (0%nat, prepared n s, []).
Proof. done. Qed.

(** A reader returns its value and changes nothing that is seen. *)
Lemma reader_quiet {A} a (none : A) (f : stateObject -> A) s :
  st_ok s -> wp (with_object a none (fun o => go_ret (f o))) s
    (fun r s' _ => r = from_option f none (find_object s a) /\ quiet_step s s').
Proof.
  intros Hs. unfold with_object. apply wp_bind.
  eapply wp_mono; [by apply getStateObject_spec|]. intros r s0 _ (-> & Hq & _ & _).
  by destruct (find_object s a) as [o|]; apply wp_ret.
Qed.

Definition nonce_of (s : Statedb T) (a : Address) : Z :=
  from_option (fun o => a_Nonce (o_account o)) 0 (find_object s a).

(** [ValidateState] accepts exactly the transactions that can be paid for and
    whose nonce is not used. *)
Lemma ValidateState_spec tx height s :
  st_ok s ->
  wp (ValidateState tx height) s (fun r s' _ => quiet_step s s'
    /\ r = (if balance s (td_From (tx_Data tx))
                <? td_Amount (tx_Data tx) + td_GasPrice (tx_Data tx) * td_GasLimit (tx_Data tx)
            then Some ErrBalanceNotEnough
            else if td_AccountNonce (tx_Data tx) <? nonce_of s (td_From (tx_Data tx))
            then Some ErrNonceTooSmall else None)).
Proof.
  intros Hs. unfold ValidateState. apply wp_bind.
  eapply wp_mono; [by apply reader_quiet|]. intros b s1 _ [-> Hq1]. fold (balance s (td_From (tx_Data tx))).
  destruct (_ <? _); [by apply wp_ret|]. apply wp_bind.
  eapply wp_mono; [apply reader_quiet, Hq1|]. intros n s2 _ [-> Hq2].
  assert (Hn : nonce_of s1 (td_From (tx_Data tx)) = nonce_of s (td_From (tx_Data tx))).
  { apply (equiv_reader _ _ _ _ _ (qs_equiv _ _ Hq1)). intros o o' Ho. by rewrite (oe_nonce _ _ _ Ho). }
  fold (nonce_of s1 (td_From (tx_Data tx))). rewrite Hn.
  pose proof (quiet_trans _ _ _ Hq1 Hq2). by destruct (_ <=? _), (_ <? _); apply wp_ret.
Qed.

(** C5: A transaction that is processed without a receipt leaves of every
    account the balance, the nonce, the data, the committed data, the code,
    the code hash, the existence, the emptiness and the suicide mark as they
    were, unless the state could not be hashed; whatever the contracts did
    before. What is not reverted are the refund counter and the count of
    transactions of an account (GetTxCount), which SetNonce2 does not
    journal: in the witness it goes from 0 to 1. The amount must not be
    negative and the gas limit is a 64-bit number. *)
Theorem rejected_tx_changes_nothing ctx height s err s' o :
  st_ok s -> 0 <= td_Amount (tx_Data (c_Tx ctx)) -> is_u64 (td_GasLimit (tx_Data (c_Tx ctx))) ->
  Process ctx height s = Some (None, Some err, s', o) -> err <> ErrStateHash ->
  same_readings (upd_refund (sd_refund s') s) s'.
Proof.
  intros Hs Hamt Hlim Hrun Herr. unfold Process, go_bind at 1 in Hrun.
  pose proof (ValidateState_spec (c_Tx ctx) height s Hs) as Hv. unfold wp in Hv.
  destruct (ValidateState (c_Tx ctx) height s) as [[[r s1] o1]|]; [|done].
  destruct Hv as [Hq _].
  assert (Hquiet : forall x, st_ok x -> st_equiv s1 (upd_refund (sd_refund s1) x) ->
    same_readings (upd_refund (sd_refund x) s) x).
  { intros x Hx [Ht _ Ho]. apply equiv_same_readings; [by apply upd_refund_ok; [apply Hx|]|done|].
    destruct (qs_equiv _ _ Hq) as [Ht' _ Ho']. constructor; [cbn in *; congruence|done|].
    intros a. specialize (Ho a). specialize (Ho' a). rewrite <- Ht' in Ho. by etransitivity. }
  assert (Hsame : same_readings (upd_refund (sd_refund s1) s) s1).
  { apply Hquiet; [apply Hq|]. by constructor. }
  destruct r as [e|]; [by injection Hrun as _ <- _|].
  destruct (Z.ltb_spec (td_GasLimit (tx_Data (c_Tx ctx))) (IntrinsicGas (c_Tx ctx)));
    [by injection Hrun as _ <- _|].
  unfold go_bind at 1 in Hrun. rewrite Prepare_tx_run in Hrun.
  destruct (prepared_ok (c_TxIndex ctx) s1 (qs_ok _ _ Hq)) as [Hp Hj].
  set (s0 := prepared (c_TxIndex ctx) s1) in *.
  assert (Hh : history s0 [] s0) by (by apply history_start).
  change 0%nat with (snapshot_of s0 []) in Hrun.
  pose proof (Process_dispatch_clean s0 ctx height
    (td_GasLimit (tx_Data (c_Tx ctx)) - IntrinsicGas (c_Tx ctx)) (IntrinsicGas (c_Tx ctx)) Hj Hamt
    ltac:(by apply left_gas_u64)) as Hc.
  destruct (Process_dispatch _ _ _ _ _ s0) as [[[[r e] s2] o2]|] eqn:Hm; [|done].
  injection Hrun as -> -> -> _. pose proof (Hc [] s0 err s' o2 Hh Hm Herr) as Hback.
  inversion Hback as [? Hs' He _|]; subst. apply Hquiet; [done|].
  destruct He as [Ht _ Ho]. by constructor.
Qed.
End rejected.

(** ** The gas of a receipt *)

Section gas.
Context {T : Type} {HT : TrieOps T} {HV : @VmOps T HT} {HL : VmLaws}.
Implicit Types (s : Statedb T) (es : list journalEntry).

Abbreviation StM A := (GoM (Statedb T) Empty_set A).

Lemma go_bind_inv {A B} (m : StM A) (k : A -> StM B) s b s2 o :
  go_bind m k s = Some (b, s2, o) ->
  exists a s1 o1 o2, m s = Some (a, s1, o1) /\ k a s1 = Some (b, s2, o2).
Proof.
  unfold go_bind. destruct (m s) as [[[a s1] o1]|]; [|done].
  destruct (k a s1) as [[[b' s2'] o2]|] eqn:Hk; [|done]. intros [= -> -> _]. by eauto 10.
Qed.

(** The fee is that of the gas the receipt says. *)
Lemma handleFee_receipt ctx receipt n s r e s' o :
  handleFee ctx receipt n s = Some (Some r, e, s', o) ->
  r_UsedGas r = r_UsedGas receipt /\ r_Failed r = r_Failed receipt
  /\ r_Result r = r_Result receipt
  /\ r_TotalFee r = u64 (r_UsedGas receipt * td_GasPrice (tx_Data (c_Tx ctx))).
Proof.
  unfold handleFee. intros (? & s1 & ? & ? & ? & H1)%go_bind_inv.
  apply go_bind_inv in H1 as (? & s2 & ? & ? & ? & H1).
  apply go_bind_inv in H1 as (root & s3 & ? & ? & ? & H1). destruct root as [h|].
  - apply go_bind_inv in H1 as (sx & s4 & ? & ? & ? & H1). by injection H1 as <- _ _ _.
  - apply go_bind_inv in H1 as (? & s4 & ? & ? & ? & H1). by injection H1 as ?.
Qed.

Lemma failed_tx_receipt ctx height n receipt err s r s' o :
  failed_tx ctx height n receipt err s = Some (r, s', o) ->
  r = set_result (set_failed receipt true) (error_text err).
Proof. unfold failed_tx. intros (? & s1 & ? & ? & ? & H1)%go_bind_inv. by injection H1 as <- _ _. Qed.

(** Code that leaves the refund counter alone. *)
Definition keeps_refund {A} (m : StM A) : Prop :=
  forall s r s' o, m s = Some (r, s', o) -> sd_refund s' = sd_refund s.

Lemma keeps_refund_bind {A B} (m : StM A) (k : A -> StM B) :
  keeps_refund m -> (forall a, keeps_refund (k a)) -> keeps_refund (go_bind m k).
Proof.
  intros Hm Hk s r s' o (a & s1 & o1 & o2 & H1 & H2)%go_bind_inv.
  rewrite (Hk _ _ _ _ _ H2). by eapply Hm.
Qed.

Lemma getStateObject_refund a : keeps_refund (getStateObject a).
Proof.
  intros s r s' o. unfold getStateObject, go_bind, go_get, setError, put_object, go_modify. cbn.
  destruct (sd_stateObjects s !! a); [by intros [= _ <- _]|].
  destruct (loadAccount _ _) as [[]|]; by intros [= _ <- _].
Qed.

Lemma with_object_refund {A} a (none : A) (k : stateObject -> StM A) :
  (forall o, keeps_refund (k o)) -> keeps_refund (with_object a none k).
Proof.
  intros Hk. apply keeps_refund_bind; [apply getStateObject_refund|].
  intros [o|]; [apply Hk|by intros s r s' o [= _ <- _]].
Qed.

Lemma count_tx_refund a b n : keeps_refund (count_tx a b n).
Proof.
  apply keeps_refund_bind.
  - apply with_object_refund. by intros o s r s' o' [= _ <- _].
  - intros c. apply with_object_refund. by intros o s r s' o' [= _ <- _].
Qed.

Lemma GetNonce_refund a : keeps_refund (GetNonce a).
Proof. apply with_object_refund. by intros o s r s' o' [= _ <- _]. Qed.

(** A transaction that failed has no refund. *)
Lemma failed_tx_refund s0 es ctx height receipt err s r s' o :
  journal_ok (sd_curJournal s0) -> history s0 es s ->
  failed_tx ctx height (snapshot_of s0 []) receipt err s = Some (r, s', o) ->
  sd_refund s' = sd_refund s0.
Proof.
  intros Hj Hh. assert (Hback : forall es s u s' o, history s0 es s ->
    RevertToSnapshot (snapshot_of s0 []) s = Some (u, s', o) -> sd_refund s' = sd_refund s0).
  { intros es' x u x' o' Hx Hrun.
    pose proof (revert_history s0 es' [] x _ Hj ltac:(by rewrite app_nil_r) eq_refl) as Hr.
    unfold snapshot_of in *. unfold wp in Hr. rewrite Hrun in Hr. inversion Hr as [? ? [] ?|]; congruence. }
  unfold failed_tx. intros (? & s1 & ? & ? & H1 & H2)%go_bind_inv. injection H2 as _ <- _.
  destruct (height <=? _); [by eapply Hback|].
  apply go_bind_inv in H1 as (n & s2 & ? & ? & Hn & H1).
  pose proof (GetNonce_keeps s0 [] (td_From (tx_Data (c_Tx ctx))) es s) as Hk.
  rewrite app_nil_r, Hn in Hk. destruct (Hk Hh) as [es2 Hh2].
  apply go_bind_inv in H1 as (u & s3 & ? & ? & Hr & H1). rewrite <- (Hback _ _ _ _ _ Hh2 Hr).
  apply go_bind_inv in H1 as (u1 & s4 & ? & ? & Hc1 & H1).
  apply go_bind_inv in H1 as (u2 & s5 & ? & ? & Hc2 & Hc3).
  rewrite (count_tx_refund _ _ _ _ _ _ _ Hc3), (GetNonce_refund _ _ _ _ _ Hc2).
  by apply count_tx_refund in Hc1.
Qed.

(** What [Process] did when it returned a receipt. *)
Lemma Process_inv ctx height s r e s' o :
  st_ok s -> Process ctx height s = Some (Some r, e, s', o) ->
  exists s0 o', st_ok s0 /\ journal_ok (sd_curJournal s0) /\ sd_refund s0 = 0
    /\ (forall x, option_Forall2 (obj_equiv (sd_trie s)) (find_object s x) (find_object s0 x))
    /\ sd_trie s0 = sd_trie s
    /\ td_Amount (tx_Data (c_Tx ctx)) + td_GasPrice (tx_Data (c_Tx ctx)) * td_GasLimit (tx_Data (c_Tx ctx))
       <= balance s (td_From (tx_Data (c_Tx ctx)))
    /\ IntrinsicGas (c_Tx ctx) <= td_GasLimit (tx_Data (c_Tx ctx))
    /\ Process_dispatch ctx height (td_GasLimit (tx_Data (c_Tx ctx)) - IntrinsicGas (c_Tx ctx))
         (IntrinsicGas (c_Tx ctx)) (snapshot_of s0 []) s0 = Some (Some r, e, s', o').
Proof.
  intros Hs. unfold Process. intros (v & s1 & o1 & o2 & Hv & H1)%go_bind_inv.
  pose proof (wp_run _ _ _ _ _ _ (ValidateState_spec (c_Tx ctx) height s Hs) Hv) as [Hq Hval].
  destruct v as [err|]; [done|].
  destruct (Z.ltb_spec (balance s (td_From (tx_Data (c_Tx ctx)))) (td_Amount (tx_Data (c_Tx ctx))
    + td_GasPrice (tx_Data (c_Tx ctx)) * td_GasLimit (tx_Data (c_Tx ctx)))); [done|].
  destruct (Z.ltb_spec (td_GasLimit (tx_Data (c_Tx ctx)))
    (IntrinsicGas (c_Tx ctx))); [done|].
  apply go_bind_inv in H1 as (n & s2 & o3 & o4 & Hp & H1). rewrite Prepare_tx_run in Hp.
  injection Hp as <- <- _.
  destruct (prepared_ok (c_TxIndex ctx) s1 (qs_ok _ _ Hq)) as [Hok Hj].
  exists (prepared (c_TxIndex ctx) s1), o4. repeat (split; [done|]).
  split; [apply Hq|]. split; [symmetry; apply Hq|]. repeat (split; [done|]). done.
Qed.

(** What is left of the receipt of the contract at the end. *)
Lemma Process_finish_receipt s0 es ctx height intrGas receipt err s r e s' o :
  journal_ok (sd_curJournal s0) -> history s0 es s ->
  Process_finish ctx height (snapshot_of s0 []) intrGas (receipt, err) s = Some (Some r, e, s', o) ->
  exists rc refund, receipt = Some rc /\ err <> Some ErrInsufficientBalance
    /\ 0 <= refund /\ (is_Some err -> refund = sd_refund s0)
    /\ r_UsedGas r = refund_gas (u64 (r_UsedGas rc + intrGas)) refund
    /\ r_TotalFee r = u64 (r_UsedGas r * td_GasPrice (tx_Data (c_Tx ctx)))
    /\ r_Failed r = (r_Failed rc || if err is Some _ then true else false).
Proof.
  intros Hj Hh. unfold Process_finish. case_bool_decide as He.
  { intros (? & s1 & ? & ? & ? & H1)%go_bind_inv. done. }
  intros (rc & s1 & o1 & o2 & Hrc & H1)%go_bind_inv. destruct receipt as [rc'|]; [|done].
  injection Hrc as -> <- _. apply go_bind_inv in H1 as (rc1 & s2 & o3 & o4 & H2 & H1).
  apply go_bind_inv in H1 as (sx & s3 & o5 & o6 & Hg & H1). injection Hg as <- <- _.
  apply handleFee_receipt in H1 as (Hu & Hf & _ & Hfee). exists rc, (sd_refund s2).
  split; [done|]. split; [done|]. rewrite Hu, Hf, Hfee. cbn.
  assert (Hk : keeps_above s0 [] (match err with
    | Some e => failed_tx ctx height (snapshot_of s0 []) rc e | None => go_ret rc end))
    by (destruct err; [by apply failed_tx_keeps|apply keeps_above_ret]).
  specialize (Hk es s). rewrite app_nil_r in Hk. specialize (Hk Hh). rewrite H2 in Hk.
  destruct Hk as [es2 Hs2%history_ok]. split; [apply Hs2|].
  destruct err as [er|].
  - split; [intros _; by eapply failed_tx_refund|].
    apply failed_tx_receipt in H2 as ->. cbn. by rewrite orb_true_r.
  - split; [by intros [? ?]|]. injection H2 as <- _ _. by rewrite orb_false_r.
Qed.

Lemma refund_gas_bound used refund :
  0 <= used -> 0 <= refund -> used / 2 <= refund_gas used refund <= used.
Proof. intros. unfold refund_gas. destruct (Z.ltb_spec (used / 2) refund); zdiv. Qed.

(** The first part of a computation that can be reverted. *)
Lemma keeps_bind_inv {A B} s0 es (m : StM A) (k : A -> StM B) s b s2 o :
  history s0 es s -> keeps_above s0 [] m -> go_bind m k s = Some (b, s2, o) ->
  exists a s1 es1 o2, history s0 es1 s1 /\ k a s1 = Some (b, s2, o2).
Proof.
  intros Hh Hm (a & s1 & o1 & o2 & H1 & H2)%go_bind_inv. specialize (Hm es s). rewrite app_nil_r in Hm.
  specialize (Hm Hh). rewrite H1 in Hm. destruct Hm as [es1 Hh1]. rewrite app_nil_r in Hh1. by eauto 10.
Qed.

#[local] Hint Resolve GetBalance_keeps GetNonce_keeps GetTxCount_keeps GetCodeHash_keeps Exist_keeps
  transfer_keeps count_tx_keeps : journal.

(** Go behind a bind, keeping the history. *)
Ltac keeps_inv Hh Hm :=
  let Hk := fresh in let H1 := fresh in let H2 := fresh in
  pose proof (fun K => keeps_bind_inv _ _ _ _ _ _ _ _ Hh K Hm) as Hk;
  destruct (Hk ltac:(unfold canTransfer; journal_walk)) as (? & ? & ? & ? & H1 & H2);
  clear Hk Hm Hh; rename H1 into Hh; rename H2 into Hm; cbn beta in Hm.

Lemma vm_run_gas_history s0 es header f input s ret gas err s' o :
  journal_ok (sd_curJournal s0) -> history s0 es s -> frame_ok f ->
  vm_run header f input s = Some (ret, gas, err, s', o) -> 0 <= gas <= f_Gas f.
Proof.
  intros Hj Hh Hf. apply vm_run_gas; [done|by eapply history_ok|by eapply history_journal_ok].
Qed.

Lemma evm_Call_gas s0 es header depth caller addr input gas v s ret left err s' o :
  journal_ok (sd_curJournal s0) -> history s0 es s -> 0 <= v -> is_u64 gas ->
  evm_Call header depth caller addr input gas v s = Some (ret, left, err, s', o) ->
  0 <= left <= gas.
Proof.
  intros Hj Hh Hv Hg. pose proof Hg as Hg'. unfold is_u64 in Hg'. unfold evm_Call.
  destruct (_ <? _); [intros [= _ <- _ _ _]; lia|]. intros Hm.
  keeps_inv Hh Hm. destruct (negb _); [injection Hm as _ <- _ _ _; lia|].
  apply go_bind_inv in Hm as (n & s2 & ? & ? & Hsn & Hm). injection Hsn as _ <- _.
  keeps_inv Hh Hm. destruct (_ && _); [injection Hm as _ <- _ _ _; lia|].
  do 4 keeps_inv Hh Hm.
  apply go_bind_inv in Hm as (res & s8 & ? & ? & Hrun & Hm). destruct res as [[rt g] er].
  apply (vm_run_gas_history s0 _ _ _ _ _ _ _ _ _ _ Hj Hh) in Hrun; [|done]. cbn in Hrun.
  destruct er as [er|]; [|injection Hm as _ <- _ _ _; lia].
  apply go_bind_inv in Hm as (? & s9 & ? & ? & ? & Hm). injection Hm as _ <- _ _ _.
  destruct (bool_decide _); [lia|]. unfold UseGas. rewrite Z.ltb_irrefl. cbn. lia.
Qed.

Lemma evm_create_gas s0 es header depth caller code gas v addr s ret a left err s' o :
  journal_ok (sd_curJournal s0) -> history s0 es s -> 0 <= v -> is_u64 gas ->
  evm_create header depth caller code gas v addr s = Some (ret, a, left, err, s', o) ->
  0 <= left <= gas.
Proof.
  intros Hj Hh Hv Hg. pose proof Hg as Hg'. unfold is_u64 in Hg'. unfold evm_create.
  destruct (_ <? _); [intros [= _ _ <- _ _ _]; lia|]. intros Hm.
  keeps_inv Hh Hm. destruct (negb _); [injection Hm as _ _ <- _ _ _; lia|].
  do 5 keeps_inv Hh Hm. destruct (_ || _); [injection Hm as _ _ <- _ _ _; lia|].
  apply go_bind_inv in Hm as (n & s2 & ? & ? & Hsn & Hm). injection Hsn as _ <- _.
  do 3 keeps_inv Hh Hm.
  apply go_bind_inv in Hm as (res & s11 & ? & ? & Hrun & Hm). destruct res as [[rt g] er].
  apply (vm_run_gas_history s0 _ _ _ _ _ _ _ _ _ _ Hj Hh) in Hrun; [|done]. cbn in Hrun.
  apply go_bind_inv in Hm as ([g2 er2] & s12 & ? & ? & Hst & Hm).
  assert (Hg2 : 0 <= g2 <= g).
  { destruct er; [injection Hst as <- _ _ _; lia|].
    destruct (MaxCodeSize <? _); [injection Hst as <- _ _ _; lia|].
    unfold UseGas in Hst. pose proof (u64_range (Z.of_nat (length rt) * CreateDataGas)) as Hr.
    destruct (Z.ltb_spec g (u64 (Z.of_nat (length rt) * CreateDataGas))).
    - injection Hst as <- _ _ _. lia.
    - apply go_bind_inv in Hst as (? & s13 & ? & ? & ? & Hst). injection Hst as <- _ _ _.
      unfold is_u64 in Hr. lia. }
  apply go_bind_inv in Hm as (g3 & s13 & ? & ? & Hrv & Hm). injection Hm as _ _ <- _ _ _.
  destruct (_ || _).
  - apply go_bind_inv in Hrv as (? & s14 & ? & ? & ? & Hrv). injection Hrv as <- _ _.
    destruct (bool_decide _); [lia|]. unfold UseGas. rewrite Z.ltb_irrefl. cbn. lia.
  - injection Hrv as <- _ _. lia.
Qed.

Lemma processEvmContract_gas s0 es ctx gas s rc err s' o :
  journal_ok (sd_curJournal s0) -> history s0 es s -> 0 <= td_Amount (tx_Data (c_Tx ctx)) -> is_u64 gas ->
  processEvmContract ctx gas s = Some (Some rc, err, s', o) ->
  0 <= r_UsedGas rc <= gas.
Proof.
  intros Hj Hh Hv Hg. pose proof Hg as Hg'. unfold is_u64 in Hg'. unfold processEvmContract. intros Hm.
  do 2 keeps_inv Hh Hm. destruct (Address_IsEmpty (td_To _)).
  - apply go_bind_inv in Hm as ([[[ret a] left] er] & s3 & ? & ? & Hst & Hm).
    injection Hm as <- _ _ _. cbn. unfold evm_Create in Hst. keeps_inv Hh Hst.
    apply (evm_create_gas _ _ _ _ _ _ _ _ _ _ _ _ _ _ _ _ Hj Hh Hv Hg) in Hst.
    rewrite u64_small by (unfold is_u64; lia). lia.
  - do 3 keeps_inv Hh Hm.
    apply go_bind_inv in Hm as ([[ret left] er] & s6 & ? & ? & Hst & Hm).
    injection Hm as <- _ _ _. cbn.
    apply (evm_Call_gas _ _ _ _ _ _ _ _ _ _ _ _ _ _ _ Hj Hh Hv Hg) in Hst.
    rewrite u64_small by (unfold is_u64; lia). lia.
Qed.

(** C7: A transaction that runs in the virtual machine is never charged more gas
    than its limit, and at least half of its intrinsic gas; the fee of the
    receipt is the gas times the price, modulo 2^64, and the amount and the
    gas at that price, before the wrap-around, were covered by the balance
    of the sender before the transaction. The amount and the price must not
    be negative, the gas limit is a 64-bit number, and the transaction is
    neither for a system contract nor for another shard. *)
Theorem evm_gas_within_limit ctx height s r e s' o :
  let d := tx_Data (c_Tx ctx) in
  st_ok s -> is_u64 (td_GasLimit d) -> 0 <= td_Amount d -> 0 <= td_GasPrice d ->
  contracts (td_To d) = None -> IsCrossShardTx (c_Tx ctx) = false ->
  Process ctx height s = Some (Some r, e, s', o) ->
  IntrinsicGas (c_Tx ctx) / 2 <= r_UsedGas r <= td_GasLimit d
  /\ r_TotalFee r = u64 (r_UsedGas r * td_GasPrice d)
  /\ td_Amount d + r_UsedGas r * td_GasPrice d <= balance s (td_From d).
Proof.
  intros d Hs Hlim Hamt Hprice Hc Hx Hrun.
  destruct (Process_inv _ _ _ _ _ _ _ Hs Hrun) as (s0 & o' & Hs0 & Hj & _ & _ & _ & Hbal & Hintr & Hd).
  unfold Process_dispatch, GetContractByAddress in Hd. fold d in Hd, Hintr, Hbal.
  rewrite Hc, Hx in Hd. cbn [andb] in Hd.
  apply go_bind_inv in Hd as ([receipt err] & s1 & ? & ? & Hevm & Hfin).
  pose proof (left_gas_u64 _ _ Hlim Hintr) as Hleft.
  pose proof (processEvmContract_keeps s0 Hj [] ctx (td_GasLimit d - IntrinsicGas (c_Tx ctx)) Hamt Hleft [] s0
    ltac:(by apply history_start)) as Hk. rewrite Hevm in Hk. destruct Hk as [es Hh].
  rewrite app_nil_r in Hh.
  destruct (Process_finish_receipt s0 es _ _ _ _ _ _ _ _ _ _ Hj Hh Hfin)
    as (rc & refund & -> & _ & Href & _ & Hused & Hfee & _).
  pose proof (IntrinsicGas_range (c_Tx ctx)) as Hr. unfold is_u64 in *.
  apply (processEvmContract_gas s0 []) in Hevm; [|done|by apply history_start|done|done].
  rewrite u64_small in Hused by (unfold is_u64; lia).
  pose proof (refund_gas_bound (r_UsedGas rc + IntrinsicGas (c_Tx ctx)) refund ltac:(lia) Href).
  assert (r_UsedGas r <= td_GasLimit d) by lia. split; [|split; [done|nia]].
  split; [|done]. rewrite Hused. zdiv.
Qed.

(** A system contract that needs more gas than the limit leaves is charged
    for all the gas it would have needed, more than the limit the balance
    was checked against. *)
Theorem system_contract_overcharged ctx height s r e s' o c :
  let d := tx_Data (c_Tx ctx) in
  st_ok s -> contracts (td_To d) = Some c ->
  td_GasLimit d - IntrinsicGas (c_Tx ctx) < RequiredGas c (td_Payload d) ->
  RequiredGas c (td_Payload d) + IntrinsicGas (c_Tx ctx) < 2 ^ 64 ->
  Process ctx height s = Some (Some r, e, s', o) ->
  r_Failed r = true /\ r_UsedGas r = RequiredGas c (td_Payload d) + IntrinsicGas (c_Tx ctx)
  /\ td_GasLimit d < r_UsedGas r
  /\ r_TotalFee r = u64 (r_UsedGas r * td_GasPrice d).
Proof.
  intros d Hs Hc Hlow Hbig Hrun.
  destruct (Process_inv _ _ _ _ _ _ _ Hs Hrun) as (s0 & o' & Hs0 & Hj & Hz & _ & _ & _ & Hintr & Hd).
  unfold Process_dispatch, GetContractByAddress in Hd. fold d in Hd, Hintr. rewrite Hc in Hd.
  apply go_bind_inv in Hd as ([receipt err] & s1 & ? & ? & Hsys & Hfin).
  pose proof (processSystemContract_keeps s0 Hj ctx c (td_GasLimit d - IntrinsicGas (c_Tx ctx))
    (td_To d) Hc [] s0 ltac:(by apply history_start)) as Hk. rewrite Hsys in Hk.
  destruct Hk as [es Hh]. rewrite app_nil_r in Hh.
  destruct (Process_finish_receipt s0 es _ _ _ _ _ _ _ _ _ _ Hj Hh Hfin)
    as (rc & refund & -> & Hne & Href & Hzero & Hused & Hfee & Hfail).
  unfold processSystemContract in Hsys. fold d in Hsys.
  do 5 (apply go_bind_inv in Hsys as (? & ? & ? & ? & ? & Hsys)).
  apply go_bind_inv in Hsys as (bal & ? & ? & ? & ? & Hsys).
  destruct (bal <? td_Amount d).
  { apply go_bind_inv in Hsys as (? & ? & ? & ? & ? & Hsys). done. }
  do 2 (apply go_bind_inv in Hsys as (? & ? & ? & ? & ? & Hsys)). cbn in Hsys.
  destruct (Z.ltb_spec (td_GasLimit d - IntrinsicGas (c_Tx ctx)) (RequiredGas c (td_Payload d)));
    [|lia].
  injection Hsys as <- <- _ _. cbn in Hused, Hfail.
  rewrite Hzero, Hz in Hused by (by eexists).
  pose proof (IntrinsicGas_range (c_Tx ctx)) as Hr. unfold is_u64 in Hr.
  rewrite u64_small in Hused by (unfold is_u64; lia).
  assert (Hu : r_UsedGas r = RequiredGas c (td_Payload d) + IntrinsicGas (c_Tx ctx)).
  { rewrite Hused. unfold refund_gas. destruct (Z.ltb_spec ((RequiredGas c (td_Payload d) + IntrinsicGas (c_Tx ctx)) / 2) 0); zdiv. }
  split; [done|]. split; [done|]. split; [lia|done].
Qed.
End gas.

(** ** Balances and nonces *)

Section accounts.
Context {T : Type} {HT : TrieOps T}.
Implicit Types (s : Statedb T).

Abbreviation StM A := (GoM (Statedb T) Empty_set A).

(** The balance, the nonce and the suicide mark of an account. *)
Definition acct_of (o : stateObject) : Z * Z * bool :=
  (a_Amount (o_account o), a_Nonce (o_account o), o_suicided o).

Definition acct (s : Statedb T) (x : Address) : option (Z * Z * bool) := acct_of <$> find_object s x.

(** A view of the accounts, with one of them changed. *)
Definition alter_at {A} (a : Address) (f : option A -> option A) (V : Address -> option A)
    (x : Address) : option A := if bool_decide (x = a) then f (V a) else V x.

Lemma alter_at_eq {A} a (f : option A -> option A) V : alter_at a f V a = f (V a).
Proof. unfold alter_at. by rewrite bool_decide_true. Qed.

Lemma alter_at_ne {A} a (f : option A -> option A) V x : x <> a -> alter_at a f V x = V x.
Proof. intros Hx. unfold alter_at. by rewrite bool_decide_false. Qed.

Lemma alter_at_ext {A} a (f : option A -> option A) V V' x :
  (forall y, V y = V' y) -> alter_at a f V x = alter_at a f V' x.
Proof. intros HVV. unfold alter_at. by rewrite !HVV. Qed.

Lemma alter_at_some {A} a (g : A -> A) V x : is_Some (alter_at a (fmap g) V x) <-> is_Some (V x).
Proof.
  unfold alter_at. case_bool_decide as Hx; [|done]. subst x. apply fmap_is_Some.
Qed.

Lemma acct_some s x : is_Some (acct s x) <-> is_Some (find_object s x).
Proof. apply fmap_is_Some. Qed.

(** What [GetCode] returns. *)
Definition code_of (s : Statedb T) (x : Address) : bytes := from_option (read_code (sd_trie s)) [] (find_object s x).

(** The state is good, shows the accounts [V] with the codes of [s] and has the objects of [s] in
    its cache. *)
Record shows (s s' : Statedb T) (V : Address -> option (Z * Z * bool)) : Prop := {
  sh_ok : st_ok s';
  sh_acct : forall x, acct s' x = V x;
  sh_cached : forall x, is_Some (sd_stateObjects s !! x) -> is_Some (sd_stateObjects s' !! x);
  sh_code : forall x, code_of s' x = code_of s x
}.

Lemma equiv_object_acct s s' t x :
  option_Forall2 (obj_equiv t) (find_object s x) (find_object s' x) -> acct s' x = acct s x.
Proof.
  intros Ho. unfold acct, acct_of. inversion Ho as [o o' Hoo|]; [|done]. cbn.
  by rewrite (oe_amount _ _ _ Hoo), (oe_nonce _ _ _ Hoo), (oe_suicided _ _ _ Hoo).
Qed.

Lemma equiv_acct s s' x : st_equiv s s' -> acct s' x = acct s x.
Proof. intros [_ _ Ho]. by eapply equiv_object_acct. Qed.

Lemma equiv_code s s' x : st_equiv s s' -> code_of s' x = code_of s x.
Proof.
  intros [Ht _ Ho]. unfold code_of. rewrite <-Ht. specialize (Ho x). inversion Ho as [o o' Hoo|]; [|done].
  cbn. by rewrite (oe_code _ _ _ Hoo).
Qed.

Lemma getStateObject_shows a s :
  st_ok s -> wp (getStateObject a) s (fun r s' _ => r = find_object s a /\ shows s s' (acct s)
    /\ find_object s' a = find_object s a
    /\ (is_Some (find_object s a) -> is_Some (sd_stateObjects s' !! a))).
Proof.
  intros Hs. pose proof (getStateObject_spec s a Hs) as Hg.
  assert (Hc : wp (getStateObject a) s (fun _ s' _ =>
    forall x, is_Some (sd_stateObjects s !! x) -> is_Some (sd_stateObjects s' !! x))).
  { unfold getStateObject. wp_seq. destruct (sd_stateObjects s !! a); [by apply wp_ret|].
    destruct (loadAccount _ _) as [[o|]|]; [|by apply wp_ret|by unfold setError; wp_seq].
    unfold put_object. wp_seq. intros x Hx. cbn. destruct (decide (x = a)) as [-> | Hne].
    - rewrite lookup_insert_eq. by eexists.
    - by rewrite lookup_insert_ne. }
  unfold wp in *. destruct (getStateObject a s) as [[[r s'] o]|]; [|done].
  destruct Hg as (-> & Hq & Hf & Hl). split; [done|]. split; [|split; [done|]].
  - constructor; [apply Hq| |done|]; intros x; [apply equiv_acct, Hq|apply equiv_code, Hq].
  - intros [ob Hob]. rewrite Hob in Hl. rewrite (Hl ob eq_refl). by eexists.
Qed.

(** Readers. *)
Lemma reader_shows {A} a (none : A) (f : stateObject -> A) s :
  st_ok s -> wp (with_object a none (fun o => go_ret (f o))) s
    (fun r s' _ => r = from_option f none (find_object s a) /\ shows s s' (acct s)).
Proof.
  intros Hs. apply wp_bind. eapply wp_mono; [by apply getStateObject_shows|].
  intros r s' _ (-> & Hsh & _). by destruct (find_object s a); apply wp_ret.
Qed.

(** Methods that write the object, with an entry. *)
Lemma writer_shows a (e : stateObject -> journalEntry) (f : stateObject -> stateObject)
    (g : Z * Z * bool -> Z * Z * bool) s :
  st_ok s ->
  (forall s0, st_ok s0 ->
    wp (with_object a tt (fun o => journal_add (e o) ;;; put_object a (f o))) s0
      (fun _ s' _ => op_step s0 s')) ->
  (forall o, acct_of (f o) = g (acct_of o) /\ o_deleted (f o) = o_deleted o) ->
  (forall o t, read_code t (f o) = read_code t o) ->
  wp (with_object a tt (fun o => journal_add (e o) ;;; put_object a (f o))) s
    (fun _ s' _ => shows s s' (alter_at a (fmap g) (acct s))
      /\ (is_Some (find_object s a) -> is_Some (sd_stateObjects s' !! a))).
Proof.
  intros Hs Hop Hf Hcode. specialize (Hop s Hs). unfold with_object, wp in *. unfold go_bind at 1 in Hop. unfold go_bind at 1.
  pose proof (getStateObject_shows a s Hs) as Hg. unfold wp in Hg.
  destruct (getStateObject a s) as [[[r s1] o1]|]; [|done].
  destruct Hg as (-> & Hsh & Hf1 & Hc). destruct (find_object s a) as [ob|] eqn:Hfa.
  - cbn in *. split.
    + constructor; [by apply op_step_ok in Hop| | |].
      * intros x. unfold acct at 1.
        change (find_object _ x) with (find_object (upd_objects (<[a := f ob]>) s1) x).
        rewrite find_object_insert by (destruct (find_object_fields _ _ _ Hs Hfa) as [<- _]; apply Hf).
        case_bool_decide as Hx.
        -- subst x. rewrite alter_at_eq. unfold acct. rewrite Hfa. cbn. by rewrite (proj1 (Hf ob)).
        -- rewrite alter_at_ne by done. apply Hsh.
      * intros x Hx. cbn. destruct (decide (x = a)) as [-> | Hne].
        -- rewrite lookup_insert_eq. by eexists.
        -- rewrite lookup_insert_ne by done. by apply (sh_cached _ _ _ Hsh).
      * intros x. rewrite <-(sh_code _ _ _ Hsh x). unfold code_of.
        change (find_object _ x) with (find_object (upd_objects (<[a := f ob]>) s1) x) at 1.
        rewrite find_object_insert by (destruct (find_object_fields _ _ _ Hs Hfa) as [<- _]; apply Hf).
        case_bool_decide as Hx; [|done]. subst x. rewrite Hf1. cbn. apply Hcode.
    + intros _. cbn. rewrite lookup_insert_eq. by eexists.
  - cbn. split; [|by intros [? ?]]. constructor; [apply Hsh| |apply Hsh|apply Hsh].
    intros x. rewrite (sh_acct _ _ _ Hsh). unfold alter_at. case_bool_decide as Hx; [|done].
    subst x. unfold acct. by rewrite Hfa.
Qed.

Definition with_nonce (n : Z) (v : Z * Z * bool) : Z * Z * bool := (v.1.1, n, v.2).
Definition with_amount (g : Z -> Z) (v : Z * Z * bool) : Z * Z * bool :=
  ((if 0 <=? g v.1.1 then g v.1.1 else v.1.1), v.1.2, v.2).

Lemma SetNonce2_shows a n c s :
  st_ok s -> wp (SetNonce2 a n c) s (fun _ s' _ => shows s s' (alter_at a (fmap (with_nonce n)) (acct s))
    /\ (is_Some (find_object s a) -> is_Some (sd_stateObjects s' !! a))).
Proof.
  intros Hs. apply (writer_shows a (fun o => nonceChange a (a_Nonce (o_account o)))
    (fun o => setTxCount (setNonce o n) c) (with_nonce n)); [done| |done|by intros; apply read_code_ext].
  intros s0 Hs0. by apply SetNonce2_step.
Qed.

Lemma setAmount_acct o (g : Z -> Z) :
  acct_of (setAmount o (g (a_Amount (o_account o)))) = with_amount g (acct_of o)
  /\ o_deleted (setAmount o (g (a_Amount (o_account o)))) = o_deleted o.
Proof. unfold setAmount, with_amount, acct_of. cbn. by destruct (0 <=? _). Qed.

Lemma setAmount_code (t : T) o x : read_code t (setAmount o x) = read_code t o.
Proof. unfold setAmount. destruct (0 <=? x); [by apply read_code_ext|done]. Qed.

Lemma AddBalance_shows a v s :
  st_ok s -> wp (AddBalance a v) s
    (fun _ s' _ => shows s s' (alter_at a (fmap (with_amount (fun b => b + v))) (acct s))
    /\ (is_Some (find_object s a) -> is_Some (sd_stateObjects s' !! a))).
Proof.
  intros Hs. apply (writer_shows a (fun o => balanceChange a (a_Amount (o_account o)))
    (fun o => addAmount o v)); [done| |intros o; apply (setAmount_acct o (fun b => b + v))|intros; apply setAmount_code].
  intros s0 Hs0. by apply AddBalance_step.
Qed.

Lemma SubBalance_shows a v s :
  st_ok s -> wp (SubBalance a v) s
    (fun _ s' _ => shows s s' (alter_at a (fmap (with_amount (fun b => b - v))) (acct s))
    /\ (is_Some (find_object s a) -> is_Some (sd_stateObjects s' !! a))).
Proof.
  intros Hs. apply (writer_shows a (fun o => balanceChange a (a_Amount (o_account o)))
    (fun o => subAmount o v)); [done| |intros o; apply (setAmount_acct o (fun b => b - v))|intros; apply setAmount_code].
  intros s0 Hs0. by apply SubBalance_step.
Qed.

Lemma CreateAccount_shows a s :
  st_ok s -> wp (CreateAccount a) s
    (fun _ s' _ => shows s s' (alter_at a (fun v => Some (default (0, 0, false) v)) (acct s))).
Proof.
  intros Hs. pose proof (CreateAccount_step s a Hs) as Hop.
  unfold CreateAccount, wp in *. unfold go_bind at 1 in Hop. unfold go_bind at 1.
  pose proof (getStateObject_shows a s Hs) as Hg. unfold wp in Hg.
  destruct (getStateObject a s) as [[[r s1] o1]|]; [|done].
  destruct Hg as (-> & Hsh & Hf1 & Hc). destruct (find_object s a) as [ob|] eqn:Hfa; cbn in *.
  - constructor; [apply Hsh| |apply Hsh|apply Hsh]. intros x. rewrite (sh_acct _ _ _ Hsh).
    unfold alter_at. case_bool_decide as Hx; [|done]. subst x. unfold acct. by rewrite Hfa.
  - constructor; [by apply op_step_ok in Hop| | |].
    + intros x. unfold acct at 1.
      change (find_object _ x) with (find_object (upd_objects (<[a := newStateObject a]>) s1) x).
      rewrite find_object_insert by done. unfold alter_at. case_bool_decide as Hx.
      * subst x. unfold acct. by rewrite Hfa.
      * apply Hsh.
    + intros x Hx. cbn. destruct (decide (x = a)) as [-> | Hne].
      * rewrite lookup_insert_eq. by eexists.
      * rewrite lookup_insert_ne by done. by apply (sh_cached _ _ _ Hsh).
    + intros x. rewrite <-(sh_code _ _ _ Hsh x). unfold code_of.
      change (find_object _ x) with (find_object (upd_objects (<[a := newStateObject a]>) s1) x) at 1.
      rewrite find_object_insert by done. case_bool_decide as Hx; [|done]. subst x. by rewrite Hf1.
Qed.

Lemma GetCode_shows a s :
  st_ok s -> wp (GetCode a) s (fun r s' _ =>
    r = from_option (read_code (sd_trie s)) [] (find_object s a) /\ shows s s' (acct s)).
Proof.
  intros Hs. unfold GetCode. apply wp_bind. pose proof (getStateObject_spec s a Hs) as Hspec.
  pose proof (getStateObject_shows a s Hs) as Hg. unfold wp in Hspec, Hg. unfold wp at 1.
  destruct (getStateObject a s) as [[[r s1] o1]|]; [|done].
  destruct Hspec as (_ & Hq & _). destruct Hg as (-> & Hsh & Hf1 & Hc).
  destruct (find_object s a) as [ob|] eqn:Hfa; [|by apply wp_ret].
  wp_seq. pose proof (loadCode_equiv (sd_trie s1) ob) as He.
  assert (Hr : from_option (read_code (sd_trie s)) [] (Some ob)
    = match (loadCode ob (sd_trie s1)).2 with inl c => default [] c | inr _ => [] end).
  { cbn. unfold read_code. by rewrite (se_trie _ _ (qs_equiv _ _ Hq)). }
  rewrite Hr. clear Hr.
  destruct (loadCode ob (sd_trie s1)) as [ob' res]. cbn [fst snd] in *.
  pose proof (cache_step s1 a ob ob' (sh_ok _ _ _ Hsh) Hf1 He) as Hq2.
  assert (Hsh2 : shows s (upd_objects (<[a := ob']>) s1) (acct s)).
  { constructor; [apply Hq2| | |intros x; rewrite (equiv_code s1) by apply Hq2; apply Hsh].
    - intros x. rewrite (equiv_acct s1) by apply Hq2. apply Hsh.
    - intros x Hx. cbn. destruct (decide (x = a)) as [-> | Hne].
      + rewrite lookup_insert_eq. by eexists.
      + rewrite lookup_insert_ne by done. by apply (sh_cached _ _ _ Hsh). }
  destruct res as [c|err]; unfold put_object; wp_seq; [done|]. unfold setError. wp_seq.
  split; [done|]. constructor; [|intros x; apply (sh_acct _ _ _ Hsh2 x)|apply Hsh2|apply (sh_code _ _ _ Hsh2)].
  destruct (sh_ok _ _ _ Hsh2). by constructor.
Qed.

(** [SetData] only touches its account. *)
Lemma getStateObject_other a x s r s' o :
  x <> a -> getStateObject a s = Some (r, s', o) -> find_object s' x = find_object s x.
Proof.
  intros Hx. unfold getStateObject, go_bind, go_get, setError, put_object, go_modify. cbn.
  destruct (sd_stateObjects s !! a); [by intros [= _ <- _]|].
  destruct (loadAccount _ _) as [[]|]; intros [= _ <- _]; try done.
  unfold find_object. cbn. by rewrite lookup_insert_ne.
Qed.

Lemma SetData_other a k v x s u s' o :
  x <> a -> SetData a k v s = Some (u, s', o) -> acct s' x = acct s x.
Proof.
  intros Hx. unfold SetData, with_object.
  intros (ob & s1 & ? & ? & Hg & Hm)%go_bind_inv. unfold acct.
  rewrite <- (getStateObject_other _ _ _ _ _ _ Hx Hg). destruct ob as [ob|]; [|by injection Hm as _ <- _].
  apply go_bind_inv in Hm as (sx & s2 & ? & ? & Hget & Hm). injection Hget as <- <- _.
  destruct (getState ob (sd_trie s1) k false) as [ob' [prev|err]];
    apply go_bind_inv in Hm as (? & s3 & ? & ? & Hp & Hm); injection Hp as _ <- _.
  - destruct (bool_decide _); [injection Hm as _ <- _|injection Hm as _ <- _];
      unfold find_object; cbn; by rewrite !lookup_insert_ne.
  - injection Hm as _ <- _. unfold find_object. cbn. by rewrite lookup_insert_ne.
Qed.

(** Writing an object to the trie keeps its account. *)
Record flush_keeps (o o' : stateObject) : Prop := {
  fk_account : o_account o' = o_account o;
  fk_suicided : o_suicided o' = o_suicided o;
  fk_deleted : o_suicided o = false -> o_deleted o' = o_deleted o
}.

Lemma flush_keeps_refl o : flush_keeps o o.
Proof. by constructor. Qed.

Lemma flush_keeps_trans o1 o2 o3 : flush_keeps o1 o2 -> flush_keeps o2 o3 -> flush_keeps o1 o3.
Proof.
  intros [H1 H2 H3] [H4 H5 H6]. constructor; [congruence..|]. intros Hs.
  rewrite H6, H3 by congruence. done.
Qed.

Lemma flush_storage_keeps l o (t : T) : flush_keeps o (flush_storage l o t).1.1.
Proof.
  revert o t. induction l as [|[k v] l IH]; intros o t; cbn [flush_storage]; [apply flush_keeps_refl|].
  case_bool_decide; [apply IH|]. destruct (trie_Put _ _ _) as [t1|]; [|by constructor].
  eapply flush_keeps_trans; [|apply IH]. by constructor.
Qed.

Lemma flush_then_keeps o (r : stateObject * T * option trie_error) k :
  flush_keeps o r.1.1 -> (forall o' t, flush_keeps o' (k o' t).1.1) ->
  flush_keeps o (flush_then r k).1.1.
Proof.
  intros Hr Hk. destruct r as [[o1 t1] [err|]]; [done|]. cbn in *.
  by eapply flush_keeps_trans.
Qed.

Lemma flush_account_kept o (t : T) : flush_keeps o (flush o t).1.1.
Proof.
  unfold flush. repeat apply flush_then_keeps.
  - destruct (_ =? _)%nat; [apply flush_keeps_refl|].
    apply flush_then_keeps; [apply flush_storage_keeps|]. by constructor.
  - intros o' t'. unfold flush_code. destruct (o_dirtyCode o'); [|by constructor].
    destruct (trie_Put _ _ _); by constructor.
  - intros o' t'. unfold flush_account. destruct (o_dirtyAccount o'); [|by constructor].
    destruct (trie_Put _ _ _); by constructor.
  - intros o' t'. unfold flush_suicide. destruct (o_suicided o') eqn:Hs; cbn [andb]; [|by constructor].
    destruct (negb _); [|by constructor]. destruct (trie_DeletePrefix _ _); constructor; cbn; congruence.
Qed.

Lemma flush_all_cached l x s r s' o ob :
  flush_all l s = Some (r, s', o) -> sd_stateObjects s !! x = Some ob ->
  exists ob', sd_stateObjects s' !! x = Some ob' /\ flush_keeps ob ob'.
Proof.
  revert s o ob. induction l as [|a l IH]; intros s o ob; cbn [flush_all].
  { intros [= _ <- _] Hl. exists ob. by split; [|apply flush_keeps_refl]. }
  intros (sx & s1 & ? & ? & Hget & Hm)%go_bind_inv Hl. injection Hget as <- <- _.
  destruct (sd_stateObjects s !! a) as [oa|] eqn:Ha; [|by eapply IH].
  pose proof (flush_account_kept oa (sd_trie s)) as Hk.
  destruct (flush oa (sd_trie s)) as [[oa' t'] err]. cbn in Hk.
  apply go_bind_inv in Hm as (? & s2 & ? & ? & Hu & Hm). injection Hu as _ <- _.
  apply go_bind_inv in Hm as (? & s3 & ? & ? & Hp & Hm). injection Hp as _ <- _.
  assert (Hx : exists ob', <[a := oa']> (sd_stateObjects s) !! x = Some ob' /\ flush_keeps ob ob').
  { destruct (decide (x = a)) as [-> | Hne].
    - rewrite lookup_insert_eq. exists oa'. split; [done|]. by simplify_eq.
    - rewrite lookup_insert_ne by done. exists ob. by split; [|apply flush_keeps_refl]. }
  destruct Hx as (ob1 & Hl1 & Hk1). destruct err as [e|].
  - injection Hm as _ <- _. by exists ob1.
  - destruct (IH _ _ ob1 Hm Hl1) as (ob2 & Hl2 & Hk2). exists ob2. split; [done|].
    by eapply flush_keeps_trans.
Qed.

Lemma state_Hash_acct x s h s' o b n :
  state_Hash s = Some (inl h, s', o) -> is_Some (sd_stateObjects s !! x) ->
  acct s x = Some (b, n, false) -> acct s' x = Some (b, n, false).
Proof.
  unfold state_Hash. intros (sx & s1 & ? & ? & Hget & Hm)%go_bind_inv. injection Hget as <- <- _.
  destruct (sd_dbErr s); [done|]. apply go_bind_inv in Hm as (err & s2 & ? & ? & Hfl & Hm).
  destruct err; [done|]. apply go_bind_inv in Hm as (? & s3 & ? & ? & Hcl & Hm). injection Hcl as _ <- _.
  apply go_bind_inv in Hm as (? & s4 & ? & ? & Hg & Hm). injection Hg as _ <- _.
  injection Hm as _ <- _. intros [ob Hl].
  destruct (flush_all_cached _ x _ _ _ _ ob Hfl Hl) as (ob' & Hl' & [Ha Hs Hd]).
  unfold acct, find_object. cbn. rewrite Hl, Hl'.
  destruct (o_deleted ob) eqn:Hdel; [done|]. unfold acct_of. cbn. intros [= Hb Hn Hsu].
  rewrite (Hd Hsu). cbn. by rewrite Ha, Hs, Hb, Hn, Hsu.
Qed.
End accounts.

(** ** Payments and nonces *)

Section payment.
Context {T : Type} {HT : TrieOps T} {HV : @VmOps T HT} {HL : VmLaws}.
Implicit Types (s : Statedb T) (ctx : Context).

Abbreviation StM A := (GoM (Statedb T) Empty_set A).

(** Who gets the fee. *)
Definition fee_account (ctx : Context) : Address :=
  if negb (h_Consensus (c_BlockHeader ctx) =? BftConsensus)
  then h_Creator (c_BlockHeader ctx) else SubchainFeeAccount.

(** The accounts after the fee was paid. *)
Definition fee_paid (from to : Address) (fee : Z) (V : Address -> option (Z * Z * bool))
    : Address -> option (Z * Z * bool) :=
  alter_at to (fmap (with_amount (fun b => b + fee)))
    (alter_at from (fmap (with_amount (fun b => b - fee))) V).

Lemma handleFee_shows ctx receipt k s r e s' o x b n :
  st_ok s -> handleFee ctx receipt k s = Some (Some r, e, s', o) ->
  fee_paid (td_From (tx_Data (c_Tx ctx))) (fee_account ctx)
    (r_UsedGas receipt * td_GasPrice (tx_Data (c_Tx ctx))) (acct s) x = Some (b, n, false) ->
  is_Some (sd_stateObjects s !! x) \/ x = td_From (tx_Data (c_Tx ctx)) \/ x = fee_account ctx ->
  acct s' x = Some (b, n, false).
Proof.
  intros Hs. unfold handleFee. set (d := tx_Data (c_Tx ctx)).
  set (fee := r_UsedGas receipt * td_GasPrice d).
  intros (u1 & s1 & ? & ? & Hsub & Hm)%go_bind_inv Hx Hc.
  destruct (wp_run _ _ _ _ _ _ (SubBalance_shows (td_From d) fee s Hs) Hsub) as [[Hs1 Ha1 Hc1 _] Hf1].
  apply go_bind_inv in Hm as (u2 & s2 & ? & ? & Hadd & Hm).
  assert (Hadd' : AddBalance (fee_account ctx) fee s1 = Some (u2, s2, x2)).
  { unfold fee_account. by destruct (negb _). }
  destruct (wp_run _ _ _ _ _ _ (AddBalance_shows (fee_account ctx) fee s1 Hs1) Hadd')
    as [[Hs2 Ha2 Hc2] Hf2].
  apply go_bind_inv in Hm as (root & s3 & ? & ? & Hhash & Hm). destruct root as [h|].
  2: { apply go_bind_inv in Hm as (? & s4 & ? & ? & ? & Hm). done. }
  apply go_bind_inv in Hm as (? & s4 & ? & ? & Hg & Hm). injection Hg as _ <- _.
  injection Hm as _ _ <- _. eapply state_Hash_acct; [done| |].
  2: { rewrite Ha2. by rewrite (alter_at_ext _ _ _ _ _ Ha1). }
  assert (Hsome : is_Some (acct s x)).
  { assert (Hp : is_Some (fee_paid (td_From d) (fee_account ctx) fee (acct s) x)) by (by rewrite Hx).
    by apply alter_at_some, alter_at_some in Hp. }
  destruct Hc as [Hc|[-> | ->]].
  - by apply Hc2, Hc1.
  - apply Hc2, Hf1. by apply acct_some.
  - apply Hf2, acct_some. rewrite Ha1. by apply alter_at_some.
Qed.

Lemma count_tx_shows a b n s :
  st_ok s -> wp (count_tx a b n) s (fun _ s' _ =>
    shows s s' (alter_at a (fmap (with_nonce n)) (acct s))
    /\ (is_Some (find_object s a) -> is_Some (sd_stateObjects s' !! a))).
Proof.
  intros Hs. unfold count_tx. apply wp_bind. eapply wp_mono; [by apply reader_shows|].
  intros c s1 _ [_ [Hs1 Ha1 Hc1 Hd1]]. eapply wp_mono; [by apply SetNonce2_shows|].
  intros _ s2 _ [[Hs2 Ha2 Hc2 Hd2] Hf2]. split.
  - constructor; [done| |by eauto|intros x; by rewrite Hd2]. intros x. rewrite Ha2. by apply alter_at_ext.
  - rewrite <- acct_some in *. by rewrite Ha1 in Hf2.
Qed.

Lemma nonce_of_acct s x : nonce_of s x = from_option (fun v => v.1.2) 0 (acct s x).
Proof. unfold nonce_of, acct. by destruct (find_object s x). Qed.

(** The nonce of the sender before the contract runs. *)
Definition sender_nonce (ctx : Context) (n : Z) (s : Statedb T) : Prop :=
  exists b, acct s (td_From (tx_Data (c_Tx ctx))) = Some (b, n, false).

Lemma processSystemContract_nonce ctx c k gas s rc s' o m :
  let d := tx_Data (c_Tx ctx) in
  st_ok s -> td_From d <> td_To d -> sender_nonce ctx m s ->
  (forall st ret e st' o n, Run c (td_Payload d) (c_Tx ctx) (c_BlockHeader ctx) st = Some (ret, e, st', o) ->
    sender_nonce ctx n st -> sender_nonce ctx n st') ->
  processSystemContract ctx c k gas s = Some (Some rc, None, s', o) ->
  r_Failed rc = false /\ sender_nonce ctx (nonce_of s (td_To d)) s'.
Proof.
  intros d Hs Hne [b Hb] Hrun. unfold processSystemContract. fold d.
  intros (ex & s1 & ? & ? & Hex & Hm)%go_bind_inv.
  destruct (wp_run _ _ _ _ _ _ (reader_shows (td_To d) false (fun _ => true) s Hs) Hex) as [Hexv [Hs1 Ha1 _]].
  apply go_bind_inv in Hm as (? & s2 & ? & ? & Hcr & Hm).
  assert (Hs2 : st_ok s2 /\ acct s2 (td_From d) = Some (b, m, false)
    /\ nonce_of s2 (td_To d) = nonce_of s (td_To d)).
  { rewrite !nonce_of_acct. destruct ex.
    - injection Hcr as _ <- _. by rewrite !Ha1.
    - destruct (wp_run _ _ _ _ _ _ (CreateAccount_shows (td_To d) s1 Hs1) Hcr) as [Hs2 Ha2 _].
      split; [done|]. rewrite !Ha2, alter_at_ne by done. rewrite alter_at_eq, !Ha1. split; [done|].
      by destruct (acct s (td_To d)). }
  destruct Hs2 as (Hs2 & Hb2 & Hn2).
  apply go_bind_inv in Hm as (? & s3 & ? & ? & Hc1 & Hm).
  destruct (wp_run _ _ _ _ _ _ (count_tx_shows _ _ _ s2 Hs2) Hc1) as [[Hs3 Ha3 _] _].
  apply go_bind_inv in Hm as (tn & s4 & ? & ? & Hgn & Hm).
  destruct (wp_run _ _ _ _ _ _ (reader_shows _ _ _ s3 Hs3) Hgn) as [Htn [Hs4 Ha4 _]].
  fold (nonce_of s3 (td_To d)) in Htn.
  rewrite nonce_of_acct, Ha3, alter_at_ne, <- nonce_of_acct, Hn2 in Htn by done. subst tn.
  apply go_bind_inv in Hm as (? & s5 & ? & ? & Hc2 & Hm).
  destruct (wp_run _ _ _ _ _ _ (count_tx_shows _ _ _ s4 Hs4) Hc2) as [[Hs5 Ha5 _] _].
  apply go_bind_inv in Hm as (bal & s6 & ? & ? & Hgb & Hm).
  destruct (wp_run _ _ _ _ _ _ (reader_shows _ _ _ s5 Hs5) Hgb) as [_ [Hs6 Ha6 _]].
  destruct (bal <? td_Amount d).
  { apply go_bind_inv in Hm as (? & ? & ? & ? & ? & Hm). done. }
  apply go_bind_inv in Hm as (? & s7 & ? & ? & Hsub & Hm).
  destruct (wp_run _ _ _ _ _ _ (SubBalance_shows _ _ s6 Hs6) Hsub) as [[Hs7 Ha7 _] _].
  apply go_bind_inv in Hm as (? & s8 & ? & ? & Hadd & Hm).
  destruct (wp_run _ _ _ _ _ _ (AddBalance_shows _ _ s7 Hs7) Hadd) as [[Hs8 Ha8 _] _].
  cbn in Hm. destruct (gas <? _); [done|].
  apply go_bind_inv in Hm as ([res er] & s9 & ? & ? & Hr & Hm). injection Hm as <- -> <- _.
  split; [done|]. eapply Hrun; [exact Hr|]. unfold sender_nonce. fold d.
  rewrite Ha8, alter_at_ne, Ha7, alter_at_eq, Ha6, Ha5, alter_at_eq, Ha4, Ha3, alter_at_eq, Hb2 by done.
  cbn. by eexists.
Qed.

(** After a system contract ran, the nonce of the sender is the nonce of
    the account of the contract, and not the next nonce of the sender. *)
Theorem system_tx_resets_nonce ctx height s r e s' o c b n :
  let d := tx_Data (c_Tx ctx) in
  st_ok s -> contracts (td_To d) = Some c -> td_From d <> td_To d ->
  acct s (td_From d) = Some (b, n, false) ->
  (forall st ret e st' o n, Run c (td_Payload d) (c_Tx ctx) (c_BlockHeader ctx) st = Some (ret, e, st', o) ->
    sender_nonce ctx n st -> sender_nonce ctx n st') ->
  Process ctx height s = Some (Some r, e, s', o) -> r_Failed r = false ->
  nonce_of s' (td_From d) = nonce_of s (td_To d).
Proof.
  intros d Hs Hc Hne Hb Hkeep Hrun Hfail.
  destruct (Process_inv _ _ _ _ _ _ _ Hs Hrun) as (s0 & o' & Hs0 & Hj & _ & Heq & _ & _ & Hintr & Hd).
  assert (Ha0 : forall x, acct s0 x = acct s x) by (intros x; by eapply equiv_object_acct).
  unfold Process_dispatch, GetContractByAddress in Hd. fold d in Hd. rewrite Hc in Hd.
  apply go_bind_inv in Hd as ([receipt err] & s1 & ? & ? & Hsys & Hfin).
  pose proof (processSystemContract_keeps s0 Hj ctx c (td_GasLimit d - IntrinsicGas (c_Tx ctx))
    (td_To d) Hc [] s0 ltac:(by apply history_start)) as Hk. rewrite Hsys in Hk.
  destruct Hk as [es Hh]. rewrite app_nil_r in Hh.
  destruct (Process_finish_receipt s0 es _ _ _ _ _ _ _ _ _ _ Hj Hh Hfin)
    as (rc & refund & -> & Hns & _ & _ & _ & _ & Hf). rewrite Hfail in Hf.
  destruct err as [er|]; [by rewrite orb_true_r in Hf|].
  destruct (processSystemContract_nonce ctx c _ _ s0 rc s1 _ n Hs0 Hne
    ltac:(eexists; by rewrite Ha0) Hkeep Hsys) as [_ [b1 Hb1]]. fold d in Hb1.
  rewrite nonce_of_acct, Ha0, <- nonce_of_acct in Hb1.
  unfold Process_finish in Hfin. rewrite bool_decide_false in Hfin by done.
  apply go_bind_inv in Hfin as (rc1 & s2 & ? & ? & Hg & Hfin). injection Hg as <- <- _.
  apply go_bind_inv in Hfin as (rc2 & s3 & ? & ? & Hg & Hfin). injection Hg as <- <- _.
  apply go_bind_inv in Hfin as (sx & s4 & ? & ? & Hg & Hfin). injection Hg as <- <- _.
  assert (Hpaid : exists b2, fee_paid (td_From d) (fee_account ctx)
    (refund_gas (u64 (r_UsedGas rc + IntrinsicGas (c_Tx ctx))) (sd_refund s1) * td_GasPrice d)
    (acct s1) (td_From d) = Some (b2, nonce_of s (td_To d), false)).
  { unfold fee_paid. destruct (decide (td_From d = fee_account ctx)) as [He|He].
    - rewrite <- He, !alter_at_eq, Hb1. cbn. by eexists.
    - rewrite alter_at_ne, alter_at_eq, Hb1 by done. cbn. by eexists. }
  destruct Hpaid as [b2 Hpaid].
  pose proof (handleFee_shows ctx _ _ s1 _ _ _ _ (td_From d) b2 _ (history_ok _ _ _ Hh) Hfin Hpaid
    ltac:(right; by left)) as Hres.
  by rewrite nonce_of_acct, Hres.
Qed.

(** ** A payment *)

Lemma reader_refund {A} a (none : A) (f : stateObject -> A) :
  keeps_refund (with_object a none (fun o => go_ret (f o))).
Proof. apply with_object_refund. by intros o s r s' o' [= _ <- _]. Qed.

Lemma writer_refund a (e : stateObject -> journalEntry) (f : stateObject -> stateObject) :
  keeps_refund (with_object a tt (fun o => journal_add (e o) ;;; put_object a (f o))).
Proof. apply with_object_refund. by intros o s r s' o' [= _ <- _]. Qed.

Lemma GetCode_refund a : keeps_refund (GetCode a).
Proof.
  apply with_object_refund. intros o s r s' o' (sx & s1 & ? & ? & Hg & Hm)%go_bind_inv.
  injection Hg as <- <- _. destruct (loadCode o (sd_trie s)) as [ob [c|err]];
    by injection Hm as _ <- _.
Qed.

(** The accounts that a transfer of [v] leaves. *)
Definition transferred (from to : Address) (v : Z) (V : Address -> option (Z * Z * bool))
    : Address -> option (Z * Z * bool) :=
  alter_at to (fmap (with_amount (fun b => b + v)))
    (alter_at from (fmap (with_amount (fun b => b - v))) V).

(** Running this account without code does nothing; it is not a precompiled contract. *)
Definition idle (a : Address) : Prop :=
  forall header f input st, is_Some (h_CreateTimestamp header) -> is_Some (h_Difficulty header) ->
    f_CodeAddr f = a -> f_Code f = [] -> vm_run header f input st = Some ([], f_Gas f, None, st, []).

(** A call of such an account, that exists and has no code, is a transfer. *)
Lemma evm_Call_transfer header caller addr input gas v s b m k ret left err s' o :
  st_ok s -> Address_Shard caller = Address_Shard addr ->
  is_Some (h_CreateTimestamp header) -> is_Some (h_Difficulty header) ->
  acct s caller = Some (b, m, k) -> v <= b -> is_Some (acct s addr) -> idle addr -> code_of s addr = [] ->
  evm_Call header 0 caller addr input gas v s = Some (ret, left, err, s', o) ->
  left = gas /\ err = None /\ shows s s' (transferred caller addr v (acct s))
  /\ sd_refund s' = sd_refund s /\ is_Some (sd_stateObjects s' !! addr).
Proof.
  intros Hs Hshard Htime Hdiff Hb Hv Hex Hidle Hcode. unfold evm_Call.
  change (CallCreateDepth <? 0) with false. cbn iota.
  intros (can & s1 & ? & ? & Hcan & Hm)%go_bind_inv.
  apply go_bind_inv in Hcan as (bal & s1' & ? & ? & Hbal & Hcan). injection Hcan as <- <- _.
  destruct (wp_run _ _ _ _ _ _ (reader_shows _ _ _ s Hs) Hbal) as [Hbv [Hs1 Ha1 Hc1 Hd1]].
  pose proof (reader_refund _ _ _ _ _ _ _ Hbal) as Hr1.
  assert (Hbe : bal = b).
  { unfold acct in Hb. rewrite Hbv. destruct (find_object s caller); [|done]. by injection Hb as <- _ _. }
  rewrite Hbe, (proj2 (Z.leb_le v b) Hv) in Hm. cbn [negb] in Hm.
  apply go_bind_inv in Hm as (sn & s2 & ? & ? & Hsn & Hm). injection Hsn as _ <- _.
  apply go_bind_inv in Hm as (ex & s3 & ? & ? & Hexi & Hm).
  destruct (wp_run _ _ _ _ _ _ (reader_shows addr false (fun _ => true) s1' Hs1) Hexi) as [Hev [Hs3 Ha3 Hc3 Hd3]].
  pose proof (reader_refund addr false (fun _ => true) _ _ _ _ Hexi) as Hr3.
  assert (ex = true) as ->.
  { rewrite Hev. rewrite <- Ha1 in Hex. apply acct_some in Hex as [ob Hob]. by rewrite Hob. }
  cbn [negb andb] in Hm. apply go_bind_inv in Hm as (? & s4 & ? & ? & Hrt & Hm). injection Hrt as _ <- _.
  apply go_bind_inv in Hm as (? & s5 & ? & ? & Htr & Hm). unfold transfer in Htr.
  rewrite Hshard, Z.eqb_refl in Htr.
  apply go_bind_inv in Htr as (? & s6 & ? & ? & Hsub & Hadd).
  destruct (wp_run _ _ _ _ _ _ (SubBalance_shows _ _ s3 Hs3) Hsub) as [[Hs6 Ha6 Hc6 Hd6] _].
  pose proof (writer_refund caller _ _ _ _ _ _ Hsub) as Hr6.
  destruct (wp_run _ _ _ _ _ _ (AddBalance_shows _ _ s6 Hs6) Hadd) as [[Hs5 Ha5 Hc5 Hd5] Hf5].
  pose proof (writer_refund addr _ _ _ _ _ _ Hadd) as Hr5.
  apply go_bind_inv in Hm as (? & s7 & ? & ? & Hch & Hm).
  destruct (wp_run _ _ _ _ _ _ (reader_shows _ _ _ s5 Hs5) Hch) as [_ [Hs7 Ha7 Hc7 Hd7]].
  pose proof (reader_refund _ _ _ _ _ _ _ Hch) as Hr7.
  apply go_bind_inv in Hm as (code & s8 & ? & ? & Hgc & Hm).
  destruct (wp_run _ _ _ _ _ _ (GetCode_shows _ s7 Hs7) Hgc) as [Hcv [Hs8 Ha8 Hc8 Hd8]].
  pose proof (GetCode_refund _ _ _ _ _ Hgc) as Hr8.
  apply go_bind_inv in Hm as (res & s9 & ? & ? & Hrun & Hm). fold (code_of s7 addr) in Hcv.
  rewrite Hidle in Hrun by (try done; cbn; congruence).
  injection Hrun as <- <- _. injection Hm as _ <- <- <- _.
  split; [done|]. split; [done|]. split; [|split; [congruence|]].
  - constructor; [done| |intros y Hy; by apply Hc8, Hc7, Hc5, Hc6, Hc3, Hc1|intros y; congruence]. intros y'. rewrite Ha8, Ha7, Ha5. unfold transferred.
    apply alter_at_ext. intros y. rewrite Ha6. apply alter_at_ext. intros z. by rewrite Ha3, Ha1.
  - apply Hc8, Hc7, Hf5, acct_some. rewrite Ha6. apply alter_at_some. rewrite Ha3, Ha1. done.
Qed.

Lemma count_tx_keeps_refund a b n s u s' o :
  count_tx a b n s = Some (u, s', o) -> sd_refund s' = sd_refund s.
Proof. apply count_tx_refund. Qed.

Lemma processEvmContract_payment ctx gas s b n bt nt rc err s' o :
  let d := tx_Data (c_Tx ctx) in
  st_ok s -> td_From d <> td_To d -> Address_IsEmpty (td_To d) = false ->
  Address_Shard (td_From d) = Address_Shard (td_To d) -> idle (td_To d) -> code_of s (td_To d) = [] ->
  acct s (td_From d) = Some (b, n, false) -> acct s (td_To d) = Some (bt, nt, false) ->
  0 <= td_Amount d <= b -> 0 <= bt ->
  processEvmContract ctx gas s = Some (rc, err, s', o) ->
  err = None /\ (exists r, rc = Some r /\ r_UsedGas r = 0 /\ r_Failed r = false)
  /\ st_ok s' /\ sd_refund s' = sd_refund s
  /\ acct s' (td_From d) = Some (b - td_Amount d, u64 (td_AccountNonce d + 1), false)
  /\ acct s' (td_To d) = Some (bt + td_Amount d, nt, false)
  /\ (forall x, x <> td_From d -> x <> td_To d -> acct s' x = acct s x)
  /\ is_Some (sd_stateObjects s' !! td_To d).
Proof.
  intros d Hs Hne Hto Hshard Hidle Hcode Hb Hbt Hv Hbt0. unfold processEvmContract. fold d. rewrite Hto.
  intros (? & s0 & ? & ? & Hd0 & Hm)%go_bind_inv.
  destruct (h_CreateTimestamp _) eqn:Htime; [|done]. injection Hd0 as _ <- _.
  apply go_bind_inv in Hm as (? & s0' & ? & ? & Hd0 & Hm).
  destruct (h_Difficulty _) eqn:Hdiff; [|done]. injection Hd0 as _ <- _.
  apply go_bind_inv in Hm as (? & s1 & ? & ? & Hc1 & Hm).
  destruct (wp_run _ _ _ _ _ _ (count_tx_shows _ _ _ s Hs) Hc1) as [[Hs1 Ha1 _ Hd1] _].
  apply count_tx_keeps_refund in Hc1 as Hr1.
  apply go_bind_inv in Hm as (tn & s2 & ? & ? & Hgn & Hm).
  destruct (wp_run _ _ _ _ _ _ (reader_shows _ _ _ s1 Hs1) Hgn) as [Htn [Hs2 Ha2 _ Hd2]].
  pose proof (reader_refund _ _ _ _ _ _ _ Hgn) as Hr2.
  fold (nonce_of s1 (td_To d)) in Htn. rewrite nonce_of_acct, Ha1, alter_at_ne, Hbt in Htn by done.
  cbn in Htn. subst tn.
  apply go_bind_inv in Hm as (? & s3 & ? & ? & Hc3 & Hm).
  destruct (wp_run _ _ _ _ _ _ (count_tx_shows _ _ _ s2 Hs2) Hc3) as [[Hs3 Ha3 _ Hd3] _].
  apply count_tx_keeps_refund in Hc3 as Hr3.
  assert (Hf3 : acct s3 (td_From d) = Some (b, u64 (td_AccountNonce d + 1), false)).
  { by rewrite Ha3, alter_at_ne, Ha2, Ha1, alter_at_eq, Hb by done. }
  assert (Ht3 : acct s3 (td_To d) = Some (bt, nt, false)).
  { by rewrite Ha3, alter_at_eq, Ha2, Ha1, alter_at_ne, Hbt by done. }
  apply go_bind_inv in Hm as ([[ret left] er] & s4 & ? & ? & Hcall & Hm).
  destruct (evm_Call_transfer _ _ _ _ _ _ _ _ _ _ _ _ _ _ _ Hs3 Hshard ltac:(rewrite Htime; by eexists)
    ltac:(rewrite Hdiff; by eexists) Hf3 (proj2 Hv) ltac:(rewrite Ht3; by eexists) Hidle ltac:(congruence) Hcall) as (-> & -> & [Hs4 Ha4 _] & Hr4 & Hc4).
  injection Hm as <- <- <- _. split; [done|]. split.
  { eexists. split; [done|]. cbn. by rewrite Z.sub_diag. }
  split; [done|]. split; [congruence|]. unfold transferred in Ha4. split; [|split; [|split; [|done]]].
  - rewrite Ha4, alter_at_ne, alter_at_eq, Hf3 by done. cbn. unfold with_amount. cbn.
    by rewrite (proj2 (Z.leb_le 0 (b - td_Amount d)) ltac:(lia)).
  - rewrite Ha4, alter_at_eq, alter_at_ne, Ht3 by done. cbn. unfold with_amount. cbn.
    by rewrite (proj2 (Z.leb_le 0 (bt + td_Amount d)) ltac:(lia)).
  - intros y Hx1 Hx2. by rewrite Ha4, !alter_at_ne, Ha3, alter_at_ne, Ha2, Ha1, alter_at_ne by done.
Qed.

(** A payment over any machine. *)
Lemma payment_moves ctx height s r e s' o b n bt nt bf nf :
  let d := tx_Data (c_Tx ctx) in
  let fee := IntrinsicGas (c_Tx ctx) * td_GasPrice d in
  st_ok s -> td_From d <> td_To d -> Address_IsEmpty (td_To d) = false ->
  fee_account ctx <> td_From d -> fee_account ctx <> td_To d ->
  contracts (td_To d) = None -> Address_Shard (td_From d) = Address_Shard (td_To d) ->
  idle (td_To d) -> code_of s (td_To d) = [] -> 0 <= td_Amount d -> 0 <= td_GasPrice d ->
  acct s (td_From d) = Some (b, n, false) -> acct s (td_To d) = Some (bt, nt, false) ->
  acct s (fee_account ctx) = Some (bf, nf, false) ->
  Process ctx height s = Some (Some r, e, s', o) ->
  r_Failed r = false /\ r_UsedGas r = IntrinsicGas (c_Tx ctx)
  /\ acct s' (td_From d) = Some (b - td_Amount d - fee, u64 (td_AccountNonce d + 1), false)
  /\ acct s' (td_To d) = Some (bt + td_Amount d, nt, false)
  /\ acct s' (fee_account ctx) = Some (bf + fee, nf, false).
Proof.
  intros d fee Hs Hne Hto Hf1 Hf2 Hc Hshard Hidle Hcode Hamt Hprice Hb Hbt Hbf Hrun.
  destruct (Process_inv _ _ _ _ _ _ _ Hs Hrun)
    as (s0 & o' & Hs0 & Hj & Hz & Heq & Htrie & Hbal & Hintr & Hd). fold d in Hd, Hintr, Hbal.
  assert (Hcode0 : code_of s0 (td_To d) = []).
  { rewrite <-Hcode. unfold code_of. rewrite Htrie. specialize (Heq (td_To d)). inversion Heq as [x y Hxy|]; [|done].
    cbn. by rewrite (oe_code _ _ _ Hxy). }
  assert (Ha0 : forall x, acct s0 x = acct s x) by (intros x; by eapply equiv_object_acct).
  assert (Hnn : forall x v m k, acct s x = Some (v, m, k) -> 0 <= v).
  { intros x v m k. unfold acct. destruct (find_object s x) as [ob|] eqn:Hfo; [|done].
    intros [= <- _ _]. by destruct (find_object_fields _ _ _ Hs Hfo) as (_ & _ & Hpos & _). }
  assert (Hbb : balance s (td_From d) = b).
  { unfold balance. unfold acct in Hb. destruct (find_object s (td_From d)); [|done]. by injection Hb as <- _ _. }
  rewrite Hbb in Hbal.
  assert (Hx : IsCrossShardTx (c_Tx ctx) = false).
  { unfold IsCrossShardTx. fold d. rewrite Hshard, Z.eqb_refl. apply andb_false_r. }
  pose proof (IntrinsicGas_range (c_Tx ctx)) as Hi. unfold is_u64 in Hi.
  unfold Process_dispatch, GetContractByAddress in Hd. fold d in Hd. rewrite Hc, Hx in Hd.
  cbn [andb] in Hd. apply go_bind_inv in Hd as ([receipt err] & s1 & ? & ? & Hevm & Hfin).
  destruct (processEvmContract_payment ctx _ s0 b n bt nt receipt err s1 _ Hs0 Hne Hto Hshard Hidle Hcode0
    ltac:(by rewrite Ha0) ltac:(by rewrite Ha0) ltac:(fold d; nia) ltac:(by eapply Hnn) Hevm)
    as (-> & (rc & -> & Hu & Hfl) & Hs1 & Hr1 & Haf & Hat & Hao & Hct). fold d in Haf, Hat, Hao, Hct.
  unfold Process_finish in Hfin. rewrite bool_decide_false in Hfin by done.
  apply go_bind_inv in Hfin as (rc1 & s2 & ? & ? & Hg & Hfin). injection Hg as <- <- _.
  apply go_bind_inv in Hfin as (rc2 & s3 & ? & ? & Hg & Hfin). injection Hg as <- <- _.
  apply go_bind_inv in Hfin as (sx & s4 & ? & ? & Hg & Hfin). injection Hg as <- <- _.
  destruct (handleFee_receipt _ _ _ _ _ _ _ _ Hfin) as (Hru & Hrf & _).
  assert (Hgas : refund_gas (u64 (r_UsedGas rc + IntrinsicGas (c_Tx ctx))) (sd_refund s1)
    = IntrinsicGas (c_Tx ctx)).
  { rewrite Hu, Hr1, Hz, Z.add_0_l, u64_small by done. unfold refund_gas.
    destruct (Z.ltb_spec (IntrinsicGas (c_Tx ctx) / 2) 0); zdiv. }
  cbn [r_UsedGas set_usedGas] in Hru, Hfin. rewrite Hgas in Hru, Hfin. split; [by rewrite Hrf|].
  split; [done|].
  assert (Hpay : forall x v m, fee_paid (td_From d) (fee_account ctx) fee (acct s1) x = Some (v, m, false) ->
    is_Some (sd_stateObjects s1 !! x) \/ x = td_From d \/ x = fee_account ctx ->
    acct s' x = Some (v, m, false)).
  { intros y v m Hp Hcx. eapply handleFee_shows; [exact Hs1|exact Hfin|exact Hp|exact Hcx]. }
  unfold fee_paid in Hpay. split; [|split]; apply Hpay; try (by eauto).
  - rewrite alter_at_ne, alter_at_eq, Haf by done. cbn. unfold with_amount. cbn.
    by rewrite (proj2 (Z.leb_le 0 (b - td_Amount d - fee)) ltac:(unfold fee; nia)).
  - by rewrite !alter_at_ne.
  - rewrite alter_at_eq, alter_at_ne, Hao, Ha0, Hbf by done. cbn. unfold with_amount. cbn.
    specialize (Hnn _ _ _ _ Hbf). by rewrite (proj2 (Z.leb_le 0 (bf + fee)) ltac:(unfold fee; nia)).
Qed.
End payment.

(** ** Examples *)

Section examples.

Definition alice : Address := BytesToAddress [7; 7].
Definition bob : Address := BytesToAddress [8; 8].
Definition miner : Address := BytesToAddress [9; 9].
Definition example_contract : Address := BytesToAddress [1; 1].

(** A system contract with a command that stores its input, and one that stores
    it and then finds that there is no money. *)
Definition store_cmd (err : option SvmError) (input : bytes) (tx : Transaction) (header : BlockHeader)
    : GoM (Statedb (gmap bytes bytes)) Empty_set (bytes * option SvmError) :=
  SetData example_contract [1] input ;;; go_ret (input, err).

#[local] Instance example_vm : @VmOps (gmap bytes bytes) example_trie := {|
  contracts a :=
    if bytes_eqb a example_contract
    then Some (<[1 := mkCmd 30000 (store_cmd None)]> {[2 := mkCmd 30000 (store_cmd (Some ErrInsufficientBalance))]})
    else None;
  precompiled _ := false;
  vm_run _ f _ := go_ret ([], f_Gas f, None);
  MustHash_nonce a n := example_hash (n :: a);
  emptyCodeHash := example_hash [];
  error_text _ := []
|}.

#[local] Instance example_vm_laws : @VmLaws (gmap bytes bytes) example_trie example_vm.
Proof.
  split.
  - intros a c b info input tx header Hc Hb s. cbv [contracts example_vm] in Hc. destruct (bytes_eqb a example_contract); [|done].
    injection Hc as <-.
    assert (Hinfo : exists err, cmdHandler info = store_cmd err).
    { apply (lookup_insert_Some (M:=gmap Z)) in Hb as [[_ <-]|[_ Hb]]; [by eexists|].
      apply (lookup_singleton_Some (M:=gmap Z)) in Hb as [_ <-]. by eexists. }
    destruct Hinfo as [err ->]. unfold store_cmd, go_bind.
    destruct (SetData example_contract [1] input s) as [[[[] s'] [|[]]]|] eqn:Hs'; [|done].
    exists [OpSetData example_contract [1] input]. cbn [run_ops run_op]. unfold go_bind. by rewrite Hs'.
  - intros header f input _ s1 es1 _. apply keeps_above_ret.
  - intros header f input s ret gas err s' o [_ Hf] _ _. cbn. intros [= _ <- _ _ _]. unfold is_u64 in Hf. lia.
Qed.

Definition svm_state : Statedb (gmap bytes bytes) :=
  match run_ops [OpCreateAccount alice; OpAddBalance alice 100000; OpSetNonce alice 5;
                 OpCreateAccount bob; OpCreateAccount miner] empty_state with
  | Some (_, s, _) => s
  | None => empty_state
  end.

Lemma svm_state_ok : st_ok svm_state.
Proof.
  destruct empty_state_ok as [Hs Hj].
  destruct (runs_through (run_ops [OpCreateAccount alice; OpAddBalance alice 100000; OpSetNonce alice 5;
    OpCreateAccount bob; OpCreateAccount miner]) empty_state) as [s' Hs'];
    [vm_compute; reflexivity|]. unfold svm_state. rewrite Hs'.
  by destruct (run_ops_ok _ _ _ _ _ Hs Hj Hs').
Qed.

Definition example_ctx (to : Address) (amount gasLimit : Z) (payload : bytes) : Context :=
  mkContext (mkTx [1] (mkTxData 0 alice to amount 5 1 gasLimit 0 payload) []) 0
    (mkHeader [] miner [] [] [] [] [] (Some 1) 1 (Some 1) [] [] PowConsensus []).

(** The outcome of a run, when it is a receipt. *)
Lemma receipt_of (ctx : Context) height (s : Statedb (gmap bytes bytes)) :
  match Process ctx height s with Some (Some _, None, _, _) => true | _ => false end = true ->
  exists r s' o, Process ctx height s = Some (Some r, None, s', o).
Proof. destruct (Process ctx height s) as [[[[[r|] [e|]] s'] o]|]; try done. by eauto. Qed.

Lemma evm_gas_within_limit_witness :
  exists r s' o, Process (example_ctx bob 300 30000 [1]) 0 svm_state = Some (Some r, None, s', o)
    /\ r_UsedGas r <= 30000 /\ 300 + r_UsedGas r <= 100000.
Proof.
  destruct (receipt_of (example_ctx bob 300 30000 [1]) 0 svm_state) as (r & s' & o & Hrun);
    [vm_compute; reflexivity|].
  exists r, s', o. split; [done|].
  destruct (evm_gas_within_limit (example_ctx bob 300 30000 [1]) 0 svm_state r None s' o
    svm_state_ok) as ([_ H1] & _ & H2);
    [unfold is_u64; cbn; lia|cbn; lia|cbn; lia|vm_compute; reflexivity|vm_compute; reflexivity|exact Hrun|].
  split; [exact H1|]. assert (Hb : balance svm_state alice = 100000) by (vm_compute; reflexivity).
  cbn [example_ctx c_Tx tx_Data td_From td_Amount td_GasPrice] in H2. rewrite Hb in H2. lia.
Defined.

(** Alice with 30000. *)
Definition poor_state : Statedb (gmap bytes bytes) :=
  match run_op (OpSubBalance alice 70000) svm_state with Some (_, s, _) => s | None => svm_state end.

Lemma poor_state_ok : st_ok poor_state.
Proof.
  destruct (runs_through (run_op (OpSubBalance alice 70000)) svm_state) as [s' Hs'];
    [vm_compute; reflexivity|]. unfold poor_state. rewrite Hs'.
  pose proof (SubBalance_step svm_state alice 70000 svm_state_ok) as Hw.
  unfold wp in Hw. cbn [run_op] in Hs'. rewrite Hs' in Hw. by apply op_step_ok in Hw.
Qed.

(** The command needs 30000 and the limit leaves 132: the receipt is for 51068
    units of gas; the sender, who has 30000, pays nothing and the creator gets
    51068. *)
Lemma system_contract_overcharged_witness :
  exists r s' o, Process (example_ctx example_contract 0 21200 [1]) 0 poor_state = Some (Some r, None, s', o)
    /\ r_UsedGas r = 51068 /\ 21200 < r_UsedGas r
    /\ acct poor_state alice = Some (30000, 5, false) /\ acct s' alice = Some (30000, 5, false)
    /\ acct poor_state miner = Some (0, 0, false) /\ acct s' miner = Some (51068, 0, false).
Proof.
  destruct (receipt_of (example_ctx example_contract 0 21200 [1]) 0 poor_state) as (r & s' & o & Hrun);
    [vm_compute; reflexivity|].
  assert (Hv : match Process (example_ctx example_contract 0 21200 [1]) 0 poor_state with
    | Some (_, _, s, _) => (acct s alice, acct s miner) | None => (None, None) end
    = (Some (30000, 5, false), Some (51068, 0, false))) by (vm_compute; reflexivity).
  rewrite Hrun in Hv. injection Hv as Hv1 Hv2.
  destruct (system_contract_overcharged (example_ctx example_contract 0 21200 [1]) 0 poor_state r None s' o
    (<[1 := mkCmd 30000 (store_cmd None)]> {[2 := mkCmd 30000 (store_cmd (Some ErrInsufficientBalance))]})
    poor_state_ok) as (_ & H1 & H2 & _);
    [reflexivity|vm_compute; reflexivity|vm_compute; reflexivity|exact Hrun|].
  exists r, s', o. split; [exact Hrun|]. split; [exact H1|]. split; [exact H2|].
  split; [vm_compute; reflexivity|]. split; [exact Hv1|]. split; [vm_compute; reflexivity|exact Hv2].
Defined.

(** Alice had used the nonce 5; the contract has 0, and so has Alice afterwards:
    her transactions 0 to 5 are valid again. *)
Lemma system_tx_resets_nonce_witness :
  exists r s' o, Process (example_ctx example_contract 0 60000 [1; 42]) 0 svm_state = Some (Some r, None, s', o)
    /\ nonce_of svm_state alice = 5 /\ nonce_of s' alice = 0.
Proof.
  destruct (receipt_of (example_ctx example_contract 0 60000 [1; 42]) 0 svm_state) as (r & s' & o & Hrun);
    [vm_compute; reflexivity|].
  assert (Hf : match Process (example_ctx example_contract 0 60000 [1; 42]) 0 svm_state with
    | Some (Some r, _, _, _) => r_Failed r | _ => true end = false) by (vm_compute; reflexivity).
  rewrite Hrun in Hf. exists r, s', o. split; [exact Hrun|]. split; [vm_compute; reflexivity|].
  assert (Hz : nonce_of svm_state example_contract = 0) by (vm_compute; reflexivity).
  refine (eq_trans _ Hz).
  apply (system_tx_resets_nonce (example_ctx example_contract 0 60000 [1; 42]) 0 svm_state r None s' o
    (<[1 := mkCmd 30000 (store_cmd None)]> {[2 := mkCmd 30000 (store_cmd (Some ErrInsufficientBalance))]})
    100000 5 svm_state_ok); [reflexivity|vm_compute; congruence|vm_compute; reflexivity| |exact Hrun|exact Hf].
  intros st ret e st' o' n (u & st1 & ? & ? & Hset & Hret)%go_bind_inv [b Hb].
  injection Hret as _ _ <- _. exists b. rewrite <- Hb.
  eapply (SetData_other example_contract [1] [42]); [|exact Hset]. vm_compute. congruence.
Defined.

(** The command stores its input, then there is no money: nothing is stored, but the transaction
    is counted. *)
Lemma rejected_tx_changes_nothing_witness :
  exists s' o, Process (example_ctx example_contract 10 60000 [2; 42]) 0 svm_state
      = Some (None, Some ErrInsufficientBalance, s', o)
    /\ same_readings (upd_refund (sd_refund s') svm_state) s'
    /\ value_of (GetTxCount alice) svm_state = Some 0 /\ value_of (GetTxCount alice) s' = Some 1.
Proof.
  assert (Hr : match Process (example_ctx example_contract 10 60000 [2; 42]) 0 svm_state with
    | Some (None, Some ErrInsufficientBalance, s', _) => bool_decide (value_of (GetTxCount alice) s' = Some 1)
    | _ => false end = true) by (vm_compute; reflexivity).
  destruct (Process (example_ctx example_contract 10 60000 [2; 42]) 0 svm_state)
    as [[[[[r|] [[]|]] s'] o]|] eqn:Hrun; try discriminate Hr.
  exists s', o. split; [reflexivity|]. split; [|split; [vm_compute; reflexivity|by apply bool_decide_eq_true in Hr]].
  exact (rejected_tx_changes_nothing (example_ctx example_contract 10 60000 [2; 42]) 0 svm_state
    ErrInsufficientBalance s' o svm_state_ok ltac:(discriminate) ltac:(by split) Hrun ltac:(discriminate)).
Defined.
End examples.
