(* ===== verification/SysContracts.v ===== *)
(** * The system contracts

    Models [contract/system]: the registry of domain names ([domain_name.go]), the
    registry of sub-chains ([sub_chain.go]), hash time locks ([htlc.go]), the deposits of
    master nodes ([masternode.go]) and the Bitcoin relay ([btc_relay.go]), with the tables
    of their commands and the table of the contracts. A handler gets the input after the
    command byte, the transaction and the header of the block, and runs on the account
    state. [nil] and empty bytes are not told apart. *)

From Stdlib Require Import ZArith Lia.
From S2P Require Import Prelude Common BftHeader StateDb Svm.

Open Scope Z_scope.
Open Scope go_scope.

(** ** Data *)

(** [HashTimeLock] and [htlc]; the transaction is a pointer. *)
Record HashTimeLock := mkLock { hl_HashLock : bytes; hl_TimeLock : Z; hl_To : Address }.

Record htlc := mkHtlc {
  ht_Tx : option Transaction;
  ht_Lock : HashTimeLock;
  ht_Refunded : bool;
  ht_Withdrawed : bool;
  ht_Preimage : bytes
}.

Record Withdrawing := mkWithdrawing { wd_Hash : Hash; wd_Preimage : bytes }.

(** [discovery.Node], without the hash that it caches. *)
Record StaticNode := mkNode { sn_ID : Address; sn_IP : bytes; sn_UDPPort : Z; sn_TCPPort : Z; sn_Shard : Z }.

Record SubChainInfo := mkSubChain {
  sc_Name : bytes;
  sc_Version : bytes;
  sc_StaticNodes : list StaticNode;
  sc_TokenFullName : bytes;
  sc_TokenShortName : bytes;
  sc_TokenAmount : Z;
  sc_GenesisDifficulty : Z;
  sc_GenesisAccounts : gmap Address (option Z);
  sc_CreateTimestamp : option Z;
  sc_Owner : Address
}.

Record masternodeInfo := mkMasternode { mn_IsQuit : bool; mn_QuitBlock : Z }.

Record BTCBlock := mkBtc {
  bb_BlockHeaderHex : bytes;
  bb_Height : Z;
  bb_PreviousBlockHex : bytes;
  bb_TxHexs : list bytes;
  bb_Relayer : Address
}.

Record RelayRequest := mkRelay { rr_Block : BTCBlock; rr_TxHex : bytes; rr_RelayAddress : Address }.

(** [encoding/json] for the types above, [strings.ToLower] with the tables of Unicode,
    [sha256.Sum256], and [common.Serialize] and [common.Deserialize] of a master node. *)
Class SysEnv := {
  lock_of : bytes -> option HashTimeLock;
  withdrawing_of : bytes -> option Withdrawing;
  htlc_of : bytes -> option htlc;
  htlc_json : htlc -> option bytes;
  subchain_of : bytes -> option SubChainInfo;
  subchain_json : SubChainInfo -> option bytes;
  relay_of : bytes -> option RelayRequest;
  blocks_of : bytes -> option (gmap bytes BTCBlock);
  blocks_json : gmap bytes BTCBlock -> option bytes;
  masternode_of : bytes -> option masternodeInfo;
  masternode_bytes : masternodeInfo -> option bytes;
  ToLower : bytes -> bytes;
  Sha256Hash : bytes -> bytes
}.

(** ** Addresses *)

Definition DomainNameContractAddress : Address := BytesToAddress [1; 1].
Definition SubChainContractAddress : Address := BytesToAddress [1; 2].
Definition HashTimeLockContractAddress : Address := BytesToAddress [1; 3].
Definition MasternodeContractAddress : Address := BytesToAddress [1; 4].
Definition BTCRelayContractAddress : Address := BytesToAddress [1; 5].

Section sys.
Context {T : Type} `{TrieOps T} `{SysEnv}.

Abbreviation StM A := (GoM (Statedb T) Empty_set A).

Definition sys_error (err : SysError) : StM (bytes * option SvmError) := go_ret ([], Some (errSystem err)).

(** ** Domain names *)

Definition CmdCreateDomainName : Z := 0.
Definition CmdGetDomainNameOwner : Z := 1.
Definition gasCreateDomainName : Z := 50000.
Definition gasGetDomainNameOwner : Z := 100000.
Definition maxDomainNameLength : nat := HashLength.

(** A byte of the class [[a-zA-Z0-9\-]]. *)
Definition name_byte (c : Z) : bool :=
  ((97 <=? c) && (c <=? 122)) || ((65 <=? c) && (c <=? 90)) || ((48 <=? c) && (c <=? 57)) || (c =? 45).

Definition ValidateDomainName (domainName : bytes) : option SysError :=
  let nameLen := length domainName in
  if (nameLen =? 0)%nat then Some errNameEmpty
  else if (maxDomainNameLength <? nameLen)%nat then Some errNameTooLong
  else if forallb name_byte domainName then None else Some errInvalidName.

(** The name that is validated is the lower case one, the key is that of the name. *)
Definition domainNameToKey (domainName : bytes) : Hash + SysError :=
  match ValidateDomainName (ToLower domainName) with
  | Some err => inr err
  | None => inl (BytesToHash domainName)
  end.

Definition createDomainName (domainName : bytes) (tx : Transaction) (header : BlockHeader) : StM (bytes * option SvmError) :=
  match domainNameToKey domainName with
  | inr err => sys_error err
  | inl key =>
      CreateAccount DomainNameContractAddress ;;;
      value <- GetData DomainNameContractAddress key ;;
      if (0 <? length value)%nat then sys_error errExists
      else
        let value := td_From (tx_Data tx) in
        SetData DomainNameContractAddress key value ;;;
        go_ret (value, None)
  end.

Definition getDomainNameOwner (domainName : bytes) (tx : Transaction) (header : BlockHeader) : StM (bytes * option SvmError) :=
  match domainNameToKey domainName with
  | inr err => sys_error err
  | inl key =>
      owner <- GetData DomainNameContractAddress key ;;
      if (length owner =? 0)%nat then sys_error errNotFound else go_ret (owner, None)
  end.

Definition domainNameCommands : gmap Z cmdInfo :=
  <[CmdCreateDomainName := mkCmd gasCreateDomainName createDomainName]>
  (<[CmdGetDomainNameOwner := mkCmd gasGetDomainNameOwner getDomainNameOwner]> ∅).

(** ** Sub-chains *)

Definition CmdSubChainRegister : Z := 0.
Definition CmdSubChainQuery : Z := 1.
Definition gasSubChainRegister : Z := 100000.
Definition gasSubChainQuery : Z := 200000.

(** The sender becomes the owner. *)
Definition set_owner (info : SubChainInfo) (timestamp : option Z) (owner : Address) : SubChainInfo :=
  mkSubChain (sc_Name info) (sc_Version info) (sc_StaticNodes info) (sc_TokenFullName info) (sc_TokenShortName info)
    (sc_TokenAmount info) (sc_GenesisDifficulty info) (sc_GenesisAccounts info) timestamp owner.

Definition registerSubChain (jsonRegInfo : bytes) (tx : Transaction) (header : BlockHeader) : StM (bytes * option SvmError) :=
  match subchain_of jsonRegInfo with
  | None => sys_error errSysJson
  | Some info =>
      match domainNameToKey (sc_Name info) with
      | inr err => sys_error err
      | inl key =>
          value <- GetData SubChainContractAddress key ;;
          if (0 <? length value)%nat then sys_error errExists
          else if (length (sc_Version info) =? 0)%nat || (length (sc_TokenFullName info) =? 0)%nat
                  || (length (sc_TokenShortName info) =? 0)%nat || (sc_TokenAmount info =? 0)
          then sys_error errInvalidSubChainInfo
          else
            match subchain_json (set_owner info (h_CreateTimestamp header) (td_From (tx_Data tx))) with
            | None => sys_error errSysJson
            | Some value =>
                CreateAccount SubChainContractAddress ;;;
                SetData SubChainContractAddress key value ;;;
                go_ret ([], None)
            end
      end
  end.

Definition querySubChain (subChainName : bytes) (tx : Transaction) (header : BlockHeader) : StM (bytes * option SvmError) :=
  match domainNameToKey subChainName with
  | inr err => sys_error err
  | inl key => value <- GetData SubChainContractAddress key ;; go_ret (value, None)
  end.

Definition subChainCommands : gmap Z cmdInfo :=
  <[CmdSubChainRegister := mkCmd gasSubChainRegister registerSubChain]>
  (<[CmdSubChainQuery := mkCmd gasSubChainQuery querySubChain]> ∅).

(** ** Hash time locks *)

Definition gasNewContract : Z := 100000.
Definition gasWithdraw : Z := 5000.
Definition gasRefund : Z := 5000.
Definition gasGetContract : Z := 5000.
Definition CmdNewContract : Z := 0.
Definition CmdWithdraw : Z := 1.
Definition CmdRefund : Z := 2.
Definition CmdGetContract : Z := 3.

Definition validateAmount (tx : Transaction) : option SysError :=
  if 0 <? td_Amount (tx_Data tx) then None else Some errLockAmount.

Definition isFutureTimeLock (timelock now : Z) : bool := now <? timelock.

Definition hashLockMatches (hashLock preimage : bytes) : bool := bytes_eqb hashLock (Sha256Hash preimage).

(** [CreateTimestamp.Int64()]. *)
Definition block_time (header : BlockHeader) : StM Z :=
  time <- go_deref (h_CreateTimestamp header) ;; go_ret (i64 time).

Definition haveContract (hash : Hash) : StM (bytes + SysError) :=
  data <- GetData HashTimeLockContractAddress hash ;;
  go_ret (if (length data =? 0)%nat then inr errNotFound else inl data).

Definition newHTLC (lockbytes : bytes) (tx : Transaction) (header : BlockHeader) : StM (bytes * option SvmError) :=
  match lock_of lockbytes with
  | None => sys_error errSysJson
  | Some info =>
      match validateAmount tx with
      | Some err => sys_error err
      | None =>
          now <- block_time header ;;
          if negb (isFutureTimeLock (hl_TimeLock info) now) then sys_error errNotFutureTime
          else
            match htlc_json (mkHtlc (Some tx) info false false []) with
            | None => sys_error errSysJson
            | Some value =>
                CreateAccount HashTimeLockContractAddress ;;;
                SetData HashTimeLockContractAddress (tx_Hash tx) value ;;;
                go_ret (value, None)
            end
      end
  end.

Definition withdrawable (data : htlc) (tx : Transaction) (header : BlockHeader) : StM (option SysError) :=
  if negb (Address_Equal (td_From (tx_Data tx)) (hl_To (ht_Lock data))) then go_ret (Some errReceiver)
  else
    now <- block_time header ;;
    if negb (isFutureTimeLock (hl_TimeLock (ht_Lock data)) now) then go_ret (Some errTimeExpired)
    else if ht_Withdrawed data then go_ret (Some errWithdrawAfterWithdrawed)
    else go_ret None.

Definition withdraw (jsonWithdraw : bytes) (tx : Transaction) (header : BlockHeader) : StM (bytes * option SvmError) :=
  match withdrawing_of jsonWithdraw with
  | None => sys_error errSysJson
  | Some input =>
      databytes <- haveContract (wd_Hash input) ;;
      match databytes with
      | inr err => sys_error err
      | inl databytes =>
          match htlc_of databytes with
          | None => sys_error errSysJson
          | Some info =>
              if negb (hashLockMatches (hl_HashLock (ht_Lock info)) (wd_Preimage input)) then sys_error errHashMismatch
              else
                err <- withdrawable info tx header ;;
                match err with
                | Some err => sys_error err
                | None =>
                    match htlc_json (mkHtlc (ht_Tx info) (ht_Lock info) (ht_Refunded info) true (wd_Preimage input)) with
                    | None => sys_error errSysJson
                    | Some value =>
                        locked <- go_deref (ht_Tx info) ;;
                        SetData HashTimeLockContractAddress (tx_Hash locked) value ;;;
                        SubBalance (td_To (tx_Data tx)) (td_Amount (tx_Data locked)) ;;;
                        AddBalance (hl_To (ht_Lock info)) (td_Amount (tx_Data locked)) ;;;
                        go_ret (value, None)
                    end
                end
          end
      end
  end.

Definition refundable (data : htlc) (tx : Transaction) (header : BlockHeader) : StM (option SysError) :=
  locked <- go_deref (ht_Tx data) ;;
  if negb (Address_Equal (td_From (tx_Data tx)) (td_From (tx_Data locked))) then go_ret (Some errSender)
  else
    now <- block_time header ;;
    if isFutureTimeLock (hl_TimeLock (ht_Lock data)) now then go_ret (Some errTimeLocked)
    else if ht_Withdrawed data then go_ret (Some errRefundAfterWithdrawed)
    else if ht_Refunded data then go_ret (Some errRedunedAgain)
    else go_ret None.

Definition refund (input : bytes) (tx : Transaction) (header : BlockHeader) : StM (bytes * option SvmError) :=
  databytes <- haveContract (BytesToHash input) ;;
  match databytes with
  | inr err => sys_error err
  | inl databytes =>
      match htlc_of databytes with
      | None => sys_error errSysJson
      | Some info =>
          err <- refundable info tx header ;;
          match err with
          | Some err => sys_error err
          | None =>
              match htlc_json (mkHtlc (ht_Tx info) (ht_Lock info) true (ht_Withdrawed info) (ht_Preimage info)) with
              | None => sys_error errSysJson
              | Some value =>
                  locked <- go_deref (ht_Tx info) ;;
                  SetData HashTimeLockContractAddress (tx_Hash locked) value ;;;
                  SubBalance (td_To (tx_Data tx)) (td_Amount (tx_Data locked)) ;;;
                  AddBalance (td_From (tx_Data locked)) (td_Amount (tx_Data locked)) ;;;
                  go_ret (value, None)
              end
          end
      end
  end.

Definition getContract (input : bytes) (tx : Transaction) (header : BlockHeader) : StM (bytes * option SvmError) :=
  data <- haveContract (BytesToHash input) ;;
  match data with inl data => go_ret (data, None) | inr err => sys_error err end.

Definition htlcCommands : gmap Z cmdInfo :=
  <[CmdNewContract := mkCmd gasNewContract newHTLC]>
  (<[CmdWithdraw := mkCmd gasWithdraw withdraw]>
  (<[CmdRefund := mkCmd gasRefund refund]>
  (<[CmdGetContract := mkCmd gasGetContract getContract]> ∅))).

(** ** Master nodes *)

Definition CmdDeposit : Z := 0.
Definition CmdQueryMasternode : Z := 1.
Definition CmdRecall : Z := 2.
Definition CmdQuit : Z := 3.
Definition gasCmdDeposit : Z := 50000.
Definition gasCmdQueryMasterNode : Z := 5000.
Definition gasCmdRecall : Z := 50000.
Definition gasCmdQuit : Z := 50000.
Definition ByteFalse : bytes := [0].

(** 20000 Seele in Fan. *)
Definition depositLimit : Z := 100000000 * 20000.
Definition recallDistanceLimit : Z := 8640.

Definition getInfo (address : bytes) : StM (option masternodeInfo + SysError) :=
  infoBytes <- GetData MasternodeContractAddress (MustHash_of address) ;;
  if (length infoBytes =? 0)%nat then go_ret (inl None)
  else go_ret (match masternode_of infoBytes with Some info => inl (Some info) | None => inr errSerialize end).

Definition QueryAddress (address : Address) : StM (option masternodeInfo + SysError) := getInfo address.

(** [SerializePanic] panics where [Serialize] fails. *)
Definition deposit (input : bytes) (tx : Transaction) (header : BlockHeader) : StM (bytes * option SvmError) :=
  if negb (td_Amount (tx_Data tx) =? depositLimit) then sys_error ErrDepositNotRight
  else
    let sender := td_From (tx_Data tx) in
    info <- QueryAddress sender ;;
    match info with
    | inr err => sys_error err
    | inl info =>
        if (match info with Some info => negb (mn_IsQuit info) | None => false end) then sys_error ErrAlreadyExist
        else
          value <- go_deref (masternode_bytes (mkMasternode false 0)) ;;
          SetData MasternodeContractAddress (MustHash_of sender) value ;;;
          go_ret ([], None)
    end.

(** [info == nil && !info.IsQuit] dereferences a nil pointer, and is false otherwise. *)
Definition queryMasternodeCmd (address : bytes) (tx : Transaction) (header : BlockHeader) : StM (bytes * option SvmError) :=
  info <- getInfo address ;;
  match info with
  | inr err => sys_error err
  | inl None => go_panic
  | inl (Some _) => go_ret (ByteFalse, None)
  end.

Definition recallCmd (address : bytes) (tx : Transaction) (header : BlockHeader) : StM (bytes * option SvmError) :=
  info <- getInfo address ;;
  match info with
  | inr err => sys_error err
  | inl None => go_panic
  | inl (Some info) =>
      let distance := u64 (h_Height header - mn_QuitBlock info) in
      if mn_IsQuit info && (recallDistanceLimit <? distance) then
        SetData MasternodeContractAddress (MustHash_of address) [] ;;;
        SubBalance MasternodeContractAddress depositLimit ;;;
        AddBalance (td_From (tx_Data tx)) depositLimit ;;;
        go_ret ([], None)
      else sys_error ErrNotEnoughDistance
  end.

Definition saveInfo (address : bytes) (info : masternodeInfo) : StM (option SysError) :=
  match masternode_bytes info with
  | None => go_ret (Some errSerialize)
  | Some buf => SetData MasternodeContractAddress (MustHash_of address) buf ;;; go_ret None
  end.

Definition quitCmd (address : bytes) (tx : Transaction) (header : BlockHeader) : StM (bytes * option SvmError) :=
  info <- getInfo address ;;
  match info with
  | inr err => sys_error err
  | inl (Some info) =>
      if mn_IsQuit info then go_ret ([], None)
      else
        err <- saveInfo address (mkMasternode true (h_Height header)) ;;
        match err with Some err => sys_error err | None => go_ret ([], None) end
  | inl None => go_ret ([], None)
  end.

Definition masternodeCommands : gmap Z cmdInfo :=
  <[CmdDeposit := mkCmd gasCmdDeposit deposit]>
  (<[CmdQueryMasternode := mkCmd gasCmdQueryMasterNode queryMasternodeCmd]>
  (<[CmdRecall := mkCmd gasCmdRecall recallCmd]>
  (<[CmdQuit := mkCmd gasCmdQuit quitCmd]> ∅))).

(** ** The Bitcoin relay *)

(** The height of the last header that was stored is a variable of the process, not of
    the account state: the handlers run on both. *)
Abbreviation RelayM A := (GoM (Statedb T * Z) Empty_set A).

Definition on_statedb {A} (m : StM A) : RelayM A := fun st =>
  match m st.1 with Some (a, s, o) => Some (a, (s, st.2), o) | None => None end.

Definition preBlockHeight : RelayM Z := st <- go_get ;; go_ret st.2.
Definition set_preBlockHeight (height : Z) : RelayM unit := go_modify (fun st => (st.1, height)).

Definition btcConfirm : Z := 6.
Definition relay_fee : Z := 1.
Definition failure : bytes := [0].
Definition success : bytes := [1].

(** The ASCII codes of ["BTC-Blocks-Hash"]. *)
Definition keyBlocksHash : Hash :=
  BytesToHash [66; 84; 67; 45; 66; 108; 111; 99; 107; 115; 45; 72; 97; 115; 104].

Definition relay_error (err : SysError) : RelayM (bytes * option SvmError) := go_ret (failure, Some (errSystem err)).

Definition getBTCBlocks : StM (gmap bytes BTCBlock) :=
  data <- GetData BTCRelayContractAddress keyBlocksHash ;; go_ret (default ∅ (blocks_of data)).

Definition pay_relayer (relayer : Address) (amount : Z) : StM unit :=
  AddBalance relayer amount ;;; SubBalance BTCRelayContractAddress amount.

Definition verifyTx (request : bytes) (tx : Transaction) (header : BlockHeader) : RelayM (bytes * option SvmError) :=
  match relay_of request with
  | None => relay_error errSysJson
  | Some relayRequest =>
      let amount := td_Amount (tx_Data tx) in
      if u64 amount <? relay_fee then relay_error errRelayFee
      else
        blocks <- on_statedb getBTCBlocks ;;
        match blocks !! bb_BlockHeaderHex (rr_Block relayRequest) with
        | None => go_ret (failure, None)
        | Some btcBlock =>
            pre <- preBlockHeight ;;
            if (pre <? btcConfirm) || (bb_Height btcBlock <? u64 (pre - btcConfirm)) then relay_error errConfirmation
            else
              on_statedb (pay_relayer (bb_Relayer btcBlock) amount) ;;;
              go_ret (if bool_decide (rr_TxHex relayRequest ∈ bb_TxHexs btcBlock) then success else failure, None)
        end
  end.

Definition relayTx (request : bytes) (tx : Transaction) (header : BlockHeader) : RelayM (bytes * option SvmError) :=
  r <- verifyTx request tx header ;;
  match r with
  | (_, Some err) => go_ret (failure, Some err)
  | (ok, None) => go_ret (if bytes_eqb ok success then success else failure, None)
  end.

Definition isRelayer (addr : Address) : bool := true.

Definition storeBlockHeader (request : bytes) (tx : Transaction) (header : BlockHeader) : RelayM (bytes * option SvmError) :=
  if negb (isRelayer (td_From (tx_Data tx))) then relay_error errRelayer
  else
    match relay_of request with
    | None => relay_error errSysJson
    | Some relayRequest =>
        blocks <- on_statedb getBTCBlocks ;;
        let block := rr_Block relayRequest in
        match blocks !! bb_BlockHeaderHex block with
        | Some _ => relay_error errHeaderExists
        | None =>
            set_preBlockHeight (bb_Height block) ;;;
            match blocks_json (<[bb_BlockHeaderHex block :=
                mkBtc (bb_BlockHeaderHex block) (bb_Height block) (bb_PreviousBlockHex block) (bb_TxHexs block) (td_From (tx_Data tx))]> blocks) with
            | None => relay_error errSysJson
            | Some data =>
                on_statedb (SetData BTCRelayContractAddress keyBlocksHash data) ;;;
                go_ret (success, None)
            end
        end
    end.

Definition getBlockHeader (request : bytes) (tx : Transaction) (header : BlockHeader) : RelayM (bytes * option SvmError) :=
  let amount := td_Amount (tx_Data tx) in
  if u64 amount <? relay_fee then relay_error errRelayFee
  else
    blocks <- on_statedb getBTCBlocks ;;
    match blocks !! BytesToHex request with
    | None => go_ret (failure, None)
    | Some btcBlock => on_statedb (pay_relayer (bb_Relayer btcBlock) amount) ;;; go_ret (success, None)
    end.

(** ** The table of the contracts

    The relay is an argument: its commands also run on the variable of the process. *)
Definition system_contracts (relay : contract) (address : Address) : option contract :=
  if bytes_eqb address DomainNameContractAddress then Some domainNameCommands
  else if bytes_eqb address SubChainContractAddress then Some subChainCommands
  else if bytes_eqb address HashTimeLockContractAddress then Some htlcCommands
  else if bytes_eqb address MasternodeContractAddress then Some masternodeCommands
  else if bytes_eqb address BTCRelayContractAddress then Some relay
  else None.
End sys.
