(* ===== verification/SysProofs.v ===== *)
(** * What the system contracts guarantee *)

From Stdlib Require Import ZArith Lia.
From S2P Require Import Prelude Common BftHeader StateDb StateDbProofs Svm SvmProofs SysContracts.

Open Scope Z_scope.
Open Scope go_scope.

(** ** Balances and data

    What the handlers read and write of a state: the balances and the data of the
    accounts. The trie does not change before the state is flushed. *)

Section view.
Context {T : Type} {HT : TrieOps T}.
Implicit Types (s : Statedb T).

Definition data (s : Statedb T) (a : Address) (k : Hash) : bytes :=
  from_option (fun o => read_state (sd_trie s) o k false) [] (find_object s a).

Definition has_account (s : Statedb T) (a : Address) : Prop := is_Some (find_object s a).

(** Reading the trie does not fail. *)
Definition reads_ok (t : T) : Prop := forall key, exists v, trie_Get t key = inl v.

Record sees (s s' : Statedb T) (B : Address -> Z) (D : Address -> Hash -> bytes) : Prop := {
  se_ok : st_ok s';
  se_trie' : sd_trie s' = sd_trie s;
  se_account : forall x, has_account s' x <-> has_account s x;
  se_balance : forall x, balance s' x = B x;
  se_data : forall x k, data s' x k = D x k
}.

Definition set_balance (B : Address -> Z) (a : Address) (v : Z) (x : Address) : Z := if bool_decide (x = a) then v else B x.

Definition set_data (D : Address -> Hash -> bytes) (a : Address) (k : Hash) (v : bytes) (x : Address) (k' : Hash) : bytes :=
  if bool_decide (x = a /\ k' = k) then v else D x k'.

Lemma sees_refl s : st_ok s -> sees s s (balance s) (data s).
Proof. done. Qed.

Lemma sees_trans s s1 s2 B1 D1 B2 D2 : sees s s1 B1 D1 -> sees s1 s2 B2 D2 -> sees s s2 B2 D2.
Proof.
  intros [? ? Ha _ _] [? ? Ha' ? ?]. constructor; [done|congruence| |done|done]. intros x. by rewrite Ha', Ha.
Qed.

Lemma quiet_sees s s' : quiet_step s s' -> sees s s' (balance s) (data s).
Proof.
  intros Hq. destruct (qs_equiv _ _ Hq) as [Ht _ Ho].
  assert (Hx : forall x, has_account s' x <-> has_account s x).
  { intros x. unfold has_account. specialize (Ho x). inversion Ho; rewrite !is_Some_alt; naive_solver. }
  constructor; [apply Hq|done|done| |].
  - intros x. unfold balance. specialize (Ho x). inversion Ho as [o o' Hoo|]; [|done]. cbn. by rewrite (oe_amount _ _ _ Hoo).
  - intros x k. unfold data. rewrite <-Ht. specialize (Ho x). inversion Ho as [o o' Hoo|]; [|done]. cbn. by rewrite (oe_state _ _ _ Hoo).
Qed.

Lemma set_balance_same B a x : set_balance B a (B a) x = B x.
Proof. unfold set_balance. case_bool_decide; by subst. Qed.

(** An object that is written with its data kept. *)
Lemma put_sees s a o o' :
  st_ok (upd_objects (<[a := o']>) s) -> find_object s a = Some o -> o_deleted o' = false ->
  (forall k, read_state (sd_trie s) o' k false = read_state (sd_trie s) o k false) ->
  sees s (upd_objects (<[a := o']>) s) (set_balance (balance s) a (a_Amount (o_account o'))) (data s).
Proof.
  intros Hs Hf Hd Hr. constructor; [done|done| | |].
  - intros x. unfold has_account. rewrite find_object_insert by done. case_bool_decide; [|done]. subst. rewrite Hf, !is_Some_alt. naive_solver.
  - intros x. by apply put_balance.
  - intros x k. unfold data. rewrite find_object_insert by done. case_bool_decide; [|done]. subst. rewrite Hf. cbn. apply Hr.
Qed.

(** The state under the object. *)
Lemma sees_journal s s' B D f : sees (upd_journal f s) s' B D -> sees s s' B D.
Proof. intros []. by constructor. Qed.

Lemma reader_sees {A} a (none : A) (f : stateObject -> A) s :
  st_ok s -> wp (with_object a none (fun o => go_ret (f o))) s
    (fun r s' _ => r = from_option f none (find_object s a) /\ sees s s' (balance s) (data s)).
Proof. intros Hs. eapply wp_mono; [by apply reader_quiet|]. intros r s' _ [-> Hq]. split; [done|by apply quiet_sees]. Qed.

Lemma GetBalance_sees a s : st_ok s -> wp (GetBalance a) s (fun r s' _ => r = balance s a /\ sees s s' (balance s) (data s)).
Proof. apply reader_sees. Qed.

Lemma writer_sees a (e : stateObject -> journalEntry) (f : stateObject -> stateObject) s :
  (forall s0, st_ok s0 -> wp (with_object a tt (fun o => journal_add (e o) ;;; put_object a (f o))) s0 (fun _ s' _ => op_step s0 s')) ->
  (forall o, same_data o (f o)) -> st_ok s ->
  wp (with_object a tt (fun o => journal_add (e o) ;;; put_object a (f o))) s
    (fun _ s' _ => sees s s' (from_option (fun o => set_balance (balance s) a (a_Amount (o_account (f o)))) (balance s) (find_object s a)) (data s)).
Proof.
  intros Hstep Hd Hs. specialize (Hstep s Hs). unfold with_object, wp, go_bind in Hstep |- *.
  pose proof (getStateObject_spec s a Hs) as Hg. unfold wp in Hg.
  destruct (getStateObject a s) as [[[r s0] o0]|]; [|done]. destruct Hg as (-> & Hq & Hf & _).
  destruct (find_object s a) as [o|] eqn:Ho; cbn in Hstep |- *; [|by apply quiet_sees].
  pose proof (quiet_sees _ _ Hq) as H0. apply op_step_ok in Hstep.
  destruct (find_object_fields _ _ _ Hs Ho) as (Hdel & _).
  assert (H1 : sees s0 (upd_objects (<[a := f o]>) (upd_journal (fun j => journal_append j (e o)) s0))
      (set_balance (balance s0) a (a_Amount (o_account (f o)))) (data s0)).
  { eapply (sees_journal _ _ _ _ (fun j => journal_append j (e o))).
    apply (put_sees (upd_journal (fun j => journal_append j (e o)) s0) a o); [done|done| |].
    - by rewrite (sm_deleted _ _ (Hd o)).
    - intros k. by apply same_data_state. }
  destruct (sees_trans _ _ _ _ _ _ _ H0 H1) as [? ? ? Hb Hdd]. constructor; try done.
  - intros x. rewrite Hb. unfold set_balance. case_bool_decide; [done|]. apply H0.
  - intros x k. rewrite Hdd. apply H0.
Qed.

Lemma setAmount_data o v : same_data o (setAmount o v).
Proof. unfold setAmount. destruct (0 <=? v); by constructor. Qed.

(** The balance of an account that exists becomes [g] of it. *)
Lemma amount_sees a (g : Z -> Z) s :
  st_ok s -> has_account s a -> 0 <= g (balance s a) ->
  wp (with_object a tt (fun o =>
      journal_add (balanceChange a (a_Amount (o_account o))) ;;;
      put_object a (setAmount o (g (a_Amount (o_account o)))))) s
    (fun _ s' _ => sees s s' (set_balance (balance s) a (g (balance s a))) (data s)).
Proof.
  intros Hs [o Ho] Hg. eapply wp_mono; [apply (writer_sees a (fun o => balanceChange a (a_Amount (o_account o))) (fun o => setAmount o (g (a_Amount (o_account o)))))|].
  - intros s0 Hs0. apply with_object_step; [done|]. intros o1 s1 Hs1 Hf1. by apply amount_step.
  - intros o1. apply setAmount_data.
  - done.
  - intros u s' out Hsee. cbn beta in Hsee. rewrite Ho in Hsee. cbn in Hsee. unfold setAmount in Hsee. assert (Eb : balance s a = a_Amount (o_account o)) by (unfold balance; by rewrite Ho).
    rewrite Eb in *. apply Z.leb_le in Hg. by rewrite Hg in Hsee.
Qed.

Lemma AddBalance_sees a v s : st_ok s -> has_account s a -> 0 <= balance s a + v ->
  wp (AddBalance a v) s (fun _ s' _ => sees s s' (set_balance (balance s) a (balance s a + v)) (data s)).
Proof. intros Hs Ha Hv. by apply (amount_sees a (fun b => b + v)). Qed.

Lemma SubBalance_sees a v s : st_ok s -> has_account s a -> 0 <= balance s a - v ->
  wp (SubBalance a v) s (fun _ s' _ => sees s s' (set_balance (balance s) a (balance s a - v)) (data s)).
Proof. intros Hs Ha Hv. by apply (amount_sees a (fun b => b - v)). Qed.

(** On an account that does not exist nothing happens. *)
Lemma no_account_sees {A} a (k : stateObject -> GoM (Statedb T) Empty_set A) none s :
  st_ok s -> find_object s a = None ->
  wp (with_object a none k) s (fun r s' _ => r = none /\ sees s s' (balance s) (data s)).
Proof.
  intros Hs Ha. unfold with_object. apply wp_bind. eapply wp_mono; [by apply getStateObject_spec|].
  intros r s0 _ (-> & Hq & _). rewrite Ha. apply wp_ret. split; [done|by apply quiet_sees].
Qed.

Lemma SetNonce2_sees a n c s : st_ok s -> wp (SetNonce2 a n c) s (fun _ s' _ => sees s s' (balance s) (data s)).
Proof.
  intros Hs. eapply wp_mono; [apply (writer_sees a (fun o => nonceChange a (a_Nonce (o_account o))) (fun o => setTxCount (setNonce o n) c))|].
  - intros s0 Hs0. by apply SetNonce2_step.
  - by intros o.
  - done.
  - intros u s' out H1. destruct (find_object s a) as [o|] eqn:Ho; [|done]. cbn in H1. destruct H1 as [? ? ? Hb ?].
    constructor; try done. intros x. rewrite Hb. unfold set_balance. case_bool_decide; [subst x|done]. unfold balance. by rewrite Ho.
Qed.

Lemma GetData_sees a k s : st_ok s -> wp (GetData a k) s (fun r s' _ => r = data s a k /\ sees s s' (balance s) (data s)).
Proof.
  intros Hs. pose proof (getData_value a k false s Hs) as Hv. unfold value_of in Hv.
  assert (Hq : wp (getData a k false) s (fun _ s' _ => quiet_step s s')).
  { unfold getData, with_object. apply wp_bind. eapply wp_mono; [by apply getStateObject_spec|]. intros r s0 _ (-> & Hq & Hf & _).
    destruct (find_object s a) as [o|] eqn:Ho; [|by apply wp_ret]. wp_seq.
    pose proof (getState_equiv (sd_trie s0) o k false) as [He Hd].
    destruct (getState o (sd_trie s0) k false) as [o' r]. cbn [fst] in *. unfold put_object. apply wp_bind, wp_modify.
    pose proof (cache_step s0 a o o' (qs_ok _ _ Hq) Hf (conj He Hd)) as Hq1. pose proof (quiet_trans _ _ _ Hq Hq1).
    destruct r as [v|err]; [by apply wp_ret|]. apply wp_bind. eapply wp_mono; [apply setError_quiet, Hq1|].
    intros u s2 out Hq2. apply wp_ret. by eapply quiet_trans. }
  unfold GetData, wp in *. destruct (getData a k false s) as [[[r s'] o]|]; [|done]. injection Hv as ->. split; [done|by apply quiet_sees].
Qed.

Lemma getState_reads t (o : stateObject) k : reads_ok t -> exists v, (getState o t k false).2 = inl v.
Proof.
  intros Ht. unfold getState. destruct (o_dirtyStorage o !! k); [by eexists|]. destruct (o_cachedStorage o !! k); [by eexists|].
  destruct (Ht (storageKey o k)) as [[v|] ->]; by eexists.
Qed.

Lemma SetData_sees a k v s : st_ok s -> has_account s a -> reads_ok (sd_trie s) ->
  wp (SetData a k v) s (fun _ s' _ => sees s s' (balance s) (set_data (data s) a k v)).
Proof.
  intros Hs [o Ho] Ht. pose proof (SetData_step s a k v Hs) as Hstep.
  assert (Hw : wp (SetData a k v) s (fun _ s' _ => st_ok s' -> sees s s' (balance s) (set_data (data s) a k v))).
  2: { unfold wp in *. destruct (SetData a k v s) as [[[u s'] o1]|]; [|done]. apply Hw. by eapply op_step_ok. }
  clear Hstep. unfold SetData, with_object. apply wp_bind. eapply wp_mono; [by apply getStateObject_spec|].
  intros r s0 _ (-> & Hq & Hf & _). rewrite Ho in Hf |- *. wp_seq. pose proof (quiet_sees _ _ Hq) as H0.
  rewrite <-(se_trie' _ _ _ _ H0) in Ht. destruct (getState_reads (sd_trie s0) o k Ht) as [prev Hprev].
  pose proof (getState_equiv (sd_trie s0) o k false) as [He Hd].
  assert (Hpv : data s0 a k = prev) by (unfold data; rewrite Hf; change (read_state (sd_trie s0) o k false = prev); unfold read_state; by rewrite Hprev).
  destruct (getState o (sd_trie s0) k false) as [o' r]. cbn [fst snd] in *. subst r.
  destruct (find_object_fields _ _ _ Hs Ho) as (Hdel & _).
  pose proof (cache_step s0 a o o' (qs_ok _ _ Hq) Hf (conj He Hd)) as Hq1. pose proof (sees_trans _ _ _ _ _ _ _ H0 (quiet_sees _ _ Hq1)) as H1.
  unfold put_object. apply wp_bind, wp_modify. case_bool_decide as Hpv'.
  - apply wp_ret. intros _. destruct H1 as [? ? ? Hb1 Hd1]. constructor; try done; [intros x; rewrite Hb1; apply H0|].
    intros x k'. rewrite Hd1. unfold set_data. case_bool_decide as Hx; [destruct Hx as [-> ->]; congruence|apply H0].
  - unfold journal_add. wp_seq. intros Hok. set (s1 := upd_objects (<[a := o']>) s0) in *.
    assert (Hf1 : find_object s1 a = Some o') by (apply find_put; congruence).
    constructor; [done|apply H1| | |].
    + intros x. rewrite <-(se_account _ _ _ _ H1). unfold has_account. rewrite find_object_insert by (cbn; congruence).
      change (find_object (upd_journal _ s1) x) with (find_object s1 x). case_bool_decide; [subst; rewrite Hf1, !is_Some_alt; naive_solver|done].
    + intros x. rewrite put_balance by (cbn; congruence). change (balance (upd_journal _ s1) x) with (balance s1 x).
      rewrite <-(se_balance _ _ _ _ H0), <-(se_balance _ _ _ _ (quiet_sees _ _ Hq1)).
      case_bool_decide; [subst|done]. unfold balance. by rewrite Hf1.
    + intros x k'. unfold data at 1. rewrite find_object_insert by (cbn; congruence). cbn [sd_trie upd_objects upd_journal].
      change (find_object (upd_journal _ s1) x) with (find_object s1 x). unfold set_data.
      rewrite <-(se_data _ _ _ _ H0), <-(se_data _ _ _ _ (quiet_sees _ _ Hq1)).
      destruct (decide (x = a)) as [->|Hx].
      * rewrite (bool_decide_true (a = a)) by done. cbn. rewrite read_state_setState. cbn [negb andb].
        destruct (decide (k' = k)) as [->|Hk]; [by rewrite !bool_decide_true by done|].
        rewrite !bool_decide_false by naive_solver. unfold data. by rewrite Hf1.
      * rewrite !bool_decide_false by naive_solver. done.
Qed.

Lemma CreateAccount_sees a s : st_ok s -> has_account s a ->
  wp (CreateAccount a) s (fun _ s' _ => sees s s' (balance s) (data s)).
Proof.
  intros Hs [o Ho]. unfold CreateAccount. apply wp_bind. eapply wp_mono; [by apply getStateObject_spec|].
  intros r s0 _ (-> & Hq & _). rewrite Ho. apply wp_ret. by apply quiet_sees.
Qed.
End view.

(** ** The handlers reach the state only through its methods *)

Section via.
Context {T : Type} {HT : TrieOps T} {HS : SysEnv}.

Abbreviation StM A := (GoM (Statedb T) Empty_set A).

Lemma run_ops_app (l l' : list state_op) (s s1 s2 : Statedb T) :
  run_ops l s = Some (tt, s1, []) -> run_ops l' s1 = Some (tt, s2, []) -> run_ops (l ++ l') s = Some (tt, s2, []).
Proof.
  revert s. induction l as [|op l IH]; intros s; cbn [run_ops app]; [by intros [= ->]|].
  unfold go_bind. destruct (run_op op s) as [[[u s0] o]|]; [|done].
  destruct (run_ops l s0) as [[[[] s3] o3]|] eqn:E; [|done]. intros [= -> Ho] H'. apply app_eq_nil in Ho as [-> ->].
  by rewrite (IH s0 E H').
Qed.

Lemma via_ops_ret {A} (a : A) : via_ops (go_ret a : StM A).
Proof. intros s. by exists []. Qed.

Lemma via_ops_panic {A} : via_ops (go_panic : StM A).
Proof. done. Qed.

Lemma via_ops_deref {A} (o : option A) : via_ops (go_deref o : StM A).
Proof. destruct o; [apply via_ops_ret|done]. Qed.

Lemma via_ops_bind {A B} (m : StM A) (k : A -> StM B) : via_ops m -> (forall a, via_ops (k a)) -> via_ops (go_bind m k).
Proof.
  intros Hm Hk s. unfold go_bind. specialize (Hm s). destruct (m s) as [[[a s1] o1]|]; [|done]. destruct Hm as [l1 H1].
  specialize (Hk a s1). destruct (k a s1) as [[[b s2] o2]|]; [|done]. destruct Hk as [l2 H2].
  exists (l1 ++ l2). by eapply run_ops_app.
Qed.

Lemma via_ops_op (op : state_op) : via_ops (run_op op : StM unit).
Proof.
  intros s. destruct (run_op op s) as [[[[] s'] o]|] eqn:E; [|done]. exists [op]. cbn [run_ops]. unfold go_bind. rewrite E.
  by destruct o as [|[]].
Qed.

Lemma via_ops_discard {A} (m : StM A) (op : state_op) : run_op op = discard m -> via_ops m.
Proof.
  intros Hop s. destruct (m s) as [[[a s'] o]|] eqn:E; [|done]. exists [op]. cbn [run_ops]. unfold go_bind. rewrite Hop.
  unfold discard, go_bind. rewrite E. by destruct o as [|[]].
Qed.

Lemma GetData_via a k : via_ops (GetData a k : StM bytes).
Proof. by apply (via_ops_discard _ (OpGetData a k false)). Qed.
Lemma SetData_via a k v : via_ops (SetData a k v : StM unit).
Proof. apply (via_ops_op (OpSetData a k v)). Qed.
Lemma CreateAccount_via a : via_ops (CreateAccount a : StM unit).
Proof. apply (via_ops_op (OpCreateAccount a)). Qed.
Lemma AddBalance_via a v : via_ops (AddBalance a v : StM unit).
Proof. apply (via_ops_op (OpAddBalance a v)). Qed.
Lemma SubBalance_via a v : via_ops (SubBalance a v : StM unit).
Proof. apply (via_ops_op (OpSubBalance a v)). Qed.
Hint Resolve via_ops_ret via_ops_panic via_ops_deref GetData_via SetData_via CreateAccount_via AddBalance_via SubBalance_via : seele.

Ltac via := repeat (first [ solve [eauto with seele] | apply via_ops_bind; [|intros ?] | case_match ]).

Lemma domain_via input tx header : via_ops (createDomainName input tx header : StM _) /\ via_ops (getDomainNameOwner input tx header : StM _).
Proof. split; unfold createDomainName, getDomainNameOwner, sys_error; via. Qed.

Lemma subchain_via input tx header : via_ops (registerSubChain input tx header : StM _) /\ via_ops (querySubChain input tx header : StM _).
Proof. split; unfold registerSubChain, querySubChain, sys_error; via. Qed.

Lemma htlc_via input tx header :
  via_ops (newHTLC input tx header : StM _) /\ via_ops (withdraw input tx header : StM _)
  /\ via_ops (refund input tx header : StM _) /\ via_ops (getContract input tx header : StM _).
Proof.
  unfold newHTLC, withdraw, refund, getContract, haveContract, withdrawable, refundable, block_time, sys_error. split_and!; via.
Qed.

Lemma masternode_via input tx header :
  via_ops (deposit input tx header : StM _) /\ via_ops (queryMasternodeCmd input tx header : StM _)
  /\ via_ops (recallCmd input tx header : StM _) /\ via_ops (quitCmd input tx header : StM _).
Proof. unfold deposit, queryMasternodeCmd, recallCmd, quitCmd, QueryAddress, getInfo, saveInfo, sys_error. split_and!; via. Qed.

(** What the processing of transactions expects of the contracts. *)
Lemma system_handlers_ops (relay : contract) :
  (forall b info input tx header, relay !! b = Some info -> via_ops (cmdHandler info input tx header)) ->
  forall a c b info input tx header,
    system_contracts relay a = Some c -> c !! b = Some info -> via_ops (cmdHandler info input tx header).
Proof.
  intros Hrelay a c b info input tx header Hc Hb.
  pose proof (domain_via input tx header). pose proof (subchain_via input tx header).
  pose proof (htlc_via input tx header). pose proof (masternode_via input tx header).
  unfold contract in Hb. unfold system_contracts in Hc. repeat case_match; try done; injection Hc as <-; try exact (Hrelay b _ _ _ _ Hb).
  all: unfold domainNameCommands, subChainCommands, htlcCommands, masternodeCommands in Hb;
    repeat (apply lookup_insert_Some in Hb as [[_ <-]|[_ Hb]]; [cbn [cmdHandler]; tauto|]); by rewrite lookup_empty in Hb.
Qed.
End via.

(** ** The start of a call *)

Section start.
Context {T : Type} {HT : TrieOps T} {HV : @VmOps T HT}.
Implicit Types (s : Statedb T).

Lemma balance_pos s a : st_ok s -> 0 <= balance s a.
Proof.
  intros Hs. unfold balance. destruct (find_object s a) as [o|] eqn:E; [|done].
  by destruct (find_object_fields _ _ _ Hs E) as (_ & _ & ? & _).
Qed.

Lemma count_tx_sees a b n s : st_ok s -> wp (count_tx a b n) s (fun _ s' _ => sees s s' (balance s) (data s)).
Proof.
  intros Hs. unfold count_tx. apply wp_bind. eapply wp_mono; [by apply reader_sees|]. intros r s1 o1 [_ H1].
  eapply wp_mono; [apply SetNonce2_sees, H1|]. intros u s2 o2 H2. destruct (sees_trans _ _ _ _ _ _ _ H1 H2) as [? ? ? Hb Hd].
  constructor; try done; [intros x; rewrite Hb; apply H1|intros x k; rewrite Hd; apply H1].
Qed.

(** A step that returns can be left out in front. *)
Lemma go_bind_run {A B} (m : GoM (Statedb T) Empty_set A) (k : A -> GoM (Statedb T) Empty_set B) s a s' :
  m s = Some (a, s', []) -> go_bind m k s = k a s'.
Proof. intros E. unfold go_bind. rewrite E. by destruct (k a s') as [[[b s2] o2]|]. Qed.

(** What does not change the readings can come first. *)
Lemma sees_step {A} (m : GoM (Statedb T) Empty_set A) s s0 (P : A -> Prop) :
  sees s0 s (balance s0) (data s0) -> wp m s (fun a s' _ => P a /\ sees s s' (balance s) (data s)) ->
  exists a s', P a /\ sees s0 s' (balance s0) (data s0) /\ m s = Some (a, s', []).
Proof.
  intros H0 Hm. destruct (wp_no_output _ _ _ Hm) as (a & s' & E & Ha & H1). exists a, s'. split; [done|].
  split; [|done]. destruct (sees_trans _ _ _ _ _ _ _ H0 H1) as [? ? ? Hb Hd].
  constructor; try done; [intros x; rewrite Hb; apply H0|intros x k'; rewrite Hd; apply H0].
Qed.

(** The balances after the amount was transferred. *)
Definition transferred_to (B : Address -> Z) (from to : Address) (v : Z) : Address -> Z :=
  set_balance (set_balance B from (B from - v)) to (B to + v).

(** What is left of the processing when the amount was transferred. *)
Definition system_call (ctx : Context) (c : contract) (gas : Z) : GoM (Statedb T) Empty_set (option Receipt * option SvmError) :=
  let d := tx_Data (c_Tx ctx) in
  let receipt := set_usedGas (new_receipt (c_Tx ctx)) (RequiredGas c (td_Payload d)) in
  if gas <? RequiredGas c (td_Payload d) then go_ret (Some receipt, Some ErrOutOfGas)
  else
    res <- Run c (td_Payload d) (c_Tx ctx) (c_BlockHeader ctx) ;;
    let '(result, err) := res in go_ret (Some (set_result receipt result), err).

(** A contract of the system runs after the amount was transferred to it. *)
Lemma processSystemContract_runs ctx c snapshot gas s :
  let d := tx_Data (c_Tx ctx) in
  st_ok s -> has_account s (td_To d) -> has_account s (td_From d) -> td_From d <> td_To d ->
  0 <= td_Amount d <= balance s (td_From d) ->
  exists s1, sees s s1 (transferred_to (balance s) (td_From d) (td_To d) (td_Amount d)) (data s)
    /\ processSystemContract ctx c snapshot gas s = system_call ctx c gas s1.
Proof.
  intros d Hs Hto Hfrom Hne [Hpos Hbal]. unfold processSystemContract. fold d.
  destruct (sees_step (Exist (td_To d)) s s (fun e => e = true)) as (e & s1 & -> & H1 & E1); [by apply sees_refl| |].
  { eapply wp_mono; [by apply reader_sees|]. intros r s1 o1 [-> H1]. split; [|exact H1]. by destruct Hto as [o ->]. }
  rewrite (go_bind_run _ _ _ _ _ E1). cbn iota. rewrite (go_bind_run _ _ s1 tt s1) by done.
  destruct (sees_step (count_tx (td_From d) (td_From d) (u64 (td_AccountNonce d + 1))) s1 s (fun _ => True)) as (u3 & s3 & _ & H3 & E3); [exact H1| |].
  { eapply wp_mono; [apply count_tx_sees, H1|]. done. }
  rewrite (go_bind_run _ _ _ _ _ E3).
  destruct (sees_step (GetNonce (td_To d)) s3 s (fun _ => True)) as (n & s4 & _ & H4 & E4); [exact H3| |].
  { eapply wp_mono; [apply reader_sees, H3|]. by intros r s' o [_ ?]. }
  rewrite (go_bind_run _ _ _ _ _ E4).
  destruct (sees_step (count_tx (td_From d) (td_To d) n) s4 s (fun _ => True)) as (u5 & s5 & _ & H5 & E5); [exact H4| |].
  { eapply wp_mono; [apply count_tx_sees, H4|]. done. }
  rewrite (go_bind_run _ _ _ _ _ E5).
  destruct (sees_step (GetBalance (td_From d)) s5 s (fun b => b = balance s (td_From d))) as (b & s6 & -> & H6 & E6); [exact H5| |].
  { eapply wp_mono; [apply GetBalance_sees, H5|]. intros r s' o [-> ?]. split; [apply H5|done]. }
  rewrite (go_bind_run _ _ _ _ _ E6).
  rewrite (proj2 (Z.ltb_ge _ _) Hbal).
  destruct (wp_no_output _ _ _ (SubBalance_sees (td_From d) (td_Amount d) s6 (se_ok _ _ _ _ H6) (proj2 (se_account _ _ _ _ H6 _) Hfrom)
    ltac:(rewrite (se_balance _ _ _ _ H6); lia))) as (u7 & s7 & E7 & H7). rewrite (go_bind_run _ _ _ _ _ E7).
  pose proof (sees_trans _ _ _ _ _ _ _ H6 H7) as H67.
  assert (Ebal : balance s7 (td_To d) = balance s (td_To d)).
  { rewrite (se_balance _ _ _ _ H7). unfold set_balance. rewrite bool_decide_false by done. apply H6. }
  destruct (wp_no_output _ _ _ (AddBalance_sees (td_To d) (td_Amount d) s7 (se_ok _ _ _ _ H7) (proj2 (se_account _ _ _ _ H67 _) Hto)
    ltac:(rewrite Ebal; pose proof (balance_pos s (td_To d) Hs); lia))) as (u8 & s8 & E8 & H8). rewrite (go_bind_run _ _ _ _ _ E8).
  exists s8. split; [|done]. destruct (sees_trans _ _ _ _ _ _ _ H67 H8) as [? ? ? Hb Hd]. constructor; try done.
  - intros x. rewrite Hb. unfold transferred_to, set_balance. rewrite Ebal, (se_balance _ _ _ _ H7). unfold set_balance.
    by rewrite !(se_balance _ _ _ _ H6).
  - intros x k. rewrite Hd, (se_data _ _ _ _ H7). apply H6.
Qed.

Lemma processSystemContract_spec ctx c snapshot gas s (Q : bytes * option SvmError -> Statedb T -> Prop) :
  let d := tx_Data (c_Tx ctx) in
  st_ok s -> has_account s (td_To d) -> has_account s (td_From d) -> td_From d <> td_To d ->
  0 <= td_Amount d <= balance s (td_From d) ->
  (forall s1, sees s s1 (transferred_to (balance s) (td_From d) (td_To d) (td_Amount d)) (data s) ->
    wp (Run c (td_Payload d) (c_Tx ctx) (c_BlockHeader ctx)) s1 (fun r s' _ => Q r s')) ->
  wp (processSystemContract ctx c snapshot gas) s (fun r s' _ =>
    if gas <? RequiredGas c (td_Payload d) then r.2 = Some ErrOutOfGas else exists v, Q (v, r.2) s').
Proof.
  intros d Hs Hto Hfrom Hne Hamt Hrun. destruct (processSystemContract_runs ctx c snapshot gas s Hs Hto Hfrom Hne Hamt) as (s1 & H1 & E).
  unfold wp. rewrite E. fold d. specialize (Hrun s1 H1). unfold system_call. fold d. destruct (_ <? _); [done|].
  unfold wp, go_bind in *. destruct (Run _ _ _ _ s1) as [[[[v err] s9] o9]|]; [|done]. by exists v.
Qed.
End start.
