(* ===== verification/SysSpec.v ===== *)
(** * Names, locks and deposits

    What the system contracts promise: the registry of domain names is a map in which a
    name is written once; the hash time locks are an escrow that is never short of money
    and pays every lock out at most once; and what goes wrong with the deposits of the
    master nodes. *)

From Stdlib Require Import ZArith Lia.
From S2P Require Import Prelude Common BftHeader StateDb StateDbProofs Svm SvmProofs SysContracts SysProofs.

Open Scope Z_scope.
Open Scope go_scope.

(** [strings.ToLower] on ASCII; values are decoded as they were encoded. *)
Definition lower_byte (c : Z) : Z := if (65 <=? c) && (c <=? 90) then c + 32 else c.

Definition ascii (b : bytes) : Prop := Forall (fun c => 0 <= c < 128) b.

Class SysLaws `{SysEnv} := {
  ToLower_ascii : forall b, ascii b -> ToLower b = map lower_byte b;
  htlc_roundtrip : forall h, exists b, htlc_json h = Some b /\ b <> [] /\ htlc_of b = Some h;
  masternode_roundtrip : forall i, exists b, masternode_bytes i = Some b /\ b <> [] /\ masternode_of b = Some i
}.

(** ** Domain names *)

(** The registry: a name, with the key it is kept under, has the owner that created it first. *)
Definition registry_call `{SysEnv} (names : gmap bytes Address) (input : bytes) (sender : Address)
    : gmap bytes Address * (bytes * option SvmError) :=
  match input with
  | [] => (names, ([], Some errInvalidCommand))
  | cmd :: name =>
      if cmd =? CmdCreateDomainName then
        match ValidateDomainName (ToLower name), names !! BytesToHash name with
        | Some err, _ => (names, ([], Some (errSystem err)))
        | None, Some _ => (names, ([], Some (errSystem errExists)))
        | None, None => (<[BytesToHash name := sender]> names, (sender, None))
        end
      else if cmd =? CmdGetDomainNameOwner then
        match ValidateDomainName (ToLower name), names !! BytesToHash name with
        | Some err, _ => (names, ([], Some (errSystem err)))
        | None, Some owner => (names, (owner, None))
        | None, None => (names, ([], Some (errSystem errNotFound)))
        end
      else (names, ([], Some errInvalidCommand))
  end.

Fixpoint registry_calls `{SysEnv} (names : gmap bytes Address) (calls : list (bytes * Transaction * BlockHeader))
    : list (bytes * option SvmError) :=
  match calls with
  | [] => []
  | (input, tx, _) :: calls' =>
      let '(names, r) := registry_call names input (td_From (tx_Data tx)) in r :: registry_calls names calls'
  end.

(** *** Names and keys *)

Lemma pad_inj n m (a b : bytes) x y : replicate n 0 ++ x :: a = replicate m 0 ++ y :: b -> x <> 0 -> y <> 0 -> x :: a = y :: b.
Proof.
  revert m. induction n as [|n IH]; intros [|m]; cbn; intros E Hx Hy; [done|injection E as -> _; done|injection E as <- _; done|].
  injection E as E. by eapply IH.
Qed.

Definition valid_name `{SysEnv} (name : bytes) : Prop := ValidateDomainName (ToLower name) = None.

Lemma valid_name_key `{SysLaws} name : ascii name -> valid_name name -> exists x name', name = x :: name' /\ x <> 0 /\ BytesToHash name = replicate (HashLength - length name) 0 ++ name.
Proof.
  intros Ha Hv. unfold valid_name in Hv. rewrite ToLower_ascii in Hv by done. unfold ValidateDomainName in Hv. rewrite length_map in Hv.
  destruct name as [|x name']; [done|]. exists x, name'. split; [done|].
  destruct (length (x :: name') =? 0)%nat; [done|]. destruct (Nat.ltb_spec maxDomainNameLength (length (x :: name'))) as [|Hl]; [done|].
  destruct (forallb name_byte (map lower_byte (x :: name'))) eqn:Hf; [|done]. split.
  - intros ->. done.
  - unfold BytesToHash, right_align, maxDomainNameLength in *. case_decide; [lia|done].
Qed.

Lemma valid_key_inj `{SysLaws} a b : ascii a -> ascii b -> valid_name a -> valid_name b -> BytesToHash a = BytesToHash b -> a = b.
Proof.
  intros Ha Hb (x & a' & -> & Hx & ->)%valid_name_key (y & b' & -> & Hy & ->)%valid_name_key; [|done..]. intros E. by eapply pad_inj.
Qed.

(** *** The registry is what the contract does *)

Section domain.
Context {T : Type} {HT : TrieOps T} {HS : SysEnv} {HL : SysLaws}.
Implicit Types (s : Statedb T) (names : gmap bytes Address).

Abbreviation StM A := (GoM (Statedb T) Empty_set A).
Abbreviation Domain := DomainNameContractAddress.

(** The data of the contract are the keys of the names with their owners. *)
Record registered s names : Prop := {
  rg_ok : st_ok s;
  rg_account : has_account s Domain;
  rg_reads : reads_ok (sd_trie s);
  rg_owner : forall key owner, names !! key = Some owner -> owner <> [];
  rg_data : forall key, data s Domain key = default [] (names !! key)
}.

Lemma registered_sees s s' names : registered s names -> sees s s' (balance s) (data s) -> registered s' names.
Proof.
  intros [Hok Ha Hr Hv Hd] [? Ht Hx _ Hdd]. constructor; [done|by apply Hx|by rewrite Ht|done|]. intros key. rewrite Hdd. by apply Hd.
Qed.

(** What is read for a key. *)
Lemma owner_read s names key : registered s names ->
  wp (GetData Domain key) s (fun r s' _ => r = default [] (names !! key) /\ registered s' names).
Proof.
  intros Hg. eapply wp_mono; [apply GetData_sees, Hg|]. intros r s' out [-> Hs]. split; [by apply Hg|by eapply registered_sees].
Qed.

Lemma owner_length names name s : registered s names -> (length (default [] (names !! name)) =? 0)%nat = bool_decide (names !! name = None).
Proof.
  intros Hg. destruct (names !! name) as [owner|] eqn:E; [|done]. pose proof (rg_owner _ _ Hg _ _ E) as Ho.
  rewrite bool_decide_false by done. by destruct owner.
Qed.

Lemma registered_insert s s' names key owner : registered s names -> owner <> [] ->
  sees s s' (balance s) (set_data (data s) Domain key owner) -> registered s' (<[key := owner]> names).
Proof.
  intros [Hok Ha Hr Hv Hd] Ho [? Ht Hx _ Hdd]. constructor; [done|by apply Hx|by rewrite Ht| |].
  - intros n o [[<- <-]|[_ E]]%lookup_insert_Some; [done|by eapply Hv].
  - intros n. rewrite Hdd. unfold set_data. destruct (decide (n = key)) as [->|Hne].
    + by rewrite lookup_insert_eq, bool_decide_true.
    + rewrite lookup_insert_ne by done. rewrite bool_decide_false; [by apply Hd|]. by intros [_ E].
Qed.

Lemma domain_call_spec s names input tx header :
  registered s names -> td_From (tx_Data tx) <> [] ->
  wp (Run domainNameCommands input tx header) s (fun r s' _ =>
    r = (registry_call names input (td_From (tx_Data tx))).2 /\ registered s' (registry_call names input (td_From (tx_Data tx))).1).
Proof.
  intros Hg Hf. destruct input as [|cmd name]; [by apply wp_ret|]. unfold Run, registry_call, domainNameCommands, contract.
  destruct (Z.eqb_spec cmd CmdCreateDomainName) as [->|Hc0].
  - rewrite lookup_insert_eq. cbn [cmdHandler]. unfold createDomainName, domainNameToKey.
    destruct (ValidateDomainName (ToLower name)) as [err|] eqn:Hv; [by apply wp_ret|].
    apply wp_bind. eapply wp_mono; [by apply CreateAccount_sees; apply Hg|]. intros u s1 out Hs1. pose proof (registered_sees _ _ _ Hg Hs1) as Hg1.
    apply wp_bind. eapply wp_mono; [by apply (owner_read s1 names)|]. intros r s2 out2 [-> Hg2]. cbn beta.
    pose proof (owner_length names (BytesToHash name) s2 Hg2) as Hl. destruct (names !! BytesToHash name) as [owner|] eqn:E; cbn [default] in *.
    + rewrite bool_decide_false in Hl by done. destruct owner; [done|]. by apply wp_ret.
    + cbn. apply wp_bind. eapply wp_mono; [apply SetData_sees; apply Hg2|]. intros u3 s3 out3 Hs3. apply wp_ret. split; [done|].
      by eapply registered_insert.
  - rewrite lookup_insert_ne by done. destruct (Z.eqb_spec cmd CmdGetDomainNameOwner) as [->|Hc1].
    + rewrite lookup_insert_eq. cbn [cmdHandler]. unfold getDomainNameOwner, domainNameToKey.
      destruct (ValidateDomainName (ToLower name)) as [err|] eqn:Hv; [by apply wp_ret|].
      apply wp_bind. eapply wp_mono; [by apply (owner_read s names)|]. intros r s2 out2 [-> Hg2]. rewrite (owner_length _ _ _ Hg2).
      destruct (names !! BytesToHash name) as [owner|]; by apply wp_ret.
    + rewrite lookup_insert_ne, lookup_empty by done. by apply wp_ret.
Qed.

Fixpoint run_calls (c : contract) (calls : list (bytes * Transaction * BlockHeader)) : StM (list (bytes * option SvmError)) :=
  match calls with
  | [] => go_ret []
  | (input, tx, header) :: calls' => r <- Run c input tx header ;; rs <- run_calls c calls' ;; go_ret (r :: rs)
  end.


(** Names outside ASCII: the lower case of the Kelvin sign, three bytes in UTF-8, is the letter
    "k". A name can so be longer than its lower case, which is the one that is measured, and two
    names that differ in their first letter have the same key. *)
Lemma long_names_share_a_key (rest : bytes) :
  let kelvin := [226; 132; 170] in
  (forall c, ToLower (c :: kelvin ++ rest) = lower_byte c :: 107 :: map lower_byte rest) ->
  length rest = 30%nat -> forallb name_byte (map lower_byte rest) = true ->
  let a := 97 :: kelvin ++ rest in let b := 98 :: kelvin ++ rest in
  a <> b /\ valid_name a /\ valid_name b /\ BytesToHash a = BytesToHash b.
Proof.
  intros kelvin Hlow Hlen Hrest a b. unfold valid_name, a, b. rewrite !Hlow. unfold ValidateDomainName.
  cbn [length forallb]. rewrite length_map, Hlen, Hrest. split; [done|]. do 2 (split; [reflexivity|]).
  unfold BytesToHash, right_align. cbn [length app kelvin]. rewrite Hlen. reflexivity.
Qed.
End domain.

(** ** Hash time locks *)

(** An escrow: locks by the hash of their transaction. A lock is open until it is paid. *)
Abbreviation Locks := (gmap Hash htlc).

Definition is_open (h : htlc) : bool := negb (ht_Withdrawed h) && negb (ht_Refunded h).

Definition lock_amount (h : htlc) : Z := from_option (fun tx => td_Amount (tx_Data tx)) 0 (ht_Tx h).

Definition owed (h : htlc) : Z := if is_open h then lock_amount h else 0.

Definition locked (locks : Locks) : Z := map_fold (fun _ h n => owed h + n) 0 locks.

Definition withdrawn (h : htlc) (preimage : bytes) : htlc := mkHtlc (ht_Tx h) (ht_Lock h) (ht_Refunded h) true preimage.
Definition refunded (h : htlc) : htlc := mkHtlc (ht_Tx h) (ht_Lock h) true (ht_Withdrawed h) (ht_Preimage h).

(** A call of a transaction at a time: the locks afterwards and what is paid to the
    sender, or nothing when the call is refused. *)
Definition escrow_call `{SysEnv} (tx : Transaction) (now : Z) (locks : Locks) (input : bytes) : option (Locks * Z) :=
  let d := tx_Data tx in
  match input with
  | [] => None
  | cmd :: arg =>
      if cmd =? CmdNewContract then
        lock ← lock_of arg;
        if (0 <? td_Amount d) && (now <? hl_TimeLock lock)
        then Some (<[tx_Hash tx := mkHtlc (Some tx) lock false false []]> locks, 0) else None
      else if cmd =? CmdWithdraw then
        w ← withdrawing_of arg; h ← locks !! wd_Hash w;
        if is_open h && bytes_eqb (hl_HashLock (ht_Lock h)) (Sha256Hash (wd_Preimage w))
           && bytes_eqb (td_From d) (hl_To (ht_Lock h)) && (now <? hl_TimeLock (ht_Lock h))
        then Some (<[wd_Hash w := withdrawn h (wd_Preimage w)]> locks, lock_amount h) else None
      else if cmd =? CmdRefund then
        h ← locks !! BytesToHash arg; owner ← ht_Tx h;
        if is_open h && bytes_eqb (td_From d) (td_From (tx_Data owner)) && (hl_TimeLock (ht_Lock h) <=? now)
        then Some (<[BytesToHash arg := refunded h]> locks, lock_amount h) else None
      else if cmd =? CmdGetContract then _ ← locks !! BytesToHash arg; Some (locks, 0)
      else None
  end.

Lemma locked_insert locks hash h : locks !! hash = None -> locked (<[hash := h]> locks) = owed h + locked locks.
Proof. intros Hn. unfold locked. rewrite map_fold_insert_L; [done| |done]. intros. lia. Qed.

Lemma locked_delete locks hash h : locks !! hash = Some h -> locked locks = owed h + locked (delete hash locks).
Proof. intros Hh. unfold locked. rewrite (map_fold_delete_L _ _ hash h); [done| |done]. intros. lia. Qed.

Lemma locked_replace locks hash h h' : locks !! hash = Some h -> locked (<[hash := h']> locks) = locked locks - owed h + owed h'.
Proof.
  intros Hh. rewrite (locked_delete locks hash h Hh), <-insert_delete_eq, locked_insert by apply lookup_delete_eq. lia.
Qed.

Section htlc.
Context {T : Type} {HT : TrieOps T} {HV : @VmOps T HT} {HS : SysEnv} {HL : SysLaws}.
Implicit Types (s : Statedb T) (locks : Locks).

Abbreviation StM A := (GoM (Statedb T) Empty_set A).
Abbreviation Htlc := HashTimeLockContractAddress.

(** A lock as it is kept: a refund is only given when the time is over. *)
Record lock_ok (now : Z) (hash : Hash) (h : htlc) : Prop := {
  lk_tx : exists tx, ht_Tx h = Some tx /\ tx_Hash tx = hash /\ 0 < td_Amount (tx_Data tx);
  lk_time : ht_Refunded h = true -> hl_TimeLock (ht_Lock h) <= now
}.

(** The data of the contract are the locks, and it has the money it owes. *)
Record escrow s locks now : Prop := {
  es_ok : st_ok s;
  es_account : has_account s Htlc;
  es_reads : reads_ok (sd_trie s);
  es_locks : forall hash h, locks !! hash = Some h -> lock_ok now hash h;
  es_data : forall hash, data s Htlc hash = default [] (locks !! hash ≫= htlc_json);
  es_solvent : locked locks <= balance s Htlc
}.

Lemma lock_json h : exists b, htlc_json h = Some b /\ b <> [] /\ htlc_of b = Some h.
Proof. apply htlc_roundtrip. Qed.

(** [haveContract] followed by the decoding finds the lock. *)
Lemma haveContract_spec s locks now hash : escrow s locks now ->
  wp (haveContract hash) s (fun r s' _ => sees s s' (balance s) (data s) /\
    match locks !! hash with
    | Some h => exists b, r = inl b /\ htlc_of b = Some h
    | None => r = inr errNotFound
    end).
Proof.
  intros He. unfold haveContract. apply wp_bind. eapply wp_mono; [apply GetData_sees, He|]. intros r s' out [-> Hs]. apply wp_ret.
  split; [done|]. rewrite (es_data _ _ _ He). destruct (locks !! hash) as [h|]; [|done]. cbn.
  destruct (lock_json h) as (b & -> & Hb & Hof). cbn. exists b. destruct b; [done|]. done.
Qed.

Lemma owed_nonneg now hash h : lock_ok now hash h -> 0 <= owed h.
Proof. intros [(tx & E & _ & Ha) _]. unfold owed, lock_amount. rewrite E. cbn. destruct (is_open h); lia. Qed.

Lemma locked_nonneg now locks : (forall hash h, locks !! hash = Some h -> lock_ok now hash h) -> 0 <= locked locks.
Proof.
  induction locks as [|hash h locks Hn IH] using map_ind; intros Hall; [done|]. rewrite locked_insert by done.
  pose proof (owed_nonneg _ _ _ (Hall hash h ltac:(apply lookup_insert_eq))). enough (0 <= locked locks) by lia. apply IH.
  intros hash' h' Hl. apply Hall. rewrite lookup_insert_ne; congruence.
Qed.

Lemma owed_locked now locks hash h : (forall hash h, locks !! hash = Some h -> lock_ok now hash h) -> locks !! hash = Some h ->
  owed h <= locked locks.
Proof.
  intros Hall Hh. rewrite (locked_delete _ _ _ Hh). enough (0 <= locked (delete hash locks)) by lia.
  apply (locked_nonneg now). intros k x [_ Hx]%lookup_delete_Some. by apply Hall.
Qed.

Lemma lock_ok_later now now' hash h : now <= now' -> lock_ok now hash h -> lock_ok now' hash h.
Proof. intros Hle [? Ht]. constructor; [done|]. intros Hr. specialize (Ht Hr). lia. Qed.

(** What the escrow is after the data of a lock and the balances have changed. *)
Lemma escrow_update s s' locks now now' hash h' b B :
  escrow s locks now -> now <= now' -> lock_ok now' hash h' -> htlc_json h' = Some b ->
  sees s s' B (set_data (data s) Htlc hash b) -> locked (<[hash := h']> locks) <= B Htlc ->
  escrow s' (<[hash := h']> locks) now'.
Proof.
  intros [Hok Ha Hr Hl Hd Hb] Hle Hk Hj [? Ht Hx Hbal Hdd] Hm. constructor; [done|by apply Hx|by rewrite Ht| | |by rewrite Hbal].
  - intros k x [[<- <-]|[_ E]]%lookup_insert_Some; [done|]. eapply lock_ok_later; [done|by apply Hl].
  - intros k. rewrite Hdd. unfold set_data. destruct (decide (k = hash)) as [->|Hne].
    + rewrite lookup_insert_eq, bool_decide_true by done. cbn. by rewrite Hj.
    + rewrite lookup_insert_ne, bool_decide_false by naive_solver. apply Hd.
Qed.

Definition paid (B : Address -> Z) (to : Address) (p : Z) (x : Address) : Z :=
  B x + (if bool_decide (x = to) then p else 0) - (if bool_decide (x = Htlc) then p else 0).

(** A lock is written as paid, and its amount leaves the contract. *)
Lemma pay_out s locks now now' hash h h' b to :
  escrow s locks now -> now <= now' -> locks !! hash = Some h -> is_open h = true -> owed h' = 0 -> lock_ok now' hash h' ->
  htlc_json h' = Some b -> has_account s to -> to <> Htlc ->
  wp (SetData Htlc hash b ;;; SubBalance Htlc (lock_amount h) ;;; AddBalance to (lock_amount h) ;;; go_ret (b, @None SvmError)) s
    (fun r s' _ => r = (b, None) /\ escrow s' (<[hash := h']> locks) now' /\ forall x, balance s' x = paid (balance s) to (lock_amount h) x).
Proof.
  intros He Hle Hh Ho Hz Hk Hj Hto Hne. pose proof (owed_locked now locks hash h (es_locks _ _ _ He) Hh) as Howed.
  pose proof (owed_nonneg _ _ _ (es_locks _ _ _ He _ _ Hh)) as Hpos. unfold owed in Howed, Hpos. rewrite Ho in Howed, Hpos.
  pose proof (es_solvent _ _ _ He) as Hsol.
  apply wp_bind. eapply wp_mono; [apply SetData_sees; apply He|]. intros u1 s1 o1 H1.
  apply wp_bind. eapply wp_mono; [apply SubBalance_sees; [apply H1|apply H1, He|rewrite (se_balance _ _ _ _ H1); lia]|]. intros u2 s2 o2 H2.
  pose proof (sees_trans _ _ _ _ _ _ _ H1 H2) as H12.
  assert (Hto2 : balance s2 to = balance s to).
  { rewrite (se_balance _ _ _ _ H2). unfold set_balance. rewrite bool_decide_false by done. apply H1. }
  assert (0 <= balance s to) by (unfold balance; destruct (find_object s to) as [o|] eqn:E; [|done]; by destruct (find_object_fields _ _ _ (es_ok _ _ _ He) E) as (_ & _ & ? & _)).
  apply wp_bind. eapply wp_mono; [apply AddBalance_sees; [apply H2|by apply H12|rewrite Hto2; lia]|]. intros u3 s3 o3 H3.
  assert (H13 : sees s s3 (paid (balance s) to (lock_amount h)) (set_data (data s) Htlc hash b)).
  { destruct (sees_trans _ _ _ _ _ _ _ H12 H3) as [? ? ? Hb Hd]. constructor; [done|done|done| |].
    - intros x. rewrite Hb. unfold set_balance. rewrite Hto2, (se_balance _ _ _ _ H2). unfold set_balance, paid.
      rewrite !(se_balance _ _ _ _ H1). repeat case_bool_decide; subst; try done; lia.
    - intros x k. rewrite Hd, (se_data _ _ _ _ H2). apply H1. }
  apply wp_ret. split; [done|]. split; [|apply H13]. eapply escrow_update; [exact He|done|done|done|exact H13|].
  rewrite (locked_replace _ _ _ _ Hh), Hz. unfold owed, paid. rewrite Ho, bool_decide_false, bool_decide_true by done. lia.
Qed.

(** *** The commands *)

Section calls.
Context (tx : Transaction) (header : BlockHeader) (time now0 : Z) (locks : Locks).
Abbreviation d := (tx_Data tx).
Abbreviation now := (i64 time).
Context (Htime : h_CreateTimestamp header = Some time) (Hlater : now0 <= now) (Hto : td_To d = Htlc)
  (Hfrom : td_From d <> Htlc) (Hnew : locks !! tx_Hash tx = None).

(** The state after the amount was transferred. *)
Record called s : Prop := {
  cl_escrow : escrow s locks now0;
  cl_amount : locked locks + td_Amount d <= balance s Htlc;
  cl_sender : has_account s (td_From d)
}.

Definition settles (call : option (Locks * Z)) s (r : bytes * option SvmError) s' : Prop :=
  match call with
  | Some (locks', p) => r.2 = None /\ escrow s' locks' now /\ forall x, balance s' x = paid (balance s) (td_From d) p x
  | None => r.2 <> None
  end.

Lemma called_sees s s' : called s -> sees s s' (balance s) (data s) -> called s'.
Proof.
  intros [[Hok Ha Hr Hl Hd Hb] Hm Hs] [? Ht Hx Hbal Hdd]. constructor; [|by rewrite Hbal|by apply Hx].
  constructor; [done|by apply Hx|by rewrite Ht|done|intros k; rewrite Hdd; apply Hd|by rewrite Hbal].
Qed.

Lemma block_time_spec s : block_time header s = Some (now, s, []).
Proof. unfold block_time. by rewrite Htime. Qed.

Lemma newHTLC_spec s input : called s ->
  wp (newHTLC input tx header) s (fun r s' _ => settles (escrow_call tx now locks (CmdNewContract :: input)) s r s').
Proof.
  intros [He Hm Hs]. unfold newHTLC, escrow_call. rewrite Z.eqb_refl. destruct (lock_of input) as [lock|]; [|done]. unfold validateAmount. cbn.
  destruct (Z.ltb_spec 0 (td_Amount d)) as [Hpos|]; [|done]. apply wp_bind. unfold wp. rewrite block_time_spec. unfold isFutureTimeLock.
  destruct (Z.ltb_spec now (hl_TimeLock lock)) as [Hfut|]; [|done]. cbn [negb andb].
  destruct (lock_json (mkHtlc (Some tx) lock false false [])) as (b & Hj & _ & _). rewrite Hj.
  apply wp_bind. eapply wp_mono; [apply CreateAccount_sees; apply He|]. intros u1 s1 o1 H1.
  apply wp_bind. eapply wp_mono; [apply SetData_sees; [apply H1|apply H1, He|rewrite (se_trie' _ _ _ _ H1); apply He]|]. intros u2 s2 o2 H2.
  apply wp_ret. split; [done|].
  assert (H12 : sees s s2 (balance s) (set_data (data s) Htlc (tx_Hash tx) b)).
  { destruct (sees_trans _ _ _ _ _ _ _ H1 H2) as [? ? ? Hb Hd]. constructor; [done|done|done| |].
    - intros x. rewrite Hb. apply H1.
    - intros x k. rewrite Hd. unfold set_data. repeat case_bool_decide; try done. apply H1. }
  split.
  - eapply escrow_update; [exact He|done| |exact Hj|exact H12|].
    + constructor; [|done]. exists tx. done.
    + rewrite locked_insert by done. change (td_Amount d + locked locks <= balance s Htlc). lia.
  - intros x. rewrite (se_balance _ _ _ _ H12). unfold paid. repeat case_bool_decide; lia.
Qed.

Lemma withdraw_spec s input : called s ->
  wp (withdraw input tx header) s (fun r s' _ => settles (escrow_call tx now locks (CmdWithdraw :: input)) s r s').
Proof.
  intros Hc. unfold withdraw, escrow_call. cbn [Z.eqb CmdWithdraw CmdNewContract Pos.eqb]. destruct (withdrawing_of input) as [w|]; [|done]. cbn [mbind option_bind].
  apply wp_bind. eapply wp_mono; [apply (haveContract_spec s locks now0), Hc|]. intros r s1 o1 [H1 Hr].
  destruct (locks !! wd_Hash w) as [h|] eqn:Hh; [|by subst r]. destruct Hr as (b & -> & Hof). rewrite Hof. unfold hashLockMatches. cbn [mbind option_bind].
  destruct (bytes_eqb (hl_HashLock (ht_Lock h)) (Sha256Hash (wd_Preimage w))); [|by rewrite andb_false_r].
  unfold withdrawable, Address_Equal. destruct (bytes_eqb (td_From d) (hl_To (ht_Lock h))) eqn:Hrecv; [|by rewrite andb_false_r].
  apply bool_decide_eq_true in Hrecv. cbn [negb]. apply wp_bind, wp_bind. unfold wp. rewrite block_time_spec. unfold isFutureTimeLock.
  destruct (Z.ltb_spec now (hl_TimeLock (ht_Lock h))) as [Hfut|]; [|by rewrite andb_false_r]. cbn [negb]. unfold is_open at 1.
  destruct (ht_Withdrawed h) eqn:Hw; [done|]. apply wp_ret.
  destruct (lock_json (withdrawn h (wd_Preimage w))) as (b' & Hj & _ & _). unfold withdrawn in Hj. rewrite Hj. cbn [app].
  pose proof (called_sees _ _ Hc H1) as [He1 _ Hs1]. pose proof (es_locks _ _ _ He1 _ _ Hh) as [(ltx & Etx & Ehash & Hpos) Href].
  assert (Hr : ht_Refunded h = false) by (destruct (ht_Refunded h); [specialize (Href eq_refl); lia|done]). rewrite Hr. cbn [negb andb].
  rewrite Etx. apply wp_bind, wp_ret. rewrite Ehash, Hto, <-Hrecv.
  replace (td_Amount (tx_Data ltx)) with (lock_amount h) by (unfold lock_amount; by rewrite Etx).
  eapply wp_mono; [apply (pay_out s1 locks now0 now (wd_Hash w) h (withdrawn h (wd_Preimage w)) b' (td_From d)); try done|].
  - unfold is_open. by rewrite Hw, Hr.
  - constructor; [by exists ltx|]. cbn. by rewrite Hr.
  - intros r s2 o2 (-> & He2 & Hb2). split; [done|]. split; [exact He2|].
    intros x. rewrite Hb2. unfold paid. by rewrite (se_balance _ _ _ _ H1).
Qed.

Lemma refund_spec s input : called s ->
  wp (refund input tx header) s (fun r s' _ => settles (escrow_call tx now locks (CmdRefund :: input)) s r s').
Proof.
  intros Hc. unfold refund, escrow_call. cbn [Z.eqb CmdWithdraw CmdNewContract CmdRefund Pos.eqb].
  apply wp_bind. eapply wp_mono; [apply (haveContract_spec s locks now0), Hc|]. intros r s1 o1 [H1 Hr].
  destruct (locks !! BytesToHash input) as [h|] eqn:Hh; [|by subst r]. destruct Hr as (b & -> & Hof). rewrite Hof. cbn [mbind option_bind].
  pose proof (called_sees _ _ Hc H1) as [He1 _ Hs1]. pose proof (es_locks _ _ _ He1 _ _ Hh) as [(ltx & Etx & Ehash & Hpos) Href].
  unfold refundable. rewrite Etx. cbn [mbind option_bind]. apply wp_bind, wp_bind, wp_ret. unfold Address_Equal.
  destruct (bytes_eqb (td_From d) (td_From (tx_Data ltx))) eqn:Hown; [|by rewrite andb_false_r]. apply bool_decide_eq_true in Hown. cbn [negb].
  apply wp_bind. unfold wp. rewrite block_time_spec. unfold isFutureTimeLock. rewrite Z.leb_antisym.
  destruct (Z.ltb_spec now (hl_TimeLock (ht_Lock h))) as [|Hover]; [by rewrite andb_false_r|]. unfold is_open at 1.
  destruct (ht_Withdrawed h) eqn:Hw; [done|]. destruct (ht_Refunded h) eqn:Hrf; [done|]. cbn [negb andb]. apply wp_ret.
  destruct (lock_json (refunded h)) as (b' & Hj & _ & _). unfold refunded in Hj. rewrite Etx, Hw in Hj. rewrite Hj. cbn [app].
  apply wp_bind, wp_ret. rewrite Ehash, Hto, <-Hown.
  replace (td_Amount (tx_Data ltx)) with (lock_amount h) by (unfold lock_amount; by rewrite Etx).
  eapply wp_mono; [apply (pay_out s1 locks now0 now (BytesToHash input) h (refunded h) b' (td_From d)); try done|].
  - unfold is_open. by rewrite Hw, Hrf.
  - unfold owed, is_open. cbn. by rewrite andb_false_r.
  - constructor; [by exists ltx|done].
  - unfold refunded. by rewrite Etx, Hw.
  - intros r s2 o2 (-> & He2 & Hb2). split; [done|]. split; [exact He2|].
    intros x. rewrite Hb2. unfold paid. by rewrite (se_balance _ _ _ _ H1).
Qed.

Lemma getContract_spec s input : called s ->
  wp (getContract input tx header) s (fun r s' _ => settles (escrow_call tx now locks (CmdGetContract :: input)) s r s').
Proof.
  intros Hc. unfold getContract, escrow_call. cbn [Z.eqb CmdWithdraw CmdNewContract CmdRefund CmdGetContract Pos.eqb].
  apply wp_bind. eapply wp_mono; [apply (haveContract_spec s locks now0), Hc|]. intros r s1 o1 [H1 Hr].
  destruct (locks !! BytesToHash input) as [h|] eqn:Hh; [|by subst r]. destruct Hr as (b & -> & _). cbn [mbind option_bind].
  pose proof (called_sees _ _ Hc H1) as [[? ? ? Hl ? ?] _ _].
  apply wp_ret. split; [done|]. split.
  - constructor; try done. intros k x Hk. eapply lock_ok_later; [done|]. by apply Hl.
  - intros x. rewrite (se_balance _ _ _ _ H1). unfold paid. repeat case_bool_decide; lia.
Qed.

Lemma htlc_Run_spec s input : called s ->
  wp (Run htlcCommands input tx header) s (fun r s' _ => settles (escrow_call tx now locks input) s r s').
Proof.
  intros Hc. unfold Run. destruct input as [|cmd input]; [done|]. unfold contract, htlcCommands.
  destruct (decide (cmd = CmdNewContract)) as [->|H0]; [rewrite lookup_insert_eq; by apply newHTLC_spec|]. rewrite lookup_insert_ne by done.
  destruct (decide (cmd = CmdWithdraw)) as [->|H1]; [rewrite lookup_insert_eq; by apply withdraw_spec|]. rewrite lookup_insert_ne by done.
  destruct (decide (cmd = CmdRefund)) as [->|H2]; [rewrite lookup_insert_eq; by apply refund_spec|]. rewrite lookup_insert_ne by done.
  destruct (decide (cmd = CmdGetContract)) as [->|H3]; [rewrite lookup_insert_eq; by apply getContract_spec|].
  rewrite lookup_insert_ne, lookup_empty by done. unfold escrow_call.
  apply Z.eqb_neq in H0, H1, H2, H3. by rewrite H0, H1, H2, H3.
Qed.
End calls.

(** Going back to the snapshot of a call undoes the call. *)
Lemma htlc_call_undone ctx gas s locks now now' r s' o :
  escrow s locks now -> journal_ok (sd_curJournal s) -> now <= now' ->
  processSystemContract ctx htlcCommands (snapshot_of s []) gas s = Some (r, s', o) ->
  exists s2, RevertToSnapshot (snapshot_of s []) s' = Some (tt, s2, []) /\ escrow s2 locks now'
    /\ forall x, balance s2 x = balance s x.
Proof.
  intros He Hj Hle E.
  assert (Hrun : forall input tx header, keeps_above s [] (Run htlcCommands input tx header)).
  { intros input tx header. unfold Run. destruct input as [|cmd input]; [apply keeps_above_ret|].
    destruct (_ !! cmd) as [info|] eqn:Hc; [|apply keeps_above_ret]. apply via_ops_keeps; [done|].
    pose proof (htlc_via input tx header). unfold contract, htlcCommands in Hc.
    repeat (apply lookup_insert_Some in Hc as [[_ <-]|[_ Hc]]; [cbn [cmdHandler]; tauto|]). by rewrite lookup_empty in Hc. }
  assert (Hh0 : history s ([] ++ []) s) by (apply history_start; [apply He|done|done]).
  pose proof (processSystemContract_run s Hj ctx htlcCommands gas Hrun [] s Hh0) as Hk. rewrite E in Hk. destruct Hk as [es Hh].
  destruct (wp_no_output _ s' (fun _ s2 => history s [] s2) (revert_history s es [] s' _ Hj Hh eq_refl)) as ([] & s2 & Hrev & Hh2).
  exists s2. split; [exact Hrev|]. inversion Hh2 as [? Hs2 He2 Hj2|]; subst.
  assert (H2 : sees s s2 (balance s) (data s)) by (apply quiet_sees; by constructor).
  split; [|intros x; apply H2]. destruct He as [? Ha Hr Hl Hd Hsol], H2 as [? Et Hx Hb Hdd].
  constructor; [done|by apply Hx|by rewrite Et| |intros k; rewrite Hdd; apply Hd|by rewrite Hb].
  intros k x Hk. eapply lock_ok_later; [done|by apply Hl].
Qed.

(** C26: The hash time locks are an escrow. Let the sender not be the contract,
    exist and have the amount of the transaction, let no lock have the hash
    of the transaction, and let the time not be before that of the last
    call. Then, whatever the transaction asks of the contract, the
    processing returns, and it succeeds exactly when the gas is enough and
    the escrow allows the call. The escrow locks the amount of a transaction
    until a time in the future, pays an open lock to its receiver for the
    preimage before that time, pays an open lock back to its owner from that
    time on, and shows a lock; a lock that is paid is not open any more.
    After a call that succeeds the data of the contract are the locks of the
    escrow, the sender and the contract have the balances that it says, and
    the contract has the money for all locks that are open. A call that is
    refused or runs out of gas returns an error, and going back to the
    snapshot that the processing was given, as Process does, leaves the
    locks and all balances as before the call. *)
Theorem htlc_refines_escrow ctx gas s locks now time :
  let tx := c_Tx ctx in let d := tx_Data tx in let snapshot := length (j_entries (sd_curJournal s)) in
  escrow s locks now -> journal_ok (sd_curJournal s) -> h_CreateTimestamp (c_BlockHeader ctx) = Some time -> now <= i64 time ->
  td_To d = Htlc -> td_From d <> Htlc -> has_account s (td_From d) -> 0 <= td_Amount d <= balance s (td_From d) ->
  locks !! tx_Hash tx = None ->
  wp (processSystemContract ctx htlcCommands snapshot gas) s (fun r s' _ =>
    let out_of_gas := gas <? RequiredGas htlcCommands (td_Payload d) in
    match (if out_of_gas then None else escrow_call tx (i64 time) locks (td_Payload d)) with
    | Some (locks', p) => r.2 = None /\ escrow s' locks' (i64 time)
        /\ forall x, balance s' x = paid (balance s) (td_From d) (p - td_Amount d) x
    | None => r.2 <> None /\ (out_of_gas = true -> r.2 = Some ErrOutOfGas)
        /\ exists s2, RevertToSnapshot snapshot s' = Some (tt, s2, []) /\ escrow s2 locks (i64 time)
           /\ forall x, balance s2 x = balance s x
    end).
Proof.
  intros tx d snapshot He Hj Ht Hle Hto Hfrom Hacc Hamt Hnew.
  assert (Hsn : snapshot = snapshot_of s []) by (unfold snapshot, snapshot_of; cbn; by rewrite app_nil_r).
  pose proof (htlc_call_undone ctx gas s locks now (i64 time)) as Hback. rewrite <-Hsn in Hback.
  eapply wp_run_mono.
  - apply (processSystemContract_spec ctx htlcCommands snapshot gas s (fun r s' => exists s1,
      sees s s1 (transferred_to (balance s) (td_From d) (td_To d) (td_Amount d)) (data s)
      /\ settles tx time (escrow_call tx (i64 time) locks (td_Payload d)) s1 r s'));
      [apply He|fold tx d; rewrite Hto; apply He|done|fold tx d; by rewrite Hto|done|].
    intros s1 H1. eapply wp_mono; [apply (htlc_Run_spec tx (c_BlockHeader ctx) time now locks Ht Hle Hto Hfrom Hnew)|].
    + fold tx d in H1. rewrite Hto in H1. pose proof (es_solvent _ _ _ He) as Hsol.
      assert (Hb : balance s1 Htlc = balance s Htlc + td_Amount d).
      { rewrite (se_balance _ _ _ _ H1). unfold transferred_to, set_balance. by rewrite bool_decide_true. }
      constructor; [|fold d; lia|by apply H1]. destruct He as [? Ha Hr Hl Hd _], H1 as [? Et Hx _ Hdd].
      constructor; [done|by apply Hx|by rewrite Et|done|intros k; rewrite Hdd; apply Hd|lia].
    + intros r s' o Hset. by exists s1.
  - intros r s' o E Hr. pose proof (Hback _ _ _ He Hj Hle E) as Hundo. fold tx d in Hr. cbv zeta. destruct (gas <? _); [by split_and!; [rewrite Hr| |]|].
    destruct Hr as (v & s1 & H1 & Hset). unfold settles in Hset.
    destruct (escrow_call tx (i64 time) locks (td_Payload d)) as [[locks' p]|]; [|by split_and!]. destruct Hset as (Hnone & He' & Hb).
    split; [done|]. split; [done|]. intros x. rewrite Hb. unfold paid. fold d. rewrite (se_balance _ _ _ _ H1).
    unfold transferred_to, set_balance. rewrite Hto. repeat case_bool_decide; subst; try done; lia.
Qed.
End htlc.

(** ** Master nodes *)

Section masternode.
Context {T : Type} {HT : TrieOps T} {HV : @VmOps T HT} {HS : SysEnv} {HL : SysLaws}.
Implicit Types (s : Statedb T).

Abbreviation Masternode := MasternodeContractAddress.

(** The contract has this entry for the address. *)
Definition entry s (address : bytes) (info : option masternodeInfo) : Prop :=
  data s Masternode (MustHash_of address) = default [] (info ≫= masternode_bytes).

Lemma getInfo_spec s address info : st_ok s -> entry s address info ->
  exists s', getInfo address s = Some (inl info, s', []) /\ sees s s' (balance s) (data s).
Proof.
  intros Hs He. enough (Hw : wp (getInfo address) s (fun r s' _ => r = inl info /\ sees s s' (balance s) (data s))).
  { destruct (wp_no_output _ _ _ Hw) as (r & s' & E & -> & H1). by exists s'. }
  unfold getInfo. apply wp_bind. eapply wp_mono; [by apply GetData_sees|]. intros r s' o [-> H1].
  unfold entry in He. rewrite He. destruct info as [i|]; cbn; [|done].
  destruct (masternode_roundtrip i) as (b & -> & Hb & Hof). cbn. destruct b; [done|]. cbn. by rewrite Hof.
Qed.

(** The two commands that dereference the entry before they know that there is one. *)
Lemma masternode_Run_panics s cmd address tx header : st_ok s -> cmd = CmdQueryMasternode \/ cmd = CmdRecall -> entry s address None ->
  Run masternodeCommands (cmd :: address) tx header s = None.
Proof.
  intros Hs Hcmd He. destruct (getInfo_spec s address None Hs He) as (s' & E & _). unfold Run, contract, masternodeCommands.
  destruct Hcmd as [-> | ->].
  - rewrite lookup_insert_ne, lookup_insert_eq by done. cbn [cmdHandler]. unfold queryMasternodeCmd. by rewrite (go_bind_run _ _ _ _ _ E).
  - rewrite !lookup_insert_ne, lookup_insert_eq by done. cbn [cmdHandler]. unfold recallCmd. by rewrite (go_bind_run _ _ _ _ _ E).
Qed.

Lemma prepared_sees n s : st_ok s -> sees s (prepared n s) (balance s) (data s).
Proof. intros Hs. constructor; try done. by apply prepared_ok. Qed.

(** C28: A transaction can stop the nodes: a call of the contract of the master
    nodes that queries or recalls an address without a deposit dereferences
    a nil pointer. Whoever can pay for the gas makes Process panic with it,
    in every node that processes the block. *)
Theorem masternode_call_panics ctx height s cmd address :
  let d := tx_Data (c_Tx ctx) in
  st_ok s -> contracts Masternode = Some masternodeCommands -> td_To d = Masternode -> td_From d <> Masternode ->
  has_account s Masternode -> has_account s (td_From d) -> 0 <= td_Amount d ->
  0 <= td_GasPrice d * td_GasLimit d -> td_Amount d + td_GasPrice d * td_GasLimit d <= balance s (td_From d) ->
  nonce_of s (td_From d) <= td_AccountNonce d ->
  IntrinsicGas (c_Tx ctx) + gasCmdRecall <= td_GasLimit d ->
  td_Payload d = cmd :: address -> cmd = CmdQueryMasternode \/ cmd = CmdRecall -> entry s address None ->
  Process ctx height s = None.
Proof.
  intros d Hs Hc Hto Hfrom Ha Hf Hamt Hfee Hbal Hnonce Hgas Hp Hcmd He. unfold Process. fold d.
  pose proof (ValidateState_spec (c_Tx ctx) height s Hs) as Hv. fold d in Hv.
  rewrite (proj2 (Z.ltb_ge _ _) Hbal), (proj2 (Z.ltb_ge _ _) Hnonce) in Hv.
  destruct (wp_no_output _ _ _ Hv) as (r & s1 & E1 & Hq & ->). rewrite (go_bind_run _ _ _ _ _ E1). pose proof (quiet_sees _ _ Hq) as H1.
  unfold gasCmdRecall in Hgas. rewrite (proj2 (Z.ltb_ge (td_GasLimit d) (IntrinsicGas (c_Tx ctx)))) by lia.
  rewrite (go_bind_run _ _ _ _ _ (Prepare_tx_run (c_TxIndex ctx) s1)).
  pose proof (prepared_sees (c_TxIndex ctx) s1 (se_ok _ _ _ _ H1)) as H2. pose proof (sees_trans _ _ _ _ _ _ _ H1 H2) as H12.
  set (s2 := prepared _ s1) in *. unfold Process_dispatch, GetContractByAddress. fold d. rewrite Hto, Hc.
  assert (Hb2 : balance s2 (td_From d) = balance s (td_From d)) by (rewrite (se_balance _ _ _ _ H12); apply H1).
  destruct (processSystemContract_runs ctx masternodeCommands 0 (td_GasLimit d - IntrinsicGas (c_Tx ctx)) s2)
    as (s3 & H3 & E3); [apply H2|fold d; rewrite Hto; by apply H12|by apply H12|fold d; by rewrite Hto|fold d; lia|].
  unfold go_bind at 1. rewrite E3. unfold system_call. fold d. rewrite Hp.
  assert (Hreq : RequiredGas (masternodeCommands : contract) (cmd :: address) <= 50000).
  { unfold RequiredGas, contract, masternodeCommands. destruct Hcmd as [-> | ->].
    - rewrite lookup_insert_ne, lookup_insert_eq by done. cbn. unfold gasCmdQueryMasterNode. lia.
    - rewrite !lookup_insert_ne, lookup_insert_eq by done. cbn. unfold gasCmdRecall. lia. }
  rewrite (proj2 (Z.ltb_ge (td_GasLimit d - IntrinsicGas (c_Tx ctx)) _)) by (unfold contract in *; lia).
  unfold go_bind at 1. rewrite masternode_Run_panics; [done|apply H3|done|].
  unfold entry. rewrite (se_data _ _ _ _ H3), (se_data _ _ _ _ H12), (se_data _ _ _ _ H1). exact He.
Qed.

(** The deposit of a master node can be taken by anyone: neither the command that quits nor the one that recalls compares the sender with the address it is given. Two transactions of any account, more than 8640 blocks apart, take an address with a deposit out of the list and pay the 20000 Seele to the sender of the second transaction. *)
Theorem deposit_can_be_stolen s victim tx1 tx2 header1 header2 :
  st_ok s -> has_account s Masternode -> reads_ok (sd_trie s) -> has_account s (td_From (tx_Data tx2)) ->
  td_From (tx_Data tx2) <> Masternode -> depositLimit <= balance s Masternode ->
  entry s victim (Some (mkMasternode false 0)) ->
  0 <= h_Height header1 -> h_Height header1 + recallDistanceLimit < h_Height header2 < 2 ^ 64 ->
  exists s', run_calls masternodeCommands [(CmdQuit :: victim, tx1, header1); (CmdRecall :: victim, tx2, header2)] s
      = Some ([([], None); ([], None)], s', [])
    /\ entry s' victim None
    /\ balance s' Masternode = balance s Masternode - depositLimit
    /\ balance s' (td_From (tx_Data tx2)) = balance s (td_From (tx_Data tx2)) + depositLimit.
Proof.
  intros Hs Ha Ht Hf Hne Hb He Hh1 Hh2. unfold recallDistanceLimit in Hh2. set (m := td_From (tx_Data tx2)) in *.
  destruct (getInfo_spec s victim _ Hs He) as (s1 & E1 & H1).
  destruct (masternode_roundtrip (mkMasternode true (h_Height header1))) as (b & Hj & Hbne & Hof).
  destruct (wp_no_output _ _ _ (SetData_sees Masternode (MustHash_of victim) b s1 (se_ok _ _ _ _ H1) (proj2 (se_account _ _ _ _ H1 _) Ha)
    ltac:(rewrite (se_trie' _ _ _ _ H1); done))) as (u2 & s2 & E2 & H2).
  pose proof (sees_trans _ _ _ _ _ _ _ H1 H2) as H12.
  assert (He2 : entry s2 victim (Some (mkMasternode true (h_Height header1)))).
  { unfold entry. rewrite (se_data _ _ _ _ H2). unfold set_data. rewrite bool_decide_true by done. cbn. by rewrite Hj. }
  destruct (getInfo_spec s2 victim _ (se_ok _ _ _ _ H2) He2) as (s3 & E3 & H3). pose proof (sees_trans _ _ _ _ _ _ _ H12 H3) as H13.
  destruct (wp_no_output _ _ _ (SetData_sees Masternode (MustHash_of victim) [] s3 (se_ok _ _ _ _ H3) (proj2 (se_account _ _ _ _ H13 _) Ha)
    ltac:(rewrite (se_trie' _ _ _ _ H13); done))) as (u4 & s4 & E4 & H4). pose proof (sees_trans _ _ _ _ _ _ _ H13 H4) as H14.
  assert (Hbal : forall x, balance s4 x = balance s x).
  { intros x. by rewrite (se_balance _ _ _ _ H4), (se_balance _ _ _ _ H3), (se_balance _ _ _ _ H2), (se_balance _ _ _ _ H1). }
  destruct (wp_no_output _ _ _ (SubBalance_sees Masternode depositLimit s4 (se_ok _ _ _ _ H4) (proj2 (se_account _ _ _ _ H14 _) Ha)
    ltac:(rewrite Hbal; lia))) as (u5 & s5 & E5 & H5). pose proof (sees_trans _ _ _ _ _ _ _ H14 H5) as H15.
  assert (Hb5 : balance s5 m = balance s m).
  { rewrite (se_balance _ _ _ _ H5). unfold set_balance. by rewrite bool_decide_false. }
  destruct (wp_no_output _ _ _ (AddBalance_sees m depositLimit s5 (se_ok _ _ _ _ H5) (proj2 (se_account _ _ _ _ H15 _) Hf)
    ltac:(rewrite Hb5; pose proof (balance_pos s m Hs); unfold depositLimit; lia))) as (u6 & s6 & E6 & H6).
  exists s6. split_and!.
  - cbn [run_calls]. unfold Run, contract, masternodeCommands.
    rewrite !lookup_insert_ne, lookup_insert_eq by done. cbn [cmdHandler].
    rewrite (go_bind_run _ _ _ ([], None) s2).
    2: { unfold quitCmd. rewrite (go_bind_run _ _ _ _ _ E1). cbn [mn_IsQuit]. unfold saveInfo. rewrite Hj.
         rewrite (go_bind_run _ _ _ None s2); [done|]. by rewrite (go_bind_run _ _ _ _ _ E2). }
    rewrite (go_bind_run _ _ _ [([], None)] s6); [done|].
    rewrite !lookup_insert_ne, lookup_insert_eq by done. cbn [cmdHandler].
    rewrite (go_bind_run _ _ _ ([], None) s6); [done|].
    unfold recallCmd. rewrite (go_bind_run _ _ _ _ _ E3). cbn [mn_IsQuit mn_QuitBlock]. rewrite u64_small by (unfold is_u64; lia).
    unfold recallDistanceLimit. rewrite (proj2 (Z.ltb_lt 8640 _)) by lia. cbn [andb].
    rewrite (go_bind_run _ _ _ _ _ E4), (go_bind_run _ _ _ _ _ E5). fold m. by rewrite (go_bind_run _ _ _ _ _ E6).
  - unfold entry. rewrite (se_data _ _ _ _ H6), (se_data _ _ _ _ H5), (se_data _ _ _ _ H4). unfold set_data. by rewrite bool_decide_true.
  - rewrite (se_balance _ _ _ _ H6). unfold set_balance. rewrite bool_decide_false by done. rewrite (se_balance _ _ _ _ H5). unfold set_balance.
    rewrite bool_decide_true by done. by rewrite Hbal.
  - rewrite (se_balance _ _ _ _ H6). unfold set_balance. rewrite bool_decide_true by done. by rewrite Hb5.
Qed.

(** ** The Bitcoin relay *)

(** The answer depends on a variable of the process: on one account state, a node that
    has stored a header since it was started pays the relayer, and a node that was started
    again refuses the call. *)
Theorem relay_depends_on_process s request relay tx header block pre :
  st_ok s -> relay_of request = Some relay -> relay_fee <= u64 (td_Amount (tx_Data tx)) ->
  default ∅ (blocks_of (data s BTCRelayContractAddress keyBlocksHash)) !! bb_BlockHeaderHex (rr_Block relay) = Some block ->
  btcConfirm <= pre < 2 ^ 64 -> pre - btcConfirm <= bb_Height block ->
  (exists s', verifyTx request tx header (s, 0) = Some (failure, Some (errSystem errConfirmation), (s', 0), []))
  /\ (forall r err st o, verifyTx request tx header (s, pre) = Some (r, err, st, o) -> err = None).
Proof.
  intros Hs Hr Hfee Hb Hpre Hh. unfold verifyTx. rewrite Hr, (proj2 (Z.ltb_ge _ _) Hfee).
  assert (Hg : wp (getBTCBlocks : GoM (Statedb T) Empty_set _) s (fun m s' _ => m = default ∅ (blocks_of (data s BTCRelayContractAddress keyBlocksHash)))).
  { unfold getBTCBlocks. apply wp_bind. eapply wp_mono; [by apply GetData_sees|]. intros r s' o [-> _]. by apply wp_ret. }
  destruct (wp_no_output _ _ _ Hg) as (m & s1 & E & ->). split.
  { exists s1. unfold go_bind at 1, on_statedb. cbn [fst snd]. by rewrite E, Hb. }
  intros r err st o. unfold preBlockHeight, on_statedb, go_bind, go_get, go_ret. cbn [snd fst app]. rewrite E, Hb. cbn [snd fst].
  unfold btcConfirm in *. rewrite (proj2 (Z.ltb_ge pre 6)) by lia. rewrite u64_small by (unfold is_u64; lia).
  rewrite (proj2 (Z.ltb_ge (bb_Height block) (pre - 6))) by lia. cbn [orb].
  destruct (pay_relayer (bb_Relayer block) (td_Amount (tx_Data tx)) (s1, pre).1) as [[[u s2] o2]|]; [|done]. by intros [= _ <- _ _].
Qed.
End masternode.

(** ** Examples *)

Section examples.

(** Values are encoded as one number. *)
Definition tx_tuple (tx : Transaction) :=
  let d := tx_Data tx in
  (tx_Hash tx, (td_Type d, td_From d, td_To d, td_Amount d, td_AccountNonce d, td_GasPrice d, td_GasLimit d, td_Timestamp d, td_Payload d),
   tx_Signature tx).

Definition lock_tuple (l : HashTimeLock) := (hl_HashLock l, hl_TimeLock l, hl_To l).
Definition lock_untuple '((a, b, c) : bytes * Z * Address) : HashTimeLock := mkLock a b c.

Definition htlc_tuple (h : htlc) := (tx_tuple <$> ht_Tx h, lock_tuple (ht_Lock h), ht_Refunded h, ht_Withdrawed h, ht_Preimage h).

Definition tx_untuple '((h, (a, b, c, e, f, g, i, j, k), sig) : Hash * (Z * bytes * bytes * Z * Z * Z * Z * Z * bytes) * bytes) : Transaction :=
  mkTx h (mkTxData a b c e f g i j k) sig.

Definition htlc_untuple '((tx, l, r, w, p) : option (Hash * (Z * bytes * bytes * Z * Z * Z * Z * Z * bytes) * bytes) * (bytes * Z * Address) * bool * bool * bytes) : htlc :=
  mkHtlc (tx_untuple <$> tx) (lock_untuple l) r w p.

Lemma htlc_untuple_tuple h : htlc_untuple (htlc_tuple h) = h.
Proof. destruct h as [[[? [] ?]|] [] ? ? ?]; done. Qed.

Definition number {A} `{Countable A} (a : A) : bytes := [Zpos (encode a)].
Definition number_of {A} `{Countable A} (b : bytes) : option A := match b with [Zpos p] => decode p | _ => None end.

#[local] Instance ex_sys : SysEnv := {|
  lock_of b := lock_untuple <$> number_of b;
  withdrawing_of b := (fun '(h, p) => mkWithdrawing h p) <$> number_of b;
  htlc_of b := htlc_untuple <$> number_of b;
  htlc_json h := Some (number (htlc_tuple h));
  subchain_of _ := None;
  subchain_json _ := None;
  relay_of _ := None;
  blocks_of _ := None;
  blocks_json _ := None;
  masternode_of b := (fun '(q, n) => mkMasternode q n) <$> number_of b;
  masternode_bytes i := Some (number (mn_IsQuit i, mn_QuitBlock i));
  ToLower := map lower_byte;
  Sha256Hash b := b
|}.

#[local] Instance ex_sys_laws : SysLaws.
Proof.
  split.
  - done.
  - intros h. exists (number (htlc_tuple h)). split; [done|]. split; [done|]. cbn. rewrite decode_encode. cbn -[htlc_untuple htlc_tuple]. by rewrite htlc_untuple_tuple.
  - intros [q n]. exists (number (q, n)). split; [done|]. split; [done|]. cbn [masternode_of ex_sys number number_of]. by rewrite decode_encode.
Qed.

#[local] Instance sys_vm : @VmOps (gmap bytes bytes) example_trie := {|
  contracts := system_contracts ∅;
  precompiled _ := false;
  vm_run _ f _ := go_ret ([], f_Gas f, None);
  MustHash_nonce a n := example_hash (n :: a);
  emptyCodeHash := example_hash [];
  error_text _ := []
|}.

Definition sys_ops : list state_op :=
  [OpCreateAccount alice; OpAddBalance alice 1000000; OpCreateAccount bob; OpCreateAccount DomainNameContractAddress;
   OpCreateAccount HashTimeLockContractAddress; OpCreateAccount MasternodeContractAddress;
   OpAddBalance MasternodeContractAddress depositLimit;
   OpSetData MasternodeContractAddress (MustHash_of bob) (number (false, 0))].

Definition sys_state : Statedb (gmap bytes bytes) :=
  match run_ops sys_ops empty_state with Some (_, s, _) => s | None => empty_state end.

Lemma sys_state_ok : st_ok sys_state.
Proof.
  destruct empty_state_ok as [Hs Hj]. destruct (runs_through (run_ops sys_ops) empty_state) as [s' Hs']; [vm_compute; reflexivity|].
  unfold sys_state. rewrite Hs'. by destruct (run_ops_ok _ _ _ _ _ Hs Hj Hs').
Qed.

Lemma sys_journal_ok : journal_ok (sd_curJournal sys_state).
Proof.
  destruct empty_state_ok as [Hs Hj]. destruct (runs_through (run_ops sys_ops) empty_state) as [s' Hs']; [vm_compute; reflexivity|].
  unfold sys_state. rewrite Hs'. by destruct (run_ops_ok _ _ _ _ _ Hs Hj Hs').
Qed.

Lemma sys_reads t : reads_ok (HT := example_trie) t.
Proof. intros key. by eexists. Qed.

(** The data of an account that has none. *)
Lemma no_data a o k : find_object sys_state a = Some o -> o_dirtyStorage o = ∅ -> o_cachedStorage o = ∅ -> data sys_state a k = [].
Proof.
  intros Ho Hd Hc. unfold data. rewrite Ho. cbn. unfold read_state, getState. rewrite Hd, Hc, !lookup_empty.
  replace (sd_trie sys_state) with (∅ : gmap bytes bytes) by (vm_compute; reflexivity). done.
Qed.

Definition sys_ctx (from to : Address) (amount : Z) (payload : bytes) : Context :=
  mkContext (mkTx [1] (mkTxData 0 from to amount 0 1 200000 0 payload) []) 0
    (mkHeader [] miner [] [] [] [] [] (Some 1) 1 (Some 50) [] [] PowConsensus []).

Lemma find_empty a : match find_object sys_state a with
    | Some o => bool_decide (o_dirtyStorage o = ∅) && bool_decide (o_cachedStorage o = ∅) | None => false end = true ->
  has_account sys_state a /\ forall k, data sys_state a k = [].
Proof.
  destruct (find_object sys_state a) as [o|] eqn:Ho; [|done]. intros [Hd%bool_decide_eq_true Hc%bool_decide_eq_true]%andb_true_iff.
  split; [by exists o|]. intros k. by eapply no_data.
Qed.

Lemma sys_registered : registered sys_state ∅.
Proof.
  destruct (find_empty DomainNameContractAddress) as [Ha Hd]; [vm_compute; reflexivity|].
  constructor; [apply sys_state_ok|done|apply sys_reads|done|]. intros key. by rewrite lookup_empty, Hd.
Qed.

Lemma sys_escrow : escrow sys_state ∅ 0.
Proof.
  destruct (find_empty HashTimeLockContractAddress) as [Ha Hd]; [vm_compute; reflexivity|].
  constructor; [apply sys_state_ok|done|apply sys_reads|done| |vm_compute; congruence]. intros hash. by rewrite lookup_empty, Hd.
Qed.


(** Alice locks 500 for Bob until the time 100, with the hash lock 7. *)
Definition lock_ctx : Context := sys_ctx alice HashTimeLockContractAddress 500 (0 :: number ([7], 100, bob)).

Lemma htlc_refines_escrow_witness : let snapshot := length (j_entries (sd_curJournal sys_state)) in
  exists r s', processSystemContract lock_ctx htlcCommands snapshot 100000 sys_state = Some (r, None, s', [])
  /\ escrow s' {[ [1] := mkHtlc (Some (c_Tx lock_ctx)) (mkLock [7] 100 bob) false false [] ]} 50
  /\ balance s' HashTimeLockContractAddress = 500 /\ balance s' alice = 999500.
Proof.
  intros snapshot. pose proof (htlc_refines_escrow lock_ctx 100000 sys_state ∅ 0 50 sys_escrow sys_journal_ok eq_refl ltac:(vm_compute; congruence) eq_refl
    ltac:(vm_compute; congruence) ltac:(vm_compute; eauto) ltac:(vm_compute; split; congruence) ltac:(done)) as Hw.
  fold snapshot in Hw. unfold wp in Hw. destruct (processSystemContract lock_ctx htlcCommands snapshot 100000 sys_state) as [[[[r err] s'] [|[]]]|] eqn:E; [|done].
  assert (Hg : (100000 <? RequiredGas (htlcCommands : contract (T := gmap bytes bytes)) (td_Payload (tx_Data (c_Tx lock_ctx)))) = false) by (vm_compute; reflexivity).
  assert (Hcall : escrow_call (c_Tx lock_ctx) (i64 50) ∅ (td_Payload (tx_Data (c_Tx lock_ctx)))
    = Some ({[ [1] := mkHtlc (Some (c_Tx lock_ctx)) (mkLock [7] 100 bob) false false [] ]}, 0)) by (vm_compute; reflexivity).
  rewrite Hg, Hcall in Hw. destruct Hw as (Herr & He & Hb). cbn [snd] in Herr. subst err.
  exists r, s'. split; [reflexivity|]. split; [exact He|].
  split; rewrite Hb; vm_compute; reflexivity.
Defined.

Lemma masternode_call_panics_witness :
  Process (sys_ctx alice MasternodeContractAddress 0 [CmdQueryMasternode; 9]) 0 sys_state = None.
Proof.
  apply (masternode_call_panics (sys_ctx alice MasternodeContractAddress 0 [CmdQueryMasternode; 9]) 0 sys_state CmdQueryMasternode [9] sys_state_ok).
  - reflexivity.
  - reflexivity.
  - vm_compute. congruence.
  - vm_compute. eauto.
  - vm_compute. eauto.
  - vm_compute. congruence.
  - vm_compute. congruence.
  - vm_compute. congruence.
  - vm_compute. congruence.
  - vm_compute. congruence.
  - reflexivity.
  - by left.
  - vm_compute. reflexivity.
Defined.

Lemma deposit_can_be_stolen_witness :
  let tx := c_Tx (sys_ctx alice MasternodeContractAddress 0 []) in
  let header h := mkHeader [] miner [] [] [] [] [] (Some 1) h (Some 1) [] [] PowConsensus [] in
  exists s', run_calls masternodeCommands [(CmdQuit :: bob, tx, header 10); (CmdRecall :: bob, tx, header 9000)] sys_state
      = Some ([([], None); ([], None)], s', [])
    /\ balance s' alice = 1000000 + depositLimit /\ balance s' MasternodeContractAddress = 0.
Proof.
  intros tx header. destruct (deposit_can_be_stolen sys_state bob tx tx (header 10) (header 9000)) as (s' & E & _ & H1 & H2).
  - apply sys_state_ok.
  - vm_compute. eauto.
  - apply sys_reads.
  - vm_compute. eauto.
  - vm_compute. congruence.
  - vm_compute. congruence.
  - vm_compute. reflexivity.
  - vm_compute. congruence.
  - vm_compute. split; congruence.
  - exists s'. split; [exact E|]. change (td_From (tx_Data tx)) with alice in H2. split; [rewrite H2|rewrite H1]; vm_compute; reflexivity.
Defined.
End examples.
