(* ===== verification/PoolQueue.v ===== *)
(** * The queue of a pool

    Models [core/pool_object_collection.go] (the objects of one account, by nonce)
    and [core/pool_queue.go] (the accounts, in a heap with the best account on top
    and one with the worst). A pool item is a pointer that the pool and a collection
    share: items are numbers, and the store [Items] holds what is behind them. The
    pair of an account has one collection, which both heaps refer to; an item of
    these heaps is the account. A panic is [None]. *)

From Stdlib Require Import ZArith Lia.
From S2P Require Import Prelude Common GoHeap.

Open Scope Z_scope.

(** ** Objects and items *)

(** The interface [poolObject]. *)
Class PoolObject (Obj : Type) := {
  FromAccount : Obj -> Address;
  Price : Obj -> Z;
  po_Nonce : Obj -> Z;
  GetHash : Obj -> Hash;
  po_Size : Obj -> Z;
  ToAccount : Obj -> Address
}.

(** The fields of a [poolItem] that are not its heap index. *)
Record poolItem (Obj : Type) := mkItem { it_object : Obj; it_timestamp : Z }.
Arguments mkItem {Obj} _ _.
Arguments it_object {Obj} _.
Arguments it_timestamp {Obj} _.

#[export] Instance poolItem_inhabited {Obj} `{Inhabited Obj} : Inhabited (poolItem Obj) :=
  populate (mkItem inhabitant 0).

(** The store of the items. *)
Abbreviation Items Obj := (gmap nat (poolItem Obj)).

(** ** [pool_object_collection.go] *)

Record txCollection := mkCollection {
  col_txs : gmap Z nat;
  col_nonceHeap : Heap nat
}.

Definition newTxCollection : txCollection := mkCollection ∅ NewHeap.

Section queue.
Context {Obj : Type} `{PoolObject Obj} `{Inhabited Obj}.

Definition item_obj (items : Items Obj) (i : nat) : Obj := it_object (items !!! i).

Definition nonce_of (items : Items Obj) (i : nat) : Z := po_Nonce (item_obj items i).

Definition nonce_less (items : Items Obj) (i j : nat) : bool := nonce_of items i <? nonce_of items j.

#[local] Instance nonce_heap (items : Items Obj) : HeapInterface (Heap nat) nat :=
  Heap_interface (nonce_less items).

(** The store, the collection, and whether the object is new. *)
Definition col_add (items : Items Obj) (c : txCollection) (tx : nat) : Items Obj * txCollection * bool :=
  match col_txs c !! nonce_of items tx with
  | Some existTx => (<[existTx := items !!! tx]> items, c, false)
  | None =>
      (items,
       mkCollection (<[nonce_of items tx := tx]> (col_txs c))
         (heap_Push (H0 := nonce_heap items) (col_nonceHeap c) tx),
       true)
  end.

Definition col_get (c : txCollection) (nonce : Z) : option nat := col_txs c !! nonce.

Definition col_remove (items : Items Obj) (c : txCollection) (nonce : Z) : option (txCollection * bool) :=
  match col_txs c !! nonce with
  | None => Some (c, false)
  | Some tx =>
      match heap_Remove (H0 := nonce_heap items) (col_nonceHeap c) (GetHeapIndex (col_nonceHeap c) tx) with
      | None => None
      | Some (_, h) => Some (mkCollection (delete nonce (col_txs c)) h, true)
      end
  end.

Definition col_len (c : txCollection) : nat := Heap_Len (col_nonceHeap c).

Definition col_peek (c : txCollection) : option nat := Heap_Peek (col_nonceHeap c).

Definition col_pop (items : Items Obj) (c : txCollection) : option (nat * txCollection) :=
  match heap_Pop (H0 := nonce_heap items) (col_nonceHeap c) with
  | None => None
  | Some (tx, h) => Some (tx, mkCollection (delete (nonce_of items tx) (col_txs c)) h)
  end.

(** The objects in the order of their nonces, which are the keys of the map. *)
Definition key_le (x y : Z * nat) : Prop := x.1 <= y.1.

#[local] Instance key_le_dec x y : Decision (key_le x y).
Proof. unfold key_le. apply _. Defined.

Definition col_list (items : Items Obj) (c : txCollection) : list Obj :=
  map (fun kv => item_obj items kv.2) (merge_sort key_le (map_to_list (col_txs c))).

(** [cmp] of the first items. *)
Definition cmp_items (items : Items Obj) (iTx jTx : option nat) : Z :=
  match iTx, jTx with
  | None, None => 0
  | _, None => 1
  | None, _ => -1
  | Some i, Some j =>
      let iPrice := Price (item_obj items i) in
      let jPrice := Price (item_obj items j) in
      let iTime := it_timestamp (items !!! i) in
      let jTime := it_timestamp (items !!! j) in
      if iPrice <? jPrice then -1
      else if jPrice <? iPrice then 1
      else if iTime <? jTime then 1
      else if jTime <? iTime then -1
      else 0
  end.

Definition col_cmp (items : Items Obj) (c other : txCollection) : Z :=
  cmp_items items (col_peek c) (col_peek other).

(** ** [pool_queue.go] *)

Record pendingQueue := mkQueue {
  q_txs : gmap Address txCollection;
  q_bestHeap : Heap Address;
  q_worstHeap : Heap Address
}.

Definition newPendingQueue : pendingQueue := mkQueue ∅ NewHeap NewHeap.

(** The collection of an account in the heaps. *)
Definition coll (txs : gmap Address txCollection) (a : Address) : txCollection :=
  default newTxCollection (txs !! a).

Definition best_less (items : Items Obj) (txs : gmap Address txCollection) (a b : Address) : bool :=
  0 <? col_cmp items (coll txs a) (coll txs b).

Definition worst_less (items : Items Obj) (txs : gmap Address txCollection) (a b : Address) : bool :=
  col_cmp items (coll txs a) (coll txs b) <=? 0.

#[local] Instance best_heap (items : Items Obj) (txs : gmap Address txCollection) : HeapInterface (Heap Address) Address :=
  Heap_interface (best_less items txs).

Definition worst_heap (items : Items Obj) (txs : gmap Address txCollection) : HeapInterface (Heap Address) Address :=
  Heap_interface (worst_less items txs).

(** [heap.Fix] of both heaps at an account. *)
Definition fix_heaps (items : Items Obj) (txs : gmap Address txCollection) (q : pendingQueue) (a : Address)
    : option pendingQueue :=
  match heap_Fix (H0 := best_heap items txs) (q_bestHeap q) (GetHeapIndex (q_bestHeap q) a) with
  | None => None
  | Some best =>
      match heap_Fix (H0 := worst_heap items txs) (q_worstHeap q) (GetHeapIndex (q_worstHeap q) a) with
      | None => None
      | Some worst => Some (mkQueue txs best worst)
      end
  end.

(** [heap.Remove] from both heaps, for a collection that has become empty; the
    account is no longer in the map. *)
Definition remove_heaps (items : Items Obj) (txs : gmap Address txCollection) (q : pendingQueue) (a : Address)
    : option pendingQueue :=
  match heap_Remove (H0 := best_heap items txs) (q_bestHeap q) (GetHeapIndex (q_bestHeap q) a) with
  | None => None
  | Some (_, best) =>
      match heap_Remove (H0 := worst_heap items txs) (q_worstHeap q) (GetHeapIndex (q_worstHeap q) a) with
      | None => None
      | Some (_, worst) => Some (mkQueue (delete a txs) best worst)
      end
  end.

(** After the collection of an account has lost an item. *)
Definition after_loss (items : Items Obj) (q : pendingQueue) (a : Address) (c : txCollection)
    : option pendingQueue :=
  let txs := <[a := c]> (q_txs q) in
  if (col_len c =? 0)%nat then remove_heaps items txs q a else fix_heaps items txs q a.

Definition queue_add (items : Items Obj) (q : pendingQueue) (tx : nat) : option (Items Obj * pendingQueue) :=
  let a := FromAccount (item_obj items tx) in
  match q_txs q !! a with
  | Some c =>
      let '(items', c', _) := col_add items c tx in
      match fix_heaps items' (<[a := c']> (q_txs q)) q a with
      | None => None
      | Some q' => Some (items', q')
      end
  | None =>
      let '(items', c', _) := col_add items newTxCollection tx in
      let txs := <[a := c']> (q_txs q) in
      Some (items',
            mkQueue txs (heap_Push (H0 := best_heap items' txs) (q_bestHeap q) a)
              (heap_Push (H0 := worst_heap items' txs) (q_worstHeap q) a))
  end.

Definition queue_get (q : pendingQueue) (addr : Address) (nonce : Z) : option nat :=
  match q_txs q !! addr with
  | None => None
  | Some c => col_get c nonce
  end.

Definition queue_remove (items : Items Obj) (q : pendingQueue) (addr : Address) (nonce : Z)
    : option pendingQueue :=
  match q_txs q !! addr with
  | None => Some q
  | Some c =>
      match col_remove items c nonce with
      | None => None
      | Some (_, false) => Some q
      | Some (c', true) => after_loss items q addr c'
      end
  end.

Definition queue_count (q : pendingQueue) : nat :=
  map_fold (fun _ c sum => (sum + col_len c)%nat) 0%nat (q_txs q).

Definition queue_empty (q : pendingQueue) : bool := (Heap_Len (q_bestHeap q) =? 0)%nat.

Definition queue_peek (q : pendingQueue) : option txCollection :=
  match Heap_Peek (q_bestHeap q) with
  | None => None
  | Some a => Some (coll (q_txs q) a)
  end.

Definition queue_pop (items : Items Obj) (q : pendingQueue) : option (nat * pendingQueue) :=
  match Heap_Peek (q_bestHeap q) with
  | None => None
  | Some a =>
      match col_pop items (coll (q_txs q) a) with
      | None => None
      | Some (tx, c) =>
          let a' := FromAccount (item_obj items tx) in
          let q1 := mkQueue (<[a := c]> (q_txs q)) (q_bestHeap q) (q_worstHeap q) in
          match q_txs q1 !! a' with
          | None => None
          | Some c' =>
              match after_loss items q1 a' c' with
              | None => None
              | Some q' => Some (tx, q')
              end
          end
      end
  end.

Fixpoint queue_popN (items : Items Obj) (q : pendingQueue) (n : nat) : option (list Obj * pendingQueue) :=
  match n with
  | O => Some ([], q)
  | S n' =>
      if queue_empty q then Some ([], q)
      else
        match queue_pop items q with
        | None => None
        | Some (tx, q1) =>
            match queue_popN items q1 n' with
            | None => None
            | Some (l, q2) => Some (item_obj items tx :: l, q2)
            end
        end
  end.

(** The collection that was discarded, if any. *)
Definition queue_discard (items : Items Obj) (q : pendingQueue) (price : Z)
    : option (option txCollection * pendingQueue) :=
  if queue_empty q then Some (None, q)
  else
    match Heap_Peek (q_worstHeap q) with
    | None => None
    | Some w =>
        let worstCollection := coll (q_txs q) w in
        match col_peek worstCollection with
        | None => Some (None, q)
        | Some worstTx =>
            if price <=? Price (item_obj items worstTx) then Some (None, q)
            else
              let account := FromAccount (item_obj items worstTx) in
              match heap_Pop (H0 := worst_heap items (q_txs q)) (q_worstHeap q), q_txs q !! account with
              | None, _ | _, None => None
              | Some (_, worst), Some _ =>
                  match heap_Remove (H0 := best_heap items (q_txs q)) (q_bestHeap q)
                          (GetHeapIndex (q_bestHeap q) account) with
                  | None => None
                  | Some (_, best) =>
                      Some (Some worstCollection, mkQueue (delete account (q_txs q)) best worst)
                  end
              end
        end
    end.

(** [list], for the order in which the map is walked. *)
Definition queue_list (items : Items Obj) (order : list (Address * txCollection)) : list Obj :=
  mjoin (map (fun kv => col_list items kv.2) order).
End queue.
