(* ===== verification/PoolQueueProofs.v ===== *)
(** * The queue of a pool is a priority queue by accounts

    [col_ok] and [queue_ok] are the invariants of a collection and of the queue;
    what is pending is described by [queue_get], and every operation changes it
    as it should. The item that is popped is the one with the least nonce of an
    account whose first item has the best price. *)

From Stdlib Require Import ZArith Lia.
From S2P Require Import Prelude Common GoHeap PoolQueue.

Open Scope Z_scope.

(** ** Orders *)

(** When one item of a heap has changed, the order is broken around it only. *)
Lemma heap_ok_except {A} (le le' : A -> A -> Prop) `{!PreOrder le} (l : list A) i x :
  heap_ok le l -> NoDup l -> l !! i = Some x ->
  (forall a b, a ∈ l -> b ∈ l -> a <> x -> b <> x -> le a b -> le' a b) ->
  heap_except le' l (length l) i.
Proof.
  intros Hok Hnd Hx Hle.
  assert (Hne : forall j y, l !! j = Some y -> j <> i -> y <> x).
  { intros j y Hj Hji ->. apply Hji. by eapply NoDup_lookup. }
  split.
  - intros p c a b Hpc Hc Hci Hpi Ha Hb. apply Hle; eauto using list_elem_of_lookup_2.
  - intros p c a b Hpi Hic Hc Ha Hb. unfold heap_child in *.
    apply Hle; eauto using list_elem_of_lookup_2.
    + apply (Hne p); [done|lia].
    + apply (Hne c); [done|lia].
    + pose proof (lookup_lt_Some _ _ _ Hx).
      transitivity x; [apply (Hok p i)|apply (Hok i c)]; unfold heap_child; try done; lia.
Qed.

Lemma heap_ok_mono {A} (le le' : A -> A -> Prop) (l : list A) :
  heap_ok le l -> (forall a b, a ∈ l -> b ∈ l -> le a b -> le' a b) -> heap_ok le' l.
Proof. intros Hok Hle p c x y Hpc Hc Hx Hy. apply Hle; eauto using list_elem_of_lookup_2. Qed.

(** ** A heap of the accounts of a map *)

Definition heap_for {P C} `{Countable P} (le : P -> P -> Prop) (h : Heap P) (txs : gmap P C) : Prop :=
  Heap_wf le h /\ NoDup (hd_data h) /\ forall a, a ∈ hd_data h <-> is_Some (txs !! a).

Section heap_for.
Context {P C : Type} `{Countable P}.
Context (less' : P -> P -> bool) (le le' : P -> P -> Prop) `{!PreOrder le, !PreOrder le'}.
Context (less_true : forall x y, less' x y = true -> le' x y).
Context (less_false : forall x y, less' x y = false -> le' y x).
Implicit Types txs : gmap P C.

Lemma heap_for_fix h txs a c :
  heap_for le h txs -> is_Some (txs !! a) ->
  (forall x y, x ∈ hd_data h -> y ∈ hd_data h -> x <> a -> y <> a -> le x y -> le' x y) ->
  exists h', heap_Fix (H0 := Heap_interface less') h (GetHeapIndex h a) = Some h'
    /\ heap_for le' h' (<[a := c]> txs).
Proof.
  intros ([Hok Hi] & Hnd & Hd) Ha Hle. pose proof (proj2 (Hd a) Ha) as [i Hx]%list_elem_of_lookup.
  destruct (Heap_Fix_wf less' le' less_true less_false h a i Hi Hx) as (h' & Hf & Hwf & Hp).
  { by apply (heap_ok_except le le' _ _ a). }
  exists h'. split; [exact Hf|]. split; [done|]. rewrite Hp. split; [done|]. intros b. rewrite Hp, Hd.
  destruct (decide (a = b)) as [<- | Hne]; [rewrite lookup_insert_eq; by split|].
  by rewrite lookup_insert_ne.
Qed.

Lemma heap_for_remove h txs a :
  heap_for le h txs -> is_Some (txs !! a) ->
  (forall x y, x ∈ hd_data h -> y ∈ hd_data h -> x <> a -> y <> a -> le x y -> le' x y) ->
  exists h', heap_Remove (H0 := Heap_interface less') h (GetHeapIndex h a) = Some (a, h')
    /\ heap_for le' h' (delete a txs).
Proof.
  intros ([Hok Hi] & Hnd & Hd) Ha Hle. pose proof (proj2 (Hd a) Ha) as [i Hx]%list_elem_of_lookup.
  destruct (Heap_Remove_except less' le' less_true less_false h a i Hi Hx) as (h' & Hf & Hwf & Hp).
  { by apply (heap_ok_except le le' _ _ a). }
  exists h'. split; [exact Hf|]. split; [done|]. rewrite Hp in Hnd. apply NoDup_cons in Hnd as [Hna Hnd].
  split; [done|]. intros b. specialize (Hd b). rewrite Hp, elem_of_cons in Hd.
  destruct (decide (a = b)) as [<- | Hne].
  - rewrite lookup_delete_eq. split; [by intros|by intros [? ?]].
  - rewrite lookup_delete_ne by done. rewrite <- Hd. split; [by right|]. by intros [-> |].
Qed.

Lemma heap_for_push h txs a c :
  heap_for le' h txs -> txs !! a = None ->
  heap_for le' (heap_Push (H0 := Heap_interface less') h a) (<[a := c]> txs).
Proof.
  intros (Hwf & Hnd & Hd) Ha.
  assert (Hna : a ∉ hd_data h) by (rewrite Hd, Ha; by intros [? ?]).
  destruct (Heap_Push_wf less' le' less_true less_false h a Hwf Hna) as [Hwf' Hp].
  unfold Heap_interface_here in *. split; [done|]. rewrite Hp. split; [by constructor|].
  intros b. rewrite Hp, elem_of_cons, Hd. destruct (decide (a = b)) as [<- | Hne].
  - rewrite lookup_insert_eq. split; [by eauto|by left].
  - rewrite lookup_insert_ne by done. split; [by intros [-> |]|by right].
Qed.

Lemma heap_for_pop h txs a :
  heap_for le' h txs -> Heap_Peek h = Some a ->
  exists h', heap_Pop (H0 := Heap_interface less') h = Some (a, h')
    /\ heap_for le' h' (delete a txs) /\ is_Some (txs !! a)
    /\ forall b, is_Some (txs !! b) -> le' a b.
Proof.
  intros (Hwf & Hnd & Hd) Ha.
  destruct (Heap_Pop_wf less' le' less_true less_false h a Hwf Ha) as (h' & Hpop & Hwf' & Hp & Hmin).
  exists h'. split; [exact Hpop|].
  assert (Hin : a ∈ hd_data h) by (rewrite Hp; left).
  rewrite Hp in Hnd. apply NoDup_cons in Hnd as [Hna Hnd]. split; [|split].
  - split; [done|]. split; [done|]. intros b. specialize (Hd b). rewrite Hp, elem_of_cons in Hd.
    destruct (decide (a = b)) as [<- | Hne].
    + rewrite lookup_delete_eq. split; [by intros|by intros [? ?]].
    + rewrite lookup_delete_ne by done. rewrite <- Hd. split; [by right|]. by intros [-> |].
  - by apply Hd.
  - intros b Hb. apply Hmin, Hd, Hb.
Qed.

Lemma heap_for_mono h txs :
  heap_for le h txs -> (forall x y, x ∈ hd_data h -> y ∈ hd_data h -> le x y -> le' x y) ->
  heap_for le' h txs.
Proof. intros ([Hok Hi] & Hnd & Hd) Hle. split; [|done]. split; [by apply (heap_ok_mono le)|done]. Qed.
End heap_for.

Section proofs.
Context {Obj : Type} `{PoolObject Obj} `{Inhabited Obj}.
Implicit Types items : Items Obj.
Implicit Types c : txCollection.
Implicit Types q : pendingQueue.

Lemma cmp_items_sym items i j : cmp_items items j i = - cmp_items items i j.
Proof.
  destruct i as [i|], j as [j|]; cbn; try done.
  repeat case_match; repeat match goal with H : (_ <? _) = _ |- _ => first [apply Z.ltb_lt in H|apply Z.ltb_ge in H] end; lia.
Qed.

Lemma cmp_items_trans items i j k :
  0 <= cmp_items items i j -> 0 <= cmp_items items j k -> 0 <= cmp_items items i k.
Proof.
  destruct i as [i|], j as [j|], k as [k|]; cbn; try lia.
  repeat case_match; repeat match goal with H : (_ <? _) = _ |- _ => first [apply Z.ltb_lt in H|apply Z.ltb_ge in H] end; lia.
Qed.

Lemma cmp_items_refl items i : cmp_items items i i = 0.
Proof. pose proof (cmp_items_sym items i i). lia. Qed.

Lemma cmp_items_price items i j :
  0 <= cmp_items items (Some i) (Some j) -> Price (item_obj items j) <= Price (item_obj items i).
Proof. cbn. destruct (Z.ltb_spec (Price (item_obj items i)) (Price (item_obj items j))); lia. Qed.

(** The orders of the three heaps. *)
Definition nonce_le items (i j : nat) : Prop := nonce_of items i <= nonce_of items j.

Definition best_le items (txs : gmap Address txCollection) (a b : Address) : Prop :=
  0 <= col_cmp items (coll txs a) (coll txs b).

Definition worst_le items (txs : gmap Address txCollection) (a b : Address) : Prop :=
  0 <= col_cmp items (coll txs b) (coll txs a).

#[local] Instance nonce_le_preorder items : PreOrder (nonce_le items).
Proof. split; [intros i|intros i j k]; unfold nonce_le; lia. Qed.

#[local] Instance best_le_preorder items txs : PreOrder (best_le items txs).
Proof.
  split; [intros a|intros a b d]; unfold best_le, col_cmp.
  - by rewrite cmp_items_refl.
  - apply cmp_items_trans.
Qed.

#[local] Instance worst_le_preorder items txs : PreOrder (worst_le items txs).
Proof.
  split; [intros a|intros a b d]; unfold worst_le, col_cmp.
  - by rewrite cmp_items_refl.
  - intros H1 H2. by eapply cmp_items_trans.
Qed.

Lemma nonce_less_true items i j : nonce_less items i j = true -> nonce_le items i j.
Proof. unfold nonce_less, nonce_le. lia. Qed.
Lemma nonce_less_false items i j : nonce_less items i j = false -> nonce_le items j i.
Proof. unfold nonce_less, nonce_le. lia. Qed.

Lemma best_less_true items txs a b : best_less items txs a b = true -> best_le items txs a b.
Proof. unfold best_less, best_le. lia. Qed.
Lemma best_less_false items txs a b : best_less items txs a b = false -> best_le items txs b a.
Proof. unfold best_less, best_le, col_cmp. rewrite (cmp_items_sym items (col_peek (coll txs a))). lia. Qed.

Lemma worst_less_true items txs a b : worst_less items txs a b = true -> worst_le items txs a b.
Proof. unfold worst_less, worst_le, col_cmp. rewrite (cmp_items_sym items (col_peek (coll txs a))). lia. Qed.
Lemma worst_less_false items txs a b : worst_less items txs a b = false -> worst_le items txs b a.
Proof. unfold worst_less, worst_le. lia. Qed.

(** ** Collections *)

Record col_ok items (a : Address) c : Prop := mkColOk {
  ok_heap : Heap_wf (nonce_le items) (col_nonceHeap c);
  ok_nodup : NoDup (hd_data (col_nonceHeap c));
  ok_txs n i : col_txs c !! n = Some i <-> i ∈ hd_data (col_nonceHeap c) /\ nonce_of items i = n;
  ok_from i : i ∈ hd_data (col_nonceHeap c) -> FromAccount (item_obj items i) = a
}.

Lemma newTxCollection_ok items a : col_ok items a newTxCollection.
Proof.
  split.
  - apply (NewHeap_wf (nonce_le items)).
  - constructor.
  - intros n i. cbn. rewrite lookup_empty. split; [done|]. by intros [?%not_elem_of_nil _].
  - intros i Hi. by apply not_elem_of_nil in Hi.
Qed.

Lemma col_push_ok items a c tx :
  col_ok items a c -> col_txs c !! nonce_of items tx = None -> FromAccount (item_obj items tx) = a ->
  let c' := (col_add items c tx).1.2 in
  (col_add items c tx).1.1 = items /\ col_ok items a c' /\ col_txs c' = <[nonce_of items tx := tx]> (col_txs c)
  /\ hd_data (col_nonceHeap c') ≡ₚ tx :: hd_data (col_nonceHeap c).
Proof.
  intros [Hh Hnd Htx Hfr] Hn Hf. unfold col_add. rewrite Hn. cbn [fst snd col_txs col_nonceHeap].
  assert (Hnew : tx ∉ hd_data (col_nonceHeap c)).
  { intros Hin. assert (col_txs c !! nonce_of items tx = Some tx) by (by apply Htx). congruence. }
  destruct (Heap_Push_wf (nonce_less items) (nonce_le items) (nonce_less_true items) (nonce_less_false items)
    (col_nonceHeap c) tx Hh Hnew) as [Hwf Hp].
  split; [done|]. split; [|by split]. split; cbn [col_txs col_nonceHeap].
  - exact Hwf.
  - rewrite Hp. by constructor.
  - intros n i. rewrite Hp, elem_of_cons. destruct (decide (nonce_of items tx = n)) as [<- | Hne].
    + rewrite lookup_insert_eq. split; [intros [= <-]; by auto|]. intros [[-> | Hin] Hni]; [done|].
      assert (col_txs c !! nonce_of items tx = Some i) by (by apply Htx). congruence.
    + rewrite lookup_insert_ne, Htx by done. split; [tauto|]. intros [[-> | ?] ?]; [done|done].
  - intros i. rewrite Hp, elem_of_cons. intros [-> | Hin]; [done|by apply Hfr].
Qed.

(** The object of an item is replaced by one of the same account and nonce. *)
Lemma col_replace_ok items a c tx e :
  col_ok items a c -> nonce_of items tx = nonce_of items e ->
  FromAccount (item_obj items tx) = FromAccount (item_obj items e) ->
  col_ok (<[e := items !!! tx]> items) a c.
Proof.
  intros [Hh Hnd Htx Hfr] Hn Hf. set (items' := <[e := items !!! tx]> items).
  assert (Hobj : forall i, item_obj items' i = if decide (i = e) then item_obj items tx else item_obj items i).
  { intros i. unfold item_obj, items'. case_decide as Hi; [subst; by rewrite lookup_total_insert_eq|].
    by rewrite lookup_total_insert_ne. }
  assert (Hno : forall i, nonce_of items' i = nonce_of items i).
  { intros i. unfold nonce_of in *. rewrite Hobj. by case_decide; subst. }
  split.
  - destruct Hh as [Hh Hi]. split; [|done]. apply (heap_ok_mono (nonce_le items)); [done|].
    intros i j _ _. unfold nonce_le. by rewrite !Hno.
  - done.
  - intros n i. by rewrite Hno.
  - intros i Hi. rewrite Hobj. case_decide; subst; [|by apply Hfr]. rewrite Hf. by apply Hfr.
Qed.

Lemma col_remove_ok items a c n tx :
  col_ok items a c -> col_txs c !! n = Some tx ->
  exists c', col_remove items c n = Some (c', true) /\ col_ok items a c'
    /\ col_txs c' = delete n (col_txs c)
    /\ hd_data (col_nonceHeap c) ≡ₚ tx :: hd_data (col_nonceHeap c').
Proof.
  intros [Hh Hnd Htx Hfr] Hn. unfold col_remove. rewrite Hn.
  pose proof (proj1 (Htx n tx) Hn) as [Hin Hno].
  destruct (Heap_Remove_wf (nonce_less items) (nonce_le items) (nonce_less_true items) (nonce_less_false items)
    (col_nonceHeap c) tx Hh Hin) as (h & Hr & Hwf & Hp).
  unfold nonce_heap. unfold Heap_interface_here in Hr. rewrite Hr. eexists. split; [done|]. split; [|by split].
  rewrite Hp in Hnd. apply NoDup_cons in Hnd as [Hni Hnd']. split; cbn [col_txs col_nonceHeap].
  - exact Hwf.
  - done.
  - intros m i. destruct (decide (n = m)) as [<- | Hne].
    + rewrite lookup_delete_eq. split; [done|]. intros [Hi Him].
      assert (Hsi : col_txs c !! n = Some i) by (apply Htx; rewrite Hp; split; [by right|done]). congruence.
    + rewrite lookup_delete_ne, Htx, Hp, elem_of_cons by done. split; [|tauto].
      intros [[-> | ?] ?]; [congruence|done].
  - intros i Hi. apply Hfr. rewrite Hp. by right.
Qed.

Lemma col_pop_ok items a c tx :
  col_ok items a c -> col_peek c = Some tx ->
  exists c', col_pop items c = Some (tx, c') /\ col_ok items a c'
    /\ col_txs c' = delete (nonce_of items tx) (col_txs c)
    /\ hd_data (col_nonceHeap c) ≡ₚ tx :: hd_data (col_nonceHeap c')
    /\ (forall n i, col_txs c !! n = Some i -> nonce_of items tx <= n).
Proof.
  intros [Hh Hnd Htx Hfr] Hpk. unfold col_pop.
  destruct (Heap_Pop_wf (nonce_less items) (nonce_le items) (nonce_less_true items) (nonce_less_false items)
    (col_nonceHeap c) tx Hh Hpk) as (h & Hr & Hwf & Hp & Hmin).
  unfold nonce_heap. unfold Heap_interface_here in Hr. rewrite Hr. eexists. split; [done|]. split; [|split; [done|split; [done|]]].
  2: { intros n i Hi. apply Htx in Hi as [Hin <-]. by apply Hmin. }
  rewrite Hp in Hnd. apply NoDup_cons in Hnd as [Hni Hnd']. split; cbn [col_txs col_nonceHeap].
  - exact Hwf.
  - done.
  - intros m i. destruct (decide (nonce_of items tx = m)) as [<- | Hne].
    + rewrite lookup_delete_eq. split; [done|]. intros [Hi Him].
      assert (Hsi : col_txs c !! nonce_of items tx = Some i) by (apply Htx; rewrite Hp; split; [by right|done]).
      assert (Hst : col_txs c !! nonce_of items tx = Some tx) by (apply Htx; rewrite Hp; split; [by left|done]).
      congruence.
    + rewrite lookup_delete_ne, Htx, Hp, elem_of_cons by done. split; [|tauto].
      intros [[-> | ?] ?]; [done|done].
  - intros i Hi. apply Hfr. rewrite Hp. by right.
Qed.

Lemma col_len_data c : col_len c = length (hd_data (col_nonceHeap c)).
Proof. done. Qed.

Lemma col_peek_some c : col_len c <> 0%nat -> exists tx, col_peek c = Some tx /\ tx ∈ hd_data (col_nonceHeap c).
Proof.
  unfold col_len, Heap_Len, col_peek, Heap_Peek. destruct (hd_data (col_nonceHeap c)) as [|tx l]; [done|].
  intros _. exists tx. split; [done|left].
Qed.

(** ** The queue *)

Record queue_ok items q : Prop := mkQueueOk {
  ok_cols a c : q_txs q !! a = Some c -> col_ok items a c /\ col_len c <> 0%nat;
  ok_best : heap_for (best_le items (q_txs q)) (q_bestHeap q) (q_txs q);
  ok_worst : heap_for (worst_le items (q_txs q)) (q_worstHeap q) (q_txs q)
}.

Lemma newPendingQueue_ok items : queue_ok items newPendingQueue.
Proof.
  split; cbn; [done|..]; (split; [apply NewHeap_wf|]); (split; [constructor|]); intros a;
    rewrite lookup_empty; split; try (by intros ?%not_elem_of_nil); by intros [? ?].
Qed.

Lemma queue_get_ok items q a n i :
  queue_ok items q -> queue_get q a n = Some i ->
  FromAccount (item_obj items i) = a /\ nonce_of items i = n.
Proof.
  intros Hq. unfold queue_get. destruct (q_txs q !! a) as [c|] eqn:Hc; [|done].
  destruct (ok_cols _ _ Hq a c Hc) as [Hok _]. intros Hi. apply (ok_txs _ _ _ Hok) in Hi as [Hin Hn].
  split; [by apply (ok_from _ _ _ Hok)|done].
Qed.

(** The items of other accounts are not touched. *)
Definition same_others items items' (a : Address) q : Prop :=
  forall b c i, q_txs q !! b = Some c -> b <> a -> i ∈ hd_data (col_nonceHeap c) ->
    items' !!! i = items !!! i.

Lemma coll_insert_ne (txs : gmap Address txCollection) a b c : a <> b -> coll (<[a := c]> txs) b = coll txs b.
Proof. intros Hne. unfold coll. by rewrite lookup_insert_ne. Qed.

Lemma col_peek_in c i : col_peek c = Some i -> i ∈ hd_data (col_nonceHeap c).
Proof. unfold col_peek, Heap_Peek. apply list_elem_of_lookup_2. Qed.

Lemma cmp_others items items' q a c b d :
  same_others items items' a q -> is_Some (q_txs q !! b) -> is_Some (q_txs q !! d) -> b <> a -> d <> a ->
  col_cmp items' (coll (<[a := c]> (q_txs q)) b) (coll (<[a := c]> (q_txs q)) d)
  = col_cmp items (coll (q_txs q) b) (coll (q_txs q) d).
Proof.
  intros Hs [cb Hb] [cd Hd] Hba Hda. rewrite !coll_insert_ne by done. unfold coll. rewrite Hb, Hd. cbn.
  unfold col_cmp, cmp_items, item_obj.
  destruct (col_peek cb) as [i|] eqn:Hi, (col_peek cd) as [j|] eqn:Hj; try done.
  by rewrite (Hs b cb i), (Hs d cd j) by (done || by apply col_peek_in).
Qed.

Lemma col_ok_same items items' a c :
  col_ok items a c -> (forall i, i ∈ hd_data (col_nonceHeap c) -> items' !!! i = items !!! i) ->
  col_ok items' a c.
Proof.
  intros [Hh Hnd Htx Hfr] Hs.
  assert (Hn : forall i, i ∈ hd_data (col_nonceHeap c) -> nonce_of items' i = nonce_of items i).
  { intros i Hi. unfold nonce_of, item_obj. by rewrite Hs. }
  split.
  - destruct Hh as [Hh Hi]. split; [|done]. apply (heap_ok_mono (nonce_le items)); [done|].
    intros i j Hii Hjj. unfold nonce_le. by rewrite !Hn.
  - done.
  - intros n i. rewrite Htx. split; intros [Hi Hni]; (split; [done|]); [by rewrite Hn|by rewrite <- Hn].
  - intros i Hi. unfold item_obj. rewrite Hs by done. by apply Hfr.
Qed.

Lemma cols_insert items items' q a c :
  queue_ok items q -> same_others items items' a q -> col_ok items' a c -> col_len c <> 0%nat ->
  forall b d, <[a := c]> (q_txs q) !! b = Some d -> col_ok items' b d /\ col_len d <> 0%nat.
Proof.
  intros Hq Hs Hc Hl b d. destruct (decide (a = b)) as [<- | Hne].
  - rewrite lookup_insert_eq. by intros [= <-].
  - rewrite lookup_insert_ne by done. intros Hd. destruct (ok_cols _ _ Hq b d Hd) as [Hok Hne0].
    split; [|done]. apply (col_ok_same items); [done|]. intros i Hi. by apply (Hs b d).
Qed.

Lemma fix_heaps_ok items items' q a c c0 :
  queue_ok items q -> q_txs q !! a = Some c0 -> same_others items items' a q ->
  col_ok items' a c -> col_len c <> 0%nat ->
  exists q', fix_heaps items' (<[a := c]> (q_txs q)) q a = Some q'
    /\ queue_ok items' q' /\ q_txs q' = <[a := c]> (q_txs q).
Proof.
  intros Hq Ha Hs Hc Hl. pose proof (ok_best _ _ Hq) as Hb. pose proof (ok_worst _ _ Hq) as Hw.
  set (txs := <[a := c]> (q_txs q)).
  destruct (heap_for_fix (best_less items' txs) (best_le items (q_txs q)) (best_le items' txs)
    (best_less_true items' txs) (best_less_false items' txs) (q_bestHeap q) (q_txs q) a c Hb)
    as (best & Hfb & Hbest); [by eexists| |].
  { intros x y Hx Hy Hxa Hya. unfold best_le. unfold txs.
    rewrite (cmp_others items items' q a c x y); [done|done|by apply Hb|by apply Hb|done|done]. }
  destruct (heap_for_fix (worst_less items' txs) (worst_le items (q_txs q)) (worst_le items' txs)
    (worst_less_true items' txs) (worst_less_false items' txs) (q_worstHeap q) (q_txs q) a c Hw)
    as (worst & Hfw & Hworst); [by eexists| |].
  { intros x y Hx Hy Hxa Hya. unfold worst_le. unfold txs.
    rewrite (cmp_others items items' q a c y x); [done|done|by apply Hw|by apply Hw|done|done]. }
  unfold fix_heaps, best_heap, worst_heap. rewrite Hfb, Hfw. eexists. split; [done|]. split; [|done].
  split; cbn; [by apply (cols_insert items)|done|done].
Qed.

Lemma remove_heaps_ok items q a c c0 :
  queue_ok items q -> q_txs q !! a = Some c0 ->
  exists q', remove_heaps items (<[a := c]> (q_txs q)) q a = Some q'
    /\ queue_ok items q' /\ q_txs q' = delete a (q_txs q).
Proof.
  intros Hq Ha. pose proof (ok_best _ _ Hq) as Hb. pose proof (ok_worst _ _ Hq) as Hw.
  set (txs := <[a := c]> (q_txs q)).
  assert (Hsame : same_others items items a q) by done.
  destruct (heap_for_remove (best_less items txs) (best_le items (q_txs q)) (best_le items txs)
    (best_less_true items txs) (best_less_false items txs) (q_bestHeap q) (q_txs q) a Hb)
    as (best & Hfb & Hbest); [by eexists| |].
  { intros x y Hx Hy Hxa Hya. unfold best_le. unfold txs.
    rewrite (cmp_others items items q a c x y); [done|done|by apply Hb|by apply Hb|done|done]. }
  destruct (heap_for_remove (worst_less items txs) (worst_le items (q_txs q)) (worst_le items txs)
    (worst_less_true items txs) (worst_less_false items txs) (q_worstHeap q) (q_txs q) a Hw)
    as (worst & Hfw & Hworst); [by eexists| |].
  { intros x y Hx Hy Hxa Hya. unfold worst_le. unfold txs.
    rewrite (cmp_others items items q a c y x); [done|done|by apply Hw|by apply Hw|done|done]. }
  unfold remove_heaps, best_heap, worst_heap. rewrite Hfb, Hfw. eexists. split; [done|].
  assert (Htxs : delete a txs = delete a (q_txs q)) by (unfold txs; by rewrite delete_insert_eq).
  rewrite Htxs. split; [|done].
  assert (Hcoll : forall b, is_Some (delete a (q_txs q) !! b) -> coll (delete a (q_txs q)) b = coll txs b).
  { intros b Hbs. destruct (decide (a = b)) as [<- | Hne]; [rewrite lookup_delete_eq in Hbs; by destruct Hbs|].
    unfold coll, txs. by rewrite lookup_delete_ne, lookup_insert_ne. }
  split; cbn.
  - intros b d. destruct (decide (a = b)) as [<- | Hne]; [by rewrite lookup_delete_eq|].
    rewrite lookup_delete_ne by done. by apply (ok_cols _ _ Hq).
  - apply (heap_for_mono (best_le items txs)); [done|]. intros x y Hx Hy. unfold best_le.
    by rewrite !Hcoll by (by apply Hbest).
  - apply (heap_for_mono (worst_le items txs)); [done|]. intros x y Hx Hy. unfold worst_le.
    by rewrite !Hcoll by (by apply Hworst).
Qed.

(** A collection that lost one item. *)
Lemma after_loss_ok items q a c c0 :
  queue_ok items q -> q_txs q !! a = Some c0 -> col_ok items a c ->
  exists q', after_loss items q a c = Some q' /\ queue_ok items q'
    /\ q_txs q' = if (col_len c =? 0)%nat then delete a (q_txs q) else <[a := c]> (q_txs q).
Proof.
  intros Hq Ha Hc. unfold after_loss. destruct (Nat.eqb_spec (col_len c) 0) as [Hz|Hz].
  - by apply (remove_heaps_ok items q a c c0).
  - by apply (fix_heaps_ok items items q a c c0).
Qed.

Lemma empty_collection items a c n : col_ok items a c -> col_len c = 0%nat -> col_txs c !! n = None.
Proof.
  intros Hc Hz. destruct (col_txs c !! n) as [i|] eqn:Hi; [|done].
  apply (ok_txs _ _ _ Hc) in Hi as [Hin _]. unfold col_len, Heap_Len in Hz.
  apply length_zero_iff_nil in Hz. rewrite Hz in Hin. by apply not_elem_of_nil in Hin.
Qed.

Lemma after_loss_get items q q' a c n b m :
  col_ok items a c ->
  q_txs q' = (if (col_len c =? 0)%nat then delete a (q_txs q) else <[a := c]> (q_txs q)) ->
  (forall k, col_txs c !! k = if decide (k = n) then None else match q_txs q !! a with
    | Some c0 => col_txs c0 !! k | None => None end) ->
  queue_get q' b m = if decide (b = a /\ m = n) then None else queue_get q b m.
Proof.
  intros Hc Htx Hk. unfold queue_get, col_get. rewrite Htx.
  destruct (decide (b = a)) as [-> | Hne].
  - assert (Hnew : (match (if (col_len c =? 0)%nat then delete a (q_txs q) else <[a := c]> (q_txs q)) !! a with
      | None => None | Some c => col_txs c !! m end) = col_txs c !! m).
    { destruct (Nat.eqb_spec (col_len c) 0) as [Hz|Hz].
      - rewrite lookup_delete_eq. symmetry. by apply (empty_collection items a).
      - by rewrite lookup_insert_eq. }
    rewrite Hnew, Hk. repeat case_decide; try done; naive_solver.
  - rewrite decide_False by naive_solver. destruct (col_len c =? 0)%nat;
      by rewrite ?lookup_delete_ne, ?lookup_insert_ne by done.
Qed.

(** ** What the operations do to the pending items *)

Lemma in_collection items q a c i :
  queue_ok items q -> q_txs q !! a = Some c -> i ∈ hd_data (col_nonceHeap c) ->
  queue_get q a (nonce_of items i) = Some i.
Proof.
  intros Hq Hc Hi. destruct (ok_cols _ _ Hq a c Hc) as [Hok _]. unfold queue_get. rewrite Hc.
  by apply (ok_txs _ _ _ Hok).
Qed.

Lemma queue_add_new items q tx :
  queue_ok items q -> queue_get q (FromAccount (item_obj items tx)) (nonce_of items tx) = None ->
  exists q', queue_add items q tx = Some (items, q') /\ queue_ok items q'
    /\ forall b m, queue_get q' b m
        = if decide (b = FromAccount (item_obj items tx) /\ m = nonce_of items tx) then Some tx
          else queue_get q b m.
Proof.
  intros Hq Hn. unfold queue_add. set (a := FromAccount (item_obj items tx)) in *.
  set (c0 := coll (q_txs q) a).
  assert (Hc0 : col_ok items a c0 /\ col_txs c0 !! nonce_of items tx = None).
  { unfold c0, coll, queue_get in *. destruct (q_txs q !! a) as [c|] eqn:Hc; cbn.
    - split; [by apply (ok_cols _ _ Hq)|done].
    - split; [apply newTxCollection_ok|by rewrite lookup_empty]. }
  destruct Hc0 as [Hok0 Hn0].
  destruct (col_push_ok items a c0 tx Hok0 Hn0 eq_refl) as (Hit & Hok & Htx & Hp).
  destruct (col_add items c0 tx) as [[items' c'] bnew] eqn:Hadd. cbn in Hit, Hok, Htx, Hp. subst items'.
  assert (Hlen : col_len c' <> 0%nat).
  { unfold col_len, Heap_Len. by rewrite Hp. }
  assert (Hget : forall q', q_txs q' = <[a := c']> (q_txs q) -> forall b m, queue_get q' b m
    = if decide (b = a /\ m = nonce_of items tx) then Some tx else queue_get q b m).
  { intros q' Hq' b m. unfold queue_get, col_get. rewrite Hq'. destruct (decide (b = a)) as [-> | Hne].
    - rewrite lookup_insert_eq, Htx. destruct (decide (m = nonce_of items tx)) as [-> | Hm].
      + by rewrite lookup_insert_eq, decide_True.
      + rewrite lookup_insert_ne, decide_False by naive_solver. unfold c0, coll.
        destruct (q_txs q !! a); [done|]. by cbn; rewrite lookup_empty.
    - rewrite lookup_insert_ne, decide_False by naive_solver. done. }
  destruct (q_txs q !! a) as [c|] eqn:Hc.
  - assert (c0 = c) as Hcc by (unfold c0, coll; by rewrite Hc). rewrite Hcc in Hadd. rewrite Hadd.
    destruct (fix_heaps_ok items items q a c' c Hq Hc) as (q' & Hf & Hq' & Htq); [done|done|done|].
    rewrite Hf. exists q'. split; [done|]. split; [done|]. by apply Hget.
  - assert (c0 = newTxCollection) as Hcc by (unfold c0, coll; by rewrite Hc). rewrite Hcc in Hadd. rewrite Hadd.
    eexists. split; [done|]. split; [|by apply Hget]. set (txs := <[a := c']> (q_txs q)).
    assert (Hcoll : forall b, is_Some (q_txs q !! b) -> coll txs b = coll (q_txs q) b).
    { intros b [cb Hb]. unfold txs. apply coll_insert_ne. intros <-. congruence. }
    split; cbn.
    + by apply (cols_insert items).
    + apply (heap_for_push _ _ (best_less_true items txs) (best_less_false items txs)); [|done].
      apply (heap_for_mono (best_le items (q_txs q))); [apply Hq|]. intros x y Hx Hy. unfold best_le.
      by rewrite !Hcoll by (by apply (ok_best _ _ Hq)).
    + apply (heap_for_push _ _ (worst_less_true items txs) (worst_less_false items txs)); [|done].
      apply (heap_for_mono (worst_le items (q_txs q))); [apply Hq|]. intros x y Hx Hy. unfold worst_le.
      by rewrite !Hcoll by (by apply (ok_worst _ _ Hq)).
Qed.

(** An item for an account and a nonce that is pending already: the pending item
    gets its object. *)
Lemma queue_add_exist items q tx e :
  queue_ok items q -> queue_get q (FromAccount (item_obj items tx)) (nonce_of items tx) = Some e ->
  let items' := <[e := items !!! tx]> items in
  exists q', queue_add items q tx = Some (items', q') /\ queue_ok items' q' /\ q_txs q' = q_txs q.
Proof.
  intros Hq He items'. destruct (queue_get_ok _ _ _ _ _ Hq He) as [Hfe Hne].
  unfold queue_add. set (a := FromAccount (item_obj items tx)) in *. unfold queue_get, col_get in He.
  destruct (q_txs q !! a) as [c|] eqn:Hc; [|done]. unfold col_add. rewrite He.
  destruct (ok_cols _ _ Hq a c Hc) as [Hok Hl].
  destruct (fix_heaps_ok items items' q a c c Hq Hc) as (q' & Hf & Hq' & Htq); [| |done|].
  - intros b d i Hd Hba Hi. unfold items'. rewrite lookup_total_insert_ne; [done|]. intros ->.
    destruct (ok_cols _ _ Hq b d Hd) as [Hokd _]. apply (ok_from _ _ _ Hokd) in Hi. congruence.
  - apply col_replace_ok; [done|by rewrite Hne|by rewrite Hfe].
  - unfold items' in Hf. rewrite Hf. exists q'. split; [done|]. split; [done|].
    rewrite Htq. by apply insert_id.
Qed.

Lemma queue_remove_spec items q a n :
  queue_ok items q ->
  exists q', queue_remove items q a n = Some q' /\ queue_ok items q'
    /\ forall b m, queue_get q' b m = if decide (b = a /\ m = n) then None else queue_get q b m.
Proof.
  intros Hq. unfold queue_remove.
  assert (Hsame : queue_get q a n = None -> forall b m,
    queue_get q b m = if decide (b = a /\ m = n) then None else queue_get q b m).
  { intros Hn b m. case_decide as Hd; [|done]. by destruct Hd as [-> ->]. }
  destruct (q_txs q !! a) as [c|] eqn:Hc.
  2: { exists q. split; [done|]. split; [done|]. apply Hsame. unfold queue_get. by rewrite Hc. }
  destruct (ok_cols _ _ Hq a c Hc) as [Hok _].
  destruct (col_txs c !! n) as [tx|] eqn:Hn.
  - destruct (col_remove_ok items a c n tx Hok Hn) as (c' & -> & Hok' & Htx & _).
    destruct (after_loss_ok items q a c' c Hq Hc Hok') as (q' & -> & Hq' & Htq).
    exists q'. split; [done|]. split; [done|]. intros b m. apply (after_loss_get items q q' a c'); [done|done|].
    intros k. rewrite Hc, Htx. case_decide as Hk; [subst; apply lookup_delete_eq|].
    by rewrite lookup_delete_ne.
  - unfold col_remove. rewrite Hn. exists q. split; [done|]. split; [done|].
    apply Hsame. unfold queue_get, col_get. by rewrite Hc.
Qed.

(** The first item of an account: the one with the least nonce. *)
Definition first items q (a : Address) (i : nat) : Prop :=
  exists n, queue_get q a n = Some i /\ forall m j, queue_get q a m = Some j -> n <= m.

Lemma first_peek items q a c i :
  queue_ok items q -> q_txs q !! a = Some c -> col_peek c = Some i <-> first items q a i.
Proof.
  intros Hq Hc. destruct (ok_cols _ _ Hq a c Hc) as [Hok Hl]. split.
  - intros Hp. exists (nonce_of items i). split; [by apply (in_collection _ _ _ c), col_peek_in|].
    destruct (col_pop_ok items a c i Hok Hp) as (_ & _ & _ & _ & _ & Hmin). intros m j.
    unfold queue_get, col_get. rewrite Hc. apply Hmin.
  - intros (n & Hn & Hmin). destruct (col_peek_some c Hl) as (j & Hj & Hjin). rewrite Hj. f_equal.
    destruct (col_pop_ok items a c j Hok Hj) as (_ & _ & _ & _ & _ & Hminj).
    pose proof (in_collection items q a c j Hq Hc Hjin) as Hgj.
    assert (n = nonce_of items j) as ->.
    { apply Z.le_antisymm; [by apply (Hmin _ j)|]. unfold queue_get, col_get in Hn. rewrite Hc in Hn. by apply (Hminj _ i). }
    congruence.
Qed.

Lemma queue_empty_spec items q : queue_ok items q -> queue_empty q = true <-> forall a n, queue_get q a n = None.
Proof.
  intros Hq. pose proof (ok_best _ _ Hq) as (_ & _ & Hd). unfold queue_empty, Heap_Len. split.
  - intros Hz%Nat.eqb_eq%length_zero_iff_nil a n. unfold queue_get. destruct (q_txs q !! a) as [c|] eqn:Hc; [|done].
    assert (Hin : a ∈ hd_data (q_bestHeap q)) by (apply Hd; by eexists). rewrite Hz in Hin.
    by apply not_elem_of_nil in Hin.
  - intros Hn. destruct (hd_data (q_bestHeap q)) as [|a l]; [done|]. exfalso.
    destruct (proj1 (Hd a) ltac:(left)) as [c Hc]. destruct (ok_cols _ _ Hq a c Hc) as [_ Hl].
    destruct (col_peek_some c Hl) as (i & _ & Hi). pose proof (in_collection items q a c i Hq Hc Hi) as Hg.
    by rewrite Hn in Hg.
Qed.

(** Popping takes the first item of an account, and no account has a better one. *)
Lemma queue_count_lookup q a c :
  q_txs q !! a = Some c ->
  queue_count q = (col_len c + map_fold (fun _ c sum => (sum + col_len c)%nat) 0%nat (delete a (q_txs q)))%nat.
Proof.
  intros Hc. unfold queue_count.
  rewrite (map_fold_delete_L _ _ a c) by (done || (intros; lia)). lia.
Qed.

Lemma after_loss_count q q' a c c0 :
  q_txs q !! a = Some c0 ->
  q_txs q' = (if (col_len c =? 0)%nat then delete a (q_txs q) else <[a := c]> (q_txs q)) ->
  (queue_count q + col_len c = queue_count q' + col_len c0)%nat.
Proof.
  intros Hc0 Hq'. rewrite (queue_count_lookup q a c0 Hc0). destruct (Nat.eqb_spec (col_len c) 0) as [H0'|Hne].
  - unfold queue_count at 1. rewrite Hq'. lia.
  - rewrite (queue_count_lookup q' a c) by (rewrite Hq'; apply lookup_insert_eq).
    rewrite Hq', delete_insert_eq. lia.
Qed.

Lemma queue_pop_spec items q :
  queue_ok items q -> queue_empty q = false ->
  exists a tx q', queue_pop items q = Some (tx, q') /\ queue_ok items q'
    /\ first items q a tx /\ FromAccount (item_obj items tx) = a
    /\ queue_peek q = Some (coll (q_txs q) a) /\ col_peek (coll (q_txs q) a) = Some tx
    /\ (forall b j, first items q b j -> 0 <= cmp_items items (Some tx) (Some j))
    /\ (forall b m, queue_get q' b m = if decide (b = a /\ m = nonce_of items tx) then None else queue_get q b m)
    /\ queue_count q = S (queue_count q').
Proof.
  intros Hq Hne. unfold queue_pop.
  assert (Hpk : exists a, Heap_Peek (q_bestHeap q) = Some a).
  { unfold queue_empty, Heap_Len in Hne. unfold Heap_Peek. destruct (hd_data (q_bestHeap q)); [done|]. by eexists. }
  destruct Hpk as [a Ha]. rewrite Ha.
  destruct (heap_for_pop _ _ (best_less_true items (q_txs q)) (best_less_false items (q_txs q)) _ _ a (ok_best _ _ Hq) Ha)
    as (_ & _ & _ & [c Hc] & Hbest).
  assert (Hcoll : coll (q_txs q) a = c) by (unfold coll; by rewrite Hc). rewrite Hcoll.
  destruct (ok_cols _ _ Hq a c Hc) as [Hok Hl]. destruct (col_peek_some c Hl) as (tx & Htx & Hin).
  destruct (col_pop_ok items a c tx Hok Htx) as (c' & -> & Hok' & Hctx & Hp & _).
  pose proof (ok_from _ _ _ Hok tx Hin) as Hfrom. rewrite Hfrom. cbn [q_txs]. rewrite lookup_insert_eq.
  assert (Hal : after_loss items (mkQueue (<[a := c']> (q_txs q)) (q_bestHeap q) (q_worstHeap q)) a c'
    = after_loss items q a c').
  { unfold after_loss, remove_heaps, fix_heaps. cbn. by rewrite insert_insert_eq. }
  rewrite Hal. destruct (after_loss_ok items q a c' c Hq Hc Hok') as (q' & -> & Hq' & Htq).
  exists a, tx, q'. split; [done|]. split; [done|]. split; [by apply (first_peek items q a c)|].
  split; [done|]. split; [unfold queue_peek; by rewrite Ha|]. split; [by rewrite Hcoll|]. split.
  - intros b j Hj. pose proof Hj as (n & Hn & _). unfold queue_get in Hn.
    destruct (q_txs q !! b) as [cb|] eqn:Hb; [|done].
    assert (Hjp : col_peek cb = Some j) by (by apply (first_peek items q b cb)).
    specialize (Hbest b (ex_intro _ cb Hb)). unfold best_le, col_cmp, coll in Hbest.
    rewrite Hc, Hb in Hbest. cbn in Hbest. by rewrite Htx, Hjp in Hbest.
  - split.
    + intros b m. apply (after_loss_get items q q' a c'); [done|done|].
      intros k. rewrite Hc, Hctx. case_decide as Hk; [subst; apply lookup_delete_eq|].
      by rewrite lookup_delete_ne.
    + pose proof (after_loss_count q q' a c' c Hc Htq) as Hcnt. rewrite !col_len_data, Hp in Hcnt. cbn in Hcnt. lia.
Qed.

(** Discarding drops all items of the account whose first item is the worst, when
    that is cheaper than the price. *)
Lemma queue_discard_spec items q price :
  queue_ok items q ->
  (queue_discard items q price = Some (None, q)
    /\ forall a i, first items q a i -> price <= Price (item_obj items i))
  \/ exists a c i q', queue_discard items q price = Some (Some c, q') /\ queue_ok items q'
      /\ q_txs q !! a = Some c /\ col_ok items a c /\ col_peek c = Some i /\ first items q a i
      /\ Price (item_obj items i) < price
      /\ (forall b j, first items q b j -> 0 <= cmp_items items (Some j) (Some i))
      /\ forall b m, queue_get q' b m = if decide (b = a) then None else queue_get q b m.
Proof.
  intros Hq. unfold queue_discard. destruct (queue_empty q) eqn:He.
  { left. split; [done|]. intros a i (n & Hn & _). by rewrite (proj1 (queue_empty_spec items q Hq) He) in Hn. }
  pose proof (ok_worst _ _ Hq) as Hw. pose proof (ok_best _ _ Hq) as Hb.
  assert (Hpk : exists w, Heap_Peek (q_worstHeap q) = Some w).
  { unfold Heap_Peek. destruct (hd_data (q_worstHeap q)) as [|w l] eqn:Hd; [|by eexists]. exfalso.
    unfold queue_empty, Heap_Len in He. destruct (hd_data (q_bestHeap q)) as [|b l] eqn:Hdb; [done|].
    destruct Hb as (_ & _ & Hbd), Hw as (_ & _ & Hwd).
    assert (Hin : b ∈ hd_data (q_worstHeap q)) by (apply Hwd, Hbd; rewrite Hdb; left).
    rewrite Hd in Hin. by apply not_elem_of_nil in Hin. }
  destruct Hpk as [a Ha]. rewrite Ha.
  destruct (heap_for_pop _ _ (worst_less_true items (q_txs q)) (worst_less_false items (q_txs q)) _ _ a Hw Ha)
    as (worst & Hpop & Hworst & [c Hc] & Hmin).
  assert (Hcoll : coll (q_txs q) a = c) by (unfold coll; by rewrite Hc). rewrite Hcoll.
  destruct (ok_cols _ _ Hq a c Hc) as [Hok Hl]. destruct (col_peek_some c Hl) as (i & Hi & Hin). rewrite Hi.
  assert (Hfirst : first items q a i) by (by apply (first_peek items q a c)).
  assert (Hlast : forall b j, first items q b j -> 0 <= cmp_items items (Some j) (Some i)).
  { intros b j Hj. pose proof Hj as (n & Hn & _). unfold queue_get in Hn.
    destruct (q_txs q !! b) as [cb|] eqn:Hb'; [|done].
    assert (Hjp : col_peek cb = Some j) by (by apply (first_peek items q b cb)).
    specialize (Hmin b (ex_intro _ cb Hb')). unfold worst_le, col_cmp, coll in Hmin.
    rewrite Hc, Hb' in Hmin. cbn in Hmin. by rewrite Hi, Hjp in Hmin. }
  destruct (Z.leb_spec price (Price (item_obj items i))) as [Hle|Hgt].
  { left. split; [done|]. intros b j Hj%Hlast. apply cmp_items_price in Hj. lia. }
  right. pose proof (ok_from _ _ _ Hok i Hin) as Hfrom. rewrite Hfrom, Hc.
  unfold worst_heap. rewrite Hpop.
  destruct (heap_for_remove (best_less items (q_txs q)) (best_le items (q_txs q)) (best_le items (q_txs q))
    (best_less_true items (q_txs q)) (best_less_false items (q_txs q)) (q_bestHeap q) (q_txs q) a Hb)
    as (best & Hfb & Hbest); [by eexists|done|].
  unfold best_heap. rewrite Hfb. eexists a, c, i, _. split; [done|].
  assert (Hcd : forall b, is_Some (delete a (q_txs q) !! b) -> coll (delete a (q_txs q)) b = coll (q_txs q) b).
  { intros b Hbs. destruct (decide (a = b)) as [<- | Hne]; [rewrite lookup_delete_eq in Hbs; by destruct Hbs|].
    unfold coll. by rewrite lookup_delete_ne. }
  split.
  { split; cbn.
    - intros b d. destruct (decide (a = b)) as [<- | Hne]; [by rewrite lookup_delete_eq|].
      rewrite lookup_delete_ne by done. by apply (ok_cols _ _ Hq).
    - apply (heap_for_mono (best_le items (q_txs q))); [done|]. intros x y Hx Hy. unfold best_le.
      by rewrite !Hcd by (by apply Hbest).
    - apply (heap_for_mono (worst_le items (q_txs q))); [done|]. intros x y Hx Hy. unfold worst_le.
      by rewrite !Hcd by (by apply Hworst). }
  do 6 (split; [done|]).
  intros b m. unfold queue_get. cbn. case_decide as Hd; [subst; by rewrite lookup_delete_eq|].
  by rewrite lookup_delete_ne.
Qed.

Lemma queue_ok_fresh items q id it :
  queue_ok items q -> (forall a n, queue_get q a n <> Some id) -> queue_ok (<[id := it]> items) q.
Proof.
  intros Hq Hfr. set (items' := <[id := it]> items).
  assert (Hsame : forall b c i, q_txs q !! b = Some c -> i ∈ hd_data (col_nonceHeap c) ->
    items' !!! i = items !!! i).
  { intros b c i Hc Hi. unfold items'. rewrite lookup_total_insert_ne; [done|]. intros <-.
    by apply (Hfr b (nonce_of items id)), (in_collection items q b c). }
  assert (Hcmp : forall a b, is_Some (q_txs q !! a) -> is_Some (q_txs q !! b) ->
    col_cmp items' (coll (q_txs q) a) (coll (q_txs q) b) = col_cmp items (coll (q_txs q) a) (coll (q_txs q) b)).
  { intros a b [ca Ha] [cb Hb]. unfold coll. rewrite Ha, Hb. cbn. unfold col_cmp, cmp_items, item_obj.
    destruct (col_peek ca) as [i|] eqn:Hi, (col_peek cb) as [j|] eqn:Hj; try done.
    by rewrite (Hsame a ca i), (Hsame b cb j) by (done || by apply col_peek_in). }
  split.
  - intros a c Hc. destruct (ok_cols _ _ Hq a c Hc) as [Hok Hl]. split; [|done].
    apply (col_ok_same items); [done|]. intros i Hi. by apply (Hsame a c).
  - apply (heap_for_mono (best_le items (q_txs q))); [apply Hq|]. intros x y Hx Hy. unfold best_le.
    by rewrite Hcmp by (by apply (ok_best _ _ Hq)).
  - apply (heap_for_mono (worst_le items (q_txs q))); [apply Hq|]. intros x y Hx Hy. unfold worst_le.
    by rewrite Hcmp by (by apply (ok_worst _ _ Hq)).
Qed.
End proofs.
