(* ===== verification/Pool.v ===== *)
(** * The pool of transactions and debts

    Models [core/object_pool.go], and on it [core/tx_pool.go] with the cache of known
    transactions ([core/blockchain_txs_cache.go]). The state of the chain, the
    validation of an object and the test for objects that can be removed are
    parameters. The order in which Go walks a map is an argument wherever it
    matters; the time is one as well. The methods hold the lock of the pool, so that
    they are steps of the pool; what [afterAdd] announces is returned. A panic is
    [None]. *)

From Stdlib Require Import ZArith Lia.
From S2P Require Import Prelude Common GoHeap PoolQueue.

Open Scope Z_scope.

Inductive PoolError : Type :=
| errObjectHashExists
| errObjectPoolFull
| errObjectNonceUsed
| errCurrentState
| errValidateObject
| errDuplicateTx.

#[export] Instance PoolError_eq_dec : EqDecision PoolError.
Proof. solve_decision. Defined.

(** The functions a pool is made with, and the blocks of the chain. *)
Class PoolEnv (Obj St : Type) := {
  objectValidation : St -> Obj -> bool;
  canRemove : St -> poolItem Obj -> bool
}.

Record pool_block (Obj : Type) := mkPoolBlock {
  pb_HeaderHash : Hash;
  pb_PreviousBlockHash : Hash;
  pb_Height : Z;
  pb_Objects : list Obj
}.
Arguments mkPoolBlock {Obj} _ _ _ _.
Arguments pb_HeaderHash {Obj} _.
Arguments pb_PreviousBlockHash {Obj} _.
Arguments pb_Height {Obj} _.
Arguments pb_Objects {Obj} _.

Record Pool (Obj : Type) := mkPool {
  p_capacity : Z;
  p_items : Items Obj;
  p_nextItem : nat;
  p_hashToTxMap : gmap Hash nat;
  p_pendingQueue : pendingQueue;
  p_processingObjects : gset Hash
}.
Arguments mkPool {Obj} _ _ _ _ _ _.
Arguments p_capacity {Obj} _.
Arguments p_items {Obj} _.
Arguments p_nextItem {Obj} _.
Arguments p_hashToTxMap {Obj} _.
Arguments p_pendingQueue {Obj} _.
Arguments p_processingObjects {Obj} _.

Section pool.
Context {Obj St : Type} `{PoolObject Obj} `{Inhabited Obj} `{PoolEnv Obj St}.

Definition NewPool (capacity : Z) : Pool Obj :=
  mkPool capacity ∅ 0 ∅ newPendingQueue ∅.

Definition Has (p : Pool Obj) (hash : Hash) : bool :=
  match p_hashToTxMap p !! hash with Some _ => true | None => false end.

Definition GetObject (p : Pool Obj) (hash : Hash) : option Obj :=
  item_obj (p_items p) <$> p_hashToTxMap p !! hash.

(** ** Adding and removing *)

Definition doAddObject (now : Z) (p : Pool Obj) (obj : Obj) : option (Pool Obj) :=
  let poolTx := p_nextItem p in
  let items := <[poolTx := mkItem obj now]> (p_items p) in
  match queue_add items (p_pendingQueue p) poolTx with
  | None => None
  | Some (items', q) =>
      Some (mkPool (p_capacity p) items' (S poolTx) (<[GetHash obj := poolTx]> (p_hashToTxMap p)) q
              (p_processingObjects p))
  end.

Definition doRemoveObject (p : Pool Obj) (objHash : Hash) : option (Pool Obj) :=
  match p_hashToTxMap p !! objHash with
  | None => Some p
  | Some tx =>
      match queue_remove (p_items p) (p_pendingQueue p) (FromAccount (item_obj (p_items p) tx))
              (nonce_of (p_items p) tx) with
      | None => None
      | Some q =>
          Some (mkPool (p_capacity p) (p_items p) (p_nextItem p) (delete objHash (p_hashToTxMap p)) q
                  (p_processingObjects p ∖ {[objHash]}))
      end
  end.

(** The loop that empties a discarded collection; [fuel] is its length. *)
Fixpoint drop_collection (fuel : nat) (items : Items Obj) (c : txCollection) (m : gmap Hash nat)
    : option (gmap Hash nat) :=
  match fuel with
  | O => Some m
  | S fuel' =>
      match col_pop items c with
      | None => None
      | Some (tx, c') => drop_collection fuel' items c' (delete (GetHash (item_obj items tx)) m)
      end
  end.

Definition with_queue (p : Pool Obj) (m : gmap Hash nat) (q : pendingQueue) : Pool Obj :=
  mkPool (p_capacity p) (p_items p) (p_nextItem p) m q (p_processingObjects p).

(** The object that is pending for the account and nonce is replaced by one with a
    higher price. *)
Definition replace_pending (p : Pool Obj) (obj : Obj) : option (Pool Obj + PoolError) :=
  match queue_get (p_pendingQueue p) (FromAccount obj) (po_Nonce obj) with
  | None => Some (inl p)
  | Some existTx =>
      let exist := item_obj (p_items p) existTx in
      if Price exist <? Price obj then
        match doRemoveObject p (GetHash exist) with
        | None => None
        | Some p' => Some (inl p')
        end
      else Some (inr errObjectNonceUsed)
  end.

(** When the pool is full, the objects of the worst account make room. *)
Definition make_room (p : Pool Obj) (obj : Obj) : option (Pool Obj + PoolError) :=
  if p_capacity p <=? Z.of_nat (size (p_hashToTxMap p)) then
    match queue_discard (p_items p) (p_pendingQueue p) (Price obj) with
    | None => None
    | Some (None, _) => Some (inr errObjectPoolFull)
    | Some (Some c, q) =>
        if (col_len c =? 0)%nat then Some (inr errObjectPoolFull)
        else
          match drop_collection (col_len c) (p_items p) c (p_hashToTxMap p) with
          | None => None
          | Some m => Some (inl (with_queue p m q))
          end
    end
  else Some (inl p).

(** The pool, the object that [afterAdd] announces, and the error. *)
Definition addObject (now : Z) (state : option St) (p : Pool Obj) (obj : Obj)
    : option (Pool Obj * list Obj * option PoolError) :=
  if Has p (GetHash obj) then Some (p, [], Some errObjectHashExists)
  else
    match state with
    | None => Some (p, [], Some errCurrentState)
    | Some statedb =>
        if negb (objectValidation statedb obj) then Some (p, [], Some errValidateObject)
        else
          match replace_pending p obj with
          | None => None
          | Some (inr err) => Some (p, [], Some err)
          | Some (inl p1) =>
              match make_room p1 obj with
              | None => None
              | Some (inr err) => Some (p1, [], Some err)
              | Some (inl p2) =>
                  match doAddObject now p2 obj with
                  | None => None
                  | Some p3 => Some (p3, [obj], None)
                  end
              end
          end
    end.

(** The pool, what was announced, and the number of objects added. *)
Fixpoint addObjectArray (now : Z) (state : option St) (p : Pool Obj) (objects : list Obj)
    : option (Pool Obj * list Obj * nat) :=
  match objects with
  | [] => Some (p, [], 0%nat)
  | tx :: objects' =>
      match addObject now state p tx with
      | None => None
      | Some (p1, o1, err) =>
          match addObjectArray now state p1 objects' with
          | None => None
          | Some (p2, o2, count) =>
              Some (p2, o1 ++ o2, if err then count else S count)
          end
      end
  end.

Definition removeOject (p : Pool Obj) (objHash : Hash) : option (Pool Obj) := doRemoveObject p objHash.

(** The walk over the copy of the map that [getObjectMap] makes. *)
Fixpoint remove_each (statedb : St) (p : Pool Obj) (order : list (Hash * nat)) : option (Pool Obj) :=
  match order with
  | [] => Some p
  | (objHash, poolTx) :: order' =>
      if canRemove statedb (p_items p !!! poolTx) then
        match removeOject p objHash with
        | None => None
        | Some p' => remove_each statedb p' order'
        end
      else remove_each statedb p order'
  end.

Definition removeObjects (state : option St) (p : Pool Obj) (order : list (Hash * nat)) : option (Pool Obj) :=
  match state with
  | None => Some p
  | Some statedb => remove_each statedb p order
  end.

(** ** Objects for a block *)

(** The loop of [getProcessableObjects]; every round takes an item. *)
Fixpoint take_processable (fuel : nat) (items : Items Obj) (q : pendingQueue) (processing : gset Hash)
    (limit totalSize : Z) : option (list Obj * Z * pendingQueue * gset Hash) :=
  match fuel with
  | O => Some ([], totalSize, q, processing)
  | S fuel' =>
      if queue_empty q then Some ([], totalSize, q, processing)
      else
        match queue_peek q with
        | None => None
        | Some c =>
            match col_peek c with
            | None => None
            | Some tx =>
                let tmpSize := totalSize + po_Size (item_obj items tx) in
                if limit <? tmpSize then Some ([], totalSize, q, processing)
                else
                  match queue_pop items q with
                  | None => None
                  | Some (tx, q1) =>
                      let obj := item_obj items tx in
                      match take_processable fuel' items q1 ({[GetHash obj]} ∪ processing) limit tmpSize with
                      | None => None
                      | Some (l, total, q2, pr) => Some (obj :: l, total, q2, pr)
                      end
                  end
            end
        end
  end.

Definition getProcessableObjects (p : Pool Obj) (limit : Z) : option (Pool Obj * list Obj * Z) :=
  match take_processable (S (queue_count (p_pendingQueue p))) (p_items p) (p_pendingQueue p)
          (p_processingObjects p) limit 0 with
  | None => None
  | Some (txs, totalSize, q, processing) =>
      Some (mkPool (p_capacity p) (p_items p) (p_nextItem p) (p_hashToTxMap p) q processing, txs, totalSize)
  end.

Definition getObjectCount (p : Pool Obj) (processing pending : bool) : nat :=
  ((if processing then size (p_processingObjects p) else 0)
   + (if pending then queue_count (p_pendingQueue p) else 0))%nat.

(** [getObjects], for the orders in which the two maps are walked. *)
Definition getObjects (p : Pool Obj) (processing pending : bool) (hashes : list Hash)
    (accounts : list (Address * txCollection)) : list Obj :=
  (if processing then omap (GetObject p) hashes else [])
  ++ (if pending then queue_list (p_items p) accounts else []).

(** ** The chain *)

(** A round of [loopCheckingPool] when nothing is pending: [order] walks the map
    after the removals. *)
Fixpoint reinject_items (p : Pool Obj) (order : list (Hash * nat)) : option (Pool Obj * list Obj) :=
  match order with
  | [] => Some (p, [])
  | (_, poolTx) :: order' =>
      match queue_add (p_items p) (p_pendingQueue p) poolTx with
      | None => None
      | Some (items, q) =>
          let p1 := mkPool (p_capacity p) items (p_nextItem p) (p_hashToTxMap p) q (p_processingObjects p) in
          match reinject_items p1 order' with
          | None => None
          | Some (p2, l) => Some (p2, item_obj items poolTx :: l)
          end
      end
  end.

(** A round of [loopCheckingPool], as one step. The source holds the lock of the pool for the
    count, for the removals and for the re-adding each, not in between; an operation that runs
    there is a step before or after this one. *)
Definition check_pool (state : option St) (walk : gmap Hash nat -> list (Hash * nat)) (p : Pool Obj)
    : option (Pool Obj * list Obj) :=
  if (0 <? queue_count (p_pendingQueue p))%nat then Some (p, [])
  else
    match removeObjects state p (walk (p_hashToTxMap p)) with
    | None => None
    | Some p1 => reinject_items p1 (walk (p_hashToTxMap p1))
    end.

Definition note_objects (b : pool_block Obj) (m : gmap Hash Obj) : gmap Hash Obj :=
  fold_left (fun m obj => <[GetHash obj := obj]> m) (pb_Objects b) m.

(** Going back from a block to a height, noting the objects on the way. *)
Fixpoint go_back (fuel : nat) (store : Hash -> option (pool_block Obj)) (b : pool_block Obj) (height : Z)
    (m : gmap Hash Obj) : option (option (pool_block Obj * gmap Hash Obj)) :=
  match fuel with
  | O => None
  | S fuel' =>
      if height <? pb_Height b then
        match store (pb_PreviousBlockHash b) with
        | None => Some None
        | Some b' => go_back fuel' store b' height (note_objects b m)
        end
      else Some (Some (b, m))
  end.

(** Going back on both branches to the block they have in common. *)
Fixpoint go_back_both (fuel : nat) (store : Hash -> option (pool_block Obj))
    (lastBlock newBlock : pool_block Obj) (toAdded toDeleted : gmap Hash Obj)
    : option (option (gmap Hash Obj * gmap Hash Obj)) :=
  match fuel with
  | O => None
  | S fuel' =>
      if bytes_eqb (pb_HeaderHash lastBlock) (pb_HeaderHash newBlock) then Some (Some (toAdded, toDeleted))
      else
        let toAdded := note_objects lastBlock toAdded in
        let toDeleted := note_objects newBlock toDeleted in
        match store (pb_PreviousBlockHash lastBlock), store (pb_PreviousBlockHash newBlock) with
        | Some last', Some new' => go_back_both fuel' store last' new' toAdded toDeleted
        | _, _ => Some None
        end
  end.

(** The objects to add again; none when a block is missing. The bounds are the
    heights, which go down by one with every block. *)
Definition getReinjectObject (store : Hash -> option (pool_block Obj)) (newHeader lastHeader : Hash)
    : option (gmap Hash Obj) :=
  match store newHeader with
  | None => Some ∅
  | Some newBlock =>
      if bytes_eqb (pb_PreviousBlockHash newBlock) lastHeader then Some ∅
      else
        match store lastHeader with
        | None => Some ∅
        | Some lastBlock =>
            match go_back (S (Z.to_nat (pb_Height newBlock))) store newBlock (pb_Height lastBlock) ∅ with
            | None => None
            | Some None => Some ∅
            | Some (Some (newBlock, toDeleted)) =>
                match go_back (S (Z.to_nat (pb_Height lastBlock))) store lastBlock (pb_Height newBlock) ∅ with
                | None => None
                | Some None => Some ∅
                | Some (Some (lastBlock, toAdded)) =>
                    match go_back_both (S (S (Z.to_nat (pb_Height lastBlock)))) store lastBlock newBlock
                            toAdded toDeleted with
                    | None => None
                    | Some None => Some ∅
                    | Some (Some (toAdded, toDeleted)) => Some (toAdded ∖ toDeleted)
                    end
                end
            end
        end
  end.

Definition HandleChainHeaderChanged (now : Z) (state : option St) (store : Hash -> option (pool_block Obj))
    (walk_objects : gmap Hash Obj -> list (Hash * Obj)) (walk_items : gmap Hash nat -> list (Hash * nat))
    (p : Pool Obj) (newHeader lastHeader : Hash) : option (Pool Obj * list Obj) :=
  match getReinjectObject store newHeader lastHeader with
  | None => None
  | Some reinject =>
      match addObjectArray now state p (map snd (walk_objects reinject)) with
      | None => None
      | Some (p1, added, _) =>
          match removeObjects state p1 (walk_items (p_hashToTxMap p1)) with
          | None => None
          | Some p2 => Some (p2, added)
          end
      end
  end.

Definition HandleChainReversed (now : Z) (state : option St)
    (walk_items : gmap Hash nat -> list (Hash * nat)) (p : Pool Obj) (b : pool_block Obj)
    : option (Pool Obj * list Obj) :=
  match addObjectArray now state p (pb_Objects b) with
  | None => None
  | Some (p1, added, _) =>
      match removeObjects state p1 (walk_items (p_hashToTxMap p1)) with
      | None => None
      | Some p2 => Some (p2, added)
      end
  end.

(** ** [blockchain_txs_cache.go] and [tx_pool.go] *)

Record CachedTxs := mkCachedTxs { ct_capacity : Z; ct_content : gmap Hash Obj }.

Definition PercentDelete : Z := 20.

(** The loop counts up twice in a round; [selRand] is a parameter. *)
Fixpoint random_deletes (fuel : nat) (selRand : gmap Hash Obj -> Hash) (i deleteSize : Z)
    (content : gmap Hash Obj) : gmap Hash Obj :=
  match fuel with
  | O => content
  | S fuel' =>
      if i <? deleteSize
      then random_deletes fuel' selRand (i + 2) deleteSize (delete (selRand content) content)
      else content
  end.

Definition randomDeletes (selRand : gmap Hash Obj -> Hash) (content : gmap Hash Obj) : gmap Hash Obj :=
  let deleteSize := Z.of_nat (size content) / PercentDelete in
  random_deletes (size content) selRand 0 deleteSize content.

Definition cached_add (selRand : gmap Hash Obj -> Hash) (c : CachedTxs) (tx : Obj) : CachedTxs :=
  let content :=
    if ct_capacity c <=? Z.of_nat (size (ct_content c)) then randomDeletes selRand (ct_content c)
    else ct_content c in
  mkCachedTxs (ct_capacity c) (<[GetHash tx := tx]> content).

Definition cached_has (c : CachedTxs) (hash : Hash) : bool :=
  match ct_content c !! hash with Some _ => true | None => false end.

Definition cached_remove (c : CachedTxs) (hash : Hash) : CachedTxs :=
  mkCachedTxs (ct_capacity c) (delete hash (ct_content c)).

Record TransactionPool := mkTxPool { tp_pool : Pool Obj; tp_cachedTxs : CachedTxs }.

Definition AddTransaction (selRand : gmap Hash Obj -> Hash) (now : Z) (state : option St)
    (p : TransactionPool) (tx : Obj) : option (TransactionPool * list Obj * option PoolError) :=
  if cached_has (tp_cachedTxs p) (GetHash tx) then Some (p, [], Some errDuplicateTx)
  else
    let cached := cached_add selRand (tp_cachedTxs p) tx in
    match addObject now state (tp_pool p) tx with
    | None => None
    | Some (pool, added, err) => Some (mkTxPool pool cached, added, err)
    end.

Definition RemoveTransaction (p : TransactionPool) (txHash : Hash) : option TransactionPool :=
  match removeOject (tp_pool p) txHash with
  | None => None
  | Some pool => Some (mkTxPool pool (cached_remove (tp_cachedTxs p) txHash))
  end.
End pool.
