(* ===== verification/PoolProofs.v ===== *)
(** * The pool keeps its books

    [pool_ok] is the invariant of a pool: the map from hashes gives for every hash an
    item with this hash, every pending item is one of the map, and the map does not
    exceed the capacity. All operations keep it and none panics. What adding an
    object, taking objects for a block and a change of the chain do is then said of
    the map and of the pending items. *)

From Stdlib Require Import ZArith Lia.
From S2P Require Import Prelude Common GoHeap PoolQueue PoolQueueProofs Pool.

Open Scope Z_scope.

Section proofs.
Context {Obj St : Type} `{PoolObject Obj} `{Inhabited Obj} `{PoolEnv Obj St}.
Implicit Types p : Pool Obj.
Implicit Types items : Items Obj.

(** The item that is pending for an account and a nonce. *)
Definition pending p (a : Address) (n : Z) : option nat := queue_get (p_pendingQueue p) a n.

(** The object behind an item of the pool. *)
Definition pobj p (i : nat) : Obj := item_obj (p_items p) i.

Record pool_ok p : Prop := mkPoolOk {
  pl_queue : queue_ok (p_items p) (p_pendingQueue p);
  pl_map h i : p_hashToTxMap p !! h = Some i -> (i < p_nextItem p)%nat /\ GetHash (pobj p i) = h;
  pl_pending a n i : pending p a n = Some i -> p_hashToTxMap p !! GetHash (pobj p i) = Some i;
  pl_size : Z.of_nat (size (p_hashToTxMap p)) <= Z.max 0 (p_capacity p)
}.

Lemma NewPool_ok capacity : pool_ok (NewPool capacity).
Proof.
  split; cbn.
  - apply newPendingQueue_ok.
  - intros h i. by rewrite lookup_empty.
  - intros a n i. unfold pending, queue_get. cbn. by rewrite lookup_empty.
  - rewrite map_size_empty. lia.
Qed.

Lemma pending_key p a n i : pool_ok p -> pending p a n = Some i -> FromAccount (pobj p i) = a /\ po_Nonce (pobj p i) = n.
Proof. intros Hp Hi. by apply (queue_get_ok _ _ _ _ _ (pl_queue _ Hp)). Qed.

Lemma pending_lt p a n i : pool_ok p -> pending p a n = Some i -> (i < p_nextItem p)%nat.
Proof. intros Hp Hi. by eapply pl_map, pl_pending. Qed.

(** ** Removing *)

(** What is pending after an item has lost its place. *)
Definition without p (i : option nat) (a : Address) (n : Z) : option nat :=
  match i with
  | Some i => if decide (a = FromAccount (pobj p i) /\ n = po_Nonce (pobj p i)) then None else pending p a n
  | None => pending p a n
  end.

Lemma doRemoveObject_spec p h :
  pool_ok p ->
  exists p', doRemoveObject p h = Some p' /\ pool_ok p'
    /\ p_capacity p' = p_capacity p /\ p_items p' = p_items p /\ p_nextItem p' = p_nextItem p
    /\ p_hashToTxMap p' = delete h (p_hashToTxMap p)
    /\ forall a n, pending p' a n = without p (p_hashToTxMap p !! h) a n.
Proof.
  intros Hp. unfold doRemoveObject. destruct (p_hashToTxMap p !! h) as [tx|] eqn:Hh.
  2: { exists p. rewrite delete_id by done. by do 6 (split; [done|]). }
  destruct (queue_remove_spec (p_items p) (p_pendingQueue p) (FromAccount (pobj p tx)) (po_Nonce (pobj p tx))
    (pl_queue _ Hp)) as (q' & Hr & Hq & Hget).
  unfold pobj in Hr. unfold nonce_of. rewrite Hr. eexists. split; [done|].
  split; [|by do 4 (split; [done|])]. destruct (pl_map _ Hp h tx Hh) as [_ Hhash].
  split; cbn.
  - exact Hq.
  - intros h' i [_ Hi]%lookup_delete_Some. by apply (pl_map _ Hp).
  - intros a n i Hi. unfold pending in Hi. cbn in Hi. rewrite Hget in Hi. case_decide as Hd; [done|].
    pose proof (pending_key p a n i Hp Hi) as [Ha Hn]. unfold pobj in *. cbn.
    pose proof (pl_pending _ Hp a n i Hi) as Hm. unfold pobj in Hm. rewrite lookup_delete_ne; [done|].
    intros Heq. rewrite <- Heq, Hh in Hm. injection Hm as ->. by apply Hd.
  - pose proof (pl_size _ Hp). rewrite map_size_delete, Hh. lia.
Qed.

(** ** Adding *)

Lemma replace_pending_spec p obj :
  pool_ok p ->
  (exists i, replace_pending p obj = Some (inr errObjectNonceUsed)
    /\ pending p (FromAccount obj) (po_Nonce obj) = Some i /\ Price obj <= Price (pobj p i))
  \/ (replace_pending p obj = Some (inl p) /\ pending p (FromAccount obj) (po_Nonce obj) = None)
  \/ exists i p', replace_pending p obj = Some (inl p') /\ pool_ok p'
      /\ pending p (FromAccount obj) (po_Nonce obj) = Some i /\ Price (pobj p i) < Price obj
      /\ p_capacity p' = p_capacity p /\ p_items p' = p_items p /\ p_nextItem p' = p_nextItem p
      /\ p_hashToTxMap p !! GetHash (pobj p i) = Some i
      /\ p_hashToTxMap p' = delete (GetHash (pobj p i)) (p_hashToTxMap p)
      /\ forall a n, pending p' a n
          = if decide (a = FromAccount obj /\ n = po_Nonce obj) then None else pending p a n.
Proof.
  intros Hp. unfold replace_pending.
  change (queue_get (p_pendingQueue p)) with (pending p).
  destruct (pending p (FromAccount obj) (po_Nonce obj)) as [i|] eqn:Hi; [|by auto].
  change (item_obj (p_items p) i) with (pobj p i).
  destruct (Z.ltb_spec (Price (pobj p i)) (Price obj)) as [Hlt|Hge]; [|left; by exists i].
  right. right. pose proof (pl_pending _ Hp _ _ _ Hi) as Hm.
  destruct (doRemoveObject_spec p (GetHash (pobj p i)) Hp) as (p' & Hr & Hp' & Hc & Hit & Hnx & Hmap & Hpe).
  rewrite Hr. exists i, p'. do 9 (split; [done|]). intros a n. rewrite Hpe, Hm. cbn.
  destruct (pending_key p _ _ _ Hp Hi) as [-> ->]. done.
Qed.

Lemma drop_collection_spec items (a : Address) (c : txCollection) (m : gmap Hash nat) :
  col_ok items a c ->
  exists m', drop_collection (col_len c) items c m = Some m'
    /\ forall h i, m' !! h = Some i
        <-> m !! h = Some i /\ forall j, j ∈ hd_data (col_nonceHeap c) -> GetHash (item_obj items j) <> h.
Proof.
  remember (col_len c) as len eqn:Hlen. revert c m Hlen.
  induction len as [|len IH]; intros c m Hlen Hok; cbn [drop_collection].
  - exists m. split; [done|]. intros h i. rewrite col_len_data in Hlen. symmetry in Hlen.
    apply length_zero_iff_nil in Hlen. rewrite Hlen. split; [|by intros [? _]].
    intros Hi. split; [done|]. by intros j ?%not_elem_of_nil.
  - destruct (col_peek_some c) as (tx & Hpk & _); [lia|].
    destruct (col_pop_ok items a c tx Hok Hpk) as (c' & Hpop & Hok' & _ & Hperm & _). rewrite Hpop.
    destruct (IH c' (delete (GetHash (item_obj items tx)) m)) as (m' & Hd & Hm').
    { rewrite col_len_data in *. rewrite Hperm in Hlen. cbn in Hlen. lia. }
    { done. }
    exists m'. split; [done|]. intros h i. rewrite Hm', lookup_delete_Some. setoid_rewrite Hperm.
    setoid_rewrite elem_of_cons. split.
    + intros [[Hne Hi] Hj]. split; [done|]. intros j [-> | Hin]; [done|by apply Hj].
    + intros [Hi Hj]. split; [split; [|done]|]; [apply Hj; by left|]. intros j Hin. apply Hj. by right.
Qed.
(** The first item of an account in the pending queue. *)
Definition pfirst p (a : Address) (i : nat) : Prop := first (p_items p) (p_pendingQueue p) a i.

Lemma make_room_spec p obj :
  pool_ok p ->
  (make_room p obj = Some (inl p) /\ Z.of_nat (size (p_hashToTxMap p)) < p_capacity p)
  \/ (make_room p obj = Some (inr errObjectPoolFull) /\ p_capacity p <= Z.of_nat (size (p_hashToTxMap p))
      /\ forall a i, pfirst p a i -> Price obj <= Price (pobj p i))
  \/ exists a i p', make_room p obj = Some (inl p') /\ pool_ok p'
      /\ p_capacity p <= Z.of_nat (size (p_hashToTxMap p))
      /\ Z.of_nat (size (p_hashToTxMap p')) < p_capacity p
      /\ p_capacity p' = p_capacity p /\ p_items p' = p_items p /\ p_nextItem p' = p_nextItem p
      /\ pfirst p a i /\ Price (pobj p i) < Price obj
      /\ (forall b j, pfirst p b j -> 0 <= cmp_items (p_items p) (Some j) (Some i))
      /\ (forall b m, pending p' b m = if decide (b = a) then None else pending p b m)
      /\ forall h j, p_hashToTxMap p' !! h = Some j
          <-> p_hashToTxMap p !! h = Some j /\ forall n, pending p a n <> Some j.
Proof.
  intros Hp. unfold make_room.
  destruct (Z.leb_spec (p_capacity p) (Z.of_nat (size (p_hashToTxMap p)))) as [Hfull|]; [|by auto].
  right. destruct (queue_discard_spec (p_items p) (p_pendingQueue p) (Price obj) (pl_queue _ Hp))
    as [[Hd Hno]|(a & c & i & q' & Hd & Hq' & Hc & Hok & Hpk & Hfi & Hpr & Hworst & Hget)]; rewrite Hd.
  { left. by split. }
  right. pose proof (col_peek_in c i Hpk) as Hin.
  assert (Hlen : col_len c <> 0%nat) by (by apply (ok_cols _ _ (pl_queue _ Hp) a c)).
  destruct (Nat.eqb_spec (col_len c) 0) as [|_]; [done|].
  destruct (drop_collection_spec (p_items p) a c (p_hashToTxMap p) Hok) as (m' & Hdrop & Hm'). rewrite Hdrop.
  assert (Hpend : forall j, j ∈ hd_data (col_nonceHeap c) <-> exists n, pending p a n = Some j).
  { intros j. split.
    - intros Hj. exists (nonce_of (p_items p) j). by apply (in_collection _ _ _ c _ (pl_queue _ Hp)).
    - intros [n Hn]. unfold pending, queue_get, col_get in Hn. rewrite Hc in Hn.
      by apply (ok_txs _ _ _ Hok) in Hn as [? _]. }
  assert (Hmap : forall h j, m' !! h = Some j
    <-> p_hashToTxMap p !! h = Some j /\ forall n, pending p a n <> Some j).
  { intros h j. rewrite Hm'. split; intros [Hj Hk]; (split; [done|]).
    - intros n Hn. apply (Hk j); [apply Hpend; by exists n|]. by apply (pl_map _ Hp).
    - intros k [n Hn]%Hpend Hkh. pose proof (pl_pending _ Hp a n k Hn) as Hkm. unfold pobj in Hkm.
      rewrite Hkh, Hj in Hkm. injection Hkm as ->. by apply (Hk n). }
  assert (Hsub : m' ⊂ p_hashToTxMap p).
  { apply map_subset_alt. split; [apply map_subseteq_spec; intros h j Hj; by apply Hmap|].
    apply Hpend in Hin as [n Hn]. exists (GetHash (pobj p i)).
    split; [|by exists i; apply (pl_pending _ Hp a n)]. apply eq_None_not_Some. intros [j Hj].
    apply Hmap in Hj as [Hj Hk]. rewrite (pl_pending _ Hp a n i Hn) in Hj. injection Hj as <-. by apply (Hk n). }
  pose proof (map_subset_size _ _ Hsub) as Hsz. pose proof (pl_size _ Hp) as Hcap.
  exists a, i, (with_queue p m' q'). split; [done|]. split.
  { split; cbn.
    - exact Hq'.
    - intros h j Hj. by apply (pl_map _ Hp), Hmap.
    - intros b n j Hj. unfold pending in Hj. cbn in Hj. rewrite Hget in Hj. case_decide as Hba; [done|].
      apply Hmap. split; [by apply (pl_pending _ Hp b n)|]. intros n' Hn'. apply Hba.
      destruct (pending_key p b n j Hp Hj) as [<- _]. by destruct (pending_key p a n' j Hp Hn') as [<- _].
    - lia. }
  cbn. repeat (split; [done || lia|]). done.
Qed.

Lemma doAddObject_spec now p obj :
  pool_ok p -> p_hashToTxMap p !! GetHash obj = None ->
  pending p (FromAccount obj) (po_Nonce obj) = None ->
  Z.of_nat (size (p_hashToTxMap p)) < p_capacity p ->
  exists p', doAddObject now p obj = Some p' /\ pool_ok p' /\ p_capacity p' = p_capacity p
    /\ p_items p' = <[p_nextItem p := mkItem obj now]> (p_items p)
    /\ p_hashToTxMap p' = <[GetHash obj := p_nextItem p]> (p_hashToTxMap p)
    /\ p_nextItem p' = S (p_nextItem p)
    /\ forall a n, pending p' a n
        = if decide (a = FromAccount obj /\ n = po_Nonce obj) then Some (p_nextItem p) else pending p a n.
Proof.
  intros Hp Hnew Hnone Hroom. unfold doAddObject. set (items := <[p_nextItem p := mkItem obj now]> (p_items p)).
  assert (Hold : forall i, (i < p_nextItem p)%nat -> item_obj items i = pobj p i).
  { intros i Hi. unfold item_obj, items. rewrite lookup_total_insert_ne; [done|lia]. }
  assert (Hobj : item_obj items (p_nextItem p) = obj).
  { unfold item_obj, items. by rewrite lookup_total_insert_eq. }
  assert (Hq : queue_ok items (p_pendingQueue p)).
  { apply queue_ok_fresh; [apply Hp|]. intros a n Hi. apply (pending_lt p a n) in Hi; [lia|done]. }
  destruct (queue_add_new items (p_pendingQueue p) (p_nextItem p) Hq) as (q' & Hadd & Hq' & Hget).
  { unfold nonce_of. by rewrite Hobj. }
  unfold nonce_of in Hget. rewrite Hobj in Hget. rewrite Hadd. eexists. split; [done|].
  split; [|by do 4 (split; [done|])]. split; cbn.
  - exact Hq'.
  - intros h i [[<- <-]|[Hne Hi]]%lookup_insert_Some; [split; [lia|unfold pobj; cbn; by rewrite Hobj]|].
    destruct (pl_map _ Hp h i Hi) as [Hlt Hh]. split; [lia|]. unfold pobj. cbn. by rewrite Hold.
  - intros a n i Hi. unfold pending in Hi. cbn in Hi. rewrite Hget in Hi. unfold pobj. cbn.
    case_decide as Hd.
    + injection Hi as <-. rewrite Hobj. apply lookup_insert_eq.
    + rewrite (Hold i) by (by apply (pending_lt p a n)).
      pose proof (pl_pending _ Hp a n i Hi) as Hm. rewrite lookup_insert_ne; [done|]. intros Heq.
      by rewrite <- Heq, Hnew in Hm.
  - rewrite map_size_insert_None by done. lia.
Qed.
(** Why an object is refused. *)
Definition refusal (state : option St) p (obj : Obj) (e : PoolError) : Prop :=
  match e with
  | errObjectHashExists => is_Some (p_hashToTxMap p !! GetHash obj)
  | errCurrentState => state = None
  | errValidateObject => exists statedb, state = Some statedb /\ objectValidation statedb obj = false
  | errObjectNonceUsed =>
      exists i, pending p (FromAccount obj) (po_Nonce obj) = Some i /\ Price obj <= Price (pobj p i)
  | errObjectPoolFull =>
      p_capacity p <= Z.of_nat (size (p_hashToTxMap p))
      /\ pending p (FromAccount obj) (po_Nonce obj) = None
      /\ forall a i, pfirst p a i -> Price obj <= Price (pobj p i)
  | errDuplicateTx => False
  end.

(** The pool that is left when room has been made for an object: nothing had to be
    done, a cheaper object of the account and nonce is gone, or those of the account
    with the worst first object are. *)
Inductive admits (p : Pool Obj) (obj : Obj) : Pool Obj -> Prop :=
| admits_room :
    pending p (FromAccount obj) (po_Nonce obj) = None ->
    Z.of_nat (size (p_hashToTxMap p)) < p_capacity p -> admits p obj p
| admits_replace i p' :
    pending p (FromAccount obj) (po_Nonce obj) = Some i -> Price (pobj p i) < Price obj ->
    p_hashToTxMap p' = delete (GetHash (pobj p i)) (p_hashToTxMap p) ->
    (forall a n, pending p' a n
      = if decide (a = FromAccount obj /\ n = po_Nonce obj) then None else pending p a n) ->
    admits p obj p'
| admits_discard a i p' :
    pending p (FromAccount obj) (po_Nonce obj) = None ->
    p_capacity p <= Z.of_nat (size (p_hashToTxMap p)) ->
    pfirst p a i -> Price (pobj p i) < Price obj ->
    (forall b j, pfirst p b j -> 0 <= cmp_items (p_items p) (Some j) (Some i)) ->
    (forall b n, pending p' b n = if decide (b = a) then None else pending p b n) ->
    (forall h j, p_hashToTxMap p' !! h = Some j
      <-> p_hashToTxMap p !! h = Some j /\ forall n, pending p a n <> Some j) ->
    admits p obj p'.

Lemma make_room_roomy p obj :
  Z.of_nat (size (p_hashToTxMap p)) < p_capacity p -> make_room p obj = Some (inl p).
Proof. intros Hlt. unfold make_room. destruct (Z.leb_spec (p_capacity p) (Z.of_nat (size (p_hashToTxMap p)))); [lia|done]. Qed.

Lemma addObject_cases now (state : option St) p obj :
  pool_ok p ->
  (exists e, addObject now state p obj = Some (p, [], Some e) /\ refusal state p obj e)
  \/ exists statedb p1 p', addObject now state p obj = Some (p', [obj], None)
      /\ p_hashToTxMap p !! GetHash obj = None /\ state = Some statedb /\ objectValidation statedb obj = true
      /\ admits p obj p1 /\ pool_ok p1 /\ p_items p1 = p_items p /\ p_nextItem p1 = p_nextItem p
      /\ p_capacity p1 = p_capacity p
      /\ pending p1 (FromAccount obj) (po_Nonce obj) = None
      /\ Z.of_nat (size (p_hashToTxMap p1)) < p_capacity p1 /\ p_hashToTxMap p1 !! GetHash obj = None
      /\ doAddObject now p1 obj = Some p' /\ pool_ok p'.
Proof.
  intros Hp. unfold addObject, Has.
  destruct (p_hashToTxMap p !! GetHash obj) as [i|] eqn:Hh; [left; eexists; split; [done|]; cbn; by rewrite Hh|].
  destruct state as [statedb|]; [|by left; eexists].
  destruct (objectValidation statedb obj) eqn:Hv; [cbn [negb]|by left; eexists; split; [done|exists statedb]].
  destruct (replace_pending_spec p obj Hp)
    as [(i & Hr & Hi & Hpr)|[[Hr Hi]|(i & p1 & Hr & Hp1 & Hi & Hpr & Hc & Hit & Hnx & Hm & Hmap & Hpe)]]; rewrite Hr.
  - left. eexists. split; [done|]. by exists i.
  - destruct (make_room_spec p obj Hp) as [[Hroom Hlt]|[(Hroom & Hfull & Hno)
      |(a & i & p1 & Hroom & Hp1 & Hfull & Hlt & Hc & Hit & Hnx & Hfi & Hpr & Hw & Hpe & Hmap)]]; rewrite Hroom.
    + right. destruct (doAddObject_spec now p obj Hp Hh Hi Hlt) as (p' & Hadd & Hp' & _). rewrite Hadd.
      exists statedb, p, p'. repeat (split; [done|]). split; [by apply admits_room|]. by repeat (split; [done|]).
    + left. by eexists.
    + right. assert (Hh1 : p_hashToTxMap p1 !! GetHash obj = None).
      { apply eq_None_not_Some. intros [j [Hj _]%Hmap]. congruence. }
      assert (Hi1 : pending p1 (FromAccount obj) (po_Nonce obj) = None) by (rewrite Hpe; by case_decide).
      rewrite <- Hc in Hlt.
      destruct (doAddObject_spec now p1 obj Hp1 Hh1 Hi1 Hlt) as (p' & Hadd & Hp' & _). rewrite Hadd.
      exists statedb, p1, p'. repeat (split; [done|]). split; [by eapply admits_discard|].
      by repeat (split; [done|]).
  - right. assert (Hlt : Z.of_nat (size (p_hashToTxMap p1)) < p_capacity p1).
    { pose proof (pl_size _ Hp). rewrite Hmap, Hc, map_size_delete_Some by (by eexists).
      assert (size (p_hashToTxMap p) <> 0%nat); [|lia]. intros H0'. apply map_size_empty_inv in H0'.
      by rewrite H0', lookup_empty in Hm. }
    rewrite (make_room_roomy p1 obj Hlt).
    assert (Hh1 : p_hashToTxMap p1 !! GetHash obj = None) by (rewrite Hmap, lookup_delete; by case_decide).
    assert (Hi1 : pending p1 (FromAccount obj) (po_Nonce obj) = None) by (by rewrite Hpe, decide_True).
    destruct (doAddObject_spec now p1 obj Hp1 Hh1 Hi1 Hlt) as (p' & Hadd & Hp' & _). rewrite Hadd.
    exists statedb, p1, p'. repeat (split; [done|]). split; [by eapply admits_replace|].
    by repeat (split; [done|]).
Qed.

Lemma addObject_ok now (state : option St) p obj :
  pool_ok p ->
  exists p' out err, addObject now state p obj = Some (p', out, err) /\ pool_ok p' /\ p_capacity p' = p_capacity p.
Proof.
  intros Hp. destruct (addObject_cases now state p obj Hp)
    as [(e & Ha & _)|(st & p1 & p' & Ha & _ & _ & _ & _ & Hp1 & _ & _ & Hc & Hi & Hlt & Hh & Hadd & Hp')].
  - by exists p, [], (Some e).
  - exists p', [obj], None. split; [done|]. split; [done|].
    destruct (doAddObject_spec now p1 obj Hp1 Hh Hi Hlt) as (p'' & Hadd' & _ & Hc' & _). congruence.
Qed.
Lemma addObjectArray_ok now (state : option St) objects p :
  pool_ok p ->
  exists p' out count, addObjectArray now state p objects = Some (p', out, count) /\ pool_ok p'
    /\ p_capacity p' = p_capacity p.
Proof.
  revert p. induction objects as [|obj objects IH]; intros p Hp; cbn [addObjectArray].
  { by exists p, [], 0%nat. }
  destruct (addObject_ok now state p obj Hp) as (p1 & o1 & e & -> & Hp1 & Hc1).
  destruct (IH p1 Hp1) as (p2 & o2 & count & -> & Hp2 & Hc2).
  eexists _, _, _. split; [done|]. split; [done|]. congruence.
Qed.

Lemma remove_each_ok (statedb : St) order p :
  pool_ok p ->
  exists p', remove_each statedb p order = Some p' /\ pool_ok p' /\ p_capacity p' = p_capacity p
    /\ p_items p' = p_items p
    /\ (forall h j, p_hashToTxMap p' !! h = Some j
        <-> p_hashToTxMap p !! h = Some j
            /\ forall i, (h, i) ∈ order -> canRemove statedb (p_items p !!! i) = false)
    /\ forall a n i, pending p' a n = Some i -> pending p a n = Some i.
Proof.
  revert p. induction order as [|[h i] order IH]; intros p Hp; cbn [remove_each].
  { exists p. do 4 (split; [done|]). split; [|done]. intros h j. split; [|by intros [? _]].
    intros Hj. split; [done|]. by intros i ?%not_elem_of_nil. }
  destruct (canRemove statedb (p_items p !!! i)) eqn:Hcan.
  2: { destruct (IH p Hp) as (p2 & -> & Hp2 & Hc2 & Hit2 & Hm2 & Hpe2). exists p2. do 4 (split; [done|]).
       split; [|done]. intros h' j. rewrite Hm2. setoid_rewrite elem_of_cons. split; intros [Hj Hk]; (split; [done|]).
       - intros k [[= -> ->]|Hin]; [done|by apply Hk].
       - intros k Hin. apply Hk. by right. }
  unfold removeOject.
  destruct (doRemoveObject_spec p h Hp) as (p1 & -> & Hp1 & Hc1 & Hit & _ & Hmap & Hpe).
  destruct (IH p1 Hp1) as (p2 & -> & Hp2 & Hc2 & Hit2 & Hm2 & Hpe2).
  exists p2. split; [done|]. split; [done|]. split; [congruence|]. split; [congruence|]. split.
  - intros h' j. rewrite Hm2, Hmap, lookup_delete_Some, Hit. setoid_rewrite elem_of_cons. split.
    + intros [[Hne Hj] Hk]. split; [done|]. intros k [[= -> ->]|Hin]; [done|by apply Hk].
    + intros [Hj Hk]. split; [split; [|done]|].
      * intros ->. rewrite (Hk i) in Hcan; [done|by left].
      * intros k Hin. apply Hk. by right.
  - intros a n j Hj%Hpe2. rewrite Hpe in Hj. unfold without in Hj. destruct (p_hashToTxMap p !! h); [|done].
    by case_decide.
Qed.

(** The orders in which Go walks a map. *)
Definition walks {V} (walk : gmap Hash V -> list (Hash * V)) : Prop :=
  forall m, walk m ≡ₚ map_to_list m.

(** Whether [removeObjects] leaves an item. *)
Definition stays (state : option St) items (i : nat) : Prop :=
  match state with Some statedb => canRemove statedb (items !!! i) = false | None => True end.

Lemma removeObjects_spec (state : option St) walk p :
  pool_ok p -> walks walk ->
  exists p', removeObjects state p (walk (p_hashToTxMap p)) = Some p' /\ pool_ok p'
    /\ p_capacity p' = p_capacity p /\ p_items p' = p_items p
    /\ (forall h i, p_hashToTxMap p' !! h = Some i
        <-> p_hashToTxMap p !! h = Some i /\ stays state (p_items p) i)
    /\ forall a n i, pending p' a n = Some i -> pending p a n = Some i.
Proof.
  intros Hp Hw. destruct state as [statedb|]; cbn.
  2: { exists p. do 4 (split; [done|]). split; [|done]. intros h i. by split; [|intros [? _]]. }
  destruct (remove_each_ok statedb (walk (p_hashToTxMap p)) p Hp) as (p' & -> & Hp' & Hc & Hit & Hmap & Hpe).
  exists p'. do 4 (split; [done|]). split; [|done]. intros h i. rewrite Hmap.
  setoid_rewrite Hw. setoid_rewrite elem_of_map_to_list. split; intros [Hi Hs]; (split; [done|]).
  - by apply Hs.
  - intros j Hj. assert (i = j) as <- by congruence. done.
Qed.

(** ** Objects for a block *)

(** The first item of an account, in what is pending. *)
Definition first_of (f : Address -> Z -> option nat) (a : Address) (n : Z) (i : nat) : Prop :=
  f a n = Some i /\ forall m j, f a m = Some j -> n <= m.

(** A first item that no other first item is better than. *)
Definition best_of items (f : Address -> Z -> option nat) (a : Address) (n : Z) (i : nat) : Prop :=
  first_of f a n i /\ forall b m j, first_of f b m j -> 0 <= cmp_items items (Some i) (Some j).

(** Taking a best item again and again. *)
Inductive greedy items : (Address -> Z -> option nat) -> list nat -> (Address -> Z -> option nat) -> Prop :=
| greedy_stop f g : (forall a n, g a n = f a n) -> greedy items f [] g
| greedy_take f g g' a n i l :
    best_of items f a n i ->
    (forall b m, g b m = if decide (b = a /\ m = n) then None else f b m) ->
    greedy items g l g' -> greedy items f (i :: l) g'.

Definition sizes items (l : list nat) : Z := foldr (fun i s => po_Size (item_obj items i) + s) 0 l.

Definition hashes items (l : list nat) : gset Hash := list_to_set (map (fun i => GetHash (item_obj items i)) l).

Lemma take_processable_spec items fuel q pr limit total :
  queue_ok items q -> (queue_count q < fuel)%nat ->
  exists l q', take_processable fuel items q pr limit total
      = Some (map (item_obj items) l, total + sizes items l, q', hashes items l ∪ pr)
    /\ queue_ok items q' /\ greedy items (queue_get q) l (queue_get q')
    /\ (l = [] \/ total + sizes items l <= limit)
    /\ ((forall a n, queue_get q' a n = None)
        \/ exists a n i, best_of items (queue_get q') a n i
            /\ limit < total + sizes items l + po_Size (item_obj items i)).
Proof.
  revert q pr total. induction fuel as [|fuel IH]; intros q pr total Hq Hf; [lia|]. cbn [take_processable].
  destruct (queue_empty q) eqn:He.
  { exists [], q. cbn. rewrite Z.add_0_r. unfold hashes. cbn. rewrite union_empty_l_L. split; [done|].
    split; [done|]. split; [by constructor|]. split; [by left|]. left. by apply (queue_empty_spec items). }
  destruct (queue_pop_spec items q Hq He) as (a & tx & q1 & Hpop & Hq1 & (n & Hn & Hmin) & Hfrom & Hpk & Hcp & Hbest & Hget & Hcnt).
  assert (Hno : nonce_of items tx = n) by (by apply (queue_get_ok items q a)).
  assert (Hb : best_of items (queue_get q) a n tx).
  { split; [done|]. intros b m j [Hj Hm]. apply (Hbest b). by exists m. }
  rewrite Hpk, Hcp. destruct (Z.ltb_spec limit (total + po_Size (item_obj items tx))) as [Hover|Hfit].
  { exists [], q. cbn. rewrite Z.add_0_r. unfold hashes. cbn. rewrite union_empty_l_L. split; [done|].
    split; [done|]. split; [by constructor|]. split; [by left|]. right. by exists a, n, tx. }
  rewrite Hpop. subst n.
  destruct (IH q1 ({[GetHash (item_obj items tx)]} ∪ pr) (total + po_Size (item_obj items tx)) Hq1)
    as (l & q' & -> & Hq' & Hg & Hle & Hstop); [lia|].
  rewrite <- Z.add_assoc in *. exists (tx :: l), q'. split.
  { unfold hashes. cbn. do 2 f_equal. rewrite (union_comm_L {[_]} (list_to_set _)). by rewrite union_assoc_L. }
  split; [done|]. split; [by eapply greedy_take|]. split; [|exact Hstop].
  right. destruct Hle as [-> | Hle]; cbn; [lia|exact Hle].
Qed.

Lemma greedy_shrinks items f l g : greedy items f l g -> forall a n i, g a n = Some i -> f a n = Some i.
Proof.
  induction 1 as [f g Hg|f g g' a n i l _ Hg _ IH]; intros b m j Hj; [by rewrite <- Hg|].
  apply IH in Hj. rewrite Hg in Hj. by case_decide.
Qed.

Lemma greedy_in items f l g i : greedy items f l g -> i ∈ l -> exists a n, f a n = Some i.
Proof.
  induction 1 as [f g Hg|f g g' a n j l [[Hj _] _] Hg _ IH]; [by intros ?%not_elem_of_nil|].
  intros [-> | Hin]%elem_of_cons; [by exists a, n|]. destruct (IH Hin) as (b & m & Hb). exists b, m.
  rewrite Hg in Hb. by case_decide.
Qed.

(** The items of an account are taken in the order of their nonces. *)
Lemma greedy_nonces items f l g :
  greedy items f l g ->
  (forall a n i, f a n = Some i -> FromAccount (item_obj items i) = a /\ nonce_of items i = n) ->
  forall x y i j, l !! x = Some i -> l !! y = Some j -> (x < y)%nat ->
    FromAccount (item_obj items i) = FromAccount (item_obj items j) -> nonce_of items i < nonce_of items j.
Proof.
  induction 1 as [|f g g' a n k l [[Hk Hmin] _] Hg Hgr IH]; intros Hkey x y i j Hi Hj Hxy Ha; [done|].
  assert (Hkey' : forall b m i, g b m = Some i -> FromAccount (item_obj items i) = b /\ nonce_of items i = m).
  { intros b m i' Hi'. rewrite Hg in Hi'. apply Hkey. by case_decide. }
  destruct y as [|y]; [lia|]. cbn in Hj. destruct x as [|x]; cbn in Hi.
  - injection Hi as <-. destruct (Hkey _ _ _ Hk) as [Hka Hkn]. rewrite Hkn.
    destruct (greedy_in items g l g' j Hgr) as (b & m & Hb); [by eapply list_elem_of_lookup_2|].
    destruct (Hkey' _ _ _ Hb) as [Hjb Hjn]. rewrite Hjn. rewrite Hg in Hb. case_decide as Hd; [done|].
    assert (b = a) as -> by congruence. specialize (Hmin m j Hb). destruct (decide (m = n)) as [-> |]; [|lia].
    exfalso. by apply Hd.
  - apply (IH Hkey' x y); try done. lia.
Qed.

Lemma with_less_pending p q pr :
  pool_ok p -> queue_ok (p_items p) q -> (forall a n i, queue_get q a n = Some i -> pending p a n = Some i) ->
  pool_ok (mkPool (p_capacity p) (p_items p) (p_nextItem p) (p_hashToTxMap p) q pr).
Proof.
  intros Hp Hq Hsub. split; cbn; [done|by apply (pl_map _ Hp)| |by apply (pl_size _ Hp)].
  intros a n i Hi. by eapply (pl_pending _ Hp a n), Hsub.
Qed.

Lemma getProcessableObjects_cases p limit :
  pool_ok p ->
  exists l q, getProcessableObjects p limit
      = Some (mkPool (p_capacity p) (p_items p) (p_nextItem p) (p_hashToTxMap p) q
                (hashes (p_items p) l ∪ p_processingObjects p), map (pobj p) l, sizes (p_items p) l)
    /\ pool_ok (mkPool (p_capacity p) (p_items p) (p_nextItem p) (p_hashToTxMap p) q
                (hashes (p_items p) l ∪ p_processingObjects p))
    /\ greedy (p_items p) (pending p) l (queue_get q)
    /\ (l = [] \/ sizes (p_items p) l <= limit)
    /\ ((forall a n, queue_get q a n = None)
        \/ exists a n i, best_of (p_items p) (queue_get q) a n i
            /\ limit < sizes (p_items p) l + po_Size (pobj p i)).
Proof.
  intros Hp. unfold getProcessableObjects.
  destruct (take_processable_spec (p_items p) (S (queue_count (p_pendingQueue p))) (p_pendingQueue p)
    (p_processingObjects p) limit 0 (pl_queue _ Hp)) as (l & q & -> & Hq & Hg & Hle & Hstop); [lia|].
  exists l, q. split; [done|]. split; [|done]. apply with_less_pending; [done|done|].
  intros a n i. by apply (greedy_shrinks (p_items p) _ l).
Qed.
(** ** Pending again *)

(** The account and nonce of an item. *)
Definition key p (i : nat) : Address * Z := (FromAccount (pobj p i), po_Nonce (pobj p i)).

(** No two objects of the pool are of the same account and nonce. *)
Definition distinct_keys p : Prop :=
  forall h1 h2 i1 i2, p_hashToTxMap p !! h1 = Some i1 -> p_hashToTxMap p !! h2 = Some i2 ->
    key p i1 = key p i2 -> h1 = h2.

Lemma nothing_pending p : pool_ok p -> queue_count (p_pendingQueue p) = 0%nat -> forall a n, pending p a n = None.
Proof.
  intros Hp H0' a n. unfold pending, queue_get. destruct (q_txs (p_pendingQueue p) !! a) as [c|] eqn:Hc; [|done].
  destruct (ok_cols _ _ (pl_queue _ Hp) a c Hc) as [_ Hl]. pose proof (queue_count_lookup _ a c Hc). lia.
Qed.

Lemma reinject_items_spec order p :
  pool_ok p -> (forall h i, (h, i) ∈ order -> p_hashToTxMap p !! h = Some i) ->
  NoDup (map (fun hi => key p hi.2) order) ->
  (forall h i, (h, i) ∈ order -> pending p (key p i).1 (key p i).2 = None) ->
  exists q, let p' := mkPool (p_capacity p) (p_items p) (p_nextItem p) (p_hashToTxMap p) q (p_processingObjects p) in
    reinject_items p order = Some (p', map (fun hi => pobj p hi.2) order) /\ pool_ok p'
    /\ forall a n i, pending p' a n = Some i
        <-> pending p a n = Some i \/ exists h, (h, i) ∈ order /\ key p i = (a, n).
Proof.
  revert p. induction order as [|[h i] order IH]; intros p Hp Hin Hnd Hpe; cbn [reinject_items].
  { exists (p_pendingQueue p). destruct p as [cap items next m q pr]. split; [done|]. split; [done|].
    intros a n i. split; [by left|]. by intros [?|(h & ?%not_elem_of_nil & _)]. }
  cbn in Hnd. apply NoDup_cons in Hnd as [Hni Hnd].
  assert (Hi : p_hashToTxMap p !! h = Some i) by (apply Hin; left).
  destruct (queue_add_new (p_items p) (p_pendingQueue p) i (pl_queue _ Hp)) as (q1 & -> & Hq1 & Hget1).
  { apply (Hpe h i). left. }
  set (p1 := mkPool (p_capacity p) (p_items p) (p_nextItem p) (p_hashToTxMap p) q1 (p_processingObjects p)).
  assert (Hget : forall a n, pending p1 a n = if decide (key p i = (a, n)) then Some i else pending p a n).
  { intros a n. unfold pending. cbn. rewrite Hget1. unfold key, pobj, nonce_of.
    repeat case_decide; try done; exfalso; naive_solver. }
  assert (Hp1 : pool_ok p1).
  { split; cbn; [done|apply (pl_map _ Hp)| |apply (pl_size _ Hp)]. intros a n j. rewrite Hget.
    case_decide; [|by apply (pl_pending _ Hp)]. intros [= <-]. unfold pobj. cbn.
    destruct (pl_map _ Hp h i Hi) as [_ Hh]. unfold pobj in Hh. by rewrite Hh. }
  destruct (IH p1 Hp1) as (q & Hr & Hp' & Hpend).
  { intros h' j Hj. apply Hin. by right. }
  { exact Hnd. }
  { intros h' j Hj. rewrite Hget. change (key p1 j) with (key p j). destruct (key p j) as [a n] eqn:Hk.
    case_decide as Hd.
    - exfalso. apply Hni. apply list_elem_of_fmap. exists (h', j). cbn. by rewrite Hk.
    - pose proof (Hpe h' j) as Hpj. rewrite Hk in Hpj. apply Hpj. by right. }
  rewrite Hr. exists q. split; [done|]. split; [done|]. intros a n j.
  etransitivity; [exact (Hpend a n j)|]. rewrite Hget.
  setoid_rewrite elem_of_cons. change (key p1 j) with (key p j). split.
  - intros [Hj|(h' & Hj & Hk)]; [|by eauto]. case_decide as Hd; [|by left].
    injection Hj as <-. right. exists h. split; [by left|done].
  - intros [Hj|(h' & [[= -> ->]|Hj] & Hk)]; [| |by eauto].
    + left. case_decide as Hd; [|done]. exfalso. pose proof (Hpe h i ltac:(left)) as Hnone.
      rewrite Hd in Hnone. cbn in Hnone. congruence.
    + left. by rewrite decide_True.
Qed.

(** After the finalised and old objects have been removed, all others are pending. *)
Lemma check_pool_spec (state : option St) walk p :
  pool_ok p -> walks walk -> distinct_keys p -> queue_count (p_pendingQueue p) = 0%nat ->
  exists p' out, check_pool state walk p = Some (p', out) /\ pool_ok p' /\ p_capacity p' = p_capacity p
    /\ p_items p' = p_items p
    /\ (forall h i, p_hashToTxMap p' !! h = Some i
        <-> p_hashToTxMap p !! h = Some i /\ stays state (p_items p) i)
    /\ (forall i, pending p' (key p i).1 (key p i).2 = Some i <-> exists h, p_hashToTxMap p' !! h = Some i)
    /\ forall o, o ∈ out <-> exists h, GetObject p' h = Some o.
Proof.
  intros Hp Hw Hdk H0'. unfold check_pool. rewrite H0'. cbn [Nat.ltb Nat.leb].
  destruct (removeObjects_spec state walk p Hp Hw) as (p1 & -> & Hp1 & Hc1 & Hit & Hmap & Hpe).
  assert (Hnone : forall a n, pending p1 a n = None).
  { intros a n. destruct (pending p1 a n) as [i|] eqn:Hi; [|done]. apply Hpe in Hi.
    by rewrite (nothing_pending p) in Hi. }
  assert (Hkey : forall i, key p1 i = key p i) by (intros i; unfold key, pobj; by rewrite Hit).
  destruct (reinject_items_spec (walk (p_hashToTxMap p1)) p1 Hp1) as (q & Hr & Hp' & Hpend).
  - intros h i. by rewrite Hw, elem_of_map_to_list.
  - rewrite Hw. apply NoDup_fmap_2_strong; [|apply NoDup_map_to_list].
    intros [h1 i1] [h2 i2] H1'%elem_of_map_to_list H2'%elem_of_map_to_list Hk. cbn in Hk.
    rewrite !Hkey in Hk. assert (h1 = h2) as <-.
    { apply (Hdk h1 h2 i1 i2); [by apply Hmap|by apply Hmap|done]. }
    congruence.
  - done.
  - rewrite Hr. eexists _, _. split; [done|]. split; [exact Hp'|]. split; [exact Hc1|]. split; [exact Hit|].
    split; [exact Hmap|]. split.
    + intros i. rewrite Hpend, Hnone. cbn. setoid_rewrite Hw. setoid_rewrite elem_of_map_to_list. rewrite Hkey.
      split; [by intros [?|(h & Hh & _)]; [|exists h]|]. intros [h Hh]. right. exists h. split; done.
    + intros o. rewrite Hw, list_elem_of_fmap. unfold GetObject, pobj. cbn. split.
      * intros ([h i] & -> & Hi%elem_of_map_to_list). exists h. by rewrite Hi.
      * intros [h Hh]. apply fmap_Some in Hh as (i & Hi & ->). exists (h, i). by rewrite elem_of_map_to_list.
Qed.
(** ** Objects of a branch that is left *)

(** The blocks from a block back to one before it. *)
Inductive branch (store : Hash -> option (pool_block Obj))
    : pool_block Obj -> list (pool_block Obj) -> pool_block Obj -> Prop :=
| branch_end b : branch store b [] b
| branch_back b b' l anc :
    store (pb_PreviousBlockHash b) = Some b' -> pb_Height b' = pb_Height b - 1 ->
    branch store b' l anc -> branch store b (b :: l) anc.

(** An object with this hash is in one of the blocks. *)
Definition in_blocks (l : list (pool_block Obj)) (h : Hash) (o : Obj) : Prop :=
  exists b, b ∈ l /\ o ∈ pb_Objects b /\ GetHash o = h.

Definition notes (l : list (pool_block Obj)) (m : gmap Hash Obj) : gmap Hash Obj :=
  fold_left (fun m b => note_objects b m) l m.

Lemma note_objects_spec (b : pool_block Obj) (m : gmap Hash Obj) h :
  (forall o, note_objects b m !! h = Some o -> (o ∈ pb_Objects b /\ GetHash o = h) \/ m !! h = Some o)
  /\ (is_Some (note_objects b m !! h) <-> (exists o, o ∈ pb_Objects b /\ GetHash o = h) \/ is_Some (m !! h)).
Proof.
  unfold note_objects. revert m. induction (pb_Objects b) as [|x objs IH]; intros m; cbn.
  { split; [by right|]. split; [by right|]. by intros [(o & ?%not_elem_of_nil & _)|]. }
  destruct (IH (<[GetHash x := x]> m)) as [IH1 IH2]. split.
  - intros o Ho. apply IH1 in Ho as [[Hin Hh]|Ho]; [left; split; [by right|done]|].
    apply lookup_insert_Some in Ho as [[<- <-]|[_ Ho]]; [left; split; [by left|done]|by right].
  - rewrite IH2. setoid_rewrite elem_of_cons. rewrite lookup_insert. case_decide as Hd.
    + split; [|by right; eauto]. intros _. left. exists x. by split; [left|].
    + split; intros [(o & Ho & Hh)|Hs]; [left; exists o; by split; [right|]|by right| |by right].
      destruct Ho as [-> | Ho]; [done|]. left. by exists o.
Qed.

Lemma notes_spec (l : list (pool_block Obj)) (m : gmap Hash Obj) h :
  (forall o, notes l m !! h = Some o -> in_blocks l h o \/ m !! h = Some o)
  /\ (is_Some (notes l m !! h) <-> (exists o, in_blocks l h o) \/ is_Some (m !! h)).
Proof.
  unfold notes. revert m. induction l as [|b l IH]; intros m; cbn.
  { split; [by right|]. split; [by right|]. by intros [(o & b & ?%not_elem_of_nil & _)|]. }
  destruct (IH (note_objects b m)) as [IH1 IH2]. destruct (note_objects_spec b m h) as [Hn1 Hn2]. split.
  - intros o Ho. apply IH1 in Ho as [(b' & Hb' & Ho)|Ho]; [left; exists b'; by split; [right|]|].
    apply Hn1 in Ho as [Ho|Ho]; [left; exists b; by split; [left|]|by right].
  - rewrite IH2, Hn2. unfold in_blocks. setoid_rewrite elem_of_cons. split.
    + intros [(o & b' & Hb' & Ho)|[(o & Ho)|Hs]]; [left; exists o, b'; by split; [right|]|left; exists o, b; by split; [left|]|by right].
    + intros [(o & b' & [-> | Hb'] & Ho)|Hs]; [right; left; by exists o|left; by exists o, b'|by right; right].
Qed.

Lemma notes_app (l1 l2 : list (pool_block Obj)) (m : gmap Hash Obj) : notes (l1 ++ l2) m = notes l2 (notes l1 m).
Proof. apply fold_left_app. Qed.

Lemma branch_length store b l anc : branch store b l anc -> pb_Height b = pb_Height anc + Z.of_nat (length l).
Proof. induction 1; cbn; lia. Qed.

Lemma go_back_branch store b l anc height fuel m :
  branch store b l anc -> pb_Height anc <= height -> (length l < fuel)%nat ->
  exists l1 l2 b', l = l1 ++ l2 /\ branch store b' l2 anc
    /\ go_back fuel store b height m = Some (Some (b', notes l1 m))
    /\ pb_Height b' = Z.min (pb_Height b) height.
Proof.
  intros Hbr. revert fuel m. induction Hbr as [b|b b' l anc Hs Hh Hbr IH]; intros fuel m Ha Hf.
  - destruct fuel as [|fuel]; [lia|]. cbn [go_back]. destruct (Z.ltb_spec height (pb_Height b)); [lia|].
    exists [], [], b. split; [done|]. split; [by constructor|]. split; [done|lia].
  - destruct fuel as [|fuel]; [lia|]. cbn [go_back]. destruct (Z.ltb_spec height (pb_Height b)) as [Hlt|Hge].
    + rewrite Hs. cbn in Hf. destruct (IH fuel (note_objects b m)) as (l1 & l2 & b2 & -> & Hb2 & Hgo & Hmin); [done|lia|].
      exists (b :: l1), l2, b2. split; [done|]. split; [done|]. split; [done|lia].
    + exists [], (b :: l), b. split; [done|]. split; [by econstructor|]. split; [done|lia].
Qed.

Lemma go_back_both_branch store last new ll ln anc fuel mA mD :
  branch store last ll anc -> branch store new ln anc -> pb_Height last = pb_Height new ->
  (length ll < fuel)%nat ->
  (forall x y, x ∈ ll -> y ∈ ln -> pb_Height x = pb_Height y -> pb_HeaderHash x <> pb_HeaderHash y) ->
  go_back_both fuel store last new mA mD = Some (Some (notes ll mA, notes ln mD)).
Proof.
  intros Hl. revert new ln fuel mA mD.
  induction Hl as [b|b b' l anc Hs Hh Hbr IH]; intros new ln fuel mA mD Hn Heq Hf Hfork;
    pose proof (branch_length _ _ _ _ Hn) as Hlen; (destruct fuel as [|fuel]; [lia|]); cbn [go_back_both].
  - assert (ln = []) as -> by (apply length_zero_iff_nil; lia). inversion Hn; subst.
    unfold bytes_eqb. by rewrite bool_decide_eq_true_2.
  - pose proof (branch_length _ _ _ _ Hbr). inversion Hn as [|? n' ln' ? Hs' Hh' Hbr']; subst; [cbn in Hlen; lia|].
    assert (Hne : bytes_eqb (pb_HeaderHash b) (pb_HeaderHash new) = false).
    { apply bool_decide_eq_false_2. apply Hfork; [by left|by left|done]. }
    rewrite Hne, Hs, Hs'. cbn in Hf.
    rewrite (IH n' ln' fuel); [done|done|lia|lia|]. intros x y Hx Hy. apply Hfork; by right.
Qed.

(** The objects that come back are those of the branch that is left, without those
    of the new branch. *)
Lemma getReinjectObject_branches store newHeader lastHeader new last ln ll anc :
  store newHeader = Some new -> store lastHeader = Some last -> pb_PreviousBlockHash new <> lastHeader ->
  branch store new ln anc -> branch store last ll anc -> 0 <= pb_Height anc ->
  (forall x y, x ∈ ll -> y ∈ ln -> pb_Height x = pb_Height y -> pb_HeaderHash x <> pb_HeaderHash y) ->
  getReinjectObject store newHeader lastHeader = Some (notes ll ∅ ∖ notes ln ∅).
Proof.
  intros Hnew Hlast Hprev Hn Hl Hanc Hfork. unfold getReinjectObject. rewrite Hnew, Hlast.
  unfold bytes_eqb at 1. rewrite bool_decide_eq_false_2 by done.
  pose proof (branch_length _ _ _ _ Hn) as Hn'. pose proof (branch_length _ _ _ _ Hl) as Hl'.
  destruct (go_back_branch store new ln anc (pb_Height last) (S (Z.to_nat (pb_Height new))) ∅ Hn)
    as (ln1 & ln2 & new2 & -> & Hn2 & -> & Hmin); [lia|lia|].
  destruct (go_back_branch store last ll anc (pb_Height new2) (S (Z.to_nat (pb_Height last))) ∅ Hl)
    as (ll1 & ll2 & last2 & -> & Hl2 & -> & Hmin'); [|lia|].
  { pose proof (branch_length _ _ _ _ Hn2). lia. }
  rewrite (go_back_both_branch store last2 new2 ll2 ln2 anc); [by rewrite !notes_app|done|done|lia| |].
  - pose proof (branch_length _ _ _ _ Hl2). lia.
  - intros x y Hx Hy. apply Hfork; apply elem_of_app; by right.
Qed.

(** The blocks of a chain have the heights of their places. *)
Definition chain_heights (store : Hash -> option (pool_block Obj)) : Prop :=
  (forall h b, store h = Some b -> 0 <= pb_Height b)
  /\ forall h b b', store h = Some b -> store (pb_PreviousBlockHash b) = Some b' -> pb_Height b' = pb_Height b - 1.

Lemma go_back_total store fuel h b height m :
  chain_heights store -> store h = Some b -> (Z.to_nat (pb_Height b) < fuel)%nat ->
  exists r, go_back fuel store b height m = Some r
    /\ forall b' m', r = Some (b', m') -> exists h', store h' = Some b'.
Proof.
  intros [Hnn Hht]. revert h b m. induction fuel as [|fuel IH]; intros h b m Hb Hf; [lia|]. cbn [go_back].
  destruct (Z.ltb_spec height (pb_Height b)).
  - destruct (store (pb_PreviousBlockHash b)) as [b'|] eqn:Hb'; [|by exists None].
    apply (IH (pb_PreviousBlockHash b)); [done|]. pose proof (Hht _ _ _ Hb Hb'). pose proof (Hnn _ _ Hb'). lia.
  - eexists. split; [done|]. intros b' m' [= <- <-]. by exists h.
Qed.

Lemma go_back_both_total store fuel h h' last new mA mD :
  chain_heights store -> store h = Some last -> store h' = Some new -> (Z.to_nat (pb_Height last) < fuel)%nat ->
  exists r, go_back_both fuel store last new mA mD = Some r.
Proof.
  intros [Hnn Hht]. revert h h' last new mA mD.
  induction fuel as [|fuel IH]; intros h h' last new mA mD Hl Hn Hf; [lia|]. cbn [go_back_both].
  destruct (bytes_eqb _ _); [by eexists|].
  destruct (store (pb_PreviousBlockHash last)) as [l'|] eqn:Hl'; [|by eexists].
  destruct (store (pb_PreviousBlockHash new)) as [n'|] eqn:Hn'; [|by eexists].
  eapply IH; [done..|]. pose proof (Hht _ _ _ Hl Hl'). pose proof (Hnn _ _ Hl'). lia.
Qed.

Lemma getReinjectObject_total store newHeader lastHeader :
  chain_heights store -> exists m, getReinjectObject store newHeader lastHeader = Some m.
Proof.
  intros Hch. unfold getReinjectObject. destruct (store newHeader) as [new|] eqn:Hnew; [|by eexists].
  destruct (bytes_eqb _ _); [by eexists|]. destruct (store lastHeader) as [last|] eqn:Hlast; [|by eexists].
  destruct (go_back_total store (S (Z.to_nat (pb_Height new))) _ new (pb_Height last) ∅ Hch Hnew)
    as ([[new' mD]|] & -> & Hn'); [lia| |by eexists]. destruct (Hn' _ _ eq_refl) as [hn Hhn].
  destruct (go_back_total store (S (Z.to_nat (pb_Height last))) _ last (pb_Height new') ∅ Hch Hlast)
    as ([[last' mA]|] & -> & Hl'); [lia| |by eexists]. destruct (Hl' _ _ eq_refl) as [hl Hhl].
  destruct (go_back_both_total store (S (S (Z.to_nat (pb_Height last')))) hl hn last' new' mA mD Hch Hhl Hhn)
    as [[[mA' mD']|] ->]; [lia|by eexists|by eexists].
Qed.
End proofs.
