(* ===== verification/PoolSafety.v ===== *)
(** * The operations of a pool in any order

    [run_op] is one operation of a pool, as the node and the loop of the pool call
    them. None of them panics or runs forever, in whatever order they come. As long
    as the loop does not find two objects of one account and nonce, the pool keeps
    its books; the examples show what happens when it does. *)

From Stdlib Require Import ZArith Lia.
From S2P Require Import Prelude Common GoHeap PoolQueue PoolQueueProofs Pool PoolProofs.

Open Scope Z_scope.

Section live.
Context {Obj St : Type} `{PoolObject Obj} `{Inhabited Obj} `{PoolEnv Obj St}.
Implicit Types p : Pool Obj.
Implicit Types items : Items Obj.

(** What is needed for an operation to return, and is true in whatever state the
    map from hashes is. *)
Record pool_live p : Prop := mkPoolLive {
  lv_queue : queue_ok (p_items p) (p_pendingQueue p);
  lv_pending a n i : pending p a n = Some i -> (i < p_nextItem p)%nat;
  lv_map h i : p_hashToTxMap p !! h = Some i -> (i < p_nextItem p)%nat
}.

Lemma pool_ok_live p : pool_ok p -> pool_live p.
Proof. intros Hp. split; [apply Hp| |]; [intros a n i; by apply pending_lt|]. intros h i Hi. by eapply pl_map. Qed.

Lemma queue_add_any items q tx :
  queue_ok items q ->
  exists items' q', queue_add items q tx = Some (items', q') /\ queue_ok items' q'
    /\ forall a n i, queue_get q' a n = Some i -> queue_get q a n = Some i \/ i = tx.
Proof.
  intros Hq. destruct (queue_get q (FromAccount (item_obj items tx)) (nonce_of items tx)) as [e|] eqn:He.
  - destruct (queue_add_exist items q tx e Hq He) as (q' & Ha & Hq' & Ht).
    eexists _, q'. split; [done|]. split; [done|]. intros a n i. unfold queue_get. rewrite Ht. by left.
  - destruct (queue_add_new items q tx Hq He) as (q' & Ha & Hq' & Hget).
    eexists _, q'. split; [done|]. split; [done|]. intros a n i. rewrite Hget.
    case_decide; [intros [= <-]; by right|by left].
Qed.

Lemma doRemoveObject_live p h : pool_live p -> exists p', doRemoveObject p h = Some p' /\ pool_live p'.
Proof.
  intros [Hq Hpe Hm]. unfold doRemoveObject. destruct (p_hashToTxMap p !! h) as [tx|]; [|by exists p].
  destruct (queue_remove_spec (p_items p) (p_pendingQueue p) (FromAccount (pobj p tx)) (po_Nonce (pobj p tx)) Hq)
    as (q' & Hr & Hq' & Hget).
  unfold pobj in Hr. unfold nonce_of. rewrite Hr. eexists. split; [done|]. split; cbn.
  - exact Hq'.
  - intros a n i. unfold pending. cbn. rewrite Hget. case_decide; [done|apply Hpe].
  - intros h' i [_ Hi]%lookup_delete_Some. by apply (Hm h').
Qed.

Lemma replace_pending_live p obj :
  pool_live p ->
  exists r, replace_pending p obj = Some r /\ match r with inl p' => pool_live p' | inr _ => True end.
Proof.
  intros Hp. unfold replace_pending. destruct (queue_get _ _ _) as [e|]; [|by exists (inl p)].
  case_match; [|by eexists]. destruct (doRemoveObject_live p (GetHash (item_obj (p_items p) e)) Hp) as (p' & -> & Hp').
  by exists (inl p').
Qed.

Lemma make_room_live p obj :
  pool_live p ->
  exists r, make_room p obj = Some r /\ match r with inl p' => pool_live p' | inr _ => True end.
Proof.
  intros [Hq Hpe Hm]. unfold make_room. case_match; [|by exists (inl p)].
  destruct (queue_discard_spec (p_items p) (p_pendingQueue p) (Price obj) Hq)
    as [[-> _]|(a & c & i & q' & -> & Hq' & _ & Hok & _ & _ & _ & _ & Hget)]; [by eexists|].
  case_match; [by eexists|].
  destruct (drop_collection_spec (p_items p) a c (p_hashToTxMap p) Hok) as (m' & -> & Hm').
  eexists. split; [done|]. split; cbn.
  - exact Hq'.
  - intros b n j. unfold pending. cbn. rewrite Hget. case_decide; [done|apply Hpe].
  - intros h j [Hj _]%Hm'. by apply (Hm h).
Qed.

Lemma doAddObject_live now p obj : pool_live p -> exists p', doAddObject now p obj = Some p' /\ pool_live p'.
Proof.
  intros [Hq Hpe Hm]. unfold doAddObject.
  assert (Hfr : queue_ok (<[p_nextItem p := mkItem obj now]> (p_items p)) (p_pendingQueue p)).
  { apply queue_ok_fresh; [done|]. intros a n Hi. apply Hpe in Hi. lia. }
  destruct (queue_add_any _ _ (p_nextItem p) Hfr) as (items' & q' & -> & Hq' & Hget).
  eexists. split; [done|]. split; cbn.
  - exact Hq'.
  - intros a n i Hi. apply Hget in Hi as [Hi| ->]; [apply Hpe in Hi; lia|lia].
  - intros h i [[<- <-]|[_ Hi%Hm]]%lookup_insert_Some; lia.
Qed.

Lemma addObject_live now (state : option St) p obj :
  pool_live p -> exists p' out e, addObject now state p obj = Some (p', out, e) /\ pool_live p'.
Proof.
  intros Hp. unfold addObject. destruct (Has p _); [by eexists _, _, _|]. destruct state as [statedb|]; [|by eexists _, _, _].
  destruct (objectValidation statedb obj); [cbn [negb]|by eexists _, _, _].
  destruct (replace_pending_live p obj Hp) as ([p1|e] & -> & Hp1); [|by eexists _, _, _].
  destruct (make_room_live p1 obj Hp1) as ([p2|e] & -> & Hp2); [|by eexists _, _, _].
  destruct (doAddObject_live now p2 obj Hp2) as (p3 & -> & Hp3). by eexists _, _, _.
Qed.

Lemma addObjectArray_live now (state : option St) objects p :
  pool_live p -> exists p' out count, addObjectArray now state p objects = Some (p', out, count) /\ pool_live p'.
Proof.
  revert p. induction objects as [|obj objects IH]; intros p Hp; cbn [addObjectArray]; [by eexists _, _, _|].
  destruct (addObject_live now state p obj Hp) as (p1 & o1 & e & -> & Hp1).
  destruct (IH p1 Hp1) as (p2 & o2 & count & -> & Hp2). by eexists _, _, _.
Qed.

Lemma removeObjects_live (state : option St) order p :
  pool_live p -> exists p', removeObjects state p order = Some p' /\ pool_live p'.
Proof.
  intros Hp. destruct state as [statedb|]; [cbn|by exists p]. revert p Hp.
  induction order as [|[h i] order IH]; intros p Hp; cbn [remove_each]; [by exists p|].
  destruct (canRemove _ _); [|by apply IH]. unfold removeOject.
  destruct (doRemoveObject_live p h Hp) as (p1 & -> & Hp1). by apply IH.
Qed.

Lemma getProcessableObjects_live p limit :
  pool_live p -> exists p' txs total, getProcessableObjects p limit = Some (p', txs, total) /\ pool_live p'.
Proof.
  intros [Hq Hpe Hm]. unfold getProcessableObjects.
  destruct (take_processable_spec (p_items p) (S (queue_count (p_pendingQueue p))) (p_pendingQueue p)
    (p_processingObjects p) limit 0 Hq) as (l & q & -> & Hq' & Hg & _); [lia|].
  eexists _, _, _. split; [done|]. split; cbn; [done| |done].
  intros a n i Hi. apply (Hpe a n). by apply (greedy_shrinks (p_items p) _ l (queue_get q)).
Qed.

Lemma reinject_items_live order p :
  pool_live p -> (forall h i, (h, i) ∈ order -> (i < p_nextItem p)%nat) ->
  exists p' out, reinject_items p order = Some (p', out) /\ pool_live p'.
Proof.
  revert p. induction order as [|[h i] order IH]; intros p [Hq Hpe Hm] Hin; cbn [reinject_items]; [by eexists _, _|].
  destruct (queue_add_any (p_items p) (p_pendingQueue p) i Hq) as (items' & q' & -> & Hq' & Hget).
  set (p1 := mkPool (p_capacity p) items' (p_nextItem p) (p_hashToTxMap p) q' (p_processingObjects p)).
  destruct (IH p1) as (p2 & out & -> & Hp2); [| |by eexists _, _].
  - split; cbn; [done| |done]. intros a n j Hj. apply Hget in Hj as [Hj| ->]; [by apply (Hpe a n)|].
    apply (Hin h). left.
  - intros h' j Hj. apply (Hin h'). by right.
Qed.

Lemma check_pool_live (state : option St) walk p :
  walks walk -> pool_live p -> exists p' out, check_pool state walk p = Some (p', out) /\ pool_live p'.
Proof.
  intros Hw Hp. unfold check_pool. case_match; [by eexists _, _|].
  destruct (removeObjects_live state (walk (p_hashToTxMap p)) p Hp) as (p1 & -> & Hp1).
  apply reinject_items_live; [done|]. intros h i. rewrite Hw, elem_of_map_to_list. apply Hp1.
Qed.

(** ** Operations *)

Context (store : Hash -> option (pool_block Obj)).
Context (walk_objects : gmap Hash Obj -> list (Hash * Obj)) (walk_items : gmap Hash nat -> list (Hash * nat)).

Inductive pool_op : Type :=
| OpAdd (now : Z) (state : option St) (obj : Obj)
| OpRemove (objHash : Hash)
| OpTake (limit : Z)
| OpCheck (state : option St)
| OpHeader (now : Z) (state : option St) (newHeader lastHeader : Hash)
| OpReversed (now : Z) (state : option St) (b : pool_block Obj).

Definition run_op p (op : pool_op) : option (Pool Obj) :=
  match op with
  | OpAdd now state obj => (fun r => r.1.1) <$> addObject now state p obj
  | OpRemove objHash => removeOject p objHash
  | OpTake limit => (fun r => r.1.1) <$> getProcessableObjects p limit
  | OpCheck state => fst <$> check_pool state walk_items p
  | OpHeader now state newHeader lastHeader =>
      fst <$> HandleChainHeaderChanged now state store walk_objects walk_items p newHeader lastHeader
  | OpReversed now state b => fst <$> HandleChainReversed now state walk_items p b
  end.

Fixpoint run_ops p (ops : list pool_op) : option (Pool Obj) :=
  match ops with
  | [] => Some p
  | op :: ops' => match run_op p op with Some p' => run_ops p' ops' | None => None end
  end.

Lemma run_op_live p op :
  chain_heights store -> walks walk_items -> pool_live p -> exists p', run_op p op = Some p' /\ pool_live p'.
Proof.
  intros Hch Hw Hp. destruct op as [now state obj|h|limit|state|now state nh lh|now state b]; cbn [run_op].
  - destruct (addObject_live now state p obj Hp) as (p' & out & e & -> & Hp'). by exists p'.
  - by apply doRemoveObject_live.
  - destruct (getProcessableObjects_live p limit Hp) as (p' & txs & total & -> & Hp'). by exists p'.
  - destruct (check_pool_live state walk_items p Hw Hp) as (p' & out & -> & Hp'). by exists p'.
  - unfold HandleChainHeaderChanged. destruct (getReinjectObject_total store nh lh Hch) as [m ->].
    destruct (addObjectArray_live now state (map snd (walk_objects m)) p Hp) as (p1 & out & count & -> & Hp1).
    destruct (removeObjects_live state (walk_items (p_hashToTxMap p1)) p1 Hp1) as (p2 & -> & Hp2). by exists p2.
  - unfold HandleChainReversed.
    destruct (addObjectArray_live now state (pb_Objects b) p Hp) as (p1 & out & count & -> & Hp1).
    destruct (removeObjects_live state (walk_items (p_hashToTxMap p1)) p1 Hp1) as (p2 & -> & Hp2). by exists p2.
Qed.

(** The pools that operations lead to, when the loop that checks a pool with nothing
    pending finds no two objects of one account and nonce. *)
Inductive reachable : Pool Obj -> Prop :=
| reach_new capacity : reachable (NewPool capacity)
| reach_op p op p' :
    reachable p -> run_op p op = Some p' ->
    (forall state, op = OpCheck state -> distinct_keys p) -> reachable p'.

Lemma run_op_ok p op p' :
  walks walk_items -> pool_ok p -> run_op p op = Some p' ->
  (forall state, op = OpCheck state -> distinct_keys p) -> pool_ok p' /\ p_capacity p' = p_capacity p.
Proof.
  intros Hw Hp Hrun Hdk. destruct op as [now state obj|h|limit|state|now state nh lh|now state b]; cbn [run_op] in Hrun.
  - destruct (addObject_ok now state p obj Hp) as (p1 & out & e & Ha & Hp1 & Hc). rewrite Ha in Hrun. by injection Hrun as <-.
  - destruct (doRemoveObject_spec p h Hp) as (p1 & Hr & Hp1 & Hc & _). unfold removeOject in Hrun.
    rewrite Hr in Hrun. by injection Hrun as <-.
  - destruct (getProcessableObjects_cases p limit Hp) as (l & q & Hg & Hp1 & _). rewrite Hg in Hrun. by injection Hrun as <-.
  - destruct (decide (queue_count (p_pendingQueue p) = 0%nat)) as [H0'|Hne].
    + destruct (check_pool_spec state walk_items p Hp Hw (Hdk state eq_refl) H0') as (p1 & out & Hc & Hp1 & Hcap & _).
      rewrite Hc in Hrun. by injection Hrun as <-.
    + unfold check_pool in Hrun. destruct (Nat.ltb_spec 0 (queue_count (p_pendingQueue p))); [|lia].
      by injection Hrun as <-.
  - unfold HandleChainHeaderChanged in Hrun. destruct (getReinjectObject store nh lh) as [m|]; [|done].
    destruct (addObjectArray_ok now state (map snd (walk_objects m)) p Hp) as (p1 & out & count & Ha & Hp1 & Hc1).
    destruct (removeObjects_spec state walk_items p1 Hp1 Hw) as (p2 & Hr & Hp2 & Hc2 & _).
    rewrite Ha, Hr in Hrun. injection Hrun as <-. split; [done|congruence].
  - unfold HandleChainReversed in Hrun.
    destruct (addObjectArray_ok now state (pb_Objects b) p Hp) as (p1 & out & count & Ha & Hp1 & Hc1).
    destruct (removeObjects_spec state walk_items p1 Hp1 Hw) as (p2 & Hr & Hp2 & Hc2 & _).
    rewrite Ha, Hr in Hrun. injection Hrun as <-. split; [done|congruence].
Qed.

Lemma reachable_ok p : walks walk_items -> reachable p -> pool_ok p.
Proof.
  intros Hw. induction 1 as [capacity|p op p' _ IH Hrun Hdk]; [apply NewPool_ok|].
  by apply (run_op_ok p op p').
Qed.
End live.

(** ** What the pool promises *)

Section promises.
Context {Obj St : Type} `{PoolObject Obj} `{Inhabited Obj} `{PoolEnv Obj St}.
Implicit Types p : Pool Obj.

(** Every sequence of operations on a pool returns: no heap operation gets
    an index out of range, no first item is missing, and the walk back on a
    chain whose blocks have the heights of their places ends. This holds
    also after the loop has confused the items of objects with one account
    and nonce. *)
Theorem pool_never_panics store walk_objects walk_items capacity (ops : list (@pool_op Obj St)) :
  chain_heights store -> walks walk_items ->
  exists p, run_ops store walk_objects walk_items (NewPool capacity) ops = Some p.
Proof.
  intros Hch Hw. assert (Hp : pool_live (NewPool capacity)) by apply pool_ok_live, NewPool_ok.
  revert Hp. generalize (NewPool capacity : Pool Obj). induction ops as [|op ops IH]; intros p Hp; cbn [run_ops].
  { by exists p. }
  destruct (run_op_live store walk_objects walk_items p op Hch Hw Hp) as (p' & -> & Hp'). by apply IH.
Qed.

(** C35: Whatever operations a pool goes through, as long as the loop that makes
    objects pending again finds no two objects of one account and nonce, the
    pool does not hold more objects than its capacity, under a hash it has
    the object with this hash, and what is pending for an account and a
    nonce is an object of the pool with this account and nonce. *)
Theorem pool_keeps_books store walk_objects walk_items p :
  walks walk_items -> reachable (St := St) store walk_objects walk_items p ->
  Z.of_nat (size (p_hashToTxMap p)) <= Z.max 0 (p_capacity p)
  /\ (forall h o, GetObject p h = Some o -> GetHash o = h)
  /\ forall a n i, pending p a n = Some i ->
       FromAccount (pobj p i) = a /\ po_Nonce (pobj p i) = n /\ GetObject p (GetHash (pobj p i)) = Some (pobj p i).
Proof.
  intros Hw Hr. pose proof (reachable_ok store walk_objects walk_items p Hw Hr) as Hp.
  split; [apply (pl_size _ Hp)|]. unfold GetObject. split.
  - intros h o (i & Hi & ->)%fmap_Some. by apply (pl_map _ Hp).
  - intros a n i Hi. destruct (pending_key p a n i Hp Hi) as [Ha Hn]. split; [done|]. split; [done|].
    by rewrite (pl_pending _ Hp a n i Hi).
Qed.

Lemma admits_map p p1 obj h i : admits p obj p1 -> p_hashToTxMap p1 !! h = Some i -> p_hashToTxMap p !! h = Some i.
Proof.
  destruct 1 as [|j p' _ _ Hmap _|a j p' _ _ _ _ _ _ Hmap]; [done| |].
  - rewrite Hmap. by intros [_ ?]%lookup_delete_Some.
  - by intros [? _]%Hmap.
Qed.

Lemma admits_not_refusal (statedb : St) p p1 obj e :
  admits p obj p1 -> p_hashToTxMap p !! GetHash obj = None -> objectValidation statedb obj = true ->
  ~ refusal (Some statedb) p obj e.
Proof.
  intros Had Hh Hv. destruct e; cbn.
  - rewrite Hh. by intros ?%is_Some_None.
  - intros (Hfull & Hnone & Hall). destruct Had as [| |a i p' _ _ Hfi Hpr _ _ _]; [lia|congruence|].
    specialize (Hall a i Hfi). lia.
  - intros (i & Hi & Hpr). destruct Had as [|j p' Hj Hlt _ _|]; [congruence| |congruence].
    rewrite Hj in Hi. injection Hi as ->. lia.
  - discriminate.
  - intros (st & [= <-] & Hf). congruence.
  - tauto.
Qed.

(** Adding an object either refuses it, with the error that names the
    reason, and leaves the pool as it was; or none of the reasons is given,
    and the object is in the pool and pending. What has gone for it is
    nothing when there was room, the cheaper pending object of the same
    account and nonce, or in a full pool the pending objects of the account
    whose first object is the worst and cheaper. *)
Theorem addObject_outcome now (state : option St) p obj :
  pool_ok p ->
  (exists e, addObject now state p obj = Some (p, [], Some e) /\ refusal state p obj e)
  \/ exists p1 p', addObject now state p obj = Some (p', [obj], None)
      /\ (forall e, ~ refusal state p obj e)
      /\ admits p obj p1 /\ pool_ok p'
      /\ (forall h, GetObject p' h = if decide (h = GetHash obj) then Some obj else GetObject p1 h)
      /\ (forall h o, GetObject p1 h = Some o -> GetObject p h = Some o)
      /\ forall a n, pobj p' <$> pending p' a n
          = if decide (a = FromAccount obj /\ n = po_Nonce obj) then Some obj else pobj p <$> pending p1 a n.
Proof.
  intros Hp. destruct (addObject_cases now state p obj Hp) as [?|(st & p1 & p' & Ha & Hh & Hst & Hv & Had & Hp1 & Hit & Hnx & Hc & Hpe & Hsz & Hh1 & Hadd & Hp')];
    [by left|]. right. exists p1, p'. split; [done|]. split; [intros e; subst state; by apply (admits_not_refusal st p p1)|].
  split; [done|]. split; [done|].
  destruct (doAddObject_spec now p1 obj Hp1 Hh1 Hpe Hsz) as (p'' & Hadd' & _ & _ & Hit' & Hmap & _ & Hpend).
  rewrite Hadd in Hadd'. injection Hadd' as <-.
  assert (Hnew : pobj p' (p_nextItem p1) = obj) by (unfold pobj, item_obj; by rewrite Hit', lookup_total_insert_eq).
  assert (Hold : forall i, (i < p_nextItem p1)%nat -> pobj p' i = pobj p1 i).
  { intros i Hi. unfold pobj, item_obj. rewrite Hit', lookup_total_insert_ne; [done|lia]. }
  split; [|split].
  - intros h. unfold GetObject. rewrite Hmap, lookup_insert. repeat case_decide; try done.
    + cbn. f_equal. exact Hnew.
    + destruct (p_hashToTxMap p1 !! h) as [i|] eqn:Hi; [|done]. cbn. f_equal. apply Hold. by eapply (pl_map _ Hp1).
  - intros h o. unfold GetObject. rewrite Hit. intros (i & Hi & ->)%fmap_Some.
    by rewrite (admits_map p p1 obj h i Had Hi).
  - intros a n. rewrite Hpend. case_decide; [cbn; by rewrite Hnew|].
    destruct (pending p1 a n) as [i|] eqn:Hi; [|done]. cbn. f_equal. rewrite Hold by (by eapply pending_lt).
    unfold pobj. by rewrite Hit.
Qed.

(** C36: The two heaps implement the greedy choice: the objects for a block are
    taken one by one, each the object with the least nonce of an account
    whose first object has the best price, or the earliest time among the
    best prices. They fit into the size, the nonces of an account are
    increasing, they become processing objects, and taking stops only when
    nothing is pending or the next object does not fit. *)
Theorem getProcessableObjects_greedy p limit :
  pool_ok p ->
  exists l p' total, getProcessableObjects p limit = Some (p', map (pobj p) l, total)
    /\ pool_ok p' /\ p_hashToTxMap p' = p_hashToTxMap p
    /\ p_processingObjects p' = hashes (p_items p) l ∪ p_processingObjects p
    /\ greedy (p_items p) (pending p) l (pending p')
    /\ total = sizes (p_items p) l /\ (l = [] \/ total <= limit)
    /\ ((forall a n, pending p' a n = None)
        \/ exists a n i, best_of (p_items p) (pending p') a n i /\ limit < total + po_Size (pobj p i))
    /\ forall x y i j, l !! x = Some i -> l !! y = Some j -> (x < y)%nat ->
         FromAccount (pobj p i) = FromAccount (pobj p j) -> po_Nonce (pobj p i) < po_Nonce (pobj p j).
Proof.
  intros Hp. destruct (getProcessableObjects_cases p limit Hp) as (l & q & -> & Hp' & Hg & Hle & Hstop).
  eexists l, _, _. split; [done|]. split; [done|]. do 2 (split; [done|]). split; [exact Hg|].
  split; [done|]. split; [done|]. split; [exact Hstop|].
  apply (greedy_nonces (p_items p) (pending p) l _ Hg). intros a n i Hi. by apply pending_key.
Qed.

(** When nothing is pending and no two objects have the same account and
    nonce, the loop removes exactly the objects that can be removed, and
    makes all others pending, each announced. *)
Theorem check_pool_reinjects (state : option St) walk p :
  pool_ok p -> walks walk -> distinct_keys p -> queue_count (p_pendingQueue p) = 0%nat ->
  exists p' out, check_pool state walk p = Some (p', out) /\ pool_ok p'
    /\ (forall h i, p_hashToTxMap p' !! h = Some i
        <-> p_hashToTxMap p !! h = Some i /\ stays state (p_items p) i)
    /\ (forall i, pending p' (FromAccount (pobj p i)) (po_Nonce (pobj p i)) = Some i
        <-> exists h, p_hashToTxMap p' !! h = Some i)
    /\ forall o, o ∈ out <-> exists h, GetObject p' h = Some o.
Proof.
  intros Hp Hw Hdk H0'. destruct (check_pool_spec state walk p Hp Hw Hdk H0') as (p' & out & ? & ? & _ & _ & ? & ? & ?).
  by exists p', out.
Qed.

(** When the head of the chain changes to another branch, the objects that
    are added again are those in the blocks of the branch that is left, back
    to the common block, that are in no block of the new branch. *)
Theorem getReinjectObject_spec (store : Hash -> option (pool_block Obj)) newHeader lastHeader new last ln ll anc :
  store newHeader = Some new -> store lastHeader = Some last -> pb_PreviousBlockHash new <> lastHeader ->
  branch store new ln anc -> branch store last ll anc -> 0 <= pb_Height anc ->
  (forall x y, x ∈ ll -> y ∈ ln -> pb_Height x = pb_Height y -> pb_HeaderHash x <> pb_HeaderHash y) ->
  exists m, getReinjectObject store newHeader lastHeader = Some m
    /\ (forall h o, m !! h = Some o -> in_blocks ll h o)
    /\ forall h, is_Some (m !! h) <-> (exists o, in_blocks ll h o) /\ ~ exists o, in_blocks ln h o.
Proof.
  intros Hnew Hlast Hprev Hn Hl Hanc Hfork. eexists.
  split; [by apply (getReinjectObject_branches store _ _ new last ln ll anc)|]. split.
  - intros h o [Ho _]%lookup_difference_Some. apply notes_spec in Ho as [Ho|Ho]; [done|by rewrite lookup_empty in Ho].
  - intros h. destruct (notes_spec ll ∅ h) as [_ Hll]. destruct (notes_spec ln ∅ h) as [_ Hln].
    rewrite lookup_empty in Hll. rewrite lookup_empty in Hln.
    pose proof (is_Some_None (A := Obj)) as HN.
    rewrite lookup_difference. destruct (notes ln ∅ !! h) as [o|]; [|rewrite Hll; tauto].
    pose proof (mk_is_Some (Some o) o eq_refl). tauto.
Qed.

(** ** The cache of known transactions *)

(** A transaction is noted in the cache of known transactions before the
    pool decides: one that was refused, for whatever reason, is not in the
    pool and is refused as a duplicate ever after, also when it would be
    valid. *)
Theorem refused_tx_stays_refused selRand now (state : option St) (p p' : @TransactionPool Obj) tx out e :
  AddTransaction selRand now state p tx = Some (p', out, Some e) -> e <> errDuplicateTx ->
  (forall o, GetObject (tp_pool p) (GetHash tx) <> Some o) ->
  pool_ok (tp_pool p) ->
  (forall o, GetObject (tp_pool p') (GetHash tx) <> Some o)
  /\ forall selRand' now' (state' : option St),
      AddTransaction selRand' now' state' p' tx = Some (p', [], Some errDuplicateTx).
Proof.
  unfold AddTransaction at 1. intros Hadd He Hno Hok.
  destruct (cached_has (tp_cachedTxs p) (GetHash tx)); [by injection Hadd as _ _ <-|].
  destruct (addObject_cases now state (tp_pool p) tx Hok) as [(e' & Ha & _)|(st & p1 & p2 & Ha & _)];
    rewrite Ha in Hadd; injection Hadd; [|discriminate]. intros _ _ <-. split; [done|].
  intros selRand' now' state'. unfold AddTransaction, cached_has. cbn. by rewrite lookup_insert_eq.
Qed.

(** One deletion for every two that are meant: of [n] transactions [(n / 20 + 1) / 2]
    are deleted, and none when they are fewer than twenty. *)
Lemma random_deletes_count (selRand : gmap Hash Obj -> Hash) (fuel : nat) (content : gmap Hash Obj) (i d : Z) :
  (forall c, c <> ∅ -> is_Some (c !! selRand c)) -> 0 <= i ->
  Z.max 0 (d - i) < 2 * Z.of_nat fuel + 1 -> (d - i + 1) / 2 <= Z.of_nat (size content) ->
  Z.of_nat (size (random_deletes fuel selRand i d content))
  = Z.of_nat (size content) - Z.max 0 ((d - i + 1) / 2).
Proof.
  intros Hsel. revert content i. induction fuel as [|fuel IH]; intros content i Hi Hf Hs; cbn [random_deletes].
  { assert ((d - i + 1) / 2 < 1) by (apply Z.div_lt_upper_bound; lia). lia. }
  destruct (Z.ltb_spec i d) as [Hlt|Hge].
  2: { assert ((d - i + 1) / 2 < 1) by (apply Z.div_lt_upper_bound; lia). lia. }
  assert (Hhalf : (d - i + 1) / 2 = (d - (i + 2) + 1) / 2 + 1).
  { replace (d - i + 1) with (d - (i + 2) + 1 + 1 * 2) by lia. by rewrite Z.div_add. }
  assert (1 <= (d - i + 1) / 2) by (apply Z.div_le_lower_bound; lia).
  assert (Hne : content <> ∅) by (intros ->; rewrite map_size_empty in Hs; lia).
  pose proof (map_size_delete_Some (selRand content) content (Hsel content Hne)) as Hdel.
  assert (size content <> 0%nat) by (by rewrite map_size_non_empty_iff).
  rewrite IH; [rewrite Hdel; lia|lia|lia|rewrite Hdel; lia].
Qed.

Lemma randomDeletes_count (selRand : gmap Hash Obj -> Hash) (content : gmap Hash Obj) :
  (forall c, c <> ∅ -> is_Some (c !! selRand c)) ->
  Z.of_nat (size (randomDeletes selRand content))
  = Z.of_nat (size content) - (Z.of_nat (size content) / PercentDelete + 1) / 2.
Proof.
  intros Hsel. unfold randomDeletes, PercentDelete.
  assert (Hq : 0 <= Z.of_nat (size content) / 20 <= Z.of_nat (size content)).
  { split; [apply Z.div_pos; lia|]. apply Z.div_le_upper_bound; lia. }
  assert (0 <= (Z.of_nat (size content) / 20 + 1) / 2 <= Z.of_nat (size content)).
  { split; [apply Z.div_pos; lia|]. apply Z.lt_succ_r, Z.div_lt_upper_bound; lia. }
  rewrite random_deletes_count; [|done|lia|lia|]; rewrite ?Z.sub_0_r; lia.
Qed.
End promises.

(** ** Examples *)

Module PoolExample.
Record ExTx := mkExTx { ex_hash : Z; ex_from : Z; ex_nonce : Z; ex_price : Z }.

#[export] Instance ExTx_inhabited : Inhabited ExTx := populate (mkExTx 0 0 0 0).

#[export] Instance ExTx_object : PoolObject ExTx := {
  FromAccount o := [ex_from o];
  Price := ex_price;
  po_Nonce := ex_nonce;
  GetHash o := [ex_hash o];
  po_Size _ := 10;
  ToAccount _ := [0]
}.

(** The state is the nonce of the accounts. *)
#[export] Instance ExTx_env : PoolEnv ExTx Z := {
  objectValidation statedb o := statedb <=? ex_nonce o;
  canRemove statedb it := ex_nonce (it_object it) <? statedb
}.

Definition ex_block (h prev height : Z) (objs : list ExTx) : pool_block ExTx := mkPoolBlock [h] [prev] height objs.

Definition tx1 : ExTx := mkExTx 1 7 0 5.
Definition tx2 : ExTx := mkExTx 2 7 1 9.
Definition tx3 : ExTx := mkExTx 3 8 0 6.
Definition tx4 : ExTx := mkExTx 4 7 0 8.

(** Two branches on the block 100: 101 and 102, and 103. *)
Definition ex_store (h : Hash) : option (pool_block ExTx) :=
  if decide (h = [100]) then Some (ex_block 100 99 0 [])
  else if decide (h = [101]) then Some (ex_block 101 100 1 [tx1])
  else if decide (h = [102]) then Some (ex_block 102 101 2 [tx2])
  else if decide (h = [103]) then Some (ex_block 103 100 1 [tx1; tx3])
  else None.

Lemma ex_store_inv h b :
  ex_store h = Some b ->
  b = ex_block 100 99 0 [] \/ b = ex_block 101 100 1 [tx1]
  \/ b = ex_block 102 101 2 [tx2] \/ b = ex_block 103 100 1 [tx1; tx3].
Proof. unfold ex_store. repeat case_decide; intros [= <-]; tauto. Qed.

Lemma ex_store_heights : chain_heights ex_store.
Proof.
  split.
  - intros h b Hb. destruct (ex_store_inv h b Hb) as [-> |[-> |[-> | ->]]]; cbn; lia.
  - intros h b b' Hb. destruct (ex_store_inv h b Hb) as [-> |[-> |[-> | ->]]]; cbn; intros [= <-]; done.
Qed.

Lemma ex_walks {V} : walks (V := V) map_to_list.
Proof. intros m. done. Qed.

Definition ex_run (ops : list (@pool_op ExTx Z)) : option (Pool ExTx) :=
  run_ops ex_store map_to_list map_to_list (NewPool 3) ops.

(** A pool with three objects of two accounts. *)
Definition ex_ops : list (@pool_op ExTx Z) := [OpAdd 1 (Some 0) tx1; OpAdd 2 (Some 0) tx2; OpAdd 3 (Some 0) tx3].

Definition ex_pool : Pool ExTx := default (NewPool 3) (ex_run ex_ops).

Lemma reachable_run (ops : list (@pool_op ExTx Z)) p p' :
  (forall state, OpCheck state ∉ ops) -> reachable (St := Z) ex_store map_to_list map_to_list p ->
  run_ops ex_store map_to_list map_to_list p ops = Some p' ->
  reachable (St := Z) ex_store map_to_list map_to_list p'.
Proof.
  revert p. induction ops as [|op ops IH]; intros p Hno Hp Hrun; cbn [run_ops] in Hrun.
  { by injection Hrun as <-. }
  destruct (run_op _ _ _ p op) as [p1|] eqn:Hop; [|done]. apply (IH p1); [| |done].
  - intros state Hin. apply (Hno state). by right.
  - apply (reach_op _ _ _ p op); [done|done|]. intros state ->. destruct (Hno state). left.
Qed.

Lemma ex_pool_reachable : reachable (St := Z) ex_store map_to_list map_to_list ex_pool.
Proof.
  apply (reachable_run ex_ops (NewPool 3)); [|apply reach_new|vm_compute; reflexivity].
  intros state. unfold ex_ops. rewrite !elem_of_cons. intros [?|[?|[?|?%not_elem_of_nil]]]; done.
Qed.

Lemma ex_pool_ok : pool_ok ex_pool.
Proof. apply (reachable_ok (St := Z) ex_store map_to_list map_to_list); [apply ex_walks|apply ex_pool_reachable]. Qed.
End PoolExample.

Import PoolExample.

Lemma pool_never_panics_witness :
  chain_heights ex_store /\ walks (V := nat) map_to_list
  /\ exists p, run_ops ex_store map_to_list map_to_list (NewPool 3)
       (ex_ops ++ [OpHeader 4 (Some 0) [102] [103]; OpTake 20; OpCheck (Some 1)]) = Some p.
Proof.
  split; [exact ex_store_heights|]. split; [exact ex_walks|].
  apply (pool_never_panics ex_store map_to_list map_to_list 3); [exact ex_store_heights|exact ex_walks].
Defined.

Lemma pool_keeps_books_witness :
  reachable (St := Z) ex_store map_to_list map_to_list ex_pool
  /\ Z.of_nat (size (p_hashToTxMap ex_pool)) <= Z.max 0 (p_capacity ex_pool).
Proof.
  split; [exact ex_pool_reachable|].
  apply (pool_keeps_books (St := Z) ex_store map_to_list map_to_list); [exact ex_walks|exact ex_pool_reachable].
Defined.

(** The pool is full: a better object of a new account takes the place of those of
    the account whose first object is the cheapest. *)
Lemma addObject_outcome_witness :
  pool_ok ex_pool
  /\ ((exists e, addObject 4 (Some 0) ex_pool (mkExTx 5 9 0 7) = Some (ex_pool, [], Some e)
        /\ refusal (Some 0) ex_pool (mkExTx 5 9 0 7) e)
      \/ exists p1 p', addObject 4 (Some 0) ex_pool (mkExTx 5 9 0 7) = Some (p', [mkExTx 5 9 0 7], None)
        /\ admits ex_pool (mkExTx 5 9 0 7) p1)
  /\ (fun r => (r.1.2, r.2, GetObject r.1.1 [1], GetObject r.1.1 [2], GetObject r.1.1 [3]))
       <$> addObject 4 (Some 0) ex_pool (mkExTx 5 9 0 7)
     = Some ([mkExTx 5 9 0 7], None, None, None, Some tx3).
Proof.
  split; [exact ex_pool_ok|]. split; [|vm_compute; reflexivity].
  destruct (addObject_outcome 4 (Some 0) ex_pool (mkExTx 5 9 0 7) ex_pool_ok)
    as [Hr|(p1 & p' & Ha & _ & Had & _)]; [left; exact Hr|right; exists p1, p'; exact (conj Ha Had)].
Defined.

Lemma getProcessableObjects_greedy_witness :
  pool_ok ex_pool
  /\ (exists l p' total, getProcessableObjects ex_pool 20 = Some (p', map (pobj ex_pool) l, total)
        /\ greedy (p_items ex_pool) (pending ex_pool) l (pending p'))
  /\ (fun r => (r.1.2, r.2)) <$> getProcessableObjects ex_pool 20 = Some ([tx3; tx1], 20).
Proof.
  split; [exact ex_pool_ok|]. split; [|vm_compute; reflexivity].
  destruct (getProcessableObjects_greedy ex_pool 20 ex_pool_ok) as (l & p' & total & Ht & _ & _ & _ & Hg & _).
  exists l, p', total. exact (conj Ht Hg).
Defined.

(** All objects were taken for a block, and nothing is pending. *)
Definition ex_taken : Pool ExTx := default (NewPool 3) (ex_run (ex_ops ++ [OpTake 100])).

Lemma ex_taken_ok : pool_ok ex_taken.
Proof.
  apply (reachable_ok (St := Z) ex_store map_to_list map_to_list); [apply ex_walks|].
  apply (reachable_run (ex_ops ++ [OpTake 100]) (NewPool 3)); [|apply reach_new|vm_compute; reflexivity].
  intros state. unfold ex_ops. cbn. rewrite !elem_of_cons. intros [?|[?|[?|[?|?%not_elem_of_nil]]]]; done.
Qed.

Lemma ex_taken_map : p_hashToTxMap ex_taken = {[ [1] := 0%nat; [2] := 1%nat; [3] := 2%nat ]}.
Proof. vm_compute. reflexivity. Qed.

Lemma ex_taken_distinct : distinct_keys ex_taken.
Proof.
  intros h1 h2 i1 i2. rewrite ex_taken_map, !lookup_insert_Some, !lookup_singleton_Some.
  intros [[<- <-]|[_ [[<- <-]|[_ [<- <-]]]]] [[<- <-]|[_ [[<- <-]|[_ [<- <-]]]]]; vm_compute; congruence.
Qed.

Lemma check_pool_reinjects_witness :
  distinct_keys ex_taken /\ queue_count (p_pendingQueue ex_taken) = 0%nat
  /\ (exists p' out, check_pool (Some 1) map_to_list ex_taken = Some (p', out) /\ pool_ok p')
  /\ snd <$> check_pool (Some 1) map_to_list ex_taken = Some [tx2].
Proof.
  split; [exact ex_taken_distinct|]. split; [vm_compute; reflexivity|]. split; [|vm_compute; reflexivity].
  destruct (check_pool_reinjects (Some 1) map_to_list ex_taken ex_taken_ok ex_walks ex_taken_distinct)
    as (p' & out & Hc & Hp & _); [vm_compute; reflexivity|exists p', out; exact (conj Hc Hp)].
Defined.

Lemma getReinjectObject_spec_witness :
  branch ex_store (ex_block 102 101 2 [tx2]) [ex_block 102 101 2 [tx2]; ex_block 101 100 1 [tx1]] (ex_block 100 99 0 [])
  /\ branch ex_store (ex_block 103 100 1 [tx1; tx3]) [ex_block 103 100 1 [tx1; tx3]] (ex_block 100 99 0 [])
  /\ (exists m, getReinjectObject ex_store [102] [103] = Some m)
  /\ map_to_list <$> getReinjectObject ex_store [102] [103] = Some [([3], tx3)].
Proof.
  assert (Hn : branch ex_store (ex_block 102 101 2 [tx2]) [ex_block 102 101 2 [tx2]; ex_block 101 100 1 [tx1]] (ex_block 100 99 0 [])).
  { eapply branch_back; [reflexivity|reflexivity|]. eapply branch_back; [reflexivity|reflexivity|]. constructor. }
  assert (Hl : branch ex_store (ex_block 103 100 1 [tx1; tx3]) [ex_block 103 100 1 [tx1; tx3]] (ex_block 100 99 0 [])).
  { eapply branch_back; [reflexivity|reflexivity|]. constructor. }
  split; [exact Hn|]. split; [exact Hl|]. split; [|vm_compute; reflexivity].
  destruct (getReinjectObject_spec ex_store [102] [103] _ _ _ _ _ eq_refl eq_refl ltac:(discriminate) Hn Hl)
    as (m & Hm & _); [cbn; lia| |exists m; exact Hm].
  intros x y Hx Hy. rewrite !elem_of_cons in Hx. rewrite !elem_of_cons in Hy.
  destruct Hx as [-> |Hx%not_elem_of_nil]; [|done].
  destruct Hy as [-> |[-> |Hy%not_elem_of_nil]]; [discriminate|discriminate|done].
Defined.

Definition ex_txpool : @TransactionPool ExTx := mkTxPool (NewPool 3) (mkCachedTxs 100 ∅).

(** A transaction that came too early for the state. *)
Lemma refused_tx_stays_refused_witness :
  let p' := mkTxPool (NewPool 3) (mkCachedTxs 100 {[ [1] := tx1 ]}) in
  AddTransaction (fun _ => []) 1 (Some 5) ex_txpool tx1 = Some (p', [], Some errValidateObject)
  /\ AddTransaction (fun _ => []) 2 (Some 0) p' tx1 = Some (p', [], Some errDuplicateTx).
Proof.
  split; [vm_compute; reflexivity|].
  apply (refused_tx_stays_refused (fun _ => []) 1 (Some 5) ex_txpool _ tx1 [] errValidateObject);
    [vm_compute; reflexivity|discriminate| |apply NewPool_ok].
  intros o. vm_compute. discriminate.
Defined.

(** ** When two objects have the same account and nonce *)

(** The first is taken for a block, then the second comes and is taken as well. When
    the loop makes both pending again, the second overwrites the item of the first:
    under the hash of the first the pool then has the second. *)
Example reinjection_confuses_hashes :
  (fun p => (GetObject p [1], GetObject p [4]))
    <$> ex_run [OpAdd 1 (Some 0) tx1; OpTake 100; OpAdd 2 (Some 0) tx4; OpTake 100; OpCheck (Some 0)]
  = Some (Some tx4, Some tx4).
Proof. vm_compute. reflexivity. Qed.

(** Removing the first then takes the second out of the queue. *)
Example removal_drops_other_object :
  (fun p => (GetObject p [4], pending p [7] 0, queue_count (p_pendingQueue p)))
    <$> ex_run [OpAdd 1 (Some 0) tx1; OpTake 100; OpAdd 2 (Some 0) tx4; OpRemove [1]]
  = Some (Some tx4, None, 0%nat).
Proof. vm_compute. reflexivity. Qed.

(** Objects that are pending again are still counted as being processed. *)
Example reinjected_counted_twice :
  (fun p => (size (p_hashToTxMap p), getObjectCount p true true))
    <$> ex_run [OpAdd 1 (Some 0) tx1; OpTake 100; OpCheck (Some 0)]
  = Some (1%nat, 2%nat).
Proof. vm_compute. reflexivity. Qed.
