(* ===== verification/EvmWord.v ===== *)
(** * Words, memory and code of the virtual machine

    Models what the interpreter of [core/vm] computes with: 256-bit words
    ([common/math/big.go] of the vendored go-ethereum), the stack ([stack.go],
    [stack_table.go]), the memory ([memory.go], [memory_table.go]), slices of data
    ([common.go]), checked 64-bit arithmetic ([common/math/integer.go]) and the
    analysis of jump destinations ([analysis.go]). A [big.Int] is an integer; the
    pool of integers ([intpool.go]) recycles their memory and plays no part in their
    values. [None] is a panic. *)

From Stdlib Require Import ZArith Lia.
From S2P Require Import Prelude Common.

Open Scope Z_scope.

(** ** [big.Int] *)

Definition is_word (z : Z) : Prop := 0 <= z < 2 ^ 256.

#[export] Instance is_word_dec z : Decision (is_word z).
Proof. unfold is_word. apply _. Defined.

Definition BitLen (z : Z) : Z := if z =? 0 then 0 else Z.log2 (Z.abs z) + 1.

(** [Uint64] and [Int64] of a non-negative integer. *)
Definition big_Uint64 (z : Z) : Z := u64 z.
Definition big_Int64 (z : Z) : Z := i64 z.

(** [SetBytes]; the items are bytes. *)
Definition SetBytes (b : bytes) : Z := fold_left (fun acc x => acc * 256 + x mod 256) b 0.

(** The last [n] bytes of an integer, the first the most significant. *)
Fixpoint be_bytes (n : nat) (z : Z) : bytes :=
  match n with
  | O => []
  | S n' => be_bytes n' (z / 256) ++ [z mod 256]
  end.

(** [Bytes]. *)
Definition big_Bytes (z : Z) : bytes := be_bytes (Z.to_nat ((BitLen z + 7) / 8)) z.

Definition BigToAddress (b : Z) : Address := BytesToAddress (big_Bytes b).
Definition BigToHash (b : Z) : Hash := BytesToHash (big_Bytes b).
Definition Address_Big (id : Address) : Z := SetBytes id.
Definition Hash_Big (a : Hash) : Z := SetBytes a.

(** ** [common/math/big.go] *)

Definition tt255 : Z := 2 ^ 255.
Definition tt256 : Z := 2 ^ 256.
Definition tt256m1 : Z := tt256 - 1.

Definition U256 (x : Z) : Z := Z.land x tt256m1.

Definition S256 (x : Z) : Z := if x <? tt255 then x else x - tt256.

Definition BigMax (x y : Z) : Z := if x <? y then y else x.
Definition BigMin (x y : Z) : Z := if y <? x then y else x.

(** The loop of [Exp] over the bits of the words of the exponent. *)
Fixpoint exp_loop (n : nat) (exponent base result : Z) : Z :=
  match n with
  | O => result
  | S n' =>
      let result := if Z.odd exponent then U256 (result * base) else result in
      exp_loop n' (exponent / 2) (U256 (base * base)) result
  end.

Definition math_Exp (base exponent : Z) : Z :=
  exp_loop (64 * Z.to_nat ((BitLen exponent + 63) / 64)) exponent base 1.

Definition math_Byte (bigint padlength n : Z) : Z :=
  if padlength <=? n then 0 else Z.land (Z.shiftr bigint (8 * (padlength - 1 - n))) 255.

(** [ReadBits] into a buffer of zeros. *)
Definition ReadBits (bigint : Z) (len : nat) : bytes := be_bytes len bigint.

(** ** [common/math/integer.go] *)

Definition MaxUint64 : Z := 2 ^ 64 - 1.

(** The value, and whether it overflows. *)
Definition SafeAdd (x y : Z) : Z * bool := (u64 (x + y), MaxUint64 - x <? y).

Definition SafeMul (x y : Z) : Z * bool :=
  if (x =? 0) || (y =? 0) then (0, false) else (u64 (x * y), MaxUint64 / x <? y).

(** ** [common.go] *)

Definition calcMemSize (off l : Z) : Z := if l =? 0 then 0 else off + l.

(** [common.RightPadBytes]. *)
Definition RightPadBytes (slice : bytes) (l : Z) : bytes :=
  if l <=? Z.of_nat (length slice) then slice
  else slice ++ replicate (Z.to_nat l - length slice) 0.

Definition slice (data : bytes) (from to : Z) : bytes :=
  take (Z.to_nat (to - from)) (drop (Z.to_nat from) data).

Definition getDataBig (data : bytes) (start size : Z) : bytes :=
  let dlen := Z.of_nat (length data) in
  let s := BigMin start dlen in
  let e := BigMin (s + size) dlen in
  RightPadBytes (slice data (big_Uint64 s) (big_Uint64 e)) (i64 (big_Uint64 size)).

(** The value, and whether it does not fit. *)
Definition bigUint64 (v : Z) : Z * bool := (big_Uint64 v, 64 <? BitLen v).

Definition toWordSize (size : Z) : Z :=
  if MaxUint64 - 31 <? size then MaxUint64 / 32 + 1 else (size + 31) / 32.

(** ** [stack.go], with the top of the stack first *)

Definition EVMStackLimit : Z := 8192.

Definition Stack_Back (st : list Z) (n : nat) : option Z := st !! n.

(** [swap(n)]: the top and the item [n - 1] below it. *)
Definition Stack_swap (st : list Z) (n : nat) : option (list Z) :=
  match st !! 0%nat, st !! (n - 1)%nat with
  | Some x, Some y => Some (<[(n - 1)%nat := x]> (<[0%nat := y]> st))
  | _, _ => None
  end.

Definition Stack_dup (st : list Z) (n : nat) : option (list Z) :=
  match st !! (n - 1)%nat with Some x => Some (x :: st) | None => None end.

Inductive StackError : Type := stack_underflow (len n : nat) | stack_limit (len : nat).

Definition makeStackFunc (pop push : nat) (st : list Z) : option StackError :=
  if (length st <? pop)%nat then Some (stack_underflow (length st) pop)
  else if EVMStackLimit <? Z.of_nat (length st) + Z.of_nat push - Z.of_nat pop
  then Some (stack_limit (length st))
  else None.

Definition makeDupStackFunc (n : nat) : list Z -> option StackError := makeStackFunc n (n + 1).
Definition makeSwapStackFunc (n : nat) : list Z -> option StackError := makeStackFunc n n.

(** ** [memory.go] *)

Record Memory := mkMemory { mem_store : bytes; mem_lastGasCost : Z }.

Definition NewMemory : Memory := mkMemory [] 0.

Definition mem_Len (m : Memory) : Z := Z.of_nat (length (mem_store m)).

(** [copy(store[offset:offset+size], value)]. *)
Definition write_at (store : bytes) (offset size : nat) (value : bytes) : bytes :=
  let value := take size value in
  take offset store ++ value ++ drop (offset + length value) store.

Definition mem_Set (m : Memory) (offset size : Z) (value : bytes) : option Memory :=
  if 0 <? size then
    let end_ := u64 (offset + size) in
    if mem_Len m <? end_ then None
    else if end_ <? offset then None
    else Some (mkMemory (write_at (mem_store m) (Z.to_nat offset) (Z.to_nat size) value) (mem_lastGasCost m))
  else Some m.

Definition mem_Set32 (m : Memory) (offset val : Z) : option Memory :=
  let end_ := u64 (offset + 32) in
  if mem_Len m <? end_ then None
  else if end_ <? offset then None
  else Some (mkMemory (write_at (mem_store m) (Z.to_nat offset) 32 (ReadBits val 32)) (mem_lastGasCost m)).

Definition mem_Resize (m : Memory) (size : Z) : Memory :=
  if mem_Len m <? size
  then mkMemory (mem_store m ++ replicate (Z.to_nat (size - mem_Len m)) 0) (mem_lastGasCost m)
  else m.

(** [Get] and [GetPtr]; a slice that ends behind the memory is a panic. *)
Definition mem_Get (m : Memory) (offset size : Z) : option bytes :=
  if size =? 0 then Some []
  else if offset <? mem_Len m then
    if (size <? 0) || (offset <? 0) || (mem_Len m <? offset + size) then None
    else Some (slice (mem_store m) offset (offset + size))
  else if size <? 0 then None else Some [].

Definition mem_GetPtr (m : Memory) (offset size : Z) : option bytes :=
  if size =? 0 then Some []
  else if offset <? mem_Len m then
    if (size <? 0) || (offset <? 0) || (mem_Len m <? offset + size) then None
    else Some (slice (mem_store m) offset (offset + size))
  else Some [].

(** [memory.store[off] = b]. *)
Definition mem_SetByte (m : Memory) (off b : Z) : option Memory :=
  if (off <? 0) || (mem_Len m <=? off) then None
  else Some (mkMemory (<[Z.to_nat off := b]> (mem_store m)) (mem_lastGasCost m)).

(** ** [memory_table.go] *)

Definition memorySizeFunc : Type := list Z -> option Z.

(** [calcMemSize(stack.Back(i), stack.Back(j))]. *)
Definition mem_size (i j : nat) : memorySizeFunc := fun st =>
  match Stack_Back st i, Stack_Back st j with
  | Some off, Some l => Some (calcMemSize off l)
  | _, _ => None
  end.

(** With a size that is a constant. *)
Definition mem_const (i : nat) (l : Z) : memorySizeFunc := fun st =>
  match Stack_Back st i with Some off => Some (calcMemSize off l) | None => None end.

Definition mem_max (f g : memorySizeFunc) : memorySizeFunc := fun st =>
  match f st, g st with Some x, Some y => Some (BigMax x y) | _, _ => None end.

Definition memorySha3 : memorySizeFunc := mem_size 0 1.
Definition memoryCallDataCopy : memorySizeFunc := mem_size 0 2.
Definition memoryReturnDataCopy : memorySizeFunc := mem_size 0 2.
Definition memoryCodeCopy : memorySizeFunc := mem_size 0 2.
Definition memoryExtCodeCopy : memorySizeFunc := mem_size 1 3.
Definition memoryMLoad : memorySizeFunc := mem_const 0 32.
Definition memoryMStore8 : memorySizeFunc := mem_const 0 1.
Definition memoryMStore : memorySizeFunc := mem_const 0 32.
Definition memoryCreate : memorySizeFunc := mem_size 1 2.
Definition memoryCreate2 : memorySizeFunc := mem_size 1 2.
Definition memoryCall : memorySizeFunc := mem_max (mem_size 5 6) (mem_size 3 4).
Definition memoryDelegateCall : memorySizeFunc := mem_max (mem_size 4 5) (mem_size 2 3).
Definition memoryStaticCall : memorySizeFunc := mem_max (mem_size 4 5) (mem_size 2 3).
Definition memoryReturn : memorySizeFunc := mem_size 0 1.
Definition memoryRevert : memorySizeFunc := mem_size 0 1.
Definition memoryLog : memorySizeFunc := mem_size 0 1.

(** ** [analysis.go] *)

Definition PUSH1 : Z := 0x60.
Definition PUSH32 : Z := 0x7f.
Definition JUMPDEST : Z := 0x5b.

(** [bits[i] |= b]. *)
Definition bit_or (bits : bytes) (i b : Z) : option bytes :=
  match bits !! Z.to_nat i with
  | Some x => Some (<[Z.to_nat i := Z.lor x b]> bits)
  | None => None
  end.

Definition bitvec_set (bits : bytes) (pos : Z) : option bytes :=
  bit_or bits (pos / 8) (Z.shiftr 0x80 (pos mod 8)).

Definition bitvec_set8 (bits : bytes) (pos : Z) : option bytes :=
  match bit_or bits (pos / 8) (Z.shiftr 0xFF (pos mod 8)) with
  | Some bits => bit_or bits (pos / 8 + 1) (Z.lxor 0xFF (Z.shiftr 0xFF (pos mod 8)))
  | None => None
  end.

Definition codeSegment (bits : bytes) (pos : Z) : option bool :=
  match bits !! Z.to_nat (pos / 8) with
  | Some x => Some (Z.land x (Z.shiftr 0x80 (pos mod 8)) =? 0)
  | None => None
  end.

(** The loop that sets [numbits] bits, eight at a time while it can. *)
Fixpoint set_bits (fuel : nat) (numbits : Z) (bits : bytes) (pc : Z) : option (bytes * Z) :=
  match fuel with
  | O => Some (bits, pc)
  | S fuel' =>
      if 8 <=? numbits then
        match bitvec_set8 bits pc with
        | Some bits => set_bits fuel' (numbits - 8) bits (pc + 8)
        | None => None
        end
      else if 0 <? numbits then
        match bitvec_set bits pc with
        | Some bits => set_bits fuel' (numbits - 1) bits (pc + 1)
        | None => None
        end
      else Some (bits, pc)
  end.

(** The outer loop; every round goes on by a byte of the code at least. *)
Fixpoint bitmap_loop (fuel : nat) (code bits : bytes) (pc : Z) : option bytes :=
  match fuel with
  | O => Some bits
  | S fuel' =>
      match code !! Z.to_nat pc with
      | None => Some bits
      | Some op =>
          if (PUSH1 <=? op) && (op <=? PUSH32) then
            match set_bits 32 (op - PUSH1 + 1) bits (pc + 1) with
            | Some (bits, pc) => bitmap_loop fuel' code bits pc
            | None => None
            end
          else bitmap_loop fuel' code bits (pc + 1)
      end
  end.

Definition codeBitmap (code : bytes) : option bytes :=
  bitmap_loop (length code) code (replicate (length code / 8 + 1 + 4) 0) 0.
