(* ===== verification/Evm.v ===== *)
(** * The virtual machine

    Models the interpreter of [core/vm]: the instructions ([instructions.go]), their
    gas ([gas.go], [gas_table.go]), the instruction sets ([jump_table.go],
    [opcodes.go]), the loop ([interpreter.go]), the contract that runs
    ([contract.go]) and the calls between contracts ([evm.go]), over the account
    state as [core/svm/evm/statedb.go] presents it. The rules of the chain and the
    table of gas prices ([params] of the vendored go-ethereum) are data; the hash
    function and the precompiled contracts are parameters. The tracer and the
    cancellation from outside are not modelled.

    An instruction is a computation over the machine and the state. What the
    interpreter object keeps between instructions, the data returned by the last
    call and the gas that [gasCall] passes to [opCall], is a part of the machine:
    every call instruction sets both after the callee has used them. *)

From Stdlib Require Import ZArith Lia.
From S2P Require Import Prelude Common BftHeader StateDb Svm EvmWord.

Open Scope Z_scope.
Open Scope go_scope.

(** ** [params] *)

Record Rules := mkRules {
  IsHomestead : bool;
  IsEIP150 : bool;
  IsEIP158 : bool;
  IsByzantium : bool;
  IsConstantinople : bool
}.

(** The rules that [NewEVMByDefaultConfig] sets up, at every height. *)
Definition defaultRules : Rules := mkRules true true true true false.

Record GasTable := mkGasTable {
  ExtcodeSize : Z; ExtcodeCopy : Z; ExtcodeHash : Z; gt_Balance : Z; SLoad : Z; Calls : Z; gt_Suicide : Z;
  ExpByte : Z; CreateBySuicide : Z
}.

Definition GasTableHomestead : GasTable := mkGasTable 20 20 0 20 50 40 0 10 0.
Definition GasTableEIP150 : GasTable := mkGasTable 700 700 0 400 200 700 5000 10 25000.
Definition GasTableEIP158 : GasTable := mkGasTable 700 700 0 400 200 700 5000 50 25000.
Definition GasTableConstantinople : GasTable := mkGasTable 700 700 400 400 200 700 5000 50 25000.

Definition gas_table (rules : Rules) : GasTable :=
  if IsConstantinople rules then GasTableConstantinople
  else if IsEIP158 rules then GasTableEIP158
  else if IsEIP150 rules then GasTableEIP150
  else GasTableHomestead.

Definition CallValueTransferGas : Z := 9000.
Definition CallNewAccountGas : Z := 25000.
Definition QuadCoeffDiv : Z := 512.
Definition LogDataGas : Z := 8.
Definition CallStipend : Z := 2300.
Definition Sha3Gas : Z := 30.
Definition Sha3WordGas : Z := 6.
Definition SstoreSetGas : Z := 20000.
Definition SstoreResetGas : Z := 5000.
Definition SstoreClearGas : Z := 5000.
Definition SstoreRefundGas : Z := 15000.
Definition NetSstoreNoopGas : Z := 200.
Definition NetSstoreInitGas : Z := 20000.
Definition NetSstoreCleanGas : Z := 5000.
Definition NetSstoreDirtyGas : Z := 200.
Definition NetSstoreClearRefund : Z := 15000.
Definition NetSstoreResetRefund : Z := 4800.
Definition NetSstoreResetClearRefund : Z := 19800.
Definition JumpdestGas : Z := 1.
Definition LogGas : Z := 375.
Definition CopyGas : Z := 3.
Definition LogTopicGas : Z := 375.
Definition CreateGas : Z := 32000.
Definition Create2Gas : Z := 32000.
Definition SuicideRefundGas : Z := 24000.
Definition MemoryGas : Z := 3.

(** ** [gas.go] *)

Definition GasQuickStep : Z := 2.
Definition GasFastestStep : Z := 3.
Definition GasFastStep : Z := 5.
Definition GasMidStep : Z := 8.
Definition GasSlowStep : Z := 10.
Definition GasExtStep : Z := 20.

Definition callGas (gasTable : GasTable) (availableGas base callCost : Z) : Z + SvmError :=
  let direct := if 64 <? BitLen callCost then inr errGasUintOverflow else inl (big_Uint64 callCost) in
  if 0 <? CreateBySuicide gasTable then
    let availableGas := u64 (availableGas - base) in
    let gas := availableGas - availableGas / 64 in
    if (64 <? BitLen callCost) || (gas <? big_Uint64 callCost) then inl gas else direct
  else direct.

(** ** Data *)

(** [Context] of the machine: the transaction and the block. *)
Record VmContext := mkVmContext {
  GetHash : Z -> Hash;
  Origin : Address;
  GasPrice : option Z;
  Coinbase : Address;
  GasLimit : Z;
  BlockNumber : Z;
  vc_Time : Z;
  vc_Difficulty : Z
}.

Record PrecompiledContract := mkPrecompiled {
  pc_RequiredGas : bytes -> Z;
  pc_Run : bytes -> bytes * option SvmError
}.

Class EvmEnv := {
  keccak256 : bytes -> Hash;
  precompiles : Rules -> Address -> option PrecompiledContract;
  (** [crypto.MustHash] of an address and a nonce. *)
  hash_nonce : Address -> Z -> Hash
}.

Record Machine := mkMachine {
  m_pc : Z;
  m_stack : list Z;
  m_mem : Memory;
  m_gas : Z;
  m_returnData : bytes;
  m_callGasTemp : Z
}.

Definition set_pc (pc : Z) (m : Machine) : Machine :=
  mkMachine pc (m_stack m) (m_mem m) (m_gas m) (m_returnData m) (m_callGasTemp m).
Definition set_stack (st : list Z) (m : Machine) : Machine :=
  mkMachine (m_pc m) st (m_mem m) (m_gas m) (m_returnData m) (m_callGasTemp m).
Definition set_mem (mem : Memory) (m : Machine) : Machine :=
  mkMachine (m_pc m) (m_stack m) mem (m_gas m) (m_returnData m) (m_callGasTemp m).
Definition set_gas (gas : Z) (m : Machine) : Machine :=
  mkMachine (m_pc m) (m_stack m) (m_mem m) gas (m_returnData m) (m_callGasTemp m).
Definition set_returnData (d : bytes) (m : Machine) : Machine :=
  mkMachine (m_pc m) (m_stack m) (m_mem m) (m_gas m) d (m_callGasTemp m).
Definition set_callGasTemp (gas : Z) (m : Machine) : Machine :=
  mkMachine (m_pc m) (m_stack m) (m_mem m) (m_gas m) (m_returnData m) gas.

Section evm.
Context {T : Type} `{TrieOps T}.

Abbreviation StM A := (GoM (Statedb T) Empty_set A).

(** Computations over the machine and the state. *)
Definition EM (A : Type) : Type := GoM (Machine * Statedb T) Empty_set A.

Definition on_state {A} (x : StM A) : EM A := fun ms =>
  match x ms.2 with
  | Some (a, s', o) => Some (a, (ms.1, s'), o)
  | None => None
  end.

Definition machine : EM Machine := fun ms => Some (ms.1, ms, []).

Definition update (f : Machine -> Machine) : EM unit := fun ms => Some (tt, (f ms.1, ms.2), []).

Definition pop : EM Z := fun ms =>
  match m_stack ms.1 with
  | [] => None
  | x :: st => Some (x, (set_stack st ms.1, ms.2), [])
  end.

Definition peek : EM Z := fun ms =>
  match m_stack ms.1 with
  | [] => None
  | x :: _ => Some (x, ms, [])
  end.

Definition push (x : Z) : EM unit := update (fun m => set_stack (x :: m_stack m) m).

(** The integer on top is given a new value in place. *)
Definition set_top (x : Z) : EM unit := fun ms =>
  match m_stack ms.1 with
  | [] => None
  | _ :: st => Some (tt, (set_stack (x :: st) ms.1, ms.2), [])
  end.

(** What can panic. *)
Definition opt {A} (o : option A) : EM A := go_deref o.

Definition back (n : nat) : EM Z := m <- machine ;; opt (Stack_Back (m_stack m) n).

(** An instruction gives a result and maybe an error. *)
Definition done_ : EM (bytes * option SvmError) := go_ret ([], None).
Definition fail_ (e : SvmError) : EM (bytes * option SvmError) := go_ret ([], Some e).

(** ** The state as the machine sees it *)

Definition GetState (address : Address) (key : Hash) : StM Hash :=
  value <- GetData address key ;; go_ret (BytesToHash value).

Definition GetCommittedState (addr : Address) (hash : Hash) : StM Hash :=
  value <- GetCommittedData addr hash ;; go_ret (BytesToHash value).

Definition SetState (address : Address) (key value : Hash) : StM unit := SetData address key value.

(** ** [contract.go] *)

Definition GetByte (code : bytes) (n : Z) : Z :=
  if n <? Z.of_nat (length code) then default 0 (code !! Z.to_nat n) else 0.

Definition GetOp (code : bytes) (n : Z) : Z := GetByte code n.

(** The analysis of the code is kept by its hash in the source. *)
Definition validJumpdest (code : bytes) (dest : Z) : option bool :=
  let udest := big_Uint64 dest in
  if (63 <=? BitLen dest) || (Z.of_nat (length code) <=? udest) then Some false
  else if negb (GetByte code udest =? JUMPDEST) then Some false
  else match codeBitmap code with Some bits => codeSegment bits udest | None => None end.

Definition use_gas (gas : Z) : EM bool := fun ms =>
  let '(rest, ok) := UseGas (m_gas ms.1) gas in Some (ok, (set_gas rest ms.1, ms.2), []).

(** ** [gas_table.go] *)

(** The cost, or the error that is answered with [ErrOutOfGas]. *)
Definition gasFunc : Type := EM (Z + SvmError).

Definition memoryGasCost (newMemSize : Z) : gasFunc :=
  if newMemSize =? 0 then go_ret (inl 0)
  else if 0xffffffffe0 <? newMemSize then go_ret (inr errGasUintOverflow)
  else
    let newMemSizeWords := toWordSize newMemSize in
    let newMemSize := u64 (newMemSizeWords * 32) in
    m <- machine ;;
    let mem := m_mem m in
    if mem_Len mem <? newMemSize then
      let square := u64 (newMemSizeWords * newMemSizeWords) in
      let linCoef := u64 (newMemSizeWords * MemoryGas) in
      let quadCoef := square / QuadCoeffDiv in
      let newTotalFee := u64 (linCoef + quadCoef) in
      let fee := u64 (newTotalFee - mem_lastGasCost mem) in
      update (set_mem (mkMemory (mem_store mem) newTotalFee)) ;;;
      go_ret (inl fee)
    else go_ret (inl 0).

(** [if gas, overflow = math.SafeAdd(gas, x); overflow]. *)
Definition gas_add (g : gasFunc) (x : Z) : gasFunc :=
  r <- g ;;
  match r with
  | inr e => go_ret (inr e)
  | inl gas =>
      let '(gas, overflow) := SafeAdd gas x in
      go_ret (if overflow then inr errGasUintOverflow else inl gas)
  end.

(** The price of the words of a size on the stack. *)
Definition word_gas (i : nat) (price : Z) : EM (Z + SvmError) :=
  x <- back i ;;
  let '(size, overflow) := bigUint64 x in
  if overflow then go_ret (inr errGasUintOverflow)
  else
    let '(gas, overflow) := SafeMul (toWordSize size) price in
    go_ret (if overflow then inr errGasUintOverflow else inl gas).

(** Memory, a constant and the words of a size on the stack. *)
Definition copy_gas (memorySize base : Z) (i : nat) (price : Z) : gasFunc :=
  r <- gas_add (memoryGasCost memorySize) base ;;
  match r with
  | inr e => go_ret (inr e)
  | inl gas =>
      w <- word_gas i price ;;
      match w with
      | inr e => go_ret (inr e)
      | inl words => gas_add (go_ret (inl gas)) words
      end
  end.

Definition constGasFunc (gas : Z) : gasFunc := go_ret (inl gas).

Section gas.
Context (rules : Rules) (self : Address) (memorySize : Z).

Let gt := gas_table rules.

Definition gasCallDataCopy : gasFunc := copy_gas memorySize GasFastestStep 2 CopyGas.
Definition gasReturnDataCopy : gasFunc := copy_gas memorySize GasFastestStep 2 CopyGas.
Definition gasCodeCopy : gasFunc := copy_gas memorySize GasFastestStep 2 CopyGas.
Definition gasExtCodeCopy : gasFunc := copy_gas memorySize (ExtcodeCopy gt) 3 CopyGas.
Definition gasSha3 : gasFunc := copy_gas memorySize Sha3Gas 1 Sha3WordGas.
Definition gasCreate2 : gasFunc := copy_gas memorySize Create2Gas 2 Sha3WordGas.
Definition gasMLoad : gasFunc := gas_add (memoryGasCost memorySize) GasFastestStep.
Definition gasMStore8 : gasFunc := gas_add (memoryGasCost memorySize) GasFastestStep.
Definition gasMStore : gasFunc := gas_add (memoryGasCost memorySize) GasFastestStep.
Definition gasCreate : gasFunc := gas_add (memoryGasCost memorySize) CreateGas.
Definition gasReturn : gasFunc := memoryGasCost memorySize.
Definition gasRevert : gasFunc := memoryGasCost memorySize.
Definition gasExtCodeHash : gasFunc := constGasFunc (ExtcodeHash gt).
Definition gasBalance : gasFunc := constGasFunc (gt_Balance gt).
Definition gasExtCodeSize : gasFunc := constGasFunc (ExtcodeSize gt).
Definition gasSLoad : gasFunc := constGasFunc (SLoad gt).
Definition gasPush : gasFunc := constGasFunc GasFastestStep.
Definition gasSwap : gasFunc := constGasFunc GasFastestStep.
Definition gasDup : gasFunc := constGasFunc GasFastestStep.

Definition gasExp : gasFunc :=
  exponent <- back 1 ;;
  let expByteLen := (BitLen exponent + 7) / 8 in
  gas_add (go_ret (inl (u64 (expByteLen * ExpByte gt)))) GasSlowStep.

Definition makeGasLog (n : Z) : gasFunc :=
  x <- back 1 ;;
  let '(requestedSize, overflow) := bigUint64 x in
  if overflow then go_ret (inr errGasUintOverflow)
  else
    r <- gas_add (gas_add (memoryGasCost memorySize) LogGas) (u64 (n * LogTopicGas)) ;;
    match r with
    | inr e => go_ret (inr e)
    | inl gas =>
        let '(memorySizeGas, overflow) := SafeMul requestedSize LogDataGas in
        if overflow then go_ret (inr errGasUintOverflow)
        else gas_add (go_ret (inl gas)) memorySizeGas
    end.

Definition gasSStore : gasFunc :=
  y <- back 1 ;;
  x <- back 0 ;;
  current <- on_state (GetState self (BigToHash x)) ;;
  if negb (IsConstantinople rules) then
    if bytes_eqb current EmptyHash && negb (y =? 0) then go_ret (inl SstoreSetGas)
    else if negb (bytes_eqb current EmptyHash) && (y =? 0) then
      on_state (AddRefund SstoreRefundGas) ;;; go_ret (inl SstoreClearGas)
    else go_ret (inl SstoreResetGas)
  else
    let value := BigToHash y in
    if bytes_eqb current value then go_ret (inl NetSstoreNoopGas)
    else
      original <- on_state (GetCommittedState self (BigToHash x)) ;;
      if bytes_eqb original current then
        if bytes_eqb original EmptyHash then go_ret (inl NetSstoreInitGas)
        else
          (if bytes_eqb value EmptyHash then on_state (AddRefund NetSstoreClearRefund) else go_ret tt) ;;;
          go_ret (inl NetSstoreCleanGas)
      else
        (if negb (bytes_eqb original EmptyHash) then
           if bytes_eqb current EmptyHash then on_state (SubRefund NetSstoreClearRefund)
           else if bytes_eqb value EmptyHash then on_state (AddRefund NetSstoreClearRefund)
           else go_ret tt
         else go_ret tt) ;;;
        (if bytes_eqb original value then
           if bytes_eqb original EmptyHash then on_state (AddRefund NetSstoreResetClearRefund)
           else on_state (AddRefund NetSstoreResetRefund)
         else go_ret tt) ;;;
        go_ret (inl NetSstoreDirtyGas).

(** The gas of the callee is kept for the call, and added to the cost. *)
Definition call_cost (gas : Z) : gasFunc :=
  m <- machine ;;
  requested <- back 0 ;;
  match callGas gt (m_gas m) gas requested with
  | inr e => update (set_callGasTemp 0) ;;; go_ret (inr e)
  | inl temp =>
      update (set_callGasTemp temp) ;;;
      gas_add (go_ret (inl gas)) temp
  end.

(** [memoryGasCost], added to the price of a call. *)
Definition call_memory (gas : Z) : gasFunc :=
  r <- memoryGasCost memorySize ;;
  match r with
  | inr e => go_ret (inr e)
  | inl memoryGas =>
      r <- gas_add (go_ret (inl gas)) memoryGas ;;
      match r with
      | inr e => go_ret (inr e)
      | inl gas => call_cost gas
      end
  end.

Definition gasCall : gasFunc :=
  value <- back 2 ;;
  addr <- back 1 ;;
  let transfersValue := negb (value =? 0) in
  let address := BigToAddress addr in
  new <- (if IsEIP158 rules then
            if transfersValue then on_state (Empty address) else go_ret false
          else exist <- on_state (Exist address) ;; go_ret (negb exist)) ;;
  let gas := Calls gt in
  let gas := if (new : bool) then u64 (gas + CallNewAccountGas) else gas in
  let gas := if transfersValue then u64 (gas + CallValueTransferGas) else gas in
  call_memory gas.

Definition gasCallCode : gasFunc :=
  value <- back 2 ;;
  let gas := Calls gt in
  let gas := if negb (value =? 0) then u64 (gas + CallValueTransferGas) else gas in
  call_memory gas.

(** [gasDelegateCall] and [gasStaticCall] add the price to the cost of the memory. *)
Definition gasDelegateCall : gasFunc :=
  r <- gas_add (memoryGasCost memorySize) (Calls gt) ;;
  match r with
  | inr e => go_ret (inr e)
  | inl gas => call_cost gas
  end.

Definition gasStaticCall : gasFunc :=
  r <- gas_add (memoryGasCost memorySize) (Calls gt) ;;
  match r with
  | inr e => go_ret (inr e)
  | inl gas => call_cost gas
  end.

Definition gasSuicide : gasFunc :=
  gas <- (if IsEIP150 rules then
            x <- back 0 ;;
            let address := BigToAddress x in
            new <- (if IsEIP158 rules then
                      empty <- on_state (Empty address) ;;
                      if (empty : bool) then
                        balance <- on_state (GetBalance self) ;; go_ret (negb (balance =? 0))
                      else go_ret false
                    else exist <- on_state (Exist address) ;; go_ret (negb exist)) ;;
            go_ret (if (new : bool) then u64 (gt_Suicide gt + CreateBySuicide gt) else gt_Suicide gt)
          else go_ret 0) ;;
  suicided <- on_state (HasSuicided self) ;;
  (if (suicided : bool) then go_ret tt else on_state (AddRefund SuicideRefundGas)) ;;;
  go_ret (inl gas).
End gas.

(** ** [instructions.go] *)

(** An instruction on the two items on top that leaves its result in place of them. *)
Definition binary (f : Z -> Z -> Z) : EM (bytes * option SvmError) :=
  x <- pop ;;
  y <- peek ;;
  set_top (f x y) ;;;
  done_.

(** One that pops both, and pushes its result. *)
Definition binary_push (f : Z -> Z -> Z) : EM (bytes * option SvmError) :=
  x <- pop ;;
  y <- pop ;;
  push (f x y) ;;;
  done_.

Definition truth (b : bool) : Z := if b then 1 else 0.

Definition opAdd := binary (fun x y => U256 (x + y)).
Definition opSub := binary (fun x y => U256 (x - y)).
Definition opMul := binary_push (fun x y => U256 (x * y)).
Definition opDiv := binary (fun x y => if negb (y =? 0) then U256 (x / y) else 0).

Definition sdiv (x y : Z) : Z :=
  let x := S256 x in
  let y := S256 y in
  if (y =? 0) || (x =? 0) then 0
  else
    let res := Z.abs x / Z.abs y in
    U256 (if negb (Z.sgn x =? Z.sgn y) then - res else res).

Definition opSdiv := binary_push sdiv.

Definition opMod := binary_push (fun x y => if y =? 0 then 0 else U256 (x mod y)).

Definition smod (x y : Z) : Z :=
  let x := S256 x in
  let y := S256 y in
  if y =? 0 then 0
  else
    let res := Z.abs x mod Z.abs y in
    U256 (if x <? 0 then - res else res).

Definition opSmod := binary_push smod.

Definition exp_word (base exponent : Z) : Z :=
  if exponent <? 1 then 1
  else if base =? 0 then 0
  else if exponent =? 1 then base
  else math_Exp base exponent.

Definition opExp := binary_push exp_word.

Definition signextend (back num : Z) : Z :=
  let bit := big_Uint64 back * 8 + 7 in
  let mask := Z.shiftl 1 bit - 1 in
  U256 (if Z.testbit num bit then Z.lor num (Z.lnot mask) else Z.land num mask).

Definition opSignExtend : EM (bytes * option SvmError) :=
  back <- pop ;;
  (if back <? 31 then num <- pop ;; push (signextend back num) else go_ret tt) ;;;
  done_.

Definition opNot : EM (bytes * option SvmError) :=
  x <- peek ;; set_top (U256 (Z.lnot x)) ;;; done_.

Definition opLt := binary (fun x y => truth (x <? y)).
Definition opGt := binary (fun x y => truth (y <? x)).

Definition slt (x y : Z) : Z :=
  if (tt255 <=? x) && (y <? tt255) then 1
  else if (x <? tt255) && (tt255 <=? y) then 0
  else truth (x <? y).

Definition sgt (x y : Z) : Z :=
  if (tt255 <=? x) && (y <? tt255) then 0
  else if (x <? tt255) && (tt255 <=? y) then 1
  else truth (y <? x).

Definition opSlt := binary slt.
Definition opSgt := binary sgt.
Definition opEq := binary (fun x y => truth (x =? y)).

Definition opIszero : EM (bytes * option SvmError) :=
  x <- peek ;; set_top (if 0 <? x then 0 else 1) ;;; done_.

Definition opAnd := binary_push Z.land.
Definition opOr := binary Z.lor.
Definition opXor := binary Z.lxor.

Definition byte_of (th val : Z) : Z := if th <? 32 then math_Byte val 32 (big_Int64 th) else 0.

Definition opByte := binary byte_of.

Definition opAddmod : EM (bytes * option SvmError) :=
  x <- pop ;; y <- pop ;; z <- pop ;;
  push (if 0 <? z then U256 ((x + y) mod z) else 0) ;;; done_.

Definition opMulmod : EM (bytes * option SvmError) :=
  x <- pop ;; y <- pop ;; z <- pop ;;
  push (if 0 <? z then U256 ((x * y) mod z) else 0) ;;; done_.

Definition shl (shift value : Z) : Z :=
  let shift := U256 shift in
  if 256 <=? shift then 0 else U256 (Z.shiftl (U256 value) (big_Uint64 shift)).

Definition shr (shift value : Z) : Z :=
  let shift := U256 shift in
  if 256 <=? shift then 0 else U256 (Z.shiftr (U256 value) (big_Uint64 shift)).

Definition sar (shift value : Z) : Z :=
  let shift := U256 shift in
  let value := S256 value in
  if 256 <=? shift then U256 (if 0 <=? value then 0 else -1)
  else U256 (Z.shiftr value (big_Uint64 shift)).

Definition opSHL := binary shl.
Definition opSHR := binary shr.
Definition opSAR := binary_push sar.

(** Read and write the memory. *)
Definition mem_read (offset size : Z) : EM bytes :=
  m <- machine ;; opt (mem_Get (m_mem m) (big_Int64 offset) (big_Int64 size)).

Definition mem_write (offset size : Z) (value : bytes) : EM unit :=
  m <- machine ;;
  mem <- opt (mem_Set (m_mem m) (big_Uint64 offset) (big_Uint64 size) value) ;;
  update (set_mem mem).

(** The calls of the machine to itself, for the contract that runs. *)
Record Callees := mkCallees {
  do_Call : Address -> bytes -> Z -> Z -> StM (bytes * Z * option SvmError);
  do_CallCode : Address -> bytes -> Z -> Z -> StM (bytes * Z * option SvmError);
  do_DelegateCall : Address -> bytes -> Z -> StM (bytes * Z * option SvmError);
  do_StaticCall : Address -> bytes -> Z -> StM (bytes * Z * option SvmError);
  do_Create : bytes -> Z -> Z -> StM (bytes * Address * Z * option SvmError);
  do_Create2 : bytes -> Z -> Z -> Z -> StM (bytes * Address * Z * option SvmError)
}.

Section instructions.
Context `{EvmEnv}.
Context (rules : Rules) (ctx : VmContext) (callees : Callees) (contract : Frame) (input : bytes).

Let self := f_self contract.

Definition opSha3 : EM (bytes * option SvmError) :=
  offset <- pop ;; size <- pop ;;
  data <- mem_read offset size ;;
  push (SetBytes (keccak256 data)) ;;; done_.

Definition opAddress : EM (bytes * option SvmError) := push (Address_Big self) ;;; done_.

Definition opBalance : EM (bytes * option SvmError) :=
  slot <- peek ;;
  balance <- on_state (GetBalance (BigToAddress slot)) ;;
  set_top balance ;;; done_.

Definition opOrigin : EM (bytes * option SvmError) := push (Address_Big (Origin ctx)) ;;; done_.
Definition opCaller : EM (bytes * option SvmError) := push (Address_Big (f_caller contract)) ;;; done_.
Definition opCallValue : EM (bytes * option SvmError) := push (f_value contract) ;;; done_.

Definition opCallDataLoad : EM (bytes * option SvmError) :=
  x <- pop ;; push (SetBytes (getDataBig input x 32)) ;;; done_.

Definition opCallDataSize : EM (bytes * option SvmError) := push (Z.of_nat (length input)) ;;; done_.

Definition opCallDataCopy : EM (bytes * option SvmError) :=
  memOffset <- pop ;; dataOffset <- pop ;; length_ <- pop ;;
  mem_write memOffset length_ (getDataBig input dataOffset length_) ;;; done_.

Definition opReturnDataSize : EM (bytes * option SvmError) :=
  m <- machine ;; push (Z.of_nat (length (m_returnData m))) ;;; done_.

Definition opReturnDataCopy : EM (bytes * option SvmError) :=
  memOffset <- pop ;; dataOffset <- pop ;; length_ <- pop ;;
  m <- machine ;;
  let end_ := dataOffset + length_ in
  if (64 <? BitLen end_) || (Z.of_nat (length (m_returnData m)) <? big_Uint64 end_)
  then fail_ errReturnDataOutOfBounds
  else
    mem_write memOffset length_ (slice (m_returnData m) (big_Uint64 dataOffset) (big_Uint64 end_)) ;;; done_.

Definition opExtCodeSize : EM (bytes * option SvmError) :=
  slot <- peek ;;
  size <- on_state (GetCodeSize (BigToAddress slot)) ;;
  set_top (u64 size) ;;; done_.

Definition opCodeSize : EM (bytes * option SvmError) := push (Z.of_nat (length (f_Code contract))) ;;; done_.

Definition opCodeCopy : EM (bytes * option SvmError) :=
  memOffset <- pop ;; codeOffset <- pop ;; length_ <- pop ;;
  mem_write memOffset length_ (getDataBig (f_Code contract) codeOffset length_) ;;; done_.

Definition opExtCodeCopy : EM (bytes * option SvmError) :=
  addr <- pop ;; memOffset <- pop ;; codeOffset <- pop ;; length_ <- pop ;;
  code <- on_state (GetCode (BigToAddress addr)) ;;
  mem_write memOffset length_ (getDataBig code codeOffset length_) ;;; done_.

Definition opExtCodeHash : EM (bytes * option SvmError) :=
  slot <- peek ;;
  hash <- on_state (GetCodeHash (BigToAddress slot)) ;;
  set_top (SetBytes hash) ;;; done_.

(** Nothing is pushed when there is no price. *)
Definition opGasprice : EM (bytes * option SvmError) :=
  match GasPrice ctx with Some p => push p ;;; done_ | None => done_ end.

Definition opBlockhash : EM (bytes * option SvmError) :=
  num <- pop ;;
  let n := BlockNumber ctx - 257 in
  push (if (n <? num) && (num <? BlockNumber ctx) then Hash_Big (GetHash ctx (big_Uint64 num)) else 0) ;;;
  done_.

Definition opCoinbase : EM (bytes * option SvmError) := push (Address_Big (Coinbase ctx)) ;;; done_.
Definition opTimestamp : EM (bytes * option SvmError) := push (U256 (vc_Time ctx)) ;;; done_.
Definition opNumber : EM (bytes * option SvmError) := push (U256 (BlockNumber ctx)) ;;; done_.
Definition opDifficulty : EM (bytes * option SvmError) := push (U256 (vc_Difficulty ctx)) ;;; done_.
Definition opGasLimit : EM (bytes * option SvmError) := push (U256 (GasLimit ctx)) ;;; done_.

Definition opPop : EM (bytes * option SvmError) := _ <- pop ;; done_.

Definition opMload : EM (bytes * option SvmError) :=
  offset <- pop ;;
  data <- mem_read offset 32 ;;
  push (SetBytes data) ;;; done_.

Definition opMstore : EM (bytes * option SvmError) :=
  mStart <- pop ;; val <- pop ;;
  m <- machine ;;
  mem <- opt (mem_Set32 (m_mem m) (big_Uint64 mStart) val) ;;
  update (set_mem mem) ;;; done_.

Definition opMstore8 : EM (bytes * option SvmError) :=
  off <- pop ;; val <- pop ;;
  m <- machine ;;
  mem <- opt (mem_SetByte (m_mem m) (big_Int64 off) (Z.land (big_Int64 val) 0xff)) ;;
  update (set_mem mem) ;;; done_.

Definition opSload : EM (bytes * option SvmError) :=
  loc <- peek ;;
  val <- on_state (GetState self (BigToHash loc)) ;;
  set_top (SetBytes val) ;;; done_.

Definition opSstore : EM (bytes * option SvmError) :=
  loc <- pop ;; val <- pop ;;
  on_state (SetState self (BigToHash loc) (BigToHash val)) ;;; done_.

Definition jump_to (pos : Z) : EM (bytes * option SvmError) :=
  valid <- opt (validJumpdest (f_Code contract) pos) ;;
  if (valid : bool) then update (set_pc (big_Uint64 pos)) ;;; done_ else fail_ errInvalidJump.

Definition opJump : EM (bytes * option SvmError) := pos <- pop ;; jump_to pos.

Definition opJumpi : EM (bytes * option SvmError) :=
  pos <- pop ;; cond <- pop ;;
  if negb (cond =? 0) then jump_to pos
  else update (fun m => set_pc (u64 (m_pc m + 1)) m) ;;; done_.

Definition opJumpdest : EM (bytes * option SvmError) := done_.
Definition opPc : EM (bytes * option SvmError) := m <- machine ;; push (m_pc m) ;;; done_.
Definition opMsize : EM (bytes * option SvmError) := m <- machine ;; push (mem_Len (m_mem m)) ;;; done_.
Definition opGas : EM (bytes * option SvmError) := m <- machine ;; push (m_gas m) ;;; done_.

(** [contract.Gas += returnGas]. *)
Definition return_gas (returnGas : Z) : EM unit := update (fun m => set_gas (u64 (m_gas m + returnGas)) m).

(** The data of a call that was reverted are its result. *)
Definition create_result (res : bytes) (suberr : option SvmError) : EM (bytes * option SvmError) :=
  go_ret (if bool_decide (suberr = Some errExecutionReverted) then res else [], None).

Definition opCreate : EM (bytes * option SvmError) :=
  value <- pop ;; offset <- pop ;; size <- pop ;;
  code <- mem_read offset size ;;
  m <- machine ;;
  let gas := m_gas m in
  let gas := if IsEIP150 rules then gas - gas / 64 else gas in
  use_gas gas ;;;
  r <- on_state (do_Create callees code gas value) ;;
  let '(res, addr, returnGas, suberr) := r in
  push (if IsHomestead rules && bool_decide (suberr = Some ErrCodeStoreOutOfGas) then 0
        else if bool_decide (suberr <> None) && bool_decide (suberr <> Some ErrCodeStoreOutOfGas) then 0
        else Address_Big addr) ;;;
  return_gas returnGas ;;;
  create_result res suberr.

Definition opCreate2 : EM (bytes * option SvmError) :=
  endowment <- pop ;; offset <- pop ;; size <- pop ;; salt <- pop ;;
  code <- mem_read offset size ;;
  m <- machine ;;
  let gas := m_gas m in
  let gas := gas - gas / 64 in
  use_gas gas ;;;
  r <- on_state (do_Create2 callees code gas endowment salt) ;;
  let '(res, addr, returnGas, suberr) := r in
  push (if bool_decide (suberr <> None) then 0 else Address_Big addr) ;;;
  return_gas returnGas ;;;
  create_result res suberr.

(** What the four calls do with the answer. *)
Definition call_result (retOffset retSize : Z) (r : bytes * Z * option SvmError) : EM (bytes * option SvmError) :=
  let '(ret, returnGas, err) := r in
  push (if bool_decide (err <> None) then 0 else 1) ;;;
  (if bool_decide (err = None) || bool_decide (err = Some errExecutionReverted)
   then mem_write retOffset retSize ret else go_ret tt) ;;;
  return_gas returnGas ;;;
  go_ret (ret, None).

(** [CALL] and [CALLCODE]: with a value, the callee gets the stipend. *)
Definition value_call (f : Address -> bytes -> Z -> Z -> StM (bytes * Z * option SvmError))
    : EM (bytes * option SvmError) :=
  _ <- pop ;;
  m <- machine ;;
  let gas := m_callGasTemp m in
  addr <- pop ;; value <- pop ;; inOffset <- pop ;; inSize <- pop ;; retOffset <- pop ;; retSize <- pop ;;
  let toAddr := BigToAddress addr in
  let value := U256 value in
  args <- mem_read inOffset inSize ;;
  let gas := if negb (value =? 0) then u64 (gas + CallStipend) else gas in
  r <- on_state (f toAddr args gas value) ;;
  call_result retOffset retSize r.

Definition opCall : EM (bytes * option SvmError) := value_call (do_Call callees).
Definition opCallCode : EM (bytes * option SvmError) := value_call (do_CallCode callees).

(** [DELEGATECALL] and [STATICCALL]. *)
Definition plain_call (f : Address -> bytes -> Z -> StM (bytes * Z * option SvmError))
    : EM (bytes * option SvmError) :=
  _ <- pop ;;
  m <- machine ;;
  let gas := m_callGasTemp m in
  addr <- pop ;; inOffset <- pop ;; inSize <- pop ;; retOffset <- pop ;; retSize <- pop ;;
  let toAddr := BigToAddress addr in
  args <- mem_read inOffset inSize ;;
  r <- on_state (f toAddr args gas) ;;
  call_result retOffset retSize r.

Definition opDelegateCall : EM (bytes * option SvmError) := plain_call (do_DelegateCall callees).
Definition opStaticCall : EM (bytes * option SvmError) := plain_call (do_StaticCall callees).

Definition mem_result : EM (bytes * option SvmError) :=
  offset <- pop ;; size <- pop ;;
  m <- machine ;;
  ret <- opt (mem_GetPtr (m_mem m) (big_Int64 offset) (big_Int64 size)) ;;
  go_ret (ret, None).

Definition opReturn : EM (bytes * option SvmError) := mem_result.
Definition opRevert : EM (bytes * option SvmError) := mem_result.
Definition opStop : EM (bytes * option SvmError) := done_.

Definition opSuicide : EM (bytes * option SvmError) :=
  balance <- on_state (GetBalance self) ;;
  x <- pop ;;
  on_state (AddBalance (BigToAddress x) balance) ;;;
  on_state (Suicide self) ;;;
  done_.

Fixpoint pop_topics (n : nat) : EM (list Hash) :=
  match n with
  | O => go_ret []
  | S n' => x <- pop ;; l <- pop_topics n' ;; go_ret (BigToHash x :: l)
  end.

Definition makeLog (size : nat) : EM (bytes * option SvmError) :=
  mStart <- pop ;; mSize <- pop ;;
  topics <- pop_topics size ;;
  d <- mem_read mStart mSize ;;
  on_state (AddLog (mkLog self topics d (big_Uint64 (BlockNumber ctx)) 0)) ;;;
  done_.

(** The bytes of the code after the instruction, padded behind its end. The
    instruction is in the code, so that its position is an [int]. *)
Definition push_bytes (code : bytes) (pc : Z) (pushByteSize : Z) : bytes :=
  let codeLen := Z.of_nat (length code) in
  let startMin := if pc + 1 <? codeLen then pc + 1 else codeLen in
  let endMin := if startMin + pushByteSize <? codeLen then startMin + pushByteSize else codeLen in
  RightPadBytes (slice code startMin endMin) pushByteSize.

Definition makePush (size : Z) : EM (bytes * option SvmError) :=
  m <- machine ;;
  push (SetBytes (push_bytes (f_Code contract) (m_pc m) size)) ;;;
  update (set_pc (u64 (m_pc m + size))) ;;;
  done_.

Definition makeDup (size : nat) : EM (bytes * option SvmError) :=
  m <- machine ;;
  st <- opt (Stack_dup (m_stack m) size) ;;
  update (set_stack st) ;;; done_.

Definition makeSwap (size : nat) : EM (bytes * option SvmError) :=
  m <- machine ;;
  st <- opt (Stack_swap (m_stack m) (size + 1)) ;;
  update (set_stack st) ;;; done_.
End instructions.

(** ** [jump_table.go] *)

Record operation := mkOperation {
  execute : EM (bytes * option SvmError);
  gasCost : Z -> gasFunc;
  validateStack : list Z -> option StackError;
  memorySize : option memorySizeFunc;
  halts : bool;
  jumps : bool;
  writes : bool;
  reverts : bool;
  returns : bool
}.

(** An operation that only has a price, and one that needs memory. *)
Definition plain (x : EM (bytes * option SvmError)) (gas : gasFunc) (v : list Z -> option StackError) : operation :=
  mkOperation x (fun _ => gas) v None false false false false false.

Definition with_memory (x : EM (bytes * option SvmError)) (gas : Z -> gasFunc)
    (v : list Z -> option StackError) (size : memorySizeFunc) : operation :=
  mkOperation x gas v (Some size) false false false false false.

Definition halting (o : operation) : operation :=
  mkOperation (execute o) (gasCost o) (validateStack o) (memorySize o) true (jumps o) (writes o) (reverts o) (returns o).
Definition jumping (o : operation) : operation :=
  mkOperation (execute o) (gasCost o) (validateStack o) (memorySize o) (halts o) true (writes o) (reverts o) (returns o).
Definition writing (o : operation) : operation :=
  mkOperation (execute o) (gasCost o) (validateStack o) (memorySize o) (halts o) (jumps o) true (reverts o) (returns o).
Definition reverting (o : operation) : operation :=
  mkOperation (execute o) (gasCost o) (validateStack o) (memorySize o) (halts o) (jumps o) (writes o) true (returns o).
Definition returning (o : operation) : operation :=
  mkOperation (execute o) (gasCost o) (validateStack o) (memorySize o) (halts o) (jumps o) (writes o) (reverts o) true.

Section tables.
Context `{EvmEnv}.
Context (rules : Rules) (ctx : VmContext) (callees : Callees) (contract : Frame) (input : bytes).

Let self := f_self contract.
Let fastest := constGasFunc GasFastestStep.
Let fast := constGasFunc GasFastStep.
Let quick := constGasFunc GasQuickStep.

(** [STOP] to [BYTE]. *)
Definition arithmetic_ops : list (Z * operation) :=
  [ (0x00, halting (plain opStop (constGasFunc 0) (makeStackFunc 0 0)));
    (0x01, plain opAdd fastest (makeStackFunc 2 1));
    (0x02, plain opMul fast (makeStackFunc 2 1));
    (0x03, plain opSub fastest (makeStackFunc 2 1));
    (0x04, plain opDiv fast (makeStackFunc 2 1));
    (0x05, plain opSdiv fast (makeStackFunc 2 1));
    (0x06, plain opMod fast (makeStackFunc 2 1));
    (0x07, plain opSmod fast (makeStackFunc 2 1));
    (0x08, plain opAddmod (constGasFunc GasMidStep) (makeStackFunc 3 1));
    (0x09, plain opMulmod (constGasFunc GasMidStep) (makeStackFunc 3 1));
    (0x0a, plain opExp (gasExp rules) (makeStackFunc 2 1));
    (0x0b, plain opSignExtend fast (makeStackFunc 2 1));
    (0x10, plain opLt fastest (makeStackFunc 2 1));
    (0x11, plain opGt fastest (makeStackFunc 2 1));
    (0x12, plain opSlt fastest (makeStackFunc 2 1));
    (0x13, plain opSgt fastest (makeStackFunc 2 1));
    (0x14, plain opEq fastest (makeStackFunc 2 1));
    (0x15, plain opIszero fastest (makeStackFunc 1 1));
    (0x16, plain opAnd fastest (makeStackFunc 2 1));
    (0x17, plain opOr fastest (makeStackFunc 2 1));
    (0x18, plain opXor fastest (makeStackFunc 2 1));
    (0x19, plain opNot fastest (makeStackFunc 1 1));
    (0x1a, plain opByte fastest (makeStackFunc 2 1)) ].

(** [SHA3] to [GASLIMIT]. *)
Definition environment_ops : list (Z * operation) :=
  [ (0x20, with_memory opSha3 gasSha3 (makeStackFunc 2 1) memorySha3);
    (0x30, plain (opAddress contract) quick (makeStackFunc 0 1));
    (0x31, plain opBalance (gasBalance rules) (makeStackFunc 1 1));
    (0x32, plain (opOrigin ctx) quick (makeStackFunc 0 1));
    (0x33, plain (opCaller contract) quick (makeStackFunc 0 1));
    (0x34, plain (opCallValue contract) quick (makeStackFunc 0 1));
    (0x35, plain (opCallDataLoad input) fastest (makeStackFunc 1 1));
    (0x36, plain (opCallDataSize input) quick (makeStackFunc 0 1));
    (0x37, with_memory (opCallDataCopy input) gasCallDataCopy (makeStackFunc 3 0) memoryCallDataCopy);
    (0x38, plain (opCodeSize contract) quick (makeStackFunc 0 1));
    (0x39, with_memory (opCodeCopy contract) gasCodeCopy (makeStackFunc 3 0) memoryCodeCopy);
    (0x3a, plain (opGasprice ctx) quick (makeStackFunc 0 1));
    (0x3b, plain opExtCodeSize (gasExtCodeSize rules) (makeStackFunc 1 1));
    (0x3c, with_memory opExtCodeCopy (gasExtCodeCopy rules) (makeStackFunc 4 0) memoryExtCodeCopy);
    (0x40, plain (opBlockhash ctx) (constGasFunc GasExtStep) (makeStackFunc 1 1));
    (0x41, plain (opCoinbase ctx) quick (makeStackFunc 0 1));
    (0x42, plain (opTimestamp ctx) quick (makeStackFunc 0 1));
    (0x43, plain (opNumber ctx) quick (makeStackFunc 0 1));
    (0x44, plain (opDifficulty ctx) quick (makeStackFunc 0 1));
    (0x45, plain (opGasLimit ctx) quick (makeStackFunc 0 1)) ].

(** [POP] to [JUMPDEST]. *)
Definition flow_ops : list (Z * operation) :=
  [ (0x50, plain opPop quick (makeStackFunc 1 0));
    (0x51, with_memory opMload gasMLoad (makeStackFunc 1 1) memoryMLoad);
    (0x52, with_memory opMstore gasMStore (makeStackFunc 2 0) memoryMStore);
    (0x53, with_memory opMstore8 gasMStore8 (makeStackFunc 2 0) memoryMStore8);
    (0x54, plain (opSload contract) (gasSLoad rules) (makeStackFunc 1 1));
    (0x55, writing (plain (opSstore contract) (gasSStore rules self) (makeStackFunc 2 0)));
    (0x56, jumping (plain (opJump contract) (constGasFunc GasMidStep) (makeStackFunc 1 0)));
    (0x57, jumping (plain (opJumpi contract) (constGasFunc GasSlowStep) (makeStackFunc 2 0)));
    (0x58, plain opPc quick (makeStackFunc 0 1));
    (0x59, plain opMsize quick (makeStackFunc 0 1));
    (0x5a, plain opGas quick (makeStackFunc 0 1));
    (0x5b, plain opJumpdest (constGasFunc JumpdestGas) (makeStackFunc 0 0)) ].

Definition push_ops : list (Z * operation) :=
  map (fun n => (0x60 + Z.of_nat n - 1, plain (makePush contract (Z.of_nat n)) gasPush (makeStackFunc 0 1))) (seq 1 32).

Definition dup_ops : list (Z * operation) :=
  map (fun n => (0x80 + Z.of_nat n - 1, plain (makeDup n) gasDup (makeDupStackFunc n))) (seq 1 16).

Definition swap_ops : list (Z * operation) :=
  map (fun n => (0x90 + Z.of_nat n - 1, plain (makeSwap n) gasSwap (makeSwapStackFunc (n + 1)))) (seq 1 16).

Definition log_ops : list (Z * operation) :=
  map (fun n => (0xa0 + Z.of_nat n, writing (with_memory (makeLog ctx contract n)
         (fun size => makeGasLog size (Z.of_nat n)) (makeStackFunc (n + 2) 0) memoryLog))) (seq 0 5).

(** [CREATE] to [SELFDESTRUCT]. *)
Definition system_ops : list (Z * operation) :=
  [ (0xf0, returning (writing (with_memory (opCreate rules callees) gasCreate (makeStackFunc 3 1) memoryCreate)));
    (0xf1, returning (with_memory (opCall callees) (gasCall rules) (makeStackFunc 7 1) memoryCall));
    (0xf2, returning (with_memory (opCallCode callees) (gasCallCode rules) (makeStackFunc 7 1) memoryCall));
    (0xf3, halting (with_memory opReturn gasReturn (makeStackFunc 2 0) memoryReturn));
    (0xff, halting (writing (plain (opSuicide contract) (gasSuicide rules self) (makeStackFunc 1 0)))) ].

Definition newFrontierInstructionSet : list (Z * operation) :=
  arithmetic_ops ++ environment_ops ++ flow_ops ++ push_ops ++ dup_ops ++ swap_ops ++ log_ops ++ system_ops.

Definition newHomesteadInstructionSet : list (Z * operation) :=
  (0xf4, returning (with_memory (opDelegateCall callees) (gasDelegateCall rules) (makeStackFunc 6 1) memoryDelegateCall))
  :: newFrontierInstructionSet.

Definition newByzantiumInstructionSet : list (Z * operation) :=
  [ (0xfa, returning (with_memory (opStaticCall callees) (gasStaticCall rules) (makeStackFunc 6 1) memoryStaticCall));
    (0x3d, plain opReturnDataSize quick (makeStackFunc 0 1));
    (0x3e, with_memory opReturnDataCopy gasReturnDataCopy (makeStackFunc 3 0) memoryReturnDataCopy);
    (0xfd, returning (reverting (with_memory opRevert gasRevert (makeStackFunc 2 0) memoryRevert))) ]
  ++ newHomesteadInstructionSet.

Definition newConstantinopleInstructionSet : list (Z * operation) :=
  [ (0x1b, plain opSHL fastest (makeStackFunc 2 1));
    (0x1c, plain opSHR fastest (makeStackFunc 2 1));
    (0x1d, plain opSAR fastest (makeStackFunc 2 1));
    (0x3f, plain opExtCodeHash (gasExtCodeHash rules) (makeStackFunc 1 1));
    (0xf5, returning (writing (with_memory (opCreate2 callees) gasCreate2 (makeStackFunc 4 1) memoryCreate2))) ]
  ++ newByzantiumInstructionSet.

(** The instruction set of [NewEVMInterpreter]. *)
Definition instructionSet : list (Z * operation) :=
  if IsConstantinople rules then newConstantinopleInstructionSet
  else if IsByzantium rules then newByzantiumInstructionSet
  else if IsHomestead rules then newHomesteadInstructionSet
  else newFrontierInstructionSet.

(** The entry of an instruction; there is none when it is not valid. *)
Fixpoint lookup_op (op : Z) (l : list (Z * operation)) : option operation :=
  match l with
  | [] => None
  | (n, o) :: l' => if op =? n then Some o else lookup_op op l'
  end.

(** ** [interpreter.go] *)

Definition CALL : Z := 0xf1.

Definition enforceRestrictions (readOnly : bool) (op : Z) (o : operation) : EM (option SvmError) :=
  if IsByzantium rules && readOnly then
    if writes o then go_ret (Some errWriteProtection)
    else if op =? CALL then
      value <- back 2 ;;
      go_ret (if 0 <? BitLen value then Some errWriteProtection else None)
    else go_ret None
  else go_ret None.

Definition stack_error (e : StackError) : SvmError :=
  match e with stack_underflow _ _ => errStackUnderflow | stack_limit _ => errStackLimit end.

(** The memory that an operation needs, in whole words. *)
Definition memory_needed (o : operation) : EM (Z + SvmError) :=
  match memorySize o with
  | None => go_ret (inl 0)
  | Some f =>
      m <- machine ;;
      size <- opt (f (m_stack m)) ;;
      let '(memSize, overflow) := bigUint64 size in
      if overflow then go_ret (inr errGasUintOverflow)
      else
        let '(memorySize, overflow) := SafeMul (toWordSize memSize) 32 in
        go_ret (if overflow then inr errGasUintOverflow else inl memorySize)
  end.

(** The operation is paid for and executed; the result when the contract is done. *)
Definition perform (o : operation) : EM (option (bytes * option SvmError)) :=
  needed <- memory_needed o ;;
  match needed with
  | inr e => go_ret (Some ([], Some e))
  | inl memorySize =>
      cost <- gasCost o memorySize ;;
      paid <- (match cost with inl c => use_gas c | inr _ => go_ret false end) ;;
      if negb paid then go_ret (Some ([], Some ErrOutOfGas))
      else
        (if 0 <? memorySize
         then update (fun m => set_mem (mem_Resize (m_mem m) memorySize) m) else go_ret tt) ;;;
        r <- execute o ;;
        let '(res, err) := r in
        (if returns o then update (set_returnData res) else go_ret tt) ;;;
        match err with
        | Some e => go_ret (Some ([], Some e))
        | None =>
            if reverts o then go_ret (Some (res, Some errExecutionReverted))
            else if halts o then go_ret (Some (res, None))
            else if jumps o then go_ret None
            else update (fun m => set_pc (u64 (m_pc m + 1)) m) ;;; go_ret None
        end
  end.

(** A round of the loop. *)
Definition step (readOnly : bool) : EM (option (bytes * option SvmError)) :=
  m <- machine ;;
  let op := GetOp (f_Code contract) (m_pc m) in
  match lookup_op op instructionSet with
  | None => go_ret (Some ([], Some (errInvalidOpcode op)))
  | Some o =>
      match validateStack o (m_stack m) with
      | Some e => go_ret (Some ([], Some (stack_error e)))
      | None =>
          restricted <- enforceRestrictions readOnly op o ;;
          match restricted with
          | Some e => go_ret (Some ([], Some e))
          | None => perform o
          end
      end
  end.
End tables.

(** ** [evm.go] *)

Section calls.
Context `{EvmEnv}.
Context (rules : Rules).

(** A call of the interpreter at the depth it has then. *)
Definition Runner : Type := Frame -> bytes -> bool -> StM (bytes * Z * option SvmError).

Definition is_precompile (addr : Address) : bool := if precompiles rules addr is Some _ then true else false.

(** What a failed run leaves: the state is reverted, and the gas is gone unless the
    contract itself reverted. *)
Definition settle (snapshot : nat) (r : bytes * Z * option SvmError) : StM (bytes * Z * option SvmError) :=
  let '(ret, gas_left, err) := r in
  match err with
  | None => go_ret (ret, gas_left, None)
  | Some e =>
      RevertToSnapshot snapshot ;;;
      go_ret (ret, (if bool_decide (e = errExecutionReverted) then gas_left
                    else (UseGas gas_left gas_left).1), Some e)
  end.

Section at_depth.
Context (run : Runner) (depth : Z).

Definition EVM_Call (caller addr : Address) (input : bytes) (gas value : Z)
    : StM (bytes * Z * option SvmError) :=
  if CallCreateDepth <? depth then go_ret ([], gas, Some ErrDepth)
  else
    can <- canTransfer caller value ;;
    if negb can then go_ret ([], gas, Some ErrInsufficientBalance)
    else
      snapshot <- Snapshot_ ;;
      exist <- Exist addr ;;
      if negb exist && negb (is_precompile addr) && IsEIP158 rules && (value =? 0)
      then go_ret ([], gas, None)
      else
        (if exist then go_ret tt else CreateAccount addr) ;;;
        transfer caller addr value ;;;
        _ <- GetCodeHash addr ;;
        code <- GetCode addr ;;
        res <- run (mkFrame caller addr value gas code addr) input false ;;
        settle snapshot res.

(** The code of another account on the account of the caller. *)
Definition CallCode (caller addr : Address) (input : bytes) (gas value : Z)
    : StM (bytes * Z * option SvmError) :=
  if CallCreateDepth <? depth then go_ret ([], gas, Some ErrDepth)
  else
    can <- canTransfer caller value ;;
    if negb can then go_ret ([], gas, Some ErrInsufficientBalance)
    else
      snapshot <- Snapshot_ ;;
      _ <- GetCodeHash addr ;;
      code <- GetCode addr ;;
      res <- run (mkFrame caller caller value gas code addr) input false ;;
      settle snapshot res.

(** The caller and the value are those of the contract that calls. *)
Definition DelegateCall (parent : Frame) (addr : Address) (input : bytes) (gas : Z)
    : StM (bytes * Z * option SvmError) :=
  if CallCreateDepth <? depth then go_ret ([], gas, Some ErrDepth)
  else
    snapshot <- Snapshot_ ;;
    _ <- GetCodeHash addr ;;
    code <- GetCode addr ;;
    res <- run (mkFrame (f_caller parent) (f_self parent) (f_value parent) gas code addr) input false ;;
    settle snapshot res.

Definition StaticCall (caller addr : Address) (input : bytes) (gas : Z)
    : StM (bytes * Z * option SvmError) :=
  if CallCreateDepth <? depth then go_ret ([], gas, Some ErrDepth)
  else
    snapshot <- Snapshot_ ;;
    _ <- GetCodeHash addr ;;
    code <- GetCode addr ;;
    res <- run (mkFrame caller addr 0 gas code addr) input true ;;
    settle snapshot res.

Definition empty_code_hash : Hash := keccak256 [].

(** [create]. *)
Definition EVM_create (caller : Address) (code : bytes) (gas value : Z) (address : Address)
    : StM (bytes * Address * Z * option SvmError) :=
  if CallCreateDepth <? depth then go_ret ([], EmptyAddress, gas, Some ErrDepth)
  else
    can <- canTransfer caller value ;;
    if negb can then go_ret ([], EmptyAddress, gas, Some ErrInsufficientBalance)
    else
      nonce <- GetNonce caller ;;
      count <- GetTxCount caller ;;
      SetNonce2 caller (u64 (nonce + 1)) (u64 (count + 1)) ;;;
      contractHash <- GetCodeHash address ;;
      nonce' <- GetNonce address ;;
      if negb (nonce' =? 0)
         || (negb (bytes_eqb contractHash EmptyHash) && negb (bytes_eqb contractHash empty_code_hash))
      then go_ret ([], EmptyAddress, 0, Some ErrContractAddressCollision)
      else
        snapshot <- Snapshot_ ;;
        CreateAccount address ;;;
        (if IsEIP158 rules then SetNonce2 address 1 1 else go_ret tt) ;;;
        transfer caller address value ;;;
        res <- run (mkFrame caller address value gas code address) [] false ;;
        let '(ret, gas_left, err) := res in
        let maxCodeSizeExceeded := IsEIP158 rules && (MaxCodeSize <? Z.of_nat (length ret)) in
        stored <- (match err with
                   | None =>
                       if maxCodeSizeExceeded then go_ret (gas_left, None)
                       else
                         let '(gas_left', ok) :=
                           UseGas gas_left (u64 (Z.of_nat (length ret) * CreateDataGas)) in
                         if ok then SetCode address (Some ret) ;;; go_ret (gas_left', None)
                         else go_ret (gas_left', Some ErrCodeStoreOutOfGas)
                   | Some e => go_ret (gas_left, Some e)
                   end) ;;
        let '(gas_left, err) := stored in
        gas_left <- (if maxCodeSizeExceeded
                        || (bool_decide (err <> None)
                            && (IsHomestead rules || bool_decide (err <> Some ErrCodeStoreOutOfGas))) then
                       RevertToSnapshot snapshot ;;;
                       go_ret (if bool_decide (err = Some errExecutionReverted) then gas_left
                               else (UseGas gas_left gas_left).1)
                     else go_ret gas_left) ;;
        let err := if maxCodeSizeExceeded && bool_decide (err = None) then Some errMaxCodeSizeExceeded else err in
        go_ret (ret, address, gas_left, err).

Definition Create_ (caller : Address) (code : bytes) (gas value : Z)
    : StM (bytes * Address * Z * option SvmError) :=
  nonce <- GetNonce caller ;;
  EVM_create caller code gas value (CreateContractAddressWithHash caller (hash_nonce caller nonce)).

(** [crypto.CreateAddress2]. *)
Definition CreateAddress2 (b : Address) (salt : Hash) (inithash : bytes) : Address :=
  CreateContractAddressWithHash b (keccak256 ([0xff] ++ b ++ salt ++ inithash)).

Definition Create2 (caller : Address) (code : bytes) (gas endowment salt : Z)
    : StM (bytes * Address * Z * option SvmError) :=
  EVM_create caller code gas endowment (CreateAddress2 caller (BigToHash salt) (keccak256 code)).

(** The calls of a contract that runs. *)
Definition callees_of (contract : Frame) : Callees :=
  let self := f_self contract in
  mkCallees (EVM_Call self) (CallCode self) (DelegateCall contract) (StaticCall self) (Create_ self) (Create2 self).
End at_depth.

(** ** Running a contract *)

Definition RunPrecompiledContract (p : PrecompiledContract) (input : bytes) (gas_left : Z)
    : bytes * Z * option SvmError :=
  let '(rest, ok) := UseGas gas_left (pc_RequiredGas p input) in
  if ok then let '(ret, err) := pc_Run p input in (ret, rest, err)
  else ([], rest, Some ErrOutOfGas).

(** [run] with the interpreter [loop] for a contract at its start. *)
Definition run_with (loop : Frame -> bytes -> bool -> Machine -> StM (bytes * Z * option SvmError)) : Runner :=
  fun contract input readOnly =>
    match precompiles rules (f_CodeAddr contract) with
    | Some p => go_ret (RunPrecompiledContract p input (f_Gas contract))
    | None =>
        if (length (f_Code contract) =? 0)%nat then go_ret ([], f_Gas contract, None)
        else loop contract input readOnly (mkMachine 0 [] NewMemory (f_Gas contract) [] 0)
    end.

(** The loop of [Run], for a machine at a depth; a read-only caller makes the callee
    read-only. A round and the calls in it use a unit of [fuel] in depth. *)
Fixpoint loop (fuel : nat) (ctx : VmContext) (depth : Z) (contract : Frame) (input : bytes) (readOnly : bool)
    (m : Machine) : StM (bytes * Z * option SvmError) :=
  match fuel with
  | O => go_panic
  | S fuel' =>
      fun s =>
        let run : Runner := run_with (fun c i ro m => loop fuel' ctx (depth + 1) c i (ro || readOnly) m) in
        match step rules ctx (callees_of run depth contract) contract input readOnly (m, s) with
        | None => None
        | Some (Some (res, err), (m', s'), o) => Some ((res, m_gas m', err), s', o)
        | Some (None, (m', s'), o) => loop fuel' ctx depth contract input readOnly m' s'
        end
  end.

(** [run] at the entry of a transaction; the gas bounds the rounds. *)
Definition evm_run (ctx : VmContext) : Runner :=
  run_with (fun c i ro m => loop (S (Z.to_nat (f_Gas c))) ctx 1 c i ro m).
End calls.
End evm.
