(* ===== verification/EvmAlu.v ===== *)
(** * The arithmetic of the virtual machine

    The routines of [instructions.go] against what they mean: a word is an integer
    modulo 2^256, read as a signed number in two's complement where the instruction
    says so. *)

From Stdlib Require Import ZArith Zpow_facts Lia.
From S2P Require Import Prelude Common StateDb Svm EvmWord Evm.

Open Scope Z_scope.

(** ** Words *)

(** The word of an integer, and the signed number of a word. *)
Definition wrap (z : Z) : Z := z mod 2 ^ 256.
Definition signed (x : Z) : Z := if x <? 2 ^ 255 then x else x - 2 ^ 256.

Lemma U256_wrap x : U256 x = wrap x.
Proof.
  unfold U256, wrap, tt256m1, tt256. replace (2 ^ 256 - 1) with (Z.ones 256) by reflexivity.
  by rewrite Z.land_ones.
Qed.

Lemma wrap_word x : is_word (wrap x).
Proof. apply Z.mod_pos_bound. lia. Qed.

Lemma wrap_small x : is_word x -> wrap x = x.
Proof. intros Hx. by apply Z.mod_small. Qed.

Lemma U256_word x : is_word (U256 x).
Proof. rewrite U256_wrap. apply wrap_word. Qed.

Lemma U256_nonneg x : 0 <= U256 x.
Proof. apply (U256_word x). Qed.

Lemma signed_range x : is_word x -> - 2 ^ 255 <= signed x < 2 ^ 255.
Proof. unfold is_word, signed. intros Hx. destruct (Z.ltb_spec x (2 ^ 255)); lia. Qed.

(** ** Exponentiation *)

Lemma pow_half b e : 0 <= e -> b ^ e = (if Z.odd e then b else 1) * (b * b) ^ (e / 2).
Proof.
  intros He. rewrite <- Z.pow_2_r, <- Z.pow_mul_r by (try apply Z.div_pos; lia).
  rewrite <- Z.div2_div. rewrite (Z.div2_odd e) at 1.
  pose proof (proj2 (Z.div2_nonneg e) He).
  rewrite Z.pow_add_r by (destruct (Z.odd e); cbn; lia). destruct (Z.odd e); cbn [Z.b2z]; lia.
Qed.

(** The loop multiplies by the power of the bits it has not seen. *)
Lemma exp_loop_spec n e b r :
  0 <= e < 2 ^ Z.of_nat n -> is_word r -> exp_loop n e b r = wrap (r * b ^ e).
Proof.
  revert e b r. induction n as [|n IH]; intros e b r He Hr; cbn [exp_loop].
  { assert (e = 0) as -> by (cbn in He; lia). rewrite Z.mul_1_r. by rewrite wrap_small. }
  rewrite Nat2Z.inj_succ, Z.pow_succ_r in He by lia.
  assert (0 <= e / 2 < 2 ^ Z.of_nat n) by zdiv.
  rewrite (pow_half b e) by lia. rewrite U256_wrap.
  assert (Hsq : forall x, wrap (x * wrap (b * b) ^ (e / 2)) = wrap (x * (b * b) ^ (e / 2))).
  { intros x. unfold wrap. rewrite Z.mul_mod, Zpower_mod by lia. rewrite Z.mod_mod by lia.
    rewrite <- Zpower_mod by lia. by rewrite <- Z.mul_mod by lia. }
  destruct (Z.odd e).
  - rewrite U256_wrap, IH, Hsq by (done || apply wrap_word). unfold wrap.
    rewrite Z.mul_assoc. by rewrite Z.mul_mod_idemp_l.
  - rewrite IH, Hsq by done. by rewrite Z.mul_1_l.
Qed.

Lemma BitLen_bound z : 0 <= z -> 0 <= z < 2 ^ BitLen z /\ 0 <= BitLen z.
Proof.
  intros Hz. unfold BitLen. destruct (Z.eqb_spec z 0) as [->|]; [cbn; lia|].
  rewrite Z.abs_eq by done. pose proof (Z.log2_spec z ltac:(lia)).
  pose proof (Z.log2_nonneg z). rewrite Z.add_1_r. lia.
Qed.

Lemma exp_word_spec x y : is_word x -> is_word y -> exp_word x y = wrap (x ^ y).
Proof.
  intros Hx Hy. unfold exp_word, is_word in *. destruct (Z.ltb_spec y 1).
  { by assert (y = 0) as -> by lia. }
  destruct (Z.eqb_spec x 0) as [->|]; [by rewrite Z.pow_0_l by lia|].
  destruct (Z.eqb_spec y 1) as [->|]; [by rewrite Z.pow_1_r, wrap_small|].
  unfold math_Exp. destruct (BitLen_bound y ltac:(lia)) as [Hlt Hpos].
  rewrite exp_loop_spec; [by rewrite Z.mul_1_l| |unfold is_word; lia]. split; [lia|].
  eapply Z.lt_le_trans; [apply Hlt|]. apply Z.pow_le_mono_r; [lia|].
  rewrite Nat2Z.inj_mul, Z2Nat.id by (apply Z.div_pos; lia). change (Z.of_nat 64) with 64. zdiv.
Qed.

(** ** Signed arithmetic *)

Lemma S256_signed x : S256 x = signed x.
Proof. done. Qed.

Lemma sdiv_spec x y : sdiv x y = if signed y =? 0 then 0 else wrap (Z.quot (signed x) (signed y)).
Proof.
  unfold sdiv. rewrite (S256_signed x), (S256_signed y), U256_wrap. destruct (Z.eqb_spec (signed y) 0); [done|].
  cbn [orb]. destruct (Z.eqb_spec (signed x) 0) as [->|]; [rewrite Z.quot_0_l by done; reflexivity|].
  rewrite Z.quot_div by done. f_equal. generalize (Z.abs (signed x) / Z.abs (signed y)). intros q.
  destruct (Z.sgn_spec (signed x)) as [[? ->]|[[? ->]|[? ->]]],
    (Z.sgn_spec (signed y)) as [[? ->]|[[? ->]|[? ->]]]; change (- (1)) with (-1); cbn [negb Z.eqb Pos.eqb]; lia.
Qed.

Lemma smod_spec x y : smod x y = if signed y =? 0 then 0 else wrap (Z.rem (signed x) (signed y)).
Proof.
  unfold smod. rewrite (S256_signed x), (S256_signed y), U256_wrap. destruct (Z.eqb_spec (signed y) 0); [done|].
  rewrite Z.rem_mod by done. f_equal. destruct (Z.ltb_spec (signed x) 0).
  - rewrite Z.sgn_neg by done. lia.
  - destruct (Z.eq_dec (signed x) 0) as [->|]; [done|]. rewrite Z.sgn_pos by lia. lia.
Qed.

Lemma slt_spec x y : is_word x -> is_word y -> slt x y = truth (signed x <? signed y).
Proof.
  intros Hx Hy. unfold slt, signed, is_word, tt255, truth in *.
  destruct (Z.leb_spec (2 ^ 255) x), (Z.ltb_spec y (2 ^ 255)), (Z.ltb_spec x (2 ^ 255)),
    (Z.leb_spec (2 ^ 255) y); cbn [andb]; try lia;
  repeat match goal with |- context [?a <? ?b] => destruct (Z.ltb_spec a b) end; lia.
Qed.

Lemma sgt_spec x y : is_word x -> is_word y -> sgt x y = truth (signed y <? signed x).
Proof.
  intros Hx Hy. unfold sgt, signed, is_word, tt255, truth in *.
  destruct (Z.leb_spec (2 ^ 255) x), (Z.ltb_spec y (2 ^ 255)), (Z.ltb_spec x (2 ^ 255)),
    (Z.leb_spec (2 ^ 255) y); cbn [andb]; try lia;
  repeat match goal with |- context [?a <? ?b] => destruct (Z.ltb_spec a b) end; lia.
Qed.

(** The low [n] bits of a word as a signed number of [n] bits. *)
Definition extend (n x : Z) : Z :=
  let v := x mod 2 ^ n in if v <? 2 ^ (n - 1) then v else v - 2 ^ n.

Lemma lor_lnot_ones x n : 0 <= n -> Z.lor x (Z.lnot (Z.ones n)) = x mod 2 ^ n - 2 ^ n.
Proof.
  intros Hn. rewrite <- Z.land_ones by done.
  assert (Z.land (Z.land x (Z.ones n)) (Z.shiftl (-1) n) = 0) as Hd.
  { apply Z.bits_inj'. intros i Hi. rewrite !Z.land_spec, Z.bits_0, Z.shiftl_spec by done.
    destruct (Z.ltb_spec i n).
    - rewrite (Z.testbit_neg_r (-1) (i - n)) by lia. by rewrite andb_false_r.
    - rewrite Z.ones_spec_high by lia. by rewrite andb_false_r. }
  replace (Z.land x (Z.ones n) - 2 ^ n) with (Z.land x (Z.ones n) + Z.shiftl (-1) n)
    by (rewrite Z.shiftl_mul_pow2 by done; lia).
  rewrite Z.add_nocarry_lxor by done. rewrite Z.lxor_lor by done.
  apply Z.bits_inj'. intros i Hi.
  rewrite !Z.lor_spec, Z.land_spec, Z.lnot_spec, Z.shiftl_spec by done.
  destruct (Z.ltb_spec i n).
  - rewrite Z.ones_spec_low, (Z.testbit_neg_r (-1)) by lia.
    by rewrite andb_true_r, !orb_false_r.
  - rewrite Z.ones_spec_high, Z.bits_m1 by lia. by rewrite !orb_true_r.
Qed.

(** A bit more of a word. *)
Lemma mod_pow_succ x n : 0 <= n -> x mod 2 ^ (n + 1) = x mod 2 ^ n + 2 ^ n * Z.b2z (Z.testbit x n).
Proof.
  intros Hn. rewrite Z.add_1_r, Z.pow_succ_r, (Z.mul_comm 2), Z.rem_mul_r by lia.
  by rewrite <- Z.testbit_spec'.
Qed.

Lemma signextend_spec back num :
  0 <= back < 31 -> signextend back num = wrap (extend (8 * (back + 1)) num).
Proof.
  intros Hb. unfold signextend, big_Uint64. rewrite u64_small by (unfold is_u64; lia).
  rewrite U256_wrap. f_equal. set (n := back * 8 + 7). unfold extend.
  replace (8 * (back + 1)) with (n + 1) by lia. replace (n + 1 - 1) with n by lia.
  assert (Hn : 0 <= n) by lia. rewrite mod_pow_succ by done.
  pose proof (Z.mod_pos_bound num (2 ^ n) ltac:(lia)).
  replace (Z.shiftl 1 n - 1) with (Z.ones n) by (rewrite Z.ones_equiv, Z.shiftl_1_l; lia).
  destruct (Z.testbit num n); cbn [Z.b2z].
  - rewrite lor_lnot_ones by done. rewrite (proj2 (Z.ltb_ge _ _)) by lia.
    rewrite Z.add_1_r, Z.pow_succ_r by done. lia.
  - rewrite Z.land_ones by done. rewrite (proj2 (Z.ltb_lt _ _)) by lia. lia.
Qed.

(** ** Bytes and shifts *)

Lemma byte_of_spec th val :
  is_word th -> byte_of th val = if th <? 32 then (val / 256 ^ (31 - th)) mod 256 else 0.
Proof.
  intros Hth. unfold byte_of, big_Int64, is_word in *. destruct (Z.ltb_spec th 32); [|done].
  rewrite i64_small by lia. unfold math_Byte. rewrite (proj2 (Z.leb_gt _ _)) by lia.
  change 255 with (Z.ones 8). rewrite Z.land_ones, Z.shiftr_div_pow2 by lia. f_equal. f_equal.
  rewrite Z.pow_mul_r by lia. by replace (32 - 1 - th) with (31 - th) by lia.
Qed.

Lemma shl_spec shift value :
  is_word shift -> is_word value ->
  shl shift value = if shift <? 256 then wrap (value * 2 ^ shift) else 0.
Proof.
  intros Hs Hv. unfold shl. rewrite !U256_wrap, (wrap_small shift), (wrap_small value) by done.
  unfold is_word, big_Uint64 in *. rewrite Z.leb_antisym. destruct (Z.ltb_spec shift 256); cbn [negb]; [|done].
  rewrite u64_small by (unfold is_u64; lia). by rewrite Z.shiftl_mul_pow2 by lia.
Qed.

Lemma shr_spec shift value :
  is_word shift -> is_word value -> shr shift value = if shift <? 256 then value / 2 ^ shift else 0.
Proof.
  intros Hs Hv. unfold shr. rewrite !U256_wrap, (wrap_small shift), (wrap_small value) by done.
  unfold is_word, big_Uint64 in *. rewrite Z.leb_antisym. destruct (Z.ltb_spec shift 256); cbn [negb]; [|done].
  rewrite u64_small by (unfold is_u64; lia). rewrite Z.shiftr_div_pow2 by lia. apply wrap_small.
  split; [apply Z.div_pos; lia|]. apply Z.div_lt_upper_bound; [lia|]. nia.
Qed.

(** Far shifts leave the sign only, like shifts by 255. *)
Lemma sar_spec shift value :
  is_word shift -> is_word value -> sar shift value = wrap (signed value / 2 ^ (Z.min shift 256)).
Proof.
  intros Hs Hv. unfold sar. rewrite U256_wrap, (wrap_small shift) by done. rewrite S256_signed.
  pose proof (signed_range value Hv). unfold is_word, big_Uint64 in *.
  destruct (Z.leb_spec 256 shift).
  - rewrite Z.min_r by lia. rewrite U256_wrap. f_equal. destruct (Z.leb_spec 0 (signed value)).
    + symmetry. apply Z.div_small. lia.
    + apply (Z.div_unique _ _ _ (signed value + 2 ^ 256)); lia.
  - rewrite Z.min_l, u64_small by (unfold is_u64; lia). by rewrite U256_wrap, Z.shiftr_div_pow2 by lia.
Qed.

(** ** The claim *)

(** The arithmetic of the machine is that of 256-bit words: exponentiation
    by squaring is the power modulo 2^256; signed division and remainder are
    those of two's complement numbers, rounded towards zero, and zero for a
    zero divisor, the one overflow (the least number by -1) included; the
    signed comparisons compare signed numbers; the sign extension, the byte
    and the shifts take the bits they say, for every word. *)
Theorem word_arithmetic x y :
  is_word x -> is_word y ->
  exp_word x y = x ^ y mod 2 ^ 256
  /\ sdiv x y = (if y =? 0 then 0 else Z.quot (signed x) (signed y) mod 2 ^ 256)
  /\ smod x y = (if y =? 0 then 0 else Z.rem (signed x) (signed y) mod 2 ^ 256)
  /\ slt x y = truth (signed x <? signed y)
  /\ sgt x y = truth (signed y <? signed x)
  /\ (x < 31 -> signextend x y = extend (8 * (x + 1)) y mod 2 ^ 256)
  /\ byte_of x y = (if x <? 32 then (y / 256 ^ (31 - x)) mod 256 else 0)
  /\ shl x y = (if x <? 256 then (y * 2 ^ x) mod 2 ^ 256 else 0)
  /\ shr x y = (if x <? 256 then y / 2 ^ x else 0)
  /\ sar x y = (signed y / 2 ^ (Z.min x 256)) mod 2 ^ 256.
Proof.
  intros Hx Hy. assert (Hz : (signed y =? 0) = (y =? 0)).
  { unfold signed, is_word in *. destruct (Z.ltb_spec y (2 ^ 255)); [done|].
    rewrite !(proj2 (Z.eqb_neq _ _)) by lia. done. }
  split; [by apply exp_word_spec|]. split; [by rewrite sdiv_spec, Hz|].
  split; [by rewrite smod_spec, Hz|]. split; [by apply slt_spec|]. split; [by apply sgt_spec|].
  split; [intros; apply signextend_spec; unfold is_word in *; lia|].
  split; [by apply byte_of_spec|]. split; [by apply shl_spec|]. split; [by apply shr_spec|].
  by apply sar_spec.
Qed.

(** The least number divided by -1, and a power that wraps. *)
Lemma word_arithmetic_witness :
  sdiv (2 ^ 255) (2 ^ 256 - 1) = 2 ^ 255 /\ exp_word 7 100 = 7 ^ 100 - 2 ^ 256 * (7 ^ 100 / 2 ^ 256).
Proof.
  split.
  - destruct (word_arithmetic (2 ^ 255) (2 ^ 256 - 1)) as (_ & -> & _);
      [split; reflexivity || discriminate..|]. reflexivity.
  - destruct (word_arithmetic 7 100) as (-> & _); [split; reflexivity || discriminate..|]. reflexivity.
Defined.
