(* ===== verification/EvmJump.v ===== *)
(** * The analysis of jump destinations

    [codeBitmap] marks the bytes of the code that are data of a [PUSH], eight bits at
    a time, and [validJumpdest] lets a jump go to a [JUMPDEST] that is not marked.
    The reference reads the code from its start, one instruction after the other. *)

From Stdlib Require Import ZArith Lia.
From S2P Require Import Prelude Common StateDb Svm EvmWord Evm EvmAlu.

Open Scope Z_scope.

(** ** The reference *)

(** The bytes of data that follow an instruction. *)
Definition push_size (op : Z) : Z := if (PUSH1 <=? op) && (op <=? PUSH32) then op - PUSH1 + 1 else 0.

(** The positions that an execution without jumps goes through. *)
Inductive instruction_at (code : bytes) : Z -> Prop :=
| instruction_first : instruction_at code 0
| instruction_next pos op :
    instruction_at code pos -> code !! Z.to_nat pos = Some op ->
    instruction_at code (pos + 1 + push_size op).

Lemma push_size_range op : 0 <= push_size op <= 32.
Proof.
  unfold push_size, PUSH1, PUSH32.
  destruct (Z.leb_spec 0x60 op), (Z.leb_spec op 0x7f); cbn [andb]; lia.
Qed.

Lemma instruction_at_nonneg code pos : instruction_at code pos -> 0 <= pos.
Proof. induction 1 as [|pos op _ IH _]; [lia|]. pose proof (push_size_range op). lia. Qed.

(** No instruction starts in the data of another. *)
Lemma instructions_apart code a b :
  instruction_at code a -> instruction_at code b -> a < b ->
  exists op, code !! Z.to_nat a = Some op /\ a + 1 + push_size op <= b.
Proof.
  intros Ha Hb. revert a Ha. induction Hb as [|b op Hb IH Hop]; intros a Ha Hlt.
  { apply instruction_at_nonneg in Ha. lia. }
  pose proof (push_size_range op). destruct (Z.lt_trichotomy a b) as [Hab|[->|Hab]].
  - destruct (IH a Ha Hab) as (op' & Hop' & Hle). exists op'. split; [done|lia].
  - by exists op.
  - exfalso. induction Ha as [|a opa Ha IHa Hopa]; [apply instruction_at_nonneg in Hb; lia|].
    pose proof (push_size_range opa). destruct (Z.lt_trichotomy a b) as [Hab'|[->|Hab']].
    + destruct (IH a Ha Hab') as (op' & Hop' & Hle). assert (op' = opa) as -> by congruence. lia.
    + assert (op = opa) as -> by congruence. lia.
    + apply IHa; lia.
Qed.

(** ** The bits *)

Definition mask (p : Z) : Z := Z.shiftr 0x80 (p mod 8).

Definition marked (bits : bytes) (p : Z) : bool :=
  match bits !! Z.to_nat (p / 8) with
  | Some x => negb (Z.land x (mask p) =? 0)
  | None => false
  end.

Lemma codeSegment_marked bits p :
  0 <= p -> p / 8 < Z.of_nat (length bits) -> codeSegment bits p = Some (negb (marked bits p)).
Proof.
  intros Hp Hl. unfold codeSegment, marked.
  destruct (lookup_lt_is_Some_2 bits (Z.to_nat (p / 8))) as [x ->]; [zdiv|].
  by rewrite negb_involutive.
Qed.

Lemma land_lor_zero x b m : (Z.land (Z.lor x b) m =? 0) = (Z.land x m =? 0) && (Z.land b m =? 0).
Proof.
  rewrite Z.land_lor_distr_l. apply eq_true_iff_eq. rewrite andb_true_iff, !Z.eqb_eq.
  apply Z.lor_eq_0_iff.
Qed.

(** The bits of a byte at [i], [b] being added. *)
Lemma bit_or_spec bits i b :
  0 <= i < Z.of_nat (length bits) ->
  exists bits', bit_or bits i b = Some bits' /\ length bits' = length bits
    /\ forall p, 0 <= p -> marked bits' p = ((p / 8 =? i) && negb (Z.land b (mask p) =? 0)) || marked bits p.
Proof.
  intros Hi. unfold bit_or. destruct (lookup_lt_is_Some_2 bits (Z.to_nat i)) as [x Hx]; [lia|].
  rewrite Hx. eexists. split; [done|]. split; [apply length_insert|]. intros p Hp. unfold marked.
  destruct (Z.eqb_spec (p / 8) i) as [->|Hne]; cbn [andb orb].
  - rewrite list_lookup_insert_eq by lia. rewrite Hx, land_lor_zero, negb_andb. apply orb_comm.
  - rewrite list_lookup_insert_ne; [done|]. zdiv.
Qed.

(** The bits of the bytes that the two setters add. *)
Lemma bit_cases (P : Z -> Z -> Prop) :
  Forall (fun k => Forall (P k) [0; 1; 2; 3; 4; 5; 6; 7]) [0; 1; 2; 3; 4; 5; 6; 7] ->
  forall a b, P (a mod 8) (b mod 8).
Proof.
  intros HP a b.
  assert (Hin : forall z, z mod 8 ∈ [0; 1; 2; 3; 4; 5; 6; 7]).
  { intros z. pose proof (Z.mod_pos_bound z 8 ltac:(lia)). rewrite !elem_of_cons. lia. }
  rewrite Forall_forall in HP. specialize (HP _ (Hin a)). rewrite Forall_forall in HP.
  exact (HP _ (Hin b)).
Qed.

Lemma set_mask pos p : negb (Z.land (Z.shiftr 0x80 (pos mod 8)) (mask p) =? 0) = (pos mod 8 =? p mod 8).
Proof.
  unfold mask. apply (bit_cases (fun a b => negb (Z.land (Z.shiftr 0x80 a) (Z.shiftr 0x80 b) =? 0) = (a =? b))).
  repeat constructor.
Qed.

Lemma set8_mask pos p :
  negb (Z.land (Z.shiftr 0xFF (pos mod 8)) (mask p) =? 0) = (pos mod 8 <=? p mod 8)
  /\ negb (Z.land (Z.lxor 0xFF (Z.shiftr 0xFF (pos mod 8))) (mask p) =? 0) = (p mod 8 <? pos mod 8).
Proof.
  unfold mask. apply (bit_cases (fun a b =>
    negb (Z.land (Z.shiftr 0xFF a) (Z.shiftr 0x80 b) =? 0) = (a <=? b)
    /\ negb (Z.land (Z.lxor 0xFF (Z.shiftr 0xFF a)) (Z.shiftr 0x80 b) =? 0) = (b <? a))).
  repeat constructor.
Qed.

(** The positions from [a] up to [b]. *)
Definition between (a b p : Z) : bool := (a <=? p) && (p <? b).

Ltac between_cases :=
  unfold between;
  repeat match goal with
  | |- context [?a =? ?b] => destruct (Z.eqb_spec a b)
  | |- context [?a <=? ?b] => destruct (Z.leb_spec a b)
  | |- context [?a <? ?b] => destruct (Z.ltb_spec a b)
  end; cbn [andb orb]; try done; try (exfalso; zdiv).

Lemma bitvec_set_spec bits pos :
  0 <= pos -> pos / 8 < Z.of_nat (length bits) ->
  exists bits', bitvec_set bits pos = Some bits' /\ length bits' = length bits
    /\ forall p, 0 <= p -> marked bits' p = between pos (pos + 1) p || marked bits p.
Proof.
  intros Hpos Hl. destruct (bit_or_spec bits (pos / 8) (Z.shiftr 0x80 (pos mod 8)) ltac:(zdiv))
    as (bits' & Hb & Hlen & Hm). exists bits'. repeat (split; [done|]). intros p Hp.
  rewrite Hm, set_mask by done. f_equal. between_cases.
Qed.

Lemma bitvec_set8_spec bits pos :
  0 <= pos -> pos / 8 + 1 < Z.of_nat (length bits) ->
  exists bits', bitvec_set8 bits pos = Some bits' /\ length bits' = length bits
    /\ forall p, 0 <= p -> marked bits' p = between pos (pos + 8) p || marked bits p.
Proof.
  intros Hpos Hl. unfold bitvec_set8.
  destruct (bit_or_spec bits (pos / 8) (Z.shiftr 0xFF (pos mod 8)) ltac:(zdiv)) as (b1 & -> & Hl1 & Hm1).
  destruct (bit_or_spec b1 (pos / 8 + 1) (Z.lxor 0xFF (Z.shiftr 0xFF (pos mod 8))) ltac:(zdiv))
    as (b2 & -> & Hl2 & Hm2). exists b2. split; [done|]. split; [congruence|]. intros p Hp.
  rewrite Hm2, Hm1 by done. destruct (set8_mask pos p) as [-> ->]. rewrite orb_assoc. f_equal.
  between_cases.
Qed.

Lemma between_app a b c p : a <= b <= c -> between a b p || between b c p = between a c p.
Proof. intros Habc. between_cases. Qed.

(** The loop over the data of an instruction. *)
Lemma set_bits_spec fuel numbits bits pc :
  0 <= numbits <= Z.of_nat fuel -> 0 <= pc -> (pc + numbits) / 8 < Z.of_nat (length bits) ->
  exists bits', set_bits fuel numbits bits pc = Some (bits', pc + numbits) /\ length bits' = length bits
    /\ forall p, 0 <= p -> marked bits' p = between pc (pc + numbits) p || marked bits p.
Proof.
  revert numbits bits pc. induction fuel as [|fuel IH]; intros numbits bits pc Hn Hpc Hl; cbn [set_bits].
  { exists bits. assert (numbits = 0) as -> by lia. rewrite Z.add_0_r. repeat (split; [done|]).
    intros p Hp. between_cases. }
  destruct (Z.leb_spec 8 numbits).
  { destruct (bitvec_set8_spec bits pc) as (b1 & -> & Hl1 & Hm1); [done|zdiv|].
    destruct (IH (numbits - 8) b1 (pc + 8)) as (b2 & Hb & Hl2 & Hm2); [lia..|rewrite Hl1; zdiv|].
    exists b2. rewrite Hb. split; [do 2 f_equal; lia|]. split; [congruence|]. intros p Hp.
    rewrite Hm2, Hm1, orb_assoc, (orb_comm (between _ _ _) (between _ _ _)), between_app by lia.
    do 2 f_equal. lia. }
  destruct (Z.ltb_spec 0 numbits).
  - destruct (bitvec_set_spec bits pc) as (b1 & -> & Hl1 & Hm1); [done|zdiv|].
    destruct (IH (numbits - 1) b1 (pc + 1)) as (b2 & Hb & Hl2 & Hm2); [lia..|rewrite Hl1; zdiv|].
    exists b2. rewrite Hb. split; [do 2 f_equal; lia|]. split; [congruence|]. intros p Hp.
    rewrite Hm2, Hm1, orb_assoc, (orb_comm (between _ _ _) (between _ _ _)), between_app by lia.
    do 2 f_equal. lia.
  - exists bits. assert (numbits = 0) as -> by lia. rewrite Z.add_0_r. repeat (split; [done|]).
    intros p Hp. between_cases.
Qed.

(** ** The loop over the code *)

(** What the bits say before [pc]: the instructions are not marked, and nothing is
    from there on. *)
Record scanned (code bits : bytes) (pc : Z) : Prop := {
  sc_at : instruction_at code pc;
  sc_before : forall p, 0 <= p < pc -> marked bits p = false <-> instruction_at code p;
  sc_after : forall p, pc <= p -> marked bits p = false
}.

Lemma scanned_step code bits bits' pc op :
  scanned code bits pc -> code !! Z.to_nat pc = Some op ->
  (forall p, 0 <= p -> marked bits' p = between (pc + 1) (pc + 1 + push_size op) p || marked bits p) ->
  scanned code bits' (pc + 1 + push_size op).
Proof.
  intros [Hat Hbefore Hafter] Hop Hm. pose proof (instruction_at_nonneg _ _ Hat).
  pose proof (push_size_range op). constructor.
  - by apply instruction_next.
  - intros p Hp. rewrite Hm by lia. destruct (Z.lt_trichotomy p pc) as [Hlt|[->|Hgt]].
    + rewrite <- Hbefore by lia. unfold between. rewrite (proj2 (Z.leb_gt (pc + 1) p)) by lia. done.
    + rewrite Hafter by lia. unfold between. rewrite (proj2 (Z.leb_gt (pc + 1) pc)) by lia. done.
    + unfold between. rewrite (proj2 (Z.leb_le (pc + 1) p)), (proj2 (Z.ltb_lt p _)) by lia.
      split; [done|]. intros Hi. destruct (instructions_apart code pc p Hat Hi Hgt) as (op' & Hop' & Hle).
      assert (op' = op) as -> by congruence. lia.
  - intros p Hp. rewrite Hm, Hafter by lia. unfold between.
    rewrite (proj2 (Z.ltb_ge p _)) by lia. by rewrite andb_false_r.
Qed.

Lemma bits_length n : Z.of_nat (n / 8 + 1 + 4) = Z.of_nat n / 8 + 5.
Proof. rewrite !Nat2Z.inj_add, Nat2Z.inj_div. lia. Qed.

Lemma bitmap_loop_spec fuel code bits pc :
  Z.of_nat (length code) - pc <= Z.of_nat fuel ->
  length bits = (length code / 8 + 1 + 4)%nat -> scanned code bits pc ->
  exists bits' pc', bitmap_loop fuel code bits pc = Some bits' /\ length bits' = length bits
    /\ Z.of_nat (length code) <= pc' /\ scanned code bits' pc'.
Proof.
  revert bits pc. induction fuel as [|fuel IH]; intros bits pc Hf Hl Hs; cbn [bitmap_loop].
  { exists bits, pc. repeat (split; [done|]). split; [lia|done]. }
  pose proof (instruction_at_nonneg _ _ (sc_at _ _ _ Hs)) as Hpc.
  destruct (code !! Z.to_nat pc) as [op|] eqn:Hop.
  2: { exists bits, pc. repeat (split; [done|]). apply lookup_ge_None in Hop. split; [lia|done]. }
  pose proof (lookup_lt_Some _ _ _ Hop). pose proof (push_size_range op) as Hr.
  pose proof (fun bits' => scanned_step code bits bits' pc op Hs Hop) as Hstep.
  assert (Hnext : forall bits', length bits' = length bits -> 
    (forall p, 0 <= p -> marked bits' p = between (pc + 1) (pc + 1 + push_size op) p || marked bits p) ->
    exists bits'' pc', bitmap_loop fuel code bits' (pc + 1 + push_size op) = Some bits''
      /\ length bits'' = length bits /\ Z.of_nat (length code) <= pc' /\ scanned code bits'' pc').
  { intros bits' Hl' Hm. destruct (IH bits' (pc + 1 + push_size op)) as (b & pc' & ? & ? & ? & ?);
      [lia|congruence|by apply Hstep|]. exists b, pc'. repeat (split; [done || congruence|]). done. }
  clear IH Hstep. unfold push_size in Hnext, Hr. destruct (_ && _).
  - destruct (set_bits_spec 32 (op - PUSH1 + 1) bits (pc + 1)) as (b & -> & Hlb & Hmb);
      [lia..|rewrite Hl, bits_length; zdiv|]. by apply Hnext.
  - rewrite Z.add_0_r in Hnext. apply Hnext; [done|]. intros p Hp. between_cases.
Qed.

Lemma marked_zeros n p : marked (replicate n 0) p = false.
Proof.
  unfold marked. destruct (replicate n 0 !! Z.to_nat (p / 8)) eqn:Hx; [|done].
  apply lookup_replicate in Hx as [-> _]. done.
Qed.

Lemma codeBitmap_spec code :
  exists bits, codeBitmap code = Some bits
    /\ forall p, 0 <= p < Z.of_nat (length code) ->
       exists b, codeSegment bits p = Some b /\ (b = true <-> instruction_at code p).
Proof.
  destruct (bitmap_loop_spec (length code) code (replicate (length code / 8 + 1 + 4) 0) 0)
    as (bits & pc & Hb & Hl & Hpc & Hs).
  - lia.
  - apply length_replicate.
  - constructor; [constructor|intros; lia|]. intros p _. apply marked_zeros.
  - exists bits. split; [exact Hb|]. intros p Hp. rewrite length_replicate in Hl.
    exists (negb (marked bits p)). split; [apply codeSegment_marked; [lia|rewrite Hl, bits_length; zdiv]|].
    rewrite <- (sc_before _ _ _ Hs) by lia. by destruct (marked bits p).
Qed.

(** C10: The analysis of a code never reads or writes outside its bits, and a
    jump is valid exactly to a JUMPDEST that is an instruction of the code
    read from its start, not data of a PUSH: the bits that are set eight at
    a time mark exactly the data. *)
Theorem valid_jumps code dest :
  Z.of_nat (length code) <= 2 ^ 62 -> 0 <= dest ->
  exists b, validJumpdest code dest = Some b
    /\ (b = true <-> code !! Z.to_nat dest = Some JUMPDEST /\ instruction_at code dest).
Proof.
  intros Hlen Hd. destruct (codeBitmap_spec code) as (bits & Hbits & Hseg).
  destruct (BitLen_bound dest Hd) as [Hbound Hpos]. unfold validJumpdest, big_Uint64.
  destruct (Z.leb_spec 63 (BitLen dest)) as [Hbig|Hsmall]; cbn [orb].
  { exists false. split; [done|]. split; [done|]. intros [Hc%lookup_lt_Some _]. exfalso.
    unfold BitLen in Hbig. destruct (Z.eqb_spec dest 0); [lia|]. rewrite Z.abs_eq in Hbig by lia.
    pose proof (Z.log2_spec dest ltac:(lia)).
    pose proof (Z.pow_le_mono_r 2 62 (Z.log2 dest) ltac:(lia) ltac:(lia)). lia. }
  assert (dest < 2 ^ 63).
  { eapply Z.lt_trans; [apply Hbound|]. apply Z.pow_lt_mono_r; lia. }
  rewrite u64_small by (unfold is_u64; lia). destruct (Z.leb_spec (Z.of_nat (length code)) dest).
  { exists false. split; [done|]. split; [done|]. intros [Hc%lookup_lt_Some _]. lia. }
  destruct (lookup_lt_is_Some_2 code (Z.to_nat dest)) as [op Hop]; [lia|].
  unfold GetByte. rewrite (proj2 (Z.ltb_lt _ _)), Hop by done. cbn [default from_option]. unfold id.
  destruct (Z.eqb_spec op JUMPDEST) as [->|Hne]; cbn [negb].
  - rewrite Hbits. destruct (Hseg dest ltac:(lia)) as (b & Hb & Hiff). exists b. split; [done|].
    rewrite Hiff. tauto.
  - exists false. split; [done|]. split; [done|]. intros [[= Hj] _]. by destruct Hne.
Qed.

(** The byte in the data of the first [PUSH2] is not a destination, the one after it
    is. *)
Lemma valid_jumps_witness :
  validJumpdest [0x61; 0x5b; 0x5b; 0x5b] 3 = Some true /\ ~ instruction_at [0x61; 0x5b; 0x5b; 0x5b] 2.
Proof.
  split; [reflexivity|]. intros Hi.
  destruct (valid_jumps [0x61; 0x5b; 0x5b; 0x5b] 2) as (b & Hb & Hiff); [discriminate..|].
  vm_compute in Hb. injection Hb as <-. assert (false = true) as [=] by (by apply Hiff).
Defined.
