(* ===== verification/EvmMemory.v ===== *)
(** * The price of memory

    [memoryGasCost] charges for the words that are new, by the difference of the
    price of all words to what was paid before. Up to 0x1fffffffe0 bytes that is
    exact; above, the square of the words wraps around although the size is let
    through. *)

From Stdlib Require Import ZArith Lia.
From S2P Require Import Prelude Common StateDb StateDbProofs Svm EvmWord Evm EvmAlu.

Open Scope Z_scope.
Open Scope go_scope.

(** The price of so many words of memory. *)
Definition memory_fee (w : Z) : Z := 3 * w + w * w / 512.

Lemma memory_fee_mono v w : 0 <= v <= w -> 0 <= memory_fee v <= memory_fee w.
Proof.
  intros Hv. unfold memory_fee. pose proof (Z.div_le_mono (v * v) (w * w) 512 ltac:(lia) ltac:(nia)).
  pose proof (Z.div_pos (v * v) 512 ltac:(nia) ltac:(lia)). lia.
Qed.

(** A memory of whole words that are paid for. *)
Definition mem_paid (mem : Memory) : Prop :=
  exists w, mem_Len mem = 32 * w /\ mem_lastGasCost mem = memory_fee w.

(** A size that the interpreter asks for, below the limit. *)
Definition word_size (limit size : Z) : Prop := exists w, size = 32 * w /\ 0 <= w /\ size <= limit.

Lemma toWordSize_words w : 0 <= 32 * w <= 2 ^ 63 -> toWordSize (32 * w) = w.
Proof.
  intros Hw. unfold toWordSize, MaxUint64. rewrite (proj2 (Z.ltb_ge _ _)) by lia. zdiv.
Qed.

Lemma mem_Resize_len mem size : mem_Len (mem_Resize mem size) = Z.max (mem_Len mem) size.
Proof.
  unfold mem_Resize. destruct (Z.ltb_spec (mem_Len mem) size); [|lia].
  unfold mem_Len in *. cbn. rewrite length_app, length_replicate. lia.
Qed.

Lemma mem_Resize_cost mem size : mem_lastGasCost (mem_Resize mem size) = mem_lastGasCost mem.
Proof. unfold mem_Resize. by destruct (_ <? _). Qed.

Section memory.
Context {T : Type} {HT : TrieOps T}.

(** What a round of the interpreter does with the memory it needs: the price, and the
    memory afterwards. *)
Definition expand (size : Z) : @EM T HT (Z + SvmError) :=
  cost <- memoryGasCost size ;;
  (if 0 <? size then update (fun m => set_mem (mem_Resize (m_mem m) size) m) else go_ret tt) ;;;
  go_ret cost.

(** The prices of rounds, as long as there is no error. *)
Fixpoint expand_all (sizes : list Z) : @EM T HT (Z + SvmError) :=
  match sizes with
  | [] => go_ret (inl 0)
  | size :: l =>
      cost <- expand size ;;
      match cost with
      | inr e => go_ret (inr e)
      | inl c => rest <- expand_all l ;;
                 go_ret (match rest with inl r => inl (c + r) | inr e => inr e end)
      end
  end.

Lemma expand_spec size m (s : Statedb T) :
  word_size 0x1fffffffe0 size -> mem_paid (m_mem m) ->
  exists mem, expand size (m, s)
      = Some (inl (memory_fee (mem_Len mem / 32) - memory_fee (mem_Len (m_mem m) / 32)), (set_mem mem m, s), [])
    /\ mem_paid mem /\ mem_Len mem = Z.max (mem_Len (m_mem m)) size.
Proof.
  intros (w & -> & Hw & Hlim) (v & Hlen & Hcost).
  assert (Hdiv : forall x, 32 * x / 32 = x) by (intros; rewrite Z.mul_comm; by apply Z.div_mul).
  assert (Hkeep : 32 * w <= mem_Len (m_mem m) ->
    exists mem, Some (inl 0, (set_mem (mem_Resize (m_mem m) (32 * w)) m, s), [] : list Empty_set)
      = Some (inl (memory_fee (mem_Len mem / 32) - memory_fee (mem_Len (m_mem m) / 32)) : Z + SvmError,
          (set_mem mem m, s), [])
      /\ mem_paid mem /\ mem_Len mem = Z.max (mem_Len (m_mem m)) (32 * w)).
  { intros Hle. exists (m_mem m). rewrite Z.sub_diag. unfold mem_Resize.
    rewrite (proj2 (Z.ltb_ge _ _)) by lia. split; [done|]. split; [by exists v|lia]. }
  unfold expand, memoryGasCost, go_bind, machine, update, go_ret. cbn [app].
  destruct (Z.eqb_spec (32 * w) 0) as [Hz|Hnz].
  { assert (Hself : mem_Resize (m_mem m) (32 * w) = m_mem m)
      by (unfold mem_Resize; rewrite (proj2 (Z.ltb_ge _ _)) by (unfold mem_Len; lia); done).
    destruct (Hkeep ltac:(unfold mem_Len; lia)) as (mem & Heq & Hm). exists mem. split; [|done].
    rewrite <- Heq, Hself, (proj2 (Z.ltb_ge 0 _)) by lia. by destruct m. }
  rewrite (proj2 (Z.ltb_ge 0xffffffffe0 _)), (proj2 (Z.ltb_lt 0 _)) by lia.
  rewrite toWordSize_words, (u64_small (w * 32)) by (unfold is_u64; lia). cbn [fst snd].
  destruct (Z.ltb_spec (mem_Len (m_mem m)) (w * 32)) as [Hgrow|Hno]; cbn; [|apply Hkeep; lia].
  assert (Hfee : memory_fee v <= memory_fee w) by (apply memory_fee_mono; unfold mem_Len in *; lia).
  assert (Hw32 : w * w < 2 ^ 64) by nia.
  unfold MemoryGas, QuadCoeffDiv. rewrite (u64_small (w * w)), (u64_small (w * 3)) by (unfold is_u64; nia).
  replace (w * 3 + w * w / 512) with (memory_fee w) by (unfold memory_fee; lia).
  assert (Hmax : memory_fee w < 2 ^ 64) by (unfold memory_fee; zdiv).
  assert (0 <= memory_fee v) by (apply (memory_fee_mono v v); unfold mem_Len in *; lia).
  rewrite Hcost, !(u64_small (memory_fee w)), u64_small by (unfold is_u64; lia).
  exists (mem_Resize (mkMemory (mem_store (m_mem m)) (memory_fee w)) (32 * w)).
  assert (Hl : mem_Len (mem_Resize (mkMemory (mem_store (m_mem m)) (memory_fee w)) (32 * w)) = 32 * w)
    by (rewrite mem_Resize_len; unfold mem_Len in *; cbn; lia).
  rewrite Hl, Hlen, !Hdiv. split; [done|]. split; [|lia].
  exists w. split; [done|]. by rewrite mem_Resize_cost.
Qed.

(** What a run pays for memory only depends on how far the memory has
    grown: however the growth is split over the instructions, the prices add
    up to 3 gas for each word and a 512th of the square of the words, and no
    64-bit operation of the computation wraps around, as long as the memory
    stays below 0x1fffffffe0 bytes. *)
Theorem memory_gas_adds_up sizes m (s : Statedb T) :
  Forall (word_size 0x1fffffffe0) sizes -> m_mem m = NewMemory ->
  exists m', expand_all sizes (m, s) = Some (inl (memory_fee (mem_Len (m_mem m') / 32)), (m', s), [])
    /\ mem_Len (m_mem m') = foldr Z.max 0 sizes /\ m_gas m' = m_gas m.
Proof.
  intros Hs Hnew.
  assert (Hgen : forall m, mem_paid (m_mem m) -> exists m',
    expand_all sizes (m, s)
      = Some (inl (memory_fee (mem_Len (m_mem m') / 32) - memory_fee (mem_Len (m_mem m) / 32)), (m', s), [])
    /\ mem_Len (m_mem m') = foldr Z.max (mem_Len (m_mem m)) sizes /\ m_gas m' = m_gas m).
  { clear m Hnew. induction Hs as [|size l Hsize _ IH]; intros m Hm; cbn [expand_all foldr].
    { exists m. rewrite Z.sub_diag. by destruct m. }
    destruct (expand_spec size m s Hsize Hm) as (mem & Heq & Hpaid & Hlen).
    unfold go_bind. rewrite Heq. cbn [app].
    destruct (IH (set_mem mem m) Hpaid) as (m' & Heq' & Hlen' & Hgas). rewrite Heq'.
    exists m'. unfold go_ret. cbn [app]. split; [do 4 f_equal; cbn; lia|]. split; [|done].
    rewrite Hlen'. cbn. rewrite Hlen. clear. induction l as [|x l IH]; cbn; lia. }
  destruct (Hgen m) as (m' & Heq & Hlen & Hgas); [exists 0; by rewrite Hnew|].
  rewrite Hnew in Heq, Hlen. exists m'. split; [|done]. rewrite Heq.
  change (mem_Len NewMemory / 32) with 0. change (memory_fee 0) with 0. by rewrite Z.sub_0_r.
Qed.

(** Above 0x1fffffffe0 bytes the price of memory is wrong: a memory of 2^37
    bytes, which the limit of memoryGasCost lets through, is had for 3 *
    2^32 gas, the linear part alone, since the square of its 2^32 words
    wraps around to zero; its price is more than 2^55. *)
Theorem memory_gas_wraps m (s : Statedb T) :
  m_mem m = NewMemory ->
  (exists ms, memoryGasCost (2 ^ 37) (m, s) = Some (inl (3 * 2 ^ 32), ms, []))
  /\ memory_fee (2 ^ 37 / 32) = 3 * 2 ^ 32 + 2 ^ 55.
Proof.
  intros Hm. split; [|reflexivity]. destruct m as [pc st mem gas ret temp]. cbn in Hm. subst mem.
  exists (mkMachine pc st (mkMemory [] (3 * 2 ^ 32)) gas ret temp, s). vm_compute. reflexivity.
Qed.
End memory.

(** A memory that grows, is used again and grows once more. *)
Lemma memory_gas_adds_up_witness :
  exists m', expand_all [32; 0; 320; 64] (mkMachine 0 [] NewMemory 1000 [] 0, empty_state)
    = Some (inl 30, (m', empty_state), []) /\ mem_Len (m_mem m') = 320.
Proof.
  destruct (memory_gas_adds_up [32; 0; 320; 64] (mkMachine 0 [] NewMemory 1000 [] 0) empty_state)
    as (m' & Heq & Hlen & _).
  - repeat constructor; [exists 1|exists 0|exists 10|exists 2]; lia.
  - reflexivity.
  - exists m'. rewrite Hlen in Heq. split; [exact Heq|exact Hlen].
Defined.

Lemma memory_gas_wraps_witness :
  exists ms, memoryGasCost (2 ^ 37) (mkMachine 0 [] NewMemory 1000 [] 0, empty_state)
    = Some (inl 12884901888, ms, []).
Proof.
  destruct (memory_gas_wraps (mkMachine 0 [] NewMemory 1000 [] 0) empty_state eq_refl) as [Hex _].
  exact Hex.
Defined.
