(* ===== verification/EvmSafety.v ===== *)
(** * The interpreter terminates and does not panic

    Every operation of the instruction set of the default rules is safe: on a stack
    that its guard accepts, it is paid for and executed without a panic, it goes on
    with less gas than before, and it changes the state only in ways that can be
    reverted. The guards are what this needs: the depth of the stack, the memory that
    was paid for before it is used, the analysis of jumps. *)

From Stdlib Require Import ZArith Lia.
From S2P Require Import Prelude Common BftHeader StateDb StateDbProofs Svm SvmProofs.
From S2P Require Import EvmWord Evm EvmAlu EvmJump EvmMemory.

Open Scope Z_scope.
Open Scope go_scope.

(** ** The state under the machine *)

Section above.
Context {T : Type} {HT : TrieOps T}.
Implicit Types (s : Statedb T) (es : list journalEntry).

Abbreviation StM A := (GoM (Statedb T) Empty_set A).

(** What was done since [s0] goes on from [es], and can be reverted. *)
Definition above (s0 : Statedb T) (es : list journalEntry) (s : Statedb T) : Prop :=
  exists es1, history s0 (es1 ++ es) s.

Lemma above_ok s0 es s : above s0 es s -> st_ok s.
Proof. intros [es1 Hh]. by eapply history_ok. Qed.

Lemma above_app s0 es1 es s : above s0 (es1 ++ es) s -> above s0 es s.
Proof. intros [es2 Hh]. exists (es2 ++ es1). by rewrite <- app_assoc. Qed.

Lemma above_op s0 es s s' : above s0 es s -> op_step s s' -> above s0 es s'.
Proof.
  intros [es1 Hh] Hop. destruct (history_step _ _ _ _ Hh Hop) as [es2 Hh2].
  exists (es2 ++ es1). by rewrite <- app_assoc.
Qed.

(** A method of the state that is one step. *)
Definition one_step {A} (x : StM A) : Prop :=
  forall s, st_ok s -> wp x s (fun _ s' _ => op_step s s').

Lemma wp_above {A} s0 es (x : StM A) s :
  one_step x -> above s0 es s -> wp x s (fun _ s' _ => above s0 es s').
Proof.
  intros Hx Ha. eapply wp_mono; [apply Hx; by eapply above_ok|]. intros a s' o Hop. by eapply above_op.
Qed.

Lemma one_step_reader {A} a (none : A) (f : stateObject -> A) :
  one_step (with_object a none (fun o => go_ret (f o))).
Proof. intros s Hs. by apply reader_step. Qed.

Lemma one_step_getData a k c : one_step (getData a k c).
Proof. intros s Hs. by apply getData_step. Qed.

Lemma one_step_map {A B} (x : StM A) (f : A -> B) : one_step x -> one_step (v <- x ;; go_ret (f v)).
Proof. intros Hx s Hs. apply wp_bind. eapply wp_mono; [by apply Hx|]. intros v s' o Hop. by apply wp_ret. Qed.

(** Balances are not negative. *)
Lemma GetBalance_above s0 es a s :
  above s0 es s -> wp (GetBalance a) s (fun b s' _ => 0 <= b /\ above s0 es s').
Proof.
  intros Ha. pose proof (above_ok _ _ _ Ha) as Hs.
  eapply wp_mono; [by apply reader_quiet|]. intros b s' o [-> Hq]. split.
  - destruct (find_object s a) as [x|] eqn:Hf; cbn; [|lia]. by eapply find_object_fields.
  - eapply above_op; [done|]. by left.
Qed.

(** A snapshot, and the revert to it. *)
Lemma wp_snapshot {A} s0 es (k : nat -> StM A) s (Q : A -> Statedb T -> list Empty_set -> Prop) :
  above s0 es s ->
  (forall es1, above s0 (es1 ++ es) s -> wp (k (snapshot_of s0 (es1 ++ es))) s Q) ->
  wp (go_bind Snapshot_ k) s Q.
Proof.
  intros [es1 Hh] Hk. apply wp_bind. unfold Snapshot_. wp_seq. rewrite (history_entries _ _ _ Hh).
  apply Hk. exists []. exact Hh.
Qed.

Lemma wp_revert s0 es s :
  journal_ok (sd_curJournal s0) -> above s0 es s ->
  wp (RevertToSnapshot (snapshot_of s0 es)) s (fun _ s' _ => above s0 es s').
Proof.
  intros Hj [es1 Hh]. eapply wp_mono; [by eapply revert_history|]. intros u s' o Hh'. by exists [].
Qed.
End above.

Create HintDb onestep.
#[export] Hint Resolve SetBalance_step AddBalance_step SubBalance_step SetNonce2_step
  SetData_step SetCode_step CreateAccount_step Suicide_step AddLog_step AddRefund_step getData_step
  GetCode_step GetCodeSize_step reader_step : onestep.
#[export] Hint Extern 1 (one_step _) => (intros ? ?; eauto with onestep) : onestep.

(** ** Machines *)

Record m_ok (m : Machine) : Prop := {
  mo_stack : Forall (Z.le 0) (m_stack m);
  mo_gas : is_u64 (m_gas m);
  mo_pc : 0 <= m_pc m;
  mo_temp : 0 <= m_callGasTemp m
}.

Section rules.
Context {T : Type} {HT : TrieOps T}.
Implicit Types (m : Machine) (s : Statedb T).

Abbreviation StM A := (GoM (Statedb T) Empty_set A).
Abbreviation EM A := (@EM T HT A).

Lemma wp_on_state {A} (x : StM A) m s (Q : A -> Machine * Statedb T -> list Empty_set -> Prop) :
  wp x s (fun a s' o => Q a (m, s') o) -> wp (on_state x) (m, s) Q.
Proof. unfold wp, on_state. cbn. by destruct (x s) as [[[a s'] o]|]. Qed.

Lemma wp_machine m s (Q : Machine -> Machine * Statedb T -> list Empty_set -> Prop) :
  Q m (m, s) [] -> wp machine (m, s) Q.
Proof. done. Qed.

Lemma wp_update f m s (Q : unit -> Machine * Statedb T -> list Empty_set -> Prop) :
  Q tt (f m, s) [] -> wp (update f) (m, s) Q.
Proof. done. Qed.

Lemma wp_pop pc x st mem g rd t s (Q : Z -> Machine * Statedb T -> list Empty_set -> Prop) :
  Q x (mkMachine pc st mem g rd t, s) [] -> wp pop (mkMachine pc (x :: st) mem g rd t, s) Q.
Proof. done. Qed.

Lemma wp_peek pc x st mem g rd t s (Q : Z -> Machine * Statedb T -> list Empty_set -> Prop) :
  Q x (mkMachine pc (x :: st) mem g rd t, s) [] -> wp peek (mkMachine pc (x :: st) mem g rd t, s) Q.
Proof. done. Qed.

Lemma wp_set_top v pc x st mem g rd t s (Q : unit -> Machine * Statedb T -> list Empty_set -> Prop) :
  Q tt (mkMachine pc (v :: st) mem g rd t, s) [] -> wp (set_top v) (mkMachine pc (x :: st) mem g rd t, s) Q.
Proof. done. Qed.

Lemma wp_push v pc st mem g rd t s (Q : unit -> Machine * Statedb T -> list Empty_set -> Prop) :
  Q tt (mkMachine pc (v :: st) mem g rd t, s) [] -> wp (push v) (mkMachine pc st mem g rd t, s) Q.
Proof. done. Qed.

Lemma wp_opt {A} (o : option A) a m s (Q : A -> Machine * Statedb T -> list Empty_set -> Prop) :
  o = Some a -> Q a (m, s) [] -> wp (opt o) (m, s) Q.
Proof. apply wp_deref. Qed.

Lemma wp_back n x m s (Q : Z -> Machine * Statedb T -> list Empty_set -> Prop) :
  m_stack m !! n = Some x -> Q x (m, s) [] -> wp (back n) (m, s) Q.
Proof. intros Hx HQ. apply wp_bind. apply wp_machine. by eapply wp_opt. Qed.

Lemma wp_use_gas g m s (Q : bool -> Machine * Statedb T -> list Empty_set -> Prop) :
  (m_gas m < g -> Q false (set_gas (m_gas m) m, s) []) ->
  (g <= m_gas m -> Q true (set_gas (m_gas m - g) m, s) []) -> wp (use_gas g) (m, s) Q.
Proof.
  intros Hf Ht. unfold wp, use_gas, UseGas. cbn. destruct (Z.ltb_spec (m_gas m) g); auto.
Qed.
End rules.

(** The steps of an instruction on a machine whose stack is known. *)
Ltac em_step :=
  lazymatch goal with
  | |- wp (go_bind _ _) _ _ => apply wp_bind
  | |- wp (go_ret _) _ _ => apply wp_ret
  | |- wp pop _ _ => apply wp_pop
  | |- wp peek _ _ => apply wp_peek
  | |- wp (set_top _) _ _ => apply wp_set_top
  | |- wp (push _) _ _ => apply wp_push
  | |- wp machine _ _ => apply wp_machine
  | |- wp (update _) _ _ => apply wp_update
  | |- wp (on_state _) _ _ => apply wp_on_state
  | |- wp done_ _ _ => apply wp_ret
  | |- wp (fail_ _) _ _ => apply wp_ret
  end; cbn beta iota.

Ltac em_steps := repeat em_step.

(** ** What makes an operation safe *)

(** The greatest memory that can be paid for. *)
Definition max_memory : Z := 0xffffffffe0.

(** A machine after its operation has been priced. *)
Definition repriced (m m' : Machine) : Prop :=
  exists cost temp, 0 <= temp
    /\ m' = mkMachine (m_pc m) (m_stack m) (mkMemory (mem_store (m_mem m)) cost) (m_gas m) (m_returnData m) temp.

Lemma repriced_refl m : m_ok m -> repriced m m.
Proof. intros [_ _ _ Ht]. exists (mem_lastGasCost (m_mem m)), (m_callGasTemp m). by destruct m as [? ? []]. Qed.

Lemma repriced_trans m1 m2 m3 : repriced m1 m2 -> repriced m2 m3 -> repriced m1 m3.
Proof. intros (c & t & _ & ->) (c' & t' & ? & ->). by exists c', t'. Qed.

Lemma repriced_ok m m' : m_ok m -> repriced m m' -> m_ok m'.
Proof. intros [] (c & t & ? & ->). by constructor. Qed.

Section safe.
Context {T : Type} {HT : TrieOps T}.
Context (s0 : Statedb T) (es : list journalEntry) (G : Z).
Implicit Types (m : Machine) (s : Statedb T).

Abbreviation EM A := (@EM T HT A).
Abbreviation up s := (above s0 es s).

(** A machine that is left with at most [g]. *)
Definition post (g : Z) (ms : Machine * Statedb T) : Prop := m_ok ms.1 /\ up ms.2 /\ m_gas ms.1 <= g.

(** The memory of an operation is there. *)
Definition covers (f : option memorySizeFunc) (m : Machine) : Prop :=
  forall f', f = Some f' -> exists size, f' (m_stack m) = Some size /\ 0 <= size
    /\ size <= mem_Len (m_mem m) /\ size <= max_memory.

(** The price of an operation on at least [n] items: [lo] at least, and what it may
    give back ([credit]). *)
Definition prices (lo : Z) (n : nat) (credit : list Z -> Z -> Z) (f : option memorySizeFunc)
    (g : Z -> gasFunc) : Prop :=
  forall size m s, m_ok m -> up s -> (n <= length (m_stack m))%nat ->
    wp (g size) (m, s) (fun r ms' _ => repriced m ms'.1 /\ up ms'.2 /\
      match r with
      | inl c => lo + credit (m_stack m) (m_callGasTemp ms'.1) <= c
                 /\ 0 <= credit (m_stack m) (m_callGasTemp ms'.1)
                 /\ (is_Some f -> size <= max_memory)
      | inr _ => True
      end).

(** The execution of an operation. *)
Definition executes (lo : Z) (n : nat) (credit : list Z -> Z -> Z) (f : option memorySizeFunc)
    (x : EM (bytes * option SvmError)) : Prop :=
  forall m s, m_ok m -> up s -> (n <= length (m_stack m))%nat -> covers f m ->
    0 <= credit (m_stack m) (m_callGasTemp m) ->
    lo + m_gas m + credit (m_stack m) (m_callGasTemp m) <= G ->
    wp x (m, s) (fun _ ms' _ => post (m_gas m + credit (m_stack m) (m_callGasTemp m)) ms').

(** The size of the memory is known. *)
Definition sizes (n : nat) (f : option memorySizeFunc) : Prop :=
  forall f' st, f = Some f' -> Forall (Z.le 0) st -> (n <= length st)%nat ->
    exists size, f' st = Some size /\ 0 <= size.

Inductive op_ok (lo : Z) (o : operation) : Prop :=
| op_safe (n : nat) (credit : list Z -> Z -> Z) :
    (forall st, validateStack o st = None -> (n <= length st)%nat) ->
    sizes n (memorySize o) ->
    prices lo n credit (memorySize o) (gasCost o) ->
    executes lo n credit (memorySize o) (execute o) ->
    op_ok lo o.

(** ** Paying and executing *)

Lemma toWordSize_covers need :
  is_u64 need -> (SafeMul (toWordSize need) 32).2 = false ->
  need <= (SafeMul (toWordSize need) 32).1.
Proof.
  unfold is_u64, SafeMul, toWordSize, MaxUint64. intros Hn.
  destruct (Z.ltb_spec (2 ^ 64 - 1 - 31) need); [done|].
  destruct (Z.eqb_spec ((need + 31) / 32) 0); cbn [orb fst snd Z.eqb]; [intros _; zdiv|].
  intros _. rewrite u64_small by (unfold is_u64; zdiv). zdiv.
Qed.

Lemma bigUint64_fits v : 0 <= v -> (bigUint64 v).2 = false -> is_u64 v /\ (bigUint64 v).1 = v.
Proof.
  intros Hv. unfold bigUint64, big_Uint64. cbn. intros Hb%Z.ltb_ge.
  destruct (BitLen_bound v Hv) as [Hlt _]. assert (is_u64 v).
  { split; [done|]. eapply Z.lt_le_trans; [apply Hlt|]. apply Z.pow_le_mono_r; lia. }
  split; [done|]. by apply u64_small.
Qed.

(** The memory that is needed, when it can be asked for. *)
Lemma memory_needed_ok o n m s :
  sizes n (memorySize o) -> m_ok m -> (n <= length (m_stack m))%nat ->
  wp (memory_needed o) (m, s) (fun r ms' _ => ms' = (m, s) /\
    match r with
    | inl size => forall f, memorySize o = Some f ->
        exists need, f (m_stack m) = Some need /\ 0 <= need <= size
    | inr _ => True
    end).
Proof.
  intros Hs Hm Hn. unfold memory_needed. destruct (memorySize o) as [f|]; [|by apply wp_ret].
  destruct (Hs f (m_stack m) eq_refl (mo_stack _ Hm) Hn) as (need & Hf & Hpos).
  em_steps. eapply wp_opt; [exact Hf|].
  destruct (bigUint64 need) as [size over] eqn:Hb.
  destruct over; [by apply wp_ret|].
  destruct (bigUint64_fits need Hpos) as [Hu Hv]; [by rewrite Hb|]. rewrite Hb in Hv. cbn in Hv. subst size.
  pose proof (toWordSize_covers need Hu) as Hc.
  destruct (SafeMul (toWordSize need) 32) as [size over]. cbn in Hc. apply wp_ret. split; [done|].
  destruct over; [done|]. intros f' [= <-]. exists need. split; [done|]. split; [done|]. by apply Hc.
Qed.

(** The outcome of a round: the contract is done, or it goes on with less gas. *)
Definition round_post (m : Machine) (r : option (bytes * option SvmError)) (ms' : Machine * Statedb T) : Prop :=
  up ms'.2 /\ 0 <= m_gas ms'.1 <= m_gas m /\ (r = None -> m_ok ms'.1 /\ m_gas ms'.1 < m_gas m).

Lemma perform_ok lo o m s :
  op_ok lo o -> 0 <= lo -> 1 <= lo \/ reverts o || halts o = true ->
  m_ok m -> up s -> validateStack o (m_stack m) = None -> m_gas m <= G ->
  wp (perform o) (m, s) (fun r ms' _ => round_post m r ms').
Proof.
  intros [n credit Hstack Hsizes Hprices Hexec] Hlo Hgo Hm Hup Hv HG.
  specialize (Hstack _ Hv). pose proof (mo_gas _ Hm) as Hgas. unfold is_u64 in Hgas.
  unfold perform. apply wp_bind. eapply wp_mono; [by eapply memory_needed_ok|].
  intros needed ms1 o1 [-> Hneed]. destruct needed as [size|e].
  2: { apply wp_ret. split; [done|]. split; [cbn; lia|done]. }
  apply wp_bind. eapply wp_mono; [by apply Hprices|]. intros cost [m1 s1] o2 (Hrep & Hup1 & Hcost).
  cbn [fst snd] in Hrep, Hup1, Hcost. pose proof (repriced_ok _ _ Hm Hrep) as Hm1.
  destruct Hrep as (pc & temp & Htemp & Hm1eq).
  apply wp_bind. eapply wp_mono with (Q := fun paid ms2 _ => ms2.2 = s1 /\
    if (paid : bool) then exists c, cost = inl c /\ c <= m_gas m /\ ms2.1 = set_gas (m_gas m - c) m1
    else m_gas ms2.1 = m_gas m).
  { destruct cost as [c|]; [|apply wp_ret; by subst m1].
    apply wp_use_gas; cbn; intros Hc; subst m1; split; try done. by exists c. }
  intros paid [m2 s2] o3 [Hs2 Hpaid]. cbn [fst snd] in Hs2, Hpaid. subst s2.
  destruct paid; cbn [negb]; [|apply wp_ret; split; [done|]; split; [cbn; lia|done]].
  destruct Hpaid as (c & -> & Hc & ->). destruct Hcost as (Hcc & Hcr & Hsz).
  apply wp_bind. set (m3 := set_gas (m_gas m - c) m1).
  eapply wp_mono with (Q := fun _ ms3 _ => ms3.2 = s1 /\ exists mem, ms3.1 = set_mem mem m3 /\ size <= mem_Len mem).
  { destruct (Z.ltb_spec 0 size); [apply wp_update|apply wp_ret]; (split; [done|]).
    - eexists. split; [reflexivity|]. rewrite mem_Resize_len. lia.
    - exists (m_mem m3). split; [by destruct m3|]. unfold mem_Len. lia. }
  intros [] [m4 s4] o4 [Hs4 (mem & Hm4 & Hlen)]. cbn [fst snd] in Hs4, Hm4. subst s4.
  assert (Hm4ok : m_ok m4).
  { subst m4 m3 m1. destruct Hm. constructor; cbn; try done. unfold is_u64. lia. }
  assert (Hm4eq : m_stack m4 = m_stack m /\ m_gas m4 = m_gas m - c /\ m_callGasTemp m4 = m_callGasTemp m1
    /\ m_mem m4 = mem) by (by subst m4 m3 m1). destruct Hm4eq as (Hst4 & Hg4 & Ht4 & Hme4).
  apply wp_bind. eapply wp_mono; [apply Hexec|].
  - done.
  - done.
  - by rewrite Hst4.
  - intros f Hf. destruct (Hneed f Hf) as (need & Hfn & Hle). exists need. rewrite Hst4, Hme4.
    split; [done|]. specialize (Hsz ltac:(by rewrite Hf)). lia.
  - by rewrite Hst4, Ht4.
  - rewrite Hst4, Ht4, Hg4. lia.
  - intros [res err] [m5 s5] o5 (Hm5 & Hup5 & Hg5). cbn [fst snd] in Hm5, Hup5, Hg5.
    rewrite Hst4, Ht4, Hg4 in Hg5. apply wp_bind.
    eapply wp_mono with (Q := fun _ ms6 _ => ms6.2 = s5 /\ m_ok ms6.1 /\ m_gas ms6.1 = m_gas m5).
    { destruct (returns o); [apply wp_update|by apply wp_ret]. destruct Hm5. split; [done|]. split; [by constructor|done]. }
    intros [] [m6 s6] o6 (Hs6 & Hm6 & Hg6). cbn [fst snd] in Hs6, Hm6, Hg6. subst s6.
    pose proof (mo_gas _ Hm6) as Hr6. unfold is_u64 in Hr6.
    assert (Hfin : forall r, r <> None -> round_post m r (m6, s5)).
    { intros r Hr. split; [done|]. cbn. split; [lia|done]. }
    destruct err as [e|]; [apply wp_ret; by apply Hfin|].
    destruct (reverts o); [apply wp_ret; by apply Hfin|].
    destruct (halts o); [apply wp_ret; by apply Hfin|]. destruct Hgo as [Hgo|[=]].
    destruct (jumps o).
    + apply wp_ret. split; [done|]. cbn. split; [lia|]. intros _. split; [done|lia].
    + em_steps. split; [done|]. cbn. split; [lia|]. intros _.
      split; [|lia]. destruct Hm6. constructor; try done. apply u64_range.
Qed.
End safe.
