(* ===== verification/EvmOps.v ===== *)
(** * The operations are safe

    For every entry of the instruction set of the default rules: its price, and its
    execution on the stack and the memory that it has been given. The calls are safe
    when what they call is. *)

From Stdlib Require Import ZArith Lia.
From S2P Require Import Prelude Common BftHeader StateDb StateDbProofs Svm SvmProofs.
From S2P Require Import EvmWord Evm EvmAlu EvmJump EvmMemory EvmSafety.

Open Scope Z_scope.
Open Scope go_scope.

(** ** Results are not negative *)

Lemma truth_nonneg b : 0 <= truth b.
Proof. by destruct b. Qed.

Lemma SetBytes_nonneg b : 0 <= SetBytes b.
Proof.
  unfold SetBytes. assert (Hgen : forall acc, 0 <= acc -> 0 <= fold_left (fun acc x => acc * 256 + x mod 256) b acc).
  { induction b as [|x b IH]; intros acc Hacc; cbn; [done|]. apply IH.
    pose proof (Z.mod_pos_bound x 256 ltac:(lia)). lia. }
  by apply Hgen.
Qed.

Lemma u64_nonneg x : 0 <= u64 x.
Proof. apply u64_range. Qed.

Lemma sdiv_nonneg x y : 0 <= sdiv x y.
Proof. rewrite sdiv_spec. destruct (_ =? _); [done|apply wrap_word]. Qed.

Lemma smod_nonneg x y : 0 <= smod x y.
Proof. rewrite smod_spec. destruct (_ =? _); [done|apply wrap_word]. Qed.

Lemma exp_loop_nonneg n e b r : 0 <= r -> 0 <= exp_loop n e b r.
Proof.
  revert e b r. induction n as [|n IH]; intros e b r Hr; cbn; [done|]. apply IH.
  destruct (Z.odd e); [apply U256_nonneg|done].
Qed.

Lemma exp_word_nonneg x y : 0 <= x -> 0 <= exp_word x y.
Proof.
  intros Hx. unfold exp_word. repeat case_match; try lia. by apply exp_loop_nonneg.
Qed.

Lemma slt_nonneg x y : 0 <= slt x y.
Proof. unfold slt. repeat case_match; try lia. apply truth_nonneg. Qed.

Lemma sgt_nonneg x y : 0 <= sgt x y.
Proof. unfold sgt. repeat case_match; try lia. apply truth_nonneg. Qed.

Lemma byte_of_nonneg x y : 0 <= byte_of x y.
Proof.
  unfold byte_of, math_Byte. repeat case_match; try lia. apply Z.land_nonneg. by right.
Qed.

Lemma if_nonneg (b : bool) x y : 0 <= x -> 0 <= y -> 0 <= if b then x else y.
Proof. by destruct b. Qed.

Lemma signextend_nonneg x y : 0 <= signextend x y.
Proof. apply U256_nonneg. Qed.

Lemma lor_nonneg x y : 0 <= x -> 0 <= y -> 0 <= Z.lor x y.
Proof. intros. by apply Z.lor_nonneg. Qed.

Lemma lxor_nonneg x y : 0 <= x -> 0 <= y -> 0 <= Z.lxor x y.
Proof. intros. by apply Z.lxor_nonneg. Qed.

Lemma land_nonneg x y : 0 <= x -> 0 <= Z.land x y.
Proof. intros. apply Z.land_nonneg. by left. Qed.

Create HintDb nonneg.
#[export] Hint Resolve truth_nonneg SetBytes_nonneg u64_nonneg sdiv_nonneg smod_nonneg exp_word_nonneg
  slt_nonneg sgt_nonneg byte_of_nonneg if_nonneg signextend_nonneg U256_nonneg lor_nonneg lxor_nonneg
  land_nonneg Zle_0_nat Z.le_refl Z.le_0_1 : nonneg.

(** ** Prices *)

Section prices.
Context {T : Type} {HT : TrieOps T}.
Context (s0 : Statedb T) (es : list journalEntry).
Implicit Types (m : Machine) (s : Statedb T).

Abbreviation up s := (above s0 es s).

(** A price of at least [lo], and [P] when there is one. *)
Definition gas_ok (lo : Z) (P : Prop) (g : gasFunc) m : Prop :=
  forall s, up s -> wp g (m, s) (fun r ms' _ => repriced m ms'.1 /\ up ms'.2 /\
    match r with inl c => lo <= c /\ P | inr _ => True end).

Lemma gas_ok_const c m : m_ok m -> gas_ok c True (constGasFunc c) m.
Proof. intros Hm s Hup. apply wp_ret. split; [by apply repriced_refl|]. done. Qed.

Lemma gas_ok_ret c m : m_ok m -> gas_ok c True (go_ret (inl c)) m.
Proof. apply gas_ok_const. Qed.

Lemma gas_ok_memory size m : m_ok m -> gas_ok 0 (size <= max_memory) (memoryGasCost size) m.
Proof.
  intros Hm s Hup. unfold memoryGasCost. destruct (Z.eqb_spec size 0) as [->|].
  { apply wp_ret. split; [by apply repriced_refl|]. by repeat split. }
  destruct (Z.ltb_spec 0xffffffffe0 size).
  { apply wp_ret. split; [by apply repriced_refl|]. done. }
  em_steps. destruct (_ <? _).
  - em_steps. split; [|split; [done|split; [apply u64_nonneg|done]]].
    eexists _, (m_callGasTemp m). split; [apply Hm|]. reflexivity.
  - apply wp_ret. split; [by apply repriced_refl|]. by repeat split.
Qed.

Lemma SafeAdd_exact x y : 0 <= x -> 0 <= y -> (SafeAdd x y).2 = false -> (SafeAdd x y).1 = x + y.
Proof.
  unfold SafeAdd, MaxUint64. cbn [fst snd]. intros Hx Hy Ho%Z.ltb_ge. apply u64_small. unfold is_u64. lia.
Qed.

(** With more than that, from a machine that is priced. *)
Lemma gas_ok_add lo P g x m : 0 <= lo -> 0 <= x -> gas_ok lo P g m -> gas_ok (lo + x) P (gas_add g x) m.
Proof.
  intros Hlo Hx Hg s Hup. apply wp_bind. eapply wp_mono; [by apply Hg|].
  intros [c|e] [m1 s1] o (Hr & Hup1 & Hc); [|by apply wp_ret].
  pose proof (SafeAdd_exact c x ltac:(lia) Hx) as Ha. destruct (SafeAdd c x) as [sum over]. cbn in Ha.
  apply wp_ret. split; [done|]. split; [done|]. destruct over; [done|]. rewrite Ha by done.
  split; [lia|apply Hc].
Qed.

Lemma gas_ok_word i price x m :
  m_ok m -> m_stack m !! i = Some x -> gas_ok 0 True (word_gas i price) m.
Proof.
  intros Hm Hx s Hup. apply wp_bind. eapply wp_back; [exact Hx|]. unfold bigUint64.
  destruct (_ <? _); [apply wp_ret; split; [by apply repriced_refl|done]|].
  assert (Hnn : forall a b, 0 <= (SafeMul a b).1).
  { intros a b. unfold SafeMul. destruct (_ || _); [done|apply u64_nonneg]. }
  specialize (Hnn (toWordSize (big_Uint64 x)) price). destruct (SafeMul _ _) as [w over].
  apply wp_ret. split; [by apply repriced_refl|]. split; [done|]. by destruct over.
Qed.

(** One price after another. *)
Lemma gas_ok_seq lo P lo' P' g k m :
  gas_ok lo P g m -> m_ok m ->
  (forall c m', lo <= c -> P -> repriced m m' -> m_ok m' -> gas_ok lo' P' (k c) m') ->
  gas_ok lo' P' (r <- g ;; match r with inr e => go_ret (inr e) | inl c => k c end) m.
Proof.
  intros Hg Hm Hk s Hup. apply wp_bind. eapply wp_mono; [by apply Hg|].
  intros [c|e] [m1 s1] o (Hr & Hup1 & Hc); [|by apply wp_ret]. cbn [fst snd] in *.
  eapply wp_mono; [by apply (Hk c m1 (proj1 Hc) (proj2 Hc) Hr (repriced_ok _ _ Hm Hr))|].
  intros r [m2 s2] o2 (Hr2 & Hup2 & Hc2). split; [by eapply repriced_trans|]. done.
Qed.

Lemma gas_ok_mono lo lo' (P P' : Prop) g m : lo' <= lo -> (P -> P') -> gas_ok lo P g m -> gas_ok lo' P' g m.
Proof.
  intros Hlo HP Hg s Hup. eapply wp_mono; [by apply Hg|]. intros [c|e] ms o (? & ? & Hc); [|done].
  repeat (split; [done|]). split; [lia|]. apply HP, Hc.
Qed.

Lemma gas_ok_copy size base i price x m :
  m_ok m -> m_stack m !! i = Some x -> 0 <= base ->
  gas_ok base (size <= max_memory) (copy_gas size base i price) m.
Proof.
  intros Hm Hx Hb. unfold copy_gas.
  eapply gas_ok_seq; [apply gas_ok_add; [reflexivity|done|by apply gas_ok_memory]|done|].
  intros c m1 Hc HP Hrep Hm1.
  assert (Hst : m_stack m1 = m_stack m) by (by destruct Hrep as (? & ? & ? & ->)).
  eapply gas_ok_seq; [apply (gas_ok_word i price x); [done|by rewrite Hst]|done|].
  intros w m2 Hw _ _ Hm2. eapply (gas_ok_mono (c + w) _ True); [lia|done|].
  apply gas_ok_add; [lia|done|by apply gas_ok_ret].
Qed.

(** Prices of operations that give nothing back. *)
Lemma prices_of lo n f g :
  (forall size m, m_ok m -> (n <= length (m_stack m))%nat ->
    gas_ok lo (is_Some f -> size <= max_memory) (g size) m) ->
  prices s0 es lo n (fun _ _ => 0) f g.
Proof.
  intros Hg size m s Hm Hup Hn. eapply wp_mono; [by apply Hg|].
  intros [c|e] ms o (? & ? & Hc); repeat (split; [done|]); [|done]. split; [lia|]. split; [done|]. apply Hc.
Qed.

Lemma stack_item m n i : (n <= length (m_stack m))%nat -> (i < n)%nat -> exists x, m_stack m !! i = Some x.
Proof. intros. apply lookup_lt_is_Some_2. lia. Qed.

Lemma prices_const c n : prices s0 es c n (fun _ _ => 0) None (fun _ => constGasFunc c).
Proof.
  apply prices_of. intros size m Hm _. eapply gas_ok_mono; [reflexivity| |by apply gas_ok_const].
  by intros _ [? ?].
Qed.

Lemma prices_memory c n f :
  0 <= c -> prices s0 es c n (fun _ _ => 0) f (fun size => gas_add (memoryGasCost size) c).
Proof.
  intros Hc. apply prices_of. intros size m Hm _.
  eapply gas_ok_mono; [..|apply gas_ok_add; [reflexivity|done|by apply gas_ok_memory]]; [lia|done].
Qed.

Lemma prices_copy c n f i price :
  0 <= c -> (i < n)%nat -> prices s0 es c n (fun _ _ => 0) f (fun size => copy_gas size c i price).
Proof.
  intros Hc Hi. apply prices_of. intros size m Hm Hn. destruct (stack_item m n i Hn Hi) as [x Hx].
  eapply gas_ok_mono; [..|by eapply gas_ok_copy]; [lia|done].
Qed.
End prices.

(** ** Instructions on the stack *)

(** Open the machine, and as many items of the stack as there are. *)
Ltac open_machine :=
  intros m s Hm Hup Hn Hcov _ HG;
  destruct m as [pc st mem g rd t]; destruct Hm as [Hst Hg Hpc Ht];
  cbn [m_pc m_stack m_mem m_gas m_returnData m_callGasTemp] in *;
  repeat (destruct st as [|? st]; [cbn in Hn; lia|]);
  rewrite ?Forall_cons in Hst; destruct_and? Hst.

(** The machine at the end is as it should be. *)
Ltac close_machine :=
  split;
  [constructor; cbn [fst m_pc m_stack m_mem m_gas m_returnData m_callGasTemp set_pc set_stack set_mem
     set_gas set_returnData set_callGasTemp];
   [repeat apply Forall_cons_2|..]; eauto with nonneg; try assumption
  |split; [assumption|cbn; lia]].

Section instructions.
Context {T : Type} {HT : TrieOps T} {HE : EvmEnv}.
Context (s0 : Statedb T) (es : list journalEntry) (G : Z).
Context (ctx : VmContext) (contract : Frame) (input : bytes).
Implicit Types (m : Machine) (s : Statedb T).

Abbreviation EM A := (@EM T HT A).
Abbreviation up s := (above s0 es s).
Abbreviation runs lo n x := (executes s0 es G lo n (fun _ _ => 0) None x).

Lemma binary_runs lo f : (forall x y, 0 <= x -> 0 <= y -> 0 <= f x y) -> runs lo 2 (binary f).
Proof. intros Hf. open_machine. unfold binary. em_steps. close_machine. Qed.

Lemma binary_push_runs lo f : (forall x y, 0 <= x -> 0 <= y -> 0 <= f x y) -> runs lo 2 (binary_push f).
Proof. intros Hf. open_machine. unfold binary_push. em_steps. close_machine. Qed.

(** Instructions that push a value. *)
Lemma push_runs lo v : 0 <= v -> runs lo 0 (push v ;;; done_).
Proof. intros Hv. open_machine. em_steps. close_machine. Qed.

Lemma push_of_runs lo (f : Machine -> Z) :
  (forall m, m_ok m -> 0 <= f m) -> runs lo 0 (m <- machine ;; push (f m) ;;; done_).
Proof.
  intros Hf. open_machine. em_steps.
  assert (0 <= f (mkMachine pc st mem g rd t)) by (apply Hf; by constructor). close_machine.
Qed.

Lemma opAddmod_runs lo : runs lo 3 opAddmod.
Proof. open_machine. unfold opAddmod. em_steps. close_machine. Qed.

Lemma opMulmod_runs lo : runs lo 3 opMulmod.
Proof. open_machine. unfold opMulmod. em_steps. close_machine. Qed.

Lemma opSignExtend_runs lo : runs lo 2 opSignExtend.
Proof.
  open_machine. unfold opSignExtend. do 2 em_step. apply wp_bind. destruct (_ <? _); em_steps; close_machine.
Qed.

Lemma opNot_runs lo : runs lo 1 opNot.
Proof. open_machine. unfold opNot. em_steps. close_machine. Qed.

Lemma opIszero_runs lo : runs lo 1 opIszero.
Proof. open_machine. unfold opIszero. em_steps. close_machine. Qed.

Lemma opPop_runs lo : runs lo 1 opPop.
Proof. open_machine. unfold opPop. em_steps. close_machine. Qed.

Lemma done_runs lo : runs lo 0 done_.
Proof. open_machine. em_steps. close_machine. Qed.

Lemma opCallDataLoad_runs lo : runs lo 1 (opCallDataLoad input).
Proof. open_machine. unfold opCallDataLoad. em_steps. close_machine. Qed.

Lemma opBlockhash_runs lo : runs lo 1 (opBlockhash ctx).
Proof. open_machine. unfold opBlockhash, Hash_Big. em_steps. close_machine. Qed.

Lemma opGasprice_runs lo : (forall p, GasPrice ctx = Some p -> 0 <= p) -> runs lo 0 (opGasprice ctx).
Proof.
  intros Hp. unfold opGasprice. destruct (GasPrice ctx) as [p|]; [apply push_runs; by apply Hp|apply done_runs].
Qed.

Lemma makePush_runs lo size : runs lo 0 (makePush contract size).
Proof. open_machine. unfold makePush. em_steps. close_machine. Qed.

Lemma makeDup_runs lo n : (1 <= n)%nat -> runs lo n (makeDup n).
Proof.
  intros Hn1 m s Hm Hup Hn _ _ _. unfold makeDup. em_step. em_step. em_step.
  destruct (lookup_lt_is_Some_2 (m_stack m) (n - 1)) as [x Hx]; [lia|].
  eapply wp_opt; [unfold Stack_dup; by rewrite Hx|]. em_steps.
  destruct Hm as [Hst Hg Hpc Ht]. split; [|split; [done|cbn; lia]].
  constructor; try done. cbn. apply Forall_cons_2; [|done]. by eapply Forall_lookup_1 in Hst.
Qed.

Lemma makeSwap_runs lo n : runs lo (n + 1) (makeSwap n).
Proof.
  intros m s Hm Hup Hn _ _ _. unfold makeSwap. em_step. em_step. em_step.
  destruct (lookup_lt_is_Some_2 (m_stack m) 0) as [x Hx]; [lia|].
  destruct (lookup_lt_is_Some_2 (m_stack m) (n + 1 - 1)) as [y Hy]; [lia|].
  eapply wp_opt; [unfold Stack_swap; by rewrite Hx, Hy|]. em_steps.
  destruct Hm as [Hst Hg Hpc Ht]. split; [|split; [done|cbn; lia]].
  constructor; try done. cbn. repeat apply Forall_insert; try done; by eapply Forall_lookup_1 in Hst.
Qed.

(** ** Jumps *)

Lemma validJumpdest_total code dest : 0 <= dest -> exists b, validJumpdest code dest = Some b.
Proof.
  intros Hd. unfold validJumpdest. destruct (_ || _) eqn:Hout; [by eexists|].
  destruct (negb _); [by eexists|]. destruct (codeBitmap_spec code) as (bits & -> & Hseg).
  apply orb_false_iff in Hout as [_ Hlt%Z.leb_gt].
  destruct (Hseg (big_Uint64 dest)) as (b & Hb & _); [|by exists b]. split; [apply u64_nonneg|done].
Qed.

Lemma jump_to_ok pos pc st mem g rd t s :
  0 <= pos -> m_ok (mkMachine pc st mem g rd t) -> up s ->
  wp (jump_to contract pos) (mkMachine pc st mem g rd t, s) (fun _ ms' _ => post s0 es (g + 0) ms').
Proof.
  intros Hpos [] Hup. unfold jump_to. em_step.
  destruct (validJumpdest_total (f_Code contract) pos Hpos) as [b Hb]. eapply wp_opt; [exact Hb|].
  destruct b; em_steps; unfold big_Uint64; close_machine.
Qed.

Lemma opJump_runs lo : runs lo 1 (opJump contract).
Proof. open_machine. unfold opJump. em_steps. apply jump_to_ok; [done| |done]. by constructor. Qed.

Lemma opJumpi_runs lo : runs lo 2 (opJumpi contract).
Proof.
  open_machine. unfold opJumpi. em_steps. destruct (negb _); [|em_steps; close_machine].
  apply jump_to_ok; [done| |done]. by constructor.
Qed.

(** ** The state *)

Lemma wp_state {A} (x : GoM (Statedb T) Empty_set A) m s
    (Q : A -> Machine * Statedb T -> list Empty_set -> Prop) :
  one_step x -> up s -> (forall a s', up s' -> Q a (m, s') []) -> wp (on_state x) (m, s) Q.
Proof.
  intros Hx Hup HQ. apply wp_on_state. eapply wp_mono; [by apply wp_above|].
  intros a s' o Hs'. destruct o as [|[]]. by apply HQ.
Qed.

Lemma one_step_GetState a k : one_step (GetState a k).
Proof. apply one_step_map, one_step_getData. Qed.

Lemma opBalance_runs lo : runs lo 1 opBalance.
Proof.
  open_machine. unfold opBalance. em_step. em_step. em_step. em_step.
  eapply wp_mono; [by apply GetBalance_above|]. intros b s' o [Hb Hup']. em_steps. close_machine.
Qed.

Lemma opExtCodeSize_runs lo : runs lo 1 opExtCodeSize.
Proof.
  open_machine. unfold opExtCodeSize. em_step. em_step. em_step.
  apply wp_state; [auto with onestep|done|]. intros size s' Hup'. em_steps. close_machine.
Qed.

Lemma opSload_runs lo : runs lo 1 (opSload contract).
Proof.
  open_machine. unfold opSload. em_step. em_step. em_step.
  apply wp_state; [apply one_step_GetState|done|]. intros v s' Hup'. em_steps. close_machine.
Qed.

Lemma opSstore_runs lo : runs lo 2 (opSstore contract).
Proof.
  open_machine. unfold opSstore. do 5 em_step.
  apply wp_state; [intros s1 Hs1; by apply SetData_step|done|]. intros [] s' Hup'. em_steps. close_machine.
Qed.

Lemma opSuicide_runs lo : runs lo 1 (opSuicide contract).
Proof.
  open_machine. unfold opSuicide. em_step. em_step.
  eapply wp_mono; [by apply GetBalance_above|]. intros b s1 o1 [Hb Hup1]. do 3 em_step.
  apply wp_state; [auto with onestep|done|]. intros [] s2 Hup2. em_step.
  apply wp_state; [auto with onestep|done|]. intros r s3 Hup3. em_steps. close_machine.
Qed.
End instructions.
