(* ===== verification/EvmMemOps.v ===== *)
(** * The operations on the memory are safe

    The instructions that use the memory, whose size was paid for before. *)

From Stdlib Require Import ZArith Lia.
From S2P Require Import Prelude Common BftHeader StateDb StateDbProofs Svm SvmProofs.
From S2P Require Import EvmWord Evm EvmAlu EvmJump EvmMemory EvmSafety EvmOps.

Open Scope Z_scope.
Open Scope go_scope.

(** ** Reading and writing what was paid for *)

(** The memory has the bytes at an offset. *)
Definition has_bytes (mem : Memory) (off size : Z) : Prop :=
  0 <= off /\ 0 <= size /\ calcMemSize off size <= mem_Len mem /\ calcMemSize off size <= max_memory.

Lemma has_bytes_cases mem off size :
  has_bytes mem off size ->
  size = 0 \/ (0 < size /\ off + size <= mem_Len mem /\ i64 off = off /\ i64 size = size
    /\ u64 off = off /\ u64 size = size /\ u64 (off + size) = off + size).
Proof.
  unfold has_bytes, calcMemSize, max_memory. intros (Hoff & Hsize & Hlen & Hmax).
  destruct (Z.eqb_spec size 0); [by left|]. right. split; [lia|]. split; [lia|].
  rewrite !i64_small, !u64_small by (unfold is_u64; lia). done.
Qed.

Lemma slice_in_range mem off size :
  0 < size -> 0 <= off -> off + size <= mem_Len mem ->
  (size <? 0) || (off <? 0) || (mem_Len mem <? off + size) = false.
Proof.
  intros. rewrite !(proj2 (Z.ltb_ge _ _)) by lia. done.
Qed.

Lemma mem_Get_total mem off size :
  has_bytes mem off size -> exists data, mem_Get mem (big_Int64 off) (big_Int64 size) = Some data.
Proof.
  intros Hb. unfold mem_Get, big_Int64.
  destruct (has_bytes_cases _ _ _ Hb) as [->|(Hs & Hl & -> & -> & _)]; [by eexists|].
  rewrite (proj2 (Z.eqb_neq _ _)), (proj2 (Z.ltb_lt off _)) by lia.
  rewrite slice_in_range by (try done; apply Hb). by eexists.
Qed.

Lemma mem_GetPtr_total mem off size :
  has_bytes mem off size -> exists data, mem_GetPtr mem (big_Int64 off) (big_Int64 size) = Some data.
Proof.
  intros Hb. unfold mem_GetPtr, big_Int64.
  destruct (has_bytes_cases _ _ _ Hb) as [->|(Hs & Hl & -> & -> & _)]; [by eexists|].
  rewrite (proj2 (Z.eqb_neq _ _)), (proj2 (Z.ltb_lt off _)) by lia.
  rewrite slice_in_range by (try done; apply Hb). by eexists.
Qed.

Lemma mem_Set_total mem off size value :
  has_bytes mem off size -> exists mem', mem_Set mem (big_Uint64 off) (big_Uint64 size) value = Some mem'.
Proof.
  intros Hb. unfold mem_Set, big_Uint64.
  destruct (has_bytes_cases _ _ _ Hb) as [->|(Hs & Hl & _ & _ & -> & -> & ->)]; [by eexists|].
  rewrite (proj2 (Z.ltb_lt 0 size)), !(proj2 (Z.ltb_ge _ _)) by lia. by eexists.
Qed.

Lemma mem_Set32_total mem off val :
  has_bytes mem off 32 -> exists mem', mem_Set32 mem (big_Uint64 off) val = Some mem'.
Proof.
  intros Hb. unfold mem_Set32, big_Uint64.
  destruct (has_bytes_cases _ _ _ Hb) as [[=]|(Hs & Hl & _ & _ & -> & _ & ->)].
  rewrite !(proj2 (Z.ltb_ge _ _)) by lia. by eexists.
Qed.

Lemma mem_SetByte_total mem off b :
  has_bytes mem off 1 -> exists mem', mem_SetByte mem (big_Int64 off) b = Some mem'.
Proof.
  intros Hb. unfold mem_SetByte, big_Int64.
  destruct (has_bytes_cases _ _ _ Hb) as [[=]|(Hs & Hl & -> & _)].
  destruct Hb as (Hoff & _). rewrite (proj2 (Z.ltb_ge off 0)), (proj2 (Z.leb_gt _ off)) by lia. by eexists.
Qed.

(** ** The table of sizes *)

Lemma calcMemSize_nonneg off l : 0 <= off -> 0 <= l -> 0 <= calcMemSize off l.
Proof. unfold calcMemSize. destruct (_ =? _); lia. Qed.

Lemma BigMax_spec x y : BigMax x y = Z.max x y.
Proof. unfold BigMax. destruct (Z.ltb_spec x y); lia. Qed.

Lemma sizes_size n i j : (i < n)%nat -> (j < n)%nat -> sizes n (Some (mem_size i j)).
Proof.
  intros Hi Hj f st [= <-] Hst Hn. unfold mem_size, Stack_Back.
  destruct (lookup_lt_is_Some_2 st i) as [x Hx]; [lia|].
  destruct (lookup_lt_is_Some_2 st j) as [y Hy]; [lia|]. rewrite Hx, Hy. eexists. split; [done|].
  rewrite Forall_lookup in Hst. apply calcMemSize_nonneg; eauto.
Qed.

Lemma sizes_const n i l : (i < n)%nat -> 0 <= l -> sizes n (Some (mem_const i l)).
Proof.
  intros Hi Hl f st [= <-] Hst Hn. unfold mem_const, Stack_Back.
  destruct (lookup_lt_is_Some_2 st i) as [x Hx]; [lia|]. rewrite Hx. eexists. split; [done|].
  rewrite Forall_lookup in Hst. apply calcMemSize_nonneg; eauto.
Qed.

Lemma sizes_max n f g : sizes n (Some f) -> sizes n (Some g) -> sizes n (Some (mem_max f g)).
Proof.
  intros Hf Hg h st [= <-] Hst Hn. unfold mem_max.
  destruct (Hf f st eq_refl Hst Hn) as (x & -> & Hx). destruct (Hg g st eq_refl Hst Hn) as (y & -> & Hy).
  eexists. split; [done|]. rewrite BigMax_spec. lia.
Qed.

Lemma sizes_none n : sizes n None.
Proof. by intros f st [=]. Qed.

(** What the size of an operation tells of the memory. *)
Lemma covers_size i j m x y :
  covers (Some (mem_size i j)) m -> m_stack m !! i = Some x -> m_stack m !! j = Some y ->
  0 <= x -> 0 <= y -> has_bytes (m_mem m) x y.
Proof.
  intros Hc Hx Hy Hx0 Hy0. destruct (Hc _ eq_refl) as (size & Hs & _ & Hl & Hmax). unfold mem_size, Stack_Back in Hs.
  rewrite Hx, Hy in Hs. injection Hs as <-. done.
Qed.

Lemma covers_const i l m x :
  covers (Some (mem_const i l)) m -> m_stack m !! i = Some x -> 0 <= x -> 0 <= l -> has_bytes (m_mem m) x l.
Proof.
  intros Hc Hx Hx0 Hl0. destruct (Hc _ eq_refl) as (size & Hs & _ & Hl & Hmax). unfold mem_const, Stack_Back in Hs.
  rewrite Hx in Hs. injection Hs as <-. done.
Qed.

Lemma covers_max f g m :
  covers (Some (mem_max f g)) m ->
  (forall x, f (m_stack m) = Some x -> 0 <= x) -> (forall x, g (m_stack m) = Some x -> 0 <= x) ->
  covers (Some f) m /\ covers (Some g) m.
Proof.
  intros Hc Hf Hg. destruct (Hc _ eq_refl) as (size & Hs & ? & ? & ?). unfold mem_max in Hs.
  destruct (f (m_stack m)) as [x|] eqn:Hfx; [|done]. destruct (g (m_stack m)) as [y|] eqn:Hgy; [|done].
  injection Hs as <-. rewrite BigMax_spec in *. specialize (Hf x eq_refl). specialize (Hg y eq_refl).
  split; intros f' [= <-]; eexists; (split; [done|]); lia.
Qed.

(** ** The instructions *)

Section instructions.
Context {T : Type} {HT : TrieOps T} {HE : EvmEnv}.
Context (s0 : Statedb T) (es : list journalEntry) (G : Z).
Context (ctx : VmContext) (contract : Frame) (input : bytes).
Implicit Types (m : Machine) (s : Statedb T).

Abbreviation EM A := (@EM T HT A).
Abbreviation up s := (above s0 es s).
Abbreviation runs lo n f x := (executes s0 es G lo n (fun _ _ => 0) (Some f) x).

Lemma wp_mem_read off size m s (Q : bytes -> Machine * Statedb T -> list Empty_set -> Prop) :
  has_bytes (m_mem m) off size -> (forall data, Q data (m, s) []) -> wp (mem_read off size) (m, s) Q.
Proof.
  intros Hb HQ. unfold mem_read. em_steps. destruct (mem_Get_total _ _ _ Hb) as [data Hd].
  by eapply wp_opt.
Qed.

Lemma wp_mem_write off size value m s (Q : unit -> Machine * Statedb T -> list Empty_set -> Prop) :
  has_bytes (m_mem m) off size -> (forall mem, Q tt (set_mem mem m, s) []) ->
  wp (mem_write off size value) (m, s) Q.
Proof.
  intros Hb HQ. unfold mem_write. em_steps. destruct (mem_Set_total _ _ _ value Hb) as [mem Hd].
  eapply wp_opt; [exact Hd|]. em_steps. apply HQ.
Qed.

Ltac has_bytes :=
  lazymatch goal with
  | Hcov : covers _ _ |- _ =>
      first [eapply (covers_size _ _ _ _ _ Hcov); [reflexivity|reflexivity|done..]
            |eapply (covers_const _ _ _ _ Hcov); [reflexivity|done..]]
  end.

Lemma opSha3_runs lo : runs lo 2 memorySha3 opSha3.
Proof.
  open_machine. unfold opSha3. do 5 em_step. apply wp_mem_read; [has_bytes|]. intros data.
  em_steps. close_machine.
Qed.

Lemma copy_runs lo (data : Z -> Z -> bytes) :
  runs lo 3 memoryCallDataCopy
    (memOffset <- pop ;; dataOffset <- pop ;; length_ <- pop ;;
     mem_write memOffset length_ (data dataOffset length_) ;;; done_).
Proof.
  open_machine. do 7 em_step. apply wp_mem_write; [has_bytes|]. intros mem'. em_steps. close_machine.
Qed.

Lemma opReturnDataCopy_runs lo : runs lo 3 memoryReturnDataCopy opReturnDataCopy.
Proof.
  open_machine. unfold opReturnDataCopy. em_steps. destruct (_ || _); em_steps; [close_machine|].
  apply wp_mem_write; [has_bytes|]. intros mem'. em_steps. close_machine.
Qed.

Lemma opExtCodeCopy_runs lo : runs lo 4 memoryExtCodeCopy opExtCodeCopy.
Proof.
  open_machine. unfold opExtCodeCopy. do 9 em_step.
  apply (wp_state s0 es); [auto with onestep|done|]. intros code s' Hup'. em_step.
  apply wp_mem_write; [has_bytes|]. intros mem'. em_steps. close_machine.
Qed.

Lemma opMload_runs lo : runs lo 1 memoryMLoad opMload.
Proof.
  open_machine. unfold opMload. do 3 em_step. apply wp_mem_read; [has_bytes|]. intros data.
  em_steps. close_machine.
Qed.

Lemma opMstore_runs lo : runs lo 2 memoryMStore opMstore.
Proof.
  open_machine. unfold opMstore. em_steps. destruct (mem_Set32_total mem z z0) as [mem' Hm'].
  { has_bytes. }
  eapply wp_opt; [exact Hm'|]. em_steps. close_machine.
Qed.

Lemma opMstore8_runs lo : runs lo 2 memoryMStore8 opMstore8.
Proof.
  open_machine. unfold opMstore8. em_steps.
  destruct (mem_SetByte_total mem z (Z.land (big_Int64 z0) 0xff)) as [mem' Hm']; [has_bytes|].
  eapply wp_opt; [exact Hm'|]. em_steps. close_machine.
Qed.

Lemma mem_result_runs lo : runs lo 2 memoryReturn mem_result.
Proof.
  open_machine. unfold mem_result. em_steps.
  destruct (mem_GetPtr_total mem z z0) as [data Hd]; [has_bytes|].
  eapply wp_opt; [exact Hd|]. em_steps. close_machine.
Qed.

Lemma wp_pop_topics n pc st mem g rd t s (Q : list Hash -> Machine * Statedb T -> list Empty_set -> Prop) :
  (n <= length st)%nat -> (forall topics, Q topics (mkMachine pc (drop n st) mem g rd t, s) []) ->
  wp (pop_topics n) (mkMachine pc st mem g rd t, s) Q.
Proof.
  revert st Q. induction n as [|n IH]; intros st Q Hn HQ; cbn [pop_topics].
  { apply wp_ret. apply HQ. }
  destruct st as [|x st]; [cbn in Hn; lia|]. do 3 em_step. apply IH; [cbn in Hn; lia|].
  intros topics. em_steps. apply HQ.
Qed.

Lemma makeLog_runs lo n : runs lo (n + 2) memoryLog (makeLog ctx contract n).
Proof.
  intros m s Hm Hup Hn Hcov _ HG. destruct m as [pc st mem g rd t]; destruct Hm as [Hst Hg Hpc Ht];
  cbn [m_pc m_stack m_mem m_gas m_returnData m_callGasTemp] in *.
  destruct st as [|x [|y st]]; cbn in Hn; try lia. rewrite !Forall_cons in Hst. destruct_and! Hst.
  unfold makeLog. do 5 em_step. apply wp_pop_topics; [lia|]. intros topics. em_step.
  apply wp_mem_read; [has_bytes|]. intros data. em_step.
  apply (wp_state s0 es); [auto with onestep|done|]. intros [] s' Hup'. em_steps.
  split; [|split; [done|cbn; lia]]. constructor; cbn; try done. by apply Forall_drop.
Qed.
End instructions.
