(* ===== verification/EvmCallOps.v ===== *)
(** * The prices that read the state, and the operations that call are safe

    What a call gives to its callee, the stipend of a transfer included, is less than
    what the caller has paid for the call. *)

From Stdlib Require Import ZArith Lia.
From S2P Require Import Prelude Common BftHeader StateDb StateDbProofs Svm SvmProofs.
From S2P Require Import EvmWord Evm EvmAlu EvmJump EvmMemory EvmSafety EvmOps EvmMemOps.

Open Scope Z_scope.
Open Scope go_scope.

Section prices.
Context {T : Type} {HT : TrieOps T}.
Context (s0 : Statedb T) (es : list journalEntry).
Implicit Types (m : Machine) (s : Statedb T).

Abbreviation up s := (above s0 es s).

Lemma prices_exp n : (2 <= n)%nat -> prices s0 es 10 n (fun _ _ => 0) None (fun _ => gasExp defaultRules).
Proof.
  intros Hn2. apply prices_of. intros size m Hm Hn s Hup.
  destruct (stack_item m n 1 Hn ltac:(lia)) as [e He]. unfold gasExp. apply wp_bind.
  eapply wp_back; [exact He|].
  eapply (gas_ok_mono _ _ (u64 ((BitLen e + 7) / 8 * ExpByte (gas_table defaultRules)) + 10) _ True); [..|done].
  - pose proof (u64_nonneg ((BitLen e + 7) / 8 * ExpByte (gas_table defaultRules))). lia.
  - by intros _ [? ?].
  - apply gas_ok_add; [apply u64_nonneg|done|by apply gas_ok_ret].
Qed.

Lemma prices_log k n f : (2 <= n)%nat -> prices s0 es 375 n (fun _ _ => 0) f (fun size => makeGasLog size k).
Proof.
  intros Hn2. apply prices_of. intros size m Hm Hn s Hup.
  destruct (stack_item m n 1 Hn ltac:(lia)) as [x Hx]. unfold makeGasLog. apply wp_bind.
  eapply wp_back; [exact Hx|]. destruct (bigUint64 x) as [req over].
  destruct over; [apply wp_ret; split; [by apply repriced_refl|done]|].
  assert (Hg : gas_ok s0 es 375 (is_Some f -> size <= max_memory)
    (r <- gas_add (gas_add (memoryGasCost size) LogGas) (u64 (k * LogTopicGas)) ;;
     match r with
     | inr e => go_ret (inr e)
     | inl gas => let '(memorySizeGas, overflow) := SafeMul req LogDataGas in
                  if overflow then go_ret (inr errGasUintOverflow)
                  else gas_add (go_ret (inl gas)) memorySizeGas
     end) m); [|by apply Hg].
  eapply gas_ok_seq.
  - apply gas_ok_add; [|apply u64_nonneg|apply gas_ok_add; [reflexivity|done|by apply gas_ok_memory]]. done.
  - done.
  - intros c m' Hc HP Hrep Hm'. pose proof (u64_nonneg (k * LogTopicGas)).
    assert (Hnn : 0 <= (SafeMul req LogDataGas).1).
    { unfold SafeMul. destruct (_ || _); [done|apply u64_nonneg]. }
    destruct (SafeMul req LogDataGas) as [w over]. destruct over.
    { intros s' Hup'. apply wp_ret. split; [by apply repriced_refl|done]. }
    unfold LogGas in Hc. cbn in Hnn.
    eapply (gas_ok_mono _ _ (c + w) _ True); [lia|done|]. apply gas_ok_add; [lia|done|by apply gas_ok_ret].
Qed.

Lemma prices_sstore self n :
  (2 <= n)%nat -> prices s0 es 5000 n (fun _ _ => 0) None (fun _ => gasSStore defaultRules self).
Proof.
  intros Hn2. apply prices_of. intros size m Hm Hn s Hup.
  destruct (stack_item m n 1 Hn ltac:(lia)) as [y Hy]. destruct (stack_item m n 0 Hn ltac:(lia)) as [x Hx].
  unfold gasSStore. em_step. eapply wp_back; [exact Hy|]. em_step. eapply wp_back; [exact Hx|]. em_step.
  apply (wp_state s0 es); [apply one_step_GetState|done|]. intros current s' Hup'. cbn [negb IsConstantinople defaultRules].
  assert (Hret : forall c x, up x -> 5000 <= c ->
    wp (go_ret (inl c) : @gasFunc T HT) (m, x) (fun r ms' _ => repriced m ms'.1 /\ up ms'.2 /\
      match r with inl c => 5000 <= c /\ (is_Some (@None memorySizeFunc) -> size <= max_memory) | inr _ => True end)).
  { intros c x' Hx' Hc. apply wp_ret. split; [by apply repriced_refl|]. split; [done|]. split; [done|]. by intros [? ?]. }
  destruct (_ && _); [by apply Hret|]. destruct (_ && _); [|by apply Hret]. em_step.
  apply (wp_state s0 es); [auto with onestep|done|]. intros [] s2 Hup2. by apply Hret.
Qed.

Lemma prices_suicide self n :
  (1 <= n)%nat -> prices s0 es 0 n (fun _ _ => 0) None (fun _ => gasSuicide defaultRules self).
Proof.
  intros Hn2. apply prices_of. intros size m Hm Hn s Hup. destruct (stack_item m n 0 Hn ltac:(lia)) as [x Hx].
  unfold gasSuicide. cbn [IsEIP150 IsEIP158 defaultRules]. em_step.
  eapply wp_mono with (Q := fun c ms' _ => 0 <= c /\ ms'.1 = m /\ up ms'.2).
  { em_step. eapply wp_back; [exact Hx|]. em_step.
    eapply wp_mono with (Q := fun _ ms' _ => ms'.1 = m /\ up ms'.2).
    - em_step. apply (wp_state s0 es); [apply one_step_reader|done|]. intros b s1 Hup1.
      destruct b; [|by apply wp_ret]. em_step. apply (wp_state s0 es); [apply one_step_reader|done|].
      intros b s2 Hup2. by apply wp_ret.
    - intros b [m1 s1] o [Hm1 Hup1]. apply wp_ret. split; [|done]. by destruct b. }
  intros c [m1 s1] o (Hc & Hm1 & Hup1). cbn [fst snd] in Hm1, Hup1. subst m1. em_step.
  apply (wp_state s0 es); [apply one_step_reader|done|]. intros b s2 Hup2. em_step.
  eapply wp_mono with (Q := fun _ ms' _ => ms'.1 = m /\ up ms'.2).
  - destruct b; [by apply wp_ret|]. apply (wp_state s0 es); [auto with onestep|done|]. by intros [] s3 Hup3.
  - intros [] [m2 s3] o3 [Hm2 Hup3]. cbn [fst snd] in Hm2, Hup3. subst m2. apply wp_ret.
    split; [by apply repriced_refl|]. split; [done|]. split; [done|]. by intros [? ?].
Qed.

(** ** Calls *)

Lemma callGas_nonneg gt available base cost c : callGas gt available base cost = inl c -> 0 <= c.
Proof.
  unfold callGas. pose proof (u64_nonneg cost). pose proof (u64_nonneg (available - base)).
  destruct (0 <? CreateBySuicide gt).
  - destruct (_ || _); [intros [= <-]; zdiv|]. destruct (_ <? _); [done|]. by intros [= <-].
  - destruct (_ <? _); [done|]. by intros [= <-].
Qed.

(** The price of a call is its own price and what the callee gets. *)
Lemma call_cost_ok rules gas m s x (Q : Z + SvmError -> Machine * Statedb T -> list Empty_set -> Prop) :
  m_ok m -> 0 <= gas -> m_stack m !! 0%nat = Some x ->
  (forall r m', repriced m m' -> match r with inl c => c = gas + m_callGasTemp m' | inr _ => True end ->
    Q r (m', s) []) ->
  wp (call_cost rules gas) (m, s) Q.
Proof.
  intros Hm Hgas Hx HQ. unfold call_cost. em_step. em_step. em_step. eapply wp_back; [exact Hx|].
  assert (Hset : forall temp, 0 <= temp -> repriced m (set_callGasTemp temp m)).
  { intros temp Htemp. exists (mem_lastGasCost (m_mem m)), temp. split; [done|]. by destruct m as [? ? []]. }
  destruct (callGas _ _ _ _) as [temp|e] eqn:Hc.
  - apply callGas_nonneg in Hc. em_step. em_step. unfold gas_add. em_step. em_step.
    pose proof (SafeAdd_exact gas temp Hgas Hc) as Ha. destruct (SafeAdd gas temp) as [sum over]. cbn in Ha.
    apply wp_ret. apply HQ; [by apply Hset|]. destruct over; [done|]. by apply Ha.
  - em_steps. apply HQ; [by apply Hset|done].
Qed.

(** What a call may give back: the gas of the callee, with the stipend. *)
Definition value_credit (st : list Z) (temp : Z) : Z :=
  temp + if default 0 (st !! 2%nat) =? 0 then 0 else CallStipend.

Definition plain_credit (st : list Z) (temp : Z) : Z := temp.

Lemma call_memory_ok rules size gas m s x (f : option memorySizeFunc) (credit : list Z -> Z -> Z) (d : Z) :
  m_ok m -> up s -> 0 <= gas -> m_stack m !! 0%nat = Some x ->
  (forall temp, credit (m_stack m) temp = temp + d) -> 0 <= d -> 1 + d <= gas ->
  wp (call_memory rules size gas) (m, s) (fun r ms' _ => repriced m ms'.1 /\ up ms'.2 /\
    match r with
    | inl c => 1 + credit (m_stack m) (m_callGasTemp ms'.1) <= c
               /\ 0 <= credit (m_stack m) (m_callGasTemp ms'.1) /\ (is_Some f -> size <= max_memory)
    | inr _ => True
    end).
Proof.
  intros Hm Hup Hgas Hx Hcredit Hd Hlo. unfold call_memory. em_step.
  eapply wp_mono; [by apply (gas_ok_memory s0 es)|]. intros [c|e] [m1 s1] o (Hr & Hup1 & Hc); [|by apply wp_ret].
  cbn [fst snd] in Hr, Hup1. unfold gas_add. do 3 em_step. destruct Hc as [Hc Hsize].
  pose proof (SafeAdd_exact gas c Hgas Hc) as Ha. destruct (SafeAdd gas c) as [sum over]. cbn in Ha.
  em_step. destruct over; [by apply wp_ret|]. rewrite Ha by done.
  pose proof (repriced_ok _ _ Hm Hr) as Hm1.
  apply (call_cost_ok _ _ _ _ x); [done|lia|by destruct Hr as (? & ? & ? & ->)|].
  intros r m2 Hr2 Hc2. cbn [fst snd]. split; [by eapply repriced_trans|]. split; [done|].
  destruct r as [c2|]; [|done]. rewrite Hcredit, Hc2.
  pose proof (mo_temp _ (repriced_ok _ _ Hm1 Hr2)). split; [lia|]. split; [lia|done].
Qed.

Lemma prices_call n f : (7 <= n)%nat -> prices s0 es 1 n value_credit f (gasCall defaultRules).
Proof.
  intros Hn7 size m s Hm Hup Hn. destruct (stack_item m n 0 Hn ltac:(lia)) as [x Hx].
  destruct (stack_item m n 1 Hn ltac:(lia)) as [a Ha]. destruct (stack_item m n 2 Hn ltac:(lia)) as [v Hv].
  unfold gasCall. cbn [IsEIP158 defaultRules]. em_step. eapply wp_back; [exact Hv|]. em_step.
  eapply wp_back; [exact Ha|]. em_step.
  eapply wp_mono with (Q := fun _ ms' _ => ms'.1 = m /\ up ms'.2).
  { destruct (negb (v =? 0)); [|by apply wp_ret]. apply (wp_state s0 es); [apply one_step_reader|done|].
    by intros b s1 Hup1. }
  intros new [m1 s1] o [Hm1 Hup1]. cbn [fst snd] in Hm1, Hup1. subst m1.
  apply (call_memory_ok _ _ _ _ _ x _ _ (if v =? 0 then 0 else CallStipend)); try done.
  - destruct new, (v =? 0); done.
  - intros temp. unfold value_credit. by rewrite Hv.
  - by destruct (v =? 0).
  - destruct new, (v =? 0); done.
Qed.

Lemma prices_callcode n f : (7 <= n)%nat -> prices s0 es 1 n value_credit f (gasCallCode defaultRules).
Proof.
  intros Hn7 size m s Hm Hup Hn. destruct (stack_item m n 0 Hn ltac:(lia)) as [x Hx].
  destruct (stack_item m n 2 Hn ltac:(lia)) as [v Hv].
  unfold gasCallCode. em_step. eapply wp_back; [exact Hv|].
  apply (call_memory_ok _ _ _ _ _ x _ _ (if v =? 0 then 0 else CallStipend)); try done.
  - by destruct (v =? 0).
  - intros temp. unfold value_credit. by rewrite Hv.
  - by destruct (v =? 0).
  - by destruct (v =? 0).
Qed.

Lemma prices_plain_call n f :
  (6 <= n)%nat -> prices s0 es 1 n plain_credit f (gasDelegateCall defaultRules).
Proof.
  intros Hn6 size m s Hm Hup Hn. destruct (stack_item m n 0 Hn ltac:(lia)) as [x Hx].
  unfold gasDelegateCall. em_step.
  eapply wp_mono; [eapply (gas_ok_add s0 es 0); [done|..|by apply (gas_ok_memory s0 es)|done]; done|].
  intros [c|e] [m1 s1] o (Hr & Hup1 & Hc); [|by apply wp_ret]. cbn [fst snd] in Hr, Hup1.
  pose proof (repriced_ok _ _ Hm Hr) as Hm1. destruct Hc as [Hc Hsize]. cbn in Hc.
  apply (call_cost_ok _ _ _ _ x); [done|lia|by destruct Hr as (? & ? & ? & ->)|].
  intros r m2 Hr2 Hc2. cbn [fst snd]. split; [by eapply repriced_trans|]. split; [done|].
  destruct r as [c2|]; [|done]. unfold plain_credit. rewrite Hc2.
  pose proof (mo_temp _ (repriced_ok _ _ Hm1 Hr2)). split; [lia|]. split; [lia|done].
Qed.
End prices.

(** ** Calling *)

Section calls.
Context {T : Type} {HT : TrieOps T} {HE : EvmEnv}.
Context (s0 : Statedb T) (es : list journalEntry) (G : Z).
Implicit Types (m : Machine) (s : Statedb T).

Abbreviation StM A := (GoM (Statedb T) Empty_set A).
Abbreviation up s := (above s0 es s).

(** A callee that is safe with less gas than [G]: it returns, and gives back at most
    what it got. *)
Definition callee_ok {A} (f : Z -> StM (A * Z * option SvmError)) : Prop :=
  forall gas s, 0 <= gas < G -> up s -> wp (f gas) s (fun r s' _ => up s' /\ 0 <= r.1.2 <= gas).

Record callees_ok (callees : Callees) : Prop := {
  ok_Call : forall a i v, 0 <= v -> callee_ok (fun gas => do_Call callees a i gas v);
  ok_CallCode : forall a i v, 0 <= v -> callee_ok (fun gas => do_CallCode callees a i gas v);
  ok_DelegateCall : forall a i, callee_ok (fun gas => do_DelegateCall callees a i gas);
  ok_StaticCall : forall a i, callee_ok (fun gas => do_StaticCall callees a i gas);
  ok_Create : forall code v, 0 <= v -> callee_ok (fun gas => do_Create callees code gas v)
}.

Hypothesis HG : G <= 2 ^ 64.

(** The answer of a callee that got [gas]. *)
Lemma call_result_ok off size r gas pc st mem g rd t s :
  m_ok (mkMachine pc st mem g rd t) -> up s -> has_bytes mem off size -> 0 <= r.1.2 <= gas ->
  g + gas < G ->
  wp (call_result off size r) (mkMachine pc st mem g rd t, s) (fun _ ms' _ => post s0 es (g + gas) ms').
Proof.
  intros [Hst Hg Hpc Ht] Hup Hb Hr Hlt. destruct r as [[ret back] err]. cbn in *. unfold is_u64 in Hg.
  unfold call_result, return_gas. em_step. em_step. em_step.
  eapply wp_mono with (Q := fun _ ms' _ => ms'.2 = s /\ exists mem',
    ms'.1 = mkMachine pc ((if bool_decide (err <> None) then 0 else 1) :: st) mem' g rd t).
  { destruct (_ || _); [|apply wp_ret; by eauto]. apply wp_mem_write; [done|]. intros mem'. by eauto. }
  intros [] [m1 s1] o [Hs1 (mem' & Hm1)]. cbn [fst snd] in Hs1, Hm1. subst m1 s1. em_steps.
  split; [|split; [done|cbn; rewrite u64_small by (unfold is_u64; lia); lia]].
  constructor; cbn; try done; [|apply u64_range]. apply Forall_cons_2; [|done]. by case_bool_decide.
Qed.

Lemma value_call_runs n (f : Address -> bytes -> Z -> Z -> StM (bytes * Z * option SvmError)) :
  (7 <= n)%nat -> (forall a i v, 0 <= v -> callee_ok (fun gas => f a i gas v)) ->
  executes s0 es G 1 n value_credit (Some memoryCall) (value_call f).
Proof.
  intros Hn7 Hf m s Hm Hup Hn Hcov Hcr HGm. destruct m as [pc st mem g rd t]. pose proof Hm as Hmok.
  destruct Hm as [Hst Hg Hpc Ht]. cbn [m_pc m_stack m_mem m_gas m_returnData m_callGasTemp] in *.
  do 7 (destruct st as [|? st]; [cbn in Hn; lia|]). pose proof Hst as Hall.
  rewrite !Forall_cons in Hst. destruct_and! Hst.
  destruct (covers_max _ _ _ Hcov) as [Hret Hargs];
    [intros w [= <-]; by apply calcMemSize_nonneg..|].
  pose proof (covers_size _ _ _ _ _ Hret eq_refl eq_refl ltac:(done) ltac:(done)) as Hretb.
  pose proof (covers_size _ _ _ _ _ Hargs eq_refl eq_refl ltac:(done) ltac:(done)) as Hargb.
  cbn in Hretb, Hargb. unfold value_credit in *. cbn in Hcr, HGm |- *.
  unfold value_call. em_steps. apply wp_mem_read; [done|]. intros args. em_step.
  cbn [m_callGasTemp]. set (gas := if negb (U256 z1 =? 0) then u64 (t + CallStipend) else t).
  assert (Hgas : 0 <= gas <= t + (if z1 =? 0 then 0 else CallStipend)).
  { unfold gas, is_u64, CallStipend in *. revert Hcr HGm. destruct (Z.eqb_spec z1 0) as [->|];
      [change (negb (U256 0 =? 0)) with false; lia|].
    intros Hcr HGm.
    destruct (negb _); [rewrite u64_small by (unfold is_u64; lia)|]; lia. }
  clearbody gas. set (d := if z1 =? 0 then 0 else CallStipend) in *. clearbody d.
  unfold is_u64 in Hg. em_step. eapply wp_mono; [apply Hf; [apply U256_nonneg|lia|done]|].
  intros r s1 o [Hup1 Hr]. eapply wp_mono; [apply (call_result_ok _ _ _ gas)|]; try done; try lia.
  intros x ms o' (? & ? & ?). split; [done|]. split; [done|]. lia.
Qed.

Lemma plain_call_runs n (f : Address -> bytes -> Z -> StM (bytes * Z * option SvmError)) :
  (6 <= n)%nat -> (forall a i, callee_ok (fun gas => f a i gas)) ->
  executes s0 es G 1 n plain_credit (Some memoryDelegateCall) (plain_call f).
Proof.
  intros Hn7 Hf m s Hm Hup Hn Hcov Hcr HGm. destruct m as [pc st mem g rd t]. pose proof Hm as Hmok.
  destruct Hm as [Hst Hg Hpc Ht]. cbn [m_pc m_stack m_mem m_gas m_returnData m_callGasTemp] in *.
  do 6 (destruct st as [|? st]; [cbn in Hn; lia|]). pose proof Hst as Hall.
  rewrite !Forall_cons in Hst. destruct_and! Hst.
  destruct (covers_max _ _ _ Hcov) as [Hret Hargs];
    [intros w [= <-]; by apply calcMemSize_nonneg..|].
  pose proof (covers_size _ _ _ _ _ Hret eq_refl eq_refl ltac:(done) ltac:(done)) as Hretb.
  pose proof (covers_size _ _ _ _ _ Hargs eq_refl eq_refl ltac:(done) ltac:(done)) as Hargb.
  cbn in Hretb, Hargb. unfold plain_credit in *. cbn in Hcr, HGm |- *. unfold is_u64 in Hg.
  unfold plain_call. em_steps. apply wp_mem_read; [done|]. intros args. em_step.
  cbn [m_callGasTemp]. em_step. eapply wp_mono; [apply Hf; [lia|done]|].
  intros r s1 o [Hup1 Hr]. apply (call_result_ok _ _ _ t); try done; try lia.
Qed.

Lemma opCreate_runs n callees :
  (3 <= n)%nat -> callees_ok callees ->
  executes s0 es G 1 n (fun _ _ => 0) (Some memoryCreate) (opCreate defaultRules callees).
Proof.
  intros Hn3 Hcs m s Hm Hup Hn Hcov _ HGm. destruct m as [pc st mem g rd t].
  destruct Hm as [Hst Hg Hpc Ht]. cbn [m_pc m_stack m_mem m_gas m_returnData m_callGasTemp] in *.
  do 3 (destruct st as [|? st]; [cbn in Hn; lia|]). rewrite !Forall_cons in Hst. destruct_and! Hst.
  pose proof (covers_size _ _ _ _ _ Hcov eq_refl eq_refl ltac:(done) ltac:(done)) as Hb. cbn in Hb.
  unfold is_u64 in Hg. unfold opCreate. em_steps. apply wp_mem_read; [done|]. intros code. em_steps.
  cbn [m_gas IsEIP150 IsHomestead defaultRules andb]. set (gas := g - g / 64).
  assert (Hgas : 0 <= gas <= g) by (unfold gas; zdiv).
  apply wp_use_gas; cbn [m_gas]; [lia|]. intros _. em_step. em_step.
  eapply wp_mono; [apply (ok_Create _ Hcs); [done|lia|done]|]. intros r s1 o1 [Hup1 Hr].
  destruct r as [[[res addr] back] err]. cbn in Hr. cbn [set_gas m_gas m_pc m_stack m_mem m_returnData m_callGasTemp].
  unfold return_gas, create_result. em_steps.
  split; [|split; [done|cbn; rewrite u64_small by (unfold is_u64; lia); lia]].
  constructor; cbn; try done; [|apply u64_range]. apply Forall_cons_2; [|done].
  unfold Address_Big. auto with nonneg.
Qed.
End calls.
