(* ===== verification/EvmStore.v ===== *)
(** * What is stored is loaded

    Words and their bytes, and the two stores of a contract: the memory
    ([MSTORE], [MLOAD]) and the storage of its account ([SSTORE], [SLOAD]). *)

From Stdlib Require Import ZArith Lia.
From S2P Require Import Prelude Common BftHeader StateDb StateDbProofs Svm SvmProofs.
From S2P Require Import EvmWord Evm EvmAlu EvmJump EvmMemory EvmSafety EvmMemOps.

Open Scope Z_scope.
Open Scope go_scope.

(** ** Bytes of words *)

Lemma SetBytes_snoc l x : SetBytes (l ++ [x]) = SetBytes l * 256 + x mod 256.
Proof. unfold SetBytes. by rewrite fold_left_app. Qed.

Lemma SetBytes_zeros n b : SetBytes (replicate n 0 ++ b) = SetBytes b.
Proof. induction n as [|n IH]; [done|]. cbn. exact IH. Qed.

Lemma be_bytes_length n z : length (be_bytes n z) = n.
Proof. revert z. induction n as [|n IH]; intros z; cbn; [done|]. rewrite length_app, IH. cbn. lia. Qed.

Lemma SetBytes_be_bytes n z : SetBytes (be_bytes n z) = z mod 256 ^ Z.of_nat n.
Proof.
  revert z. induction n as [|n IH]; intros z; [cbn; by rewrite Z.mod_1_r|]. cbn [be_bytes].
  rewrite SetBytes_snoc, IH, Z.mod_mod by lia.
  rewrite Nat2Z.inj_succ, Z.pow_succ_r, (Z.rem_mul_r z 256) by lia. lia.
Qed.

Lemma ReadBits_word v : is_word v -> SetBytes (ReadBits v 32) = v.
Proof. intros Hv. unfold ReadBits. rewrite SetBytes_be_bytes. by apply Z.mod_small. Qed.

Lemma big_Bytes_value v : 0 <= v -> SetBytes (big_Bytes v) = v.
Proof.
  intros Hv. unfold big_Bytes. rewrite SetBytes_be_bytes. apply Z.mod_small. split; [done|].
  destruct (BitLen_bound v Hv) as [[_ Hlt] Hpos]. eapply Z.lt_le_trans; [exact Hlt|].
  change 256 with (2 ^ 8). rewrite <- Z.pow_mul_r by lia. apply Z.pow_le_mono_r; [lia|].
  rewrite Z2Nat.id by (apply Z.div_pos; lia). zdiv.
Qed.

Lemma big_Bytes_length v : is_word v -> (length (big_Bytes v) <= 32)%nat.
Proof.
  unfold is_word. intros Hv. unfold big_Bytes. rewrite be_bytes_length.
  assert (Hb : BitLen v <= 256).
  { unfold BitLen. destruct (Z.eqb_spec v 0); [lia|]. rewrite Z.abs_eq by lia.
    assert (Z.log2 v < 256) by (apply Z.log2_lt_pow2; lia). lia. }
  zdiv.
Qed.

Lemma BigToHash_word v : is_word v -> SetBytes (BigToHash v) = v.
Proof.
  intros Hv. unfold BigToHash, BytesToHash, right_align. pose proof (big_Bytes_length v Hv) as Hl.
  rewrite decide_False by (change HashLength with 32%nat; lia). rewrite SetBytes_zeros.
  apply big_Bytes_value, Hv.
Qed.

Lemma BytesToHash_BigToHash v : BytesToHash (BigToHash v) = BigToHash v.
Proof. apply right_align_id, right_align_length. Qed.

(** ** The memory *)

Lemma write_at_spec store off size value :
  (off + size <= length store)%nat -> length value = size ->
  length (write_at store off size value) = length store
  /\ take size (drop off (write_at store off size value)) = value
  /\ (forall i, (i < off \/ off + size <= i)%nat -> write_at store off size value !! i = store !! i).
Proof.
  intros Hl Hv. unfold write_at. rewrite (take_ge value) by lia. split; [|split].
  - rewrite !length_app, length_take, length_drop, Hv. lia.
  - rewrite drop_app_le by (rewrite length_take; lia). rewrite drop_ge by (rewrite length_take; lia).
    cbn. rewrite take_app_le by lia. apply take_ge. lia.
  - intros i [Hi|Hi].
    + rewrite lookup_app_l by (rewrite length_take; lia). by apply lookup_take_lt.
    + rewrite lookup_app_r by (rewrite length_take; lia). rewrite length_take.
      rewrite lookup_app_r by lia. rewrite lookup_drop. f_equal. lia.
Qed.

Section store.
Context {T : Type} {HT : TrieOps T}.
Implicit Types (s : Statedb T).

(** A word that MSTORE writes is the word that MLOAD reads at the same
    offset, in a memory that was paid for; the length of the memory and all
    its other bytes stay. *)
Theorem mstore_mload pc off v st mem g rd t s :
  is_word v -> has_bytes mem off 32 ->
  exists mem', opMstore (mkMachine pc (off :: v :: st) mem g rd t, s)
      = Some ([], None, (mkMachine pc st mem' g rd t, s), [])
    /\ mem_Len mem' = mem_Len mem
    /\ (forall i, (i < Z.to_nat off \/ Z.to_nat off + 32 <= i)%nat -> mem_store mem' !! i = mem_store mem !! i)
    /\ forall pc' st' g' rd' t' s',
         opMload (mkMachine pc' (off :: st') mem' g' rd' t', s')
         = Some ([], None, (mkMachine pc' (v :: st') mem' g' rd' t', s'), []).
Proof.
  intros Hv Hb. destruct (has_bytes_cases _ _ _ Hb) as [[=]|(_ & Hl & Hi & Hi32 & Hu & _ & Hend)].
  destruct Hb as (Hoff & _). unfold mem_Len in Hl.
  destruct (write_at_spec (mem_store mem) (Z.to_nat off) 32 (ReadBits v 32)) as (Hlen & Hread & Hframe);
    [lia|apply be_bytes_length|].
  set (mem' := mkMemory (write_at (mem_store mem) (Z.to_nat off) 32 (ReadBits v 32)) (mem_lastGasCost mem)).
  exists mem'. split; [|split; [|split]].
  - unfold opMstore, go_bind, pop, machine, opt, go_deref, update, done_, go_ret. cbn -[mem_Set32].
    unfold mem_Set32, big_Uint64, mem_Len. rewrite Hu, Hend, !(proj2 (Z.ltb_ge _ _)) by lia. done.
  - unfold mem_Len, mem'. cbn [mem_store]. by rewrite Hlen.
  - exact Hframe.
  - intros pc' st' g' rd' t' s'. assert (Hget : mem_Get mem' (big_Int64 off) (big_Int64 32) = Some (ReadBits v 32)).
    { unfold mem_Get, big_Int64, mem_Len. rewrite Hi, Hi32. cbn [mem_store mem'].
      rewrite Hlen, (proj2 (Z.ltb_lt off _)), !(proj2 (Z.ltb_ge _ _)) by lia. cbn [orb Z.eqb]. f_equal.
      unfold slice. replace (Z.to_nat (off + 32 - off)) with 32%nat by lia. exact Hread. }
    unfold opMload, mem_read, go_bind, pop, machine, opt, go_deref, push, update, done_, go_ret.
    cbn -[mem_Get big_Int64 SetBytes]. rewrite Hget. by rewrite ReadBits_word.
Qed.

(** ** The storage *)

(** The value that is read after it was written. *)
Lemma SetData_read a k v s o :
  st_ok s -> find_object s a = Some o -> readable (sd_trie s) o ->
  wp (SetData a k v) s (fun _ s' _ => st_ok s' /\ exists o', find_object s' a = Some o'
    /\ read_state (sd_trie s') o' k false = v).
Proof.
  intros Hs Hf [_ Hread]. destruct (Hread k false) as [prev Hprev].
  eapply wp_mono with (Q := fun _ s' _ => op_step s s' /\ exists o', find_object s' a = Some o'
    /\ read_state (sd_trie s') o' k false = v).
  2: { intros u s' o1 [Hop Ho]. split; [by eapply op_step_ok|done]. }
  pose proof (SetData_step s a k v Hs) as Hstep.
  assert (Hw : wp (SetData a k v) s (fun _ s' _ => exists o', find_object s' a = Some o'
    /\ read_state (sd_trie s') o' k false = v)).
  2: { unfold wp in *. destruct (SetData a k v s) as [[[u s'] o1]|]; [done|done]. }
  unfold SetData, with_object. apply wp_bind. eapply wp_mono; [by apply getStateObject_spec|].
  intros r s1 o1 (-> & Hq & Hf1 & _). rewrite Hf. wp_seq.
  assert (Ht : sd_trie s1 = sd_trie s) by (symmetry; apply Hq). rewrite Ht.
  pose proof (getState_equiv (sd_trie s) o k false) as [He Hd].
  assert (Hval : read_state (sd_trie s) o k false = prev) by (unfold read_state; by rewrite Hprev).
  destruct (getState o (sd_trie s) k false) as [o' r]. cbn [fst snd] in *. subst r.
  destruct (find_object_fields _ _ _ Hs Hf) as (Hdel & _). unfold put_object. apply wp_bind, wp_modify.
  case_bool_decide as Hpv.
  - apply wp_ret. exists o'. split; [apply find_put; congruence|]. cbn. rewrite Ht, <- (oe_state _ _ _ He). congruence.
  - unfold journal_add. wp_seq. exists (setState o' k v). split.
    + apply find_put. cbn. congruence.
    + cbn. rewrite read_state_setState. by rewrite bool_decide_true.
Qed.

(** A word that SSTORE writes is the word that SLOAD reads for the same
    key, for a contract that has an account whose storage can be read,
    whatever the storage had before. *)
Theorem sstore_sload contract pc key v st mem g rd t s o :
  is_word v -> st_ok s -> find_object s (f_self contract) = Some o -> readable (sd_trie s) o ->
  exists s', opSstore contract (mkMachine pc (key :: v :: st) mem g rd t, s)
      = Some ([], None, (mkMachine pc st mem g rd t, s'), [])
    /\ forall pc' st' mem' g' rd' t', exists s2,
         opSload contract (mkMachine pc' (key :: st') mem' g' rd' t', s')
         = Some ([], None, (mkMachine pc' (v :: st') mem' g' rd' t', s2), []).
Proof.
  intros Hv Hs Hf Hr.
  destruct (wp_no_output _ s (fun _ s' => st_ok s' /\ exists o', find_object s' (f_self contract) = Some o'
    /\ read_state (sd_trie s') o' (BigToHash key) false = BigToHash v)
    (SetData_read (f_self contract) (BigToHash key) (BigToHash v) s o Hs Hf Hr))
    as ([] & s' & Hset & Hs' & o' & Hf' & Hread).
  exists s'. split.
  - unfold opSstore, SetState, go_bind, pop, on_state, done_, go_ret. cbn -[SetData BigToHash]. by rewrite Hset.
  - intros pc' st' mem' g' rd' t'.
    pose proof (getData_value (f_self contract) (BigToHash key) false s' Hs') as Hval. unfold value_of in Hval.
    rewrite Hf' in Hval. cbn [from_option] in Hval. rewrite Hread in Hval.
    destruct (getData (f_self contract) (BigToHash key) false s') as [[[data s2] out]|] eqn:Hget; [|done].
    injection Hval as ->. exists s2. destruct out as [|[]].
    unfold opSload, GetState, GetData, go_bind, peek, on_state, set_top, done_, go_ret. cbn -[getData BigToHash SetBytes BytesToHash].
    rewrite Hget. cbn -[BigToHash SetBytes BytesToHash]. by rewrite BytesToHash_BigToHash, BigToHash_word.
Qed.
End store.

(** ** Examples *)

Lemma mstore_mload_witness :
  exists mem', opMstore (mkMachine 0 [4; 77] (mkMemory (replicate 64 0) 6) 100 [] 0, empty_state)
      = Some ([], None, (mkMachine 0 [] mem' 100 [] 0, empty_state), [])
    /\ opMload (mkMachine 1 [4] mem' 90 [] 0, empty_state)
      = Some ([], None, (mkMachine 1 [77] mem' 90 [] 0, empty_state), []).
Proof.
  destruct (mstore_mload 0 4 77 [] (mkMemory (replicate 64 0) 6) 100 [] 0 empty_state) as (mem' & Hst & _ & _ & Hld).
  - split; [discriminate|reflexivity].
  - repeat split; discriminate.
  - exists mem'. split; [exact Hst|apply Hld].
Defined.

(** The second account of the example has an object with data. *)
Lemma sstore_sload_witness :
  exists s' s2, opSstore (mkFrame [1] [2] 0 0 [] [2]) (mkMachine 0 [5; 77] NewMemory 100 [] 0, example_statedb)
      = Some ([], None, (mkMachine 0 [] NewMemory 100 [] 0, s'), [])
    /\ opSload (mkFrame [1] [2] 0 0 [] [2]) (mkMachine 1 [5] NewMemory 100 [] 0, s')
      = Some ([], None, (mkMachine 1 [77] NewMemory 100 [] 0, s2), []).
Proof.
  destruct (find_object example_statedb [2]) as [o|] eqn:Hf; [|vm_compute in Hf; discriminate Hf].
  destruct (sstore_sload (mkFrame [1] [2] 0 0 [] [2]) 0 5 77 [] NewMemory 100 [] 0 example_statedb o)
    as (s' & Hst & Hld).
  - split; [discriminate|reflexivity].
  - apply example_statedb_ok.
  - exact Hf.
  - split.
    + unfold loadCode. destruct (o_code o); [by eexists|]. destruct (_ =? _)%nat; [by eexists|].
      cbn. destruct (_ !! _); by eexists.
    + intros key b. unfold getState. destruct (if b then _ else _); [by eexists|].
      destruct (o_cachedStorage o !! key); [by eexists|]. cbn. destruct (_ !! _); by eexists.
  - destruct (Hld 1 [] NewMemory 100 [] 0) as [s2 Hs2]. exists s', s2. split; [exact Hst|exact Hs2].
Defined.
