(* ===== verification/EvmRun.v ===== *)
(** * A contract runs to its end

    The calls between contracts, the instruction set and the loop of the interpreter,
    by induction on the gas: a round leaves less gas than it found, and so does a
    call. *)

From Stdlib Require Import ZArith Lia.
From S2P Require Import Prelude Common BftHeader StateDb StateDbProofs Svm SvmProofs.
From S2P Require Import EvmWord Evm EvmAlu EvmJump EvmMemory EvmSafety EvmOps EvmMemOps EvmCallOps.

Open Scope Z_scope.
Open Scope go_scope.

(** What is assumed of the precompiled contracts: they have a price. *)
Class EvmLaws {HE : EvmEnv} := {
  required_gas : forall rules a p input, precompiles rules a = Some p -> 0 <= pc_RequiredGas p input
}.

(** ** Calls *)

Section calls.
Context {T : Type} {HT : TrieOps T} {HE : EvmEnv}.
Implicit Types (s : Statedb T).

Abbreviation StM A := (GoM (Statedb T) Empty_set A).

(** A runner that is safe for contracts with less gas than [G]. *)
Definition run_ok (G : Z) (run : Runner) : Prop :=
  forall s0 es f input readOnly s,
    journal_ok (sd_curJournal s0) -> 0 <= f_value f -> 0 <= f_Gas f < G -> above s0 es s ->
    wp (run f input readOnly) s (fun r s' _ => above s0 es s' /\ 0 <= r.1.2 <= f_Gas f).

Context (s0 : Statedb T) (es : list journalEntry) (G : Z) (run : Runner) (depth : Z).
Hypothesis Hj : journal_ok (sd_curJournal s0).
Hypothesis Hrun : run_ok G run.

Abbreviation up s := (above s0 es s).

Lemma settle_ok es1 r gas s :
  above s0 (es1 ++ es) s -> 0 <= r.1.2 <= gas ->
  wp (settle (snapshot_of s0 (es1 ++ es)) r) s (fun r' s' _ => up s' /\ 0 <= r'.1.2 <= gas).
Proof.
  intros Hup Hr. destruct r as [[ret left_] [e|]]; cbn in Hr; unfold settle.
  - apply wp_bind. eapply wp_mono; [by apply wp_revert|]. intros [] s' o Hs'. apply wp_ret.
    split; [by apply (above_app _ es1)|]. destruct (bool_decide _); cbn; [lia|].
    unfold UseGas. rewrite Z.ltb_irrefl. cbn. lia.
  - apply wp_ret. split; [by apply (above_app _ es1)|done].
Qed.

Lemma transfer_above es' a b v s :
  above s0 es' s -> wp (transfer a b v) s (fun _ s' _ => above s0 es' s').
Proof.
  intros Hup. unfold transfer. apply wp_bind. eapply wp_mono; [by apply wp_above; [auto with onestep|]|].
  intros [] s' o Hs'. destruct (_ =? _); [|by apply wp_ret]. by apply wp_above; [auto with onestep|].
Qed.

Lemma canTransfer_above es' a v s :
  above s0 es' s -> wp (canTransfer a v) s (fun _ s' _ => above s0 es' s').
Proof. intros Hup. apply wp_above; [|done]. apply one_step_map, one_step_reader. Qed.

Ltac reads := eapply wp_mono; [apply wp_above; [first [apply one_step_reader|solve [auto with onestep]]|eassumption]|]; cbn beta.

Lemma EVM_Call_ok caller addr input gas v s :
  0 <= gas < G -> 0 <= v -> up s ->
  wp (EVM_Call defaultRules run depth caller addr input gas v) s (fun r s' _ => up s' /\ 0 <= r.1.2 <= gas).
Proof.
  intros Hgas Hv Hup. unfold EVM_Call. destruct (_ <? _); [apply wp_ret; split; [done|cbn; lia]|].
  apply wp_bind. eapply wp_mono; [by apply (canTransfer_above es)|]; cbn beta. intros can s1 o1 Hs1.
  destruct (negb can); [apply wp_ret; split; [done|cbn; lia]|].
  apply (wp_snapshot s0 es); [done|]. intros es1 Hs1'. clear Hs1. apply wp_bind. reads. intros ex s2 o2 Hs2.
  destruct (_ && _); [apply wp_ret; split; [by apply (above_app _ es1)|cbn; lia]|].
  apply wp_bind. eapply wp_mono with (Q := fun _ s' _ => above s0 (es1 ++ es) s').
  { destruct ex; [by apply wp_ret|]. by apply wp_above; [auto with onestep|]. }
  intros [] s3 o3 Hs3. apply wp_bind. eapply wp_mono; [by apply (transfer_above (es1 ++ es))|]; cbn beta. intros [] s4 o4 Hs4.
  apply wp_bind. reads. intros ch s5 o5 Hs5. apply wp_bind. reads. intros code s6 o6 Hs6.
  apply wp_bind. eapply wp_mono; [by apply (Hrun s0 (es1 ++ es))|]; cbn beta. intros r s7 o7 [Hs7 Hr].
  by apply settle_ok.
Qed.

Lemma CallCode_ok caller addr input gas v s :
  0 <= gas < G -> 0 <= v -> up s ->
  wp (CallCode run depth caller addr input gas v) s (fun r s' _ => up s' /\ 0 <= r.1.2 <= gas).
Proof.
  intros Hgas Hv Hup. unfold CallCode. destruct (_ <? _); [apply wp_ret; split; [done|cbn; lia]|].
  apply wp_bind. eapply wp_mono; [by apply (canTransfer_above es)|]; cbn beta. intros can s1 o1 Hs1.
  destruct (negb can); [apply wp_ret; split; [done|cbn; lia]|].
  apply (wp_snapshot s0 es); [done|]. intros es1 Hs1'. clear Hs1.
  apply wp_bind. reads. intros ch s5 o5 Hs5. apply wp_bind. reads. intros code s6 o6 Hs6.
  apply wp_bind. eapply wp_mono; [by apply (Hrun s0 (es1 ++ es))|]; cbn beta. intros r s7 o7 [Hs7 Hr].
  by apply settle_ok.
Qed.

Lemma DelegateCall_ok parent addr input gas s :
  0 <= gas < G -> 0 <= f_value parent -> up s ->
  wp (DelegateCall run depth parent addr input gas) s (fun r s' _ => up s' /\ 0 <= r.1.2 <= gas).
Proof.
  intros Hgas Hv Hup. unfold DelegateCall. destruct (_ <? _); [apply wp_ret; split; [done|cbn; lia]|].
  apply (wp_snapshot s0 es); [done|]. intros es1 Hs1'. clear Hup.
  apply wp_bind. reads. intros ch s5 o5 Hs5. apply wp_bind. reads. intros code s6 o6 Hs6.
  apply wp_bind. eapply wp_mono; [by apply (Hrun s0 (es1 ++ es))|]; cbn beta. intros r s7 o7 [Hs7 Hr].
  by apply settle_ok.
Qed.

Lemma StaticCall_ok caller addr input gas s :
  0 <= gas < G -> up s ->
  wp (StaticCall run depth caller addr input gas) s (fun r s' _ => up s' /\ 0 <= r.1.2 <= gas).
Proof.
  intros Hgas Hup. unfold StaticCall. destruct (_ <? _); [apply wp_ret; split; [done|cbn; lia]|].
  apply (wp_snapshot s0 es); [done|]. intros es1 Hs1'. clear Hup.
  apply wp_bind. reads. intros ch s5 o5 Hs5. apply wp_bind. reads. intros code s6 o6 Hs6.
  apply wp_bind. eapply wp_mono; [by apply (Hrun s0 (es1 ++ es))|]; cbn beta. intros r s7 o7 [Hs7 Hr].
  by apply settle_ok.
Qed.

(** The code of a new contract is paid for and stored. *)
Definition store_code (address : Address) (ret : bytes) (exceeded : bool) (gas_left : Z) (err : option SvmError)
    : StM (Z * option SvmError) :=
  match err with
  | None =>
      if exceeded then go_ret (gas_left, None)
      else
        let '(gas_left', ok) := UseGas gas_left (u64 (Z.of_nat (length ret) * CreateDataGas)) in
        if ok then SetCode address (Some ret) ;;; go_ret (gas_left', None)
        else go_ret (gas_left', Some ErrCodeStoreOutOfGas)
  | Some e => go_ret (gas_left, Some e)
  end.

Lemma store_code_ok es' address ret exceeded g err s :
  above s0 es' s -> 0 <= g ->
  wp (store_code address ret exceeded g err) s (fun r s' _ => above s0 es' s' /\ 0 <= r.1 <= g).
Proof.
  intros Hup Hg. unfold store_code. destruct err as [e|]; [apply wp_ret; split; [done|cbn; lia]|].
  destruct exceeded; [apply wp_ret; split; [done|cbn; lia]|].
  pose proof (u64_nonneg (Z.of_nat (length ret) * CreateDataGas)).
  unfold UseGas. destruct (Z.ltb_spec g (u64 (Z.of_nat (length ret) * CreateDataGas))).
  - apply wp_ret. split; [done|cbn; lia].
  - apply wp_bind. eapply wp_mono; [apply wp_above; [auto with onestep|done]|].
    intros [] s' o Hs'. apply wp_ret. split; [done|cbn; lia].
Qed.

Lemma EVM_create_ok caller code gas v address s :
  0 <= gas < G -> 0 <= v -> up s ->
  wp (EVM_create defaultRules run depth caller code gas v address) s
    (fun r s' _ => up s' /\ 0 <= r.1.2 <= gas).
Proof.
  intros Hgas Hv Hup. unfold EVM_create. destruct (_ <? _); [apply wp_ret; split; [done|cbn; lia]|].
  apply wp_bind. eapply wp_mono; [by apply (canTransfer_above es)|]; cbn beta. intros can s1 o1 Hs1.
  destruct (negb can); [apply wp_ret; split; [done|cbn; lia]|].
  apply wp_bind. reads. intros nonce s2 o2 Hs2. apply wp_bind. reads. intros count s3 o3 Hs3.
  apply wp_bind. reads. intros [] s4 o4 Hs4. apply wp_bind. reads. intros ch s5 o5 Hs5.
  apply wp_bind. reads. intros n s6 o6 Hs6.
  destruct (_ || _); [apply wp_ret; split; [done|cbn; lia]|].
  apply (wp_snapshot s0 es); [done|]. intros es1 Hs6'. clear Hs6.
  apply wp_bind. reads. intros [] s7 o7 Hs7. cbn [IsEIP158 IsHomestead defaultRules andb orb].
  apply wp_bind. reads. intros [] s8 o8 Hs8.
  apply wp_bind. eapply wp_mono; [by apply (transfer_above (es1 ++ es))|]; cbn beta. intros [] s9 o9 Hs9.
  apply wp_bind. eapply wp_mono; [by apply (Hrun s0 (es1 ++ es))|]; cbn beta.
  intros [[ret g] err] s10 o10 [Hs10 Hr]. cbn [fst snd f_Gas] in Hr.
  apply wp_bind. eapply wp_mono; [apply (store_code_ok (es1 ++ es) address ret _ g err _ Hs10); lia|].
  intros [g2 err2] s11 o11 [Hs11 Hg2]. cbn [fst] in Hg2. apply wp_bind.
  eapply wp_mono with (Q := fun g' s' _ => up s' /\ 0 <= g' <= gas).
  - destruct (_ || _).
    + apply wp_bind. eapply wp_mono; [by apply wp_revert|]. intros [] s12 o12 Hs12. apply wp_ret.
      split; [by apply (above_app _ es1)|]. destruct (bool_decide _); [lia|].
      unfold UseGas. rewrite Z.ltb_irrefl. cbn. lia.
    + apply wp_ret. split; [by apply (above_app _ es1)|lia].
  - intros g3 s12 o12 [Hs12 Hg3]. by apply wp_ret.
Qed.

Lemma callees_of_ok contract :
  0 <= f_value contract -> callees_ok s0 es G (callees_of defaultRules run depth contract).
Proof.
  intros Hv. constructor; cbn.
  - intros a i v Hv' gas s Hgas Hup. by apply EVM_Call_ok.
  - intros a i v Hv' gas s Hgas Hup. by apply CallCode_ok.
  - intros a i gas s Hgas Hup. by apply DelegateCall_ok.
  - intros a i gas s Hgas Hup. by apply StaticCall_ok.
  - intros code v Hv' gas s Hgas Hup. unfold Create_. apply wp_bind. reads. intros nonce s1 o1 Hs1.
    by apply EVM_create_ok.
Qed.
End calls.

(** ** The instruction set *)

Section table.
Context {T : Type} {HT : TrieOps T} {HE : EvmEnv}.
Context (s0 : Statedb T) (es : list journalEntry) (G : Z).
Context (ctx : VmContext) (callees : @Callees T HT) (contract : Frame) (input : bytes).
Hypothesis HG : G <= 2 ^ 64.
Hypothesis Hcallees : callees_ok s0 es G callees.
Hypothesis Hvalue : 0 <= f_value contract.
Hypothesis Hprice : forall p, GasPrice ctx = Some p -> 0 <= p.

Abbreviation runs lo n x := (executes s0 es G lo n (fun _ _ => 0) None x).

(** An operation that can be paid for and executed, and one after which the loop may
    go on. *)
Definition fine (o : operation) : Prop := exists lo, 0 <= lo /\ op_ok s0 es G lo o.
Definition good (o : operation) : Prop :=
  exists lo, 0 <= lo /\ (1 <= lo \/ reverts o || halts o = true) /\ op_ok s0 es G lo o.

Lemma makeStackFunc_ok n k st : makeStackFunc n k st = None -> (n <= length st)%nat.
Proof. unfold makeStackFunc. destruct (Nat.ltb_spec (length st) n); [done|lia]. Qed.

Lemma good_plain x c n k :
  1 <= c -> runs c n x -> good (plain x (constGasFunc c) (makeStackFunc n k)).
Proof.
  intros Hc Hx. exists c. split; [lia|]. split; [by left|].
  apply (op_safe _ _ _ _ _ n (fun _ _ => 0)); cbn.
  - apply makeStackFunc_ok.
  - apply sizes_none.
  - apply prices_const.
  - done.
Qed.

Lemma fine_plain x c n k :
  0 <= c -> runs c n x -> fine (plain x (constGasFunc c) (makeStackFunc n k)).
Proof.
  intros Hc Hx. exists c. split; [lia|].
  apply (op_safe _ _ _ _ _ n (fun _ _ => 0)); cbn.
  - apply makeStackFunc_ok.
  - apply sizes_none.
  - apply prices_const.
  - done.
Qed.

Lemma good_priced lo x g n k :
  1 <= lo -> prices s0 es lo n (fun _ _ => 0) None (fun _ => g) -> runs lo n x ->
  good (plain x g (makeStackFunc n k)).
Proof.
  intros Hlo Hg Hx. exists lo. split; [lia|]. split; [by left|].
  apply (op_safe _ _ _ _ _ n (fun _ _ => 0)); cbn; [apply makeStackFunc_ok|apply sizes_none|done|done].
Qed.

Lemma good_memory lo credit x g n k f :
  1 <= lo -> sizes n (Some f) -> prices s0 es lo n credit (Some f) g ->
  executes s0 es G lo n credit (Some f) x -> good (with_memory x g (makeStackFunc n k) f).
Proof.
  intros Hlo Hf Hg Hx. exists lo. split; [lia|]. split; [by left|].
  by apply (op_safe _ _ _ _ _ n credit); cbn; [apply makeStackFunc_ok|..].
Qed.

(** Operations that end the contract may cost nothing. *)
Lemma fine_return n k :
  (n = 2)%nat -> fine (with_memory opReturn gasReturn (makeStackFunc n k) memoryReturn).
Proof.
  intros ->. exists 0. split; [done|].
  apply (op_safe _ _ _ _ _ 2 (fun _ _ => 0)); cbn; [apply makeStackFunc_ok|apply sizes_size; lia| |].
  - apply prices_of. intros size m Hm _. eapply gas_ok_mono; [reflexivity| |by apply gas_ok_memory]. done.
  - apply mem_result_runs.
Qed.

Lemma good_writing o : good o -> good (writing o).
Proof. intros (lo & ? & ? & [n credit]). exists lo. repeat (split; [done|]). by econstructor. Qed.
Lemma good_returning o : good o -> good (returning o).
Proof. intros (lo & ? & ? & [n credit]). exists lo. repeat (split; [done|]). by econstructor. Qed.
Lemma good_jumping o : good o -> good (jumping o).
Proof. intros (lo & ? & ? & [n credit]). exists lo. repeat (split; [done|]). by econstructor. Qed.
Lemma fine_writing o : fine o -> fine (writing o).
Proof. intros (lo & ? & [n credit]). exists lo. split; [done|]. by econstructor. Qed.
Lemma good_halting o : fine o -> good (halting o).
Proof.
  intros (lo & ? & [n credit]). exists lo. split; [done|]. split; [right; apply orb_true_r|]. by econstructor.
Qed.
Lemma good_reverting o : fine o -> good (reverting o).
Proof. intros (lo & ? & [n credit]). exists lo. split; [done|]. split; [by right|]. by econstructor. Qed.

Ltac pure :=
  first
  [ apply binary_runs; intros; auto with nonneg
  | apply binary_push_runs; intros; auto with nonneg
  | apply opAddmod_runs | apply opMulmod_runs | apply opSignExtend_runs | apply opIszero_runs | apply opNot_runs
  | apply opBalance_runs | apply opCallDataLoad_runs | apply opExtCodeSize_runs | apply opBlockhash_runs
  | apply opPop_runs | apply opSload_runs | apply opSstore_runs | apply opJump_runs | apply opJumpi_runs
  | apply opGasprice_runs; done | apply done_runs | apply makePush_runs
  | apply push_runs; unfold Address_Big; auto with nonneg
  | apply (push_of_runs s0 es G _ (fun m => m_pc m)); intros m []; done
  | apply (push_of_runs s0 es G _ (fun m => m_gas m)); intros m [? [] ? ?]; done
  | apply push_of_runs; intros m _; unfold mem_Len; solve [auto with nonneg] ].

Lemma arithmetic_good : Forall (fun e => good e.2) (@arithmetic_ops T HT defaultRules).
Proof.
  repeat (apply Forall_cons_2; [cbn [snd]; try (apply good_plain; [done|pure])|]); try apply Forall_nil_2.
  - apply good_halting, fine_plain; [done|apply done_runs].
  - apply (good_priced 10); [done|by apply prices_exp|pure].
Qed.

Lemma environment_good : Forall (fun e => good e.2) (environment_ops defaultRules ctx contract input).
Proof.
  repeat (apply Forall_cons_2; [cbn [snd]; try (apply good_plain; [done|pure])|]); try apply Forall_nil_2.
  - apply (good_memory 30 (fun _ _ => 0)); [done|apply sizes_size; lia|by apply prices_copy; [|lia]|apply opSha3_runs].
  - apply (good_memory 3 (fun _ _ => 0)); [done|apply sizes_size; lia|by apply prices_copy; [|lia]|].
    apply (copy_runs s0 es G _ (getDataBig input)).
  - apply (good_memory 3 (fun _ _ => 0)); [done|apply sizes_size; lia|by apply prices_copy; [|lia]|].
    apply (copy_runs s0 es G _ (getDataBig (f_Code contract))).
  - apply (good_memory 700 (fun _ _ => 0)); [done|apply sizes_size; lia|by apply prices_copy; [|lia]|].
    apply opExtCodeCopy_runs.
Qed.

Lemma flow_good : Forall (fun e => good e.2) (flow_ops defaultRules contract).
Proof.
  repeat (apply Forall_cons_2; [cbn [snd]; try (apply good_plain; [done|pure])|]); try apply Forall_nil_2.
  - apply (good_memory 3 (fun _ _ => 0)); [done|by apply sizes_const; [lia|]|by apply prices_memory|apply opMload_runs].
  - apply (good_memory 3 (fun _ _ => 0)); [done|by apply sizes_const; [lia|]|by apply prices_memory|apply opMstore_runs].
  - apply (good_memory 3 (fun _ _ => 0)); [done|by apply sizes_const; [lia|]|by apply prices_memory|apply opMstore8_runs].
  - apply good_writing, (good_priced 5000); [done|by apply prices_sstore|pure].
  - apply good_jumping, good_plain; [done|pure].
  - apply good_jumping, good_plain; [done|pure].
Qed.

Lemma push_good : Forall (fun e => good e.2) (push_ops contract).
Proof. apply Forall_map, Forall_forall. intros n _. cbn. apply good_plain; [done|pure]. Qed.

Lemma dup_good : Forall (fun e => good e.2) dup_ops.
Proof.
  apply Forall_map, Forall_forall. intros n Hn%elem_of_seq. cbn. apply good_plain; [done|].
  apply makeDup_runs. lia.
Qed.

Lemma swap_good : Forall (fun e => good e.2) swap_ops.
Proof.
  apply Forall_map, Forall_forall. intros n _. cbn. apply good_plain; [done|]. apply makeSwap_runs.
Qed.

Lemma log_good : Forall (fun e => good e.2) (log_ops ctx contract).
Proof.
  apply Forall_map, Forall_forall. intros n _. cbn. apply good_writing, (good_memory 375 (fun _ _ => 0)).
  - done.
  - apply sizes_size; lia.
  - apply prices_log. lia.
  - apply makeLog_runs.
Qed.

Lemma system_good : Forall (fun e => good e.2) (system_ops defaultRules callees contract).
Proof.
  repeat apply Forall_cons_2; try apply Forall_nil_2; cbn [snd].
  - apply good_returning, good_writing, (good_memory 1 (fun _ _ => 0));
      [done|apply sizes_size; lia| |by apply opCreate_runs; [..|lia|]].
    intros size m s Hm Hup Hn. eapply wp_mono; [by apply (prices_memory s0 es CreateGas 3)|].
    intros [c|e] ms o (? & ? & Hc); repeat (split; [done|]); [|done].
    unfold CreateGas in Hc. destruct Hc as (Hc & ? & ?). cbn beta in Hc. split; [lia|done].
  - apply good_returning, (good_memory 1 value_credit); [done| |by apply prices_call|].
    + apply sizes_max; apply sizes_size; lia.
    + apply value_call_runs; [done|done|]. intros a i v Hv. by apply ok_Call.
  - apply good_returning, (good_memory 1 value_credit); [done| |by apply prices_callcode|].
    + apply sizes_max; apply sizes_size; lia.
    + apply value_call_runs; [done|done|]. intros a i v Hv. by apply ok_CallCode.
  - by apply good_halting, fine_return.
  - apply good_halting, fine_writing. exists 0. split; [done|].
    apply (op_safe _ _ _ _ _ 1 (fun _ _ => 0)); cbn;
      [apply makeStackFunc_ok|apply sizes_none|by apply prices_suicide|apply opSuicide_runs].
Qed.

Lemma frontier_good :
  Forall (fun e => good e.2) (newFrontierInstructionSet defaultRules ctx callees contract input).
Proof.
  unfold newFrontierInstructionSet. rewrite !Forall_app.
  auto 10 using arithmetic_good, environment_good, flow_good, push_good, dup_good, swap_good, log_good, system_good.
Qed.

Lemma table_good :
  Forall (fun e => good e.2) (instructionSet defaultRules ctx callees contract input).
Proof.
  unfold instructionSet, newByzantiumInstructionSet, newHomesteadInstructionSet. cbn [IsConstantinople IsByzantium defaultRules app].
  assert (Hplain : forall (f : Address -> bytes -> Z -> GoM (Statedb T) Empty_set (bytes * Z * option SvmError)),
    (forall a i, callee_ok s0 es G (fun gas => f a i gas)) ->
    good (returning (with_memory (plain_call f) (gasDelegateCall defaultRules) (makeStackFunc 6 1) memoryDelegateCall))).
  { intros f Hf. apply good_returning, (good_memory 1 plain_credit); [done| |by apply prices_plain_call|].
    - apply sizes_max; apply sizes_size; lia.
    - by apply plain_call_runs. }
  apply Forall_cons_2; [apply Hplain; intros a i; by apply ok_StaticCall|].
  apply Forall_cons_2; [apply good_plain; [done|pure]|].
  apply Forall_cons_2.
  { apply (good_memory 3 (fun _ _ => 0)); [done|apply sizes_size; lia|by apply prices_copy; [|lia]|].
    apply opReturnDataCopy_runs. }
  apply Forall_cons_2; [by apply good_returning, good_reverting, fine_return|].
  apply Forall_cons_2; [apply Hplain; intros a i; by apply ok_DelegateCall|]. apply frontier_good.
Qed.

Lemma lookup_op_good op o :
  lookup_op op (instructionSet defaultRules ctx callees contract input) = Some o -> good o.
Proof.
  generalize table_good. generalize (instructionSet defaultRules ctx callees contract input).
  induction l as [|[n o'] l IH]; cbn; [done|]. rewrite Forall_cons. intros [Ho Hl].
  destruct (op =? n); [by intros [= ->]|by apply IH].
Qed.
End table.

(** ** The loop *)

Section loop.
Context {T : Type} {HT : TrieOps T} {HE : EvmEnv} {HL : EvmLaws}.
Implicit Types (s : Statedb T) (m : Machine).

Lemma lookup_CALL ctx (callees : @Callees T HT) contract input :
  lookup_op CALL (instructionSet defaultRules ctx callees contract input)
  = Some (returning (with_memory (opCall callees) (gasCall defaultRules) (makeStackFunc 7 1) memoryCall)).
Proof. reflexivity. Qed.

Lemma step_ok s0 es ctx callees contract input readOnly m s :
  (forall p, GasPrice ctx = Some p -> 0 <= p) -> 0 <= f_value contract ->
  callees_ok s0 es (m_gas m) callees -> m_ok m -> above s0 es s ->
  wp (step defaultRules ctx callees contract input readOnly) (m, s) (fun r ms' _ => round_post s0 es m r ms').
Proof.
  intros Hp Hv Hcs Hm Hup. pose proof (mo_gas _ Hm) as Hg. unfold is_u64 in Hg.
  assert (Hend : forall r, r <> None -> round_post s0 es m r (m, s)).
  { intros r Hr. split; [done|]. split; [cbn; lia|done]. }
  unfold step. em_step. em_step. set (op := GetOp _ _). clearbody op.
  destruct (lookup_op op _) as [o|] eqn:Hop; [|apply wp_ret; by apply Hend].
  destruct (validateStack o (m_stack m)) as [e|] eqn:Hval; [apply wp_ret; by apply Hend|].
  em_step. eapply wp_mono with (Q := fun _ ms' _ => ms' = (m, s)).
  { unfold enforceRestrictions. destruct (_ && _); [|by apply wp_ret].
    destruct (writes o); [by apply wp_ret|]. destruct (Z.eqb_spec op CALL) as [->|]; [|by apply wp_ret].
    rewrite lookup_CALL in Hop. injection Hop as <-. apply makeStackFunc_ok in Hval.
    destruct (lookup_lt_is_Some_2 (m_stack m) 2) as [v Hx]; [lia|].
    apply wp_bind. eapply wp_back; [exact Hx|]. by apply wp_ret. }
  intros restricted ms o1 ->. destruct restricted as [e|]; [apply wp_ret; by apply Hend|].
  destruct (lookup_op_good s0 es (m_gas m) ctx callees contract input ltac:(lia) Hcs Hv Hp op o Hop)
    as (lo & Hlo & Hgo & Hok).
  by apply (perform_ok s0 es (m_gas m) lo).
Qed.

(** [run] for contracts that the loop is safe for. *)
Lemma run_with_ok G (loop : Frame -> bytes -> bool -> Machine -> GoM (Statedb T) Empty_set (bytes * Z * option SvmError)) :
  G <= 2 ^ 64 ->
  (forall s0 es f input readOnly m s,
    journal_ok (sd_curJournal s0) -> 0 <= f_value f -> m_ok m -> m_gas m = f_Gas f -> f_Gas f < G -> above s0 es s ->
    wp (loop f input readOnly m) s (fun r s' _ => above s0 es s' /\ 0 <= r.1.2 <= m_gas m)) ->
  run_ok G (run_with defaultRules loop).
Proof.
  intros HG Hloop s0 es f input readOnly s Hj Hv Hgas Hup. unfold run_with.
  destruct (precompiles defaultRules (f_CodeAddr f)) as [p|] eqn:Hpc.
  { apply wp_ret. split; [done|]. unfold RunPrecompiledContract, UseGas.
    pose proof (required_gas _ _ _ input Hpc). destruct (Z.ltb_spec (f_Gas f) (pc_RequiredGas p input)); cbn; [lia|].
    destruct (pc_Run p input). cbn. lia. }
  destruct (_ =? _)%nat; [apply wp_ret; split; [done|cbn; lia]|].
  apply (Hloop s0 es); try done; [|lia]. constructor; cbn; try done. unfold is_u64. lia.
Qed.

(** The fuel of a loop is more than its gas: it does not run out. *)
Lemma loop_ok fuel ctx depth contract input readOnly m s0 es s :
  (forall p, GasPrice ctx = Some p -> 0 <= p) ->
  journal_ok (sd_curJournal s0) -> 0 <= f_value contract -> m_ok m -> m_gas m < Z.of_nat fuel -> above s0 es s ->
  wp (loop defaultRules fuel ctx depth contract input readOnly m) s
    (fun r s' _ => above s0 es s' /\ 0 <= r.1.2 <= m_gas m).
Proof.
  intros Hp. revert depth contract input readOnly m s0 es s.
  induction fuel as [|fuel IH]; intros depth contract input readOnly m s0 es s Hj Hv Hm Hfuel Hup.
  { pose proof (mo_gas _ Hm) as Hg. unfold is_u64 in Hg. lia. }
  pose proof (mo_gas _ Hm) as Hg. unfold is_u64 in Hg.
  assert (Hrun : run_ok (m_gas m) (run_with defaultRules
    (fun c i ro m => loop defaultRules fuel ctx (depth + 1) c i (ro || readOnly) m))).
  { apply run_with_ok; [lia|]. intros s1 es1 f i ro m1 s2 Hj1 Hv1 Hm1 Hg1 Hlt Hs2.
    apply (IH _ _ _ _ _ s1 es1); try done. rewrite Hg1. lia. }
  pose proof (step_ok s0 es ctx _ contract input readOnly m s Hp Hv
    (callees_of_ok s0 es (m_gas m) _ depth Hj Hrun contract Hv) Hm Hup) as Hstep.
  unfold wp in Hstep |- *. cbn [loop].
  destruct (step _ _ _ _ _ _ (m, s)) as [[[[[res err]|] [m' s']] o]|]; [| |done].
  - destruct Hstep as (Hup' & Hgas & _). by split.
  - destruct Hstep as (Hup' & Hgas & Hnext). destruct (Hnext eq_refl) as [Hm' Hlt]. cbn [fst snd] in *.
    pose proof (IH depth contract input readOnly m' s0 es s' Hj Hv Hm' ltac:(lia) Hup') as Hrest.
    unfold wp in Hrest. destruct (loop _ _ _ _ _ _ _ m' s') as [[[r s2] o2]|]; [|done].
    destruct Hrest as [Hup2 Hr]. split; [done|]. lia.
Qed.

Lemma evm_run_ok ctx :
  (forall p, GasPrice ctx = Some p -> 0 <= p) -> run_ok (2 ^ 64) (evm_run defaultRules ctx).
Proof.
  intros Hp. apply run_with_ok; [done|]. intros s0 es f input ro m s Hj Hv Hm Hg Hlt Hup.
  apply (loop_ok _ _ _ _ _ _ _ s0 es); try done. pose proof (mo_gas _ Hm) as Hg'. unfold is_u64 in Hg'. lia.
Qed.


(** What a run that failed leaves: everything as at the snapshot. *)
Lemma settle_failed s0 r s :
  journal_ok (sd_curJournal s0) -> above s0 [] s ->
  wp (settle (snapshot_of s0 []) r) s (fun r' s' _ => r'.2 <> None ->
    history s0 [] s' /\ (r'.2 = Some errExecutionReverted \/ r'.1.2 = 0)).
Proof.
  intros Hj [es1 Hh]. destruct r as [[ret left_] [e|]]; unfold settle; [|by apply wp_ret].
  apply wp_bind. eapply wp_mono; [by eapply revert_history|]. cbn beta. intros [] s' o Hs'. apply wp_ret. intros _.
  split; [done|]. case_bool_decide as He; cbn; [left; by rewrite He|right].
  unfold UseGas. rewrite Z.ltb_irrefl. cbn. lia.
Qed.

(** What runs the contract that is called with some gas at a depth: the machine at the entry of
    a transaction, and within a contract the loop with the rounds that are left. *)
Inductive machine_at (ctx : VmContext) (gas : Z) : Z -> Runner (T := T) -> Prop :=
| at_entry : machine_at ctx gas 0 (evm_run defaultRules ctx)
| in_contract fuel depth readOnly : gas < Z.of_nat fuel ->
    machine_at ctx gas depth (run_with defaultRules
      (fun c i ro m => loop defaultRules fuel ctx (depth + 1) c i (ro || readOnly) m)).

Lemma machine_at_ok ctx gas depth run :
  (forall p, GasPrice ctx = Some p -> 0 <= p) -> is_u64 gas -> machine_at ctx gas depth run -> run_ok (gas + 1) run.
Proof.
  intros Hp Hg. unfold is_u64 in Hg. destruct 1 as [|fuel depth readOnly Hfuel].
  - intros s0 es f input ro s Hj Hv Hgas Hup. apply (evm_run_ok ctx Hp); try done. lia.
  - apply run_with_ok; [lia|]. intros s1 es1 f i ro m1 s2 Hj1 Hv1 Hm1 Hg1 Hlt Hs2.
    apply (loop_ok _ _ _ _ _ _ _ s1 es1); try done. lia.
Qed.

Lemma EVM_Call_failed ctx run depth caller addr input gas v s :
  (forall p, GasPrice ctx = Some p -> 0 <= p) -> machine_at ctx gas depth run ->
  st_ok s -> journal_ok (sd_curJournal s) -> 0 <= v -> is_u64 gas ->
  wp (EVM_Call defaultRules run depth caller addr input gas v) s
    (fun r s' _ => r.2 <> None -> history s [] s'
      /\ (r.2 = Some errExecutionReverted \/ r.1.2 = 0
          \/ ((CallCreateDepth < depth \/ balance s caller < v) /\ r.1.2 = gas))).
Proof.
  intros Hp Hat Hs Hj Hv Hg. pose proof (machine_at_ok _ _ _ _ Hp Hg Hat) as Hrun. unfold is_u64 in Hg.
  assert (Hh : history s [] s) by (by apply history_start).
  unfold EVM_Call. destruct (Z.ltb_spec CallCreateDepth depth).
  { apply wp_ret. intros _. split; [done|]. right; right. auto. }
  unfold canTransfer. apply wp_bind, wp_bind.
  eapply wp_mono; [by apply reader_quiet|]. intros b s1 o1 [-> Hq]. apply wp_ret.
  fold (balance s caller). pose proof (history_quiet _ _ _ _ Hh Hq) as Hh1.
  destruct (Z.leb_spec v (balance s caller)); cbn [negb].
  2: { apply wp_ret. intros _. split; [done|]. right; right. auto. }
  apply wp_bind. unfold Snapshot_. apply wp_bind, wp_get, wp_ret.
  rewrite (history_entries _ _ _ Hh1). fold (snapshot_of s []).
  assert (Hs1 : above s [] s1) by (by exists []).
  apply wp_bind. eapply wp_mono; [apply wp_above; [apply one_step_reader|exact Hs1]|]. cbn beta. intros ex s2 o2 Hs2.
  destruct (_ && _); [by apply wp_ret|].
  apply wp_bind. eapply wp_mono with (Q := fun _ s' _ => above s [] s').
  { destruct ex; [by apply wp_ret|]. by apply wp_above; [auto with onestep|]. }
  intros [] s3 o3 Hs3. apply wp_bind. eapply wp_mono; [by apply (transfer_above s [])|]. cbn beta. intros [] s4 o4 Hs4.
  apply wp_bind. eapply wp_mono; [apply wp_above; [apply one_step_reader|exact Hs4]|]. cbn beta. intros ch s5 o5 Hs5.
  apply wp_bind. eapply wp_mono; [apply wp_above; [auto with onestep|exact Hs5]|]. cbn beta. intros code s6 o6 Hs6.
  apply wp_bind. eapply wp_mono; [apply (Hrun s []); try done; cbn; lia|]. cbn beta. intros r s7 o7 [Hs7 Hr].
  eapply wp_mono; [by apply settle_failed|]. cbn beta. intros r' s8 o8 Hf Hne. destruct (Hf Hne) as [? [?|?]]; auto.
Qed.

End loop.

(** ** Examples *)

(** A machine with the identity as its only precompiled contract. *)
Definition identity_contract : PrecompiledContract :=
  mkPrecompiled (fun input => 15 + 3 * ((Z.of_nat (length input) + 31) / 32)) (fun input => (input, None)).

#[export] Instance example_env : EvmEnv := {|
  keccak256 := example_hash;
  precompiles _ a := if bytes_eqb a (BytesToAddress [4]) then Some identity_contract else None;
  hash_nonce a n := example_hash (n :: a)
|}.

#[export] Instance example_laws : EvmLaws.
Proof.
  constructor. intros rules a p input. cbn. destruct (bytes_eqb _ _); [|done]. intros [= <-]. cbn.
  assert (0 <= (Z.of_nat (length input) + 31) / 32) by (apply Z.div_pos; lia). lia.
Qed.

(** [PUSH1 42 PUSH1 1 SSTORE STOP]. *)
Definition store_code_42 : bytes := [0x60; 42; 0x60; 1; 0x55; 0x00].

(** Alice with money, and Bob with this code. *)
Definition evm_ops : list state_op :=
  [OpCreateAccount alice; OpAddBalance alice 100000; OpSetNonce alice 5;
   OpCreateAccount bob; OpSetCode bob (Some store_code_42); OpCreateAccount miner].

Definition evm_state : Statedb (gmap bytes bytes) :=
  match run_ops evm_ops empty_state with Some (_, s, _) => s | None => empty_state end.

Lemma evm_state_ok : st_ok evm_state /\ journal_ok (sd_curJournal evm_state).
Proof.
  destruct empty_state_ok as [Hs Hj].
  destruct (runs_through (run_ops evm_ops) empty_state) as [s' Hs']; [vm_compute; reflexivity|].
  unfold evm_state. rewrite Hs'. by destruct (run_ops_ok _ _ _ _ _ Hs Hj Hs').
Qed.

Definition example_context : VmContext :=
  mkVmContext (fun _ => EmptyHash) alice None miner 0 1 1 1.


(** [PUSH1 1 PUSH1 1 SSTORE POP]: after the store, the stack is empty. *)
Definition fail_code : bytes := [0x60; 1; 0x60; 1; 0x55; 0x50].

Definition fail_state : Statedb (gmap bytes bytes) :=
  match run_ops (evm_ops ++ [OpSetCode bob (Some fail_code)]) empty_state with
  | Some (_, s, _) => s
  | None => empty_state
  end.

Lemma fail_state_ok : st_ok fail_state /\ journal_ok (sd_curJournal fail_state).
Proof.
  destruct empty_state_ok as [Hs Hj].
  destruct (runs_through (run_ops (evm_ops ++ [OpSetCode bob (Some fail_code)])) empty_state) as [s' Hs'];
    [vm_compute; reflexivity|].
  unfold fail_state. rewrite Hs'. by destruct (run_ops_ok _ _ _ _ _ Hs Hj Hs').
Qed.


(** [PUSH1 0 PUSH1 0 PUSH1 0 CREATE POP POP]: the count of transactions is not journaled, and the
    one of a contract that was created before the call failed stays. *)
Definition create_and_fail : bytes := [0x60; 0; 0x60; 0; 0x60; 0; 0xf0; 0x50; 0x50].

Definition create_state : Statedb (gmap bytes bytes) :=
  match run_ops (evm_ops ++ [OpSetCode bob (Some create_and_fail)]) empty_state with
  | Some (_, s, _) => s
  | None => empty_state
  end.

Example failed_call_keeps_the_count :
  match EVM_Call defaultRules (evm_run defaultRules example_context) 0 alice bob [] 60000 10 create_state with
  | Some (_, _, err, s', _) => Some (err, value_of (GetTxCount bob) create_state, value_of (GetTxCount bob) s')
  | None => None
  end = Some (Some errStackUnderflow, Some 0, Some 1).
Proof. vm_compute. reflexivity. Qed.
