(* ===== verification/EvmProcess.v ===== *)
(** * The interpreter behind the processing of transactions

    The virtual machine as [core/svm/evm/evm.go] sets it up for a transaction is what
    [Process] runs: it keeps the laws that the theorems on [Process] assume, and with
    it [Process] returns for every transaction. *)

From Stdlib Require Import ZArith Lia.
From S2P Require Import SysContracts SysProofs Prelude Common BftHeader StateDb StateDbProofs Svm SvmProofs.
From S2P Require Import EvmWord Evm EvmAlu EvmJump EvmMemory EvmSafety EvmOps EvmMemOps EvmCallOps EvmRun.

Open Scope Z_scope.
Open Scope go_scope.

(** ** [newEVMContext] *)

Section context.
(** [bcStore.GetBlockHeader], [None] being an error. *)
Context (GetBlockHeader : Hash -> option BlockHeader).

(** The loop of [getHashFunc]: the hash and the map of the hashes that were seen. *)
Fixpoint getHash_loop (fuel : nat) (heightToHashMapping : gmap Z Hash) (preHash : Hash) (height : Z)
    : option (Hash * gmap Z Hash) :=
  match fuel with
  | O => None
  | S fuel' =>
      match heightToHashMapping !! height with
      | Some hash => Some (hash, heightToHashMapping)
      | None =>
          match GetBlockHeader preHash with
          | None => Some (EmptyHash, heightToHashMapping)
          | Some preHeader =>
              getHash_loop fuel'
                (<[u64 (h_Height preHeader - 1) := h_PreviousBlockHash preHeader]> heightToHashMapping)
                (h_PreviousBlockHash preHeader) height
          end
      end
  end.

Definition first_mapping (header : BlockHeader) : gmap Z Hash :=
  {[u64 (h_Height header - 1) := h_PreviousBlockHash header]}.

(** A call of [getHashFunc]; the blocks below the header bound its rounds. *)
Definition getHashFunc (header : BlockHeader) (mapping : gmap Z Hash) (height : Z) : option (Hash * gmap Z Hash) :=
  getHash_loop (S (Z.to_nat (h_Height header))) mapping (h_PreviousBlockHash header) height.

(** The context, when the header has its time and difficulty. The map that the calls
    of [getHashFunc] share does not change what they return. *)
Definition newEVMContext (from : Address) (header : BlockHeader) (minerAddress : Address) : option VmContext :=
  match h_CreateTimestamp header, h_Difficulty header with
  | Some time, Some difficulty =>
      Some (mkVmContext
        (fun height => match getHashFunc header (first_mapping header) height with
                       | Some (hash, _) => hash
                       | None => EmptyHash
                       end)
        from None minerAddress 0 (h_Height header) time difficulty)
  | _, _ => None
  end.

(** The hashes of a chain below a header that the store has. *)
Record stored_chain (header : BlockHeader) (chain : Z -> Hash) : Prop := {
  ch_height : 0 < h_Height header < 2 ^ 64;
  ch_parent : h_PreviousBlockHash header = chain (h_Height header - 1);
  ch_stored : forall n, 0 < n < h_Height header -> exists hd, GetBlockHeader (chain n) = Some hd
    /\ h_Height hd = n /\ h_PreviousBlockHash hd = chain (n - 1)
}.

(** A map with hashes of the chain. *)
Definition mapping_of (header : BlockHeader) (chain : Z -> Hash) (mapping : gmap Z Hash) : Prop :=
  forall n, 0 <= n < h_Height header -> forall h, mapping !! n = Some h -> h = chain n.

Lemma getHash_loop_spec header chain fuel mapping n height :
  stored_chain header chain -> mapping_of header chain mapping ->
  0 <= height <= n -> n < h_Height header -> mapping !! n = Some (chain n) -> (Z.to_nat (n - height) < fuel)%nat ->
  exists mapping', getHash_loop fuel mapping (chain n) height = Some (chain height, mapping')
    /\ mapping_of header chain mapping' /\ mapping ⊆ mapping'.
Proof.
  intros Hc. revert mapping n. induction fuel as [|fuel IH]; intros mapping n Hm Hh Hn Hat Hf; [lia|].
  cbn [getHash_loop]. destruct (mapping !! height) as [h|] eqn:Hl.
  { exists mapping. rewrite (Hm height ltac:(lia) h Hl). done. }
  assert (height <> n) by congruence. destruct (ch_stored _ _ Hc n ltac:(lia)) as (hd & Hg & Hhd & Hp).
  pose proof (ch_height _ _ Hc). rewrite Hg, Hhd, Hp, u64_small by (unfold is_u64; lia).
  destruct (mapping !! (n - 1)) as [h1|] eqn:Hl1.
  - rewrite (insert_id mapping) by (rewrite Hl1; f_equal; apply (Hm (n - 1) ltac:(lia) h1 Hl1)).
    apply IH; try lia; [done|]. rewrite Hl1. f_equal. by apply (Hm (n - 1) ltac:(lia)).
  - destruct (IH (<[n - 1 := chain (n - 1)]> mapping) (n - 1)) as (m' & Heq & Hm' & Hsub).
    + intros k Hk h [[<- <-]|[_ Hlk]]%lookup_insert_Some; [done|]. by apply (Hm k Hk).
    + lia.
    + lia.
    + by rewrite lookup_insert_eq.
    + lia.
    + exists m'. split; [done|]. split; [done|]. etransitivity; [|done]. by apply insert_subseteq.
Qed.

(** BLOCKHASH reads the chain: for every height below the block, the
    function that the context gets finds the hash of the ancestor at that
    height, within as many reads of the store as there are blocks below,
    whatever part of the chain it has seen in calls before. *)
Theorem getHash_finds_ancestor header chain mapping height :
  stored_chain header chain -> mapping_of header chain mapping -> first_mapping header ⊆ mapping ->
  0 <= height < h_Height header ->
  exists mapping', getHashFunc header mapping height = Some (chain height, mapping')
    /\ mapping_of header chain mapping' /\ first_mapping header ⊆ mapping'.
Proof.
  intros Hc Hm Hfirst Hh. pose proof (ch_height _ _ Hc). unfold getHashFunc. rewrite (ch_parent _ _ Hc).
  destruct (getHash_loop_spec header chain (S (Z.to_nat (h_Height header))) mapping (h_Height header - 1) height)
    as (m' & Heq & Hm' & Hsub); try done; try lia.
  - eapply lookup_weaken; [|exact Hfirst]. unfold first_mapping.
    rewrite u64_small by (unfold is_u64; lia). rewrite lookup_singleton_eq. f_equal. apply Hc.
  - exists m'. split; [done|]. split; [done|]. by etransitivity.
Qed.
End context.

(** ** The machine of a transaction *)

Section machine.
Context {T : Type} {HT : TrieOps T} {HE : EvmEnv} {HL : EvmLaws}.
Context (GetBlockHeader : Hash -> option BlockHeader)
  (system_contracts : Address -> option (@contract T HT)) (text : SvmError -> bytes).
Implicit Types (s : Statedb T) (es : list journalEntry).

Abbreviation StM A := (GoM (Statedb T) Empty_set A).
Abbreviation context_of header from := (newEVMContext GetBlockHeader from header (h_Creator header)).

(** [NewEVMByDefaultConfig] and [run]: the caller of the first contract is the sender
    of the transaction. *)
#[local] Instance evm_vm : @VmOps T HT := {|
  contracts := system_contracts;
  precompiled addr := is_precompile defaultRules addr;
  vm_run header f input :=
    match context_of header (f_caller f) with
    | Some c => evm_run defaultRules c f input false
    | None => go_panic
    end;
  MustHash_nonce := hash_nonce;
  emptyCodeHash := empty_code_hash;
  error_text := text
|}.

Lemma context_price header from c : context_of header from = Some c -> forall p, GasPrice c = Some p -> 0 <= p.
Proof.
  unfold newEVMContext. destruct (h_CreateTimestamp header), (h_Difficulty header); try done.
  by intros [= <-] p [=].
Qed.

(** ** The entry points *)

Lemma go_bind_ext {A B} (m : StM A) (k k' : A -> StM B) s :
  (forall a s', k a s' = k' a s') -> go_bind m k s = go_bind m k' s.
Proof. intros Hk. unfold go_bind. destruct (m s) as [[[a s'] o]|]; [|done]. by rewrite Hk. Qed.

Lemma evm_Call_EVM_Call header from c addr input gas v s :
  context_of header from = Some c ->
  evm_Call header 0 from addr input gas v s
  = EVM_Call defaultRules (evm_run defaultRules c) 0 from addr input gas v s.
Proof.
  intros Hc. unfold evm_Call, EVM_Call. destruct (_ <? _); [done|]. apply go_bind_ext. intros can s1.
  destruct (negb can); [done|]. apply go_bind_ext. intros n s2. apply go_bind_ext. intros ex s3.
  cbn [IsEIP158 defaultRules precompiled evm_vm]. rewrite andb_true_r.
  destruct (_ && _); [done|]. do 4 (apply go_bind_ext; intros ? ?).
  cbn [vm_run evm_vm f_caller]. rewrite Hc. apply go_bind_ext. intros [[ret g] err] s8. by destruct err.
Qed.

Lemma evm_create_EVM_create header from c code gas v address s :
  context_of header from = Some c ->
  evm_create header 0 from code gas v address s
  = EVM_create defaultRules (evm_run defaultRules c) 0 from code gas v address s.
Proof.
  intros Hc. unfold evm_create, EVM_create. destruct (_ <? _); [done|]. apply go_bind_ext. intros can s1.
  destruct (negb can); [done|]. do 5 (apply go_bind_ext; intros ? ?).
  change (@emptyCodeHash T HT evm_vm) with empty_code_hash.
  destruct (_ || _); [done|]. do 4 (apply go_bind_ext; intros ? ?).
  cbn [vm_run evm_vm f_caller]. rewrite Hc. apply go_bind_ext. intros [[ret g] err] s8.
  cbn [IsEIP158 IsHomestead defaultRules andb]. apply go_bind_ext. intros [g2 err2] s9.
  replace (bool_decide (err2 <> None) && (true || bool_decide (err2 <> Some ErrCodeStoreOutOfGas)))
    with (if err2 is Some _ then true else false) by (by destruct err2).
  apply go_bind_ext. intros g3 s10. destruct err2 as [e|]; [|by rewrite andb_true_r].
  rewrite bool_decide_false by done. by rewrite andb_false_r.
Qed.

Lemma evm_Create_Create header from c code gas v s :
  context_of header from = Some c ->
  evm_Create header 0 from code gas v s
  = Create_ defaultRules (evm_run defaultRules c) 0 from code gas v s.
Proof.
  intros Hc. unfold evm_Create, Create_. apply go_bind_ext. intros n s1. by apply evm_create_EVM_create.
Qed.

(** ** The laws *)

Lemma vm_run_ok header f input s0 es s c :
  context_of header (f_caller f) = Some c -> journal_ok (sd_curJournal s0) -> frame_ok f -> above s0 es s ->
  wp (vm_run header f input) s (fun r s' _ => above s0 es s' /\ 0 <= r.1.2 <= f_Gas f).
Proof.
  intros Hc Hj [Hv Hg] Hup. cbn [vm_run evm_vm]. rewrite Hc.
  apply (evm_run_ok c (context_price _ _ _ Hc)); done.
Qed.

(** What the handlers of the system contracts have to keep. *)
Context (Hhandlers : forall a c b info input tx header,
  system_contracts a = Some c -> c !! b = Some info -> via_ops (cmdHandler info input tx header)).

#[local] Instance evm_vm_laws : VmLaws.
Proof.
  constructor; [exact Hhandlers|..].
  - intros header f input Hf s0 es Hj es1 s Hh. destruct (context_of header (f_caller f)) as [c|] eqn:Hc.
    + pose proof (vm_run_ok header f input s0 es s c Hc Hj Hf ltac:(by exists es1)) as Hw. unfold wp in Hw.
      by destruct (vm_run header f input s) as [[[r s'] o]|]; [destruct Hw|].
    + cbn [vm_run evm_vm]. by rewrite Hc.
  - intros header f input s ret gas err s' o Hf Hs Hj Hrun.
    destruct (context_of header (f_caller f)) as [c|] eqn:Hc.
    + pose proof (vm_run_ok header f input s [] s c Hc Hj Hf ltac:(exists []; by apply history_start)) as Hw.
      unfold wp in Hw. rewrite Hrun in Hw. apply Hw.
    + cbn [vm_run evm_vm] in Hrun. by rewrite Hc in Hrun.
Qed.

(** ** Payments *)

Lemma evm_idle a : is_precompile defaultRules a = false -> idle a.
Proof.
  intros Hpc header f input st [time Ht] [diff Hd] Ha Hcode. cbn [vm_run evm_vm]. unfold newEVMContext. rewrite Ht, Hd.
  unfold evm_run, run_with. unfold is_precompile in Hpc. rewrite Ha. destruct (precompiles defaultRules a); [done|].
  by rewrite Hcode.
Qed.

(** C6: With the interpreter of the repository behind it, a payment for which a
    receipt is returned moves the amount from the sender to the receiver and
    the intrinsic gas times the price from the sender to the account the
    fees go to, sets the nonce of the sender to one more than that of the
    transaction, and leaves the nonce of the receiver. The three accounts
    exist, are different and not suicided; sender and receiver are of one
    shard; the receiver has no code and is neither a system contract nor a
    precompiled one; amount and price are not negative. *)
Theorem payment_processed ctx height s r e s' o b n bt nt bf nf :
  let d := tx_Data (c_Tx ctx) in
  let fee := IntrinsicGas (c_Tx ctx) * td_GasPrice d in
  st_ok s -> td_From d <> td_To d -> Address_IsEmpty (td_To d) = false ->
  fee_account ctx <> td_From d -> fee_account ctx <> td_To d ->
  system_contracts (td_To d) = None -> is_precompile defaultRules (td_To d) = false -> code_of s (td_To d) = [] ->
  Address_Shard (td_From d) = Address_Shard (td_To d) -> 0 <= td_Amount d -> 0 <= td_GasPrice d ->
  acct s (td_From d) = Some (b, n, false) -> acct s (td_To d) = Some (bt, nt, false) ->
  acct s (fee_account ctx) = Some (bf, nf, false) ->
  Process ctx height s = Some (Some r, e, s', o) ->
  r_Failed r = false /\ r_UsedGas r = IntrinsicGas (c_Tx ctx)
  /\ acct s' (td_From d) = Some (b - td_Amount d - fee, u64 (td_AccountNonce d + 1), false)
  /\ acct s' (td_To d) = Some (bt + td_Amount d, nt, false)
  /\ acct s' (fee_account ctx) = Some (bf + fee, nf, false).
Proof. intros. eapply payment_moves; eauto using evm_idle. Qed.

(** ** [Process] returns *)

(** What is assumed of the trie: writes do not fail. *)
Class TrieWrites := {
  put_succeeds : forall (t : T) k v, exists t', trie_Put t k v = inl t';
  delete_succeeds : forall (t : T) k, exists t', trie_DeletePrefix t k = inl t'
}.
Context {HW : TrieWrites}.

Lemma flush_storage_total l o (t : T) : (flush_storage l o t).2 = None.
Proof.
  revert o t. induction l as [|[k v] l IH]; intros o t; cbn; [done|]. destruct (bool_decide _); [apply IH|].
  destruct (put_succeeds t (storageKey o k) v) as [t' ->]. apply IH.
Qed.

Lemma flush_then_total (r : stateObject * T * option trie_error) k :
  r.2 = None -> (forall o t, (k o t).2 = None) -> (flush_then r k).2 = None.
Proof. destruct r as [[o t] err]. cbn. intros -> Hk. apply Hk. Qed.

Lemma flush_total o (t : T) : (flush o t).2 = None.
Proof.
  unfold flush. repeat apply flush_then_total.
  - destruct (_ =? _)%nat; [done|]. apply flush_then_total; [apply flush_storage_total|done].
  - intros o' t'. unfold flush_code. destruct (o_dirtyCode o'); [|done].
    by destruct (put_succeeds t' (dataKey o' dataTypeCode []) (default [] (o_code o'))) as [t2 ->].
  - intros o' t'. unfold flush_account. destruct (o_dirtyAccount o'); [|done].
    by destruct (put_succeeds t' (dataKey o' dataTypeAccount []) (Serialize_account (o_account o'))) as [t2 ->].
  - intros o' t'. unfold flush_suicide. destruct (_ && _); [|done].
    by destruct (delete_succeeds t' (o_addrHash o')) as [t2 ->].
Qed.

Lemma flush_all_total l s : wp (flush_all l) s (fun r _ _ => r = None).
Proof.
  revert s. induction l as [|a l IH]; intros s; cbn [flush_all]; [by apply wp_ret|]. wp_seq.
  destruct (sd_stateObjects s !! a) as [ob|]; [|apply IH].
  pose proof (flush_total ob (sd_trie s)) as Hf. destruct (flush ob (sd_trie s)) as [[o' t'] err].
  cbn in Hf. subst err. unfold put_object. wp_seq. apply IH.
Qed.

(** The hash fails only because of an error before, and then changes nothing. *)
Lemma state_Hash_total s :
  wp state_Hash s (fun r s' _ => match r with inl _ => True | inr _ => s' = s end).
Proof.
  unfold state_Hash. wp_seq. destruct (sd_dbErr s); [by apply wp_ret|]. apply wp_bind.
  eapply wp_mono; [apply flush_all_total|]. intros err s1 o ->. unfold clearJournalAndRefund. by wp_seq.
Qed.

(** A receipt and no error, or an error and no receipt. *)
Definition settled (r : option Receipt * option SvmError) : Prop :=
  match r with (Some _, None) | (None, Some _) => True | _ => False end.

Section from.
Context (s0 : Statedb T) (Hj : journal_ok (sd_curJournal s0)).

Abbreviation up s := (above s0 [] s).

Lemma count_tx_above a b n s : up s -> wp (count_tx a b n) s (fun _ s' _ => up s').
Proof.
  intros Hup. unfold count_tx. apply wp_bind. eapply wp_mono; [by apply wp_above; [apply one_step_reader|]|].
  cbn beta. intros c s1 o Hs1. by apply wp_above; [auto with onestep|].
Qed.

Ltac reads := eapply wp_mono; [apply wp_above; [first [apply one_step_reader|solve [auto with onestep]]|eassumption]|]; cbn beta.
Ltac counts := eapply wp_mono; [apply count_tx_above; eassumption|]; cbn beta.

Lemma revertStatedb_settled err s : up s ->
  wp (revertStatedb (snapshot_of s0 []) err) s (fun (r : option Receipt * option SvmError) _ _ => settled r).
Proof.
  intros Hup. unfold revertStatedb. apply wp_bind. eapply wp_mono; [by apply wp_revert|]. intros [] s1 o _.
  by apply wp_ret.
Qed.

(** Hash the state, or revert. *)
Lemma hash_settled (k : Hash -> StM (option Receipt * option SvmError)) s :
  up s -> (forall h s, wp (k h) s (fun r _ _ => settled r)) ->
  wp (root <- state_Hash ;;
      match root with
      | inr _ => revertStatedb (snapshot_of s0 []) ErrStateHash
      | inl h => k h
      end) s (fun r _ _ => settled r).
Proof.
  intros Hup Hk. apply wp_bind. eapply wp_mono; [apply state_Hash_total|]. intros [h|e] s1 o Hs1; [apply Hk|].
  subst s1. by apply revertStatedb_settled.
Qed.

Lemma handleFee_settled ctx receipt s :
  up s -> wp (handleFee ctx receipt (snapshot_of s0 [])) s (fun r _ _ => settled r).
Proof.
  intros Hup. unfold handleFee. apply wp_bind. reads. intros [] s1 o1 Hs1. apply wp_bind.
  eapply wp_mono with (Q := fun _ s' _ => up s').
  { destruct (negb _); by apply wp_above; [auto with onestep|]. }
  intros [] s2 o2 Hs2. apply hash_settled; [done|]. intros h s3. by wp_seq.
Qed.

Lemma failed_tx_above ctx height receipt err s :
  up s -> wp (failed_tx ctx height (snapshot_of s0 []) receipt err) s (fun _ s' _ => up s').
Proof.
  intros Hup. unfold failed_tx. apply wp_bind. eapply wp_mono with (Q := fun _ s' _ => up s').
  - destruct (_ <=? _); [by apply wp_revert|]. apply wp_bind. reads. intros n s1 o1 Hs1.
    apply wp_bind. eapply wp_mono; [by apply wp_revert|]. cbn beta. intros [] s2 o2 Hs2.
    apply wp_bind. counts. intros [] s3 o3 Hs3. apply wp_bind. reads. intros n' s4 o4 Hs4. counts. done.
  - intros [] s1 o1 Hs1. by apply wp_ret.
Qed.

Lemma Process_finish_settled ctx height intrGas rc err s :
  up s -> wp (Process_finish ctx height (snapshot_of s0 []) intrGas (Some rc, err)) s (fun r _ _ => settled r).
Proof.
  intros Hup. unfold Process_finish. destruct (bool_decide _); [by apply revertStatedb_settled|].
  apply wp_bind, wp_ret. apply wp_bind. eapply wp_mono with (Q := fun _ s' _ => up s').
  { destruct err; [by apply failed_tx_above|by apply wp_ret]. }
  intros rc' s1 o1 Hs1. wp_seq. by apply handleFee_settled.
Qed.

Lemma processCrossShardTransaction_settled ctx s :
  up s -> wp (processCrossShardTransaction ctx (snapshot_of s0 [])) s (fun r _ _ => settled r).
Proof.
  intros Hup. unfold processCrossShardTransaction. apply wp_bind. counts. intros [] s1 o1 Hs1.
  apply wp_bind. reads. intros n s2 o2 Hs2. apply wp_bind. counts. intros [] s3 o3 Hs3.
  apply wp_bind. reads. intros b s4 o4 Hs4. destruct (_ <? _); [by apply revertStatedb_settled|].
  apply wp_bind. reads. intros [] s5 o5 Hs5. apply wp_bind. reads. intros b' s6 o6 Hs6.
  destruct (_ <? _); [by apply revertStatedb_settled|].
  apply wp_bind. reads. intros [] s7 o7 Hs7. apply wp_bind. reads. intros [] s8 o8 Hs8.
  apply hash_settled; [done|]. intros h s9. by apply wp_ret.
Qed.

Lemma wp_ext {A} (m m' : StM A) s (Q : A -> Statedb T -> list Empty_set -> Prop) :
  m s = m' s -> wp m' s Q -> wp m s Q.
Proof. unfold wp. by intros ->. Qed.

Lemma evm_Call_returns header from c addr input gas v s :
  context_of header from = Some c -> 0 <= v -> is_u64 gas -> up s ->
  wp (evm_Call header 0 from addr input gas v) s (fun r s' _ => up s' /\ 0 <= r.1.2 <= gas).
Proof.
  intros Hc Hv Hg Hup. eapply wp_ext; [by apply evm_Call_EVM_Call|].
  by apply (EVM_Call_ok s0 [] (2 ^ 64) _ 0 Hj (evm_run_ok c (context_price _ _ _ Hc))).
Qed.

Lemma evm_Create_returns header from c code gas v s :
  context_of header from = Some c -> 0 <= v -> is_u64 gas -> up s ->
  wp (evm_Create header 0 from code gas v) s (fun r s' _ => up s' /\ 0 <= r.1.2 <= gas).
Proof.
  intros Hc Hv Hg Hup. eapply wp_ext; [by apply evm_Create_Create|]. unfold Create_. apply wp_bind. reads.
  intros n s1 o1 Hs1.
  by apply (EVM_create_ok s0 [] (2 ^ 64) _ 0 Hj (evm_run_ok c (context_price _ _ _ Hc))).
Qed.

Lemma processEvmContract_returns ctx gas s :
  up s -> 0 <= td_Amount (tx_Data (c_Tx ctx)) -> is_u64 gas ->
  is_Some (h_CreateTimestamp (c_BlockHeader ctx)) -> is_Some (h_Difficulty (c_BlockHeader ctx)) ->
  wp (processEvmContract ctx gas) s (fun r s' _ => up s' /\ is_Some r.1).
Proof.
  intros Hup Hv Hg [time Ht] [diff Hd].
  assert (Hc : exists c, context_of (c_BlockHeader ctx) (td_From (tx_Data (c_Tx ctx))) = Some c).
  { unfold newEVMContext. rewrite Ht, Hd. by eexists. }
  destruct Hc as [c Hc]. unfold processEvmContract. rewrite Ht, Hd. wp_seq. cbn [go_deref]. wp_seq.
  destruct (Address_IsEmpty _).
  - apply wp_bind. eapply wp_mono; [by eapply evm_Create_returns|].
    intros [[[ret a] g] err] s1 o1 [Hs1 _]. by apply wp_ret.
  - apply wp_bind. counts. intros [] s1 o1 Hs1. apply wp_bind. reads. intros n s2 o2 Hs2.
    apply wp_bind. counts. intros [] s3 o3 Hs3. apply wp_bind. eapply wp_mono; [by eapply evm_Call_returns|].
    intros [[ret g] err] s4 o4 [Hs4 _]. by apply wp_ret.
Qed.

Lemma Process_dispatch_settled ctx height gas intrGas s :
  up s -> 0 <= td_Amount (tx_Data (c_Tx ctx)) -> is_u64 gas ->
  is_Some (h_CreateTimestamp (c_BlockHeader ctx)) -> is_Some (h_Difficulty (c_BlockHeader ctx)) ->
  system_contracts (td_To (tx_Data (c_Tx ctx))) = None ->
  wp (Process_dispatch ctx height gas intrGas (snapshot_of s0 [])) s (fun r _ _ => settled r).
Proof.
  intros Hup Hv Hg Ht Hd Hc. unfold Process_dispatch, GetContractByAddress. cbn [contracts evm_vm]. rewrite Hc.
  destruct (_ && _); [by apply processCrossShardTransaction_settled|].
  apply wp_bind. eapply wp_mono; [by apply processEvmContract_returns|].
  intros [[rc|] err] s1 o1 [Hs1 [? [=]]]. by apply Process_finish_settled.
Qed.
End from.

(** With the interpreter behind it, the processing of a transaction that is
    not for a system contract always returns, whatever code the transaction
    runs or creates: Process does not panic and does not go on for ever, and
    its outcome is a receipt or an error, never both and never neither. The
    header has to have its time and its difficulty, the writes of the trie
    must not fail, and the amount must not be negative. *)
Theorem Process_returns ctx height s :
  let d := tx_Data (c_Tx ctx) in
  st_ok s -> 0 <= td_Amount d -> is_u64 (td_GasLimit d) -> system_contracts (td_To d) = None ->
  is_Some (h_CreateTimestamp (c_BlockHeader ctx)) -> is_Some (h_Difficulty (c_BlockHeader ctx)) ->
  exists r e s', Process ctx height s = Some (r, e, s', []) /\ settled (r, e).
Proof.
  intros d Hs Hv Hg Hc Ht Hd.
  assert (Hw : wp (Process ctx height) s (fun r _ _ => settled r)).
  { unfold Process. apply wp_bind. eapply wp_mono; [by apply ValidateState_spec|].
    intros invalid s1 o1 [Hq _]. destruct invalid; [by apply wp_ret|].
    destruct (Z.ltb_spec (td_GasLimit (tx_Data (c_Tx ctx))) (IntrinsicGas (c_Tx ctx))); [by apply wp_ret|].
    apply wp_bind. unfold wp at 1. rewrite Prepare_tx_run.
    destruct (prepared_ok (c_TxIndex ctx) s1 (qs_ok _ _ Hq)) as [Hok Hj].
    change 0%nat with (snapshot_of (prepared (c_TxIndex ctx) s1) []).
    apply Process_dispatch_settled; try done; [|by apply left_gas_u64]. exists []. by apply history_start. }
  destruct (wp_no_output _ s (fun r _ => settled r) Hw) as ([r e] & s' & Hrun & Hset). by exists r, e, s'.
Qed.
End machine.

(** The interpreter and the contracts of the system are what the processing of
    transactions expects; of the relay it is needed that it keeps to the journal. *)
Lemma system_vm_laws {T} {HT : TrieOps T} {HE : EvmEnv} {HL : EvmLaws} {HS : SysEnv} blocks (relay : contract) text :
  (forall b info input tx header, relay !! b = Some info -> via_ops (cmdHandler info input tx header)) ->
  @VmLaws T HT (evm_vm blocks (system_contracts relay) text).
Proof. intros Hrelay. apply evm_vm_laws. by apply system_handlers_ops. Qed.

(** ** Examples *)

#[local] Instance example_writes : @TrieWrites (gmap bytes bytes) example_trie.
Proof. constructor; intros; by eexists. Qed.

(** A chain of three blocks below the fourth. *)
Definition example_blocks (h : Hash) : option BlockHeader :=
  match h with
  | [n] => Some (mkHeader [n - 1] [] [] [] [] [] [] (Some 1) n (Some 1) [] [] 0 [])
  | _ => None
  end.

Definition example_header (n : Z) : BlockHeader := mkHeader [n - 1] miner [] [] [] [] [] (Some 1) n (Some 1) [] [] 0 [].

Lemma getHash_finds_ancestor_witness :
  exists mapping', getHashFunc example_blocks (example_header 4) (first_mapping (example_header 4)) 1
    = Some ([1], mapping') /\ mapping_of (example_header 4) (fun n => [n]) mapping'.
Proof.
  destruct (getHash_finds_ancestor example_blocks (example_header 4) (fun n => [n])
    (first_mapping (example_header 4)) 1) as (mapping' & Heq & Hm & _).
  - constructor; [split; reflexivity|reflexivity|]. intros n Hn. eexists. split; [reflexivity|]. done.
  - intros n Hn h Hl. unfold first_mapping in Hl. apply (lookup_singleton_Some (M := gmap Z)) in Hl as [<- <-]. done.
  - reflexivity.
  - split; [discriminate|reflexivity].
  - exists mapping'. split; [exact Heq|exact Hm].
Defined.

(** Alice pays 300 to Bob, who has no code, for a fee of 21000. *)
Lemma payment_processed_witness :
  exists r s', @Process _ example_trie (evm_vm example_blocks (fun _ => None) (fun _ => []))
      (example_ctx bob 300 21000 []) 0 svm_state = Some (Some r, None, s', [])
    /\ acct s' alice = Some (78700, 6, false) /\ acct s' bob = Some (300, 0, false)
    /\ acct s' miner = Some (21000, 0, false).
Proof.
  assert (Hv : match @Process _ example_trie (evm_vm example_blocks (fun _ => None) (fun _ => []))
      (example_ctx bob 300 21000 []) 0 svm_state with Some (Some _, None, _, []) => true | _ => false end = true)
    by (vm_compute; reflexivity).
  destruct (@Process _ example_trie (evm_vm example_blocks (fun _ => None) (fun _ => []))
      (example_ctx bob 300 21000 []) 0 svm_state) as [[[[[r|] [e|]] s'] [|o]]|] eqn:Hrun; try discriminate Hv.
  exists r, s'. split; [reflexivity|].
  destruct (payment_processed example_blocks (fun _ => None) (fun _ => []) (example_ctx bob 300 21000 []) 0 svm_state
    r None s' [] 100000 5 0 0 0 0 svm_state_ok) as (_ & _ & H1 & H2 & H3);
    [done|vm_compute; reflexivity|done|done|reflexivity|vm_compute; reflexivity|vm_compute; reflexivity|vm_compute; reflexivity
    |done|done|vm_compute; reflexivity..|exact Hrun|].
  split; [exact H1|split; [exact H2|exact H3]].
Defined.

(** Alice calls Bob, whose code runs: the receipt is for 41074 units of gas, the
    intrinsic gas included. *)
Lemma Process_returns_witness :
  exists r s', @Process _ example_trie (evm_vm example_blocks (fun _ => None) (fun _ => []))
      (example_ctx bob 0 60000 [1]) 0 evm_state = Some (Some r, None, s', [])
    /\ r_UsedGas r = 41074 /\ r_Failed r = false.
Proof.
  destruct (Process_returns example_blocks (fun _ => None) (fun _ => []) (example_ctx bob 0 60000 [1]) 0 evm_state)
    as (r & e & s' & Hrun & _).
  - apply evm_state_ok.
  - discriminate.
  - split; [discriminate|reflexivity].
  - reflexivity.
  - by eexists.
  - by eexists.
  - assert (Hv : match @Process _ example_trie (evm_vm example_blocks (fun _ => None) (fun _ => []))
        (example_ctx bob 0 60000 [1]) 0 evm_state with
      | Some (Some r, None, _, _) => Some (r_UsedGas r, r_Failed r) | _ => None end = Some (41074, false))
      by (vm_compute; reflexivity).
    rewrite Hrun in Hv. destruct r as [r|]; [|discriminate Hv]. destruct e; [discriminate Hv|].
    injection Hv as Hu Hf. exists r, s'. split; [exact Hrun|]. split; [exact Hu|exact Hf].
Defined.
