(* ===== verification/Rlp.v ===== *)
(** * RLP

    Models the parts of the vendored package [rlp] that the trie stores its nodes
    with: the encoding buffer of [encode.go], which keeps the list headers apart
    from the string data and puts them together at the end, and the splitting of
    encoded values of [raw.go]. The buffer computes the recursive encoding
    [Encode], and what is encoded can be split again. A length is the length of a
    slice, below 2^64. *)

From Stdlib Require Import ZArith Lia.
From S2P Require Import Prelude.

Open Scope Z_scope.

(** A value that [rlp.Encode] is given: byte slices, and slices of values. *)
Inductive rlp_item : Type :=
| RStr (b : bytes)
| RList (l : list rlp_item).

Inductive Kind : Type := Byte | String | List.

#[export] Instance Kind_eq_dec : EqDecision Kind.
Proof. solve_decision. Defined.

Inductive RlpError : Type :=
| ErrUnexpectedEOF
| ErrCanonSize
| ErrValueTooLarge
| ErrExpectedString
| ErrExpectedList.

#[export] Instance RlpError_eq_dec : EqDecision RlpError.
Proof. solve_decision. Defined.

(** ** [encode.go] *)

(** The lowest [n] bytes of an integer, the highest first. *)
Fixpoint big_endian (n : nat) (i : Z) : bytes :=
  match n with
  | O => []
  | S n' => Z.shiftr i (8 * Z.of_nat n') mod 256 :: big_endian n' i
  end.

Definition putint (i : Z) : bytes :=
  if i <? 2 ^ 8 then big_endian 1 i
  else if i <? 2 ^ 16 then big_endian 2 i
  else if i <? 2 ^ 24 then big_endian 3 i
  else if i <? 2 ^ 32 then big_endian 4 i
  else if i <? 2 ^ 40 then big_endian 5 i
  else if i <? 2 ^ 48 then big_endian 6 i
  else if i <? 2 ^ 56 then big_endian 7 i
  else big_endian 8 i.

(** The loop of [intsize]; a [uint64] that is not 0 after 7 shifts has 8 bytes. *)
Fixpoint intsize_loop (fuel : nat) (size : nat) (i : Z) : nat :=
  match fuel with
  | O => size
  | S fuel' =>
      let i := Z.shiftr i 8 in
      if i =? 0 then size else intsize_loop fuel' (S size) i
  end.

Definition intsize (i : Z) : nat := intsize_loop 7 1 i.

Definition puthead (smalltag largetag size : Z) : bytes :=
  if size <? 56 then [smalltag + size]
  else let sizebytes := putint size in largetag + Z.of_nat (length sizebytes) :: sizebytes.

Record listhead := mkListhead { lh_offset : nat; lh_size : nat }.

Definition listhead_encode (head : listhead) : bytes :=
  puthead 192 247 (Z.of_nat (lh_size head)).

(** The string data without list headers, the headers, and the size of all
    headers. *)
Record encbuf := mkEncbuf {
  eb_str : bytes;
  eb_lheads : list listhead;
  eb_lhsize : nat
}.

Definition encbuf_reset : encbuf := mkEncbuf [] [] 0.

Definition encodeStringHeader (size : Z) : bytes :=
  if size <? 56 then [128 + size]
  else let sizebytes := putint size in 183 + Z.of_nat (length sizebytes) :: sizebytes.

Definition encodeString (b : bytes) (w : encbuf) : encbuf :=
  let out :=
    match b with
    | [x] => if x <=? 127 then [x] else encodeStringHeader (Z.of_nat (length b)) ++ b
    | _ => encodeStringHeader (Z.of_nat (length b)) ++ b
    end in
  mkEncbuf (eb_str w ++ out) (eb_lheads w) (eb_lhsize w).

Definition encbuf_size (w : encbuf) : nat := length (eb_str w) + eb_lhsize w.

(** [list]: a new header, whose size is that of the headers before it. *)
Definition encbuf_list (w : encbuf) : encbuf * listhead :=
  let lh := mkListhead (length (eb_str w)) (eb_lhsize w) in
  (mkEncbuf (eb_str w) (eb_lheads w ++ [lh]) (eb_lhsize w), lh).

(** [listEnd] of the header at an index. *)
Definition encbuf_listEnd (i : nat) (lh : listhead) (w : encbuf) : encbuf :=
  let size := (encbuf_size w - lh_offset lh - lh_size lh)%nat in
  mkEncbuf (eb_str w) (<[i := mkListhead (lh_offset lh) size]> (eb_lheads w))
    (if (size <? 56)%nat then eb_lhsize w + 1
     else eb_lhsize w + (1 + intsize (Z.of_nat size)))%nat.

(** The writers of byte slices and of slices. *)
Fixpoint encbuf_encode (val : rlp_item) (w : encbuf) : encbuf :=
  match val with
  | RStr b => encodeString b w
  | RList l =>
      let '(w1, lh) := encbuf_list w in
      let w2 := fold_left (fun w v => encbuf_encode v w) l w1 in
      encbuf_listEnd (length (eb_lheads w)) lh w2
  end.

(** The loop of [toBytes] from a position in the string data. *)
Fixpoint write_heads (strpos : nat) (heads : list listhead) (str : bytes) : bytes :=
  match heads with
  | [] => str
  | head :: heads' =>
      let n := (lh_offset head - strpos)%nat in
      take n str ++ listhead_encode head ++ write_heads (lh_offset head) heads' (drop n str)
  end.

Definition encbuf_toBytes (w : encbuf) : bytes := write_heads 0 (eb_lheads w) (eb_str w).

Definition EncodeToBytes (val : rlp_item) : bytes := encbuf_toBytes (encbuf_encode val encbuf_reset).

(** ** [raw.go] *)

Definition read_be (b : bytes) : Z := fold_left (fun s x => Z.lor (Z.shiftl s 8) x) b 0.

Definition readSize (b : bytes) (slen : nat) : Z + RlpError :=
  if (length b <? slen)%nat then inr ErrUnexpectedEOF
  else
    let s := read_be (take slen b) in
    if (s <? 56) || (nth 0 b 0 =? 0) then inr ErrCanonSize else inl s.

(** The last check of [readKind]. *)
Definition checkSize (buf : bytes) (k : Kind) (tagsize : nat) (contentsize : Z + RlpError)
    : (Kind * nat * nat) + RlpError :=
  match contentsize with
  | inr err => inr err
  | inl size =>
      if Z.of_nat (length buf) - Z.of_nat tagsize <? size then inr ErrValueTooLarge
      else inl (k, tagsize, Z.to_nat size)
  end.

Definition readKind (buf : bytes) : (Kind * nat * nat) + RlpError :=
  match buf with
  | [] => inr ErrUnexpectedEOF
  | b :: buf1 =>
      if b <? 128 then checkSize buf Byte 0 (inl 1)
      else if b <? 184 then
        let contentsize := b - 128 in
        if (contentsize =? 1) && match buf1 with x :: _ => x <? 128 | [] => false end
        then inr ErrCanonSize
        else checkSize buf String 1 (inl contentsize)
      else if b <? 192 then
        let slen := Z.to_nat (b - 183) in
        checkSize buf String (slen + 1) (readSize buf1 slen)
      else if b <? 248 then checkSize buf List 1 (inl (b - 192))
      else
        let slen := Z.to_nat (b - 247) in
        checkSize buf List (slen + 1) (readSize buf1 slen)
  end.

Definition Split (b : bytes) : (Kind * bytes * bytes) + RlpError :=
  match readKind b with
  | inr err => inr err
  | inl (k, ts, cs) => inl (k, take cs (drop ts b), drop (ts + cs) b)
  end.

Definition SplitString (b : bytes) : (bytes * bytes) + RlpError :=
  match Split b with
  | inr err => inr err
  | inl (k, content, rest) =>
      if bool_decide (k = List) then inr ErrExpectedString else inl (content, rest)
  end.

Definition SplitList (b : bytes) : (bytes * bytes) + RlpError :=
  match Split b with
  | inr err => inr err
  | inl (k, content, rest) =>
      if bool_decide (k = List) then inl (content, rest) else inr ErrExpectedList
  end.

(** The loop of [CountValues]: every value takes a byte or more. *)
Fixpoint count_loop (fuel : nat) (i : nat) (b : bytes) : nat + RlpError :=
  match fuel, b with
  | _, [] | O, _ => inl i
  | S fuel', _ =>
      match readKind b with
      | inr err => inr err
      | inl (_, tagsize, size) => count_loop fuel' (S i) (drop (tagsize + size) b)
      end
  end.

Definition CountValues (b : bytes) : nat + RlpError := count_loop (length b) 0 b.

(** ** The encoding *)

Definition encode_string (b : bytes) : bytes :=
  match b with
  | [x] => if x <=? 127 then [x] else encodeStringHeader (Z.of_nat (length b)) ++ b
  | _ => encodeStringHeader (Z.of_nat (length b)) ++ b
  end.

(** The encoding, by recursion on the value. *)
Fixpoint Encode (val : rlp_item) : bytes :=
  match val with
  | RStr b => encode_string b
  | RList l =>
      let payload := concat (map Encode l) in
      puthead 192 247 (Z.of_nat (length payload)) ++ payload
  end.

Definition payload (l : list rlp_item) : bytes := concat (map Encode l).

Fixpoint rlp_item_nested_ind (P : rlp_item -> Prop) (Hs : forall b, P (RStr b))
    (Hl : forall l, Forall P l -> P (RList l)) (val : rlp_item) : P val :=
  match val with
  | RStr b => Hs b
  | RList l =>
      Hl l ((fix go (l : list rlp_item) : Forall P l :=
        match l with
        | [] => Forall_nil_2 P
        | v :: l' => Forall_cons_2 P v l' (rlp_item_nested_ind P Hs Hl v) (go l')
        end) l)
  end.

Lemma length_big_endian n i : length (big_endian n i) = n.
Proof. induction n as [|n IH]; [done|]. cbn [big_endian length]. by rewrite IH. Qed.

Lemma shift_to_zero i n : 0 <= i -> 0 <= n -> (Z.shiftr i n =? 0) = (i <? 2 ^ n).
Proof.
  intros Hi Hn. rewrite Z.shiftr_div_pow2 by done. apply eq_true_iff_eq.
  rewrite Z.eqb_eq, Z.ltb_lt. pose proof (Z.pow_pos_nonneg 2 n ltac:(lia) Hn).
  rewrite Z.div_small_iff by lia. lia.
Qed.

Lemma intsize_putint i : 0 <= i -> intsize i = length (putint i).
Proof.
  intros Hi. unfold intsize, putint. cbn [intsize_loop].
  rewrite !Z.shiftr_shiftr by lia. rewrite !shift_to_zero by lia.
  cbn [Z.add Pos.add Pos.succ].
  repeat case_match; rewrite ?length_big_endian; try done; lia.
Qed.

Lemma length_puthead a b size :
  length (puthead a b (Z.of_nat size))
  = if (size <? 56)%nat then 1%nat else (1 + intsize (Z.of_nat size))%nat.
Proof.
  unfold puthead. destruct (Nat.ltb_spec size 56).
  - by rewrite (proj2 (Z.ltb_lt _ _)) by lia.
  - rewrite (proj2 (Z.ltb_ge _ _)) by lia. cbn [length]. by rewrite intsize_putint by lia.
Qed.

(** String data before the next header can be written first. *)
Lemma write_heads_app p heads data tail :
  Forall (fun h => (p + length data <= lh_offset h)%nat) heads ->
  write_heads p heads (data ++ tail) = data ++ write_heads (p + length data) heads tail.
Proof.
  intros Hh. destruct heads as [|h heads]; [done|]. apply Forall_cons in Hh as [Hh _].
  cbn [write_heads]. rewrite take_app_ge, drop_app_ge by lia.
  replace (lh_offset h - p - length data)%nat with (lh_offset h - (p + length data))%nat by lia.
  by rewrite <- app_assoc.
Qed.

Lemma write_heads_here p n heads str :
  write_heads p (mkListhead p n :: heads) str
  = puthead 192 247 (Z.of_nat n) ++ write_heads p heads str.
Proof. cbn [write_heads lh_offset]. by rewrite Nat.sub_diag. Qed.

(** What writing to the buffer adds, and that it is the encoding. *)
Definition writes (out : bytes) (w w' : encbuf) : Prop :=
  let p := length (eb_str w) in
  exists data heads hsize,
    w' = mkEncbuf (eb_str w ++ data) (eb_lheads w ++ heads) (eb_lhsize w + hsize)
    /\ (length data + hsize = length out)%nat
    /\ Forall (fun h => (p <= lh_offset h)%nat) heads
    /\ forall tail heads', Forall (fun h => (p + length data <= lh_offset h)%nat) heads' ->
         write_heads p (heads ++ heads') (data ++ tail)
         = out ++ write_heads (p + length data) heads' tail.

Lemma writes_nil w : writes [] w w.
Proof.
  exists [], [], 0%nat. destruct w. rewrite !app_nil_r, Nat.add_0_r. split; [done|].
  split; [done|]. split; [constructor|]. intros tail heads' Hh. cbn. by rewrite Nat.add_0_r.
Qed.

Lemma writes_app out1 out2 w w1 w2 :
  writes out1 w w1 -> writes out2 w1 w2 -> writes (out1 ++ out2) w w2.
Proof.
  intros (d1 & h1 & s1 & -> & Hl1 & Ho1 & Hw1) (d2 & h2 & s2 & -> & Hl2 & Ho2 & Hw2). cbn in *.
  rewrite length_app in Ho2. exists (d1 ++ d2), (h1 ++ h2), (s1 + s2)%nat.
  rewrite <- !app_assoc, !length_app. split; [f_equal; lia|]. split; [lia|]. split.
  - rewrite Forall_app. split; [done|]. eapply Forall_impl; [done|]. cbn. lia.
  - intros tail heads' Hh. rewrite <- !app_assoc. rewrite Hw1.
    + f_equal. rewrite length_app in Hw2. rewrite Hw2.
      * f_equal. f_equal. lia.
      * eapply Forall_impl; [done|]. cbn. lia.
    + rewrite Forall_app. split; [done|]. eapply Forall_impl; [done|]. cbn. lia.
Qed.

Lemma writes_list l w w2 :
  writes (payload l) (encbuf_list w).1 w2 ->
  writes (Encode (RList l)) w (encbuf_listEnd (length (eb_lheads w)) (encbuf_list w).2 w2).
Proof.
  intros (d & h & s & -> & Hl & Ho & Hw). cbn [encbuf_list fst snd eb_str eb_lheads eb_lhsize] in *.
  unfold encbuf_listEnd, encbuf_size. cbn [eb_str eb_lheads eb_lhsize lh_offset lh_size].
  rewrite length_app.
  replace (length (eb_str w) + length d + (eb_lhsize w + s) - length (eb_str w) - eb_lhsize w)%nat
    with (length (payload l)) by lia.
  set (n := length (payload l)) in *.
  exists d, (mkListhead (length (eb_str w)) n :: h),
    (s + length (puthead 192 247 (Z.of_nat n)))%nat.
  split; [|split; [|split]].
  - f_equal.
    + by rewrite <- app_assoc, <- (Nat.add_0_r (length (eb_lheads w))), insert_app_r.
    + rewrite length_puthead. case_match; lia.
  - change (Encode (RList l)) with (puthead 192 247 (Z.of_nat n) ++ payload l).
    rewrite length_app. lia.
  - constructor; [done|done].
  - intros tail heads' Hh. rewrite <- app_comm_cons, write_heads_here, Hw by done.
    by rewrite app_assoc.
Qed.

Lemma encbuf_encode_writes val : forall w, writes (Encode val) w (encbuf_encode val w).
Proof.
  induction val as [b|l IH] using rlp_item_nested_ind; intros w.
  - exists (encode_string b), [], 0%nat. cbn [encbuf_encode Encode]. unfold encodeString.
    rewrite app_nil_r, !Nat.add_0_r. split; [done|]. split; [done|]. split; [constructor|].
    intros tail heads' Hh. by apply write_heads_app.
  - apply (writes_list l w (fold_left (fun w v => encbuf_encode v w) l (encbuf_list w).1)). generalize (encbuf_list w).1. unfold payload.
    induction IH as [|v l Hv Hl IHl]; intros w'; [apply writes_nil|]. cbn.
    eapply writes_app; [apply Hv|apply IHl].
Qed.

(** ** Splitting *)

Lemma lor_byte s x : 0 <= s -> is_byte x -> Z.lor (Z.shiftl s 8) x = s * 256 + x.
Proof.
  intros Hs Hx. unfold is_byte in Hx.
  assert (Hland : Z.land (Z.shiftl s 8) x = 0).
  { apply Z.bits_inj'. intros n Hn. rewrite Z.land_spec, Z.bits_0.
    destruct (Z.ltb_spec n 8).
    - by rewrite Z.shiftl_spec_low by lia.
    - rewrite <- (Z.mod_small x (2 ^ 8)) by lia. rewrite Z.mod_pow2_bits_high by lia.
      apply andb_false_r. }
  rewrite <- Z.lxor_lor, <- Z.add_nocarry_lxor, Z.shiftl_mul_pow2 by done. done.
Qed.

Lemma read_be_from n i s :
  0 <= s ->
  fold_left (fun s x => Z.lor (Z.shiftl s 8) x) (big_endian n i) s
  = s * 2 ^ (8 * Z.of_nat n) + i mod 2 ^ (8 * Z.of_nat n).
Proof.
  revert s. induction n as [|n IH]; intros s Hs.
  { cbn. rewrite Z.mod_1_r. lia. }
  assert (Hb : is_byte (Z.shiftr i (8 * Z.of_nat n) mod 256)) by (apply Z.mod_pos_bound; lia).
  cbn [big_endian fold_left]. rewrite lor_byte by done. unfold is_byte in Hb. rewrite IH by lia.
  rewrite Z.shiftr_div_pow2 by lia.
  replace (8 * Z.of_nat (S n)) with (8 * Z.of_nat n + 8) by lia. rewrite Z.pow_add_r by lia.
  set (m := 2 ^ (8 * Z.of_nat n)). assert (0 < m) by (apply Z.pow_pos_nonneg; lia).
  rewrite (Z.rem_mul_r i m (2 ^ 8)) by lia. change (2 ^ 8) with 256. lia.
Qed.

(** The bytes of a size: one to eight, the first not 0, and they are read again. *)
Lemma putint_spec i :
  0 < i < 2 ^ 64 ->
  exists n x l, putint i = x :: l /\ length (putint i) = n /\ (1 <= n <= 8)%nat
    /\ x <> 0 /\ read_be (putint i) = i.
Proof.
  intros Hi.
  assert (Hn' : exists n, putint i = big_endian (S n) i /\ (n <= 7)%nat
    /\ 2 ^ (8 * Z.of_nat n) <= i < 2 ^ (8 * Z.of_nat (S n))).
  { unfold putint. repeat case_match;
      [exists 0%nat|exists 1%nat|exists 2%nat|exists 3%nat|exists 4%nat|exists 5%nat|exists 6%nat|exists 7%nat];
      (split; [done|]); (split; [lia|]); cbn; lia. }
  destruct Hn' as (n & Hp & Hn7 & Hr). rewrite Hp.
  exists (S n), (Z.shiftr i (8 * Z.of_nat n) mod 256), (big_endian n i).
  split; [done|]. split; [apply length_big_endian|]. split; [lia|]. split.
  - rewrite Z.shiftr_div_pow2 by lia.
    replace (8 * Z.of_nat (S n)) with (8 * Z.of_nat n + 8) in Hr by lia. rewrite Z.pow_add_r in Hr by lia.
    set (m := 2 ^ (8 * Z.of_nat n)) in *. assert (0 < m) by (apply Z.pow_pos_nonneg; lia).
    assert (1 <= i / m < 256).
    { split; [apply Z.div_le_lower_bound; lia|apply Z.div_lt_upper_bound; lia]. }
    rewrite Z.mod_small; lia.
  - unfold read_be. rewrite read_be_from by lia. rewrite Z.mod_small by lia. lia.
Qed.

(** The length of a slice. *)
Definition fits (b : bytes) : Prop := Z.of_nat (length b) < 2 ^ 64.

Lemma checkSize_ok head c rest k :
  checkSize (head ++ c ++ rest) k (length head) (inl (Z.of_nat (length c)))
  = inl (k, length head, length c).
Proof.
  unfold checkSize. rewrite !length_app. rewrite (proj2 (Z.ltb_ge _ _)) by lia. by rewrite Nat2Z.id.
Qed.

Lemma readSize_ok i n rest :
  56 <= i < 2 ^ 64 -> length (putint i) = n -> readSize (putint i ++ rest) n = inl i.
Proof.
  intros Hi <-. destruct (putint_spec i ltac:(lia)) as (n & x & l & Hp & _ & _ & Hx & Hr).
  unfold readSize. rewrite length_app, (proj2 (Nat.ltb_ge _ _)) by lia.
  rewrite take_app_length, Hr, (proj2 (Z.ltb_ge _ _)) by lia. rewrite Hp. cbn.
  by rewrite (proj2 (Z.eqb_neq _ _)).
Qed.

(** The header of a string or list of 56 bytes or more, or of fewer. *)
Lemma readKind_list l rest :
  fits l ->
  readKind (puthead 192 247 (Z.of_nat (length l)) ++ l ++ rest)
  = inl (List, length (puthead 192 247 (Z.of_nat (length l))), length l).
Proof.
  intros Hf. unfold fits in Hf. set (head := puthead _ _ _).
  pose proof (checkSize_ok head l rest List) as Hc. revert Hc. unfold head, puthead.
  destruct (Z.ltb_spec (Z.of_nat (length l)) 56) as [Hs|Hs].
  - cbn [app readKind length]. rewrite (proj2 (Z.ltb_ge _ 128)), (proj2 (Z.ltb_ge _ 184)),
      (proj2 (Z.ltb_ge _ 192)), (proj2 (Z.ltb_lt _ 248)) by lia.
    by replace (192 + Z.of_nat (length l) - 192) with (Z.of_nat (length l)) by lia.
  - destruct (putint_spec (Z.of_nat (length l)) ltac:(lia)) as (n & x & l' & _ & Hn & Hn8 & _ & _).
    cbn [app readKind length]. rewrite Hn. rewrite (proj2 (Z.ltb_ge _ 128)), (proj2 (Z.ltb_ge _ 184)),
      (proj2 (Z.ltb_ge _ 192)), (proj2 (Z.ltb_ge _ 248)) by lia.
    replace (Z.to_nat (247 + Z.of_nat n - 247)) with n by lia.
    rewrite (readSize_ok _ n) by (done || lia). by rewrite Nat.add_1_r.
Qed.

Lemma readKind_string b rest :
  fits b -> (forall x, b = [x] -> 128 <= x) ->
  readKind (encodeStringHeader (Z.of_nat (length b)) ++ b ++ rest)
  = inl (String, length (encodeStringHeader (Z.of_nat (length b))), length b).
Proof.
  intros Hf H1. unfold fits in Hf. set (head := encodeStringHeader _).
  pose proof (checkSize_ok head b rest String) as Hc. revert Hc. unfold head, encodeStringHeader.
  destruct (Z.ltb_spec (Z.of_nat (length b)) 56) as [Hs|Hs].
  - cbn [app readKind length]. rewrite (proj2 (Z.ltb_ge _ 128)), (proj2 (Z.ltb_lt _ 184)) by lia.
    replace (128 + Z.of_nat (length b) - 128) with (Z.of_nat (length b)) by lia.
    assert (Hno : (Z.of_nat (length b) =? 1) && match b ++ rest with x :: _ => x <? 128 | [] => false end
      = false).
    { destruct (Z.eqb_spec (Z.of_nat (length b)) 1); [|done]. destruct b as [|x [|y b]]; cbn in *; try lia.
      specialize (H1 x eq_refl). by apply Z.ltb_ge. }
    by rewrite Hno.
  - destruct (putint_spec (Z.of_nat (length b)) ltac:(lia)) as (n & x & l' & _ & Hn & Hn8 & _ & _).
    cbn [app readKind length]. rewrite Hn. rewrite (proj2 (Z.ltb_ge _ 128)), (proj2 (Z.ltb_ge _ 184)),
      (proj2 (Z.ltb_lt _ 192)) by lia.
    replace (Z.to_nat (183 + Z.of_nat n - 183)) with n by lia.
    rewrite (readSize_ok _ n) by (done || lia). by rewrite Nat.add_1_r.
Qed.

Lemma Split_head head c rest k :
  readKind (head ++ c ++ rest) = inl (k, length head, length c) ->
  Split (head ++ c ++ rest) = inl (k, c, rest).
Proof.
  intros Hr. unfold Split. rewrite Hr, drop_app_length, take_app_length.
  by rewrite <- drop_drop, !drop_app_length.
Qed.

Lemma Split_RList l rest :
  fits (payload l) -> Split (Encode (RList l) ++ rest) = inl (List, payload l, rest).
Proof.
  intros Hf. cbn [Encode]. fold (payload l). rewrite <- app_assoc. by apply Split_head, readKind_list.
Qed.

(** A string that is one byte below 128 is its own encoding. *)
Definition string_kind (b : bytes) : Kind :=
  match b with [x] => if x <=? 127 then Byte else String | _ => String end.

Lemma Split_RStr b rest :
  fits b -> Split (Encode (RStr b) ++ rest) = inl (string_kind b, b, rest).
Proof.
  intros Hf. cbn [Encode].
  assert (Hlong : (forall x, b = [x] -> 128 <= x) -> string_kind b = String ->
    encode_string b = encodeStringHeader (Z.of_nat (length b)) ++ b ->
    Split (encode_string b ++ rest) = inl (string_kind b, b, rest)).
  { intros H1 -> ->. rewrite <- app_assoc. by apply Split_head, readKind_string. }
  destruct b as [|x [|y b]]; [by apply Hlong| |by apply Hlong].
  unfold encode_string, string_kind in *. destruct (Z.leb_spec x 127).
  - unfold Split. cbn [app readKind]. rewrite (proj2 (Z.ltb_lt _ _)) by lia.
    unfold checkSize. rewrite (proj2 (Z.ltb_ge _ _)) by (cbn [length]; lia). done.
  - apply Hlong; [|done|done]. intros x' [= <-]. lia.
Qed.

(** What [Split] returns for an encoded value. *)
Definition content (v : rlp_item) : bytes :=
  match v with RStr b => b | RList l => payload l end.

Definition kind (v : rlp_item) : Kind :=
  match v with RStr b => string_kind b | RList _ => List end.

Lemma content_length v : (length (content v) <= length (Encode v))%nat.
Proof.
  destruct v as [b|l]; cbn [content Encode]; [|rewrite length_app; unfold payload; lia].
  unfold encode_string. destruct b as [|x [|y b]]; [cbn; lia| |rewrite length_app; lia].
  destruct (x <=? 127); [done|rewrite length_app; lia].
Qed.

Lemma Split_Encode v rest :
  fits (content v) -> Split (Encode v ++ rest) = inl (kind v, content v, rest).
Proof. destruct v; cbn [content kind]; [apply Split_RStr|apply Split_RList]. Qed.

Lemma payload_cons v l : payload (v :: l) = Encode v ++ payload l.
Proof. done. Qed.

Lemma fits_cons v l : fits (payload (v :: l)) -> fits (content v) /\ fits (payload l).
Proof.
  unfold fits. rewrite payload_cons, length_app. pose proof (content_length v). lia.
Qed.

Lemma SplitString_RStr b rest :
  fits b -> SplitString (Encode (RStr b) ++ rest) = inl (b, rest).
Proof.
  intros Hf. unfold SplitString. rewrite Split_RStr by done. unfold string_kind.
  destruct b as [|x [|y b]]; [done| |done]. by destruct (x <=? 127).
Qed.

Lemma SplitList_RList l rest :
  fits (payload l) -> SplitList (Encode (RList l) ++ rest) = inl (payload l, rest).
Proof. intros Hf. unfold SplitList. by rewrite Split_RList. Qed.

Lemma readKind_Encode v rest :
  fits (content v) -> exists ts cs, readKind (Encode v ++ rest) = inl (kind v, ts, cs)
    /\ drop (ts + cs) (Encode v ++ rest) = rest.
Proof.
  intros Hf. pose proof (Split_Encode v rest Hf) as Hs. unfold Split in Hs.
  destruct (readKind _) as [[[k ts] cs]|err]; [|done]. injection Hs as -> _ Hd. by exists ts, cs.
Qed.

Lemma Encode_not_nil v : Encode v <> [].
Proof.
  destruct v as [b|l]; cbn [Encode].
  - unfold encode_string, encodeStringHeader. by repeat case_match.
  - unfold puthead. by case_match.
Qed.

Lemma count_loop_payload l : forall fuel i,
  fits (payload l) -> (length (payload l) <= fuel)%nat ->
  count_loop fuel i (payload l) = inl (i + length l)%nat.
Proof.
  induction l as [|v l IH]; intros fuel i Hf Hl.
  { destruct fuel; cbn; by rewrite Nat.add_0_r. }
  apply fits_cons in Hf as [Hv Hf]. rewrite payload_cons in *.
  destruct (readKind_Encode v (payload l) Hv) as (ts & cs & Hr & Hd).
  pose proof (Encode_not_nil v) as Hne. rewrite length_app in Hl.
  destruct (Encode v) as [|x e] eqn:He; [done|]. cbn [length app] in *.
  destruct fuel as [|fuel]; [lia|]. cbn [count_loop]. rewrite Hr, Hd.
  rewrite IH; [f_equal; lia|done|lia].
Qed.

Lemma CountValues_payload l : fits (payload l) -> CountValues (payload l) = inl (length l).
Proof. intros Hf. unfold CountValues. by rewrite count_loop_payload. Qed.

(** The values of an encoded list, split one after the other. *)
Fixpoint split_values (n : nat) (b : bytes) : list (Kind * bytes) + RlpError :=
  match n with
  | O => inl []
  | S n' =>
      match Split b with
      | inr err => inr err
      | inl (k, c, rest) =>
          match split_values n' rest with
          | inr err => inr err
          | inl l => inl ((k, c) :: l)
          end
      end
  end.

Lemma split_values_payload l :
  fits (payload l) -> split_values (length l) (payload l) = inl (map (fun v => (kind v, content v)) l).
Proof.
  induction l as [|v l IH]; intros Hf; [done|]. apply fits_cons in Hf as [Hv Hf].
  cbn [length split_values map]. rewrite payload_cons, Split_Encode, IH by done. done.
Qed.

Lemma EncodeToBytes_eq val : EncodeToBytes val = Encode val.
Proof.
  unfold EncodeToBytes, encbuf_toBytes.
  destruct (encbuf_encode_writes val encbuf_reset) as (d & h & s & -> & _ & _ & Hw). cbn in Hw |- *.
  specialize (Hw [] []). rewrite !app_nil_r in Hw. apply Hw. constructor.
Qed.

(** The encoding buffer, which writes the string data and the list headers
    separately and computes the sizes of nested lists from the running size
    of both, produces the recursive RLP encoding of every value. *)
Theorem EncodeToBytes_Encode val : EncodeToBytes val = Encode val.
Proof. apply EncodeToBytes_eq. Qed.
(** What the encoding buffer writes for a list can be taken apart again:
    the list is split off whatever follows it, its values are counted, and
    splitting them one by one gives the kind and the content of each. *)
Theorem rlp_split_roundtrip l rest :
  fits (payload l) ->
  SplitList (EncodeToBytes (RList l) ++ rest) = inl (payload l, rest)
  /\ CountValues (payload l) = inl (length l)
  /\ split_values (length l) (payload l) = inl (map (fun v => (kind v, content v)) l).
Proof.
  intros Hf. rewrite EncodeToBytes_eq. split; [by apply SplitList_RList|].
  split; [by apply CountValues_payload|by apply split_values_payload].
Qed.

Lemma rlp_split_roundtrip_witness :
  fits (payload [RStr [1]; RStr (replicate 60 200); RList [RStr []; RStr [128]]])
  /\ CountValues (payload [RStr [1]; RStr (replicate 60 200); RList [RStr []; RStr [128]]]) = inl 3%nat.
Proof.
  assert (Hf : fits (payload [RStr [1]; RStr (replicate 60 200); RList [RStr []; RStr [128]]])).
  { vm_compute. reflexivity. }
  split; [exact Hf|]. exact (proj1 (proj2 (rlp_split_roundtrip _ [7] Hf))).
Defined.
