(* ===== verification/Trie.v ===== *)
(** * The Merkle Patricia trie

    Models [trie/node.go], [trie/trie.go] and [trie/proof.go]. A node is owned by
    one parent, so that what the source changes in place is the value of the
    node afterwards; where an operation fails after it has changed a node, the
    changed node is returned beside the error. The database and the hash function
    are parameters. A walk has a step for every node and for every hash that a
    node is loaded from; [walk_fuel] is enough for a key, unless the database holds
    extension nodes with empty keys. A panic is [None], and so is a walk that is
    longer than that. *)

From Stdlib Require Import ZArith Lia.
From S2P Require Import Prelude Common Rlp.

Open Scope Z_scope.

(** ** [node.go] *)

Definition numBranchChildren : nat := 17.

Inductive nodeStatus : Type :=
| nodeStatusDirty
| nodeStatusUpdated
| nodeStatusPersisted.

#[export] Instance nodeStatus_eq_dec : EqDecision nodeStatus.
Proof. solve_decision. Defined.

Record Node := mkNode { nd_hash : bytes; nd_status : nodeStatus }.

(** The interface [noder] and its implementations; a nil interface is [NilNode]. *)
Inductive noder : Type :=
| NilNode
| ExtensionNode (nd : Node) (Key : bytes) (NextNode : noder)
| LeafNode (nd : Node) (Key Value : bytes)
| BranchNode (nd : Node) (Children : list noder)
| hashNode (hash : bytes).

Definition zeroNode : Node := mkNode [] nodeStatusDirty.

Definition newPersistedNode (hash : bytes) : Node := mkNode hash nodeStatusPersisted.

Definition dirty (nd : Node) : Node := mkNode (nd_hash nd) nodeStatusDirty.

Definition node_Hash (n : noder) : bytes :=
  match n with
  | NilNode => []
  | ExtensionNode nd _ _ | LeafNode nd _ _ | BranchNode nd _ => nd_hash nd
  | hashNode h => h
  end.

Definition node_Status (n : noder) : nodeStatus :=
  match n with
  | NilNode => nodeStatusDirty
  | ExtensionNode nd _ _ | LeafNode nd _ _ | BranchNode nd _ => nd_status nd
  | hashNode _ => nodeStatusPersisted
  end.

Definition is_nil (n : noder) : bool := match n with NilNode => true | _ => false end.

(** ** Parameters *)

(** The Keccak-256 hash. *)
Class TrieEnv := { sha_sum : bytes -> bytes }.

(** The errors; [io.ErrUnexpectedEOF] is also one of [rlp]. *)
Inductive TrieError : Type :=
| errNodeFormat
| errNodeNotExist
| errRlp (err : RlpError).

#[export] Instance TrieError_eq_dec : EqDecision TrieError.
Proof. solve_decision. Defined.

(** [Database.Get]; an error is [None]. *)
Definition Database : Type := bytes -> option bytes.

Record Trie := mkTrie {
  t_db : Database;
  t_root : noder;
  t_dbprefix : bytes
}.

(** ** Keys *)

(** The nibbles of a key, and 16 at the end. *)
Fixpoint keynibbles (str : bytes) : bytes :=
  match str with
  | [] => [16]
  | b :: str' => b / 16 :: b mod 16 :: keynibbles str'
  end.

Definition keybytesToHex (str : bytes) : bytes := keynibbles str.

Fixpoint matchkeyLen (a b : bytes) : nat :=
  match a, b with
  | x :: a', y :: b' => if x =? y then S (matchkeyLen a' b') else 0
  | _, _ => 0
  end.

(** The child at an index that is a byte of a key. *)
Definition child (cs : list noder) (b : Z) : option noder :=
  if (0 <=? b) then cs !! Z.to_nat b else None.

Definition set_child (cs : list noder) (b : Z) (c : noder) : list noder :=
  <[Z.to_nat b := c]> cs.

Definition noChildren : list noder := replicate numBranchChildren NilNode.

Section trie.
Context `{TrieEnv}.

(** ** Loading nodes *)

Definition decodeLeafNode (hash values : bytes) : noder + TrieError :=
  match SplitString values with
  | inr err => inr (errRlp err)
  | inl (key, rest) =>
      match SplitString rest with
      | inr err => inr (errRlp err)
      | inl (val, _) => inl (LeafNode (newPersistedNode hash) key val)
      end
  end.

Definition decodeExtensionNode (hash values : bytes) : noder + TrieError :=
  match SplitString values with
  | inr err => inr (errRlp err)
  | inl (_, bufs) =>
      match SplitString bufs with
      | inr err => inr (errRlp err)
      | inl (key, rest) =>
          match SplitString rest with
          | inr err => inr (errRlp err)
          | inl (val, _) => inl (ExtensionNode (newPersistedNode hash) key (hashNode val))
          end
      end
  end.

(** The children, [n] of them. *)
Fixpoint decode_children (n : nat) (elems : bytes) : list noder + TrieError :=
  match n with
  | O => inl []
  | S n' =>
      match Split elems with
      | inr err => inr (errRlp err)
      | inl (kind, val, rest) =>
          let c := if bool_decide (kind = String) && (length val =? HashLength)%nat
                   then hashNode val else NilNode in
          match decode_children n' rest with
          | inl cs => inl (c :: cs)
          | inr err => inr err
          end
      end
  end.

Definition decodeBranchNode (hash values : bytes) : noder + TrieError :=
  match Split values with
  | inr err => inr (errRlp err)
  | inl (kind, elems, _) =>
      match CountValues elems with
      | inr err => inr (errRlp err)
      | inl itemcount =>
          if negb (bool_decide (kind = List)) && negb (itemcount =? numBranchChildren)%nat
          then inr errNodeFormat
          else match decode_children numBranchChildren elems with
               | inl cs => inl (BranchNode (newPersistedNode hash) cs)
               | inr err => inr err
               end
      end
  end.

Definition decodeNode (hash value : bytes) : noder + TrieError :=
  if (length value =? 0)%nat then inr (errRlp ErrUnexpectedEOF)
  else
    match SplitList value with
    | inr err => inr (errRlp err)
    | inl (vals, _) =>
        match CountValues vals with
        | inr err => inr (errRlp err)
        | inl 1%nat => decodeBranchNode hash vals
        | inl 2%nat => decodeLeafNode hash vals
        | inl 3%nat => decodeExtensionNode hash vals
        | inl _ => inr errNodeFormat
        end
    end.

Definition loadNode (t : Trie) (hash : bytes) : noder + TrieError :=
  match t_db t (t_dbprefix t ++ hash) with
  | None => inr errNodeNotExist
  | Some val => if (length val =? 0)%nat then inr errNodeNotExist else decodeNode hash val
  end.

(** ** Reading *)

(** The value, whether it was found, the node in which what was loaded is cached,
    and the error. *)
Fixpoint get (fuel : nat) (t : Trie) (node : noder) (key : bytes) (pos : nat)
    : option (bytes * bool * noder * option TrieError) :=
  match fuel with
  | O => None
  | S fuel' =>
      match node with
      | NilNode => Some ([], false, NilNode, None)
      | ExtensionNode nd k next =>
          if (length key - pos <? length k)%nat || negb (bytes_eqb k (take (length k) (drop pos key)))
          then Some ([], false, node, None)
          else
            match get fuel' t next key (pos + length k) with
            | None => None
            | Some (val, found, newnode, err) =>
                Some (val, found, ExtensionNode nd k newnode, err)
            end
      | hashNode h =>
          match loadNode t h with
          | inr err => Some ([], false, node, Some err)
          | inl c => get fuel' t c key pos
          end
      | LeafNode nd k v =>
          if (length key - pos <? length k)%nat || negb (bytes_eqb k (take (length k) (drop pos key)))
          then Some ([], false, node, None)
          else Some (v, true, node, None)
      | BranchNode nd cs =>
          match key !! pos with
          | None => None
          | Some b =>
              match child cs b with
              | None => None
              | Some c =>
                  match get fuel' t c key (pos + 1) with
                  | None => None
                  | Some (val, found, newnode, err) =>
                      Some (val, found, BranchNode nd (set_child cs b newnode), err)
                  end
              end
          end
      end
  end.

(** ** Writing *)

(** The end of the two insertions: a branch, below an extension when a part of the
    key matches. *)
Definition split_node (key : bytes) (matchlen : nat) (branchnode : noder) : noder :=
  if (matchlen =? 0)%nat then branchnode
  else ExtensionNode zeroNode (take matchlen key) branchnode.

(** The calls of [insert] on a nil node make a leaf. *)
Definition insertLeafNode (nd : Node) (k v key value : bytes) : option (noder + TrieError) :=
  let matchlen := matchkeyLen k key in
  if (matchlen =? length k)%nat then Some (inl (LeafNode (dirty nd) k value))
  else
    match k !! matchlen, key !! matchlen with
    | Some b, Some b' =>
        let cs := set_child noChildren b (LeafNode (dirty nd) (drop (matchlen + 1) k) v) in
        let newNode := LeafNode zeroNode (drop (matchlen + 1) key) value in
        Some (inl (split_node key matchlen (BranchNode zeroNode (set_child cs b' newNode))))
    | _, _ => None
    end.

Definition insertExtensionNode (insert : noder -> bytes -> option (noder + TrieError))
    (nd : Node) (k : bytes) (next : noder) (key value : bytes) : option (noder + TrieError) :=
  let matchlen := matchkeyLen k key in
  if (matchlen =? length k)%nat then
    match insert next (drop matchlen key) with
    | None => None
    | Some (inr err) => Some (inr err)
    | Some (inl newNode) => Some (inl (ExtensionNode (dirty nd) k newNode))
    end
  else
    match k !! matchlen, key !! matchlen with
    | Some b, Some b' =>
        let moved := if (matchlen =? length k - 1)%nat then next
                     else ExtensionNode (dirty nd) (drop (matchlen + 1) k) next in
        let cs := set_child noChildren b moved in
        let newNode := LeafNode zeroNode (drop (matchlen + 1) key) value in
        Some (inl (split_node key matchlen (BranchNode zeroNode (set_child cs b' newNode))))
    | _, _ => None
    end.

Fixpoint insert (fuel : nat) (t : Trie) (value : bytes) (node : noder) (key : bytes)
    : option (noder + TrieError) :=
  match fuel with
  | O => None
  | S fuel' =>
      match node with
      | ExtensionNode nd k next =>
          insertExtensionNode (insert fuel' t value) nd k next key value
      | LeafNode nd k v => insertLeafNode nd k v key value
      | BranchNode nd cs =>
          match key with
          | [] => None
          | b :: rest =>
              match child cs b with
              | None => None
              | Some c =>
                  match insert fuel' t value c rest with
                  | None => None
                  | Some (inr err) => Some (inr err)
                  | Some (inl c') => Some (inl (BranchNode (dirty nd) (set_child cs b c')))
                  end
              end
          end
      | hashNode h =>
          match loadNode t h with
          | inr err => Some (inr err)
          | inl loadnode => insert fuel' t value loadnode key
          end
      | NilNode => Some (inl (LeafNode zeroNode key value))
      end
  end.

(** ** Deleting *)

(** What [delete] returns, and the node it was given as it is then. *)
Record deletion := mkDeletion {
  del_match : bool;
  del_new : noder;
  del_err : option TrieError;
  del_self : noder
}.

(** The last child that is not nil, and how many there are. *)
Fixpoint count_children (i : nat) (cs : list noder) : nat * nat :=
  match cs with
  | [] => (0, 0)%nat
  | c :: cs' =>
      let '(pos, count) := count_children (S i) cs' in
      if is_nil c then (pos, count)
      else ((if (count =? 0)%nat then i else pos), S count)
  end.

(** The last child, loaded when it is a hash. *)
Definition load_child (t : Trie) (c : noder) : noder + TrieError :=
  match c with
  | hashNode h => loadNode t h
  | c => inl c
  end.

(** A branch that lost a child: with one child left that is a leaf or an
    extension, it becomes that. *)
Definition shrink_branch (t : Trie) (nd : Node) (cs : list noder) : deletion :=
  let n := BranchNode (dirty nd) cs in
  let '(pos, count) := count_children 0 cs in
  if negb (count =? 1)%nat then mkDeletion true n None n
  else
    match load_child t (nth pos cs NilNode) with
    | inr err => mkDeletion true NilNode (Some err) n
    | inl (LeafNode _ k v) => mkDeletion true (LeafNode zeroNode (Z.of_nat pos :: k) v) None n
    | inl (ExtensionNode _ k next) =>
        mkDeletion true (ExtensionNode zeroNode (Z.of_nat pos :: k) next) None n
    | inl _ => mkDeletion true n None n
    end.

Fixpoint delete (fuel : nat) (t : Trie) (descendant : bool) (node : noder) (key : bytes)
    : option deletion :=
  match fuel with
  | O => None
  | S fuel' =>
      match node with
      | LeafNode nd k v =>
          let matchlen := matchkeyLen key k in
          if (matchlen =? length k)%nat || (matchlen =? length key)%nat
          then Some (mkDeletion true NilNode None node)
          else Some (mkDeletion false node None node)
      | ExtensionNode nd k next =>
          let matchlen := matchkeyLen key k in
          if descendant && (matchlen =? length key)%nat
          then Some (mkDeletion true NilNode None node)
          else if (matchlen =? length k)%nat then
            match delete fuel' t descendant next (drop matchlen key) with
            | None => None
            | Some (mkDeletion _ _ (Some err) self) =>
                Some (mkDeletion false NilNode (Some err) (ExtensionNode nd k self))
            | Some (mkDeletion true newnode None _) =>
                let n := ExtensionNode (dirty nd) k newnode in
                Some (mkDeletion true (if is_nil newnode then NilNode else n) None n)
            | Some (mkDeletion false _ None _) => Some (mkDeletion false node None node)
            end
          else Some (mkDeletion false node None node)
      | BranchNode nd cs =>
          match key with
          | [] => None
          | b :: rest =>
              match child cs b with
              | None => None
              | Some c =>
                  if descendant && (length key =? 1)%nat then
                    if is_nil c then Some (mkDeletion false node None node)
                    else Some (shrink_branch t nd (set_child cs b NilNode))
                  else
                    match delete fuel' t descendant c rest with
                    | None => None
                    | Some (mkDeletion _ _ (Some err) self) =>
                        Some (mkDeletion false NilNode (Some err) (BranchNode nd (set_child cs b self)))
                    | Some (mkDeletion false _ None _) => Some (mkDeletion false node None node)
                    | Some (mkDeletion true newnode None _) =>
                        Some (shrink_branch t nd (set_child cs b newnode))
                    end
              end
          end
      | hashNode h =>
          match loadNode t h with
          | inr err => Some (mkDeletion false NilNode (Some err) node)
          | inl loadnode =>
              match delete fuel' t descendant loadnode key with
              | None => None
              | Some d => Some (mkDeletion (del_match d) (del_new d) (del_err d) node)
              end
          end
      | NilNode => Some (mkDeletion false NilNode None NilNode)
      end
  end.

(** ** Hashing *)

(** The encoding of a node, given the hashes of what is below. *)
Definition encode_leaf (k v : bytes) : bytes := EncodeToBytes (RList [RStr k; RStr v]).
Definition encode_extension (k nexthash : bytes) : bytes :=
  EncodeToBytes (RList [RStr [1]; RStr k; RStr nexthash]).
Definition encode_branch (children : list bytes) : bytes :=
  EncodeToBytes (RList [RList (map RStr children)]).

(** The node, its hash and the nodes that are put in the batch, each with its
    hash; [batch] tells whether there is one. *)
Definition finish_hash (batch : bool) (nd : Node) (buf : bytes) : Node * list (bytes * bytes) :=
  let hash := if bool_decide (nd_status nd = nodeStatusDirty) then sha_sum buf else nd_hash nd in
  (mkNode hash (if batch then nodeStatusPersisted else nodeStatusUpdated),
   if batch then [(hash, buf)] else []).

Definition hash_known (batch : bool) (n : noder) : bool :=
  match node_Status n with
  | nodeStatusPersisted => true
  | nodeStatusUpdated => negb batch
  | nodeStatusDirty => false
  end.

Fixpoint nodeHash (batch : bool) (node : noder) : noder * bytes * list (bytes * bytes) :=
  if hash_known batch node then (node, node_Hash node, [])
  else
    match node with
    | NilNode => (NilNode, [], [])
    | hashNode h => (node, h, [])
    | LeafNode nd k v =>
        let '(nd', w) := finish_hash batch nd (encode_leaf k v) in
        (LeafNode nd' k v, nd_hash nd', w)
    | ExtensionNode nd k next =>
        let '(next', nexthash, w1) := nodeHash batch next in
        let '(nd', w) := finish_hash batch nd (encode_extension k nexthash) in
        (ExtensionNode nd' k next', nd_hash nd', w1 ++ w)
    | BranchNode nd cs =>
        let rs := map (nodeHash batch) cs in
        let '(nd', w) := finish_hash batch nd (encode_branch (map (fun r => r.1.2) rs)) in
        (BranchNode nd' (map (fun r => r.1.1) rs), nd_hash nd', mjoin (map snd rs) ++ w)
    end.

(** ** The methods of [Trie] *)

(** Enough for every step of a walk down a key: a node and, before it, the hash
    node it is loaded from. *)
Definition walk_fuel (key : bytes) : nat := 2 * length key + 2.

Definition with_root (t : Trie) (root : noder) : Trie := mkTrie (t_db t) root (t_dbprefix t).

Definition NewEmptyTrie (dbprefix : bytes) (db : Database) : Trie := mkTrie db NilNode dbprefix.

Definition Hash_IsEmpty (h : Hash) : bool := bytes_eqb h EmptyHash.

Definition NewTrie (root : Hash) (dbprefix : bytes) (db : Database) : Trie + TrieError :=
  let trie := NewEmptyTrie dbprefix db in
  if Hash_IsEmpty root then inl trie
  else match loadNode trie root with
       | inr err => inr err
       | inl rootnode => inl (with_root trie rootnode)
       end.

Definition Trie_Put (t : Trie) (key value : bytes) : option (Trie * option TrieError) :=
  let key := keybytesToHex key in
  match insert (walk_fuel key) t value (t_root t) key with
  | None => None
  | Some (inl node) => Some (with_root t node, None)
  | Some (inr err) => Some (t, Some err)
  end.

(** The trie after a deletion. *)
Definition after_deletion (t : Trie) (d : deletion) : Trie * bool * option TrieError :=
  match d with
  | mkDeletion true newnode None _ => (with_root t newnode, true, None)
  | mkDeletion m _ err self => (with_root t self, m, err)
  end.

Definition Trie_Delete (t : Trie) (key : bytes) : option (Trie * bool * option TrieError) :=
  if is_nil (t_root t) then Some (t, false, None)
  else
    let key := keybytesToHex key in
    match delete (walk_fuel key) t false (t_root t) key with
    | None => None
    | Some d => Some (after_deletion t d)
    end.

Definition Trie_DeletePrefix (t : Trie) (prefix : bytes) : option (Trie * bool * option TrieError) :=
  if (length prefix =? 0)%nat || is_nil (t_root t) then Some (t, false, None)
  else
    let key := keybytesToHex prefix in
    let key := take (length key - 1) key in
    match delete (walk_fuel key) t true (t_root t) key with
    | None => None
    | Some d => Some (after_deletion t d)
    end.

(** The root that [get] returns is dropped, but it is the root that was given,
    with what was loaded below it. *)
Definition Trie_Get (t : Trie) (key : bytes) : option (Trie * bytes * bool * option TrieError) :=
  if is_nil (t_root t) then Some (t, [], false, None)
  else
    let key := keybytesToHex key in
    match get (walk_fuel key) t (t_root t) key 0 with
    | None => None
    | Some (val, found, root, err) =>
        Some (match t_root t with hashNode _ => t | _ => with_root t root end, val, found, err)
    end.

Definition Trie_Hash (t : Trie) : Trie * Hash :=
  if is_nil (t_root t) then (t, EmptyHash)
  else
    let '(root, h, _) := nodeHash false (t_root t) in
    (with_root t root, BytesToHash (node_Hash root)).

Definition Trie_Commit (t : Trie) : Trie * Hash * list (bytes * bytes) :=
  if is_nil (t_root t) then (t, EmptyHash, [])
  else
    let '(root, h, w) := nodeHash true (t_root t) in
    (with_root t root, BytesToHash (node_Hash root), map (fun kv => (t_dbprefix t ++ kv.1, kv.2)) w).

(** ** [proof.go] *)

(** The nodes on the way to a key. *)
Fixpoint proof_nodes (fuel : nat) (t : Trie) (tn : noder) (key : bytes)
    : option (list noder * option TrieError) :=
  match fuel with
  | O => None
  | S fuel' =>
      match key, tn with
      | [], _ => Some ([], None)
      | _, NilNode => Some ([], None)
      | _, ExtensionNode nd k next =>
          if (length key <? length k)%nat || negb (bytes_eqb k (take (length k) key))
          then Some ([tn], None)
          else match proof_nodes fuel' t next (drop (length k) key) with
               | None => None
               | Some (l, err) => Some (tn :: l, err)
               end
      | b :: rest, BranchNode nd cs =>
          match child cs b with
          | None => None
          | Some c =>
              match proof_nodes fuel' t c rest with
              | None => None
              | Some (l, err) => Some (tn :: l, err)
              end
          end
      | _, hashNode h =>
          match loadNode t h with
          | inr err => Some ([], Some err)
          | inl n => proof_nodes fuel' t n key
          end
      | _, LeafNode nd k v =>
          if (length k <=? length key)%nat && bytes_eqb k (take (length k) key)
          then Some ([tn], None) else Some ([], None)
      end
  end.

(** [encodeNode]: the hashes of what is below are those of [nodeHash]. *)
Definition encodeNode (n : noder) : bytes :=
  match n with
  | LeafNode _ k v => encode_leaf k v
  | ExtensionNode _ k next => encode_extension k (nodeHash false next).1.2
  | BranchNode _ cs => encode_branch (map (fun c => (nodeHash false c).1.2) cs)
  | NilNode | hashNode _ => []
  end.

(** A proof maps the hash of a node to its encoding; an error drops it all. *)
Definition GetProof (t : Trie) (key : bytes) : option (gmap bytes bytes * option TrieError) :=
  let key := keybytesToHex key in
  match proof_nodes (walk_fuel key) t (t_root t) key with
  | None => None
  | Some (_, Some err) => Some (∅, Some err)
  | Some (nodes, None) =>
      Some (foldl (fun p n => <[(nodeHash false n).1.2 := encodeNode n]> p) ∅ nodes, None)
  end.

(** [get] of [proof.go]: the rest of the key and the node where the walk ends. *)
Fixpoint proof_get (fuel : nat) (tn : noder) (key : bytes) : option (bytes * noder) :=
  match fuel with
  | O => None
  | S fuel' =>
      match key, tn with
      | [], _ => Some ([], NilNode)
      | _, ExtensionNode nd k next =>
          if (length key <? length k)%nat || negb (bytes_eqb k (take (length k) key))
          then Some ([], NilNode)
          else proof_get fuel' next (drop (length k) key)
      | b :: rest, BranchNode nd cs =>
          match child cs b with
          | None => None
          | Some c => proof_get fuel' c rest
          end
      | _, hashNode h => Some (key, tn)
      | _, NilNode => Some (key, NilNode)
      | _, LeafNode nd k v =>
          if (length key <? length k)%nat || negb (bytes_eqb k (take (length k) key))
          then Some ([], NilNode)
          else Some ([], tn)
      end
  end.

Definition set_dirty (n : noder) : noder :=
  match n with
  | ExtensionNode nd k next => ExtensionNode (dirty nd) k next
  | LeafNode nd k v => LeafNode (dirty nd) k v
  | BranchNode nd cs => BranchNode (dirty nd) cs
  | n => n
  end.

(** [copy(wantHash[:], h)]. *)
Definition copy_hash (wantHash h : bytes) : bytes :=
  take (length wantHash) h ++ drop (length h) wantHash.

Inductive ProofError : Type :=
| errProofMissing
| errProofNode (err : TrieError)
| errProofHash.

(** The value, or none when the walk ends without one. *)
Fixpoint verify_walk (fuel : nat) (wantHash key : bytes) (proof : gmap bytes bytes)
    : option (option bytes + ProofError) :=
  match fuel with
  | O => None
  | S fuel' =>
      match proof !! wantHash with
      | None => Some (inr errProofMissing)
      | Some encoded =>
          match decodeNode wantHash encoded with
          | inr err => Some (inr (errProofNode err))
          | inl n =>
              if negb (bytes_eqb wantHash (nodeHash false (set_dirty n)).1.2)
              then Some (inr errProofHash)
              else match proof_get (walk_fuel key) n key with
                   | None => None
                   | Some (keyrest, NilNode) => Some (inl None)
                   | Some (keyrest, hashNode h) => verify_walk fuel' (copy_hash wantHash h) keyrest proof
                   | Some (keyrest, LeafNode _ _ v) => Some (inl (Some v))
                   | Some (keyrest, _) => None
                   end
          end
      end
  end.

(** A walk that visits more nodes than there are pairs of a node of the proof and a
    rest of the key does not end. *)
Definition VerifyProof (rootHash : Hash) (key : bytes) (proof : gmap bytes bytes)
    : option (option bytes + ProofError) :=
  let key := keybytesToHex key in
  verify_walk (S (length key) * S (size proof)) rootHash key proof.
End trie.
