(* ===== verification/TrieProofs.v ===== *)
(** * The trie is a map

    What a node holds is described by the relation [reads]; [wf] says that the
    keys in the nodes are parts of keys that end with the terminator, and that
    the nodes behind hashes can be loaded. Every operation of the trie refines
    that of a finite map, and needs no more steps than [walk_fuel] gives. *)

From Stdlib Require Import ZArith Lia.
From S2P Require Import Prelude Common Rlp Trie.

Open Scope Z_scope.

(** ** Keys *)

Definition nibble (x : Z) : Prop := 0 <= x < 16.

(** A key that ends with the terminator. *)
Definition full (k : bytes) : Prop := exists p, Forall nibble p /\ k = p ++ [16].

(** What is left of a key; nothing once the terminator has been read. *)
Definition valid (ended : bool) (k : bytes) : Prop := if ended then k = [] else full k.

Lemma full_cons b k : full (b :: k) <-> (b = 16 /\ k = []) \/ (nibble b /\ full k).
Proof.
  split.
  - intros (p & Hp & Hk). destruct p as [|x p].
    + injection Hk as -> ->. by left.
    + injection Hk as -> ->. right. apply Forall_cons in Hp as [? ?]. split; [done|by exists p].
  - intros [[-> ->]|[Hb (p & Hp & ->)]]; [by exists []|]. exists (b :: p). by split; [constructor|].
Qed.

Lemma full_not_nil k : full k -> k <> [].
Proof. intros (p & _ & ->). by destruct p. Qed.

(** A part of a key and what follows it. *)
Lemma full_app p k : Forall nibble p -> full (p ++ k) <-> full k.
Proof.
  induction 1 as [|x p Hx Hp IH]; [done|]. cbn. rewrite full_cons, IH. split; [|by right].
  intros [[-> _]|[_ ?]]; [unfold nibble in Hx; lia|done].
Qed.

Lemma full_app_inv p k : full (p ++ k) -> k <> [] -> Forall nibble p /\ full k.
Proof.
  induction p as [|x p IH]; cbn; [done|]. rewrite full_cons. intros [[_ He]|[Hx Hf]] Hk.
  - by destruct p, k.
  - destruct (IH Hf Hk). by split; [constructor|].
Qed.

(** The step of a branch. *)
Definition ended_at (b : Z) : bool := b =? 16.

Lemma full_step b k : full (b :: k) <-> (0 <= b <= 16 /\ valid (ended_at b) k).
Proof.
  rewrite full_cons. unfold valid, ended_at, nibble. destruct (Z.eqb_spec b 16).
  - split; [intros [[-> ->]|[? ?]]; [done|lia]|]. intros [? ->]. by left.
  - split; [intros [[-> _]|[? ?]]; [done|]|intros [? ?]; right]; split; by try lia.
Qed.

Lemma nibbles_not_full p k : Forall nibble p -> full k -> ~ k `prefix_of` p.
Proof.
  intros Hp (q & Hq & ->) [r ->]. rewrite !Forall_app in Hp. destruct Hp as [[_ Hp] _].
  apply Forall_cons in Hp as [Hp _]. unfold nibble in Hp. lia.
Qed.

(** Keys that end with the terminator are not prefixes of each other. *)
Lemma full_prefix k k' : full k -> full k' -> k `prefix_of` k' -> k = k'.
Proof.
  intros Hk Hk' [r ->]. destruct r as [|x r]; [by rewrite app_nil_r|].
  destruct (full_app_inv k (x :: r)) as [Hn _]; [done|done|].
  by destruct (nibbles_not_full k k Hn Hk).
Qed.

Lemma valid_prefix e k k' : valid e k -> valid e k' -> k `prefix_of` k' -> k = k'.
Proof. destruct e; cbn; [by intros -> ->|apply full_prefix]. Qed.

Lemma keybytesToHex_full k : Forall is_byte k -> full (keybytesToHex k).
Proof.
  induction 1 as [|b k Hb Hk IH]; [by exists []|]. unfold keybytesToHex in *. cbn [keynibbles].
  unfold is_byte in Hb. rewrite !full_cons. right. split; [unfold nibble; zdiv|]. right.
  split; [unfold nibble; zdiv|done].
Qed.

Lemma keybytesToHex_inj k k' : keybytesToHex k = keybytesToHex k' -> k = k'.
Proof.
  unfold keybytesToHex. revert k'. induction k as [|b k IH]; intros [|b' k']; cbn; try done.
  intros [= H1 H2 H3]. f_equal; [zdiv|by apply IH].
Qed.

(** The nibbles of a prefix, without the terminator. *)
Fixpoint nibbles (k : bytes) : bytes :=
  match k with [] => [] | b :: k' => b / 16 :: b mod 16 :: nibbles k' end.

Lemma keybytesToHex_nibbles k : keybytesToHex k = nibbles k ++ [16].
Proof. unfold keybytesToHex. induction k as [|b k IH]; [done|]. cbn. by rewrite IH. Qed.

Lemma nibbles_nibble k : Forall is_byte k -> Forall nibble (nibbles k).
Proof.
  induction 1 as [|b k Hb Hk IH]; [constructor|]. unfold is_byte in Hb.
  constructor; [unfold nibble; zdiv|]. constructor; [unfold nibble; zdiv|done].
Qed.

Lemma nibbles_prefix p k :
  Forall is_byte p -> nibbles p `prefix_of` keybytesToHex k <-> p `prefix_of` k.
Proof.
  rewrite keybytesToHex_nibbles. intros Hp. revert k. induction Hp as [|b p Hb Hp IH]; intros k.
  { split; intros _; apply prefix_nil. }
  destruct k as [|c k]; cbn.
  - split; [|by intros ?%prefix_nil_not]. intros Hpre. apply prefix_cons_inv_2 in Hpre.
    by apply prefix_nil_not in Hpre.
  - split.
    + intros Hpre. pose proof (prefix_cons_inv_1 _ _ _ _ Hpre) as H1. apply prefix_cons_inv_2 in Hpre.
      pose proof (prefix_cons_inv_1 _ _ _ _ Hpre) as H2. apply prefix_cons_inv_2 in Hpre.
      assert (b = c) as -> by zdiv. by apply prefix_cons, IH.
    + intros Hpre. pose proof (prefix_cons_inv_1 _ _ _ _ Hpre) as ->.
      apply prefix_cons_inv_2 in Hpre. by do 2 apply prefix_cons; apply IH.
Qed.

(** Where two keys part. *)
Lemma matchkeyLen_spec a b :
  exists p a' b', a = p ++ a' /\ b = p ++ b' /\ matchkeyLen a b = length p
    /\ (a' = [] \/ b' = [] \/ exists x y a2 b2, a' = x :: a2 /\ b' = y :: b2 /\ x <> y).
Proof.
  revert b. induction a as [|x a IH]; intros b.
  { exists [], [], b. repeat (split; [done|]). by left. }
  destruct b as [|y b].
  { exists [], (x :: a), []. repeat (split; [done|]). by right; left. }
  cbn. destruct (Z.eqb_spec x y) as [-> | Hxy].
  - destruct (IH b) as (p & a' & b' & -> & -> & -> & Hc). by exists (y :: p), a', b'.
  - exists [], (x :: a), (y :: b). repeat (split; [done|]). right; right. by exists x, y, a, b.
Qed.

(** ** What a node holds *)

Section nodes.
Context `{TrieEnv}.
Variable t : Trie.

(** The keys below the node are valid, and its parts can be loaded. *)
Inductive wf : bool -> noder -> Prop :=
| wf_nil e : wf e NilNode
| wf_leaf e nd k v : valid e k -> wf e (LeafNode nd k v)
| wf_extension nd k next :
    k <> [] -> Forall nibble k -> wf false next -> wf false (ExtensionNode nd k next)
| wf_branch nd cs :
    length cs = numBranchChildren ->
    (forall b c, child cs b = Some c -> wf (ended_at b) c) -> wf false (BranchNode nd cs)
| wf_hash e h n :
    loadNode t h = inl n -> (forall h', n <> hashNode h') -> wf e n -> wf e (hashNode h).

(** The value at a key below the node. *)
Inductive reads : noder -> bytes -> option bytes -> Prop :=
| reads_nil key : reads NilNode key None
| reads_leaf nd k v : reads (LeafNode nd k v) k (Some v)
| reads_leaf_other nd k v key : key <> k -> reads (LeafNode nd k v) key None
| reads_extension nd k next rest r :
    reads next rest r -> reads (ExtensionNode nd k next) (k ++ rest) r
| reads_extension_other nd k next key :
    ~ k `prefix_of` key -> reads (ExtensionNode nd k next) key None
| reads_branch nd cs b c rest r :
    child cs b = Some c -> reads c rest r -> reads (BranchNode nd cs) (b :: rest) r
| reads_hash h n key r : loadNode t h = inl n -> reads n key r -> reads (hashNode h) key r.

Lemma reads_nil_iff key r : reads NilNode key r <-> r = None.
Proof. split; [by inversion 1|]. intros ->. constructor. Qed.

Lemma reads_leaf_iff nd k v key r :
  reads (LeafNode nd k v) key r <-> r = if bool_decide (key = k) then Some v else None.
Proof.
  split.
  - inversion 1; subst; [by rewrite bool_decide_true|by rewrite bool_decide_false].
  - intros ->. case_bool_decide; [subst; constructor|by constructor].
Qed.

Lemma reads_extension_iff nd k next rest r :
  reads (ExtensionNode nd k next) (k ++ rest) r <-> reads next rest r.
Proof.
  split; [|by constructor]. inversion 1 as [| | |? ? ? ? ? ? E1 E2|? ? ? ? Hn| |]; subst.
  - by apply app_inv_head in E2 as ->.
  - destruct Hn. by eexists.
Qed.

Lemma reads_extension_other_iff nd k next key r :
  ~ k `prefix_of` key -> reads (ExtensionNode nd k next) key r <-> r = None.
Proof.
  intros Hk. split; [|intros ->; by constructor]. inversion 1; subst; [|done].
  destruct Hk. by eexists.
Qed.

Lemma reads_branch_iff nd cs b c rest r :
  child cs b = Some c -> reads (BranchNode nd cs) (b :: rest) r <-> reads c rest r.
Proof. intros Hc. split; [|intros; by eapply reads_branch]. inversion 1; subst. by simplify_eq. Qed.

Lemma reads_hash_iff h n key r :
  loadNode t h = inl n -> reads (hashNode h) key r <-> reads n key r.
Proof.
  intros Hl. split; [|intros; by eapply reads_hash].
  inversion 1 as [| | | | | |? n0 ? ? Hl0 Hr0]; subst. by replace n with n0 by congruence.
Qed.

Lemma reads_det n key r r' : reads n key r -> reads n key r' -> r = r'.
Proof.
  intros Hr. revert r'. induction Hr; intros r'.
  - by rewrite reads_nil_iff.
  - by rewrite reads_leaf_iff, bool_decide_true.
  - by rewrite reads_leaf_iff, bool_decide_false.
  - rewrite reads_extension_iff. apply IHHr.
  - by rewrite reads_extension_other_iff.
  - erewrite reads_branch_iff by done. apply IHHr.
  - erewrite reads_hash_iff by done. apply IHHr.
Qed.

(** ** Children *)

Lemma child_bound cs b c : child cs b = Some c -> 0 <= b.
Proof. unfold child. destruct (Z.leb_spec 0 b); done. Qed.

Lemma child_some cs b : length cs = numBranchChildren -> 0 <= b <= 16 -> is_Some (child cs b).
Proof.
  intros Hl Hb. unfold child. rewrite (proj2 (Z.leb_le 0 b)) by lia.
  apply lookup_lt_is_Some. unfold numBranchChildren in Hl. lia.
Qed.

Lemma child_set_eq cs b c :
  length cs = numBranchChildren -> 0 <= b <= 16 -> child (set_child cs b c) b = Some c.
Proof.
  intros Hl Hb. unfold child, set_child. rewrite (proj2 (Z.leb_le 0 b)) by lia.
  apply list_lookup_insert_eq. unfold numBranchChildren in Hl. lia.
Qed.

Lemma child_set_ne cs b b' c : 0 <= b -> b <> b' -> child (set_child cs b c) b' = child cs b'.
Proof.
  intros Hb Hne. unfold child, set_child. destruct (Z.leb_spec 0 b'); [|done].
  apply list_lookup_insert_ne. lia.
Qed.

Lemma child_none b c : child noChildren b = Some c -> c = NilNode.
Proof. unfold child. destruct (0 <=? b); [|done]. by intros [-> _]%lookup_replicate. Qed.

Lemma wf_set_child cs b c :
  length cs = numBranchChildren -> 0 <= b <= 16 ->
  (forall b c, child cs b = Some c -> wf (ended_at b) c) -> wf (ended_at b) c ->
  forall b' c', child (set_child cs b c) b' = Some c' -> wf (ended_at b') c'.
Proof.
  intros Hl Hb Hcs Hc b' c'. destruct (decide (b = b')) as [<- | Hne].
  - rewrite child_set_eq by done. by intros [= <-].
  - rewrite child_set_ne by lia. apply Hcs.
Qed.

Lemma length_set_child cs b c : length (set_child cs b c) = length cs.
Proof. apply length_insert. Qed.

(** Something is read for every valid key. *)
Lemma reads_total e n : wf e n -> forall key, valid e key -> exists r, reads n key r.
Proof.
  induction 1 as [e|e nd k v|nd k next Hk Hn Hw IH|nd cs Hl Hcs IH|e h n Hl Hh Hw IH]; intros key Hv.
  - exists None. constructor.
  - destruct (decide (key = k)) as [-> | Hne]; eexists; [constructor|by constructor].
  - destruct (decide (k `prefix_of` key)) as [[rest ->]|Hp]; [|eexists; by constructor].
    destruct (IH rest) as [r Hr]; [by apply full_app in Hv|]. exists r. by constructor.
  - destruct key as [|b rest]; [by apply full_not_nil in Hv|].
    apply full_step in Hv as [Hb Hv]. destruct (child_some cs b Hl Hb) as [c Hc].
    destruct (IH b c Hc rest Hv) as [r Hr]. exists r. by econstructor.
  - destruct (IH key Hv) as [r Hr]. exists r. by econstructor.
Qed.

(** Two nodes that hold the same. *)
Definition same_reads (e : bool) (n n' : noder) : Prop :=
  forall key r, valid e key -> reads n key r <-> reads n' key r.

#[global] Instance same_reads_equivalence e : Equivalence (same_reads e).
Proof.
  split.
  - by intros n key r _.
  - intros n n' Hn key r Hv. by rewrite (Hn key r Hv).
  - intros n1 n2 n3 H1 H2 key r Hv. by rewrite (H1 key r Hv), (H2 key r Hv).
Qed.

Lemma same_extension nd nd' k n n' :
  Forall nibble k -> same_reads false n n' ->
  same_reads false (ExtensionNode nd k n) (ExtensionNode nd' k n').
Proof.
  intros Hk Hn key r Hv. destruct (decide (k `prefix_of` key)) as [[rest ->]|Hp].
  - rewrite !reads_extension_iff. apply Hn. by apply full_app in Hv.
  - by rewrite !reads_extension_other_iff.
Qed.

Lemma same_branch nd nd' cs cs' :
  (forall b c c', child cs b = Some c -> child cs' b = Some c' -> same_reads (ended_at b) c c') ->
  length cs = numBranchChildren -> length cs' = numBranchChildren ->
  same_reads false (BranchNode nd cs) (BranchNode nd' cs').
Proof.
  intros Hcs Hl Hl' key r Hv. destruct key as [|b rest]; [by apply full_not_nil in Hv|].
  apply full_step in Hv as [Hb Hv].
  destruct (child_some cs b Hl Hb) as [c Hc], (child_some cs' b Hl' Hb) as [c' Hc'].
  rewrite !reads_branch_iff by done. by apply (Hcs b).
Qed.

(** ** Reading *)

(** The steps a walk needs. *)
Definition need (n : noder) (key : bytes) : nat :=
  match n with hashNode _ => 2 * length key + 2 | _ => 2 * length key + 1 end.

Lemma need_bound n key : (need n key <= 2 * length key + 2)%nat.
Proof. destruct n; cbn; lia. Qed.

Lemma need_loaded n key : (forall h, n <> hashNode h) -> (need n key <= 2 * length key + 1)%nat.
Proof. intros Hh. destruct n; cbn; try lia. by destruct (Hh hash). Qed.

(** The test that a part of the key is there. *)
Lemma key_part_test key pos k :
  (pos <= length key)%nat ->
  (length key - pos <? length k)%nat || negb (bytes_eqb k (take (length k) (drop pos key)))
  = negb (bool_decide (k `prefix_of` drop pos key)).
Proof.
  intros Hp. unfold bytes_eqb. destruct (decide (k `prefix_of` drop pos key)) as [[rest Hr]|Hn].
  - rewrite (bool_decide_true (k `prefix_of` _)) by (by exists rest).
    pose proof (f_equal length Hr) as Hl. rewrite length_drop, length_app in Hl.
    rewrite Hr, take_app_length, bool_decide_true by done. cbn [negb]. rewrite orb_false_r.
    apply Nat.ltb_ge. lia.
  - rewrite (bool_decide_false (k `prefix_of` _)) by done.
    destruct (Nat.ltb_spec (length key - pos) (length k)) as [|Hl]; [done|]. cbn [orb].
    rewrite bool_decide_false; [done|]. intros Hk. destruct Hn.
    exists (drop (length k) (drop pos key)). by rewrite Hk at 1; rewrite take_drop.
Qed.

Lemma get_spec e n :
  wf e n -> forall fuel key pos, (pos <= length key)%nat -> valid e (drop pos key) ->
  (need n (drop pos key) <= fuel)%nat ->
  exists n' r, get fuel t n key pos = Some (default [] r, bool_decide (is_Some r), n', None)
    /\ reads n (drop pos key) r /\ wf e n' /\ same_reads e n n'.
Proof.
  induction 1 as [e|e nd k v Hk|nd k next Hk Hn Hw IH|nd cs Hl Hcs IH|e h n Hl Hh Hw IH];
    intros fuel key pos Hpos Hv Hf; (destruct fuel as [|fuel]; [cbn in Hf; lia|]); cbn [get].
  - exists NilNode, None. split; [done|]. split; [constructor|]. split; [constructor|done].
  - rewrite key_part_test by done. case_bool_decide as Hp; cbn [negb].
    + exists (LeafNode nd k v), (Some v). rewrite <- (valid_prefix e k (drop pos key)) by done.
      split; [done|]. split; [constructor|]. split; [by constructor|done].
    + exists (LeafNode nd k v), None. split; [done|]. split; [|split; [by constructor|done]].
      constructor. intros Heq. apply Hp. by rewrite Heq.
  - rewrite key_part_test by done. case_bool_decide as Hp; cbn [negb].
    + destruct Hp as [rest Hr].
      assert (Hlen : (length key - pos = length k + length rest)%nat).
      { by rewrite <- length_drop, Hr, length_app. }
      assert (Hd : drop (pos + length k) key = rest).
      { by rewrite <- drop_drop, Hr, drop_app_length. }
      rewrite Hr in Hv, Hf. apply full_app in Hv; [|done].
      assert (length k <> 0)%nat by (by destruct k).
      destruct (IH fuel key (pos + length k)%nat) as (n' & r & Hg & Hrd & Hw' & Hs).
      * lia.
      * by rewrite Hd.
      * rewrite Hd. pose proof (need_bound next rest). cbn in Hf. rewrite length_app in Hf. lia.
      * rewrite Hd in Hrd. exists (ExtensionNode nd k n'), r. rewrite Hg, Hr.
        split; [done|]. split; [by constructor|]. split; [by constructor|by apply same_extension].
    + exists (ExtensionNode nd k next), None.
      split; [done|]. split; [by constructor|]. split; [by constructor|done].
  - destruct (drop pos key) as [|b rest] eqn:Hr; [by apply full_not_nil in Hv|].
    assert (Hb : key !! pos = Some b).
    { replace pos with (pos + 0)%nat by lia. rewrite <- lookup_drop, Hr. done. }
    apply full_step in Hv as [Hbb Hv]. destruct (child_some cs b Hl Hbb) as [c Hc].
    rewrite Hb, Hc.
    assert (Hd : drop (pos + 1) key = rest) by (by rewrite <- drop_drop, Hr).
    destruct (IH b c Hc fuel key (pos + 1)%nat) as (n' & r & Hg & Hrd & Hw' & Hs).
    * apply lookup_lt_Some in Hb. lia.
    * by rewrite Hd.
    * rewrite Hd. pose proof (need_bound c rest). cbn in Hf. lia.
    * rewrite Hd in Hrd. exists (BranchNode nd (set_child cs b n')), r. rewrite Hg.
      split; [done|]. split; [by econstructor|]. split.
      -- constructor; [by rewrite length_set_child|]. by apply wf_set_child.
      -- apply same_branch; [|done|by rewrite length_set_child]. intros b' c1 c2 H1 H2.
         destruct (decide (b = b')) as [<- | Hne].
         ++ rewrite child_set_eq in H2 by done. by simplify_eq.
         ++ rewrite child_set_ne in H2 by lia. by simplify_eq.
  - rewrite Hl. destruct (IH fuel key pos Hpos Hv) as (n' & r & Hg & Hrd & Hw' & Hs).
    { pose proof (need_loaded n (drop pos key) Hh). cbn in Hf. lia. }
    exists n', r. rewrite Hg. split; [done|]. split; [by econstructor|]. split; [done|].
    intros k r'. rewrite (reads_hash_iff h n) by done. apply Hs.
Qed.

(** ** Writing *)

(** [n'] holds what [n] does, and the value at the key. *)
Definition holds_put (e : bool) (n n' : noder) (key value : bytes) : Prop :=
  forall k r, valid e k ->
    reads n' k r <-> if bool_decide (k = key) then r = Some value else reads n k r.

(** A node that is there, loaded. *)
Definition loaded (n : noder) : Prop := n <> NilNode /\ forall h, n <> hashNode h.

Lemma split_node_wf p key nd cs :
  Forall nibble p -> take (length p) key = p -> wf false (BranchNode nd cs) ->
  wf false (split_node key (length p) (BranchNode nd cs))
  /\ loaded (split_node key (length p) (BranchNode nd cs)).
Proof.
  intros Hp Ht Hw. unfold split_node. destruct p as [|x p]; [done|]. cbn [length Nat.eqb].
  change (S (length p)) with (length (x :: p)). rewrite Ht. split; [by constructor|done].
Qed.

Lemma reads_split_in p key nd cs rest r :
  take (length p) key = p ->
  reads (split_node key (length p) (BranchNode nd cs)) (p ++ rest) r <-> reads (BranchNode nd cs) rest r.
Proof.
  intros Ht. unfold split_node. destruct p as [|x p]; [done|]. cbn [length Nat.eqb].
  change (S (length p)) with (length (x :: p)). rewrite Ht. apply reads_extension_iff.
Qed.

Lemma reads_split_out p key nd cs k r :
  take (length p) key = p -> ~ p `prefix_of` k ->
  reads (split_node key (length p) (BranchNode nd cs)) k r <-> r = None.
Proof.
  intros Ht Hp. unfold split_node. destruct p as [|x p]; [by destruct Hp; apply prefix_nil|].
  cbn [length Nat.eqb]. change (S (length p)) with (length (x :: p)). rewrite Ht.
  by apply reads_extension_other_iff.
Qed.

(** The branch with the two children of a split. *)
Lemma split_branch_child x y (m nw : noder) z c :
  0 <= x <= 16 -> 0 <= y <= 16 -> x <> y ->
  child (set_child (set_child noChildren x m) y nw) z = Some c ->
  (z = y /\ c = nw) \/ (z = x /\ c = m) \/ (z <> x /\ z <> y /\ c = NilNode).
Proof.
  intros Hx Hy Hxy. destruct (decide (z = y)) as [-> | Hzy].
  { rewrite child_set_eq by (rewrite ?length_set_child; done). intros [= ->]. by left. }
  rewrite child_set_ne by lia. destruct (decide (z = x)) as [-> | Hzx].
  { rewrite child_set_eq by done. intros [= ->]. by right; left. }
  rewrite child_set_ne by lia. intros ->%child_none. by right; right.
Qed.

(** Splitting a node whose keys all go on with [x] after [p], for a key that goes
    on with [y]. *)
Lemma split_put n p x y b2 moved value :
  let key := p ++ y :: b2 in
  let n' := split_node key (length p)
    (BranchNode zeroNode (set_child (set_child noChildren x moved) y (LeafNode zeroNode b2 value))) in
  Forall nibble p -> x <> y -> full (y :: b2) -> 0 <= x <= 16 -> wf (ended_at x) moved ->
  (forall k r, full k -> ~ (p ++ [x]) `prefix_of` k -> reads n k r <-> r = None) ->
  (forall rest r, valid (ended_at x) rest -> reads n (p ++ x :: rest) r <-> reads moved rest r) ->
  wf false n' /\ loaded n' /\ holds_put false n n' key value.
Proof.
  intros key n' Hp Hxy Hy Hx Hm Hout Hin.
  apply full_step in Hy as [Hyb Hyv].
  assert (Ht : take (length p) key = p) by apply take_app_length.
  set (cs := set_child (set_child noChildren x moved) y (LeafNode zeroNode b2 value)) in *.
  assert (Hl : length cs = numBranchChildren) by (unfold cs; by rewrite !length_set_child).
  assert (Hcs : wf false (BranchNode zeroNode cs)).
  { constructor; [done|]. intros z c Hc.
    destruct (split_branch_child x y _ _ z c Hx Hyb Hxy Hc) as [[-> ->]|[[-> ->]|(_ & _ & ->)]];
      [by constructor|done|constructor]. }
  destruct (split_node_wf p key zeroNode cs Hp Ht Hcs) as [Hw Hld].
  split; [done|]. split; [done|]. intros k r Hv.
  destruct (decide (p `prefix_of` k)) as [[rest ->]|Hnp].
  - unfold n'. rewrite reads_split_in by done.
    apply full_app in Hv; [|done]. destruct rest as [|z rest]; [by apply full_not_nil in Hv|].
    apply full_step in Hv as [Hz Hv]. destruct (child_some cs z Hl Hz) as [c Hc].
    rewrite (reads_branch_iff zeroNode cs z c) by done.
    destruct (split_branch_child x y _ _ z c Hx Hyb Hxy Hc) as [[-> ->]|[[-> ->]|(Hzx & Hzy & ->)]].
    + rewrite reads_leaf_iff. unfold key. destruct (decide (rest = b2)) as [-> | Hne].
      * by rewrite !bool_decide_true.
      * rewrite !bool_decide_false by (try intros ?%app_inv_head; congruence). symmetry.
        apply Hout; [|intros [q Hq]; rewrite <- app_assoc in Hq; apply app_inv_head in Hq; cbn in Hq; congruence].
        apply full_app; [done|]. by apply full_step.
    + rewrite bool_decide_false by (intros ?%app_inv_head; congruence). symmetry. by apply Hin.
    + rewrite bool_decide_false by (intros ?%app_inv_head; congruence). rewrite reads_nil_iff. symmetry.
      apply Hout; [|intros [q Hq]; rewrite <- app_assoc in Hq; apply app_inv_head in Hq; cbn in Hq; congruence].
      apply full_app; [done|]. by apply full_step.
  - unfold n'. rewrite reads_split_out by done.
    rewrite bool_decide_false by (intros ->; apply Hnp; by eexists). symmetry. apply Hout; [done|].
    intros [q ->]. apply Hnp. exists (x :: q). by rewrite <- app_assoc.
Qed.

Lemma insertLeafNode_spec e nd k v key value :
  valid e k -> valid e key ->
  exists n', insertLeafNode nd k v key value = Some (inl n') /\ wf e n' /\ loaded n'
    /\ holds_put e (LeafNode nd k v) n' key value.
Proof.
  intros Hk Hkey. unfold insertLeafNode.
  destruct (matchkeyLen_spec k key) as (p & a' & b' & Ea & Eb & -> & Hc).
  destruct (decide (k = key)) as [Heq|Hne].
  { assert (length p = length k) as ->.
    { rewrite Ea, length_app. destruct Hc as [-> | [-> | (x & y & a2 & b2 & -> & -> & Hxy)]]; cbn; [lia| |].
      - rewrite Heq, Eb, app_nil_r in Ea. apply (f_equal length) in Ea. rewrite length_app in Ea. lia.
      - rewrite Heq, Eb in Ea. apply app_inv_head in Ea. congruence. }
    rewrite Nat.eqb_refl. exists (LeafNode (dirty nd) k value). rewrite <- Heq.
    split; [done|]. split; [by constructor|]. split; [done|]. intros k' r _. rewrite reads_leaf_iff.
    destruct (decide (k' = k)); [by rewrite !bool_decide_true|].
    by rewrite !bool_decide_false, reads_leaf_iff, bool_decide_false. }
  destruct Hc as [-> | [-> | (x & y & a2 & b2 & -> & -> & Hxy)]].
  { destruct Hne. apply (valid_prefix e); [done|done|]. rewrite Ea, Eb, app_nil_r. by eexists. }
  { destruct Hne. symmetry. apply (valid_prefix e); [done|done|]. rewrite Ea, Eb, app_nil_r. by eexists. }
  destruct e; [cbn in Hk, Hkey; congruence|]. cbn in Hk, Hkey.
  assert (Hlen : (length p =? length k)%nat = false).
  { apply Nat.eqb_neq. rewrite Ea, length_app. cbn. lia. }
  rewrite Hlen.
  assert (Hkx : k !! length p = Some x) by (rewrite Ea; apply list_lookup_middle; done).
  assert (Hky : key !! length p = Some y) by (rewrite Eb; apply list_lookup_middle; done).
  rewrite Hkx, Hky.
  assert (Hda : drop (length p + 1) k = a2) by (rewrite Ea, <- drop_drop, drop_app_length; done).
  assert (Hdb : drop (length p + 1) key = b2) by (rewrite Eb, <- drop_drop, drop_app_length; done).
  rewrite Hda, Hdb. rewrite Ea in Hk. rewrite Eb in Hkey.
  destruct (full_app_inv p (x :: a2) Hk) as [Hp Hfx]; [done|].
  destruct (full_app_inv p (y :: b2) Hkey) as [_ Hfy]; [done|].
  apply full_step in Hfx as [Hx Hvx]. eexists. split; [done|]. rewrite Eb.
  apply split_put; try done; [by constructor|..].
  - intros k' r _ Hnp. rewrite reads_leaf_iff, bool_decide_false; [done|].
    intros ->. apply Hnp. rewrite Ea. exists a2. by rewrite <- app_assoc.
  - intros rest r _. rewrite !reads_leaf_iff, Ea. destruct (decide (rest = a2)) as [-> | Hr].
    + by rewrite !bool_decide_true.
    + rewrite !bool_decide_false by (try intros ?%app_inv_head; congruence). done.
Qed.

Lemma insertExtensionNode_spec (ins : noder -> bytes -> option (noder + TrieError)) nd k next key value :
  k <> [] -> Forall nibble k -> wf false next -> full key ->
  (forall rest, key = k ++ rest -> exists n', ins next rest = Some (inl n') /\ wf false n'
    /\ holds_put false next n' rest value) ->
  exists n', insertExtensionNode ins nd k next key value = Some (inl n') /\ wf false n' /\ loaded n'
    /\ holds_put false (ExtensionNode nd k next) n' key value.
Proof.
  intros Hk0 Hk Hnext Hkey Hins. unfold insertExtensionNode.
  destruct (matchkeyLen_spec k key) as (p & a' & b' & Ea & Eb & -> & Hc).
  destruct a' as [|x a2].
  { rewrite app_nil_r in Ea. subst p. rewrite Nat.eqb_refl, Eb, drop_app_length.
    destruct (Hins b' Eb) as (n' & -> & Hw' & Hput). exists (ExtensionNode (dirty nd) k n').
    split; [done|]. split; [by constructor|]. split; [done|]. intros k' r Hv.
    destruct (decide (k `prefix_of` k')) as [[rest ->]|Hnp].
    - rewrite reads_extension_iff. transitivity (if bool_decide (rest = b') then r = Some value
        else reads next rest r); [apply Hput; by apply full_app in Hv|].
      destruct (decide (rest = b')) as [-> | Hr]; [by rewrite !bool_decide_true|].
      rewrite !bool_decide_false by (try intros ?%app_inv_head; congruence).
      by rewrite reads_extension_iff.
    - rewrite reads_extension_other_iff by done.
      rewrite bool_decide_false by (intros ->; apply Hnp; by eexists).
      by rewrite reads_extension_other_iff. }
  assert (Hkn : Forall nibble p /\ Forall nibble (x :: a2)) by (rewrite Ea, Forall_app in Hk; done).
  destruct Hkn as [Hp Hxa]. apply Forall_cons in Hxa as [Hx Ha2].
  destruct Hc as [[=]|[-> | (x' & y & a2' & b2 & [= <- <-] & -> & Hxy)]].
  { rewrite app_nil_r in Eb. subst key. by destruct (nibbles_not_full p p Hp Hkey). }
  assert (Hlen : (length p =? length k)%nat = false).
  { apply Nat.eqb_neq. rewrite Ea, length_app. cbn. lia. }
  rewrite Hlen.
  assert (Hkx : k !! length p = Some x) by (rewrite Ea; apply list_lookup_middle; done).
  assert (Hky : key !! length p = Some y) by (rewrite Eb; apply list_lookup_middle; done).
  rewrite Hkx, Hky.
  assert (Hda : drop (length p + 1) k = a2) by (rewrite Ea, <- drop_drop, drop_app_length; done).
  assert (Hdb : drop (length p + 1) key = b2) by (rewrite Eb, <- drop_drop, drop_app_length; done).
  rewrite Hda, Hdb. rewrite Eb in Hkey.
  destruct (full_app_inv p (y :: b2) Hkey) as [_ Hfy]; [done|].
  assert (He : ended_at x = false) by (unfold ended_at, nibble in *; lia).
  eexists. split; [done|]. rewrite Eb. unfold nibble in Hx.
  assert (Hlast : (length p =? length k - 1)%nat = bool_decide (a2 = [])).
  { rewrite Ea, length_app, length_cons. case_bool_decide as Ha.
    - rewrite Ha. apply Nat.eqb_eq. cbn [length]. lia.
    - apply Nat.eqb_neq. destruct a2; [done|]. rewrite length_cons. lia. }
  rewrite Hlast. apply split_put; try done; [lia|..].
  - rewrite He. case_bool_decide; [done|by constructor].
  - intros k' r _ Hnp. rewrite reads_extension_other_iff; [done|]. intros [q ->]. apply Hnp.
    rewrite Ea. exists (a2 ++ q). by rewrite <- !app_assoc.
  - rewrite He. intros rest r Hv. rewrite Ea. case_bool_decide as Ha.
    + rewrite Ha. replace (p ++ x :: rest) with ((p ++ [x]) ++ rest) by (by rewrite <- app_assoc).
      apply reads_extension_iff.
    + destruct (decide (a2 `prefix_of` rest)) as [[q ->]|Hnp].
      * replace (p ++ x :: a2 ++ q) with ((p ++ x :: a2) ++ q) by (by rewrite <- app_assoc).
        by rewrite !reads_extension_iff.
      * rewrite !reads_extension_other_iff; [done|done|]. intros [q Hq]. apply Hnp.
        rewrite <- app_assoc in Hq. apply app_inv_head in Hq. injection Hq as ->. by eexists.
Qed.

Lemma holds_put_child nd cs b c c' rest value :
  length cs = numBranchChildren -> 0 <= b <= 16 -> child cs b = Some c ->
  holds_put (ended_at b) c c' rest value ->
  holds_put false (BranchNode nd cs) (BranchNode (dirty nd) (set_child cs b c')) (b :: rest) value.
Proof.
  intros Hl Hb Hc Hput k r Hv. destruct k as [|x k]; [by apply full_not_nil in Hv|].
  apply full_step in Hv as [Hx Hv]. destruct (decide (b = x)) as [<- | Hne].
  - rewrite (reads_branch_iff _ _ b c') by (by apply child_set_eq).
    transitivity (if bool_decide (k = rest) then r = Some value else reads c k r); [by apply Hput|].
    destruct (decide (k = rest)) as [-> | Hk]; [by rewrite !bool_decide_true|].
    rewrite !bool_decide_false by congruence. by rewrite (reads_branch_iff nd cs b c).
  - rewrite bool_decide_false by congruence. destruct (child_some cs x Hl Hx) as [c2 Hc2].
    rewrite (reads_branch_iff _ _ x c2) by (by rewrite child_set_ne by lia).
    by rewrite (reads_branch_iff _ _ x c2).
Qed.

Lemma insert_spec value e n :
  wf e n -> forall fuel key, valid e key -> (need n key <= fuel)%nat ->
  exists n', insert fuel t value n key = Some (inl n') /\ wf e n' /\ loaded n'
    /\ holds_put e n n' key value.
Proof.
  induction 1 as [e|e nd k v Hk|nd k next Hk Hn Hw IH|nd cs Hl Hcs IH|e h n Hl Hh Hw IH];
    intros fuel key Hv Hf; (destruct fuel as [|fuel]; [cbn in Hf; lia|]); cbn [insert].
  - exists (LeafNode zeroNode key value). split; [done|]. split; [by constructor|]. split; [done|].
    intros k r _. rewrite reads_leaf_iff. case_bool_decide; [done|]. by rewrite reads_nil_iff.
  - by apply insertLeafNode_spec.
  - apply insertExtensionNode_spec; try done. intros rest ->.
    destruct (IH fuel rest) as (n' & Hi & Hw' & _ & Hput); [by apply full_app in Hv| |by eauto].
    pose proof (need_bound next rest). cbn in Hf. rewrite length_app in Hf.
    assert (length k <> 0)%nat by (by destruct k). lia.
  - destruct key as [|b rest]; [by apply full_not_nil in Hv|]. apply full_step in Hv as [Hb Hv].
    destruct (child_some cs b Hl Hb) as [c Hc]. rewrite Hc.
    destruct (IH b c Hc fuel rest Hv) as (c' & -> & Hw' & _ & Hput).
    { pose proof (need_bound c rest). cbn in Hf. lia. }
    eexists. split; [done|]. split; [|split; [done|by eapply holds_put_child]].
    constructor; [by rewrite length_set_child|]. by apply wf_set_child.
  - rewrite Hl. destruct (IH fuel key Hv) as (n' & Hi & Hw' & Hld & Hput).
    { pose proof (need_loaded n key Hh). cbn in Hf. lia. }
    exists n'. split; [done|]. split; [done|]. split; [done|]. intros k r Hvk.
    transitivity (if bool_decide (k = key) then r = Some value else reads n k r); [by apply Hput|].
    case_bool_decide; [done|]. by rewrite (reads_hash_iff h n).
Qed.

(** ** Deleting *)

Lemma count_children_spec i cs pos count :
  count_children i cs = (pos, count) ->
  (count = 0%nat -> forall j c, cs !! j = Some c -> c = NilNode)
  /\ (count = 1%nat -> exists j c, pos = (i + j)%nat /\ cs !! j = Some c /\ c <> NilNode
        /\ forall j' c', cs !! j' = Some c' -> j' <> j -> c' = NilNode).
Proof.
  revert i pos count. induction cs as [|c cs IH]; intros i pos count; cbn.
  { intros [= <- <-]. split; [by intros|done]. }
  destruct (count_children (S i) cs) as [pos' count'] eqn:Hc.
  destruct (IH (S i) pos' count' Hc) as [IH0 IH1]. destruct (is_nil c) eqn:Hnil.
  - destruct c; try done. intros [= <- <-]. split.
    + intros H0 [|j] c; [by intros [= <-]|by apply IH0].
    + intros H1. destruct (IH1 H1) as (j & c & -> & Hj & Hn & Hother). exists (S j), c.
      split; [lia|]. split; [done|]. split; [done|]. intros [|j'] c' Hj' Hne; [by simplify_eq/=|].
      apply (Hother j'); [done|lia].
  - intros [= <- <-]. split; [done|]. intros [= ->]. exists 0%nat, c. split; [cbn; lia|].
    split; [done|]. split; [by intros ->|]. intros [|j'] c' Hj' Hne; [done|]. by apply (IH0 eq_refl j').
Qed.

(** A branch with one child is the child with one more nibble. *)
Lemma same_only_child nd cs b c n' :
  length cs = numBranchChildren -> 0 <= b <= 16 -> child cs b = Some c ->
  (forall b' c', child cs b' = Some c' -> b' <> b -> c' = NilNode) ->
  (forall rest r, valid (ended_at b) rest -> reads n' (b :: rest) r <-> reads c rest r) ->
  (forall b' rest r, b' <> b -> reads n' (b' :: rest) r <-> r = None) ->
  same_reads false (BranchNode nd cs) n'.
Proof.
  intros Hl Hb Hc Hother Hin Hout key r Hv. destruct key as [|x rest]; [by apply full_not_nil in Hv|].
  apply full_step in Hv as [Hx Hv]. destruct (child_some cs x Hl Hx) as [cx Hcx].
  rewrite (reads_branch_iff nd cs x cx) by done. destruct (decide (x = b)) as [-> | Hne].
  - simplify_eq. symmetry. by apply Hin.
  - rewrite (Hother x cx Hcx Hne), reads_nil_iff. symmetry. by apply Hout.
Qed.

Lemma shrink_branch_spec nd cs :
  length cs = numBranchChildren -> (forall b c, child cs b = Some c -> wf (ended_at b) c) ->
  exists n', shrink_branch t nd cs = mkDeletion true n' None (BranchNode (dirty nd) cs)
    /\ wf false n' /\ n' <> NilNode /\ same_reads false (BranchNode nd cs) n'.
Proof.
  intros Hl Hcs. unfold shrink_branch. destruct (count_children 0 cs) as [pos count] eqn:Hcount.
  assert (Hstay : wf false (BranchNode (dirty nd) cs)
    /\ BranchNode (dirty nd) cs <> NilNode
    /\ same_reads false (BranchNode nd cs) (BranchNode (dirty nd) cs)).
  { split; [by constructor|]. split; [done|]. apply same_branch; try done.
    intros b c c' H1 H2. by simplify_eq. }
  destruct (Nat.eqb_spec count 1) as [-> | Hne]; cbn [negb];
    [|by exists (BranchNode (dirty nd) cs)].
  destruct (count_children_spec 0 cs pos 1 Hcount) as [_ H1].
  destruct (H1 eq_refl) as (j & c & -> & Hj & Hc0 & Hother). cbn [Nat.add].
  assert (Hjb : (j < 17)%nat) by (apply lookup_lt_Some in Hj; unfold numBranchChildren in Hl; lia).
  assert (Hch : child cs (Z.of_nat j) = Some c).
  { unfold child. rewrite (proj2 (Z.leb_le _ _)) by lia. by rewrite Nat2Z.id. }
  assert (Hoth : forall b' c', child cs b' = Some c' -> b' <> Z.of_nat j -> c' = NilNode).
  { intros b' c' Hb' Hne. unfold child in Hb'. destruct (Z.leb_spec 0 b'); [|done].
    apply (Hother (Z.to_nat b')); [done|lia]. }
  rewrite (nth_lookup_Some cs j NilNode c Hj). pose proof (Hcs _ _ Hch) as Hw.
  assert (Hld : exists m, load_child t c = inl m /\ wf (ended_at (Z.of_nat j)) m
    /\ forall key r, reads c key r <-> reads m key r).
  { destruct c; [eexists; split; [reflexivity|done]..|]. inversion Hw as [| | | |? ? m Hload Hnh Hwm]; subst.
    exists m. split; [done|]. split; [done|]. intros key r. by apply reads_hash_iff. }
  destruct Hld as (m & Hm & Hwm & Hrm). rewrite Hm. set (b := Z.of_nat j) in *.
  assert (Hb : 0 <= b <= 16) by lia.
  destruct m as [|nd' k next|nd' k v|nd' cs'|h];
    [by exists (BranchNode (dirty nd) cs)| | |by exists (BranchNode (dirty nd) cs)..].
  - inversion Hwm as [| |? ? ? Hk Hn Hnext| |]; subst.
    exists (ExtensionNode zeroNode (b :: k) next). split; [done|].
    assert (nibble b) by (unfold ended_at, nibble in *; lia).
    split; [by constructor; [|constructor|]|]. split; [done|].
    apply (same_only_child nd cs b c); try done.
    + intros rest r _. rewrite Hrm. destruct (decide (k `prefix_of` rest)) as [[q ->]|Hp].
      * change (b :: k ++ q) with ((b :: k) ++ q). by rewrite !reads_extension_iff.
      * rewrite !reads_extension_other_iff; [done|done|]. by intros ?%prefix_cons_inv_2.
    + intros b' rest r Hne. apply reads_extension_other_iff. intros Hp.
      by apply prefix_cons_inv_1 in Hp.
  - inversion Hwm as [|? ? ? ? Hk| | |]; subst.
    exists (LeafNode zeroNode (b :: k) v). split; [done|].
    split; [by constructor; apply full_step|]. split; [done|].
    apply (same_only_child nd cs b c); try done.
    + intros rest r _. rewrite Hrm, !reads_leaf_iff. destruct (decide (rest = k)) as [-> | Hne].
      * by rewrite !bool_decide_true.
      * by rewrite !bool_decide_false by congruence.
    + intros b' rest r Hne. rewrite reads_leaf_iff. by rewrite bool_decide_false by congruence.
Qed.

(** The keys that a deletion is about: the key, or those that start with it. *)
Definition hit (descendant : bool) (key k : bytes) : Prop :=
  if descendant then key `prefix_of` k else k = key.

#[global] Instance hit_dec descendant key k : Decision (hit descendant key k).
Proof. destruct descendant; cbn; apply _. Defined.

Definition del_key (descendant e : bool) (key : bytes) : Prop :=
  if descendant then e = false /\ key <> [] /\ Forall nibble key else valid e key.

(** [n'] holds what [n] does, less the keys that are hit. *)
Definition holds_without (e descendant : bool) (n n' : noder) (key : bytes) : Prop :=
  forall k r, valid e k ->
    reads n' k r <-> if bool_decide (hit descendant key k) then r = None else reads n k r.

(** What [delete] returns for a node. *)
Definition deletes (e descendant : bool) (n : noder) (key : bytes) (d : deletion) : Prop :=
  del_err d = None
  /\ if del_match d
     then wf e (del_new d) /\ holds_without e descendant n (del_new d) key
       /\ (descendant = false -> ~ reads n key None)
     else wf e (del_self d) /\ same_reads e n (del_self d) /\ holds_without e descendant n n key.

Lemma holds_without_none e d n key :
  (forall k, valid e k -> hit d key k -> reads n k None) -> holds_without e d n n key.
Proof.
  intros Hn k r Hv. case_bool_decide as Hh; [|done]. split; [|intros ->; by apply Hn].
  intros Hr. apply (reads_det n k); [done|by apply Hn].
Qed.

Lemma hit_app d p key k : hit d (p ++ key) (p ++ k) <-> hit d key k.
Proof.
  destruct d; cbn.
  - split; [apply prefix_app_inv|by apply prefix_app].
  - split; [apply app_inv_head|by intros ->].
Qed.

Lemma hit_starts d p key k : hit d (p ++ key) k -> p `prefix_of` k.
Proof. destruct d; cbn; [|intros ->; by eexists]. intros [q ->]. exists (key ++ q). by rewrite app_assoc. Qed.

(** A key that stays with the part of an extension, and one that leaves it. *)
Lemma holds_without_extension d nd nd' k n n' rest :
  Forall nibble k -> holds_without false d n n' rest ->
  holds_without false d (ExtensionNode nd k n) (ExtensionNode nd' k n') (k ++ rest).
Proof.
  intros Hk Hw key r Hv. destruct (decide (k `prefix_of` key)) as [[q ->]|Hp].
  - rewrite reads_extension_iff. rewrite full_app in Hv by done.
    transitivity (if bool_decide (hit d rest q) then r = None else reads n q r); [by apply Hw|].
    rewrite (bool_decide_ext _ _ (hit_app d k rest q)). case_bool_decide; [done|].
    by rewrite reads_extension_iff.
  - rewrite reads_extension_other_iff by done.
    rewrite bool_decide_false by (by intros ?%hit_starts). by rewrite reads_extension_other_iff.
Qed.

Lemma holds_without_child d nd nd' cs b c c' rest :
  length cs = numBranchChildren -> 0 <= b <= 16 -> child cs b = Some c ->
  holds_without (ended_at b) d c c' rest ->
  holds_without false d (BranchNode nd cs) (BranchNode nd' (set_child cs b c')) (b :: rest).
Proof.
  intros Hl Hb Hc Hw k r Hv. destruct k as [|x k]; [by apply full_not_nil in Hv|].
  apply full_step in Hv as [Hx Hv]. destruct (decide (b = x)) as [<- | Hne].
  - rewrite (reads_branch_iff _ _ b c') by (by apply child_set_eq).
    transitivity (if bool_decide (hit d rest k) then r = None else reads c k r); [by apply Hw|].
    rewrite (bool_decide_ext _ _ (hit_app d [b] rest k)).
    case_bool_decide; [done|]. by rewrite (reads_branch_iff nd cs b c).
  - rewrite bool_decide_false by (intros [q [= Hq _]]%(hit_starts d [b]); congruence).
    destruct (child_some cs x Hl Hx) as [c2 Hc2].
    rewrite (reads_branch_iff _ _ x c2) by (by rewrite child_set_ne by lia).
    by rewrite (reads_branch_iff _ _ x c2).
Qed.

Lemma holds_without_same e d n n1 n2 key :
  holds_without e d n n1 key -> same_reads e n1 n2 -> holds_without e d n n2 key.
Proof. intros H1 H2 k r Hv. rewrite <- (H2 k r Hv). by apply H1. Qed.

Lemma set_child_same cs b c : child cs b = Some c -> set_child cs b c = cs.
Proof.
  unfold child, set_child. destruct (0 <=? b); [|done]. apply list_insert_id.
Qed.

(** A branch after its child has changed. *)
Lemma shrink_deletes d nd cs b c c' rest :
  length cs = numBranchChildren -> (forall b c, child cs b = Some c -> wf (ended_at b) c) ->
  0 <= b <= 16 -> child cs b = Some c -> wf (ended_at b) c' ->
  holds_without (ended_at b) d c c' rest -> (d = false -> ~ reads c rest None) ->
  deletes false d (BranchNode nd cs) (b :: rest) (shrink_branch t nd (set_child cs b c')).
Proof.
  intros Hl Hcs Hb Hc Hw' Hwo Hhit.
  destruct (shrink_branch_spec nd (set_child cs b c')) as (n' & -> & Hwn & _ & Hsame).
  { by rewrite length_set_child. }
  { by apply wf_set_child. }
  split; [done|]. cbn [del_match del_new]. split; [done|]. split.
  - eapply holds_without_same; [by eapply holds_without_child|done].
  - intros Hd. rewrite (reads_branch_iff _ _ b c) by done. by apply Hhit.
Qed.

Lemma delete_leaf_spec d e nd k v key fuel :
  valid e k -> del_key d e key ->
  exists dl, delete (S fuel) t d (LeafNode nd k v) key = Some dl
    /\ deletes e d (LeafNode nd k v) key dl.
Proof.
  intros Hk Hkey. cbn [delete].
  assert (Hhit : (matchkeyLen key k =? length k)%nat || (matchkeyLen key k =? length key)%nat
    = bool_decide (hit d key k)).
  { destruct (matchkeyLen_spec key k) as (p & a' & b' & Ea & Eb & -> & Hc). apply eq_true_iff_eq.
    rewrite orb_true_iff, !Nat.eqb_eq, bool_decide_eq_true.
    assert (Hpre : (length p = length k <-> b' = []) /\ (length p = length key <-> a' = [])).
    { rewrite Ea, Eb, !length_app. rewrite <- !length_zero_iff_nil. lia. }
    destruct Hpre as [-> ->]. destruct d; cbn in Hkey |- *.
    - destruct Hkey as (-> & _ & Hn). cbn in Hk. split.
      + intros [-> | ->]; rewrite app_nil_r in *; [|rewrite Ea, Eb; by eexists].
        subst p. rewrite Ea, Forall_app in Hn. destruct Hn as [Hn _].
        by destruct (nibbles_not_full k k Hn Hk).
      + intros [q Hq]. rewrite Ea, <- app_assoc in Hq. rewrite Eb in Hq. apply app_inv_head in Hq. subst b'.
        destruct Hc as [? | [? | (x & y & a2 & b2 & -> & Hb & Hxy)]]; [by auto|by auto|].
        by injection Hb.
    - split.
      + intros [-> | ->]; rewrite app_nil_r in *; subst p.
        * apply (valid_prefix e); [done|done|]. rewrite Ea. by eexists.
        * symmetry. apply (valid_prefix e); [done|done|]. rewrite Eb. by eexists.
      + intros Heq. rewrite Ea, Eb in Heq. apply app_inv_head in Heq. subst b'.
        destruct Hc as [? | [? | (x & y & a2 & b2 & -> & Hb & Hxy)]]; [by auto|by auto|].
        by injection Hb. }
  rewrite Hhit. case_bool_decide as Hh.
  - eexists. split; [done|]. split; [done|]. cbn. split; [constructor|]. split.
    + intros k' r Hv. rewrite reads_nil_iff. case_bool_decide as Hh'; [done|].
      rewrite reads_leaf_iff, bool_decide_false; [done|]. by intros ->.
    + intros ->. cbn in Hh. subst k. by rewrite reads_leaf_iff, bool_decide_true.
  - eexists. split; [done|]. split; [done|]. cbn. split; [by constructor|]. split; [done|].
    apply holds_without_none. intros k' _ Hh'. rewrite reads_leaf_iff, bool_decide_false; [done|].
    by intros ->.
Qed.

Lemma deletes_extension d nd k next rest dl :
  k <> [] -> Forall nibble k -> wf false next -> deletes false d next rest dl ->
  let n := ExtensionNode nd k next in
  let n' := ExtensionNode (dirty nd) k (del_new dl) in
  deletes false d n (k ++ rest)
    (if del_match dl then mkDeletion true (if is_nil (del_new dl) then NilNode else n') None n'
     else mkDeletion false n None n).
Proof.
  intros Hk0 Hk Hnext [Herr Hd] n n'. split; [by destruct (del_match dl)|].
  destruct (del_match dl); cbn.
  - destruct Hd as (Hw & Hwo & Hhit).
    assert (Hn' : wf false n' /\ holds_without false d n n' (k ++ rest)).
    { split; [by constructor|by apply holds_without_extension]. }
    assert (Hr : d = false -> ~ reads n (k ++ rest) None).
    { intros Hf. unfold n. rewrite reads_extension_iff. by apply Hhit. }
    destruct Hn' as [Hwn Hwon]. destruct (is_nil (del_new dl)) eqn:Hnil; [|done].
    split; [constructor|]. split; [|done]. apply (holds_without_same _ _ _ n'); [done|]. intros key r Hv. unfold n'.
    destruct (del_new dl); try done. rewrite reads_nil_iff.
    destruct (decide (k `prefix_of` key)) as [[q ->]|Hp].
    + by rewrite reads_extension_iff, reads_nil_iff.
    + by rewrite reads_extension_other_iff.
  - destruct Hd as (_ & _ & Hwo). split; [by constructor|]. split; [done|].
    by apply holds_without_extension.
Qed.

(** The three cases of a deletion in an extension. *)
Lemma delete_extension_spec d nd k next key fuel :
  k <> [] -> Forall nibble k -> wf false next -> del_key d false key ->
  (need (ExtensionNode nd k next) key <= S fuel)%nat ->
  (forall key, del_key d false key -> (need next key <= fuel)%nat ->
    exists dl, delete fuel t d next key = Some dl /\ deletes false d next key dl) ->
  exists dl, delete (S fuel) t d (ExtensionNode nd k next) key = Some dl
    /\ deletes false d (ExtensionNode nd k next) key dl.
Proof.
  intros Hk Hn Hw Hkey Hf IH.
  cbn [delete]. destruct (matchkeyLen_spec key k) as (p & a' & b' & Ea & Eb & -> & Hc).
  destruct (d && (length p =? length key)%nat) eqn:Hall.
  { apply andb_true_iff in Hall as [-> Hlen]. apply Nat.eqb_eq in Hlen.
    assert (a' = []) as -> by (rewrite Ea, length_app in Hlen; destruct a'; cbn in Hlen; [done|lia]).
    rewrite app_nil_r in Ea. subst p. eexists. split; [done|]. split; [done|]. cbn.
    split; [constructor|]. split; [|done]. intros k' r Hv. rewrite reads_nil_iff. cbn.
    case_bool_decide as Hp; [done|]. rewrite reads_extension_other_iff; [done|].
    intros Hpk. apply Hp. rewrite Eb in Hpk. etrans; [|done]. by eexists. }
  destruct (Nat.eqb_spec (length p) (length k)) as [Hlen|Hlen].
  { assert (b' = []) as -> by (rewrite Eb, length_app in Hlen; destruct b'; cbn in Hlen; [done|lia]).
    rewrite app_nil_r in Eb. subst p. rewrite Ea, drop_app_length.
    destruct (IH a') as (dl & -> & Hdl).
    - rewrite Ea in Hkey. destruct d; cbn in *; [|by apply full_app in Hkey].
      destruct Hkey as (_ & _ & Hkn). rewrite Forall_app in Hkn. split; [done|]. split; [|by apply Hkn].
      intros ->. rewrite app_nil_r in Ea. subst key. by rewrite Nat.eqb_refl in Hall.
    - pose proof (need_bound next a'). cbn in Hf. rewrite Ea, length_app in Hf.
      assert (length k <> 0)%nat by (by destruct k). lia.
    - pose proof (deletes_extension d nd k next a' dl Hk Hn Hw Hdl) as Hext.
      destruct dl as [[] nw [err|] self]; [by destruct Hdl| |by destruct Hdl|]; by eexists. }
  eexists. split; [done|]. split; [done|]. cbn. split; [by constructor|]. split; [done|].
  apply holds_without_none. intros k' Hv Hh. constructor. intros Hp.
  assert (Hpart : exists x y a2 b2, key = p ++ x :: a2 /\ k = p ++ y :: b2 /\ x <> y).
  { destruct Hc as [-> | [-> | (x & y & a2 & b2 & -> & -> & Hxy)]]; [|by rewrite app_nil_r in Eb; subst|by eauto 10].
    rewrite app_nil_r in Ea. subst p. rewrite Nat.eqb_refl, andb_true_r in Hall. subst d. cbn in Hkey.
    rewrite Eb, Forall_app in Hn. by destruct (nibbles_not_full key key (proj1 Hn) Hkey). }
  destruct Hpart as (x & y & a2 & b2 & -> & -> & Hxy).
  replace (p ++ x :: a2) with ((p ++ [x]) ++ a2) in Hh by (by rewrite <- app_assoc).
  apply hit_starts in Hh as [q1 ->]. destruct Hp as [q2 Hq]. rewrite <- !app_assoc in Hq.
  apply app_inv_head in Hq. by injection Hq.
Qed.

Lemma delete_branch_spec d nd cs key fuel :
  length cs = numBranchChildren -> (forall b c, child cs b = Some c -> wf (ended_at b) c) ->
  del_key d false key -> (need (BranchNode nd cs) key <= S fuel)%nat ->
  (forall b c, child cs b = Some c -> forall key, del_key d (ended_at b) key -> (need c key <= fuel)%nat ->
    exists dl, delete fuel t d c key = Some dl /\ deletes (ended_at b) d c key dl) ->
  exists dl, delete (S fuel) t d (BranchNode nd cs) key = Some dl
    /\ deletes false d (BranchNode nd cs) key dl.
Proof.
  intros Hl Hcs Hkey Hf IH.
  cbn [delete]. destruct key as [|b rest].
  { destruct d; [by destruct Hkey as (_ & ? & _)|by apply full_not_nil in Hkey]. }
  assert (Hb : 0 <= b <= 16).
  { destruct d; [|by apply full_step in Hkey as [? _]]. destruct Hkey as (_ & _ & Hkn).
    apply Forall_cons in Hkn as [? _]. unfold nibble in *. lia. }
  destruct (child_some cs b Hl Hb) as [c Hc]. rewrite Hc.
  destruct (d && (length (b :: rest) =? 1)%nat) eqn:Hone.
  + apply andb_true_iff in Hone as [-> Hlen]. destruct rest; [|done].
    assert (Hnone : holds_without (ended_at b) true c NilNode []).
    { intros k r _. rewrite reads_nil_iff, bool_decide_true by apply prefix_nil. done. }
    destruct (is_nil c) eqn:Hnil; [|eexists; split; [done|]; apply (shrink_deletes true nd cs b c); try done; constructor].
    eexists. split; [done|]. split; [done|]. cbn. split; [by constructor|]. split; [done|].
    destruct c; try done. rewrite <- (set_child_same cs b NilNode) at 2 by done.
    by eapply holds_without_child.
  + destruct (IH b c Hc rest) as (dl & -> & Hdl).
    * destruct d; [|by apply full_step in Hkey as [_ ?]]. destruct Hkey as (_ & _ & Hkn).
      apply Forall_cons in Hkn as [Hbn Hkn]. split; [unfold ended_at, nibble in *; lia|].
      split; [by intros ->|done].
    * pose proof (need_bound c rest). cbn in Hf. lia.
    * destruct Hdl as [Herr Hd]. destruct dl as [m nw err self]. cbn in Herr, Hd. subst err.
      destruct m.
      -- eexists. split; [done|]. destruct Hd as (? & ? & ?). by apply (shrink_deletes d nd cs b c).
      -- destruct Hd as (_ & _ & Hd). eexists. split; [done|]. split; [done|]. cbn.
         split; [by constructor|]. split; [done|].
         rewrite <- (set_child_same cs b c) at 2 by done. by eapply holds_without_child.
Qed.

Lemma delete_spec d e n :
  wf e n -> forall fuel key, del_key d e key -> (need n key <= fuel)%nat ->
  exists dl, delete fuel t d n key = Some dl /\ deletes e d n key dl.
Proof.
  induction 1 as [e|e nd k v Hk|nd k next Hk Hn Hw IH|nd cs Hl Hcs IH|e h n Hl Hh Hw IH];
    intros fuel key Hkey Hf; (destruct fuel as [|fuel]; [cbn in Hf; lia|]).
  - eexists. split; [done|]. split; [done|]. cbn. split; [constructor|]. split; [done|].
    apply holds_without_none. intros. constructor.
  - by apply delete_leaf_spec.
  - apply delete_extension_spec; try done. intros. by apply IH.
  - apply delete_branch_spec; try done. intros. by eapply IH.
  - cbn [delete]. rewrite Hl. destruct (IH fuel key Hkey) as (dl & -> & [Herr Hd]).
    { pose proof (need_loaded n key Hh). cbn in Hf. lia. }
    eexists. split; [done|]. split; [done|]. cbn.
    assert (Hsame : forall k r, reads (hashNode h) k r <-> reads n k r) by (by intros; apply reads_hash_iff).
    destruct (del_match dl).
    + destruct Hd as (? & Hwo & Hhit). split; [done|]. split; [|by rewrite Hsame].
      intros k r Hv. transitivity (if bool_decide (hit d key k) then r = None else reads n k r);
        [by apply Hwo|]. case_bool_decide; [done|]. by rewrite Hsame.
    + destruct Hd as (_ & _ & Hwo). split; [by econstructor|]. split; [done|].
      intros k r Hv. specialize (Hwo k r Hv). case_bool_decide; [|done]. by rewrite Hsame.
Qed.

(** ** Hashing *)

Lemma child_map f cs b : child (map f cs) b = f <$> child cs b.
Proof. unfold child. destruct (0 <=? b); [|done]. by rewrite list_lookup_fmap. Qed.

Lemma same_leaf e nd nd' k v : same_reads e (LeafNode nd k v) (LeafNode nd' k v).
Proof. intros key r _. by rewrite !reads_leaf_iff. Qed.

(** The node that [nodeHash] leaves. *)
Definition hashed (batch : bool) (n : noder) : noder := (nodeHash batch n).1.1.

Lemma hashed_spec batch e n : wf e n -> wf e (hashed batch n) /\ same_reads e n (hashed batch n).
Proof.
  unfold hashed. induction 1 as [e|e nd k v Hk|nd k next Hk Hn Hw IH|nd cs Hl Hcs IH|e h n Hl Hh Hw IH];
    cbn [nodeHash].
  - split; [constructor|done].
  - destruct (hash_known _ _); [by split; [constructor|]|]. cbn. split; [by constructor|apply same_leaf].
  - destruct (hash_known _ _); [by split; [constructor|]|].
    destruct (nodeHash batch next) as [[next' nexthash] w1]. destruct IH as [IHw IHs]. cbn in *.
    split; [by constructor|by apply same_extension].
  - destruct (hash_known _ _); [by split; [constructor|]|]. cbn.
    assert (Hch : forall b c', child (map (fun r => r.1.1) (map (nodeHash batch) cs)) b = Some c' ->
      exists c, child cs b = Some c /\ c' = (nodeHash batch c).1.1).
    { intros b c'. rewrite map_map, child_map. intros (c & -> & Hc)%fmap_Some. by exists c. }
    split.
    + constructor; [by rewrite !length_map|]. intros b c' Hc'.
      destruct (Hch b c' Hc') as (c & Hc & ->). by apply (IH b c).
    + apply same_branch; [|done|by rewrite !length_map]. intros b c c' Hc Hc'.
      destruct (Hch b c' Hc') as (c2 & Hc2 & ->). simplify_eq. by apply (IH b c).
  - destruct (hash_known _ _); by split; [econstructor|].
Qed.
End nodes.

(** ** The trie as a map *)

Section tries.
Context `{TrieEnv}.

Lemma wf_load t t' e n :
  (forall h m, loadNode t h = inl m -> loadNode t' h = inl m) -> wf t e n -> wf t' e n.
Proof. intros Hld. induction 1; econstructor; eauto. Qed.

Lemma reads_load t t' n key r :
  (forall h m, loadNode t h = inl m -> loadNode t' h = inl m) -> reads t n key r -> reads t' n key r.
Proof. intros Hld. induction 1; econstructor; eauto. Qed.

(** The trie holds the map, on keys of bytes. *)
Definition represents (t : Trie) (m : gmap bytes bytes) : Prop :=
  wf t false (t_root t)
  /\ forall k, Forall is_byte k -> reads t (t_root t) (keybytesToHex k) (m !! k).

Lemma represents_root t root m :
  wf t false root -> (forall k, Forall is_byte k -> reads t root (keybytesToHex k) (m !! k)) ->
  represents (with_root t root) m.
Proof.
  intros Hw Hr. split; [by apply (wf_load t)|]. intros k Hk. apply (reads_load t); [done|by apply Hr].
Qed.

Lemma represents_same t root m :
  represents t m -> wf t false root -> same_reads t false (t_root t) root ->
  represents (with_root t root) m.
Proof.
  intros [_ Hr] Hw Hs. apply represents_root; [done|]. intros k Hk.
  rewrite <- (Hs _ _ (keybytesToHex_full k Hk)). by apply Hr.
Qed.

Lemma NewEmptyTrie_represents dbprefix db : represents (NewEmptyTrie dbprefix db) ∅.
Proof. split; [constructor|]. intros k Hk. rewrite lookup_empty. constructor. Qed.

Lemma need_walk n key : (need n key <= walk_fuel key)%nat.
Proof. apply need_bound. Qed.

Lemma Trie_Put_spec t m key value :
  represents t m -> Forall is_byte key ->
  exists t', Trie_Put t key value = Some (t', None) /\ represents t' (<[key := value]> m).
Proof.
  intros [Hw Hr] Hk. unfold Trie_Put.
  destruct (insert_spec t value false (t_root t) Hw (walk_fuel (keybytesToHex key)) (keybytesToHex key))
    as (n' & -> & Hw' & _ & Hput); [by apply keybytesToHex_full|apply need_walk|].
  eexists. split; [done|]. apply represents_root; [done|]. intros k Hkb.
  apply Hput; [by apply keybytesToHex_full|]. destruct (decide (k = key)) as [-> | Hne].
  - by rewrite bool_decide_true, lookup_insert_eq.
  - rewrite bool_decide_false by (by intros ?%keybytesToHex_inj). rewrite lookup_insert_ne by done.
    by apply Hr.
Qed.

Lemma nil_represents t m k :
  is_nil (t_root t) = true -> represents t m -> Forall is_byte k -> m !! k = None.
Proof.
  intros Hn [_ Hr] Hk. specialize (Hr k Hk). destruct (t_root t); try done. by inversion Hr.
Qed.

Lemma Trie_Get_spec t m key :
  represents t m -> Forall is_byte key ->
  exists t', Trie_Get t key = Some (t', default [] (m !! key), bool_decide (is_Some (m !! key)), None)
    /\ represents t' m.
Proof.
  intros Hrep Hk. unfold Trie_Get. destruct (is_nil (t_root t)) eqn:Hnil.
  { rewrite (nil_represents t m key) by done. by exists t. }
  destruct Hrep as [Hw Hr].
  destruct (get_spec t false (t_root t) Hw (walk_fuel (keybytesToHex key)) (keybytesToHex key) 0)
    as (n' & r & -> & Hrd & Hw' & Hs); [lia|by apply keybytesToHex_full|apply need_walk|].
  rewrite drop_0 in Hrd. rewrite (reads_det t _ _ _ _ (Hr key Hk) Hrd). eexists. split; [done|].
  destruct (t_root t) eqn:Hroot; [by rewrite <- Hroot in *; apply represents_same..|]. split; by rewrite Hroot.
Qed.

Lemma after_deletion_spec t m m' d key dl :
  represents t m -> del_key d false key -> deletes t false d (t_root t) key dl ->
  (forall k, Forall is_byte k ->
    m' !! k = if bool_decide (hit d key (keybytesToHex k)) then None else m !! k) ->
  exists t', after_deletion t dl = (t', del_match dl, None) /\ represents t' m'
    /\ (del_match dl = false -> forall k, Forall is_byte k -> hit d key (keybytesToHex k) -> m !! k = None)
    /\ (d = false -> del_match dl = true -> ~ reads t (t_root t) key None).
Proof.
  intros [Hw Hr] Hkey [Herr Hd] Hm'. destruct dl as [mt nw err self]. cbn in Herr, Hd |- *. subst err.
  destruct mt.
  - destruct Hd as (Hwn & Hwo & Hhit). eexists. split; [done|].
    split; [|split; [done|by intros ? _; apply Hhit]].
    apply represents_root; [done|]. intros k Hk. apply Hwo; [by apply keybytesToHex_full|].
    rewrite Hm' by done. case_bool_decide; [done|by apply Hr].
  - destruct Hd as (Hwn & Hs & Hwo). eexists. split; [done|].
    assert (Hnone : forall k, Forall is_byte k -> hit d key (keybytesToHex k) -> m !! k = None).
    { intros k Hk Hh. pose proof (Hwo (keybytesToHex k) (m !! k) (keybytesToHex_full k Hk)) as Hiff.
      rewrite bool_decide_true in Hiff by done. by apply Hiff, Hr. }
    split; [|by split]. apply represents_same; [|done|done]. split; [done|]. intros k Hk.
    rewrite Hm' by done. case_bool_decide as Hh; [|by apply Hr]. rewrite <- (Hnone k Hk Hh). by apply Hr.
Qed.

Lemma Trie_Delete_spec t m key :
  represents t m -> Forall is_byte key ->
  exists t', Trie_Delete t key = Some (t', bool_decide (is_Some (m !! key)), None)
    /\ represents t' (base.delete key m).
Proof.
  intros Hrep Hk. unfold Trie_Delete. destruct (is_nil (t_root t)) eqn:Hnil.
  { pose proof (nil_represents t m key Hnil Hrep Hk) as Hn. rewrite Hn. exists t. split; [done|].
    by rewrite delete_id. }
  pose proof Hrep as [Hw Hr]. set (kx := keybytesToHex key).
  assert (Hdk : del_key false false kx) by (by apply keybytesToHex_full).
  destruct (delete_spec t false false (t_root t) Hw (walk_fuel kx) kx) as (dl & -> & Hdl);
    [done|apply need_walk|].
  destruct (after_deletion_spec t m (base.delete key m) false kx dl Hrep Hdk Hdl) as (t' & Ha & Hrep' & Hf & Ht).
  { intros k Hkb. cbn. destruct (decide (k = key)) as [-> | Hne].
    - by rewrite lookup_delete_eq, bool_decide_true.
    - rewrite lookup_delete_ne, bool_decide_false by (try intros ?%keybytesToHex_inj; congruence). done. }
  rewrite Ha. exists t'. split; [|done]. do 3 f_equal. specialize (Hr key Hk). fold kx in Hr.
  destruct (del_match dl).
  - rewrite bool_decide_true; [done|]. destruct (m !! key) as [v|] eqn:Hv; [by eexists|].
    by destruct (Ht eq_refl eq_refl).
  - rewrite (Hf eq_refl key Hk eq_refl). done.
Qed.

Lemma take_nibbles p : take (length (keybytesToHex p) - 1) (keybytesToHex p) = nibbles p.
Proof.
  rewrite keybytesToHex_nibbles, length_app. cbn [length]. rewrite Nat.add_sub. apply take_app_length.
Qed.

(** The map without the keys that start with the prefix. *)
Definition delete_prefix (p : bytes) (m : gmap bytes bytes) : gmap bytes bytes :=
  filter (fun kv => ~ p `prefix_of` kv.1) m.

Lemma lookup_delete_prefix p m k :
  delete_prefix p m !! k = if bool_decide (p `prefix_of` k) then None else m !! k.
Proof.
  unfold delete_prefix. case_bool_decide as Hp.
  - apply map_lookup_filter_None. right. intros v _ Hn. by apply Hn.
  - destruct (m !! k) as [v|] eqn:Hv.
    + by apply map_lookup_filter_Some.
    + apply map_lookup_filter_None. by left.
Qed.

(** The result of [DeletePrefix] is true when something was there to delete. *)
Lemma Trie_DeletePrefix_spec t m p :
  represents t m -> Forall is_byte p -> p <> [] ->
  exists t' b, Trie_DeletePrefix t p = Some (t', b, None) /\ represents t' (delete_prefix p m)
    /\ (forall k, Forall is_byte k -> p `prefix_of` k -> is_Some (m !! k) -> b = true).
Proof.
  intros Hrep Hp Hne. unfold Trie_DeletePrefix.
  rewrite (proj2 (Nat.eqb_neq (length p) 0)) by (by destruct p). cbn [orb].
  destruct (is_nil (t_root t)) eqn:Hnil.
  { exists t, false. split; [done|]. split.
    - split; [by apply Hrep|]. intros k Hk. rewrite lookup_delete_prefix.
      rewrite (nil_represents t m k Hnil Hrep Hk). pose proof (proj2 Hrep k Hk) as Hr.
      rewrite (nil_represents t m k Hnil Hrep Hk) in Hr. by case_bool_decide.
    - intros k Hk _ [v Hv]. by rewrite (nil_represents t m k Hnil Hrep Hk) in Hv. }
  pose proof Hrep as [Hw Hr]. rewrite take_nibbles.
  assert (Hdk : del_key true false (nibbles p)).
  { split; [done|]. split; [by destruct p|by apply nibbles_nibble]. }
  destruct (delete_spec t true false (t_root t) Hw (walk_fuel (nibbles p)) (nibbles p))
    as (dl & -> & Hdl); [done|apply need_walk|].
  destruct (after_deletion_spec t m (delete_prefix p m) true (nibbles p) dl Hrep Hdk Hdl)
    as (t' & Ha & Hrep' & Hf & _).
  { intros k Hk. rewrite lookup_delete_prefix. cbn.
    by rewrite (bool_decide_ext _ _ (nibbles_prefix p k Hp)). }
  rewrite Ha. exists t', (del_match dl). split; [done|]. split; [done|].
  intros k Hk Hpk [v Hv]. destruct (del_match dl); [done|].
  rewrite (Hf eq_refl k Hk) in Hv; [done|]. by apply nibbles_prefix.
Qed.

Lemma Trie_Hash_spec t m : represents t m -> represents (Trie_Hash t).1 m.
Proof.
  intros Hrep. unfold Trie_Hash. destruct (is_nil (t_root t)); [done|].
  destruct (hashed_spec t false false (t_root t) (proj1 Hrep)) as [Hw Hs]. unfold hashed in *.
  destruct (nodeHash false (t_root t)) as [[root h] w]. by apply represents_same.
Qed.

Lemma Trie_Commit_spec t m : represents t m -> represents (Trie_Commit t).1.1 m.
Proof.
  intros Hrep. unfold Trie_Commit. destruct (is_nil (t_root t)); [done|].
  destruct (hashed_spec t true false (t_root t) (proj1 Hrep)) as [Hw Hs]. unfold hashed in *.
  destruct (nodeHash true (t_root t)) as [[root h] w]. by apply represents_same.
Qed.

(** ** Refinement *)

(** The calls of a client, and what they return. *)
Inductive trie_call : Type :=
| CPut (key value : bytes)
| CGet (key : bytes)
| CDelete (key : bytes)
| CDeletePrefix (prefix : bytes)
| CHash
| CCommit.

Inductive trie_result : Type :=
| RPut
| RGet (value : bytes) (found : bool)
| RDelete (found : bool)
| RHash (h : Hash)
| RError (err : TrieError).

Definition trie_run (t : Trie) (c : trie_call) : option (Trie * trie_result) :=
  match c with
  | CPut key value =>
      match Trie_Put t key value with
      | None => None
      | Some (t', None) => Some (t', RPut)
      | Some (t', Some err) => Some (t', RError err)
      end
  | CGet key =>
      match Trie_Get t key with
      | None => None
      | Some (t', value, found, None) => Some (t', RGet value found)
      | Some (t', _, _, Some err) => Some (t', RError err)
      end
  | CDelete key =>
      match Trie_Delete t key with
      | None => None
      | Some (t', found, None) => Some (t', RDelete found)
      | Some (t', _, Some err) => Some (t', RError err)
      end
  | CDeletePrefix prefix =>
      match Trie_DeletePrefix t prefix with
      | None => None
      | Some (t', found, None) => Some (t', RDelete found)
      | Some (t', _, Some err) => Some (t', RError err)
      end
  | CHash => let '(t', h) := Trie_Hash t in Some (t', RHash h)
  | CCommit => let '(t', h, _) := Trie_Commit t in Some (t', RHash h)
  end.

Fixpoint trie_runs (t : Trie) (cs : list trie_call) : option (Trie * list trie_result) :=
  match cs with
  | [] => Some (t, [])
  | c :: cs' =>
      match trie_run t c with
      | None => None
      | Some (t1, r) =>
          match trie_runs t1 cs' with
          | None => None
          | Some (t2, rs) => Some (t2, r :: rs)
          end
      end
  end.

Definition call_ok (c : trie_call) : Prop :=
  match c with
  | CPut key _ | CGet key | CDelete key | CDeletePrefix key => Forall is_byte key
  | CHash | CCommit => True
  end.

(** The specification: a finite map. Hashing leaves it alone; the result of a
    prefix deletion is only known when there was a key to delete. *)
Inductive map_step : gmap bytes bytes -> trie_call -> trie_result -> gmap bytes bytes -> Prop :=
| step_put m key value : map_step m (CPut key value) RPut (<[key := value]> m)
| step_get m key :
    map_step m (CGet key) (RGet (default [] (m !! key)) (bool_decide (is_Some (m !! key)))) m
| step_delete m key :
    map_step m (CDelete key) (RDelete (bool_decide (is_Some (m !! key)))) (base.delete key m)
| step_no_prefix m : map_step m (CDeletePrefix []) (RDelete false) m
| step_delete_prefix m p b :
    p <> [] ->
    (forall k, Forall is_byte k -> p `prefix_of` k -> is_Some (m !! k) -> b = true) ->
    map_step m (CDeletePrefix p) (RDelete b) (delete_prefix p m)
| step_hash m h : map_step m CHash (RHash h) m
| step_commit m h : map_step m CCommit (RHash h) m.

Inductive map_steps : gmap bytes bytes -> list trie_call -> list trie_result -> gmap bytes bytes -> Prop :=
| steps_nil m : map_steps m [] [] m
| steps_cons m1 m2 m3 c cs r rs :
    map_step m1 c r m2 -> map_steps m2 cs rs m3 -> map_steps m1 (c :: cs) (r :: rs) m3.

Lemma trie_run_spec t m c :
  represents t m -> call_ok c ->
  exists t' r m', trie_run t c = Some (t', r) /\ map_step m c r m' /\ represents t' m'.
Proof.
  intros Hrep Hc. destruct c as [key value|key|key|p| |]; cbn [trie_run call_ok] in *.
  - destruct (Trie_Put_spec t m key value Hrep Hc) as (t' & -> & Hrep'). eauto 10 using step_put.
  - destruct (Trie_Get_spec t m key Hrep Hc) as (t' & -> & Hrep'). eauto 10 using step_get.
  - destruct (Trie_Delete_spec t m key Hrep Hc) as (t' & -> & Hrep'). eauto 10 using step_delete.
  - destruct (decide (p = [])) as [-> | Hne]; [by eauto 10 using step_no_prefix|].
    destruct (Trie_DeletePrefix_spec t m p Hrep Hc Hne) as (t' & b & -> & Hrep' & Hb).
    eauto 10 using step_delete_prefix.
  - pose proof (Trie_Hash_spec t m Hrep) as Hh. destruct (Trie_Hash t) as [t' h].
    eauto 10 using step_hash.
  - pose proof (Trie_Commit_spec t m Hrep) as Hh. destruct (Trie_Commit t) as [[t' h] w].
    eauto 10 using step_commit.
Qed.

Lemma trie_runs_spec cs : forall t m,
  represents t m -> Forall call_ok cs ->
  exists t' rs m', trie_runs t cs = Some (t', rs) /\ map_steps m cs rs m' /\ represents t' m'.
Proof.
  induction cs as [|c cs IH]; intros t m Hrep Hcs; [by eauto 10 using steps_nil|].
  apply Forall_cons in Hcs as [Hc Hcs]. cbn [trie_runs].
  destruct (trie_run_spec t m c Hrep Hc) as (t1 & r & m1 & -> & Hstep & Hrep1).
  destruct (IH t1 m1 Hrep1 Hcs) as (t2 & rs & m2 & -> & Hsteps & Hrep2).
  eauto 10 using steps_cons.
Qed.
End tries.

Lemma trie_refines_map_steps `{TrieEnv} dbprefix db cs :
  Forall call_ok cs ->
  exists t rs m, trie_runs (NewEmptyTrie dbprefix db) cs = Some (t, rs)
    /\ map_steps ∅ cs rs m /\ represents t m.
Proof. intros Hcs. apply trie_runs_spec; [apply NewEmptyTrie_represents|done]. Qed.

(** C32: Every sequence of Put, Get, Delete, DeletePrefix, Hash and Commit on
    keys of bytes from an empty trie runs without a panic, an error or an
    endless walk, and answers as a finite map does: a value is found exactly
    when it was put last and not deleted since, Delete tells whether the key
    was there, DeletePrefix drops exactly the keys that start with the
    prefix, and hashing and committing change nothing that is read. *)
Theorem trie_refines_map `{TrieEnv} dbprefix db cs :
  Forall call_ok cs ->
  exists t rs m, trie_runs (NewEmptyTrie dbprefix db) cs = Some (t, rs)
    /\ map_steps ∅ cs rs m /\ represents t m.
Proof. apply trie_refines_map_steps. Qed.

(** ** Walks end *)

Lemma get_mono `{TrieEnv} t fuel : forall fuel' n key pos r,
  get fuel t n key pos = Some r -> (fuel <= fuel')%nat -> get fuel' t n key pos = Some r.
Proof.
  induction fuel as [|fuel IH]; intros [|fuel'] n key pos r Hg Hle; try done; [lia|].
  assert (IH' : forall n pos r, get fuel t n key pos = Some r -> get fuel' t n key pos = Some r).
  { intros. apply IH; [done|lia]. }
  cbn [get] in *. destruct n as [|nd k next|nd k v|nd cs|h]; try done.
  - case_match; [done|]. destruct (get fuel t next key _) as [q|] eqn:Hq; [|done].
    by rewrite (IH' _ _ _ Hq).
  - case_match; [|done]. case_match; [|done].
    destruct (get fuel t _ key _) as [q|] eqn:Hq; [|done]. by rewrite (IH' _ _ _ Hq).
  - destruct (loadNode t h); [by apply IH'|done].
Qed.

Lemma insert_mono `{TrieEnv} t value fuel : forall fuel' n key r,
  insert fuel t value n key = Some r -> (fuel <= fuel')%nat -> insert fuel' t value n key = Some r.
Proof.
  induction fuel as [|fuel IH]; intros [|fuel'] n key r Hg Hle; try done; [lia|].
  assert (IH' : forall n key r, insert fuel t value n key = Some r -> insert fuel' t value n key = Some r).
  { intros. apply IH; [done|lia]. }
  cbn [insert] in *. destruct n as [|nd k next|nd k v|nd cs|h]; try done.
  - unfold insertExtensionNode in *. case_match; [|done].
    destruct (insert fuel t value next _) as [q|] eqn:Hq; [|done]. by rewrite (IH' _ _ _ Hq).
  - destruct key; [done|]. case_match; [|done].
    destruct (insert fuel t value _ _) as [q|] eqn:Hq; [|done]. by rewrite (IH' _ _ _ Hq).
  - destruct (loadNode t h); [by apply IH'|done].
Qed.

Lemma delete_mono `{TrieEnv} t descendant fuel : forall fuel' n key r,
  delete fuel t descendant n key = Some r -> (fuel <= fuel')%nat ->
  delete fuel' t descendant n key = Some r.
Proof.
  induction fuel as [|fuel IH]; intros [|fuel'] n key r Hg Hle; try done; [lia|].
  assert (IH' : forall n key r, delete fuel t descendant n key = Some r ->
    delete fuel' t descendant n key = Some r).
  { intros. apply IH; [done|lia]. }
  cbn [delete] in *. destruct n as [|nd k next|nd k v|nd cs|h]; try done.
  - case_match; [done|]. case_match; [|done].
    destruct (delete fuel t descendant next _) as [q|] eqn:Hq; [|done]. by rewrite (IH' _ _ _ Hq).
  - destruct key; [done|]. case_match; [|done]. case_match; [done|].
    destruct (delete fuel t descendant _ _) as [q|] eqn:Hq; [|done]. by rewrite (IH' _ _ _ Hq).
  - destruct (loadNode t h); [|done].
    destruct (delete fuel t descendant _ _) as [q|] eqn:Hq; [|done]. by rewrite (IH' _ _ _ Hq).
Qed.

(** The walks of get, insert and delete down a trie end: on a trie that
    holds a map they return after at most two steps per nibble of the key
    and two more, also where nodes are loaded from the database, and any
    greater bound gives the same result. *)
Theorem trie_walks_end `{TrieEnv} t m key value fuel :
  represents t m -> Forall is_byte key -> (2 * length (keybytesToHex key) + 2 <= fuel)%nat ->
  let kx := keybytesToHex key in
  (exists r, get fuel t (t_root t) kx 0 = Some r /\ get (walk_fuel kx) t (t_root t) kx 0 = Some r)
  /\ (exists r, insert fuel t value (t_root t) kx = Some r
       /\ insert (walk_fuel kx) t value (t_root t) kx = Some r)
  /\ (exists r, delete fuel t false (t_root t) kx = Some r
       /\ delete (walk_fuel kx) t false (t_root t) kx = Some r)
  /\ (key <> [] -> exists r, delete fuel t true (t_root t) (nibbles key) = Some r
       /\ delete (walk_fuel (nibbles key)) t true (t_root t) (nibbles key) = Some r).
Proof.
  intros [Hw _] Hk Hf kx. pose proof (keybytesToHex_full key Hk) as Hkx. fold kx in Hkx.
  assert (Hle : (walk_fuel kx <= fuel)%nat) by exact Hf.
  split; [|split; [|split]].
  - destruct (get_spec t false (t_root t) Hw (walk_fuel kx) kx 0) as (n' & r & Hg & _);
      [lia|done|apply need_walk|]. eexists. split; [by eapply get_mono|done].
  - destruct (insert_spec t value false (t_root t) Hw (walk_fuel kx) kx) as (n' & Hg & _);
      [done|apply need_walk|]. eexists. split; [by eapply insert_mono|done].
  - destruct (delete_spec t false false (t_root t) Hw (walk_fuel kx) kx) as (d & Hg & _);
      [done|apply need_walk|]. exists d. split; [by eapply delete_mono|done].
  - intros Hne. destruct (delete_spec t true false (t_root t) Hw (walk_fuel (nibbles key)) (nibbles key))
      as (d & Hg & _); [|apply need_walk|].
    { split; [done|]. split; [by destruct key|by apply nibbles_nibble]. }
    exists d. split; [|done]. eapply delete_mono; [done|]. unfold kx in Hle.
    rewrite keybytesToHex_nibbles in Hle. unfold walk_fuel in *. rewrite length_app in Hle. cbn in Hle. lia.
Qed.

(** ** Examples *)

(** A hash function for the examples: a polynomial in the bytes, in 32 bytes that
    start with 1. *)
Definition example_sha (b : bytes) : bytes :=
  1 :: big_endian 31 (fold_left (fun s x => (s * 257 + x + 1) mod 1000003) b 7).

Definition example_env : TrieEnv := {| sha_sum := example_sha |}.

Definition example_calls : list trie_call :=
  [CPut [17; 17] [1]; CPut [17; 33] [2]; CPut [18; 17] [3]; CGet [17; 33]; CDelete [18; 17];
   CHash; CGet [18; 17]; CPut [17] [4]; CDeletePrefix [17; 17]; CCommit; CGet [17]].

Lemma example_calls_ok : Forall call_ok example_calls.
Proof. repeat constructor; try lia; unfold is_byte; lia. Qed.

Lemma trie_refines_map_witness :
  Forall call_ok example_calls
  /\ exists t rs m, @trie_runs example_env (NewEmptyTrie [] (fun _ => None)) example_calls = Some (t, rs)
       /\ map_steps ∅ example_calls rs m /\ represents t m.
Proof.
  split; [exact example_calls_ok|].
  exact (@trie_refines_map example_env [] (fun _ => None) example_calls example_calls_ok).
Defined.

Lemma trie_walks_end_witness :
  exists t m r, represents t m /\ get 100 t (t_root t) (keybytesToHex [17; 33]) 0 = Some r.
Proof.
  destruct (@trie_refines_map_steps example_env [] (fun _ => None) example_calls example_calls_ok)
    as (t & rs & m & _ & _ & Hrep).
  assert (Hk : Forall is_byte [17; 33]) by (repeat constructor; unfold is_byte; lia).
  destruct (@trie_walks_end example_env t m [17; 33] [1] 100 Hrep Hk ltac:(cbn; lia)) as [(r & Hr & _) _].
  exists t, m, r. split; [exact Hrep|exact Hr].
Defined.

(** Two keys that are put, and the same after a third has been put and deleted. *)
Definition direct_calls : list trie_call := [CPut [17; 17] [1]; CPut [17; 33] [2]].
Definition detour_calls : list trie_call := direct_calls ++ [CPut [18; 17] [3]; CDelete [18; 17]].

Definition root_key (n : noder) : bytes :=
  match n with ExtensionNode _ k _ | LeafNode _ k _ => k | _ => [] end.

Definition direct_map : gmap bytes bytes := <[[17; 33] := [2]]> (<[[17; 17] := [1]]> ∅).

(** The trie and the map after a concrete sequence of calls. *)
Ltac run_calls p db calls :=
  let t := fresh "t" in let rs := fresh "rs" in let m := fresh "m" in
  let Hrun := fresh "Hrun" in let Hsteps := fresh "Hsteps" in let Hrep := fresh "Hrep" in
  destruct (trie_runs_spec calls _ ∅ (NewEmptyTrie_represents p db)
    ltac:(repeat constructor; unfold is_byte; lia)) as (t & rs & m & Hrun & Hsteps & Hrep);
  unfold detour_calls, direct_calls in Hsteps; cbn [app] in Hsteps;
  repeat match goal with
  | H : map_steps _ (_ :: _) _ _ |- _ => inversion H; subst; clear H
  | H : map_steps _ [] _ _ |- _ => inversion H; subst; clear H
  | H : map_step _ _ _ _ |- _ => inversion H; subst; clear H
  end.

Lemma root_after `{TrieEnv} t cs t' rs {A} (f : noder -> A) (a : A) :
  trie_runs t cs = Some (t', rs) ->
  (match trie_runs t cs with Some (t', _) => Some (f (t_root t')) | None => None end) = Some a ->
  f (t_root t') = a.
Proof. intros Hr Hf. rewrite Hr in Hf. by injection Hf. Qed.

(** The shape of the trie, and with it the root hash, depends on the
    history: putting two keys, and putting the same two keys with a third
    that is deleted again, gives tries that hold the same map, but the
    second keeps an extension and a branch with a single child where the
    first has one extension. When the two keys are then deleted by their
    prefix, the second trie is left with an extension and a branch that hold
    nothing, so that it is not hashed as the empty trie is. *)
Theorem root_depends_on_history `{TrieEnv} dbprefix db :
  exists t1 rs1 t2 rs2 t3 rs3,
    trie_runs (NewEmptyTrie dbprefix db) direct_calls = Some (t1, rs1)
    /\ trie_runs (NewEmptyTrie dbprefix db) detour_calls = Some (t2, rs2)
    /\ trie_runs (NewEmptyTrie dbprefix db) (detour_calls ++ [CDeletePrefix [17]]) = Some (t3, rs3)
    /\ represents t1 direct_map /\ represents t2 direct_map
    /\ root_key (t_root t1) = [1; 1] /\ root_key (t_root t2) = [1]
    /\ represents t3 ∅ /\ is_nil (t_root t3) = false.
Proof.
  run_calls dbprefix db direct_calls. run_calls dbprefix db detour_calls.
  run_calls dbprefix db (detour_calls ++ [CDeletePrefix [17]]).
  rename Hrun into R1, Hrun0 into R2, Hrun1 into R3. do 6 eexists.
  split; [exact R1|]. split; [exact R2|]. split; [exact R3|]. split; [exact Hrep|].
  split; [rewrite <- (delete_insert_id direct_map [18; 17] [3] eq_refl); exact Hrep0|].
  split; [apply (root_after _ _ _ _ root_key _ R1); vm_compute; reflexivity|].
  split; [apply (root_after _ _ _ _ root_key _ R2); vm_compute; reflexivity|].
  split; [|apply (root_after _ _ _ _ is_nil _ R3); vm_compute; reflexivity].
  replace ∅ with (delete_prefix [17] (base.delete [18; 17] (<[[18; 17] := [3]]> direct_map)))
    by (vm_compute; reflexivity).
  exact Hrep1.
Qed.
