(* ===== verification/TrieCommit.v ===== *)
(** * Committing and loading a trie

    What a node holds is in the database once it has been committed: the hash of a
    node that is not dirty is the hash of its encoding, and a persisted node is
    what is loaded from its hash. [coh] is this invariant; with it, a trie that is
    committed and opened again from the root hash holds the same map. *)

From Stdlib Require Import ZArith Lia.
From S2P Require Import Prelude Common Rlp Trie TrieProofs.

Open Scope Z_scope.

(** The hash function: 32 bytes, never all zero. *)
Class ShaLaws `{TrieEnv} : Prop := {
  sha_length b : length (sha_sum b) = HashLength;
  sha_not_empty b : sha_sum b <> EmptyHash
}.

Section commit.
Context `{ShaLaws}.

(** ** Nodes and what is loaded for them *)

Definition inner (n : noder) : bool :=
  match n with NilNode | hashNode _ => false | _ => true end.

Definition children (n : noder) : list noder :=
  match n with
  | ExtensionNode _ _ next => [next]
  | BranchNode _ cs => cs
  | _ => []
  end.

(** The child of a node that has been loaded. *)
Definition shallow (c : noder) : noder :=
  match c with NilNode => NilNode | c => hashNode (node_Hash c) end.

Definition shallow_node (n : noder) : noder :=
  match n with
  | LeafNode nd k v => LeafNode (newPersistedNode (nd_hash nd)) k v
  | ExtensionNode nd k next => ExtensionNode (newPersistedNode (nd_hash nd)) k (shallow next)
  | BranchNode nd cs => BranchNode (newPersistedNode (nd_hash nd)) (map shallow cs)
  | n => n
  end.

(** The encoding of a node. *)
Definition node_buf (n : noder) : bytes :=
  match n with
  | LeafNode _ k v => encode_leaf k v
  | ExtensionNode _ k next => encode_extension k (node_Hash next)
  | BranchNode _ cs => encode_branch (map node_Hash cs)
  | _ => []
  end.

Definition shape (n : noder) : Prop :=
  match n with
  | ExtensionNode _ _ next => next <> NilNode
  | BranchNode _ cs => length cs = numBranchChildren
  | _ => True
  end.

(** A child that has a hash, and one that is in the database. *)
Definition settled (c : noder) : Prop := c <> NilNode -> node_Status c <> nodeStatusDirty.
Definition kept (c : noder) : Prop := c <> NilNode -> node_Status c = nodeStatusPersisted.

Inductive coh (t : Trie) : noder -> Prop :=
| coh_nil : coh t NilNode
| coh_hash h n :
    loadNode t h = inl n -> inner n = true -> node_Status n = nodeStatusPersisted ->
    node_Hash n = h -> coh t n -> coh t (hashNode h)
| coh_node n :
    inner n = true -> shape n -> (forall c, c ∈ children n -> coh t c) ->
    (node_Status n <> nodeStatusDirty ->
      node_Hash n = sha_sum (node_buf n) /\ forall c, c ∈ children n -> settled c) ->
    (node_Status n = nodeStatusPersisted ->
      loadNode t (node_Hash n) = inl (shallow_node n) /\ forall c, c ∈ children n -> kept c) ->
    coh t n.

Lemma coh_dirty t n :
  inner n = true -> shape n -> node_Status n = nodeStatusDirty ->
  (forall c, c ∈ children n -> coh t c) -> coh t n.
Proof. intros Hi Hs Hd Hc. by apply coh_node; rewrite ?Hd. Qed.

Lemma coh_children t n : coh t n -> inner n = true -> shape n /\ forall c, c ∈ children n -> coh t c.
Proof. intros Hc Hi. by destruct Hc. Qed.

Lemma elem_of_set_child c cs b c' : c ∈ set_child cs b c' -> c = c' \/ c ∈ cs.
Proof.
  unfold set_child. intros [j Hj]%list_elem_of_lookup_1.
  destruct (decide (Z.to_nat b = j)) as [<- | Hne].
  - destruct (decide (Z.to_nat b < length cs)%nat).
    + rewrite list_lookup_insert_eq in Hj by done. left. congruence.
    + rewrite list_insert_ge in Hj by lia. right. by apply list_elem_of_lookup_2 in Hj.
  - rewrite list_lookup_insert_ne in Hj by done. right. by apply list_elem_of_lookup_2 in Hj.
Qed.

Lemma child_elem cs b c : child cs b = Some c -> c ∈ cs.
Proof. unfold child. destruct (0 <=? b); [|done]. apply list_elem_of_lookup_2. Qed.

Lemma no_children_nil c : c ∈ noChildren -> c = NilNode.
Proof. unfold noChildren. by intros [-> _]%elem_of_replicate. Qed.

(** ** Writing keeps the invariant *)

Lemma coh_branch_set t nd cs b c :
  length cs = numBranchChildren -> nd_status nd = nodeStatusDirty ->
  (forall c, c ∈ cs -> coh t c) -> coh t c -> coh t (BranchNode nd (set_child cs b c)).
Proof.
  intros Hl Hd Hcs Hc. apply coh_dirty; [done|by cbn; rewrite length_set_child|done|].
  cbn. intros c0 [-> | ?]%elem_of_set_child; [done|by apply Hcs].
Qed.

Lemma coh_leaf_dirty t nd k v : nd_status nd = nodeStatusDirty -> coh t (LeafNode nd k v).
Proof. intros Hd. apply coh_dirty; [done|done|done|]. intros c Hc. by apply not_elem_of_nil in Hc. Qed.

Lemma coh_extension_dirty t nd k next :
  nd_status nd = nodeStatusDirty -> next <> NilNode -> coh t next -> coh t (ExtensionNode nd k next).
Proof.
  intros Hd Hn Hc. apply coh_dirty; [done|done|done|]. cbn. by intros c ->%list_elem_of_singleton.
Qed.

Lemma coh_split t key n b b' moved new :
  coh t moved -> coh t new ->
  coh t (split_node key n (BranchNode zeroNode (set_child (set_child noChildren b moved) b' new)))
  /\ inner (split_node key n (BranchNode zeroNode (set_child (set_child noChildren b moved) b' new))) = true.
Proof.
  intros Hm Hn. unfold split_node.
  assert (Hb : coh t (BranchNode zeroNode (set_child (set_child noChildren b moved) b' new))).
  { apply coh_branch_set; [by rewrite length_set_child|done| |done].
    intros c [-> | ->%no_children_nil]%elem_of_set_child; [done|constructor]. }
  destruct (n =? 0)%nat; [done|]. split; [by apply coh_extension_dirty|done].
Qed.

Lemma insert_coh fuel t value : forall n key n',
  coh t n -> insert fuel t value n key = Some (inl n') -> coh t n' /\ inner n' = true.
Proof.
  induction fuel as [|fuel IH]; intros n key n' Hc; [done|]. cbn [insert].
  destruct n as [|nd k next|nd k v|nd cs|h].
  - intros [= <-]. split; [by apply coh_leaf_dirty|done].
  - destruct (coh_children t _ Hc eq_refl) as [Hs Hch]. cbn in Hs, Hch.
    assert (Hnext : coh t next) by (apply Hch, list_elem_of_singleton; done).
    unfold insertExtensionNode. case_match.
    + destruct (insert fuel t value next _) as [[nw|]|] eqn:Hi; try done. intros [= <-].
      destruct (IH _ _ _ Hnext Hi) as [Hw Hin]. split; [|done].
      apply coh_extension_dirty; [done|by intros ->|done].
    + case_match; [|done]. case_match; [|done]. intros [= <-].
      apply coh_split; [|by apply coh_leaf_dirty]. case_match; [done|by apply coh_extension_dirty].
  - unfold insertLeafNode. case_match.
    + intros [= <-]. split; [by apply coh_leaf_dirty|done].
    + case_match; [|done]. case_match; [|done]. intros [= <-].
      apply coh_split; by apply coh_leaf_dirty.
  - destruct (coh_children t _ Hc eq_refl) as [Hs Hch]. cbn in Hs, Hch.
    destruct key as [|b rest]; [done|]. destruct (child cs b) as [c|] eqn:Hb; [|done].
    destruct (insert fuel t value c rest) as [[c'|]|] eqn:Hi; try done. intros [= <-].
    destruct (IH _ _ _ (Hch c (child_elem _ _ _ Hb)) Hi) as [Hw _].
    split; [by apply coh_branch_set|done].
  - inversion Hc as [|? m Hl Hin Hst Hh Hm|]; subst; [|done]. rewrite Hl. by apply IH.
Qed.

(** ** Deleting keeps the invariant *)

Lemma load_child_coh t c m :
  coh t c -> load_child t c = inl m -> coh t m.
Proof.
  intros Hc. destruct c; cbn; try by intros [= <-]. inversion Hc as [|? m' Hl|]; subst; [|done].
  rewrite Hl. by intros [= <-].
Qed.

Lemma count_children_nth i cs pos count :
  count_children i cs = (pos, count) -> count <> 0%nat ->
  (i <= pos)%nat /\ cs !! (pos - i)%nat = Some (nth (pos - i) cs NilNode).
Proof.
  revert i pos count. induction cs as [|c cs IH]; intros i pos count; cbn; [by intros [= <- <-]|].
  destruct (count_children (S i) cs) as [pos' count'] eqn:Hcc.
  assert (Hrec : count' <> 0%nat -> (S i <= pos')%nat
    /\ (c :: cs) !! (pos' - i)%nat = Some (nth (pos' - i) (c :: cs) NilNode)).
  { intros Hne. destruct (IH (S i) pos' count' Hcc Hne) as [Hle Hlk]. split; [done|].
    replace (pos' - i)%nat with (S (pos' - S i)) by lia. exact Hlk. }
  destruct (is_nil c).
  - intros [= <- <-] Hne. destruct (Hrec Hne). split; [lia|done].
  - intros [= <- <-] _. destruct (Nat.eqb_spec count' 0); [rewrite Nat.sub_diag; done|].
    destruct (Hrec ltac:(done)). split; [lia|done].
Qed.

Lemma shrink_coh t nd cs :
  length cs = numBranchChildren -> (forall c, c ∈ cs -> coh t c) ->
  del_err (shrink_branch t nd cs) = None -> coh t (del_new (shrink_branch t nd cs)).
Proof.
  intros Hl Hcs. unfold shrink_branch. destruct (count_children 0 cs) as [pos count] eqn:Hcount.
  assert (Hstay : coh t (BranchNode (dirty nd) cs)) by (by apply coh_dirty).
  destruct (Nat.eqb_spec count 1) as [Hc1|]; cbn [negb]; [|done].
  destruct (count_children_nth 0 cs pos count Hcount ltac:(lia)) as [_ Hn].
  rewrite Nat.sub_0_r in Hn. apply list_elem_of_lookup_2, Hcs in Hn.
  destruct (load_child t (nth pos cs NilNode)) as [m|err] eqn:Hld; [|done].
  pose proof (load_child_coh t _ m Hn Hld) as Hm.
  destruct m as [|nd' k next|nd' k v|nd' cs'|h]; cbn; try done; intros _; [|by apply coh_leaf_dirty].
  destruct (coh_children t _ Hm eq_refl) as [Hs Hch].
  apply coh_extension_dirty; [done|done|]. apply Hch, list_elem_of_singleton. done.
Qed.

Lemma shrink_match t nd cs : del_match (shrink_branch t nd cs) = true.
Proof. unfold shrink_branch. by repeat case_match. Qed.

Lemma delete_coh fuel t descendant : forall n key d,
  coh t n -> delete fuel t descendant n key = Some d -> del_err d = None ->
  if del_match d then coh t (del_new d) else del_self d = n.
Proof.
  induction fuel as [|fuel IH]; intros n key d Hc; [done|]. cbn [delete].
  destruct n as [|nd k next|nd k v|nd cs|h].
  - by intros [= <-].
  - destruct (coh_children t _ Hc eq_refl) as [Hs Hch]. cbn in Hs, Hch.
    assert (Hnext : coh t next) by (apply Hch, list_elem_of_singleton; done).
    case_match; [intros [= <-] _; constructor|]. case_match; [|by intros [= <-]].
    destruct (delete fuel t descendant next _) as [[mt nw [err|] self]|] eqn:Hd;
      [by destruct mt; intros [= <-]| |done].
    pose proof (IH _ _ _ Hnext Hd eq_refl) as Hn. cbn in Hn.
    destruct mt; intros [= <-] _; cbn; [|done]. destruct (is_nil nw) eqn:Hnil; [constructor|].
    apply coh_extension_dirty; [done|by intros ->|done].
  - case_match; intros [= <-] _; cbn; [constructor|done].
  - destruct (coh_children t _ Hc eq_refl) as [Hs Hch]. cbn in Hs, Hch.
    destruct key as [|b rest]; [done|]. destruct (child cs b) as [c|] eqn:Hb; [|done].
    assert (Hset : forall c', coh t c' -> del_err (shrink_branch t nd (set_child cs b c')) = None ->
      coh t (del_new (shrink_branch t nd (set_child cs b c')))).
    { intros c' Hc'. apply shrink_coh; [by rewrite length_set_child|].
      intros c0 [-> | ?]%elem_of_set_child; [done|by apply Hch]. }
    case_match.
    + case_match; intros [= <-]; [done|]. rewrite shrink_match. apply Hset. constructor.
    + destruct (delete fuel t descendant c rest) as [[mt nw [err|] self]|] eqn:Hd;
        [by destruct mt; intros [= <-]| |done].
      pose proof (IH _ _ _ (Hch c (child_elem _ _ _ Hb)) Hd eq_refl) as Hn. cbn in Hn.
      destruct mt; intros [= <-]; [|done]. rewrite shrink_match. by apply Hset.
  - inversion Hc as [|? m Hl Hin Hst Hh Hm|]; subst; [|done]. rewrite Hl.
    destruct (delete fuel t descendant m key) as [d'|] eqn:Hd; [|done].
    intros [= <-] Herr. cbn in *. pose proof (IH _ _ _ Hm Hd Herr) as Hn. by destruct (del_match d').
Qed.

(** ** Reading keeps the invariant *)

(** A node that replaces another: a hash by what was loaded for it. *)
Definition alike (c c' : noder) : Prop :=
  node_Status c' = node_Status c /\ node_Hash c' = node_Hash c /\ is_nil c' = is_nil c.

Lemma alike_shallow c c' : alike c c' -> shallow c' = shallow c.
Proof. intros (_ & Hh & Hn). destruct c, c'; try done; cbn in *; congruence. Qed.

Lemma alike_settled c c' : alike c c' -> settled c -> settled c'.
Proof.
  intros (Hs & _ & Hn) Hc Hnil. rewrite Hs. apply Hc. intros ->. by destruct c'.
Qed.

Lemma alike_kept c c' : alike c c' -> kept c -> kept c'.
Proof.
  intros (Hs & _ & Hn) Hc Hnil. rewrite Hs. apply Hc. intros ->. by destruct c'.
Qed.

Lemma map_set_child {A} (f : noder -> A) cs b c c' :
  child cs b = Some c -> f c' = f c -> map f (set_child cs b c') = map f cs.
Proof.
  unfold child, set_child. destruct (0 <=? b); [|done]. intros Hc Hf.
  change (map f) with (fmap (M := list) f). rewrite list_fmap_insert, Hf.
  apply list_insert_id. by rewrite list_lookup_fmap, Hc.
Qed.

Lemma get_coh fuel t : forall n key pos v found n' err,
  coh t n -> get fuel t n key pos = Some (v, found, n', err) -> coh t n' /\ alike n n'.
Proof.
  induction fuel as [|fuel IH]; intros n key pos v found n' err Hc; [done|]. cbn [get].
  assert (Hself : coh t n /\ alike n n) by (split; [done|done]).
  destruct n as [|nd k next|nd k v0|nd cs|h].
  - by intros [= _ _ <- _].
  - case_match; [by intros [= _ _ <- _]|].
    destruct (get fuel t next key _) as [[[[v1 f1] next'] e1]|] eqn:Hg; [|done].
    intros [= _ _ <- _]. inversion Hc as [| |? Hi Hs Hch Hset Hst]; subst. cbn in *.
    destruct (IH _ _ _ _ _ _ _ (Hch next ltac:(by apply list_elem_of_singleton)) Hg) as [Hc' Hal].
    split; [|done]. pose proof Hal as (_ & Hh & Hn).
    apply coh_node; [done|by cbn; intros ->; destruct next|cbn; by intros c ->%list_elem_of_singleton|..];
      cbn; rewrite ?Hh, ?(alike_shallow next next' Hal).
    + intros Hd. destruct (Hset Hd) as [Hb Hk]. split; [done|]. intros c ->%list_elem_of_singleton.
      apply (alike_settled next); [done|]. by apply Hk, list_elem_of_singleton.
    + intros Hp. destruct (Hst Hp) as [Hb Hk]. split; [done|]. intros c ->%list_elem_of_singleton.
      apply (alike_kept next); [done|]. by apply Hk, list_elem_of_singleton.
  - case_match; by intros [= _ _ <- _].
  - destruct (key !! pos) as [b|]; [|done]. destruct (child cs b) as [c|] eqn:Hb; [|done].
    destruct (get fuel t c key _) as [[[[v1 f1] c'] e1]|] eqn:Hg; [|done].
    intros [= _ _ <- _]. inversion Hc as [| |? Hi Hs Hch Hset Hst]; subst. cbn in *.
    pose proof (child_elem _ _ _ Hb) as Hel.
    destruct (IH _ _ _ _ _ _ _ (Hch c Hel) Hg) as [Hc' Hal].
    split; [|done]. pose proof Hal as (_ & Hh & Hn).
    apply coh_node; [done|by cbn; rewrite length_set_child| |..]; cbn.
    + intros c0 [-> | ?]%elem_of_set_child; [done|by apply Hch].
    + rewrite (map_set_child node_Hash cs b c c') by done. intros Hd. destruct (Hset Hd) as [Hbf Hk].
      split; [done|]. intros c0 [-> | ?]%elem_of_set_child; [|by apply Hk].
      apply (alike_settled c); [done|by apply Hk].
    + rewrite (map_set_child shallow cs b c c') by (done || by apply alike_shallow).
      intros Hp. destruct (Hst Hp) as [Hbf Hk].
      split; [done|]. intros c0 [-> | ?]%elem_of_set_child; [|by apply Hk].
      apply (alike_kept c); [done|by apply Hk].
  - inversion Hc as [|? m Hl Hin Hst Hh Hm|]; subst; [|done]. rewrite Hl. intros Hg.
    destruct (IH _ _ _ _ _ _ _ Hm Hg) as [Hc' (Ha & Hb & Hd)]. split; [done|].
    split; [by rewrite Ha|]. split; [done|]. rewrite Hd. by destruct m.
Qed.

(** ** Hashing *)

Lemma hash_known_false n :
  hash_known false n = false -> node_Status n = nodeStatusDirty.
Proof. unfold hash_known. by destruct (node_Status n). Qed.

(** What [nodeHash] leaves, with the hash it returns. *)
Lemma nodeHash_inner batch n :
  inner n = true -> hash_known batch n = false ->
  hashed batch n = match n with
    | LeafNode nd k v => LeafNode (finish_hash batch nd (encode_leaf k v)).1 k v
    | ExtensionNode nd k next =>
        ExtensionNode (finish_hash batch nd (encode_extension k (nodeHash batch next).1.2)).1 k
          (hashed batch next)
    | BranchNode nd cs =>
        BranchNode (finish_hash batch nd (encode_branch (map (fun c => (nodeHash batch c).1.2) cs))).1
          (map (hashed batch) cs)
    | n => n
    end.
Proof.
  unfold hashed. destruct n as [|nd k next|nd k v|nd cs|h]; try done; intros _ Hk; cbn [nodeHash]; rewrite Hk.
  - by destruct (nodeHash batch next) as [[? ?] ?].
  - done.
  - cbn. by rewrite !map_map.
Qed.

Lemma nodeHash_hash batch n : (nodeHash batch n).1.2 = node_Hash (hashed batch n).
Proof.
  unfold hashed. destruct n as [|nd k next|nd k v|nd cs|h]; cbn [nodeHash]; try by destruct (hash_known _ _).
  destruct (hash_known _ _); [done|]. by destruct (nodeHash batch next) as [[? ?] ?].
Qed.

Lemma hashed_nil batch n : is_nil (hashed batch n) = is_nil n.
Proof.
  unfold hashed. destruct n as [|nd k next|nd k v|nd cs|h]; cbn [nodeHash]; try by destruct (hash_known _ _).
  destruct (hash_known _ _); [done|]. by destruct (nodeHash batch next) as [[? ?] ?].
Qed.

(** The hashed node is encoded with the hashes of its children. *)
Lemma hashed_buf batch n :
  inner n = true -> hash_known batch n = false ->
  node_buf (hashed batch n)
  = match n with
    | LeafNode nd k v => encode_leaf k v
    | ExtensionNode nd k next => encode_extension k (node_Hash (hashed batch next))
    | BranchNode nd cs => encode_branch (map (fun c => node_Hash (hashed batch c)) cs)
    | _ => []
    end.
Proof.
  intros Hi Hk. rewrite nodeHash_inner by done. destruct n; try done. cbn [node_buf]. by rewrite map_map.
Qed.

Lemma hashed_known batch n : hash_known batch n = true -> hashed batch n = n.
Proof. intros Hk. unfold hashed. destruct n; cbn [nodeHash]; by rewrite Hk. Qed.

Lemma hashed_hashNode batch h : hashed batch (hashNode h) = hashNode h.
Proof. done. Qed.

(** The parts of a node that has just been hashed. *)
Lemma hashed_parts batch n :
  inner n = true -> hash_known batch n = false ->
  inner (hashed batch n) = true
  /\ children (hashed batch n) = map (hashed batch) (children n)
  /\ node_Status (hashed batch n) = (if batch then nodeStatusPersisted else nodeStatusUpdated)
  /\ node_Hash (hashed batch n)
     = (if bool_decide (node_Status n = nodeStatusDirty) then sha_sum (node_buf (hashed batch n))
        else node_Hash n)
  /\ (shape n -> shape (hashed batch n)).
Proof.
  intros Hi Hk. rewrite (hashed_buf batch n Hi Hk). rewrite (nodeHash_inner batch n Hi Hk).
  assert (Hhash : forall cs, map (fun c => (nodeHash batch c).1.2) cs
    = map (fun c => node_Hash (hashed batch c)) cs).
  { intros cs. apply map_ext. intros c. apply nodeHash_hash. }
  destruct n as [|nd k next|nd k v|nd cs|h]; try discriminate Hi; cbn [inner children node_Status node_Hash shape map];
    rewrite ?Hhash, ?nodeHash_hash; do 4 (split; [reflexivity|]).
  - intros Hs Hn. apply Hs. pose proof (hashed_nil batch next) as Hnil. rewrite Hn in Hnil. by destruct next.
  - done.
  - intros Hs. by rewrite length_map.
Qed.

Lemma hash_coh t n : coh t n -> coh t (hashed false n) /\ settled (hashed false n).
Proof.
  induction 1 as [|h n Hl Hi Hst Hh Hc IH|n Hi Hs Hch IH Hset Hst].
  - split; [constructor|]. intros Hn. by destruct Hn.
  - rewrite hashed_hashNode. split; [by econstructor|done].
  - destruct (hash_known false n) eqn:Hk.
    { rewrite hashed_known by done. split; [by apply coh_node|]. intros _ Hd.
      unfold hash_known in Hk. by rewrite Hd in Hk. }
    destruct (hashed_parts false n Hi Hk) as (Hi' & Hch' & Hst' & Hh' & Hs').
    rewrite bool_decide_true in Hh' by (by apply hash_known_false).
    split; [|by intros _; rewrite Hst'].
    apply coh_node; [done|by apply Hs'|..]; rewrite ?Hst', ?Hch'; try done.
    + intros c (c0 & -> & Hc0)%list_elem_of_fmap. by apply IH.
    + intros _. split; [done|]. intros c (c0 & -> & Hc0)%list_elem_of_fmap. by apply IH.
Qed.

(** ** What is written can be loaded *)

Lemma fits_payload l : fits (Encode (RList l)) -> fits (payload l).
Proof. pose proof (content_length (RList l)). unfold fits. cbn [content] in *. lia. Qed.

Lemma decodeNode_list hash l :
  fits (Encode (RList l)) ->
  decodeNode hash (EncodeToBytes (RList l))
  = match length l with
    | 1%nat => decodeBranchNode hash (payload l)
    | 2%nat => decodeLeafNode hash (payload l)
    | 3%nat => decodeExtensionNode hash (payload l)
    | _ => inr errNodeFormat
    end.
Proof.
  intros Hf. pose proof (fits_payload l Hf) as Hp. unfold decodeNode. rewrite EncodeToBytes_eq.
  pose proof (Encode_not_nil (RList l)) as Hne. destruct (Encode (RList l)) as [|x b] eqn:He; [done|].
  cbn [length Nat.eqb]. rewrite <- He, <- (app_nil_r (Encode (RList l))), SplitList_RList by done.
  by rewrite CountValues_payload.
Qed.

Lemma decode_leaf_buf hash k v :
  fits (encode_leaf k v) ->
  decodeNode hash (encode_leaf k v) = inl (LeafNode (newPersistedNode hash) k v).
Proof.
  unfold encode_leaf. rewrite EncodeToBytes_eq. intros Hf. rewrite <- EncodeToBytes_eq, decodeNode_list by done.
  apply fits_payload in Hf. apply fits_cons in Hf as [Hk Hf]. apply fits_cons in Hf as [Hv _]. cbn [length].
  unfold decodeLeafNode. rewrite payload_cons, SplitString_RStr by done.
  by rewrite payload_cons, SplitString_RStr by done.
Qed.

Lemma decode_extension_buf hash k h :
  fits (encode_extension k h) ->
  decodeNode hash (encode_extension k h) = inl (ExtensionNode (newPersistedNode hash) k (hashNode h)).
Proof.
  unfold encode_extension. rewrite EncodeToBytes_eq. intros Hf.
  rewrite <- EncodeToBytes_eq, decodeNode_list by done.
  apply fits_payload in Hf. apply fits_cons in Hf as [H1 Hf]. apply fits_cons in Hf as [Hk Hf].
  apply fits_cons in Hf as [Hv _]. cbn [length].
  unfold decodeExtensionNode. rewrite payload_cons, SplitString_RStr by done.
  rewrite payload_cons, SplitString_RStr by done. by rewrite payload_cons, SplitString_RStr by done.
Qed.

(** The hash of a child as it is stored: none, or 32 bytes. *)
Definition child_hash_ok (c : noder) : Prop :=
  (c = NilNode \/ length (node_Hash c) = HashLength).

Lemma decode_children_buf cs :
  fits (payload (map RStr (map node_Hash cs))) -> Forall child_hash_ok cs ->
  decode_children (length cs) (payload (map RStr (map node_Hash cs))) = inl (map shallow cs).
Proof.
  intros Hf Hok. induction Hok as [|c cs Hc Hcs IH]; [done|]. cbn [map] in Hf |- *.
  apply fits_cons in Hf as [Hc1 Hf]. cbn [length decode_children].
  rewrite payload_cons, Split_RStr, IH by done. f_equal. f_equal. destruct Hc as [-> | Hlen]; [done|].
  assert (Hk : string_kind (node_Hash c) = String).
  { destruct (node_Hash c) as [|x [|y l]]; done. }
  rewrite Hk, bool_decide_true, Hlen by done. by destruct c.
Qed.

Lemma decode_branch_buf hash cs :
  length cs = numBranchChildren -> Forall child_hash_ok cs ->
  fits (encode_branch (map node_Hash cs)) ->
  decodeNode hash (encode_branch (map node_Hash cs))
  = inl (BranchNode (newPersistedNode hash) (map shallow cs)).
Proof.
  unfold encode_branch. intros Hl Hok. rewrite EncodeToBytes_eq. intros Hf.
  rewrite <- EncodeToBytes_eq, decodeNode_list by done.
  apply fits_payload in Hf. apply fits_cons in Hf as [Hc _]. cbn [content length] in *.
  unfold decodeBranchNode. rewrite payload_cons, Split_RList by done.
  rewrite CountValues_payload by done. rewrite bool_decide_true by done. cbn [negb andb].
  by rewrite <- Hl, decode_children_buf.
Qed.

Lemma decode_node_buf n :
  inner n = true -> shape n -> (forall c, c ∈ children n -> child_hash_ok c) -> fits (node_buf n) ->
  decodeNode (node_Hash n) (node_buf n) = inl (shallow_node n).
Proof.
  destruct n as [|nd k next|nd k v|nd cs|h]; try discriminate; intros _ Hs Hch Hf;
    cbn [shape children node_buf node_Hash shallow_node] in *.
  - rewrite decode_extension_buf by done. by destruct next.
  - by apply decode_leaf_buf.
  - apply decode_branch_buf; [done| |done]. by apply Forall_forall.
Qed.

(** ** Committing *)

(** What a node adds to the batch: what its children add, and itself. *)
Definition node_writes (n : noder) : list (bytes * bytes) := (nodeHash true n).2.

Lemma node_writes_inner n :
  inner n = true -> hash_known true n = false ->
  node_writes n
  = mjoin (map node_writes (children n)) ++ [(node_Hash (hashed true n), node_buf (hashed true n))].
Proof.
  intros Hi Hk. rewrite (hashed_buf true n Hi Hk), (nodeHash_inner true n Hi Hk). unfold node_writes.
  assert (Hhash : forall cs, map (fun c => (nodeHash true c).1.2) cs
    = map (fun c => node_Hash (hashed true c)) cs).
  { intros cs. apply map_ext. intros c. apply nodeHash_hash. }
  destruct n as [|nd k next|nd k v|nd cs|h]; try discriminate Hi; cbn [nodeHash children map];
    rewrite Hk; rewrite <- ?nodeHash_hash.
  - destruct (nodeHash true next) as [[? ?] ?]. cbn [mjoin list_join fst snd]. by rewrite app_nil_r.
  - reflexivity.
  - rewrite <- Hhash. cbn. by rewrite !map_map.
Qed.

Lemma coh_load t t' n :
  (forall h m, loadNode t h = inl m -> loadNode t' h = inl m) -> coh t n -> coh t' n.
Proof.
  intros Hld. induction 1 as [|h n Hl Hi Hst Hh Hc IH|n Hi Hs Hch IH Hset Hst].
  - constructor.
  - econstructor; eauto.
  - apply coh_node; [done|done|done|done|]. intros Hp. destruct (Hst Hp). auto.
Qed.

Lemma coh_hash_ok t c : coh t c -> settled c -> child_hash_ok c.
Proof.
  induction 1 as [|h n Hl Hi Hst Hh Hc IH|n Hi Hs Hch IH Hset Hst]; intros Hd.
  - by left.
  - destruct IH as [-> | Hlen]; [by intros _; rewrite Hst|done|]. right. by rewrite Hh in Hlen.
  - right. assert (Hne : node_Status n <> nodeStatusDirty) by (apply Hd; by intros ->).
    rewrite (proj1 (Hset Hne)). apply sha_length.
Qed.

Lemma kept_settled c : kept c -> settled c.
Proof. intros Hk Hn. by rewrite (Hk Hn). Qed.

(** The encoding only depends on the hashes of the children. *)
Lemma hashed_buf_same batch n :
  inner n = true -> hash_known batch n = false ->
  (forall c, c ∈ children n -> node_Hash (hashed batch c) = node_Hash c) ->
  node_buf (hashed batch n) = node_buf n.
Proof.
  intros Hi Hk Hc. rewrite hashed_buf by done.
  destruct n as [|nd k next|nd k v|nd cs|h]; try discriminate Hi; cbn [node_buf children] in *; [|done|].
  - by rewrite Hc by (by apply list_elem_of_singleton).
  - apply (f_equal encode_branch), map_ext_in. intros c Hin. by apply Hc, list_elem_of_In.
Qed.

Lemma hash_known_true n : hash_known true n = true -> node_Status n = nodeStatusPersisted.
Proof. unfold hash_known. by destruct (node_Status n). Qed.

Lemma commit_coh t t' n :
  (forall h m, loadNode t h = inl m -> loadNode t' h = inl m) -> coh t n ->
  (forall h buf, (h, buf) ∈ node_writes n ->
    t_db t' (t_dbprefix t' ++ h) = Some buf /\ fits buf) ->
  coh t' (hashed true n) /\ kept (hashed true n)
  /\ (settled n -> node_Hash (hashed true n) = node_Hash n).
Proof.
  intros Hld. induction 1 as [|h n Hl Hi Hst Hh Hc IH|n Hi Hs Hch IH Hset Hst]; intros Hw.
  - split; [constructor|]. split; [|done]. intros Hn. by destruct Hn.
  - rewrite hashed_hashNode. split; [|done]. apply (coh_load t); [done|]. by econstructor.
  - destruct (hash_known true n) eqn:Hk.
    { rewrite hashed_known by done. split; [by apply (coh_load t), coh_node|]. split; [|done].
      intros _. by apply hash_known_true. }
    destruct (hashed_parts true n Hi Hk) as (Hi' & Hch' & Hst' & Hh' & Hs').
    rewrite (node_writes_inner n Hi Hk) in Hw.
    assert (IH' : forall c, c ∈ children n -> coh t' (hashed true c) /\ kept (hashed true c)
      /\ (settled c -> node_Hash (hashed true c) = node_Hash c)).
    { intros c Hc. apply IH; [done|]. intros h buf Hin. apply Hw, elem_of_app. left.
      apply list_elem_of_join. exists (node_writes c). split; [done|]. by apply list_elem_of_fmap_2. }
    assert (Hsame : node_Status n <> nodeStatusDirty ->
      node_Hash (hashed true n) = node_Hash n /\ node_buf (hashed true n) = node_buf n).
    { intros Hd. rewrite Hh', bool_decide_false by done. split; [done|].
      apply hashed_buf_same; [done|done|]. intros c Hc. apply IH'; [done|]. by apply Hset. }
    assert (Hhash : node_Hash (hashed true n) = sha_sum (node_buf (hashed true n))).
    { destruct (decide (node_Status n = nodeStatusDirty)) as [Hd|Hd].
      - by rewrite Hh', bool_decide_true.
      - destruct (Hsame Hd) as [-> ->]. by apply Hset. }
    destruct (Hw (node_Hash (hashed true n)) (node_buf (hashed true n))) as [Hdb Hfit].
    { apply elem_of_app. right. by apply list_elem_of_singleton. }
    split; [|split; [by intros _|]].
    + apply coh_node; [done|by apply Hs'|..]; rewrite ?Hch'.
      * intros c (c0 & -> & Hc0)%list_elem_of_fmap. by apply IH'.
      * intros _. split; [done|]. intros c (c0 & -> & Hc0)%list_elem_of_fmap. by apply kept_settled, IH'.
      * intros _. split; [|by intros c (c0 & -> & Hc0)%list_elem_of_fmap; apply IH'].
        unfold loadNode. rewrite Hdb. rewrite decode_node_buf; [|done|by apply Hs'| |done].
        -- destruct (length (node_buf (hashed true n)) =? 0)%nat eqn:Hz; [|done].
           apply Nat.eqb_eq, length_zero_iff_nil in Hz. exfalso. revert Hz.
           destruct (hashed true n); try discriminate Hi';
             cbn [node_buf]; unfold encode_leaf, encode_extension, encode_branch;
             rewrite EncodeToBytes_eq; apply Encode_not_nil.
        -- rewrite Hch'. intros c (c0 & -> & Hc0)%list_elem_of_fmap.
           destruct (IH' c0 Hc0) as (Hc' & Hkc & _). by apply (coh_hash_ok t'), kept_settled.
    + intros Hd. apply Hsame, Hd. by intros ->.
Qed.

(** ** Loading again *)

Lemma shallow_hash c : node_Hash (shallow c) = node_Hash c.
Proof. by destruct c. Qed.

Lemma shallow_idem c : shallow (shallow c) = shallow c.
Proof. by destruct c. Qed.

Lemma shallow_kept c : kept (shallow c).
Proof. destruct c; intros Hn; try done. Qed.

Lemma shallow_parts n :
  inner n = true ->
  inner (shallow_node n) = true /\ children (shallow_node n) = map shallow (children n)
  /\ node_Status (shallow_node n) = nodeStatusPersisted /\ node_Hash (shallow_node n) = node_Hash n
  /\ node_buf (shallow_node n) = node_buf n /\ shallow_node (shallow_node n) = shallow_node n
  /\ (shape n -> shape (shallow_node n)).
Proof.
  intros Hi. destruct n as [|nd k next|nd k v|nd cs|h]; try discriminate Hi;
    cbn [inner children node_Status node_Hash node_buf shallow_node shape map newPersistedNode nd_status nd_hash];
    do 4 (split; [reflexivity|]).
  - rewrite shallow_hash, shallow_idem. split; [reflexivity|]. split; [reflexivity|]. by destruct next.
  - split; [reflexivity|]. by split.
  - rewrite !map_map. split; [apply (f_equal encode_branch), map_ext, shallow_hash|].
    split; [f_equal; apply map_ext, shallow_idem|]. by rewrite length_map.
Qed.

(** A loaded node holds what the node in memory does. *)
Definition same_as (t : Trie) (n n' : noder) : Prop :=
  coh t n' /\ forall e, wf t e n -> wf t e n' /\ same_reads t e n n'.

Lemma shallow_node_wf t n e :
  inner n = true -> (forall c, c ∈ children n -> same_as t c (shallow c)) -> wf t e n ->
  wf t e (shallow_node n) /\ same_reads t e n (shallow_node n).
Proof.
  intros Hi Hch Hw. destruct n as [|nd k next|nd k v|nd cs|h]; try discriminate Hi; cbn [shallow_node children] in *.
  - inversion Hw as [| |? ? ? Hk Hn Hnext| |]; subst.
    destruct (proj2 (Hch next ltac:(by apply list_elem_of_singleton)) false Hnext) as [Hw' Hs'].
    split; [by constructor|by apply same_extension].
  - inversion Hw; subst. split; [by constructor|apply same_leaf].
  - inversion Hw as [| | |? ? Hl Hcs|]; subst.
    assert (Hc : forall b c', child (map shallow cs) b = Some c' ->
      exists c, child cs b = Some c /\ c' = shallow c).
    { intros b c'. rewrite child_map. intros (c & -> & Hc)%fmap_Some. by exists c. }
    split.
    + constructor; [by rewrite length_map|]. intros b c' (c & Hcb & ->)%Hc.
      by apply (Hch c (child_elem _ _ _ Hcb)), Hcs.
    + apply same_branch; [|done|by rewrite length_map]. intros b c c' Hcb (c2 & Hcb2 & ->)%Hc.
      simplify_eq. by apply (Hch c (child_elem _ _ _ Hcb)), Hcs.
Qed.

Lemma shallow_node_coh t n :
  inner n = true -> shape n -> node_Hash n = sha_sum (node_buf n) ->
  loadNode t (node_Hash n) = inl (shallow_node n) ->
  (forall c, c ∈ children n -> coh t (shallow c)) -> coh t (shallow_node n).
Proof.
  intros Hi Hs Hh Hl Hch.
  destruct (shallow_parts n Hi) as (Hi' & Hch' & Hst' & Hh' & Hb' & Hid & Hs').
  apply coh_node; [done|by apply Hs'|..]; rewrite ?Hch', ?Hh', ?Hb', ?Hid.
  - by intros c (c0 & -> & Hc0)%list_elem_of_fmap; apply Hch.
  - intros _. split; [done|]. intros c (c0 & -> & _)%list_elem_of_fmap. apply kept_settled, shallow_kept.
  - intros _. split; [done|]. intros c (c0 & -> & _)%list_elem_of_fmap. apply shallow_kept.
Qed.

Lemma shallow_same t n : coh t n -> kept n -> same_as t n (shallow n).
Proof.
  induction 1 as [|h n Hl Hi Hst Hh Hc IH|n Hi Hs Hch IH Hset Hst]; intros Hk.
  - split; [constructor|done].
  - split; [by econstructor|done].
  - assert (Hp : node_Status n = nodeStatusPersisted) by (apply Hk; by intros ->).
    destruct (Hst Hp) as [Hl Hkc]. destruct (shallow_parts n Hi) as (Hi' & _ & Hst' & Hh' & _).
    assert (Hsh : shallow n = hashNode (node_Hash n)) by (by destruct n).
    assert (Hsub : forall c, c ∈ children n -> same_as t c (shallow c)) by auto.
    rewrite Hsh. split.
    + eapply coh_hash; [done|done|done|done|].
      apply shallow_node_coh; [done|done|by apply Hset; rewrite Hp|done|]. intros c Hc. by apply Hsub.
    + intros e Hw. destruct (shallow_node_wf t n e Hi Hsub Hw) as [Hw' Hs'].
      split.
      * eapply wf_hash; [done| |done]. intros h' He. by rewrite He in Hi'.
      * intros key r Hv. rewrite (reads_hash_iff t _ (shallow_node n)) by done. by apply Hs'.
Qed.

(** ** Sessions *)

(** The writes of a batch, in their order. *)
Definition apply_batch (w : list (bytes * bytes)) (db : Database) : Database :=
  fold_left (fun d kv k => if bytes_eqb k kv.1 then Some kv.2 else d k) w db.

(** No two values in the batch and in the database have the same hash. *)
Definition no_collision (db : Database) (w : list (bytes * bytes)) : Prop :=
  forall k v, (k, v) ∈ w ->
    (forall v', db k = Some v' -> v' = v) /\ (forall v', (k, v') ∈ w -> v' = v).

Lemma apply_batch_other w : forall db k,
  (forall v, (k, v) ∉ w) -> apply_batch w db k = db k.
Proof.
  induction w as [|[k' v'] w IH]; intros db k Hk; [done|]. cbn. rewrite IH.
  - unfold bytes_eqb. rewrite bool_decide_false; [done|]. intros ->. apply (Hk v'). left.
  - intros v Hv. apply (Hk v). by right.
Qed.

Lemma apply_batch_in w : forall db k v,
  (k, v) ∈ w -> (forall v', (k, v') ∈ w -> v' = v) -> apply_batch w db k = Some v.
Proof.
  induction w as [|[k' v'] w IH]; intros db k v Hin Hu; [by apply not_elem_of_nil in Hin|]. cbn.
  destruct (decide ((k, v) ∈ w)) as [Hv|Hno].
  - apply IH; [done|]. intros v1 Hv1. apply Hu. by right.
  - rewrite apply_batch_other.
    2: { intros v0 Hv0. assert (v0 = v) as -> by (apply Hu; by right). done. }
    apply elem_of_cons in Hin as [[= -> ->]|Hin]; [|done].
    unfold bytes_eqb. by rewrite bool_decide_true.
Qed.

(** The trie that is used on after its batch has been written. *)
Definition committed (t : Trie) : Trie :=
  let '(t', _, w) := Trie_Commit t in mkTrie (apply_batch w (t_db t)) (t_root t') (t_dbprefix t).

Definition trie_ok (t : Trie) (m : gmap bytes bytes) : Prop := represents t m /\ coh t (t_root t).

(** A batch that can be written. *)
Definition batch_ok (t : Trie) : Prop :=
  let w := (Trie_Commit t).2 in Forall (fun kv => fits kv.2) w /\ no_collision (t_db t) w.

Lemma loadNode_committed t h m :
  batch_ok t -> loadNode t h = inl m -> loadNode (committed t) h = inl m.
Proof.
  unfold batch_ok, committed. destruct (Trie_Commit t) as [[t' root] w]. intros [_ Hnc].
  unfold loadNode. cbn [t_db t_dbprefix]. destruct (t_db t (t_dbprefix t ++ h)) as [v|] eqn:Hv; [|done].
  intros Hl. assert (Hdb : apply_batch w (t_db t) (t_dbprefix t ++ h) = Some v); [|by rewrite Hdb].
  destruct (decide ((t_dbprefix t ++ h, v) ∈ w)) as [Hin|Hno].
  - apply apply_batch_in; [done|]. by apply Hnc.
  - rewrite apply_batch_other; [done|]. intros v0 Hv0.
    destruct (Hnc _ _ Hv0) as [Hsame _]. by rewrite (Hsame v Hv) in Hno.
Qed.

Lemma Trie_Commit_writes t :
  is_nil (t_root t) = false ->
  Trie_Commit t = (with_root t (hashed true (t_root t)), BytesToHash (node_Hash (hashed true (t_root t))),
    map (fun kv => (t_dbprefix t ++ kv.1, kv.2)) (node_writes (t_root t))).
Proof.
  intros Hn. unfold Trie_Commit, hashed, node_writes. rewrite Hn.
  by destruct (nodeHash true (t_root t)) as [[? ?] ?].
Qed.

(** After the batch has been written, the trie can be used on, and its root is
    what is loaded from its hash. *)
Lemma committed_ok t m :
  trie_ok t m -> batch_ok t ->
  trie_ok (committed t) m /\ kept (t_root (committed t)).
Proof.
  intros [Hrep Hcoh] Hb. pose proof (Trie_Commit_spec t m Hrep) as [Hw Hr].
  pose proof (fun h n => loadNode_committed t h n Hb) as Hld.
  assert (Hrep' : represents (committed t) m).
  { unfold committed in *. destruct (Trie_Commit t) as [[t' root] w] eqn:Hc. cbn in Hw, Hr.
    assert (Hdb : forall h, loadNode t' h = loadNode t h).
    { intros h. unfold Trie_Commit in Hc. destruct (is_nil _); [by injection Hc as <- _ _|].
      destruct (nodeHash _ _) as [[? ?] ?]. by injection Hc as <- _ _. }
    assert (Hld' : forall h n, loadNode t' h = inl n ->
      loadNode (mkTrie (apply_batch w (t_db t)) (t_root t') (t_dbprefix t)) h = inl n).
    { intros h n. rewrite Hdb. apply Hld. }
    split; [by apply (wf_load t')|]. intros k Hk. apply (reads_load t'); [done|]. by apply Hr. }
  destruct (is_nil (t_root t)) eqn:Hn.
  { assert (Hroot : t_root (committed t) = NilNode).
    { unfold committed, Trie_Commit. rewrite Hn. by destruct (t_root t). }
    split; [split; [done|]|]; rewrite Hroot; [constructor|].
    intros Hne. by destruct Hne. }
  assert (Hroot : t_root (committed t) = hashed true (t_root t)).
  { unfold committed. by rewrite Trie_Commit_writes. }
  destruct (commit_coh t (committed t) (t_root t) Hld Hcoh) as (Hc & Hk & _).
  { intros h buf Hin. unfold batch_ok in Hb. rewrite Trie_Commit_writes in Hb by done. cbn in Hb.
    unfold committed. rewrite Trie_Commit_writes by done. cbn [t_db t_dbprefix].
    assert (Hin' : (t_dbprefix t ++ h, buf) ∈ map (fun kv => (t_dbprefix t ++ kv.1, kv.2)) (node_writes (t_root t))).
    { apply list_elem_of_fmap. by exists (h, buf). }
    destruct Hb as [Hfit Hnc]. split.
    - apply apply_batch_in; [done|]. by apply Hnc.
    - rewrite Forall_forall in Hfit. by apply (Hfit _ Hin'). }
  rewrite <- Hroot in Hc, Hk. by split; [split|].
Qed.

Lemma coh_with_root t root : coh t root -> coh (with_root t root) (t_root (with_root t root)).
Proof. intros Hc. by apply (coh_load t). Qed.

Lemma after_deletion_coh t fuel descendant key d :
  coh t (t_root t) -> delete fuel t descendant (t_root t) key = Some d -> del_err d = None ->
  coh (after_deletion t d).1.1 (t_root (after_deletion t d).1.1).
Proof.
  intros Hc Hd Herr. pose proof (delete_coh _ _ _ _ _ _ Hc Hd Herr) as Hn.
  destruct d as [[] nw [err|] self]; try done; cbn in Hn |- *; [by apply coh_with_root|].
  apply (coh_with_root t). by rewrite Hn.
Qed.

Lemma trie_run_coh t c t' r :
  coh t (t_root t) -> trie_run t c = Some (t', r) -> (forall err, r <> RError err) -> c <> CCommit ->
  coh t' (t_root t').
Proof.
  intros Hc Hrun Hne Hnc. destruct c as [key value|key|key|p| |]; cbn [trie_run] in Hrun; [..|done].
  - unfold Trie_Put in Hrun. destruct (insert _ _ _ _ _) as [[n|err]|] eqn:Hi; [| |done].
    + injection Hrun as <- _. apply coh_with_root. by apply (insert_coh _ _ _ _ _ _ Hc Hi).
    + injection Hrun as _ <-. by destruct (Hne err).
  - unfold Trie_Get in Hrun. destruct (is_nil _); [by injection Hrun as <- _|].
    destruct (get _ _ _ _ _) as [[[[v f] n] err]|] eqn:Hg; [|done].
    destruct (get_coh _ _ _ _ _ _ _ _ _ Hc Hg) as [Hn _].
    destruct err; injection Hrun as <- _; (destruct (t_root t) eqn:Hr; [by apply coh_with_root..|by rewrite Hr]).
  - unfold Trie_Delete in Hrun. destruct (is_nil _); [by injection Hrun as <- _|].
    destruct (delete _ _ _ _ _) as [d|] eqn:Hd; [|done].
    pose proof (after_deletion_coh t _ _ _ d Hc Hd) as Ha.
    destruct d as [[] nw [err|] self]; cbn in Hrun, Ha; injection Hrun as <- <-;
      first [by destruct (Hne err) | by apply Ha].
  - unfold Trie_DeletePrefix in Hrun. destruct (_ || _); [by injection Hrun as <- _|].
    destruct (delete _ _ _ _ _) as [d|] eqn:Hd; [|done].
    pose proof (after_deletion_coh t _ _ _ d Hc Hd) as Ha.
    destruct d as [[] nw [err|] self]; cbn in Hrun, Ha; injection Hrun as <- <-;
      first [by destruct (Hne err) | by apply Ha].
  - unfold Trie_Hash in Hrun. destruct (is_nil _); [by injection Hrun as <- _|].
    pose proof (hash_coh t (t_root t) Hc) as [Hh _]. unfold hashed in Hh.
    destruct (nodeHash false (t_root t)) as [[root h] w]. injection Hrun as <- _. by apply coh_with_root.
Qed.

(** What clients do with a trie: the calls, writing the batch of a commit and
    going on, and opening the trie from the root hash of a commit. *)
Inductive session : Trie -> gmap bytes bytes -> Prop :=
| session_new dbprefix db : session (NewEmptyTrie dbprefix db) ∅
| session_call t m c t' r m' :
    session t m -> call_ok c -> c <> CCommit ->
    trie_run t c = Some (t', r) -> map_step m c r m' -> session t' m'
| session_commit t m : session t m -> batch_ok t -> session (committed t) m
| session_open t m t' :
    session t m -> batch_ok t ->
    NewTrie (Trie_Commit t).1.2 (t_dbprefix t) (t_db (committed t)) = inl t' -> session t' m.

Lemma BytesToHash_hash h : length h = HashLength -> BytesToHash h = h.
Proof.
  intros Hl. unfold BytesToHash, right_align. rewrite decide_False by lia. by rewrite Hl.
Qed.

(** The root hash of a commit opens the trie. *)
Lemma open_ok t m :
  trie_ok t m -> batch_ok t ->
  exists t', NewTrie (Trie_Commit t).1.2 (t_dbprefix t) (t_db (committed t)) = inl t' /\ trie_ok t' m.
Proof.
  intros Hok Hb. destruct (committed_ok t m Hok Hb) as [[Hrep Hc] Hk].
  destruct (is_nil (t_root t)) eqn:Hn.
  { exists (NewEmptyTrie (t_dbprefix t) (t_db (committed t))).
    assert (Hroot : (Trie_Commit t).1.2 = EmptyHash) by (unfold Trie_Commit; by rewrite Hn).
    unfold NewTrie. rewrite Hroot. split; [done|]. split; [|constructor]. split; [constructor|].
    intros k Hkb. rewrite (nil_represents t m k Hn (proj1 Hok) Hkb). constructor. }
  assert (Hroot : t_root (committed t) = hashed true (t_root t)).
  { unfold committed. by rewrite Trie_Commit_writes. }
  set (n := hashed true (t_root t)) in *. rewrite Hroot in Hc, Hk.
  assert (Hnn : n <> NilNode).
  { intros He. pose proof (hashed_nil true (t_root t)) as Hnil. fold n in Hnil. by rewrite He, Hn in Hnil. }
  destruct (coh_hash_ok _ _ Hc (kept_settled _ Hk)) as [|Hlen]; [done|].
  assert (Hh : (Trie_Commit t).1.2 = node_Hash n).
  { rewrite Trie_Commit_writes by done. by apply BytesToHash_hash. }
  destruct (shallow_same _ n Hc Hk) as [Hsc Hsw].
  assert (Hsh : shallow n = hashNode (node_Hash n)) by (by destruct n). rewrite Hsh in Hsc, Hsw.
  assert (Hpre : t_dbprefix (committed t) = t_dbprefix t) by (unfold committed; by rewrite Trie_Commit_writes).
  inversion Hsc as [|? m0 Hl Hi Hst Hhm Hm0|? Hi]; subst; [|done].
  destruct Hrep as [Hw Hr]. rewrite Hroot in Hw, Hr. destruct (Hsw false Hw) as [Hw' Hs'].
  inversion Hw' as [| | | |? ? m1 Hl1 _ Hwm]; subst. assert (m1 = m0) as -> by congruence.
  exists (mkTrie (t_db (committed t)) m0 (t_dbprefix t)). split.
  - unfold NewTrie. rewrite Hh. unfold Hash_IsEmpty, bytes_eqb. rewrite bool_decide_false.
    + unfold loadNode in Hl |- *. cbn [NewEmptyTrie t_db t_dbprefix]. rewrite Hpre in Hl. by rewrite Hl.
    + rewrite <- Hhm. inversion Hm0 as [| |? ? ? ? Hset _]; subst; try done.
      rewrite (proj1 (Hset ltac:(by rewrite Hst))). apply sha_not_empty.
  - assert (Hext : forall h x, loadNode (committed t) h = inl x ->
      loadNode (mkTrie (t_db (committed t)) m0 (t_dbprefix t)) h = inl x).
    { intros h x. unfold loadNode. cbn. by rewrite Hpre. }
    split; [split|].
    + by apply (wf_load (committed t)).
    + intros k Hkb. apply (reads_load (committed t)); [done|].
      rewrite <- (reads_hash_iff _ _ _ _ _ Hl). apply Hs'; [by apply keybytesToHex_full|]. by apply Hr.
    + by apply (coh_load (committed t)).
Qed.

Lemma session_ok t m : session t m -> trie_ok t m.
Proof.
  induction 1 as [dbprefix db|t m c t' r m' _ [Hrep Hc] Hok Hnc Hrun Hstep|t m _ IH Hb|t m t' _ IH Hb Ho].
  - split; [apply NewEmptyTrie_represents|constructor].
  - destruct (trie_run_spec t m c Hrep Hok) as (t2 & r2 & m2 & Hrun2 & Hstep2 & Hrep2).
    assert (t2 = t' /\ r2 = r) as [-> ->] by (rewrite Hrun in Hrun2; by injection Hrun2).
    assert (m2 = m') as <-. { by inversion Hstep; subst; inversion Hstep2; subst. }
    split; [done|]. apply (trie_run_coh t c t' r); [done|done| |done].
    intros err ->. inversion Hstep.
  - by apply committed_ok.
  - destruct (open_ok t m IH Hb) as (t2 & Ho2 & Hok). rewrite Ho in Ho2. by injection Ho2 as <-.
Qed.
End commit.

(** C33: A trie that has been used in any way, committed and opened again any
    number of times, can be committed, and opened from the root hash once
    its batch is in the database: nothing is missing, and the trie that is
    opened holds the same map. The batch must be written as it is, and no
    two encodings in it and in the database may have the same hash. *)
Theorem commit_open_roundtrip `{ShaLaws} t m :
  session t m -> batch_ok t ->
  exists t', NewTrie (Trie_Commit t).1.2 (t_dbprefix t) (t_db (committed t)) = inl t'
    /\ represents t' m /\ represents (committed t) m
    /\ forall key, Forall is_byte key ->
         exists t'', Trie_Get t' key = Some (t'', default [] (m !! key), bool_decide (is_Some (m !! key)), None).
Proof.
  intros Hs Hb. pose proof (session_ok t m Hs) as Hok. destruct (open_ok t m Hok Hb) as (t' & Ho & Hrep & _).
  exists t'. split; [done|]. split; [done|]. split; [by apply (committed_ok t m Hok Hb)|].
  intros key Hk. destruct (Trie_Get_spec t' m key Hrep Hk) as (t'' & Hg & _). by exists t''.
Qed.

(** ** An example *)

Lemma no_collision_fresh db w : (forall k, db k = None) -> NoDup (map fst w) -> no_collision db w.
Proof.
  intros Hdb Hnd k v Hin. split; [intros v'; by rewrite Hdb|]. intros v' Hin'.
  induction w as [|[k0 v0] w IH]; [by apply not_elem_of_nil in Hin|].
  cbn in Hnd. apply NoDup_cons in Hnd as [Hk0 Hnd].
  apply elem_of_cons in Hin as [Heq|Hin]; apply elem_of_cons in Hin' as [Heq'|Hin']; simplify_eq.
  - done.
  - destruct Hk0. apply list_elem_of_fmap. by exists (k0, v').
  - destruct Hk0. apply list_elem_of_fmap. by exists (k0, v).
  - by apply IH.
Qed.

#[export] Instance example_sha_laws : @ShaLaws example_env.
Proof.
  split.
  - intros b. reflexivity.
  - intros b Heq. by injection Heq.
Qed.

Lemma session_runs `{TrieEnv} cs : forall t m,
  session t m -> represents t m -> Forall call_ok cs -> CCommit ∉ cs ->
  forall t' rs, trie_runs t cs = Some (t', rs) -> exists m', session t' m'.
Proof.
  induction cs as [|c cs IH]; intros t m Hs Hrep Hcs Hnc t' rs; cbn [trie_runs].
  { intros [= <- _]. by exists m. }
  apply Forall_cons in Hcs as [Hc Hcs]. apply not_elem_of_cons in Hnc as [Hn1 Hn2].
  destruct (trie_run_spec t m c Hrep Hc) as (t1 & r & m1 & Hrun & Hstep & Hrep1). rewrite Hrun.
  destruct (trie_runs t1 cs) as [[t2 rs2]|] eqn:Hrs; [|done]. intros [= <- _].
  apply (IH t1 m1) with rs2; try done. by apply (session_call t m c t1 r m1).
Qed.

(** Three keys, one of them deleted, in a new trie. *)
Definition session_calls : list trie_call :=
  [CPut [17; 17] [1]; CPut [17; 33] [2; 200]; CPut [18; 17] [3]; CHash; CPut [18; 18] [4];
   CDelete [18; 17]].

Definition session_trie : Trie :=
  match @trie_runs example_env (NewEmptyTrie [9] (fun _ => None)) session_calls with
  | Some (t, _) => t
  | None => NewEmptyTrie [] (fun _ => None)
  end.

Lemma session_trie_batch : @batch_ok example_env session_trie.
Proof.
  unfold batch_ok. split.
  - apply (bool_decide_unpack _). vm_compute. exact I.
  - apply no_collision_fresh; [vm_compute; reflexivity|]. apply (bool_decide_unpack _).
    vm_compute. exact I.
Qed.

Lemma session_trie_ok : exists m, @session example_env session_trie m.
Proof.
  destruct (@trie_runs example_env (NewEmptyTrie [9] (fun _ => None)) session_calls) as [[t rs]|] eqn:Hr.
  - assert (session_trie = t) as -> by (unfold session_trie; by rewrite Hr).
    refine (@session_runs example_env session_calls _ ∅ _ (NewEmptyTrie_represents _ _) _ _ t rs Hr).
    + constructor.
    + repeat constructor; unfold is_byte; lia.
    + intros Hin. repeat (apply elem_of_cons in Hin as [Hin|Hin]; [discriminate Hin|]).
      by apply not_elem_of_nil in Hin.
  - exfalso. revert Hr. vm_compute. discriminate.
Qed.

Lemma commit_open_roundtrip_witness :
  @batch_ok example_env session_trie
  /\ exists m t', @NewTrie (@Trie_Commit example_env session_trie).1.2 (t_dbprefix session_trie)
       (t_db (@committed example_env session_trie)) = inl t' /\ represents t' m.
Proof.
  split; [exact session_trie_batch|]. destruct session_trie_ok as [m Hs]. exists m.
  destruct (@commit_open_roundtrip example_env example_sha_laws session_trie m Hs session_trie_batch)
    as (t' & Ho & Hrep & _).
  exists t'. split; [exact Ho|exact Hrep].
Defined.
