(* ===== verification/TrieVerify.v ===== *)
(** * Merkle proofs

    [VerifyProof] of [trie/proof.go] against the trie: a value that it accepts for
    a root hash is the value in the trie, and a proof that [GetProof] makes for a
    key in the trie is accepted, unless the key ends at a branch. *)

From Stdlib Require Import ZArith Lia.
From S2P Require Import Prelude Common Rlp Trie TrieProofs TrieCommit.

Open Scope Z_scope.

Section verify.
Context `{ShaLaws}.

(** ** The nodes of a trie *)

(** The nodes below a node, those behind hashes included. *)
Inductive in_trie (t : Trie) : noder -> noder -> Prop :=
| in_self n : in_trie t n n
| in_child n c c' : c ∈ children n -> in_trie t c c' -> in_trie t n c'
| in_load h n c' : loadNode t h = inl n -> in_trie t n c' -> in_trie t (hashNode h) c'.

(** No entry of the proof has the hash of a node of the trie without being its
    encoding. *)
Definition honest (t : Trie) (proof : gmap bytes bytes) : Prop :=
  forall c h enc n', in_trie t (t_root t) c -> inner c = true ->
    proof !! h = Some enc -> decodeNode h enc = inl n' ->
    sha_sum (node_buf n') = sha_sum (node_buf c) -> node_buf n' = node_buf c.

(** The encodings are byte slices. *)
Definition fitting (t : Trie) : Prop :=
  forall c, in_trie t (t_root t) c -> inner c = true -> fits (node_buf c).

(** ** Decoded nodes *)

Definition decoded (h : bytes) (n : noder) : Prop :=
  inner n = true /\ node_Hash n = h /\ node_Status n = nodeStatusPersisted /\ shape n
  /\ (forall c, c ∈ children n -> shallow c = c)
  /\ match n with BranchNode _ cs => Forall child_hash_ok cs | _ => True end.

Lemma decode_children_spec n : forall elems cs,
  decode_children n elems = inl cs ->
  length cs = n /\ Forall child_hash_ok cs /\ forall c, c ∈ cs -> shallow c = c.
Proof.
  induction n as [|n IH]; intros elems cs; cbn [decode_children].
  { intros [= <-]. split; [done|]. split; [constructor|]. by intros c Hc%not_elem_of_nil. }
  destruct (Split elems) as [[[k val] rest]|]; [|done].
  destruct (decode_children n rest) as [cs'|] eqn:Hd; [|done]. intros [= <-].
  destruct (IH _ _ Hd) as (Hl & Hok & Hsh). split; [cbn; by rewrite Hl|].
  destruct (bool_decide (k = String) && (length val =? HashLength)%nat) eqn:Hb.
  - apply andb_true_iff in Hb as [_ Hlen%Nat.eqb_eq]. split; [constructor; [by right|done]|].
    intros c [-> | Hc]%elem_of_cons; [done|by apply Hsh].
  - split; [constructor; [by left|done]|]. intros c [-> | Hc]%elem_of_cons; [done|by apply Hsh].
Qed.

Lemma decodeNode_decoded h enc n : decodeNode h enc = inl n -> decoded h n.
Proof.
  unfold decodeNode, decoded. case_match; [done|]. destruct (SplitList enc) as [[vals rest]|]; [|done].
  destruct (CountValues vals) as [[|[|[|[|]]]]|]; try done.
  - unfold decodeBranchNode. destruct (Split vals) as [[[k elems] r]|]; [|done].
    destruct (CountValues elems) as [cnt|]; [|done]. case_match; [done|].
    destruct (decode_children numBranchChildren elems) as [cs|] eqn:Hd; [|done]. intros [= <-].
    destruct (decode_children_spec _ _ _ Hd) as (Hl & Hok & Hsh).
    split; [done|]. split; [done|]. split; [done|]. split; [exact Hl|]. split; [exact Hsh|exact Hok].
  - unfold decodeLeafNode. destruct (SplitString vals) as [[k r]|]; [|done].
    destruct (SplitString r) as [[v r']|]; [|done]. intros [= <-]. do 4 (split; [done|]).
    split; [|done]. by intros c Hc%not_elem_of_nil.
  - unfold decodeExtensionNode. destruct (SplitString vals) as [[k r]|]; [|done].
    destruct (SplitString r) as [[v r']|]; [|done]. destruct (SplitString r') as [[v' r'']|]; [|done].
    intros [= <-]. do 4 (split; [done|]). split; [|done]. cbn. by intros c ->%list_elem_of_singleton.
Qed.

(** What was decoded is encoded again, for the check of the hash. *)
Lemma decoded_rehash h n :
  decoded h n -> (nodeHash false (set_dirty n)).1.2 = sha_sum (node_buf n).
Proof.
  intros (Hi & _ & _ & _ & Hsh & _).
  assert (Hk : hash_known false (set_dirty n) = false) by (by destruct n).
  assert (Hi' : inner (set_dirty n) = true) by (by destruct n).
  assert (Hsub : forall c, c ∈ children n -> hashed false c = c).
  { intros c Hc. specialize (Hsh c Hc). by destruct c. }
  destruct (hashed_parts false (set_dirty n) Hi' Hk) as (_ & _ & _ & Hh & _).
  rewrite nodeHash_hash, Hh, bool_decide_true by (by destruct n).
  rewrite hashed_buf_same; [by destruct n|done|done|]. intros c Hc.
  rewrite Hsub; [done|]. by destruct n.
Qed.

(** Two nodes with the same encoding are alike. *)
Lemma decoded_buf h n c :
  decoded h n -> inner c = true -> shape c -> node_Hash c = h ->
  (forall c', c' ∈ children c -> child_hash_ok c') -> fits (node_buf c) ->
  node_buf n = node_buf c -> n = shallow_node c.
Proof.
  intros (Hi & Hh & Hst & Hs & Hsh & Hbr) Hci Hcs Hch Hok Hf Heq.
  pose proof (decode_node_buf c Hci Hcs Hok Hf) as Hd. rewrite Hch, <- Heq in Hd.
  assert (Hn : decodeNode h (node_buf n) = inl n); [|congruence].
  rewrite <- Heq in Hf. destruct n as [|nd k next|nd k v|nd cs|h']; try discriminate Hi;
    cbn [node_buf children node_Hash node_Status] in *; destruct nd as [hh st]; cbn in Hh, Hst; subst.
  - rewrite decode_extension_buf by done. specialize (Hsh next ltac:(by apply list_elem_of_singleton)).
    by destruct next.
  - by rewrite decode_leaf_buf.
  - rewrite decode_branch_buf by done. do 2 f_equal. rewrite <- (map_id cs) at 2. apply map_ext_in.
    intros c' Hc'. by apply Hsh, list_elem_of_In.
Qed.

(** ** Soundness *)

(** A node with a hash: itself, or what is loaded for it. *)
Lemma resolve t c e :
  coh t c -> settled c -> c <> NilNode -> wf t e c ->
  exists d, inner d = true /\ coh t d /\ settled d /\ node_Hash d = node_Hash c /\ wf t e d
    /\ (forall c', in_trie t d c' -> in_trie t c c') /\ (forall key r, reads t c key r <-> reads t d key r)
    /\ (d = c \/ exists h, c = hashNode h /\ loadNode t h = inl d).
Proof.
  intros Hc Hs Hn Hw. destruct Hc as [|h n Hl Hi Hst Hh Hc|n Hi]; [done| |].
  - exists n. inversion Hw as [| | | |? ? n0 Hl0 _ Hw0]; subst. assert (n0 = n) as -> by congruence.
    do 2 (split; [done|]). split; [by intros _; rewrite Hst|]. split; [done|]. split; [done|].
    split; [intros c'; by apply in_load|]. split; [intros key r; by apply reads_hash_iff|].
    right. by exists (node_Hash n).
  - exists n. do 2 (split; [done || by apply coh_node|]). do 5 (split; [done|]). by left.
Qed.

(** The checks of a step of [VerifyProof] for the hash of a node leave no choice
    for what is in the proof. *)
Lemma verify_step t proof c n enc :
  honest t proof -> fitting t -> in_trie t (t_root t) c -> inner c = true -> coh t c -> settled c ->
  proof !! node_Hash c = Some enc -> decodeNode (node_Hash c) enc = inl n ->
  bytes_eqb (node_Hash c) (nodeHash false (set_dirty n)).1.2 = true ->
  n = shallow_node c.
Proof.
  intros Hhon Hfit Hin Hi Hc Hs Henc Hd Hb. pose proof (decodeNode_decoded _ _ _ Hd) as Hdec.
  rewrite (decoded_rehash _ _ Hdec) in Hb. apply bool_decide_eq_true in Hb.
  destruct Hc as [| |c Hi' Hsh Hch Hset _]; try done.
  destruct (Hset ltac:(by apply Hs; intros ->)) as [Hh Hsc].
  apply (decoded_buf (node_Hash c)); try done.
  - intros c' Hc'. apply (coh_hash_ok t); [by apply Hch|by apply Hsc].
  - by apply Hfit.
  - apply (Hhon c (node_Hash c) enc); [done..|]. by rewrite <- Hb, <- Hh.
Qed.

Lemma prefix_test (k key : bytes) :
  (length key <? length k)%nat || negb (bytes_eqb k (take (length k) key))
  = negb (bool_decide (k `prefix_of` key)).
Proof. pose proof (key_part_test key 0 k ltac:(lia)) as Ht. by rewrite drop_0, Nat.sub_0_r in Ht. Qed.

Lemma copy_hash_full w h : length w = length h -> copy_hash w h = h.
Proof.
  intros Hl. unfold copy_hash. rewrite Hl, take_ge by done. rewrite drop_ge by lia. apply app_nil_r.
Qed.

Lemma coh_inner t c : coh t c -> inner c = true -> settled c ->
  shape c /\ (forall c', c' ∈ children c -> coh t c' /\ settled c').
Proof.
  intros Hc Hi Hs. destruct Hc as [| |c _ Hsh Hch Hset _]; try done. split; [done|].
  destruct (Hset ltac:(apply Hs; by intros ->)) as [_ Hsc]. auto.
Qed.

Lemma coh_inner_hash t c : coh t c -> inner c = true -> settled c -> length (node_Hash c) = HashLength.
Proof. intros Hc Hi Hs. destruct (coh_hash_ok t c Hc Hs) as [-> |]; done. Qed.

Lemma shallow_is_hash c h : shallow c = hashNode h -> node_Hash c = h /\ c <> NilNode.
Proof. destruct c; cbn; try done; by intros [= <-]. Qed.

(** The walk in a node: it ends at a leaf with the key, or at the hash of a child
    that the rest of the key leads to. *)
Lemma proof_get_spec t c key fuel :
  inner c = true -> coh t c -> settled c -> wf t false c -> full key -> (2 <= fuel)%nat ->
  match proof_get fuel (shallow_node c) key with
  | Some (_, LeafNode _ _ v) => reads t c key (Some v)
  | Some (rest, hashNode h) =>
      exists c', c' ∈ children c /\ c' <> NilNode /\ node_Hash c' = h /\ wf t false c' /\ full rest
        /\ (length rest < length key)%nat /\ forall r, reads t c key r <-> reads t c' rest r
  | Some (_, NilNode) =>
      reads t c key None \/ exists nd cs, c = BranchNode nd cs /\ key = [16]
  | _ => False
  end.
Proof.
  intros Hi Hc Hs Hw Hkey Hf. destruct fuel as [|[|fuel]]; [lia|lia|].
  destruct key as [|b rest] eqn:Hk; [by apply full_not_nil in Hkey|]. rewrite <- Hk in *.
  destruct c as [|nd k next|nd k v|nd cs|h]; try discriminate Hi; cbn [shallow_node].
  - rewrite Hk. cbn [proof_get]. rewrite <- Hk, prefix_test.
    case_bool_decide as Hp; cbn [negb]; [|left; by constructor]. destruct Hp as [q Hq]. rewrite Hq, drop_app_length.
    inversion Hw as [| |? ? ? Hk0 Hkn Hnext| |]; subst. rewrite Hq in *.
    apply full_app in Hkey; [|done]. destruct q as [|x q]; [by apply full_not_nil in Hkey|].
    destruct (coh_inner t _ Hc eq_refl Hs) as [Hsh _]. cbn in Hsh.
    destruct (shallow next) eqn:Hsn; try (by destruct next). exists next.
    split; [by apply list_elem_of_singleton|]. split; [done|]. split; [by apply shallow_is_hash in Hsn as [? ?]|].
    split; [done|]. split; [done|]. split; [rewrite length_app; destruct k; [done|cbn; lia]|].
    intros r. apply reads_extension_iff.
  - rewrite Hk. cbn [proof_get]. rewrite <- Hk, prefix_test.
    case_bool_decide as Hp; cbn [negb]; [|left; constructor; intros Heq; by rewrite Heq in Hp].
    inversion Hw as [|? ? ? ? Hv| | |]; subst. rewrite (full_prefix k (b :: rest)) by done. constructor.
  - rewrite Hk. cbn [proof_get]. inversion Hw as [| | |? ? Hl Hcs|]; subst.
    apply full_step in Hkey as [Hb Hv]. destruct (child_some cs b Hl Hb) as [c Hcb].
    rewrite child_map, Hcb. cbn [fmap option_fmap option_map]. destruct rest as [|x rest].
    { right. exists nd, cs. split; [done|]. unfold ended_at in Hv. destruct (Z.eqb_spec b 16); [by subst|].
      by apply full_not_nil in Hv. }
    destruct (ended_at b) eqn:He; [done|]. specialize (Hcs b c Hcb). rewrite He in Hcs.
    destruct (shallow c) eqn:Hsc; try (by destruct c).
    { left. destruct c; try done. apply (reads_branch t _ _ b NilNode); [done|constructor]. }
    exists c.
    split; [by apply (child_elem cs b)|]. split; [by intros ->|]. split; [by apply shallow_is_hash in Hsc as [? ?]|].
    split; [done|]. split; [done|]. split; [cbn; lia|]. intros r. by apply reads_branch_iff.
Qed.

Lemma verify_walk_sound t proof : honest t proof -> fitting t -> forall fuel c key v,
  in_trie t (t_root t) c -> (forall c', in_trie t c c' -> in_trie t (t_root t) c') ->
  inner c = true -> coh t c -> settled c -> wf t false c -> full key ->
  verify_walk fuel (node_Hash c) key proof = Some (inl (Some v)) -> reads t c key (Some v).
Proof.
  intros Hhon Hfit fuel. induction fuel as [|fuel IH]; intros c key v Hin Hsub Hi Hc Hs Hw Hkey; [done|].
  cbn [verify_walk]. destruct (proof !! node_Hash c) as [enc|] eqn:Henc; [|done].
  destruct (decodeNode (node_Hash c) enc) as [n|] eqn:Hd; [|done].
  destruct (bytes_eqb (node_Hash c) _) eqn:Hb; cbn [negb]; [|done].
  rewrite (verify_step t proof c n enc) by done.
  pose proof (proof_get_spec t c key (walk_fuel key) Hi Hc Hs Hw Hkey ltac:(unfold walk_fuel; lia)) as Hg.
  destruct (proof_get _ _ _) as [[rest d]|]; [|done].
  destruct d as [|nd k next|nd k v0|nd cs|h]; [by intros [=]|done|by intros [= ->]|done|].
  destruct Hg as (c' & Hc' & Hnn & Hh & Hw' & Hr & _ & Hiff).
  destruct (coh_inner t c Hc Hi Hs) as [_ Hch]. destruct (Hch c' Hc') as [Hcc Hsc].
  destruct (resolve t c' false Hcc Hsc Hnn Hw') as (d & Hdi & Hdc & Hds & Hdh & Hdw & Hdin & Hdr & Hdc').
  rewrite copy_hash_full.
  - rewrite <- Hh, <- Hdh. intros Hv. apply Hiff, Hdr.
    assert (Hdsub : forall c0, in_trie t d c0 -> in_trie t (t_root t) c0).
    { intros c0 Hc0. apply Hsub. by apply (in_child t c c'), Hdin. }
    apply (IH d rest v); try done. apply Hdsub. constructor.
  - rewrite (coh_inner_hash t c) by done. by rewrite <- Hh, <- Hdh, (coh_inner_hash t d).
Qed.

Lemma hashed_trie t m :
  trie_ok t m ->
  let t' := (Trie_Hash t).1 in
  trie_ok t' m /\ settled (t_root t')
  /\ (if is_nil (t_root t') then (Trie_Hash t).2 = EmptyHash
      else (Trie_Hash t).2 = node_Hash (t_root t')).
Proof.
  intros [Hrep Hc] t'. pose proof (Trie_Hash_spec t m Hrep) as Hrep'.
  destruct (is_nil (t_root t)) eqn:Hn.
  { unfold t', Trie_Hash. rewrite Hn. cbn. rewrite Hn. split; [done|]. split; [|done].
    intros Hne. by destruct (t_root t). }
  destruct (hash_coh t (t_root t) Hc) as [Hc' Hs']. pose proof (hashed_nil false (t_root t)) as Hnil.
  unfold t' in *. unfold Trie_Hash in *. rewrite Hn in *. unfold hashed in *.
  destruct (nodeHash false (t_root t)) as [[root h] w]. cbn in *. rewrite Hnil.
  split; [split; [done|by apply (coh_load t)]|]. split; [done|].
  destruct (coh_hash_ok t root Hc' Hs') as [-> | Hl]; [done|]. by apply BytesToHash_hash.
Qed.

Lemma VerifyProof_accepts t m proof key v :
  trie_ok t m -> honest (Trie_Hash t).1 proof -> fitting (Trie_Hash t).1 -> Forall is_byte key ->
  VerifyProof (Trie_Hash t).2 key proof = Some (inl (Some v)) -> m !! key = Some v.
Proof.
  intros Hok Hhon Hfit Hk. destruct (hashed_trie t m Hok) as ([Hrep Hc] & Hs & Hroot).
  set (t' := (Trie_Hash t).1) in *. unfold VerifyProof.
  destruct (is_nil (t_root t')) eqn:Hn; rewrite Hroot.
  { generalize (S (length (keybytesToHex key)) * S (size proof))%nat as fuel.
    intros [|fuel]; [done|]. cbn [verify_walk]. destruct (proof !! EmptyHash) as [enc|]; [|done].
    destruct (decodeNode EmptyHash enc) as [n|] eqn:Hd; [|done].
    rewrite (decoded_rehash _ _ (decodeNode_decoded _ _ _ Hd)). unfold bytes_eqb.
    rewrite bool_decide_false; [done|]. intros He. by apply (sha_not_empty (node_buf n)). }
  destruct Hrep as [Hw Hr].
  destruct (resolve t' (t_root t') false Hc Hs) as (d & Hdi & Hdc & Hds & Hdh & Hdw & Hdin & Hdr & Hdc');
    [by intros Hnil; rewrite Hnil in Hn|done|]. rewrite <- Hdh. intros Hv.
  apply (reads_det t' (t_root t') (keybytesToHex key)); [by apply Hr|]. apply Hdr.
  apply (verify_walk_sound t' proof Hhon Hfit _ d _ v) in Hv; try done.
  - apply Hdin. constructor.
  - by apply keybytesToHex_full.
Qed.
(** ** Completeness *)

(** No branch of the trie holds a value itself: no key ends where others go on. *)
Definition plain (t : Trie) : Prop :=
  forall nd cs, in_trie t (t_root t) (BranchNode nd cs) -> child cs 16 = Some NilNode.

(** Nodes with the same hash have the same encoding. *)
Definition distinct (t : Trie) : Prop :=
  forall c c', in_trie t (t_root t) c -> in_trie t (t_root t) c' -> inner c = true -> inner c' = true ->
    node_Hash c = node_Hash c' -> node_buf c = node_buf c'.

(** A step towards a value: at its leaf, or to a child with a shorter key. *)
Lemma present_step t c key v :
  inner c = true -> coh t c -> settled c -> wf t false c -> full key ->
  (forall nd cs, c = BranchNode nd cs -> child cs 16 = Some NilNode) ->
  reads t c key (Some v) ->
  (exists nd, c = LeafNode nd key v)
  \/ exists c' rest, c' ∈ children c /\ c' <> NilNode /\ wf t false c' /\ full rest
      /\ (length rest < length key)%nat /\ reads t c' rest (Some v)
      /\ (forall fuel, (2 <= fuel)%nat ->
           proof_get fuel (shallow_node c) key = Some (rest, hashNode (node_Hash c')))
      /\ forall fuel, proof_nodes (S fuel) t c key
           = match proof_nodes fuel t c' rest with
             | None => None
             | Some (l, err) => Some (c :: l, err)
             end.
Proof.
  intros Hi Hc Hs Hw Hkey Hplain Hr.
  destruct key as [|b rest] eqn:Hk; [by apply full_not_nil in Hkey|]. rewrite <- Hk in *.
  destruct c as [|nd k next|nd k v0|nd cs|h]; try discriminate Hi.
  - right. inversion Hw as [| |? ? ? Hk0 Hkn Hnext| |]; subst nd0 k0 next0.
    destruct (decide (k `prefix_of` key)) as [[q Hq]|Hp].
    2: { by rewrite reads_extension_other_iff in Hr. }
    rewrite Hq in Hr, Hkey. rewrite reads_extension_iff in Hr. apply full_app in Hkey; [|done].
    destruct (coh_inner t _ Hc eq_refl Hs) as [Hsh _]. cbn in Hsh.
    assert (Hsn : shallow next = hashNode (node_Hash next)) by (by destruct next).
    assert (Htest : (length key <? length k)%nat || negb (bytes_eqb k (take (length k) key)) = false).
    { rewrite prefix_test, bool_decide_true; [done|]. by exists q. }
    assert (Hdrop : drop (length k) key = q) by (by rewrite Hq, drop_app_length).
    exists next, q. split; [by apply list_elem_of_singleton|]. do 3 (split; [done|]).
    split; [rewrite Hq, length_app; destruct k; [done|cbn; lia]|]. split; [done|]. split.
    + intros fuel Hf. destruct fuel as [|[|fuel]]; [lia|lia|]. rewrite Hk. cbn [shallow_node proof_get].
      rewrite <- Hk, Htest, Hdrop, Hsn. destruct q; [by apply full_not_nil in Hkey|done].
    + intros fuel. rewrite Hk. cbn [proof_nodes]. by rewrite <- Hk, Htest, Hdrop.
  - left. exists nd. apply reads_leaf_iff in Hr. case_bool_decide; [|done]. by simplify_eq.
  - right. inversion Hw as [| | |? ? Hl Hcs|]; subst nd0 cs0. rewrite Hk in Hkey, Hr.
    apply full_step in Hkey as [Hb Hv]. destruct (child_some cs b Hl Hb) as [c Hcb].
    rewrite (reads_branch_iff t nd cs b c) in Hr by done.
    assert (Hcn : c <> NilNode) by (intros ->; by inversion Hr).
    assert (He : ended_at b = false).
    { unfold ended_at. destruct (Z.eqb_spec b 16) as [-> |]; [|done].
      rewrite (Hplain nd cs eq_refl) in Hcb. congruence. }
    specialize (Hcs b c Hcb). rewrite He in Hcs, Hv.
    exists c, rest. split; [by apply (child_elem cs b)|]. do 3 (split; [done|]).
    split; [rewrite Hk; cbn; lia|]. split; [done|]. split.
    + intros fuel Hf. destruct fuel as [|[|fuel]]; [lia|lia|]. rewrite Hk. cbn [shallow_node proof_get].
      rewrite child_map, Hcb. cbn [fmap option_fmap option_map].
      destruct rest as [|x rest]; [by apply full_not_nil in Hv|]. by destruct c.
    + intros fuel. rewrite Hk. cbn [proof_nodes]. by rewrite Hcb.
Qed.

(** A node of the proof passes the checks. *)
Lemma verify_node (t : Trie) (c : noder) (key : bytes) (fuel : nat) (proof : gmap bytes bytes) :
  inner c = true -> coh t c -> settled c -> fits (node_buf c) ->
  proof !! node_Hash c = Some (node_buf c) ->
  verify_walk (S fuel) (node_Hash c) key proof
  = match proof_get (walk_fuel key) (shallow_node c) key with
    | None => None
    | Some (keyrest, NilNode) => Some (inl None)
    | Some (keyrest, hashNode h) => verify_walk fuel (copy_hash (node_Hash c) h) keyrest proof
    | Some (keyrest, LeafNode _ _ v) => Some (inl (Some v))
    | Some (keyrest, _) => None
    end.
Proof.
  intros Hi Hc Hs Hf Hp. cbn [verify_walk]. rewrite Hp.
  destruct (coh_inner t c Hc Hi Hs) as [Hsh Hch].
  assert (Hd : decodeNode (node_Hash c) (node_buf c) = inl (shallow_node c)).
  { apply decode_node_buf; [done|done| |done]. intros c' Hc'. destruct (Hch c' Hc'). by apply (coh_hash_ok t). }
  rewrite Hd, (decoded_rehash _ _ (decodeNode_decoded _ _ _ Hd)).
  destruct (shallow_parts c Hi) as (_ & _ & _ & _ & Hb & _).
  destruct Hc as [| |c _ _ _ Hset _]; try done.
  destruct (Hset ltac:(apply Hs; by intros ->)) as [Hh _]. rewrite Hb, <- Hh. unfold bytes_eqb.
  by rewrite bool_decide_true.
Qed.

Lemma proof_get_leaf fuel nd key v :
  key <> [] -> proof_get (S fuel) (LeafNode nd key v) key = Some ([], LeafNode nd key v).
Proof.
  intros Hk. destruct key as [|b q]; [done|]. cbn [proof_get].
  by rewrite prefix_test, bool_decide_true by done.
Qed.

Lemma proof_nodes_leaf fuel t nd key v :
  key <> [] -> proof_nodes (S fuel) t (LeafNode nd key v) key = Some ([LeafNode nd key v], None).
Proof.
  intros Hk. destruct key as [|b q]; [done|]. cbn [proof_nodes]. unfold bytes_eqb.
  by rewrite (proj2 (Nat.leb_le _ _)), take_ge, bool_decide_true by done.
Qed.

(** The nodes on the way to a value make it verifiable. *)
Lemma path_verifies t v : fitting t -> plain t -> forall n key c,
  (length key <= n)%nat -> (forall c', in_trie t c c' -> in_trie t (t_root t) c') ->
  inner c = true -> coh t c -> settled c -> wf t false c -> full key -> reads t c key (Some v) ->
  forall fuel, (2 * length key + 1 <= fuel)%nat ->
  exists nodes, proof_nodes fuel t c key = Some (nodes, None)
    /\ (forall d, d ∈ nodes -> inner d = true /\ coh t d /\ settled d /\ in_trie t (t_root t) d)
    /\ forall (proof : gmap bytes bytes) vf,
         (forall d, d ∈ nodes -> proof !! node_Hash d = Some (node_buf d)) -> (length key < vf)%nat ->
         verify_walk vf (node_Hash c) key proof = Some (inl (Some v)).
Proof.
  intros Hfit Hplain n. induction n as [|n IH]; intros key c Hlen Hin Hi Hc Hs Hw Hkey Hr fuel Hf.
  { destruct key; [by apply full_not_nil in Hkey|cbn in Hlen; lia]. }
  assert (Hself : in_trie t (t_root t) c) by (apply Hin; constructor).
  destruct fuel as [|fuel]; [lia|].
  destruct (present_step t c key v) as [[nd ->]|(c' & rest & Hc' & Hnn & Hw' & Hrest & Hl & Hr' & Hpg & Hpn)];
    try done; [by intros nd cs ->; apply (Hplain nd)|..].
  - exists [LeafNode nd key v]. split; [|split].
    + by apply proof_nodes_leaf, full_not_nil.
    + intros d ->%list_elem_of_singleton. done.
    + intros proof vf Hp Hvf. destruct vf as [|vf]; [lia|].
      rewrite (verify_node t _ key vf proof Hi Hc Hs (Hfit _ Hself Hi)
        (Hp _ ltac:(by apply list_elem_of_singleton))).
      unfold walk_fuel. rewrite Nat.add_comm. cbn [Nat.add shallow_node].
      by rewrite proof_get_leaf by (by apply full_not_nil).
  - destruct (coh_inner t c Hc Hi Hs) as [_ Hch]. destruct (Hch c' Hc') as [Hcc Hsc].
    destruct (resolve t c' false Hcc Hsc Hnn Hw') as (d & Hdi & Hdc & Hds & Hdh & Hdw & Hdin & Hdr & Hdc').
    assert (Hdsub : forall c0, in_trie t d c0 -> in_trie t (t_root t) c0).
    { intros c0 Hc0. apply Hin. by apply (in_child t c c'), Hdin. }
    assert (Hd : exists nodes, proof_nodes fuel t c' rest = Some (nodes, None)
      /\ (forall d, d ∈ nodes -> inner d = true /\ coh t d /\ settled d /\ in_trie t (t_root t) d)
      /\ forall (proof : gmap bytes bytes) vf,
           (forall d, d ∈ nodes -> proof !! node_Hash d = Some (node_buf d)) -> (length rest < vf)%nat ->
           verify_walk vf (node_Hash d) rest proof = Some (inl (Some v))).
    { destruct Hdc' as [-> | (h & -> & Hload)].
      - apply IH; try done; lia.
      - destruct fuel as [|fuel]; [lia|].
        destruct (IH rest d ltac:(lia) Hdsub Hdi Hdc Hds Hdw Hrest ltac:(by apply Hdr) fuel ltac:(lia))
          as (nodes & Hnodes & Hall & Hver).
        exists nodes. split; [|done]. destruct rest; [by apply full_not_nil in Hrest|].
        cbn [proof_nodes]. by rewrite Hload. }
    destruct Hd as (nodes & Hnodes & Hall & Hver). exists (c :: nodes). rewrite Hpn, Hnodes.
    split; [done|]. split; [by intros d0 [-> | ?]%elem_of_cons; [|apply Hall]|].
    intros proof vf Hp Hvf. destruct vf as [|vf]; [lia|].
    rewrite (verify_node t c key vf proof Hi Hc Hs (Hfit _ Hself Hi) (Hp c ltac:(left))).
    rewrite Hpg by (unfold walk_fuel; lia). rewrite copy_hash_full.
    + rewrite <- Hdh. apply Hver; [|lia]. intros d0 Hd0. apply Hp. by right.
    + rewrite (coh_inner_hash t c) by done. by rewrite <- Hdh, (coh_inner_hash t d).
Qed.

Lemma settled_hash n : settled n -> (nodeHash false n).1.2 = node_Hash n.
Proof.
  intros Hs. rewrite nodeHash_hash. destruct n as [|nd k next|nd k v|nd cs|h]; [done| | | |done];
    (rewrite hashed_known; [done|]); unfold hash_known; pose proof (Hs ltac:(done)) as Hd;
    cbn in Hd |- *; by destruct (nd_status nd).
Qed.

Lemma settled_encode t n : inner n = true -> coh t n -> settled n -> encodeNode n = node_buf n.
Proof.
  intros Hi Hc Hs. destruct (coh_inner t n Hc Hi Hs) as [_ Hch].
  destruct n as [|nd k next|nd k v|nd cs|h]; try discriminate Hi; cbn [encodeNode node_buf children] in *.
  - rewrite settled_hash; [done|]. by apply Hch, list_elem_of_singleton.
  - done.
  - apply (f_equal encode_branch), map_ext_in. intros c Hin. by apply settled_hash, Hch, list_elem_of_In.
Qed.

(** The map that [GetProof] returns. *)
Lemma proof_map_lookup (nodes : list noder) : forall (p : gmap bytes bytes) d,
  (forall c c', c ∈ nodes -> c' ∈ nodes -> (nodeHash false c).1.2 = (nodeHash false c').1.2 ->
    encodeNode c = encodeNode c') ->
  (d ∈ nodes \/ p !! (nodeHash false d).1.2 = Some (encodeNode d)
    /\ forall c, c ∈ nodes -> (nodeHash false c).1.2 = (nodeHash false d).1.2 -> encodeNode c = encodeNode d) ->
  foldl (fun p n => <[(nodeHash false n).1.2 := encodeNode n]> p) p nodes !! (nodeHash false d).1.2
  = Some (encodeNode d).
Proof.
  induction nodes as [|c nodes IH]; intros p d Hu Hd; cbn [foldl].
  { destruct Hd as [?%not_elem_of_nil|[? _]]; done. }
  apply IH; [by intros c1 c2 H1 H2; apply Hu; right|].
  destruct Hd as [[-> | Hd]%elem_of_cons|[Hp Hc]]; [|by left|].
  - right. rewrite lookup_insert_eq. split; [done|]. intros c' Hc'. apply Hu; [by right|left].
  - right. split; [|intros c' Hc'; apply Hc; by right].
    destruct (decide ((nodeHash false c).1.2 = (nodeHash false d).1.2)) as [Heq|Hne].
    + rewrite Heq, lookup_insert_eq. f_equal. apply Hc; [left|done].
    + by rewrite lookup_insert_ne.
Qed.

Lemma GetProof_verifies t m key v :
  trie_ok t m -> settled (t_root t) -> fitting t -> plain t -> distinct t -> Forall is_byte key ->
  m !! key = Some v ->
  exists proof, GetProof t key = Some (proof, None)
    /\ VerifyProof (node_Hash (t_root t)) key proof = Some (inl (Some v)).
Proof.
  intros [[Hw Hr] Hc] Hs Hfit Hplain Hdist Hk Hv. specialize (Hr key Hk). rewrite Hv in Hr.
  set (kx := keybytesToHex key) in *.
  assert (Hkx : full kx) by (by apply keybytesToHex_full).
  assert (Hnn : t_root t <> NilNode) by (intros He; rewrite He in Hr; inversion Hr).
  destruct (resolve t (t_root t) false Hc Hs Hnn Hw)
    as (d & Hdi & Hdc & Hds & Hdh & Hdw & Hdin & Hdr & Hdc').
  assert (Hpath : exists nodes, proof_nodes (walk_fuel kx) t (t_root t) kx = Some (nodes, None)
    /\ (forall d, d ∈ nodes -> inner d = true /\ coh t d /\ settled d /\ in_trie t (t_root t) d)
    /\ forall (proof : gmap bytes bytes) vf,
         (forall d, d ∈ nodes -> proof !! node_Hash d = Some (node_buf d)) -> (length kx < vf)%nat ->
         verify_walk vf (node_Hash d) kx proof = Some (inl (Some v))).
  { assert (Hrd : reads t d kx (Some v)) by (by apply Hdr). unfold walk_fuel.
    rewrite Nat.add_comm. cbn [Nat.add]. destruct Hdc' as [Heq|(h & Hroot & Hload)].
    - destruct (path_verifies t v Hfit Hplain (length kx) kx d ltac:(done) Hdin Hdi Hdc Hds Hdw Hkx Hrd
        (S (S (2 * length kx))) ltac:(lia)) as (nodes & Hn & Hrest).
      exists nodes. split; [by rewrite <- Heq|done].
    - destruct (path_verifies t v Hfit Hplain (length kx) kx d ltac:(done) Hdin Hdi Hdc Hds Hdw Hkx Hrd
        (S (2 * length kx)) ltac:(lia)) as (nodes & Hn & Hrest).
      exists nodes. split; [|done]. rewrite Hroot. destruct kx; [by apply full_not_nil in Hkx|].
      cbn [proof_nodes]. by rewrite Hload. }
  destruct Hpath as (nodes & Hn & Hall & Hver). unfold GetProof. fold kx. rewrite Hn.
  eexists. split; [done|]. unfold VerifyProof. fold kx. rewrite <- Hdh. apply Hver; [|lia].
  intros c Hcn. destruct (Hall c Hcn) as (Hci & Hcc & Hcs & Hcin).
  rewrite <- (settled_hash c Hcs), <- (settled_encode t c) by done. apply proof_map_lookup; [|by left].
  intros c1 c2 H1 H2. destruct (Hall c1 H1) as (Hi1 & Hc1 & Hs1 & Hin1), (Hall c2 H2) as (Hi2 & Hc2 & Hs2 & Hin2).
  rewrite (settled_hash c1 Hs1), (settled_hash c2 Hs2).
  rewrite (settled_encode t c1 Hi1 Hc1 Hs1), (settled_encode t c2 Hi2 Hc2 Hs2).
  exact (Hdist c1 c2 Hin1 Hin2 Hi1 Hi2).
Qed.
End verify.

(** C34: A value that VerifyProof accepts for the root hash of a trie is the
    value that the trie holds for the key, whatever the proof is made of, as
    long as no entry of the proof collides with a node of the trie under the
    hash function. Only that a value is present is shown; a result without a
    value does not mean that the trie has none. *)
Theorem VerifyProof_sound `{ShaLaws} t m proof key v :
  session t m -> honest (Trie_Hash t).1 proof -> fitting (Trie_Hash t).1 -> Forall is_byte key ->
  VerifyProof (Trie_Hash t).2 key proof = Some (inl (Some v)) ->
  m !! key = Some v.
Proof. intros Hs. by apply VerifyProof_accepts, session_ok. Qed.

(** The proof that GetProof makes for a key that the trie holds is
    accepted: VerifyProof returns the value. This needs that no key of the
    trie ends at a branch (keys of one length do not), and that different
    nodes of the trie have different hashes. *)
Theorem GetProof_complete `{ShaLaws} t m key v :
  session t m -> plain (Trie_Hash t).1 -> distinct (Trie_Hash t).1 -> fitting (Trie_Hash t).1 ->
  Forall is_byte key -> m !! key = Some v ->
  exists proof, GetProof (Trie_Hash t).1 key = Some (proof, None)
    /\ VerifyProof (Trie_Hash t).2 key proof = Some (inl (Some v)).
Proof.
  intros Hs Hpl Hd Hf Hk Hv. destruct (hashed_trie t m (session_ok t m Hs)) as (Hok & Hset & Hroot).
  destruct (GetProof_verifies _ m key v Hok Hset Hf Hpl Hd Hk Hv) as (proof & Hg & Hver).
  exists proof. split; [done|]. destruct (is_nil (t_root (Trie_Hash t).1)) eqn:Hn; [|by rewrite Hroot].
  by rewrite (nil_represents _ m key Hn (proj1 Hok) Hk) in Hv.
Qed.

(** ** Examples *)

(** The nodes of a trie that is in memory. *)
Fixpoint flat (n : noder) : list noder :=
  n :: match n with
       | ExtensionNode _ _ next => flat next
       | BranchNode _ cs => mjoin (map flat cs)
       | _ => []
       end.

Definition in_memory (n : noder) : bool :=
  forallb (fun c => match c with hashNode _ => false | _ => true end) (flat n).

Lemma flat_child n c d : c ∈ children n -> d ∈ flat c -> d ∈ flat n.
Proof.
  destruct n as [|nd k next|nd k v|nd cs|h]; cbn [children flat]; try by intros ?%not_elem_of_nil.
  - intros ->%list_elem_of_singleton Hd. by right.
  - intros Hc Hd. right. apply list_elem_of_join. exists (flat c). split; [done|by apply list_elem_of_fmap_2].
Qed.

Lemma flat_self n : n ∈ flat n.
Proof. destruct n; left. Qed.

Lemma in_memory_nodes t n d : in_memory n = true -> in_trie t n d -> d ∈ flat n.
Proof.
  intros Hm Hin. unfold in_memory in Hm. rewrite forallb_forall in Hm.
  assert (Hall : forall c, c ∈ flat n -> forall h, c <> hashNode h).
  { intros c Hc h ->. apply list_elem_of_In, Hm in Hc. done. }
  clear Hm. induction Hin as [n|n c d Hc Hin IH|h n d Hl Hin IH].
  - apply flat_self.
  - apply (flat_child n c); [done|]. apply IH. intros c' Hc'. apply Hall. by apply (flat_child n c).
  - exfalso. by apply (Hall (hashNode h) (flat_self _) h).
Qed.

(** The conditions of the two theorems, computed. *)
Definition fitting_check (t : Trie) : bool :=
  forallb (fun c => Z.of_nat (length (node_buf c)) <? 2 ^ 64) (flat (t_root t)).

Definition plain_check (t : Trie) : bool :=
  forallb (fun c => match c with BranchNode _ cs => match child cs 16 with Some NilNode => true | _ => false end
                               | _ => true end) (flat (t_root t)).

Definition distinct_check (t : Trie) : bool :=
  forallb (fun c => forallb (fun c' =>
    negb (inner c) || negb (inner c') || negb (bytes_eqb (node_Hash c) (node_Hash c'))
    || bytes_eqb (node_buf c) (node_buf c')) (flat (t_root t))) (flat (t_root t)).

Definition honest_check `{TrieEnv} (t : Trie) (proof : gmap bytes bytes) : bool :=
  forallb (fun kv =>
    match decodeNode kv.1 kv.2 with
    | inl n' => forallb (fun c =>
        if inner c then
          if bytes_eqb (node_buf n') (node_buf c) then true
          else negb (bytes_eqb (sha_sum (node_buf n')) (sha_sum (node_buf c)))
        else true) (flat (t_root t))
    | inr _ => true
    end) (map_to_list proof).

Lemma forallb_elem {A} (f : A -> bool) l x : forallb f l = true -> x ∈ l -> f x = true.
Proof. rewrite forallb_forall. intros Hf Hx. by apply Hf, list_elem_of_In. Qed.

Lemma fitting_checked t : in_memory (t_root t) = true -> fitting_check t = true -> fitting t.
Proof.
  intros Hm Hc c Hin _. apply (forallb_elem _ _ c) in Hc; [|by apply (in_memory_nodes t)].
  by apply Z.ltb_lt in Hc.
Qed.

Lemma plain_checked t : in_memory (t_root t) = true -> plain_check t = true -> plain t.
Proof.
  intros Hm Hc nd cs Hin. apply (forallb_elem _ _ (BranchNode nd cs)) in Hc; [|by apply (in_memory_nodes t)].
  cbv beta iota in Hc. destruct (child cs 16) as [[]|]; done.
Qed.

Lemma distinct_checked t : in_memory (t_root t) = true -> distinct_check t = true -> distinct t.
Proof.
  intros Hm Hc c c' Hin Hin' Hi Hi' Hh. apply (forallb_elem _ _ c) in Hc; [|by apply (in_memory_nodes t)].
  apply (forallb_elem _ _ c') in Hc; [|by apply (in_memory_nodes t)].
  rewrite Hi, Hi', Hh in Hc. unfold bytes_eqb in Hc. rewrite (bool_decide_true (node_Hash c' = _)) in Hc by done.
  by apply bool_decide_eq_true in Hc.
Qed.

Lemma honest_checked `{TrieEnv} t proof :
  in_memory (t_root t) = true -> honest_check t proof = true -> honest t proof.
Proof.
  intros Hm Hc c h enc n' Hin Hi Hp Hd Hs. apply (forallb_elem _ _ (h, enc)) in Hc; [|by apply elem_of_map_to_list].
  cbn [fst snd] in Hc. rewrite Hd in Hc. apply (forallb_elem _ _ c) in Hc; [|by apply (in_memory_nodes t)].
  cbv beta in Hc. rewrite Hi, Hs in Hc. unfold bytes_eqb in Hc. case_bool_decide as Heq; [exact Heq|].
  by rewrite bool_decide_true in Hc.
Qed.

Definition proof_trie : Trie := (@Trie_Hash example_env session_trie).1.

Definition the_proof (t : Trie) (key : bytes) : gmap bytes bytes :=
  match @GetProof example_env t key with Some (p, _) => p | None => ∅ end.

Lemma proof_trie_memory : in_memory (t_root proof_trie) = true.
Proof. vm_compute. reflexivity. Qed.

(** What [Get] finds is in the map. *)
Definition finds (t : Trie) (key value : bytes) : bool :=
  match Trie_Get t key with Some (_, v, true, None) => bytes_eqb v value | _ => false end.

Lemma finds_value t m key value :
  represents t m -> Forall is_byte key -> finds t key value = true -> m !! key = Some value.
Proof.
  intros Hrep Hk. unfold finds. destruct (Trie_Get_spec t m key Hrep Hk) as (t' & -> & _).
  destruct (m !! key) as [v|]; cbn; [|done]. by intros ->%bool_decide_eq_true.
Qed.

Lemma example_key : Forall is_byte [17; 33].
Proof. repeat constructor; unfold is_byte; lia. Qed.

Lemma VerifyProof_sound_witness :
  honest_check (H := example_env) proof_trie (the_proof proof_trie [17; 33]) = true
  /\ exists m : gmap bytes bytes, m !! [17; 33] = Some [2; 200].
Proof.
  assert (Hh : @honest_check example_env proof_trie (the_proof proof_trie [17; 33]) = true).
  { vm_compute. reflexivity. }
  split; [exact Hh|]. destruct session_trie_ok as [m Hs]. exists m.
  refine (@VerifyProof_sound example_env example_sha_laws session_trie m (the_proof proof_trie [17; 33])
    [17; 33] [2; 200] Hs (honest_checked proof_trie _ proof_trie_memory Hh)
    (fitting_checked proof_trie proof_trie_memory _) example_key _); vm_compute; reflexivity.
Defined.

Lemma GetProof_complete_witness :
  plain_check proof_trie = true
  /\ exists proof, @GetProof example_env proof_trie [17; 33] = Some (proof, None)
       /\ @VerifyProof example_env (@Trie_Hash example_env session_trie).2 [17; 33] proof
          = Some (inl (Some [2; 200])).
Proof.
  assert (Hp : plain_check proof_trie = true) by (vm_compute; reflexivity).
  split; [exact Hp|]. destruct session_trie_ok as [m Hs].
  refine (@GetProof_complete example_env example_sha_laws session_trie m [17; 33] [2; 200] Hs
    (plain_checked proof_trie proof_trie_memory Hp)
    (distinct_checked proof_trie proof_trie_memory _) (fitting_checked proof_trie proof_trie_memory _)
    example_key (finds_value session_trie m _ _ (proj1 (session_ok _ _ Hs)) example_key _));
    vm_compute; reflexivity.
Defined.

(** ** What proofs do not show *)

(** A key that is the start of another, and two keys that are not. *)
Definition prefix_calls : list trie_call := [CPut [17] [1]; CPut [17; 17] [2]; CHash].
Definition apart_calls : list trie_call := [CPut [17; 17] [1]; CPut [34; 34] [2]; CHash].

(** The proof that [GetProof] makes after some calls, and what [VerifyProof] says. *)
Definition prove_and_verify (calls : list trie_call) (key : bytes)
    : option (option (option bytes + ProofError)) :=
  match @trie_runs example_env (NewEmptyTrie [] (fun _ => None)) calls with
  | Some (t, _) =>
      match @GetProof example_env t key with
      | Some (proof, None) => Some (@VerifyProof example_env (@Trie_Hash example_env t).2 key proof)
      | _ => None
      end
  | None => None
  end.

(** What a proof does not show. When a key is the start of another key, its
    leaf hangs below a branch and is left out of the proof, and VerifyProof
    returns that there is no value, though Get finds one. And for a key that
    is not in the trie the leaf that shows this is left out as well, so that
    VerifyProof returns an error instead of no value. *)
Theorem proofs_incomplete :
  prove_and_verify prefix_calls [17] = Some (Some (inl None))
  /\ (exists t rs, @trie_runs example_env (NewEmptyTrie [] (fun _ => None)) prefix_calls = Some (t, rs)
       /\ finds t [17] [1] = true)
  /\ prove_and_verify apart_calls [17; 18] = Some (Some (inr errProofMissing)).
Proof.
  split; [vm_compute; reflexivity|]. split; [|vm_compute; reflexivity].
  destruct (@trie_runs example_env (NewEmptyTrie [] (fun _ => None)) prefix_calls) as [[t rs]|] eqn:Hr.
  - exists t, rs. split; [reflexivity|].
    assert (Hc : match @trie_runs example_env (NewEmptyTrie [] (fun _ => None)) prefix_calls with
      | Some (t, _) => finds t [17] [1] | None => false end = true) by (vm_compute; reflexivity).
    by rewrite Hr in Hc.
  - exfalso. revert Hr. vm_compute. discriminate.
Qed.
