(* ===== verification/ChainStore.v ===== *)
(** * The store of the blockchain

    Models [core/store/db_store.go] over a key value database, with the blocks of
    [core/types/block.go] and the debts of [core/types/debt.go] that it stores, and
    [core/store/cached_store.go], the store with caches in front of it. A write of the
    database is durable: it emits the database it leaves, so that a run passes
    through the databases that a crash can leave behind. The database does not fail;
    RLP is a parameter. *)

From Stdlib Require Import ZArith Lia.
From S2P Require Import Prelude Common BftHeader BftSnapshot StateDb Svm EvmWord.

Open Scope Z_scope.
Open Scope go_scope.

(** ** Data *)

Record DebtData := mkDebtData {
  dd_TxHash : Hash;
  dd_From : Address;
  dd_Nonce : Z;
  dd_Account : Address;
  dd_Amount : Z;
  dd_Price : Z;
  dd_Code : bytes
}.

Record Debt := mkDebt { d_Hash : Hash; d_Data : DebtData }.

Record Block := mkBlock {
  b_HeaderHash : Hash;
  b_Header : BlockHeader;
  b_Transactions : list Transaction;
  b_Debts : list Debt
}.

Record indexInBlock := mkIndex { ix_BlockHash : Hash; ix_Index : Z }.

Record blockBody := mkBody { bb_Txs : list Transaction; bb_Debts : list Debt }.

Inductive StoreError : Type :=
| ErrNotFound
| ErrDecode
| ErrEncode
| ErrInvalidTxIndex.

#[export] Instance StoreError_eq_dec : EqDecision StoreError.
Proof. solve_decision. Defined.

(** [common.Serialize] and [common.Deserialize] at the types that are stored. RLP
    refuses negative numbers. *)
Class StoreCodec := {
  enc_header : BlockHeader -> option bytes;
  dec_header : bytes -> option BlockHeader;
  enc_td : Z -> option bytes;
  dec_td : bytes -> option Z;
  enc_body : blockBody -> option bytes;
  dec_body : bytes -> option blockBody;
  enc_receipts : list Receipt -> option bytes;
  dec_receipts : bytes -> option (list Receipt);
  enc_index : indexInBlock -> bytes;
  dec_index : bytes -> option indexInBlock
}.

(** Decoding inverts encoding; a nil number of a header is decoded as zero, and its
    height is a 64-bit number. *)
Class StoreCodecLaws `{StoreCodec} := {
  dec_header_height b h : dec_header b = Some h -> is_u64 (h_Height h);
  dec_enc_header h b : enc_header h = Some b -> dec_header b = Some (Clone h);
  dec_enc_td z b : enc_td z = Some b -> dec_td b = Some z;
  dec_enc_body x b : enc_body x = Some b -> dec_body b = Some x;
  dec_enc_receipts l b : enc_receipts l = Some b -> dec_receipts b = Some l;
  dec_enc_index i : dec_index (enc_index i) = Some i
}.

(** ** The database *)

Abbreviation Db := (@gmap (list Z) (@list_eq_dec Z Z.eq_dec) (@list_countable Z Z.eq_dec Z_countable) (list Z)).
Abbreviation DbM A := (GoM Db Db A).

(** A batch: the keys with their new values, [None] for a deletion. *)
Abbreviation Batch := (list (bytes * option bytes)).

Definition apply_op (db : Db) (op : bytes * option bytes) : Db :=
  match op.2 with Some v => <[op.1 := v]> db | None => base.delete op.1 db end.

Definition apply_batch (db : Db) (batch : Batch) : Db := foldl apply_op db batch.

(** A durable write. *)
Definition db_write (f : Db -> Db) : DbM unit := fun db => Some (tt, f db, [f db]).

Definition batch_Commit (batch : Batch) : DbM unit := db_write (fun db => apply_batch db batch).

(** ** Keys *)

Definition keyHeadBlockHash : bytes := [72; 101; 97; 100; 66; 108; 111; 99; 107; 72; 97; 115; 104].

Definition encodeBlockHeight (height : Z) : bytes := be_bytes 8 height.

Definition heightToHashKey (height : Z) : bytes := 72 :: encodeBlockHeight height.
Definition hashToHeaderKey (hash : bytes) : bytes := 104 :: hash.
Definition hashToTDKey (hash : bytes) : bytes := 116 :: hash.
Definition hashToBodyKey (hash : bytes) : bytes := 98 :: hash.
Definition hashToReceiptsKey (hash : bytes) : bytes := 114 :: hash.
Definition txHashToIndexKey (txHash : bytes) : bytes := 105 :: txHash.
Definition debtHashToIndexKey (debtHash : bytes) : bytes := 100 :: debtHash.

Section store.
Context `{StoreCodec}.

(** ** Reading *)

Definition GetBlockHash (db : Db) (height : Z) : Hash + StoreError :=
  match db !! heightToHashKey height with
  | Some hashBytes => inl (BytesToHash hashBytes)
  | None => inr ErrNotFound
  end.

Definition GetHeadBlockHash (db : Db) : Hash + StoreError :=
  match db !! keyHeadBlockHash with
  | Some hashBytes => inl (BytesToHash hashBytes)
  | None => inr ErrNotFound
  end.

(** [Get], then [Deserialize]. *)
Definition read_with {A} (dec : bytes -> option A) (o : option bytes) : A + StoreError :=
  match o with
  | None => inr ErrNotFound
  | Some b => match dec b with Some a => inl a | None => inr ErrDecode end
  end.

Definition GetBlockHeader (db : Db) (hash : Hash) : BlockHeader + StoreError :=
  read_with dec_header (db !! hashToHeaderKey hash).

Definition HasBlock (db : Db) (hash : Hash) : bool := bool_decide (is_Some (db !! hashToHeaderKey hash)).

Definition GetBlockTotalDifficulty (db : Db) (hash : Hash) : Z + StoreError :=
  read_with dec_td (db !! hashToTDKey hash).

Definition GetBlock (db : Db) (hash : Hash) : Block + StoreError :=
  match GetBlockHeader db hash with
  | inr err => inr err
  | inl header =>
      match db !! hashToBodyKey hash with
      | None => inl (mkBlock hash header [] [])
      | Some bodyBytes =>
          match dec_body bodyBytes with
          | None => inr ErrDecode
          | Some body => inl (mkBlock hash header (bb_Txs body) (bb_Debts body))
          end
      end
  end.

Definition GetBlockByHeight (db : Db) (height : Z) : Block + StoreError :=
  match GetBlockHash db height with
  | inr err => inr err
  | inl hash => GetBlock db hash
  end.

Definition GetReceiptsByBlockHash (db : Db) (hash : Hash) : list Receipt + StoreError :=
  read_with dec_receipts (db !! hashToReceiptsKey hash).

Definition GetTxIndex (db : Db) (txHash : Hash) : indexInBlock + StoreError :=
  read_with dec_index (db !! txHashToIndexKey txHash).

Definition GetDebtIndex (db : Db) (debtHash : Hash) : indexInBlock + StoreError :=
  read_with dec_index (db !! debtHashToIndexKey debtHash).

Definition GetReceiptByTxHash (db : Db) (txHash : Hash) : Receipt + StoreError :=
  match GetTxIndex db txHash with
  | inr err => inr err
  | inl txIndex =>
      match GetReceiptsByBlockHash db (ix_BlockHash txIndex) with
      | inr err => inr err
      | inl receipts =>
          match receipts !! Z.to_nat (ix_Index txIndex) with
          | None => inr ErrInvalidTxIndex
          | Some r => inl r
          end
      end
  end.

(** ** Indices *)

Definition batchAddIndices (blockHash : Hash) (txs : list Transaction) (debts : list Debt) : Batch :=
  imap (fun i tx => (txHashToIndexKey (tx_Hash tx), Some (enc_index (mkIndex blockHash (Z.of_nat i))))) txs
  ++ imap (fun i d => (debtHashToIndexKey (d_Hash d), Some (enc_index (mkIndex blockHash (Z.of_nat i))))) debts.

(** The transactions whose index cannot be read are passed over. *)
Definition batchDeleteTxs (db : Db) (blockHash : Hash) (txs : list Transaction) : Batch :=
  flat_map (fun tx =>
    match GetTxIndex db (tx_Hash tx) with
    | inr _ => []
    | inl idx => if bytes_eqb (ix_BlockHash idx) blockHash then [(txHashToIndexKey (tx_Hash tx), None)] else []
    end) txs.

(** The first debt whose index cannot be read ends the loop with an error. *)
Fixpoint batchDeleteDebts (db : Db) (blockHash : Hash) (debts : list Debt) : Batch * option StoreError :=
  match debts with
  | [] => ([], None)
  | d :: debts' =>
      match GetDebtIndex db (d_Hash d) with
      | inr err => ([], Some err)
      | inl idx =>
          let '(batch, err) := batchDeleteDebts db blockHash debts' in
          ((if bytes_eqb (ix_BlockHash idx) blockHash then [(debtHashToIndexKey (d_Hash d), None)] else []) ++ batch,
           err)
      end
  end.

Definition batchDeleteIndices (db : Db) (blockHash : Hash) (txs : list Transaction) (debts : list Debt)
    : Batch * option StoreError :=
  let '(batch, err) := batchDeleteDebts db blockHash debts in
  (batchDeleteTxs db blockHash txs ++ batch, err).

(** ** Writing *)

Definition PutBlockHash (height : Z) (hash : Hash) : DbM unit :=
  db_write (fun db => <[heightToHashKey height := hash]> db).

Definition DeleteBlockHash (height : Z) : DbM bool :=
  db <- go_get ;;
  if bool_decide (is_Some (db !! heightToHashKey height))
  then db_write (fun db => base.delete (heightToHashKey height) db) ;;; go_ret true
  else go_ret false.

Definition PutHeadBlockHash (hash : Hash) : DbM unit :=
  db_write (fun db => <[keyHeadBlockHash := hash]> db).

(** The error of deleting the old indices is dropped. *)
Definition head_batch (db : Db) (hash : Hash) (header : BlockHeader) (body : option blockBody)
    : Batch + StoreError :=
  let new := match body with Some b => batchAddIndices hash (bb_Txs b) (bb_Debts b) | None => [] end in
  let tail := new ++ [(heightToHashKey (h_Height header), Some hash); (keyHeadBlockHash, Some hash)] in
  match GetBlockHash db (h_Height header) with
  | inr ErrNotFound => inl tail
  | inr err => inr err
  | inl oldHash =>
      match GetBlock db oldHash with
      | inr err => inr err
      | inl oldBlock =>
          inl ((batchDeleteIndices db oldHash (b_Transactions oldBlock) (b_Debts oldBlock)).1 ++ tail)
      end
  end.

Definition putBlockInternal (hash : Hash) (header : BlockHeader) (body : option blockBody) (td : Z)
    (isHead : bool) : DbM (option StoreError) :=
  headerBytes <- go_deref (enc_header header) ;;
  tdBytes <- go_deref (enc_td td) ;;
  bodyOps <- (match body with
              | None => go_ret []
              | Some b => bodyBytes <- go_deref (enc_body b) ;; go_ret [(hashToBodyKey hash, Some bodyBytes)]
              end) ;;
  let batch := [(hashToHeaderKey hash, Some headerBytes); (hashToTDKey hash, Some tdBytes)] ++ bodyOps in
  db <- go_get ;;
  if isHead then
    match head_batch db hash header body with
    | inr err => go_ret (Some err)
    | inl ops => batch_Commit (batch ++ ops) ;;; go_ret None
    end
  else batch_Commit batch ;;; go_ret None.

Definition PutBlockHeader (hash : Hash) (header : BlockHeader) (td : Z) (isHead : bool) : DbM (option StoreError) :=
  putBlockInternal hash header None td isHead.

Definition PutBlock (block : Block) (td : Z) (isHead : bool) : DbM (option StoreError) :=
  putBlockInternal (b_HeaderHash block) (b_Header block)
    (Some (mkBody (b_Transactions block) (b_Debts block))) td isHead.

(** [store.delete]: the keys that are there. *)
Definition delete_keys (db : Db) (keys : list bytes) : Batch :=
  flat_map (fun k => if bool_decide (is_Some (db !! k)) then [(k, None)] else []) keys.

Definition DeleteBlockHeader (hash : Hash) : DbM unit :=
  db <- go_get ;;
  batch_Commit (delete_keys db [hashToHeaderKey hash; hashToTDKey hash; hashToReceiptsKey hash]).

Definition DeleteBlock (hash : Hash) : DbM (option StoreError) :=
  db <- go_get ;;
  let batch := delete_keys db [hashToHeaderKey hash; hashToTDKey hash; hashToReceiptsKey hash] in
  match db !! hashToBodyKey hash with
  | None => batch_Commit batch ;;; go_ret None
  | Some encodedBody =>
      match dec_body encodedBody with
      | None => go_ret (Some ErrDecode)
      | Some body =>
          let '(indices, err) := batchDeleteIndices db hash (bb_Txs body) (bb_Debts body) in
          match err with
          | Some e => go_ret (Some e)
          | None => batch_Commit (batch ++ indices ++ [(hashToBodyKey hash, None)]) ;;; go_ret None
          end
      end
  end.

Definition RecoverHeightToBlockMap (block : Block) : DbM unit :=
  batch_Commit (batchAddIndices (b_HeaderHash block) (b_Transactions block) (b_Debts block)
                ++ [(heightToHashKey (h_Height (b_Header block)), Some (b_HeaderHash block))]).

Definition PutReceipts (hash : Hash) (receipts : list Receipt) : DbM (option StoreError) :=
  match enc_receipts receipts with
  | None => go_ret (Some ErrEncode)
  | Some encodedBytes => db_write (fun db => <[hashToReceiptsKey hash := encodedBytes]> db) ;;; go_ret None
  end.

Definition AddIndices (block : Block) : DbM unit :=
  batch_Commit (batchAddIndices (b_HeaderHash block) (b_Transactions block) (b_Debts block)).

Definition DeleteIndices (block : Block) : DbM (option StoreError) :=
  db <- go_get ;;
  let '(batch, err) := batchDeleteIndices db (b_HeaderHash block) (b_Transactions block) (b_Debts block) in
  match err with
  | Some e => go_ret (Some e)
  | None => batch_Commit batch ;;; go_ret None
  end.
End store.

(** ** The interface of a store

    What the chain calls; [store_open] is the store of a process that starts on a
    database, [store_db] the database of a store. *)

Class BlockchainStore (S : Type) := {
  store_open : Db -> S;
  store_db : S -> Db;
  bs_GetBlockHash : Z -> GoM S Db (Hash + StoreError);
  bs_PutBlockHash : Z -> Hash -> GoM S Db unit;
  bs_DeleteBlockHash : Z -> GoM S Db bool;
  bs_GetHeadBlockHash : GoM S Db (Hash + StoreError);
  bs_PutHeadBlockHash : Hash -> GoM S Db unit;
  bs_GetBlockHeader : Hash -> GoM S Db (BlockHeader + StoreError);
  bs_PutBlockHeader : Hash -> BlockHeader -> Z -> bool -> GoM S Db (option StoreError);
  bs_DeleteBlockHeader : Hash -> GoM S Db (option StoreError);
  bs_GetBlockTotalDifficulty : Hash -> GoM S Db (Z + StoreError);
  bs_PutBlock : Block -> Z -> bool -> GoM S Db (option StoreError);
  bs_GetBlock : Hash -> GoM S Db (Block + StoreError);
  bs_HasBlock : Hash -> GoM S Db bool;
  bs_DeleteBlock : Hash -> GoM S Db (option StoreError);
  bs_GetBlockByHeight : Z -> GoM S Db (Block + StoreError);
  bs_RecoverHeightToBlockMap : Block -> GoM S Db unit;
  bs_PutReceipts : Hash -> list Receipt -> GoM S Db (option StoreError);
  bs_GetReceiptsByBlockHash : Hash -> GoM S Db (list Receipt + StoreError);
  bs_GetReceiptByTxHash : Hash -> GoM S Db (Receipt + StoreError);
  bs_AddIndices : Block -> GoM S Db unit;
  bs_DeleteIndices : Block -> GoM S Db (option StoreError);
  bs_GetTxIndex : Hash -> GoM S Db (indexInBlock + StoreError);
  bs_GetDebtIndex : Hash -> GoM S Db (indexInBlock + StoreError)
}.

(** A read of the database. *)
Definition db_read {A} (f : Db -> A) : DbM A := fun db => Some (f db, db, []).

(** [NewBlockchainDatabase]. *)
Definition blockchainDatabase `{StoreCodec} : BlockchainStore Db := {|
  store_open db := db;
  store_db db := db;
  bs_GetBlockHash height := db_read (fun db => GetBlockHash db height);
  bs_PutBlockHash := PutBlockHash;
  bs_DeleteBlockHash := DeleteBlockHash;
  bs_GetHeadBlockHash := db_read GetHeadBlockHash;
  bs_PutHeadBlockHash := PutHeadBlockHash;
  bs_GetBlockHeader hash := db_read (fun db => GetBlockHeader db hash);
  bs_PutBlockHeader := PutBlockHeader;
  bs_DeleteBlockHeader hash := DeleteBlockHeader hash ;;; go_ret None;
  bs_GetBlockTotalDifficulty hash := db_read (fun db => GetBlockTotalDifficulty db hash);
  bs_PutBlock := PutBlock;
  bs_GetBlock hash := db_read (fun db => GetBlock db hash);
  bs_HasBlock hash := db_read (fun db => HasBlock db hash);
  bs_DeleteBlock := DeleteBlock;
  bs_GetBlockByHeight height := db_read (fun db => GetBlockByHeight db height);
  bs_RecoverHeightToBlockMap := RecoverHeightToBlockMap;
  bs_PutReceipts := PutReceipts;
  bs_GetReceiptsByBlockHash hash := db_read (fun db => GetReceiptsByBlockHash db hash);
  bs_GetReceiptByTxHash hash := db_read (fun db => GetReceiptByTxHash db hash);
  bs_AddIndices := AddIndices;
  bs_DeleteIndices := DeleteIndices;
  bs_GetTxIndex hash := db_read (fun db => GetTxIndex db hash);
  bs_GetDebtIndex hash := db_read (fun db => GetDebtIndex db hash)
|}.

(** ** [cached_store.go] *)

(** hashicorp's LRU caches: adding an entry may drop others. *)
Class LruCache := {
  lru : Type -> Type -> Type;
  lru_New {K A} `{EqDecision K} : lru K A;
  lru_Get {K A} `{EqDecision K} : lru K A -> K -> option A * lru K A;
  lru_Contains {K A} `{EqDecision K} : lru K A -> K -> bool;
  lru_Add {K A} `{EqDecision K} : lru K A -> K -> A -> lru K A;
  lru_Remove {K A} `{EqDecision K} : lru K A -> K -> lru K A
}.

Class LruLaws `{LruCache} := {
  lru_peek {K A} `{EqDecision K} : lru K A -> K -> option A;
  lru_New_peek {K A} `{EqDecision K} (k : K) : lru_peek (A := A) lru_New k = None;
  lru_Get_found {K A} `{EqDecision K} (c : lru K A) (k : K) : (lru_Get c k).1 = lru_peek c k;
  lru_Contains_peek {K A} `{EqDecision K} (c : lru K A) (k : K) : lru_Contains c k = true -> is_Some (lru_peek c k);
  lru_Get_peek {K A} `{EqDecision K} (c : lru K A) (k k' : K) : lru_peek (lru_Get c k).2 k' = lru_peek c k';
  lru_Add_peek {K A} `{EqDecision K} (c : lru K A) (k k' : K) (a a' : A) :
    lru_peek (lru_Add c k a) k' = Some a' -> (k' = k /\ a' = a) \/ (k' <> k /\ lru_peek c k' = Some a');
  lru_Remove_peek {K A} `{EqDecision K} (c : lru K A) (k k' : K) (a : A) :
    lru_peek (lru_Remove c k) k' = Some a -> k' <> k /\ lru_peek c k' = Some a
}.

Section cached.
Context `{StoreCodec, LruCache}.

Record cachedStore := mkCached {
  cs_raw : Db;
  hashCache : lru Z Hash;
  headerCache : lru Hash BlockHeader;
  tdCache : lru Hash Z;
  blockCache : lru Hash Block
}.

Abbreviation CsM A := (GoM cachedStore Db A).

Definition NewCachedStore (store : Db) : cachedStore := mkCached store lru_New lru_New lru_New lru_New.

Definition set_hashCache (f : lru Z Hash -> lru Z Hash) (c : cachedStore) : cachedStore :=
  mkCached (cs_raw c) (f (hashCache c)) (headerCache c) (tdCache c) (blockCache c).
Definition set_headerCache (f : lru Hash BlockHeader -> lru Hash BlockHeader) (c : cachedStore) : cachedStore :=
  mkCached (cs_raw c) (hashCache c) (f (headerCache c)) (tdCache c) (blockCache c).
Definition set_tdCache (f : lru Hash Z -> lru Hash Z) (c : cachedStore) : cachedStore :=
  mkCached (cs_raw c) (hashCache c) (headerCache c) (f (tdCache c)) (blockCache c).
Definition set_blockCache (f : lru Hash Block -> lru Hash Block) (c : cachedStore) : cachedStore :=
  mkCached (cs_raw c) (hashCache c) (headerCache c) (tdCache c) (f (blockCache c)).

(** A call of the store behind. *)
Definition on_raw {A} (m : DbM A) : CsM A := fun c =>
  match m (cs_raw c) with
  | Some (a, db, o) => Some (a, mkCached db (hashCache c) (headerCache c) (tdCache c) (blockCache c), o)
  | None => None
  end.

(** [if x, found := cache.Get(k); found]; otherwise the store is read and what was
    found is added. *)
Definition cached_get {K A} `{EqDecision K} (cache : cachedStore -> lru K A)
    (set : (lru K A -> lru K A) -> cachedStore -> cachedStore) (k : K) (get : Db -> A + StoreError)
    : CsM (A + StoreError) := fun c =>
  let '(found, cache') := lru_Get (cache c) k in
  let c := set (fun _ => cache') c in
  match found with
  | Some a => Some (inl a, c, [])
  | None =>
      match get (cs_raw c) with
      | inl a => Some (inl a, set (fun cache => lru_Add cache k a) c, [])
      | inr err => Some (inr err, c, [])
      end
  end.

Definition cached_GetBlockHash (height : Z) : CsM (Hash + StoreError) :=
  cached_get hashCache set_hashCache height (fun db => GetBlockHash db height).

Definition cached_PutBlockHash (height : Z) (hash : Hash) : CsM unit :=
  on_raw (PutBlockHash height hash) ;;;
  go_modify (set_hashCache (fun cache => lru_Add cache height hash)).

Definition cached_DeleteBlockHash (height : Z) : CsM bool :=
  go_modify (set_hashCache (fun cache => lru_Remove cache height)) ;;;
  on_raw (DeleteBlockHash height).

Definition cached_GetBlockHeader (hash : Hash) : CsM (BlockHeader + StoreError) :=
  cached_get headerCache set_headerCache hash (fun db => GetBlockHeader db hash).

Definition cached_GetBlockTotalDifficulty (hash : Hash) : CsM (Z + StoreError) :=
  cached_get tdCache set_tdCache hash (fun db => GetBlockTotalDifficulty db hash).

Definition cached_GetBlock (hash : Hash) : CsM (Block + StoreError) :=
  cached_get blockCache set_blockCache hash (fun db => GetBlock db hash).

Definition cached_PutBlockHeader (hash : Hash) (header : BlockHeader) (td : Z) (isHead : bool) : CsM (option StoreError) :=
  err <- on_raw (PutBlockHeader hash header td isHead) ;;
  match err with
  | Some e => go_ret (Some e)
  | None =>
      go_modify (set_headerCache (fun cache => lru_Add cache hash header)) ;;;
      go_modify (set_tdCache (fun cache => lru_Add cache hash td)) ;;;
      (if isHead
       then go_modify (set_hashCache (fun cache => lru_Add cache (h_Height header) hash)) else go_ret tt) ;;;
      go_ret None
  end.

(** The cache of the blocks is not touched. *)
Definition cached_DeleteBlockHeader (hash : Hash) : CsM (option StoreError) :=
  header <- on_raw (db_read (fun db => GetBlockHeader db hash)) ;;
  match header with
  | inr err => go_ret (Some err)
  | inl header =>
      canonicalHash <- cached_GetBlockHash (h_Height header) ;;
      match canonicalHash with
      | inr err => go_ret (Some err)
      | inl canonicalHash =>
          (if bytes_eqb canonicalHash hash
           then go_modify (set_hashCache (fun cache => lru_Remove cache (h_Height header))) else go_ret tt) ;;;
          go_modify (set_headerCache (fun cache => lru_Remove cache hash)) ;;;
          go_modify (set_tdCache (fun cache => lru_Remove cache hash)) ;;;
          on_raw (DeleteBlockHeader hash) ;;;
          go_ret None
      end
  end.

Definition cached_HasBlock (hash : Hash) : CsM bool :=
  c <- go_get ;;
  if lru_Contains (headerCache c) hash then go_ret true
  else on_raw (db_read (fun db => HasBlock db hash)).

Definition cached_RecoverHeightToBlockMap (block : Block) : CsM unit :=
  on_raw (RecoverHeightToBlockMap block) ;;;
  go_modify (set_hashCache (fun cache => lru_Add cache (h_Height (b_Header block)) (b_HeaderHash block))).

Definition cached_PutBlock (block : Block) (td : Z) (isHead : bool) : CsM (option StoreError) :=
  err <- on_raw (PutBlock block td isHead) ;;
  match err with
  | Some e => go_ret (Some e)
  | None =>
      go_modify (set_headerCache (fun cache => lru_Add cache (b_HeaderHash block) (b_Header block))) ;;;
      go_modify (set_tdCache (fun cache => lru_Add cache (b_HeaderHash block) td)) ;;;
      go_modify (set_blockCache (fun cache => lru_Add cache (b_HeaderHash block) block)) ;;;
      (if isHead
       then go_modify (set_hashCache (fun cache => lru_Add cache (h_Height (b_Header block)) (b_HeaderHash block)))
       else go_ret tt) ;;;
      go_ret None
  end.

(** The caches are only touched when the header and the canonical hash at its height
    are found. *)
Definition cached_DeleteBlock (hash : Hash) : CsM (option StoreError) :=
  header <- on_raw (db_read (fun db => GetBlockHeader db hash)) ;;
  match header with
  | inr err => go_ret (Some err)
  | inl header =>
      canonicalHash <- cached_GetBlockHash (h_Height header) ;;
      match canonicalHash with
      | inr err => go_ret (Some err)
      | inl canonicalHash =>
          (if bytes_eqb canonicalHash hash
           then go_modify (set_hashCache (fun cache => lru_Remove cache (h_Height header))) else go_ret tt) ;;;
          go_modify (set_headerCache (fun cache => lru_Remove cache hash)) ;;;
          go_modify (set_tdCache (fun cache => lru_Remove cache hash)) ;;;
          go_modify (set_blockCache (fun cache => lru_Remove cache hash)) ;;;
          on_raw (DeleteBlock hash)
      end
  end.

Definition cached_blockchainStore : BlockchainStore cachedStore := {|
  store_open := NewCachedStore;
  store_db := cs_raw;
  bs_GetBlockHash := cached_GetBlockHash;
  bs_PutBlockHash := cached_PutBlockHash;
  bs_DeleteBlockHash := cached_DeleteBlockHash;
  bs_GetHeadBlockHash := on_raw (db_read GetHeadBlockHash);
  bs_PutHeadBlockHash hash := on_raw (PutHeadBlockHash hash);
  bs_GetBlockHeader := cached_GetBlockHeader;
  bs_PutBlockHeader := cached_PutBlockHeader;
  bs_DeleteBlockHeader := cached_DeleteBlockHeader;
  bs_GetBlockTotalDifficulty := cached_GetBlockTotalDifficulty;
  bs_PutBlock := cached_PutBlock;
  bs_GetBlock := cached_GetBlock;
  bs_HasBlock := cached_HasBlock;
  bs_DeleteBlock := cached_DeleteBlock;
  bs_GetBlockByHeight height := on_raw (db_read (fun db => GetBlockByHeight db height));
  bs_RecoverHeightToBlockMap := cached_RecoverHeightToBlockMap;
  bs_PutReceipts hash receipts := on_raw (PutReceipts hash receipts);
  bs_GetReceiptsByBlockHash hash := on_raw (db_read (fun db => GetReceiptsByBlockHash db hash));
  bs_GetReceiptByTxHash hash := on_raw (db_read (fun db => GetReceiptByTxHash db hash));
  bs_AddIndices block := on_raw (AddIndices block);
  bs_DeleteIndices block := on_raw (DeleteIndices block);
  bs_GetTxIndex hash := on_raw (db_read (fun db => GetTxIndex db hash));
  bs_GetDebtIndex hash := on_raw (db_read (fun db => GetDebtIndex db hash))
|}.
End cached.
