(* ===== verification/Merkle.v ===== *)
(** * Binary Merkle trees

    Models [merkle/derive_sha.go]: the root of a list of hashes and the proofs that the
    stem chain checks. A level with an odd number of hashes pairs its last one with
    itself. An index out of range is a panic, [None]. *)

From Stdlib Require Import ZArith Lia.
From S2P Require Import Prelude Common.

Open Scope Z_scope.

(** [crypto.Keccak256Hash] of its arguments, one after the other. *)
Class MerkleEnv := { Keccak256Hash : bytes -> Hash }.

Section merkle.
Context `{MerkleEnv}.
Implicit Types (level : list Hash) (h : Hash).

(** The loop that fills [nextlevel]. *)
Fixpoint next_level level : list Hash :=
  match level with
  | [] => []
  | [a] => [Keccak256Hash (a ++ a)]
  | a :: b :: level' => Keccak256Hash (a ++ b) :: next_level level'
  end.

Fixpoint binary_root (fuel : nat) level : Hash :=
  match fuel, level with
  | _, [] => EmptyHash
  | _, [root] => root
  | O, root :: _ => root
  | S fuel', _ => binary_root fuel' (next_level level)
  end.

(** A level is shorter than the one below. *)
Definition GetBinaryMerkleRoot level : Hash := binary_root (length level) level.

(** The levels below the root: the first loop of [GetMerkleProof]. *)
Fixpoint levels_from (fuel : nat) level : list (list Hash) :=
  match fuel with
  | O => []
  | S fuel' => if (1 <? length level)%nat then level :: levels_from fuel' (next_level level) else []
  end.

Definition at_index (level : list Hash) (i : Z) : option Hash := if i <? 0 then None else level !! Z.to_nat i.

(** The second loop. *)
Fixpoint proof_walk (levels : list (list Hash)) (nodeIndex : Z) : option (list Hash) :=
  match levels with
  | [] => Some []
  | level :: levels' =>
      let siblingIndex :=
        if Z.rem nodeIndex 2 =? 0 then
          if Z.of_nat (length level) =? nodeIndex + 1 then nodeIndex else nodeIndex + 1
        else nodeIndex - 1 in
      match at_index level siblingIndex with
      | None => None
      | Some sibling => option_map (cons sibling) (proof_walk levels' (Z.quot nodeIndex 2))
      end
  end.

Definition GetMerkleProof leafLevel (index : Z) : option (list Hash) :=
  if (length leafLevel =? 1)%nat then Some []
  else proof_walk (levels_from (length leafLevel) leafLevel) index.

(** What a proof shows: the root above a leaf at an index, the way the stem contract
    goes up. *)
Fixpoint root_above h (index : nat) (proof : list Hash) : Hash :=
  match proof with
  | [] => h
  | sibling :: proof' =>
      root_above (Keccak256Hash (if Nat.even index then h ++ sibling else sibling ++ h)) (Nat.div2 index) proof'
  end.

(** ** Levels *)

Lemma length_next_level level : length (next_level level) = Nat.div2 (S (length level)).
Proof.
  remember (length level) as n eqn:Hn. revert level Hn. induction n as [n IH] using lt_wf_ind. intros [|a [|b level]] ->; [done..|].
  cbn. f_equal. rewrite (IH (length level)) by (cbn; lia || done). done.
Qed.

Lemma next_level_shorter level : (1 < length level)%nat -> (0 < length (next_level level) < length level)%nat.
Proof.
  rewrite length_next_level. intros Hl. pose proof (Nat.div2_odd (S (length level))). destruct (Nat.odd _); cbn [Nat.b2n] in *; lia.
Qed.

(** The node above a pair. *)
Lemma next_level_lookup level k :
  next_level level !! k = match level !! (2 * k)%nat with
                          | None => None
                          | Some a => Some (Keccak256Hash (a ++ default a (level !! (2 * k + 1)%nat)))
                          end.
Proof.
  revert level. induction k as [|k IH]; intros [|a [|b level]]; [done..|]; replace (2 * S k)%nat with (S (S (2 * k))) by lia; [done..|].
  change (next_level (a :: b :: level) !! S k) with (next_level level !! k). by rewrite IH.
Qed.

Lemma binary_root_step fuel level : (length level <= S fuel)%nat -> (1 < length level)%nat ->
  binary_root (S fuel) level = binary_root fuel (next_level level).
Proof. intros Hf Hl. by destruct level as [|a [|b level]]; cbn in Hl; [lia..|]. Qed.

Lemma binary_root_enough fuel fuel' level : (length level <= fuel)%nat -> (length level <= fuel')%nat ->
  binary_root fuel level = binary_root fuel' level.
Proof.
  revert fuel' level. induction fuel as [|fuel IH]; intros fuel' level Hf Hf'; [destruct level; [by destruct fuel'|cbn in Hf; lia]|].
  destruct (decide (1 < length level)%nat) as [Hl|Hl].
  - destruct fuel' as [|fuel']; [lia|]. rewrite !binary_root_step by lia. pose proof (next_level_shorter level Hl). apply IH; lia.
  - destruct level as [|a [|b level]]; [by destruct fuel'..|]. cbn in Hl. lia.
Qed.

Lemma root_step level : (1 < length level)%nat -> GetBinaryMerkleRoot level = GetBinaryMerkleRoot (next_level level).
Proof.
  intros Hl. unfold GetBinaryMerkleRoot. pose proof (next_level_shorter level Hl). destruct (length level) as [|n] eqn:E; [lia|].
  rewrite binary_root_step by lia. apply binary_root_enough; lia.
Qed.

Lemma levels_enough fuel fuel' level : (length level <= fuel)%nat -> (length level <= fuel')%nat ->
  levels_from fuel level = levels_from fuel' level.
Proof.
  revert fuel' level. induction fuel as [|fuel IH]; intros fuel' level Hf Hf'.
  - destruct level; [by destruct fuel'|cbn in Hf; lia].
  - destruct fuel' as [|fuel']; [destruct level; [done|cbn in Hf'; lia]|]. cbn [levels_from]. destruct (Nat.ltb_spec 1 (length level)) as [Hl|]; [|done].
    pose proof (next_level_shorter level Hl). f_equal. apply IH; lia.
Qed.

(** The levels below the root. *)
Definition levels level : list (list Hash) := levels_from (length level) level.

Lemma levels_step level : (1 < length level)%nat -> levels level = level :: levels (next_level level).
Proof.
  intros Hl. pose proof (next_level_shorter level Hl). unfold levels at 1. destruct (length level) as [|n] eqn:E; [lia|].
  cbn [levels_from]. rewrite E, (proj2 (Nat.ltb_lt 1 (S n))) by lia. f_equal. apply levels_enough; lia.
Qed.

Lemma levels_short level : (length level <= 1)%nat -> levels level = [].
Proof. intros Hl. unfold levels. by destruct level as [|a [|b level]]; cbn in Hl; [..|lia]. Qed.

(** The shape of a list of hashes: empty, a root, or a level above it. *)
Lemma level_ind (P : list Hash -> Prop) :
  P [] -> (forall h, P [h]) -> (forall level, (1 < length level)%nat -> P (next_level level) -> P level) -> forall level, P level.
Proof.
  intros H0 H1 Hs level. remember (length level) as n eqn:Hn. revert level Hn. induction n as [n IH] using lt_wf_ind.
  intros [|a [|b level]] ->; [done..|]. apply Hs; [cbn; lia|]. eapply IH; [|done]. apply next_level_shorter. cbn. lia.
Qed.

(** ** Proofs *)

(** The sibling of a node in its level. *)
Definition sibling level (i : nat) : option Hash :=
  if Nat.even i then match level !! S i with Some h => Some h | None => level !! i end else level !! (i - 1)%nat.

Lemma walk_sibling level levels' (i : nat) : (i < length level)%nat ->
  proof_walk (level :: levels') (Z.of_nat i)
  = match sibling level i with
    | None => None
    | Some s => option_map (cons s) (proof_walk levels' (Z.of_nat (Nat.div2 i)))
    end.
Proof.
  intros Hi. cbn [proof_walk]. unfold sibling, at_index.
  assert (Hq : Z.quot (Z.of_nat i) 2 = Z.of_nat (Nat.div2 i)) by (rewrite Nat.div2_div, Nat2Z.inj_div, Z.quot_div_nonneg by lia; done).
  assert (Hr : (Z.rem (Z.of_nat i) 2 =? 0) = Nat.even i).
  { destruct (Nat.even i) eqn:He.
    - apply Nat.even_spec in He as [k ->]. apply Z.eqb_eq. Z.to_euclidean_division_equations. lia.
    - rewrite <-Nat.negb_odd in He. apply negb_false_iff, Nat.odd_spec in He as [k ->]. apply Z.eqb_neq.
      Z.to_euclidean_division_equations. lia. }
  rewrite Hq, Hr. destruct (Nat.even i) eqn:He.
  - destruct (Z.eqb_spec (Z.of_nat (length level)) (Z.of_nat i + 1)) as [E|E].
    + rewrite (proj2 (Z.ltb_ge _ _)) by lia. rewrite Nat2Z.id, (lookup_ge_None_2 level (S i)) by lia. done.
    + rewrite (proj2 (Z.ltb_ge _ _)) by lia. replace (Z.to_nat (Z.of_nat i + 1)) with (S i) by lia.
      destruct (lookup_lt_is_Some_2 level (S i)) as [h ->]; [lia|]. done.
  - destruct i as [|i]; [done|]. rewrite (proj2 (Z.ltb_ge _ _)) by lia. by replace (Z.to_nat (Z.of_nat (S i) - 1)) with (S i - 1)%nat by lia.
Qed.

Lemma even_half i : Nat.even i = true -> (2 * Nat.div2 i)%nat = i.
Proof. intros He. pose proof (Nat.div2_odd i). rewrite <-Nat.negb_even, He in *. cbn [negb Nat.b2n] in *. lia. Qed.

Lemma odd_half i : Nat.even i = false -> (2 * Nat.div2 i + 1)%nat = i.
Proof. intros He. pose proof (Nat.div2_odd i). rewrite <-Nat.negb_even, He in *. cbn [negb Nat.b2n] in *. lia. Qed.

(** The node above a node and its sibling. *)
Lemma above_sibling level i h : level !! i = Some h ->
  exists s, sibling level i = Some s /\
    next_level level !! Nat.div2 i = Some (Keccak256Hash (if Nat.even i then h ++ s else s ++ h)).
Proof.
  intros Hi. rewrite next_level_lookup. unfold sibling. destruct (Nat.even i) eqn:He.
  - rewrite even_half, Hi by done. replace (i + 1)%nat with (S i) by lia. destruct (level !! S i) as [s|] eqn:Hs; eauto.
  - pose proof (odd_half i He) as Ho. pose proof (lookup_lt_Some _ _ _ Hi).
    destruct (lookup_lt_is_Some_2 level (2 * Nat.div2 i)%nat) as [s Hs]; [lia|]. rewrite Hs, Ho, Hi. exists s. split; [|done].
    replace (i - 1)%nat with (2 * Nat.div2 i)%nat by lia. done.
Qed.

Lemma div2_bound level i : (1 < length level)%nat -> (i < length level)%nat -> (Nat.div2 i < length (next_level level))%nat.
Proof.
  intros Hl Hi. destruct (lookup_lt_is_Some_2 level i Hi) as [h Hh]. destruct (above_sibling level i h Hh) as (s & _ & Hn).
  by apply lookup_lt_Some in Hn.
Qed.

(** The proof of every index verifies. *)
Lemma walk_verifies level : forall i h, level !! i = Some h ->
  exists proof, proof_walk (levels level) (Z.of_nat i) = Some proof /\ root_above h i proof = GetBinaryMerkleRoot level.
Proof.
  induction level as [|x|level Hl IH] using level_ind; intros i h Hi.
  - done.
  - destruct i as [|i]; [|done]. injection Hi as <-. exists []. done.
  - pose proof (lookup_lt_Some _ _ _ Hi) as Hlt. destruct (above_sibling level i h Hi) as (s & Hs & Hn).
    destruct (IH _ _ Hn) as (proof & Hp & Hr). exists (s :: proof).
    rewrite levels_step, walk_sibling, Hs, Hp, root_step by done. done.
Qed.

Lemma GetMerkleProof_walk level i : GetMerkleProof level i = proof_walk (levels level) i.
Proof.
  unfold GetMerkleProof. destruct (Nat.eqb_spec (length level) 1) as [E|]; [|done]. by rewrite levels_short by lia.
Qed.

(** Every leaf has a proof: for every index of a list of hashes,
    GetMerkleProof returns a proof, and going up from the hash at that index
    with it gives the Merkle root of the list. *)
Theorem merkle_proof_complete level i h :
  level !! i = Some h ->
  exists proof, GetMerkleProof level (Z.of_nat i) = Some proof /\ root_above h i proof = GetBinaryMerkleRoot level.
Proof. intros Hi. rewrite GetMerkleProof_walk. by apply walk_verifies. Qed.

(** An odd level has the root of the level in which its last hash is repeated. *)
Lemma next_level_odd level h : Nat.even (length level) = true -> next_level (level ++ [h]) = next_level (level ++ [h; h]).
Proof.
  remember (length level) as n eqn:Hn. revert level Hn. induction n as [n IH] using lt_wf_ind. intros [|a [|b level]] -> He; [done..|].
  cbn. f_equal. cbn in He. eapply IH; [|done|done]. cbn. lia.
Qed.

Lemma root_repeated level h : level <> [] -> Nat.even (length level) = true ->
  GetBinaryMerkleRoot (level ++ [h]) = GetBinaryMerkleRoot (level ++ [h; h]).
Proof.
  intros Hne He. destruct level as [|a level]; [done|].
  rewrite (root_step (_ ++ [h])), (root_step (_ ++ [h; h])) by (rewrite length_app; cbn; lia).
  f_equal. by apply (next_level_odd (a :: level)).
Qed.
End merkle.

(** What the hash function is relied on for: hashes of 32 bytes, and no collision among
    pairs of hashes. *)
Class MerkleLaws `{MerkleEnv} := {
  Keccak256Hash_length b : length (Keccak256Hash b) = HashLength;
  Keccak256Hash_inj a b : length a = (2 * HashLength)%nat -> length b = (2 * HashLength)%nat ->
    Keccak256Hash a = Keccak256Hash b -> a = b
}.

Section sound.
Context `{MerkleLaws}.
Implicit Types (level : list Hash) (h : Hash).

Definition hashes level : Prop := Forall (fun h => length h = HashLength) level.

Lemma next_level_hashes level : hashes (next_level level).
Proof.
  apply Forall_lookup. intros k h. rewrite next_level_lookup. destruct (level !! (2 * k)%nat); [|done].
  intros [= <-]. apply Keccak256Hash_length.
Qed.

Lemma pair_inj (even : bool) h s h' s' :
  length h = HashLength -> length s = HashLength -> length h' = HashLength -> length s' = HashLength ->
  Keccak256Hash (if even then h ++ s else s ++ h) = Keccak256Hash (if even then h' ++ s' else s' ++ h') -> h = h' /\ s = s'.
Proof.
  intros Hh Hs Hh' Hs' E. apply Keccak256Hash_inj in E; [|destruct even; rewrite length_app; lia..].
  destruct even; (apply app_inj_1 in E; [|congruence]); naive_solver.
Qed.

Lemma hashes_lookup level i h : hashes level -> level !! i = Some h -> length h = HashLength.
Proof. intros Hl Hi. exact (Forall_lookup_1 _ _ _ _ Hl Hi). Qed.

Lemma sibling_hash level i s : hashes level -> sibling level i = Some s -> length s = HashLength.
Proof.
  intros Hl. unfold sibling. destruct (Nat.even i); [destruct (level !! S i) as [x|] eqn:E1; [intros [= <-]|]|];
    intros; by eapply hashes_lookup.
Qed.

(** A proof that verifies is the proof, of the leaf that is there. *)
Lemma root_above_unique level : hashes level -> forall i h proof,
  (i < length level)%nat -> length h = HashLength -> hashes proof -> length proof = length (levels level) ->
  root_above h i proof = GetBinaryMerkleRoot level ->
  level !! i = Some h /\ GetMerkleProof level (Z.of_nat i) = Some proof.
Proof.
  intros Hlv. setoid_rewrite GetMerkleProof_walk.
  induction level as [|x|level Hl IH] using level_ind; intros i h proof Hi Hh Hp Hlen Hr.
  - cbn in Hi. lia.
  - destruct i as [|i]; [|cbn in Hi; lia]. rewrite levels_short in * by (cbn; lia). destruct proof; [|done]. cbn in Hr. by subst.
  - rewrite levels_step in Hlen |- * by done. destruct proof as [|s proof]; [done|]. apply Forall_cons in Hp as [Hs Hp].
    destruct (lookup_lt_is_Some_2 level i Hi) as [h0 Hh0]. destruct (above_sibling level i h0 Hh0) as (s0 & Hs0 & Hn).
    cbn in Hr, Hlen. rewrite root_step in Hr by done.
    destruct (IH (next_level_hashes level) (Nat.div2 i) (Keccak256Hash (if Nat.even i then h ++ s else s ++ h)) proof) as [Hn' Hw];
      [by apply div2_bound|apply Keccak256Hash_length|done|lia|done|]. rewrite Hn in Hn'. injection Hn' as E.
    pose proof (sibling_hash level i s0 Hlv Hs0) as Hls.
    assert (Hl0 : length h0 = HashLength) by (by apply (hashes_lookup level i)).
    apply pair_inj in E as [<- <-]; [|done..].
    split; [done|]. by rewrite walk_sibling, Hs0, Hw by done.
Qed.

(** C24: A proof cannot lie: without collisions of the hash function, a proof of
    the length of the tree that leads from a hash at an index of the list up
    to the Merkle root shows that this very hash is at that index, and it is
    the proof that GetMerkleProof makes. *)
Theorem merkle_proof_sound level i h proof :
  hashes level -> (i < length level)%nat -> length h = HashLength -> hashes proof -> length proof = length (levels level) ->
  root_above h i proof = GetBinaryMerkleRoot level ->
  level !! i = Some h /\ GetMerkleProof level (Z.of_nat i) = Some proof.
Proof. intros Hl. by apply root_above_unique. Qed.

(** The root determines a list of a known length. *)
Lemma root_inj level : hashes level -> forall level', hashes level' -> length level' = length level ->
  GetBinaryMerkleRoot level = GetBinaryMerkleRoot level' -> level = level'.
Proof.
  intros Hlv. induction level as [|x|level Hl IH] using level_ind; intros level' Hlv' Hlen Hr.
  - by destruct level'.
  - destruct level' as [|y [|]]; [done| |done]. cbn in Hr. by subst.
  - rewrite (root_step level), (root_step level') in Hr by lia. assert (E : next_level level = next_level level').
    { apply IH; [apply next_level_hashes..| |done]. by rewrite !length_next_level, Hlen. }
    apply list_eq. intros i. destruct (level !! i) as [h|] eqn:Hi.
    + pose proof (lookup_lt_Some _ _ _ Hi). destruct (lookup_lt_is_Some_2 level' i) as [h' Hi']; [lia|].
      destruct (above_sibling level i h Hi) as (s & Hs & Hn). destruct (above_sibling level' i h' Hi') as (s' & Hs' & Hn').
      rewrite E, Hn' in Hn. injection Hn as Hk. rewrite Hi'. f_equal.
      apply pair_inj in Hk as [-> _]; eauto using hashes_lookup, sibling_hash.
    + apply lookup_ge_None in Hi. symmetry. apply lookup_ge_None. lia.
Qed.
End sound.

(** ** Examples *)

(** A hash without collisions. *)
#[export] Instance ex_merkle : MerkleEnv := {| Keccak256Hash b := Zpos (encode b) :: repeat 0 31 |}.

#[export] Instance ex_merkle_laws : MerkleLaws.
Proof. split; [done|]. intros a b _ _ E. cbn in E. injection E as E. by apply (inj encode). Qed.

Definition ex_leaf (n : Z) : Hash := n :: repeat 0 31.

Definition ex_level : list Hash := [ex_leaf 1; ex_leaf 2; ex_leaf 3].

Lemma ex_level_hashes : hashes ex_level.
Proof. by repeat constructor. Qed.

Lemma merkle_proof_complete_witness : ex_level !! 2%nat = Some (ex_leaf 3) /\
  exists proof, GetMerkleProof ex_level 2 = Some proof /\ root_above (ex_leaf 3) 2 proof = GetBinaryMerkleRoot ex_level.
Proof. split; [reflexivity|]. apply (merkle_proof_complete ex_level 2 (ex_leaf 3)). reflexivity. Defined.

Definition ex_proof : list Hash := [ex_leaf 3; Keccak256Hash (ex_leaf 1 ++ ex_leaf 2)].

Lemma merkle_proof_sound_witness :
  ex_level !! 2%nat = Some (ex_leaf 3) /\ GetMerkleProof ex_level 2 = Some ex_proof.
Proof.
  apply (merkle_proof_sound ex_level 2 (ex_leaf 3) ex_proof).
  - exact ex_level_hashes.
  - cbn. lia.
  - reflexivity.
  - by repeat constructor.
  - reflexivity.
  - reflexivity.
Defined.
