(* ===== verification/ChainLaws.v ===== *)
(** * What a store promises to the chain

    The keys of the database do not clash, so that every write of a store is a change
    of the entries it names. [StoreLaws] is what the chain relies on: a store does to
    its database what [blockchainDatabase] does. Both stores keep it; the caches of
    [cached_store.go] never answer differently from the database behind them. *)

From Stdlib Require Import ZArith Lia.
From S2P Require Import Prelude Common BftHeader StateDb Svm EvmWord EvmStore Trie TrieCommit ChainStore.

Open Scope Z_scope.
Open Scope go_scope.

(** ** Keys *)

Lemma heightToHashKey_inj n m : is_u64 n -> is_u64 m -> heightToHashKey n = heightToHashKey m -> n = m.
Proof.
  unfold heightToHashKey, encodeBlockHeight, is_u64. intros Hn Hm He.
  apply (f_equal tail), (f_equal SetBytes) in He. cbn [tail] in He. rewrite !SetBytes_be_bytes in He.
  change (256 ^ Z.of_nat 8) with (2 ^ 64) in He. by rewrite !Z.mod_small in He by done.
Qed.

(** The entries of transactions and debts. *)
Definition index_key (k : bytes) : bool := match k with b :: _ => (b =? 105) || (b =? 100) | [] => false end.

Lemma head_key_height n : keyHeadBlockHash <> heightToHashKey n.
Proof.
  intros He. apply (f_equal length) in He. unfold heightToHashKey, encodeBlockHeight in He.
  cbn [length] in He. rewrite be_bytes_length in He. done.
Qed.

#[export] Hint Resolve head_key_height : seele.

(** Two databases that differ in the indices only. *)
Definition same_but_indices (db db' : Db) : Prop := forall k, index_key k = false -> db' !! k = db !! k.

#[export] Instance same_but_indices_refl : Reflexive same_but_indices.
Proof. by intros db k Hk. Qed.

#[export] Instance same_but_indices_trans : Transitive same_but_indices.
Proof. intros a b c Hab Hbc k Hk. by rewrite Hbc, Hab. Qed.

Lemma apply_index_batch db batch :
  Forall (fun op : bytes * option bytes => index_key op.1 = true) batch -> same_but_indices db (apply_batch db batch).
Proof.
  revert db. induction batch as [|[k v] batch IH]; intros db Hb; [by intros k Hk|]. inv Hb.
  etransitivity; [|by apply IH]. intros k' Hk'. unfold apply_op. cbn [fst snd] in *.
  assert (k <> k') by (intros ->; congruence).
  destruct v; [by rewrite lookup_insert_ne|by rewrite lookup_delete_ne].
Qed.

Lemma apply_batch_app db a b : apply_batch db (a ++ b) = apply_batch (apply_batch db a) b.
Proof. apply foldl_app. Qed.

#[export] Instance apply_batch_proper : Proper (same_but_indices ==> eq ==> same_but_indices) apply_batch.
Proof.
  intros db db' Hdb batch ? <-. revert db db' Hdb. induction batch as [|[k v] batch IH]; intros db db' Hdb; [done|].
  apply IH. intros k' Hk'. unfold apply_op. cbn [fst snd].
  destruct v; [|by rewrite !lookup_delete, Hdb by done].
  destruct (decide (k = k')) as [->|]; [by rewrite !lookup_insert_eq|by rewrite !lookup_insert_ne, Hdb].
Qed.

(** A header with a hash, and without a nil number. *)
Definition storable_header (h : Hash) (hd : BlockHeader) : Prop :=
  length h = HashLength /\ is_u64 (h_Height hd) /\ Clone hd = hd.

(** A block that was validated. *)
Definition storable (b : Block) : Prop := storable_header (b_HeaderHash b) (b_Header b).

(** ** The database *)

Section raw.
Context `{StoreCodec}.

Lemma batchAddIndices_keys hash txs debts :
  Forall (fun op : bytes * option bytes => index_key op.1 = true) (batchAddIndices hash txs debts).
Proof.
  unfold batchAddIndices. apply Forall_app.
  split; apply Forall_lookup; intros i op; rewrite list_lookup_imap; destruct (_ !! i); [|done| |done]; by intros [= <-].
Qed.

Lemma batchDeleteDebts_keys db hash debts :
  Forall (fun op : bytes * option bytes => index_key op.1 = true) (batchDeleteDebts db hash debts).1.
Proof.
  induction debts as [|d debts IH]; cbn; [done|]. destruct (GetDebtIndex db (d_Hash d)); [|done].
  destruct (batchDeleteDebts db hash debts) as [batch err]. apply Forall_app. split; [by case_match; repeat constructor|done].
Qed.

Lemma batchDeleteIndices_keys db hash txs debts :
  Forall (fun op : bytes * option bytes => index_key op.1 = true) (batchDeleteIndices db hash txs debts).1.
Proof.
  unfold batchDeleteIndices. pose proof (batchDeleteDebts_keys db hash debts) as Hd.
  destruct (batchDeleteDebts db hash debts) as [batch err]. apply Forall_app. split; [|done].
  unfold batchDeleteTxs. apply Forall_flat_map, Forall_forall. intros tx _.
  repeat (case_match; try done). by repeat constructor.
Qed.

Lemma batchDeleteIndices_no_debts db hash txs : (batchDeleteIndices db hash txs []).2 = None.
Proof. done. Qed.

(** What [PutBlock] leaves, the indices aside. *)
Definition put_entries (b : Block) (hb tb bb : bytes) (db : Db) : Db :=
  <[keyHeadBlockHash := b_HeaderHash b]> (<[heightToHashKey (h_Height (b_Header b)) := b_HeaderHash b]>
  (<[hashToBodyKey (b_HeaderHash b) := bb]> (<[hashToTDKey (b_HeaderHash b) := tb]>
  (<[hashToHeaderKey (b_HeaderHash b) := hb]> db)))).

Lemma wp_PutBlock (b : Block) (td : Z) (db : Db) (hb tb bb : bytes) (Q : option StoreError -> Db -> list Db -> Prop) :
  enc_header (b_Header b) = Some hb -> enc_td td = Some tb ->
  enc_body (mkBody (b_Transactions b) (b_Debts b)) = Some bb ->
  (forall old, GetBlockHash db (h_Height (b_Header b)) = inl old -> exists ob, GetBlock db old = inl ob) ->
  (forall db', same_but_indices (put_entries b hb tb bb db) db' -> Q None db' [db']) ->
  wp (PutBlock b td true) db Q.
Proof.
  intros Hh Ht Hb Hold HQ. unfold PutBlock, putBlockInternal. rewrite Hh, Ht, Hb.
  repeat (first [apply wp_bind|apply wp_ret|apply wp_get|(eapply wp_deref; [reflexivity|])]; cbn beta iota).
  assert (Hops : exists del, head_batch db (b_HeaderHash b) (b_Header b) (Some (mkBody (b_Transactions b) (b_Debts b)))
      = inl (del ++ batchAddIndices (b_HeaderHash b) (b_Transactions b) (b_Debts b)
             ++ [(heightToHashKey (h_Height (b_Header b)), Some (b_HeaderHash b)); (keyHeadBlockHash, Some (b_HeaderHash b))])
      /\ Forall (fun op : bytes * option bytes => index_key op.1 = true) del).
  { unfold head_batch. destruct (GetBlockHash db (h_Height (b_Header b))) as [old|[]] eqn:Hget;
      [destruct (Hold old eq_refl) as [ob ->]; eexists; split; [reflexivity|apply batchDeleteIndices_keys]
      |by exists []
      |exfalso; revert Hget; unfold GetBlockHash; case_match; congruence..]. }
  destruct Hops as (del & -> & Hdel). apply wp_bind. unfold batch_Commit, db_write, wp at 1. cbn beta iota.
  apply wp_ret. cbn [app]. apply HQ.
  change ((hashToHeaderKey (b_HeaderHash b), Some hb) :: _)
    with ([(hashToHeaderKey (b_HeaderHash b), Some hb); (hashToTDKey (b_HeaderHash b), Some tb);
           (hashToBodyKey (b_HeaderHash b), Some bb)]
          ++ (del ++ batchAddIndices (b_HeaderHash b) (b_Transactions b) (b_Debts b)
              ++ [(heightToHashKey (h_Height (b_Header b)), Some (b_HeaderHash b));
                  (keyHeadBlockHash, Some (b_HeaderHash b))])).
  rewrite app_assoc with (l := del), !apply_batch_app. unfold put_entries.
  change (same_but_indices (apply_batch (apply_batch db [(hashToHeaderKey (b_HeaderHash b), Some hb);
      (hashToTDKey (b_HeaderHash b), Some tb); (hashToBodyKey (b_HeaderHash b), Some bb)])
      [(heightToHashKey (h_Height (b_Header b)), Some (b_HeaderHash b)); (keyHeadBlockHash, Some (b_HeaderHash b))])
    (apply_batch (apply_batch (apply_batch (apply_batch db [(hashToHeaderKey (b_HeaderHash b), Some hb);
      (hashToTDKey (b_HeaderHash b), Some tb); (hashToBodyKey (b_HeaderHash b), Some bb)]) del)
      (batchAddIndices (b_HeaderHash b) (b_Transactions b) (b_Debts b)))
      [(heightToHashKey (h_Height (b_Header b)), Some (b_HeaderHash b)); (keyHeadBlockHash, Some (b_HeaderHash b))])).
  apply apply_batch_proper; [|done]. etransitivity; apply apply_index_batch; [done|apply batchAddIndices_keys].
Qed.

(** Every outcome of [PutBlock]: the entries are written, or nothing is. *)
Lemma PutBlock_outcome b td db r db' o :
  PutBlock b td true db = Some (r, db', o) ->
  (r = None /\ o = [db'] /\ exists hb tb bb, enc_header (b_Header b) = Some hb /\ enc_td td = Some tb
     /\ enc_body (mkBody (b_Transactions b) (b_Debts b)) = Some bb
     /\ same_but_indices (put_entries b hb tb bb db) db')
  \/ (is_Some r /\ db' = db /\ o = []).
Proof.
  intros Hrun.
  destruct (enc_header (b_Header b)) as [hb|] eqn:Hh;
    [|exfalso; revert Hrun; unfold PutBlock, putBlockInternal, go_bind, go_deref, go_panic; by rewrite Hh].
  destruct (enc_td td) as [tb|] eqn:Ht;
    [|exfalso; revert Hrun; unfold PutBlock, putBlockInternal, go_bind, go_deref, go_panic, go_ret; by rewrite Hh, Ht].
  destruct (enc_body (mkBody (b_Transactions b) (b_Debts b))) as [bb|] eqn:Hb;
    [|exfalso; revert Hrun; unfold PutBlock, putBlockInternal, go_bind, go_deref, go_panic, go_ret; by rewrite Hh, Ht, Hb].
  assert (Hw : (forall old, GetBlockHash db (h_Height (b_Header b)) = inl old -> exists ob, GetBlock db old = inl ob) ->
    r = None /\ o = [db'] /\ same_but_indices (put_entries b hb tb bb db) db').
  { intros Hold. eapply (wp_run _ _ (fun r db' o => r = None /\ o = [db'] /\ same_but_indices (put_entries b hb tb bb db) db'));
      [|exact Hrun]. by eapply wp_PutBlock. }
  destruct (GetBlockHash db (h_Height (b_Header b))) as [old|e] eqn:Hold.
  - destruct (GetBlock db old) as [ob|e] eqn:Hob.
    + left. destruct Hw as (-> & -> & Hs); [intros ? [= <-]; by eexists|]. eauto 10.
    + right. revert Hrun. unfold PutBlock, putBlockInternal, go_bind, go_deref, go_get, go_ret.
      rewrite Hh, Ht, Hb. unfold head_batch. rewrite Hold, Hob. intros [= <- <- <-]. eauto.
  - left. destruct Hw as (-> & -> & Hs); [done|]. eauto 10.
Qed.

(** What is written for a block or a header, the indices aside. *)
Definition put_batch (hash : Hash) (header : BlockHeader) (hb tb : bytes) (bb : option bytes) (isHead : bool) : Batch :=
  [(hashToHeaderKey hash, Some hb); (hashToTDKey hash, Some tb)]
  ++ match bb with Some bb => [(hashToBodyKey hash, Some bb)] | None => [] end
  ++ (if isHead then [(heightToHashKey (h_Height header), Some hash); (keyHeadBlockHash, Some hash)] else []).

Lemma head_batch_shape db hash header body ops : head_batch db hash header body = inl ops ->
  exists del, ops = del ++ [(heightToHashKey (h_Height header), Some hash); (keyHeadBlockHash, Some hash)]
    /\ Forall (fun op : bytes * option bytes => index_key op.1 = true) del.
Proof.
  unfold head_batch. set (new := match body with Some b => _ | None => [] end).
  assert (Hnew : Forall (fun op : bytes * option bytes => index_key op.1 = true) new)
    by (unfold new; destruct body; [apply batchAddIndices_keys|constructor]).
  destruct (GetBlockHash db (h_Height header)) as [old|[]]; try done; [|intros [= <-]; by exists new].
  destruct (GetBlock db old) as [ob|]; [|done]. intros [= <-]. eexists (_ ++ new). rewrite <-app_assoc. split; [reflexivity|].
  apply Forall_app. split; [apply batchDeleteIndices_keys|done].
Qed.

Lemma index_between db base del tail : Forall (fun op : bytes * option bytes => index_key op.1 = true) del ->
  same_but_indices (apply_batch db (base ++ tail)) (apply_batch db (base ++ del ++ tail)).
Proof. intros Hdel. rewrite !apply_batch_app. apply apply_batch_proper; [|done]. by apply apply_index_batch. Qed.

(** Every outcome of [putBlockInternal]: the entries are written, or nothing is. *)
Lemma putBlockInternal_outcome hash header body td isHead db r db' o :
  putBlockInternal hash header body td isHead db = Some (r, db', o) ->
  (r = None /\ o = [db'] /\ exists hb tb bb, enc_header header = Some hb /\ enc_td td = Some tb
     /\ match body with Some x => enc_body x = bb /\ is_Some bb | None => bb = None end
     /\ same_but_indices (apply_batch db (put_batch hash header hb tb bb isHead)) db')
  \/ (is_Some r /\ db' = db /\ o = []).
Proof.
  unfold putBlockInternal, go_bind, go_deref, go_get, go_ret, go_panic, batch_Commit, db_write.
  destruct (enc_header header) as [hb|] eqn:Hh; [|done]. destruct (enc_td td) as [tb|] eqn:Ht; [|done].
  assert (Hbody : forall bb, match body with Some x => enc_body x = bb /\ is_Some bb | None => bb = None end ->
    same_but_indices (apply_batch db (put_batch hash header hb tb bb isHead)) db' -> exists hb' tb' bb', Some hb = Some hb' /\ Some tb = Some tb'
     /\ match body with Some x => enc_body x = bb' /\ is_Some bb' | None => bb' = None end
     /\ same_but_indices (apply_batch db (put_batch hash header hb' tb' bb' isHead)) db') by naive_solver.
  destruct body as [x|]; [destruct (enc_body x) as [bb|] eqn:Hx; [|done]|];
    (destruct isHead; [destruct (head_batch db hash header _) as [ops|e] eqn:Hops|]); intros [= <- <- <-]; try (right; by eauto); left;
    (split; [done|]; split; [done|]); (first [apply (Hbody (Some bb)); [by split; [|eexists]|]|apply (Hbody None); [done|]]);
    try (apply head_batch_shape in Hops as (del & -> & Hdel)).
  - exact (index_between db [(hashToHeaderKey hash, Some hb); (hashToTDKey hash, Some tb); (hashToBodyKey hash, Some bb)] _ _ Hdel).
  - done.
  - exact (index_between db [(hashToHeaderKey hash, Some hb); (hashToTDKey hash, Some tb)] _ _ Hdel).
  - done.
Qed.

(** What was written can be read. *)
Lemma put_batch_read `{!StoreCodecLaws} hash header hb tb bb isHead db db' td :
  storable_header hash header -> enc_header header = Some hb -> enc_td td = Some tb ->
  same_but_indices (apply_batch db (put_batch hash header hb tb bb isHead)) db' ->
  GetBlockHeader db' hash = inl header /\ GetBlockTotalDifficulty db' hash = inl td
  /\ (isHead = true -> GetBlockHash db' (h_Height header) = inl hash)
  /\ db' !! hashToBodyKey hash = match bb with Some bb => Some bb | None => db !! hashToBodyKey hash end.
Proof.
  intros (Hlen & Hu & Hclone) Hh Ht Hs.
  unfold GetBlockHeader, GetBlockTotalDifficulty, GetBlockHash. rewrite !Hs by done.
  unfold put_batch, apply_batch, apply_op.
  destruct bb, isHead; cbn [foldl app fst snd];
    repeat first [rewrite lookup_insert_eq|rewrite lookup_insert_ne by (done || apply head_key_height)];
    cbn [read_with]; rewrite (dec_enc_header _ _ Hh), Hclone, (dec_enc_td _ _ Ht), ?BytesToHash_hash by done; done.
Qed.

Lemma put_batch_others hash header hb tb bb isHead db db' :
  is_u64 (h_Height header) -> same_but_indices (apply_batch db (put_batch hash header hb tb bb isHead)) db' ->
  (forall h, h <> hash -> db' !! hashToHeaderKey h = db !! hashToHeaderKey h
     /\ db' !! hashToTDKey h = db !! hashToTDKey h /\ db' !! hashToBodyKey h = db !! hashToBodyKey h)
  /\ forall n, is_u64 n -> (isHead = true -> n <> h_Height header) -> db' !! heightToHashKey n = db !! heightToHashKey n.
Proof.
  intros Hu Hs. split.
  - intros h Hne. rewrite !Hs by done. unfold put_batch, apply_batch, apply_op.
    destruct bb, isHead; cbn; repeat split; repeat (rewrite lookup_insert_ne; [|first [done|intros [= Heq]; congruence]]); done.
  - intros n Hn Hne. rewrite Hs by done. unfold put_batch, apply_batch, apply_op. destruct isHead.
    + destruct bb; cbn; rewrite lookup_insert_ne by apply head_key_height;
        rewrite lookup_insert_ne by (intros He; apply Hne; [done|]; symmetry; by apply heightToHashKey_inj);
        by rewrite !lookup_insert_ne by done.
    + destruct bb; cbn; by rewrite !lookup_insert_ne by done.
Qed.

(** What [PutBlock] leaves is what it was given. *)
Lemma put_entries_read `{!StoreCodecLaws} b hb tb bb db db' td :
  storable b -> enc_header (b_Header b) = Some hb -> enc_td td = Some tb ->
  enc_body (mkBody (b_Transactions b) (b_Debts b)) = Some bb ->
  same_but_indices (put_entries b hb tb bb db) db' ->
  GetBlockHeader db' (b_HeaderHash b) = inl (b_Header b)
  /\ GetBlockTotalDifficulty db' (b_HeaderHash b) = inl td
  /\ GetBlock db' (b_HeaderHash b) = inl b
  /\ GetBlockHash db' (h_Height (b_Header b)) = inl (b_HeaderHash b).
Proof.
  intros (Hlen & Hu & Hclone) Hh Ht Hb Hs.
  assert (Hhd : GetBlockHeader db' (b_HeaderHash b) = inl (b_Header b)).
  { unfold GetBlockHeader. rewrite Hs by done. unfold put_entries. rewrite !lookup_insert_ne, lookup_insert_eq by done.
    cbn. by rewrite (dec_enc_header _ _ Hh), Hclone. }
  split; [done|]. split; [|split].
  - unfold GetBlockTotalDifficulty. rewrite Hs by done. unfold put_entries.
    rewrite !lookup_insert_ne, lookup_insert_eq by done. cbn. by rewrite (dec_enc_td _ _ Ht).
  - unfold GetBlock. rewrite Hhd, Hs by done. unfold put_entries. rewrite !lookup_insert_ne, lookup_insert_eq by done.
    rewrite (dec_enc_body _ _ Hb). by destruct b.
  - unfold GetBlockHash. rewrite Hs by done. unfold put_entries.
    rewrite lookup_insert_ne by apply head_key_height. by rewrite lookup_insert_eq, BytesToHash_hash.
Qed.

Lemma put_entries_others b hb tb bb db db' :
  is_u64 (h_Height (b_Header b)) -> same_but_indices (put_entries b hb tb bb db) db' ->
  (forall h, h <> b_HeaderHash b -> db' !! hashToHeaderKey h = db !! hashToHeaderKey h
     /\ db' !! hashToTDKey h = db !! hashToTDKey h /\ db' !! hashToBodyKey h = db !! hashToBodyKey h)
  /\ forall n, is_u64 n -> n <> h_Height (b_Header b) -> db' !! heightToHashKey n = db !! heightToHashKey n.
Proof.
  intros Hu Hs. split.
  - intros h Hne. rewrite !Hs by done. unfold put_entries.
    repeat split; repeat (rewrite lookup_insert_ne; [|first [done|intros [= Heq]; congruence]]); done.
  - intros n Hn Hne. rewrite Hs by done. unfold put_entries. rewrite lookup_insert_ne by apply head_key_height.
    rewrite lookup_insert_ne by (intros He; apply Hne; symmetry; by apply heightToHashKey_inj).
    by rewrite !lookup_insert_ne by done.
Qed.

(** A batch of deletions. *)
Lemma apply_delete_keys (db d : Db) keys k :
  apply_batch d (delete_keys db keys) !! k = if bool_decide (k ∈ keys /\ is_Some (db !! k)) then None else d !! k.
Proof.
  revert d. induction keys as [|x keys IH]; intros d; [rewrite bool_decide_false; [done|intros [[]%elem_of_nil _]]|].
  cbn [delete_keys flat_map]. rewrite apply_batch_app, IH.
  destruct (bool_decide_reflect (is_Some (db !! x))) as [Hx|Hx]; cbn.
  - destruct (decide (x = k)) as [->|Hne].
    + rewrite (bool_decide_true (k ∈ k :: keys /\ _)) by (split; [left|done]).
      by case_bool_decide; rewrite ?lookup_delete_eq.
    + rewrite lookup_delete_ne by done. do 2 case_bool_decide; try done; set_solver.
  - do 2 case_bool_decide; try done; set_solver.
Qed.

(** What [DeleteBlock] changes: the entries of the block and the indices. *)
Lemma DeleteBlock_outcome h db r db' o :
  DeleteBlock h db = Some (r, db', o) ->
  (forall k, k <> h -> db' !! hashToHeaderKey k = db !! hashToHeaderKey k
     /\ db' !! hashToTDKey k = db !! hashToTDKey k /\ db' !! hashToBodyKey k = db !! hashToBodyKey k)
  /\ (forall n, db' !! heightToHashKey n = db !! heightToHashKey n)
  /\ db' !! keyHeadBlockHash = db !! keyHeadBlockHash
  /\ (o = [] /\ db' = db /\ is_Some r \/ o = [db'] /\ r = None /\ db' !! hashToHeaderKey h = None).
Proof.
  unfold DeleteBlock, go_bind, go_get, batch_Commit, db_write, go_ret. intros Hrun.
  assert (Hcase : db' = db /\ is_Some r /\ o = []
    \/ exists tail, db' = apply_batch (apply_batch db (delete_keys db [hashToHeaderKey h; hashToTDKey h; hashToReceiptsKey h])) tail
       /\ r = None /\ o = [db'] /\ Forall (fun op : bytes * option bytes => index_key op.1 = true \/ op.1 = hashToBodyKey h) tail).
  { destruct (db !! hashToBodyKey h) as [eb|] eqn:Hbody; [|injection Hrun as <- <- <-; right; by exists []].
    destruct (dec_body eb) as [body|]; [|injection Hrun as <- <- <-; eauto].
    pose proof (batchDeleteIndices_keys db h (bb_Txs body) (bb_Debts body)) as Hkeys.
    destruct (batchDeleteIndices db h (bb_Txs body) (bb_Debts body)) as [indices [e|]];
      injection Hrun as <- <- <-; [eauto|]. right. exists (indices ++ [(hashToBodyKey h, None)]).
    rewrite <-apply_batch_app. split; [done|]. split; [done|]. split; [done|]. apply Forall_app.
    split; [eapply Forall_impl; [exact Hkeys|by left]|by repeat constructor; right]. }
  clear Hrun. destruct Hcase as [(-> & Hr & ->)|(tail & Hdb & -> & -> & Htail)]; [eauto 10|].
  assert (Hk : forall k, index_key k = false -> k <> hashToBodyKey h ->
    db' !! k = if bool_decide (k ∈ [hashToHeaderKey h; hashToTDKey h; hashToReceiptsKey h] /\ is_Some (db !! k))
               then None else db !! k).
  { intros k Hi Hb. rewrite Hdb, <-apply_delete_keys. clear Hdb.
    generalize (apply_batch db (delete_keys db [hashToHeaderKey h; hashToTDKey h; hashToReceiptsKey h])) as d.
    induction Htail as [|[x v] tail Hx _ IH]; intros d; [done|]. cbn. rewrite IH. unfold apply_op. cbn in Hx |- *.
    assert (x <> k) by (intros ->; destruct Hx; congruence).
    destruct v; [by rewrite lookup_insert_ne|by rewrite lookup_delete_ne]. }
  assert (Hsame : forall k, index_key k = false -> k <> hashToBodyKey h ->
    k ∉ [hashToHeaderKey h; hashToTDKey h; hashToReceiptsKey h] -> db' !! k = db !! k).
  { intros k Hi Hb Hn. rewrite Hk by done. rewrite bool_decide_false; [done|]. by intros [? _]. }
  assert (Hnotin : forall k, k <> hashToHeaderKey h -> k <> hashToTDKey h -> k <> hashToReceiptsKey h ->
    k ∉ [hashToHeaderKey h; hashToTDKey h; hashToReceiptsKey h]) by set_solver.
  split; [|split; [|split]].
  - intros k Hne. split; [|split]; apply Hsame; try done; try apply Hnotin; try done; unfold hashToHeaderKey, hashToTDKey, hashToBodyKey; congruence.
  - intros n. apply Hsame; try done. by apply Hnotin.
  - apply Hsame; try done. by apply Hnotin.
  - right. split; [done|]. split; [done|]. rewrite Hk by done.
    case_bool_decide as Hc; [done|]. apply eq_None_not_Some. intros Hsome. apply Hc. split; [left|done].
Qed.
End raw.

(** ** The laws of a store *)

(** The store does what the database does. *)
Definition refines {S A} `{BlockchainStore S} (inv : S -> Prop) (m : GoM S Db A) (raw : DbM A) (s : S) : Prop :=
  forall a db' o, raw (store_db s) = Some (a, db', o) ->
  exists s', m s = Some (a, s', o) /\ store_db s' = db' /\ inv s'.

Class StoreLaws (S : Type) `{StoreCodec} `{BlockchainStore S} := {
  store_inv : S -> Prop;
  open_law db : store_inv (store_open db) /\ store_db (store_open db) = db;
  GetBlockHash_law n s : store_inv s -> is_u64 n ->
    refines store_inv (bs_GetBlockHash n) (db_read (fun db => GetBlockHash db n)) s;
  PutBlockHash_law n h s : store_inv s -> is_u64 n -> length h = HashLength ->
    refines store_inv (bs_PutBlockHash n h) (PutBlockHash n h) s;
  DeleteBlockHash_law n s : store_inv s -> is_u64 n ->
    refines store_inv (bs_DeleteBlockHash n) (DeleteBlockHash n) s;
  GetHeadBlockHash_law s : store_inv s -> refines store_inv bs_GetHeadBlockHash (db_read GetHeadBlockHash) s;
  PutHeadBlockHash_law h s : store_inv s -> refines store_inv (bs_PutHeadBlockHash h) (PutHeadBlockHash h) s;
  GetBlockHeader_law h s : store_inv s ->
    refines store_inv (bs_GetBlockHeader h) (db_read (fun db => GetBlockHeader db h)) s;
  GetBlockTotalDifficulty_law h s : store_inv s ->
    refines store_inv (bs_GetBlockTotalDifficulty h) (db_read (fun db => GetBlockTotalDifficulty db h)) s;
  (** A header is put for a hash that has no header yet, or this one. *)
  PutBlockHeader_law h hd td isHead s : store_inv s -> storable_header h hd ->
    (forall hd', GetBlockHeader (store_db s) h = inl hd' -> hd' = hd) ->
    refines store_inv (bs_PutBlockHeader h hd td isHead) (PutBlockHeader h hd td isHead) s;
  PutBlock_law b td isHead s : store_inv s -> storable b ->
    refines store_inv (bs_PutBlock b td isHead) (PutBlock b td isHead) s;
  HasBlock_law h s : store_inv s -> refines store_inv (bs_HasBlock h) (db_read (fun db => HasBlock db h)) s;
  GetBlockByHeight_law n s : store_inv s ->
    refines store_inv (bs_GetBlockByHeight n) (db_read (fun db => GetBlockByHeight db n)) s;
  RecoverHeightToBlockMap_law b s : store_inv s -> storable b ->
    refines store_inv (bs_RecoverHeightToBlockMap b) (RecoverHeightToBlockMap b) s;
  GetReceiptsByBlockHash_law h s : store_inv s ->
    refines store_inv (bs_GetReceiptsByBlockHash h) (db_read (fun db => GetReceiptsByBlockHash db h)) s;
  GetReceiptByTxHash_law h s : store_inv s ->
    refines store_inv (bs_GetReceiptByTxHash h) (db_read (fun db => GetReceiptByTxHash db h)) s;
  GetTxIndex_law h s : store_inv s ->
    refines store_inv (bs_GetTxIndex h) (db_read (fun db => GetTxIndex db h)) s;
  GetBlock_law h s : store_inv s -> refines store_inv (bs_GetBlock h) (db_read (fun db => GetBlock db h)) s;
  PutReceipts_law h l s : store_inv s -> refines store_inv (bs_PutReceipts h l) (PutReceipts h l) s;
  AddIndices_law b s : store_inv s -> refines store_inv (bs_AddIndices b) (AddIndices b) s;
  DeleteIndices_law b s : store_inv s -> refines store_inv (bs_DeleteIndices b) (DeleteIndices b) s;
  GetDebtIndex_law h s : store_inv s ->
    refines store_inv (bs_GetDebtIndex h) (db_read (fun db => GetDebtIndex db h)) s;
  (** A store may refuse to delete a block that it does not find, or whose height has no
      canonical block. *)
  DeleteBlock_law h s : store_inv s ->
    refines store_inv (bs_DeleteBlock h) (DeleteBlock h) s
    \/ ((forall hd, GetBlockHeader (store_db s) h = inl hd -> exists e, GetBlockHash (store_db s) (h_Height hd) = inr e)
        /\ exists err s', bs_DeleteBlock h s = Some (Some err, s', []) /\ store_db s' = store_db s /\ store_inv s')
}.

#[export] Program Instance blockchainDatabase_laws `{StoreCodec} : @StoreLaws Db _ blockchainDatabase := {|
  store_inv _ := True
|}.
Solve Obligations with (intros; cbn; try done; first [by intros a db' o Heq; eexists | left; by intros a db' o Heq; eexists]).
