(* ===== verification/ChainCanon.v ===== *)
(** * The canonical chain and its recovery

    Models the end of [doWriteBlock] and the functions that keep the height to hash
    mapping of [core/blockchain.go], the recovery point of
    [core/blockchain_recover.go] and the purging of [core/block_index.go], over the
    interface of a store. What is durable is the database and the file of the
    recovery point: the outputs of a run are the disks that it passes through, one
    for every write of the database and two for every write of the file, which is
    truncated before it is written, and a process that starts again starts from one
    of them. Writes do not fail. *)

From Stdlib Require Import ZArith Lia.
From S2P Require Import Prelude Common BftHeader StateDb Svm Trie ChainStore.

Open Scope Z_scope.
Open Scope go_scope.

Record recoveryPoint := mkRp {
  rp_WritingBlockHash : Hash;
  rp_WritingBlockHeight : Z;
  rp_PreviousCanonicalBlockHash : Hash;
  rp_PreviousHeadBlockHash : Hash;
  rp_LargerHeight : Z;
  rp_StaleHash : Hash
}.

Definition emptyRp : recoveryPoint := mkRp EmptyHash 0 EmptyHash EmptyHash 0 EmptyHash.

Definition set_writing (hash : Hash) (height : Z) (canonical head : Hash) (rp : recoveryPoint) : recoveryPoint :=
  mkRp hash height canonical head (rp_LargerHeight rp) (rp_StaleHash rp).
Definition set_LargerHeight (height : Z) (rp : recoveryPoint) : recoveryPoint :=
  mkRp (rp_WritingBlockHash rp) (rp_WritingBlockHeight rp) (rp_PreviousCanonicalBlockHash rp)
    (rp_PreviousHeadBlockHash rp) height (rp_StaleHash rp).
Definition set_StaleHash (hash : Hash) (rp : recoveryPoint) : recoveryPoint :=
  mkRp (rp_WritingBlockHash rp) (rp_WritingBlockHeight rp) (rp_PreviousCanonicalBlockHash rp)
    (rp_PreviousHeadBlockHash rp) (rp_LargerHeight rp) hash.

(** The file of the recovery point: there is none, it cannot be read, it is not JSON (as when
    the process stopped between the truncation and the end of the write: no proper prefix of a
    JSON object is JSON), or it has the JSON of a recovery point. *)
Inductive RpFile :=
| NoFile
| Unreadable
| NotJson
| Json (rp : recoveryPoint).

Inductive RpError := errReadRecoveryPoint.

Definition Disk : Type := Db * RpFile.

(** The store, the recovery point in memory and its file. *)
Record ChainState (S : Type) := mkChain { ch_store : S; ch_rp : recoveryPoint; ch_file : RpFile }.
Arguments mkChain {S} _ _ _.
Arguments ch_store {S} _.
Arguments ch_rp {S} _.
Arguments ch_file {S} _.

Section canon.
Context {S : Type} `{StoreCodec} `{BlockchainStore S}.

Abbreviation ChM A := (GoM (ChainState S) Disk A).

Definition on_store {A} (m : GoM S Db A) : ChM A := fun c =>
  match m (ch_store c) with
  | Some (a, s, o) => Some (a, mkChain s (ch_rp c) (ch_file c), map (fun db => (db, ch_file c)) o)
  | None => None
  end.

Definition modify_rp (f : recoveryPoint -> recoveryPoint) : ChM unit :=
  go_modify (fun c => mkChain (ch_store c) (f (ch_rp c)) (ch_file c)).

(** ** [blockchain_recover.go] *)

(** [ioutil.WriteFile] truncates the file, then writes it. *)
Definition serialize : ChM unit := fun c =>
  Some (tt, mkChain (ch_store c) (ch_rp c) (Json (ch_rp c)),
        [(store_db (ch_store c), NotJson); (store_db (ch_store c), Json (ch_rp c))]).

(** The error of [json.Unmarshal], which checks the syntax before it sets a field, is only
    logged, and the file is written again. *)
Definition loadRecoveryPoint : ChM (option RpError) :=
  c <- go_get ;;
  modify_rp (fun _ => emptyRp) ;;;
  match ch_file c with
  | NoFile => go_ret None
  | Unreadable => go_ret (Some errReadRecoveryPoint)
  | NotJson => serialize ;;; go_ret None
  | Json rp => modify_rp (fun _ => rp) ;;; go_ret None
  end.

Definition onPutBlockStart (block : Block) (isHead : bool) : ChM (option StoreError) :=
  let height := h_Height (b_Header block) in
  c <- go_get ;;
  modify_rp (set_writing (b_HeaderHash block) height (rp_PreviousCanonicalBlockHash (ch_rp c))
               (rp_PreviousHeadBlockHash (ch_rp c))) ;;;
  canonical <- on_store (bs_GetBlockHash height) ;;
  let canonical := match canonical with inl hash => hash | inr _ => EmptyHash end in
  modify_rp (set_writing (b_HeaderHash block) height canonical (rp_PreviousHeadBlockHash (ch_rp c))) ;;;
  head <- on_store bs_GetHeadBlockHash ;;
  match head with
  | inr err => go_ret (Some err)
  | inl hash =>
      modify_rp (set_writing (b_HeaderHash block) height canonical hash) ;;;
      modify_rp (fun rp =>
        if isHead
        then set_StaleHash (h_PreviousBlockHash (b_Header block)) (set_LargerHeight (u64 (height + 1)) rp)
        else set_StaleHash EmptyHash (set_LargerHeight 0 rp)) ;;;
      serialize ;;;
      go_ret None
  end.

Definition onPutBlockEnd : ChM unit := modify_rp (set_writing EmptyHash 0 EmptyHash EmptyHash) ;;; serialize.

Definition onDeleteLargerHeightBlocks (height : Z) : ChM unit := modify_rp (set_LargerHeight height) ;;; serialize.

Definition onOverwriteStaleBlocks (hash : Hash) : ChM unit := modify_rp (set_StaleHash hash) ;;; serialize.

(** ** [blockchain.go] *)

Definition deleteCanonicalBlock (height : Z) : ChM (bool + StoreError) :=
  hash <- on_store (bs_GetBlockHash height) ;;
  match hash with
  | inr ErrNotFound => go_ret (inl false)
  | inr err => go_ret (inr err)
  | inl hash =>
      block <- on_store (bs_GetBlock hash) ;;
      match block with
      | inr err => go_ret (inr err)
      | inl block =>
          err <- on_store (bs_DeleteIndices block) ;;
          match err with
          | Some err => go_ret (inr err)
          | None => deleted <- on_store (bs_DeleteBlockHash height) ;; go_ret (inl deleted)
          end
      end
  end.

(** The loop from [i] on; [rp] tells whether there is a recovery point to keep. *)
Fixpoint delete_larger (fuel : nat) (rp : bool) (i : Z) : ChM (option StoreError) :=
  match fuel with
  | O => go_panic
  | Datatypes.S fuel' =>
      (if rp then onDeleteLargerHeightBlocks i else go_ret tt) ;;;
      deleted <- deleteCanonicalBlock i ;;
      match deleted with
      | inr err => go_ret (Some err)
      | inl false => go_ret None
      | inl true => delete_larger fuel' rp (u64 (i + 1))
      end
  end.

(** A round of the two loops takes a key of the database away or goes to the parent
    of a block. *)
Definition rounds (c : ChainState S) : nat := Datatypes.S (size (store_db (ch_store c))).

Definition DeleteLargerHeightBlocks (largerHeight : Z) (rp : bool) : ChM (option StoreError) :=
  deleted <- deleteCanonicalBlock largerHeight ;;
  match deleted with
  | inr err => go_ret (Some err)
  | inl _ =>
      c <- go_get ;;
      err <- delete_larger (rounds c) rp (u64 (largerHeight + 1)) ;;
      match err with
      | Some err => go_ret (Some err)
      | None => (if rp then onDeleteLargerHeightBlocks 0 else go_ret tt) ;;; go_ret None
      end
  end.

(** The indices and the mapping of a block that joins the canonical chain. *)
Definition add_stale (hash : Hash) (header : BlockHeader) : ChM (bool * Hash + StoreError) :=
  block <- on_store (bs_GetBlock hash) ;;
  match block with
  | inr err => go_ret (inr err)
  | inl block =>
      on_store (bs_AddIndices block) ;;;
      on_store (bs_PutBlockHash (h_Height header) hash) ;;;
      go_ret (inl (true, h_PreviousBlockHash header))
  end.

Definition overwriteSingleStaleBlock (hash : Hash) : ChM (bool * Hash + StoreError) :=
  header <- on_store (bs_GetBlockHeader hash) ;;
  match header with
  | inr err => go_ret (inr err)
  | inl header =>
      canonical <- on_store (bs_GetBlockHash (h_Height header)) ;;
      match canonical with
      | inr _ => add_stale hash header
      | inl canonicalHash =>
          if bytes_eqb hash canonicalHash then go_ret (inl (false, h_PreviousBlockHash header))
          else
            canonicalBlock <- on_store (bs_GetBlock canonicalHash) ;;
            match canonicalBlock with
            | inr err => go_ret (inr err)
            | inl canonicalBlock =>
                err <- on_store (bs_DeleteIndices canonicalBlock) ;;
                match err with
                | Some err => go_ret (inr err)
                | None => add_stale hash header
                end
            end
      end
  end.

Fixpoint overwrite_stale (fuel : nat) (rp : bool) (staleHash : Hash) : ChM (option StoreError) :=
  match fuel with
  | O => go_panic
  | Datatypes.S fuel' =>
      if bytes_eqb staleHash EmptyHash then go_ret None
      else
        (if rp then onOverwriteStaleBlocks staleHash else go_ret tt) ;;;
        r <- overwriteSingleStaleBlock staleHash ;;
        match r with
        | inr err => go_ret (Some err)
        | inl (false, _) => go_ret None
        | inl (true, staleHash) => overwrite_stale fuel' rp staleHash
        end
  end.

Definition OverwriteStaleBlocks (staleHash : Hash) (rp : bool) : ChM (option StoreError) :=
  r <- overwriteSingleStaleBlock staleHash ;;
  match r with
  | inr err => go_ret (Some err)
  | inl (_, staleHash) =>
      c <- go_get ;;
      err <- overwrite_stale (rounds c) rp staleHash ;;
      match err with
      | Some err => go_ret (Some err)
      | None => (if rp then onOverwriteStaleBlocks EmptyHash else go_ret tt) ;;; go_ret None
      end
  end.

(** ** Recovery *)

(** The errors of the three steps that are only logged are dropped. *)
Definition recover : ChM unit :=
  c <- go_get ;;
  let rp := ch_rp c in
  (if Hash_IsEmpty (rp_PreviousHeadBlockHash rp) then go_ret tt
   else
     on_store (bs_PutHeadBlockHash (rp_PreviousHeadBlockHash rp)) ;;;
     modify_rp (fun rp => set_writing (rp_WritingBlockHash rp) (rp_WritingBlockHeight rp)
                            (rp_PreviousCanonicalBlockHash rp) EmptyHash rp)) ;;;
  (if (0 <? rp_WritingBlockHeight rp) && negb (Hash_IsEmpty (rp_PreviousCanonicalBlockHash rp)) then
     on_store (bs_PutBlockHash (rp_WritingBlockHeight rp) (rp_PreviousCanonicalBlockHash rp)) ;;;
     modify_rp (fun rp => set_writing (rp_WritingBlockHash rp) (rp_WritingBlockHeight rp) EmptyHash
                            (rp_PreviousHeadBlockHash rp) rp)
   else go_ret tt) ;;;
  let saved := Hash_IsEmpty (rp_WritingBlockHash rp) in
  (if saved then go_ret tt
   else
     _ <- on_store (bs_DeleteBlock (rp_WritingBlockHash rp)) ;;
     modify_rp (fun rp => set_writing EmptyHash (rp_WritingBlockHeight rp) (rp_PreviousCanonicalBlockHash rp)
                            (rp_PreviousHeadBlockHash rp) rp)) ;;;
  (if saved && (0 <? rp_LargerHeight rp)
   then _ <- DeleteLargerHeightBlocks (rp_LargerHeight rp) false ;; go_ret tt else go_ret tt) ;;;
  modify_rp (set_LargerHeight 0) ;;;
  (if saved && negb (Hash_IsEmpty (rp_StaleHash rp))
   then _ <- OverwriteStaleBlocks (rp_StaleHash rp) false ;; go_ret tt else go_ret tt) ;;;
  modify_rp (set_StaleHash EmptyHash) ;;;
  serialize.

(** The process that starts on a disk. *)
Definition restart (d : Disk) : ChainState S := mkChain (store_open d.1) emptyRp d.2.

(** What [NewBlockchain] does first. *)
Definition start_chain : ChM (option RpError) :=
  err <- loadRecoveryPoint ;;
  match err with
  | Some err => go_ret (Some err)
  | None => recover ;;; go_ret None
  end.

(** ** Writing *)

(** The end of [doWriteBlock]: the receipts, the block and the canonical chain. Every
    block becomes the head. *)
Definition put_block (block : Block) (receipts : list Receipt) (currentTd : Z) : ChM (option StoreError) :=
  let isHead := true in
  err <- onPutBlockStart block isHead ;;
  match err with
  | Some err => go_ret (Some err)
  | None =>
      err <- on_store (bs_PutReceipts (b_HeaderHash block) receipts) ;;
      match err with
      | Some err => go_ret (Some err)
      | None =>
          err <- on_store (bs_PutBlock block currentTd isHead) ;;
          match err with
          | Some err => go_ret (Some err)
          | None =>
              onPutBlockEnd ;;;
              let largerHeight := u64 (h_Height (b_Header block) + 1) in
              err <- DeleteLargerHeightBlocks largerHeight true ;;
              match err with
              | Some err => go_ret (Some err)
              | None => OverwriteStaleBlocks (h_PreviousBlockHash (b_Header block)) true
              end
          end
      end
  end.

(** ** [block_index.go] *)

Fixpoint purgeBlock (fuel : nat) (hash : Hash) : GoM S Db (option StoreError) :=
  match fuel with
  | O => go_panic
  | Datatypes.S fuel' =>
      if Hash_IsEmpty hash then go_ret None
      else
        header <- bs_GetBlockHeader hash ;;
        match header with
        | inr err => go_ret (Some err)
        | inl header =>
            canonicalHash <- bs_GetBlockHash (h_Height header) ;;
            match canonicalHash with
            | inr err => go_ret (Some err)
            | inl canonicalHash =>
                if bytes_eqb hash canonicalHash then go_ret None
                else
                  err <- bs_DeleteBlock hash ;;
                  match err with
                  | Some err => go_ret (Some err)
                  | None => purgeBlock fuel' (h_PreviousBlockHash header)
                  end
            end
        end
  end.
End canon.
