(* ===== verification/BlockLeaves.v ===== *)
(** * The leaves of the block tree

    Models [core/block_index.go]: the last blocks of the forks, in a map by hash and in two
    heaps, one with the best block on top and one with the worst. An item of a heap is
    the hash of its block; both items of a block refer to the index in the map. A panic
    is [None]. *)

From Stdlib Require Import ZArith Lia.
From S2P Require Import Prelude Common GoHeap PoolQueueProofs.

Open Scope Z_scope.

Record BlockIndex := mkBlockIndex {
  bi_blockHash : Hash;
  bi_blockHeight : Z;
  bi_totalDifficulty : Z
}.

Definition NewBlockIndex (hash : Hash) (height td : Z) : BlockIndex := mkBlockIndex hash height td.

Definition index_cmp (bi other : BlockIndex) : Z :=
  match bi_totalDifficulty bi ?= bi_totalDifficulty other with
  | Gt => 1
  | Lt => -1
  | Eq =>
      if bi_blockHeight other <? bi_blockHeight bi then 1
      else if bi_blockHeight bi <? bi_blockHeight other then -1
      else 0
  end.

Record BlockLeaves := mkLeaves {
  bl_indexMap : gmap Hash BlockIndex;
  bl_bestHeap : Heap Hash;
  bl_worstHeap : Heap Hash
}.

Definition NewBlockLeaves : BlockLeaves := mkLeaves ∅ NewHeap NewHeap.

Abbreviation Leaves := (gmap Hash BlockIndex).

Definition leaf (m : Leaves) (hash : Hash) : BlockIndex := default (mkBlockIndex [] 0 0) (m !! hash).

Definition leaf_better (m : Leaves) (i j : Hash) : bool := 0 <? index_cmp (leaf m i) (leaf m j).
Definition leaf_worse (m : Leaves) (i j : Hash) : bool := index_cmp (leaf m i) (leaf m j) <? 0.

#[local] Instance better_heap (m : Leaves) : HeapInterface (Heap Hash) Hash := Heap_interface (leaf_better m).
#[local] Instance worse_heap (m : Leaves) : HeapInterface (Heap Hash) Hash := Heap_interface (leaf_worse m).

Definition leaves_Add (bf : BlockLeaves) (index : BlockIndex) : option BlockLeaves :=
  let hash := bi_blockHash index in
  let m := <[hash := index]> (bl_indexMap bf) in
  match bl_indexMap bf !! hash with
  | Some _ =>
      match heap_Fix (H0 := better_heap m) (bl_bestHeap bf) (GetHeapIndex (bl_bestHeap bf) hash) with
      | None => None
      | Some best =>
          match heap_Fix (H0 := worse_heap m) (bl_worstHeap bf) (GetHeapIndex (bl_worstHeap bf) hash) with
          | None => None
          | Some worst => Some (mkLeaves m best worst)
          end
      end
  | None =>
      Some (mkLeaves m (heap_Push (H0 := better_heap m) (bl_bestHeap bf) hash)
              (heap_Push (H0 := worse_heap m) (bl_worstHeap bf) hash))
  end.

(** The items keep their index after it is taken out of the map. *)
Definition leaves_Remove (bf : BlockLeaves) (hash : Hash) : option BlockLeaves :=
  let m := bl_indexMap bf in
  match m !! hash with
  | None => Some bf
  | Some _ =>
      match heap_Remove (H0 := better_heap m) (bl_bestHeap bf) (GetHeapIndex (bl_bestHeap bf) hash) with
      | None => None
      | Some (_, best) =>
          match heap_Remove (H0 := worse_heap m) (bl_worstHeap bf) (GetHeapIndex (bl_worstHeap bf) hash) with
          | None => None
          | Some (_, worst) => Some (mkLeaves (delete hash m) best worst)
          end
      end
  end.

Definition GetBlockIndexByHash (bf : BlockLeaves) (hash : Hash) : option BlockIndex := bl_indexMap bf !! hash.

Definition leaves_Count (bf : BlockLeaves) : nat := size (bl_indexMap bf).

Definition GetBestBlockIndex (bf : BlockLeaves) : option BlockIndex :=
  match Heap_Peek (bl_bestHeap bf) with Some hash => Some (leaf (bl_indexMap bf) hash) | None => None end.

Definition GetWorstBlockIndex (bf : BlockLeaves) : option BlockIndex :=
  match Heap_Peek (bl_worstHeap bf) with Some hash => Some (leaf (bl_indexMap bf) hash) | None => None end.

Definition IsBestBlockIndex (bf : BlockLeaves) (index : BlockIndex) : bool :=
  match GetBestBlockIndex bf with None => true | Some best => 0 <? index_cmp index best end.

Definition purgeBlockLimit : Z := 500.

(** The leaves that are left, and the block whose fork is purged by the goroutine. *)
Definition PurgeAsync (bf : BlockLeaves) : option (BlockLeaves * option Hash) :=
  match GetBestBlockIndex bf, GetWorstBlockIndex bf with
  | Some best, Some worst =>
      if u64 (bi_blockHeight best - bi_blockHeight worst) <? purgeBlockLimit then Some (bf, None)
      else match leaves_Remove bf (bi_blockHash worst) with
           | None => None
           | Some bf' => Some (bf', Some (bi_blockHash worst))
           end
  | _, _ => Some (bf, None)
  end.

(** ** The invariant *)

Definition better_le (m : Leaves) (x y : Hash) : Prop := 0 <= index_cmp (leaf m x) (leaf m y).
Definition worse_le (m : Leaves) (x y : Hash) : Prop := better_le m y x.

Record leaves_ok (bf : BlockLeaves) : Prop := {
  lo_hash h i : bl_indexMap bf !! h = Some i -> bi_blockHash i = h;
  lo_best : heap_for (better_le (bl_indexMap bf)) (bl_bestHeap bf) (bl_indexMap bf);
  lo_worst : heap_for (worse_le (bl_indexMap bf)) (bl_worstHeap bf) (bl_indexMap bf)
}.

(** The order by difficulty and height. *)
Lemma index_cmp_spec i j :
  (0 <= index_cmp i j <-> bi_totalDifficulty j < bi_totalDifficulty i
     \/ (bi_totalDifficulty i = bi_totalDifficulty j /\ bi_blockHeight j <= bi_blockHeight i))
  /\ (0 < index_cmp i j <-> bi_totalDifficulty j < bi_totalDifficulty i
     \/ (bi_totalDifficulty i = bi_totalDifficulty j /\ bi_blockHeight j < bi_blockHeight i)).
Proof.
  unfold index_cmp. destruct (Z.compare_spec (bi_totalDifficulty i) (bi_totalDifficulty j)); [|lia..].
  destruct (Z.ltb_spec (bi_blockHeight j) (bi_blockHeight i)); [lia|].
  destruct (Z.ltb_spec (bi_blockHeight i) (bi_blockHeight j)); lia.
Qed.

Lemma index_cmp_opp i j : index_cmp j i = - index_cmp i j.
Proof.
  unfold index_cmp. rewrite (Z.compare_antisym (bi_totalDifficulty i)). destruct (_ ?= _); cbn; [|done..].
  destruct (Z.ltb_spec (bi_blockHeight j) (bi_blockHeight i)), (Z.ltb_spec (bi_blockHeight i) (bi_blockHeight j)); lia.
Qed.

#[local] Instance better_le_pre m : PreOrder (better_le m).
Proof. unfold better_le. split; [intros x|intros x y z]; rewrite !(proj1 (index_cmp_spec _ _)); lia. Qed.

#[local] Instance worse_le_pre m : PreOrder (worse_le m).
Proof.
  unfold worse_le. split; [intros x; reflexivity|]. intros x y z Hxy Hyz. by transitivity y.
Qed.

Lemma better_true m x y : leaf_better m x y = true -> better_le m x y.
Proof. unfold leaf_better, better_le. rewrite Z.ltb_lt. lia. Qed.
Lemma better_false m x y : leaf_better m x y = false -> better_le m y x.
Proof. unfold leaf_better, better_le. rewrite Z.ltb_ge, (index_cmp_opp (leaf m x)). lia. Qed.
Lemma worse_true m x y : leaf_worse m x y = true -> worse_le m x y.
Proof. unfold leaf_worse, worse_le, better_le. rewrite Z.ltb_lt, (index_cmp_opp (leaf m x)). lia. Qed.
Lemma worse_false m x y : leaf_worse m x y = false -> worse_le m y x.
Proof. unfold leaf_worse, worse_le, better_le. rewrite Z.ltb_ge. lia. Qed.

Lemma leaf_insert_ne m a i x : x <> a -> leaf (<[a := i]> m) x = leaf m x.
Proof. intros Hne. unfold leaf. by rewrite lookup_insert_ne. Qed.

Lemma leaf_delete_ne m a x : x <> a -> leaf (delete a m) x = leaf m x.
Proof. intros Hne. unfold leaf. by rewrite lookup_delete_ne. Qed.

Lemma NewBlockLeaves_ok : leaves_ok NewBlockLeaves.
Proof.
  split; cbn; [done|..]; (split; [apply NewHeap_wf|]); (split; [constructor|]); intros a; rewrite lookup_empty;
    split; try (by intros ?%not_elem_of_nil); by intros [? ?].
Qed.

(** ** The operations keep the invariant, and do to the map what they say *)

Lemma hashes_insert (m : Leaves) i : (forall h j, m !! h = Some j -> bi_blockHash j = h) ->
  forall h j, <[bi_blockHash i := i]> m !! h = Some j -> bi_blockHash j = h.
Proof.
  intros Hm h j. destruct (decide (bi_blockHash i = h)) as [<-|Hne]; [|by rewrite lookup_insert_ne; [apply Hm|]].
  rewrite lookup_insert_eq. by intros [= <-].
Qed.

Lemma leaves_Add_ok bf i : leaves_ok bf ->
  exists bf', leaves_Add bf i = Some bf' /\ leaves_ok bf' /\ bl_indexMap bf' = <[bi_blockHash i := i]> (bl_indexMap bf).
Proof.
  intros [Hh Hb Hw]. unfold leaves_Add, better_heap, worse_heap. set (a := bi_blockHash i). set (m := <[a := i]> (bl_indexMap bf)).
  pose proof (hashes_insert _ i Hh) as Hh'. fold a m in Hh'. destruct (bl_indexMap bf !! a) as [j|] eqn:Ha.
  - destruct (heap_for_fix (leaf_better m) (better_le (bl_indexMap bf)) (better_le m) (better_true m) (better_false m)
      (bl_bestHeap bf) (bl_indexMap bf) a i Hb) as (best & -> & Hbest); [by eexists| |].
    { intros x y _ _ Hx Hy. unfold better_le, m. by rewrite !leaf_insert_ne. }
    destruct (heap_for_fix (leaf_worse m) (worse_le (bl_indexMap bf)) (worse_le m) (worse_true m) (worse_false m)
      (bl_worstHeap bf) (bl_indexMap bf) a i Hw) as (worst & -> & Hworst); [by eexists| |].
    { intros x y _ _ Hx Hy. unfold worse_le, better_le, m. by rewrite !leaf_insert_ne. }
    eexists. split; [done|]. split; [|done]. by split.
  - assert (Hin : forall h x, heap_for h x (bl_indexMap bf) -> forall y, y ∈ hd_data x -> y <> a).
    { intros h x (_ & _ & Hd) y Hy ->. apply Hd in Hy as [? ?]. congruence. }
    eexists. split; [done|]. split; [|done]. split; cbn; [done|..].
    + apply (heap_for_push (leaf_better m) (better_le m) (better_true m) (better_false m)); [|done].
      apply (heap_for_mono (better_le (bl_indexMap bf))); [done|]. intros x y Hx Hy. unfold better_le, m.
      by rewrite !leaf_insert_ne by (by apply (Hin _ _ Hb)).
    + apply (heap_for_push (leaf_worse m) (worse_le m) (worse_true m) (worse_false m)); [|done].
      apply (heap_for_mono (worse_le (bl_indexMap bf))); [done|]. intros x y Hx Hy. unfold worse_le, better_le, m.
      by rewrite !leaf_insert_ne by (by apply (Hin _ _ Hw)).
Qed.

Lemma leaves_Remove_ok bf h : leaves_ok bf ->
  exists bf', leaves_Remove bf h = Some bf' /\ leaves_ok bf' /\ bl_indexMap bf' = delete h (bl_indexMap bf).
Proof.
  intros Hok. pose proof Hok as [Hh Hb Hw]. unfold leaves_Remove, better_heap, worse_heap. destruct (bl_indexMap bf !! h) as [i|] eqn:Hi.
  2: { exists bf. by rewrite delete_id. }
  destruct (heap_for_remove _ _ _ (better_true (bl_indexMap bf)) (better_false (bl_indexMap bf)) _ _ h Hb) as (best & -> & Hbest); [by eexists|done|].
  destruct (heap_for_remove _ _ _ (worse_true (bl_indexMap bf)) (worse_false (bl_indexMap bf)) _ _ h Hw) as (worst & -> & Hworst); [by eexists|done|].
  eexists. split; [done|]. split; [|done].
  assert (Hin : forall le x, heap_for le x (delete h (bl_indexMap bf)) -> forall y, y ∈ hd_data x -> y <> h).
  { intros le x (_ & _ & Hd) y Hy ->. apply Hd in Hy as [? Hy]. by rewrite lookup_delete_eq in Hy. }
  split; cbn.
  - intros k j [_ Hk]%lookup_delete_Some. by apply Hh.
  - eapply heap_for_mono; [exact Hbest|]. intros x y Hx Hy. unfold better_le. by rewrite !leaf_delete_ne by (by apply (Hin _ _ Hbest)).
  - eapply heap_for_mono; [exact Hworst|]. intros x y Hx Hy. unfold worse_le, better_le. by rewrite !leaf_delete_ne by (by apply (Hin _ _ Hworst)).
Qed.

(** ** Best and worst *)

Definition best_of (m : Leaves) (best : option BlockIndex) : Prop :=
  match best with
  | None => m = ∅
  | Some i => m !! bi_blockHash i = Some i /\ forall h j, m !! h = Some j -> 0 <= index_cmp i j
  end.

Definition worst_of (m : Leaves) (worst : option BlockIndex) : Prop :=
  match worst with
  | None => m = ∅
  | Some i => m !! bi_blockHash i = Some i /\ forall h j, m !! h = Some j -> index_cmp i j <= 0
  end.

(** The top of a heap for a map. *)
Lemma heap_for_peek (less : Hash -> Hash -> bool) (le : Hash -> Hash -> Prop) `{!PreOrder le} (h : Heap Hash) (m : Leaves) :
  (forall x y, less x y = true -> le x y) -> (forall x y, less x y = false -> le y x) -> heap_for le h m ->
  match Heap_Peek h with
  | None => m = ∅
  | Some a => is_Some (m !! a) /\ forall b, is_Some (m !! b) -> le a b
  end.
Proof.
  intros Ht Hf Hh. destruct (Heap_Peek h) as [a|] eqn:Ha.
  - destruct (heap_for_pop less le Ht Hf h m a Hh Ha) as (_ & _ & _ & ? & ?). done.
  - apply map_empty. intros b. apply eq_None_not_Some. intros Hb. apply (proj2 (proj2 Hh)) in Hb.
    unfold Heap_Peek in Ha. destruct (hd_data h); [by apply not_elem_of_nil in Hb|done].
Qed.

Lemma GetBestBlockIndex_spec bf : leaves_ok bf -> best_of (bl_indexMap bf) (GetBestBlockIndex bf).
Proof.
  intros [Hh Hb _]. pose proof (heap_for_peek _ _ _ _ (better_true _) (better_false _) Hb) as Hp.
  unfold GetBestBlockIndex. destruct (Heap_Peek (bl_bestHeap bf)) as [a|]; [|done]. destruct Hp as [[i Hi] Hle]. cbn.
  unfold leaf at 1 2 3. rewrite Hi. cbn. rewrite (Hh a i Hi). split; [done|]. intros h j Hj.
  specialize (Hle h (ex_intro _ j Hj)). unfold better_le, leaf in Hle. by rewrite Hi, Hj in Hle.
Qed.

Lemma GetWorstBlockIndex_spec bf : leaves_ok bf -> worst_of (bl_indexMap bf) (GetWorstBlockIndex bf).
Proof.
  intros [Hh _ Hw]. pose proof (heap_for_peek _ _ _ _ (worse_true _) (worse_false _) Hw) as Hp.
  unfold GetWorstBlockIndex. destruct (Heap_Peek (bl_worstHeap bf)) as [a|]; [|done]. destruct Hp as [[i Hi] Hle]. cbn.
  unfold leaf at 1 2 3. rewrite Hi. cbn. rewrite (Hh a i Hi). split; [done|]. intros h j Hj.
  specialize (Hle h (ex_intro _ j Hj)). unfold worse_le, better_le, leaf in Hle. rewrite Hi, Hj, index_cmp_opp in Hle. cbn in Hle. lia.
Qed.

(** ** Sequences of operations *)

Inductive leaf_op : Type :=
| OpAdd (index : BlockIndex)
| OpRemove (hash : Hash)
| OpPurge.

Definition run_leaf_op (bf : BlockLeaves) (op : leaf_op) : option BlockLeaves :=
  match op with
  | OpAdd index => leaves_Add bf index
  | OpRemove hash => leaves_Remove bf hash
  | OpPurge => option_map fst (PurgeAsync bf)
  end.

Fixpoint run_leaf_ops (bf : BlockLeaves) (ops : list leaf_op) : option BlockLeaves :=
  match ops with
  | [] => Some bf
  | op :: ops' => match run_leaf_op bf op with Some bf' => run_leaf_ops bf' ops' | None => None end
  end.

(** What the operations do to a plain map, with the heights as numbers that do not wrap around: a
    purge takes a worst index away when it is far below a best one, as the code means to, and also
    when it is above it, which it does not mean to ([purge_wraps]). *)
Inductive map_step (m : Leaves) : leaf_op -> Leaves -> Prop :=
| ms_add i : map_step m (OpAdd i) (<[bi_blockHash i := i]> m)
| ms_remove h : map_step m (OpRemove h) (delete h m)
| ms_keep :
    (forall b w, best_of m (Some b) -> worst_of m (Some w) -> 0 <= bi_blockHeight b - bi_blockHeight w < purgeBlockLimit) ->
    map_step m OpPurge m
| ms_purge b w : best_of m (Some b) -> worst_of m (Some w) ->
    purgeBlockLimit <= bi_blockHeight b - bi_blockHeight w \/ bi_blockHeight b < bi_blockHeight w -> map_step m OpPurge (delete (bi_blockHash w) m).

Inductive map_steps (m : Leaves) : list leaf_op -> Leaves -> Prop :=
| mss_nil : map_steps m [] m
| mss_cons op m' ops m2 : map_step m op m' -> map_steps m' ops m2 -> map_steps m (op :: ops) m2.

(** Two best indices have the same height, and so have two worst ones. *)
Lemma extreme_height m (b b' : BlockIndex) :
  (best_of m (Some b) /\ best_of m (Some b')) \/ (worst_of m (Some b) /\ worst_of m (Some b')) ->
  bi_blockHeight b = bi_blockHeight b'.
Proof.
  assert (Hz : index_cmp b b' = 0 -> bi_blockHeight b = bi_blockHeight b').
  { destruct (index_cmp_spec b b') as [H1 H2]. destruct (index_cmp_spec b' b) as [H3 H4]. rewrite index_cmp_opp in H3, H4. lia. }
  intros [[[Hb Hbb] [Hb' Hbb']]|[[Hb Hbb] [Hb' Hbb']]]; apply Hz; specialize (Hbb _ _ Hb'); specialize (Hbb' _ _ Hb);
    rewrite (index_cmp_opp b b') in Hbb'; lia.
Qed.

(** Heights that occur: below 2^63. *)
Definition op_height (op : leaf_op) : Prop := match op with OpAdd i => 0 <= bi_blockHeight i < 2 ^ 63 | _ => True end.
Definition heights_ok (m : Leaves) : Prop := forall h i, m !! h = Some i -> 0 <= bi_blockHeight i < 2 ^ 63.

Lemma map_step_heights m op m' : heights_ok m -> op_height op -> map_step m op m' -> heights_ok m'.
Proof.
  intros Hm Hop Hs. destruct Hs as [i|h| |b w Hb Hw Hd]; [|intros x i [_ Hi]%lookup_delete_Some; eauto|done|intros x i [_ Hi]%lookup_delete_Some; eauto].
  intros x i' [[_ <-]|[_ Hi]]%lookup_insert_Some; [exact Hop|by eapply Hm].
Qed.

Lemma far_apart x y : 0 <= x < 2 ^ 63 -> 0 <= y < 2 ^ 63 ->
  (u64 (x - y) <? purgeBlockLimit) = (0 <=? x - y) && (x - y <? purgeBlockLimit).
Proof.
  intros Hx Hy. unfold purgeBlockLimit. destruct (Z.leb_spec 0 (x - y)).
  - by rewrite u64_small by (unfold is_u64; lia).
  - assert (E : u64 (x - y) = x - y + 2 ^ 64) by (unfold u64; rewrite <-(Z_mod_plus_full _ 1), Z.mod_small by lia; lia).
    rewrite E. cbn [andb]. apply Z.ltb_ge. lia.
Qed.

Lemma run_leaf_op_ok bf op : leaves_ok bf -> heights_ok (bl_indexMap bf) ->
  exists bf', run_leaf_op bf op = Some bf' /\ leaves_ok bf' /\ map_step (bl_indexMap bf) op (bl_indexMap bf').
Proof.
  intros Hok Hhs. destruct op as [i|h|]; cbn.
  - destruct (leaves_Add_ok bf i Hok) as (bf' & -> & Hok' & Hm). exists bf'. split; [done|]. split; [done|]. rewrite Hm. constructor.
  - destruct (leaves_Remove_ok bf h Hok) as (bf' & -> & Hok' & Hm). exists bf'. split; [done|]. split; [done|]. rewrite Hm. constructor.
  - pose proof (GetBestBlockIndex_spec bf Hok) as Hb. pose proof (GetWorstBlockIndex_spec bf Hok) as Hw. unfold PurgeAsync.
    destruct (GetBestBlockIndex bf) as [b|].
    2: { exists bf. split; [done|]. split; [done|]. apply ms_keep. intros b w [Hi _]. cbn in Hb. by rewrite Hb, lookup_empty in Hi. }
    destruct (GetWorstBlockIndex bf) as [w|].
    2: { exists bf. split; [done|]. split; [done|]. apply ms_keep. intros b' w [Hi _]. cbn in Hw. by rewrite Hw, lookup_empty in Hi. }
    rewrite far_apart by (by eapply Hhs; first [apply Hb|apply Hw]).
    destruct (_ && _) eqn:Hfar; [apply andb_true_iff in Hfar as [Hlo Hlt]|apply andb_false_iff in Hfar].
    + exists bf. split; [done|]. split; [done|]. apply ms_keep. intros b' w' Hb' Hw'.
      rewrite (extreme_height (bl_indexMap bf) b' b) by by left. rewrite (extreme_height (bl_indexMap bf) w' w) by by right. lia.
    + destruct (leaves_Remove_ok bf (bi_blockHash w) Hok) as (bf' & -> & Hok' & Hm). exists bf'. split; [done|]. split; [done|].
      rewrite Hm. apply (ms_purge _ b); [done|done|]. destruct Hfar; lia.
Qed.

(** C23: The leaves of the block tree are a map with a best and a worst index:
    any sequence of additions, removals and purges, from no leaves on and
    with heights below 2^63, does not panic and does to the map of the
    leaves what it does to a plain map, where a purge takes a worst index
    away when it is at least 500 below a best one, or above it: the second
    case is the wrap-around of the difference in block_index.go:173, against
    the comment there, which only speaks of a chain that is far behind. In
    all other cases a purge keeps the map. The best index that is read is
    one of the leaves and no leaf is better, by total difficulty and then by
    height, the worst is one and no leaf is worse, and there is none of
    either only when there are no leaves. *)
Theorem leaves_refine_map ops : Forall op_height ops -> exists bf,
  run_leaf_ops NewBlockLeaves ops = Some bf /\ map_steps ∅ ops (bl_indexMap bf)
  /\ best_of (bl_indexMap bf) (GetBestBlockIndex bf) /\ worst_of (bl_indexMap bf) (GetWorstBlockIndex bf).
Proof.
  intros Hops. assert (Hrun : forall bf, leaves_ok bf -> heights_ok (bl_indexMap bf) -> exists bf', run_leaf_ops bf ops = Some bf' /\ leaves_ok bf'
    /\ map_steps (bl_indexMap bf) ops (bl_indexMap bf')).
  { induction Hops as [|op ops Hop _ IH]; intros bf Hok Hhs; cbn; [exists bf; split; [done|]; split; [done|constructor]|].
    destruct (run_leaf_op_ok bf op Hok Hhs) as (bf1 & -> & Hok1 & Hs).
    destruct (IH bf1 Hok1 (map_step_heights _ _ _ Hhs Hop Hs)) as (bf2 & -> & Hok2 & Hss).
    exists bf2. split; [done|]. split; [done|]. by econstructor. }
  destruct (Hrun _ NewBlockLeaves_ok ltac:(intros h i Hi; cbn in Hi; by rewrite lookup_empty in Hi)) as (bf & ? & Hok & ?). exists bf. split; [done|]. split; [done|].
  split; [by apply GetBestBlockIndex_spec|by apply GetWorstBlockIndex_spec].
Qed.

(** A fork that is 510 blocks behind is purged. *)
Definition ex_leaf_ops : list leaf_op := [OpAdd (NewBlockIndex [1] 510 700); OpAdd (NewBlockIndex [2] 0 6); OpPurge].

Lemma leaves_refine_map_witness : exists bf, run_leaf_ops NewBlockLeaves ex_leaf_ops = Some bf
  /\ bl_indexMap bf = {[ [1] := NewBlockIndex [1] 510 700 ]} /\ map_steps ∅ ex_leaf_ops (bl_indexMap bf).
Proof.
  destruct (leaves_refine_map ex_leaf_ops) as (bf & Hrun & Hs & _).
  - repeat constructor; discriminate.
  - exists bf. split; [exact Hrun|]. split; [|exact Hs]. vm_compute in Hrun. injection Hrun as <-. vm_compute. reflexivity.
Defined.

(** A worst leaf that is higher than the best one is purged at once: the difference of the
    heights wraps around. *)
Example purge_wraps :
  let bf := run_leaf_ops NewBlockLeaves [OpAdd (NewBlockIndex [1] 10 7); OpAdd (NewBlockIndex [2] 11 6)] in
  option_map (fun bf => option_map snd (PurgeAsync bf)) bf = Some (Some (Some [2])).
Proof. vm_compute. reflexivity. Qed.
