(* ===== verification/ChainCache.v ===== *)
(** * The caches of the store

    [cached_store.go] keeps the laws of a store: whatever its caches drop, what they
    hold is what the database behind them would answer. *)

From Stdlib Require Import ZArith Lia.
From S2P Require Import Prelude Common BftHeader StateDb Svm EvmWord EvmStore Trie TrieCommit ChainStore ChainLaws.

Open Scope Z_scope.
Open Scope go_scope.

Section cached.
Context `{StoreCodec} `{!StoreCodecLaws} `{LruCache} `{!LruLaws}.

Record coherent (c : cachedStore) : Prop := {
  co_hash n x : lru_peek (hashCache c) n = Some x -> is_u64 n /\ GetBlockHash (cs_raw c) n = inl x;
  co_header h x : lru_peek (headerCache c) h = Some x -> GetBlockHeader (cs_raw c) h = inl x;
  co_td h x : lru_peek (tdCache c) h = Some x -> GetBlockTotalDifficulty (cs_raw c) h = inl x;
  co_block h x : lru_peek (blockCache c) h = Some x -> GetBlock (cs_raw c) h = inl x
}.

(** The database behind the caches changed, but not in what they hold. *)
Definition same_blocks (db db' : Db) : Prop :=
  (forall h, db' !! hashToHeaderKey h = db !! hashToHeaderKey h)
  /\ (forall h, db' !! hashToTDKey h = db !! hashToTDKey h)
  /\ (forall h, db' !! hashToBodyKey h = db !! hashToBodyKey h).

Definition with_raw (db : Db) (c : cachedStore) : cachedStore :=
  mkCached db (hashCache c) (headerCache c) (tdCache c) (blockCache c).

Lemma GetBlock_same db db' h : same_blocks db db' -> GetBlock db' h = GetBlock db h.
Proof. intros (Hh & _ & Hb). unfold GetBlock, GetBlockHeader. by rewrite Hh, Hb. Qed.

Lemma coherent_same c db :
  coherent c -> same_blocks (cs_raw c) db ->
  (forall n x, lru_peek (hashCache c) n = Some x -> GetBlockHash db n = GetBlockHash (cs_raw c) n) ->
  coherent (with_raw db c).
Proof.
  intros [Hn Hh Ht Hb] Hsame Hhash. constructor; cbn; intros k x Hx.
  - destruct (Hn k x Hx) as [Hk Hg]. split; [done|]. by rewrite (Hhash k x).
  - unfold GetBlockHeader. rewrite (proj1 Hsame). by apply Hh.
  - unfold GetBlockTotalDifficulty. rewrite (proj1 (proj2 Hsame)). by apply Ht.
  - rewrite (GetBlock_same _ _ _ Hsame). by apply Hb.
Qed.

Lemma same_but_indices_blocks db db' : same_but_indices db db' -> same_blocks db db'.
Proof. intros Hs. repeat split; intros h; by apply Hs. Qed.

Lemma GetBlockHash_same db db' n : same_but_indices db db' -> GetBlockHash db' n = GetBlockHash db n.
Proof. intros Hs. unfold GetBlockHash. by rewrite Hs. Qed.

(** A call of the store behind that writes nothing the caches hold. *)
Lemma on_raw_refines {A} (m : DbM A) c :
  coherent c ->
  (forall a db o, m (cs_raw c) = Some (a, db, o) ->
     same_blocks (cs_raw c) db /\ forall n, GetBlockHash db n = GetBlockHash (cs_raw c) n) ->
  refines coherent (H := cached_blockchainStore) (on_raw m) m c.
Proof.
  intros Hc Hm a db o Hrun. cbn in *. unfold on_raw. rewrite Hrun. eexists. split; [reflexivity|]. split; [done|].
  destruct (Hm _ _ _ Hrun) as [Hs Hn]. apply coherent_same; [done..|]. intros n x _. apply Hn.
Qed.

(** What a cache may hold, and what writing to it keeps. *)
Record cache_of {K A} `{EqDecision K} (cache : cachedStore -> lru K A)
    (set : (lru K A -> lru K A) -> cachedStore -> cachedStore) (good : Db -> K -> A -> Prop) : Prop := {
  ca_good c k a : coherent c -> lru_peek (cache c) k = Some a -> good (cs_raw c) k a;
  ca_set f c : coherent c -> (forall k a, lru_peek (f (cache c)) k = Some a -> good (cs_raw c) k a) -> coherent (set f c);
  ca_raw f c : cs_raw (set f c) = cs_raw c;
  ca_cache f c : cache (set f c) = f (cache c)
}.

Lemma hash_cache : cache_of hashCache set_hashCache (fun db n x => is_u64 n /\ GetBlockHash db n = inl x).
Proof. split; try done; [intros c n x Hc; by apply Hc|]. intros f c [] Hf. by constructor. Qed.

Lemma header_cache : cache_of headerCache set_headerCache (fun db h x => GetBlockHeader db h = inl x).
Proof. split; try done; [intros c h x Hc; by apply Hc|]. intros f c [] Hf. by constructor. Qed.

Lemma td_cache : cache_of tdCache set_tdCache (fun db h x => GetBlockTotalDifficulty db h = inl x).
Proof. split; try done; [intros c h x Hc; by apply Hc|]. intros f c [] Hf. by constructor. Qed.

Lemma block_cache : cache_of blockCache set_blockCache (fun db h x => GetBlock db h = inl x).
Proof. split; try done; [intros c h x Hc; by apply Hc|]. intros f c [] Hf. by constructor. Qed.

Lemma cache_add {K A} `{EqDecision K} (cache : cachedStore -> lru K A)
    (set : (lru K A -> lru K A) -> cachedStore -> cachedStore) (good : Db -> K -> A -> Prop) c k a :
  cache_of cache set good -> coherent c -> good (cs_raw c) k a -> coherent (set (fun x => lru_Add x k a) c).
Proof.
  intros Hca Hc Hg. apply (ca_set _ _ _ Hca); [done|]. intros k' a' Hp.
  destruct (lru_Add_peek _ _ _ _ _ Hp) as [[-> ->]|[_ Hp']]; [done|by apply (ca_good _ _ _ Hca)].
Qed.

Lemma cache_remove {K A} `{EqDecision K} (cache : cachedStore -> lru K A)
    (set : (lru K A -> lru K A) -> cachedStore -> cachedStore) (good : Db -> K -> A -> Prop) c k :
  cache_of cache set good -> coherent c -> coherent (set (fun x => lru_Remove x k) c).
Proof.
  intros Hca Hc. apply (ca_set _ _ _ Hca); [done|]. intros k' a' Hp.
  destruct (lru_Remove_peek _ _ _ _ Hp) as [_ Hp']. by apply (ca_good _ _ _ Hca).
Qed.

Lemma cached_get_refines {K A} `{EqDecision K} (cache : cachedStore -> lru K A)
    (set : (lru K A -> lru K A) -> cachedStore -> cachedStore) (good : Db -> K -> A -> Prop) (k : K)
    (get : Db -> A + StoreError) c :
  cache_of cache set good -> coherent c ->
  (forall db a, good db k a -> get db = inl a) -> (forall db a, get db = inl a -> good db k a) ->
  refines coherent (H := cached_blockchainStore) (cached_get cache set k get) (db_read get) c.
Proof.
  intros Hca Hc Hget Hgood a db o [= <- <- <-]. cbn. unfold cached_get.
  pose proof (lru_Get_found (cache c) k) as Hf. pose proof (fun k' => lru_Get_peek (cache c) k k') as Hp.
  destruct (lru_Get (cache c) k) as [found cache']. cbn in Hf, Hp.
  assert (Hc' : coherent (set (fun _ => cache') c)).
  { apply (ca_set _ _ _ Hca); [done|]. intros k' a'. rewrite Hp. by apply (ca_good _ _ _ Hca). }
  pose proof (ca_raw _ _ _ Hca (fun _ => cache') c) as Hraw. destruct found as [a|].
  - eexists. split; [|split; [exact Hraw|exact Hc']]. f_equal. f_equal. f_equal. symmetry. apply Hget.
    by apply (ca_good _ _ _ Hca c k).
  - rewrite Hraw. destruct (get (cs_raw c)) as [a|e] eqn:Hg; eexists; (split; [reflexivity|]).
    + split; [by rewrite (ca_raw _ _ _ Hca)|]. eapply cache_add; [exact Hca|done|]. rewrite Hraw. by apply Hgood.
    + by split.
Qed.

Lemma cached_GetBlockHash_refines n c :
  coherent c -> is_u64 n ->
  refines coherent (H := cached_blockchainStore) (cached_GetBlockHash n) (db_read (fun db => GetBlockHash db n)) c.
Proof. intros Hc Hn. eapply cached_get_refines; [apply hash_cache|done|by intros db a []|done]. Qed.

Lemma cached_PutBlockHash_refines n h c :
  coherent c -> is_u64 n -> length h = HashLength ->
  refines coherent (H := cached_blockchainStore) (cached_PutBlockHash n h) (PutBlockHash n h) c.
Proof.
  intros Hc Hn Hh a db o [= <- <- <-]. cbn. eexists. split; [reflexivity|]. split; [done|].
  assert (Hget : GetBlockHash (<[heightToHashKey n := h]> (cs_raw c)) n = inl h).
  { unfold GetBlockHash. by rewrite lookup_insert_eq, BytesToHash_hash. }
  destruct Hc as [Hcn Hch Hct Hcb]. constructor; cbn.
  - intros m x Hx. destruct (lru_Add_peek _ _ _ _ _ Hx) as [[-> ->]|[Hne Hp]]; [done|].
    destruct (Hcn m x Hp) as [Hm Hg]. split; [done|]. unfold GetBlockHash in *.
    rewrite lookup_insert_ne; [done|]. intros He. by apply Hne, heightToHashKey_inj.
  - intros k x Hx. unfold GetBlockHeader. rewrite lookup_insert_ne by done. by apply Hch.
  - intros k x Hx. unfold GetBlockTotalDifficulty. rewrite lookup_insert_ne by done. by apply Hct.
  - intros k x Hx. rewrite (GetBlock_same (cs_raw c)); [by apply Hcb|].
    repeat split; intros; by rewrite lookup_insert_ne.
Qed.

Lemma cached_DeleteBlockHash_refines n c :
  coherent c -> is_u64 n ->
  refines coherent (H := cached_blockchainStore) (cached_DeleteBlockHash n) (DeleteBlockHash n) c.
Proof.
  intros Hc Hn a db o Hrun. cbn in *. unfold cached_DeleteBlockHash, go_bind, go_modify, on_raw. cbn. rewrite Hrun.
  eexists. split; [reflexivity|]. split; [done|].
  pose proof (cache_remove _ _ _ c n hash_cache Hc) as Hc'.
  apply (coherent_same (set_hashCache (fun x => lru_Remove x n) c)); [done|..]; cbn; unfold DeleteBlockHash, go_bind, go_get in Hrun;
    case_bool_decide; cbn in Hrun; injection Hrun as <- <- <-; try done.
  - repeat split; intros; by rewrite lookup_delete_ne.
  - intros m x Hx. destruct (lru_Remove_peek _ _ _ _ Hx) as [Hne Hp]. unfold GetBlockHash.
    rewrite lookup_delete_ne; [done|]. intros He.
    apply Hne. symmetry. apply heightToHashKey_inj; [done| |done]. by apply (co_hash c Hc m x).
Qed.

(** The caches after a header or a block was put. *)
Lemma coherent_put c hash header td isHead hb tb bb (blk : option Block) db' :
  coherent c -> storable_header hash header -> enc_header header = Some hb -> enc_td td = Some tb ->
  same_but_indices (apply_batch (cs_raw c) (put_batch hash header hb tb bb isHead)) db' ->
  match blk with
  | Some b => GetBlock db' hash = inl b
  | None => forall x, GetBlock (cs_raw c) hash = inl x -> GetBlock db' hash = inl x
  end ->
  coherent (mkCached db' (if isHead then lru_Add (hashCache c) (h_Height header) hash else hashCache c)
    (lru_Add (headerCache c) hash header) (lru_Add (tdCache c) hash td)
    (match blk with Some b => lru_Add (blockCache c) hash b | None => blockCache c end)).
Proof.
  intros Hc Hst Hh Ht Hs Hblk.
  destruct (put_batch_read _ _ _ _ _ _ _ _ _ Hst Hh Ht Hs) as (Hrh & Hrt & Hrn & _).
  destruct (put_batch_others _ _ _ _ _ _ _ _ (proj1 (proj2 Hst)) Hs) as [Ho Hon].
  destruct Hc as [Hcn Hch Hct Hcb].
  assert (Hold : forall n x, lru_peek (hashCache c) n = Some x -> (isHead = true -> n <> h_Height header) -> is_u64 n /\ GetBlockHash db' n = inl x).
  { intros n x Hx Hne. destruct (Hcn n x Hx) as [Hn Hg]. split; [done|]. unfold GetBlockHash in *. by rewrite Hon. }
  constructor; cbn; intros k x Hx.
  - destruct isHead; [|by apply Hold]. destruct (lru_Add_peek _ _ _ _ _ Hx) as [[-> ->]|[Hne Hp]]; [|by apply Hold].
    split; [apply Hst|by apply Hrn].
  - destruct (lru_Add_peek _ _ _ _ _ Hx) as [[-> ->]|[Hne Hp]]; [done|].
    destruct (Ho k Hne) as (E & _). unfold GetBlockHeader. rewrite E. by apply Hch.
  - destruct (lru_Add_peek _ _ _ _ _ Hx) as [[-> ->]|[Hne Hp]]; [done|].
    destruct (Ho k Hne) as (_ & E & _). unfold GetBlockTotalDifficulty. rewrite E. by apply Hct.
  - assert (Hother : k <> hash -> lru_peek (blockCache c) k = Some x -> GetBlock db' k = inl x).
    { intros Hne Hp. destruct (Ho k Hne) as (E1 & _ & E2). rewrite <-(Hcb k x Hp). unfold GetBlock, GetBlockHeader. by rewrite E1, E2. }
    destruct blk as [b|].
    + destruct (lru_Add_peek _ _ _ _ _ Hx) as [[-> ->]|[Hne Hp]]; [done|by apply Hother].
    + destruct (decide (k = hash)) as [->|Hne]; [by apply Hblk, Hcb|by apply Hother].
Qed.

Lemma cached_PutBlock_refines b td isHead c :
  coherent c -> storable b ->
  refines coherent (H := cached_blockchainStore) (cached_PutBlock b td isHead) (PutBlock b td isHead) c.
Proof.
  intros Hc Hb a db o Hrun. cbn in *. unfold cached_PutBlock, go_bind, go_modify, on_raw, go_ret. rewrite Hrun.
  destruct (putBlockInternal_outcome _ _ _ _ _ _ _ _ _ Hrun) as [(-> & -> & hb & tb & bb & Hh & Ht & [Hbd Hsome] & Hs)|([e ->] & -> & ->)].
  2: { eexists. split; [reflexivity|]. split; [done|]. by destruct c. }
  pose proof (coherent_put c _ _ td isHead hb tb bb (Some b) db Hc Hb Hh Ht Hs) as Hput.
  destruct (put_batch_read _ _ _ _ _ _ _ _ _ Hb Hh Ht Hs) as (Hrh & _ & _ & Hrb). destruct bb as [bb|]; [|by destruct Hsome].
  assert (Hg : GetBlock db (b_HeaderHash b) = inl b).
  { unfold GetBlock. rewrite Hrh, Hrb, (dec_enc_body _ _ Hbd). by destruct b. }
  specialize (Hput Hg). destruct isHead; (eexists; split; [reflexivity|]; split; [done|]; exact Hput).
Qed.

Lemma cached_PutBlockHeader_refines h hd td isHead c :
  coherent c -> storable_header h hd -> (forall hd', GetBlockHeader (cs_raw c) h = inl hd' -> hd' = hd) ->
  refines coherent (H := cached_blockchainStore) (cached_PutBlockHeader h hd td isHead) (PutBlockHeader h hd td isHead) c.
Proof.
  intros Hc Hst Hsame a db o Hrun. cbn in *. unfold cached_PutBlockHeader, go_bind, go_modify, on_raw, go_ret. rewrite Hrun.
  destruct (putBlockInternal_outcome h hd None td isHead _ _ _ _ Hrun) as [(-> & -> & hb & tb & bb & Hh & Ht & -> & Hs)|([e ->] & -> & ->)].
  2: { eexists. split; [reflexivity|]. split; [done|]. by destruct c. }
  pose proof (coherent_put c _ _ td isHead hb tb None None db Hc Hst Hh Ht Hs) as Hput.
  destruct (put_batch_read _ _ _ _ _ _ _ _ _ Hst Hh Ht Hs) as (Hrh & _ & _ & Hrb).
  assert (Hg : forall x, GetBlock (cs_raw c) h = inl x -> GetBlock db h = inl x).
  { intros x. unfold GetBlock. rewrite Hrh, Hrb. destruct (GetBlockHeader (cs_raw c) h) as [hd'|]; [|done]. by rewrite (Hsame hd'). }
  specialize (Hput Hg). destruct isHead; (eexists; split; [reflexivity|]; split; [done|]; exact Hput).
Qed.

Lemma cached_HasBlock_refines h c :
  coherent c -> refines coherent (H := cached_blockchainStore) (cached_HasBlock h) (db_read (fun db => HasBlock db h)) c.
Proof.
  intros Hc a db o [= <- <- <-]. cbn. unfold cached_HasBlock, go_bind, go_get, go_ret.
  destruct (lru_Contains (headerCache c) h) eqn:Hk; [|exists c; by destruct c].
  exists c. split; [|done]. destruct (lru_Contains_peek _ _ Hk) as [x Hx]. apply (co_header _ Hc) in Hx.
  unfold HasBlock. rewrite bool_decide_true; [done|]. revert Hx. unfold GetBlockHeader, read_with. by destruct (_ !! _).
Qed.

Lemma cached_RecoverHeightToBlockMap_refines b c :
  coherent c -> storable b ->
  refines coherent (H := cached_blockchainStore) (cached_RecoverHeightToBlockMap b) (RecoverHeightToBlockMap b) c.
Proof.
  intros Hc (Hlen & Hu & _) a db o [= <- <- <-]. cbn. eexists. split; [reflexivity|]. split; [done|].
  set (db' := apply_batch _ _).
  assert (Hs : same_but_indices (<[heightToHashKey (h_Height (b_Header b)) := b_HeaderHash b]> (cs_raw c)) db').
  { unfold db'. rewrite apply_batch_app. apply (apply_batch_proper _ _ (apply_index_batch _ _ (batchAddIndices_keys _ _ _)) [(_, Some _)] _ eq_refl). }
  destruct Hc as [Hcn Hch Hct Hcb]. constructor; cbn.
  - intros m x Hx. unfold GetBlockHash. rewrite Hs by done. destruct (lru_Add_peek _ _ _ _ _ Hx) as [[-> ->]|[Hne Hp]].
    + split; [done|]. by rewrite lookup_insert_eq, BytesToHash_hash.
    + destruct (Hcn m x Hp) as [Hm Hg]. split; [done|]. unfold GetBlockHash in Hg.
      rewrite lookup_insert_ne; [done|]. intros He. by apply Hne, heightToHashKey_inj.
  - intros k x Hx. unfold GetBlockHeader. rewrite Hs, lookup_insert_ne by done. by apply Hch.
  - intros k x Hx. unfold GetBlockTotalDifficulty. rewrite Hs, lookup_insert_ne by done. by apply Hct.
  - intros k x Hx. rewrite (GetBlock_same (cs_raw c)); [by apply Hcb|].
    repeat split; intros; by rewrite Hs, lookup_insert_ne by done.
Qed.

Lemma cached_DeleteBlock_refines h c :
  coherent c ->
  refines coherent (H := cached_blockchainStore) (cached_DeleteBlock h) (DeleteBlock h) c
  \/ ((forall hd, GetBlockHeader (cs_raw c) h = inl hd -> exists e, GetBlockHash (cs_raw c) (h_Height hd) = inr e)
      /\ exists err s', cached_DeleteBlock h c = Some (Some err, s', []) /\ cs_raw s' = cs_raw c /\ coherent s').
Proof.
  intros Hc. unfold cached_DeleteBlock. destruct (GetBlockHeader (cs_raw c) h) as [hd|e] eqn:Hhd.
  2: { right. split; [done|]. exists e, c. unfold go_bind, on_raw, db_read. rewrite Hhd. by destruct c. }
  assert (Hu : is_u64 (h_Height hd)).
  { revert Hhd. unfold GetBlockHeader, read_with. case_match; [|done]. case_match eqn:Hdec; [|done].
    intros [= <-]. by eapply dec_header_height. }
  destruct (cached_GetBlockHash_refines (h_Height hd) c Hc Hu _ _ _ eq_refl) as (c1 & Hget & Hraw & Hc1).
  change (store_db c) with (cs_raw c) in Hget. cbv beta in Hget. cbn in Hraw.
  assert (Hhdr : on_raw (db_read (fun db => GetBlockHeader db h)) c = Some (inl hd, c, [])).
  { unfold on_raw, db_read. rewrite Hhd. by destruct c. }
  destruct (GetBlockHash (cs_raw c) (h_Height hd)) as [canon|e] eqn:Hcanon.
  2: { right. split; [intros ? [= <-]; by eexists|]. exists e, c1. unfold go_bind. rewrite Hhdr, Hget. by split. }
  left. intros a db o Hrun. change (store_db c) with (cs_raw c) in Hrun.
  set (c2 := if bytes_eqb canon h then set_hashCache (fun cache => lru_Remove cache (h_Height hd)) c1 else c1).
  assert (Hc2 : coherent c2 /\ cs_raw c2 = cs_raw c).
  { unfold c2. destruct (bytes_eqb canon h); [|by split]. split; [|exact Hraw]. by eapply cache_remove; [apply hash_cache|]. }
  destruct Hc2 as [Hc2 Hraw2].
  set (c3 := set_blockCache (fun cache => lru_Remove cache h) (set_tdCache (fun cache => lru_Remove cache h)
    (set_headerCache (fun cache => lru_Remove cache h) c2))).
  exists (with_raw db c3). split; [|split; [done|]].
  - unfold go_bind. rewrite Hhdr, Hget.
    assert (Hif : (if bytes_eqb canon h then go_modify (O := Db) (set_hashCache (fun cache => lru_Remove cache (h_Height hd)))
      else go_ret tt) c1 = Some (tt, c2, [])) by (unfold c2; by destruct (bytes_eqb canon h)).
    rewrite Hif. cbn -[DeleteBlock]. unfold on_raw. cbn -[DeleteBlock]. by rewrite Hraw2, Hrun.
  - destruct (DeleteBlock_outcome _ _ _ _ _ Hrun) as (Ho & Hn & _ & _).
    destruct Hc2 as [Hcn Hch Hct Hcb]. rewrite Hraw2 in Hcn, Hch, Hct, Hcb. constructor; cbn; intros k x Hx.
    + unfold GetBlockHash. rewrite Hn. by apply Hcn.
    + destruct (lru_Remove_peek _ _ _ _ Hx) as [Hne Hp]. destruct (Ho k Hne) as (E & _).
      unfold GetBlockHeader. rewrite E. by apply Hch.
    + destruct (lru_Remove_peek _ _ _ _ Hx) as [Hne Hp]. destruct (Ho k Hne) as (_ & E & _).
      unfold GetBlockTotalDifficulty. rewrite E. by apply Hct.
    + destruct (lru_Remove_peek _ _ _ _ Hx) as [Hne Hp]. destruct (Ho k Hne) as (E1 & _ & E2).
      rewrite <-(Hcb k x Hp). unfold GetBlock, GetBlockHeader. by rewrite E1, E2.
Qed.

Lemma read_refines {A} (f : Db -> A) c :
  coherent c -> refines coherent (H := cached_blockchainStore) (on_raw (db_read f)) (db_read f) c.
Proof. intros Hc. apply on_raw_refines; [done|]. by intros a db o [= <- <- <-]. Qed.

Lemma index_refines {A} (m : DbM A) c :
  coherent c -> (forall a db o, m (cs_raw c) = Some (a, db, o) -> same_but_indices (cs_raw c) db) ->
  refines coherent (H := cached_blockchainStore) (on_raw m) m c.
Proof.
  intros Hc Hm. apply on_raw_refines; [done|]. intros a db o Hrun. specialize (Hm _ _ _ Hrun).
  split; [by apply same_but_indices_blocks|]. intros n. by apply GetBlockHash_same.
Qed.

(** Every operation of the cached store does to its database what the database alone
    would do, and answers the same. *)
#[export] Instance cached_laws : @StoreLaws cachedStore _ cached_blockchainStore.
Proof.
  refine {| store_inv := coherent |}; cbn.
  - intros db. split; [|done]. constructor; cbn; intros k x; by rewrite lru_New_peek.
  - intros; by apply cached_GetBlockHash_refines.
  - intros; by apply cached_PutBlockHash_refines.
  - intros; by apply cached_DeleteBlockHash_refines.
  - intros; by apply read_refines.
  - intros h c Hc. apply on_raw_refines; [done|]. intros a db o [= <- <- <-].
    split; [repeat split; intros; by rewrite lookup_insert_ne|]. intros n. unfold GetBlockHash.
    by rewrite lookup_insert_ne by apply head_key_height.
  - intros h c Hc. eapply cached_get_refines; [apply header_cache|done..].
  - intros h c Hc. eapply cached_get_refines; [apply td_cache|done..].
  - intros; by apply cached_PutBlockHeader_refines.
  - intros; by apply cached_PutBlock_refines.
  - intros; by apply cached_HasBlock_refines.
  - intros; by apply read_refines.
  - intros; by apply cached_RecoverHeightToBlockMap_refines.
  - intros; by apply read_refines.
  - intros; by apply read_refines.
  - intros; by apply read_refines.
  - intros h c Hc. eapply cached_get_refines; [apply block_cache|done..].
  - intros h l c Hc. apply on_raw_refines; [done|]. unfold PutReceipts. destruct (enc_receipts l).
    + intros a db o [= <- <- <-]. split; [repeat split; intros; by rewrite lookup_insert_ne|].
      intros n. unfold GetBlockHash. by rewrite lookup_insert_ne.
    + by intros a db o [= <- <- <-].
  - intros b c Hc. apply index_refines; [done|]. intros a db o [= <- <- <-].
    apply apply_index_batch, batchAddIndices_keys.
  - intros b c Hc. apply index_refines; [done|]. intros a db o. unfold DeleteIndices, go_bind, go_get.
    pose proof (batchDeleteIndices_keys (cs_raw c) (b_HeaderHash b) (b_Transactions b) (b_Debts b)) as Hk.
    destruct (batchDeleteIndices _ _ _ _) as [batch [e|]]; intros [= <- <- <-]; [done|by apply apply_index_batch].
  - intros; by apply read_refines.
  - intros h c Hc. by apply cached_DeleteBlock_refines.
Qed.
End cached.
