(* ===== verification/ChainTree.v ===== *)
(** * Blocks and their ancestors

    The blocks of a store are a tree by their parents. The chain of a block is the
    block and its ancestors; the height to hash mapping is canonical for a head when
    it is the chain of the head. *)

From Stdlib Require Import ZArith Lia.
From S2P Require Import Prelude Common BftHeader StateDb Svm EvmWord EvmStore Trie TrieCommit ChainStore ChainLaws.

Open Scope Z_scope.

Abbreviation Tree := (Hash -> option BlockHeader).

(** Every block has its parent below it; a block without one is a genesis. The next
    height of every block is a 64-bit number. *)
Record tree_ok (T : Tree) : Prop := {
  tr_hash h hd : T h = Some hd -> length h = HashLength /\ h <> EmptyHash /\ 0 <= h_Height hd < 2 ^ 64 - 2;
  tr_parent h hd : T h = Some hd ->
    (h_Height hd = 0 /\ h_PreviousBlockHash hd = EmptyHash)
    \/ exists hp, T (h_PreviousBlockHash hd) = Some hp /\ h_Height hp = h_Height hd - 1
}.

(** [h] is the block at height [n] of the chain of [x]. *)
Inductive on_chain (T : Tree) : Hash -> Z -> Hash -> Prop :=
| oc_here x hd : T x = Some hd -> on_chain T x (h_Height hd) x
| oc_up x hd n h : T x = Some hd -> on_chain T (h_PreviousBlockHash hd) n h -> on_chain T x n h.

#[export] Hint Constructors on_chain : seele.

Section tree.
Context (T : Tree) (HT : tree_ok T).

Lemma no_empty_block : T EmptyHash = None.
Proof. destruct (T EmptyHash) as [hd|] eqn:E; [|done]. by destruct (tr_hash _ HT _ _ E) as (_ & []). Qed.

Lemma on_chain_heights x n h :
  on_chain T x n h -> exists hx hd, T x = Some hx /\ T h = Some hd /\ h_Height hd = n /\ n <= h_Height hx.
Proof.
  induction 1 as [x hd Hx|x hd n h Hx _ (hp & hh & Hp & Hh & Hn & Hle)]; [exists hd, hd; repeat split; done || lia|].
  exists hd, hh. repeat split; [done..|]. destruct (tr_parent _ HT _ _ Hx) as [[_ He]|(hp' & Hp' & Hhp)].
  - rewrite He, no_empty_block in Hp. done.
  - rewrite Hp' in Hp. injection Hp as ->. lia.
Qed.

Lemma on_chain_fun x n h h' : on_chain T x n h -> on_chain T x n h' -> h = h'.
Proof.
  intros H1. revert h'. induction H1 as [x hd Hx|x hd n h Hx H1 IH]; intros h' H2.
  - inversion H2 as [? hd' Hx' E|? hd' ? ? Hx' Hup]; subst; [done|]. rewrite Hx in Hx'. injection Hx' as <-.
    destruct (on_chain_heights _ _ _ Hup) as (hp & _ & Hp & _ & _ & Hle).
    destruct (tr_parent _ HT _ _ Hx) as [[_ He]|(hp' & Hp' & Hhp)]; [by rewrite He, no_empty_block in Hp|].
    rewrite Hp' in Hp. injection Hp as ->. lia.
  - inversion H2 as [? hd' Hx'|? hd' ? ? Hx' Hup]; subst; rewrite Hx in Hx'; injection Hx' as <-; [|by apply IH].
    destruct (on_chain_heights _ _ _ H1) as (hp & _ & Hp & _ & _ & Hle).
    destruct (tr_parent _ HT _ _ Hx) as [[_ He]|(hp' & Hp' & Hhp)]; [by rewrite He, no_empty_block in Hp|].
    rewrite Hp' in Hp. injection Hp as ->. lia.
Qed.

Lemma on_chain_total x hx n : T x = Some hx -> 0 <= n <= h_Height hx -> exists h, on_chain T x n h.
Proof.
  intros Hx Hn. remember (Z.to_nat (h_Height hx - n)) as k eqn:Hk. revert x hx Hx Hn Hk.
  induction k as [|k IH]; intros x hx Hx Hn Hk.
  - exists x. replace n with (h_Height hx) by lia. by constructor.
  - destruct (tr_parent _ HT _ _ Hx) as [[H0 _]|(hp & Hp & Hhp)]; [lia|].
    destruct (IH _ _ Hp) as [h Hh]; [lia..|]. exists h. by econstructor.
Qed.

Lemma on_chain_trans x n h m k : on_chain T x n h -> on_chain T h m k -> on_chain T x m k.
Proof. induction 1; [done|]. intros. econstructor; eauto. Qed.

(** Two chains that share a block share everything below it. *)
Lemma on_chain_meet x y n h m k :
  on_chain T x n h -> on_chain T y n h -> m <= n -> on_chain T x m k -> on_chain T y m k.
Proof.
  intros Hx Hy Hm Hk. apply (on_chain_trans y n h); [done|].
  destruct (on_chain_heights _ _ _ Hx) as (_ & hd & _ & Hh & <- & _).
  destruct (on_chain_heights _ _ _ Hk) as (_ & hk & _ & Hhk & <- & _).
  assert (0 <= h_Height hk) by (apply (tr_hash _ HT) in Hhk; lia).
  destruct (on_chain_total h hd (h_Height hk) Hh) as [k' Hk']; [lia|].
  by rewrite (on_chain_fun x _ k k' Hk (on_chain_trans _ _ _ _ _ Hx Hk')).
Qed.

Lemma on_chain_self x n : on_chain T x n x -> exists hd, T x = Some hd /\ h_Height hd = n.
Proof. intros (hx & hd & Hx & Hh & Hn & _)%on_chain_heights. eauto. Qed.

(** The parent is the block one below. *)
Lemma on_chain_parent x hx : T x = Some hx -> 0 < h_Height hx ->
  on_chain T x (h_Height hx - 1) (h_PreviousBlockHash hx).
Proof.
  intros Hx Hpos. destruct (tr_parent _ HT _ _ Hx) as [[H0 _]|(hp & Hp & Hhp)]; [lia|].
  eapply oc_up; [exact Hx|]. rewrite <-Hhp. by constructor.
Qed.
End tree.

(** A tree that has more blocks has the same chains of the old ones. *)
Lemma on_chain_grow (T T' : Tree) x n h :
  (forall k hd, T k = Some hd -> T' k = Some hd) -> on_chain T x n h -> on_chain T' x n h.
Proof. intros Hsub. induction 1; econstructor; eauto. Qed.

Lemma on_chain_grow_inv (T T' : Tree) x hx n h :
  tree_ok T -> tree_ok T' -> (forall k hd, T k = Some hd -> T' k = Some hd) -> T x = Some hx ->
  on_chain T' x n h -> on_chain T x n h.
Proof.
  intros HT HT' Hsub Hx Hn. destruct (on_chain_heights _ HT' _ _ _ Hn) as (hx' & hh & Hx' & Hh & <- & Hle).
  rewrite (Hsub _ _ Hx) in Hx'. injection Hx' as <-. assert (0 <= h_Height hh) by (apply (tr_hash _ HT') in Hh; lia).
  destruct (on_chain_total _ HT _ _ (h_Height hh) Hx) as [h' Hh']; [lia|].
  by rewrite (on_chain_fun _ HT' _ _ _ _ Hn (on_chain_grow _ _ _ _ _ Hsub Hh')).
Qed.

(** ** The blocks of a database *)

Section database.
Context `{StoreCodec}.

(** The blocks can be read; they have no debts, as on a chain of one shard. *)
Definition has_tree (db : Db) (T : Tree) : Prop :=
  forall h, match T h with
            | Some hd => GetBlockHeader db h = inl hd
                /\ exists b, GetBlock db h = inl b /\ b_HeaderHash b = h /\ b_Header b = hd /\ b_Debts b = []
            | None => db !! hashToHeaderKey h = None
            end.

Definition mapped (db : Db) (n : Z) (h : Hash) : Prop := db !! heightToHashKey n = Some h.

(** The mapping is the chain of the head. *)
Definition canonical (db : Db) (T : Tree) (head : Hash) : Prop :=
  has_tree db T /\ db !! keyHeadBlockHash = Some head /\ is_Some (T head)
  /\ forall n h, is_u64 n -> mapped db n h <-> on_chain T head n h.

(** The mapping on the way from the chain of [o] to that of [b]: the chain of [b]
    between the two heights, the chain of [o] outside. *)
Definition spliced (db : Db) (T : Tree) (o b : Hash) (lo hi : Z) : Prop :=
  forall n h, is_u64 n ->
    mapped db n h <-> (lo < n < hi /\ on_chain T b n h) \/ ((n <= lo \/ hi <= n) /\ on_chain T o n h).

Lemma has_tree_same db db' T :
  (forall h, db' !! hashToHeaderKey h = db !! hashToHeaderKey h) ->
  (forall h, db' !! hashToBodyKey h = db !! hashToBodyKey h) -> has_tree db T -> has_tree db' T.
Proof.
  intros Hh Hb Ht h. specialize (Ht h). unfold GetBlock, GetBlockHeader in *. by rewrite Hh, Hb.
Qed.

Lemma has_tree_indices db db' T : same_but_indices db db' -> has_tree db T -> has_tree db' T.
Proof. intros Hs. apply has_tree_same; intros h; by apply Hs. Qed.

Lemma spliced_indices db db' T o b lo hi :
  same_but_indices db db' -> spliced db T o b lo hi -> spliced db' T o b lo hi.
Proof. intros Hs Hsp n h Hn. unfold mapped. rewrite Hs by done. by apply Hsp. Qed.

Lemma GetBlockHash_mapped db T n : tree_ok T ->
  (forall h, mapped db n h -> is_Some (T h)) ->
  match GetBlockHash db n with
  | inl h => mapped db n h
  | inr e => e = ErrNotFound /\ forall h, ~ mapped db n h
  end.
Proof.
  intros HT Hm. unfold GetBlockHash, mapped in *. destruct (db !! heightToHashKey n) as [h|] eqn:E; [|by split].
  destruct (Hm h eq_refl) as [hd Hhd]. rewrite BytesToHash_hash; [done|]. by apply (tr_hash _ HT) in Hhd as (? & _).
Qed.
End database.
