(* ===== verification/ChainProofs.v ===== *)
(** * The canonical chain is kept

    A logic for the code of [ChainCanon] over any store that keeps the laws: [chp] is
    total correctness with a condition on every disk that the code passes through.
    With it: the loops that update the mapping end, and writing a block makes the
    mapping the chain of that block. *)

From Stdlib Require Import ZArith Lia.
From S2P Require Import Prelude Common BftHeader StateDb Svm EvmWord EvmStore Trie TrieCommit ChainStore ChainLaws ChainCanon ChainTree.

Open Scope Z_scope.
Open Scope go_scope.

Section chain.
Context {S : Type} `{StoreCodec} `{BlockchainStore S} `{!StoreLaws S} `{!StoreCodecLaws}.
Implicit Types (db : Db) (rp : recoveryPoint) (file : RpFile) (C : Disk -> Prop) (T : Tree).

Abbreviation ChM A := (GoM (ChainState S) Disk A).

(** ** The logic *)

Definition holds (c : ChainState S) db rp file : Prop :=
  store_db (ch_store c) = db /\ store_inv (ch_store c) /\ ch_rp c = rp /\ ch_file c = file.

Definition chp {A} (m : ChM A) db rp file C (Q : A -> Db -> recoveryPoint -> RpFile -> Prop) : Prop :=
  forall c, holds c db rp file ->
  wp m c (fun a c' o => Forall C o /\ exists db' rp' file', holds c' db' rp' file' /\ Q a db' rp' file').

Lemma chp_mono {A} (m : ChM A) db rp file C C' (Q Q' : A -> Db -> recoveryPoint -> RpFile -> Prop) :
  chp m db rp file C Q -> (forall d, C d -> C' d) -> (forall a db rp file, Q a db rp file -> Q' a db rp file) ->
  chp m db rp file C' Q'.
Proof.
  intros Hm HC HQ c Hc. eapply wp_mono; [by apply Hm|]. intros a c' o (Ho & db' & rp' & file' & Hh & Hq).
  split; [by eapply Forall_impl|]. eauto 10.
Qed.

Lemma chp_post {A} (m : ChM A) db rp file C (Q Q' : A -> Db -> recoveryPoint -> RpFile -> Prop) :
  chp m db rp file C Q -> (forall a db rp file, Q a db rp file -> Q' a db rp file) -> chp m db rp file C Q'.
Proof. intros. by eapply chp_mono. Qed.

Lemma chp_ret {A} (a : A) db rp file C (Q : A -> Db -> recoveryPoint -> RpFile -> Prop) :
  Q a db rp file -> chp (go_ret a) db rp file C Q.
Proof. intros HQ c Hc. apply wp_ret. split; [done|]. eauto 10. Qed.

Lemma chp_bind {A B} (m : ChM A) (k : A -> ChM B) db rp file C (Q : B -> Db -> recoveryPoint -> RpFile -> Prop) :
  chp m db rp file C (fun a db' rp' file' => chp (k a) db' rp' file' C Q) -> chp (go_bind m k) db rp file C Q.
Proof.
  intros Hm c Hc. apply wp_bind. eapply wp_mono; [by apply Hm|].
  intros a c1 o1 (Ho & db' & rp' & file' & Hh & Hk). eapply wp_mono; [by apply Hk|].
  intros b c2 o2 (Ho2 & Hq). split; [by apply Forall_app|done].
Qed.

Lemma chp_op {A} (m : GoM S Db A) (raw : DbM A) db rp file C (Q : A -> Db -> recoveryPoint -> RpFile -> Prop) :
  (forall s, store_inv s -> refines store_inv m raw s) ->
  wp raw db (fun a db' o => Forall (fun d => C (d, file)) o /\ Q a db' rp file) ->
  chp (on_store m) db rp file C Q.
Proof.
  intros Hm Hraw c (<- & Hinv & <- & <-). unfold wp in Hraw.
  destruct (raw (store_db (ch_store c))) as [[[a db'] o]|] eqn:Hrun; [|done]. destruct Hraw as [Ho HQ].
  destruct (Hm _ Hinv _ _ _ Hrun) as (s' & Heq & Hdb & Hinv'). unfold wp, on_store. rewrite Heq.
  split; [by apply Forall_map|]. by exists db', (ch_rp c), (ch_file c).
Qed.

Lemma chp_read {A} (m : GoM S Db A) (f : Db -> A) db rp file C (Q : A -> Db -> recoveryPoint -> RpFile -> Prop) :
  (forall s, store_inv s -> refines store_inv m (db_read f) s) ->
  Q (f db) db rp file -> chp (on_store m) db rp file C Q.
Proof. intros Hm HQ. eapply chp_op; [done|]. by split. Qed.

Lemma chp_modify f db rp file C (Q : unit -> Db -> recoveryPoint -> RpFile -> Prop) :
  Q tt db (f rp) file -> chp (modify_rp f) db rp file C Q.
Proof.
  intros HQ c (Hdb & Hinv & <- & <-). apply wp_modify. split; [done|]. by exists db, (f (ch_rp c)), (ch_file c).
Qed.

Lemma chp_serialize db rp file C (Q : unit -> Db -> recoveryPoint -> RpFile -> Prop) :
  C (db, NotJson) -> C (db, Json rp) -> Q tt db rp (Json rp) -> chp serialize db rp file C Q.
Proof.
  intros HC HC' HQ c (<- & Hinv & <- & <-). unfold wp, serialize. split; [by repeat constructor|].
  by exists (store_db (ch_store c)), (ch_rp c), (Json (ch_rp c)).
Qed.

Lemma chp_get {A} (k : ChainState S -> ChM A) db rp file C (Q : A -> Db -> recoveryPoint -> RpFile -> Prop) :
  (forall c, holds c db rp file -> chp (k c) db rp file C Q) -> chp (go_bind go_get k) db rp file C Q.
Proof. intros Hk c Hc. apply wp_bind, wp_get. eapply wp_mono; [by apply Hk|]. intros a c' o HQ. done. Qed.

(** ** The operations of a store *)

Lemma chp_GetBlockHash n db rp file C (Q : Hash + StoreError -> Db -> recoveryPoint -> RpFile -> Prop) :
  is_u64 n -> Q (GetBlockHash db n) db rp file -> chp (on_store (bs_GetBlockHash n)) db rp file C Q.
Proof. intros Hn. apply chp_read with (f := fun db => GetBlockHash db n). intros. by apply GetBlockHash_law. Qed.

Lemma chp_GetBlock h db rp file C (Q : Block + StoreError -> Db -> recoveryPoint -> RpFile -> Prop) :
  Q (GetBlock db h) db rp file -> chp (on_store (bs_GetBlock h)) db rp file C Q.
Proof. apply chp_read with (f := fun db => GetBlock db h). intros. by apply GetBlock_law. Qed.

Lemma chp_GetBlockHeader h db rp file C (Q : BlockHeader + StoreError -> Db -> recoveryPoint -> RpFile -> Prop) :
  Q (GetBlockHeader db h) db rp file -> chp (on_store (bs_GetBlockHeader h)) db rp file C Q.
Proof. apply chp_read with (f := fun db => GetBlockHeader db h). intros. by apply GetBlockHeader_law. Qed.

Lemma chp_PutBlockHash n h db rp file C (Q : unit -> Db -> recoveryPoint -> RpFile -> Prop) :
  is_u64 n -> length h = HashLength ->
  C (<[heightToHashKey n := h]> db, file) -> Q tt (<[heightToHashKey n := h]> db) rp file ->
  chp (on_store (bs_PutBlockHash n h)) db rp file C Q.
Proof.
  intros Hn Hh HC HQ. eapply chp_op; [intros; by apply PutBlockHash_law|]. by split; [constructor|].
Qed.

(** Deletions only make a database smaller. *)
Lemma apply_deletions db (batch : Batch) : Forall (fun op => op.2 = None) batch -> (size (apply_batch db batch) <= size db)%nat.
Proof.
  intros Hb. revert db. induction Hb as [|[k v] batch Hv _ IH]; intros db; [done|]. cbn in Hv. subst v.
  etransitivity; [apply IH|]. unfold apply_op. cbn. rewrite map_size_delete. destruct (db !! k); [|done]. apply Nat.le_pred_l.
Qed.

Lemma batchDeleteTxs_deletions db hash txs : Forall (fun op : bytes * option bytes => op.2 = None) (batchDeleteTxs db hash txs).
Proof.
  unfold batchDeleteTxs. apply Forall_flat_map, Forall_forall. intros tx _. repeat (case_match; try done).
  by repeat constructor.
Qed.

Lemma chp_DeleteIndices b db rp file C (Q : option StoreError -> Db -> recoveryPoint -> RpFile -> Prop) :
  b_Debts b = [] ->
  (forall db', same_but_indices db db' -> (size db' <= size db)%nat -> C (db', file) /\ Q None db' rp file) ->
  chp (on_store (bs_DeleteIndices b)) db rp file C Q.
Proof.
  intros Hb HQ. eapply chp_op; [intros; by apply DeleteIndices_law|]. unfold DeleteIndices.
  apply wp_bind, wp_get. rewrite Hb. cbn beta.
  pose proof (batchDeleteIndices_keys db (b_HeaderHash b) (b_Transactions b) []) as Hk.
  unfold batchDeleteIndices in *. cbn in *. rewrite app_nil_r in *.
  destruct (HQ (apply_batch db (batchDeleteTxs db (b_HeaderHash b) (b_Transactions b)))) as [HC HQ'];
    [by apply apply_index_batch|by apply apply_deletions, batchDeleteTxs_deletions|]. by split; [constructor|].
Qed.

Lemma chp_AddIndices b db rp file C (Q : unit -> Db -> recoveryPoint -> RpFile -> Prop) :
  (forall db', same_but_indices db db' -> C (db', file) /\ Q tt db' rp file) ->
  chp (on_store (bs_AddIndices b)) db rp file C Q.
Proof.
  intros HQ. eapply chp_op; [intros; by apply AddIndices_law|].
  destruct (HQ (apply_batch db (batchAddIndices (b_HeaderHash b) (b_Transactions b) (b_Debts b)))) as [HC HQ'];
    [apply apply_index_batch, batchAddIndices_keys|]. by split; [constructor|].
Qed.

Lemma chp_DeleteBlockHash n db rp file C (Q : bool -> Db -> recoveryPoint -> RpFile -> Prop) :
  is_u64 n ->
  (is_Some (db !! heightToHashKey n) ->
     C (base.delete (heightToHashKey n) db, file) /\ Q true (base.delete (heightToHashKey n) db) rp file) ->
  (db !! heightToHashKey n = None -> Q false db rp file) ->
  chp (on_store (bs_DeleteBlockHash n)) db rp file C Q.
Proof.
  intros Hn Ht Hf. eapply chp_op; [intros; by apply DeleteBlockHash_law|]. unfold DeleteBlockHash.
  apply wp_bind, wp_get. cbn beta. case_bool_decide as Hk.
  - destruct (Ht Hk). by split; [constructor|].
  - apply wp_ret. split; [done|]. by apply Hf, eq_None_not_Some.
Qed.

(** ** The loops *)

Definition going db T (o b : Hash) (lo hi : Z) : Prop :=
  has_tree db T /\ db !! keyHeadBlockHash = Some b /\ spliced db T o b lo hi.

Lemma going_indices db db' T o b lo hi : same_but_indices db db' -> going db T o b lo hi -> going db' T o b lo hi.
Proof.
  intros Hs (Ht & Hh & Hsp). split; [by eapply has_tree_indices|]. split; [by rewrite Hs|]. by eapply spliced_indices.
Qed.

(** The blocks from a header down to the genesis. *)
Definition chain_length (hd : BlockHeader) : nat := Datatypes.S (Z.to_nat (h_Height hd)).

Section loops.
Context (T : Tree) (HT : tree_ok T) (o b : Hash) (hb : BlockHeader) (Hb : T b = Some hb).

Lemma going_read db lo hi n : going db T o b lo hi -> is_u64 n ->
  match GetBlockHash db n with
  | inl h => mapped db n h /\ is_Some (T h)
  | inr e => e = ErrNotFound /\ forall h, ~ mapped db n h
  end.
Proof.
  intros (_ & _ & Hsp) Hn.
  assert (Hm : forall h, mapped db n h -> is_Some (T h)).
  { intros h [[_ Hc]|[_ Hc]]%Hsp; [..|done]; apply (on_chain_heights _ HT) in Hc as (? & ? & _ & Hh & _); by rewrite Hh. }
  pose proof (GetBlockHash_mapped db T n HT Hm) as Hg. destruct (GetBlockHash db n); [|done]. split; [done|by apply Hm].
Qed.

(** The blocks of a database with a tree can be read. *)
Lemma has_tree_read db h : has_tree db T -> is_Some (T h) ->
  exists blk, GetBlock db h = inl blk /\ b_HeaderHash blk = h /\ b_Debts blk = [].
Proof. intros Ht [hd Hh]. specialize (Ht h). rewrite Hh in Ht. destruct Ht as (_ & blk & Hg & He & _ & Hd). eauto. Qed.

Lemma has_tree_height db n (v : option bytes) :
  has_tree db T -> has_tree (match v with Some x => <[heightToHashKey n := x]> db
                             | None => base.delete (heightToHashKey n) db end) T.
Proof.
  intros Ht. eapply has_tree_same; [..|exact Ht]; intros h;
    destruct v; rewrite ?lookup_insert_ne, ?lookup_delete_ne by done; done.
Qed.

(** The mapping of the height above is deleted. *)
Lemma going_delete db lo i :
  going db T o b lo i -> lo < i -> h_Height hb < i -> is_u64 i ->
  going (base.delete (heightToHashKey i) db) T o b lo (i + 1).
Proof.
  intros (Ht & Hh & Hsp) Hlo Hi Hu. split; [by apply (has_tree_height db i None)|].
  split; [by rewrite lookup_delete_ne by (intros He; by apply (head_key_height i))|].
  intros n h Hn. unfold mapped. destruct (decide (n = i)) as [->|Hne].
  - rewrite lookup_delete_eq. split; [done|]. intros [[_ Hc]|[? _]]; [|lia].
    apply (on_chain_heights _ HT) in Hc as (hx & _ & Hx & _ & _ & Hle). rewrite Hb in Hx. injection Hx as <-. lia.
  - rewrite lookup_delete_ne by (intros He; apply Hne; symmetry; by apply heightToHashKey_inj).
    fold (mapped db n h). rewrite (Hsp n h Hn). split; (intros [[? ?]|[? ?]]; [left; split; [lia|done]|right; split; [lia|done]]).
Qed.

Lemma deleteCanonicalBlock_spec i lo db rp file C (Q : bool + StoreError -> Db -> recoveryPoint -> RpFile -> Prop) :
  going db T o b lo i -> lo < i -> h_Height hb < i -> is_u64 i ->
  (forall db', going db' T o b lo i \/ going db' T o b lo (i + 1) -> C (db', file)) ->
  (forall db', going db' T o b lo (i + 1) -> (size db' < size db)%nat -> i < 2 ^ 64 - 2 -> Q (inl true) db' rp file) ->
  ((forall n h, is_u64 n -> i <= n -> ~ on_chain T o n h) -> Q (inl false) db rp file) ->
  chp (deleteCanonicalBlock i) db rp file C Q.
Proof.
  intros Hg Hlo Hi Hu HC Htrue Hfalse. unfold deleteCanonicalBlock.
  apply chp_bind, chp_GetBlockHash; [done|]. pose proof (going_read _ _ _ _ Hg Hu) as Hr.
  destruct (GetBlockHash db i) as [h|e].
  2: { destruct Hr as [-> Hno]. apply chp_ret, Hfalse. intros n h Hn Hle Hc.
       destruct (on_chain_heights _ HT _ _ _ Hc) as (ho & _ & Ho & _ & _ & Hn').
       destruct (on_chain_total _ HT _ _ i Ho) as [k Hk]; [destruct Hu; lia|]. apply (Hno k), Hg; [done|]. right. split; [lia|done]. }
  destruct Hr as [Hm HTh]. destruct (has_tree_read db h (proj1 Hg) HTh) as (blk & Hblk & _ & Hd).
  apply chp_bind, chp_GetBlock. rewrite Hblk. apply chp_bind, chp_DeleteIndices; [done|]. intros db1 Hs Hsize.
  pose proof (going_indices _ _ _ _ _ _ _ Hs Hg) as Hg1. split; [by apply HC; left|].
  assert (Hm1 : db1 !! heightToHashKey i = Some h) by (rewrite Hs; [exact Hm|done]).
  pose proof (going_delete db1 lo i Hg1 Hlo Hi Hu) as Hg2.
  apply chp_bind, chp_DeleteBlockHash; [done| |by rewrite Hm1].
  intros _. split; [by apply HC; right|]. apply chp_ret, Htrue; [done| |].
  - rewrite map_size_delete, Hm1. assert (size db1 <> 0)%nat; [|lia].
    intros Hz%map_size_empty_iff. by rewrite Hz, lookup_empty in Hm1.
  - apply Hg in Hm; [|done].
    assert (exists hd, T h = Some hd /\ h_Height hd = i) as (hd & Hhd & <-); [|by apply (tr_hash _ HT) in Hhd; lia].
    destruct Hm as [[_ Hc]|[_ Hc]]; apply (on_chain_heights _ HT) in Hc as (_ & hd & _ & ? & ? & _); eauto.
Qed.

(** Nothing is mapped above the head. *)
Lemma going_done db lo i :
  going db T o b lo i -> h_Height hb < i -> (forall n h, is_u64 n -> i <= n -> ~ on_chain T o n h) ->
  going db T o b lo (2 ^ 64).
Proof.
  intros (Ht & Hh & Hsp) Hi Hno. split; [done|]. split; [done|]. intros n h Hn. rewrite (Hsp n h Hn).
  split; (intros [[? Hc]|[Hr Hc]]; [left; split; [|done]|right; split; [|done]]); destruct Hn; try lia.
  - destruct Hr; [by left|]. by destruct (Hno n h).
  - apply (on_chain_heights _ HT) in Hc as (hx & _ & Hx & _ & _ & Hle). rewrite Hb in Hx. injection Hx as <-. lia.
Qed.

(** The recovery point in memory while the larger heights are deleted, and the disks in
    between, whose file may be cut: without a recovery point it stays as it was. *)
Definition larger_rp (with_rp : bool) (rp0 rp : recoveryPoint) : Prop :=
  if with_rp then exists j, rp = set_LargerHeight j rp0 else rp = rp0.

Definition larger_disks (with_rp : bool) (lo : Z) (rp0 : recoveryPoint) (file0 : RpFile) (C : Disk -> Prop) : Prop :=
  forall db k f, going db T o b lo k -> h_Height hb < k ->
    (if with_rp then f = NotJson \/ exists j, f = Json (set_LargerHeight j rp0) /\ h_Height hb < j < 2 ^ 64 - 1 /\ (k = j \/ k = j + 1)
     else f = file0) ->
    C (db, f).

Lemma delete_larger_spec with_rp lo rp0 file0 C fuel : forall i db rp file,
  larger_disks with_rp lo rp0 file0 C ->
  going db T o b lo i -> lo < i -> h_Height hb < i -> is_u64 i -> (size db < fuel)%nat ->
  larger_rp with_rp rp0 rp -> (with_rp = false -> file = file0) -> (with_rp = true -> i < 2 ^ 64 - 1) ->
  chp (delete_larger fuel with_rp i) db rp file C (fun r db' rp' file' =>
    r = None /\ going db' T o b lo (2 ^ 64) /\ larger_rp with_rp rp0 rp' /\ (with_rp = false -> file' = file0)).
Proof.
  induction fuel as [|fuel IH]; intros i db rp file HC Hg Hlo Hi Hu Hf Hrp Hfile Hmaxi; [lia|]. cbn [delete_larger].
  apply chp_bind.
  assert (Hround : forall rp' file', larger_rp with_rp rp0 rp' -> (with_rp = false -> file' = file0) ->
    (if with_rp then file' = Json (set_LargerHeight i rp0) else True) ->
    chp (deleted <- deleteCanonicalBlock i ;;
         match deleted with
         | inr err => go_ret (Some err)
         | inl false => go_ret None
         | inl true => delete_larger fuel with_rp (u64 (i + 1))
         end) db rp' file' C (fun r db' rp' file' =>
      r = None /\ going db' T o b lo (2 ^ 64) /\ larger_rp with_rp rp0 rp' /\ (with_rp = false -> file' = file0))).
  { intros rp' file' Hrp' Hfile' Hi'. apply chp_bind. apply (deleteCanonicalBlock_spec i lo); try done.
    - intros db' Hg'.
      assert (Hk : exists k, going db' T o b lo k /\ h_Height hb < k /\ (k = i \/ k = i + 1)).
      { destruct Hg' as [Hg'|Hg']; [exists i|exists (i + 1)]; (split; [done|]; lia). }
      destruct Hk as (k & Hgk & Hk & Hik). apply (HC db' k); [done..|].
      destruct with_rp; [|by apply Hfile']. specialize (Hmaxi eq_refl). right. exists i. by subst.
    - intros db' Hg' Hsize Hmax. rewrite u64_small by (unfold is_u64 in *; lia).
      apply IH; try done; unfold is_u64 in *; try intros; lia.
    - intros Hno. apply chp_ret. split; [done|]. split; [|done]. by apply (going_done db lo i). }
  destruct with_rp.
  - apply chp_bind, chp_modify. destruct Hrp as [j ->]. apply chp_serialize.
    + apply (HC db i); [done..|]. by left.
    + apply (HC db i); [done..|]. specialize (Hmaxi eq_refl). right. exists i. repeat split; [done..|by left].
    + apply Hround; [by exists i|done|done].
  - apply chp_ret. by apply Hround.
Qed.

(** From the height that the recovery point names, or one below the first that is
    left. *)
Lemma DeleteLargerHeightBlocks_spec with_rp lo l i db rp file C :
  larger_disks with_rp lo rp file C ->
  (with_rp = true -> file = Json rp /\ l = rp_LargerHeight rp
     /\ (forall db', going db' T o b lo (2 ^ 64) -> C (db', Json (set_LargerHeight 0 rp)))) ->
  going db T o b lo i -> i = l \/ i = l + 1 -> lo < l -> h_Height hb < l -> l < 2 ^ 64 - 1 -> is_u64 l ->
  (with_rp = true -> l < 2 ^ 64 - 2) ->
  chp (DeleteLargerHeightBlocks l with_rp) db rp file C (fun r db' rp' file' =>
    r = None /\ going db' T o b lo (2 ^ 64) /\ rp' = (if with_rp then set_LargerHeight 0 rp else rp)
    /\ file' = (if with_rp then Json (set_LargerHeight 0 rp) else file)).
Proof.
  intros HC Hrp Hg Hil Hlo Hl Hmax Hu Hmax2. unfold DeleteLargerHeightBlocks.
  assert (Hrest : forall db', going db' T o b lo (l + 1) ->
    chp (c <- go_get ;; err <- delete_larger (rounds c) with_rp (u64 (l + 1)) ;;
         match err with
         | Some err => go_ret (Some err)
         | None => (if with_rp then onDeleteLargerHeightBlocks 0 else go_ret tt) ;;; go_ret None
         end) db' rp file C (fun r db' rp' file' =>
      r = None /\ going db' T o b lo (2 ^ 64) /\ rp' = (if with_rp then set_LargerHeight 0 rp else rp)
      /\ file' = (if with_rp then Json (set_LargerHeight 0 rp) else file))).
  { intros db' Hg'. apply chp_get. intros c (Hdb & _). apply chp_bind.
    rewrite u64_small by (unfold is_u64 in *; lia). eapply chp_mono;
      [apply (delete_larger_spec with_rp lo rp file C); try done; unfold rounds, is_u64 in *; try lia|done|].
    - rewrite Hdb. lia.
    - destruct with_rp; [|done]. exists (rp_LargerHeight rp). by destruct rp.
    - intros E. specialize (Hmax2 E). lia.
    - cbn beta. intros r db2 rp2 file2 (-> & Hg2 & Hrp2 & Hf2). apply chp_bind. destruct with_rp.
      + destruct (Hrp eq_refl) as (-> & _ & HC0). destruct Hrp2 as [j ->]. apply chp_bind, chp_modify.
        apply chp_serialize; [apply (HC _ (2 ^ 64)); [done|lia|by left]|by apply HC0|]. by apply chp_ret.
      + apply chp_ret, chp_ret. rewrite Hf2 by done. by rewrite Hrp2. }
  assert (Hdisk : forall db' k, going db' T o b lo k -> k = l \/ k = l + 1 -> C (db', file)).
  { intros db' k Hgk Hk. apply (HC db' k); [done|lia|]. destruct with_rp; [|done].
    destruct (Hrp eq_refl) as (-> & -> & _). right. exists (rp_LargerHeight rp). split; [by destruct rp|]. by split. }
  apply chp_bind. destruct Hil as [->| ->].
  - apply (deleteCanonicalBlock_spec l lo); try done.
    + intros db' [Hg'|Hg']; by eapply Hdisk; eauto.
    + intros db' Hg' _ _. by apply Hrest.
    + intros Hno. apply Hrest. destruct Hg as (Ht & Hh & Hsp). split; [done|]. split; [done|].
      intros n h Hn. rewrite (Hsp n h Hn). split; (intros [[? Hc]|[Hr Hc]]; [left; split; [|done]|right; split; [|done]]); try lia.
      * destruct Hr; [by left|]. by destruct (Hno n h).
      * apply (on_chain_heights _ HT) in Hc as (hx & _ & Hx & _ & _ & Hle). rewrite Hb in Hx. injection Hx as <-. lia.
  - unfold deleteCanonicalBlock. apply chp_bind, chp_GetBlockHash; [done|].
    pose proof (going_read _ _ _ _ Hg Hu) as Hr. destruct (GetBlockHash db l) as [h|e].
    + exfalso. destruct Hr as [Hm _]. apply Hg in Hm; [|done]. destruct Hm as [[_ Hc]|[? _]]; [|lia].
      apply (on_chain_heights _ HT) in Hc as (hx & _ & Hx & _ & _ & Hle). rewrite Hb in Hx. injection Hx as <-. lia.
    + destruct Hr as [-> _]. apply chp_ret. by apply Hrest.
Qed.

(** A block and its ancestors are entries of the database. *)
Lemma chain_size db s hs : has_tree db T -> T s = Some hs -> (chain_length hs <= size db)%nat.
Proof.
  intros Ht Hs.
  assert (Hl : exists l, length l = chain_length hs /\ NoDup l
    /\ forall x, x ∈ l -> exists hx, T x = Some hx /\ h_Height hx <= h_Height hs).
  { remember (Z.to_nat (h_Height hs)) as k eqn:Hk. unfold chain_length. rewrite <-Hk. revert s hs Hs Hk.
    induction k as [|k IH]; intros s hs Hs Hk.
    - exists [s]. split; [done|]. split; [apply NoDup_singleton|]. intros x ->%list_elem_of_singleton. exists hs. split; [done|lia].
    - destruct (tr_parent _ HT _ _ Hs) as [[Hz _]|(hp & Hp & Hhp)]; [lia|].
      destruct (IH _ _ Hp) as (l & Hlen & Hnd & Hin); [lia|]. exists (s :: l). split; [by cbn; rewrite Hlen|].
      split; [constructor; [|done]|].
      + intros (hx & Hx & Hle)%Hin. rewrite Hs in Hx. injection Hx as <-. lia.
      + intros x [->|(hx & Hx & Hle)%Hin]%elem_of_cons; [exists hs; split; [done|lia]|]. exists hx. split; [done|lia]. }
  destruct Hl as (l & Hlen & Hnd & Hin). rewrite <-Hlen, <-(length_map hashToHeaderKey l).
  rewrite <-(size_dom (D := gset bytes)), <-(size_list_to_set (C := gset bytes)).
  - apply subseteq_size. intros k [x [-> Hx]]%elem_of_list_to_set%list_elem_of_fmap.
    destruct (Hin x Hx) as (hx & Hhx & _). specialize (Ht x). rewrite Hhx in Ht. destruct Ht as [Hg _].
    apply elem_of_dom. revert Hg. unfold GetBlockHeader, read_with. by destruct (db !! hashToHeaderKey x).
  - apply NoDup_fmap_2; [|done]. by intros ? ? [= ->].
Qed.

(** A block of the new chain gets its height. *)
Lemma going_insert db s hs :
  going db T o b (h_Height hs) (2 ^ 64) -> T s = Some hs -> on_chain T b (h_Height hs) s -> is_u64 (h_Height hs) ->
  going (<[heightToHashKey (h_Height hs) := s]> db) T o b (h_Height hs - 1) (2 ^ 64).
Proof.
  intros (Ht & Hh & Hsp) Hs Hon Hu. split; [by apply (has_tree_height db _ (Some s))|].
  split; [by rewrite lookup_insert_ne by (intros He; by apply (head_key_height (h_Height hs)))|].
  intros n h Hn. unfold mapped. destruct (decide (n = h_Height hs)) as [->|Hne].
  - rewrite lookup_insert_eq. split.
    + intros [= <-]. left. split; [destruct Hu; lia|done].
    + intros [[_ Hc]|[? _]]; [|destruct Hu; lia]. f_equal. by eapply on_chain_fun.
  - rewrite lookup_insert_ne by (intros He; apply Hne; symmetry; by apply heightToHashKey_inj).
    fold (mapped db n h). rewrite (Hsp n h Hn). split; (intros [[? ?]|[? ?]]; [left; split; [lia|done]|right; split; [lia|done]]).
Qed.

(** A block of the new chain that has its height already. *)
Lemma going_shared db s hs :
  going db T o b (h_Height hs) (2 ^ 64) -> on_chain T b (h_Height hs) s -> on_chain T o (h_Height hs) s ->
  going db T o b (h_Height hs - 1) (2 ^ 64).
Proof.
  intros (Ht & Hh & Hsp) Hb' Ho'. split; [done|]. split; [done|]. intros n h Hn. rewrite (Hsp n h Hn).
  destruct (decide (n = h_Height hs)) as [->|Hne].
  - split.
    + intros [[? _]|[_ Hc]]; [lia|]. rewrite <-(on_chain_fun _ HT _ _ _ _ Ho' Hc). left. split; [destruct Hn; lia|done].
    + intros [[_ Hc]|[? _]]; [|destruct Hn; lia]. rewrite <-(on_chain_fun _ HT _ _ _ _ Hb' Hc). right. split; [lia|done].
  - split; (intros [[? ?]|[? ?]]; [left; split; [lia|done]|right; split; [lia|done]]).
Qed.

Lemma add_stale_spec s hs db rp file C (Q : bool * Hash + StoreError -> Db -> recoveryPoint -> RpFile -> Prop) :
  going db T o b (h_Height hs) (2 ^ 64) -> T s = Some hs -> on_chain T b (h_Height hs) s ->
  (forall db', going db' T o b (h_Height hs) (2 ^ 64) \/ going db' T o b (h_Height hs - 1) (2 ^ 64) -> C (db', file)) ->
  (forall db', going db' T o b (h_Height hs - 1) (2 ^ 64) -> Q (inl (true, h_PreviousBlockHash hs)) db' rp file) ->
  chp (add_stale s hs) db rp file C Q.
Proof.
  intros Hg Hs Hon HC HQ. unfold add_stale. destruct (tr_hash _ HT _ _ Hs) as (Hlen & _ & Hh).
  destruct (has_tree_read db s (proj1 Hg)) as (blk & Hblk & _ & _); [by eexists|].
  apply chp_bind, chp_GetBlock. rewrite Hblk. apply chp_bind, chp_AddIndices. intros db1 Hsame.
  pose proof (going_indices _ _ _ _ _ _ _ Hsame Hg) as Hg1. split; [by apply HC; left|].
  pose proof (going_insert db1 s hs Hg1 Hs Hon ltac:(unfold is_u64; lia)) as Hg2.
  apply chp_bind, chp_PutBlockHash; [unfold is_u64; lia|done|by apply HC; right|]. by apply chp_ret, HQ.
Qed.

Lemma overwriteSingleStaleBlock_spec s hs lo db rp file C
    (Q : bool * Hash + StoreError -> Db -> recoveryPoint -> RpFile -> Prop) :
  going db T o b lo (2 ^ 64) -> lo = h_Height hs \/ lo = h_Height hs - 1 -> T s = Some hs -> on_chain T b (h_Height hs) s ->
  (forall db', going db' T o b (h_Height hs) (2 ^ 64) \/ going db' T o b (h_Height hs - 1) (2 ^ 64) -> C (db', file)) ->
  (forall db', going db' T o b (h_Height hs - 1) (2 ^ 64) -> Q (inl (true, h_PreviousBlockHash hs)) db' rp file) ->
  (going db T o b (h_Height hs - 1) (2 ^ 64) -> (lo = h_Height hs -> on_chain T o (h_Height hs) s) ->
     Q (inl (false, h_PreviousBlockHash hs)) db rp file) ->
  chp (overwriteSingleStaleBlock s) db rp file C Q.
Proof.
  intros Hg Hlo Hs Hon HC Htrue Hfalse. unfold overwriteSingleStaleBlock.
  destruct (tr_hash _ HT _ _ Hs) as (Hlen & _ & Hh). assert (Hu : is_u64 (h_Height hs)) by (unfold is_u64; lia).
  apply chp_bind, chp_GetBlockHeader. pose proof (proj1 Hg s) as Hts. rewrite Hs in Hts. rewrite (proj1 Hts).
  apply chp_bind, chp_GetBlockHash; [done|]. pose proof (going_read _ _ _ _ Hg Hu) as Hr.
  destruct (GetBlockHash db (h_Height hs)) as [h|e].
  - destruct Hr as [Hm HTh]. unfold bytes_eqb. case_bool_decide as Heq.
    + subst h. apply chp_ret. apply Hg in Hm; [|done]. destruct Hm as [[? Hc]|[? Hc]].
      * apply Hfalse; [|intros; lia]. destruct Hlo as [->| ->]; [lia|done].
      * destruct Hlo as [->| ->]; [|destruct Hu; lia]. apply Hfalse; [|done]. by eapply going_shared.
    + destruct Hlo as [->| ->].
      * destruct (has_tree_read db h (proj1 Hg) HTh) as (blk & Hblk & _ & Hd).
        apply chp_bind, chp_GetBlock. rewrite Hblk. apply chp_bind, chp_DeleteIndices; [done|]. intros db1 Hsame _.
        pose proof (going_indices _ _ _ _ _ _ _ Hsame Hg) as Hg1. split; [by apply HC; left|]. by apply add_stale_spec.
      * exfalso. apply Heq. apply Hg in Hm; [|done]. destruct Hm as [[_ Hc]|[? _]]; [|destruct Hu; lia]. by eapply on_chain_fun.
  - destruct Hr as [-> Hno]. destruct Hlo as [->| ->]; [by apply add_stale_spec|].
    exfalso. apply (Hno s), Hg; [done|]. left. split; [destruct Hu; lia|done].
Qed.

Lemma going_canonical db lo :
  going db T o b lo (2 ^ 64) -> lo < 0 \/ (exists s, on_chain T b lo s /\ on_chain T o lo s) -> canonical db T b.
Proof.
  intros (Ht & Hh & Hsp) Hlo. split; [done|]. split; [done|]. split; [by rewrite Hb|]. intros n h Hn. rewrite (Hsp n h Hn). split.
  - intros [[_ Hc]|[Hr Hc]]; [done|]. destruct Hn, Hlo as [?|(s & Hs1 & Hs2)]; [lia|].
    apply (on_chain_meet _ HT o b lo s); [done..|lia|done].
  - intros Hc. destruct Hn, (decide (lo < n)); [by left|]. right. destruct Hlo as [?|(s & Hs1 & Hs2)]; [lia|].
    split; [lia|]. apply (on_chain_meet _ HT b o lo s); [done..|lia|done].
Qed.

(** Where the walk to the common ancestor is: above the genesis, or at a block of the
    new chain. *)
Definition walk_at (s : Hash) (lo : Z) : Prop :=
  (s = EmptyHash /\ lo = -1) \/ exists hs, T s = Some hs /\ lo = h_Height hs /\ on_chain T b lo s.

Lemma walk_parent s hs : T s = Some hs -> on_chain T b (h_Height hs) s -> walk_at (h_PreviousBlockHash hs) (h_Height hs - 1).
Proof.
  intros Hs Hon. destruct (tr_parent _ HT _ _ Hs) as [[-> ->]|(hp & Hp & Hhp)]; [by left|].
  right. exists hp. split; [done|]. split; [done|]. eapply on_chain_trans; [exact Hon|]. apply on_chain_parent; [done..|].
  apply (tr_hash _ HT) in Hp. lia.
Qed.

Definition walk_length (s : Hash) : nat := match T s with Some hs => chain_length hs | None => 0 end.

Lemma walk_length_parent s hs : T s = Some hs -> (walk_length (h_PreviousBlockHash hs) < walk_length s)%nat.
Proof.
  intros Hs. unfold walk_length. rewrite Hs. unfold chain_length.
  destruct (tr_parent _ HT _ _ Hs) as [[_ ->]|(hp & Hp & Hhp)]; [rewrite no_empty_block by done; lia|].
  rewrite Hp. apply (tr_hash _ HT) in Hp. lia.
Qed.

Definition stale_rp (with_rp : bool) (rp0 rp : recoveryPoint) : Prop :=
  if with_rp then exists s, rp = set_StaleHash s rp0 else rp = rp0.

Definition stale_disks (with_rp : bool) (rp0 : recoveryPoint) (file0 : RpFile) (C : Disk -> Prop) : Prop :=
  forall db lo f, going db T o b lo (2 ^ 64) ->
    (if with_rp then (f = NotJson /\ lo < h_Height hb) \/ exists s hs, f = Json (set_StaleHash s rp0) /\ T s = Some hs /\ on_chain T b (h_Height hs) s
                     /\ (lo = h_Height hs \/ lo = h_Height hs - 1)
     else f = file0) -> C (db, f).

Lemma overwrite_stale_spec with_rp rp0 file0 C fuel : forall s lo db rp file,
  stale_disks with_rp rp0 file0 C -> going db T o b lo (2 ^ 64) -> walk_at s lo -> lo < h_Height hb -> (walk_length s < fuel)%nat ->
  stale_rp with_rp rp0 rp -> (with_rp = false -> file = file0) ->
  chp (overwrite_stale fuel with_rp s) db rp file C (fun r db' rp' file' =>
    r = None /\ canonical db' T b /\ stale_rp with_rp rp0 rp' /\ (with_rp = false -> file' = file0)).
Proof.
  induction fuel as [|fuel IH]; intros s lo db rp file HC Hg Hw Hlob Hf Hrp Hfile; [lia|]. cbn [overwrite_stale].
  unfold bytes_eqb. case_bool_decide as He.
  { subst s. apply chp_ret. split; [done|]. split; [|done]. apply (going_canonical db lo); [done|].
    destruct Hw as [[_ ->]|(hs & Hs & _)]; [by left|]. by rewrite no_empty_block in Hs. }
  destruct Hw as [[? _]|(hs & Hs & -> & Hon)]; [done|]. apply chp_bind.
  assert (Hround : forall rp' file', stale_rp with_rp rp0 rp' -> (with_rp = false -> file' = file0) ->
    (if with_rp then file' = Json (set_StaleHash s rp0) else True) ->
    chp (r <- overwriteSingleStaleBlock s ;;
         match r with
         | inr err => go_ret (Some err)
         | inl (false, _) => go_ret None
         | inl (true, staleHash) => overwrite_stale fuel with_rp staleHash
         end) db rp' file' C (fun r db' rp' file' =>
      r = None /\ canonical db' T b /\ stale_rp with_rp rp0 rp' /\ (with_rp = false -> file' = file0))).
  { intros rp' file' Hrp' Hfile' Hs'. apply chp_bind.
    apply (overwriteSingleStaleBlock_spec s hs (h_Height hs)); [done|by left|done|done|..].
    - intros db' Hg'. assert (Hlo : exists lo, going db' T o b lo (2 ^ 64) /\ (lo = h_Height hs \/ lo = h_Height hs - 1)).
      { destruct Hg' as [Hg'|Hg']; eexists; (split; [exact Hg'|]); lia. }
      destruct Hlo as (lo & Hglo & Hlo). apply (HC db' lo); [done|]. destruct with_rp; [|by apply Hfile']. right. by exists s, hs.
    - intros db' Hg'. pose proof (walk_length_parent s hs Hs). apply (IH _ (h_Height hs - 1)); try done; [by apply (walk_parent s)|lia..].
    - intros _ Ho. apply chp_ret. split; [done|]. split; [|done]. apply (going_canonical db (h_Height hs)); [done|]. right. eauto. }
  destruct with_rp.
  - apply chp_bind, chp_modify. destruct Hrp as [x ->]. apply chp_serialize.
    + apply (HC db (h_Height hs)); [done|]. by left.
    + apply (HC db (h_Height hs)); [done|]. right. exists s, hs. repeat split; [done..|by left].
    + apply Hround; [by exists s|done|done].
  - apply chp_ret. by apply Hround.
Qed.

Lemma OverwriteStaleBlocks_spec with_rp s hs lo db rp file C :
  stale_disks with_rp rp file C ->
  (with_rp = true -> file = Json rp /\ s = rp_StaleHash rp
     /\ (forall db', canonical db' T b -> C (db', NotJson) /\ C (db', Json (set_StaleHash EmptyHash rp)))) ->
  going db T o b lo (2 ^ 64) -> T s = Some hs -> on_chain T b (h_Height hs) s -> lo = h_Height hs \/ lo = h_Height hs - 1 ->
  chp (OverwriteStaleBlocks s with_rp) db rp file C (fun r db' rp' file' =>
    r = None /\ canonical db' T b /\ rp' = (if with_rp then set_StaleHash EmptyHash rp else rp)
    /\ file' = (if with_rp then Json (set_StaleHash EmptyHash rp) else file)).
Proof.
  intros HC Hrp Hg Hs Hon Hlo. unfold OverwriteStaleBlocks.
  assert (Hrest : forall db', going db' T o b (h_Height hs - 1) (2 ^ 64) ->
    chp (c <- go_get ;; err <- overwrite_stale (rounds c) with_rp (h_PreviousBlockHash hs) ;;
         match err with
         | Some err => go_ret (Some err)
         | None => (if with_rp then onOverwriteStaleBlocks EmptyHash else go_ret tt) ;;; go_ret None
         end) db' rp file C (fun r db' rp' file' =>
      r = None /\ canonical db' T b /\ rp' = (if with_rp then set_StaleHash EmptyHash rp else rp)
      /\ file' = (if with_rp then Json (set_StaleHash EmptyHash rp) else file))).
  { intros db' Hg'. apply chp_get. intros c (Hdb & _). apply chp_bind. eapply chp_mono;
      [apply (overwrite_stale_spec with_rp rp file C _ _ (h_Height hs - 1)); try done|done|].
    - by apply (walk_parent s).
    - apply (on_chain_heights _ HT) in Hon as (hx & _ & Hx & _ & _ & Hle). rewrite Hb in Hx. injection Hx as <-. lia.
    - pose proof (walk_length_parent s hs Hs) as Hp. pose proof (chain_size db' s hs (proj1 Hg') Hs) as Hsize.
      unfold walk_length at 2 in Hp. rewrite Hs in Hp. unfold rounds. rewrite Hdb. lia.
    - destruct with_rp; [|done]. exists (rp_StaleHash rp). by destruct rp.
    - cbn beta. intros r db2 rp2 file2 (-> & Hg2 & Hrp2 & Hf2). apply chp_bind. destruct with_rp.
      + destruct (Hrp eq_refl) as (-> & _ & HC0). destruct Hrp2 as [x ->]. apply chp_bind, chp_modify.
        apply chp_serialize; [by apply HC0|by apply HC0|]. by apply chp_ret.
      + apply chp_ret, chp_ret. rewrite Hf2 by done. by rewrite Hrp2. }
  apply chp_bind, (overwriteSingleStaleBlock_spec s hs lo); [done..| | |].
  - intros db' Hg'. assert (Hlo' : exists lo, going db' T o b lo (2 ^ 64) /\ (lo = h_Height hs \/ lo = h_Height hs - 1)).
    { destruct Hg' as [Hg'|Hg']; eexists; (split; [exact Hg'|]); lia. }
    destruct Hlo' as (lo' & Hglo & Hlo'). apply (HC db' lo'); [done|]. destruct with_rp; [|done].
    destruct (Hrp eq_refl) as (-> & -> & _). right. exists (rp_StaleHash rp), hs. split; [by destruct rp|]. done.
  - intros db' Hg'. by apply Hrest.
  - intros Hg' _. by apply Hrest.
Qed.
End loops.
End chain.
