(* ===== verification/ChainCrash.v ===== *)
(** * Writing a block, and crashes

    What [put_block] leaves on disk after each of its writes, and what [recover] makes
    of it when the process starts again. *)

From Stdlib Require Import ZArith Lia.
From S2P Require Import Prelude Common BftHeader StateDb Svm EvmWord EvmStore Trie TrieCommit ChainStore ChainLaws ChainCanon ChainTree ChainProofs.

Open Scope Z_scope.
Open Scope go_scope.

(** The sequential steps of a [chp] goal. *)
Ltac chp_seq :=
  repeat (lazymatch goal with
  | |- chp (go_bind go_get _) _ _ _ _ _ => fail
  | |- chp (go_bind _ _) _ _ _ _ _ => apply chp_bind
  | |- chp (go_ret _) _ _ _ _ _ => apply chp_ret
  | |- chp (modify_rp _) _ _ _ _ _ => apply chp_modify
  end; cbn beta).

Section crash.
Context {S : Type} `{StoreCodec} `{BlockchainStore S} `{!StoreLaws S} `{!StoreCodecLaws}.
Implicit Types (db : Db) (rp : recoveryPoint) (file : RpFile) (C : Disk -> Prop) (T : Tree).

Abbreviation ChM A := (GoM (ChainState S) Disk A).

(** ** More operations of a store *)

Lemma chp_GetHeadBlockHash db rp file C (Q : Hash + StoreError -> Db -> recoveryPoint -> RpFile -> Prop) :
  Q (GetHeadBlockHash db) db rp file -> chp (S := S) (on_store bs_GetHeadBlockHash) db rp file C Q.
Proof. apply chp_read. intros. by apply GetHeadBlockHash_law. Qed.

Lemma chp_PutHeadBlockHash h db rp file C (Q : unit -> Db -> recoveryPoint -> RpFile -> Prop) :
  C (<[keyHeadBlockHash := h]> db, file) -> Q tt (<[keyHeadBlockHash := h]> db) rp file ->
  chp (S := S) (on_store (bs_PutHeadBlockHash h)) db rp file C Q.
Proof. intros HC HQ. eapply chp_op; [intros; by apply PutHeadBlockHash_law|]. by split; [constructor|]. Qed.

Lemma chp_PutReceipts h l x db rp file C (Q : option StoreError -> Db -> recoveryPoint -> RpFile -> Prop) :
  enc_receipts l = Some x ->
  C (<[hashToReceiptsKey h := x]> db, file) -> Q None (<[hashToReceiptsKey h := x]> db) rp file ->
  chp (S := S) (on_store (bs_PutReceipts h l)) db rp file C Q.
Proof.
  intros Hx HC HQ. eapply chp_op; [intros; by apply PutReceipts_law|]. unfold PutReceipts. rewrite Hx.
  by split; [constructor|].
Qed.

Lemma chp_PutBlock b td hb tb bb db rp file C (Q : option StoreError -> Db -> recoveryPoint -> RpFile -> Prop) :
  storable b -> enc_header (b_Header b) = Some hb -> enc_td td = Some tb ->
  enc_body (mkBody (b_Transactions b) (b_Debts b)) = Some bb ->
  (forall old, GetBlockHash db (h_Height (b_Header b)) = inl old -> exists ob, GetBlock db old = inl ob) ->
  (forall db', same_but_indices (put_entries b hb tb bb db) db' -> C (db', file) /\ Q None db' rp file) ->
  chp (S := S) (on_store (bs_PutBlock b td true)) db rp file C Q.
Proof.
  intros Hb Hh Ht Hbd Hold HQ. eapply chp_op; [intros; by apply PutBlock_law|].
  eapply wp_PutBlock; [done..|]. intros db' Hs. destruct (HQ db' Hs). by split; [constructor|].
Qed.

(** What is left of the blocks after [DeleteBlock]. *)
Definition deleted_block (h : Hash) db db' : Prop :=
  (forall k, k <> h -> db' !! hashToHeaderKey k = db !! hashToHeaderKey k
     /\ db' !! hashToTDKey k = db !! hashToTDKey k /\ db' !! hashToBodyKey k = db !! hashToBodyKey k)
  /\ (forall n, db' !! heightToHashKey n = db !! heightToHashKey n)
  /\ db' !! keyHeadBlockHash = db !! keyHeadBlockHash /\ db' !! hashToHeaderKey h = None.

(** A block without debts that can be read is deleted. *)
Lemma DeleteBlock_ok h db blk :
  GetBlock db h = inl blk -> b_Debts blk = [] ->
  wp (DeleteBlock h) db (fun r db' o => r = None /\ o = [db'] /\ deleted_block h db db').
Proof.
  intros Hg Hd. destruct (DeleteBlock h db) as [[[r db'] o]|] eqn:Hrun.
  - unfold wp. rewrite Hrun. destruct (DeleteBlock_outcome _ _ _ _ _ Hrun) as (Ho & Hn & Hh & [(-> & -> & [e ->])|(-> & -> & Hdel)]).
    + exfalso. revert Hrun Hg. unfold DeleteBlock, GetBlock, go_bind, go_get.
      destruct (GetBlockHeader db h); [|done]. destruct (db !! hashToBodyKey h) as [eb|]; [|done].
      destruct (dec_body eb) as [body|]; [|done]. intros Hrun [= <-]. cbn in Hd. rewrite Hd in Hrun. done.
    + by repeat split; try done; apply Ho.
  - exfalso. revert Hrun. unfold DeleteBlock, go_bind, go_get, batch_Commit, db_write, go_ret.
    destruct (db !! hashToBodyKey h) as [eb|]; [|done]. destruct (dec_body eb) as [body|]; [|done].
    by destruct (batchDeleteIndices _ _ _ _) as [? [?|]].
Qed.

Lemma DeleteBlock_total h db : exists r db' o, DeleteBlock h db = Some (r, db', o).
Proof.
  unfold DeleteBlock, go_bind, go_get, batch_Commit, db_write, go_ret. destruct (db !! hashToBodyKey h) as [eb|]; [|eauto].
  destruct (dec_body eb) as [body|]; [|eauto]. destruct (batchDeleteIndices _ _ _ _) as [? [?|]]; eauto.
Qed.

(** Deleting a block that is not there. *)
Lemma chp_DeleteBlock_missing h db rp file C (Q : option StoreError -> Db -> recoveryPoint -> RpFile -> Prop) :
  db !! hashToHeaderKey h = None ->
  (forall r db', deleted_block h db db' -> C (db', file) /\ Q r db' rp file) ->
  chp (S := S) (on_store (bs_DeleteBlock h)) db rp file C Q.
Proof.
  intros Hnone HQ c (<- & Hinv & <- & <-). unfold wp, on_store.
  destruct (DeleteBlock_law h (ch_store c) Hinv) as [Href|(_ & e & s' & -> & Hdb & Hinv')].
  - destruct (DeleteBlock_total h (store_db (ch_store c))) as (r & db' & o & Hrun).
    destruct (Href _ _ _ Hrun) as (s' & -> & <- & Hinv').
    destruct (DeleteBlock_outcome _ _ _ _ _ Hrun) as (Ho & Hn & Hh & Hcase).
    destruct (HQ r (store_db s')) as [HC HQ'].
    { split; [done|]. split; [done|]. split; [done|]. destruct Hcase as [(_ & -> & _)|(_ & _ & ?)]; done. }
    split; [|by exists (store_db s'), (ch_rp c), (ch_file c)].
    destruct Hcase as [(-> & _)|(-> & _)]; [done|by constructor].
  - split; [done|]. exists (store_db (ch_store c)), (ch_rp c), (ch_file c). split; [done|].
    eapply HQ. by repeat split.
Qed.

(** Deleting a block whose height is mapped. *)
Lemma chp_DeleteBlock h db blk x rp file C (Q : option StoreError -> Db -> recoveryPoint -> RpFile -> Prop) :
  GetBlock db h = inl blk -> b_Debts blk = [] -> GetBlockHash db (h_Height (b_Header blk)) = inl x ->
  (forall db', deleted_block h db db' -> C (db', file) /\ Q None db' rp file) ->
  chp (S := S) (on_store (bs_DeleteBlock h)) db rp file C Q.
Proof.
  intros Hg Hd Hx HQ c (<- & Hinv & <- & <-). unfold wp, on_store.
  pose proof (DeleteBlock_ok h _ _ Hg Hd) as Hw. unfold wp in Hw.
  destruct (DeleteBlock h (store_db (ch_store c))) as [[[r db'] o]|] eqn:Hrun; [|done].
  destruct Hw as (-> & -> & Hdel). destruct (DeleteBlock_law h (ch_store c) Hinv) as [Href|(Hno & _)].
  - destruct (Href _ _ _ Hrun) as (s' & -> & <- & Hinv'). destruct (HQ _ Hdel). split; [by constructor|].
    by exists (store_db s'), (ch_rp c), (ch_file c).
  - exfalso. assert (Hhd : GetBlockHeader (store_db (ch_store c)) h = inl (b_Header blk)).
    { revert Hg. unfold GetBlock. destruct (GetBlockHeader _ h); [|done]. repeat (case_match; try done); by intros [= <-]. }
    destruct (Hno _ Hhd) as [e He]. congruence.
Qed.

(** Starting with a file that can be read. *)
Lemma start_json db rp (Q : unit -> Db -> recoveryPoint -> RpFile -> Prop) :
  chp (S := S) recover db rp (Json rp) (fun _ => True) Q ->
  chp (S := S) start_chain db emptyRp (Json rp) (fun _ => True) (fun r db' rp' file' => r = None /\ Q tt db' rp' file').
Proof.
  intros Hr. unfold start_chain, loadRecoveryPoint. apply chp_bind, chp_get. intros c (_ & _ & _ & ->).
  chp_seq. eapply chp_post; [exact Hr|]. cbn beta. intros [] db' rp' file' Hd. by chp_seq.
Qed.

(** ** A new block *)

(** Nothing is being written. *)
Definition idle rp : Prop :=
  rp_WritingBlockHash rp = EmptyHash /\ rp_PreviousCanonicalBlockHash rp = EmptyHash
  /\ rp_PreviousHeadBlockHash rp = EmptyHash /\ rp_LargerHeight rp = 0 /\ rp_StaleHash rp = EmptyHash.

(** A block that is not stored yet, on top of one that is, and can be encoded. *)
Record new_block T (b : Block) (td : Z) (receipts : list Receipt) : Prop := {
  nb_storable : storable b;
  nb_new : T (b_HeaderHash b) = None;
  nb_hash : b_HeaderHash b <> EmptyHash;
  nb_parent : exists hp, T (h_PreviousBlockHash (b_Header b)) = Some hp /\ h_Height hp = h_Height (b_Header b) - 1;
  nb_height : h_Height (b_Header b) < 2 ^ 64 - 3;
  nb_debts : b_Debts b = [];
  nb_header : is_Some (enc_header (b_Header b));
  nb_td : is_Some (enc_td td);
  nb_body : is_Some (enc_body (mkBody (b_Transactions b) (b_Debts b)));
  nb_receipts : is_Some (enc_receipts receipts)
}.

(** A disk on which the block that is noted as being written is stored and no block was
    canonical at its height before. *)
Definition lost_mapping (d : Disk) : bool :=
  match d.2 with
  | Json rp =>
      negb (Hash_IsEmpty (rp_WritingBlockHash rp))
      && bool_decide (is_Some (d.1 !! hashToHeaderKey (rp_WritingBlockHash rp)))
      && Hash_IsEmpty (rp_PreviousCanonicalBlockHash rp)
  | _ => false
  end.

(** A disk on which the block is stored and the file of the recovery point is cut, while the
    block is not one on top of the old head: what is left to do is not noted anywhere. *)
Definition half_moved (head : Hash) (b : Block) (d : Disk) : bool :=
  match d.2 with
  | NotJson =>
      bool_decide (is_Some (d.1 !! hashToHeaderKey (b_HeaderHash b)))
      && negb (bytes_eqb (h_PreviousBlockHash (b_Header b)) head)
  | _ => false
  end.

Lemma going_header db T o b lo hi h hd : going db T o b lo hi -> T h = Some hd -> is_Some (db !! hashToHeaderKey h).
Proof.
  intros Hg Hh. pose proof (proj1 Hg h) as Ht. rewrite Hh in Ht. destruct Ht as [Hr _].
  revert Hr. unfold GetBlockHeader, read_with. by destruct (db !! hashToHeaderKey h).
Qed.

(** The tree with the block. *)
Definition grown T (b : Block) : Tree := fun h => if decide (h = b_HeaderHash b) then Some (b_Header b) else T h.

Section new_block.
Context (T : Tree) (HT : tree_ok T) (b : Block) (td : Z) (receipts : list Receipt) (Hb : new_block T b td receipts).
Context (o : Hash) (ho : BlockHeader) (Ho : T o = Some ho).

Lemma grown_block : grown T b (b_HeaderHash b) = Some (b_Header b).
Proof. unfold grown. by rewrite decide_True. Qed.

Lemma grown_old h hd : T h = Some hd -> grown T b h = Some hd.
Proof.
  intros Hh. unfold grown. destruct (decide (h = b_HeaderHash b)) as [->|]; [|done].
  by rewrite (nb_new _ _ _ _ Hb) in Hh.
Qed.

Lemma height_pos : 0 < h_Height (b_Header b).
Proof. destruct (nb_parent _ _ _ _ Hb) as (hp & Hp & Hh). apply (tr_hash _ HT) in Hp. lia. Qed.

Lemma grown_ok : tree_ok (grown T b).
Proof.
  pose proof height_pos. split.
  - intros h hd. unfold grown. destruct (decide (h = b_HeaderHash b)) as [->|]; [|by apply HT].
    intros [= <-]. destruct (nb_storable _ _ _ _ Hb) as (Hlen & _). split; [done|]. split; [apply Hb|].
    pose proof (nb_height _ _ _ _ Hb). lia.
  - intros h hd. unfold grown at 1. destruct (decide (h = b_HeaderHash b)) as [->|].
    + intros [= <-]. right. destruct (nb_parent _ _ _ _ Hb) as (hp & Hp & Hh). exists hp. split; [by apply grown_old|done].
    + intros Hh. destruct (tr_parent _ HT _ _ Hh) as [?|(hp & Hp & Hhp)]; [by left|]. right. exists hp.
      split; [by apply grown_old|done].
Qed.

Lemma grown_chain x hx n h : T x = Some hx -> on_chain (grown T b) x n h <-> on_chain T x n h.
Proof.
  intros Hx. split.
  - apply (on_chain_grow_inv T (grown T b) x hx n h); [done|by apply grown_ok|intros; by apply grown_old|done].
  - apply on_chain_grow. intros. by apply grown_old.
Qed.

(** ** Recovery from the disks of a write *)

Definition recovered db rp file : Prop :=
  (canonical db T o \/ canonical db (grown T b) (b_HeaderHash b)) /\ file = Json rp /\ idle rp.

(** [recover], with the recovery point from the file. *)
Definition resumes db rp : Prop :=
  chp (S := S) recover db rp (Json rp) (fun _ => True) (fun _ db' rp' file' => recovered db' rp' file').

(** The start of the process. *)
Definition recovers (d : Disk) : Prop :=
  chp (S := S) start_chain d.1 emptyRp d.2 (fun _ => True) (fun r db rp file => r = None /\ recovered db rp file).

Lemma resumes_recovers db rp : resumes db rp -> recovers (db, Json rp).
Proof. apply start_json. Qed.

(** A file that is cut is read as nothing to do. *)
Lemma resumes_cut db : resumes db emptyRp -> recovers (db, NotJson).
Proof.
  intros Hr. unfold recovers, start_chain, loadRecoveryPoint. cbn [fst snd]. apply chp_bind, chp_get. intros c (_ & _ & _ & ->).
  chp_seq. apply chp_serialize; [done..|]. chp_seq. eapply chp_post; [exact Hr|]. cbn beta. intros _ db' rp' file' Hd. by chp_seq.
Qed.

(** The last steps of [recover], with nothing left to do. *)
Lemma recover_end db rp file (Q : unit -> Db -> recoveryPoint -> RpFile -> Prop) :
  Q tt db (set_StaleHash EmptyHash rp) (Json (set_StaleHash EmptyHash rp)) ->
  chp (S := S) (modify_rp (set_StaleHash EmptyHash) ;;; serialize) db rp file (fun _ => True) Q.
Proof. intros HQ. by apply chp_bind, chp_modify, chp_serialize. Qed.

Lemma resumes_idle db rp :
  idle rp -> canonical db T o \/ canonical db (grown T b) (b_HeaderHash b) -> resumes db rp.
Proof.
  intros Hi Hc. unfold resumes, recover. apply chp_get. intros c (_ & _ & -> & _).
  destruct rp as [wh whe pc ph lh st]. destruct Hi as (E1 & E2 & E3 & E4 & E5). cbn in E1, E2, E3, E4, E5. subst.
  cbn [rp_PreviousHeadBlockHash rp_WritingBlockHeight rp_PreviousCanonicalBlockHash rp_WritingBlockHash rp_LargerHeight rp_StaleHash].
  unfold Hash_IsEmpty, bytes_eqb. rewrite !bool_decide_true by done. rewrite andb_false_r. cbn [negb andb Z.ltb Z.compare].
  chp_seq. apply chp_serialize; [done..|]. by repeat split.
Qed.

Lemma recovers_cut db : canonical db T o \/ canonical db (grown T b) (b_HeaderHash b) -> recovers (db, NotJson).
Proof. intros Hc. by apply resumes_cut, resumes_idle. Qed.

(** The recovery point while the block is written. *)
Definition writing (canon : Hash) : recoveryPoint :=
  mkRp (b_HeaderHash b) (h_Height (b_Header b)) canon o (u64 (h_Height (b_Header b) + 1)) (h_PreviousBlockHash (b_Header b)).

Lemma canonical_deleted db db' h : canonical db T o -> T h = None -> deleted_block h db db' -> canonical db' T o.
Proof.
  intros (Ht & Hh & Hs & Hm) Hn (Hk & Hheights & Hhead & Hdel). split; [|split; [|split]].
  - intros k. destruct (decide (k = h)) as [->|Hne]; [by rewrite Hn|]. specialize (Ht k).
    destruct (Hk k Hne) as (E1 & _ & E2). unfold GetBlock, GetBlockHeader in *. by rewrite E1, E2.
  - by rewrite Hhead.
  - done.
  - intros n x Hu. unfold mapped. rewrite Hheights. by apply Hm.
Qed.

Lemma head_not_empty : Hash_IsEmpty o = false.
Proof. unfold Hash_IsEmpty, bytes_eqb. apply bool_decide_false. by apply (tr_hash _ HT) in Ho as (_ & ? & _). Qed.

Lemma block_not_empty : Hash_IsEmpty (b_HeaderHash b) = false.
Proof. unfold Hash_IsEmpty, bytes_eqb. apply bool_decide_false, Hb. Qed.

(** The first two steps of [recover] put the head and the mapping of the height back, the
    third deletes the block. *)
Lemma recover_writing db canon (P : Db -> Prop) :
  (canon = EmptyHash \/ length canon = HashLength) ->
  let db1 := <[keyHeadBlockHash := o]> db in
  let db2 := if Hash_IsEmpty canon then db1 else <[heightToHashKey (h_Height (b_Header b)) := canon]> db1 in
  (forall rp file, chp (S := S) (on_store (bs_DeleteBlock (b_HeaderHash b))) db2 rp file (fun _ => True)
     (fun _ db' rp' file' => P db' /\ rp' = rp)) ->
  chp (S := S) recover db (writing canon) (Json (writing canon)) (fun _ => True)
    (fun _ db' rp' file' => P db' /\ file' = Json rp' /\ idle rp').
Proof.
  intros Hcanon db1 db2 Hdel. unfold recover. apply chp_get. intros c (_ & _ & -> & _).
  pose proof height_pos as Hpos. pose proof (nb_height _ _ _ _ Hb) as Hmax. unfold writing.
  cbn [rp_PreviousHeadBlockHash rp_WritingBlockHeight rp_PreviousCanonicalBlockHash rp_WritingBlockHash rp_LargerHeight rp_StaleHash].
  rewrite head_not_empty, block_not_empty, (proj2 (Z.ltb_lt _ _) Hpos). cbn [negb andb].
  apply chp_bind, chp_bind, chp_PutHeadBlockHash; [done|]. apply chp_modify. apply chp_bind.
  apply chp_mono with (C := fun _ => True) (Q := fun _ db' rp' file' => db' = db2
    /\ rp_PreviousCanonicalBlockHash rp' = EmptyHash /\ rp_PreviousHeadBlockHash rp' = EmptyHash); [|done|].
  { unfold db2, db1. destruct (Hash_IsEmpty canon) eqn:He; cbn [negb].
    - apply chp_ret. by apply bool_decide_eq_true in He as ->.
    - apply chp_bind, chp_PutBlockHash; [unfold is_u64; lia| |done|by apply chp_modify].
      destruct Hcanon as [->|?]; [done|done]. }
  intros _ ? rp2 file2 (-> & E1 & E2). apply chp_bind, chp_bind. eapply chp_mono; [exact (Hdel rp2 file2)|done|].
  cbn beta. intros r db3 ? file3 [Hc ->].
  chp_seq.
  apply chp_serialize; [done..|]. split; [done|]. by repeat split.
Qed.

Lemma resumes_writing db canon :
  (canon = EmptyHash \/ length canon = HashLength) ->
  let db1 := <[keyHeadBlockHash := o]> db in
  let db2 := if Hash_IsEmpty canon then db1 else <[heightToHashKey (h_Height (b_Header b)) := canon]> db1 in
  (forall rp file, chp (S := S) (on_store (bs_DeleteBlock (b_HeaderHash b))) db2 rp file (fun _ => True)
     (fun _ db' rp' file' => canonical db' T o /\ rp' = rp)) ->
  resumes db (writing canon).
Proof.
  intros Hcanon db1 db2 Hdel. eapply chp_post; [by apply recover_writing with (P := fun db => canonical db T o)|].
  cbn beta. intros _ db' rp' file' (? & ? & ?). split; [by left|done].
Qed.

(** Before the block is stored. *)
Lemma resumes_before db canon :
  canonical db T o -> canon = match GetBlockHash db (h_Height (b_Header b)) with inl h => h | inr _ => EmptyHash end ->
  resumes db (writing canon).
Proof.
  intros Hc Hcanon. pose proof Hc as (Ht & Hh & _ & Hm). pose proof height_pos. pose proof (nb_height _ _ _ _ Hb).
  assert (Hu : is_u64 (h_Height (b_Header b))) by (unfold is_u64; lia).
  assert (Hcase : canon = EmptyHash \/ (length canon = HashLength /\ mapped db (h_Height (b_Header b)) canon)).
  { pose proof (GetBlockHash_mapped db T (h_Height (b_Header b)) HT) as Hg.
    destruct (GetBlockHash db (h_Height (b_Header b))) as [h|e]; [|by left]. subst canon. right.
    assert (Hin : forall h, mapped db (h_Height (b_Header b)) h -> is_Some (T h)).
    { intros x Hx%Hm; [|done]. apply (on_chain_heights _ HT) in Hx as (_ & hx & _ & Hx & _). by rewrite Hx. }
    specialize (Hg Hin). split; [|done]. destruct (Hin h Hg) as [hd Hhd]. by apply (tr_hash _ HT) in Hhd as (? & _). }
  apply resumes_writing; [destruct Hcase as [?|[? _]]; auto|].
  rewrite (insert_id db keyHeadBlockHash o Hh). intros rp file.
  assert (E : (if Hash_IsEmpty canon then db else <[heightToHashKey (h_Height (b_Header b)) := canon]> db) = db).
  { destruct Hcase as [->|[_ Hmap]]; [done|]. destruct (Hash_IsEmpty canon); [done|]. by apply insert_id. }
  rewrite E. apply chp_DeleteBlock_missing; [specialize (Ht (b_HeaderHash b)); by rewrite (nb_new _ _ _ _ Hb) in Ht|].
  intros r db' Hdel. split; [done|]. split; [|done]. eapply canonical_deleted; [done|apply Hb|done].
Qed.

(** After the block is stored and before that is noted, when its height had a block. *)
Lemma resumes_stored db canon :
  going db (grown T b) o (b_HeaderHash b) (h_Height (b_Header b) - 1) (h_Height (b_Header b) + 1) ->
  on_chain T o (h_Height (b_Header b)) canon -> resumes db (writing canon).
Proof.
  intros (Ht & Hh & Hsp) Hcanon. pose proof height_pos. pose proof (nb_height _ _ _ _ Hb).
  assert (Hu : is_u64 (h_Height (b_Header b))) by (unfold is_u64; lia).
  assert (Hlen : length canon = HashLength /\ canon <> EmptyHash).
  { apply (on_chain_heights _ HT) in Hcanon as (_ & hd & _ & Hhd & _). by apply (tr_hash _ HT) in Hhd as (? & ? & _). }
  apply resumes_writing; [right; apply Hlen|]. intros rp file.
  assert (He : Hash_IsEmpty canon = false) by (apply bool_decide_false; apply Hlen). rewrite He.
  set (db2 := <[heightToHashKey (h_Height (b_Header b)) := canon]> (<[keyHeadBlockHash := o]> db)).
  assert (Ht2 : has_tree db2 (grown T b)).
  { eapply has_tree_same; [..|exact Ht]; intros k; unfold db2; by rewrite !lookup_insert_ne. }
  pose proof (Ht2 (b_HeaderHash b)) as Hblk. rewrite grown_block in Hblk.
  destruct Hblk as (_ & blk & Hget & _ & Hhd & Hd). eapply chp_DeleteBlock; [exact Hget|done| |].
  { rewrite Hhd. unfold GetBlockHash, db2. by rewrite lookup_insert_eq. }
  intros db' (Hk & Hheights & Hhead & Hdel). split; [done|]. split; [|done]. split; [|split; [|split]].
  - intros k. destruct (decide (k = b_HeaderHash b)) as [->|Hne]; [by rewrite (nb_new _ _ _ _ Hb)|].
    specialize (Ht2 k). unfold grown in Ht2. rewrite decide_False in Ht2 by done.
    destruct (Hk k Hne) as (E1 & _ & E2). unfold GetBlock, GetBlockHeader in *. by rewrite E1, E2.
  - rewrite Hhead. unfold db2. rewrite lookup_insert_ne by (intros E; by apply (head_key_height (h_Height (b_Header b)))).
    by rewrite lookup_insert_eq.
  - by rewrite Ho.
  - intros n x Hn. unfold mapped. rewrite Hheights. unfold db2. destruct (decide (n = h_Height (b_Header b))) as [->|Hne].
    + rewrite lookup_insert_eq. split; [intros [= <-]; done|]. intros Hx. f_equal. by eapply on_chain_fun.
    + rewrite lookup_insert_ne by (intros E; apply Hne; symmetry; by apply heightToHashKey_inj).
      rewrite lookup_insert_ne by apply head_key_height. fold (mapped db n x). rewrite (Hsp n x Hn), (grown_chain o ho n x Ho).
      split; [intros [[? _]|[_ ?]]; [lia|done]|]. intros ?. right. split; [lia|done].
Qed.

(** After the block is stored: what is left to do. *)
Definition stored rp : Prop :=
  rp_WritingBlockHash rp = EmptyHash /\ rp_PreviousCanonicalBlockHash rp = EmptyHash /\ rp_PreviousHeadBlockHash rp = EmptyHash.

Lemma resumes_stale db rp lo s hs :
  stored rp -> rp_LargerHeight rp = 0 -> rp_StaleHash rp = s ->
  going db (grown T b) o (b_HeaderHash b) lo (2 ^ 64) -> grown T b s = Some hs ->
  on_chain (grown T b) (b_HeaderHash b) (h_Height hs) s -> lo = h_Height hs \/ lo = h_Height hs - 1 ->
  resumes db rp.
Proof.
  destruct rp as [wh whe pc ph lh st]. intros (E1 & E2 & E3) E4 E5 Hg Hs Hon Hlo. cbn in E1, E2, E3, E4, E5. subst.
  unfold resumes, recover. apply chp_get. intros c (_ & _ & -> & _).
  cbn [rp_PreviousHeadBlockHash rp_WritingBlockHeight rp_PreviousCanonicalBlockHash rp_WritingBlockHash rp_LargerHeight rp_StaleHash].
  assert (He : Hash_IsEmpty s = false) by (apply bool_decide_false; by apply (tr_hash _ grown_ok) in Hs as (_ & ? & _)).
  rewrite He. change (Hash_IsEmpty EmptyHash) with true. rewrite andb_false_r. cbn [negb andb Z.ltb Z.compare].
  chp_seq.
  eapply chp_post; [eapply (OverwriteStaleBlocks_spec (grown T b) grown_ok o _ _ grown_block false); [by intros ?|done..]|].
  cbn beta. intros r db' rp' file' (-> & Hc & -> & ->).
  chp_seq. apply chp_serialize; [done..|].
  split; [by right|]. by repeat split.
Qed.

Lemma resumes_larger db rp l i :
  stored rp -> rp_LargerHeight rp = l -> rp_StaleHash rp = h_PreviousBlockHash (b_Header b) ->
  going db (grown T b) o (b_HeaderHash b) (h_Height (b_Header b) - 1) i -> i = l \/ i = l + 1 ->
  h_Height (b_Header b) < l -> l < 2 ^ 64 - 1 -> resumes db rp.
Proof.
  destruct rp as [wh whe pc ph lh st]. intros (E1 & E2 & E3) E4 E5 Hg Hi Hl Hmax. cbn in E1, E2, E3, E4, E5. subst.
  pose proof height_pos. unfold resumes, recover. apply chp_get. intros c (_ & _ & -> & _).
  cbn [rp_PreviousHeadBlockHash rp_WritingBlockHeight rp_PreviousCanonicalBlockHash rp_WritingBlockHash rp_LargerHeight rp_StaleHash].
  destruct (nb_parent _ _ _ _ Hb) as (hp & Hp & Hhp). pose proof (grown_old _ _ Hp) as Hgp.
  assert (He : Hash_IsEmpty (h_PreviousBlockHash (b_Header b)) = false)
    by (apply bool_decide_false; by apply (tr_hash _ HT) in Hp as (_ & ? & _)).
  rewrite He. change (Hash_IsEmpty EmptyHash) with true. rewrite andb_false_r, (proj2 (Z.ltb_lt 0 l)) by lia. cbn [negb andb].
  chp_seq.
  eapply chp_post; [apply (DeleteLargerHeightBlocks_spec (grown T b) grown_ok o _ _ grown_block false (h_Height (b_Header b) - 1) l i);
    try done; unfold is_u64; lia|].
  cbn beta. intros r db' rp' file' (-> & Hg' & -> & ->).
  chp_seq.
  eapply chp_post; [eapply (OverwriteStaleBlocks_spec (grown T b) grown_ok o _ _ grown_block false); [by intros ?|done..| |]|].
  - rewrite Hhp. apply on_chain_parent; [apply grown_ok|apply grown_block|lia].
  - left. by rewrite Hhp.
  - cbn beta. intros r db2 rp2 file2 (-> & Hc & -> & ->).
    chp_seq. apply chp_serialize; [done..|].
    split; [by right|]. by repeat split.
Qed.

(** ** Writing *)

(** What a disk has to be for [recover]. *)
Definition safe_disk (d : Disk) : Prop := lost_mapping d = false -> half_moved o b d = false -> recovers d.

(** A block on top of the head makes the mapping its chain as soon as it is stored. *)
Lemma going_extends db lo hi :
  h_PreviousBlockHash (b_Header b) = o -> going db (grown T b) o (b_HeaderHash b) lo hi ->
  lo < h_Height (b_Header b) < hi -> canonical db (grown T b) (b_HeaderHash b).
Proof.
  intros Hprev Hg Hr. destruct (nb_parent _ _ _ _ Hb) as (hp & Hp & Hhp). rewrite Hprev in Hp.
  pose proof (grown_old _ _ Hp) as Hgo. pose proof height_pos.
  apply (going_canonical (grown T b) grown_ok o _ _ grown_block db lo).
  - apply (going_done (grown T b) grown_ok o _ _ grown_block db lo hi); [done|lia|].
    intros n h _ Hn Hon. apply (on_chain_heights _ grown_ok) in Hon as (hx & _ & Hx & _ & _ & Hle).
    rewrite Hgo in Hx. injection Hx as <-. lia.
  - destruct (decide (lo < 0)) as [?|?]; [by left|]. right.
    destruct (on_chain_total _ grown_ok _ _ lo Hgo) as [s Hs]; [lia|]. exists s. split; [|done].
    eapply oc_up; [apply grown_block|]. by rewrite Hprev.
Qed.

Lemma safe_cut db lo hi :
  going db (grown T b) o (b_HeaderHash b) lo hi -> lo < h_Height (b_Header b) < hi -> safe_disk (db, NotJson).
Proof.
  intros Hg Hr _ Hm. unfold half_moved in Hm. cbn [fst snd] in Hm.
  rewrite bool_decide_true in Hm by (eapply going_header; [exact Hg|apply grown_block]).
  apply negb_false_iff, bool_decide_eq_true in Hm. apply recovers_cut. right. by eapply going_extends.
Qed.

Lemma safe_json db rp : resumes db rp -> safe_disk (db, Json rp).
Proof. intros Hr _ _. by apply resumes_recovers. Qed.

Lemma put_block_going db db' x y z :
  canonical db T o -> same_but_indices (put_entries b x y z db) db' ->
  enc_header (b_Header b) = Some x -> enc_td td = Some y -> enc_body (mkBody (b_Transactions b) (b_Debts b)) = Some z ->
  going db' (grown T b) o (b_HeaderHash b) (h_Height (b_Header b) - 1) (h_Height (b_Header b) + 1).
Proof.
  intros (Ht & Hh & _ & Hm) Hs Hx Hy Hz. pose proof (nb_storable _ _ _ _ Hb) as Hst.
  destruct (put_entries_read _ _ _ _ _ _ _ Hst Hx Hy Hz Hs) as (Hrh & _ & Hrb & _).
  destruct Hst as (_ & Hu & _). destruct (put_entries_others _ _ _ _ _ _ Hu Hs) as [Hk Hn]. split; [|split].
  - intros k. unfold grown. destruct (decide (k = b_HeaderHash b)) as [->|Hne].
    + split; [done|]. exists b. split; [done|]. split; [done|]. split; [done|apply Hb].
    + specialize (Ht k). destruct (Hk k Hne) as (E1 & _ & E2). unfold GetBlock, GetBlockHeader in *. by rewrite E1, E2.
  - rewrite Hs by done. unfold put_entries. by rewrite lookup_insert_eq.
  - intros n h Hn'. unfold mapped. destruct (decide (n = h_Height (b_Header b))) as [->|Hne].
    + rewrite Hs by done. unfold put_entries. rewrite lookup_insert_ne by apply head_key_height. rewrite lookup_insert_eq.
      split.
      * intros [= <-]. left. split; [lia|]. constructor. apply grown_block.
      * intros [[_ Hc]|[? _]]; [|lia]. f_equal. eapply on_chain_fun; [apply grown_ok| |exact Hc]. constructor. apply grown_block.
    + rewrite Hn by done. fold (mapped db n h). rewrite (Hm n h Hn'), <-(grown_chain o ho n h Ho).
      split; [intros Hc; right; split; [lia|done]|]. intros [[? _]|[_ Hc]]; [lia|done].
Qed.

Lemma canonical_receipts db x : canonical db T o -> canonical (<[hashToReceiptsKey (b_HeaderHash b) := x]> db) T o.
Proof.
  intros (Ht & Hh & Hs & Hm). split; [|split; [|split]]; [|by rewrite lookup_insert_ne|done|].
  - eapply has_tree_same; [..|exact Ht]; intros k; by rewrite lookup_insert_ne.
  - intros n h Hn. unfold mapped. rewrite lookup_insert_ne by done. by apply Hm.
Qed.

(** The canonical block at the height of the new block. *)
Definition previous db : Hash := match GetBlockHash db (h_Height (b_Header b)) with inl h => h | inr _ => EmptyHash end.

Lemma previous_spec db :
  canonical db T o ->
  match GetBlockHash db (h_Height (b_Header b)) with
  | inl h => on_chain T o (h_Height (b_Header b)) h /\ exists blk, GetBlock db h = inl blk
  | inr _ => h_Height ho < h_Height (b_Header b)
  end.
Proof.
  intros (Ht & _ & _ & Hm). pose proof height_pos. pose proof (nb_height _ _ _ _ Hb).
  assert (Hu : is_u64 (h_Height (b_Header b))) by (unfold is_u64; lia).
  assert (Hin : forall h, mapped db (h_Height (b_Header b)) h -> is_Some (T h)).
  { intros h Hh%Hm; [|done]. apply (on_chain_heights _ HT) in Hh as (_ & hx & _ & Hhx & _). by rewrite Hhx. }
  pose proof (GetBlockHash_mapped db T (h_Height (b_Header b)) HT Hin) as Hg.
  destruct (GetBlockHash db (h_Height (b_Header b))) as [h|e].
  - split; [by apply Hm|]. destruct (has_tree_read T db h Ht (Hin h Hg)) as (blk & Hblk & _). eauto.
  - destruct Hg as [_ Hno]. apply Z.nle_gt. intros Hle.
    destruct (on_chain_total _ HT _ _ (h_Height (b_Header b)) Ho) as [h Hh]; [lia|]. by apply (Hno h), Hm.
Qed.

Lemma onPutBlockStart_spec db rp file :
  canonical db T o ->
  chp (S := S) (onPutBlockStart b true) db rp file safe_disk (fun r db' rp' file' =>
    r = None /\ db' = db /\ rp' = writing (previous db) /\ file' = Json (writing (previous db))).
Proof.
  intros Hc. pose proof height_pos. pose proof (nb_height _ _ _ _ Hb). unfold onPutBlockStart. apply chp_get.
  intros c (_ & _ & -> & _). chp_seq. apply chp_GetBlockHash; [unfold is_u64; lia|]. fold (previous db). chp_seq.
  apply chp_GetHeadBlockHash. unfold GetHeadBlockHash. rewrite (proj1 (proj2 Hc)). cbv iota.
  rewrite (BytesToHash_hash o) by (by apply (tr_hash _ HT) in Ho as (? & _)). chp_seq.
  apply chp_serialize; [intros _ _; by apply recovers_cut; left| |by apply chp_ret]. by apply safe_json, resumes_before.
Qed.

(** What follows when the block is stored. *)
Lemma update_chain_spec db canon :
  going db (grown T b) o (b_HeaderHash b) (h_Height (b_Header b) - 1) (h_Height (b_Header b) + 1) ->
  chp (S := S) (onPutBlockEnd ;;;
    err <- DeleteLargerHeightBlocks (u64 (h_Height (b_Header b) + 1)) true ;;
    match err with
    | Some err => go_ret (Some err)
    | None => OverwriteStaleBlocks (h_PreviousBlockHash (b_Header b)) true
    end) db (writing canon) (Json (writing canon)) safe_disk (fun r db' rp' file' =>
    r = None /\ canonical db' (grown T b) (b_HeaderHash b) /\ idle rp' /\ file' = Json rp').
Proof.
  intros Hg. pose proof height_pos. pose proof (nb_height _ _ _ _ Hb). unfold writing.
  rewrite u64_small by (unfold is_u64; lia). destruct (nb_parent _ _ _ _ Hb) as (hp & Hp & Hhp).
  pose proof (grown_old _ _ Hp) as Hgp. chp_seq. apply chp_bind, chp_modify, chp_serialize.
  { eapply safe_cut; [exact Hg|lia]. }
  { apply safe_json. by eapply resumes_larger; try done; [left|cbn; lia..]. }
  chp_seq. eapply chp_post; [apply (DeleteLargerHeightBlocks_spec (grown T b) grown_ok o _ _ grown_block true
    (h_Height (b_Header b) - 1) _ (h_Height (b_Header b) + 1)); [..|unfold is_u64; lia|intros _; lia]; try done; try lia|].
  - intros db' k f Hg' Hk [->|(j & -> & Hj & Hkj)]; [eapply safe_cut; [exact Hg'|lia]|].
    apply safe_json. eapply resumes_larger; try done; cbn; lia.
  - intros _. split; [done|]. split; [done|]. intros db' Hg'. apply safe_json.
    eapply (resumes_stale _ _ (h_Height (b_Header b) - 1) _ hp); try done; [rewrite Hhp|lia].
    apply on_chain_parent; [apply grown_ok|apply grown_block|lia].
  - cbn beta. intros r db1 rp1 file1 (-> & Hg1 & -> & ->).
    assert (Hon : on_chain (grown T b) (b_HeaderHash b) (h_Height hp) (h_PreviousBlockHash (b_Header b))).
    { rewrite Hhp. apply on_chain_parent; [apply grown_ok|apply grown_block|lia]. }
    eapply chp_post; [eapply (OverwriteStaleBlocks_spec (grown T b) grown_ok o _ _ grown_block true _ hp
      (h_Height (b_Header b) - 1)); [..|lia]; try done|].
    + intros db' lo f Hg' [[-> Hlo]|(s & hs & -> & Hs & Hon' & Hlo)]; [eapply safe_cut; [exact Hg'|lia]|].
      apply safe_json. by eapply resumes_stale.
    + intros _. split; [done|]. split; [done|]. intros db' Hc. split; [intros _ _; by apply recovers_cut; right|].
      apply safe_json, resumes_idle; [done|by right].
    + cbn beta. intros r db2 rp2 file2 (-> & Hc & -> & ->). done.
Qed.

(** ** The height that is lost *)

(** The height of the block is mapped to it and it is not there. *)
Definition dangling (o : Hash) (b : Block) db : Prop :=
  db !! keyHeadBlockHash = Some o /\ mapped db (h_Height (b_Header b)) (b_HeaderHash b)
  /\ db !! hashToHeaderKey (b_HeaderHash b) = None.

Lemma recover_lost db :
  going db (grown T b) o (b_HeaderHash b) (h_Height (b_Header b) - 1) (h_Height (b_Header b) + 1) ->
  chp (S := S) recover db (writing EmptyHash) (Json (writing EmptyHash)) (fun _ => True)
    (fun _ db' rp' file' => dangling o b db' /\ file' = Json rp' /\ idle rp').
Proof.
  intros (Ht & Hh & Hsp). pose proof height_pos. pose proof (nb_height _ _ _ _ Hb).
  assert (Hu : is_u64 (h_Height (b_Header b))) by (unfold is_u64; lia).
  apply recover_writing with (P := dangling o b); [by left|]. intros rp file.
  change (Hash_IsEmpty EmptyHash) with true. cbv iota.
  assert (Hm : (<[keyHeadBlockHash := o]> db) !! heightToHashKey (h_Height (b_Header b)) = Some (b_HeaderHash b)).
  { rewrite lookup_insert_ne by apply head_key_height. apply Hsp; [done|]. left. split; [lia|]. constructor. apply grown_block. }
  assert (Ht1 : has_tree (<[keyHeadBlockHash := o]> db) (grown T b)).
  { eapply has_tree_same; [..|exact Ht]; intros k; by rewrite !lookup_insert_ne. }
  pose proof (Ht1 (b_HeaderHash b)) as Hblk. rewrite grown_block in Hblk. destruct Hblk as (_ & blk & Hget & _ & Hhd & Hd).
  eapply chp_DeleteBlock; [exact Hget|done| |].
  { rewrite Hhd. unfold GetBlockHash. by rewrite Hm. }
  intros db' (_ & Hheights & Hhead & Hdel). split; [done|]. split; [|done]. split; [|split; [|done]].
  - by rewrite Hhead, lookup_insert_eq.
  - unfold mapped. by rewrite Hheights.
Qed.

Lemma put_block_spec db rp file :
  canonical db T o ->
  chp (S := S) (put_block b receipts td) db rp file safe_disk (fun r db' rp' file' =>
    r = None /\ canonical db' (grown T b) (b_HeaderHash b) /\ idle rp' /\ file' = Json rp').
Proof.
  intros Hc. unfold put_block. chp_seq. eapply chp_post; [by apply onPutBlockStart_spec|].
  cbn beta. intros r ? rp1 file1 (-> & -> & -> & ->). destruct (nb_receipts _ _ _ _ Hb) as [x Hx].
  pose proof (canonical_receipts db x Hc) as Hc1. set (db1 := <[_ := x]> db) in *.
  assert (Hprev : previous db1 = previous db).
  { unfold previous, GetBlockHash, db1. by rewrite lookup_insert_ne by done. }
  chp_seq. apply (chp_PutReceipts _ _ x); [done| |].
  { apply safe_json, resumes_before; [done|]. by rewrite <-Hprev. }
  destruct (nb_header _ _ _ _ Hb) as [hx Hhx], (nb_td _ _ _ _ Hb) as [tx Htx], (nb_body _ _ _ _ Hb) as [bx Hbx].
  pose proof (previous_spec db1 Hc1) as Hps. rewrite <-Hprev. chp_seq.
  eapply (chp_PutBlock b td hx tx bx); [apply Hb|done..| |].
  - intros old Hold. fold db1 in Hold. rewrite Hold in Hps. apply Hps.
  - intros db2 Hs. pose proof (put_block_going db1 db2 hx tx bx Hc1 Hs Hhx Htx Hbx) as Hg.
    split; [|by apply update_chain_spec]. unfold safe_disk, lost_mapping, writing, previous.
    cbn [fst snd rp_WritingBlockHash rp_PreviousCanonicalBlockHash]. rewrite block_not_empty.
    rewrite bool_decide_true by (eapply going_header; [exact Hg|apply grown_block]). cbn [negb andb].
    unfold previous in *. destruct (GetBlockHash db1 (h_Height (b_Header b))) as [h|e]; [|done].
    intros _ _. apply resumes_recovers, resumes_stored; [done|apply Hps].
Qed.
End new_block.

(** A block of a height whose canonical block is not there is refused. *)
Lemma PutBlock_dangling o (b b' : Block) td hx tx bx db :
  dangling o b db -> length (b_HeaderHash b) = HashLength -> h_Height (b_Header b') = h_Height (b_Header b) ->
  enc_header (b_Header b') = Some hx -> enc_td td = Some tx ->
  enc_body (mkBody (b_Transactions b') (b_Debts b')) = Some bx ->
  PutBlock b' td true db = Some (Some ErrNotFound, db, []).
Proof.
  intros (_ & Hm & Hn) Hlen Hh Hx Ht Hbx. unfold PutBlock, putBlockInternal, go_bind, go_get, go_ret, go_deref.
  rewrite Hx, Ht, Hbx. cbn. unfold head_batch, GetBlockHash. rewrite Hh. unfold mapped in Hm. rewrite Hm.
  rewrite BytesToHash_hash by done. unfold GetBlock, GetBlockHeader, read_with. by rewrite Hn.
Qed.

Lemma put_block_dangling o (b b' : Block) td receipts db rp file :
  dangling o b db -> length o = HashLength -> length (b_HeaderHash b) = HashLength -> storable b' ->
  h_Height (b_Header b') = h_Height (b_Header b) ->
  is_Some (enc_header (b_Header b')) -> is_Some (enc_td td) ->
  is_Some (enc_body (mkBody (b_Transactions b') (b_Debts b'))) -> is_Some (enc_receipts receipts) ->
  chp (S := S) (put_block b' receipts td) db rp file (fun _ => True)
    (fun r db' _ _ => r = Some ErrNotFound /\ dangling o b db').
Proof.
  intros Hd Ho Hlen Hst Hh [hx Hx] [tx Ht] [bx Hbx] [rx Hr]. unfold put_block, onPutBlockStart. apply chp_bind, chp_get.
  intros c _. chp_seq. apply chp_GetBlockHash; [apply Hst|]. chp_seq. apply chp_GetHeadBlockHash.
  unfold GetHeadBlockHash. rewrite (proj1 Hd), BytesToHash_hash by done. chp_seq. apply chp_serialize; [done..|]. chp_seq.
  apply (chp_PutReceipts _ _ rx); [done..|]. chp_seq.
  assert (Hd1 : dangling o b (<[hashToReceiptsKey (b_HeaderHash b') := rx]> db)).
  { destruct Hd as (E1 & E2 & E3). split; [|split]; [..|by rewrite lookup_insert_ne]; unfold mapped; by rewrite lookup_insert_ne. }
  eapply chp_op; [intros; by apply PutBlock_law|]. unfold wp.
  rewrite (PutBlock_dangling o b b' td hx tx bx) by done. split; [done|]. by apply chp_ret.
Qed.
End crash.
