(* ===== verification/ChainPurge.v ===== *)
(** * Purging a fork

    [purgeBlock] of [core/block_index.go] walks from a leaf down to the canonical chain and
    deletes what it meets. It ends, and never deletes a block of the canonical chain. *)

From Stdlib Require Import ZArith Lia.
From S2P Require Import Prelude Common BftHeader StateDb Svm EvmWord EvmStore Trie TrieCommit ChainStore ChainLaws ChainCanon ChainTree ChainProofs ChainCrash.

Open Scope Z_scope.
Open Scope go_scope.

Section purge.
Context {S : Type} `{StoreCodec} `{BlockchainStore S} `{!StoreLaws S} `{!StoreCodecLaws}.
Implicit Types (db : Db) (T : Tree) (s : S).

(** The store does what the database does, as a rule. *)
Lemma wp_refines {A} (m : GoM S Db A) (raw : DbM A) s (Q : A -> S -> list Db -> Prop) :
  refines store_inv m raw s ->
  wp raw (store_db s) (fun a db' o => forall s', store_db s' = db' -> store_inv s' -> Q a s' o) -> wp m s Q.
Proof.
  intros Hm Hraw. unfold wp in *. destruct (raw (store_db s)) as [[[a db'] o]|] eqn:Hrun; [|done].
  destruct (Hm _ _ _ Hrun) as (s' & -> & Hdb & Hinv). by apply Hraw.
Qed.

Lemma wp_store_read {A} (m : GoM S Db A) (f : Db -> A) s (Q : A -> S -> list Db -> Prop) :
  refines store_inv m (db_read f) s ->
  (forall s', store_db s' = store_db s -> store_inv s' -> Q (f (store_db s)) s' []) -> wp m s Q.
Proof. intros Hm HQ. eapply wp_refines; [exact Hm|]. exact HQ. Qed.

(** The tree without a block. *)
Definition without T (h : Hash) : Tree := fun k => if decide (k = h) then None else T k.

Lemma on_chain_without T h x n k : ~ (exists m, on_chain T x m h) -> on_chain (without T h) x n k <-> on_chain T x n k.
Proof.
  intros Hno. assert (Hsub : forall k hd, without T h k = Some hd -> T k = Some hd) by (intros k0 hd; unfold without; by case_decide).
  split; [by apply on_chain_grow|]. intros Hc. revert Hno. induction Hc as [x hd Hx|x hd n k Hx Hc IH]; intros Hno.
  - constructor. unfold without. rewrite decide_False; [done|]. intros ->. apply Hno. eexists. by constructor.
  - econstructor; [unfold without; rewrite decide_False; [exact Hx|]|apply IH].
    + intros ->. apply Hno. eexists. by constructor.
    + intros [m Hm]. apply Hno. exists m. by econstructor.
Qed.

(** Deleting a block that is not canonical. *)
Lemma canonical_without db db' T o h :
  canonical db T o -> ~ (exists m, on_chain T o m h) -> deleted_block h db db' -> canonical db' (without T h) o.
Proof.
  intros (Ht & Hh & Hs & Hm) Hno (Hk & Hheights & Hhead & Hdel). split; [|split; [|split]].
  - intros k. unfold without. case_decide as Hkh; [by subst|]. specialize (Ht k).
    destruct (Hk k Hkh) as (E1 & _ & E2). unfold GetBlock, GetBlockHeader in *. by rewrite E1, E2.
  - by rewrite Hhead.
  - unfold without. rewrite decide_False; [done|]. intros ->. destruct Hs as [hd Hs]. apply Hno. eexists. by constructor.
  - intros n k Hn. unfold mapped. rewrite Hheights. rewrite on_chain_without by done. by apply Hm.
Qed.

(** What is left of a tree: everything up to a height, and the chain of the head. *)
Definition purged T T' (o : Hash) (top : Z) : Prop :=
  (forall k hd, T' k = Some hd -> T k = Some hd)
  /\ (forall k hd, T k = Some hd -> h_Height hd <= top -> T' k = Some hd)
  /\ (forall n k, on_chain T o n k -> T' k = T k).

Section loop.
Context (T : Tree) (HT : tree_ok T) (o : Hash).

Lemma purged_canonical T' top : purged T T' o top -> forall n k, on_chain T' o n k <-> on_chain T o n k.
Proof.
  intros (Hsub & _ & Hkeep) n k. split; [by apply on_chain_grow|]. intros Hc.
  assert (Hstep : forall x, (forall n k, on_chain T x n k -> T' k = T k) -> on_chain T x n k -> on_chain T' x n k).
  { intros x Hx Hxc. revert Hx. clear Hc. induction Hxc as [x hd Hd|x hd n k Hd Hxc IH]; intros Hx.
    - constructor. rewrite <-Hd. eapply Hx. by constructor.
    - econstructor; [rewrite <-Hd; eapply Hx; by constructor|]. apply IH. intros m j Hj. eapply Hx. by econstructor. }
  by apply Hstep.
Qed.

Lemma purged_less T' top top' : purged T T' o top -> top' <= top -> purged T T' o top'.
Proof. intros (Hs & Ht & Hk) Hle. split; [done|]. split; [|done]. intros k hd Hkd Hh. apply Ht; [done|lia]. Qed.

Lemma purged_without T' h hd :
  purged T T' o (h_Height hd) -> T h = Some hd -> ~ (exists m, on_chain T o m h) ->
  purged T (without T' h) o (h_Height hd - 1).
Proof.
  intros (Hsub & Htop & Hkeep) Hh Hno. split; [|split].
  - intros k x. unfold without. case_decide; [done|]. apply Hsub.
  - intros k x Hk Hx. unfold without. case_decide as E; [|apply Htop; [done|lia]]. subst. rewrite Hh in Hk. injection Hk as <-. lia.
  - intros n k Hc. unfold without. case_decide as E; [|by eapply Hkeep]. subst. exfalso. apply Hno. by exists n.
Qed.

Lemma purgeBlock_spec fuel : forall h hd T' s,
  store_inv s -> T h = Some hd -> purged T T' o (h_Height hd) -> canonical (store_db s) T' o -> (chain_length hd < fuel)%nat ->
  wp (purgeBlock fuel h) s (fun _ s' _ => store_inv s' /\ exists T2 top, purged T T2 o top /\ canonical (store_db s') T2 o).
Proof.
  induction fuel as [|fuel IH]; intros h hd T' s Hs Hh Hp Hc Hf; [lia|]. cbn [purgeBlock].
  destruct (tr_hash _ HT _ _ Hh) as (Hlen & Hne & Hheight).
  assert (He : Hash_IsEmpty h = false) by (by apply bool_decide_false). rewrite He.
  assert (Hread : GetBlockHeader (store_db s) h = inl hd).
  { pose proof (proj1 Hc h) as Ht. rewrite (proj1 (proj2 Hp) _ _ Hh) in Ht by lia. apply Ht. }
  apply wp_bind. eapply wp_store_read; [by apply (GetBlockHeader_law h)|]. intros s1 E1 Hs1. cbn beta. rewrite Hread.
  apply wp_bind. eapply wp_store_read; [apply (GetBlockHash_law (h_Height hd)); [done|unfold is_u64; lia]|]. intros s2 E2 Hs2. cbn beta.
  rewrite E1 in E2. assert (Hstop : store_inv s2 /\ exists T2 top, purged T T2 o top /\ canonical (store_db s2) T2 o).
  { split; [done|]. exists T', (h_Height hd). by rewrite E2. }
  rewrite E1. destruct (GetBlockHash (store_db s) (h_Height hd)) as [x|e] eqn:Hx; [|by apply wp_ret].
  unfold bytes_eqb. case_bool_decide as Heq; [by apply wp_ret|].
  assert (Hno : ~ exists m, on_chain T o m h).
  { intros [m Hm]. apply Heq. assert (m = h_Height hd) as ->.
    { destruct (on_chain_heights _ HT _ _ _ Hm) as (_ & hd' & _ & Hh' & <- & _). congruence. }
    pose proof (proj2 (proj2 (proj2 Hc)) (h_Height hd) h ltac:(unfold is_u64; lia)) as Hmap.
    apply (purged_canonical T' _ Hp), Hmap in Hm. revert Hx. unfold GetBlockHash. unfold mapped in Hm. rewrite Hm.
    rewrite BytesToHash_hash by done. congruence. }
  pose proof (proj1 Hc h) as Ht. rewrite (proj1 (proj2 Hp) _ _ Hh) in Ht by lia. destruct Ht as (_ & blk & Hblk & _ & Hhd & Hd).
  apply wp_bind. rewrite <-E2 in Hblk. destruct (DeleteBlock_law h s2 Hs2) as [Href|(Hno' & _)].
  2: { rewrite E2 in Hno'. destruct (Hno' hd Hread) as [e He']. congruence. }
  eapply wp_refines; [exact Href|]. eapply wp_mono; [by eapply DeleteBlock_ok|].
  intros r db' outs (-> & -> & Hdel) s3 E3 Hs3. rewrite E2 in Hdel.
  assert (Hc3 : canonical (store_db s3) (without T' h) o).
  { rewrite E3. eapply canonical_without; [exact Hc| |exact Hdel]. intros [m Hm]. apply Hno. exists m. by apply (purged_canonical T' _ Hp). }
  pose proof (purged_without T' h hd Hp Hh Hno) as Hp3.
  destruct (tr_parent _ HT _ _ Hh) as [[Hz ->]|(hp & Hpar & Hhp)].
  - destruct fuel as [|fuel]; [unfold chain_length in Hf; lia|]. cbn [purgeBlock]. change (Hash_IsEmpty EmptyHash) with true. cbv iota.
    apply wp_ret. split; [done|]. eauto.
  - eapply wp_mono; [apply (IH _ hp (without T' h) s3); [done|done|by rewrite Hhp|done|]|done].
    apply (tr_hash _ HT) in Hpar. unfold chain_length in *. lia.
Qed.
End loop.
End purge.
