(* ===== verification/ChainExamples.v ===== *)
(** * A concrete store

    An encoding, a cache with two entries and a genesis block: what the interfaces of the
    stores ask for can be had, and the examples run on it. *)

From Stdlib Require Import ZArith Lia.
From S2P Require Import Prelude Common BftHeader StateDb Svm EvmWord EvmStore Trie TrieCommit ChainStore ChainLaws ChainCanon ChainTree.

Open Scope Z_scope.

(** ** An encoding *)

(** Fields with their lengths in front. *)
Definition enc_field (l : bytes) : bytes := Z.of_nat (length l) :: l.

Fixpoint dec_fields (n : nat) (b : bytes) : option (list bytes) :=
  match n, b with
  | O, [] => Some []
  | S n', len :: r => option_map (cons (take (Z.to_nat len) r)) (dec_fields n' (drop (Z.to_nat len) r))
  | _, _ => None
  end.

Lemma dec_enc_fields l : dec_fields (length l) (flat_map enc_field l) = Some l.
Proof.
  induction l as [|x l IH]; [done|]. cbn. rewrite Nat2Z.id, drop_app_length, take_app_length, IH. done.
Qed.

Definition header_fields (h : BlockHeader) : list bytes :=
  [h_PreviousBlockHash h; h_Creator h; h_StateHash h; h_TxHash h; h_ReceiptHash h; h_TxDebtHash h; h_DebtHash h;
   [default 0 (h_Difficulty h)]; [h_Height h]; [default 0 (h_CreateTimestamp h)]; h_Witness h; h_SecondWitness h;
   [h_Consensus h]; h_ExtraData h].

Definition is_u64b (z : Z) : bool := (0 <=? z) && (z <? 2 ^ 64).

Definition header_of (l : list bytes) : option BlockHeader :=
  match l with
  | [p; c; s; t; r; td; d; [diff]; [height]; [time]; w; w2; [engine]; e] =>
      if is_u64b height then Some (mkHeader p c s t r td d (Some diff) height (Some time) w w2 engine e) else None
  | _ => None
  end.

Definition debt_fields (d : Debt) : list bytes :=
  let x := d_Data d in
  [d_Hash d; dd_TxHash x; dd_From x; [dd_Nonce x]; dd_Account x; [dd_Amount x]; [dd_Price x]; dd_Code x].

Definition debt_of (l : list bytes) : option Debt :=
  match l with
  | [h; t; f; [n]; a; [m]; [p]; c] => Some (mkDebt h (mkDebtData t f n a m p c))
  | _ => None
  end.

(** Bodies are empty or have one debt. *)
#[export] Instance ex_codec : StoreCodec := {|
  enc_header h := if is_u64b (h_Height h) then Some (flat_map enc_field (header_fields h)) else None;
  dec_header b := match dec_fields 14 b with Some l => header_of l | None => None end;
  enc_td z := if 0 <=? z then Some [z] else None;
  dec_td b := match b with [z] => Some z | _ => None end;
  enc_body x := match x with
                | mkBody [] [] => Some []
                | mkBody [] [d] => Some (flat_map enc_field (debt_fields d))
                | _ => None
                end;
  dec_body b := match b with
                | [] => Some (mkBody [] [])
                | _ => match dec_fields 8 b with Some l => option_map (fun d => mkBody [] [d]) (debt_of l) | None => None end
                end;
  enc_receipts l := match l with [] => Some [] | _ => None end;
  dec_receipts b := match b with [] => Some [] | _ => None end;
  enc_index i := ix_Index i :: ix_BlockHash i;
  dec_index b := match b with i :: h => Some (mkIndex h i) | [] => None end
|}.

Lemma is_u64b_spec z : is_u64b z = true <-> is_u64 z.
Proof. unfold is_u64b, is_u64. rewrite andb_true_iff, Z.leb_le, Z.ltb_lt. done. Qed.

Lemma header_of_height l h : header_of l = Some h -> is_u64 (h_Height h).
Proof.
  unfold header_of. repeat (case_match; try done). intros [= <-]. by apply is_u64b_spec.
Qed.

#[export] Instance ex_codec_laws : StoreCodecLaws.
Proof.
  split; cbn -[dec_fields header_fields debt_fields flat_map header_of is_u64b].
  - intros b h. destruct (dec_fields 14 b) as [l|]; [|done]. apply header_of_height.
  - intros h b. destruct (is_u64b (h_Height h)) eqn:Hu; [|done]. intros [= <-].
    change 14%nat with (length (header_fields h)). rewrite dec_enc_fields. cbn -[is_u64b]. by rewrite Hu.
  - intros z b. case_match; [|done]. by intros [= <-].
  - intros [[|] [|d [|]]] b; try done; [by intros [= <-]|]. intros <-%(inj Some).
    pose proof (dec_enc_fields (debt_fields d)) as Hd. change (length (debt_fields d)) with 8%nat in Hd.
    destruct (flat_map enc_field (debt_fields d)) as [|x r] eqn:E; [done|]. rewrite Hd. destruct d as [h []]. reflexivity.
  - intros [|] b; [|done]. by intros [= <-].
  - by intros [].
Qed.

(** ** A cache *)

Section lru.
Context {K A : Type} `{EqDecision K}.

Fixpoint assoc (c : list (K * A)) (k : K) : option A :=
  match c with [] => None | (k', a) :: c' => if decide (k = k') then Some a else assoc c' k end.

Fixpoint evict (c : list (K * A)) (k : K) : list (K * A) :=
  match c with [] => [] | p :: c' => if decide (p.1 = k) then evict c' k else p :: evict c' k end.

Lemma assoc_evict c k k' : assoc (evict c k) k' = if decide (k' = k) then None else assoc c k'.
Proof.
  induction c as [|[k0 a] c IH]; cbn; [by case_decide|]. destruct (decide (k0 = k)); cbn; rewrite IH; repeat case_decide; naive_solver.
Qed.

Lemma assoc_take c k n a : assoc (take n c) k = Some a -> assoc c k = Some a.
Proof. revert n. induction c as [|[k0 a0] c IH]; intros [|n]; try done. cbn. case_decide; [done|]. apply IH. Qed.
End lru.

(** The two entries that were used last. *)
#[export] Instance ex_lru : LruCache := {|
  lru K A := list (K * A);
  lru_New _ _ _ := [];
  lru_Contains _ _ _ c k := bool_decide (is_Some (assoc c k));
  lru_Get _ _ _ c k := (assoc c k, match assoc c k with Some a => (k, a) :: evict c k | None => c end);
  lru_Add _ _ _ c k a := take 2 ((k, a) :: evict c k);
  lru_Remove _ _ _ c k := evict c k
|}.

#[export] Instance ex_lru_laws : LruLaws.
Proof.
  refine {| lru_peek := fun K A _ => assoc |}; cbn -[take].
  - done.
  - done.
  - intros K A ? c k. apply bool_decide_eq_true_1.
  - intros K A ? c k k'. destruct (assoc c k) as [a|] eqn:E; [|done]. cbn. rewrite assoc_evict.
    repeat case_decide; congruence.
  - intros K A ? c k k' a a' Hk%assoc_take. cbn in Hk. rewrite assoc_evict in Hk. repeat case_decide; naive_solver.
  - intros K A ? c k k' a. rewrite assoc_evict. case_decide; naive_solver.
Qed.

(** ** A genesis *)

(** The tree of a genesis alone. *)
Definition only (hash : Hash) (header : BlockHeader) : Tree := fun h => if decide (h = hash) then Some header else None.

Section genesis.
Context `{StoreCodec} `{!StoreCodecLaws} (hash : Hash) (header : BlockHeader).
Context (Hlen : length hash = HashLength) (Hne : hash <> EmptyHash).
Context (Hheight : h_Height header = 0) (Hprev : h_PreviousBlockHash header = EmptyHash) (Hclone : Clone header = header).

Lemma only_ok : tree_ok (only hash header).
Proof.
  unfold only. split; intros h hd; case_decide; try done; intros [= <-]; subst.
  - rewrite Hheight. done.
  - by left.
Qed.

(** [genesis.store] on an empty database makes a canonical chain. *)
Lemma genesis_canonical td db o :
  PutBlockHeader hash header td true ∅ = Some (None, db, o) -> canonical db (only hash header) hash.
Proof.
  unfold PutBlockHeader, putBlockInternal, go_bind, go_deref, go_ret, go_get.
  destruct (enc_header header) as [hb|] eqn:Hh; [|done]. destruct (enc_td td) as [tb|]; [|done].
  cbn. unfold head_batch, GetBlockHash. rewrite lookup_empty. intros [= <- _].
  unfold apply_batch. cbn. unfold apply_op. cbn. rewrite Hheight.
  assert (Hk : forall h, h <> hash -> hashToHeaderKey h <> hashToHeaderKey hash) by (by intros h Hx [= ?]).
  split; [|split; [|split]].
  - intros h. unfold only, GetBlock, GetBlockHeader, read_with. case_decide as E.
    + subst h. rewrite !lookup_insert_ne by done. rewrite lookup_insert_eq. cbn. rewrite (dec_enc_header _ _ Hh), Hclone.
      split; [done|]. eexists. by rewrite !lookup_insert_ne.
    + by rewrite !lookup_insert_ne by (done || (apply not_eq_sym; by apply Hk)).
  - by rewrite lookup_insert_eq.
  - unfold only. by rewrite decide_True.
  - intros n h Hn. unfold mapped. rewrite lookup_insert_ne by apply head_key_height. destruct (decide (n = 0)) as [->|Hn0].
    + rewrite lookup_insert_eq. split.
      * intros [= <-]. rewrite <-Hheight. constructor. unfold only. by rewrite decide_True.
      * intros Hc. apply (on_chain_heights _ only_ok) in Hc as (_ & hd & _ & Hd & _). revert Hd. unfold only. by case_decide; [subst|].
    + rewrite lookup_insert_ne by (intros E; apply Hn0; symmetry; apply heightToHashKey_inj; [|done|done]; split; lia).
      rewrite !lookup_insert_ne by done. split; [done|]. intros Hc.
      apply (on_chain_heights _ only_ok) in Hc as (_ & hd & _ & Hd & <- & _). revert Hd. unfold only. case_decide; [|done]. by intros [= <-].
Qed.
End genesis.

Definition ex_hash (n : Z) : Hash := n :: repeat 0 31.

Definition ex_header (prev : Hash) (height : Z) : BlockHeader :=
  mkHeader prev [] [] [] [] [] [] (Some 1) height (Some 7) [] [] 0 [].

Definition ex_block (n : Z) (prev : Hash) (height : Z) : Block := mkBlock (ex_hash n) (ex_header prev height) [] [].

Definition ex_db : Db :=
  match PutBlockHeader (ex_hash 1) (ex_header EmptyHash 0) 1 true ∅ with Some (_, db, _) => db | None => ∅ end.

(** A run without an error, checked without its state. *)
Definition succeeds {S O} (r : option (option StoreError * S * list O)) : bool :=
  match r with Some (None, _, _) => true | _ => false end.

Lemma ex_db_run : exists o, PutBlockHeader (ex_hash 1) (ex_header EmptyHash 0) 1 true ∅ = Some (None, ex_db, o).
Proof.
  assert (Hs : succeeds (PutBlockHeader (ex_hash 1) (ex_header EmptyHash 0) 1 true ∅) = true) by (vm_compute; reflexivity).
  revert Hs. unfold ex_db. destruct (PutBlockHeader _ _ _ _ _) as [[[[e|] db] o]|]; try done. by exists o.
Qed.

Lemma ex_db_canonical : canonical ex_db (only (ex_hash 1) (ex_header EmptyHash 0)) (ex_hash 1).
Proof. destruct ex_db_run as [o Hrun]. by eapply genesis_canonical. Qed.
