(* ===== verification/ChainSpec.v ===== *)
(** * What the chain and its stores promise

    The canonical chain of a node over any store, as an invariant of every write, every
    crash and every restart but one; the crash that it does not survive; and programs
    over the cached store, which cannot tell it from the database. *)

From Stdlib Require Import ZArith Lia.
From S2P Require Import Prelude Common BftHeader StateDb Svm EvmWord EvmStore Trie TrieCommit ChainStore ChainLaws ChainCanon ChainCache ChainTree ChainProofs ChainCrash ChainPurge ChainExamples.

Open Scope Z_scope.
Open Scope go_scope.

(** ** A node *)

Section node.
Context {S : Type} `{StoreCodec} `{BlockchainStore S} `{!StoreLaws S} `{!StoreCodecLaws}.
Implicit Types (db : Db) (c : ChainState S) (T : Tree).

(** The blocks of a database. *)
Definition chain_of db : Tree := fun h => match GetBlockHeader db h with inl hd => Some hd | inr _ => None end.

Definition chain_db c : Db := store_db (ch_store c).

Record canonical_chain c : Prop := {
  cc_store : store_inv (ch_store c);
  cc_tree : tree_ok (chain_of (chain_db c));
  cc_head : exists head, canonical (chain_db c) (chain_of (chain_db c)) head;
  cc_rp : ch_file c = Json (ch_rp c)
}.

Lemma has_tree_chain_of db T : has_tree db T -> forall h, T h = chain_of db h.
Proof.
  intros Ht h. specialize (Ht h). unfold chain_of. destruct (T h) as [hd|]; [by destruct Ht as [-> _]|].
  unfold GetBlockHeader, read_with. by rewrite Ht.
Qed.

Lemma tree_ok_ext T T' : (forall h, T h = T' h) -> tree_ok T -> tree_ok T'.
Proof.
  intros HE HT. split; intros h hd; rewrite <-HE; [apply HT|]. intros Hh.
  destruct (tr_parent _ HT _ _ Hh) as [?|(hp & Hp & Hhp)]; [by left|right]. exists hp. by rewrite <-HE.
Qed.

Lemma canonical_ext db T T' head : (forall h, T h = T' h) -> canonical db T head -> canonical db T' head.
Proof.
  intros HE (Ht & Hh & Hs & Hm). split; [|split; [|split]]; [|done|by rewrite <-HE|].
  - intros h. rewrite <-HE. apply Ht.
  - intros n h Hn. rewrite (Hm n h Hn). split; apply on_chain_grow; intros k hd; by rewrite HE.
Qed.

(** A state whose database is canonical for some tree. *)
Lemma canonical_chain_intro c T head :
  store_inv (ch_store c) -> ch_file c = Json (ch_rp c) -> tree_ok T -> canonical (chain_db c) T head -> canonical_chain c.
Proof.
  intros Hi Hrp HT Hc. pose proof (has_tree_chain_of _ _ (proj1 Hc)) as HE.
  split; [done|by eapply tree_ok_ext|exists head; by eapply canonical_ext|done].
Qed.

Lemma canonical_chain_holds c : canonical_chain c -> holds c (chain_db c) (ch_rp c) (Json (ch_rp c)).
Proof. intros Hc. split; [done|]. split; [apply Hc|]. split; [done|]. apply Hc. Qed.

Lemma restart_holds (d : Disk) : holds (S := S) (restart d) d.1 emptyRp d.2.
Proof. destruct (open_law (S := S) d.1). by repeat split. Qed.

(** The restart from a disk. *)
Definition restarts (d : Disk) c : Prop := exists disks, start_chain (restart d) = Some (None, c, disks).

(** What a write of a new block does, and what a restart from one of its disks does. *)
Lemma write_block c b receipts td head :
  canonical_chain c -> canonical (chain_db c) (chain_of (chain_db c)) head ->
  new_block (chain_of (chain_db c)) b td receipts ->
  exists c' disks, put_block b receipts td c = Some (None, c', disks)
    /\ canonical_chain c' /\ canonical (chain_db c') (grown (chain_of (chain_db c)) b) (b_HeaderHash b) /\ idle (ch_rp c')
    /\ Forall (fun d => lost_mapping d = false -> half_moved head b d = false -> exists c2, restarts d c2 /\ canonical_chain c2 /\ idle (ch_rp c2)
         /\ (canonical (chain_db c2) (chain_of (chain_db c)) head
             \/ canonical (chain_db c2) (grown (chain_of (chain_db c)) b) (b_HeaderHash b))) disks.
Proof.
  intros Hc Hh Hb. pose proof (cc_tree _ Hc) as HT. destruct (proj1 (proj2 (proj2 Hh))) as [ho Ho].
  pose proof (put_block_spec _ HT b td receipts Hb head ho Ho _ (ch_rp c) _ Hh _ (canonical_chain_holds c Hc)) as Hw.
  unfold wp in Hw. destruct (put_block b receipts td c) as [[[r c'] disks]|]; [|done].
  destruct Hw as (Hd & db' & rp' & file' & (Edb & Hi & Erp & Ef) & -> & Hcan & Hidle & ->). subst db' rp'.
  exists c', disks. split; [done|]. pose proof (grown_ok _ HT b td receipts Hb) as HG.
  split; [by eapply canonical_chain_intro|]. split; [done|]. split; [done|].
  eapply Forall_impl; [exact Hd|]. intros d Hsafe Hl Hm. specialize (Hsafe Hl Hm _ (restart_holds d)). unfold wp in Hsafe.
  destruct (start_chain (restart d)) as [[[e c2] o2]|] eqn:Hrun; [|done].
  destruct Hsafe as (_ & db2 & rp2 & file2 & (<- & Hi2 & Erp & Ef2) & -> & Hcan2 & E & Hidle2).
  exists c2. split; [by exists o2|]. split; [|split; [by rewrite Erp|done]].
  destruct Hcan2 as [Hcan2|Hcan2]; eapply canonical_chain_intro; try exact Hcan2; try done; congruence.
Qed.

(** The lives of a node: blocks are written one after the other; a crash during a write
    leaves one of its disks, from which the node starts again. The disks that are left out
    are those of [lost_mapping] and [half_moved]. *)
Inductive reachable (c0 : ChainState S) : ChainState S -> Prop :=
| re_start : reachable c0 c0
| re_write c b receipts td c' disks :
    reachable c0 c -> new_block (chain_of (chain_db c)) b td receipts ->
    put_block b receipts td c = Some (None, c', disks) -> reachable c0 c'
| re_crash c b receipts td r c' disks d c2 :
    reachable c0 c -> new_block (chain_of (chain_db c)) b td receipts ->
    put_block b receipts td c = Some (r, c', disks) -> d ∈ disks -> lost_mapping d = false ->
    (forall head, chain_db c !! keyHeadBlockHash = Some head -> half_moved head b d = false) ->
    restarts d c2 -> reachable c0 c2.

(** C29: In every life of a node that stores blocks without debts, over any
    store, the mapping of heights to blocks is the chain of the head block:
    a node that starts with such a mapping and writes new blocks, each
    without debts, on top of a stored one and becoming the head, has it
    after every write, and after every restart from a disk that a crash
    leaves in the middle of a write (the file of the recovery point is
    truncated before it is written, so that a crash can leave it unreadable
    as JSON). Two kinds of disks are left out: a block above the old head is
    stored and still noted as being written; or the file of the recovery
    point is cut after the block is stored, and the block is not on top of
    the old head. A second crash during the recovery itself is not covered,
    and the writes of the database and of the file do not fail. *)
Theorem canonical_chain_kept c0 c : canonical_chain c0 -> reachable c0 c -> canonical_chain c.
Proof.
  intros Hstart. induction 1 as [|c b receipts td c' disks _ Hc Hb Hrun|c b receipts td r c' disks d c2 _ Hc Hb Hrun Hd Hl Hm Hre].
  - done.
  - destruct (cc_head _ Hc) as [head Hh]. destruct (write_block c b receipts td head Hc Hh Hb) as (c1 & o1 & E & Hc1 & _). congruence.
  - destruct (cc_head _ Hc) as [head Hh]. destruct (write_block c b receipts td head Hc Hh Hb) as (c1 & o1 & E & _ & _ & _ & Hall).
    rewrite Hrun in E. injection E as -> -> ->. rewrite Forall_forall in Hall.
    destruct (Hall d Hd Hl (Hm _ (proj1 (proj2 Hh)))) as (c3 & [o3 E3] & Hc3 & _). destruct Hre as [o2 E2]. congruence.
Qed.

(** Writing a block that is not stored yet on top of one that is, over any
    store, ends without an error; the block is then stored with the old
    ones, it is the head, the heights are mapped to the block and its
    ancestors and to nothing else, whatever chain was canonical before, and
    the recovery point is clear. *)
Theorem put_block_makes_the_head c b receipts td :
  canonical_chain c -> new_block (chain_of (chain_db c)) b td receipts ->
  exists c' disks, put_block b receipts td c = Some (None, c', disks)
    /\ canonical (chain_db c') (grown (chain_of (chain_db c)) b) (b_HeaderHash b) /\ idle (ch_rp c').
Proof.
  intros Hc Hb. destruct (cc_head _ Hc) as [head Hh].
  destruct (write_block c b receipts td head Hc Hh Hb) as (c' & disks & E & _ & Hcan & Hi & _). eauto.
Qed.

(** C30: A crash at any disk of a write of a new block without debts, in a node
    whose blocks have none, is recovered, also when it leaves the file of
    the recovery point cut: the restart ends without an error and with a
    clear recovery point, and the node has the chain from before the write
    or the one after it, with the mapping of the heights being that chain.
    Two kinds of disks are left out: a block above the old head is stored
    and still noted as being written; or the file of the recovery point is
    cut after the block is stored, and the block is not on top of the old
    head. *)
Theorem crash_is_recovered c b receipts td head r c' disks d :
  canonical_chain c -> canonical (chain_db c) (chain_of (chain_db c)) head ->
  new_block (chain_of (chain_db c)) b td receipts ->
  put_block b receipts td c = Some (r, c', disks) -> d ∈ disks -> lost_mapping d = false -> half_moved head b d = false ->
  exists c2, restarts d c2 /\ idle (ch_rp c2)
    /\ (canonical (chain_db c2) (chain_of (chain_db c)) head
        \/ canonical (chain_db c2) (grown (chain_of (chain_db c)) b) (b_HeaderHash b)).
Proof.
  intros Hc Hh Hb Hrun Hd Hl Hm. destruct (write_block c b receipts td head Hc Hh Hb) as (c1 & o1 & E & _ & _ & _ & Hall).
  rewrite Hrun in E. injection E as -> -> ->. rewrite Forall_forall in Hall. destruct (Hall d Hd Hl Hm) as (c2 & ? & _ & ? & ?). eauto.
Qed.

(** Purging a fork, over any store, ends and never touches the canonical
    chain: whatever stored block it starts from, the head and the mapping of
    the heights stay as they are, every block of the chain of the head can
    still be read, and nothing appears that was not there. *)
Theorem purge_keeps_the_canonical_chain (s : S) head h :
  store_inv s -> tree_ok (chain_of (store_db s)) -> canonical (store_db s) (chain_of (store_db s)) head ->
  is_Some (chain_of (store_db s) h) ->
  exists r s' disks, purgeBlock (Datatypes.S (size (store_db s))) h s = Some (r, s', disks)
    /\ canonical (store_db s') (chain_of (store_db s')) head
    /\ (forall n k, on_chain (chain_of (store_db s)) head n k ->
          on_chain (chain_of (store_db s')) head n k /\ chain_of (store_db s') k = chain_of (store_db s) k)
    /\ (forall k hd, chain_of (store_db s') k = Some hd -> chain_of (store_db s) k = Some hd).
Proof.
  intros Hs HT Hc [hd Hh]. set (T := chain_of (store_db s)) in *.
  assert (Hp : purged T T head (h_Height hd)) by done.
  pose proof (chain_size T HT (store_db s) h hd (proj1 Hc) Hh) as Hsize.
  pose proof (purgeBlock_spec T HT head (Datatypes.S (size (store_db s))) h hd T s Hs Hh Hp Hc ltac:(lia)) as Hw.
  unfold wp in Hw. destruct (purgeBlock _ h s) as [[[r s'] disks]|]; [|done].
  destruct Hw as (_ & T2 & top & Hp2 & Hc2). exists r, s', disks. split; [done|].
  pose proof (has_tree_chain_of _ _ (proj1 Hc2)) as HE. split; [by eapply canonical_ext|]. split.
  - intros n k Hn. rewrite <-HE. split; [|by eapply Hp2]. apply (on_chain_grow T2); [intros ? ?; by rewrite HE|].
    by apply (purged_canonical T head T2 top).
  - intros k x. rewrite <-HE. apply Hp2.
Qed.

(** One of the disks that a piece of code passes through is in [P]. *)
Definition chx {A} (m : GoM (ChainState S) Disk A) db rp file (P : Disk -> Prop) (Q : A -> Db -> recoveryPoint -> RpFile -> Prop) : Prop :=
  forall c, holds c db rp file ->
  wp m c (fun a c' o => Exists P o /\ exists db' rp' file', holds c' db' rp' file' /\ Q a db' rp' file').

Lemma chx_later {A B} (m : GoM (ChainState S) Disk A) (k : A -> GoM (ChainState S) Disk B) db rp file C P (Q : B -> Db -> recoveryPoint -> RpFile -> Prop) :
  chp m db rp file C (fun a db' rp' file' => chx (k a) db' rp' file' P Q) -> chx (go_bind m k) db rp file P Q.
Proof.
  intros Hm c Hc. apply wp_bind. eapply wp_mono; [by apply Hm|]. intros a c1 o1 (_ & db' & rp' & file' & Hh & Hk).
  eapply wp_mono; [by apply Hk|]. intros r c2 o2 (Ho & HQ). split; [|done]. apply Exists_app. by right.
Qed.

Lemma chx_now {A B} (m : GoM (ChainState S) Disk A) (k : A -> GoM (ChainState S) Disk B) db rp file C P (Q : B -> Db -> recoveryPoint -> RpFile -> Prop) :
  chx m db rp file P (fun a db' rp' file' => chp (k a) db' rp' file' C Q) -> chx (go_bind m k) db rp file P Q.
Proof.
  intros Hm c Hc. apply wp_bind. eapply wp_mono; [by apply Hm|]. intros a c1 o1 (Ho & db' & rp' & file' & Hh & Hk).
  eapply wp_mono; [by apply Hk|]. intros r c2 o2 (_ & HQ). split; [|done]. apply Exists_app. by left.
Qed.

Lemma chx_PutBlock b td hb tb bb db rp file P (Q : option StoreError -> Db -> recoveryPoint -> RpFile -> Prop) :
  storable b -> enc_header (b_Header b) = Some hb -> enc_td td = Some tb ->
  enc_body (mkBody (b_Transactions b) (b_Debts b)) = Some bb ->
  (forall old, GetBlockHash db (h_Height (b_Header b)) = inl old -> exists ob, GetBlock db old = inl ob) ->
  (forall db', same_but_indices (put_entries b hb tb bb db) db' -> P (db', file) /\ Q None db' rp file) ->
  chx (on_store (bs_PutBlock b td true)) db rp file P Q.
Proof.
  intros Hb Hh Ht Hbd Hold HQ c (<- & Hinv & <- & <-).
  pose proof (wp_PutBlock b td _ hb tb bb (fun r db' o => r = None /\ o = [db']
    /\ same_but_indices (put_entries b hb tb bb (store_db (ch_store c))) db') Hh Ht Hbd Hold ltac:(done)) as Hraw.
  unfold wp in Hraw. destruct (PutBlock b td true (store_db (ch_store c))) as [[[r db'] o]|] eqn:Hrun; [|done].
  destruct Hraw as (-> & -> & Hs). destruct (PutBlock_law b td true _ Hinv Hb _ _ _ Hrun) as (s' & Heq & Hdb & Hinv').
  destruct (HQ _ Hs). unfold wp, on_store. rewrite Heq. split; [by constructor|]. by exists db', (ch_rp c), (ch_file c).
Qed.

(** The disks of a write have the one after the block is stored. *)
Lemma put_block_stored_disk c b receipts td head :
  canonical_chain c -> canonical (chain_db c) (chain_of (chain_db c)) head ->
  new_block (chain_of (chain_db c)) b td receipts -> GetBlockHash (chain_db c) (h_Height (b_Header b)) = inr ErrNotFound ->
  chx (put_block b receipts td) (chain_db c) (ch_rp c) (Json (ch_rp c)) (fun d => d.2 = Json (writing b head EmptyHash)
    /\ going d.1 (grown (chain_of (chain_db c)) b) head (b_HeaderHash b) (h_Height (b_Header b) - 1) (h_Height (b_Header b) + 1))
    (fun _ _ _ _ => True).
Proof.
  intros Hc Hh Hb Hno. pose proof (cc_tree _ Hc) as HT. destruct (proj1 (proj2 (proj2 Hh))) as [ho Ho].
  unfold put_block. eapply chx_later, chp_post; [by eapply onPutBlockStart_spec|]. cbn beta.
  intros r ? rp1 file1 (-> & -> & -> & ->). unfold previous. rewrite Hno.
  destruct (nb_receipts _ _ _ _ Hb) as [x Hx], (nb_header _ _ _ _ Hb) as [hx Hhx], (nb_td _ _ _ _ Hb) as [tx Htx], (nb_body _ _ _ _ Hb) as [bx Hbx].
  eapply chx_later. apply (chp_PutReceipts _ _ x) with (C := fun _ => True); [done..|].
  pose proof (canonical_receipts _ b head _ x Hh) as Hcr. set (db1 := <[_ := x]> (chain_db c)) in *. eapply chx_now.
  apply (chx_PutBlock b td hx tx bx); [apply Hb|done..| |].
  - intros old Hold. pose proof (previous_spec _ HT b td receipts Hb head ho Ho db1 Hcr) as Hps. rewrite Hold in Hps. apply Hps.
  - intros db' Hs. pose proof (put_block_going _ HT b td receipts Hb head ho Ho db1 db' hx tx bx Hcr Hs Hhx Htx Hbx) as Hg.
    split; [done|]. eapply chp_post; [by eapply (update_chain_spec _ HT b td receipts Hb head)|done].
Qed.

(** The crash that is not survived: while a block above the head is written
    there is a disk on which it is stored and still noted as being written;
    the restart from it puts the old head back and deletes the block, but
    leaves its height mapped to the block that is gone, and from then on
    every block of that height is refused with a not-found error, the
    deleted one too, and the height stays as it is. *)
Theorem lost_height_refuses_blocks c b receipts td head :
  canonical_chain c -> canonical (chain_db c) (chain_of (chain_db c)) head ->
  new_block (chain_of (chain_db c)) b td receipts -> GetBlockHash (chain_db c) (h_Height (b_Header b)) = inr ErrNotFound ->
  exists c' disks, put_block b receipts td c = Some (None, c', disks) /\ exists d, d ∈ disks /\ lost_mapping d = true
    /\ exists c2, restarts d c2 /\ dangling head b (chain_db c2)
    /\ forall b' receipts' td', storable b' -> h_Height (b_Header b') = h_Height (b_Header b) ->
       is_Some (enc_header (b_Header b')) -> is_Some (enc_td td') ->
       is_Some (enc_body (mkBody (b_Transactions b') (b_Debts b'))) -> is_Some (enc_receipts receipts') ->
       exists c3 disks3, put_block b' receipts' td' c2 = Some (Some ErrNotFound, c3, disks3) /\ dangling head b (chain_db c3).
Proof.
  intros Hc Hh Hb Hno. pose proof (cc_tree _ Hc) as HT. destruct (proj1 (proj2 (proj2 Hh))) as [ho Ho].
  destruct (write_block c b receipts td head Hc Hh Hb) as (c1 & o1 & E & _).
  pose proof (put_block_stored_disk c b receipts td head Hc Hh Hb Hno c (canonical_chain_holds c Hc)) as Hx.
  unfold wp in Hx. rewrite E in Hx. destruct Hx as [([db1 rp1] & Hd & Erp & Hg)%Exists_exists _]. cbn in Erp, Hg. subst rp1.
  exists c1, o1. split; [done|]. exists (db1, Json (writing b head EmptyHash)). split; [done|]. split.
  { unfold lost_mapping. cbn. rewrite (block_not_empty _ b td receipts Hb).
    by rewrite bool_decide_true by (eapply going_header; [exact Hg|apply grown_block]). }
  pose proof (start_json _ _ _ (recover_lost _ HT b td receipts Hb head ho Ho db1 Hg) _ (restart_holds (db1, Json (writing b head EmptyHash)))) as Hr.
  unfold wp in Hr. destruct (start_chain (restart _)) as [[[e c2] o2]|] eqn:Hrun; [|done].
  destruct Hr as (_ & ? & ? & ? & (<- & Hi2 & <- & Ef) & -> & Hdang & _). exists c2. split; [by exists o2|]. split; [done|].
  intros b' receipts' td' Hst Hheight Hx1 Hx2 Hx3 Hx4. destruct (tr_hash _ HT _ _ Ho) as (Hlen & _).
  pose proof (put_block_dangling head b b' td' receipts' _ (ch_rp c2) (ch_file c2) Hdang Hlen (proj1 (nb_storable _ _ _ _ Hb)) Hst Hheight
    Hx1 Hx2 Hx3 Hx4 c2 ltac:(by repeat split)) as Hput.
  unfold wp in Hput. destruct (put_block b' receipts' td' c2) as [[[r c3] o3]|]; [|done].
  destruct Hput as (_ & ? & ? & ? & (<- & _) & -> & ?). eauto.
Qed.
End node.

(** ** Programs over a store *)

(** The calls of a store, with the types of their answers: all but [DeleteBlockHeader], after
    which the cached store still has the block. *)
Inductive Call : Type -> Type :=
| CGetBlockHash (n : Z) : Call (Hash + StoreError)
| CPutBlockHash (n : Z) (h : Hash) : Call unit
| CDeleteBlockHash (n : Z) : Call bool
| CGetHeadBlockHash : Call (Hash + StoreError)
| CPutHeadBlockHash (h : Hash) : Call unit
| CGetBlockHeader (h : Hash) : Call (BlockHeader + StoreError)
| CGetBlockTotalDifficulty (h : Hash) : Call (Z + StoreError)
| CPutBlockHeader (h : Hash) (hd : BlockHeader) (td : Z) (isHead : bool) : Call (option StoreError)
| CPutBlock (b : Block) (td : Z) (isHead : bool) : Call (option StoreError)
| CGetBlock (h : Hash) : Call (Block + StoreError)
| CHasBlock (h : Hash) : Call bool
| CDeleteBlock (h : Hash) : Call (option StoreError)
| CGetBlockByHeight (n : Z) : Call (Block + StoreError)
| CRecoverHeightToBlockMap (b : Block) : Call unit
| CPutReceipts (h : Hash) (l : list Receipt) : Call (option StoreError)
| CGetReceiptsByBlockHash (h : Hash) : Call (list Receipt + StoreError)
| CGetReceiptByTxHash (h : Hash) : Call (Receipt + StoreError)
| CAddIndices (b : Block) : Call unit
| CDeleteIndices (b : Block) : Call (option StoreError)
| CGetTxIndex (h : Hash) : Call (indexInBlock + StoreError)
| CGetDebtIndex (h : Hash) : Call (indexInBlock + StoreError).

(** A program: every call may depend on the answers to the ones before. *)
Inductive Prog (A : Type) : Type :=
| Ret (a : A)
| Do {X : Type} (c : Call X) (k : X -> Prog A).
Arguments Ret {A} _.
Arguments Do {A X} _ _.

(** The arguments are 64-bit heights, 32-byte hashes and headers and blocks that can be stored.
    A header is put for a hash that has none in the database or the same, and a block is deleted
    whose header is there and whose height has a canonical block: these are the cases in which the
    cached store does not refuse to delete it. *)
Definition valid_call `{StoreCodec} {X} (db : Db) (c : Call X) : Prop :=
  match c with
  | CGetBlockHash n | CDeleteBlockHash n => is_u64 n
  | CPutBlockHash n h => is_u64 n /\ length h = HashLength
  | CPutBlockHeader h hd _ _ => storable_header h hd /\ forall hd', GetBlockHeader db h = inl hd' -> hd' = hd
  | CPutBlock b _ _ | CRecoverHeightToBlockMap b => storable b
  | CDeleteBlock h => exists hd x, GetBlockHeader db h = inl hd /\ GetBlockHash db (h_Height hd) = inl x
  | _ => True
  end.

Definition call_store {S} `{BlockchainStore S} {X} (c : Call X) : GoM S Db X :=
  match c with
  | CGetBlockHash n => bs_GetBlockHash n
  | CPutBlockHash n h => bs_PutBlockHash n h
  | CDeleteBlockHash n => bs_DeleteBlockHash n
  | CGetHeadBlockHash => bs_GetHeadBlockHash
  | CPutHeadBlockHash h => bs_PutHeadBlockHash h
  | CGetBlockHeader h => bs_GetBlockHeader h
  | CGetBlockTotalDifficulty h => bs_GetBlockTotalDifficulty h
  | CPutBlockHeader h hd td isHead => bs_PutBlockHeader h hd td isHead
  | CPutBlock b td isHead => bs_PutBlock b td isHead
  | CGetBlock h => bs_GetBlock h
  | CHasBlock h => bs_HasBlock h
  | CDeleteBlock h => bs_DeleteBlock h
  | CGetBlockByHeight n => bs_GetBlockByHeight n
  | CRecoverHeightToBlockMap b => bs_RecoverHeightToBlockMap b
  | CPutReceipts h l => bs_PutReceipts h l
  | CGetReceiptsByBlockHash h => bs_GetReceiptsByBlockHash h
  | CGetReceiptByTxHash h => bs_GetReceiptByTxHash h
  | CAddIndices b => bs_AddIndices b
  | CDeleteIndices b => bs_DeleteIndices b
  | CGetTxIndex h => bs_GetTxIndex h
  | CGetDebtIndex h => bs_GetDebtIndex h
  end.

Fixpoint run_prog {S A} `{BlockchainStore S} (p : Prog A) : GoM S Db A :=
  match p with Ret a => go_ret a | Do c k => x <- call_store c ;; run_prog (k x) end.

(** Every call is valid on the database that the calls before leave. *)
Fixpoint valid_prog `{StoreCodec} {A} (p : Prog A) (db : Db) : Prop :=
  match p with
  | Ret _ => True
  | Do c k => valid_call db c /\ forall x db' o, call_store (H := blockchainDatabase) c db = Some (x, db', o) -> valid_prog (k x) db'
  end.

(** A call does to the database what the database alone does. *)
Lemma call_refines {S X} `{StoreCodec} `{BlockchainStore S} `{!StoreLaws S} (c : Call X) (s : S) :
  store_inv s -> valid_call (store_db s) c -> refines store_inv (call_store c) (call_store (H := blockchainDatabase) c) s.
Proof.
  intros Hs Hv. destruct c; cbn in *; [apply GetBlockHash_law|apply PutBlockHash_law|apply DeleteBlockHash_law
    |apply GetHeadBlockHash_law|apply PutHeadBlockHash_law|apply GetBlockHeader_law|apply GetBlockTotalDifficulty_law
    |apply PutBlockHeader_law|apply PutBlock_law|apply GetBlock_law|apply HasBlock_law| |apply GetBlockByHeight_law
    |apply RecoverHeightToBlockMap_law|apply PutReceipts_law|apply GetReceiptsByBlockHash_law|apply GetReceiptByTxHash_law
    |apply AddIndices_law|apply DeleteIndices_law|apply GetTxIndex_law|apply GetDebtIndex_law]; try done; try apply Hv.
  destruct Hv as (hd & x & Hhd & Hx). destruct (DeleteBlock_law h s Hs) as [Href|[Hno _]]; [done|].
  destruct (Hno hd Hhd) as [e He]. congruence.
Qed.

Lemma run_prog_refines {S A} `{StoreCodec} `{BlockchainStore S} `{!StoreLaws S} (p : Prog A) : forall (s : S),
  store_inv s -> valid_prog p (store_db s) -> refines store_inv (run_prog p) (run_prog (H := blockchainDatabase) p) s.
Proof.
  induction p as [a|X c k IH]; intros s Hs Hv a' db' o; cbn [run_prog].
  - intros [= <- <- <-]. by exists s.
  - destruct Hv as [Hc Hk]. unfold go_bind. destruct (call_store c (store_db s)) as [[[x db1] o1]|] eqn:Hrun; [|done].
    destruct (call_refines c s Hs Hc _ _ _ Hrun) as (s1 & -> & <- & Hs1).
    destruct (run_prog (k x) (store_db s1)) as [[[a2 db2] o2]|] eqn:Hrun2; [|done]. intros [= <- <- <-].
    destruct (IH x s1 Hs1 (Hk _ _ _ eq_refl) _ _ _ Hrun2) as (s2 & -> & ? & ?). by exists s2.
Qed.

(** C31: The caches cannot be seen by the calls listed: a program that reads and
    writes heights, headers, blocks, receipts and indices through any calls
    of the store but DeleteBlockHeader, and whose every call may depend on
    the answers before, gets from the cached store the answers that it gets
    from the database, whatever the caches evict, and does the same writes
    in the same order. Its heights are 64-bit, its hashes have 32 bytes and
    its headers no nil number; a header is put only for a hash that has no
    header in the database or this one, and a block is deleted only when its
    header is there and its height has a canonical block, which the cached
    store demands and the database does not. *)
Theorem cached_store_is_transparent {A} `{StoreCodec, !StoreCodecLaws, LruCache, !LruLaws} (p : Prog A) (db db' : Db) (a : A) (o : list Db) :
  valid_prog p db -> run_prog (H := blockchainDatabase) p db = Some (a, db', o) ->
  exists s, run_prog (H := cached_blockchainStore) p (NewCachedStore db) = Some (a, s, o) /\ cs_raw s = db'.
Proof.
  intros Hv Hrun. pose proof (cached_laws) as Hlaws. destruct (@open_law _ _ _ Hlaws db) as [Hs Hdb].
  destruct (@run_prog_refines _ _ _ _ Hlaws p (NewCachedStore db) Hs Hv a db' o Hrun) as (s & ? & ? & _). by exists s.
Qed.

(** ** Examples *)

#[local] Existing Instance blockchainDatabase.

Definition ex_chain : ChainState Db := mkChain ex_db emptyRp (Json emptyRp).

Lemma ex_chain_canonical : canonical_chain ex_chain.
Proof.
  eapply canonical_chain_intro; [done|done| |apply ex_db_canonical]. by apply only_ok.
Qed.

Lemma ex_new_block c n prev height :
  is_u64 height -> 0 < height < 2 ^ 64 - 3 -> ex_hash n <> EmptyHash -> chain_of (chain_db c) (ex_hash n) = None ->
  (exists hp, chain_of (chain_db c) prev = Some hp /\ h_Height hp = height - 1) ->
  new_block (chain_of (chain_db (S := Db) c)) (ex_block n prev height) 1 [].
Proof.
  intros Hu Hh Hne Hnew Hp. split; try done; try by eexists.
  - cbn. lia.
  - cbn. unfold is_u64b. rewrite (proj2 (Z.leb_le 0 height)), (proj2 (Z.ltb_lt height (2 ^ 64))) by (destruct Hu; lia). by eexists.
Qed.

(** Two blocks on the genesis, the second of which takes the place of the first. *)
Definition ex_write (c : ChainState Db) (b : Block) : ChainState Db * list Disk :=
  match put_block b [] 1 c with Some (_, c', disks) => (c', disks) | None => (c, []) end.

Lemma ex_write_run c b : succeeds (put_block b [] 1 c) = true -> put_block b [] 1 c = Some (None, (ex_write c b).1, (ex_write c b).2).
Proof. unfold ex_write. by destruct (put_block b [] 1 c) as [[[[e|] c'] disks]|]. Qed.

Lemma ex_write_state c b c' disks : put_block b [] 1 c = Some (None, c', disks) -> (ex_write c b).1 = c'.
Proof. unfold ex_write. intros E. by rewrite E. Qed.

Definition ex_chain1 : ChainState Db := (ex_write ex_chain (ex_block 2 (ex_hash 1) 1)).1.
Definition ex_chain2 : ChainState Db := (ex_write ex_chain1 (ex_block 3 (ex_hash 1) 1)).1.

Lemma ex_new1 : new_block (chain_of (chain_db ex_chain)) (ex_block 2 (ex_hash 1) 1) 1 [].
Proof. apply ex_new_block; [done|done|done|vm_compute; reflexivity|eexists; split; vm_compute; reflexivity]. Qed.

Lemma ex_new2 : new_block (chain_of (chain_db ex_chain1)) (ex_block 3 (ex_hash 1) 1) 1 [].
Proof. apply ex_new_block; [done|done|done|vm_compute; reflexivity|eexists; split; vm_compute; reflexivity]. Qed.

Lemma ex_reach2 : reachable ex_chain ex_chain2.
Proof.
  eapply re_write; [eapply re_write; [constructor|apply ex_new1|]|apply ex_new2|];
    apply ex_write_run; vm_compute; reflexivity.
Qed.

Lemma canonical_chain_kept_witness : canonical_chain ex_chain /\ reachable ex_chain ex_chain2 /\ canonical_chain ex_chain2.
Proof.
  split; [exact ex_chain_canonical|]. split; [exact ex_reach2|].
  apply (canonical_chain_kept ex_chain); [exact ex_chain_canonical|exact ex_reach2].
Defined.

Lemma put_block_makes_the_head_witness : exists c' disks,
  put_block (ex_block 2 (ex_hash 1) 1) [] 1 ex_chain = Some (None, c', disks)
  /\ canonical (chain_db c') (grown (chain_of (chain_db ex_chain)) (ex_block 2 (ex_hash 1) 1)) (ex_hash 2) /\ idle (ch_rp c').
Proof. apply (put_block_makes_the_head ex_chain (ex_block 2 (ex_hash 1) 1)); [exact ex_chain_canonical|exact ex_new1]. Defined.

Lemma ex_head : canonical (chain_db ex_chain) (chain_of (chain_db ex_chain)) (ex_hash 1).
Proof. eapply canonical_ext; [|apply ex_db_canonical]. apply has_tree_chain_of, ex_db_canonical. Qed.

Lemma ex_chain1_canonical : canonical_chain ex_chain1 /\ canonical (chain_db ex_chain1) (chain_of (chain_db ex_chain1)) (ex_hash 2).
Proof.
  destruct (write_block ex_chain (ex_block 2 (ex_hash 1) 1) [] 1 _ ex_chain_canonical ex_head ex_new1) as (c' & o & E & Hc & Hcan & _).
  apply ex_write_state in E. fold ex_chain1 in E. rewrite <-E in Hc, Hcan. split; [exact Hc|].
  eapply canonical_ext; [|exact Hcan]. apply has_tree_chain_of, Hcan.
Qed.

(** The disk on which the second block is stored and still noted. *)
Definition ex_disk : Disk := nth 3 (ex_write ex_chain1 (ex_block 3 (ex_hash 1) 1)).2 (∅, NoFile).

Lemma ex_disk_in : ex_disk ∈ (ex_write ex_chain1 (ex_block 3 (ex_hash 1) 1)).2.
Proof.
  assert (Hl : (3 <? length (ex_write ex_chain1 (ex_block 3 (ex_hash 1) 1)).2)%nat = true) by (vm_compute; reflexivity).
  apply list_elem_of_In, nth_In. by apply Nat.ltb_lt.
Qed.

Lemma crash_is_recovered_witness : exists c2, restarts ex_disk c2 /\ idle (ch_rp c2)
  /\ (canonical (chain_db c2) (chain_of (chain_db ex_chain1)) (ex_hash 2)
      \/ canonical (chain_db c2) (grown (chain_of (chain_db ex_chain1)) (ex_block 3 (ex_hash 1) 1)) (ex_hash 3)).
Proof.
  apply (crash_is_recovered ex_chain1 (ex_block 3 (ex_hash 1) 1) [] 1 (ex_hash 2) None
    (ex_write ex_chain1 (ex_block 3 (ex_hash 1) 1)).1 (ex_write ex_chain1 (ex_block 3 (ex_hash 1) 1)).2 ex_disk).
  - exact (proj1 ex_chain1_canonical).
  - exact (proj2 ex_chain1_canonical).
  - exact ex_new2.
  - apply ex_write_run. vm_compute. reflexivity.
  - exact ex_disk_in.
  - vm_compute. reflexivity.
  - vm_compute. reflexivity.
Defined.

(** What a node finds after the start on a disk: the head, and what a height is mapped to. *)
Definition started (d : Disk) (height : Z) : option (Hash + StoreError) * option (Hash + StoreError) :=
  match start_chain (S := Db) (restart d) with
  | Some (None, c, _) => (Some (GetHeadBlockHash (chain_db c)), Some (GetBlockHash (chain_db c) height))
  | _ => (None, None)
  end.

(** The blocks 1, 2 and 4 are the chain of the node, and the block 3 is written on top of 1. *)
Definition ex_fork_disks (block4 : Block) : list Disk :=
  (ex_write (ex_write ex_chain1 block4).1 (ex_block 3 (ex_hash 1) 1)).2.

(** The other disk that is left out: the process stops while the file of the recovery point is
    written after the block is stored. The node has the new head, of height 1, and the height 2
    is still mapped to the block of the old chain. *)
Example cut_file_keeps_a_height :
  exists d, d ∈ ex_fork_disks (ex_block 4 (ex_hash 2) 2) /\ half_moved (ex_hash 4) (ex_block 3 (ex_hash 1) 1) d = true
    /\ started d 2 = (Some (inl (ex_hash 3)), Some (inl (ex_hash 4))).
Proof.
  set (d := nth 4 (ex_fork_disks (ex_block 4 (ex_hash 2) 2)) (∅, NoFile)). exists d.
  assert (Hl : (4 <? length (ex_fork_disks (ex_block 4 (ex_hash 2) 2)))%nat = true) by (vm_compute; reflexivity).
  split; [by apply list_elem_of_In, nth_In, Nat.ltb_lt|]. split; vm_compute; reflexivity.
Qed.

(** Debts: when the process stops after the indices of a block with a debt were deleted and before
    its height is, the recovery deletes the indices again, fails on the debt, and goes on. *)
Definition ex_debt_block : Block :=
  mkBlock (ex_hash 4) (ex_header (ex_hash 2) 2) [] [mkDebt (ex_hash 8) (mkDebtData [] [] 0 [] 0 0 [])].

Example debt_keeps_a_height :
  exists d, d ∈ ex_fork_disks ex_debt_block /\ lost_mapping d = false
    /\ half_moved (ex_hash 4) (ex_block 3 (ex_hash 1) 1) d = false
    /\ started d 2 = (Some (inl (ex_hash 3)), Some (inl (ex_hash 4))).
Proof.
  set (d := nth 6 (ex_fork_disks ex_debt_block) (∅, NoFile)). exists d.
  assert (Hl : (6 <? length (ex_fork_disks ex_debt_block))%nat = true) by (vm_compute; reflexivity).
  split; [by apply list_elem_of_In, nth_In, Nat.ltb_lt|]. split; [|split]; vm_compute; reflexivity.
Qed.

Lemma lost_height_refuses_blocks_witness : exists c' disks,
  put_block (ex_block 2 (ex_hash 1) 1) [] 1 ex_chain = Some (None, c', disks)
  /\ exists d, d ∈ disks /\ lost_mapping d = true /\ exists c2, restarts d c2
     /\ exists c3 disks3, put_block (ex_block 9 (ex_hash 1) 1) [] 1 c2 = Some (Some ErrNotFound, c3, disks3).
Proof.
  destruct (lost_height_refuses_blocks ex_chain (ex_block 2 (ex_hash 1) 1) [] 1 (ex_hash 1) ex_chain_canonical ex_head ex_new1)
    as (c' & disks & E & d & Hd & Hl & c2 & Hr & _ & Hall); [vm_compute; reflexivity|].
  exists c', disks. split; [exact E|]. exists d. split; [exact Hd|]. split; [exact Hl|]. exists c2. split; [exact Hr|].
  destruct (Hall (ex_block 9 (ex_hash 1) 1) [] 1) as (c3 & disks3 & E3 & _);
    [by repeat split|done|by eexists|by eexists|by eexists|by eexists|].
  exists c3, disks3. exact E3.
Defined.

(** The block of a height, read twice, with a write between. *)
Definition ex_prog : Prog (list (Block + StoreError)) :=
  Do (CGetBlockHash 0) (fun r =>
    match r with
    | inr _ => Ret []
    | inl h =>
        Do (CGetBlock h) (fun b1 =>
        Do (CPutBlock (ex_block 2 h 1) 1 true) (fun _ =>
        Do (CGetBlock h) (fun b2 => Do (CGetBlock (ex_hash 2)) (fun b3 =>
        Do (CDeleteBlock (ex_hash 2)) (fun _ => Do (CGetBlock (ex_hash 2)) (fun b4 => Ret [b1; b2; b3; b4]))))))
    end).

Definition ex_run := run_prog ex_prog ex_db.

Lemma cached_store_is_transparent_witness :
  match ex_run with
  | Some (a, db', o) => exists s, run_prog (H := cached_blockchainStore) ex_prog (NewCachedStore ex_db) = Some (a, s, o) /\ cs_raw s = db'
  | None => False
  end.
Proof.
  assert (Hs : match ex_run with Some _ => true | None => false end = true) by (vm_compute; reflexivity).
  destruct ex_run as [[[a db'] o]|] eqn:Hrun; [|done].
  apply (cached_store_is_transparent ex_prog ex_db db' a o); [|exact Hrun].
  split; [done|]. intros x db1 o1 E1. injection E1 as <- <- <-. change (GetBlockHash ex_db 0) with (inl (ex_hash 1) : Hash + StoreError).
  split; [done|]. intros x db1 o1 E1. injection E1 as <- <- <-. split; [done|]. intros x db1 o1 E1.
  assert (Hdel : match call_store (H := blockchainDatabase) (CPutBlock (ex_block 2 (ex_hash 1) 1) 1 true) ex_db with
    | Some (_, d, _) => bool_decide (GetBlockHeader d (ex_hash 2) = inl (ex_header (ex_hash 1) 1)) && bool_decide (GetBlockHash d 1 = inl (ex_hash 2))
    | None => false end = true) by (vm_compute; reflexivity).
  rewrite E1 in Hdel. apply andb_true_iff in Hdel as [Hd1%bool_decide_eq_true Hd2%bool_decide_eq_true].
  split; [done|]. intros ? ? ? [= <- <- <-]. split; [done|]. intros ? ? ? [= <- <- <-].
  split; [by exists (ex_header (ex_hash 1) 1), (ex_hash 2)|]. by repeat split.
Defined.

(** The two calls that show the caches. After [DeleteBlockHeader] the cached store answers with a
    block that the database does not have any more. *)
Definition after_delete {S} `{BlockchainStore S} : GoM S Db (option StoreError * (Block + StoreError)) :=
  bs_PutBlock (ex_block 2 (ex_hash 1) 1) 1 true ;;;
  r <- bs_DeleteBlockHeader (ex_hash 2) ;; b <- bs_GetBlock (ex_hash 2) ;; go_ret (r, b).

Definition answer {S O A} (r : option (A * S * list O)) : option A := match r with Some (a, _, _) => Some a | None => None end.

Example deleted_header_is_seen :
  answer (after_delete (H := blockchainDatabase) ex_db) = Some (None, inr ErrNotFound)
  /\ answer (after_delete (H := cached_blockchainStore) (NewCachedStore ex_db)) = Some (None, inl (ex_block 2 (ex_hash 1) 1)).
Proof. split; vm_compute; reflexivity. Qed.

(** [DeleteBlock] of a block whose height has no canonical block. *)
Definition delete_unmapped {S} `{BlockchainStore S} : GoM S Db (option StoreError) :=
  bs_PutBlock (ex_block 2 (ex_hash 1) 1) 1 false ;;; bs_DeleteBlock (ex_hash 2).

Example unmapped_block_is_not_deleted :
  answer (delete_unmapped (H := blockchainDatabase) ex_db) = Some None
  /\ answer (delete_unmapped (H := cached_blockchainStore) (NewCachedStore ex_db)) = Some (Some ErrNotFound).
Proof. split; vm_compute; reflexivity. Qed.

Lemma ex_chain2_canonical : canonical_chain ex_chain2 /\ canonical (chain_db ex_chain2) (chain_of (chain_db ex_chain2)) (ex_hash 3).
Proof.
  destruct (write_block ex_chain1 (ex_block 3 (ex_hash 1) 1) [] 1 _ (proj1 ex_chain1_canonical) (proj2 ex_chain1_canonical) ex_new2)
    as (c' & o & E & Hc & Hcan & _).
  apply ex_write_state in E. fold ex_chain2 in E. rewrite <-E in Hc, Hcan. split; [exact Hc|].
  eapply canonical_ext; [|exact Hcan]. apply has_tree_chain_of, Hcan.
Qed.

Lemma purge_keeps_the_canonical_chain_witness :
  exists r s' disks, purgeBlock (Datatypes.S (size (chain_db ex_chain2))) (ex_hash 2) (chain_db ex_chain2) = Some (r, s', disks)
    /\ canonical s' (chain_of s') (ex_hash 3).
Proof.
  destruct (purge_keeps_the_canonical_chain (S := Db) (chain_db ex_chain2) (ex_hash 3) (ex_hash 2)) as (r & s' & disks & E & Hc & _).
  - exact I.
  - exact (cc_tree _ (proj1 ex_chain2_canonical)).
  - exact (proj2 ex_chain2_canonical).
  - vm_compute. eexists. reflexivity.
  - exists r, s', disks. split; [exact E|exact Hc].
Defined.
