(* ===== verification/Stem.v ===== *)
(** * Hashes for the stem chain

    The stem chain checks blocks, balances and transactions of the sub-chain with Merkle
    roots that the proposer puts into the second witness. Models [getStemHashes] and
    [getRecentTxHashStem] of [miner/task.go], [verifyStemStructureAndUpdateDatabase] of
    [core/blockchain.go], [getExtraInfo] of [seele/seeleservice.go] and the calls of
    [api/api_subchain.go] that make the proofs. The two databases with the indices of the
    accounts are maps; a read of a missing key is an error, a write does not fail. *)

From Stdlib Require Import ZArith Lia.
From S2P Require Import Prelude Common BftHeader StateDb Svm ChainStore Merkle.

Open Scope Z_scope.
Open Scope go_scope.

(** ** What is encoded *)

Record PayloadExtra := mkPayload { pe_LargestPackHeight : Z; pe_HashForStem : Hash; pe_SignStringForStem : bytes }.

(** RLP of an unsigned number, of the state of an account, of a byte string, of the data
    of a transaction and of a list of byte strings; [ExtractTxPayload]. *)
Class StemEnv := {
  rlp_uint : Z -> bytes;
  rlp_state : bytes -> Z -> Z -> bytes;
  rlp_bytes : bytes -> bytes;
  rlp_stem_tx : bytes -> bytes -> Z -> Z -> Z -> Z -> option bytes;
  rlp_txs : list bytes -> option bytes;
  ExtractTxPayload : bytes -> option PayloadExtra;
  uint_of : bytes -> option Z
}.

Inductive StemError : Type :=
| errStemPayload
| errStemEncode
| errStemStore (err : StoreError)
| errStemNotFound.

(** ** The indices of the accounts *)

Abbreviation Kv := (gmap bytes bytes).

Record StemDbs := mkStemDbs { accountIndexDB : Kv; indexAccountDB : Kv }.

Definition Roots : Type := Address * Address * Address.

Definition is_root (roots : Roots) (account : Address) : bool :=
  let '(r0, r1, r2) := roots in
  Address_Equal account r0 || Address_Equal account r1 || Address_Equal account r2.

Section stem.
Context `{MerkleEnv} `{StemEnv}.

(** The databases and the number of accounts. *)
Definition note_account (roots : Roots) (st : StemDbs * Z) (account : Address) : StemDbs * Z :=
  let '(dbs, accountCount) := st in
  if is_root roots account then st
  else
    match accountIndexDB dbs !! account with
    | Some _ => st
    | None =>
        let accountCount := u64 (accountCount + 1) in
        let indexBytes := rlp_uint (u64 (accountCount - 1)) in
        (mkStemDbs (<[account := indexBytes]> (accountIndexDB dbs)) (<[indexBytes := account]> (indexAccountDB dbs)),
         accountCount)
    end.

Definition note_tx (roots : Roots) (st : StemDbs * Z) (tx : Transaction) : StemDbs * Z :=
  note_account roots (note_account roots st (td_From (tx_Data tx))) (td_To (tx_Data tx)).

(** The loop over the transactions after the first: the hashes for the stem chain. *)
Fixpoint stem_txs (roots : Roots) (txs : list Transaction) (st : StemDbs * Z) (level : list Hash)
    : (StemDbs * Z) * (list Hash + StemError) :=
  match txs with
  | [] => (st, inl level)
  | tx :: txs' =>
      match ExtractTxPayload (td_Payload (tx_Data tx)) with
      | None => (st, inr errStemPayload)
      | Some payload => stem_txs roots txs' (note_tx roots st tx) (level ++ [pe_HashForStem payload])
      end
  end.

Definition MustHexToBytes (input : bytes) : option bytes :=
  match HexToBytes input with (b, None) => Some b | (_, Some _) => None end.

Section state.
Context {T : Type} `{TrieOps T}.

Abbreviation StM A := (GoM (Statedb T) Empty_set A).

(** The hash of the state of an account, as the miner and as the API computes it. *)
Definition stem_leaf (account : Address) (balance nonce : Z) : option Hash :=
  option_map (fun b => Keccak256Hash (rlp_state b balance nonce)) (MustHexToBytes (Address_String account)).

Definition api_leaf (account : Address) (balance nonce : Z) : option Hash :=
  Some (Keccak256Hash (rlp_bytes (rlp_state account balance nonce))).

(** The leaves of the [n] accounts from index [i] on. *)
Fixpoint state_level (leaf_of : Address -> Z -> Z -> option Hash) (dbs : StemDbs) (n : nat) (i : Z)
    : StM (list Hash + StemError) :=
  match n with
  | O => go_ret (inl [])
  | S n' =>
      match indexAccountDB dbs !! rlp_uint i with
      | None => go_ret (inr errStemNotFound)
      | Some accountBytes =>
          let account := BytesToAddress accountBytes in
          nonce <- GetNonce account ;;
          balance <- GetBalance account ;;
          leaf <- go_deref (leaf_of account balance nonce) ;;
          level <- state_level leaf_of dbs n' (i + 1) ;;
          go_ret (match level with inl level => inl (leaf :: level) | inr err => inr err end)
      end
  end.

(** The databases, the number of accounts, and the two roots or an error. *)
Definition getStemHashes (roots : Roots) (txs : list Transaction) (st : StemDbs * Z)
    : StM ((StemDbs * Z) * (Hash * Hash + StemError)) :=
  let '(st, level) := stem_txs roots (tail txs) st [] in
  match level with
  | inr err => go_ret (st, inr err)
  | inl level =>
      let txHashStem := GetBinaryMerkleRoot level in
      states <- state_level stem_leaf st.1 (Z.to_nat st.2) 0 ;;
      go_ret (st, match states with
                  | inl level => inl (txHashStem, GetBinaryMerkleRoot level)
                  | inr err => inr err
                  end)
  end.

(** [GetBalanceMerkleInfo] on the state and the number of accounts of the block at the
    given height: the leaves and the proof of an index. *)
Definition balance_proof (dbs : StemDbs) (accountCount index : Z) : StM (list Hash + StemError) :=
  level <- state_level api_leaf dbs (Z.to_nat accountCount) 0 ;;
  match level with
  | inr err => go_ret (inr err)
  | inl level => proofs <- go_deref (GetMerkleProof level (i64 index)) ;; go_ret (inl proofs)
  end.

(** The nonce, the balance, the index and the proof; [None] is the [nil] that an account
    without an index at this height gets. *)
Definition GetBalanceMerkleInfo (dbs : StemDbs) (accountCount : Z) (account : Address)
    : StM (option (Z * Z * Z * bytes) + StemError) :=
  nonce <- GetNonce account ;;
  balance <- GetBalance account ;;
  match accountIndexDB dbs !! account with
  | None => go_ret (inr errStemNotFound)
  | Some indexBytes =>
      match uint_of indexBytes with
      | None => go_ret (inr errStemEncode)
      | Some index =>
          if accountCount <=? index then go_ret (inl None)
          else
            proofs <- balance_proof dbs accountCount index ;;
            go_ret (match proofs with
                    | inr err => inr err
                    | inl proofs => inl (Some (nonce, balance, index, BytesToHex (concat proofs)))
                    end)
      end
  end.
End state.

(** What a node does with the transactions of a block that it received. *)
Definition verifyStemStructureAndUpdateDatabase (roots : Roots) (regularTxs : list Transaction) (st : StemDbs * Z)
    : StemDbs * Z := foldl (note_tx roots) st regularTxs.

(** The accounts of a genesis. *)
Fixpoint genesis_accounts (validators : list Address) (index : Z) (dbs : StemDbs) : StemDbs :=
  match validators with
  | [] => dbs
  | v :: validators' =>
      genesis_accounts validators' (index + 1)
        (mkStemDbs (<[v := rlp_uint index]> (accountIndexDB dbs)) (<[rlp_uint index := v]> (indexAccountDB dbs)))
  end.

Definition getExtraInfo (validators : list Address) (dbs : StemDbs) : StemDbs * Hash :=
  (genesis_accounts validators 0 dbs,
   GetBinaryMerkleRoot (map (fun v => Keccak256Hash (rlp_bytes (rlp_state v 0 0))) validators)).

(** ** Proofs of transactions *)

Fixpoint stem_hashes (txs : list Transaction) : list Hash + StemError :=
  match txs with
  | [] => inl []
  | tx :: txs' =>
      match ExtractTxPayload (td_Payload (tx_Data tx)) with
      | None => inr errStemPayload
      | Some payload => match stem_hashes txs' with inl level => inl (pe_HashForStem payload :: level) | inr err => inr err end
      end
  end.

(** The index and the proof that are returned; [None] is a panic. *)
Definition GetTxMerkleInfo `{StoreCodec} (db : Db) (txHash : Hash) : option (Z * bytes + StemError) :=
  match GetTxIndex db txHash with
  | inr err => Some (inr (errStemStore err))
  | inl txIdx =>
      match GetBlock db (ix_BlockHash txIdx) with
      | inr err => Some (inr (errStemStore err))
      | inl block =>
          match stem_hashes (tail (b_Transactions block)) with
          | inr err => Some (inr err)
          | inl level =>
              match GetMerkleProof level (i64 (ix_Index txIdx)) with
              | None => None
              | Some proofs => Some (inl (u64 (ix_Index txIdx - 1), concat proofs))
              end
          end
      end
  end.

(** ** Recent transactions *)

(** [accountToIndexMap] and [accTxs]. *)
Record RecentTxs := mkRecent { rt_index : gmap Address nat; rt_txs : list (list bytes) }.

Definition add_recent (roots : Roots) (data : bytes) (st : RecentTxs) (account : Address) : RecentTxs :=
  if is_root roots account then st
  else
    match rt_index st !! account with
    | Some index => mkRecent (rt_index st) (alter (fun txs => txs ++ [data]) index (rt_txs st))
    | None => mkRecent (<[account := size (rt_index st)]> (rt_index st)) (rt_txs st ++ [[data]])
    end.

Definition RelayInterval : Z := 20.

(** [None] is a panic of [MustHexToBytes]. *)
Definition recent_tx (roots : Roots) (st : RecentTxs) (tx : Transaction) : option (RecentTxs + StemError) :=
  let d := tx_Data tx in
  match MustHexToBytes (Address_String (td_From d)), MustHexToBytes (Address_String (td_To d)) with
  | Some from, Some to =>
      match rlp_stem_tx from to (td_Amount d) (td_AccountNonce d) (td_GasPrice d) (td_GasLimit d) with
      | None => Some (inr errStemEncode)
      | Some data =>
          let st := add_recent roots data st (td_From d) in
          Some (inl (if Address_Equal (td_From d) (td_To d) then st else add_recent roots data st (td_To d)))
      end
  | _, _ => None
  end.

Fixpoint recent_txs (roots : Roots) (txs : list Transaction) (st : RecentTxs) : option (RecentTxs + StemError) :=
  match txs with
  | [] => Some (inl st)
  | tx :: txs' =>
      match recent_tx roots st tx with
      | None => None
      | Some (inr err) => Some (inr err)
      | Some (inl st) => recent_txs roots txs' st
      end
  end.

(** The blocks of the interval, in the order of their heights. *)
Fixpoint recent_blocks (roots : Roots) (blocks : list (list Transaction + StoreError)) (st : RecentTxs)
    : option (RecentTxs + StemError) :=
  match blocks with
  | [] => Some (inl st)
  | inr err :: _ => Some (inr (errStemStore err))
  | inl txs :: blocks' =>
      match recent_txs roots (tail txs) st with
      | None => None
      | Some (inr err) => Some (inr err)
      | Some (inl st) => recent_blocks roots blocks' st
      end
  end.

Definition heights (start end_ : Z) : list Z :=
  if end_ <? start then [] else map (fun k => start + Z.of_nat k) (seq 0 (Z.to_nat (end_ - start + 1))).

Definition block_txs `{StoreCodec} (db : Db) (height : Z) : list Transaction + StoreError :=
  match GetBlockByHeight db height with inl b => inl (b_Transactions b) | inr err => inr err end.

Fixpoint recent_level (lists : list (list bytes)) : list Hash + StemError :=
  match lists with
  | [] => inl []
  | txs :: lists' =>
      match rlp_txs txs with
      | None => inr errStemEncode
      | Some b => match recent_level lists' with inl level => inl (Keccak256Hash b :: level) | inr err => inr err end
      end
  end.

(** The miner goes over the accounts in the order in which Go iterates over the map. *)
Definition recent_root (st : RecentTxs) (order : list Address) : option (Hash + StemError) :=
  match mapM (fun a => match rt_index st !! a with Some i => rt_txs st !! i | None => None end) order with
  | None => None
  | Some lists => Some (match recent_level lists with inl level => inl (GetBinaryMerkleRoot level) | inr err => inr err end)
  end.

(** The blocks of the interval that ends with the transactions [txs] of the new block. *)
Definition recent_state `{StoreCodec} (db : Db) (roots : Roots) (height : Z) (txs : list Transaction)
    : option (RecentTxs + StemError) :=
  let start := u64 (height - RelayInterval + 1) in
  recent_blocks roots (map (fun i => if i =? height then inl txs else block_txs db i) (heights start height)) (mkRecent ∅ []).

Definition getRecentTxHashStem `{StoreCodec} (db : Db) (roots : Roots) (height : Z) (txs : list Transaction)
    (order : gmap Address nat -> list Address) : option (Hash + StemError) :=
  if 0 <? Z.rem (i64 height) (i64 RelayInterval) then Some (inl EmptyHash)
  else
    match recent_state db roots height txs with
    | None => None
    | Some (inr err) => Some (inr err)
    | Some (inl st) => recent_root st (order (rt_index st))
    end.

(** [GetRecentTxMerkleInfo]: the index and the proof of an account. *)
Definition GetRecentTxMerkleInfo `{StoreCodec} (db : Db) (roots : Roots) (height : Z) (account : Address)
    : option (Z * bytes + StemError) :=
  let start := u64 (height - RelayInterval + 1) in
  match recent_blocks roots (map (block_txs db) (heights start height)) (mkRecent ∅ []) with
  | None => None
  | Some (inr err) => Some (inr err)
  | Some (inl st) =>
      match recent_level (rt_txs st) with
      | inr err => Some (inr err)
      | inl level =>
          match rt_index st !! account with
          | None => Some (inr errStemNotFound)
          | Some index =>
              match GetMerkleProof level (Z.of_nat index) with
              | None => None
              | Some proofs => Some (inl (Z.of_nat index, BytesToHex (concat proofs)))
              end
          end
      end
  end.
End stem.
