(* ===== verification/StemProofs.v ===== *)
(** * What the hashes for the stem chain are worth

    The proofs that the API makes are checked by the stem contract against the roots in
    the second witness. The index databases stay a numbering of the accounts as long as
    every proposal is committed; a transaction is proved at the wrong index, a balance
    with other leaves than the miner's, and the root of the recent transactions depends
    on the order in which Go iterates over a map. *)

From Stdlib Require Import ZArith Lia.
From S2P Require Import Prelude Common BftHeader StateDb StateDbProofs Svm SvmProofs ChainStore Merkle ChainExamples Stem.

Open Scope Z_scope.

(** ** Proofs of transactions *)

(** A proof is sent as its bytes. *)
Lemma concat_hashes_inj (l l' : list Hash) : hashes l -> hashes l' -> concat l = concat l' -> l = l'.
Proof.
  intros Hl. revert l'. induction Hl as [|h l Hh Hl IH]; intros l' Hl' E; destruct Hl' as [|h' l' Hh' Hl']; cbn in E.
  - done.
  - symmetry in E. apply app_eq_nil in E as [-> _]. done.
  - apply app_eq_nil in E as [-> _]. done.
  - apply app_inj_1 in E as [-> E]; [|congruence]. f_equal. by apply IH.
Qed.

Section tx.
Context `{MerkleLaws} `{StemEnv} `{StoreCodec}.
Implicit Types (level proofs : list Hash).

Lemma walk_hashes level : hashes level -> forall i proofs, proof_walk (levels level) i = Some proofs -> hashes proofs.
Proof.
  induction level as [|x|level Hl IH] using level_ind; intros Hh i proofs.
  - intros [= <-]. constructor.
  - intros [= <-]. constructor.
  - rewrite levels_step by done. cbn [proof_walk]. destruct (at_index level _) as [s|] eqn:Hs; [|done].
    destruct (proof_walk (levels (next_level level)) _) as [p|] eqn:Hp; [|done]. intros [= <-]. constructor.
    + unfold at_index in Hs. destruct (_ <? 0) in Hs; [done|]. by eapply hashes_lookup.
    + eapply IH; [apply next_level_hashes|done].
Qed.

Lemma walk_length levels' i proofs : proof_walk levels' i = Some proofs -> length proofs = length levels'.
Proof.
  revert i proofs. induction levels' as [|x l IH]; intros i proofs; cbn; [by intros [= <-]|].
  destruct (at_index _ _); [|done]. destruct (proof_walk l _) eqn:Hw; [|done]. intros [= <-]. cbn. f_equal. by eapply IH.
Qed.

(** Neighbours have different siblings. *)
Lemma sibling_pred level i : NoDup level -> (0 < i < length level)%nat -> sibling level i <> sibling level (i - 1).
Proof.
  intros Hd Hi E. unfold sibling in E. destruct i as [|i]; [lia|]. replace (S i - 1)%nat with i in E by lia.
  rewrite Nat.even_succ in E. rewrite <-Nat.negb_even in E.
  destruct (lookup_lt_is_Some_2 level i) as [a Ha]; [lia|]. destruct (lookup_lt_is_Some_2 level (S i)) as [b Hb]; [lia|].
  destruct (Nat.even i) eqn:He; cbn [negb] in E.
  - rewrite Hb, Ha in E. injection E as ->. pose proof (NoDup_lookup _ _ _ _ Hd Ha Hb). lia.
  - destruct i as [|i]; [done|]. destruct (lookup_lt_is_Some_2 level (S i - 1)%nat) as [c Hc]; [lia|]. rewrite Hc in E.
    destruct (level !! S (S (S i))) as [d|] eqn:Hx; [|rewrite Hb in E]; injection E as ->.
    + pose proof (NoDup_lookup _ _ _ _ Hd Hx Hc). lia.
    + pose proof (NoDup_lookup _ _ _ _ Hd Hb Hc). lia.
Qed.

(** A proof that was made for an index verifies no hash at the index before. *)
Lemma shifted_proof_fails level i proofs h : hashes level -> NoDup level -> (0 < i < length level)%nat ->
  GetMerkleProof level (Z.of_nat i) = Some proofs -> length h = HashLength ->
  root_above h (i - 1) proofs <> GetBinaryMerkleRoot level.
Proof.
  intros Hl Hd Hi Hp Hh E. rewrite GetMerkleProof_walk in Hp. pose proof (walk_hashes _ Hl _ _ Hp) as Hps.
  pose proof (walk_length _ _ _ Hp) as Hlen.
  destruct (root_above_unique level Hl (i - 1) h proofs) as [_ Hq]; [lia|done..|].
  rewrite GetMerkleProof_walk in Hq. rewrite levels_step in Hp, Hq by lia. rewrite walk_sibling in Hp, Hq by lia.
  apply (sibling_pred level i Hd Hi).
  destruct (sibling level i) as [s|]; [|done]. destruct (sibling level (i - 1)) as [s'|]; [|done].
  destruct (proof_walk _ _) in Hp; [|done]. destruct (proof_walk _ _) in Hq; [|done]. cbn in Hp, Hq. congruence.
Qed.

(** Past the end of an even level there is no sibling. *)
Lemma proof_past_even level : Nat.even (length level) = true -> (1 < length level)%nat ->
  GetMerkleProof level (Z.of_nat (length level)) = None.
Proof.
  intros He Hl. rewrite GetMerkleProof_walk, levels_step by done. cbn [proof_walk]. unfold at_index.
  apply Nat.even_spec in He as [k Hk].
  rewrite (proj2 (Z.eqb_eq (Z.rem _ 2) 0)) by (rewrite Hk; zdiv). rewrite (proj2 (Z.eqb_neq _ _)) by lia.
  rewrite (proj2 (Z.ltb_ge _ _)) by lia. by rewrite lookup_ge_None_2 by lia.
Qed.

(** Past the end of an odd level it is the last hash, which is its own sibling. *)
Lemma proof_past_odd level h : Nat.even (length level) = false -> last level = Some h ->
  exists proofs, GetMerkleProof level (Z.of_nat (length level)) = Some proofs /\
    root_above h (length level - 1) proofs = GetBinaryMerkleRoot level.
Proof.
  intros He Hh. rewrite last_lookup in Hh. pose proof (lookup_lt_Some _ _ _ Hh) as Hi.
  destruct (decide (length level = 1%nat)) as [E|E].
  { exists []. destruct level as [|a [|]]; [done| |done]. cbn in Hh. injection Hh as ->. done. }
  assert (Hl : (1 < length level)%nat) by lia. replace (Init.Nat.pred (length level)) with (length level - 1)%nat in Hh by lia.
  destruct (walk_verifies level (length level - 1) h) as (proofs & Hp & Hr).
  { done. }
  exists proofs. split; [|done]. rewrite <-Hp, GetMerkleProof_walk, levels_step by done. cbn [proof_walk]. unfold at_index.
  rewrite <-Nat.negb_odd in He. apply negb_false_iff, Nat.odd_spec in He as [k Hk].
  rewrite (proj2 (Z.eqb_neq (Z.rem (Z.of_nat (length level)) 2) 0)) by (rewrite Hk; zdiv).
  rewrite (proj2 (Z.eqb_eq (Z.rem (Z.of_nat (length level - 1)) 2) 0)) by (rewrite Hk; zdiv).
  rewrite (proj2 (Z.eqb_eq (Z.of_nat (length level)) _)) by lia.
  replace (Z.of_nat (length level) - 1) with (Z.of_nat (length level - 1)) by lia.
  by replace (Z.quot (Z.of_nat (length level)) 2) with (Z.quot (Z.of_nat (length level - 1)) 2) by (rewrite Hk; zdiv).
Qed.

(** The proofs of transactions are made for the next transaction:
    GetTxMerkleInfo makes the proof for the index in the block and returns
    it with that index less one, the index among the transactions after the
    reward. For a transaction that is not the last of its block no 32-byte
    hash passes the check against the transaction root with what is
    returned; for the last one of an even number of transactions the call
    panics; only the last one of an odd number of transactions gets a proof
    that verifies. *)
Theorem tx_proof_is_off_by_one db txHash (i : nat) blockHash block level h :
  GetTxIndex db txHash = inl (mkIndex blockHash (Z.of_nat i)) ->
  GetBlock db blockHash = inl block ->
  stem_hashes (tail (b_Transactions block)) = inl level ->
  hashes level -> NoDup level -> level !! (i - 1)%nat = Some h -> (0 < i)%nat -> Z.of_nat (length level) < 2 ^ 63 ->
  if decide (i < length level)%nat then
    exists data, GetTxMerkleInfo db txHash = Some (inl (Z.of_nat (i - 1), data)) /\
      forall leaf proofs, length leaf = HashLength -> hashes proofs -> concat proofs = data ->
        root_above leaf (i - 1) proofs <> GetBinaryMerkleRoot level
  else if Nat.even (length level) then GetTxMerkleInfo db txHash = None
  else exists proofs, GetTxMerkleInfo db txHash = Some (inl (Z.of_nat (i - 1), concat proofs)) /\
    root_above h (i - 1) proofs = GetBinaryMerkleRoot level.
Proof.
  intros Hx Hb Hs Hl Hd Hh Hi Hlen. pose proof (lookup_lt_Some _ _ _ Hh) as Hlt.
  assert (HG : GetTxMerkleInfo db txHash = option_map (fun proofs => inl (Z.of_nat (i - 1), concat proofs)) (GetMerkleProof level (Z.of_nat i))).
  { unfold GetTxMerkleInfo. rewrite Hx. cbn [ix_BlockHash ix_Index]. rewrite Hb, Hs, i64_small, u64_small by (unfold is_u64; lia).
    replace (Z.of_nat i - 1) with (Z.of_nat (i - 1)) by lia. by destruct (GetMerkleProof _ _). }
  rewrite HG. case_decide as Hdec.
  - destruct (lookup_lt_is_Some_2 level i Hdec) as [h' Hh']. destruct (walk_verifies level i h' Hh') as (proofs & Hp & _).
    rewrite <-GetMerkleProof_walk in Hp. rewrite Hp. exists (concat proofs). split; [done|]. intros leaf proofs' Hleaf Hps E.
    apply concat_hashes_inj in E as ->; [|done|rewrite GetMerkleProof_walk in Hp; exact (walk_hashes _ Hl _ _ Hp)].
    by apply shifted_proof_fails.
  - replace i with (length level) in * by lia. destruct (Nat.even (length level)) eqn:He.
    + rewrite proof_past_even; [done|done|]. destruct (length level) as [|[|n]]; [lia|done|lia].
    + destruct (proof_past_odd level h) as (proofs & Hp & Hr); [done|by rewrite last_lookup; replace (Init.Nat.pred (length level)) with (length level - 1)%nat by lia|].
      rewrite Hp. by exists proofs.
Qed.
End tx.

(** ** The numbering of the accounts *)

(** What is relied on of RLP and of the hash function: numbers are decoded as they were
    encoded; a byte string is not encoded as a list is; no collision between the two. *)
Class StemLaws `{MerkleEnv} `{StemEnv} := {
  uint_rlp i : is_u64 i -> uint_of (rlp_uint i) = Some i;
  rlp_string_is_no_list a b n a' b' n' : rlp_bytes (rlp_state a b n) <> rlp_state a' b' n';
  Keccak256Hash_states a b n a' b' n' :
    Keccak256Hash (rlp_bytes (rlp_state a b n)) = Keccak256Hash (rlp_state a' b' n') ->
    rlp_bytes (rlp_state a b n) = rlp_state a' b' n'
}.

Definition is_address (a : Address) : Prop := length a = AddressLen /\ Forall is_byte a.

Definition tx_addresses (tx : Transaction) : Prop := is_address (td_From (tx_Data tx)) /\ is_address (td_To (tx_Data tx)).

Section index.
Context `{MerkleEnv} `{StemEnv} `{!StemLaws}.
Implicit Types (dbs : StemDbs) (a : Address) (n : Z).

(** The databases number the accounts from 0 on. *)
Record indexed dbs n : Prop := {
  ix_count : 0 <= n;
  ix_account i : 0 <= i < n ->
    exists a, indexAccountDB dbs !! rlp_uint i = Some a /\ is_address a /\ accountIndexDB dbs !! a = Some (rlp_uint i);
  ix_bytes a b : accountIndexDB dbs !! a = Some b -> exists i, 0 <= i < n /\ b = rlp_uint i /\ indexAccountDB dbs !! b = Some a;
  ix_back a b : indexAccountDB dbs !! b = Some a -> accountIndexDB dbs !! a = Some b
}.

Lemma rlp_uint_inj i j : is_u64 i -> is_u64 j -> rlp_uint i = rlp_uint j -> i = j.
Proof. intros Hi Hj E. apply uint_rlp in Hi, Hj. congruence. Qed.

Definition with_account dbs n a : StemDbs :=
  mkStemDbs (<[a := rlp_uint n]> (accountIndexDB dbs)) (<[rlp_uint n := a]> (indexAccountDB dbs)).

Lemma note_account_new roots dbs n a : is_root roots a = false -> accountIndexDB dbs !! a = None -> 0 <= n -> n + 1 < 2 ^ 64 ->
  note_account roots (dbs, n) a = (with_account dbs n a, n + 1).
Proof.
  intros Hr Ha Hn Hn'. unfold note_account. rewrite Hr, Ha. rewrite (u64_small (n + 1)) by (unfold is_u64; lia).
  replace (n + 1 - 1) with n by lia. by rewrite u64_small by (unfold is_u64; lia).
Qed.

Lemma note_account_known roots dbs n a : is_root roots a = true \/ is_Some (accountIndexDB dbs !! a) ->
  note_account roots (dbs, n) a = (dbs, n).
Proof. unfold note_account. destruct (is_root roots a); [done|]. by intros [|[b ->]]. Qed.

Lemma with_account_indexed dbs n a : indexed dbs n -> is_address a -> accountIndexDB dbs !! a = None -> n + 1 < 2 ^ 64 ->
  indexed (with_account dbs n a) (n + 1).
Proof.
  intros [Hn Hi Hb Hk] Ha Hno Hlt. split; cbn.
  - lia.
  - intros i Hi'. destruct (decide (i = n)) as [->|Hne].
    + exists a. by rewrite !lookup_insert_eq.
    + destruct (Hi i) as (a' & Hia & Haa & Hai); [lia|]. exists a'. rewrite !lookup_insert_ne; [done| |].
      * by intros ->; rewrite Hno in Hai.
      * intros E. apply rlp_uint_inj in E; unfold is_u64; lia.
  - intros a' b. destruct (decide (a = a')) as [<-|Hne].
    + rewrite lookup_insert_eq. intros [= <-]. exists n. rewrite lookup_insert_eq. split; [lia|done].
    + rewrite lookup_insert_ne by done. intros Hab. destruct (Hb _ _ Hab) as (i & Hi' & -> & Hx). exists i.
      rewrite lookup_insert_ne; [split; [lia|done]|]. intros E. apply rlp_uint_inj in E; unfold is_u64; lia.
  - intros a' b. destruct (decide (rlp_uint n = b)) as [<-|Hne].
    + rewrite lookup_insert_eq. intros [= <-]. by rewrite lookup_insert_eq.
    + rewrite lookup_insert_ne by done. intros Hab. apply Hk in Hab. rewrite lookup_insert_ne; [done|]. intros <-. by rewrite Hno in Hab.
Qed.

(** What recording an account does. *)
Lemma note_account_indexed roots dbs n a : indexed dbs n -> is_address a -> n + 1 < 2 ^ 64 ->
  exists dbs' n', note_account roots (dbs, n) a = (dbs', n') /\ indexed dbs' n' /\ n <= n' <= n + 1 /\
    (is_root roots a = true \/ is_Some (accountIndexDB dbs' !! a)) /\
    accountIndexDB dbs ⊆ accountIndexDB dbs'.
Proof.
  intros Hx Ha Hn. pose proof (ix_count _ _ Hx). destruct (is_root roots a) eqn:Hr.
  - exists dbs, n. rewrite note_account_known by auto. split_and!; [done|done|lia|lia|by left|done].
  - destruct (accountIndexDB dbs !! a) as [b|] eqn:Hb.
    + exists dbs, n. rewrite note_account_known by eauto. split_and!; [done|done|lia|lia|by eauto|done].
    + exists (with_account dbs n a), (n + 1). rewrite note_account_new by done. split_and!; [done|by apply with_account_indexed|lia|lia| |].
      * right. cbn. rewrite lookup_insert_eq. eauto.
      * by apply insert_subseteq.
Qed.

Definition recorded roots dbs (tx : Transaction) : Prop :=
  forall a, a = td_From (tx_Data tx) \/ a = td_To (tx_Data tx) -> is_root roots a = true \/ is_Some (accountIndexDB dbs !! a).

Lemma recorded_mono roots dbs dbs' tx : recorded roots dbs tx -> accountIndexDB dbs ⊆ accountIndexDB dbs' -> recorded roots dbs' tx.
Proof. intros Hr Hs a Ha. destruct (Hr a Ha) as [|Hd]; [by left|right]. by eapply lookup_weaken_is_Some. Qed.

Lemma note_tx_indexed roots dbs n tx : indexed dbs n -> tx_addresses tx -> n + 2 < 2 ^ 64 ->
  exists dbs' n', note_tx roots (dbs, n) tx = (dbs', n') /\ indexed dbs' n' /\ n <= n' <= n + 2 /\ recorded roots dbs' tx /\
    accountIndexDB dbs ⊆ accountIndexDB dbs'.
Proof.
  intros Hx [Hf Ht] Hn. unfold note_tx.
  destruct (note_account_indexed roots dbs n _ Hx Hf) as (d1 & n1 & -> & Hx1 & Hn1 & Hr1 & Hs1); [lia|].
  destruct (note_account_indexed roots d1 n1 _ Hx1 Ht) as (d2 & n2 & -> & Hx2 & Hn2 & Hr2 & Hs2); [lia|].
  exists d2, n2. split_and!; [done|done|lia|lia| |by etrans]. intros a [->| ->]; [|done].
  destruct Hr1 as [|Hd]; [by left|right]. by eapply lookup_weaken_is_Some.
Qed.

Lemma verifyStem_indexed roots txs : forall dbs n, indexed dbs n -> Forall tx_addresses txs -> n + 2 * Z.of_nat (length txs) < 2 ^ 64 ->
  exists dbs' n', verifyStemStructureAndUpdateDatabase roots txs (dbs, n) = (dbs', n') /\ indexed dbs' n' /\
    Forall (recorded roots dbs') txs /\ accountIndexDB dbs ⊆ accountIndexDB dbs'.
Proof.
  unfold verifyStemStructureAndUpdateDatabase. induction txs as [|tx txs IH]; intros dbs n Hx Ht Hn.
  - by exists dbs, n.
  - apply Forall_cons in Ht as [Ha Ht]. cbn [length] in Hn.
    destruct (note_tx_indexed roots dbs n tx Hx Ha) as (d1 & n1 & E1 & Hx1 & Hn1 & Hr1 & Hs1); [lia|].
    destruct (IH d1 n1 Hx1 Ht) as (d2 & n2 & E2 & Hx2 & Hr2 & Hs2); [lia|]. cbn [foldl]. rewrite E1, E2.
    exists d2, n2. split_and!; [done|done| |by etrans]. constructor; [|done]. by eapply recorded_mono.
Qed.

(** The miner's loop is the loop of the other nodes, up to a payload that is not decoded. *)
Lemma stem_txs_spec roots txs : forall st level, exists done_ rest,
  txs = done_ ++ rest /\
  (stem_txs roots txs st level).1 = verifyStemStructureAndUpdateDatabase roots done_ st /\
  match (stem_txs roots txs st level).2 with
  | inl level' => rest = [] /\ exists hs, stem_hashes txs = inl hs /\ level' = level ++ hs
  | inr err => err = errStemPayload
  end.
Proof.
  induction txs as [|tx txs IH]; intros st level; cbn.
  - exists [], []. split_and!; [done..|]. exists []. by rewrite app_nil_r.
  - destruct (ExtractTxPayload _) as [p|].
    + destruct (IH (note_tx roots st tx) (level ++ [pe_HashForStem p])) as (d & r & -> & E & Hres). exists (tx :: d), r.
      split_and!; [done|done|]. destruct (stem_txs _ _ _ _).2 as [l|]; [|done]. destruct Hres as (-> & hs & -> & ->).
      split; [done|]. exists (pe_HashForStem p :: hs). by rewrite <-app_assoc.
    + by exists [], (tx :: txs).
Qed.
End index.

(** ** The root of the states *)

Section states.
Context `{MerkleEnv} `{StemEnv} `{!StemLaws} {T : Type} `{TrieOps T}.
Implicit Types (dbs : StemDbs) (s : Statedb T).

Lemma with_object_runs {A} a (x : A) (f : stateObject -> A) s : wp (with_object a x (fun o => go_ret (f o))) s (fun _ _ _ => True).
Proof. unfold with_object, getStateObject. repeat wp_step; repeat case_match; repeat wp_step; done. Qed.

Lemma GetNonce_runs a s : wp (GetNonce a) s (fun _ _ _ => True).
Proof. exact (with_object_runs a 0 (fun o => a_Nonce (o_account o)) s). Qed.

Lemma GetBalance_runs a s : wp (GetBalance a) s (fun _ _ _ => True).
Proof. exact (with_object_runs a 0 (fun o => a_Amount (o_account o)) s). Qed.

Definition a_leaf (leaf_of : Address -> Z -> Z -> option Hash) (h : Hash) : Prop := exists a b n, leaf_of a b n = Some h.

(** The leaf of every account with an index from [i] on, with the balance and the nonce that the
    state has for it. *)
Definition leaves_of (leaf_of : Address -> Z -> Z -> option Hash) dbs s (i : Z) (level : list Hash) : Prop :=
  forall k h, level !! k = Some h -> exists a, indexAccountDB dbs !! rlp_uint (i + Z.of_nat k) = Some a
    /\ leaf_of a (balance s a) (nonce_of s a) = Some h.

Lemma leaves_of_some leaf_of dbs s i level : leaves_of leaf_of dbs s i level -> Forall (a_leaf leaf_of) level.
Proof. intros Hl. apply Forall_lookup. intros k h (a & _ & E)%Hl. by exists a, (balance s a), (nonce_of s a). Qed.

Lemma state_level_spec leaf_of dbs : (forall a b n, is_address a -> is_Some (leaf_of a b n)) -> forall n i s, st_ok s ->
  (forall k, i <= k < i + Z.of_nat n -> exists a, indexAccountDB dbs !! rlp_uint k = Some a /\ is_address a) ->
  wp (state_level leaf_of dbs n i) s (fun r _ _ => exists level, r = inl level /\ length level = n /\ leaves_of leaf_of dbs s i level).
Proof.
  intros Hleaf n. induction n as [|n IH]; intros i s Hs Hi; cbn [state_level].
  - wp_step. exists []. split; [done|]. by split; [|intros [] ? ?].
  - destruct (Hi i) as (a & Ea & Ha); [lia|]. rewrite Ea. assert (BytesToAddress a = a) as -> by (apply right_align_id; apply Ha).
    apply wp_bind. eapply wp_mono; [by apply reader_quiet|]. intros nonce s1 o1 [-> Hq1].
    apply wp_bind. eapply wp_mono; [apply reader_quiet, Hq1|]. intros bal s2 o2 [-> Hq2].
    pose proof (qs_equiv _ _ (quiet_trans _ _ _ Hq1 Hq2)) as Heq.
    assert (Hn : forall x, nonce_of s2 x = nonce_of s x).
    { intros x. apply (equiv_reader _ _ _ _ _ Heq). intros o o' Ho. by rewrite (oe_nonce _ _ _ Ho). }
    assert (Hb : forall s s', quiet_step s s' -> forall x, balance s' x = balance s x).
    { intros ? ? Hq x. apply (equiv_reader _ _ _ _ _ (qs_equiv _ _ Hq)). intros o o' Ho. by rewrite (oe_amount _ _ _ Ho). }
    fold (nonce_of s a) (balance s1 a). rewrite (Hb _ _ Hq1).
    destruct (Hleaf a (balance s a) (nonce_of s a) Ha) as [leaf Hl]. apply wp_bind. eapply wp_deref; [exact Hl|].
    apply wp_bind. eapply wp_mono; [apply IH; [apply Hq2|intros k Hk; apply Hi; lia]|].
    intros r s3 o3 (level & -> & Hlen & Hall). wp_step. exists (leaf :: level). split; [done|]. split; [by cbn; f_equal|].
    intros [|k] h Hh; cbn in Hh; [injection Hh as <-; exists a; by rewrite Z.add_0_r|].
    destruct (Hall k h Hh) as (x & Ex & Hx). rewrite (Hb _ _ (quiet_trans _ _ _ Hq1 Hq2)), Hn in Hx. exists x.
    by replace (i + Z.of_nat (Datatypes.S k)) with (i + 1 + Z.of_nat k) by lia.
Qed.

Lemma state_level_runs leaf_of dbs : (forall a b n, is_address a -> is_Some (leaf_of a b n)) -> forall n i s,
  (forall k, i <= k < i + Z.of_nat n -> exists a, indexAccountDB dbs !! rlp_uint k = Some a /\ is_address a) ->
  wp (state_level leaf_of dbs n i) s (fun r _ _ => exists level, r = inl level /\ length level = n /\ Forall (a_leaf leaf_of) level).
Proof.
  intros Hleaf n. induction n as [|n IH]; intros i s Hi; cbn [state_level].
  - wp_step. by exists [].
  - destruct (Hi i) as (a & -> & Ha); [lia|]. assert (BytesToAddress a = a) as -> by (apply right_align_id; apply Ha).
    apply wp_bind. eapply wp_mono; [apply GetNonce_runs|]. intros nonce s1 o1 _.
    apply wp_bind. eapply wp_mono; [apply GetBalance_runs|]. intros balance s2 o2 _.
    destruct (Hleaf a balance nonce Ha) as [leaf Hl]. apply wp_bind. eapply wp_deref; [exact Hl|].
    apply wp_bind. eapply wp_mono; [apply IH; intros k Hk; apply Hi; lia|].
    intros r s3 o3 (level & -> & Hlen & Hall). wp_step. exists (leaf :: level). split; [done|]. split; [by cbn; f_equal|].
    constructor; [|done]. by exists a, balance, nonce.
Qed.

Lemma stem_leaf_runs a b n : is_address a -> is_Some (stem_leaf a b n).
Proof.
  intros [_ Hb]. unfold stem_leaf, MustHexToBytes, Address_String, Address_Hex. rewrite HexToBytes_BytesToHex by done. by eexists.
Qed.

Lemma indexed_accounts dbs n : indexed dbs n ->
  forall k, 0 <= k < 0 + Z.of_nat (Z.to_nat n) -> exists a, indexAccountDB dbs !! rlp_uint k = Some a /\ is_address a.
Proof. intros Hx k Hk. pose proof (ix_count _ _ Hx). destruct (ix_account _ _ Hx k) as (a & Ha & Haa & _); [lia|]. eauto. Qed.

Lemma getStemHashes_runs roots txs dbs n s :
  st_ok s -> indexed dbs n -> Forall tx_addresses txs -> n + 2 * Z.of_nat (length txs) < 2 ^ 64 ->
  wp (getStemHashes roots txs (dbs, n)) s (fun r _ _ =>
    let '((dbs', n'), res) := r in
    indexed dbs' n' /\
    match res with
    | inl (txHashStem, stateHashStem) =>
        (dbs', n') = verifyStemStructureAndUpdateDatabase roots (tail txs) (dbs, n) /\
        Forall (recorded roots dbs') (tail txs) /\
        (exists hs, stem_hashes (tail txs) = inl hs /\ txHashStem = GetBinaryMerkleRoot hs) /\
        exists level, stateHashStem = GetBinaryMerkleRoot level /\ length level = Z.to_nat n' /\ leaves_of stem_leaf dbs' s 0 level
    | inr err => err = errStemPayload
    end).
Proof.
  intros Hs Hx Ht Hn. unfold getStemHashes. destruct (stem_txs_spec roots (tail txs) (dbs, n) []) as (d & rest & Htl & E & Hres).
  destruct (stem_txs roots (tail txs) (dbs, n) []) as [st lv]. cbn [fst snd] in E, Hres. subst st.
  assert (Hd : Forall tx_addresses d /\ (length d <= length txs)%nat).
  { destruct txs as [|tx txs]; cbn in Htl; [destruct d; [by split; [constructor|cbn; lia]|done]|]. subst. apply Forall_cons in Ht as [_ Ht].
    apply Forall_app in Ht as [Hd _]. split; [done|]. cbn. rewrite length_app. lia. }
  destruct (verifyStem_indexed roots d dbs n Hx) as (dbs' & n' & E & Hx' & Hr & _); [apply Hd|lia|]. rewrite E.
  destruct lv as [hs|err]; [|wp_step; done]. destruct Hres as (-> & hs' & Hhs & ->). rewrite app_nil_r in Htl. subst d.
  cbn [fst snd]. apply wp_bind. eapply wp_mono; [apply (state_level_spec stem_leaf); [exact stem_leaf_runs|done|by apply indexed_accounts]|].
  intros r s1 o1 (level & -> & Hlen & Hall). wp_step. split; [done|]. split_and!; [done|done| |].
  - by exists hs'.
  - by exists level.
Qed.

Lemma levels_length (level level' : list Hash) : length level = length level' -> length (levels level) = length (levels level').
Proof.
  revert level'. induction level as [|x|level Hl IH] using level_ind; intros level' E.
  - by destruct level'.
  - destruct level' as [|? []]; done.
  - rewrite (levels_step level), (levels_step level') by lia. cbn. f_equal. apply IH. by rewrite !length_next_level, E.
Qed.

Lemma sibling_in level i h : sibling level i = Some h -> h ∈ level.
Proof. unfold sibling. repeat case_match; intros; simplify_eq; by eapply list_elem_of_lookup_2. Qed.

(** A proof verifies against the root of another list only if the two share a leaf. *)
Lemma foreign_proof_fails `{!MerkleLaws} level level' i proofs h :
  hashes level -> hashes level' -> length level = length level' -> (1 < length level)%nat -> (i < length level)%nat ->
  (forall x, x ∈ level -> x ∉ level') -> GetMerkleProof level' (Z.of_nat i) = Some proofs -> length h = HashLength ->
  root_above h i proofs <> GetBinaryMerkleRoot level.
Proof.
  intros Hl Hl' Hlen Hone Hi Hdis Hp Hh E. rewrite GetMerkleProof_walk in Hp.
  destruct (root_above_unique level Hl i h proofs) as [_ Hq]; [done|done|by eapply (walk_hashes level')| |done|].
  { rewrite (walk_length _ _ _ Hp). by apply levels_length. }
  rewrite GetMerkleProof_walk, levels_step, walk_sibling in Hq by done. rewrite levels_step, walk_sibling in Hp by lia.
  destruct (sibling level i) as [x|] eqn:Hx; [|done]. destruct (sibling level' i) as [y|] eqn:Hy; [|done].
  destruct (proof_walk _ _) in Hq; [|done]. destruct (proof_walk _ _) in Hp; [|done]. cbn in Hp, Hq. simplify_eq.
  eapply Hdis; by eapply sibling_in.
Qed.
End states.

(** C25: The index databases stay a numbering of the accounts, and the proposer
    computes what the other nodes compute: from databases that number n
    accounts, getStemHashes always returns, leaves databases that number the
    accounts it counts, and fails only on a payload that is not decoded;
    when it succeeds, the databases and the count are those of
    verifyStemStructureAndUpdateDatabase, every account of the transactions
    has an index or is a root account, the transaction root is over the
    hashes of the payloads, and the state root is over one leaf for every
    index below the count, in their order: the hash of the encoding of the
    address of that index with the balance and the nonce that the state has
    for it. *)
Theorem stem_hashes_number_the_accounts `{MerkleEnv} `{StemEnv} `{!StemLaws} {T : Type} `{TrieOps T} roots txs dbs n (s : Statedb T) :
  st_ok s -> indexed dbs n -> Forall tx_addresses txs -> n + 2 * Z.of_nat (length txs) < 2 ^ 64 ->
  exists dbs' n' res s', getStemHashes roots txs (dbs, n) s = Some ((dbs', n'), res, s', []) /\
    indexed dbs' n' /\
    match res with
    | inl (txHashStem, stateHashStem) =>
        (dbs', n') = verifyStemStructureAndUpdateDatabase roots (tail txs) (dbs, n) /\
        Forall (recorded roots dbs') (tail txs) /\
        (exists hs, stem_hashes (tail txs) = inl hs /\ txHashStem = GetBinaryMerkleRoot hs) /\
        exists level, stateHashStem = GetBinaryMerkleRoot level /\ length level = Z.to_nat n' /\
          forall k h, level !! k = Some h -> exists a, indexAccountDB dbs' !! rlp_uint (Z.of_nat k) = Some a
            /\ h = Keccak256Hash (rlp_state a (balance s a) (nonce_of s a))
    | inr err => err = errStemPayload
    end.
Proof.
  intros Hs Hx Ht Hn.
  destruct (wp_no_output _ _ _ (getStemHashes_runs roots txs dbs n s Hs Hx Ht Hn)) as ([[dbs' n'] res] & s' & E & Hi & Hr).
  exists dbs', n', res, s'. split; [done|]. split; [done|]. destruct res as [[t r]|err]; [|done].
  destruct Hr as (E1 & Hrec & Hh & level & -> & Hlen & Hall). split; [done|]. split; [done|]. split; [done|].
  exists level. split; [done|]. split; [done|]. intros k h Hk. destruct (Hall k h Hk) as (a & Ea & Hleaf). rewrite Z.add_0_l in Ea.
  exists a. split; [done|]. apply lookup_lt_Some in Hk.
  assert (is_address a) as [_ Hb] by (destruct (indexed_accounts _ _ Hi (Z.of_nat k)) as (a' & Ea' & Ha'); [lia|]; by simplify_eq).
  unfold stem_leaf, MustHexToBytes, Address_String, Address_Hex in Hleaf. rewrite HexToBytes_BytesToHex in Hleaf by done. by injection Hleaf as <-.
Qed.

(** The proofs of balances never verify: the API hashes the encoding of the encoded state of an account where the miner hashes the encoded state. From databases that number at least two accounts, GetBalanceMerkleInfo answers for every account with an index below the count, whatever the state is, and no 32-byte hash passes the check against a state root of getStemHashes over the same databases with the index and the proof of the answer. *)
Theorem balance_proof_never_verifies `{MerkleLaws} `{StemEnv} `{!StemLaws} {T : Type} `{TrieOps T} roots txs st dbs n
    (s s1 s2 : Statedb T) txHashStem stateHashStem account i o :
  st_ok s -> indexed st.1 st.2 -> Forall tx_addresses txs -> st.2 + 2 * Z.of_nat (length txs) < 2 ^ 63 ->
  getStemHashes roots txs st s = Some ((dbs, n), inl (txHashStem, stateHashStem), s1, o) ->
  1 < n < 2 ^ 63 -> accountIndexDB dbs !! account = Some (rlp_uint i) -> 0 <= i < n ->
  exists nonce balance proofs s3,
    GetBalanceMerkleInfo dbs n account s2 = Some (inl (Some (nonce, balance, i, BytesToHex (concat proofs))), s3, []) /\
    forall leaf, length leaf = HashLength -> root_above leaf (Z.to_nat i) proofs <> stateHashStem.
Proof.
  destruct st as [dbs0 n0]. cbn [fst snd]. intros Hs Hx0 Ht Hn0 Hrun Hn Ha Hi.
  pose proof (wp_run _ _ _ _ _ _ (getStemHashes_runs roots txs dbs0 n0 s Hs Hx0 Ht ltac:(lia)) Hrun) as (Hx & _ & _ & _ & level & -> & Hlen & Hall).
  apply leaves_of_some in Hall.
  destruct (wp_no_output (GetBalanceMerkleInfo dbs n account) s2 (fun r _ => exists nonce balance proofs,
    r = inl (Some (nonce, balance, i, BytesToHex (concat proofs))) /\
    forall leaf, length leaf = HashLength -> root_above leaf (Z.to_nat i) proofs <> GetBinaryMerkleRoot level)) as (r & s3 & E & nonce & balance & proofs & -> & Hp).
  2: by exists nonce, balance, proofs, s3.
  unfold GetBalanceMerkleInfo. apply wp_bind. eapply wp_mono; [apply GetNonce_runs|]. intros nonce s3 o3 _.
  apply wp_bind. eapply wp_mono; [apply GetBalance_runs|]. intros balance s4 o4 _.
  rewrite Ha, uint_rlp, (proj2 (Z.leb_gt n i)) by (unfold is_u64; lia). apply wp_bind. unfold balance_proof. apply wp_bind.
  eapply wp_mono; [apply (state_level_runs api_leaf); [by eexists|by apply indexed_accounts]|].
  intros r s5 o5 (level' & -> & Hlen' & Hall').
  assert (Hhs : hashes level) by (eapply Forall_impl; [exact Hall|]; intros h (a & b & c & Hl); unfold stem_leaf in Hl;
    destruct (MustHexToBytes _); [|done]; injection Hl as <-; apply Keccak256Hash_length).
  assert (Hhs' : hashes level') by (eapply Forall_impl; [exact Hall'|]; intros h (a & b & c & Hl); injection Hl as <-; apply Keccak256Hash_length).
  destruct (lookup_lt_is_Some_2 level' (Z.to_nat i)) as [h Hh]; [lia|].
  destruct (walk_verifies level' _ h Hh) as (proofs & Hp & _). rewrite <-GetMerkleProof_walk in Hp.
  apply wp_bind. eapply wp_deref; [rewrite i64_small by lia; rewrite <-(Z2Nat.id i) by lia; exact Hp|].
  do 2 wp_step. exists nonce, balance, proofs. split; [done|]. intros leaf Hleaf.
  apply (foreign_proof_fails level level'); [done|done|lia|lia|lia| |done|done].
  intros x Hxl Hxl'. rewrite Forall_forall in Hall, Hall'. destruct (Hall x Hxl) as (a & b & c & Hl).
  destruct (Hall' x Hxl') as (a' & b' & c' & Hl'). unfold stem_leaf in Hl. destruct (MustHexToBytes _) as [a1|]; [|done].
  cbn in Hl. injection Hl' as <-. injection Hl as Hk. symmetry in Hk. apply Keccak256Hash_states in Hk. by apply rlp_string_is_no_list in Hk.
Qed.

(** ** Proposals that are discarded *)

Section discarded.
Context `{MerkleEnv} `{StemEnv} `{!StemLaws}.
Implicit Types (dbs : StemDbs) (a b : Address) (roots : Roots).

(** An account that has an index at which another one is. *)
Definition lost dbs a : Prop := is_Some (accountIndexDB dbs !! a) /\ forall i, indexAccountDB dbs !! i <> Some a.

Lemma note_account_lost roots st a b : lost st.1 a -> lost (note_account roots st b).1 a.
Proof.
  destruct st as [dbs n]. intros [Ha Hno]. cbn in Ha. unfold note_account. destruct (is_root roots b); [done|].
  destruct (accountIndexDB dbs !! b) as [x|] eqn:Hb; [done|]. split; cbn.
  - destruct (decide (b = a)) as [->|]; [by rewrite lookup_insert_eq; eauto|by rewrite lookup_insert_ne].
  - intros i. destruct (decide (rlp_uint (u64 (u64 (n + 1) - 1)) = i)) as [<-|]; [|by rewrite lookup_insert_ne].
    rewrite lookup_insert_eq. intros [= ->]. rewrite Hb in Ha. by destruct Ha.
Qed.

(** A block of transactions, with the count of its parent. *)
Definition block_step roots dbs dbs' : Prop :=
  exists txs n, dbs' = (verifyStemStructureAndUpdateDatabase roots txs (dbs, n)).1.

Lemma block_step_lost roots dbs dbs' a : lost dbs a -> block_step roots dbs dbs' -> lost dbs' a.
Proof.
  intros Hl (txs & n & ->). unfold verifyStemStructureAndUpdateDatabase. change dbs with (dbs, n).1 in Hl. revert Hl.
  generalize (dbs, n). induction txs as [|tx txs IH]; intros st Hl; [done|]. cbn. apply IH. by do 2 apply note_account_lost.
Qed.

(** The same index for two accounts. *)
Lemma overwritten dbs n a b : indexed dbs n -> accountIndexDB dbs !! a = None -> a <> b ->
  lost (with_account (with_account dbs n a) n b) a.
Proof.
  intros Hx Ha Hab. split; cbn.
  - by rewrite lookup_insert_ne, lookup_insert_eq by done.
  - intros i. rewrite insert_insert_eq. destruct (decide (rlp_uint n = i)) as [<-|]; [rewrite lookup_insert_eq; congruence|].
    rewrite lookup_insert_ne by done. intros Hi. apply (ix_back _ _ Hx) in Hi. by rewrite Ha in Hi.
Qed.

(** A transaction whose sender is new and whose receiver is known. *)
Definition from_new roots dbs (tx : Transaction) : Prop :=
  let a := td_From (tx_Data tx) in let b := td_To (tx_Data tx) in
  is_address a /\ is_root roots a = false /\ accountIndexDB dbs !! a = None /\
  (is_root roots b = true \/ is_Some (accountIndexDB dbs !! b)).

Lemma note_from_new roots dbs n tx : from_new roots dbs tx -> 0 <= n -> n + 1 < 2 ^ 64 ->
  note_tx roots (dbs, n) tx = (with_account dbs n (td_From (tx_Data tx)), n + 1).
Proof.
  intros (Ha & Hr & Hno & Hto) Hn Hn'. unfold note_tx. rewrite note_account_new by done. apply note_account_known.
  destruct Hto as [|[x Hx]]; [by left|right]. cbn. destruct (decide (td_From (tx_Data tx) = td_To (tx_Data tx))) as [->|].
  - rewrite lookup_insert_eq. eauto.
  - rewrite lookup_insert_ne by done. eauto.
Qed.
End discarded.

(** A proposal that is not committed loses an account: getStemHashes writes
    the index databases while a block is proposed, and the next block on the
    same parent counts from the parent again. When a proposal with a
    transaction of a new account is discarded and a block with a transaction
    of another new account follows on the same parent, both accounts have
    the same index, and after every later sequence of blocks no index leads
    to the first account: its balance is in no state root of this node any
    more. *)
Theorem discarded_proposal_loses_account `{MerkleEnv} `{StemEnv} `{!StemLaws} {T : Type} `{TrieOps T} roots dbs n
    (s s' : Statedb T) reward tx1 tx2 dbs1 n1 res o dbs2 :
  let a := td_From (tx_Data tx1) in let b := td_From (tx_Data tx2) in
  indexed dbs n -> n + 1 < 2 ^ 64 -> from_new roots dbs tx1 -> from_new roots dbs tx2 -> a <> b ->
  getStemHashes roots [reward; tx1] (dbs, n) s = Some ((dbs1, n1), inl res, s', o) ->
  dbs2 = (verifyStemStructureAndUpdateDatabase roots [tx2] (dbs1, n)).1 ->
  accountIndexDB dbs2 !! a = Some (rlp_uint n) /\ accountIndexDB dbs2 !! b = Some (rlp_uint n) /\
  forall dbs3, rtc (block_step roots) dbs2 dbs3 -> forall i, indexAccountDB dbs3 !! i <> Some a.
Proof.
  intros a b Hx Hn Hf1 Hf2 Hab Hrun ->. pose proof (ix_count _ _ Hx).
  assert (Hd : dbs1 = with_account dbs n a).
  { unfold getStemHashes in Hrun. destruct (stem_txs_spec roots (tail [reward; tx1]) (dbs, n) []) as (d & rest & Htl & E & Hres).
    destruct (stem_txs roots (tail [reward; tx1]) (dbs, n) []) as [st lv]. cbn [fst snd tail] in E, Hres, Htl.
    destruct lv as [hs|err]; [|by injection Hrun]. destruct Hres as (-> & _). rewrite app_nil_r in Htl. subst d st.
    cbn in Hrun. rewrite note_from_new in Hrun by done. cbn [fst snd] in Hrun.
    unfold go_bind in Hrun. destruct (state_level _ _ _ _ s) as [[[r s1] o1]|]; [|done]. cbn in Hrun. by injection Hrun. }
  assert (Hf2' : from_new roots dbs1 tx2).
  { destruct Hf2 as (Hb & Hr & Hno & Hto). subst dbs1. split_and!; [done|done|cbn; by rewrite lookup_insert_ne|].
    destruct Hto as [|Hto]; [by left|right]. cbn. destruct (decide (a = td_To (tx_Data tx2))) as [<-|]; [by rewrite lookup_insert_eq; eauto|by rewrite lookup_insert_ne]. }
  unfold verifyStemStructureAndUpdateDatabase. cbn [foldl]. rewrite note_from_new by done. subst dbs1. cbn [fst].
  split; [cbn; by rewrite lookup_insert_ne, lookup_insert_eq by done|]. split; [cbn; by rewrite lookup_insert_eq|].
  intros dbs3 Hsteps i. assert (Hl : lost dbs3 a); [|apply Hl].
  pose proof (overwritten dbs n a b Hx (proj1 (proj2 (proj2 Hf1))) Hab) as Hl.
  fold b in Hsteps. revert Hsteps Hl. generalize (with_account (with_account dbs n a) n b). intros d Hsteps Hl.
  induction Hsteps as [|d d1 d2 Hs _ IH]; [done|]. apply IH. by eapply block_step_lost.
Qed.

(** The accounts of a genesis are numbered. *)
Lemma genesis_indexed `{MerkleEnv} `{StemEnv} `{!StemLaws} vs : forall dbs n,
  indexed dbs n -> NoDup vs -> Forall (fun v => is_address v /\ accountIndexDB dbs !! v = None) vs ->
  n + Z.of_nat (length vs) < 2 ^ 64 -> indexed (genesis_accounts vs n dbs) (n + Z.of_nat (length vs)).
Proof.
  induction vs as [|v vs IH]; intros dbs n Hx Hd Hvs Hn; cbn [length] in Hn; cbn [genesis_accounts length].
  - by rewrite Z.add_0_r.
  - apply NoDup_cons in Hd as [Hv Hd]. apply Forall_cons in Hvs as [[Ha Hno] Hvs].
    replace (n + Z.of_nat (S (length vs))) with (n + 1 + Z.of_nat (length vs)) by lia.
    apply IH; [apply with_account_indexed; [done|done|done|lia]|done| |lia].
    apply Forall_forall. rewrite Forall_forall in Hvs. intros x Hin. destruct (Hvs x Hin) as [Hxa Hxn]. split; [done|].
    cbn. rewrite lookup_insert_ne; [done|]. by intros ->.
Qed.

Lemma empty_indexed `{MerkleEnv} `{StemEnv} : indexed (mkStemDbs ∅ ∅) 0.
Proof. split; cbn; [lia|lia|by intros ?? []%lookup_empty_Some..]. Qed.

(** ** Recent transactions *)

Section recent.
Context `{MerkleLaws} `{StemEnv} `{StoreCodec}.
Implicit Types (st : RecentTxs) (a : Address) (order : list Address).

(** [order] has the accounts by their indices. *)
Record recent_ok st order : Prop := {
  ro_len : length order = length (rt_txs st);
  ro_size : length order = size (rt_index st);
  ro_index a i : rt_index st !! a = Some i <-> order !! i = Some a
}.

Lemma add_recent_ok roots data st order a : recent_ok st order -> exists order', recent_ok (add_recent roots data st a) order'.
Proof.
  intros [Hl Hs Hi]. unfold add_recent. destruct (is_root roots a); [by exists order|].
  destruct (rt_index st !! a) as [i|] eqn:Ha.
  - exists order. split; cbn; [by rewrite length_alter|done|done].
  - exists (order ++ [a]). split; cbn.
    + rewrite !length_app, Hl. done.
    + rewrite length_app, map_size_insert_None, Hs by done. cbn. lia.
    + intros b i. destruct (decide (a = b)) as [<-|Hne].
      * rewrite lookup_insert_eq. split.
        -- intros [= <-]. rewrite <-Hs, lookup_app_r, Nat.sub_diag by lia. done.
        -- rewrite lookup_app. destruct (order !! i) as [c|] eqn:Hc.
           ++ intros [= ->]. apply Hi in Hc. by rewrite Ha in Hc.
           ++ intros Hx. apply lookup_ge_None in Hc. pose proof (lookup_lt_Some _ _ _ Hx). cbn in *. f_equal. lia.
      * rewrite lookup_insert_ne, Hi by done. rewrite lookup_app. destruct (order !! i) as [c|] eqn:Hc; [done|].
        split; [done|]. intros Hx. apply list_lookup_singleton_Some in Hx as [_ ?]. by subst.
Qed.

Lemma recent_tx_ok roots st order tx st' : recent_ok st order -> recent_tx roots st tx = Some (inl st') -> exists order', recent_ok st' order'.
Proof.
  intros Ho. unfold recent_tx. repeat case_match; try done; intros [= <-].
  - by eapply add_recent_ok.
  - edestruct add_recent_ok as [order' Ho']; [exact Ho|]. by eapply add_recent_ok.
Qed.

Lemma recent_txs_ok roots txs : forall st order st', recent_ok st order -> recent_txs roots txs st = Some (inl st') -> exists order', recent_ok st' order'.
Proof.
  induction txs as [|tx txs IH]; intros st order st' Ho; cbn; [intros [= <-]; by exists order|].
  destruct (recent_tx roots st tx) as [[st1|]|] eqn:E; [|done..]. destruct (recent_tx_ok _ _ _ _ _ Ho E) as [o1 Ho1]. by eapply IH.
Qed.

Lemma recent_blocks_ok roots blocks : forall st order st', recent_ok st order -> recent_blocks roots blocks st = Some (inl st') -> exists order', recent_ok st' order'.
Proof.
  induction blocks as [|[txs|err] blocks IH]; intros st order st' Ho; cbn; [intros [= <-]; by exists order| |done].
  destruct (recent_txs roots _ st) as [[st1|]|] eqn:E; [|done..]. destruct (recent_txs_ok _ _ _ _ _ Ho E) as [o1 Ho1]. by eapply IH.
Qed.

Lemma recent_start : recent_ok (mkRecent ∅ []) [].
Proof. split; cbn; [done|by rewrite map_size_empty|]. intros a i. by rewrite lookup_empty. Qed.

(** The leaf of an account. *)
Definition recent_leaf st a : option Hash :=
  match rt_index st !! a with
  | Some i => match rt_txs st !! i with Some txs => option_map Keccak256Hash (rlp_txs txs) | None => None end
  | None => None
  end.

Lemma recent_level_leaves lists level : recent_level lists = inl level <-> mapM (fun txs => option_map Keccak256Hash (rlp_txs txs)) lists = Some level.
Proof.
  revert level. induction lists as [|l lists IH]; intros level; cbn [recent_level].
  - split; intros E; injection E as <-; done.
  - change (mapM ?f (l :: lists)) with (f l ≫= fun x => mapM f lists ≫= fun k => Some (x :: k)). cbn beta.
    destruct (rlp_txs l) as [b|]; cbn; [|done]. destruct (recent_level lists) as [lv|e] eqn:E.
    + rewrite (proj1 (IH lv) eq_refl). cbn. split; intros E'; injection E' as <-; done.
    + destruct (mapM _ lists) as [lv|] eqn:Em; cbn; [|done]. by pose proof (proj2 (IH lv) eq_refl).
Qed.

Lemma recent_root_level st order r : recent_root st order = Some (inl r) ->
  exists level, mapM (recent_leaf st) order = Some level /\ r = GetBinaryMerkleRoot level.
Proof.
  unfold recent_root. destruct (mapM _ order) as [lists|] eqn:Em; [|done]. destruct (recent_level lists) as [level|] eqn:E; [|done].
  intros [= <-]. exists level. split; [|done]. apply recent_level_leaves, mapM_Some in E. apply mapM_Some in Em.
  apply mapM_Some. eapply Forall2_trans; [|exact Em|exact E]. intros a l h Ha Hl. cbn beta in Ha, Hl. unfold recent_leaf.
  destruct (rt_index st !! a) as [i|]; [|done]. by rewrite Ha.
Qed.

(** The API goes over the accounts by their indices. *)
Lemma recent_level_order st order level : recent_ok st order ->
  mapM (recent_leaf st) order = Some level -> recent_level (rt_txs st) = inl level.
Proof.
  intros [Hl _ Hi] Hm. apply recent_level_leaves. apply mapM_Some. apply mapM_Some in Hm. apply Forall2_same_length_lookup.
  pose proof (Forall2_length _ _ _ Hm). split; [lia|]. intros i txs h Ht Hh.
  destruct (lookup_lt_is_Some_2 order i) as [a Ha]; [apply lookup_lt_Some in Hh; lia|].
  pose proof (Forall2_lookup_lr _ _ _ _ _ _ Hm Ha Hh) as Hla. unfold recent_leaf in Hla. apply Hi in Ha. by rewrite Ha, Ht in Hla.
Qed.

Lemma recent_leaf_length st a h : recent_leaf st a = Some h -> length h = HashLength.
Proof.
  unfold recent_leaf. repeat (case_match; try done). destruct (rlp_txs _); [|done]. intros [= <-]. apply Keccak256Hash_length.
Qed.

Lemma leaves_hashes st order level : mapM (recent_leaf st) order = Some level -> hashes level.
Proof.
  intros Hm%mapM_Some. apply Forall_lookup. intros i h Hh. destruct (Forall2_lookup_r _ _ _ _ _ Hm Hh) as (a & _ & Ha).
  by eapply recent_leaf_length.
Qed.
Lemma leaves_inj st order order' level :
  (forall a b h, recent_leaf st a = Some h -> recent_leaf st b = Some h -> a = b) ->
  mapM (recent_leaf st) order = Some level -> mapM (recent_leaf st) order' = Some level -> order = order'.
Proof.
  intros Hinj Hm%mapM_Some Hm'%mapM_Some. revert order' Hm'. induction Hm as [|a h order level Ha _ IH]; intros order' Hm'.
  - by apply Forall2_nil_inv_r in Hm'.
  - apply Forall2_cons_inv_r in Hm' as (b & order1 & Hb & Hm' & ->). f_equal; eauto.
Qed.

Lemma recent_ok_perm st order : recent_ok st order -> order ≡ₚ (map_to_list (rt_index st)).*1.
Proof.
  intros [Hl Hs Hi]. apply NoDup_Permutation; [| |].
  - apply NoDup_alt. intros i j a E1%Hi E2%Hi. congruence.
  - apply NoDup_fst_map_to_list.
  - intros a. rewrite list_elem_of_fmap. split.
    + intros [i Ha%Hi]%list_elem_of_lookup_1. exists (a, i). split; [done|]. by apply elem_of_map_to_list.
    + intros ([b i] & -> & Hb%elem_of_map_to_list). apply Hi in Hb. by eapply list_elem_of_lookup_2.
Qed.

(** What the API reads once the block is stored. *)
Lemma api_recent_state db roots height txs : block_txs db height = inl txs ->
  recent_blocks roots (map (block_txs db) (heights (u64 (height - RelayInterval + 1)) height)) (mkRecent ∅ [])
  = recent_state db roots height txs.
Proof.
  intros Hb. unfold recent_state. f_equal. apply map_ext. intros i. by destruct (Z.eqb_spec i height) as [->|].
Qed.
End recent.

(** The proofs of recent transactions verify by luck: the miner hashes the accounts in the order in which Go iterates over a map, the API in the order of their first transactions. At a relay height, for distinct leaves and without collisions, GetRecentTxMerkleInfo answers for every account of the interval, and its proof leads from the leaf of the account to the root of getRecentTxHashStem exactly when the iteration visited the accounts in the order of their indices. *)
Theorem recent_proof_needs_map_order `{MerkleLaws} `{StemEnv} `{StoreCodec} (db : Db) (roots : Roots) (height : Z) (txs : list Transaction) (st : RecentTxs)
    (order : gmap Address nat -> list Address) (r : Hash) :
  0 <= height < 2 ^ 63 -> height mod RelayInterval = 0 -> block_txs db height = inl txs ->
  recent_state db roots height txs = Some (inl st) ->
  order (rt_index st) ≡ₚ (map_to_list (rt_index st)).*1 ->
  (forall a b h, recent_leaf st a = Some h -> recent_leaf st b = Some h -> a = b) ->
  getRecentTxHashStem db roots height txs order = Some (inl r) ->
  exists by_index, by_index ≡ₚ order (rt_index st) /\
    forall a i, rt_index st !! a = Some i -> by_index !! i = Some a /\
      exists leaf proofs, recent_leaf st a = Some leaf /\
        GetRecentTxMerkleInfo db roots height a = Some (inl (Z.of_nat i, BytesToHex (concat proofs))) /\
        (root_above leaf i proofs = r <-> order (rt_index st) = by_index).
Proof.
  intros Hh Hmod Hb Hst Hperm Hinj Hr. destruct (recent_blocks_ok _ _ _ _ _ recent_start Hst) as [by_index Ho].
  assert (Hp : by_index ≡ₚ order (rt_index st)) by (rewrite Hperm; by apply recent_ok_perm).
  exists by_index. split; [done|]. intros a i Ha. split; [by apply (ro_index _ _ Ho)|].
  unfold getRecentTxHashStem in Hr.
  rewrite (proj2 (Z.ltb_ge 0 _)) in Hr by (unfold RelayInterval in *; rewrite !i64_small by lia; rewrite Z.rem_mod_nonneg; lia).
  rewrite Hst in Hr. apply recent_root_level in Hr as (level & Hm & ->).
  assert (Hm0 : is_Some (mapM (recent_leaf st) by_index)).
  { apply mapM_is_Some. apply mk_is_Some in Hm. apply mapM_is_Some in Hm. by rewrite Hp. }
  destruct Hm0 as [level0 Hm0]. pose proof (recent_level_order _ _ _ Ho Hm0) as Hlv.
  pose proof (proj1 (ro_index _ _ Ho a i) Ha) as Hai. pose proof Hm0 as Hf. apply mapM_Some in Hf.
  destruct (Forall2_lookup_l _ _ _ _ _ Hf Hai) as (leaf & Hleaf & Hal).
  destruct (walk_verifies level0 i leaf Hleaf) as (proofs & Hw & Hroot). exists leaf, proofs. split; [done|]. split.
  - unfold GetRecentTxMerkleInfo. rewrite (api_recent_state _ _ _ _ Hb), Hst, Hlv, Ha, GetMerkleProof_walk, Hw. done.
  - rewrite Hroot. split.
    + intros E. symmetry. eapply leaves_inj; [exact Hinj|exact Hm0|].
      rewrite (root_inj level0 (leaves_hashes _ _ _ Hm0) level (leaves_hashes _ _ _ Hm)); [done| |done].
      apply length_mapM in Hm, Hm0. rewrite <-Hm, <-Hm0. by rewrite Hp.
    + intros E. rewrite E in Hm. by simplify_eq.
Qed.

(** ** Examples *)

Definition ex_account (n : Z) : Address := n :: repeat 0 19.

Definition ex_roots : Roots := (ex_account 101, ex_account 102, ex_account 103).

(** Transactions are named by their payload. *)
#[export] Instance ex_stem : StemEnv := {|
  rlp_uint i := [i];
  rlp_state a b n := 192 :: b :: n :: a;
  rlp_bytes b := 128 :: b;
  rlp_stem_tx from to amount nonce price limit := Some (amount :: nonce :: price :: limit :: from ++ to);
  rlp_txs l := Some (flat_map enc_field l);
  ExtractTxPayload p := match p with [z] => Some (mkPayload 0 (ex_leaf z) []) | _ => None end;
  uint_of b := match b with [i] => Some i | _ => None end
|}.

#[export] Instance ex_stem_laws : StemLaws.
Proof. split; [done|done|]. intros a b n a' b' n' E. cbn in E. injection E as E. by apply (inj encode). Qed.

Definition stem_tx (n from to : Z) : Transaction :=
  mkTx (ex_hash n) (mkTxData 0 (ex_account from) (ex_account to) 1 n 1 21000 0 [n]) [].

(** A body is stored as the names of its transactions. *)
Definition stem_codec : StoreCodec := {|
  enc_header := @enc_header ex_codec; dec_header b := Some (ex_header EmptyHash 1);
  enc_td := @enc_td ex_codec; dec_td := @dec_td ex_codec;
  enc_body x := None; dec_body b := Some (mkBody (map (fun n => stem_tx n n 101) b) []);
  enc_receipts := @enc_receipts ex_codec; dec_receipts := @dec_receipts ex_codec;
  enc_index := @enc_index ex_codec; dec_index := @dec_index ex_codec
|}.

(** A block with the reward and three transactions. *)
Definition stem_db : Db :=
  <[hashToHeaderKey (ex_hash 7) := []]> (<[hashToBodyKey (ex_hash 7) := [0; 1; 2; 3]]>
    (<[txHashToIndexKey (ex_hash 1) := 1 :: ex_hash 7]> ∅)).

Lemma tx_proof_is_off_by_one_witness :
  exists data, @GetTxMerkleInfo _ _ stem_codec stem_db (ex_hash 1) = Some (inl (0, data)) /\
    forall leaf proofs, length leaf = HashLength -> hashes proofs -> concat proofs = data ->
      root_above leaf 0 proofs <> GetBinaryMerkleRoot [ex_leaf 1; ex_leaf 2; ex_leaf 3].
Proof.
  apply (@tx_proof_is_off_by_one _ _ _ stem_codec stem_db (ex_hash 1) 1 (ex_hash 7)
    (mkBlock (ex_hash 7) (ex_header EmptyHash 1) (map (fun n => stem_tx n n 101) [0; 1; 2; 3]) [])
    [ex_leaf 1; ex_leaf 2; ex_leaf 3] (ex_leaf 1)).
  - vm_compute. reflexivity.
  - vm_compute. reflexivity.
  - vm_compute. reflexivity.
  - by repeat constructor.
  - apply (bool_decide_unpack _). vm_compute. exact I.
  - reflexivity.
  - lia.
  - cbn. lia.
Defined.

(** Two accounts of a genesis. *)
Definition stem_dbs : StemDbs := genesis_accounts [ex_account 1; ex_account 2] 0 (mkStemDbs ∅ ∅).

Lemma ex_account_address n : is_byte n -> is_address (ex_account n).
Proof. intros Hn. split; [done|]. constructor; [done|]. cbn. repeat (constructor; [unfold is_byte; lia|]). constructor. Qed.

Lemma stem_dbs_indexed : indexed stem_dbs 2.
Proof.
  apply (genesis_indexed [ex_account 1; ex_account 2] (mkStemDbs ∅ ∅) 0 empty_indexed).
  - apply (bool_decide_unpack _). vm_compute. exact I.
  - repeat (constructor; [split; [apply ex_account_address; unfold is_byte; lia|reflexivity]|]). constructor.
  - done.
Qed.

Lemma stem_tx_addresses n from to : is_byte from -> is_byte to -> tx_addresses (stem_tx n from to).
Proof. intros. split; by apply ex_account_address. Qed.

Definition stem_txs_ex : list Transaction := [stem_tx 0 0 101; stem_tx 5 3 101; stem_tx 6 4 1].

Lemma stem_txs_ex_addresses : Forall tx_addresses stem_txs_ex.
Proof. repeat (constructor; [apply stem_tx_addresses; unfold is_byte; lia|]). constructor. Qed.

Lemma stem_hashes_number_the_accounts_witness :
  exists dbs' n' res s', getStemHashes ex_roots stem_txs_ex (stem_dbs, 2) empty_state = Some ((dbs', n'), res, s', []) /\ indexed dbs' n'.
Proof.
  destruct (stem_hashes_number_the_accounts ex_roots stem_txs_ex stem_dbs 2 empty_state) as (dbs' & n' & res & s' & E & Hi & _).
  - apply empty_state_ok.
  - exact stem_dbs_indexed.
  - exact stem_txs_ex_addresses.
  - reflexivity.
  - exists dbs', n', res, s'. split; [exact E|exact Hi].
Defined.

(** The run of the miner: two new accounts. *)
Definition stem_run := getStemHashes ex_roots stem_txs_ex (stem_dbs, 2) empty_state.

Definition stem_run_dbs : StemDbs := match stem_run with Some (dbs, _, _, _, _) => dbs | None => stem_dbs end.

Lemma stem_run_result : exists roots s o, stem_run = Some ((stem_run_dbs, 4), inl roots, s, o).
Proof.
  assert (Hb : match stem_run with Some (_, n, inl _, _, _) => n =? 4 | _ => false end = true) by (vm_compute; reflexivity).
  unfold stem_run_dbs. destruct stem_run as [[[[[dbs n] [r|]] s] o]|]; try discriminate. apply Z.eqb_eq in Hb. subst n.
  exists r, s, o. reflexivity.
Qed.

Lemma balance_proof_never_verifies_witness : exists stateHashStem nonce balance proofs s3,
  GetBalanceMerkleInfo stem_run_dbs 4 (ex_account 3) example_statedb
    = Some (inl (Some (nonce, balance, 2, BytesToHex (concat proofs))), s3, []) /\
  forall leaf, length leaf = HashLength -> root_above leaf 2 proofs <> stateHashStem.
Proof.
  destruct stem_run_result as ([t r] & s & o & E). exists r.
  apply (balance_proof_never_verifies ex_roots stem_txs_ex (stem_dbs, 2) stem_run_dbs 4 empty_state s example_statedb t r (ex_account 3) 2 o).
  - apply empty_state_ok.
  - exact stem_dbs_indexed.
  - exact stem_txs_ex_addresses.
  - reflexivity.
  - exact E.
  - lia.
  - vm_compute. reflexivity.
  - lia.
Defined.

(** A proposal with account 3 is discarded, a block with account 4 comes. *)
Definition discarded_run := getStemHashes ex_roots [stem_tx 0 0 101; stem_tx 5 3 101] (stem_dbs, 2) empty_state.

Definition discarded_dbs : StemDbs := match discarded_run with Some (dbs, _, _, _, _) => dbs | None => stem_dbs end.

Lemma discarded_result : exists n roots s o, discarded_run = Some ((discarded_dbs, n), inl roots, s, o).
Proof.
  assert (Hb : match discarded_run with Some (_, _, inl _, _, _) => true | _ => false end = true) by (vm_compute; reflexivity).
  unfold discarded_dbs. destruct discarded_run as [[[[[dbs n] [r|]] s] o]|]; try discriminate.
  exists n, r, s, o. reflexivity.
Qed.

Lemma ex_from_new n a : is_byte a -> is_root ex_roots (ex_account a) = false -> accountIndexDB stem_dbs !! ex_account a = None ->
  from_new ex_roots stem_dbs (stem_tx n a 101).
Proof. intros. split; [by apply ex_account_address|]. split; [done|]. split; [done|]. by left. Qed.

Lemma discarded_proposal_loses_account_witness :
  let dbs2 := (verifyStemStructureAndUpdateDatabase ex_roots [stem_tx 6 4 101] (discarded_dbs, 2)).1 in
  accountIndexDB dbs2 !! td_From (tx_Data (stem_tx 5 3 101)) = Some (rlp_uint 2) /\
  accountIndexDB dbs2 !! td_From (tx_Data (stem_tx 6 4 101)) = Some (rlp_uint 2) /\
  forall dbs3, rtc (block_step ex_roots) dbs2 dbs3 -> forall i, indexAccountDB dbs3 !! i <> Some (td_From (tx_Data (stem_tx 5 3 101))).
Proof.
  intros dbs2. destruct discarded_result as (n1 & r & s & o & E).
  apply (discarded_proposal_loses_account ex_roots stem_dbs 2 empty_state s (stem_tx 0 0 101) (stem_tx 5 3 101) (stem_tx 6 4 101)
    discarded_dbs n1 r o dbs2).
  - exact stem_dbs_indexed.
  - reflexivity.
  - apply ex_from_new; [unfold is_byte; lia|reflexivity|vm_compute; reflexivity].
  - apply ex_from_new; [unfold is_byte; lia|reflexivity|vm_compute; reflexivity].
  - discriminate.
  - exact E.
  - reflexivity.
Defined.

(** Twenty blocks, all with the transactions 1 and 2. *)
Definition recent_db : Db :=
  foldl (fun (db : Db) h => <[heightToHashKey h := ex_hash 7]> db)
    (<[hashToHeaderKey (ex_hash 7) := []]> (<[hashToBodyKey (ex_hash 7) := [0; 1; 2]]> ∅)) (heights 1 20).

Definition recent_txs_ex : list Transaction := map (fun n => stem_tx n n 101) [0; 1; 2].

Definition recent_st : RecentTxs :=
  match @recent_state _ stem_codec recent_db ex_roots 20 recent_txs_ex with Some (inl st) => st | _ => mkRecent ∅ [] end.

Lemma recent_st_index : rt_index recent_st = <[ex_account 2 := 1%nat]> (<[ex_account 1 := 0%nat]> ∅).
Proof. vm_compute. reflexivity. Qed.

Definition by_index_reversed (m : gmap Address nat) : list Address := [ex_account 2; ex_account 1].

Lemma recent_st_account a i : rt_index recent_st !! a = Some i -> a = ex_account 1 \/ a = ex_account 2.
Proof.
  rewrite recent_st_index. intros Hi. apply lookup_insert_Some in Hi as [[<- _]|[_ Hi]]; [by right|].
  apply lookup_insert_Some in Hi as [[<- _]|[_ Hi]]; [by left|]. by apply lookup_empty_Some in Hi.
Qed.

Lemma recent_st_keys : by_index_reversed (rt_index recent_st) ≡ₚ (map_to_list (rt_index recent_st)).*1.
Proof.
  apply NoDup_Permutation; [apply (bool_decide_unpack _); vm_compute; exact I|apply NoDup_fst_map_to_list|].
  intros a. rewrite recent_st_index, list_elem_of_fmap. unfold by_index_reversed. split.
  - intros [->|[->|[]%not_elem_of_nil]%elem_of_cons]%elem_of_cons.
    + exists (ex_account 2, 1%nat). split; [done|]. apply elem_of_map_to_list. vm_compute. reflexivity.
    + exists (ex_account 1, 0%nat). split; [done|]. apply elem_of_map_to_list. vm_compute. reflexivity.
  - intros ([b i] & -> & Hb%elem_of_map_to_list). rewrite <-recent_st_index in Hb.
    apply recent_st_account in Hb as [->| ->]; [right; left|left].
Qed.

Lemma recent_st_leaf a h : recent_leaf recent_st a = Some h -> a = ex_account 1 \/ a = ex_account 2.
Proof.
  unfold recent_leaf. destruct (rt_index recent_st !! a) as [i|] eqn:Hi; [|discriminate]. intros _. by eapply recent_st_account.
Qed.

Lemma recent_st_distinct : recent_leaf recent_st (ex_account 1) <> recent_leaf recent_st (ex_account 2).
Proof. vm_compute. discriminate. Qed.

Lemma recent_st_leaves a b h : recent_leaf recent_st a = Some h -> recent_leaf recent_st b = Some h -> a = b.
Proof.
  intros Ha Hb. pose proof recent_st_distinct as Hne. destruct (recent_st_leaf a h Ha) as [->| ->], (recent_st_leaf b h Hb) as [->| ->];
    [reflexivity| | |reflexivity]; exfalso; apply Hne; congruence.
Qed.

Lemma recent_proof_needs_map_order_witness : exists r by_index,
  @getRecentTxHashStem _ _ stem_codec recent_db ex_roots 20 recent_txs_ex by_index_reversed = Some (inl r) /\
  forall a i, rt_index recent_st !! a = Some i -> by_index !! i = Some a /\
    exists leaf proofs, recent_leaf recent_st a = Some leaf /\
      @GetRecentTxMerkleInfo _ _ stem_codec recent_db ex_roots 20 a = Some (inl (Z.of_nat i, BytesToHex (concat proofs))) /\
      (root_above leaf i proofs = r <-> by_index_reversed (rt_index recent_st) = by_index).
Proof.
  assert (Hr : exists r, @getRecentTxHashStem _ _ stem_codec recent_db ex_roots 20 recent_txs_ex by_index_reversed = Some (inl r))
    by (eexists; vm_compute; reflexivity).
  destruct Hr as [r Hr]. exists r.
  destruct (@recent_proof_needs_map_order _ _ _ stem_codec recent_db ex_roots 20 recent_txs_ex recent_st by_index_reversed r)
    as (by_index & _ & Hall).
  - lia.
  - reflexivity.
  - vm_compute. reflexivity.
  - vm_compute. reflexivity.
  - exact recent_st_keys.
  - exact recent_st_leaves.
  - exact Hr.
  - exists by_index. split; [exact Hr|exact Hall].
Defined.
