(* ===== verification/BlockTypes.v ===== *)
(** * Transactions, debts and blocks

    Models the checks of [core/types/transaction.go] that need no state, with the cache
    of verified signatures, the debts of [core/types/debt.go], the roots of the lists
    of a block and [core/types/block.go], the kinds of [core/types/verifier.go], the
    reward of [consensus/reward.go] and of [core/txs/tx_reward.go]. The roots are those of
    the tries of [Trie]; encodings, hashes and signatures are parameters. *)

From Stdlib Require Import ZArith Lia.
From S2P Require Import Prelude Common BftHeader StateDb Svm Trie ChainStore.

Open Scope Z_scope.
Open Scope go_scope.

(** ** Parameters *)

(** [crypto.MustHash] and [common.SerializePanic] of the data, [Signature.Verify], the
    hashes of the two strings for empty roots, and the shard of the node. *)
Class BlockEnv := {
  tx_data_hash : TransactionData -> Hash;
  tx_bytes : Transaction -> bytes;
  Signature_Verify : bytes -> Address -> Hash -> bool;
  debt_data_hash : DebtData -> Hash;
  debt_bytes : Debt -> bytes;
  receipt_bytes : Receipt -> bytes;
  emptyTxRootHash : Hash;
  emptyReceiptRootHash : Hash;
  LocalShardNumber : Z
}.

Inductive TxError : Type :=
| ErrAmountNegative
| ErrPriceNegative
| ErrPayloadOversized
| ErrTxIntrinsicGas
| ErrPayloadEmpty
| ErrInvalidShard (shard : Z)
| ErrSigMissing
| ErrHashMismatch
| ErrSigInvalid
| ErrTxState (err : SvmError).

Inductive DebtError : Type :=
| errWrongShardNumber
| errInvalidAccount (have expected : Z)
| errInvalidHash
| errInvalidFee
| ErrMsgVerifierFailed.

Inductive RewardError : Type :=
| errRewardNegative
| errEmptyToAddress
| errCoinbaseMismatch
| errTimestampMismatch
| errInvalidReward
| errRewardAmount (want got : Z)
| errRewardHash.

Inductive BlockError : Type :=
| ErrBlockHashMismatch
| ErrBlockTxsHashMismatch
| ErrBlockTxDebtHashMismatch
| ErrBlockDebtHashMismatch.

(** ** Transactions *)

Definition TransactionPreSize : Z := 177.
Definition MaxPayloadSize : Z := 32 * 1024.
Definition AddressTypeExternal : Z := 1.
Definition UndefinedShardNumber : Z := 0.

Definition tx_Size (tx : Transaction) : Z := TransactionPreSize + Z.of_nat (length (td_Payload (tx_Data tx))).

Fixpoint GetTransactionsSize (txs : list Transaction) : Z :=
  match txs with [] => 0 | tx :: txs' => tx_Size tx + GetTransactionsSize txs' end.

Definition TxTypeRegular : Z := 0.
Definition TxTypeReward : Z := 1.

Definition IsVerifierTx (tx : Transaction) (rootAccounts : Address * Address * Address) : bool :=
  (td_Type (tx_Data tx) =? 1) && bytes_eqb (td_From (tx_Data tx)) rootAccounts.1.1.

Definition IsExitTx (tx : Transaction) (rootAccounts : Address * Address * Address) : bool :=
  (td_Type (tx_Data tx) =? 0) && bytes_eqb (td_From (tx_Data tx)) rootAccounts.1.2.

Definition IsChallengedTx (tx : Transaction) (rootAccounts : Address * Address * Address) : bool :=
  (td_Type (tx_Data tx) =? 0) && bytes_eqb (td_From (tx_Data tx)) rootAccounts.2.

Section types.
Context `{BlockEnv} `{TrieEnv} `{HeaderCodec}.

Definition IsShardEnabled : bool := (UndefinedShardNumber <? LocalShardNumber) && (LocalShardNumber <=? ShardCount).

Definition CalculateHash (tx : Transaction) : Hash := tx_data_hash (tx_Data tx).

(** The check of the signature itself. *)
Definition check_signature (tx : Transaction) : option TxError :=
  if Signature_Verify (tx_Signature tx) (td_From (tx_Data tx)) (tx_Hash tx) then None else Some ErrSigInvalid.

(** [ValidateWithoutState] up to the signature; the amount and the price are not nil. *)
Definition validate_fields (tx : Transaction) (shardNeeded : bool) : option TxError :=
  let d := tx_Data tx in
  if td_Amount d <? 0 then Some ErrAmountNegative
  else if td_GasPrice d <=? 0 then Some ErrPriceNegative
  else if MaxPayloadSize <? Z.of_nat (length (td_Payload d)) then Some ErrPayloadOversized
  else if td_GasLimit d <? IntrinsicGas tx then Some ErrTxIntrinsicGas
  else if (Address_IsEmpty (td_To d) || negb (Address_Type (td_To d) =? AddressTypeExternal))
          && (length (td_Payload d) =? 0)%nat then Some ErrPayloadEmpty
  else if shardNeeded && IsShardEnabled && negb (Address_Shard (td_From d) =? LocalShardNumber)
  then Some (ErrInvalidShard (Address_Shard (td_From d)))
  else None.

(** ** The cache of signatures *)

Section sigcache.
Context `{LruCache}.

(** From the hash and the signature to the error. *)
Abbreviation SigCache := (lru bytes (option TxError)).

Definition verifySignature (tx : Transaction) : GoM SigCache Empty_set (option TxError) :=
  if (length (tx_Signature tx) =? 0)%nat then go_ret (Some ErrSigMissing)
  else if negb (bytes_eqb (CalculateHash tx) (tx_Hash tx)) then go_ret (Some ErrHashMismatch)
  else
    let key := tx_Hash tx ++ tx_Signature tx in
    cache <- go_get ;;
    let '(v, cache') := lru_Get cache key in
    go_modify (fun _ => cache') ;;;
    match v with
    | Some err => go_ret err
    | None =>
        let err := check_signature tx in
        go_modify (fun cache => lru_Add cache key err) ;;;
        go_ret err
    end.

Definition ValidateWithoutState (tx : Transaction) (signNeeded shardNeeded : bool) : GoM SigCache Empty_set (option TxError) :=
  match validate_fields tx shardNeeded with
  | Some err => go_ret (Some err)
  | None => if signNeeded then verifySignature tx else go_ret None
  end.
End sigcache.

(** The same without the cache: what [ValidateWithoutState] returns. *)
Definition signature_error (tx : Transaction) : option TxError :=
  if (length (tx_Signature tx) =? 0)%nat then Some ErrSigMissing
  else if negb (bytes_eqb (CalculateHash tx) (tx_Hash tx)) then Some ErrHashMismatch
  else check_signature tx.

Definition tx_error (tx : Transaction) : option TxError :=
  match validate_fields tx true with
  | Some err => Some err
  | None => signature_error tx
  end.

(** ** Debts *)

Definition DebtSize : Z := 118.

Definition debt_Size (d : Debt) : Z := DebtSize + Z.of_nat (length (dd_Code (d_Data d))).

Fixpoint GetDebtsSize (debts : list Debt) : Z :=
  match debts with [] => 0 | d :: debts' => debt_Size d + GetDebtsSize debts' end.

Definition Fee (d : Debt) : Z := dd_Price (d_Data d) * DebtGas.

(** The verifier is an interface: whether the debt is packed, whether it is confirmed,
    and whether there was an error. *)
Definition DebtVerifier : Type := Debt -> bool * bool * bool.

(** Whether the error is recoverable, and the error. *)
Definition debt_Validate (verifier : option DebtVerifier) (isPool : bool) (targetShard : Z) (d : Debt) : bool * option DebtError :=
  let data := d_Data d in
  if Address_Shard (dd_From data) =? targetShard then (false, Some errWrongShardNumber)
  else
    let toShard := Address_Shard (dd_Account data) in
    if negb (targetShard =? UndefinedShardNumber) && negb (toShard =? targetShard)
    then (false, Some (errInvalidAccount toShard targetShard))
    else if negb (bytes_eqb (d_Hash d) (debt_data_hash data)) then (false, Some errInvalidHash)
    else if dd_Price data <=? 0 then (false, Some errInvalidFee)
    else
      match verifier with
      | None => (false, None)
      | Some verify =>
          let '(packed, confirmed, err) := verify d in
          (packed, if confirmed then None
                   else if err || negb confirmed
                   then if (isPool && negb packed) || negb isPool then Some ErrMsgVerifierFailed else None
                   else None)
      end.

Definition newDebt (tx : Transaction) (withContext : bool) : option Debt :=
  let d := tx_Data tx in
  if Address_IsEmpty (td_To d) || Address_IsReserved (td_To d) then None
  else if bytes_eqb (td_From d) EmptyAddress then None
  else
    let toShard := Address_Shard (td_To d) in
    if withContext && (toShard =? LocalShardNumber) then None
    else
      let fromShard := Address_Shard (td_From d) in
      if negb withContext && (fromShard =? toShard) then None
      else
        let data := mkDebtData (tx_Hash tx) (td_From d) (td_AccountNonce d) (td_To d) (td_Amount d) (td_GasPrice d)
                      (if Address_IsEVMContract (td_To d) then td_Payload d else []) in
        Some (mkDebt (debt_data_hash data) data).

Definition NewDebtWithContext (tx : Transaction) : option Debt := newDebt tx true.

Fixpoint NewDebts (txs : list Transaction) : list Debt :=
  match txs with
  | [] => []
  | tx :: txs' => match NewDebtWithContext tx with Some d => d :: NewDebts txs' | None => NewDebts txs' end
  end.

(** ** Roots *)

(** The error of [Put] is dropped; the trie is in memory. *)
Definition put_entry (t : Trie) (kv : bytes * bytes) : option Trie :=
  match Trie_Put t kv.1 kv.2 with Some (t', _) => Some t' | None => None end.

Fixpoint put_entries (t : Trie) (l : list (bytes * bytes)) : option Trie :=
  match l with
  | [] => Some t
  | kv :: l' => match put_entry t kv with Some t' => put_entries t' l' | None => None end
  end.

Definition memory_trie : Trie := NewEmptyTrie [] (fun _ => None).

(** [None] is a panic. *)
Definition root_of (l : list (bytes * bytes)) : option Hash := option_map (fun t => (Trie_Hash t).2) (put_entries memory_trie l).

Definition GetTxTrie (txs : list Transaction) : list (bytes * bytes) :=
  map (fun tx => (if negb (bytes_eqb (tx_Hash tx) EmptyHash) then tx_Hash tx else CalculateHash tx, tx_bytes tx)) txs.

Definition MerkleRootHash (txs : list Transaction) : option Hash :=
  if (length txs =? 0)%nat then Some emptyTxRootHash else root_of (GetTxTrie txs).

Definition DebtMerkleRootHash (debts : list Debt) : option Hash :=
  root_of (map (fun d => (d_Hash d, debt_bytes d)) debts).

Definition ReceiptMerkleRootHash (receipts : list Receipt) : option Hash :=
  if (length receipts =? 0)%nat then Some emptyReceiptRootHash
  else root_of (map (fun r => (r_TxHash r, receipt_bytes r)) receipts).

(** ** Blocks *)

Definition set_roots (h : BlockHeader) (txs receipts debts txDebts : Hash) : BlockHeader :=
  mkHeader (h_PreviousBlockHash h) (h_Creator h) (h_StateHash h) txs receipts txDebts debts (h_Difficulty h) (h_Height h)
    (h_CreateTimestamp h) (h_Witness h) (h_SecondWitness h) (h_Consensus h) (h_ExtraData h).

Definition NewBlock (header : BlockHeader) (txs : list Transaction) (receipts : list Receipt) (debts : list Debt) : option Block :=
  match MerkleRootHash txs, ReceiptMerkleRootHash receipts, DebtMerkleRootHash debts, DebtMerkleRootHash (NewDebts txs) with
  | Some t, Some r, Some d, Some td =>
      let header := set_roots (Clone header) t r d td in
      Some (mkBlock (header_Hash header) header txs debts)
  | _, _, _, _ => None
  end.

(** [None] is a panic. *)
Definition block_Validate (block : Block) : option (option BlockError) :=
  let h := b_Header block in
  if negb (bytes_eqb (b_HeaderHash block) (header_Hash h)) then Some (Some ErrBlockHashMismatch)
  else
    match MerkleRootHash (b_Transactions block) with
    | None => None
    | Some root =>
        if negb (bytes_eqb root (h_TxHash h)) then Some (Some ErrBlockTxsHashMismatch)
        else
          match DebtMerkleRootHash (NewDebts (b_Transactions block)) with
          | None => None
          | Some root =>
              if negb (bytes_eqb root (h_TxDebtHash h)) then Some (Some ErrBlockTxDebtHashMismatch)
              else
                match DebtMerkleRootHash (b_Debts block) with
                | None => None
                | Some root => Some (if negb (bytes_eqb root (h_DebtHash h)) then Some ErrBlockDebtHashMismatch else None)
                end
          end
    end.

(** ** Rewards *)

Definition blockNumberPerEra : Z := 3150000.
Definition SeeleToFan : Z := 100000000.
Definition rewardTable : list Z := [24; 16; 12; 10; 8; 8; 6; 6].

(** The amounts are whole numbers for one shard. *)
Definition convertSeeleToFan (seele : Z) : Z := seele * SeeleToFan.

Definition GetReward (blockHeight : Z) : Z :=
  let era := blockHeight / blockNumberPerEra in
  if era <? Z.of_nat (length rewardTable) then convertSeeleToFan (nth (Z.to_nat era) rewardTable 0)
  else if era =? Z.of_nat (length rewardTable) then convertSeeleToFan 6
  else 0.

Definition validateReward (reward : Z) : option RewardError := if reward <? 0 then Some errRewardNegative else None.

Definition NewRewardTx (coinbase : Address) (reward timestamp : Z) : Transaction + RewardError :=
  match validateReward reward with
  | Some err => inr err
  | None =>
      let txData := mkTxData TxTypeReward EmptyAddress coinbase reward 0 0 0 timestamp [] in
      inl (mkTx (tx_data_hash txData) txData [])
  end.

(** [None] is a panic: a header without a time. *)
Definition ValidateRewardTx (tx : Transaction) (header : BlockHeader) : option (option RewardError) :=
  let d := tx_Data tx in
  if negb (td_Type d =? TxTypeReward) || negb (Address_IsEmpty (td_From d)) || negb (td_AccountNonce d =? 0)
     || negb (td_GasPrice d =? 0) || negb (td_GasLimit d =? 0) || negb (length (td_Payload d) =? 0)%nat
  then Some (Some errInvalidReward)
  else if Address_IsEmpty (td_To d) then Some (Some errEmptyToAddress)
  else if negb (Address_Equal (td_To d) (h_Creator header)) then Some (Some errCoinbaseMismatch)
  else
    match validateReward (td_Amount d) with
    | Some err => Some (Some err)
    | None =>
        let want := if h_Consensus header =? BftConsensus then 0 else GetReward (h_Height header) in
        if negb (want =? td_Amount d) then Some (Some (errRewardAmount want (td_Amount d)))
        else
          match h_CreateTimestamp header with
          | None => None
          | Some time => Some (if negb (td_Timestamp d =? u64 time) then Some errTimestampMismatch else None)
          end
    end.

Section state.
Context {T : Type} `{TrieOps T}.

Abbreviation StM A := (GoM (Statedb T) Empty_set A).

Definition ApplyRewardTx (tx : Transaction) : StM (Receipt + RewardError) :=
  CreateAccount (td_To (tx_Data tx)) ;;;
  AddBalance (td_To (tx_Data tx)) (td_Amount (tx_Data tx)) ;;;
  hash <- state_Hash ;;
  go_ret (match hash with
          | inr _ => inr errRewardHash
          | inl hash => inl (set_postState (new_receipt tx) hash)
          end).
End state.
End types.
