(* ===== verification/BlockApply.v ===== *)
(** * Processing and writing a block

    Models [validateBlock], [ValidateBlockHeader], [applyTxs], [applyRewardAndRegularTxs],
    [ApplyTransaction], [ApplyDebtWithoutVerify] and [doWriteBlock] of
    [core/blockchain.go]: what a node does with a block, from the checks to the write. The
    parts that it calls are those of the other files; the consensus engine is an
    interface, the account database a parameter. *)

From Stdlib Require Import ZArith Lia.
From S2P Require Import Prelude Common BftHeader StateDb Svm Trie ChainStore ChainCanon BlockLeaves PoolQueue Pool Merkle Stem BlockTypes.

Open Scope Z_scope.
Open Scope go_scope.

(** The interfaces to the account database, whose tries are opened and committed, to the
    consensus engine and to the verifier of debts; the decoded genesis information and
    second witness, and the clock. *)
Class NodeEnv (S A T : Type) `{TrieOps T} := {
  open_trie : A -> Hash -> T + trie_error;
  commit_trie : A -> T -> A;
  genesis_roots : bytes -> option Roots;
  second_witness_count : bytes -> option Z;
  now_Unix : Z;
  engine_VerifyHeader : ChainState S -> BlockHeader -> bool;
  debtVerifier : option DebtVerifier
}.

Inductive ApplyError : Type :=
| errOpenState
| errBatchDebt (err : DebtError)
| errDebtPacked
| errDebtAmount
| errReward (err : RewardError)
| errBatchTx (err : TxError)
| errTxState (index : Z) (err : SvmError)
| errTxApply (index : Z) (err : SvmError).

Inductive WriteError : Type :=
| ErrBlockCreateTimeNull
| ErrBlockCreateTimeInFuture
| ErrBlockExtraDataNotEmpty
| errVerifyHeader
| errValidateBlock (err : BlockError)
| ErrBlockEmptyTxs
| ErrBlockTooManyTxs
| errBlockShard (shard : Z)
| errReadStore (err : StoreError)
| errApplyTxs (err : ApplyError)
| ErrBlockReceiptHashMismatch
| errCommitState
| ErrBlockStateHashMismatch
| errWriteStore (err : StoreError).

Definition futureBlockLimit : Z := 10.
Definition BlockByteLimit : Z := 1024 * 1024.
Definition HeightFloor : Z := 707989.
Definition HeightRoof : Z := 707996.

(** The loop of [BatchValidate] for one thread. *)
Fixpoint BatchValidate {X E} (handler : X -> option E) (l : list X) : option E :=
  match l with
  | [] => None
  | x :: l' => match handler x with Some err => Some err | None => BatchValidate handler l' end
  end.

#[export] Instance tx_object : PoolObject Transaction := {|
  GetHash := tx_Hash;
  FromAccount tx := td_From (tx_Data tx);
  Price tx := td_GasPrice (tx_Data tx);
  po_Nonce tx := td_AccountNonce (tx_Data tx);
  po_Size tx := tx_Size tx;
  ToAccount tx := td_To (tx_Data tx)
|}.

Section apply.
Context {S A T : Type} `{StoreCodec} `{BlockchainStore S} {HT : TrieOps T} `{@VmOps T HT} `{@NodeEnv S A T HT}.
Context `{BlockEnv} `{TrieEnv} `{HeaderCodec} `{MerkleEnv} `{StemEnv}.

Abbreviation StM X := (GoM (Statedb T) Empty_set X).

(** ** Transactions and debts *)

Definition ApplyTransaction (tx : Transaction) (txIndex : Z) (blockHeader : BlockHeader) : StM (option Receipt * option SvmError) :=
  Process (mkContext tx txIndex blockHeader) (h_Height blockHeader).

Definition ApplyDebtWithoutVerify (db : Db) (d : Debt) (coinbase : Address) : StM (option ApplyError) :=
  match GetDebtIndex db (d_Hash d) with
  | inl _ => go_ret (Some errDebtPacked)
  | inr _ =>
      exist <- Exist (dd_Account (d_Data d)) ;;
      (if exist then go_ret tt else CreateAccount (dd_Account (d_Data d))) ;;;
      if dd_Amount (d_Data d) <? 0 then go_ret (Some errDebtAmount)
      else if Fee d <? 0 then go_ret (Some errDebtAmount)
      else
        AddBalance (dd_Account (d_Data d)) (dd_Amount (d_Data d)) ;;;
        AddBalance coinbase (Fee d) ;;;
        go_ret None
  end.

Fixpoint apply_debts (db : Db) (debts : list Debt) (coinbase : Address) : StM (option ApplyError) :=
  match debts with
  | [] => go_ret None
  | d :: debts' =>
      err <- ApplyDebtWithoutVerify db d coinbase ;;
      match err with
      | Some err => go_ret (Some err)
      | None => apply_debts db debts' coinbase
      end
  end.

(** The loop over the regular transactions, from the index [txIdx] on. *)
Fixpoint process_txs (txs : list Transaction) (txIdx : Z) (blockHeader : BlockHeader) : StM (list Receipt + ApplyError) :=
  match txs with
  | [] => go_ret (inl [])
  | tx :: txs' =>
      err <- ValidateState tx (h_Height blockHeader) ;;
      match err with
      | Some err => go_ret (inr (errTxState txIdx err))
      | None =>
          r <- ApplyTransaction tx txIdx blockHeader ;;
          match r with
          | (_, Some err) => go_ret (inr (errTxApply txIdx err))
          | (receipt, None) =>
              receipt <- go_deref receipt ;;
              receipts <- process_txs txs' (txIdx + 1) blockHeader ;;
              go_ret (match receipts with inl receipts => inl (receipt :: receipts) | inr err => inr err end)
          end
      end
  end.

Definition applyRewardAndRegularTxs (rewardTx : Transaction) (regularTxs : list Transaction) (blockHeader : BlockHeader)
    : StM (list Receipt + ApplyError) :=
  err <- go_deref (ValidateRewardTx rewardTx blockHeader) ;;
  match err with
  | Some err => go_ret (inr (errReward err))
  | None =>
      rewardReceipt <- ApplyRewardTx rewardTx ;;
      match rewardReceipt with
      | inr err => go_ret (inr (errReward err))
      | inl rewardReceipt =>
          match BatchValidate tx_error regularTxs with
          | Some err => go_ret (inr (errBatchTx err))
          | None =>
              receipts <- process_txs regularTxs 1 blockHeader ;;
              go_ret (match receipts with inl receipts => inl (rewardReceipt :: receipts) | inr err => inr err end)
          end
      end
  end.

(** What [applyTxs] does to the state of the previous block; without transactions it
    panics. *)
Definition apply_block (db : Db) (block : Block) : StM (list Receipt + ApplyError) :=
  let header := b_Header block in
  let debtErr :=
    if (HeightRoof <? h_Height header) || (h_Height header <? HeightFloor)
    then BatchValidate (fun d => (debt_Validate debtVerifier false LocalShardNumber d).2) (b_Debts block)
    else None in
  match debtErr with
  | Some err => go_ret (inr (errBatchDebt err))
  | None =>
      err <- apply_debts db (b_Debts block) (h_Creator header) ;;
      match err with
      | Some err => go_ret (inr err)
      | None =>
          match b_Transactions block with
          | [] => go_panic
          | rewardTx :: regularTxs => applyRewardAndRegularTxs rewardTx regularTxs header
          end
      end
  end.

(** The new state and the receipts. *)
Definition applyTxs (db : Db) (accounts : A) (block : Block) (root : Hash) : option (Statedb T * list Receipt + ApplyError) :=
  match open_trie accounts root with
  | inr _ => Some (inr errOpenState)
  | inl trie =>
      match apply_block db block (NewStatedbWithTrie trie) with
      | None => None
      | Some (inr err, _, _) => Some (inr err)
      | Some (inl receipts, statedb, _) => Some (inl (statedb, receipts))
      end
  end.

(** [verifyStemStructureAndUpdateDatabase] up to its loop: the root accounts and the
    number of accounts of the previous block. An error is ignored; a second witness that
    is too short is a panic. *)
Definition getGenesisExtraVerifyInfo (genesisBlock : Block) : option Roots :=
  if negb (h_Height (b_Header genesisBlock) =? 0) then None else genesis_roots (h_Witness (b_Header genesisBlock)).

Definition ExtractSecondWitnessCount (h : BlockHeader) : option (option Z) :=
  if (length (h_ExtraData h) <? BftExtraVanity)%nat then Some None
  else if (length (h_SecondWitness h) <? BftExtraVanity)%nat then None
  else Some (second_witness_count (drop BftExtraVanity (h_SecondWitness h))).

Definition stem_info (db : Db) (prevHeader : BlockHeader) : option (option (Roots * Z)) :=
  match GetBlockByHeight db 0 with
  | inr _ => Some None
  | inl genesis =>
      match getGenesisExtraVerifyInfo genesis with
      | None => Some None
      | Some roots => option_map (option_map (fun accountCount => (roots, accountCount))) (ExtractSecondWitnessCount prevHeader)
      end
  end.

Definition update_stem (db : Db) (regularTxs : list Transaction) (blockHeader prevHeader : BlockHeader) (stem : StemDbs) : option StemDbs :=
  if h_Consensus blockHeader =? BftConsensus then
    match stem_info db prevHeader with
    | None => None
    | Some None => Some stem
    | Some (Some (roots, accountCount)) =>
        Some (verifyStemStructureAndUpdateDatabase roots regularTxs (stem, accountCount)).1
    end
  else Some stem.

(** ** A node *)

Record Blockchain := mkBlockchain {
  nd_chain : ChainState S;
  nd_accounts : A;
  nd_stem : StemDbs;
  nd_leaves : BlockLeaves;
  nd_current : Block;
  nd_cachedTxs : CachedTxs (Obj := Transaction)
}.

Definition set_chain (nd : Blockchain) (c : ChainState S) : Blockchain :=
  mkBlockchain c (nd_accounts nd) (nd_stem nd) (nd_leaves nd) (nd_current nd) (nd_cachedTxs nd).
Definition set_accounts (nd : Blockchain) (a : A) : Blockchain :=
  mkBlockchain (nd_chain nd) a (nd_stem nd) (nd_leaves nd) (nd_current nd) (nd_cachedTxs nd).
Definition set_stem (nd : Blockchain) (stem : StemDbs) : Blockchain :=
  mkBlockchain (nd_chain nd) (nd_accounts nd) stem (nd_leaves nd) (nd_current nd) (nd_cachedTxs nd).
Definition set_leaves (nd : Blockchain) (leaves : BlockLeaves) : Blockchain :=
  mkBlockchain (nd_chain nd) (nd_accounts nd) (nd_stem nd) leaves (nd_current nd) (nd_cachedTxs nd).
Definition set_current (nd : Blockchain) (block : Block) : Blockchain :=
  mkBlockchain (nd_chain nd) (nd_accounts nd) (nd_stem nd) (nd_leaves nd) block (nd_cachedTxs nd).
Definition set_cachedTxs (nd : Blockchain) (c : CachedTxs (Obj := Transaction)) : Blockchain :=
  mkBlockchain (nd_chain nd) (nd_accounts nd) (nd_stem nd) (nd_leaves nd) (nd_current nd) c.

(** What leaves the node: the disks, the fork that is purged in the background, the
    event of a new head. *)
Inductive NodeEffect : Type :=
| WroteDisk (disk : Disk)
| StartsPurge (hash : Hash)
| HeadChanged (block : Block).

Abbreviation NodeM X := (GoM Blockchain NodeEffect X).

Definition on_chain {X} (m : GoM (ChainState S) Disk X) : NodeM X := fun nd =>
  match m (nd_chain nd) with
  | Some (x, c, o) => Some (x, set_chain nd c, map WroteDisk o)
  | None => None
  end.

Definition read_chain {X} (m : GoM S Db X) : NodeM X := on_chain (on_store m).

(** ** Checks *)

Definition ValidateBlockHeader (header : BlockHeader) : NodeM (option WriteError) :=
  match h_CreateTimestamp header with
  | None => go_ret (Some ErrBlockCreateTimeNull)
  | Some time =>
      if now_Unix + futureBlockLimit <? time then go_ret (Some ErrBlockCreateTimeInFuture)
      else if negb (h_Consensus header =? IstanbulConsensus) && negb (h_Consensus header =? BftConsensus)
              && negb (length (h_ExtraData header) =? 0)%nat
      then go_ret (Some ErrBlockExtraDataNotEmpty)
      else
        nd <- go_get ;;
        go_ret (if engine_VerifyHeader (nd_chain nd) header then None else Some errVerifyHeader)
  end.

Definition validateBlock (block : Block) : NodeM (option WriteError) :=
  err <- ValidateBlockHeader (b_Header block) ;;
  match err with
  | Some err => go_ret (Some err)
  | None =>
      err <- go_deref (block_Validate block) ;;
      match err with
      | Some err => go_ret (Some (errValidateBlock err))
      | None =>
          match b_Transactions block with
          | [] => go_ret (Some ErrBlockEmptyTxs)
          | _ :: regularTxs =>
              if BlockByteLimit <? GetTransactionsSize regularTxs + GetDebtsSize (b_Debts block)
              then go_ret (Some ErrBlockTooManyTxs)
              else
                let shard := Address_Shard (h_Creator (b_Header block)) in
                if IsShardEnabled && negb (shard =? LocalShardNumber) then go_ret (Some (errBlockShard shard))
                else go_ret None
          end
      end
  end.

(** ** Writing a block *)

Definition cache_txs (selRand : gmap Hash Transaction -> Hash) (txs : list Transaction) (c : CachedTxs (Obj := Transaction))
    : CachedTxs (Obj := Transaction) :=
  foldl (fun c tx => if cached_has c (tx_Hash tx) then c else cached_add selRand c tx) c (tail txs).

(** The end of [doWriteBlock], once the checks have passed. *)
Definition write_block (block : Block) (statedb : Statedb T) (receipts : list Receipt) (currentTd : Z) : NodeM (option WriteError) :=
  let header := b_Header block in
  go_modify (fun nd => set_accounts nd (commit_trie (nd_accounts nd) (sd_trie statedb))) ;;;
  err <- on_chain (put_block block receipts currentTd) ;;
  match err with
  | Some err => go_ret (Some (errWriteStore err))
  | None =>
      nd <- go_get ;;
      leaves <- go_deref (leaves_Add (nd_leaves nd) (NewBlockIndex (b_HeaderHash block) (h_Height header) currentTd)) ;;
      leaves <- go_deref (leaves_Remove leaves (h_PreviousBlockHash header)) ;;
      purged <- go_deref (PurgeAsync leaves) ;;
      let '(leaves, fork) := purged in
      go_modify (fun nd => set_current (set_leaves nd leaves)
        (mkBlock (b_HeaderHash block) (Clone header) (b_Transactions block) (b_Debts block))) ;;;
      match fork with Some hash => go_emit (StartsPurge hash) | None => go_ret tt end ;;;
      go_emit (HeadChanged block) ;;;
      go_ret None
  end.

Definition doWriteBlock (selRand : gmap Hash Transaction -> Hash) (block : Block) : NodeM (option WriteError) :=
  let header := b_Header block in
  err <- validateBlock block ;;
  match err with
  | Some err => go_ret (Some err)
  | None =>
      preHeader <- read_chain (bs_GetBlockHeader (h_PreviousBlockHash header)) ;;
      match preHeader with
      | inr err => go_ret (Some (errReadStore err))
      | inl preHeader =>
          nd <- go_get ;;
          let db := store_db (ch_store (nd_chain nd)) in
          applied <- go_deref (applyTxs db (nd_accounts nd) block (h_StateHash preHeader)) ;;
          match applied with
          | inr err => go_ret (Some (errApplyTxs err))
          | inl (statedb, receipts) =>
              stem <- go_deref (update_stem db (tail (b_Transactions block)) header preHeader (nd_stem nd)) ;;
              go_modify (fun nd => set_stem nd stem) ;;;
              receiptsRootHash <- go_deref (ReceiptMerkleRootHash receipts) ;;
              if negb (bytes_eqb receiptsRootHash (h_ReceiptHash header)) then go_ret (Some ErrBlockReceiptHashMismatch)
              else
                committed <- go_deref (state_Commit statedb) ;;
                match committed with
                | (inr _, _, _) => go_ret (Some errCommitState)
                | (inl stateRootHash, statedb, _) =>
                    if negb (bytes_eqb stateRootHash (h_StateHash header)) then go_ret (Some ErrBlockStateHashMismatch)
                    else
                      go_modify (fun nd => set_cachedTxs nd (cache_txs selRand (b_Transactions block) (nd_cachedTxs nd))) ;;;
                      previousTd <- read_chain (bs_GetBlockTotalDifficulty (h_PreviousBlockHash header)) ;;
                      match previousTd with
                      | inr err => go_ret (Some (errReadStore err))
                      | inl previousTd =>
                          difficulty <- go_deref (h_Difficulty header) ;;
                          write_block block statedb receipts (previousTd + difficulty)
                      end
                end
          end
      end
  end.
End apply.
