(* ===== verification/MinerTask.v ===== *)
(** * Proposing a block

    Models [miner/task.go]: choosing debts and transactions from the pools, running them
    on the state of the parent, and putting the roots into the header; and
    [generateBlock]. The pools are behind an interface. The databases with the indices
    of the accounts, the state and the pools are the state of a run; what a run cannot
    do is end without fuel ([None]), which stands for a panic too. *)

From Stdlib Require Import ZArith Lia.
From S2P Require Import Prelude Common BftHeader StateDb Svm Trie ChainStore Merkle Stem BlockTypes BlockApply.

Open Scope Z_scope.
Open Scope go_scope.

Record Task := mkTask {
  tk_header : BlockHeader;
  tk_txs : list Transaction;
  tk_receipts : list Receipt;
  tk_debts : list Debt;
  tk_coinbase : Address;
  tk_accountCount : Z;
  tk_challengedTxs : list Transaction;
  tk_depositVers : list Address;
  tk_exitVers : list Address
}.

Definition NewTask (header : BlockHeader) (coinbase : Address) : Task := mkTask header [] [] [] coinbase 0 [] [] [].

Definition task_header (t : Task) (h : BlockHeader) : Task :=
  mkTask h (tk_txs t) (tk_receipts t) (tk_debts t) (tk_coinbase t) (tk_accountCount t) (tk_challengedTxs t) (tk_depositVers t) (tk_exitVers t).
Definition add_tx (t : Task) (tx : Transaction) (r : Receipt) : Task :=
  mkTask (tk_header t) (tk_txs t ++ [tx]) (tk_receipts t ++ [r]) (tk_debts t) (tk_coinbase t) (tk_accountCount t)
    (tk_challengedTxs t) (tk_depositVers t) (tk_exitVers t).
Definition add_debt (t : Task) (d : Debt) : Task :=
  mkTask (tk_header t) (tk_txs t) (tk_receipts t) (tk_debts t ++ [d]) (tk_coinbase t) (tk_accountCount t)
    (tk_challengedTxs t) (tk_depositVers t) (tk_exitVers t).
Definition add_challenged (t : Task) (tx : Transaction) : Task :=
  mkTask (tk_header t) (tk_txs t) (tk_receipts t) (tk_debts t) (tk_coinbase t) (tk_accountCount t)
    (tk_challengedTxs t ++ [tx]) (tk_depositVers t) (tk_exitVers t).
Definition add_verifiers (t : Task) (deposit exit : list Address) : Task :=
  mkTask (tk_header t) (tk_txs t) (tk_receipts t) (tk_debts t) (tk_coinbase t) (tk_accountCount t)
    (tk_challengedTxs t) (tk_depositVers t ++ deposit) (tk_exitVers t ++ exit).
Definition set_accountCount (t : Task) (n : Z) : Task :=
  mkTask (tk_header t) (tk_txs t) (tk_receipts t) (tk_debts t) (tk_coinbase t) n
    (tk_challengedTxs t) (tk_depositVers t) (tk_exitVers t).

Definition set_StateHash (h : BlockHeader) (root : Hash) : BlockHeader :=
  mkHeader (h_PreviousBlockHash h) (h_Creator h) root (h_TxHash h) (h_ReceiptHash h) (h_TxDebtHash h) (h_DebtHash h)
    (h_Difficulty h) (h_Height h) (h_CreateTimestamp h) (h_Witness h) (h_SecondWitness h) (h_Consensus h) (h_ExtraData h).
Definition set_SecondWitness (h : BlockHeader) (w : bytes) : BlockHeader :=
  mkHeader (h_PreviousBlockHash h) (h_Creator h) (h_StateHash h) (h_TxHash h) (h_ReceiptHash h) (h_TxDebtHash h) (h_DebtHash h)
    (h_Difficulty h) (h_Height h) (h_CreateTimestamp h) (h_Witness h) w (h_Consensus h) (h_ExtraData h).

(** The pools that a miner takes from: what is handed out is processed. *)
Class MinerPools (P : Type) := {
  GetProcessableTransactions : P -> Z -> list Transaction * Z * P;
  pool_RemoveTransaction : P -> Hash -> P;
  GetProcessableDebts : P -> Z -> list Debt * P;
  RemoveDebtByHash : P -> Hash -> P;
  (** How much there is to hand out. *)
  pool_left : P -> nat;
  GetTxs_left p size : (length (GetProcessableTransactions p size).1.1 + pool_left (GetProcessableTransactions p size).2 <= pool_left p)%nat;
  RemoveTx_left p h : (pool_left (pool_RemoveTransaction p h) <= pool_left p)%nat;
  GetDebts_left p size : (length (GetProcessableDebts p size).1 + pool_left (GetProcessableDebts p size).2 <= pool_left p)%nat;
  RemoveDebt_left p h : (pool_left (RemoveDebtByHash p h) <= pool_left p)%nat;
  (** The size of the transactions is counted and within the limit. *)
  GetTxs_size p size : 0 <= size ->
    GetTransactionsSize (GetProcessableTransactions p size).1.1 = (GetProcessableTransactions p size).1.2 /\
    (GetProcessableTransactions p size).1.2 <= size
}.

(** RLP of what the proposer signs, [MustSign] with its key, and of the second
    witness. *)
Class MinerEnv := {
  sign_block : Address -> Z -> Hash -> Hash -> option bytes;
  encode_second_witness : list Transaction -> list Address -> list Address -> Z -> Hash -> Hash -> Hash -> bytes -> option bytes;
  decode_account_count : bytes -> option Z;
  (** The order in which Go iterates over the map. *)
  map_order : gmap Address nat -> list Address
}.

Inductive TaskError : Type :=
| errTaskReward (err : RewardError)
| errTaskCommit
| errTaskWitness
| errTaskStem (err : StemError).

Section task.
Context {P T : Type} `{MinerPools P} {HT : TrieOps T} `{@VmOps T HT}.
Context `{StoreCodec} `{BlockEnv} `{TrieEnv} `{HeaderCodec} `{MerkleEnv} `{StemEnv} `{MinerEnv}.

Abbreviation StM X := (GoM (Statedb T) Empty_set X).

Record Mining := mkMining { mi_state : Statedb T; mi_pool : P; mi_stem : StemDbs }.

Abbreviation MiM X := (GoM Mining Empty_set X).

Definition on_state {X} (m : StM X) : MiM X := fun mi =>
  match m (mi_state mi) with
  | Some (x, s, o) => Some (x, mkMining s (mi_pool mi) (mi_stem mi), o)
  | None => None
  end.

Definition modify_pool (f : P -> P) : MiM unit := go_modify (fun mi => mkMining (mi_state mi) (f (mi_pool mi)) (mi_stem mi)).

(** [tx.Validate]. *)
Definition tx_Validate (tx : Transaction) (height : Z) : StM (option TxError) :=
  match tx_error tx with
  | Some err => go_ret (Some err)
  | None => err <- ValidateState tx height ;; go_ret (option_map ErrTxState err)
  end.

(** ** Debts *)

Fixpoint choose_debt_batch (db : Db) (debts : list Debt) (t : Task) (size : Z) : MiM (Task * Z) :=
  match debts with
  | [] => go_ret (t, size)
  | d :: debts' =>
      err <- on_state (ApplyDebtWithoutVerify db d (tk_coinbase t)) ;;
      match err with
      | Some _ => modify_pool (fun p => RemoveDebtByHash p (d_Hash d)) ;;; choose_debt_batch db debts' t size
      | None => choose_debt_batch db debts' (add_debt t d) (size - debt_Size d)
      end
  end.

Fixpoint chooseDebts (fuel : nat) (db : Db) (t : Task) (size : Z) : MiM (Task * Z) :=
  match fuel with
  | O => go_panic
  | S fuel' =>
      if size <=? 0 then go_ret (t, size)
      else
        mi <- go_get ;;
        let '(debts, p) := GetProcessableDebts (mi_pool mi) size in
        modify_pool (fun _ => p) ;;;
        if (length debts =? 0)%nat then go_ret (t, size)
        else
          r <- choose_debt_batch db debts t size ;;
          chooseDebts fuel' db r.1 r.2
  end.

(** ** The reward *)

Definition handleMinerRewardTx (t : Task) : MiM (Task + RewardError) :=
  let header := tk_header t in
  let reward := if h_Consensus header =? BftConsensus then 0 else GetReward (h_Height header) in
  time <- go_deref (h_CreateTimestamp header) ;;
  match NewRewardTx (tk_coinbase t) reward (u64 time) with
  | inr err => go_ret (inr err)
  | inl rewardTx =>
      receipt <- on_state (ApplyRewardTx rewardTx) ;;
      go_ret (match receipt with inr err => inr err | inl receipt => inl (add_tx t rewardTx receipt) end)
  end.

(** ** Transactions *)

(** The task, the size of what was taken, and whether a challenge ended the search. *)
Fixpoint choose_batch (roots : Roots) (txs : list Transaction) (t : Task) (txIndex txsSize : Z) : MiM (Task * Z * Z * bool) :=
  match txs with
  | [] => go_ret (t, txIndex, txsSize, false)
  | tx :: txs' =>
      let header := tk_header t in
      let refuse := modify_pool (fun p => pool_RemoveTransaction p (tx_Hash tx)) ;;; choose_batch roots txs' t txIndex (txsSize - tx_Size tx) in
      err <- on_state (tx_Validate tx (h_Height header)) ;;
      match err with
      | Some _ => refuse
      | None =>
          r <- on_state (ApplyTransaction tx txIndex header) ;;
          match r with
          | (_, Some _) => refuse
          | (receipt, None) =>
              if (h_Consensus header =? BftConsensus) && IsChallengedTx tx roots
              then go_ret (add_challenged t tx, txIndex, txsSize, true)
              else
                receipt <- go_deref receipt ;;
                let t :=
                  if h_Consensus header =? BftConsensus then
                    add_verifiers t (if IsVerifierTx tx roots then [td_To (tx_Data tx)] else [])
                      (if IsExitTx tx roots then [td_To (tx_Data tx)] else [])
                  else t in
                choose_batch roots txs' (add_tx t tx receipt) (txIndex + 1) txsSize
          end
      end
  end.

Fixpoint chooseTransactions (fuel : nat) (roots : Roots) (t : Task) (txIndex size : Z) : MiM Task :=
  match fuel with
  | O => go_panic
  | S fuel' =>
      if size <=? 0 then go_ret t
      else
        mi <- go_get ;;
        let '(txs, txsSize, p) := GetProcessableTransactions (mi_pool mi) size in
        modify_pool (fun _ => p) ;;;
        if (length txs =? 0)%nat then go_ret t
        else
          r <- choose_batch roots txs t txIndex txsSize ;;
          let '(t, txIndex, txsSize, challenged) := r in
          if challenged then go_ret t else chooseTransactions fuel' roots t txIndex (size - txsSize)
  end.

(** ** The second witness *)

(** [ExtractSecondWitnessInfo]: the number of accounts; the outer [None] is a panic. *)
Definition parent_count (h : BlockHeader) : option (option Z) :=
  if (length (h_ExtraData h) <? BftExtraVanity)%nat then Some None
  else if (length (h_SecondWitness h) <? BftExtraVanity)%nat then None
  else Some (decode_account_count (drop BftExtraVanity (h_SecondWitness h))).

(** On an error of the encoding the witness is [nil]. *)
Definition PrepareSecondWitness (t : Task) (txHashStem stateHashStem recentTxHashStem : Hash) (blockSig : bytes) : bytes :=
  match encode_second_witness (tk_challengedTxs t) (tk_depositVers t) (tk_exitVers t) (tk_accountCount t)
          txHashStem stateHashStem recentTxHashStem blockSig with
  | Some payload => replicate BftExtraVanity 0 ++ payload
  | None => []
  end.

Definition seal_witness (db : Db) (roots : Roots) (parent : BlockHeader) (t : Task) : MiM (Task + TaskError) :=
  count <- go_deref (parent_count parent) ;;
  match count with
  | None => go_ret (inr errTaskWitness)
  | Some accountCount =>
      mi <- go_get ;;
      r <- on_state (getStemHashes roots (tk_txs t) (mi_stem mi, accountCount)) ;;
      let '((stem, accountCount), hashes) := r in
      go_modify (fun mi => mkMining (mi_state mi) (mi_pool mi) stem) ;;;
      let t := set_accountCount t accountCount in
      match hashes with
      | inr err => go_ret (inr (errTaskStem err))
      | inl (txHashStem, stateHashStem) =>
          recent <- go_deref (getRecentTxHashStem db roots (h_Height (tk_header t)) (tk_txs t) map_order) ;;
          match recent with
          | inr err => go_ret (inr (errTaskStem err))
          | inl recentTxHashStem =>
              match sign_block (h_Creator (tk_header t)) (h_Height (tk_header t)) txHashStem stateHashStem with
              | None => go_ret (inr errTaskWitness)
              | Some blockSig =>
                  go_ret (inl (task_header t (set_SecondWitness (tk_header t)
                    (PrepareSecondWitness t txHashStem stateHashStem recentTxHashStem blockSig))))
              end
          end
      end
  end.

(** ** The whole task *)

Definition applyTransactionsAndDebts (db : Db) (roots : Roots) (parent : BlockHeader) (t : Task) : MiM (Task + TaskError) :=
  mi <- go_get ;;
  r <- (if negb (h_Consensus (tk_header t) =? BftConsensus) then chooseDebts (S (pool_left (mi_pool mi))) db t BlockByteLimit
        else go_ret (t, BlockByteLimit)) ;;
  rewarded <- handleMinerRewardTx r.1 ;;
  match rewarded with
  | inr err => go_ret (inr (errTaskReward err))
  | inl t =>
      mi <- go_get ;;
      t <- chooseTransactions (S (pool_left (mi_pool mi))) roots t 1 r.2 ;;
      root <- on_state state_Commit ;;
      match root with
      | inr _ => go_ret (inr errTaskCommit)
      | inl root =>
          let t := task_header t (set_StateHash (tk_header t) root) in
          if h_Consensus (tk_header t) =? BftConsensus then seal_witness db roots parent t else go_ret (inl t)
      end
  end.

Definition generateBlock (t : Task) : option Block := NewBlock (tk_header t) (tk_txs t) (tk_receipts t) (tk_debts t).
End task.
