(* ===== verification/BlockProofs.v ===== *)
(** * Blocks that are proposed and blocks that are accepted

    What a proposer builds from transactions that can be processed is what the other
    nodes accept; what makes a proposal worthless; what a block that is refused leaves
    behind; and what debts can do on a chain with one shard. *)

From Stdlib Require Import ZArith Lia.
From S2P Require Import Prelude Common BftHeader StateDb StateDbProofs Svm SvmProofs Trie ChainStore ChainLaws ChainCanon BlockLeaves Pool Merkle Stem BlockTypes BlockApply MinerTask.

Open Scope Z_scope.
Open Scope go_scope.

(** ** What the processing sees of a header *)

Record same_env (h h' : BlockHeader) : Prop := {
  se_prev : h_PreviousBlockHash h = h_PreviousBlockHash h';
  se_creator : h_Creator h = h_Creator h';
  se_height : h_Height h = h_Height h';
  se_time : h_CreateTimestamp h = h_CreateTimestamp h';
  se_difficulty : h_Difficulty h = h_Difficulty h';
  se_consensus : h_Consensus h = h_Consensus h'
}.

#[export] Instance same_env_equivalence : Equivalence same_env.
Proof.
  split.
  - by intros h.
  - intros h h' []. by constructor.
  - intros h1 h2 h3 [] []. constructor; congruence.
Qed.

(** The machine and the system contracts see no more: the roots, the witnesses and the
    extra data of the header, which are filled in later, do not matter. *)
Class VmEnvLaws {T : Type} `{VmOps T} := {
  vm_run_env h h' f input s : same_env h h' -> vm_run h f input s = vm_run h' f input s;
  handler_env a c b info h h' input tx s : contracts a = Some c -> c !! b = Some info -> same_env h h' ->
    cmdHandler info input tx h s = cmdHandler info input tx h' s
}.

Lemma bind_ext {S O A B} (m m' : GoM S O A) (k k' : A -> GoM S O B) s :
  m s = m' s -> (forall a s', k a s' = k' a s') -> go_bind m k s = go_bind m' k' s.
Proof. intros Hm Hk. unfold go_bind. rewrite <-Hm. destruct (m s) as [[[a s'] o]|]; [|done]. by rewrite Hk. Qed.

Lemma bind_inv {S O X Y} (m : GoM S O X) (k : X -> GoM S O Y) s y s2 o :
  go_bind m k s = Some (y, s2, o) -> exists x s1 o1 o2, m s = Some (x, s1, o1) /\ k x s1 = Some (y, s2, o2) /\ o = o1 ++ o2.
Proof.
  unfold go_bind. destruct (m s) as [[[x s1] o1]|]; [|done]. destruct (k x s1) as [[[y' s2'] o2]|] eqn:E; [|done].
  intros [= <- <- <-]. by exists x, s1, o1, o2.
Qed.

Section env.
Context {T : Type} {HT : TrieOps T} {HV : @VmOps T HT} {HL : @VmEnvLaws T HT HV}.
Context (h h' : BlockHeader) (Hh : same_env h h').

Lemma evm_Call_env depth caller addr input gas value s :
  evm_Call h depth caller addr input gas value s = evm_Call h' depth caller addr input gas value s.
Proof.
  unfold evm_Call. destruct (_ <? _); [done|]. apply bind_ext; [done|]. intros can s1. destruct (negb can); [done|].
  do 2 (apply bind_ext; [done|]; intros ? ?). destruct (_ && _); [done|]. do 4 (apply bind_ext; [done|]; intros ? ?).
  apply bind_ext; [by apply vm_run_env|done].
Qed.

Lemma evm_Create_env depth caller code gas value s :
  evm_Create h depth caller code gas value s = evm_Create h' depth caller code gas value s.
Proof.
  unfold evm_Create. apply bind_ext; [done|]. intros n s0. unfold evm_create. destruct (_ <? _); [done|].
  apply bind_ext; [done|]. intros can s1. destruct (negb can); [done|].
  do 5 (apply bind_ext; [done|]; intros ? ?). destruct (_ || _); [done|]. do 4 (apply bind_ext; [done|]; intros ? ?).
  apply bind_ext; [by apply vm_run_env|done].
Qed.

Lemma handleFee_env tx i r snap s : handleFee (mkContext tx i h) r snap s = handleFee (mkContext tx i h') r snap s.
Proof. unfold handleFee. cbn. by rewrite (se_consensus _ _ Hh), (se_creator _ _ Hh). Qed.

Lemma Process_finish_env tx i height snap gas res s :
  Process_finish (mkContext tx i h) height snap gas res s = Process_finish (mkContext tx i h') height snap gas res s.
Proof.
  destruct res as [r err]. unfold Process_finish. case_bool_decide; [done|]. apply bind_ext; [done|]. intros r1 s1.
  apply bind_ext; [by destruct err|]. intros r2 s2. apply bind_ext; [done|]. intros s3 s4. apply handleFee_env.
Qed.

Lemma processEvmContract_env tx i gas s : processEvmContract (mkContext tx i h) gas s = processEvmContract (mkContext tx i h') gas s.
Proof.
  unfold processEvmContract. cbn [c_Tx c_BlockHeader]. rewrite (se_time _ _ Hh), (se_difficulty _ _ Hh).
  do 2 (apply bind_ext; [done|]; intros ? ?). destruct (Address_IsEmpty _).
  - apply bind_ext; [apply evm_Create_env|done].
  - do 3 (apply bind_ext; [done|]; intros ? ?). apply bind_ext; [apply evm_Call_env|done].
Qed.

Lemma processSystemContract_env tx i c snap gas s : contracts (td_To (tx_Data tx)) = Some c ->
  processSystemContract (mkContext tx i h) c snap gas s = processSystemContract (mkContext tx i h') c snap gas s.
Proof.
  intros Hc. unfold processSystemContract. cbn [c_Tx c_BlockHeader]. do 6 (apply bind_ext; [done|]; intros ? ?).
  destruct (_ <? _); [done|]. do 2 (apply bind_ext; [done|]; intros ? ?). destruct (_ <? _); [done|].
  apply bind_ext; [|done]. unfold Run. destruct (td_Payload _) as [|b l]; [done|]. destruct (c !! b) as [info|] eqn:E; [|done].
  by eapply handler_env.
Qed.

(** Processing a transaction gives the same with both headers. *)
Lemma Process_env tx i height s : Process (mkContext tx i h) height s = Process (mkContext tx i h') height s.
Proof.
  unfold Process. cbn [c_Tx c_TxIndex]. apply bind_ext; [done|]. intros [e|] s1; [done|]. destruct (_ <? _); [done|].
  apply bind_ext; [done|]. intros snap s2. unfold Process_dispatch. cbn [c_Tx].
  destruct (GetContractByAddress _) as [c|] eqn:Hc.
  - apply bind_ext; [by apply processSystemContract_env|]. intros res s3. apply Process_finish_env.
  - destruct (_ && _).
    + unfold processCrossShardTransaction. cbn [c_Tx c_BlockHeader]. by rewrite (se_creator _ _ Hh).
    + apply bind_ext; [apply processEvmContract_env|]. intros res s3. apply Process_finish_env.
Qed.

Lemma ApplyTransaction_env tx i s : ApplyTransaction tx i h s = ApplyTransaction tx i h' s.
Proof. unfold ApplyTransaction. rewrite (se_height _ _ Hh). apply Process_env. Qed.

Lemma process_txs_env txs : forall i s, process_txs txs i h s = process_txs txs i h' s.
Proof.
  induction txs as [|tx txs IH]; intros i s; [done|]. cbn [process_txs]. rewrite (se_height _ _ Hh).
  apply bind_ext; [done|]. intros [e|] s1; [done|]. apply bind_ext; [apply ApplyTransaction_env|]. intros [r [e|]] s2; [done|].
  apply bind_ext; [done|]. intros r' s3. by apply bind_ext.
Qed.

Lemma ValidateRewardTx_env `{BlockEnv} tx : ValidateRewardTx tx h = ValidateRewardTx tx h'.
Proof. unfold ValidateRewardTx. by rewrite (se_creator _ _ Hh), (se_consensus _ _ Hh), (se_height _ _ Hh), (se_time _ _ Hh). Qed.

Lemma applyRewardAndRegularTxs_env `{BlockEnv} reward txs s :
  applyRewardAndRegularTxs reward txs h s = applyRewardAndRegularTxs reward txs h' s.
Proof.
  unfold applyRewardAndRegularTxs. rewrite ValidateRewardTx_env. apply bind_ext; [done|]. intros [e|] s1; [done|].
  apply bind_ext; [done|]. intros [r|e] s2; [|done]. destruct (BatchValidate _ _); [done|]. apply bind_ext; [apply process_txs_env|done].
Qed.
End env.

(** ** Proposing *)

Lemma no_output (o : list Empty_set) : o = [].
Proof. by destruct o as [|[]]. Qed.

Section mining.
Context {P T : Type} {HP : MinerPools P} {HT : TrieOps T} {HV : @VmOps T HT}.
Context `{StoreCodec} `{BlockEnv} `{TrieEnv} `{HeaderCodec} `{MerkleEnv} `{StemEnv} `{MinerEnv}.
Implicit Types (mi : Mining (P := P) (T := T)) (t : Task) (s : Statedb T).

(** What the pool hands out when everything is taken. *)
Fixpoint handed_out (fuel : nat) (p : P) (size : Z) : list Transaction :=
  match fuel with
  | O => []
  | S fuel' =>
      if size <=? 0 then []
      else
        let '(txs, txsSize, p') := GetProcessableTransactions p size in
        if (length txs =? 0)%nat then [] else txs ++ handed_out fuel' p' (size - txsSize)
  end.

Lemma process_txs_app a b i h s rs s' o : process_txs (a ++ b) i h s = Some (inl rs, s', o) ->
  exists ra rb s1, process_txs a i h s = Some (inl ra, s1, []) /\
    process_txs b (i + Z.of_nat (length a)) h s1 = Some (inl rb, s', []) /\ rs = ra ++ rb.
Proof.
  revert i s rs s' o. induction a as [|tx a IH]; intros i s rs s' o Hrun.
  - exists [], rs, s. rewrite (no_output o) in Hrun. cbn. by rewrite Z.add_0_r.
  - cbn [process_txs app] in Hrun |- *. unfold go_bind at 1 in Hrun. unfold go_bind at 1.
    destruct (ValidateState _ _ s) as [[[[e|] s1] o1]|]; [done| |done]. unfold go_bind at 1 in Hrun. unfold go_bind at 1.
    destruct (ApplyTransaction _ _ _ s1) as [[[[r [e|]] s2] o2]|]; [done| |done]. destruct r as [r|]; [|done].
    cbn [go_deref go_ret go_bind] in Hrun |- *. unfold go_bind in Hrun |- *.
    destruct (process_txs (a ++ b) (i + 1) h s2) as [[[[rs0|e] s3] o3]|] eqn:E; [|done..].
    destruct (IH _ _ _ _ _ E) as (ra & rb & sm & Ea & Eb & ->). cbn in Hrun. injection Hrun as <- <- _.
    exists (r :: ra), rb, sm. rewrite Ea. cbn [go_ret]. rewrite (no_output (o1 ++ _)). split; [done|]. split; [|done].
    by replace (i + Z.of_nat (length (tx :: a))) with (i + 1 + Z.of_nat (length a)) by (cbn [length]; lia).
Qed.

Lemma process_one tx i h s rs s' o : process_txs [tx] i h s = Some (inl rs, s', o) -> exists r, rs = [r].
Proof.
  cbn [process_txs]. intros (v & sa & oa & ob & _ & E & _)%bind_inv. destruct v; [done|].
  apply bind_inv in E as ([x [e|]] & sb & oc & od & _ & E & _); [done|]. apply bind_inv in E as (r & sc & oe & og & _ & E & _).
  injection E as <- _ _. by exists r.
Qed.

(** A task that has taken transactions. *)
Record took (t t' : Task) (txs : list Transaction) (rs : list Receipt) : Prop := {
  tt_header : tk_header t' = tk_header t;
  tt_txs : tk_txs t' = tk_txs t ++ txs;
  tt_receipts : tk_receipts t' = tk_receipts t ++ rs;
  tt_debts : tk_debts t' = tk_debts t;
  tt_coinbase : tk_coinbase t' = tk_coinbase t;
  tt_challenged : tk_challengedTxs t' = tk_challengedTxs t
}.

Lemma took_nil t : took t t [] [].
Proof. by split; rewrite ?app_nil_r. Qed.

Lemma took_trans t1 t2 t3 a b ra rb : took t1 t2 a ra -> took t2 t3 b rb -> took t1 t3 (a ++ b) (ra ++ rb).
Proof. intros [] []. split; rewrite ?app_assoc; congruence. Qed.

Definition no_challenge roots h (tx : Transaction) : Prop := (h_Consensus h =? BftConsensus) && IsChallengedTx tx roots = false.

(** Transactions that can be processed are taken. *)
Lemma choose_batch_app roots txs : forall rest t i size mi rs s',
  Forall (fun tx => tx_error tx = None) txs -> Forall (no_challenge roots (tk_header t)) txs ->
  process_txs txs i (tk_header t) (mi_state mi) = Some (inl rs, s', []) ->
  exists t', took t t' txs rs /\ forall res mi',
    choose_batch roots rest t' (i + Z.of_nat (length txs)) size (mkMining s' (mi_pool mi) (mi_stem mi)) = Some (res, mi', []) ->
    choose_batch roots (txs ++ rest) t i size mi = Some (res, mi', []).
Proof.
  induction txs as [|tx txs IH]; intros rest t i size mi rs s' Hv Hc Hrun.
  - cbn in Hrun |- *. injection Hrun as <- <-. exists t. rewrite Z.add_0_r. split; [apply took_nil|]. by destruct mi.
  - apply Forall_cons in Hv as [Htx Hv]. apply Forall_cons in Hc as [Hch Hc]. cbn [process_txs] in Hrun. unfold go_bind at 1 in Hrun.
    destruct (ValidateState _ _ (mi_state mi)) as [[[[e|] s1] o1]|] eqn:Ev; [done| |done].
    unfold go_bind at 1 in Hrun. destruct (ApplyTransaction _ _ _ s1) as [[[[r [e|]] s2] o2]|] eqn:Ea; [done| |done].
    destruct r as [r|]; [|done]. cbn [go_deref] in Hrun. unfold go_bind in Hrun. cbn [go_ret] in Hrun.
    destruct (process_txs txs (i + 1) _ s2) as [[[[rs0|e] s3] o3]|] eqn:E; [|done..]. injection Hrun as <- <- _.
    rewrite (no_output o3) in E.
    set (t1 := add_tx (if h_Consensus (tk_header t) =? BftConsensus then
      add_verifiers t (if IsVerifierTx tx roots then [td_To (tx_Data tx)] else []) (if IsExitTx tx roots then [td_To (tx_Data tx)] else [])
      else t) tx r).
    assert (Ht1 : took t t1 [tx] [r]) by (subst t1; destruct (h_Consensus (tk_header t) =? BftConsensus); constructor; reflexivity).
    destruct (IH rest t1 (i + 1) size (mkMining s2 (mi_pool mi) (mi_stem mi)) rs0 s3) as (t' & Ht' & Et).
    { done. }
    { by rewrite (tt_header _ _ _ _ Ht1). }
    { by rewrite (tt_header _ _ _ _ Ht1). }
    exists t'. split; [by apply (took_trans t t1 t' [tx] txs [r] rs0)|]. intros res mi' Hrest.
    cbn [app choose_batch]. unfold go_bind at 1, on_state at 1, tx_Validate. rewrite Htx. unfold go_bind at 1. rewrite Ev. cbn [option_map go_ret].
    unfold go_bind at 1, on_state at 1. cbn [mi_state]. rewrite Ea. unfold no_challenge in Hch. rewrite Hch.
    cbn [go_deref]. unfold go_bind. cbn [go_ret]. fold t1. cbn [mi_pool mi_stem] in Et |- *. rewrite (Et res mi').
    + cbn iota beta. match goal with |- Some (_, ?o) = _ => by rewrite (no_output o) end.
    + by replace (i + 1 + Z.of_nat (length txs)) with (i + Z.of_nat (length (tx :: txs))) by (cbn [length]; lia).
Qed.

Lemma choose_batch_takes roots txs t i size mi rs s' :
  Forall (fun tx => tx_error tx = None) txs -> Forall (no_challenge roots (tk_header t)) txs ->
  process_txs txs i (tk_header t) (mi_state mi) = Some (inl rs, s', []) ->
  exists t', choose_batch roots txs t i size mi
      = Some ((t', i + Z.of_nat (length txs), size, false), mkMining s' (mi_pool mi) (mi_stem mi), []) /\ took t t' txs rs.
Proof.
  intros Hv Hc Hrun. destruct (choose_batch_app roots txs [] t i size mi rs s' Hv Hc Hrun) as (t' & Ht & Et).
  exists t'. split; [|done]. rewrite <-(app_nil_r txs) at 1. by apply Et.
Qed.

(** A challenge ends the search; it has been processed, and it is not taken. *)
Lemma choose_batch_challenge roots pre tx post t i size mi rs s' r s'' :
  h_Consensus (tk_header t) = BftConsensus -> Forall (fun tx => tx_error tx = None) pre -> Forall (no_challenge roots (tk_header t)) pre ->
  process_txs pre i (tk_header t) (mi_state mi) = Some (inl rs, s', []) ->
  tx_error tx = None -> IsChallengedTx tx roots = true ->
  process_txs [tx] (i + Z.of_nat (length pre)) (tk_header t) s' = Some (inl [r], s'', []) ->
  exists t', choose_batch roots (pre ++ tx :: post) t i size mi
      = Some ((add_challenged t' tx, i + Z.of_nat (length pre), size, true), mkMining s'' (mi_pool mi) (mi_stem mi), []) /\ took t t' pre rs.
Proof.
  intros Hb Hv Hc Hrun Htx Hch Htxrun. destruct (choose_batch_app roots pre (tx :: post) t i size mi rs s' Hv Hc Hrun) as (t' & Ht & Et).
  exists t'. split; [|done]. apply Et. cbn [choose_batch]. rewrite (tt_header _ _ _ _ Ht).
  cbn [process_txs] in Htxrun. unfold go_bind at 1 in Htxrun.
  unfold go_bind at 1, on_state at 1, tx_Validate. rewrite Htx. unfold go_bind at 1. cbn [mi_state].
  destruct (ValidateState _ _ s') as [[[[e|] s1] o1]|]; [done| |done]. cbn [option_map go_ret].
  unfold go_bind at 1 in Htxrun. unfold go_bind at 1, on_state at 1. cbn [mi_state].
  destruct (ApplyTransaction _ _ _ s1) as [[[[r' [e|]] s2] o2]|]; [done| |done]. destruct r' as [r'|]; [|done].
  unfold go_bind in Htxrun. cbn in Htxrun. injection Htxrun as -> <- _. rewrite Hb, Hch, Z.eqb_refl. cbn.
  match goal with |- Some (_, ?o) = _ => by rewrite (no_output o) end.
Qed.

Lemma chooseTransactions_takes roots fuel : forall t i size mi rs s',
  (pool_left (mi_pool mi) < fuel)%nat ->
  let txs := handed_out fuel (mi_pool mi) size in
  Forall (fun tx => tx_error tx = None) txs -> Forall (no_challenge roots (tk_header t)) txs ->
  process_txs txs i (tk_header t) (mi_state mi) = Some (inl rs, s', []) ->
  exists t' p', chooseTransactions fuel roots t i size mi = Some (t', mkMining s' p' (mi_stem mi), []) /\ took t t' txs rs.
Proof.
  induction fuel as [|fuel IH]; intros t i size mi rs s' Hf txs Hv Hc Hrun; [lia|]. subst txs. cbn [handed_out chooseTransactions] in *.
  destruct (size <=? 0).
  { cbn in Hrun. injection Hrun as <- <-. exists t, (mi_pool mi). split; [by destruct mi|apply took_nil]. }
  unfold go_bind at 1, go_get. pose proof (GetTxs_left (mi_pool mi) size) as Hleft.
  destruct (GetProcessableTransactions (mi_pool mi) size) as [[txs txsSize] p] eqn:Eg. cbn [fst snd] in Hleft.
  unfold go_bind at 1, modify_pool, go_modify. destruct (Nat.eqb_spec (length txs) 0) as [E|E].
  { cbn in Hrun. injection Hrun as <- <-. exists t, p. split; [done|apply took_nil]. }
  apply Forall_app in Hv as [Hv1 Hv2]. apply Forall_app in Hc as [Hc1 Hc2].
  destruct (process_txs_app _ _ _ _ _ _ _ _ Hrun) as (ra & rb & s1 & Ea & Eb & ->).
  destruct (choose_batch_takes roots txs t i txsSize (mkMining (mi_state mi) p (mi_stem mi)) ra s1) as (t1 & Et1 & Ht1); [done..|].
  cbn [mi_state mi_pool mi_stem] in *. unfold go_bind. rewrite Et1. cbn iota beta.
  destruct (IH t1 (i + Z.of_nat (length txs)) (size - txsSize) (mkMining s1 p (mi_stem mi)) rb s') as (t2 & p2 & Et2 & Ht2).
  { cbn. lia. }
  { done. }
  { by rewrite (tt_header _ _ _ _ Ht1). }
  { by rewrite (tt_header _ _ _ _ Ht1). }
  cbn [mi_stem] in Et2. rewrite Et2. exists t2, p2. split; [done|]. by eapply took_trans.
Qed.

Lemma handed_out_size fuel : forall p size, 0 <= size -> GetTransactionsSize (handed_out fuel p size) <= size.
Proof.
  assert (Happ : forall a b, GetTransactionsSize (a ++ b) = GetTransactionsSize a + GetTransactionsSize b).
  { induction a as [|x a IH]; intros b; [done|]. cbn [GetTransactionsSize app]. rewrite IH. lia. }
  induction fuel as [|fuel IH]; intros p size Hs; [done|]. cbn [handed_out]. destruct (Z.leb_spec size 0); [done|].
  pose proof (GetTxs_size p size Hs) as [Hsum Hle]. destruct (GetProcessableTransactions p size) as [[txs n] p']. cbn [fst snd] in *.
  destruct (length txs =? 0)%nat; [done|]. rewrite Happ, Hsum. specialize (IH p' (size - n)). lia.
Qed.

Lemma on_state_inv {X} (m : GoM (Statedb T) Empty_set X) mi x mi' o : on_state m mi = Some (x, mi', o) ->
  exists s', m (mi_state mi) = Some (x, s', o) /\ mi' = mkMining s' (mi_pool mi) (mi_stem mi).
Proof. unfold on_state. destruct (m (mi_state mi)) as [[[y s'] o']|]; [|done]. intros [= <- <- <-]. by exists s'. Qed.

(** The last steps only fill in the header. *)
Lemma seal_witness_task db roots parent t mi t' mi' o : seal_witness db roots parent t mi = Some (inl t', mi', o) ->
  exists w, tk_header t' = set_SecondWitness (tk_header t) w /\ tk_txs t' = tk_txs t /\ tk_receipts t' = tk_receipts t /\ tk_debts t' = tk_debts t.
Proof.
  unfold seal_witness. intros (count & m1 & o1 & o1' & _ & Hrun & _)%bind_inv. destruct count as [count|]; [|done].
  apply bind_inv in Hrun as (m2 & m3 & o2 & o2' & _ & Hrun & _). apply bind_inv in Hrun as ([[stem n] hs] & m4 & o3 & o3' & _ & Hrun & _).
  apply bind_inv in Hrun as ([] & m5 & o4 & o4' & _ & Hrun & _). destruct hs as [[th sh]|e]; [|done].
  apply bind_inv in Hrun as (rec & m6 & o5 & o5' & _ & Hrun & _). destruct rec as [rec|e]; [|done].
  destruct (sign_block _ _ _ _) as [sig|]; [|done]. injection Hrun as <- _ _. by eexists.
Qed.

Lemma task_root db roots parent t mi t' mi' o : h_Consensus (tk_header t) = BftConsensus ->
  applyTransactionsAndDebts db roots parent t mi = Some (inl t', mi', o) ->
  exists t1 m1 t2 m2 s' root w o1 o2 o3,
    handleMinerRewardTx t mi = Some (inl t1, m1, o1) /\
    chooseTransactions (S (pool_left (mi_pool m1))) roots t1 1 BlockByteLimit m1 = Some (t2, m2, o2) /\
    state_Commit (mi_state m2) = Some (inl root, s', o3) /\
    tk_txs t' = tk_txs t2 /\ tk_receipts t' = tk_receipts t2 /\ tk_debts t' = tk_debts t2 /\
    (h_Consensus (tk_header t2) = BftConsensus -> tk_header t' = set_SecondWitness (set_StateHash (tk_header t2) root) w).
Proof.
  intros Hb Hrun. unfold applyTransactionsAndDebts in Hrun. rewrite Hb in Hrun. rewrite Z.eqb_refl in Hrun. cbn [negb] in Hrun.
  apply bind_inv in Hrun as (x & m0 & o0 & o0' & E0 & Hrun & _). injection E0 as <- <- _.
  apply bind_inv in Hrun as (y & m0 & o1 & o1' & E1 & Hrun & _). injection E1 as <- <- _. cbn [fst snd] in Hrun.
  apply bind_inv in Hrun as (t1 & m1 & o2 & o2' & E2 & Hrun & _). destruct t1 as [t1|e]; [|done].
  apply bind_inv in Hrun as (z & m1' & o3 & o3' & E3 & Hrun & _). injection E3 as <- <- _.
  apply bind_inv in Hrun as (t2 & m2 & o4 & o4' & E4 & Hrun & _). apply bind_inv in Hrun as (root & m3 & o5 & o5' & E5 & Hrun & _).
  apply on_state_inv in E5 as (s' & Ec & ->). destruct root as [root|e]; [|done]. cbn [tk_header task_header set_StateHash h_Consensus] in Hrun.
  destruct (Z.eqb_spec (h_Consensus (tk_header t2)) BftConsensus) as [Eq|Ne].
  - apply seal_witness_task in Hrun as (w & Eh & Et & Er & Ed). exists t1, m1, t2, m2, s', root, w, o2, o4, o5. by split_and!.
  - injection Hrun as <- _ _. exists t1, m1, t2, m2, s', root, [], o2, o4, o5. by split_and!.
Qed.

(** The reward of a sub-chain block. *)
Lemma reward_task header time reward s0 r0 s1 o1 (p : P) stem t1 m1 o :
  h_Consensus header = BftConsensus -> h_CreateTimestamp header = Some time ->
  NewRewardTx (h_Creator header) 0 (u64 time) = inl reward -> ApplyRewardTx reward s0 = Some (inl r0, s1, o1) ->
  handleMinerRewardTx (NewTask header (h_Creator header)) (mkMining s0 p stem) = Some (inl t1, m1, o) ->
  t1 = add_tx (NewTask header (h_Creator header)) reward r0 /\ m1 = mkMining s1 p stem.
Proof.
  intros Hb Ht Hr Ha Er. unfold handleMinerRewardTx in Er. cbn [NewTask tk_header tk_coinbase] in Er. rewrite Hb, Ht, Z.eqb_refl in Er.
  cbn [go_deref] in Er. unfold go_bind at 1 in Er. cbn [go_ret] in Er. rewrite Hr in Er. unfold go_bind, on_state in Er.
  cbn [mi_state] in Er. rewrite Ha in Er. cbn in Er. by injection Er as <- <- _.
Qed.

Lemma chooseTransactions_challenge roots fuel pre tx post n (p p' : P) size t i s1 stem rs s2 r s3 :
  0 < size -> GetProcessableTransactions p size = (pre ++ tx :: post, n, p') ->
  h_Consensus (tk_header t) = BftConsensus -> Forall (fun tx => tx_error tx = None) pre -> Forall (no_challenge roots (tk_header t)) pre ->
  process_txs pre i (tk_header t) s1 = Some (inl rs, s2, []) -> tx_error tx = None -> IsChallengedTx tx roots = true ->
  process_txs [tx] (i + Z.of_nat (length pre)) (tk_header t) s2 = Some (inl [r], s3, []) ->
  exists t', chooseTransactions (S fuel) roots t i size (mkMining s1 p stem) = Some (add_challenged t' tx, mkMining s3 p' stem, []) /\ took t t' pre rs.
Proof.
  intros Hs Hget Hb Hv Hc Hp Hvt Hct Hpt.
  destruct (choose_batch_challenge roots pre tx post t i n (mkMining s1 p' stem) rs s2 r s3) as (t' & Ecb & Htook); [done..|].
  exists t'. split; [|done]. cbn [chooseTransactions]. rewrite (proj2 (Z.leb_gt size 0)) by lia. unfold go_bind at 1, go_get. cbn [mi_pool].
  rewrite Hget. unfold go_bind at 1, modify_pool, go_modify. rewrite (proj2 (Nat.eqb_neq _ 0)) by (rewrite length_app; cbn; lia).
  unfold go_bind. cbn [mi_state mi_stem]. by rewrite Ecb.
Qed.
End mining.

(** ** Accepting *)

Lemma bytes_eqb_refl b : bytes_eqb b b = true.
Proof. by apply bool_decide_eq_true_2. Qed.

Section accept.
Context {S A P T : Type} {HP : MinerPools P} {HT : TrieOps T} {HV : @VmOps T HT} {HL : @VmEnvLaws T HT HV} {HN : @NodeEnv S A T HT}.
Context `{StoreCodec} `{BlockEnv} `{TrieEnv} `{HeaderCodec} `{MerkleEnv} `{StemEnv} `{MinerEnv}.
Implicit Types (s : Statedb T) (header : BlockHeader).

(** The block that is made of a header validates. *)
Lemma NewBlock_validates header txs receipts debts block : NewBlock header txs receipts debts = Some block ->
  block_Validate block = Some None /\ b_Transactions block = txs /\ b_Debts block = debts /\
  ReceiptMerkleRootHash receipts = Some (h_ReceiptHash (b_Header block)) /\
  h_StateHash (b_Header block) = h_StateHash header /\ same_env (b_Header block) (Clone header).
Proof.
  unfold NewBlock. destruct (MerkleRootHash txs) as [t|] eqn:Et; [|done]. destruct (ReceiptMerkleRootHash receipts) as [r|] eqn:Er; [|done].
  destruct (DebtMerkleRootHash debts) as [d|] eqn:Ed; [|done]. destruct (DebtMerkleRootHash (NewDebts txs)) as [td|] eqn:Etd; [|done].
  intros [= <-]. split; [|by split_and!]. unfold block_Validate. cbn [b_HeaderHash b_Header b_Transactions b_Debts].
  rewrite bytes_eqb_refl, Et, Etd, Ed. cbn. by rewrite !bytes_eqb_refl.
Qed.

Lemma reward_valid header reward time : h_Consensus header = BftConsensus -> Address_IsEmpty (h_Creator header) = false ->
  h_CreateTimestamp header = Some time -> NewRewardTx (h_Creator header) 0 (u64 time) = inl reward ->
  ValidateRewardTx reward header = Some None.
Proof.
  intros Hb Hc Ht [= <-]. unfold ValidateRewardTx. cbn. rewrite Hc, Hb, Ht. unfold Address_Equal, Address_IsEmpty, Address_Equal.
  by rewrite !bytes_eqb_refl, !Z.eqb_refl.
Qed.

Lemma BatchValidate_all {X E} (f : X -> option E) l : Forall (fun x => f x = None) l -> BatchValidate f l = None.
Proof. induction 1 as [|x l Hx _ IH]; [done|]. cbn. by rewrite Hx. Qed.

(** What the other nodes compute from the reward and the transactions. *)
Lemma apply_block_replays db hash header reward time txs s0 r0 s1 o1 rs s2 o2 :
  h_Consensus header = BftConsensus -> Address_IsEmpty (h_Creator header) = false -> h_CreateTimestamp header = Some time ->
  NewRewardTx (h_Creator header) 0 (u64 time) = inl reward ->
  ApplyRewardTx reward s0 = Some (inl r0, s1, o1) -> Forall (fun tx => tx_error tx = None) txs ->
  process_txs txs 1 header s1 = Some (inl rs, s2, o2) ->
  apply_block (S := S) (A := A) db (mkBlock hash header (reward :: txs) []) s0 = Some (inl (r0 :: rs), s2, []).
Proof.
  intros Hb Hc Ht Hr Ha Hv Hp. unfold apply_block. cbn [b_Header b_Debts b_Transactions BatchValidate apply_debts].
  replace (if _ || _ then None else None) with (@None DebtError) by (by destruct (_ || _)).
  unfold go_bind at 1. cbn [go_ret]. unfold applyRewardAndRegularTxs. rewrite (reward_valid header reward time) by done.
  unfold go_bind. cbn [go_deref go_ret]. rewrite Ha, BatchValidate_all, Hp by done. cbn [go_ret].
  match goal with |- Some (_, ?o) = _ => by rewrite (no_output o) end.
Qed.
End accept.

(** ** Writing a block *)

Section write.
Context {S A T : Type} {HC : StoreCodec} {HS : BlockchainStore S} {HSL : StoreLaws S} {HT : TrieOps T} {HV : @VmOps T HT} {HN : @NodeEnv S A T HT}.
Context `{BlockEnv} `{TrieEnv} `{HeaderCodec} `{MerkleEnv} `{StemEnv}.
Implicit Types (nd : Blockchain (S := S) (A := A)) (block : Block).

Definition node_db nd : Db := store_db (ch_store (nd_chain nd)).

(** Everything but the index databases, the cache of known transactions and the caches
    of the store. *)
Record untouched nd nd' : Prop := {
  ut_db : node_db nd' = node_db nd;
  ut_inv : store_inv (ch_store (nd_chain nd'));
  ut_rp : ch_rp (nd_chain nd') = ch_rp (nd_chain nd);
  ut_file : ch_file (nd_chain nd') = ch_file (nd_chain nd);
  ut_accounts : nd_accounts nd' = nd_accounts nd;
  ut_leaves : nd_leaves nd' = nd_leaves nd;
  ut_current : nd_current nd' = nd_current nd
}.

Lemma untouched_trans nd1 nd2 nd3 : untouched nd1 nd2 -> untouched nd2 nd3 -> untouched nd1 nd3.
Proof. intros [] []. constructor; congruence. Qed.

Lemma read_chain_spec {X} (m : GoM S Db X) (f : Db -> X) nd x nd' o : store_inv (ch_store (nd_chain nd)) ->
  refines store_inv m (db_read f) (ch_store (nd_chain nd)) -> read_chain m nd = Some (x, nd', o) ->
  x = f (node_db nd) /\ untouched nd nd' /\ nd_stem nd' = nd_stem nd /\ nd_cachedTxs nd' = nd_cachedTxs nd /\ o = [].
Proof.
  intros Hi Href. destruct (Href (f (node_db nd)) (node_db nd) []) as (s' & E & Hdb & Hi'); [done|].
  unfold read_chain, on_chain, on_store. rewrite E. intros [= <- <- <-]. by split_and!.
Qed.

(** What the header alone has to fulfil, and what it has to say of the body. *)
Record header_checked block nd : Prop := {
  hc_time : exists time, h_CreateTimestamp (b_Header block) = Some time /\ time <= now_Unix + futureBlockLimit;
  hc_extra : h_ExtraData (b_Header block) = [] \/ h_Consensus (b_Header block) = IstanbulConsensus \/ h_Consensus (b_Header block) = BftConsensus;
  hc_engine : engine_VerifyHeader (nd_chain nd) (b_Header block) = true;
  hc_hash : b_HeaderHash block = header_Hash (b_Header block);
  hc_txs : MerkleRootHash (b_Transactions block) = Some (h_TxHash (b_Header block));
  hc_tx_debts : DebtMerkleRootHash (NewDebts (b_Transactions block)) = Some (h_TxDebtHash (b_Header block));
  hc_debts : DebtMerkleRootHash (b_Debts block) = Some (h_DebtHash (b_Header block));
  hc_shard : IsShardEnabled = true -> Address_Shard (h_Creator (b_Header block)) = LocalShardNumber
}.

Lemma bytes_eqb_true a b : bytes_eqb a b = true -> a = b.
Proof. apply bool_decide_eq_true_1. Qed.

Lemma block_Validate_None block : block_Validate block = Some None ->
  b_HeaderHash block = header_Hash (b_Header block) /\ MerkleRootHash (b_Transactions block) = Some (h_TxHash (b_Header block))
  /\ DebtMerkleRootHash (NewDebts (b_Transactions block)) = Some (h_TxDebtHash (b_Header block))
  /\ DebtMerkleRootHash (b_Debts block) = Some (h_DebtHash (b_Header block)).
Proof.
  unfold block_Validate. destruct (bytes_eqb (b_HeaderHash block) _) eqn:E1; [|done]. cbn [negb].
  destruct (MerkleRootHash _) as [r1|]; [|done]. destruct (bytes_eqb r1 _) eqn:E2; [|done]. cbn [negb].
  destruct (DebtMerkleRootHash (NewDebts _)) as [r2|]; [|done]. destruct (bytes_eqb r2 _) eqn:E3; [|done]. cbn [negb].
  destruct (DebtMerkleRootHash (b_Debts _)) as [r3|]; [|done]. destruct (bytes_eqb r3 _) eqn:E4; [|done]. intros _.
  apply bytes_eqb_true in E1, E2, E3, E4. by rewrite E1, E2, E3, E4.
Qed.

Lemma ValidateBlockHeader_spec header nd r nd' o : ValidateBlockHeader header nd = Some (r, nd', o) ->
  nd' = nd /\ o = [] /\ (r = None -> (exists time, h_CreateTimestamp header = Some time /\ time <= now_Unix + futureBlockLimit)
    /\ (h_ExtraData header = [] \/ h_Consensus header = IstanbulConsensus \/ h_Consensus header = BftConsensus)
    /\ engine_VerifyHeader (nd_chain nd) header = true).
Proof.
  unfold ValidateBlockHeader. intros Eh. destruct (h_CreateTimestamp _) as [time|]; [|by injection Eh as <- <- <-].
  destruct (Z.ltb_spec (now_Unix + futureBlockLimit) time); [by injection Eh as <- <- <-|].
  destruct (_ && _) eqn:Ex; [by injection Eh as <- <- <-|].
  apply bind_inv in Eh as (x & nd2 & o3 & o4 & E1 & E2 & ->). injection E1 as <- <- <-. injection E2 as <- <- <-.
  split; [done|]. split; [done|]. destruct (engine_VerifyHeader _ _); [|done]. intros _. split; [by eauto|]. split; [|done].
  apply andb_false_iff in Ex as [Ex|Ex%negb_false_iff%Nat.eqb_eq%nil_length_inv]; [|by left].
  right. apply andb_false_iff in Ex as [Ex|Ex]; apply negb_false_iff, Z.eqb_eq in Ex; auto.
Qed.

Lemma validateBlock_spec block nd r nd' o : validateBlock block nd = Some (r, nd', o) ->
  nd' = nd /\ o = [] /\ (r = None -> header_checked block nd /\ b_Transactions block <> [] /\
    GetTransactionsSize (tail (b_Transactions block)) + GetDebtsSize (b_Debts block) <= BlockByteLimit).
Proof.
  unfold validateBlock. intros (e & nd1 & o1 & o2 & Eh & Hrun & ->)%bind_inv. apply ValidateBlockHeader_spec in Eh as Hh.
  destruct Hh as (-> & -> & Hh). destruct e as [e|]; [by injection Hrun as <- <- <-|].
  apply bind_inv in Hrun as (v & nd2 & o3 & o4 & E1 & E2 & ->). destruct (block_Validate block) as [v'|] eqn:Ev; [|done].
  injection E1 as <- <- <-. destruct v' as [err|]; [by injection E2 as <- <- <-|]. destruct (b_Transactions block) as [|tx txs]; [by injection E2 as <- <- <-|].
  destruct (Z.ltb_spec BlockByteLimit (GetTransactionsSize txs + GetDebtsSize (b_Debts block))); [by injection E2 as <- <- <-|].
  destruct (_ && _) eqn:Esh; injection E2 as <- <- <-; [done|]. split; [done|]. split; [done|]. intros _.
  destruct (Hh eq_refl) as (? & ? & ?). destruct (block_Validate_None _ Ev) as (? & ? & ? & ?).
  split; [constructor; try done|by split]. intros Hsh. rewrite Hsh in Esh. by apply negb_false_iff, Z.eqb_eq in Esh.
Qed.

(** What [applyTxs] has checked of the body. *)
Record body_checked block : Prop := {
  bc_debts : HeightRoof < h_Height (b_Header block) \/ h_Height (b_Header block) < HeightFloor ->
    Forall (fun d => (debt_Validate debtVerifier false LocalShardNumber d).2 = None) (b_Debts block);
  bc_reward : exists reward txs, b_Transactions block = reward :: txs /\ ValidateRewardTx reward (b_Header block) = Some None
    /\ Forall (fun tx => tx_error tx = None) txs
}.

Lemma BatchValidate_inv {X E} (f : X -> option E) l : BatchValidate f l = None -> Forall (fun x => f x = None) l.
Proof. induction l as [|x l IH]; cbn; [constructor|]. destruct (f x) eqn:E1; [done|]. constructor; auto. Qed.

Lemma applyTxs_checked db accounts block root sd rs : applyTxs (S := S) (A := A) db accounts block root = Some (inl (sd, rs)) -> body_checked block.
Proof.
  unfold applyTxs. destruct (open_trie accounts root) as [t|]; [|done]. destruct (apply_block _ _ _) as [[[res st] o]|] eqn:E; [|done].
  destruct res as [receipts|]; [|done]. intros _. unfold apply_block in E.
  cbv zeta in E. match type of E with (match ?x with _ => _ end) _ = _ => destruct x eqn:Ede; [done|] end.
  apply bind_inv in E as (err & s1 & o1 & o2 & _ & E & ->). destruct err; [done|]. destruct (b_Transactions block) as [|reward txs] eqn:Etx; [done|].
  unfold applyRewardAndRegularTxs in E. apply bind_inv in E as (v & s2 & o3 & o4 & Ev & E & ->).
  destruct (ValidateRewardTx reward (b_Header block)) as [v'|] eqn:Erv; [|done]. injection Ev as <- <- <-. destruct v'; [done|].
  apply bind_inv in E as (rr & s3 & o5 & o6 & _ & E & ->). destruct rr; [|done].
  destruct (BatchValidate tx_error txs) eqn:Ebv; [done|]. constructor.
  - intros Hh. apply BatchValidate_inv.
    assert (Ew : (HeightRoof <? h_Height (b_Header block)) || (h_Height (b_Header block) <? HeightFloor) = true)
      by (apply orb_true_iff; destruct Hh; [left|right]; lia). by rewrite Ew in Ede.
  - exists reward, txs. split; [done|]. split; [done|]. by apply BatchValidate_inv.
Qed.

(** The checks that a block has passed when its state is committed. *)
Record checked block nd preHeader receipts (statedb statedb' : Statedb T) : Prop := {
  ck_header : header_checked block nd;
  ck_body : body_checked block;
  ck_size : GetTransactionsSize (tail (b_Transactions block)) + GetDebtsSize (b_Debts block) <= BlockByteLimit;
  ck_parent : GetBlockHeader (node_db nd) (h_PreviousBlockHash (b_Header block)) = inl preHeader;
  ck_applied : applyTxs (S := S) (node_db nd) (nd_accounts nd) block (h_StateHash preHeader) = Some (inl (statedb, receipts));
  ck_receipts : ReceiptMerkleRootHash receipts = Some (h_ReceiptHash (b_Header block));
  ck_state : exists o, state_Commit statedb = Some (inl (h_StateHash (b_Header block)), statedb', o)
}.

(** Where a run of [doWriteBlock] ends. *)
Inductive outcome (selRand : gmap Hash Transaction -> Hash) block nd : option WriteError -> Blockchain (S := S) (A := A) -> list NodeEffect -> Prop :=
| refused_early err nd' :
    untouched nd nd' -> nd_stem nd' = nd_stem nd -> nd_cachedTxs nd' = nd_cachedTxs nd -> outcome selRand block nd (Some err) nd' []
| refused_late err nd' preHeader statedb receipts :
    untouched nd nd' -> GetBlockHeader (node_db nd) (h_PreviousBlockHash (b_Header block)) = inl preHeader ->
    applyTxs (S := S) (node_db nd) (nd_accounts nd) block (h_StateHash preHeader) = Some (inl (statedb, receipts)) ->
    update_stem (node_db nd) (tail (b_Transactions block)) (b_Header block) preHeader (nd_stem nd) = Some (nd_stem nd') ->
    outcome selRand block nd (Some err) nd' []
| reached_write r nd1 nd' o preHeader receipts statedb statedb' previousTd difficulty :
    checked block nd preHeader receipts statedb statedb' -> untouched nd nd1 ->
    GetBlockTotalDifficulty (node_db nd) (h_PreviousBlockHash (b_Header block)) = inl previousTd ->
    h_Difficulty (b_Header block) = Some difficulty ->
    write_block block statedb' receipts (previousTd + difficulty) nd1 = Some (r, nd', o) ->
    outcome selRand block nd r nd' o.

Lemma doWriteBlock_outcome selRand block nd r nd' o : store_inv (ch_store (nd_chain nd)) ->
  doWriteBlock selRand block nd = Some (r, nd', o) -> outcome selRand block nd r nd' o.
Proof.
  intros Hi. assert (Hrefl : untouched nd nd) by done. unfold doWriteBlock.
  intros (e & nd1 & o1 & o2 & Ev & Hrun & ->)%bind_inv. destruct (validateBlock_spec _ _ _ _ _ Ev) as (-> & -> & Hval). cbn [app].
  destruct e as [e|]; [|specialize (Hval eq_refl) as (Hv & Htx & Hsz)].
  { injection Hrun as <- <- <-. by apply refused_early. }
  apply bind_inv in Hrun as (pre & nd1 & o3 & o4 & Ep & Hrun & ->).
  destruct (read_chain_spec _ _ _ _ _ _ Hi (GetBlockHeader_law _ _ Hi) Ep) as (Hpre & Hu1 & Hs1 & Hc1 & ->). cbn [app].
  destruct pre as [pre|e]; [|injection Hrun as <- <- <-; by apply refused_early]. symmetry in Hpre.
  apply bind_inv in Hrun as (x & nd1' & o5 & o6 & Ex & Hrun & ->). injection Ex as <- <- <-. cbn [app].
  change (store_db (ch_store (nd_chain nd1))) with (node_db nd1) in Hrun. rewrite (ut_db _ _ Hu1), (ut_accounts _ _ Hu1), Hs1 in Hrun.
  apply bind_inv in Hrun as (ap & nd1' & o7 & o8 & Ea & Hrun & ->).
  destruct (applyTxs (node_db nd) (nd_accounts nd) block (h_StateHash pre)) as [ap'|] eqn:Happ; [|done]. injection Ea as <- <- <-. cbn [app].
  destruct ap' as [[statedb receipts]|e]; [|injection Hrun as <- <- <-; by apply refused_early].
  apply bind_inv in Hrun as (stem & nd1' & o9 & oa & Est & Hrun & ->).
  destruct (update_stem _ _ _ _ _) as [stem'|] eqn:Hstem; [|done]. injection Est as <- <- <-. cbn [app].
  apply bind_inv in Hrun as ([] & nd2 & ob & oc & Em & Hrun & ->). injection Em as <- <-. cbn [app].
  set (nd2 := set_stem nd1 stem') in *. assert (Hu2 : untouched nd nd2) by (destruct Hu1; by constructor).
  assert (Hlate : forall err, outcome selRand block nd (Some err) nd2 []) by (intros; by eapply refused_late).
  apply bind_inv in Hrun as (rr & nd2' & od & oe & Er & Hrun & ->). destruct (ReceiptMerkleRootHash receipts) as [rr'|] eqn:Hrr; [|done].
  injection Er as <- <- <-. cbn [app]. destruct (bytes_eqb rr' _) eqn:Hreq; cbn [negb] in Hrun; [|injection Hrun as <- <- <-; apply Hlate].
  apply bytes_eqb_true in Hreq. subst rr'.
  apply bind_inv in Hrun as (cm & nd2' & og & oh & Ec & Hrun & ->). destruct (state_Commit statedb) as [[[root sd] so]|] eqn:Hcm; [|done].
  injection Ec as <- <- <-. cbn [app]. destruct root as [root|e]; [|injection Hrun as <- <- <-; apply Hlate].
  destruct (bytes_eqb root _) eqn:Hseq; cbn [negb] in Hrun; [|injection Hrun as <- <- <-; apply Hlate].
  apply bytes_eqb_true in Hseq. subst root.
  apply bind_inv in Hrun as ([] & nd3 & oi & oj & Em & Hrun & ->). injection Em as <- <-. cbn [app].
  set (nd3 := set_cachedTxs nd2 _) in *. assert (Hu3 : untouched nd nd3) by (destruct Hu2; by constructor).
  apply bind_inv in Hrun as (td & nd4 & ok & ol & Et & Hrun & ->).
  destruct (read_chain_spec _ _ _ _ _ _ (ut_inv _ _ Hu3) (GetBlockTotalDifficulty_law _ _ (ut_inv _ _ Hu3)) Et) as (Htd & Hu4 & Hs4 & _ & ->).
  cbn [app]. rewrite (ut_db _ _ Hu3) in Htd. pose proof (untouched_trans _ _ _ Hu3 Hu4) as Hu5.
  destruct td as [td|e]; [|injection Hrun as <- <- <-; eapply refused_late; try done; by rewrite Hs4].
  apply bind_inv in Hrun as (df & nd4' & om & on & Ed & Hrun & ->). destruct (h_Difficulty (b_Header block)) as [df'|] eqn:Hdf; [|done].
  injection Ed as <- <- <-. cbn [app]. eapply reached_write; try done. split; eauto using applyTxs_checked.
Qed.

(** The write itself fails with an error of the store only. *)
Lemma write_block_error block statedb receipts td nd err nd' o :
  write_block block statedb receipts td nd = Some (Some err, nd', o) -> exists e, err = errWriteStore e.
Proof.
  unfold write_block. intros ([] & nd1 & o1 & o2 & _ & Hrun & _)%bind_inv. apply bind_inv in Hrun as (e & nd2 & o3 & o4 & _ & Hrun & _).
  destruct e as [e|]; [injection Hrun as <- _ _; by exists e|].
  repeat (apply bind_inv in Hrun as (? & ? & ? & ? & _ & Hrun & _); try (case_match; [])). done.
Qed.
End write.

(** ** Debts *)

Section debts.
Context {T : Type} {HT : TrieOps T}.
Implicit Types (s : Statedb T) (a : Address).

Lemma quiet_balance s s' : quiet_step s s' ->
  forall x, balance s' x = balance s x /\ (is_Some (find_object s' x) <-> is_Some (find_object s x)).
Proof.
  intros Hq x. destruct (qs_equiv _ _ Hq) as [_ _ Ho]. specialize (Ho x). unfold balance.
  inversion Ho as [o o' Hoo E1 E2|E1 E2]; cbn; [|by rewrite !is_Some_alt].
  split; [by rewrite (oe_amount _ _ _ Hoo)|]. split; by eexists.
Qed.

Lemma balance_nonneg s a : st_ok s -> 0 <= balance s a.
Proof.
  intros Hs. unfold balance. destruct (find_object s a) as [o|] eqn:Ho; [|done]. cbn. by apply (find_object_fields _ _ _ Hs) in Ho as (_ & _ & ? & _).
Qed.

Lemma CreateAccount_value s a : st_ok s ->
  wp (CreateAccount a) s (fun _ s' _ => st_ok s' /\ is_Some (find_object s' a) /\ forall x, balance s' x = balance s x).
Proof.
  intros Hs. unfold CreateAccount. apply wp_bind.
  eapply wp_mono; [by apply getStateObject_spec|]. intros r s0 _ (-> & Hq & Hf & _). pose proof (quiet_balance _ _ Hq) as Hb.
  destruct (find_object s a) as [o|] eqn:Ho.
  - apply wp_ret. split; [apply Hq|]. split; [by rewrite Hf|]. intros x. apply Hb.
  - pose proof (create_step s0 a (qs_ok _ _ Hq) Hf) as Hop. unfold journal_add, put_object. wp_seq. split; [by apply op_step_ok in Hop|].
    rewrite find_object_insert, bool_decide_true by done. split; [by eexists|]. intros x. rewrite put_balance by done.
    case_bool_decide; [subst x; unfold balance; by rewrite Ho|]. apply Hb.
Qed.

Definition credited (debts : list Debt) a : Z :=
  foldr (fun d n => (if bool_decide (dd_Account (d_Data d) = a) then dd_Amount (d_Data d) else 0) + n) 0 debts.

(** A debt that can be applied. *)
Definition payable (db : Db) `{StoreCodec} (d : Debt) : Prop :=
  (exists e, GetDebtIndex db (d_Hash d) = inr e) /\ 0 <= dd_Amount (d_Data d) /\ 0 <= dd_Price (d_Data d).

Lemma DebtGas_value : DebtGas = 42000.
Proof. reflexivity. Qed.

Lemma ApplyDebt_value `{StoreCodec} db d coinbase s : st_ok s -> payable db d ->
  wp (ApplyDebtWithoutVerify db d coinbase) s (fun r s' _ => r = None /\ st_ok s' /\
    forall x, x <> coinbase -> balance s' x = balance s x + credited [d] x).
Proof.
  intros Hs ([e He] & Ha & Hp). unfold ApplyDebtWithoutVerify. rewrite He. apply wp_bind. unfold Exist, with_object. apply wp_bind.
  eapply wp_mono; [by apply getStateObject_spec|]. intros r s1 _ (-> & Hq & Hf & _). pose proof (quiet_balance _ _ Hq) as Hb1.
  set (a := dd_Account (d_Data d)) in *.
  assert (Hcreate : wp (if (match find_object s a with Some _ => true | None => false end) then go_ret tt else CreateAccount a) s1
    (fun _ s' _ => st_ok s' /\ is_Some (find_object s' a) /\ forall x, balance s' x = balance s x)).
  { destruct (find_object s a) as [o|] eqn:Ho.
    - apply wp_ret. split; [apply Hq|]. split; [by rewrite Hf|]. intros x. apply Hb1.
    - eapply wp_mono; [apply CreateAccount_value, Hq|]. intros _ s2 _ (H1 & H2 & H3). split; [done|]. split; [done|].
      intros x. rewrite H3. apply Hb1. }
  assert (Hpay : forall s2, st_ok s2 -> is_Some (find_object s2 a) -> (forall x, balance s2 x = balance s x) ->
    wp (if dd_Amount (d_Data d) <? 0 then go_ret (Some errDebtAmount) else if Fee d <? 0 then go_ret (Some errDebtAmount)
        else AddBalance a (dd_Amount (d_Data d)) ;;; AddBalance coinbase (Fee d) ;;; go_ret None) s2
      (fun r s' _ => r = None /\ st_ok s' /\ forall x, x <> coinbase -> balance s' x = balance s x + credited [d] x)).
  { intros s2 Hs2 Hex Hb2. assert (0 <= Fee d) by (unfold Fee; rewrite DebtGas_value; lia). rewrite (proj2 (Z.ltb_ge (dd_Amount (d_Data d)) 0)), (proj2 (Z.ltb_ge (Fee d) 0)) by lia.
    apply wp_bind. eapply wp_mono; [exact (amount_value s2 a (fun b => b + dd_Amount (d_Data d)) Hs2)|]. intros _ s3 _ (Hs3 & Hb3 & _).
    apply wp_bind. eapply wp_mono; [exact (amount_value s3 coinbase (fun b => b + Fee d) Hs3)|]. intros _ s4 _ (Hs4 & Hb4 & _). apply wp_ret.
    split; [done|]. split; [done|]. intros x Hx. rewrite Hb4. unfold balance_set at 1. rewrite bool_decide_false by (intros (? & _); done).
    rewrite Hb3. unfold balance_set, credited. cbn [foldr]. fold a. rewrite <-(Hb2 x). pose proof (balance_nonneg s2 a Hs2).
    destruct (decide (x = a)) as [->|Hxa]; [rewrite (bool_decide_true (a = a)), bool_decide_true by (first [done|split; [done|]; split; [done|lia]]); lia|].
    rewrite !bool_decide_false by (intros E; destruct_and?; congruence). lia. }
  destruct (find_object s a) as [o|]; apply wp_ret; apply wp_bind; (eapply wp_mono; [exact Hcreate|]); intros _ s2 _ (? & ? & ?); by apply Hpay.
Qed.

Lemma apply_debts_value `{StoreCodec} db debts coinbase : forall s, st_ok s -> Forall (payable db) debts ->
  wp (apply_debts db debts coinbase) s (fun r s' _ => r = None /\ forall x, x <> coinbase -> balance s' x = balance s x + credited debts x).
Proof.
  induction debts as [|d debts IH]; intros s Hs Hp; cbn [apply_debts].
  - apply wp_ret. split; [done|]. intros x _. cbn. lia.
  - apply Forall_cons in Hp as [Hd Hp]. apply wp_bind. eapply wp_mono; [by apply ApplyDebt_value|]. intros r s1 _ (-> & Hs1 & Hb1).
    eapply wp_mono; [by apply IH|]. intros r s2 _ (-> & Hb2). split; [done|]. intros x Hx. rewrite Hb2, Hb1 by done.
    unfold credited. cbn [foldr]. lia.
Qed.
End debts.

Lemma Address_Shard_one a : Address_Shard a = 1.
Proof. unfold Address_Shard, Address_Shard_of, ShardCount. by rewrite Z.mod_1_r. Qed.

Lemma local_shard_one `{BlockEnv} : IsShardEnabled = true -> LocalShardNumber = 1.
Proof. unfold IsShardEnabled, UndefinedShardNumber, ShardCount. intros [?%Z.ltb_lt ?%Z.leb_le]%andb_true_iff. lia. Qed.
