(* ===== verification/BlockSpec.v ===== *)
(** * What the processing of blocks promises

    Proposals are accepted, but for those with a challenge; what a refused and what an
    accepted block leave; debts on a chain with one shard. The interpreter of [EvmProcess]
    is a machine that these theorems are about. *)

From Stdlib Require Import ZArith Lia.
From S2P Require Import Prelude Common BftHeader StateDb StateDbProofs Svm SvmProofs EvmWord Evm EvmRun EvmProcess.
From S2P Require Import Trie ChainStore ChainLaws ChainCanon ChainExamples BlockLeaves PoolQueue Pool Merkle Stem StemProofs BlockTypes BlockApply MinerTask BlockProofs.

Open Scope Z_scope.
Open Scope go_scope.

(** C11: What a proposer builds is accepted: when the transactions that the pool
    hands out pass the checks, can be processed after the reward on the
    state of the parent and hold no challenge, then the block that the task
    of a sub-chain miner makes has exactly the reward and these
    transactions, is within the size limit and validates, and every node
    that processes it on the same state, with whatever seal and witness the
    engine puts into the header, gets receipts with the receipt root of the
    header and a state that commits to the state root of the header. *)
Theorem mined_block_is_accepted {S A P T : Type} {HP : MinerPools P} {HT : TrieOps T} {HV : @VmOps T HT} {HL : @VmEnvLaws T HT HV}
    {HN : @NodeEnv S A T HT} `{StoreCodec} `{BlockEnv} `{TrieEnv} `{HeaderCodec} `{MerkleEnv} `{StemEnv} `{MinerEnv}
    db (roots : Roots) parent header time difficulty (p : P) stem (s0 s1 s2 : Statedb T) reward r0 rs o1 o2 t mi o block :
  let txs := handed_out (Datatypes.S (pool_left p)) p BlockByteLimit in
  h_Consensus header = BftConsensus -> Address_IsEmpty (h_Creator header) = false ->
  h_CreateTimestamp header = Some time -> h_Difficulty header = Some difficulty ->
  Forall (fun tx => tx_error tx = None) txs -> Forall (fun tx => IsChallengedTx tx roots = false) txs ->
  NewRewardTx (h_Creator header) 0 (u64 time) = inl reward -> ApplyRewardTx reward s0 = Some (inl r0, s1, o1) ->
  process_txs txs 1 header s1 = Some (inl rs, s2, o2) ->
  applyTransactionsAndDebts db roots parent (NewTask header (h_Creator header)) (mkMining s0 p stem) = Some (inl t, mi, o) ->
  generateBlock t = Some block ->
  b_Transactions block = reward :: txs /\ b_Debts block = [] /\ GetTransactionsSize txs <= BlockByteLimit /\
  block_Validate block = Some None /\
  forall hash sealed, same_env (b_Header block) sealed ->
    exists receipts s' o', apply_block (S := S) (A := A) db (mkBlock hash sealed (b_Transactions block) (b_Debts block)) s0 = Some (inl receipts, s', []) /\
      ReceiptMerkleRootHash receipts = Some (h_ReceiptHash (b_Header block)) /\
      exists s'', state_Commit s' = Some (inl (h_StateHash (b_Header block)), s'', o').
Proof.
  intros txs Hb Hc Ht Hd Hv Hch Hr Ha Hp Hrun Hgen.
  destruct (task_root _ _ _ (NewTask header (h_Creator header)) _ _ _ _ Hb Hrun)
    as (t1 & m1 & t2 & m2 & s' & root & w & oa & ob & oc & Er & Ech & Ecm & Etx & Erc & Ed & Eh).
  destruct (reward_task _ _ _ _ _ _ _ _ _ _ _ _ Hb Ht Hr Ha Er) as [-> ->]. rewrite (no_output o2) in Hp.
  destruct (chooseTransactions_takes roots (Datatypes.S (pool_left p)) (add_tx (NewTask header (h_Creator header)) reward r0) 1
    BlockByteLimit (mkMining s1 p stem) rs s2) as (t3 & p3 & Ech' & Htook).
  { cbn. lia. }
  { done. }
  { eapply Forall_impl; [exact Hch|]. intros tx Htx. unfold no_challenge. rewrite Htx. by destruct (_ =? _). }
  { done. }
  cbn [mi_pool mi_stem] in Ech, Ech'. rewrite Ech' in Ech. injection Ech as <- <- _. cbn [mi_state] in Ecm.
  destruct Htook as [Hh3 Htx3 Hr3 Hd3 _ _]. cbn in Hh3, Htx3, Hr3, Hd3. rewrite Hh3 in Eh. specialize (Eh Hb).
  unfold generateBlock in Hgen. rewrite Etx, Erc, Ed, Htx3, Hr3, Hd3 in Hgen.
  destruct (NewBlock_validates _ _ _ _ _ Hgen) as (Hval & Etxs & Edebts & Erroot & Esroot & Henv).
  rewrite Etxs, Edebts. split; [done|]. split; [done|]. split; [by apply handed_out_size|]. split; [done|].
  intros hash sealed Hsealed. assert (He : same_env header sealed).
  { rewrite <-Hsealed, Henv, Eh. destruct header. cbn in Ht, Hd |- *. subst. done. }
  exists (r0 :: rs), s2, oc. split; [|split; [done|]].
  - eapply apply_block_replays; [by rewrite <-(se_consensus _ _ He)|by rewrite <-(se_creator _ _ He)|by rewrite <-(se_time _ _ He)| |done|done|].
    + by rewrite <-(se_creator _ _ He).
    + rewrite <-(process_txs_env header sealed He). exact Hp.
  - exists s'. rewrite Esroot, Eh. exact Ecm.
Qed.

(** C13: A block that is refused writes nothing but indices: when doWriteBlock
    returns an error that is not one of the write itself, the block
    database, the recovery point, the account database, the leaves and the
    head are as before and nothing has left the node; the index databases of
    the stem chain are as before too, unless the transactions of the block
    could be applied: then the accounts of the block have got indices
    although its receipts or its state do not match the header. *)
Theorem rejected_block_writes_only_indices {S A T : Type} {HC : StoreCodec} {HS : BlockchainStore S} {HSL : StoreLaws S} {HT : TrieOps T}
    {HV : @VmOps T HT} {HN : @NodeEnv S A T HT} `{BlockEnv} `{TrieEnv} `{HeaderCodec} `{MerkleEnv} `{StemEnv}
    selRand (block : Block) (nd nd' : Blockchain (S := S) (A := A)) err o :
  store_inv (ch_store (nd_chain nd)) -> doWriteBlock selRand block nd = Some (Some err, nd', o) -> (forall e, err <> errWriteStore e) ->
  untouched nd nd' /\ o = [] /\
  (nd_stem nd' = nd_stem nd \/
   exists preHeader statedb receipts,
     GetBlockHeader (node_db nd) (h_PreviousBlockHash (b_Header block)) = inl preHeader /\
     applyTxs (S := S) (node_db nd) (nd_accounts nd) block (h_StateHash preHeader) = Some (inl (statedb, receipts)) /\
     update_stem (node_db nd) (tail (b_Transactions block)) (b_Header block) preHeader (nd_stem nd) = Some (nd_stem nd')).
Proof.
  intros Hi Hrun Herr. pose proof (doWriteBlock_outcome _ _ _ _ _ _ Hi Hrun) as Ho.
  inversion Ho as [e nd1 Hu Hs Hc|e nd1 pre sd rs Hu Hp Ha Hs|r nd1 nd2 o2 pre rs sd sd' td df _ _ _ _ Hw]; subst.
  - split; [done|]. split; [done|]. by left.
  - split; [done|]. split; [done|]. right. by exists pre, sd, rs.
  - apply write_block_error in Hw as [e ->]. by destruct (Herr e).
Qed.


(** C16: A challenge makes the proposal worthless: chooseTransactions runs a
    challenge transaction on the state, notes it and stops without putting
    it into the block. The block then has the transactions before the
    challenge and the state root after it. No node accepts it, whatever the
    seal: on every node that has the state of the parent, writing the block
    ends without success, as long as the challenge changes the state root. *)
Theorem challenge_spoils_block {S A P T : Type} {HC : StoreCodec} {HS : BlockchainStore S} {HSL : StoreLaws S} {HP : MinerPools P}
    {HT : TrieOps T} {HV : @VmOps T HT} {HL : @VmEnvLaws T HT HV} {HN : @NodeEnv S A T HT}
    `{BlockEnv} `{TrieEnv} `{HeaderCodec} `{MerkleEnv} `{StemEnv} `{MinerEnv}
    db (roots : Roots) parent header time difficulty (p p' : P) n stem trie (s1 s2 s3 : Statedb T) reward r0 pre tx post rs r o1
    root2 s2' o2 root3 s3' o3 t mi o block :
  let s0 := NewStatedbWithTrie trie in
  h_Consensus header = BftConsensus -> Address_IsEmpty (h_Creator header) = false ->
  h_CreateTimestamp header = Some time -> h_Difficulty header = Some difficulty ->
  GetProcessableTransactions p BlockByteLimit = (pre ++ tx :: post, n, p') ->
  Forall (fun tx => tx_error tx = None) pre -> Forall (fun tx => IsChallengedTx tx roots = false) pre ->
  tx_error tx = None -> IsChallengedTx tx roots = true ->
  NewRewardTx (h_Creator header) 0 (u64 time) = inl reward -> ApplyRewardTx reward s0 = Some (inl r0, s1, o1) ->
  process_txs pre 1 header s1 = Some (inl rs, s2, []) ->
  process_txs [tx] (1 + Z.of_nat (length pre)) header s2 = Some (inl [r], s3, []) ->
  state_Commit s2 = Some (inl root2, s2', o2) -> state_Commit s3 = Some (inl root3, s3', o3) -> root2 <> root3 ->
  applyTransactionsAndDebts db roots parent (NewTask header (h_Creator header)) (mkMining s0 p stem) = Some (inl t, mi, o) ->
  generateBlock t = Some block ->
  b_Transactions block = reward :: pre /\ h_StateHash (b_Header block) = root3 /\
  forall (nd nd' : Blockchain (S := S) (A := A)) preHeader selRand hash sealed res out,
    same_env (b_Header block) sealed -> h_StateHash sealed = h_StateHash (b_Header block) ->
    store_inv (ch_store (nd_chain nd)) -> GetBlockHeader (node_db nd) (h_PreviousBlockHash sealed) = inl preHeader ->
    open_trie (nd_accounts nd) (h_StateHash preHeader) = inl trie ->
    doWriteBlock selRand (mkBlock hash sealed (b_Transactions block) (b_Debts block)) nd = Some (res, nd', out) -> res <> None.
Proof.
  intros s0 Hb Hc Ht Hd Hget Hv Hch Hvt Hcht Hr Ha Hp Hpt Hc2 Hc3 Hne Hrun Hgen.
  destruct (task_root _ _ _ (NewTask header (h_Creator header)) _ _ _ _ Hb Hrun)
    as (t1 & m1 & t2 & m2 & s' & root & w & oa & ob & oc & Er & Ech & Ecm & Etx & Erc & Ed & Eh).
  destruct (reward_task _ _ _ _ _ _ _ _ _ _ _ _ Hb Ht Hr Ha Er) as [-> ->].
  destruct (chooseTransactions_challenge roots (pool_left p) pre tx post n p p' BlockByteLimit
    (add_tx (NewTask header (h_Creator header)) reward r0) 1 s1 stem rs s2 r s3) as (t3 & Ecb & Htook); [done|done|done|done| |done|done|done|done|].
  { eapply Forall_impl; [exact Hch|]. intros x Hx. unfold no_challenge. rewrite Hx. by destruct (_ =? _). }
  cbn [mi_pool] in Ech. rewrite Ecb in Ech. injection Ech as <- <- _. cbn [mi_state] in Ecm. rewrite Hc3 in Ecm. injection Ecm as <- <- _.
  destruct Htook as [Hh3 Htx3 Hr3 Hd3 _ _]. cbn in Hh3, Htx3, Hr3, Hd3. cbn [add_challenged tk_header tk_txs tk_receipts tk_debts] in *.
  rewrite Hh3 in Eh. specialize (Eh Hb).
  unfold generateBlock in Hgen. rewrite Etx, Erc, Ed, Htx3, Hr3, Hd3 in Hgen.
  destruct (NewBlock_validates _ _ _ _ _ Hgen) as (Hval & Etxs & Edebts & Erroot & Esroot & Henv).
  rewrite Etxs, Edebts. split; [done|]. assert (Es : h_StateHash (b_Header block) = root3) by (by rewrite Esroot, Eh). split; [done|].
  intros nd nd' preHeader selRand hash sealed res out Hsealed Hst Hi Hpre Hopen Hwrite ->.
  assert (He : same_env header sealed).
  { rewrite <-Hsealed, Henv, Eh. destruct header. cbn in Ht, Hd |- *. subst. done. }
  pose proof (doWriteBlock_outcome _ _ _ _ _ _ Hi Hwrite) as Ho.
  inversion Ho as [| |r' nd1 nd2 o' pre' rs' sd sd' td df Hck _ _ _ _]; subst r' nd2 o'.
  destruct Hck as [_ _ _ Hpre' Happ _ [oz Hcz]]. cbn [b_Header] in Hpre', Happ, Hcz. rewrite Hpre in Hpre'. injection Hpre' as <-.
  unfold applyTxs in Happ. rewrite Hopen in Happ. fold s0 in Happ.
  rewrite (apply_block_replays (S := S) (A := A) _ hash sealed reward time pre s0 r0 s1 o1 rs s2 []) in Happ.
  - injection Happ as <- <-. rewrite Hc2 in Hcz. injection Hcz as Hroot _ _. congruence.
  - by rewrite <-(se_consensus _ _ He).
  - by rewrite <-(se_creator _ _ He).
  - by rewrite <-(se_time _ _ He).
  - by rewrite <-(se_creator _ _ He).
  - done.
  - done.
  - by rewrite <-(process_txs_env header sealed He).
Qed.

(** C17: On a chain with one shard a debt is either refused or made from
    nothing: a node with its shard set refuses every block with debts
    outside of the eight heights from HeightFloor to HeightRoof, because the
    sender of a debt is always of the own shard; at these heights debts are
    not validated at all, and any list of debts whose hashes are not packed
    yet is paid: every account but that of the proposer gets the sum of the
    amounts for it, the same debt being paid as often as the block lists it. *)
Theorem debts_are_refused_or_minted {S A T : Type} {HT : TrieOps T} {HV : @VmOps T HT} {HN : @NodeEnv S A T HT}
    `{StoreCodec} `{BlockEnv} db (block : Block) (s : Statedb T) :
  IsShardEnabled = true -> b_Debts block <> [] ->
  let height := h_Height (b_Header block) in let coinbase := h_Creator (b_Header block) in
  (height < HeightFloor \/ HeightRoof < height ->
    apply_block (S := S) (A := A) db block s = Some (inr (errBatchDebt errWrongShardNumber), s, [])) /\
  (HeightFloor <= height <= HeightRoof -> st_ok s -> Forall (payable db) (b_Debts block) ->
    exists s', (forall x, x <> coinbase -> balance s' x = balance s x + credited (b_Debts block) x) /\
      apply_block (S := S) (A := A) db block s =
        match b_Transactions block with
        | [] => None
        | rewardTx :: regularTxs => applyRewardAndRegularTxs rewardTx regularTxs (b_Header block) s'
        end).
Proof.
  intros Hshard Hne height coinbase. apply local_shard_one in Hshard. split.
  - intros Hout. unfold apply_block. fold height.
    replace ((HeightRoof <? height) || (height <? HeightFloor)) with true by (symmetry; apply orb_true_iff; rewrite !Z.ltb_lt; lia).
    destruct (b_Debts block) as [|d debts]; [done|]. cbn [BatchValidate]. unfold debt_Validate. by rewrite Address_Shard_one, Hshard.
  - intros Hin Hs Hp. destruct (wp_no_output _ _ _ (apply_debts_value db (b_Debts block) coinbase s Hs Hp)) as (r & s' & E & -> & Hb).
    exists s'. split; [done|]. unfold apply_block. fold height coinbase.
    replace ((HeightRoof <? height) || (height <? HeightFloor)) with false by (symmetry; apply orb_false_iff; rewrite !Z.ltb_ge; lia).
    unfold go_bind at 1. rewrite E. destruct (b_Transactions block) as [|reward txs]; [done|].
    by destruct (applyRewardAndRegularTxs _ _ _ s') as [[[r s2] o]|].
Qed.

(** ** The interpreter *)

Lemma context_env GetBlockHeader from h h' : same_env h h' ->
  newEVMContext GetBlockHeader from h (h_Creator h) = newEVMContext GetBlockHeader from h' (h_Creator h').
Proof.
  intros []. unfold newEVMContext, getHashFunc, first_mapping. by rewrite se_time, se_difficulty, se_height, se_prev, se_creator.
Qed.

(** It sees of a header what it should, when the system contracts do. *)
Lemma evm_vm_env {T : Type} {HT : TrieOps T} {HE : EvmEnv} GetBlockHeader (system_contracts : Address -> option (@contract T HT)) text :
  (forall a c b info h h' input tx s, system_contracts a = Some c -> c !! b = Some info -> same_env h h' ->
    cmdHandler info input tx h s = cmdHandler info input tx h' s) ->
  @VmEnvLaws T HT (evm_vm GetBlockHeader system_contracts text).
Proof.
  intros Hh. split; [|exact Hh]. intros h h' f input s He. cbn [vm_run evm_vm]. by rewrite (context_env _ _ _ _ He).
Qed.

(** ** Examples *)

#[local] Instance ex_vm : @VmOps (gmap bytes bytes) example_trie := evm_vm example_blocks (fun _ => None) (fun _ => []).

#[local] Instance ex_vm_env : @VmEnvLaws (gmap bytes bytes) example_trie ex_vm.
Proof. by apply evm_vm_env. Qed.

#[local] Instance ex_sha : TrieEnv := {| sha_sum b := [foldr Z.add 0 b] |}.
#[local] Existing Instance example_header_codec.

#[local] Instance ex_block_env : BlockEnv := {|
  tx_data_hash d := ex_hash (td_AccountNonce d);
  tx_bytes tx := tx_Hash tx;
  Signature_Verify _ _ _ := true;
  debt_data_hash d := dd_TxHash d;
  debt_bytes d := d_Hash d;
  receipt_bytes r := r_TxHash r;
  emptyTxRootHash := ex_hash 90;
  emptyReceiptRootHash := ex_hash 91;
  LocalShardNumber := 1
|}.

(** A pool that hands out everything at once, when it fits. *)
#[local] Program Instance ex_pool : MinerPools (list Transaction) := {|
  GetProcessableTransactions p size := if GetTransactionsSize p <=? size then (p, GetTransactionsSize p, []) else ([], 0, p);
  pool_RemoveTransaction p _ := p;
  GetProcessableDebts p _ := ([], p);
  RemoveDebtByHash p _ := p;
  pool_left p := length p
|}.
Next Obligation. intros p size. cbn. destruct (GetTransactionsSize p <=? size); cbn; lia. Qed.
Next Obligation. done. Qed.
Next Obligation. done. Qed.
Next Obligation. done. Qed.
Next Obligation. intros p size Hs. cbn. destruct (Z.leb_spec (GetTransactionsSize p) size); cbn; lia. Qed.

#[local] Instance ex_miner_env : MinerEnv := {|
  sign_block _ _ _ _ := Some [];
  encode_second_witness _ _ _ _ _ _ _ _ := Some [];
  decode_account_count _ := Some 0;
  map_order m := (map_to_list m).*1
|}.

Definition ex_root_trie : gmap bytes bytes :=
  match state_Commit svm_state with Some (_, s, _) => sd_trie s | None => ∅ end.

#[local] Instance ex_node_env : @NodeEnv Db unit (gmap bytes bytes) example_trie := {|
  open_trie _ _ := inl ex_root_trie;
  commit_trie _ _ := tt;
  genesis_roots _ := None;
  second_witness_count _ := None;
  now_Unix := 0;
  engine_VerifyHeader _ _ := true;
  debtVerifier := None
|}.
#[local] Existing Instance blockchainDatabase.

Definition ex_parent : BlockHeader := mkHeader [] miner [] [] [] [] [] (Some 1) 0 (Some 1) [] (repeat 0 32) BftConsensus (repeat 0 32).
Definition ex_bft_header : BlockHeader := mkHeader (ex_hash 1) miner [] [] [] [] [] (Some 1) 1 (Some 2) [] [] BftConsensus (repeat 0 32).

(** Alice pays Bob; [stem_roots] makes her the account whose transactions are
    challenges. *)
Definition ex_payment : Transaction := mkTx (ex_hash 5) (mkTxData 0 alice bob 300 5 1 21068 0 [5]) [1].
Definition stem_roots (challenger : Address) : Roots := (ex_account 101, ex_account 102, challenger).

Definition ex_reward : Transaction := mkTx (ex_hash 0) (mkTxData TxTypeReward EmptyAddress miner 0 0 0 0 2 []) [].

Definition ex_task (challenger : Address) :=
  applyTransactionsAndDebts ∅ (stem_roots challenger) ex_parent (NewTask ex_bft_header miner)
    (mkMining (NewStatedbWithTrie ex_root_trie) [ex_payment] (mkStemDbs ∅ ∅)).

Definition ex_state : Statedb (gmap bytes bytes) := NewStatedbWithTrie ex_root_trie.

(** Runs that succeed, checked without their states. *)
Lemma runs_to {St R R' X Y E E' E'' M} (reward : option ((R + E) * St * list Empty_set)) (process : St -> option ((R' + E') * St * list Empty_set))
    (task : option ((X + E'') * M * list Empty_set)) (generate : X -> option Y) :
  match reward with
  | Some (inl _, s1, _) =>
      match process s1, task with
      | Some (inl _, _, _), Some (inl t, _, _) => match generate t with Some _ => true | None => false end
      | _, _ => false
      end
  | _ => false
  end = true ->
  exists s1 r0 o1 rs s2 t mi o block, reward = Some (inl r0, s1, o1) /\ process s1 = Some (inl rs, s2, []) /\
    task = Some (inl t, mi, o) /\ generate t = Some block.
Proof.
  destruct reward as [[[[r0|] s1] o1]|]; [|done..]. destruct (process s1) as [[[[rs|] s2] o2]|] eqn:Hp; [|done..].
  destruct task as [[[[t|] mi] o]|]; [|done..]. destruct (generate t) as [block|] eqn:Hg; [|done]. rewrite (no_output o2) in Hp.
  intros _. by exists s1, r0, o1, rs, s2, t, mi, o, block.
Qed.

Lemma ex_mined : exists s1 r0 o1 rs s2 t mi o block,
  ApplyRewardTx ex_reward ex_state = Some (inl r0, s1, o1) /\
  process_txs [ex_payment] 1 ex_bft_header s1 = Some (inl rs, s2, []) /\
  ex_task (ex_account 103) = Some (inl t, mi, o) /\ generateBlock t = Some block.
Proof.
  apply (runs_to (ApplyRewardTx ex_reward ex_state) (process_txs [ex_payment] 1 ex_bft_header) (ex_task (ex_account 103)) generateBlock).
  vm_compute. reflexivity.
Qed.

Lemma mined_block_is_accepted_witness : exists block,
  b_Transactions block = [ex_reward; ex_payment] /\ block_Validate block = Some None /\
  forall hash sealed, same_env (b_Header block) sealed ->
    exists receipts s', apply_block (S := Db) (A := unit) ∅ (mkBlock hash sealed (b_Transactions block) (b_Debts block)) ex_state = Some (inl receipts, s', []) /\
      ReceiptMerkleRootHash receipts = Some (h_ReceiptHash (b_Header block)).
Proof.
  destruct ex_mined as (s1 & r0 & o1 & rs & s2 & t & mi & o & block & E1 & E2 & E3 & E4). exists block.
  destruct (mined_block_is_accepted (S := Db) (A := unit) ∅ (stem_roots (ex_account 103)) ex_parent ex_bft_header 2 1 [ex_payment]
    (mkStemDbs ∅ ∅) ex_state s1 s2 ex_reward r0 rs o1 [] t mi o block) as (Htx & _ & _ & Hv & Hacc).
  - reflexivity.
  - reflexivity.
  - reflexivity.
  - reflexivity.
  - repeat constructor.
  - repeat constructor.
  - reflexivity.
  - exact E1.
  - exact E2.
  - exact E3.
  - exact E4.
  - split; [exact Htx|]. split; [exact Hv|]. intros hash sealed Hs. destruct (Hacc hash sealed Hs) as (rcs & s' & o' & Ha & Hr & _).
    exists rcs, s'. split; [exact Ha|exact Hr].
Defined.

(** Two states with different roots. *)
Lemma roots_differ {St E} (commit : St -> option ((Hash + E) * St * list Empty_set)) (s s' : St) :
  match commit s, commit s' with Some (inl a, _, _), Some (inl b, _, _) => negb (bytes_eqb a b) | _, _ => false end = true ->
  exists a x o b y o', commit s = Some (inl a, x, o) /\ commit s' = Some (inl b, y, o') /\ a <> b.
Proof.
  destruct (commit s) as [[[[a|] x] o]|]; [|done..]. destruct (commit s') as [[[[b|] y] o']|]; [|done..]. intros Hn.
  exists a, x, o, b, y, o'. split; [done|]. split; [done|]. intros ->. by rewrite bytes_eqb_refl in Hn.
Qed.

Definition ex_after_reward : Statedb (gmap bytes bytes) :=
  match ApplyRewardTx ex_reward ex_state with Some (_, s, _) => s | None => ex_state end.
Definition ex_after_payment : Statedb (gmap bytes bytes) :=
  match process_txs [ex_payment] 1 ex_bft_header ex_after_reward with Some (_, s, _) => s | None => ex_state end.

Lemma ex_challenged : exists r0 o1 r t mi o block,
  ApplyRewardTx ex_reward ex_state = Some (inl r0, ex_after_reward, o1) /\
  process_txs [ex_payment] 1 ex_bft_header ex_after_reward = Some (inl [r], ex_after_payment, []) /\
  ex_task alice = Some (inl t, mi, o) /\ generateBlock t = Some block.
Proof.
  destruct (runs_to (ApplyRewardTx ex_reward ex_state) (process_txs [ex_payment] 1 ex_bft_header) (ex_task alice) generateBlock)
    as (s1 & r0 & o1 & rs & s2 & t & mi & o & block & E1 & E2 & E3 & E4); [vm_compute; reflexivity|].
  assert (Ea : ex_after_reward = s1) by (unfold ex_after_reward; rewrite E1; reflexivity).
  assert (Ep : ex_after_payment = s2) by (unfold ex_after_payment; rewrite Ea, E2; reflexivity).
  pose proof (process_one _ _ _ _ _ _ _ E2) as Hr. destruct Hr as [r ->]. rewrite Ea, Ep. exists r0, o1, r, t, mi, o, block.
  split; [exact E1|]. split; [exact E2|]. split; [exact E3|exact E4].
Qed.

Lemma challenge_spoils_block_witness : exists block,
  b_Transactions block = [ex_reward] /\
  forall (nd nd' : Blockchain (S := Db) (A := unit)) preHeader selRand hash sealed res out,
    same_env (b_Header block) sealed -> h_StateHash sealed = h_StateHash (b_Header block) ->
    GetBlockHeader (H := ex_codec) (node_db nd) (h_PreviousBlockHash sealed) = inl preHeader ->
    doWriteBlock selRand (mkBlock hash sealed (b_Transactions block) (b_Debts block)) nd = Some (res, nd', out) -> res <> None.
Proof.
  destruct ex_challenged as (r0 & o1 & r & t & mi & o & block & E1 & E2 & E3 & E4). exists block.
  destruct (roots_differ state_Commit ex_after_reward ex_after_payment) as (root2 & s2' & o2 & root3 & s3' & o3 & C2 & C3 & Hne);
    [vm_compute; reflexivity|].
  destruct (challenge_spoils_block (S := Db) (A := unit) ∅ (stem_roots alice) ex_parent ex_bft_header 2 1 [ex_payment] [] 178
    (mkStemDbs ∅ ∅) ex_root_trie ex_after_reward ex_after_reward ex_after_payment ex_reward r0 [] ex_payment [] [] r o1
    root2 s2' o2 root3 s3' o3 t mi o block) as (Htx & _ & Hall).
  - reflexivity.
  - reflexivity.
  - reflexivity.
  - reflexivity.
  - reflexivity.
  - constructor.
  - constructor.
  - reflexivity.
  - reflexivity.
  - reflexivity.
  - exact E1.
  - reflexivity.
  - exact E2.
  - exact C2.
  - exact C3.
  - exact Hne.
  - exact E3.
  - exact E4.
  - split; [exact Htx|]. intros nd nd' preHeader selRand hash sealed res out Hs Hst Hp Hw.
    apply (Hall nd nd' preHeader selRand hash sealed res out Hs Hst I Hp eq_refl Hw).
Defined.

(** A codec that keeps the headers and drops the rest, and a node with a genesis block. *)
Definition spec_codec : StoreCodec := {|
  enc_header := @enc_header ex_codec; dec_header := @dec_header ex_codec;
  enc_td := @enc_td ex_codec; dec_td := @dec_td ex_codec;
  enc_body _ := Some []; dec_body _ := Some (mkBody [] []);
  enc_receipts _ := Some []; dec_receipts _ := Some [];
  enc_index := @enc_index ex_codec; dec_index := @dec_index ex_codec
|}.

Definition ex_node : Blockchain (S := Db) (A := unit) :=
  mkBlockchain (mkChain ex_db emptyRp (Json emptyRp)) tt (mkStemDbs ∅ ∅) NewBlockLeaves (ex_block 1 EmptyHash 0) (mkCachedTxs 100 ∅).

Definition ex_mined_block (challenger : Address) : Block :=
  match ex_task challenger with
  | Some (inl t, _, _) => default (ex_block 1 EmptyHash 0) (generateBlock t)
  | _ => ex_block 1 EmptyHash 0
  end.

Definition ex_write (block : Block) :=
  doWriteBlock (H := spec_codec) (H0 := @blockchainDatabase spec_codec) (fun _ => []) block ex_node.

(** The outcome of a run, checked without its state. *)
Lemma outcome_is {St O} (r : option (option WriteError * St * list O)) (check : option WriteError -> bool) :
  match r with Some (res, _, _) => check res | None => false end = true ->
  exists res s o, r = Some (res, s, o) /\ check res = true.
Proof. destruct r as [[[res s] o]|]; [|done]. intros Hc. by exists res, s, o. Qed.


(** A block with a challenge is refused because of its state. *)
Lemma rejected_block_writes_only_indices_witness : exists nd',
  ex_write (ex_mined_block alice) = Some (Some ErrBlockStateHashMismatch, nd', []) /\ untouched (HC := spec_codec) (HS := @blockchainDatabase spec_codec) ex_node nd'.
Proof.
  destruct (outcome_is (ex_write (ex_mined_block alice)) (fun r => match r with Some ErrBlockStateHashMismatch => true | _ => false end))
    as (res & nd' & o & E & Hres); [vm_compute; reflexivity|]. destruct res as [[]|]; try discriminate Hres. exists nd'.
  destruct (rejected_block_writes_only_indices (HC := spec_codec) (HS := @blockchainDatabase spec_codec) (fun _ => []) (ex_mined_block alice) ex_node nd'
    ErrBlockStateHashMismatch o) as (Hu & -> & _).
  - exact I.
  - exact E.
  - discriminate.
  - split; [exact E|exact Hu].
Defined.

(** A debt for Bob that comes from nowhere, listed twice. *)
Definition ex_debt : Debt := mkDebt (ex_hash 9) (mkDebtData (ex_hash 9) alice 0 bob 1000 1 []).

Definition ex_debt_block (height : Z) : Block :=
  mkBlock (ex_hash 8) (mkHeader (ex_hash 1) miner [] [] [] [] [] (Some 1) height (Some 2) [] [] BftConsensus []) [ex_reward] [ex_debt; ex_debt].

Lemma debts_are_refused_or_minted_witness :
  apply_block (S := Db) (A := unit) ∅ (ex_debt_block 1) svm_state = Some (inr (errBatchDebt errWrongShardNumber), svm_state, []) /\
  exists s', balance s' bob = balance svm_state bob + 2000 /\
    apply_block (S := Db) (A := unit) ∅ (ex_debt_block 707990) svm_state
      = applyRewardAndRegularTxs ex_reward [] (b_Header (ex_debt_block 707990)) s'.
Proof.
  destruct (debts_are_refused_or_minted (S := Db) (A := unit) ∅ (ex_debt_block 1) svm_state) as [H1 _]; [reflexivity|discriminate|].
  destruct (debts_are_refused_or_minted (S := Db) (A := unit) ∅ (ex_debt_block 707990) svm_state) as [_ H2]; [reflexivity|discriminate|].
  split; [apply H1; left; reflexivity|]. destruct H2 as (s' & Hb & E).
  - split; discriminate.
  - exact svm_state_ok.
  - assert (Hd : payable ∅ ex_debt) by (split; [exists ErrNotFound; reflexivity|split; discriminate]). constructor; [exact Hd|]. constructor; [exact Hd|]. constructor.
  - exists s'. split; [|exact E]. rewrite Hb; [reflexivity|discriminate].
Defined.
