(* ===== verification/TxBatch.v ===== *)
(** * Checking many transactions

    The cache of signatures of [core/types/transaction.go] cannot be seen in the results.
    [BatchValidate] checks in several goroutines: its runs are the interleavings of the
    steps of the threads on two shared variables, and every one of them agrees with the
    loop of one thread. *)

From Stdlib Require Import ZArith Lia.
From stdpp Require Import relations.
From S2P Require Import Prelude Common BftHeader StateDb Svm ChainStore ChainExamples BlockTypes BlockApply.

Open Scope Z_scope.
Open Scope go_scope.

(** ** The cache of signatures *)

(** Hashes have 32 bytes, and the hash of the data has no collisions. *)
Class TxHashLaws `{BlockEnv} := {
  tx_data_hash_length d : length (tx_data_hash d) = HashLength;
  tx_data_hash_inj d d' : tx_data_hash d = tx_data_hash d' -> d = d'
}.

Section cache.
Context `{TxHashLaws} `{LruLaws}.
Implicit Types (tx : Transaction) (c : lru bytes (option TxError)).

(** What is in the cache is what the check gives. *)
Definition cache_ok c : Prop := forall tx err,
  CalculateHash tx = tx_Hash tx -> lru_peek c (tx_Hash tx ++ tx_Signature tx) = Some err -> err = check_signature tx.

(** The key determines what is checked. *)
Lemma check_signature_key tx tx' : CalculateHash tx = tx_Hash tx -> CalculateHash tx' = tx_Hash tx' ->
  tx_Hash tx ++ tx_Signature tx = tx_Hash tx' ++ tx_Signature tx' -> check_signature tx = check_signature tx'.
Proof.
  intros Hh Hh' E. apply app_inj_1 in E as [E Es]; [|by rewrite <-Hh, <-Hh'; unfold CalculateHash; rewrite !tx_data_hash_length].
  assert (Ed : tx_Data tx = tx_Data tx') by (apply tx_data_hash_inj; unfold CalculateHash in *; congruence).
  unfold check_signature. by rewrite Es, Ed, E.
Qed.

Lemma verifySignature_spec tx c : cache_ok c ->
  wp (verifySignature tx) c (fun r c' _ => r = signature_error tx /\ cache_ok c').
Proof.
  intros Hc. unfold verifySignature, signature_error. destruct (_ =? _)%nat; [by apply wp_ret|].
  destruct (bytes_eqb (CalculateHash tx) (tx_Hash tx)) eqn:Hh; cbn [negb]; [|by apply wp_ret].
  apply bool_decide_eq_true_1 in Hh. wp_seq. set (key := tx_Hash tx ++ tx_Signature tx).
  pose proof (lru_Get_found c key) as Hf. pose proof (lru_Get_peek c key) as Hp.
  destruct (lru_Get c key) as [v c1]. cbn [fst snd] in Hf, Hp. wp_seq.
  assert (Hc1 : cache_ok c1) by (intros tx' err' Hh' Hl; rewrite Hp in Hl; by apply Hc).
  destruct v as [err|].
  - wp_seq. split; [by apply Hc|done].
  - wp_seq. split; [done|]. intros tx' err' Hh' [[Ek ->]|[_ Hl]]%lru_Add_peek; [|by apply Hc1].
    symmetry. by apply check_signature_key.
Qed.

(** [ValidateWithoutState] of one transaction after the other. *)
Fixpoint validate_all (txs : list Transaction) : GoM (lru bytes (option TxError)) Empty_set (list (option TxError)) :=
  match txs with
  | [] => go_ret []
  | tx :: txs' =>
      err <- ValidateWithoutState tx true true ;;
      errs <- validate_all txs' ;;
      go_ret (err :: errs)
  end.

Lemma validate_all_spec txs : forall c, cache_ok c -> wp (validate_all txs) c (fun r c' _ => r = map tx_error txs /\ cache_ok c').
Proof.
  induction txs as [|tx txs IH]; intros c Hc; cbn [validate_all map]; [by apply wp_ret|]. apply wp_bind.
  eapply wp_mono with (Q := fun r c' _ => r = tx_error tx /\ cache_ok c').
  - unfold ValidateWithoutState, tx_error. destruct (validate_fields tx true); [by apply wp_ret|by apply verifySignature_spec].
  - intros r c1 _ [-> Hc1]. apply wp_bind. eapply wp_mono; [by apply IH|]. intros errs c2 _ [-> Hc2]. by apply wp_ret.
Qed.

(** C15: The cache of verified signatures cannot be seen: from an empty cache,
    whatever transactions are validated in whatever order and whatever
    entries the cache drops, every ValidateWithoutState returns what the
    checks and the verification of the signature give for that transaction
    alone. *)
Theorem signature_cache_is_transparent txs :
  exists c', validate_all txs lru_New = Some (map tx_error txs, c', []).
Proof.
  assert (Hnew : cache_ok lru_New) by (intros tx err _ Hl; by rewrite lru_New_peek in Hl).
  destruct (wp_no_output _ _ _ (validate_all_spec txs lru_New Hnew)) as (r & c' & E & -> & _). by exists c'.
Qed.
End cache.

(** ** Many threads *)

(** Where a thread is: before the condition of the loop, in the handler, before the swap
    of [hasErr], before the write of [err], at the end. *)
Inductive BatchPc (E : Type) : Type :=
| AtLoop (j : nat)
| InHandler (j : nat)
| Failing (e : E)
| Writing (e : E)
| Finished.
Arguments AtLoop {E} _.
Arguments InHandler {E} _.
Arguments Failing {E} _.
Arguments Writing {E} _.
Arguments Finished {E}.

Record BatchState (E : Type) := mkBatch { bs_hasErr : bool; bs_err : option E; bs_threads : list (BatchPc E) }.
Arguments mkBatch {E} _ _ _.
Arguments bs_hasErr {E} _.
Arguments bs_err {E} _.
Arguments bs_threads {E} _.

Section batch.
Context {E : Type} (handler : nat -> option E) (len threads : nat).
Implicit Types (st : BatchState E) (pc : BatchPc E).

(** A step of a thread: the new position, and what it does to the shared variables. *)
Definition thread_step (pc : BatchPc E) (hasErr : bool) (err : option E) : option (BatchPc E * bool * option E) :=
  match pc with
  | AtLoop j => Some (if (j <? len)%nat && negb hasErr then InHandler j else Finished, hasErr, err)
  | InHandler j => Some (match handler j with Some e => Failing e | None => AtLoop (j + threads) end, hasErr, err)
  | Failing e => Some (if hasErr then (Finished, true, err) else (Writing e, true, err))
  | Writing e => Some (Finished, hasErr, Some e)
  | Finished => None
  end.

(** Any thread goes on. *)
Inductive batch_step : BatchState E -> BatchState E -> Prop :=
| batch_thread st i pc pc' hasErr err :
    bs_threads st !! i = Some pc -> thread_step pc (bs_hasErr st) (bs_err st) = Some (pc', hasErr, err) ->
    batch_step st (mkBatch hasErr err (<[i := pc']> (bs_threads st))).

Definition batch_start : BatchState E := mkBatch false None (map AtLoop (seq 0 threads)).

(** [wg.Wait]. *)
Definition batch_done st : Prop := Forall (eq Finished) (bs_threads st).

(** ** The invariant *)

Definition fails (e : E) : Prop := exists j, (j < len)%nat /\ handler j = Some e.
Definition passed (i j : nat) : Prop := forall k, (k < j)%nat -> (k < len)%nat -> (k mod threads)%nat = i -> handler k = None.

Definition pc_ok (hasErr : bool) (i : nat) (pc : BatchPc E) : Prop :=
  match pc with
  | AtLoop j => (j mod threads)%nat = i /\ passed i j
  | InHandler j => (j mod threads)%nat = i /\ passed i j /\ (j < len)%nat
  | Failing e => fails e
  | Writing e => fails e /\ hasErr = true
  | Finished => hasErr = true \/ passed i len
  end.

Record batch_ok st : Prop := {
  bo_length : length (bs_threads st) = threads;
  bo_pcs i pc : bs_threads st !! i = Some pc -> pc_ok (bs_hasErr st) i pc;
  bo_err e : bs_err st = Some e -> bs_hasErr st = true /\ fails e;
  bo_hasErr : bs_hasErr st = true -> is_Some (bs_err st) \/ exists i e, bs_threads st !! i = Some (Writing e)
}.

Lemma pc_ok_mono hasErr i pc : pc_ok hasErr i pc -> pc_ok true i pc.
Proof. destruct pc; cbn; naive_solver. Qed.

Lemma batch_start_ok : batch_ok batch_start.
Proof.
  split; cbn; [by rewrite length_map, length_seq| |done|done].
  intros i pc. rewrite list_lookup_fmap. destruct (seq 0 threads !! i) as [j|] eqn:Hj; [|done]. cbn. intros [= <-].
  apply lookup_seq in Hj as [-> Hi]. cbn. split; [by apply Nat.mod_small|]. intros k Hk _ Hm. exfalso.
  rewrite Nat.mod_small in Hm by lia. lia.
Qed.

Lemma passed_next i j : (0 < threads)%nat -> passed i j -> (j mod threads)%nat = i -> handler j = None -> passed i (j + threads).
Proof.
  intros Ht Hp Hj Hh k Hk Hl Hm. destruct (Nat.lt_trichotomy k j) as [Hlt|[->|Hgt]]; [by apply Hp|done|]. exfalso.
  pose proof (Nat.div_mod_eq k threads). pose proof (Nat.div_mod_eq j threads).
  assert (k / threads = j / threads)%nat by (assert (k / threads < j / threads + 1)%nat by nia; nia). nia.
Qed.

Lemma batch_step_ok st st' : (0 < threads)%nat -> batch_ok st -> batch_step st st' -> batch_ok st'.
Proof.
  intros Ht [Hl Hp He Hh] Hs. destruct Hs as [st i pc pc' h e Hi Hstep]. pose proof (Hp i pc Hi) as Hpc.
  pose proof (lookup_lt_Some _ _ _ Hi) as Hlt.
  assert (Hmono : bs_hasErr st = true -> h = true).
  { intros Hb. destruct pc; cbn in Hstep; try injection Hstep as <- <- <-; try done. rewrite Hb in Hstep. by injection Hstep as _ <- _. }
  assert (Hothers : forall k q, bs_threads st !! k = Some q -> pc_ok h k q).
  { intros k q Hk. pose proof (Hp k q Hk) as Hq. destruct h; [by apply pc_ok_mono in Hq|]. destruct (bs_hasErr st); [by specialize (Hmono eq_refl)|done]. }
  assert (Hnew : pc_ok h i pc' /\ (forall x, e = Some x -> h = true /\ fails x) /\
    (h = true -> is_Some e \/ (exists x, pc' = Writing x) \/ exists k x, k <> i /\ bs_threads st !! k = Some (Writing x))).
  { assert (Hkeep : bs_hasErr st = true -> (forall x, pc <> Writing x) ->
      is_Some (bs_err st) \/ (exists x, pc' = Writing x) \/ exists k x, k <> i /\ bs_threads st !! k = Some (Writing x)).
    { intros Hb Hpcw. destruct (Hh Hb) as [|(k & x & Hk)]; [by left|]. right. right. exists k, x. split; [|done]. intros ->. naive_solver. }
    destruct pc as [j|j|x|x|]; cbn [thread_step pc_ok] in Hstep, Hpc.
    - injection Hstep as <- <- <-. split; [|split; [done|by auto]]. destruct Hpc as [Hm Hpass].
      destruct (Nat.ltb_spec j len); cbn [andb]; [destruct (bs_hasErr st); cbn; by auto|]. cbn. right. intros k Hk. apply Hpass. lia.
    - injection Hstep as <- <- <-. split; [|split; [done|by auto]]. destruct Hpc as (Hm & Hpass & Hj).
      destruct (handler j) as [x|] eqn:Hx; cbn; [by exists j|]. split; [|by apply passed_next].
      by rewrite <-Hm, <-(Nat.mul_1_l threads) at 1; rewrite Nat.Div0.mod_add.
    - destruct (bs_hasErr st) eqn:Hb; injection Hstep as <- <- <-.
      + split; [by left|]. split; [by intros y Hy; apply He|]. intros _. by apply Hkeep.
      + split; [done|]. split; [intros y Hy; apply He in Hy as [? _]; congruence|]. intros _. right. left. by exists x.
    - injection Hstep as <- <- <-. destruct Hpc as [Hf Hb]. split; [by left|]. split; [by intros y [= <-]|]. by left.
    - done. }
  destruct Hnew as (Hpc' & Herr & Hhas). split; cbn.
  - by rewrite length_insert.
  - intros k q [(<- & <- & _)|[_ Hk]]%list_lookup_insert_Some; [done|by apply Hothers].
  - done.
  - intros Hb. destruct (Hhas Hb) as [|[[x ->]|(k & x & Hk & Hkx)]]; [by left|right..].
    + exists i, x. by rewrite list_lookup_insert_eq.
    + exists k, x. by rewrite list_lookup_insert_ne.
Qed.

(** ** Ending *)

Definition pc_left (pc : BatchPc E) : nat :=
  match pc with
  | AtLoop j => 2 * (len - j) + 3
  | InHandler j => 2 * (len - j) + 2
  | Failing _ => 2
  | Writing _ => 1
  | Finished => 0
  end.

(** The steps that are left. *)
Definition batch_left st : nat := sum_list_with pc_left (bs_threads st).

Lemma insert_left (l : list (BatchPc E)) i pc pc' : l !! i = Some pc -> (pc_left pc' < pc_left pc)%nat ->
  (sum_list_with pc_left (<[i := pc']> l) < sum_list_with pc_left l)%nat.
Proof.
  revert i. induction l as [|q l IH]; intros [|i] Hi Hlt; [done|done|injection Hi as ->; cbn; lia|].
  change (pc_left q + sum_list_with pc_left (<[i := pc']> l) < pc_left q + sum_list_with pc_left l)%nat.
  specialize (IH i Hi Hlt). lia.
Qed.

Lemma batch_step_left st st' : (0 < threads)%nat -> batch_ok st -> batch_step st st' -> (batch_left st' < batch_left st)%nat.
Proof.
  intros Ht Hok Hs. destruct Hs as [st i pc pc' h e Hi Hstep]. pose proof (bo_pcs _ Hok i pc Hi) as Hpc.
  unfold batch_left. cbn. eapply insert_left; [exact Hi|]. destruct pc as [j|j|x|x|]; cbn [thread_step pc_ok] in Hstep, Hpc.
  - injection Hstep as <- _ _. destruct (_ && _); cbn; lia.
  - injection Hstep as <- _ _. destruct Hpc as (_ & _ & Hj). destruct (handler j); cbn; lia.
  - destruct (bs_hasErr st); injection Hstep as <- _ _; cbn; lia.
  - injection Hstep as <- _ _. cbn. lia.
  - done.
Qed.

Lemma batch_steps_ok st : (0 < threads)%nat -> rtc batch_step batch_start st -> batch_ok st.
Proof.
  intros Ht Hr. assert (Hinv : forall a b, rtc batch_step a b -> batch_ok a -> batch_ok b).
  { induction 1 as [|a b c Hs _ IH]; [done|]. intros Ha. apply IH. by eapply batch_step_ok. }
  eapply Hinv; [exact Hr|apply batch_start_ok].
Qed.

Lemma batch_bounded n st : (0 < threads)%nat -> nsteps batch_step n batch_start st -> (n + batch_left st <= batch_left batch_start)%nat.
Proof.
  intros Ht Hn. assert (Hb : forall a b k, nsteps batch_step k a b -> batch_ok a -> (k + batch_left b <= batch_left a)%nat).
  { intros a b k Hk. induction Hk as [|k a b c Hs _ IH]; intros Ha; [done|]. pose proof (batch_step_left _ _ Ht Ha Hs).
    specialize (IH (batch_step_ok _ _ Ht Ha Hs)). lia. }
  by apply Hb; [|apply batch_start_ok].
Qed.

Lemma finished_or_not (l : list (BatchPc E)) : Forall (eq Finished) l \/ exists i pc, l !! i = Some pc /\ pc <> Finished.
Proof.
  induction l as [|pc l IH]; [by left; constructor|]. assert (Hpc : pc = Finished \/ pc <> Finished) by (destruct pc; by auto).
  destruct Hpc as [->|Hne]; [|right; by exists 0%nat, pc]. destruct IH as [|(i & q & Hi & Hq)]; [left; by constructor|right; by exists (S i), q].
Qed.

Lemma batch_progress st : batch_done st \/ exists st', batch_step st st'.
Proof.
  destruct (finished_or_not (bs_threads st)) as [|(i & pc & Hi & Hpc)]; [by left|right].
  assert (Hs : exists r, thread_step pc (bs_hasErr st) (bs_err st) = Some r) by (destruct pc; cbn; by eauto).
  destruct Hs as [[[pc' h] e] Hs]. eexists. by econstructor.
Qed.

Lemma batch_result st : (0 < threads)%nat -> batch_ok st -> batch_done st ->
  (bs_err st = None <-> forall j, (j < len)%nat -> handler j = None) /\ (forall e, bs_err st = Some e -> fails e).
Proof.
  intros Ht Hok Hd. assert (Hfin : forall i pc, bs_threads st !! i = Some pc -> pc = Finished).
  { intros i pc Hi. symmetry. exact (Forall_lookup_1 _ _ _ _ Hd Hi). }
  split; [|intros e He; by apply (bo_err _ Hok)]. destruct (bs_hasErr st) eqn:Hb.
  - destruct (bo_hasErr _ Hok Hb) as [[e He]|(i & e & Hi)]; [|by apply Hfin in Hi]. rewrite He. split; [done|]. intros Hall.
    destruct (bo_err _ Hok e He) as [_ (j & Hj & Hje)]. by rewrite Hall in Hje.
  - split.
    + intros _ j Hj. assert (Hi : (j mod threads < length (bs_threads st))%nat) by (rewrite (bo_length _ Hok); apply Nat.mod_upper_bound; lia).
      destruct (lookup_lt_is_Some_2 _ _ Hi) as [pc Hpc]. pose proof (bo_pcs _ Hok _ _ Hpc) as Hp. rewrite (Hfin _ _ Hpc), Hb in Hp.
      destruct Hp as [|Hp]; [done|]. by apply (Hp j).
    + intros _. destruct (bs_err st) as [e|] eqn:He; [|done]. by destruct (bo_err _ Hok e He) as [Hb' _]; rewrite Hb in Hb'.
Qed.
End batch.

Lemma BatchValidate_None {X E} (f : X -> option E) l : BatchValidate f l = None <-> forall j x, l !! j = Some x -> f x = None.
Proof.
  induction l as [|x l IH]; cbn; [by split; [intros _ j y ?|]|]. destruct (f x) as [e|] eqn:Hx.
  - split; [done|]. intros Hall. by specialize (Hall 0%nat x eq_refl); rewrite Hx in Hall.
  - rewrite IH. split; [|by intros Hall j y Hj; apply (Hall (S j))]. intros Hall [|j] y; [by intros [= <-]|]. apply Hall.
Qed.

(** C14: However the goroutines of BatchValidate are scheduled, the check ends
    and returns nil exactly when the loop of one thread would: for every
    list and every number of threads, no run takes more steps than a bound
    known at the start, a run that is not at its end can go on, and when all
    threads have finished the shared error is nil if and only if every item
    passes; an error that is returned is the error of one of the items. *)
Theorem BatchValidate_any_schedule {X E : Type} (check : X -> option E) (items : list X) (threads : nat) st :
  (0 < threads)%nat ->
  let handler j := match items !! j with Some x => check x | None => None end in
  rtc (batch_step handler (length items) threads) (batch_start threads) st ->
  (batch_done st \/ exists st', batch_step handler (length items) threads st st') /\
  (forall n, nsteps (batch_step handler (length items) threads) n (batch_start threads) st ->
    (n <= batch_left (length items) (batch_start (E := E) threads))%nat) /\
  (batch_done st ->
    (bs_err st = None <-> BatchValidate check items = None) /\
    forall e, bs_err st = Some e -> exists x, x ∈ items /\ check x = Some e).
Proof.
  intros Ht handler Hr. split; [apply batch_progress|]. split.
  { intros n Hn. pose proof (batch_bounded handler (length items) threads n st Ht Hn). lia. }
  intros Hd. destruct (batch_result handler (length items) threads st Ht (batch_steps_ok _ _ _ _ Ht Hr) Hd) as [Hn He]. split.
  - rewrite Hn, BatchValidate_None. unfold handler. split.
    + intros Hall j x Hj. specialize (Hall j (lookup_lt_Some _ _ _ Hj)). by rewrite Hj in Hall.
    + intros Hall j Hj. destruct (items !! j) as [x|] eqn:Hx; [|done]. by eapply Hall.
  - intros e Hes. destruct (He e Hes) as (j & Hj & Hje). unfold handler in Hje. destruct (items !! j) as [x|] eqn:Hx; [|done].
    exists x. split; [by eapply list_elem_of_lookup_2|done].
Qed.

(** ** Examples *)

#[local] Instance ex_hash_env : BlockEnv := {|
  tx_data_hash d := Zpos (encode (td_Type d :: td_Amount d :: td_AccountNonce d :: td_GasPrice d :: td_GasLimit d :: td_Timestamp d
    :: Z.of_nat (length (td_From d)) :: Z.of_nat (length (td_To d)) :: td_From d ++ td_To d ++ td_Payload d)) :: repeat 0 31;
  tx_bytes tx := tx_Hash tx;
  Signature_Verify sig _ _ := bool_decide (sig = [1]);
  debt_data_hash d := dd_TxHash d;
  debt_bytes d := d_Hash d;
  receipt_bytes r := r_TxHash r;
  emptyTxRootHash := ex_hash 90;
  emptyReceiptRootHash := ex_hash 91;
  LocalShardNumber := 1
|}.

#[local] Instance ex_hash_laws : TxHashLaws.
Proof.
  split; [done|]. intros d d' E. cbn in E. injection E as E. apply (inj encode) in E.
  injection E as E1 E2 E3 E4 E5 E6 E7 E8 E9. apply Nat2Z.inj in E7, E8. apply app_inj_1 in E9 as [Ef E9]; [|done].
  apply app_inj_1 in E9 as [Et Ep]; [|done]. destruct d, d'. cbn in *. by subst.
Qed.

Definition ex_signed (nonce : Z) (sig : bytes) : Transaction :=
  let d := mkTxData 0 (ex_hash 1) (ex_hash 2) 1 nonce 1 21068 0 [1] in mkTx (tx_data_hash d) d sig.

(** The third transaction is found in the cache, the second is not valid. *)
Lemma signature_cache_is_transparent_witness :
  exists c', validate_all [ex_signed 1 [1]; ex_signed 1 [2]; ex_signed 1 [1]] lru_New = Some ([None; Some ErrSigInvalid; None], c', []).
Proof. exact (signature_cache_is_transparent [ex_signed 1 [1]; ex_signed 1 [2]; ex_signed 1 [1]]). Defined.

(** A number is refused when it is not zero. *)
Definition ex_check (n : nat) : option nat := match n with O => None | S _ => Some n end.

Lemma ex_schedule : exists st, bs_err st = Some 5%nat /\ batch_done st /\
  rtc (batch_step (fun j => match [0; 5; 0]%nat !! j with Some x => ex_check x | None => None end) 3 2) (batch_start 2) st.
Proof.
  eexists. split; [|split].
  3: { do 4 (eapply rtc_l; [eapply (batch_thread _ _ _ _ 1); reflexivity|]).
       eapply rtc_l; [eapply (batch_thread _ _ _ _ 0); reflexivity|]. apply rtc_refl. }
  - reflexivity.
  - by repeat constructor.
Qed.

Lemma BatchValidate_any_schedule_witness :
  exists st, batch_done st /\ bs_err st = Some 5%nat /\ BatchValidate ex_check [0; 5; 0]%nat <> None.
Proof.
  destruct ex_schedule as (st & He & Hd & Hr). exists st. split; [exact Hd|]. split; [exact He|].
  destruct (BatchValidate_any_schedule ex_check [0; 5; 0]%nat 2 st) as (_ & _ & Hres).
  - lia.
  - exact Hr.
  - destruct (Hres Hd) as [Hn _]. intros E. apply Hn in E. congruence.
Defined.
