(* ===== verification/Download.v ===== *)
(** * Downloading blocks

    Models [seele/download]: the answers that a connection waits for ([peer.go]), the manager
    of the tasks of a session ([taskMgr.go]), the search for the common ancestor and the
    goroutine of a peer ([downloader.go]); and the other side of the line, the answers that
    [seele/seeleprotocol.go] gives to the requests. The methods of the manager hold its
    lock, so that a session is an interleaving of them. A [downloadInfo] is shared through its
    pointer: here it is its position in the list. A panic is [None]. *)

From Stdlib Require Import ZArith Lia.
From S2P Require Import Prelude Common BftHeader StateDb Svm ChainStore.

Open Scope Z_scope.
Open Scope go_scope.

Abbreviation PeerID := (list Z).

Definition GetBlockHeadersMsg : Z := 8.
Definition BlockHeadersMsg : Z := 9.
Definition GetBlocksMsg : Z := 10.
Definition BlocksPreMsg : Z := 11.
Definition BlocksMsg : Z := 12.

Definition MaxBlockFetch : Z := 10.
Definition MaxHeaderFetch : Z := 256.
Definition MaxForkAncestry : Z := 90000.
Definition MaxMessageLength : Z := 2 * 1024 * 1024.

(** ** [peer.go] *)

Inductive WaitError : Type :=
| errReceivedQuitMsg
| errPeerQuit.

(** What happens while a connection waits. *)
Inductive PeerEvent : Type :=
| EvQuit
| EvCancel
| EvTimeout
| EvMsg (msgCode : Z) (payload : bytes).

(** [waitMsg], with [deliverMsg], which drops the messages of a code that nobody waits for. A
    connection waits for one message at a time. [None]: it still waits. *)
Fixpoint waitMsg {A} (decode : bytes -> option (Z * A)) (magic msgCode : Z) (events : list PeerEvent)
    : option ((A + WaitError) * list PeerEvent) :=
  match events with
  | [] => None
  | EvQuit :: events' => Some (inr errPeerQuit, events')
  | EvCancel :: events' => Some (inr errReceivedQuitMsg, events')
  | EvTimeout :: events' => Some (inr errReceivedQuitMsg, events')
  | EvMsg code payload :: events' =>
      if negb (code =? msgCode) then waitMsg decode magic msgCode events'
      else
        match decode payload with
        | None => waitMsg decode magic msgCode events'
        | Some (m, ret) => if m =? magic then Some (inl ret, events') else waitMsg decode magic msgCode events'
        end
  end.

(** A peer: its head, and what waiting for the answer to a request gives. *)
Record RemotePeer := mkPeer {
  peer_Head : Hash;
  RequestHeadersByHashOrNumber : Hash -> Z -> Z -> bool -> list BlockHeader + WaitError;
  RequestBlocksByHashOrNumber : Hash -> Z -> Z -> list Block + WaitError
}.

(** ** [taskMgr.go] *)

Definition taskStatusIdle : Z := 0.
Definition taskStatusDownloading : Z := 1.
Definition taskStatusWaitProcessing : Z := 2.
Definition taskStatusProcessed : Z := 3.

Definition maxBlocksWaiting : Z := 1024.

Inductive TaskError : Type :=
| errMasterHeadersNotMatch
| errHeadInfoNotFound.

Record downloadInfo := mkInfo {
  di_header : BlockHeader;
  di_block : option Block;
  di_peerID : PeerID;
  di_status : Z
}.

Record peerHeadInfo := mkHeadInfo { phi_headers : gmap Z BlockHeader; phi_maxNo : Z }.

Definition newPeerHeadInfo : peerHeadInfo := mkHeadInfo ∅ 0.

Record taskMgr := mkTaskMgr {
  tm_fromNo : Z;
  tm_toNo : Z;
  tm_curNo : Z;
  tm_downloadedNum : Z;
  tm_recoverHeight : Z;
  tm_recoverTD : Z;
  tm_recoverBlocks : list Block;
  tm_peersHeaderMap : gmap PeerID peerHeadInfo;
  tm_downloadInfoList : list downloadInfo;
  tm_masterPeer : PeerID
}.

Definition set_curNo (n : Z) (t : taskMgr) : taskMgr :=
  mkTaskMgr (tm_fromNo t) (tm_toNo t) n (tm_downloadedNum t) (tm_recoverHeight t) (tm_recoverTD t) (tm_recoverBlocks t)
    (tm_peersHeaderMap t) (tm_downloadInfoList t) (tm_masterPeer t).
Definition set_downloadedNum (n : Z) (t : taskMgr) : taskMgr :=
  mkTaskMgr (tm_fromNo t) (tm_toNo t) (tm_curNo t) n (tm_recoverHeight t) (tm_recoverTD t) (tm_recoverBlocks t)
    (tm_peersHeaderMap t) (tm_downloadInfoList t) (tm_masterPeer t).
Definition set_headInfo (id : PeerID) (i : peerHeadInfo) (t : taskMgr) : taskMgr :=
  mkTaskMgr (tm_fromNo t) (tm_toNo t) (tm_curNo t) (tm_downloadedNum t) (tm_recoverHeight t) (tm_recoverTD t)
    (tm_recoverBlocks t) (<[id := i]> (tm_peersHeaderMap t)) (tm_downloadInfoList t) (tm_masterPeer t).
Definition set_infos (l : list downloadInfo) (t : taskMgr) : taskMgr :=
  mkTaskMgr (tm_fromNo t) (tm_toNo t) (tm_curNo t) (tm_downloadedNum t) (tm_recoverHeight t) (tm_recoverTD t)
    (tm_recoverBlocks t) (tm_peersHeaderMap t) l (tm_masterPeer t).

(** The largest number of pointers that [make] allocates. *)
Definition maxPointers : Z := 2 ^ 48 / 8.

Definition newTaskMgr (masterPeer : PeerID) (from to localHeight localTD : Z) (localBlocks : list Block) : option taskMgr :=
  if maxPointers <? u64 (to - from + 1) then None
  else Some (mkTaskMgr from to from 0 localHeight localTD localBlocks ∅ [] masterPeer).

(** [t.downloader.Cancel()] *)
Inductive TaskEffect : Type := CancelSession.

Abbreviation TmM A := (GoM taskMgr TaskEffect A).

(** The sub-slice of the list from a position on; the bound is checked. *)
Definition infos_from (t : taskMgr) (pos : Z) : option (list downloadInfo) :=
  if (0 <=? pos) && (pos <=? Z.of_nat (length (tm_downloadInfoList t)))
  then Some (drop (Z.to_nat pos) (tm_downloadInfoList t)) else None.

(** Write back what a loop over the sub-slice has changed. *)
Definition set_infos_from (pos : Z) (l : list downloadInfo) (t : taskMgr) : taskMgr :=
  set_infos (take (Z.to_nat pos) (tm_downloadInfoList t) ++ l) t.

Fixpoint count_waiting (l : list downloadInfo) : nat :=
  match l with
  | info :: l' => if di_status info =? taskStatusWaitProcessing then S (count_waiting l') else O
  | [] => O
  end.

(** The positions of the blocks to process. The list never gets shorter than what has been
    handed over, so that the slice is within its length. *)
Definition getWaitProcessingBlocks : TmM (list nat) :=
  t <- go_get ;;
  let startPos := i64 (u64 (tm_curNo t - tm_fromNo t)) in
  l <- go_deref (infos_from t startPos) ;;
  let num := count_waiting l in
  go_modify (set_curNo (u64 (tm_curNo t + Z.of_nat num))) ;;;
  go_ret (seq (Z.to_nat startPos) num).

Definition getReqHeaderInfo (peerID : PeerID) : TmM (Z * Z) :=
  t <- go_get ;;
  let headInfo := default newPeerHeadInfo (tm_peersHeaderMap t !! peerID) in
  let headers := filter (fun p : Z * BlockHeader => ~ p.1 < tm_curNo t) (phi_headers headInfo) in
  let request (startNo : Z) : TmM (Z * Z) :=
    if (startNo =? u64 (tm_toNo t + 1)) || (MaxHeaderFetch <=? u64 (startNo - tm_curNo t)) then go_ret (0, 0)
    else go_ret (startNo,
      if u64 (tm_toNo t + 1 - startNo) <? MaxHeaderFetch then i64 (u64 (tm_toNo t - startNo + 1)) else MaxHeaderFetch) in
  if bytes_eqb peerID (tm_masterPeer t) then
    go_modify (set_headInfo peerID (mkHeadInfo headers (phi_maxNo headInfo))) ;;;
    let startNo := u64 (tm_fromNo t + Z.of_nat (length (tm_downloadInfoList t))) in
    if maxBlocksWaiting <? u64 (startNo - tm_curNo t) then go_ret (0, 0) else request startNo
  else if (size headers =? 0)%nat then
    go_modify (set_headInfo peerID (mkHeadInfo headers 0)) ;;; request (tm_curNo t)
  else
    go_modify (set_headInfo peerID (mkHeadInfo headers (phi_maxNo headInfo))) ;;; request (u64 (phi_maxNo headInfo + 1)).

Definition assign (peerID : PeerID) (info : downloadInfo) : downloadInfo :=
  mkInfo (di_header info) (di_block info) peerID taskStatusDownloading.

Definition set_status (status : Z) (info : downloadInfo) : downloadInfo :=
  mkInfo (di_header info) (di_block info) (di_peerID info) status.

(** ** Assigning blocks *)

Section hash.
Context `{HeaderCodec}.

(** The peer has the block of the master at this height. *)
Definition peer_has (headers : gmap Z BlockHeader) (no : Z) (info : downloadInfo) : bool :=
  match headers !! no with
  | Some h => bytes_eqb (header_Hash h) (header_Hash (di_header info))
  | None => false
  end.

(** The first loop of [getReqBlocks]. *)
Fixpoint first_block (headers : gmap Z BlockHeader) (peerID : PeerID) (l : list downloadInfo) : option (Z * list downloadInfo) :=
  match l with
  | [] => None
  | info :: l' =>
      if (di_status info =? taskStatusIdle) && peer_has headers (h_Height (di_header info)) info
      then Some (h_Height (di_header info), assign peerID info :: l')
      else match first_block headers peerID l' with
           | Some (startNo, l2) => Some (startNo, info :: l2)
           | None => None
           end
  end.

(** The second loop. *)
Fixpoint more_blocks (headers : gmap Z BlockHeader) (peerID : PeerID) (startNo amount : Z) (l : list downloadInfo) : list downloadInfo * Z :=
  match l with
  | [] => ([], amount)
  | info :: l' =>
      if di_status info =? taskStatusIdle then
        if negb (peer_has headers (u64 (startNo + amount)) info) then (l, amount)
        else if amount <? MaxBlockFetch then
          let '(l2, amount2) := more_blocks headers peerID startNo (amount + 1) l' in (assign peerID info :: l2, amount2)
        else (l, amount)
      else (l, amount)
  end.

Definition getReqBlocks (peerID : PeerID) : TmM (Z * Z) :=
  t <- go_get ;;
  match tm_peersHeaderMap t !! peerID with
  | None => go_ret (0, 0)
  | Some headInfo =>
      let headers := phi_headers headInfo in
      if (size headers =? 0)%nat then go_ret (0, 0)
      else
        let cur := u64 (tm_curNo t - tm_fromNo t) in
        l <- go_deref (infos_from t cur) ;;
        match first_block headers peerID l with
        | None => go_ret (0, 0)
        | Some (startNo, l2) =>
            go_modify (set_infos_from cur l2) ;;;
            t <- go_get ;;
            let next := u64 (startNo + 1 - tm_fromNo t) in
            l <- go_deref (infos_from t next) ;;
            let '(l3, amount) := more_blocks headers peerID startNo 1 l in
            go_modify (set_infos_from next l3) ;;;
            go_ret (startNo, amount)
        end
  end.
End hash.

Definition isDone (t : taskMgr) : bool := tm_curNo t =? u64 (tm_toNo t + 1).

Definition onPeerQuit (peerID : PeerID) : TmM unit :=
  t <- go_get ;;
  let cur := u64 (tm_curNo t - tm_fromNo t) in
  l <- go_deref (infos_from t cur) ;;
  go_modify (set_infos_from cur (map (fun info =>
    if (di_status info =? taskStatusDownloading) && bytes_eqb (di_peerID info) peerID
    then mkInfo (di_header info) (di_block info) [] taskStatusIdle else info) l)).

Definition add_header (headInfo : peerHeadInfo) (h : BlockHeader) : peerHeadInfo :=
  mkHeadInfo (<[h_Height h := h]> (phi_headers headInfo))
    (if phi_maxNo headInfo <? h_Height h then h_Height h else phi_maxNo headInfo).

Definition deliverHeaderMsg (peerID : PeerID) (headers : list BlockHeader) : TmM (option TaskError) :=
  match headers with
  | [] => go_ret None
  | first :: _ =>
      t <- go_get ;;
      let isMaster := bytes_eqb peerID (tm_masterPeer t) in
      let lastNo := u64 (tm_fromNo t + Z.of_nat (length (tm_downloadInfoList t))) in
      if isMaster && negb (lastNo =? h_Height first) then go_ret (Some errMasterHeadersNotMatch)
      else
        (if isMaster
         then go_modify (set_infos (tm_downloadInfoList t ++ map (fun h => mkInfo h None [] taskStatusIdle) headers))
         else go_ret tt) ;;;
        match tm_peersHeaderMap t !! peerID with
        | None => go_ret (Some errHeadInfoNotFound)
        | Some headInfo => go_modify (set_headInfo peerID (foldl add_header headInfo headers)) ;;; go_ret None
        end
  end.

(** The first loop of [deliverBlockMsg]: the height of the last block that is taken. *)
Fixpoint place_blocks (peerID : PeerID) (blocks : list Block) (toHeight : Z) : TmM Z :=
  match blocks with
  | [] => go_ret toHeight
  | b :: blocks' =>
      t <- go_get ;;
      let idx := i64 (u64 (h_Height (b_Header b) - tm_fromNo t)) in
      if idx <? 0 then go_panic
      else
        headInfo <- go_deref (tm_downloadInfoList t !! Z.to_nat idx) ;;
        if negb (bytes_eqb (di_peerID headInfo) peerID) then place_blocks peerID blocks' toHeight
        else
          go_modify (fun t => set_downloadedNum (u64 (tm_downloadedNum t + 1))
            (set_infos (<[Z.to_nat idx := mkInfo (di_header headInfo) (Some b) (di_peerID headInfo) taskStatusWaitProcessing]>
               (tm_downloadInfoList t)) t)) ;;;
          place_blocks peerID blocks' (h_Height (b_Header b))
  end.

(** The second loop, over the list from the position of [cur] on. *)
Fixpoint release (peerID : PeerID) (cur toNo : Z) (l : list downloadInfo) : list downloadInfo :=
  match l with
  | [] => []
  | info :: l' =>
      if (cur <=? toNo) && bytes_eqb (di_peerID info) peerID
      then set_status taskStatusIdle info :: release peerID (u64 (cur + 1)) toNo l' else l
  end.

Definition deliverBlockMsg (peerID : PeerID) (blocks : list Block) : TmM unit :=
  match blocks with
  | [] =>
      t <- go_get ;;
      if bytes_eqb peerID (tm_masterPeer t) then go_emit CancelSession
      else go_modify (set_infos (map (fun info =>
        if bytes_eqb (di_peerID info) peerID && (di_status info =? taskStatusDownloading)
        then set_status taskStatusIdle info else info) (tm_downloadInfoList t)))
  | _ =>
      toHeight <- place_blocks peerID blocks 0 ;;
      t <- go_get ;;
      if toHeight =? tm_toNo t then go_ret tt
      else
        let cur := u64 (toHeight + 1) in
        let idx := i64 (u64 (cur - tm_fromNo t)) in
        if (tm_toNo t <? cur) || (Z.of_nat (length (tm_downloadInfoList t)) <=? idx) then go_ret tt
        else
          l <- go_deref (infos_from t idx) ;;
          go_modify (set_infos_from idx (release peerID cur (tm_toNo t) l))
  end.

(** [h.status = taskStatusProcessed] in [processBlocks]. *)
Definition mark_processed (positions : list nat) (t : taskMgr) : taskMgr :=
  set_infos (foldl (fun l pos => alter (set_status taskStatusProcessed) pos l) (tm_downloadInfoList t) positions) t.

(** ** The common ancestor *)

Inductive SyncError : Type :=
| errHashNotMatch
| errInvalidAncestor
| errInvalidPacketReceived
| ErrIsSynchronising
| errMaxForkAncestor
| errPeerNotFound
| errSyncErr
| errWait (err : WaitError)
| errStore (err : StoreError).

Definition getTop (localHeight height : Z) : Z := if localHeight <=? height then localHeight else height.

Definition getMaxFetchAncestry (top : Z) : Z := if MaxForkAncestry <=? top then MaxForkAncestry else u64 (top + 1).

Definition getFetchCount (maxFetchAncestry cmpCount : Z) : Z :=
  if MaxHeaderFetch <=? u64 (maxFetchAncestry - cmpCount) then MaxHeaderFetch else u64 (maxFetchAncestry - cmpCount).

Definition getPeerBlockHeaders (peer : RemotePeer) (localTop fetchCount : Z) : list BlockHeader + SyncError :=
  match RequestHeadersByHashOrNumber peer EmptyHash localTop fetchCount true with
  | inr err => inr (errWait err)
  | inl [] => inr errInvalidAncestor
  | inl headers => inl headers
  end.

Section ancestor.
Context `{HeaderCodec} `{StoreCodec}.

Definition verifyBlockHeadersMsg (headers : list BlockHeader) (head : Hash) : BlockHeader + SyncError :=
  match headers with
  | [] => inr errInvalidPacketReceived
  | h :: _ => if negb (bytes_eqb (header_Hash h) head) then inr errHashNotMatch else inl h
  end.

Definition fetchHeight (peer : RemotePeer) : BlockHeader + SyncError :=
  let head := peer_Head peer in
  match RequestHeadersByHashOrNumber peer head 0 1 false with
  | inr err => inr (errWait err)
  | inl headers => verifyBlockHeadersMsg headers head
  end.

(** [None]: not found. *)
Fixpoint isAncenstorFound (db : Db) (headers : list BlockHeader) : option (Z + SyncError) :=
  match headers with
  | [] => None
  | h :: headers' =>
      match GetBlockHash db (h_Height h) with
      | inr err => Some (inr (errStore err))
      | inl localHash =>
          if bytes_eqb localHash (header_Hash h) then Some (inl (h_Height h)) else isAncenstorFound db headers'
      end
  end.

(** The loop of [findCommonAncestorHeight]; [None] without fuel. *)
Fixpoint find_ancestor (fuel : nat) (db : Db) (peer : RemotePeer) (top maxFetchAncestry cmpCount : Z) : option (Z + SyncError) :=
  match fuel with
  | O => None
  | S fuel' =>
      let localTop := u64 (top - cmpCount) in
      let fetchCount := getFetchCount maxFetchAncestry cmpCount in
      if fetchCount =? 0 then Some (inr errMaxForkAncestor)
      else
        match getPeerBlockHeaders peer localTop fetchCount with
        | inr err => Some (inr err)
        | inl headers =>
            match isAncenstorFound db headers with
            | Some r => Some r
            | None => find_ancestor fuel' db peer top maxFetchAncestry (u64 (cmpCount + Z.of_nat (length headers)))
            end
        end
  end.

Definition findCommonAncestorHeight (fuel : nat) (db : Db) (localHeight : Z) (peer : RemotePeer) (height : Z) : option (Z + SyncError) :=
  let top := getTop localHeight height in
  if top =? 0 then Some (inl top) else find_ancestor fuel db peer top (getMaxFetchAncestry top) 0.
End ancestor.

(** ** The other side: [handleMsg] of [seeleprotocol.go] *)

(** The size of an encoded block. *)
Class BlockCodec := { block_size : Block -> Z }.

Section serve.
Context `{StoreCodec} `{BlockCodec}.

(** The number a query starts from; [None]: it is not answered. *)
Definition query_origin (db : Db) (hash : Hash) (number : Z) : option Z :=
  if bytes_eqb hash EmptyHash then Some number
  else match GetBlockHeader db hash with inl head => Some (h_Height head) | inr _ => None end.

(** The loop of [GetBlockHeadersMsg]. *)
Fixpoint serve_headers (db : Db) (maxHeight orgNum : Z) (reverse : bool) (cnt : Z) (amount : nat) : list BlockHeader :=
  match amount with
  | O => []
  | S amount' =>
      let curNum := if reverse then u64 (orgNum - cnt) else u64 (orgNum + cnt) in
      if maxHeight <? curNum then []
      else match GetBlockHash db curNum with
           | inr _ => []
           | inl hash =>
               match GetBlockHeader db hash with
               | inr _ => []
               | inl head => head :: serve_headers db maxHeight orgNum reverse (cnt + 1) amount'
               end
           end
  end.

(** The loop of [GetBlocksMsg]; [None]: the connection is dropped. *)
Fixpoint serve_blocks (db : Db) (orgNum totalLen cnt : Z) (amount : nat) : option (list Block) :=
  match amount with
  | O => Some []
  | S amount' =>
      match GetBlockHash db (u64 (orgNum + cnt)) with
      | inr _ => Some []
      | inl hash =>
          match GetBlock db hash with
          | inr _ => None
          | inl block =>
              let curLen := block_size block in
              if (0 <? totalLen) && (MaxMessageLength <? totalLen + curLen) then Some []
              else option_map (cons block) (serve_blocks db orgNum (totalLen + curLen) (cnt + 1) amount')
          end
      end
  end.

(** A node that answers from its chain: a query that is not answered is waited for until the
    time is over, and a dropped connection ends the wait. *)
Definition serving_node (db : Db) (current : Block) : RemotePeer := {|
  peer_Head := b_HeaderHash current;
  RequestHeadersByHashOrNumber origin num amount reverse :=
    match query_origin db origin num with
    | None => inr errReceivedQuitMsg
    | Some orgNum => inl (serve_headers db (h_Height (b_Header current)) orgNum reverse 0 (Z.to_nat amount))
    end;
  RequestBlocksByHashOrNumber origin num amount :=
    match query_origin db origin num with
    | None => inr errReceivedQuitMsg
    | Some orgNum =>
        match serve_blocks db orgNum 0 0 (Z.to_nat amount) with Some blocks => inl blocks | None => inr errPeerQuit end
    end
|}.
End serve.

(** ** A session

    The goroutine of the master peer ([peerDownload]) and the one that hands the blocks to the
    chain ([run]). *)

Inductive PeerPc : Type :=
| PcLoop
| PcWaitHeaders (startNo amount : Z)
| PcBlocks (hasReqData : bool)
| PcWaitBlocks (startNo amount : Z)
| PcIdle
| PcQuit.

Record Session := mkSession {
  ss_tm : taskMgr;
  ss_pc : PeerPc;
  ss_cancelled : bool;
  ss_handed : list Block
}.

Definition set_pc (pc : PeerPc) (s : Session) : Session := mkSession (ss_tm s) pc (ss_cancelled s) (ss_handed s).

(** Who runs next. A goroutine that waits for an answer may notice first that the session is
    cancelled, when it is, or that the connection is closed. *)
Inductive Turn : Type :=
| TurnPeer (sees_cancel : bool)
| TurnQuit
| TurnRun.

Section session.
Context `{HeaderCodec}.
Context (peer : RemotePeer) (peerID : PeerID).
(** Whether the chain takes a block, after those that were handed over before. *)
Context (accepts : list Block -> Block -> bool).

Definition on_tm {A} (m : TmM A) (s : Session) : option (A * Session) :=
  match m (ss_tm s) with
  | None => None
  | Some (a, t, effects) =>
      Some (a, mkSession t (ss_pc s) (ss_cancelled s || negb (length effects =? 0)%nat) (ss_handed s))
  end.

(** After the loop; the peer is the master. *)
Definition leave (s : Session) : option Session :=
  match on_tm (onPeerQuit peerID) s with
  | None => None
  | Some (_, s) => Some (mkSession (ss_tm s) PcQuit true (ss_handed s))
  end.

Definition peer_turn (sees_cancel : bool) (s : Session) : option Session :=
  let cancel := sees_cancel && ss_cancelled s in
  match ss_pc s with
  | PcLoop =>
      if isDone (ss_tm s) then leave s
      else match on_tm (getReqHeaderInfo peerID) s with
           | None => None
           | Some ((startNo, amount), s) => Some (set_pc (if 0 <? amount then PcWaitHeaders startNo amount else PcBlocks false) s)
           end
  | PcWaitHeaders startNo amount =>
      match (if cancel then inr errReceivedQuitMsg else RequestHeadersByHashOrNumber peer EmptyHash startNo amount false) with
      | inr _ => leave s
      | inl headers =>
          match on_tm (deliverHeaderMsg peerID headers) s with
          | None => None
          | Some (Some _, s) => leave s
          | Some (None, s) => Some (set_pc (PcBlocks true) s)
          end
      end
  | PcBlocks hasReqData =>
      match on_tm (getReqBlocks peerID) s with
      | None => None
      | Some ((startNo, amount), s) =>
          Some (set_pc (if 0 <? amount then PcWaitBlocks startNo amount else if hasReqData then PcLoop else PcIdle) s)
      end
  | PcWaitBlocks startNo amount =>
      match (if cancel then inr errReceivedQuitMsg else RequestBlocksByHashOrNumber peer EmptyHash startNo amount) with
      | inr _ => leave s
      | inl blocks =>
          match on_tm (deliverBlockMsg peerID blocks) s with
          | None => None
          | Some (_, s) => Some (set_pc PcLoop s)
          end
      end
  | PcIdle => if ss_cancelled s then leave s else Some (set_pc PcLoop s)
  | PcQuit => Some s
  end.

Definition quit_turn (s : Session) : option Session :=
  match ss_pc s with
  | PcWaitHeaders _ _ | PcWaitBlocks _ _ | PcIdle => leave s
  | _ => Some s
  end.

(** The blocks at positions; a position whose block is missing is a nil pointer. *)
Fixpoint blocks_at (l : list downloadInfo) (positions : list nat) : option (list Block) :=
  match positions with
  | [] => Some []
  | pos :: positions' =>
      match l !! pos ≫= di_block, blocks_at l positions' with
      | Some b, Some bs => Some (b :: bs)
      | _, _ => None
      end
  end.

(** How many of the blocks the chain takes. *)
Fixpoint accepted (before blocks : list Block) : nat :=
  match blocks with
  | [] => O
  | b :: blocks' => if accepts before b then S (accepted (before ++ [b]) blocks') else O
  end.

Definition run_turn (s : Session) : option Session :=
  match on_tm getWaitProcessingBlocks s with
  | None => None
  | Some (positions, s) =>
      match blocks_at (tm_downloadInfoList (ss_tm s)) positions with
      | None => None
      | Some blocks =>
          let n := accepted (ss_handed s) blocks in
          Some (mkSession (mark_processed (take n positions) (ss_tm s)) (ss_pc s)
                  (ss_cancelled s || (n <? length blocks)%nat) (ss_handed s ++ take n blocks))
      end
  end.

Definition session_turn (turn : Turn) (s : Session) : option Session :=
  match turn with
  | TurnPeer sees_cancel => peer_turn sees_cancel s
  | TurnQuit => quit_turn s
  | TurnRun => run_turn s
  end.

Fixpoint run_session (turns : list Turn) (s : Session) : option Session :=
  match turns with
  | [] => Some s
  | turn :: turns' => match session_turn turn s with Some s' => run_session turns' s' | None => None end
  end.
End session.
