(* ===== verification/DownloadProofs.v ===== *)
(** * The tasks of a download

    Whatever peers answer, the blocks are handed over in the order of their heights, each once
    ([tm_ok]); with a peer that answers from its chain, a session ends with all of them
    ([session_ok]), whatever the schedule of its two goroutines as long as both run. *)

From Stdlib Require Import ZArith Lia.
From S2P Require Import Prelude Common BftHeader StateDb Svm ChainStore Download.

Open Scope Z_scope.
Open Scope go_scope.

(** ** Any peers *)

Definition info_ok (from : Z) (i : nat) (info : downloadInfo) : Prop :=
  (di_status info = taskStatusWaitProcessing -> is_Some (di_block info))
  /\ forall b, di_block info = Some b -> u64 (h_Height (b_Header b) - from) = Z.of_nat i.

Definition infos_ok (from : Z) (l : list downloadInfo) : Prop := forall i info, l !! i = Some info -> info_ok from i info.

(** [n] blocks have been handed over. *)
Record tm_ok (t : taskMgr) (n : nat) : Prop := {
  to_infos : infos_ok (tm_fromNo t) (tm_downloadInfoList t);
  to_cur : tm_curNo t = u64 (tm_fromNo t + Z.of_nat n);
  to_len : (n <= length (tm_downloadInfoList t))%nat
}.

(** A change that neither touches a block nor makes one wait. *)
Definition calm_info (old new : downloadInfo) : Prop :=
  di_block new = di_block old /\ (di_status new = taskStatusWaitProcessing -> di_status old = taskStatusWaitProcessing).

Abbreviation calm := (Forall2 calm_info).

#[export] Instance calm_info_pre : PreOrder calm_info.
Proof. split; [by intros x|]. intros x y z [E1 H1] [E2 H2]. split; [congruence|auto]. Qed.

Lemma calm_refl l : calm l l.
Proof. reflexivity. Qed.

#[export] Hint Resolve calm_refl : seele.

Lemma calm_ok from l l' : calm l l' -> infos_ok from l -> infos_ok from l'.
Proof.
  intros Hc Hl i new Hnew. destruct (Forall2_lookup_r _ _ _ _ _ Hc Hnew) as (old & Hold & E & Hs).
  destruct (Hl i old Hold) as [Hw Hb]. split; [|rewrite E; exact Hb]. intros Hn. rewrite E. auto.
Qed.

Lemma calm_map f l : (forall i, calm_info i (f i)) -> calm l (map f l).
Proof. intros Hf. induction l; constructor; auto. Qed.

Lemma calm_idle i : calm_info i (set_status taskStatusIdle i).
Proof. by split. Qed.

Lemma calm_from t pos l l' : infos_from t pos = Some l -> calm l l' ->
  calm (tm_downloadInfoList t) (tm_downloadInfoList (set_infos_from pos l' t)).
Proof.
  unfold infos_from. case_match; [|done]. intros [= <-] Hc. cbn.
  rewrite <-(take_drop (Z.to_nat pos) (tm_downloadInfoList t)) at 1. apply Forall2_app; auto with seele.
Qed.

Lemma release_calm id cur toNo l : calm l (release id cur toNo l).
Proof.
  revert cur. induction l as [|i l IH]; intros cur; [constructor|]. cbn. case_match; [|auto with seele].
  constructor; [apply calm_idle|apply IH].
Qed.

Section hash.
Context `{HeaderCodec}.

Lemma first_block_calm hs id l n l' : first_block hs id l = Some (n, l') -> calm l l'.
Proof.
  revert n l'. induction l as [|i l IH]; intros n l'; [done|]. cbn. destruct (_ && _).
  - intros [= <- <-]. constructor; [by split|auto with seele].
  - destruct (first_block hs id l) as [[m l2]|]; [|done]. intros [= <- <-]. constructor; [reflexivity|by eapply IH].
Qed.

Lemma more_blocks_calm hs id n a l : calm l (more_blocks hs id n a l).1.
Proof.
  revert a. induction l as [|i l IH]; intros a; cbn; [constructor|]. repeat (case_match; cbn; auto with seele).
  constructor; [by split|]. specialize (IH (a + 1)). by rewrite H3 in IH.
Qed.

(** ** Sequences of operations *)

Inductive tm_op : Type :=
| OpRun (written : nat)
| OpReqHeaders (id : PeerID)
| OpReqBlocks (id : PeerID)
| OpHeaders (id : PeerID) (headers : list BlockHeader)
| OpBlocks (id : PeerID) (blocks : list Block)
| OpQuit (id : PeerID).

Definition value {A B} (m : TmM A) (f : A -> B) (t : taskMgr) : option (taskMgr * B) :=
  match m t with Some (a, t', _) => Some (t', f a) | None => None end.

(** An operation, and the blocks it hands over; the chain takes the first [written] of them. *)
Definition exec_op (t : taskMgr) (op : tm_op) : option (taskMgr * list Block) :=
  match op with
  | OpRun written =>
      match getWaitProcessingBlocks t with
      | None => None
      | Some (positions, t', _) =>
          match blocks_at (tm_downloadInfoList t') positions with
          | None => None
          | Some blocks => Some (mark_processed (take written positions) t', blocks)
          end
      end
  | OpReqHeaders id => value (getReqHeaderInfo id) (fun _ => []) t
  | OpReqBlocks id => value (getReqBlocks id) (fun _ => []) t
  | OpHeaders id headers => value (deliverHeaderMsg id headers) (fun _ => []) t
  | OpBlocks id blocks => value (deliverBlockMsg id blocks) (fun _ => []) t
  | OpQuit id => value (onPeerQuit id) (fun _ => []) t
  end.

Fixpoint exec_ops (t : taskMgr) (ops : list tm_op) : option (taskMgr * list Block) :=
  match ops with
  | [] => Some (t, [])
  | op :: ops' =>
      match exec_op t op with
      | None => None
      | Some (t1, handed) =>
          match exec_ops t1 ops' with Some (t2, rest) => Some (t2, handed ++ rest) | None => None end
      end
  end.

(** ** An operation keeps the books *)

(** What an operation that hands over nothing leaves. *)
Record quiet_op (t t' : taskMgr) : Prop := {
  qo_from : tm_fromNo t' = tm_fromNo t;
  qo_to : tm_toNo t' = tm_toNo t;
  qo_cur : tm_curNo t' = tm_curNo t;
  qo_len : (length (tm_downloadInfoList t) <= length (tm_downloadInfoList t'))%nat;
  qo_infos : infos_ok (tm_fromNo t) (tm_downloadInfoList t) -> infos_ok (tm_fromNo t) (tm_downloadInfoList t')
}.

#[export] Instance quiet_op_pre : PreOrder quiet_op.
Proof.
  split; [by constructor|]. intros x y z [] []. constructor; [congruence..|lia|].
  intros Hx. rewrite <-qo_from0 in *. auto.
Qed.

Lemma quiet_calm t t' : tm_fromNo t' = tm_fromNo t -> tm_toNo t' = tm_toNo t -> tm_curNo t' = tm_curNo t ->
  calm (tm_downloadInfoList t) (tm_downloadInfoList t') -> quiet_op t t'.
Proof. intros E1 E2 E3 Hc. constructor; [done..| |by apply calm_ok]. by rewrite (Forall2_length _ _ _ Hc). Qed.

Lemma tm_ok_quiet t t' n : quiet_op t t' -> tm_ok t n -> tm_ok t' n.
Proof. intros [] []. constructor; [rewrite qo_from0; auto|congruence|lia]. Qed.

(** What holds after an operation, if it does not panic. *)
Definition post {A} (m : TmM A) (t : taskMgr) (Q : taskMgr -> Prop) : Prop := forall a t' o, m t = Some (a, t', o) -> Q t'.

Lemma post_ret {A} (a : A) t (Q : taskMgr -> Prop) : Q t -> post (go_ret a) t Q.
Proof. intros HQ x t' o [= <- <- <-]. done. Qed.

Lemma post_emit e t (Q : taskMgr -> Prop) : Q t -> post (go_emit e) t Q.
Proof. intros HQ x t' o [= <- <- <-]. done. Qed.

Lemma post_modify f t (Q : taskMgr -> Prop) : Q (f t) -> post (go_modify f) t Q.
Proof. intros HQ x t' o [= <- <- <-]. done. Qed.

Lemma post_panic {A} t (Q : taskMgr -> Prop) : post (go_panic : TmM A) t Q.
Proof. by intros a t' o. Qed.

Lemma post_get {A} (k : taskMgr -> TmM A) t (Q : taskMgr -> Prop) : post (k t) t Q -> post (go_bind go_get k) t Q.
Proof. intros HQ a t' o. unfold go_bind, go_get. destruct (k t t) as [[[b t2] o2]|] eqn:E; [|done]. intros [= <- <- <-]. by eapply HQ. Qed.

Lemma post_deref {A B} (x : option A) (k : A -> TmM B) t (Q : taskMgr -> Prop) :
  (forall a, x = Some a -> post (k a) t Q) -> post (go_bind (go_deref x) k) t Q.
Proof.
  intros HQ a t' o. unfold go_bind, go_deref, go_ret, go_panic. destruct x as [y|]; [|done].
  destruct (k y t) as [[[b t2] o2]|] eqn:E; [|done]. intros [= <- <- <-]. by eapply HQ.
Qed.

Lemma post_then {A} f (k : TmM A) t (Q : taskMgr -> Prop) : post k (f t) Q -> post (go_modify f ;;; k) t Q.
Proof. intros HQ a t' o. unfold go_bind, go_modify. destruct (k (f t)) as [[[b t2] o2]|] eqn:E; [|done]. intros [= <- <- <-]. by eapply HQ. Qed.

Lemma post_bind {A B} (m : TmM A) (k : A -> TmM B) t (Q : taskMgr -> Prop) :
  (forall a t1 o, m t = Some (a, t1, o) -> post (k a) t1 Q) -> post (go_bind m k) t Q.
Proof.
  intros HQ a t' o. unfold go_bind. destruct (m t) as [[[x t1] o1]|] eqn:E; [|done].
  destruct (k x t1) as [[[b t2] o2]|] eqn:E2; [|done]. intros [= <- <- <-]. by eapply HQ.
Qed.

Ltac post_step :=
  lazymatch goal with
  | |- post (go_ret _) _ _ => apply post_ret
  | |- post (go_emit _) _ _ => apply post_emit
  | |- post (go_modify _) _ _ => apply post_modify
  | |- post go_panic _ _ => apply post_panic
  | |- post (go_bind go_get _) _ _ => apply post_get; cbn beta zeta
  | |- post (go_bind (go_modify _) _) _ _ => apply post_then
  | |- post (go_bind (go_deref _) _) _ _ => apply post_deref; intros ? ?; cbn beta zeta
  | |- post (if ?b then _ else _) _ _ => destruct b eqn:?
  | |- post (match ?o with _ => _ end) _ _ => destruct o eqn:?
  end.

Lemma getReqHeaderInfo_quiet id t : post (getReqHeaderInfo id) t (quiet_op t).
Proof. unfold getReqHeaderInfo. repeat post_step; by apply quiet_calm; cbn; auto with seele. Qed.

Lemma getReqBlocks_quiet id t : post (getReqBlocks id) t (quiet_op t).
Proof.
  unfold getReqBlocks. repeat post_step; try reflexivity. subst.
  transitivity (set_infos_from (u64 (tm_curNo t - tm_fromNo t)) l t).
  - apply quiet_calm; [done..|]. eapply calm_from; [done|]. by eapply first_block_calm.
  - apply quiet_calm; [done..|]. eapply calm_from; [done|].
    match goal with E : more_blocks ?hs ?i ?n ?a ?l = _ |- _ => pose proof (more_blocks_calm hs i n a l) as Hc; by rewrite E in Hc end.
Qed.

Lemma onPeerQuit_quiet id t : post (onPeerQuit id) t (quiet_op t).
Proof.
  unfold onPeerQuit. repeat post_step. apply quiet_calm; [done..|]. eapply calm_from; [done|].
  apply calm_map. intros i. case_match; [by split|reflexivity].
Qed.

Lemma deliverHeaderMsg_quiet id hs t : post (deliverHeaderMsg id hs) t (quiet_op t).
Proof.
  assert (Happ : forall l, quiet_op t (set_infos (tm_downloadInfoList t ++ map (fun h => mkInfo h None [] taskStatusIdle) l) t)).
  { intros l. constructor; cbn; [done..|rewrite length_app; lia|]. intros Hok i info [Hi|[_ Hi]]%lookup_app_Some; [by apply Hok|].
    apply list_lookup_fmap_Some in Hi as (h & -> & _). by split. }
  unfold deliverHeaderMsg. destruct hs as [|h hs]; [by apply post_ret|]. post_step. post_step; [by apply post_ret|].
  apply post_bind. intros [] t1 o E.
  assert (Hq : quiet_op t t1).
  { destruct (bytes_eqb id _); injection E as <- <-; [apply (Happ (h :: hs))|reflexivity]. }
  repeat post_step; [|done]. etransitivity; [exact Hq|]. by apply quiet_calm; cbn; auto with seele.
Qed.

Lemma i64_index z : 0 <= i64 (u64 z) -> u64 z = i64 (u64 z).
Proof. unfold i64, u64. zdiv. Qed.

Lemma place_blocks_quiet id bs : forall h t, post (place_blocks id bs h) t (quiet_op t).
Proof.
  induction bs as [|b bs IH]; intros h t; cbn [place_blocks]; [by apply post_ret|].
  post_step. post_step; [post_step|]. post_step. post_step; [apply IH|]. post_step. cbn [tm_downloadInfoList].
  intros x t' o E. apply IH in E. etransitivity; [|exact E]. constructor; cbn; [done..|by rewrite length_insert|].
  intros Hok i info. destruct (decide (i = Z.to_nat (i64 (u64 (h_Height (b_Header b) - tm_fromNo t))))) as [->|Hne].
  - rewrite list_lookup_insert_eq by (by apply lookup_lt_is_Some). intros [= <-]. split; [by eexists|]. cbn. intros b' [= <-].
    apply Z.ltb_ge in Heqb0. pose proof (i64_index _ Heqb0). lia.
  - rewrite list_lookup_insert_ne by done. apply Hok.
Qed.

Lemma deliverBlockMsg_quiet id bs t : post (deliverBlockMsg id bs) t (quiet_op t).
Proof.
  unfold deliverBlockMsg. destruct bs as [|b bs].
  - repeat post_step; [reflexivity|]. apply quiet_calm; [done..|]. cbn. apply calm_map. intros i.
    case_match; [apply calm_idle|reflexivity].
  - apply post_bind. intros h t1 o E. apply place_blocks_quiet in E. repeat post_step; [done..|].
    etransitivity; [exact E|]. apply quiet_calm; [done..|]. eapply calm_from; [done|]. apply release_calm.
Qed.

(** ** Handing over *)

Lemma blocks_at_seq from l a k : infos_ok from l ->
  (forall i, (a <= i < a + k)%nat -> exists info, l !! i = Some info /\ di_status info = taskStatusWaitProcessing) ->
  exists bs, blocks_at l (seq a k) = Some bs
    /\ map (fun b => u64 (h_Height (b_Header b) - from)) bs = map Z.of_nat (seq a k).
Proof.
  intros Hok. revert a. induction k as [|k IH]; intros a Hw; [by exists []|]. cbn.
  destruct (Hw a) as (info & Hi & Hs); [lia|]. destruct (Hok _ _ Hi) as [Hb Hh]. destruct (Hb Hs) as [b Eb].
  destruct (IH (S a)) as (bs & -> & Hm); [intros; apply Hw; lia|]. rewrite Hi. cbn. rewrite Eb. exists (b :: bs).
  split; [done|]. cbn. f_equal; [by apply Hh|done].
Qed.

Lemma count_waiting_spec l i : (i < count_waiting l)%nat ->
  exists info, l !! i = Some info /\ di_status info = taskStatusWaitProcessing.
Proof.
  revert i. induction l as [|info l IH]; intros i; cbn; [lia|]. destruct (Z.eqb_spec (di_status info) taskStatusWaitProcessing); [|lia].
  destruct i as [|i]; cbn; [by exists info|]. intros. apply IH. lia.
Qed.

Lemma count_waiting_len l : (count_waiting l <= length l)%nat.
Proof. induction l as [|i l IH]; cbn; [lia|]. case_match; lia. Qed.

Lemma mark_processed_calm ps t : calm (tm_downloadInfoList t) (tm_downloadInfoList (mark_processed ps t)).
Proof.
  cbn. generalize (tm_downloadInfoList t) as l. induction ps as [|p ps IH]; intros l; cbn; [auto with seele|].
  etransitivity; [|apply IH]. clear IH. revert p. induction l as [|i l IH]; intros [|p]; cbn; constructor; auto with seele; [by split|reflexivity].
Qed.

(** [run] never dereferences a nil block. *)
Lemma exec_run t n written : tm_ok t n -> Z.of_nat (length (tm_downloadInfoList t)) < 2 ^ 63 ->
  exists t' bs, exec_op t (OpRun written) = Some (t', bs) /\ tm_ok t' (n + length bs) /\ tm_fromNo t' = tm_fromNo t
    /\ tm_toNo t' = tm_toNo t /\ length (tm_downloadInfoList t') = length (tm_downloadInfoList t)
    /\ map (fun b => u64 (h_Height (b_Header b) - tm_fromNo t)) bs = map Z.of_nat (seq n (length bs)).
Proof.
  intros [Hok Hcur Hlen] Hl. assert (Hpos : i64 (u64 (tm_curNo t - tm_fromNo t)) = Z.of_nat n).
  { rewrite Hcur. unfold u64. rewrite Zminus_mod_idemp_l. replace (tm_fromNo t + Z.of_nat n - tm_fromNo t) with (Z.of_nat n) by lia.
    rewrite Z.mod_small by lia. apply i64_small. lia. }
  unfold exec_op, getWaitProcessingBlocks, go_bind, go_get, go_deref, go_ret, go_modify. rewrite Hpos. unfold infos_from.
  destruct (Z.leb_spec 0 (Z.of_nat n)); [|lia]. destruct (Z.leb_spec (Z.of_nat n) (Z.of_nat (length (tm_downloadInfoList t)))); [|lia].
  cbn [andb]. rewrite Nat2Z.id. set (k := count_waiting (drop n (tm_downloadInfoList t))).
  assert (Hk : (n + k <= length (tm_downloadInfoList t))%nat).
  { pose proof (count_waiting_len (drop n (tm_downloadInfoList t))) as Hc. rewrite length_drop in Hc. lia. }
  destruct (blocks_at_seq (tm_fromNo t) (tm_downloadInfoList t) n k Hok) as (bs & Hbs & Hm).
  { intros i Hi. destruct (count_waiting_spec (drop n (tm_downloadInfoList t)) (i - n)) as (info & Hinfo & Hs); [lia|].
    rewrite lookup_drop in Hinfo. replace (n + (i - n))%nat with i in Hinfo by lia. by exists info. }
  cbn [tm_downloadInfoList set_curNo]. rewrite Hbs. eexists _, bs. split; [done|].
  assert (Hlb : length bs = k) by (apply (f_equal length) in Hm; by rewrite !length_map, length_seq in Hm).
  rewrite Hlb. pose proof (mark_processed_calm (take written (seq n k)) (set_curNo (u64 (tm_curNo t + Z.of_nat k)) t)) as Hc.
  cbn [tm_downloadInfoList set_curNo] in Hc. pose proof (Forall2_length _ _ _ Hc) as Hle.
  split; [|by split_and!]. constructor; [|cbn|by rewrite <-Hle].
  - eapply calm_ok; [exact Hc|exact Hok].
  - rewrite Hcur, Nat2Z.inj_add. unfold u64. rewrite Zplus_mod_idemp_l. f_equal. lia.
Qed.

Lemma value_quiet {A} (m : TmM A) t t' bs : post m t (quiet_op t) -> value m (fun _ => []) t = Some (t', bs) ->
  quiet_op t t' /\ bs = ([] : list Block).
Proof. intros Hm. unfold value. destruct (m t) as [[[a t1] o]|] eqn:E; [|done]. intros [= <- <-]. split; [by eapply Hm|done]. Qed.

Lemma exec_op_grows t op t' bs : exec_op t op = Some (t', bs) ->
  (exists w, op = OpRun w) \/ (quiet_op t t' /\ bs = []).
Proof.
  destruct op; cbn [exec_op]; [by eauto|..]; intros E; right; eapply value_quiet; try exact E;
    [apply getReqHeaderInfo_quiet|apply getReqBlocks_quiet|apply deliverHeaderMsg_quiet|apply deliverBlockMsg_quiet|apply onPeerQuit_quiet].
Qed.

Lemma run_length t w t' bs : exec_op t (OpRun w) = Some (t', bs) -> length (tm_downloadInfoList t') = length (tm_downloadInfoList t).
Proof.
  unfold exec_op, getWaitProcessingBlocks, go_bind, go_get, go_deref, go_ret, go_modify. destruct (infos_from _ _) as [l|]; [|done]. cbn.
  destruct (blocks_at _ _); [|done]. intros [= <- _]. symmetry. exact (Forall2_length _ _ _ (mark_processed_calm _ (set_curNo _ t))).
Qed.

Lemma exec_ops_length ops : forall t t' bs, exec_ops t ops = Some (t', bs) ->
  (length (tm_downloadInfoList t) <= length (tm_downloadInfoList t'))%nat.
Proof.
  induction ops as [|op ops IH]; intros t t' bs; cbn [exec_ops]; [by intros [= <- <-]|].
  destruct (exec_op t op) as [[t1 b1]|] eqn:E1; [|done]. destruct (exec_ops t1 ops) as [[t2 b2]|] eqn:E2; [|done].
  intros [= <- <-]. apply IH in E2. destruct (exec_op_grows _ _ _ _ E1) as [[w ->]|[Hq _]]; [apply run_length in E1; lia|].
  destruct Hq. lia.
Qed.

Lemma exec_ops_ok ops : forall t n t' bs, tm_ok t n -> exec_ops t ops = Some (t', bs) ->
  Z.of_nat (length (tm_downloadInfoList t')) < 2 ^ 63 ->
  tm_ok t' (n + length bs) /\ tm_fromNo t' = tm_fromNo t /\ tm_toNo t' = tm_toNo t
  /\ map (fun b => u64 (h_Height (b_Header b) - tm_fromNo t)) bs = map Z.of_nat (seq n (length bs)).
Proof.
  induction ops as [|op ops IH]; intros t n t' bs Hok; cbn [exec_ops].
  { intros [= <- <-] _. rewrite Nat.add_0_r. by split_and!. }
  destruct (exec_op t op) as [[t1 b1]|] eqn:E1; [|done]. destruct (exec_ops t1 ops) as [[t2 b2]|] eqn:E2; [|done].
  intros [= <- <-] Hl. pose proof (exec_ops_length _ _ _ _ E2) as Hl2.
  assert (H1 : tm_ok t1 (n + length b1) /\ tm_fromNo t1 = tm_fromNo t /\ tm_toNo t1 = tm_toNo t
    /\ map (fun b => u64 (h_Height (b_Header b) - tm_fromNo t)) b1 = map Z.of_nat (seq n (length b1))).
  { destruct (exec_op_grows _ _ _ _ E1) as [[w ->]|[Hq ->]].
    - pose proof (run_length _ _ _ _ E1). destruct (exec_run t n w Hok) as (t1' & b1' & E & Hok1 & Hf & Ht & _ & Hm); [lia|].
      rewrite E in E1. injection E1 as <- <-. by split_and!.
    - cbn. rewrite Nat.add_0_r. split; [by eapply tm_ok_quiet|]. destruct Hq. by split_and!. }
  destruct H1 as (Hok1 & Hf1 & Ht1 & Hm1). destruct (IH _ _ _ _ Hok1 E2 Hl) as (Hok2 & Hf2 & Ht2 & Hm2).
  rewrite length_app, Nat.add_assoc. split; [done|]. split; [congruence|]. split; [congruence|].
  rewrite map_app, seq_app, map_app, Hm1. f_equal. by rewrite <-Hm2, Hf1.
Qed.

Lemma new_tm_ok id from to lh ltd lbs t : is_u64 from -> newTaskMgr id from to lh ltd lbs = Some t -> tm_ok t 0.
Proof.
  intros Hf. unfold newTaskMgr. case_match; [done|]. intros [= <-]. constructor; cbn; [by intros i info|rewrite u64_small; unfold is_u64 in *; lia|lia].
Qed.
End hash.
