(* ===== verification/DownloadLive.v ===== *)
(** * A session with a peer that answers

    With a peer that answers every request with a part of what was asked for, from a chain
    that the local node takes, the two goroutines of a session hand over all the blocks.
    [shape] is the list of the tasks: processed, waiting, requested and idle blocks, in this
    order. *)

From Stdlib Require Import ZArith Lia.
From S2P Require Import Prelude Common BftHeader StateDb Svm ChainStore Download DownloadProofs.

Open Scope Z_scope.
Open Scope go_scope.

(** ** Lists of tasks *)

Section lists.
Context `{HeaderCodec}.

Lemma first_block_at hs id l j info :
  (forall i x, (i < j)%nat -> l !! i = Some x -> di_status x <> taskStatusIdle) -> l !! j = Some info ->
  di_status info = taskStatusIdle -> peer_has hs (h_Height (di_header info)) info = true ->
  first_block hs id l = Some (h_Height (di_header info), alter (assign id) j l).
Proof.
  revert j. induction l as [|x l IH]; intros j Hbusy Hj Hs Hp; [done|]. cbn. destruct j as [|j].
  - injection Hj as ->. by rewrite Hs, Z.eqb_refl, Hp.
  - pose proof (Hbusy O x ltac:(lia) eq_refl) as Hx. apply Z.eqb_neq in Hx. rewrite Hx. cbn.
    rewrite (IH j); [done| |done..]. intros i y Hi Hy. apply (Hbusy (S i)); [lia|done].
Qed.

Lemma first_block_none hs id l : (forall i x, l !! i = Some x -> di_status x <> taskStatusIdle) -> first_block hs id l = None.
Proof.
  induction l as [|x l IH]; intros Hbusy; [done|]. cbn. pose proof (Hbusy O x eq_refl) as Hx. apply Z.eqb_neq in Hx. rewrite Hx. cbn.
  rewrite IH; [done|]. intros i y Hi. by apply (Hbusy (S i)).
Qed.

Lemma more_blocks_all hs id startNo l : forall amount, amount <= MaxBlockFetch ->
  (forall i x, l !! i = Some x -> di_status x = taskStatusIdle /\ peer_has hs (u64 (startNo + amount + Z.of_nat i)) x = true) ->
  exists k, (k <= length l)%nat /\ amount + Z.of_nat k <= MaxBlockFetch
    /\ more_blocks hs id startNo amount l = (map (assign id) (take k l) ++ drop k l, amount + Z.of_nat k).
Proof.
  induction l as [|x l IH]; intros amount Ha Hall; cbn [more_blocks].
  { exists O. rewrite Z.add_0_r. by split_and!. }
  destruct (Hall O x eq_refl) as [-> Hp]. rewrite Z.add_0_r in Hp. rewrite Z.eqb_refl, Hp. cbn [negb].
  destruct (Z.ltb_spec amount MaxBlockFetch).
  - destruct (IH (amount + 1)) as (k & Hk & Hm & ->); [lia| |].
    { intros i y Hi. destruct (Hall (S i) y Hi) as [Hs Hy]. split; [done|]. rewrite <-Hy. do 2 f_equal. lia. }
    exists (S k). cbn. split; [lia|]. split; [lia|]. f_equal. lia.
  - exists O. rewrite Z.add_0_r. cbn. split_and!; [lia|lia|done].
Qed.

Lemma release_all id toNo m l : forall cur, (m <= length l)%nat -> 0 <= cur -> toNo < 2 ^ 64 - 1 -> cur + Z.of_nat m <= toNo + 1 ->
  (forall i x, (i < m)%nat -> l !! i = Some x -> di_peerID x = id) ->
  forall i x, release id cur toNo l !! i = Some x ->
  exists y, l !! i = Some y /\ (x = set_status taskStatusIdle y \/ (x = y /\ (m <= i)%nat)).
Proof.
  revert m. induction l as [|z l IH]; intros m cur Hm Hc Ht Hcm Hid i x; [done|]. cbn [release].
  destruct ((cur <=? toNo) && bytes_eqb (di_peerID z) id) eqn:E.
  - destruct i as [|i]; cbn; [intros [= <-]; exists z; by split; [|left]|]. intros Hx.
    destruct (Z.leb_spec cur toNo); [|done].
    rewrite u64_small in Hx by (unfold is_u64; lia). cbn in Hm.
    destruct (IH (m - 1)%nat (cur + 1)) with (i := i) (x := x) as (y & Hy & Hcase); [lia..| |done|].
    + intros j w Hj Hw. apply (Hid (S j)); [lia|done].
    + exists y. split; [done|]. destruct Hcase as [->|[-> Hmi]]; [by left|right; split; [done|lia]].
  - intros Hx. exists x. split; [done|]. right. split; [done|]. destruct m as [|m]; [lia|]. exfalso.
    specialize (Hid O z ltac:(lia) eq_refl). apply andb_false_iff in E as [E|E]; [apply Z.leb_gt in E; lia|].
    apply bool_decide_eq_false in E. done.
Qed.
End lists.

(** ** The peer *)

Section honest.
Context `{HeaderCodec}.
Context (peer : RemotePeer) (peerID : PeerID) (accepts : list Block -> Block -> bool).
Context (chain : Z -> Block) (from to : Z).

Definition chain_part (s : Z) (k : nat) : list Block := map (fun i => chain (s + Z.of_nat i)) (seq 0 k).

Lemma chain_part_cons s k : chain_part s (S k) = chain s :: chain_part (s + 1) k.
Proof.
  unfold chain_part. cbn [seq map]. rewrite Z.add_0_r, <-seq_shift, map_map. f_equal. apply map_ext. intros i. f_equal. lia.
Qed.

Lemma chain_part_app s j k : chain_part s (j + k) = chain_part s j ++ chain_part (s + Z.of_nat j) k.
Proof.
  revert s. induction j as [|j IH]; intros s; [by rewrite Z.add_0_r|]. cbn [Nat.add]. rewrite !chain_part_cons, IH. cbn. do 3 f_equal. lia.
Qed.

Lemma chain_part_length s k : length (chain_part s k) = k.
Proof. unfold chain_part. by rewrite length_map, length_seq. Qed.

(** It has the blocks and answers with the first ones of what is asked for; the local chain
    takes the blocks in order. *)
Record answers : Prop := {
  an_range : 0 <= from <= to + 1 /\ to < 2 ^ 63 - 1;
  an_height n : from <= n <= to -> h_Height (b_Header (chain n)) = n;
  an_headers s a : from <= s -> 0 < a <= MaxHeaderFetch -> s + a <= to + 1 ->
    exists k, (0 < k)%nat /\ Z.of_nat k <= a /\ RequestHeadersByHashOrNumber peer EmptyHash s a false = inl (map b_Header (chain_part s k));
  an_blocks s a : from <= s -> 0 < a <= MaxBlockFetch -> s + a <= to + 1 ->
    exists k, (0 < k)%nat /\ Z.of_nat k <= a /\ RequestBlocksByHashOrNumber peer EmptyHash s a = inl (chain_part s k);
  an_accepts k : from + Z.of_nat k <= to -> accepts (chain_part from k) (chain (from + Z.of_nat k)) = true
}.

Context (Ha : answers).

Definition at_ (p : nat) : Block := chain (from + Z.of_nat p).
Definition total : nat := Z.to_nat (to + 1 - from).

Definition status_at (c a d p : nat) : Z :=
  if decide (p < c)%nat then taskStatusProcessed else if decide (p < a)%nat then taskStatusWaitProcessing
  else if decide (p < a + d)%nat then taskStatusDownloading else taskStatusIdle.

Record task_at (c a d p : nat) (info : downloadInfo) : Prop := {
  ta_header : di_header info = b_Header (at_ p);
  ta_block : (p < a)%nat -> di_block info = Some (at_ p);
  ta_status : di_status info = status_at c a d p;
  ta_peer : (a <= p < a + d)%nat -> di_peerID info = peerID
}.

(** The headers of the peer. *)
Definition known (t : taskMgr) : gmap Z BlockHeader :=
  match tm_peersHeaderMap t !! peerID with Some hi => phi_headers hi | None => ∅ end.

Record shape (t : taskMgr) (c a d n : nat) : Prop := {
  sh_from : tm_fromNo t = from;
  sh_to : tm_toNo t = to;
  sh_master : tm_masterPeer t = peerID;
  sh_cur : tm_curNo t = from + Z.of_nat c;
  sh_len : length (tm_downloadInfoList t) = n;
  sh_order : (c <= a)%nat /\ (a + d <= n)%nat /\ (n <= total)%nat;
  sh_infos p info : tm_downloadInfoList t !! p = Some info -> task_at c a d p info;
  sh_known p : (c <= p < n)%nat -> known t !! (from + Z.of_nat p) = Some (b_Header (at_ p))
}.

Lemma total_spec : Z.of_nat total = to + 1 - from.
Proof. pose proof (an_range Ha). unfold total. lia. Qed.

Lemma at_height p : (p < total)%nat -> h_Height (b_Header (at_ p)) = from + Z.of_nat p.
Proof. intros Hp. pose proof total_spec. apply (an_height Ha). lia. Qed.

Ltac shape_facts Hs :=
  let H := fresh "Hord" in pose proof (sh_order _ _ _ _ _ Hs) as H; pose proof total_spec; pose proof (an_range Ha).

Lemma shape_lookup t c a d n p : shape t c a d n -> (p < n)%nat -> exists info, tm_downloadInfoList t !! p = Some info /\ task_at c a d p info.
Proof.
  intros Hs Hp. destruct (tm_downloadInfoList t !! p) as [info|] eqn:E; [|apply lookup_ge_None in E; rewrite (sh_len _ _ _ _ _ Hs) in E; lia].
  exists info. split; [done|]. by eapply sh_infos.
Qed.

Lemma shape_from t c a d n pos : shape t c a d n -> (pos <= n)%nat ->
  infos_from t (Z.of_nat pos) = Some (drop pos (tm_downloadInfoList t)).
Proof.
  intros Hs Hp. unfold infos_from. rewrite (sh_len _ _ _ _ _ Hs), Nat2Z.id.
  destruct (Z.leb_spec 0 (Z.of_nat pos)); [|lia]. destruct (Z.leb_spec (Z.of_nat pos) (Z.of_nat n)); [done|lia].
Qed.

Lemma shape_cur t c a d n : shape t c a d n -> u64 (tm_curNo t - tm_fromNo t) = Z.of_nat c.
Proof. intros Hs. shape_facts Hs. rewrite (sh_cur _ _ _ _ _ Hs), (sh_from _ _ _ _ _ Hs), u64_small; unfold is_u64; lia. Qed.

(** ** The operations *)

Lemma status_wait c a d p : status_at c a d p = taskStatusWaitProcessing <-> (c <= p < a)%nat.
Proof. unfold status_at. repeat case_decide; split; try done; lia. Qed.

Lemma count_waiting_at l k : (forall i x, (i < k)%nat -> l !! i = Some x -> di_status x = taskStatusWaitProcessing) ->
  (forall x, l !! k = Some x -> di_status x <> taskStatusWaitProcessing) -> (k <= length l)%nat -> count_waiting l = k.
Proof.
  revert l. induction k as [|k IH]; intros l Hw Hn Hl.
  - destruct l as [|x l]; [done|]. cbn. specialize (Hn x eq_refl). apply Z.eqb_neq in Hn. by rewrite Hn.
  - destruct l as [|x l]; [cbn in Hl; lia|]. cbn. rewrite (Hw O x) by (done || lia). rewrite Z.eqb_refl. f_equal. apply IH.
    + intros i y Hi Hy. apply (Hw (S i)); [lia|done].
    + intros y Hy. by apply Hn.
    + cbn in Hl. lia.
Qed.

Lemma mark_seq (l : list downloadInfo) : forall c k p, foldl (fun l pos => alter (set_status taskStatusProcessed) pos l) l (seq c k) !! p
  = if decide (c <= p < c + k)%nat then set_status taskStatusProcessed <$> l !! p else l !! p.
Proof.
  intros c k. revert l c. induction k as [|k IH]; intros l c p; cbn; [by rewrite decide_False by lia|]. rewrite IH.
  destruct (decide (p = c)) as [->|Hne].
  - rewrite decide_False by lia. rewrite decide_True by lia. apply list_lookup_alter_eq.
  - rewrite list_lookup_alter_ne by done. repeat case_decide; try done; lia.
Qed.

Lemma accepted_all c k : (c + k <= total)%nat -> accepted accepts (chain_part from c) (chain_part (from + Z.of_nat c) k) = k.
Proof.
  revert c. induction k as [|k IH]; intros c Hle; [done|]. pose proof total_spec. rewrite chain_part_cons. cbn [accepted].
  rewrite (an_accepts Ha) by lia. f_equal. specialize (IH (S c) ltac:(lia)). rewrite <-Nat.add_1_r, chain_part_app in IH.
  unfold chain_part at 2 in IH. cbn [seq map] in IH. rewrite Z.add_0_r in IH. rewrite <-IH at 2. do 2 f_equal. lia.
Qed.

Lemma blocks_at_shape t c a d n : shape t c a d n -> forall k, (c + k <= a)%nat ->
  blocks_at (tm_downloadInfoList t) (seq c k) = Some (chain_part (from + Z.of_nat c) k).
Proof.
  intros Hs k. shape_facts Hs. assert (Hgen : forall b, (b + k <= a)%nat ->
    blocks_at (tm_downloadInfoList t) (seq b k) = Some (chain_part (from + Z.of_nat b) k)).
  { induction k as [|k IH]; intros b Hb; [done|]. cbn [seq blocks_at]. rewrite IH by lia.
    destruct (shape_lookup _ _ _ _ _ b Hs) as (info & -> & Hi); [lia|]. cbn [mbind option_bind]. rewrite (ta_block _ _ _ _ _ Hi) by lia.
    rewrite chain_part_cons. unfold at_. do 3 f_equal. lia. }
  apply Hgen.
Qed.

Lemma run_turn_shape s c a d n : shape (ss_tm s) c a d n -> ss_handed s = chain_part from c ->
  exists t, run_turn accepts s = Some (mkSession t (ss_pc s) (ss_cancelled s) (chain_part from a)) /\ shape t a a d n
    /\ tm_peersHeaderMap t = tm_peersHeaderMap (ss_tm s).
Proof.
  intros Hs Hh. shape_facts Hs. set (t := ss_tm s) in *. unfold run_turn, on_tm, getWaitProcessingBlocks, go_bind, go_get, go_deref, go_ret, go_modify.
  fold t. rewrite (shape_cur _ _ _ _ _ Hs), i64_small, (shape_from _ _ _ _ _ c Hs) by lia.
  rewrite (count_waiting_at _ (a - c)); cbn [tm_downloadInfoList set_curNo ss_tm length Nat.eqb app negb]; [|..].
  2: { intros i x Hi Hx. rewrite lookup_drop in Hx. rewrite (ta_status _ _ _ _ _ (sh_infos _ _ _ _ _ Hs _ _ Hx)). apply status_wait. lia. }
  2: { intros x Hx Hw. rewrite lookup_drop in Hx. rewrite (ta_status _ _ _ _ _ (sh_infos _ _ _ _ _ Hs _ _ Hx)) in Hw. apply status_wait in Hw. lia. }
  2: { rewrite length_drop, (sh_len _ _ _ _ _ Hs). lia. }
  rewrite Nat2Z.id. rewrite (blocks_at_shape t c a d n) by (done || lia). cbn [ss_handed]. rewrite Hh, accepted_all by lia.
  rewrite chain_part_length, Nat.ltb_irrefl, !orb_false_r. rewrite !firstn_all2 by (rewrite ?chain_part_length, ?length_seq; lia).
  eexists. split; [|split].
  - do 3 f_equal. rewrite <-chain_part_app. f_equal. lia.
  - constructor; cbn; try (by destruct Hs).
    + rewrite (sh_cur _ _ _ _ _ Hs), u64_small; [lia|]. unfold is_u64. lia.
    + rewrite <-(sh_len _ _ _ _ _ Hs). symmetry. apply (Forall2_length _ _ _ (mark_processed_calm (seq c (a - c)) t)).
    + lia.
    + intros p info. rewrite mark_seq. intros Hp.
      destruct (decide (c <= p < c + (a - c))%nat).
      * apply fmap_Some in Hp as (old & Hold & ->). destruct (sh_infos _ _ _ _ _ Hs _ _ Hold) as [E1 E2 E3 E4].
        constructor; cbn; [done|done| |lia]. unfold status_at. by rewrite decide_True by lia.
      * destruct (sh_infos _ _ _ _ _ Hs _ _ Hp) as [E1 E2 E3 E4]. constructor; [done..| |done].
        rewrite E3. unfold status_at. repeat case_decide; try done; lia.
    + intros p Hp. apply (sh_known _ _ _ _ _ Hs). lia.
  - done.
Qed.

(** The list after a loop over its end. *)
Lemma lookup_from (l l2 : list downloadInfo) pos p : (pos <= length l)%nat ->
  (take pos l ++ l2) !! p = if decide (p < pos)%nat then l !! p else l2 !! (p - pos)%nat.
Proof.
  intros Hp. case_decide.
  - rewrite lookup_app_l by (rewrite length_take; lia). apply lookup_take_lt. lia.
  - rewrite lookup_app_r by (rewrite length_take; lia). rewrite length_take. f_equal. lia.
Qed.

Lemma getReqHeaderInfo_shape t c a n : shape t c a 0 n ->
  wp (getReqHeaderInfo peerID) t (fun r t' o => o = [] /\ shape t' c a 0 n /\ is_Some (tm_peersHeaderMap t' !! peerID)
    /\ ((r = (0, 0) /\ (n = total \/ MaxHeaderFetch <= Z.of_nat (n - c)))
        \/ exists k, r = (from + Z.of_nat n, k) /\ 0 < k <= MaxHeaderFetch /\ Z.of_nat n + k <= Z.of_nat total)).
Proof.
  intros Hs. shape_facts Hs. unfold getReqHeaderInfo, wp, go_bind, go_get, go_modify, go_ret. cbn zeta beta.
  rewrite (sh_master _ _ _ _ _ Hs). unfold bytes_eqb at 1. rewrite bool_decide_true by done.
  rewrite (sh_len _ _ _ _ _ Hs), (sh_from _ _ _ _ _ Hs), (sh_to _ _ _ _ _ Hs), (sh_cur _ _ _ _ _ Hs).
  rewrite (u64_small (from + Z.of_nat n)) by (unfold is_u64; lia). rewrite (u64_small (to + 1)) by (unfold is_u64; lia).
  rewrite (u64_small (from + Z.of_nat n - (from + Z.of_nat c))) by (unfold is_u64; lia).
  rewrite (u64_small (to + 1 - (from + Z.of_nat n))) by (unfold is_u64; lia).
  set (t' := set_headInfo _ _ t).
  assert (Hs' : shape t' c a 0 n).
  { destruct Hs as [E1 E2 E3 E4 E5 E6 E7 E8]. constructor; [done..|]. intros p Hp. specialize (E8 p Hp). unfold known, t' in *. cbn.
    rewrite lookup_insert_eq. cbn. apply map_lookup_filter_Some. destruct (tm_peersHeaderMap t !! peerID); cbn; [|done].
    split; [done|]. cbn. lia. }
  assert (Hk : is_Some (tm_peersHeaderMap t' !! peerID)) by (unfold t'; cbn; rewrite lookup_insert_eq; by eexists).
  destruct (Z.ltb_spec maxBlocksWaiting (from + Z.of_nat n - (from + Z.of_nat c))) as [Hb|Hb]; cbn [app].
  { split; [done|]. split; [done|]. split; [done|]. left. split; [done|]. right. unfold maxBlocksWaiting in Hb. unfold MaxHeaderFetch. lia. }
  destruct (Z.eqb_spec (from + Z.of_nat n) (to + 1)); cbn [orb].
  { split; [done|]. split; [done|]. split; [done|]. left. split; [done|]. left. lia. }
  destruct (Z.leb_spec MaxHeaderFetch (from + Z.of_nat n - (from + Z.of_nat c))); cbn [app].
  { split; [done|]. split; [done|]. split; [done|]. left. split; [done|]. right. lia. }
  split; [done|]. split; [done|]. split; [done|]. right. eexists. split; [done|].
  destruct (Z.ltb_spec (to + 1 - (from + Z.of_nat n)) MaxHeaderFetch); [|unfold MaxHeaderFetch in *; lia].
  rewrite u64_small by (unfold is_u64; lia). rewrite i64_small by lia. unfold MaxHeaderFetch in *. lia.
Qed.

Lemma add_headers_known l : forall hi no, (forall h, h ∈ l -> h_Height h <> no) ->
  phi_headers (foldl add_header hi l) !! no = phi_headers hi !! no.
Proof.
  induction l as [|h l IH]; intros hi no Hl; [done|]. cbn [foldl]. rewrite IH by (intros; apply Hl; by right). cbn.
  apply lookup_insert_ne. apply Hl. by left.
Qed.

Lemma add_headers_part k : forall s hi i, from <= s -> s + Z.of_nat k <= to + 1 -> (i < k)%nat ->
  phi_headers (foldl add_header hi (map b_Header (chain_part s k))) !! (s + Z.of_nat i) = Some (b_Header (chain (s + Z.of_nat i))).
Proof.
  induction k as [|k IH]; intros s hi i Hs Hk Hi; [lia|]. rewrite chain_part_cons. cbn [map foldl]. destruct i as [|i].
  - rewrite Z.add_0_r. rewrite add_headers_known.
    + cbn. rewrite (an_height Ha) by lia. apply lookup_insert_eq.
    + intros h Hh. apply list_elem_of_fmap in Hh as (b & -> & Hb). apply list_elem_of_fmap in Hb as (j & -> & Hj%elem_of_seq).
      rewrite (an_height Ha) by lia. lia.
  - replace (s + Z.of_nat (S i)) with (s + 1 + Z.of_nat i) by lia. apply IH; lia.
Qed.

Lemma deliverHeaderMsg_shape t c a n k : shape t c a 0 n -> is_Some (tm_peersHeaderMap t !! peerID) -> (0 < k)%nat -> (n + k <= total)%nat ->
  wp (deliverHeaderMsg peerID (map b_Header (chain_part (from + Z.of_nat n) k))) t
    (fun r t' o => o = [] /\ r = None /\ shape t' c a 0 (n + k) /\ is_Some (tm_peersHeaderMap t' !! peerID)).
Proof.
  intros Hs [hi Hhi] Hk Hle. shape_facts Hs. set (hs := map b_Header (chain_part (from + Z.of_nat n) k)).
  assert (Hhs : exists rest, hs = b_Header (at_ n) :: rest).
  { unfold hs, at_. destruct k as [|k]; [lia|]. rewrite chain_part_cons. by eexists. }
  destruct Hhs as [rest Hhs]. unfold deliverHeaderMsg. rewrite Hhs at 1. cbn iota beta.
  unfold wp, go_bind, go_get, go_modify, go_ret. rewrite (sh_master _ _ _ _ _ Hs). unfold bytes_eqb at 1. rewrite bool_decide_true by done.
  rewrite (sh_len _ _ _ _ _ Hs), (sh_from _ _ _ _ _ Hs), (u64_small (from + Z.of_nat n)) by (unfold is_u64; lia).
  rewrite at_height, Z.eqb_refl by lia. cbn [andb negb]. unfold bytes_eqb. rewrite bool_decide_true by done. rewrite Hhi. cbn [app].
  split; [done|]. split; [done|]. split; [|cbn; rewrite lookup_insert_eq; by eexists].
  assert (Hlen : length hs = k) by (unfold hs; by rewrite length_map, chain_part_length).
  constructor; cbn; try (by destruct Hs).
  - rewrite length_app, length_map, (sh_len _ _ _ _ _ Hs), Hlen. done.
  - lia.
  - intros p info [Hp|[Hp Hq]]%lookup_app_Some.
    + by eapply sh_infos.
    + apply list_lookup_fmap_Some in Hq as (h & -> & Hh). rewrite (sh_len _ _ _ _ _ Hs) in *.
      unfold hs, chain_part in Hh. rewrite map_map in Hh. apply list_lookup_fmap_Some in Hh as (j & -> & [-> Hj]%lookup_seq).
      constructor; cbn; [|lia| |lia].
      * unfold at_. do 2 f_equal. lia.
      * unfold status_at. by repeat (rewrite decide_False by lia).
  - intros p Hp. unfold known. cbn. rewrite lookup_insert_eq. destruct (decide (p < n)%nat).
    + rewrite add_headers_known.
      * pose proof (sh_known _ _ _ _ _ Hs p ltac:(lia)) as Hkn. unfold known in Hkn. by rewrite Hhi in Hkn.
      * intros h Hh. apply list_elem_of_fmap in Hh as (b & -> & Hb). apply list_elem_of_fmap in Hb as (j & -> & Hj%elem_of_seq).
        rewrite (an_height Ha) by lia. lia.
    + unfold hs, at_. replace (from + Z.of_nat p) with (from + Z.of_nat n + Z.of_nat (p - n)) by lia. apply add_headers_part; lia.
Qed.

Lemma alter_from (f : downloadInfo -> downloadInfo) (l : list downloadInfo) c a : (c <= a)%nat -> (c <= length l)%nat ->
  take c l ++ alter f (a - c)%nat (drop c l) = alter f a l.
Proof.
  intros Hca Hc. apply list_eq. intros p. rewrite lookup_from by done. case_decide.
  - by rewrite list_lookup_alter_ne by lia.
  - rewrite !list_lookup_alter. repeat case_decide; try lia; rewrite lookup_drop; do 2 f_equal; lia.
Qed.

Lemma shape_has t c a d n p info : shape t c a d n -> (c <= p)%nat -> tm_downloadInfoList t !! p = Some info ->
  peer_has (known t) (from + Z.of_nat p) info = true.
Proof.
  intros Hs Hp Hi. assert (Hn : (p < n)%nat) by (rewrite <-(sh_len _ _ _ _ _ Hs); by eapply lookup_lt_Some).
  unfold peer_has. rewrite (sh_known _ _ _ _ _ Hs) by lia. rewrite (ta_header _ _ _ _ _ (sh_infos _ _ _ _ _ Hs _ _ Hi)).
  by apply bool_decide_true.
Qed.

(** The blocks that are assigned. *)
Lemma assigned_shape t c a n k : shape t c a 0 n -> (a + S k <= n)%nat ->
  let l1 := alter (assign peerID) a (tm_downloadInfoList t) in
  shape (set_infos (take (a + 1) l1 ++ map (assign peerID) (take k (drop (a + 1) l1)) ++ drop k (drop (a + 1) l1)) t) c a (S k) n.
Proof.
  intros Hs Hk l1. shape_facts Hs. assert (Hl1 : length l1 = n) by (unfold l1; by rewrite length_alter, (sh_len _ _ _ _ _ Hs)).
  assert (Hst : forall p info, (a <= p)%nat -> tm_downloadInfoList t !! p = Some info -> task_at c a 0 p info) by (intros; by eapply sh_infos).
  constructor; cbn; try (by destruct Hs).
  - rewrite !length_app, length_map, !length_take, !length_drop, Hl1. lia.
  - lia.
  - intros p info. rewrite lookup_from by lia. intros Hp.
    assert (Hcase : exists old, tm_downloadInfoList t !! p = Some old
      /\ info = if decide (a <= p < a + S k)%nat then assign peerID old else old).
    { unfold l1 in Hp. destruct (decide (p < a + 1)%nat).
      - rewrite list_lookup_alter in Hp. destruct (decide (a = p)) as [->|Hne].
        + apply fmap_Some in Hp as (old & Hold & ->). exists old. by rewrite decide_True by lia.
        + exists info. by rewrite decide_False by lia.
      - rewrite drop_drop, lookup_app in Hp. destruct (map _ _ !! _) as [x|] eqn:Ex in Hp.
        + injection Hp as ->. apply list_lookup_fmap_Some in Ex as (old & -> & Hold). apply lookup_take_Some in Hold as [Hold Hlt].
          rewrite lookup_drop, list_lookup_alter_ne in Hold by lia. exists old. rewrite decide_True by lia. split; [|done]. rewrite <-Hold. f_equal. lia.
        + rewrite length_map, length_take, length_drop in Hp. apply lookup_ge_None in Ex. rewrite length_map, length_take, length_drop in Ex.
          rewrite length_alter, (sh_len _ _ _ _ _ Hs) in *. rewrite lookup_drop, list_lookup_alter_ne in Hp by lia.
          exists info. rewrite decide_False by lia. split; [|done]. rewrite <-Hp. f_equal. lia. }
    destruct Hcase as (old & Hold & ->). destruct (sh_infos _ _ _ _ _ Hs _ _ Hold) as [E1 E2 E3 E4]. unfold status_at in E3.
    case_decide; constructor; cbn; try done; try lia; unfold status_at; repeat case_decide; try done; try lia.
Qed.

Lemma getReqBlocks_shape t c a n : shape t c a 0 n -> is_Some (tm_peersHeaderMap t !! peerID) ->
  wp (getReqBlocks peerID) t (fun r t' o => o = [] /\ is_Some (tm_peersHeaderMap t' !! peerID)
    /\ ((r = (0, 0) /\ a = n /\ shape t' c a 0 n)
        \/ exists k, r = (from + Z.of_nat a, Z.of_nat k) /\ (0 < k)%nat /\ Z.of_nat k <= MaxBlockFetch /\ shape t' c a k n)).
Proof.
  intros Hs [hi Hhi]. shape_facts Hs. assert (Hkn : phi_headers hi = known t) by (unfold known; by rewrite Hhi).
  unfold getReqBlocks. apply wp_bind, wp_get. rewrite Hhi, Hkn. cbn zeta. rewrite (shape_cur _ _ _ _ _ Hs).
  destruct (decide (a = n)) as [Han|Hne].
  - destruct (size (known t) =? 0)%nat; [apply wp_ret; split; [done|]; split; [by eexists|]; left; by split_and!|].
    apply wp_bind. rewrite (shape_from _ _ _ _ _ c Hs) by lia. apply wp_ret. rewrite first_block_none.
    { apply wp_ret. split; [done|]. split; [by eexists|]. left. by split_and!. }
    intros i x Hx. rewrite lookup_drop in Hx. pose proof (lookup_lt_Some _ _ _ Hx) as Hlt.
    rewrite (sh_len _ _ _ _ _ Hs) in Hlt. rewrite (ta_status _ _ _ _ _ (sh_infos _ _ _ _ _ Hs _ _ Hx)).
    unfold status_at. repeat case_decide; try done; lia.
  - destruct (shape_lookup _ _ _ _ _ a Hs) as (info & Hinfo & Hti); [lia|].
    destruct (Nat.eqb_spec (size (known t)) 0) as [Hz|_].
    { apply map_size_empty_inv in Hz. pose proof (sh_known _ _ _ _ _ Hs a ltac:(lia)) as Hk. by rewrite Hz in Hk. }
    apply wp_bind. rewrite (shape_from _ _ _ _ _ c Hs) by lia. apply wp_ret.
    rewrite (first_block_at (known t) peerID (drop c (tm_downloadInfoList t)) (a - c) info).
    2: { intros i x Hi Hx. rewrite lookup_drop in Hx. rewrite (ta_status _ _ _ _ _ (sh_infos _ _ _ _ _ Hs _ _ Hx)).
         unfold status_at. repeat case_decide; try done; lia. }
    2: { rewrite lookup_drop. replace (c + (a - c))%nat with a by lia. done. }
    2: { rewrite (ta_status _ _ _ _ _ Hti). unfold status_at. repeat case_decide; try done; lia. }
    2: { rewrite (ta_header _ _ _ _ _ Hti), at_height by lia. eapply shape_has; [exact Hs|lia|done]. }
    rewrite (ta_header _ _ _ _ _ Hti), at_height by lia. apply wp_bind, wp_modify, wp_bind, wp_get. unfold set_infos_from at 1 2 3 4. rewrite Nat2Z.id.
    rewrite alter_from by (rewrite ?(sh_len _ _ _ _ _ Hs); lia). cbn [tm_fromNo set_infos]. rewrite (sh_from _ _ _ _ _ Hs).
    rewrite u64_small by (unfold is_u64; lia). replace (from + Z.of_nat a + 1 - from) with (Z.of_nat (a + 1)) by lia.
    set (l1 := alter (assign peerID) a (tm_downloadInfoList t)).
    assert (Hl1 : length l1 = n) by (unfold l1; by rewrite length_alter, (sh_len _ _ _ _ _ Hs)).
    apply wp_bind. apply (wp_deref _ (drop (a + 1) l1)).
    { unfold infos_from. cbn [tm_downloadInfoList set_infos]. rewrite Hl1, Nat2Z.id.
      destruct (Z.leb_spec 0 (Z.of_nat (a + 1))); [|lia]. by destruct (Z.leb_spec (Z.of_nat (a + 1)) (Z.of_nat n)); [|lia]. }
    destruct (more_blocks_all (known t) peerID (from + Z.of_nat a) (drop (a + 1) l1) 1) as (k & Hk & Hmax & ->).
    { unfold MaxBlockFetch. lia. }
    { intros i x Hx. rewrite lookup_drop in Hx. unfold l1 in Hx. rewrite list_lookup_alter_ne in Hx by lia.
      rewrite (ta_status _ _ _ _ _ (sh_infos _ _ _ _ _ Hs _ _ Hx)). split; [unfold status_at; repeat case_decide; try done; lia|].
      pose proof (lookup_lt_Some _ _ _ Hx) as Hlt. rewrite (sh_len _ _ _ _ _ Hs) in Hlt.
      rewrite u64_small by (unfold is_u64; lia). replace (from + Z.of_nat a + 1 + Z.of_nat i) with (from + Z.of_nat (a + 1 + i)) by lia.
      eapply shape_has; [exact Hs|lia|done]. }
    rewrite length_drop, Hl1 in Hk. apply wp_bind, wp_modify, wp_ret. split; [done|]. split; [by eexists|]. right. exists (S k).
    split; [f_equal; lia|]. split; [lia|]. split; [lia|]. unfold set_infos_from. rewrite !Nat2Z.id. cbn [tm_downloadInfoList set_infos].
    rewrite alter_from by (rewrite ?(sh_len _ _ _ _ _ Hs); lia). apply (assigned_shape t c a n k); [done|lia].
Qed.

Lemma place_block_shape t c a d n : shape t c a (S d) n -> 
  shape (set_downloadedNum (u64 (tm_downloadedNum t + 1)) (set_infos (<[a := mkInfo (b_Header (at_ a)) (Some (at_ a)) peerID taskStatusWaitProcessing]>
    (tm_downloadInfoList t)) t)) c (S a) d n.
Proof.
  intros Hs. shape_facts Hs. constructor; cbn; try (by destruct Hs).
  - rewrite length_insert. apply Hs.
  - lia.
  - intros p info Hp. destruct (decide (p = a)) as [->|Hne].
    + rewrite list_lookup_insert_eq in Hp by (rewrite (sh_len _ _ _ _ _ Hs); lia). injection Hp as <-.
      constructor; cbn; try done; try lia. unfold status_at. repeat case_decide; try done; lia.
    + rewrite list_lookup_insert_ne in Hp by done. destruct (sh_infos _ _ _ _ _ Hs _ _ Hp) as [E1 E2 E3 E4].
      constructor; [done|intros; apply E2; lia| |intros; apply E4; lia]. rewrite E3. unfold status_at. repeat case_decide; try done; lia.
Qed.

Lemma place_blocks_shape k : forall t c a d n h, shape t c a (k + d) n ->
  wp (place_blocks peerID (chain_part (from + Z.of_nat a) k) h) t (fun r t' o => o = [] /\ shape t' c (a + k) d n
    /\ tm_peersHeaderMap t' = tm_peersHeaderMap t /\ r = if decide (k = 0)%nat then h else from + Z.of_nat (a + k) - 1).
Proof.
  induction k as [|k IH]; intros t c a d n h Hs.
  { apply wp_ret. rewrite Nat.add_0_r. by rewrite decide_True by done. }
  shape_facts Hs. rewrite chain_part_cons. cbn [place_blocks]. apply wp_bind, wp_get. change (chain (from + Z.of_nat a)) with (at_ a).
  rewrite at_height by lia. rewrite (sh_from _ _ _ _ _ Hs). replace (from + Z.of_nat a - from) with (Z.of_nat a) by lia.
  rewrite u64_small, i64_small by (unfold is_u64; lia). destruct (Z.ltb_spec (Z.of_nat a) 0); [lia|]. rewrite Nat2Z.id.
  destruct (shape_lookup _ _ _ _ _ a Hs) as (info & Hinfo & Hti); [lia|]. apply wp_bind. rewrite Hinfo. apply wp_ret.
  rewrite (ta_peer _ _ _ _ _ Hti) by lia. unfold bytes_eqb. rewrite bool_decide_true by done. cbn [negb]. rewrite (ta_header _ _ _ _ _ Hti).
  apply wp_bind, wp_modify. replace (from + Z.of_nat a + 1) with (from + Z.of_nat (S a)) by lia.
  eapply wp_mono; [apply IH; apply (place_block_shape t c a (k + d) n); exact Hs|].
  cbn beta. intros r t' o (-> & Hs' & Hm & ->). split; [done|]. replace (a + S k)%nat with (S a + k)%nat by lia. split; [done|]. split; [done|].
  rewrite (decide_False (P := S k = 0%nat)) by lia. case_decide; lia.
Qed.

(** The rest of an answer that is too short is given back. *)
Lemma release_shape t c a d n : shape t c a d n ->
  shape (set_infos_from (Z.of_nat a) (release peerID (from + Z.of_nat a) to (drop a (tm_downloadInfoList t))) t) c a 0 n.
Proof.
  intros Hs. shape_facts Hs. unfold set_infos_from. rewrite Nat2Z.id.
  pose proof (Forall2_length _ _ _ (release_calm peerID (from + Z.of_nat a) to (drop a (tm_downloadInfoList t)))) as Hlen.
  rewrite length_drop, (sh_len _ _ _ _ _ Hs) in Hlen. constructor; cbn; try (by destruct Hs).
  - rewrite length_app, length_take, (sh_len _ _ _ _ _ Hs), <-Hlen. lia.
  - lia.
  - intros p info. rewrite lookup_from by (rewrite (sh_len _ _ _ _ _ Hs); lia). case_decide; intros Hp.
    + destruct (sh_infos _ _ _ _ _ Hs _ _ Hp) as [E1 E2 E3 E4]. constructor; [done..| |lia].
      rewrite E3. unfold status_at. repeat case_decide; try done; lia.
    + destruct (release_all peerID to d (drop a (tm_downloadInfoList t)) (from + Z.of_nat a)) with (i := (p - a)%nat) (x := info)
        as (y & Hy & Hcase); [rewrite length_drop, (sh_len _ _ _ _ _ Hs); lia|lia|lia|lia| |done|].
      { intros i x Hi Hx. rewrite lookup_drop in Hx. apply (ta_peer _ _ _ _ _ (sh_infos _ _ _ _ _ Hs _ _ Hx)). lia. }
      rewrite lookup_drop in Hy. replace (a + (p - a))%nat with p in Hy by lia. destruct (sh_infos _ _ _ _ _ Hs _ _ Hy) as [E1 E2 E3 E4].
      destruct Hcase as [->|[-> Hge]]; constructor; cbn; try done; try lia; unfold status_at in *; repeat case_decide; try done; lia.
Qed.

Lemma shape_no_requests t c a d n : shape t c a d n -> d = 0%nat -> shape t c a 0 n.
Proof. by intros ? ->. Qed.

Lemma deliverBlockMsg_shape t c a d n k : shape t c a d n -> (0 < k <= d)%nat ->
  wp (deliverBlockMsg peerID (chain_part (from + Z.of_nat a) k)) t (fun _ t' o => o = [] /\ shape t' c (a + k) 0 n
    /\ tm_peersHeaderMap t' = tm_peersHeaderMap t).
Proof.
  intros Hs Hk. shape_facts Hs. assert (Hd : d = (k + (d - k))%nat) by lia. rewrite Hd in Hs.
  pose proof (place_blocks_shape k t c a (d - k) n 0 Hs) as Hw. unfold deliverBlockMsg. destruct k as [|k]; [lia|].
  rewrite chain_part_cons in *. apply wp_bind. eapply wp_mono; [exact Hw|]. cbn beta. intros h t1 o1 (-> & Hs1 & Hm & ->).
  rewrite decide_False by lia. apply wp_bind, wp_get. rewrite (sh_to _ _ _ _ _ Hs1), (sh_from _ _ _ _ _ Hs1), (sh_len _ _ _ _ _ Hs1).
  destruct (Z.eqb_spec (from + Z.of_nat (a + S k) - 1) to).
  { apply wp_ret. split; [done|]. split; [|done]. eapply shape_no_requests; [exact Hs1|lia]. }
  replace (from + Z.of_nat (a + S k) - 1 + 1) with (from + Z.of_nat (a + S k)) by lia. rewrite (u64_small (from + Z.of_nat (a + S k))) by (unfold is_u64; lia).
  replace (from + Z.of_nat (a + S k) - from) with (Z.of_nat (a + S k)) by lia. rewrite u64_small, i64_small by (unfold is_u64; lia).
  destruct (_ || _) eqn:E.
  { apply wp_ret. split; [done|]. split; [|done]. eapply shape_no_requests; [exact Hs1|].
    apply orb_true_iff in E as [E|E]; [apply Z.ltb_lt in E|apply Z.leb_le in E]; lia. }
  apply wp_bind. rewrite (shape_from _ _ _ _ _ _ Hs1) by lia. apply wp_ret, wp_modify. split; [done|]. split; [|done].
  by eapply release_shape.
Qed.

Lemma onPeerQuit_shape t c a n : shape t c a 0 n ->
  wp (onPeerQuit peerID) t (fun _ t' o => o = [] /\ shape t' c a 0 n).
Proof.
  intros Hs. shape_facts Hs. unfold onPeerQuit. apply wp_bind, wp_get. cbn zeta. rewrite (shape_cur _ _ _ _ _ Hs). apply wp_bind.
  rewrite (shape_from _ _ _ _ _ _ Hs) by lia. apply wp_ret, wp_modify. split; [done|]. unfold set_infos_from. rewrite Nat2Z.id.
  assert (E : map (fun info => if (di_status info =? taskStatusDownloading) && bytes_eqb (di_peerID info) peerID
    then mkInfo (di_header info) (di_block info) [] taskStatusIdle else info) (drop c (tm_downloadInfoList t)) = drop c (tm_downloadInfoList t)).
  { etransitivity; [apply (list_fmap_ext _ id)|apply list_fmap_id]. intros i info Hi. rewrite lookup_drop in Hi. rewrite (ta_status _ _ _ _ _ (sh_infos _ _ _ _ _ Hs _ _ Hi)).
    unfold status_at. repeat case_decide; try done; lia. }
  rewrite E, take_drop. by destruct t.
Qed.

(** ** The session *)

Definition pc_ok (c a d n : nat) (pc : PeerPc) : Prop :=
  match pc with
  | PcLoop | PcIdle | PcBlocks _ => d = 0%nat
  | PcWaitHeaders s k => d = 0%nat /\ s = from + Z.of_nat n /\ 0 < k <= MaxHeaderFetch /\ Z.of_nat n + k <= Z.of_nat total
  | PcWaitBlocks s k => s = from + Z.of_nat a /\ k = Z.of_nat d /\ (0 < d)%nat /\ k <= MaxBlockFetch
  | PcQuit => d = 0%nat /\ c = total
  end.

(** The headers of the peer have a map. *)
Definition in_round (pc : PeerPc) : Prop :=
  match pc with PcLoop | PcIdle | PcQuit => False | _ => True end.

Record session_ok (s : Session) (c a d n : nat) : Prop := {
  so_shape : shape (ss_tm s) c a d n;
  so_handed : ss_handed s = chain_part from c;
  so_pc : pc_ok c a d n (ss_pc s);
  so_known : in_round (ss_pc s) -> is_Some (tm_peersHeaderMap (ss_tm s) !! peerID);
  so_cancel : ss_pc s <> PcQuit -> ss_cancelled s = false
}.

(** What is left to do: blocks to hand over, blocks and headers to get; and the steps of the
    peer before the next answer, when a block is missing. *)
Definition rank (pc : PeerPc) (a n : nat) : nat :=
  match pc with
  | PcBlocks _ => if decide (a < n)%nat then 1 else 4
  | PcLoop => 2
  | PcIdle => 3
  | _ => 0
  end.

Definition left_over (c a n : nat) (pc : PeerPc) : nat :=
  6 * ((total - c) + (total - a) + (total - n)) + (if decide (c < a)%nat then 0 else 1 + rank pc a n).

Lemma rank_max pc a n : (rank pc a n <= 4)%nat.
Proof. unfold rank. repeat case_match; lia. Qed.

Lemma left_over_less c a n pc c' a' n' pc' : (c <= c')%nat -> (a <= a')%nat -> (n <= n')%nat -> (c' <= total)%nat -> (a' <= total)%nat -> (n' <= total)%nat ->
  (c < c' \/ a < a' \/ n < n')%nat \/ (c = a /\ c' = c /\ a' = a /\ n' = n /\ rank pc' a n < rank pc a n)%nat ->
  (left_over c' a' n' pc' < left_over c a n pc)%nat.
Proof.
  intros. unfold left_over. pose proof (rank_max pc' a' n'). destruct H6 as [Hless|(-> & -> & -> & -> & Hr)]; repeat case_decide; lia.
Qed.

Lemma isDone_shape t c a d n : shape t c a d n -> isDone t = true <-> c = total.
Proof.
  intros Hs. shape_facts Hs. unfold isDone. rewrite (sh_cur _ _ _ _ _ Hs), (sh_to _ _ _ _ _ Hs), u64_small by (unfold is_u64; lia).
  rewrite Z.eqb_eq. lia.
Qed.

Lemma leave_ok s a n : session_ok s total a 0 n ->
  exists s', leave peerID s = Some s' /\ session_ok s' total a 0 n.
Proof.
  intros [Hs Hh Hp Hk Hc]. pose proof (onPeerQuit_shape _ _ _ _ Hs) as Hw. unfold leave, on_tm, wp in *.
  destruct (onPeerQuit peerID (ss_tm s)) as [[[[] t] o]|]; [|done]. destruct Hw as (-> & Hs'). eexists. split; [done|]. by constructor.
Qed.

(** A step of the manager in a turn of the peer. *)
Lemma on_tm_wp {A} (m : TmM A) s (Q : A -> taskMgr -> Prop) : wp m (ss_tm s) (fun r t o => o = [] /\ Q r t) ->
  exists r t, on_tm m s = Some (r, mkSession t (ss_pc s) (ss_cancelled s) (ss_handed s)) /\ Q r t.
Proof.
  unfold wp, on_tm. destruct (m (ss_tm s)) as [[[r t] o]|]; [|done]. intros [-> HQ]. exists r, t. by rewrite orb_false_r.
Qed.

Definition peer_progress s s' (c a d n : nat) : Prop :=
  exists a' d' n', session_ok s' c a' d' n' /\ (a <= a')%nat /\ (n <= n')%nat
    /\ (c = a -> (c < total)%nat -> left_over c a' n' (ss_pc s') < left_over c a n (ss_pc s))%nat.

Lemma session_order s c a d n : session_ok s c a d n -> (c <= a)%nat /\ (a + d <= n)%nat /\ (n <= total)%nat.
Proof. intros Hs. apply (sh_order _ _ _ _ _ (so_shape _ _ _ _ _ Hs)). Qed.

Lemma loop_turn s b c a d n : session_ok s c a d n -> ss_pc s = PcLoop ->
  exists s', peer_turn peer peerID b s = Some s' /\ peer_progress s s' c a d n.
Proof.
  intros Hok Hpc. pose proof (session_order _ _ _ _ _ Hok) as Hord. pose proof Hok as [Hs Hh Hp Hk Hc]. rewrite Hpc in Hp. cbn in Hp. subst d.
  unfold peer_turn. rewrite Hpc. destruct (isDone (ss_tm s)) eqn:Hd.
  - apply (isDone_shape _ _ _ _ _ Hs) in Hd as ->. destruct (leave_ok _ _ _ Hok) as (s' & -> & Hok'). eexists. split; [done|].
    exists a, 0%nat, n. split_and!; [done|lia..].
  - destruct (on_tm_wp _ s _ (getReqHeaderInfo_shape _ _ _ _ Hs)) as ([r k] & t & -> & Hs' & Hk' & Hcase).
    eexists. split; [done|]. exists a, 0%nat, n. split; [|split; [lia|]; split; [lia|]].
    + rewrite Hpc in Hc. destruct Hcase as [[[= -> ->] _]|(k' & [= -> <-] & Hk1 & Hk2)]; constructor; cbn; try done; try (by intros; apply Hc).
      destruct (Z.ltb_spec 0 k); [|lia]. cbn. split_and!; done || lia.
    + intros <- Hlt. apply left_over_less; try lia. right. split_and!; [done..|]. rewrite Hpc. cbn.
      destruct Hcase as [[[= -> ->] Hn]|(k' & [= -> <-] & Hk1 & Hk2)]; cbn; [|destruct (Z.ltb_spec 0 k); cbn; lia].
      case_decide; [lia|]. exfalso. unfold MaxHeaderFetch in Hn. lia.
Qed.

Lemma headers_turn s b c a d n r k : session_ok s c a d n -> ss_pc s = PcWaitHeaders r k ->
  exists s', peer_turn peer peerID b s = Some s' /\ peer_progress s s' c a d n.
Proof.
  intros Hok Hpc. pose proof (session_order _ _ _ _ _ Hok) as Hord. pose proof Hok as [Hs Hh Hp Hk Hc]. pose proof total_spec. pose proof (an_range Ha).
  rewrite Hpc in *. cbn in Hp, Hk. destruct Hp as (-> & -> & Hk1 & Hk2). specialize (Hk I). specialize (Hc ltac:(done)).
  unfold peer_turn. rewrite Hpc, Hc, andb_false_r.
  destruct (an_headers Ha (from + Z.of_nat n) k) as (j & Hj & Hjk & ->); [lia..|].
  destruct (on_tm_wp _ s _ (deliverHeaderMsg_shape (ss_tm s) c a n j Hs Hk Hj ltac:(lia))) as (x & t & -> & -> & Hs' & Hk').
  eexists. split; [done|]. exists a, 0%nat, (n + j)%nat. split; [by constructor; cbn; rewrite ?Hpc, ?Hc|]. split; [lia|]. split; [lia|].
  intros _ _. apply left_over_less; lia.
Qed.

Lemma blocks_turn s b c a d n r : session_ok s c a d n -> ss_pc s = PcBlocks r ->
  exists s', peer_turn peer peerID b s = Some s' /\ peer_progress s s' c a d n.
Proof.
  intros Hok Hpc. pose proof (session_order _ _ _ _ _ Hok) as Hord. pose proof Hok as [Hs Hh Hp Hk Hc].
  rewrite Hpc in *. cbn in Hp, Hk. subst d. specialize (Hk I). specialize (Hc ltac:(done)). unfold peer_turn. rewrite Hpc.
  destruct (on_tm_wp _ s _ (getReqBlocks_shape _ _ _ _ Hs Hk)) as ([x k] & t & -> & Hk' & Hcase). eexists. split; [done|].
  destruct Hcase as [([= -> ->] & <- & Hs')|(j & [= -> ->] & Hj & Hmax & Hs')].
  - exists a, 0%nat, a. split; [|split; [lia|]; split; [lia|]].
    + constructor; cbn; try done; by destruct r.
    + intros <- Hlt. apply left_over_less; try lia. right. split_and!; [done..|]. rewrite Hpc. cbn. rewrite decide_False by lia. destruct r; cbn; lia.
  - destruct (Z.ltb_spec 0 (Z.of_nat j)); [|lia]. pose proof (sh_order _ _ _ _ _ Hs'). exists a, j, n. split; [|split; [lia|]; split; [lia|]].
    + by constructor.
    + intros <- Hlt. apply left_over_less; try lia. right. split_and!; [done..|]. rewrite Hpc. cbn. rewrite decide_True by lia. lia.
Qed.

Lemma wait_turn s b c a d n r k : session_ok s c a d n -> ss_pc s = PcWaitBlocks r k ->
  exists s', peer_turn peer peerID b s = Some s' /\ peer_progress s s' c a d n.
Proof.
  intros Hok Hpc. pose proof (session_order _ _ _ _ _ Hok) as Hord. pose proof Hok as [Hs Hh Hp Hk Hc]. pose proof total_spec. pose proof (an_range Ha).
  rewrite Hpc in *. cbn in Hp, Hk. destruct Hp as (-> & -> & Hd & Hmax). specialize (Hk I). specialize (Hc ltac:(done)).
  unfold peer_turn. rewrite Hpc, Hc, andb_false_r.
  destruct (an_blocks Ha (from + Z.of_nat a) (Z.of_nat d)) as (j & Hj & Hjk & ->); [lia..|].
  destruct (on_tm_wp _ s _ (deliverBlockMsg_shape (ss_tm s) c a d n j Hs ltac:(lia))) as (x & t & -> & Hs' & Hm).
  eexists. split; [done|]. exists (a + j)%nat, 0%nat, n. split; [by constructor; cbn; rewrite ?Hc|]. split; [lia|]. split; [lia|].
  intros _ _. apply left_over_less; lia.
Qed.

Lemma peer_turn_ok s b c a d n : session_ok s c a d n ->
  exists s', peer_turn peer peerID b s = Some s' /\ peer_progress s s' c a d n.
Proof.
  intros Hok. destruct (ss_pc s) as [|r k|r|r k| |] eqn:Hpc; [by apply loop_turn|by eapply headers_turn|by eapply blocks_turn|by eapply wait_turn|..].
  - pose proof (session_order _ _ _ _ _ Hok) as Hord. pose proof Hok as [Hs Hh Hp Hk Hc]. rewrite Hpc in *. cbn in Hp. subst d.
    unfold peer_turn. rewrite Hpc, Hc by done. eexists. split; [done|]. exists a, 0%nat, n. split; [by constructor; cbn; auto|]. split; [lia|]. split; [lia|].
    intros <- Hlt. apply left_over_less; try lia. right. split_and!; [done..|]. rewrite Hpc. cbn. lia.
  - unfold peer_turn. rewrite Hpc. eexists. split; [done|]. exists a, d, n. split_and!; [done|lia..|]. intros -> Hlt.
    pose proof (so_pc _ _ _ _ _ Hok) as Hp. rewrite Hpc in Hp. destruct Hp. lia.
Qed.

Lemma run_turn_ok s c a d n : session_ok s c a d n ->
  exists s', run_turn accepts s = Some s' /\ session_ok s' a a d n /\ ss_pc s' = ss_pc s.
Proof.
  intros [Hs Hh Hp Hk Hc]. destruct (run_turn_shape s c a d n Hs Hh) as (t & -> & Hs' & Hm). eexists. split; [done|]. split; [|done].
  pose proof (sh_order _ _ _ _ _ Hs). constructor; cbn; try done; [|by rewrite Hm]. destruct (ss_pc s); cbn in *; try done. destruct Hp. split; [done|]. lia.
Qed.

Definition is_quit (turn : Turn) : bool := match turn with TurnQuit => true | _ => false end.
Definition is_peer (turn : Turn) : bool := match turn with TurnPeer _ => true | _ => false end.

(** Every turn keeps the session in order and makes no more to do; the goroutine whose turn
    makes less to do stays the same until it runs. *)
Lemma run_session_ok turns : forall s c a d n, session_ok s c a d n -> Forall (fun turn => is_quit turn = false) turns ->
  exists s' c' a' d' n', run_session peer peerID accepts turns s = Some s' /\ session_ok s' c' a' d' n' /\ (c <= c')%nat
    /\ (c' = total \/ left_over c' a' n' (ss_pc s') <= left_over c a n (ss_pc s))%nat
    /\ (((c < a)%nat /\ TurnRun ∈ turns) \/ (c = a /\ Exists (fun turn => is_peer turn = true) turns) ->
        c' = total \/ left_over c' a' n' (ss_pc s') < left_over c a n (ss_pc s))%nat.
Proof.
  induction turns as [|turn turns IH]; intros s c a d n Hok Hq.
  { exists s, c, a, d, n. split_and!; [done|done|lia|lia|]. intros [[_ []%elem_of_nil]|[_ Hn]]. by inversion Hn. }
  pose proof (session_order _ _ _ _ _ Hok) as Hord. inversion Hq as [|? ? Hnq Hq']; subst. destruct turn as [b| |]; [|done|].
  - destruct (peer_turn_ok s b c a d n Hok) as (s1 & E & a1 & d1 & n1 & Hok1 & Ha1 & Hn1 & Hless).
    destruct (IH s1 c a1 d1 n1 Hok1 Hq') as (s' & c' & a' & d' & n' & Hrun & Hok' & Hcc & Hle & Hlt). pose proof (session_order _ _ _ _ _ Hok1).
    exists s', c', a', d', n'. cbn [run_session session_turn]. rewrite E. split; [done|]. split; [done|]. split; [done|].
    destruct (decide (c = total)) as [->|Hne]; [pose proof (session_order _ _ _ _ _ Hok'); split; [|intros _]; left; lia|].
    destruct (decide (c = a)) as [Hca|Hca].
    + specialize (Hless Hca ltac:(lia)). split; [lia|]. intros _. lia.
    + assert (Hmono : (left_over c a1 n1 (ss_pc s1) <= left_over c a n (ss_pc s))%nat).
      { unfold left_over. rewrite !(decide_True (P := (c < _)%nat)) by lia. lia. }
      split; [lia|]. intros [[_ Hin]|[? _]]; [|done]. apply elem_of_cons in Hin as [|Hin]; [done|].
      destruct Hlt as [|Hlt]; [left; split; [lia|done]|by left|right; lia].
  - destruct (run_turn_ok s c a d n Hok) as (s1 & E & Hok1 & Hpc).
    destruct (IH s1 a a d n Hok1 Hq') as (s' & c' & a' & d' & n' & Hrun & Hok' & Hcc & Hle & Hlt).
    exists s', c', a', d', n'. cbn [run_session session_turn]. rewrite E. split; [done|]. split; [done|]. split; [lia|].
    destruct (decide (c = a)) as [->|Hca].
    + rewrite Hpc in *. split; [done|]. intros [[? _]|[_ Hin]]; [lia|]. apply Hlt. right. split; [done|]. by inversion Hin.
    + assert (Hmono : (left_over a a n (ss_pc s1) < left_over c a n (ss_pc s))%nat) by (apply left_over_less; lia).
      split; [lia|]. intros _. lia.
Qed.

(** A round in which both goroutines run and the connection stays. *)
Definition fair_round (turns : list Turn) : Prop :=
  Forall (fun turn => is_quit turn = false) turns /\ TurnRun ∈ turns /\ Exists (fun turn => is_peer turn = true) turns.

Lemma fair_rounds_end rounds : forall s c a d n, session_ok s c a d n -> Forall fair_round rounds ->
  (left_over c a n (ss_pc s) <= length rounds)%nat ->
  exists s' a' d' n', run_session peer peerID accepts (concat rounds) s = Some s' /\ session_ok s' total a' d' n'.
Proof.
  induction rounds as [|turns rounds IH]; intros s c a d n Hok Hf Hle; pose proof (session_order _ _ _ _ _ Hok) as Hord.
  { exists s, a, d, n. split; [done|]. unfold left_over in Hle. cbn in Hle. assert (c = total) as <- by lia. done. }
  inversion Hf as [|? ? (Hq & Hr & Hp) Hf']; subst.
  destruct (run_session_ok turns s c a d n Hok Hq) as (s1 & c1 & a1 & d1 & n1 & Hrun & Hok1 & Hcc & _ & Hlt).
  assert (Happ : run_session peer peerID accepts (concat (turns :: rounds)) s = run_session peer peerID accepts (concat rounds) s1).
  { cbn [concat]. clear -Hrun. revert s Hrun. induction turns as [|x turns IH]; intros s; cbn; [by intros [= ->]|].
    destruct (session_turn _ _ _ _ _); [|done]. apply IH. }
  rewrite Happ. destruct Hlt as [->|Hlt]; [destruct (decide (c < a)%nat); [by left|right; split; [lia|done]]|..].
  - pose proof (session_order _ _ _ _ _ Hok1). assert (Hqs : Forall (fun turn => is_quit turn = false) (concat rounds)).
    { apply Forall_concat. eapply Forall_impl; [exact Hf'|]. by intros ts (? & _). }
    destruct (run_session_ok (concat rounds) s1 total a1 d1 n1 Hok1 Hqs) as (s' & c' & a' & d' & n' & E & Hok' & Hc' & _).
    pose proof (session_order _ _ _ _ _ Hok'). assert (c' = total) as -> by lia. by eauto 10.
  - cbn [length] in Hle. eapply IH; [done..|lia].
Qed.

Lemma session_start lh ltd lbs t : newTaskMgr peerID from to lh ltd lbs = Some t -> session_ok (mkSession t PcLoop false []) 0 0 0 0.
Proof.
  unfold newTaskMgr. case_match; [done|]. intros [= <-]. pose proof (an_range Ha). constructor; cbn; try done. constructor; cbn; try done; try lia.
Qed.
End honest.
