(* ===== verification/DownloadServe.v ===== *)
(** * The answers of a node

    A node with a canonical chain answers requests with parts of it, which is what a session
    asks of its peer ([answers]); and the search for the common ancestor finds the highest
    block that both chains have. *)

From Stdlib Require Import ZArith Lia.
From S2P Require Import Prelude Common BftHeader StateDb Svm EvmWord EvmStore Trie TrieCommit ChainStore ChainLaws ChainTree ChainProofs Download DownloadProofs DownloadLive.

Open Scope Z_scope.

Section serve.
Context `{HeaderCodec} `{StoreCodec} `{BlockCodec}.
Implicit Types (db : Db) (T : Tree).

(** The canonical block at a height. *)
Definition canonical_block db (n : Z) : Block :=
  match GetBlockByHeight db n with inl b => b | inr _ => mkBlock EmptyHash (mkHeader [] [] [] [] [] [] [] None 0 None [] [] 0 []) [] [] end.

(** A database with the canonical chain of a block of some height. *)
Record head_db db T (o : Hash) (ho : BlockHeader) : Prop := {
  cd_tree : tree_ok T;
  cd_canonical : canonical db T o;
  cd_head : T o = Some ho;
  (** The blocks are stored by their hashes. *)
  cd_hash h hd : T h = Some hd -> header_Hash hd = h
}.

Lemma head_db_read db T o ho n : head_db db T o ho -> 0 <= n <= h_Height ho ->
  exists h hd, on_chain T o n h /\ T h = Some hd /\ h_Height hd = n /\ GetBlockHash db n = inl h /\ GetBlockHeader db h = inl hd
    /\ GetBlock db h = inl (canonical_block db n) /\ b_HeaderHash (canonical_block db n) = h /\ b_Header (canonical_block db n) = hd.
Proof.
  intros [HT (Ht & Hh & Hs & Hm) Ho _] Hn. destruct (on_chain_total T HT o ho n Ho Hn) as [h Hc].
  destruct (on_chain_heights T HT _ _ _ Hc) as (_ & hd & _ & Hhd & Hnd & _). exists h, hd.
  pose proof (tr_hash _ HT _ _ Ho) as (_ & _ & Hu). pose proof (Ht h) as Hr. rewrite Hhd in Hr. destruct Hr as (Hgh & b & Hgb & Hbh & Hbd & _).
  assert (Hmap : GetBlockHash db n = inl h).
  { unfold GetBlockHash. apply Hm in Hc; [|unfold is_u64; lia]. unfold mapped in Hc. rewrite Hc, BytesToHash_hash; [done|].
    by apply (tr_hash _ HT) in Hhd as (? & _). }
  assert (Hcb : canonical_block db n = b) by (unfold canonical_block, GetBlockByHeight; by rewrite Hmap, Hgb).
  rewrite Hcb. by split_and!.
Qed.

(** ** Answers *)

Lemma serve_headers_up db T o ho : head_db db T o ho -> forall amount s cnt, 0 <= s -> 0 <= cnt -> s + cnt + Z.of_nat amount <= h_Height ho + 1 ->
  serve_headers db (h_Height ho) s false cnt amount = map b_Header (chain_part (canonical_block db) (s + cnt) amount).
Proof.
  intros Hdb. pose proof (tr_hash _ (cd_tree _ _ _ _ Hdb) _ _ (cd_head _ _ _ _ Hdb)) as (_ & _ & Hu).
  induction amount as [|amount IH]; intros s cnt Hs Hc Hle; [done|]. cbn [serve_headers]. rewrite u64_small by (unfold is_u64; lia).
  destruct (Z.ltb_spec (h_Height ho) (s + cnt)); [lia|].
  destruct (head_db_read _ _ _ _ (s + cnt) Hdb) as (h & hd & _ & _ & _ & -> & -> & _ & _ & Hhd); [lia|].
  rewrite IH by lia. rewrite chain_part_cons. cbn [map]. rewrite Hhd. do 3 f_equal. lia.
Qed.

Lemma serve_headers_down db T o ho : head_db db T o ho -> forall amount s cnt, s <= h_Height ho -> 0 <= cnt -> cnt + Z.of_nat amount <= s + 1 ->
  serve_headers db (h_Height ho) s true cnt amount = map (fun i => b_Header (canonical_block db (s - cnt - Z.of_nat i))) (seq 0 amount).
Proof.
  intros Hdb. pose proof (tr_hash _ (cd_tree _ _ _ _ Hdb) _ _ (cd_head _ _ _ _ Hdb)) as (_ & _ & Hu).
  induction amount as [|amount IH]; intros s cnt Hs Hc Hle; [done|]. cbn [serve_headers]. rewrite u64_small by (unfold is_u64; lia).
  destruct (Z.ltb_spec (h_Height ho) (s - cnt)); [lia|].
  destruct (head_db_read _ _ _ _ (s - cnt) Hdb) as (h & hd & _ & _ & _ & -> & -> & _ & _ & Hhd); [lia|].
  rewrite IH by lia. cbn [seq map]. rewrite <-seq_shift, map_map, Z.sub_0_r, Hhd. f_equal. apply map_ext. intros i. do 2 f_equal. lia.
Qed.

Lemma serve_blocks_part db T o ho : head_db db T o ho -> forall amount s (sent cnt : Z), 0 <= s -> 0 <= cnt -> s + cnt + Z.of_nat amount <= h_Height ho + 1 ->
  exists k, (k <= amount)%nat /\ (sent <= 0 -> (0 < amount)%nat -> (0 < k)%nat)
    /\ serve_blocks db s sent cnt amount = Some (chain_part (canonical_block db) (s + cnt) k).
Proof.
  intros Hdb. pose proof (tr_hash _ (cd_tree _ _ _ _ Hdb) _ _ (cd_head _ _ _ _ Hdb)) as (_ & _ & Hu).
  induction amount as [|amount IH]; intros s tot cnt Hs Hc Hle; [by exists O|]. cbn [serve_blocks]. rewrite u64_small by (unfold is_u64; lia).
  destruct (head_db_read _ _ _ _ (s + cnt) Hdb) as (h & hd & _ & _ & _ & -> & _ & -> & _ & _); [lia|].
  destruct ((0 <? tot) && _) eqn:E.
  - exists O. split; [lia|]. split; [|done]. intros Ht. destruct (Z.ltb_spec 0 tot); [lia|done].
  - destruct (IH s (tot + block_size (canonical_block db (s + cnt))) (cnt + 1)) as (k & Hk & _ & ->); [lia..|]. exists (S k).
    split; [lia|]. split; [lia|]. rewrite chain_part_cons. cbn. do 3 f_equal. lia.
Qed.

Lemma query_number db n : query_origin db EmptyHash n = Some n.
Proof. unfold query_origin, bytes_eqb. by rewrite bool_decide_true. Qed.

Lemma serving_node_answers db T o ho current accepts from to :
  head_db db T o ho -> b_Header current = ho -> 0 <= from <= to + 1 -> to <= h_Height ho -> to < 2 ^ 63 - 1 ->
  (forall k, from + Z.of_nat k <= to -> accepts (chain_part (canonical_block db) from k) (canonical_block db (from + Z.of_nat k)) = true) ->
  answers (serving_node db current) accepts (canonical_block db) from to.
Proof.
  intros Hdb Hcur Hfrom Hto Hmax Hacc. constructor; [done|..|exact Hacc].
  - intros n Hn. destruct (head_db_read _ _ _ _ n Hdb) as (h & hd & _ & _ & <- & _ & _ & _ & _ & ->); [lia|done].
  - intros s a Hs Ha Hsa. exists (Z.to_nat a). split; [lia|]. split; [lia|]. cbn [RequestHeadersByHashOrNumber serving_node].
    rewrite query_number, Hcur, (serve_headers_up db T o ho), Z.add_0_r by (done || lia). done.
  - intros s a Hs Ha Hsa. cbn [RequestBlocksByHashOrNumber serving_node]. rewrite query_number. destruct (serve_blocks_part db T o ho Hdb (Z.to_nat a) s 0 0) as (k & Hk & Hk0 & ->); [lia..|].
    exists k. rewrite Z.add_0_r. split; [apply Hk0; lia|]. split; [lia|done].
Qed.

(** ** The common ancestor *)

Section ancestor.
Context (db db' : Db) (T T' : Tree) (o o' : Hash) (ho ho' : BlockHeader) (Hdb : head_db db T o ho) (Hdb' : head_db db' T' o' ho').
Context (current : Block) (Hcur : b_Header current = ho').

(** The two chains have the same block at a height. *)
Definition agree (n : Z) : Prop := GetBlockHash db n = GetBlockHash db' n.

Lemma found_down s : forall k, s <= h_Height ho -> s <= h_Height ho' -> Z.of_nat k <= s + 1 ->
  match isAncenstorFound db (map (fun i => b_Header (canonical_block db' (s - Z.of_nat i))) (seq 0 k)) with
  | Some (inl n) => s - Z.of_nat k < n <= s /\ agree n /\ forall m, n < m <= s -> ~ agree m
  | Some (inr _) => False
  | None => forall m, s - Z.of_nat k < m <= s -> ~ agree m
  end.
Proof.
  intros k. revert s. induction k as [|k IH]; intros s Hs Hs' Hk; [cbn; lia|]. cbn [seq map isAncenstorFound]. rewrite Z.sub_0_r.
  destruct (head_db_read _ _ _ _ s Hdb) as (h & hd & _ & Hh & Hn & Hhash & _); [lia|].
  destruct (head_db_read _ _ _ _ s Hdb') as (h' & hd' & _ & Hh' & Hn' & Hhash' & _ & _ & _ & ->); [lia|].
  rewrite Hn', Hhash, (cd_hash _ _ _ _ Hdb' _ _ Hh'). unfold bytes_eqb. case_bool_decide as He.
  - split; [lia|]. split; [unfold agree; congruence|lia].
  - assert (Hno : ~ agree s) by (unfold agree; congruence). rewrite <-seq_shift, map_map. specialize (IH (s - 1) ltac:(lia) ltac:(lia) ltac:(lia)).
    rewrite (map_ext _ (fun i => b_Header (canonical_block db' (s - 1 - Z.of_nat i)))) by (intros i; do 2 f_equal; lia).
    destruct (isAncenstorFound _ _) as [[n|e]|]; [|done|].
    + destruct IH as (Hn1 & Ha & Hd). split; [lia|]. split; [done|]. intros m Hm. destruct (decide (m = s)) as [->|]; [done|apply Hd; lia].
    + intros m Hm. destruct (decide (m = s)) as [->|]; [done|apply IH; lia].
Qed.

Definition ancestor_result (top : Z) (r : Z + SyncError) : Prop :=
  match r with
  | inl n => 0 <= n <= top /\ agree n /\ forall m, n < m <= top -> ~ agree m
  | inr err => err = errMaxForkAncestor /\ forall m, top - getMaxFetchAncestry top < m <= top -> ~ agree m
  end.

Lemma find_ancestor_spec top fuel : forall cmp, 0 < top -> top <= h_Height ho -> top <= h_Height ho' -> 0 <= cmp <= getMaxFetchAncestry top ->
  (forall m, top - cmp < m <= top -> ~ agree m) -> getMaxFetchAncestry top - cmp <= MaxHeaderFetch * (Z.of_nat fuel - 1) ->
  exists r, find_ancestor fuel db (serving_node db' current) top (getMaxFetchAncestry top) cmp = Some r /\ ancestor_result top r.
Proof.
  pose proof (tr_hash _ (cd_tree _ _ _ _ Hdb) _ _ (cd_head _ _ _ _ Hdb)) as (_ & _ & Hu). unfold MaxHeaderFetch.
  assert (Hmaxtop : 0 < top -> top <= h_Height ho -> getMaxFetchAncestry top <= top + 1 /\ getMaxFetchAncestry top <= MaxForkAncestry).
  { intros Ht Hh. unfold getMaxFetchAncestry, MaxForkAncestry. destruct (Z.leb_spec 90000 top); [lia|]. rewrite u64_small by (unfold is_u64; lia). lia. }
  induction fuel as [|fuel IH]; intros cmp Ht Hh Hh' Hc Hno Hf; [lia|]. destruct (Hmaxtop Ht Hh) as [Hmt Hmf]. unfold MaxForkAncestry in Hmf.
  cbn [find_ancestor]. set (mx := getMaxFetchAncestry top) in *. unfold getFetchCount, MaxHeaderFetch.
  rewrite (u64_small (mx - cmp)) by (unfold is_u64; lia). set (fetch := if 256 <=? mx - cmp then 256 else mx - cmp).
  assert (Hfetch : 0 <= fetch <= mx - cmp /\ (fetch = 256 \/ fetch = mx - cmp)) by (unfold fetch; destruct (Z.leb_spec 256 (mx - cmp)); lia).
  clearbody fetch. destruct (Z.eqb_spec fetch 0) as [Hz|Hz].
  { eexists. split; [done|]. split; [done|]. intros m Hm. apply Hno. lia. }
  rewrite (u64_small (top - cmp)) by (unfold is_u64; lia).
  pose proof (found_down (top - cmp) (Z.to_nat fetch) ltac:(lia) ltac:(lia) ltac:(lia)) as Hfound.
  set (hs := map _ _) in Hfound. assert (Hlen : Z.of_nat (length hs) = fetch) by (unfold hs; rewrite length_map, length_seq; lia).
  assert (Hget : getPeerBlockHeaders (serving_node db' current) (top - cmp) fetch = inl hs).
  { unfold getPeerBlockHeaders, serving_node. cbn [RequestHeadersByHashOrNumber]. rewrite query_number, Hcur.
    rewrite (serve_headers_down db' T' o' ho'), Z.sub_0_r by (done || lia). fold hs. by destruct hs; [cbn in Hlen; lia|]. }
  rewrite Hget.
  destruct (isAncenstorFound db hs) as [[n|e]|]; [|done|].
  - eexists. split; [done|]. destruct Hfound as (Hn & Ha & Hd). split; [lia|]. split; [done|]. intros m Hm.
    destruct (decide (m <= top - cmp)); [apply Hd; lia|apply Hno; lia].
  - rewrite Hlen, u64_small by (unfold is_u64; lia). apply IH; try lia. intros m Hm. destruct (decide (m <= top - cmp)); [apply Hfound; lia|apply Hno; lia].
Qed.

(** Blocks with one hash have one parent. *)
Lemma header_Hash_previous `{!HeaderCodecLaws} h h' : header_Hash h = header_Hash h' -> h_PreviousBlockHash h = h_PreviousBlockHash h'.
Proof.
  assert (Hk : forall x, h_PreviousBlockHash (hashed_header x) = h_PreviousBlockHash x).
  { intros x. unfold hashed_header, BftFilteredHeader, put_extra. repeat (case_match; try done); by repeat (case_match; try done). }
  rewrite !header_Hash_hashed. intros Heq%MustHash_inj. injection Heq as Heq. by rewrite <-Hk, Heq, Hk.
Qed.

(** Below a block that both chains have they are the same. *)
Lemma agree_below `{!HeaderCodecLaws} n m : n <= h_Height ho -> n <= h_Height ho' -> agree n -> 0 <= m <= n -> agree m.
Proof.
  intros Hn Hn' Ha Hm. remember (Z.to_nat (n - m)) as k eqn:Hk. revert m Hm Hk. induction k as [|k IH]; intros m Hm Hk.
  { by replace m with n by lia. }
  specialize (IH (m + 1) ltac:(lia) ltac:(lia)). unfold agree in *.
  destruct (head_db_read _ _ _ _ (m + 1) Hdb) as (h & hd & Hc & Hh & Hhn & E & _); [lia|].
  destruct (head_db_read _ _ _ _ (m + 1) Hdb') as (h' & hd' & Hc' & Hh' & Hhn' & E' & _); [lia|].
  destruct (head_db_read _ _ _ _ m Hdb) as (p & hp & Hcp & _ & _ & -> & _); [lia|].
  destruct (head_db_read _ _ _ _ m Hdb') as (p' & hp' & Hcp' & _ & _ & -> & _); [lia|].
  rewrite E, E' in IH. injection IH as <-. f_equal.
  pose proof (header_Hash_previous hd hd') as Hprev. rewrite (cd_hash _ _ _ _ Hdb _ _ Hh), (cd_hash _ _ _ _ Hdb' _ _ Hh') in Hprev.
  specialize (Hprev eq_refl). pose proof (on_chain_parent T (cd_tree _ _ _ _ Hdb) h hd Hh ltac:(lia)) as Hp.
  pose proof (on_chain_parent T' (cd_tree _ _ _ _ Hdb') h hd' Hh' ltac:(lia)) as Hp'.
  replace (h_Height hd - 1) with m in Hp by lia. replace (h_Height hd' - 1) with m in Hp' by lia.
  rewrite (on_chain_fun T (cd_tree _ _ _ _ Hdb) _ _ _ _ Hcp (on_chain_trans _ _ _ _ _ _ Hc Hp)).
  rewrite (on_chain_fun T' (cd_tree _ _ _ _ Hdb') _ _ _ _ Hcp' (on_chain_trans _ _ _ _ _ _ Hc' Hp')). done.
Qed.

Lemma fetchHeight_serving : b_HeaderHash current = o' -> fetchHeight (serving_node db' current) = inl ho'.
Proof.
  intros Ho'. pose proof (cd_head _ _ _ _ Hdb') as Hhead. pose proof (tr_hash _ (cd_tree _ _ _ _ Hdb') _ _ Hhead) as (_ & Hne & Hu).
  pose proof (cd_hash _ _ _ _ Hdb' _ _ Hhead) as Hhash. unfold fetchHeight, serving_node. cbn [peer_Head RequestHeadersByHashOrNumber].
  rewrite Ho'. unfold query_origin, bytes_eqb at 1. rewrite bool_decide_false by done.
  destruct (head_db_read _ _ _ _ (h_Height ho') Hdb') as (h & hd & Hc & Hh & _ & _ & Hgh & _ & _ & Hb); [lia|].
  assert (h = o') as ->. { eapply (on_chain_fun T' (cd_tree _ _ _ _ Hdb')); [exact Hc|]. by constructor. }
  assert (hd = ho') as -> by congruence. rewrite Hgh, Hcur. change (Z.to_nat 1) with 1%nat.
  rewrite (serve_headers_up db' T' o' ho') by (done || lia). cbn. rewrite Z.add_0_r, Z.add_0_r, Hb, Hhash. unfold bytes_eqb. by rewrite bool_decide_true.
Qed.
End ancestor.
End serve.
