(* ===== verification/DownloadChain.v ===== *)
(** * The chain during a download

    Models the parts of [seele/download/downloader.go] that change the local chain: going
    back to the common ancestor ([reverseBCstore], [updateHeadInfo]), writing the blocks that
    were downloaded and putting the old ones back when that fails ([processBlocks]), and the
    start of a session up to its manager ([doSynchronise]). *)

From Stdlib Require Import ZArith Lia.
From S2P Require Import Prelude Common BftHeader StateDb Svm EvmWord EvmStore Trie TrieCommit ChainStore Merkle ChainLaws ChainCanon BlockLeaves ChainTree ChainProofs ChainCrash ChainPurge PoolQueue Pool Stem BlockTypes BlockApply Download.

Open Scope Z_scope.
Open Scope go_scope.

(** What leaves the downloader: the effects of the chain, the blocks that are put back into the
    pools, the peer that is dropped and the session that is cancelled. *)
Inductive DlEffect : Type :=
| NodeDid (effect : NodeEffect)
| TxPoolReversed (block : Block)
| DebtPoolReversed (block : Block)
| DisconnectsPeer
| CancelsSession.

Section reverse.
Context {S A : Type} `{StoreCodec} `{BlockchainStore S}.

Abbreviation Node := (Blockchain (S := S) (A := A)).
Abbreviation DlM X := (GoM Node DlEffect X).

Definition on_node {X} (m : GoM Node NodeEffect X) : DlM X := fun nd =>
  match m nd with
  | Some (x, nd', o) => Some (x, nd', map NodeDid o)
  | None => None
  end.

(** A call of the store of the chain. *)
Definition bc_store {X} (m : GoM S Db X) : DlM X := on_node (on_chain (on_store m)).

Definition RemoveBlockLeaves (hash : Hash) : DlM unit :=
  nd <- go_get ;;
  leaves <- go_deref (leaves_Remove (nd_leaves nd) hash) ;;
  go_modify (fun nd => set_leaves nd leaves).

Definition AddBlockLeaves (index : BlockIndex) : DlM unit :=
  nd <- go_get ;;
  leaves <- go_deref (leaves_Add (nd_leaves nd) index) ;;
  go_modify (fun nd => set_leaves nd leaves).

Definition UpdateCurrentBlock (block : Block) : DlM unit := go_modify (fun nd => set_current nd block).

Definition updateHeadInfo (height : Z) : DlM (option StoreError) :=
  curHash <- bc_store (bs_GetBlockHash height) ;;
  match curHash with
  | inr err => go_ret (Some err)
  | inl curHash =>
      curBlock <- bc_store (bs_GetBlock curHash) ;;
      match curBlock with
      | inr err => go_ret (Some err)
      | inl curBlock =>
          bc_store (bs_PutHeadBlockHash curHash) ;;;
          currentTd <- bc_store (bs_GetBlockTotalDifficulty (b_HeaderHash curBlock)) ;;
          match currentTd with
          | inr err => go_ret (Some err)
          | inl currentTd =>
              AddBlockLeaves (NewBlockIndex (b_HeaderHash curBlock) (h_Height (b_Header curBlock)) currentTd) ;;;
              UpdateCurrentBlock curBlock ;;;
              go_ret None
          end
      end
  end.

(** The loop of [reverseBCstore], for the [n] heights from [curHeight] down. *)
Fixpoint reverse_loop (n : nat) (curHeight : Z) (localBlocks : list Block) : DlM (list Block * option StoreError) :=
  match n with
  | O => go_ret (localBlocks, None)
  | Datatypes.S n' =>
      hash <- bc_store (bs_GetBlockHash curHeight) ;;
      match hash with
      | inr err => go_ret (localBlocks, Some err)
      | inl hash =>
          block <- bc_store (bs_GetBlock hash) ;;
          match block with
          | inr err => go_ret (localBlocks, Some err)
          | inl block =>
              RemoveBlockLeaves hash ;;;
              err <- updateHeadInfo (curHeight - 1) ;;
              match err with
              | Some err => go_ret (localBlocks, Some err)
              | None =>
                  let localBlocks := block :: localBlocks in
                  go_emit (TxPoolReversed block) ;;;
                  go_emit (DebtPoolReversed block) ;;;
                  err <- bc_store (bs_DeleteBlock hash) ;;
                  match err with
                  | Some err => go_ret (localBlocks, Some err)
                  | None =>
                      _ <- bc_store (bs_DeleteBlockHash curHeight) ;;
                      reverse_loop n' (curHeight - 1) localBlocks
                  end
              end
          end
      end
  end.

(** The local height, its total difficulty ([None] if it cannot be read), the blocks above the
    ancestor and the error. *)
Definition reverseBCstore (ancestor : Z) : DlM (Z * option Z * list Block * option StoreError) :=
  nd <- go_get ;;
  let localHeight := h_Height (b_Header (nd_current nd)) in
  localTD <- bc_store (bs_GetBlockTotalDifficulty (b_HeaderHash (nd_current nd))) ;;
  match localTD with
  | inr err => go_ret (localHeight, None, [], Some err)
  | inl localTD =>
      r <- reverse_loop (Z.to_nat (localHeight - ancestor)) localHeight [] ;;
      go_ret (localHeight, Some localTD, r.1, r.2)
  end.

(** [doSynchronise] up to the manager of the session: what [newTaskMgr] is called with. The
    search for the ancestor has fuel. *)
Definition sync_prepare `{HeaderCodec} (fuel : nat) (peer : RemotePeer) : DlM ((Z * Z * Z * Z * list Block) + SyncError) :=
  match fetchHeight peer with
  | inr err => go_emit DisconnectsPeer ;;; go_ret (inr err)
  | inl latest =>
      nd <- go_get ;;
      let height := h_Height latest in
      ancestor <- go_deref (findCommonAncestorHeight fuel (store_db (ch_store (nd_chain nd))) (h_Height (b_Header (nd_current nd))) peer height) ;;
      match ancestor with
      | inr err => go_emit DisconnectsPeer ;;; go_ret (inr err)
      | inl ancestor =>
          r <- reverseBCstore ancestor ;;
          match r with
          | (_, _, _, Some err) => go_ret (inr (errStore err))
          | (localHeight, localTD, localBlocks, None) =>
              localTD <- go_deref localTD ;;
              go_ret (inl (u64 (ancestor + 1), height, localHeight, localTD, localBlocks))
          end
      end
  end.
End reverse.

(** ** [processBlocks] *)

Section process.
Context {S A T : Type} `{StoreCodec} `{BlockchainStore S} {HT : TrieOps T} `{@VmOps T HT} `{@NodeEnv S A T HT}.
Context `{BlockEnv} `{TrieEnv} `{HeaderCodec} `{MerkleEnv} `{StemEnv}.
(** Whether the error of the engine for a header is [ErrBlockNonceInvalid] or
    [ErrBlockDifficultInvalid]. *)
Context (bad_proof : BlockHeader -> bool).
Context (selRand : gmap Hash Transaction -> Hash).

Abbreviation Node := (Blockchain (S := S) (A := A)).
Abbreviation DlM X := (GoM Node DlEffect X).

Definition WriteBlock (block : Block) : DlM (option WriteError) := on_node (doWriteBlock selRand block).

Definition proof_error (block : Block) (err : option WriteError) : bool :=
  match err with Some errVerifyHeader => bad_proof (b_Header block) | _ => false end.

(** Put the local blocks back; whether the last error is one of the proof of work. *)
Fixpoint write_back (localBlocks : list Block) (last : bool) : DlM bool :=
  match localBlocks with
  | [] => go_ret last
  | localBlock :: localBlocks' =>
      err <- WriteBlock localBlock ;;
      match err with
      | Some _ => go_ret (proof_error localBlock err)
      | None => write_back localBlocks' false
      end
  end.

(** A block that the chain does not take. The variable [err] is assigned again when the session
    is abandoned. [ErrBlockAlreadyExists], which the caller passes over, is never returned by
    [WriteBlock]. *)
Definition write_failed (block : Block) (err : option WriteError) (ancestor localTD : Z) (localBlocks : list Block) : DlM unit :=
  nd <- go_get ;;
  currentTD <- bc_store (bs_GetBlockTotalDifficulty (b_HeaderHash (nd_current nd))) ;;
  bad <- (if match currentTD with inr _ => true | inl currentTD => currentTD <? localTD end
          then _ <- reverseBCstore ancestor ;; write_back localBlocks false
          else go_ret (proof_error block err)) ;;
  (if bad then go_emit DisconnectsPeer else go_ret tt) ;;;
  go_emit CancelsSession.

(** The number of blocks that are written. *)
Fixpoint processBlocks (blocks : list Block) (ancestor localTD : Z) (localBlocks : list Block) : DlM nat :=
  match blocks with
  | [] => go_ret O
  | block :: blocks' =>
      err <- WriteBlock block ;;
      match err with
      | Some _ => write_failed block err ancestor localTD localBlocks ;;; go_ret O
      | None => n <- processBlocks blocks' ancestor localTD localBlocks ;; go_ret (Datatypes.S n)
      end
  end.
End process.
