(* ===== verification/DownloadReverse.v ===== *)
(** * Going back to the common ancestor

    [reverseBCstore] takes the blocks above the ancestor off the chain, one by one: the head
    goes down, the block is deleted, then the mapping of its height. Afterwards the chain is
    that of the ancestor; between the two deletions the height is mapped to a block that is not
    there. *)

From Stdlib Require Import ZArith Lia.
From S2P Require Import Prelude Common BftHeader StateDb Svm EvmWord EvmStore Trie TrieCommit ChainStore Merkle ChainLaws ChainCanon BlockLeaves ChainTree ChainProofs ChainCrash ChainPurge PoolQueue Pool Stem BlockTypes BlockApply ChainExamples ChainSpec Download DownloadChain.

Open Scope Z_scope.
Open Scope go_scope.

#[local] Abbreviation on_chain := ChainTree.on_chain.

Section reverse.
Context {S A : Type} `{StoreCodec} `{BlockchainStore S} `{!StoreLaws S} `{!StoreCodecLaws}.
Implicit Types (db : Db) (T : Tree) (nd : Blockchain (S := S) (A := A)).

Definition nd_holds nd db rp file : Prop := holds (nd_chain nd) db rp file.

Abbreviation disk_effects := (map (fun d => NodeDid (WroteDisk d))).

(** A call of the store, with what the database does. *)
Lemma wp_bc_store {X} (m : GoM S Db X) (raw : DbM X) nd db rp file (Q : X -> Blockchain (S := S) (A := A) -> list DlEffect -> Prop) :
  nd_holds nd db rp file -> (forall s, store_inv s -> store_db s = db -> refines store_inv m raw s) ->
  wp raw db (fun x db' o => forall nd', nd_holds nd' db' rp file -> nd_leaves nd' = nd_leaves nd -> nd_current nd' = nd_current nd ->
    Q x nd' (disk_effects (map (fun d => (d, file)) o))) ->
  wp (bc_store m) nd Q.
Proof.
  intros (Hdb & Hinv & Hrp & Hfile) Hm Hraw. unfold wp, bc_store, on_node, BlockApply.on_chain, on_store in *.
  destruct (raw db) as [[[x db'] o]|] eqn:Er; [|done]. destruct (Hm (ch_store (nd_chain nd)) Hinv Hdb x db' o) as (s' & -> & Hdb' & Hinv'); [by rewrite Hdb|].
  rewrite map_map, Hfile. apply Hraw; [|done..]. by split_and!.
Qed.

Lemma wp_bc_read {X} (m : GoM S Db X) (f : Db -> X) nd db rp file (Q : X -> Blockchain (S := S) (A := A) -> list DlEffect -> Prop) :
  nd_holds nd db rp file -> (forall s, store_inv s -> refines store_inv m (db_read f) s) ->
  (forall nd', nd_holds nd' db rp file -> nd_leaves nd' = nd_leaves nd -> nd_current nd' = nd_current nd -> Q (f db) nd' []) ->
  wp (bc_store m) nd Q.
Proof. intros Hnd Hm HQ. eapply wp_bc_store; [exact Hnd|by intros; apply Hm|]. exact HQ. Qed.

(** ** The database *)

(** The chain is that of a block [x] of the tree [T]; of the other blocks some are gone. *)
Record on_top db T (x : Hash) (T1 : Tree) : Prop := {
  ot_less k hd : T1 k = Some hd -> T k = Some hd;
  ot_chain n k : on_chain T x n k -> T1 k = T k;
  ot_canonical : canonical db T1 x
}.

Lemma on_top_chain db T x T1 n k : on_top db T x T1 -> on_chain T1 x n k <-> on_chain T x n k.
Proof.
  intros [Hless Hch _]. split; [by apply on_chain_grow|]. revert Hch. generalize x as y. intros y Hch Hc.
  induction Hc as [y hd Hy|y hd n k Hy Hc IH].
  - constructor. rewrite <-Hy. eapply Hch. by constructor.
  - econstructor; [rewrite <-Hy; eapply Hch; by constructor|]. apply IH. intros m j Hj. eapply Hch. by econstructor.
Qed.

Lemma on_top_read db T x T1 n k hd : tree_ok T -> on_top db T x T1 -> on_chain T x n k -> T k = Some hd ->
  GetBlockHash db n = inl k /\ exists b, GetBlock db k = inl b /\ b_HeaderHash b = k /\ b_Header b = hd /\ b_Debts b = [].
Proof.
  intros HT Ht Hc Hk. pose proof (ot_canonical _ _ _ _ Ht) as (Htree & _ & _ & Hm).
  destruct (on_chain_heights T HT _ _ _ Hc) as (hx & hk & Hx & Hk' & Hn & Hle). pose proof (tr_hash _ HT _ _ Hk) as (Hlen & _ & Hu).
  assert (hk = hd) as -> by congruence. split.
  - apply (on_top_chain _ _ _ _ _ _ Ht), Hm in Hc; [|unfold is_u64; lia]. unfold GetBlockHash. unfold mapped in Hc. by rewrite Hc, BytesToHash_hash.
  - pose proof (Htree k) as Hr. rewrite (ot_chain _ _ _ _ Ht _ _ Hc), Hk in Hr. apply Hr.
Qed.

(** One step: the head, the block and the mapping of its height. *)
Lemma on_top_step db T x hx T1 db1 : tree_ok T -> on_top db T x T1 -> T x = Some hx -> 0 < h_Height hx ->
  deleted_block x (<[keyHeadBlockHash := h_PreviousBlockHash hx]> db) db1 ->
  on_top (base.delete (heightToHashKey (h_Height hx)) db1) T (h_PreviousBlockHash hx) (without T1 x)
  /\ db1 !! keyHeadBlockHash = Some (h_PreviousBlockHash hx) /\ mapped db1 (h_Height hx) x /\ db1 !! hashToHeaderKey x = None.
Proof.
  intros HT Ht Hx Hpos (Hkeep & Hheights & Hhead & Hgone). set (p := h_PreviousBlockHash hx) in *.
  pose proof (tr_hash _ HT _ _ Hx) as (Hlen & _ & Hu). destruct (tr_parent _ HT _ _ Hx) as [[Hzero _]|(hp & Hp & Hhp)]; [lia|]. fold p in Hp.
  pose proof (ot_canonical _ _ _ _ Ht) as (Htree & _ & _ & Hm).
  assert (Hnox : forall n, ~ on_chain T p n x).
  { intros n Hc. destruct (on_chain_heights T HT _ _ _ Hc) as (hp' & hx' & Hp' & Hx' & <- & Hle). rewrite Hp in Hp'. rewrite Hx in Hx'. simplify_eq. lia. }
  assert (Hup : forall n k, on_chain T p n k -> on_chain T x n k) by (intros n k Hc; by eapply oc_up).
  assert (Hwithout : forall n k, on_chain T p n k -> without T1 x k = T k).
  { intros n k Hc. unfold without. rewrite decide_False; [by apply (ot_chain _ _ _ _ Ht n), Hup|]. intros ->. by apply (Hnox n). }
  assert (Hheights' : forall n, db1 !! heightToHashKey n = db !! heightToHashKey n).
  { intros n. rewrite Hheights. apply lookup_insert_ne. apply head_key_height. }
  assert (Hxm : mapped db1 (h_Height hx) x).
  { unfold mapped. rewrite Hheights'. apply Hm; [unfold is_u64; lia|]. apply (on_top_chain _ _ _ _ _ _ Ht). by constructor. }
  split; [|split_and!; [by rewrite Hhead, lookup_insert_eq|done|done]].
  assert (Hless : forall k hd, without T1 x k = Some hd -> T k = Some hd).
  { intros k hd. unfold without. case_decide; [done|]. apply (ot_less _ _ _ _ Ht). }
  split; [done|done|]. split; [|split; [|split]].
  - intros k. unfold without. pose proof (Htree k) as Hr. destruct (decide (k = x)) as [->|Hne].
    + by rewrite lookup_delete_ne.
    + destruct (Hkeep k Hne) as (E1 & _ & E2). rewrite lookup_insert_ne in E1, E2 by done.
      unfold GetBlock, GetBlockHeader in *. by rewrite !lookup_delete_ne, E1, E2 by done.
  - rewrite lookup_delete_ne by (intros E; by apply (head_key_height (h_Height hx))). by rewrite Hhead, lookup_insert_eq.
  - rewrite (Hwithout (h_Height hp) p) by (by constructor). by eexists.
  - intros n k Hn. assert (Hiff : on_chain (without T1 x) p n k <-> on_chain T p n k).
    { split; [by apply on_chain_grow|]. intros Hc. assert (Hw : forall m j, on_chain T p m j -> without T1 x j = T j) by done.
      clear -Hc Hw. revert Hw. induction Hc as [y hd Hy|y hd n k Hy Hc IH]; intros Hw.
      - constructor. rewrite <-Hy. eapply Hw. by constructor.
      - econstructor; [rewrite <-Hy; eapply Hw; by constructor|]. apply IH. intros m j Hj. eapply Hw. by econstructor. }
    rewrite Hiff. unfold mapped. destruct (decide (n = h_Height hx)) as [->|Hne].
    + rewrite lookup_delete_eq. split; [done|]. intros Hc. destruct (on_chain_heights T HT _ _ _ Hc) as (hp' & _ & Hp' & _ & _ & Hle).
      rewrite Hp in Hp'. simplify_eq. lia.
    + rewrite lookup_delete_ne, Hheights' by (intros E; apply Hne; symmetry; apply heightToHashKey_inj; [unfold is_u64; lia|done|done]).
      fold (mapped db n k). rewrite (Hm n k Hn), (on_top_chain _ _ _ _ _ _ Ht). split; [|apply Hup].
      intros Hc. inversion Hc as [? hd E|? hd ? ? E Hc']; subst; rewrite Hx in E; simplify_eq. done.
Qed.

(** What can be read of the chain of a block is what was there at the start. *)
Definition kept db0 db T (x : Hash) : Prop := forall n k, on_chain T x n k ->
  GetBlock db k = GetBlock db0 k /\ GetBlockTotalDifficulty db k = GetBlockTotalDifficulty db0 k.

Lemma kept_step db0 db T x hx db1 : tree_ok T -> kept db0 db T x -> T x = Some hx -> 0 < h_Height hx ->
  deleted_block x (<[keyHeadBlockHash := h_PreviousBlockHash hx]> db) db1 ->
  kept db0 (base.delete (heightToHashKey (h_Height hx)) db1) T (h_PreviousBlockHash hx).
Proof.
  intros HT Hk Hx Hpos (Hkeep & _) n k Hc. destruct (Hk n k) as [<- <-]; [by eapply oc_up|].
  assert (Hne : k <> x).
  { intros ->. destruct (on_chain_heights T HT _ _ _ Hc) as (hp' & hx' & Hp' & Hx' & <- & Hle).
    destruct (tr_parent _ HT _ _ Hx) as [[Hz _]|(hp & Hp & Hhp)]; [lia|]. rewrite Hp in Hp'. rewrite Hx in Hx'. simplify_eq. lia. }
  destruct (Hkeep k Hne) as (E1 & E2 & E3). rewrite lookup_insert_ne in E1, E2, E3 by done.
  unfold GetBlock, GetBlockHeader, GetBlockTotalDifficulty. by rewrite !lookup_delete_ne, E1, E2, E3 by done.
Qed.

(** ** The leaves *)

Lemma RemoveBlockLeaves_spec h nd (Q : unit -> Blockchain (S := S) (A := A) -> list DlEffect -> Prop) :
  leaves_ok (nd_leaves nd) ->
  (forall l, leaves_ok l -> bl_indexMap l = base.delete h (bl_indexMap (nd_leaves nd)) -> Q tt (set_leaves nd l) []) -> wp (RemoveBlockLeaves h) nd Q.
Proof.
  intros Hok HQ. destruct (leaves_Remove_ok _ h Hok) as (l & E & Hl & Hm). unfold RemoveBlockLeaves. apply wp_bind, wp_get, wp_bind.
  apply (wp_deref _ l); [done|]. apply wp_modify. by apply HQ.
Qed.

Lemma AddBlockLeaves_spec i nd (Q : unit -> Blockchain (S := S) (A := A) -> list DlEffect -> Prop) :
  leaves_ok (nd_leaves nd) ->
  (forall l, leaves_ok l -> bl_indexMap l = <[bi_blockHash i := i]> (bl_indexMap (nd_leaves nd)) -> Q tt (set_leaves nd l) []) -> wp (AddBlockLeaves i) nd Q.
Proof.
  intros Hok HQ. destruct (leaves_Add_ok _ i Hok) as (l & E & Hl & Hm). unfold AddBlockLeaves. apply wp_bind, wp_get, wp_bind.
  apply (wp_deref _ l); [done|]. apply wp_modify. by apply HQ.
Qed.

Lemma updateHeadInfo_spec nd db rp file n h b td : nd_holds nd db rp file -> leaves_ok (nd_leaves nd) -> is_u64 n ->
  GetBlockHash db n = inl h -> GetBlock db h = inl b -> b_HeaderHash b = h -> GetBlockTotalDifficulty db h = inl td ->
  wp (updateHeadInfo n) nd (fun r nd' o => r = None /\ nd_holds nd' (<[keyHeadBlockHash := h]> db) rp file /\ leaves_ok (nd_leaves nd')
    /\ bl_indexMap (nd_leaves nd') = <[h := NewBlockIndex h (h_Height (b_Header b)) td]> (bl_indexMap (nd_leaves nd)) /\ nd_current nd' = b).
Proof.
  intros Hnd Hl Hn Hh Hb Hbh Htd. unfold updateHeadInfo.
  apply wp_bind. eapply wp_bc_read; [exact Hnd|intros; by apply GetBlockHash_law|]. intros nd1 Hnd1 El1 _. cbn beta. rewrite Hh.
  apply wp_bind. eapply wp_bc_read; [exact Hnd1|intros; by apply (GetBlock_law h)|]. intros nd2 Hnd2 El2 _. cbn beta. rewrite Hb.
  apply wp_bind. eapply wp_bc_store; [exact Hnd2|intros; by apply (PutHeadBlockHash_law h)|]. intros nd3 Hnd3 El3 _. cbn beta. rewrite Hbh.
  apply wp_bind. eapply wp_bc_read; [exact Hnd3|intros; by apply (GetBlockTotalDifficulty_law h)|]. intros nd4 Hnd4 El4 _. cbn beta.
  assert (E : GetBlockTotalDifficulty (<[keyHeadBlockHash := h]> db) h = inl td) by (unfold GetBlockTotalDifficulty; by rewrite lookup_insert_ne).
  rewrite E. apply wp_bind, AddBlockLeaves_spec; [by rewrite El4, El3, El2, El1|]. intros l Hlok Hlm.
  apply wp_bind, wp_modify, wp_ret. cbn. split_and!; [done|done|done| |done]. by rewrite Hlm, El4, El3, El2, El1.
Qed.

(** ** The loop *)

(** The heights of the blocks, from the one above the ancestor. *)
Definition blocks_above T db0 (x : Hash) (ancestor : Z) (blocks : list Block) : Prop :=
  forall i b, blocks !! i = Some b -> on_chain T x (ancestor + 1 + Z.of_nat i) (b_HeaderHash b) /\ GetBlock db0 (b_HeaderHash b) = inl b.

(** The disk between the deletion of a block and that of the mapping of its height. *)
Definition cut_disks file (blocks : list Block) (o : list DlEffect) : Prop :=
  forall b, b ∈ blocks -> exists db1, NodeDid (WroteDisk (db1, file)) ∈ o /\ dangling (h_PreviousBlockHash (b_Header b)) b db1.

Record reversed T db0 (x a : Hash) (ancestor : Z) (T1 T2 : Tree) nd nd' : Prop := {
  rv_leaves : leaves_ok (nd_leaves nd');
  rv_others k : (forall m, ancestor <= m -> ~ on_chain T x m k) -> bl_indexMap (nd_leaves nd') !! k = bl_indexMap (nd_leaves nd) !! k;
  rv_cut k hd : T2 k = Some hd <-> T1 k = Some hd /\ forall m, ancestor < m -> ~ on_chain T x m k;
  rv_current : a = x /\ nd_current nd' = nd_current nd /\ nd_leaves nd' = nd_leaves nd
    \/ GetBlock db0 a = inl (nd_current nd') /\ exists td, GetBlockTotalDifficulty db0 a = inl td
         /\ bl_indexMap (nd_leaves nd') !! a = Some (NewBlockIndex a ancestor td)
}.

Context (T : Tree) (HT : tree_ok T) (db0 : Db).
Context (Htd : forall k, is_Some (T k) -> exists td, GetBlockTotalDifficulty db0 k = inl td).

Lemma reverse_step db rp file nd x hx T1 acc n (Q : list Block * option StoreError -> Blockchain (S := S) (A := A) -> list DlEffect -> Prop) :
  nd_holds nd db rp file -> leaves_ok (nd_leaves nd) -> on_top db T x T1 -> kept db0 db T x -> T x = Some hx -> 0 < h_Height hx ->
  (forall nd' db' db1 blk pb td, nd_holds nd' db' rp file -> leaves_ok (nd_leaves nd') -> on_top db' T (h_PreviousBlockHash hx) (without T1 x) ->
     kept db0 db' T (h_PreviousBlockHash hx) -> GetBlock db0 x = inl blk -> b_HeaderHash blk = x -> b_Header blk = hx ->
     GetBlock db0 (h_PreviousBlockHash hx) = inl pb -> nd_current nd' = pb -> GetBlockTotalDifficulty db0 (h_PreviousBlockHash hx) = inl td ->
     bl_indexMap (nd_leaves nd') = <[h_PreviousBlockHash hx := NewBlockIndex (h_PreviousBlockHash hx) (h_Height hx - 1) td]> (base.delete x (bl_indexMap (nd_leaves nd))) ->
     dangling (h_PreviousBlockHash hx) blk db1 ->
     wp (reverse_loop n (h_Height hx - 1) (blk :: acc)) nd' (fun r nd2 o2 => forall o1, NodeDid (WroteDisk (db1, file)) ∈ o1 -> Q r nd2 (o1 ++ o2))) ->
  wp (reverse_loop (Datatypes.S n) (h_Height hx) acc) nd Q.
Proof.
  intros Hnd Hl Htop Hkept Hx Hpos HQ. pose proof (tr_hash _ HT _ _ Hx) as (Hlen & _ & Hu).
  destruct (tr_parent _ HT _ _ Hx) as [[Hz _]|(hp & Hp & Hhp)]; [lia|].
  assert (Hcx : on_chain T x (h_Height hx) x) by (by constructor).
  assert (Hcp : on_chain T x (h_Height hx - 1) (h_PreviousBlockHash hx)) by (apply on_chain_parent; [done..|lia]).
  destruct (on_top_read _ _ _ _ _ _ _ HT Htop Hcx Hx) as (Ehash & blk & Eblk & Ebh & Ebd & Edebts).
  destruct (on_top_read _ _ _ _ _ _ _ HT Htop Hcp Hp) as (Ephash & pb & Epb & Epbh & Epbd & _).
  destruct (Htd (h_PreviousBlockHash hx)) as [td Etd]; [by eexists|]. cbn [reverse_loop].
  apply wp_bind. eapply wp_bc_read; [exact Hnd|intros; apply GetBlockHash_law; [done|unfold is_u64; lia]|]. intros nd1 Hnd1 El1 _. cbn beta. rewrite Ehash.
  apply wp_bind. eapply wp_bc_read; [exact Hnd1|intros; by apply (GetBlock_law x)|]. intros nd2 Hnd2 El2 _. cbn beta. rewrite Eblk.
  apply wp_bind, RemoveBlockLeaves_spec; [by rewrite El2, El1|]. intros l Hlok Hlm. apply wp_bind.
  eapply wp_mono; [eapply (updateHeadInfo_spec (set_leaves nd2 l) db rp file (h_Height hx - 1)); [exact Hnd2|done|unfold is_u64; lia|done|done|done|]|].
  { rewrite (proj2 (Hkept _ _ Hcp)). exact Etd. }
  cbn beta. intros r nd3 o3 (-> & Hnd3 & Hl3 & Hm3 & Hc3). apply wp_bind, wp_emit, wp_bind, wp_emit, wp_bind.
  set (dbh := <[keyHeadBlockHash := h_PreviousBlockHash hx]> db) in *.
  assert (Eblk' : GetBlock dbh x = inl blk) by (rewrite <-Eblk; unfold dbh, GetBlock, GetBlockHeader; by rewrite !lookup_insert_ne by done).
  eapply (wp_bc_store _ (DeleteBlock x)); [exact Hnd3| |].
  { intros s Hs Es. destruct (DeleteBlock_law x s Hs) as [Href|(Hno & _)]; [done|]. exfalso.
    destruct (Hno hx) as [e He].
    - rewrite Es. unfold GetBlock in Eblk'. destruct (GetBlockHeader dbh x) as [hd|]; [|done]. repeat (case_match; try done); injection Eblk' as <-; by rewrite <-Ebd.
    - rewrite Es in He. unfold dbh, GetBlockHash in He, Ehash. rewrite lookup_insert_ne in He by apply head_key_height. by destruct (db !! _). }
  eapply wp_mono; [by eapply DeleteBlock_ok|]. cbn beta. intros r' db1 o' (-> & -> & Hdel) nd4 Hnd4 El4 Ec4.
  destruct (on_top_step db T x hx T1 db1 HT Htop Hx Hpos Hdel) as (Htop' & Hhead1 & Hmap1 & Hgone1).
  apply wp_bind. eapply wp_bc_store; [exact Hnd4|intros; apply DeleteBlockHash_law; [done|unfold is_u64; lia]|].
  unfold DeleteBlockHash. apply wp_bind, wp_get. rewrite bool_decide_true by (unfold mapped in Hmap1; rewrite Hmap1; by eexists).
  apply wp_bind. intros nd5 Hnd5 El5 Ec5. cbn [app] in *.
  eapply wp_mono; [eapply (HQ nd5 _ db1 blk pb td); try done|].
  - by rewrite El5, El4.
  - by eapply kept_step.
  - by rewrite <-(proj1 (Hkept _ _ Hcx)).
  - by rewrite <-(proj1 (Hkept _ _ Hcp)).
  - by rewrite Ec5, Ec4.
  - rewrite El5, El4, Hm3, Epbd, Hhp. cbn. by rewrite Hlm, El2, El1.
  - unfold dangling. by rewrite Ebd, Ebh.
  - cbn beta. intros r2 nd6 o2 HQ2. cbn [map app].
    match goal with |- Q _ _ (?l1 ++ ?e1 :: ?e2 :: ?e3 :: ?e4 :: ?l2) => change (e1 :: e2 :: e3 :: e4 :: l2) with ([e1; e2; e3; e4] ++ l2) end.
    rewrite app_assoc. apply HQ2. set_solver.
Qed.

Lemma chain_step x hx m k : T x = Some hx -> on_chain T x m k <-> (m = h_Height hx /\ k = x) \/ on_chain T (h_PreviousBlockHash hx) m k.
Proof.
  intros Hx. split.
  - intros Hc. inversion Hc as [? hd E|? hd ? ? E Hc']; subst; rewrite Hx in E; injection E as <-; auto.
  - intros [[-> ->]|Hc]; [by constructor|by eapply oc_up].
Qed.

Lemma reversed_step x hx hp a ancestor T1 T2 nd nd1 nd' pb td :
  T x = Some hx -> 0 < h_Height hx -> T (h_PreviousBlockHash hx) = Some hp -> h_Height hp = h_Height hx - 1 -> ancestor <= h_Height hx - 1 ->
  GetBlock db0 (h_PreviousBlockHash hx) = inl pb -> nd_current nd1 = pb -> GetBlockTotalDifficulty db0 (h_PreviousBlockHash hx) = inl td ->
  bl_indexMap (nd_leaves nd1) = <[h_PreviousBlockHash hx := NewBlockIndex (h_PreviousBlockHash hx) (h_Height hx - 1) td]> (base.delete x (bl_indexMap (nd_leaves nd))) ->
  on_chain T (h_PreviousBlockHash hx) ancestor a ->
  reversed T db0 (h_PreviousBlockHash hx) a ancestor (without T1 x) T2 nd1 nd' -> reversed T db0 x a ancestor T1 T2 nd nd'.
Proof.
  intros Hx Hpos Hp Hhp Hanc Hpb Hcur Htdp Hm Ha [Hl Ho Hc Hcu]. constructor; [done|..].
  - intros k Hk. rewrite Ho by (intros m Hge Hon; apply (Hk m Hge); by eapply oc_up). rewrite Hm.
    rewrite lookup_insert_ne by (intros <-; apply (Hk (h_Height hx - 1)); [done|]; apply on_chain_parent; done || lia).
    apply lookup_delete_ne. intros <-. apply (Hk (h_Height hx)); [lia|]. by constructor.
  - intros k hd. rewrite Hc. unfold without. case_decide as E.
    + subst. split; [by intros [? _]|]. intros [_ Hno]. exfalso. apply (Hno (h_Height hx)); [lia|]. by constructor.
    + apply and_iff_compat_l. split; intros Hno m Hgt; specialize (Hno m Hgt).
      * rewrite (chain_step x hx) by done. intros [[_ ->]|Hon]; done.
      * intros Hon. apply Hno. by eapply oc_up.
  - right. destruct Hcu as [(-> & Ecur & Elv)|Hcu]; [|done].
    destruct (on_chain_self T HT _ _ Ha) as (hp' & Hp' & <-). rewrite Hp in Hp'. injection Hp' as <-.
    split; [congruence|]. exists td. split; [done|]. rewrite Elv, Hm, lookup_insert_eq. by rewrite Hhp.
Qed.

Lemma reverse_loop_spec n : forall db rp file nd x hx T1 acc,
  nd_holds nd db rp file -> leaves_ok (nd_leaves nd) -> on_top db T x T1 -> kept db0 db T x -> T x = Some hx -> Z.of_nat n <= h_Height hx ->
  wp (reverse_loop n (h_Height hx) acc) nd (fun r nd' o => exists blocks a db' T2, r = (blocks ++ acc, None) /\ length blocks = n
    /\ on_chain T x (h_Height hx - Z.of_nat n) a /\ nd_holds nd' db' rp file /\ on_top db' T a T2
    /\ reversed T db0 x a (h_Height hx - Z.of_nat n) T1 T2 nd nd' /\ blocks_above T db0 x (h_Height hx - Z.of_nat n) blocks /\ cut_disks file blocks o).
Proof.
  induction n as [|n IH]; intros db rp file nd x hx T1 acc Hnd Hl Htop Hkept Hx Hn.
  - apply wp_ret. exists [], x, db, T1. rewrite Z.sub_0_r. split_and!; [done..|by constructor|done|done| |by intros i b|by intros b ?%elem_of_nil].
    constructor; [done|done| |by left]. intros k hd. split; [|by intros [? _]]. intros Hk. split; [done|]. intros m Hgt Hon.
    destruct (on_chain_heights T HT _ _ _ Hon) as (hx' & _ & Hx' & _ & _ & Hle). rewrite Hx in Hx'. injection Hx' as <-. lia.
  - eapply reverse_step; [done..|lia|]. intros nd1 db1 dbd blk pb td Hnd1 Hl1 Htop1 Hkept1 Eblk Ebh Ebd Epb Ecur Etd Em Hdang.
    destruct (tr_parent _ HT _ _ Hx) as [[Hz _]|(hp & Hp & Hhp)]; [lia|]. rewrite <-Hhp.
    eapply wp_mono; [eapply (IH db1 rp file nd1 _ hp (without T1 x)); [done..|lia]|]. cbn beta.
    intros r nd2 o2 (blocks & a & db2 & T2 & -> & Hlen & Ha & Hnd2 & Htop2 & Hrev & Habove & Hcut) o1 Ho1.
    replace (h_Height hp - Z.of_nat n) with (h_Height hx - Z.of_nat (Datatypes.S n)) in * by lia. set (anc := h_Height hx - Z.of_nat (Datatypes.S n)) in *.
    exists (blocks ++ [blk]), a, db2, T2. split; [by rewrite <-app_assoc|]. split; [rewrite length_app; cbn; lia|].
    split; [by eapply oc_up|]. split; [done|]. split; [done|]. split; [|split].
    + eapply (reversed_step x hx hp); try done; lia.
    + intros i b Hi. apply lookup_app_Some in Hi as [Hi|[Hge Hi]].
      * destruct (Habove _ _ Hi) as [Hon Hg]. split; [by eapply oc_up|done].
      * apply list_lookup_singleton_Some in Hi as [Hi <-]. rewrite Ebh. split; [|done]. replace (anc + 1 + Z.of_nat i) with (h_Height hx) by lia. by constructor.
    + intros b Hb. apply elem_of_app in Hb as [Hb|Hb%list_elem_of_singleton].
      * destruct (Hcut b Hb) as (d & Hd & Hdg). exists d. split; [|done]. apply elem_of_app. by right.
      * subst b. exists dbd. split; [apply elem_of_app; by left|]. by rewrite Ebd.
Qed.

(** Going back from the head. *)
Lemma reverseBCstore_spec nd rp file o ho ancestor :
  nd_holds nd db0 rp file -> leaves_ok (nd_leaves nd) -> canonical db0 T o -> T o = Some ho -> GetBlock db0 o = inl (nd_current nd) -> 0 <= ancestor <= h_Height ho ->
  wp (reverseBCstore ancestor) nd (fun r nd' out => exists td blocks a db' T2, r = (h_Height ho, Some td, blocks, None)
    /\ GetBlockTotalDifficulty db0 o = inl td /\ Z.of_nat (length blocks) = h_Height ho - ancestor /\ on_chain T o ancestor a /\ nd_holds nd' db' rp file
    /\ canonical db' T2 a /\ (forall n k, on_chain T a n k -> T2 k = T k)
    /\ reversed T db0 o a ancestor T T2 nd nd' /\ blocks_above T db0 o ancestor blocks /\ cut_disks file blocks out).
Proof.
  intros Hnd Hl Hcan Ho Hcur Hanc.
  assert (Hb : b_HeaderHash (nd_current nd) = o /\ b_Header (nd_current nd) = ho).
  { pose proof (proj1 Hcan o) as Hr. rewrite Ho in Hr. destruct Hr as (_ & b & Hg & E1 & E2 & _). rewrite Hcur in Hg. injection Hg as ->. done. }
  destruct Hb as [Eh Ehd]. destruct (Htd o) as [td Etd]; [by eexists|]. unfold reverseBCstore. apply wp_bind, wp_get. cbn zeta. rewrite Eh, Ehd.
  apply wp_bind. eapply wp_bc_read; [exact Hnd|intros; by apply (GetBlockTotalDifficulty_law o)|]. intros nd1 Hnd1 El1 Ec1. cbn beta. rewrite Etd.
  apply wp_bind. eapply wp_mono; [eapply (reverse_loop_spec (Z.to_nat (h_Height ho - ancestor)) db0 rp file nd1 o ho T); [done|by rewrite El1|by split| |done|lia]|].
  { by intros n k. }
  cbn beta. intros r nd2 o2 (blocks & a & db' & T2 & -> & Hlen & Ha & Hnd2 & Htop & Hrev & Habove & Hcut). apply wp_ret.
  replace (h_Height ho - Z.of_nat (Z.to_nat (h_Height ho - ancestor))) with ancestor in * by lia. rewrite !app_nil_r. cbn [app fst snd].
  exists td, blocks, a, db', T2. split_and!; [done..|lia|done|done|by destruct Htop|by destruct Htop| |done|done].
  destruct Hrev as [H1' H2' H3' H4']. constructor; [done| |done|]; by rewrite <-?El1, <-?Ec1.
Qed.
End reverse.

(** A node with a canonical chain whose blocks and total difficulties can be read. *)
Record synced_node {S A} `{StoreCodec} `{BlockchainStore S} `{!StoreLaws S} (nd : Blockchain (S := S) (A := A)) (T : Tree) (o : Hash) (ho : BlockHeader) : Prop := {
  sn_inv : store_inv (ch_store (nd_chain nd));
  sn_tree : tree_ok T;
  sn_canonical : canonical (chain_db (nd_chain nd)) T o;
  sn_head : T o = Some ho;
  sn_current : GetBlock (chain_db (nd_chain nd)) o = inl (nd_current nd);
  sn_leaves : leaves_ok (nd_leaves nd);
  sn_td k : is_Some (T k) -> exists td, GetBlockTotalDifficulty (chain_db (nd_chain nd)) k = inl td
}.
