(* ===== verification/DownloadExamples.v ===== *)
(** * Two chains and a session

    A hash of headers without collisions, two chains of three blocks that share two of them,
    and a node on one of them: what the theorems about downloads ask for can be had. *)

From Stdlib Require Import ZArith Lia.
From S2P Require Import Prelude Common BftHeader StateDb Svm EvmWord EvmStore Trie TrieCommit ChainStore Merkle ChainLaws ChainCanon BlockLeaves ChainTree ChainProofs ChainCrash ChainPurge ChainExamples ChainSpec PoolQueue Pool Stem BlockTypes BlockApply BlockProofs Download DownloadProofs DownloadLive DownloadServe DownloadChain DownloadReverse.

Open Scope Z_scope.
Open Scope go_scope.

#[local] Abbreviation on_chain := ChainTree.on_chain.
#[local] Existing Instance blockchainDatabase.

(** The encoding of a header as one number. *)
Definition pack (l : list Z) : Hash := ex_hash (Z.pos (encode l)).

Lemma pack_inj l l' : pack l = pack l' -> l = l'.
Proof. unfold pack, ex_hash. intros E. injection E as E. by apply (inj encode). Qed.

#[export] Instance sync_codec : HeaderCodec := {|
  encode_extra := @encode_extra example_header_codec;
  decode_extra := @decode_extra example_header_codec;
  MustHash o := pack (@MustHash example_header_codec o);
  GetSignatureAddress := @GetSignatureAddress example_header_codec
|}.

#[export] Instance sync_codec_laws : HeaderCodecLaws.
Proof.
  constructor.
  - intros e. apply (@extra_encodes example_header_codec _ e).
  - intros e b. apply (@extra_roundtrip example_header_codec _ e b).
  - intros h h' E. apply pack_inj in E. by apply (@MustHash_inj example_header_codec _) in E.
Qed.

(** Blocks so large that a message has room for one. *)
#[export] Instance large_blocks : BlockCodec := {| block_size _ := 1200000 |}.

Definition sync_header (prev : Hash) (height time : Z) : BlockHeader := mkHeader prev [] [] [] [] [] [] (Some 1) height (Some time) [] [] 0 [].
Definition sync_block (h : BlockHeader) : Block := mkBlock (header_Hash h) h [] [].

Definition sync_h0 : BlockHeader := sync_header EmptyHash 0 7.
Definition sync_h1 : BlockHeader := sync_header (header_Hash sync_h0) 1 7.
Definition sync_h2 : BlockHeader := sync_header (header_Hash sync_h1) 2 7.
Definition sync_f2 : BlockHeader := sync_header (header_Hash sync_h1) 2 8.

Definition sync_genesis : Db :=
  match PutBlockHeader (header_Hash sync_h0) sync_h0 1 true ∅ with Some (_, db, _) => db | None => ∅ end.

Definition sync_put (h : BlockHeader) (td : Z) (c : ChainState Db) : ChainState Db :=
  match put_block (sync_block h) [] td c with Some (_, c', _) => c' | None => c end.

Definition sync_c0 : ChainState Db := mkChain sync_genesis emptyRp (Json emptyRp).
Definition sync_c1 : ChainState Db := sync_put sync_h1 2 sync_c0.
Definition sync_c2 : ChainState Db := sync_put sync_h2 3 sync_c1.
Definition fork_c2 : ChainState Db := sync_put sync_f2 3 sync_c1.

Definition sync_T0 : Tree := only (header_Hash sync_h0) sync_h0.
Definition sync_T1 : Tree := grown sync_T0 (sync_block sync_h1).
Definition sync_T2 : Tree := grown sync_T1 (sync_block sync_h2).
Definition fork_T2 : Tree := grown sync_T1 (sync_block sync_f2).

(** ** The chains *)

(** A chain with its tree, whose blocks are stored by their hashes. *)
Record good_chain (c : ChainState Db) (T : Tree) (h : BlockHeader) : Prop := {
  gc_tree : tree_ok T;
  gc_canonical : canonical (chain_db c) T (header_Hash h);
  gc_head : T (header_Hash h) = Some h;
  gc_hash k hd : T k = Some hd -> header_Hash hd = k;
  gc_rp : ch_file c = Json (ch_rp c);
  gc_idle : idle (ch_rp c)
}.

Lemma good_genesis : good_chain sync_c0 sync_T0 sync_h0.
Proof.
  assert (Hrun : exists o, PutBlockHeader (header_Hash sync_h0) sync_h0 1 true ∅ = Some (None, sync_genesis, o)).
  { assert (Hs : succeeds (PutBlockHeader (header_Hash sync_h0) sync_h0 1 true ∅) = true) by (vm_compute; reflexivity).
    revert Hs. unfold sync_genesis. destruct (PutBlockHeader _ _ _ _ _) as [[[[e|] db] o]|]; try done. by exists o. }
  destruct Hrun as [o Hrun]. constructor.
  - by apply only_ok; vm_compute.
  - eapply genesis_canonical; try done; by vm_compute.
  - unfold sync_T0, only. by rewrite decide_True.
  - intros k hd. unfold sync_T0, only. case_decide; [|done]. by intros [= <-].
  - done.
  - by repeat split.
Qed.

Lemma good_put c T h hn td : good_chain c T h -> h_PreviousBlockHash hn = header_Hash h -> h_Height hn = h_Height h + 1 -> h_Height hn < 100 ->
  Clone hn = hn -> length (header_Hash hn) = HashLength -> T (header_Hash hn) = None -> header_Hash hn <> EmptyHash ->
  is_Some (enc_header hn) -> 0 <= td -> good_chain (sync_put hn td c) (grown T (sync_block hn)) hn.
Proof.
  intros [HT Hc Hh Hhash Hrp Hidle] Hprev Hheight Hmax Hclone Hlen Hnew Hne Henc Htd. pose proof (tr_hash _ HT _ _ Hh) as (_ & _ & Hu).
  assert (Hb : new_block T (sync_block hn) td []).
  { constructor; cbn [sync_block b_HeaderHash b_Header b_Debts b_Transactions]; [|done|done| | |done|done| |by eexists|by eexists].
    - split; [done|]. split; [|done]. unfold is_u64. cbn [sync_block b_Header]. lia.
    - exists h. rewrite Hprev. split; [done|lia].
    - lia.
    - cbn. destruct (Z.leb_spec 0 td); [by eexists|lia]. }
  pose proof (put_block_spec T HT (sync_block hn) td [] Hb _ h Hh _ (ch_rp c) (ch_file c) Hc c ltac:(by repeat split)) as Hw.
  unfold wp in Hw. unfold sync_put. destruct (put_block (sync_block hn) [] td c) as [[[r c'] disks]|]; [|done].
  destruct Hw as (_ & db' & rp' & file' & (<- & _ & <- & <-) & -> & Hcan & Hi & Ef). constructor.
  - by eapply grown_ok.
  - exact Hcan.
  - apply (grown_block T (sync_block hn)).
  - intros k hd. unfold grown. case_decide as E; [|apply Hhash]. intros [= <-]. by rewrite E.
  - exact Ef.
  - exact Hi.
Qed.

Lemma good_c1 : good_chain sync_c1 sync_T1 sync_h1.
Proof. apply (good_put sync_c0 sync_T0 sync_h0); [apply good_genesis|by vm_compute..|by eexists|done]. Qed.

Lemma good_c2 : good_chain sync_c2 sync_T2 sync_h2.
Proof. apply (good_put sync_c1 sync_T1 sync_h1); [apply good_c1|by vm_compute..|by eexists|done]. Qed.

Lemma good_fork : good_chain fork_c2 fork_T2 sync_f2.
Proof. apply (good_put sync_c1 sync_T1 sync_h1); [apply good_c1|by vm_compute..|by eexists|done]. Qed.

Lemma good_head_db c T h : good_chain c T h -> head_db (chain_db c) T (header_Hash h) h.
Proof. intros []. by constructor. Qed.

Definition sync_leaves : BlockLeaves :=
  match leaves_Add NewBlockLeaves (NewBlockIndex (header_Hash sync_h2) 2 3) with Some l => l | None => NewBlockLeaves end.

Definition sync_node : Blockchain (S := Db) (A := unit) :=
  mkBlockchain sync_c2 tt (mkStemDbs ∅ ∅) sync_leaves (sync_block sync_h2) (mkCachedTxs 100 ∅).

Lemma sync_node_synced : synced_node sync_node sync_T2 (header_Hash sync_h2) sync_h2.
Proof.
  pose proof good_c2 as [HT Hc Hh _ _ _]. constructor.
  - exact I.
  - exact HT.
  - exact Hc.
  - exact Hh.
  - vm_compute. reflexivity.
  - cbn [nd_leaves sync_node]. unfold sync_leaves.
    destruct (leaves_Add_ok _ (NewBlockIndex (header_Hash sync_h2) 2 3) NewBlockLeaves_ok) as (l & -> & Hl & _). done.
  - intros k [hd Hk]. unfold sync_T2, sync_T1, sync_T0, grown, only in Hk.
    repeat case_decide; subst; try done; eexists; vm_compute; reflexivity.
Qed.
