(* ===== verification/DownloadSpec.v ===== *)
(** * What a download promises

    The blocks are handed over in order whatever peers send; with a peer that answers from its
    chain a session gets all of them, after going back to the highest block that both chains
    have; and what a peer or a crash can break. *)

From Stdlib Require Import ZArith Lia.
From S2P Require Import Prelude Common BftHeader StateDb Svm EvmWord EvmStore Trie TrieCommit ChainStore Merkle ChainLaws ChainCanon BlockLeaves ChainTree ChainProofs ChainCrash ChainPurge ChainExamples ChainSpec PoolQueue Pool Stem BlockTypes BlockApply BlockProofs Download DownloadProofs DownloadLive DownloadServe DownloadChain DownloadReverse DownloadExamples.

Open Scope Z_scope.
Open Scope go_scope.

#[local] Abbreviation on_chain := ChainTree.on_chain.

(** C19: Blocks are handed to the chain in the order of their heights, each
    once: whatever headers and blocks any peers send, in whatever order the
    operations of the manager come and however many of the blocks the chain
    takes, the blocks that were handed over have the heights from the first
    one of the session on without a gap, the counter of the session is the
    next one, and handing over never finds a block missing, as long as the
    list of the tasks fits into the memory. *)
Theorem blocks_are_handed_over_in_order `{HeaderCodec} id from to lh ltd lbs t0 ops t handed :
  is_u64 from -> newTaskMgr id from to lh ltd lbs = Some t0 -> exec_ops t0 ops = Some (t, handed) ->
  Z.of_nat (length (tm_downloadInfoList t)) < 2 ^ 63 ->
  map (fun b => u64 (h_Height (b_Header b) - from)) handed = map Z.of_nat (seq 0 (length handed))
  /\ tm_curNo t = u64 (from + Z.of_nat (length handed))
  /\ forall written, is_Some (exec_op t (OpRun written)).
Proof.
  intros Hf Hnew Hrun Hl. destruct (exec_ops_ok ops t0 0 t handed (new_tm_ok _ _ _ _ _ _ _ Hf Hnew) Hrun Hl) as (Hok & Hfrom & _ & Hm).
  assert (E : tm_fromNo t0 = from) by (revert Hnew; unfold newTaskMgr; case_match; [done|]; by intros [= <-]). rewrite E in *.
  split; [done|]. split; [by rewrite (to_cur _ _ Hok), Hfrom|]. intros written.
  destruct (exec_run t _ written Hok Hl) as (t' & bs & -> & _). by eexists.
Qed.

(** C18: A session gets everything: with a peer that answers from its canonical
    chain, whatever part of a request fits into a message, and a local chain
    that takes the blocks, every schedule of the two goroutines that lets
    both run in each of enough rounds ends with the session done, and the
    blocks that were handed over are the blocks of the peer from the first
    to the last height, in order. Until then no turn panics or cancels the
    session, and what was handed over is the beginning of the chain. *)
Theorem session_fetches_the_chain `{HeaderCodec} `{StoreCodec} `{BlockCodec} db T o ho current peerID accepts from to lh ltd lbs t :
  head_db db T o ho -> b_Header current = ho -> 0 <= from <= to + 1 -> to <= h_Height ho -> to < 2 ^ 63 - 1 ->
  (forall k, from + Z.of_nat k <= to -> accepts (chain_part (canonical_block db) from k) (canonical_block db (from + Z.of_nat k)) = true) ->
  newTaskMgr peerID from to lh ltd lbs = Some t ->
  (forall rounds, Forall fair_round rounds -> 18 * (to + 1 - from) + 3 <= Z.of_nat (length rounds) ->
     exists s, run_session (serving_node db current) peerID accepts (concat rounds) (mkSession t PcLoop false []) = Some s
       /\ isDone (ss_tm s) = true /\ ss_handed s = chain_part (canonical_block db) from (Z.to_nat (to + 1 - from)))
  /\ forall turns, Forall (fun turn => is_quit turn = false) turns ->
     exists s n, run_session (serving_node db current) peerID accepts turns (mkSession t PcLoop false []) = Some s
       /\ ss_handed s = chain_part (canonical_block db) from n /\ (ss_cancelled s = true -> isDone (ss_tm s) = true).
Proof.
  intros Hdb Hcur Hfrom Hto Hmax Hacc Hnew.
  pose proof (serving_node_answers db T o ho current accepts from to Hdb Hcur Hfrom Hto Hmax Hacc) as Ha.
  pose proof (session_start _ peerID _ _ _ _ Ha lh ltd lbs t Hnew) as Hstart. split.
  - intros rounds Hf Hlen. destruct (fair_rounds_end _ peerID _ _ _ _ Ha rounds _ _ _ _ _ Hstart Hf) as (s & a & d & n & Hrun & Hok).
    + unfold left_over, total. cbn [ss_pc rank]. rewrite decide_False by lia. lia.
    + exists s. split; [done|]. split; [|exact (so_handed _ _ _ _ _ _ _ _ _ Hok)].
      by apply (isDone_shape _ peerID _ _ _ _ Ha _ _ _ _ _ (so_shape _ _ _ _ _ _ _ _ _ Hok)).
  - intros turns Hq. destruct (run_session_ok _ peerID _ _ _ _ Ha turns _ _ _ _ _ Hstart Hq) as (s & c & a & d & n & Hrun & Hok & _).
    exists s, c. split; [done|]. split; [exact (so_handed _ _ _ _ _ _ _ _ _ Hok)|]. intros Hcancel.
    apply (isDone_shape _ peerID _ _ _ _ Ha _ _ _ _ _ (so_shape _ _ _ _ _ _ _ _ _ Hok)).
    pose proof (so_pc _ _ _ _ _ _ _ _ _ Hok) as Hpc. pose proof (so_cancel _ _ _ _ _ _ _ _ _ Hok) as Hc.
    destruct (ss_pc s); try (rewrite Hc in Hcancel; done). by destruct Hpc.
Qed.

(** C20: The ancestor that is found is where the two chains part: against a peer
    that answers from its canonical chain, with the same genesis, the search
    ends within 353 requests. It returns the height up to which the two
    chains have the same blocks, and above which, up to the lower head, they
    have none in common; or it gives up with errMaxForkAncestor, and then
    the last 90000 heights below the lower head differ. *)
Theorem common_ancestor_is_the_fork_point `{HeaderCodec, !HeaderCodecLaws} `{StoreCodec} `{BlockCodec} db T o ho db' T' o' ho' current fuel :
  head_db db T o ho -> head_db db' T' o' ho' -> b_Header current = ho' -> b_HeaderHash current = o' -> agree db db' 0 -> (353 <= fuel)%nat ->
  fetchHeight (serving_node db' current) = inl ho' /\
  exists r, findCommonAncestorHeight fuel db (h_Height ho) (serving_node db' current) (h_Height ho') = Some r /\
  let top := getTop (h_Height ho) (h_Height ho') in
  match r with
  | inl n => 0 <= n <= top /\ (forall m, 0 <= m <= n -> agree db db' m) /\ forall m, n < m <= top -> ~ agree db db' m
  | inr err => err = errMaxForkAncestor /\ MaxForkAncestry <= top /\ forall m, top - MaxForkAncestry < m <= top -> ~ agree db db' m
  end.
Proof.
  intros Hdb Hdb' Hcur Hhash Hgen Hfuel. split; [by eapply fetchHeight_serving|].
  pose proof (tr_hash _ (cd_tree _ _ _ _ Hdb) _ _ (cd_head _ _ _ _ Hdb)) as (_ & _ & Hu).
  pose proof (tr_hash _ (cd_tree _ _ _ _ Hdb') _ _ (cd_head _ _ _ _ Hdb')) as (_ & _ & Hu').
  set (top := getTop (h_Height ho) (h_Height ho')).
  assert (Htop : 0 <= top <= h_Height ho /\ top <= h_Height ho') by (unfold top, getTop; destruct (Z.leb_spec (h_Height ho) (h_Height ho')); lia).
  unfold findCommonAncestorHeight. fold top. destruct (Z.eqb_spec top 0) as [E|Hne].
  { exists (inl top). split; [done|]. cbn zeta. rewrite E. split; [lia|]. split; [|lia]. intros m Hm. by replace m with 0 by lia. }
  assert (Hmax : getMaxFetchAncestry top <= MaxForkAncestry /\ (getMaxFetchAncestry top = MaxForkAncestry \/ getMaxFetchAncestry top = top + 1)
    /\ (top < MaxForkAncestry -> getMaxFetchAncestry top = top + 1) /\ 0 <= getMaxFetchAncestry top).
  { unfold getMaxFetchAncestry, MaxForkAncestry. destruct (Z.leb_spec 90000 top); [lia|]. rewrite u64_small by (unfold is_u64; lia). lia. }
  destruct (find_ancestor_spec db db' T T' o o' ho ho' Hdb Hdb' current Hcur top fuel 0) as (r & Hrun & Hr);
    [lia..|unfold MaxForkAncestry, MaxHeaderFetch in *; lia|].
  exists r. split; [done|]. destruct r as [n|err]; cbn zeta.
  - destruct Hr as (Hn & Ha & Hno). split; [done|]. split; [|done]. intros m Hm. eapply (agree_below db db'); [done..| | |exact Ha|done]; lia.
  - destruct Hr as [-> Hno]. split; [done|]. destruct (decide (top < MaxForkAncestry)) as [Hlt|Hge].
    + exfalso. apply (Hno 0); [lia|done].
    + split; [lia|]. intros m Hm. apply Hno. destruct Hmax as (_ & [->|Hx] & _); [done|lia].
Qed.

(** ** Going back *)

Section reverse.
Context {S A : Type} `{StoreCodec} `{BlockchainStore S} `{!StoreLaws S} `{!StoreCodecLaws}.
Implicit Types (nd : Blockchain (S := S) (A := A)) (T : Tree).

Lemma synced_reverse nd T o ho ancestor : synced_node nd T o ho -> 0 <= ancestor <= h_Height ho ->
  exists td blocks nd' out a T', reverseBCstore ancestor nd = Some ((h_Height ho, Some td, blocks, None), nd', out)
    /\ GetBlockTotalDifficulty (chain_db (nd_chain nd)) o = inl td /\ Z.of_nat (length blocks) = h_Height ho - ancestor /\ on_chain T o ancestor a
    /\ store_inv (ch_store (nd_chain nd')) /\ ch_rp (nd_chain nd') = ch_rp (nd_chain nd) /\ canonical (chain_db (nd_chain nd')) T' a
    /\ reversed T (chain_db (nd_chain nd)) o a ancestor T T' nd nd' /\ blocks_above T (chain_db (nd_chain nd)) o ancestor blocks
    /\ cut_disks (ch_file (nd_chain nd)) blocks out.
Proof.
  intros [Hi HT Hc Ho Hcur Hl Htd] Hanc.
  pose proof (reverseBCstore_spec T HT _ Htd nd (ch_rp (nd_chain nd)) (ch_file (nd_chain nd)) o ho ancestor ltac:(by repeat split) Hl Hc Ho Hcur Hanc) as Hw.
  unfold wp in Hw. destruct (reverseBCstore ancestor nd) as [[[r nd'] out]|]; [|done].
  destruct Hw as (td & blocks & a & db' & T2 & -> & Etd & Hlen & Ha & (<- & Hi' & Erp & _) & Hc2 & _ & Hrev & Habove & Hcut).
  exists td, blocks, nd', out, a, T2. by split_and!.
Qed.

(** C21: Going back to an ancestor leaves its chain: reverseBCstore, from a node
    with a canonical chain, ends without an error; the blocks above the
    ancestor are gone and no others, the mapping of the heights is the chain
    of the ancestor, the current block is the ancestor, which is a leaf of
    the block tree with its total difficulty, and the caller gets the blocks
    that were taken off, in the order of their heights. *)
Theorem reverse_leaves_the_ancestor nd T o ho ancestor : synced_node nd T o ho -> 0 <= ancestor < h_Height ho ->
  exists td blocks nd' out a T' tda, reverseBCstore ancestor nd = Some ((h_Height ho, Some td, blocks, None), nd', out)
    /\ on_chain T o ancestor a /\ canonical (chain_db (nd_chain nd')) T' a /\ GetBlock (chain_db (nd_chain nd)) a = inl (nd_current nd')
    /\ (forall k hd, T' k = Some hd <-> T k = Some hd /\ forall m, ancestor < m -> ~ on_chain T o m k)
    /\ leaves_ok (nd_leaves nd') /\ GetBlockTotalDifficulty (chain_db (nd_chain nd)) a = inl tda
    /\ bl_indexMap (nd_leaves nd') !! a = Some (NewBlockIndex a ancestor tda)
    /\ Z.of_nat (length blocks) = h_Height ho - ancestor
    /\ forall i b, blocks !! i = Some b -> on_chain T o (ancestor + 1 + Z.of_nat i) (b_HeaderHash b) /\ GetBlock (chain_db (nd_chain nd)) (b_HeaderHash b) = inl b.
Proof.
  intros Hs Hanc. destruct (synced_reverse nd T o ho ancestor Hs ltac:(lia)) as (td & blocks & nd' & out & a & T' & Hrun & _ & Hlen & Ha & _ & _ & Hc & Hrev & Habove & _).
  destruct Hrev as [Hl _ Hcut [(-> & _)|(Hcur & tda & Htda & Hleaf)]].
  { exfalso. destruct (on_chain_self T (sn_tree _ _ _ _ Hs) _ _ Ha) as (hx & Hx & <-). rewrite (sn_head _ _ _ _ Hs) in Hx. injection Hx as <-. lia. }
  exists td, blocks, nd', out, a, T', tda. by split_and!.
Qed.

(** A node that starts with an idle recovery point changes nothing. *)
Lemma recover_idle_dangling db rp o (b : Block) : idle rp -> dangling o b db ->
  chp (S := S) recover db rp (Json rp) (fun _ => True) (fun _ db' _ _ => dangling o b db').
Proof.
  intros Hi Hd. unfold recover. apply chp_get. intros c (_ & _ & -> & _).
  destruct rp as [wh whe pc ph lh st]. destruct Hi as (E1 & E2 & E3 & E4 & E5). cbn in E1, E2, E3, E4, E5. subst.
  cbn [rp_PreviousHeadBlockHash rp_WritingBlockHeight rp_PreviousCanonicalBlockHash rp_WritingBlockHash rp_LargerHeight rp_StaleHash].
  unfold Hash_IsEmpty, bytes_eqb. rewrite !bool_decide_true by done. rewrite andb_false_r. cbn [negb andb Z.ltb Z.compare].
  chp_seq. by apply chp_serialize.
Qed.

(** A crash while the node goes back stops it for good: for every block that
    reverseBCstore takes off there is a disk on which the block is deleted
    and its height is still mapped to it. The recovery knows nothing of it,
    and from then on every block of that height is refused with a not-found
    error, the one that was taken off too, and the height stays as it is. *)
Theorem crash_while_reversing_loses_a_height nd T o ho ancestor : synced_node nd T o ho -> ch_file (nd_chain nd) = Json (ch_rp (nd_chain nd)) ->
  idle (ch_rp (nd_chain nd)) -> 0 <= ancestor < h_Height ho ->
  exists r nd' out, reverseBCstore ancestor nd = Some (r, nd', out) /\
  forall n, ancestor < n <= h_Height ho -> exists b d c2, h_Height (b_Header b) = n /\ NodeDid (WroteDisk d) ∈ out /\ restarts d c2
    /\ dangling (h_PreviousBlockHash (b_Header b)) b (chain_db c2)
    /\ forall b' receipts' td', storable b' -> h_Height (b_Header b') = n -> is_Some (enc_header (b_Header b')) -> is_Some (enc_td td') ->
       is_Some (enc_body (mkBody (b_Transactions b') (b_Debts b'))) -> is_Some (enc_receipts receipts') ->
       exists c3 disks3, put_block b' receipts' td' c2 = Some (Some ErrNotFound, c3, disks3) /\ dangling (h_PreviousBlockHash (b_Header b)) b (chain_db c3).
Proof.
  intros Hs Hfile Hidle Hanc. pose proof (sn_tree _ _ _ _ Hs) as HT.
  destruct (synced_reverse nd T o ho ancestor Hs ltac:(lia)) as (td & blocks & nd' & out & a & T' & Hrun & _ & Hlen & _ & _ & _ & _ & _ & Habove & Hcut).
  eexists _, nd', out. split; [exact Hrun|]. intros n Hn.
  destruct (blocks !! Z.to_nat (n - ancestor - 1)) as [b|] eqn:Hb; [|apply lookup_ge_None in Hb; lia].
  destruct (Habove _ _ Hb) as [Hon Hget]. replace (ancestor + 1 + Z.of_nat (Z.to_nat (n - ancestor - 1))) with n in Hon by lia.
  destruct (on_chain_heights T HT _ _ _ Hon) as (_ & hd & _ & Hhd & Hheight & _).
  assert (Hbd : b_Header b = hd).
  { pose proof (proj1 (sn_canonical _ _ _ _ Hs) (b_HeaderHash b)) as Hr. rewrite Hhd in Hr. destruct Hr as (_ & b' & Hg & _ & E & _). congruence. }
  destruct (Hcut b) as (db1 & Hout & Hdang); [by eapply list_elem_of_lookup_2|].
  rewrite Hfile in Hout.
  pose proof (start_json _ _ _ (recover_idle_dangling db1 _ _ b Hidle Hdang) _ (restart_holds (db1, Json (ch_rp (nd_chain nd))))) as Hr.
  unfold wp in Hr. destruct (start_chain (restart _)) as [[[e c2] o2]|] eqn:Hre; [|done].
  destruct Hr as (_ & ? & ? & ? & (<- & Hi2 & <- & Ef) & -> & Hdang2).
  exists b, (db1, Json (ch_rp (nd_chain nd))), c2. split; [by rewrite Hbd|]. split; [done|]. split; [by exists o2|]. split; [done|].
  intros b' receipts' td' Hst Hh Hx1 Hx2 Hx3 Hx4. pose proof (tr_hash _ HT _ _ Hhd) as (Hlen2 & _).
  assert (Hlp : length (h_PreviousBlockHash (b_Header b)) = HashLength).
  { rewrite Hbd. destruct (tr_parent _ HT _ _ Hhd) as [[Hz _]|(hp & Hp & _)]; [lia|]. by apply (tr_hash _ HT) in Hp as (? & _). }
  pose proof (put_block_dangling _ b b' td' receipts' _ (ch_rp c2) (ch_file c2) Hdang2 Hlp Hlen2 Hst ltac:(by rewrite Hbd, Hheight) Hx1 Hx2 Hx3 Hx4 c2
    ltac:(by repeat split)) as Hput.
  unfold wp in Hput. destruct (put_block b' receipts' td' c2) as [[[r c3] o3]|]; [|done].
  destruct Hput as (_ & ? & ? & ? & (<- & _) & -> & ?). eauto.
Qed.

(** ** A peer that lies *)

(** A peer that says its head is one block and answers the search for the ancestor with
    another one. *)
Definition forged_peer `{HeaderCodec} (hk hn : BlockHeader) : RemotePeer :=
  mkPeer (header_Hash hk) (fun _ _ _ reverse => inl [if reverse then hn else hk]) (fun _ _ _ => inr errPeerQuit).

(** C22: A peer can cut the chain of a node and then stop the node: it says that
    its head is a block of the node's own chain, and answers the search for
    the ancestor with a block of the chain above it. Nothing checks the
    height of the answer: the node goes back to that block, deleting all
    above, and then makes a task manager for a range that ends below its
    start, whose size wraps around, which is a panic. *)
Theorem forged_ancestor_cuts_and_panics `{HeaderCodec} nd T o ho k n x y hk hn fuel :
  synced_node nd T o ho -> (forall h hd, T h = Some hd -> header_Hash hd = h) -> 0 < k < n -> n <= h_Height ho -> h_Height ho < 2 ^ 63 ->
  on_chain T o k x -> T x = Some hk -> on_chain T o n y -> T y = Some hn -> (0 < fuel)%nat ->
  exists lh ltd lbs nd' out, sync_prepare fuel (forged_peer hk hn) nd = Some (inl (n + 1, k, lh, ltd, lbs), nd', out)
    /\ (exists T', canonical (chain_db (nd_chain nd')) T' y) /\ Z.of_nat (length lbs) = h_Height ho - n
    /\ forall id, newTaskMgr id (n + 1) k lh ltd lbs = None.
Proof.
  intros Hs Hhash Hkn Hn Hmax Hx Hxk Hy Hyn Hfuel. pose proof (sn_tree _ _ _ _ Hs) as HT.
  destruct (on_chain_heights T HT _ _ _ Hx) as (_ & hk' & _ & E1 & Ek & _). rewrite Hxk in E1. injection E1 as <-.
  destruct (on_chain_heights T HT _ _ _ Hy) as (_ & hn' & _ & E2 & En & _). rewrite Hyn in E2. injection E2 as <-.
  assert (Hcur : b_Header (nd_current nd) = ho).
  { pose proof (proj1 (sn_canonical _ _ _ _ Hs) o) as Hr. rewrite (sn_head _ _ _ _ Hs) in Hr. destruct Hr as (_ & b & Hg & _ & E & _).
    rewrite (sn_current _ _ _ _ Hs) in Hg. injection Hg as <-. done. }
  destruct (synced_reverse nd T o ho n Hs ltac:(lia)) as (td & blocks & nd' & out & a & T' & Hrun & _ & Hlen & Ha & _ & _ & Hc & _).
  assert (a = y) as -> by (by eapply (on_chain_fun T HT)).
  assert (Hmap : GetBlockHash (chain_db (nd_chain nd)) n = inl y).
  { pose proof (proj2 (proj2 (proj2 (sn_canonical _ _ _ _ Hs))) n y ltac:(unfold is_u64; lia)) as Hm. apply Hm in Hy. unfold GetBlockHash.
    unfold mapped in Hy. rewrite Hy, BytesToHash_hash; [done|]. by apply (tr_hash _ HT) in Hyn as (? & _). }
  exists (h_Height ho), td, blocks, nd', out. split; [|split; [by exists T'|]; split; [done|]].
  - unfold sync_prepare. assert (Ef : fetchHeight (forged_peer hk hn) = inl hk).
    { unfold fetchHeight, forged_peer, verifyBlockHeadersMsg. cbn. unfold bytes_eqb. by rewrite bool_decide_true. }
    rewrite Ef. unfold go_bind, go_get. rewrite Hcur, Ek.
    assert (Eanc : findCommonAncestorHeight fuel (store_db (ch_store (nd_chain nd))) (h_Height ho) (forged_peer hk hn) k = Some (inl n)).
    { unfold findCommonAncestorHeight, getTop. destruct (Z.leb_spec (h_Height ho) k); [lia|]. destruct (Z.eqb_spec k 0); [lia|].
      destruct fuel as [|fuel]; [lia|]. cbn [find_ancestor]. unfold getFetchCount at 1, getMaxFetchAncestry, MaxForkAncestry, MaxHeaderFetch. rewrite Z.sub_0_r.
      assert (E : ((if 256 <=? u64 (if 90000 <=? k then 90000 else u64 (k + 1)) then 256 else u64 (if 90000 <=? k then 90000 else u64 (k + 1))) =? 0) = false).
      { destruct (Z.leb_spec 90000 k); [done|]. rewrite !(u64_small (k + 1)) by (unfold is_u64; lia). destruct (_ <=? _); [done|]. apply Z.eqb_neq. lia. }
      rewrite E. cbn. change (store_db (ch_store (nd_chain nd))) with (chain_db (nd_chain nd)). rewrite En, Hmap, (Hhash _ _ Hyn). unfold bytes_eqb. by rewrite bool_decide_true. }
    rewrite Eanc. unfold go_deref, go_ret. cbv beta iota. rewrite Hrun. cbv beta iota. rewrite u64_small by (unfold is_u64; lia). by rewrite !app_nil_r.
  - intros id. unfold newTaskMgr. assert (Ew : u64 (k - (n + 1) + 1) = k - n + 2 ^ 64) by (unfold u64; rewrite <-(Z_mod_plus_full _ 1), Z.mod_small by lia; lia).
    rewrite Ew. destruct (Z.ltb_spec maxPointers (k - n + 2 ^ 64)) as [|Hge]; [done|]. unfold maxPointers in Hge. change (2 ^ 48 / 8) with (2 ^ 45) in Hge. lia.
Qed.
End reverse.

(** ** The end of a session *)

(** A session that has handed over more than it was for never ends. *)
Theorem overshoot_never_ends `{HeaderCodec} t n ops t' handed :
  tm_ok t n -> 0 <= tm_fromNo t -> tm_toNo t + 1 < tm_fromNo t + Z.of_nat n -> 0 <= tm_toNo t < 2 ^ 64 - 1 ->
  exec_ops t ops = Some (t', handed) -> tm_fromNo t + Z.of_nat (length (tm_downloadInfoList t')) < 2 ^ 63 -> isDone t' = false.
Proof.
  intros Hok Hf Hover Hto Hrun Hl. destruct (exec_ops_ok ops t n t' handed Hok Hrun ltac:(lia)) as (Hok' & Ef & Et & _).
  unfold isDone. rewrite (to_cur _ _ Hok'), Ef, Et. pose proof (to_len _ _ Hok'). rewrite !u64_small by (unfold is_u64; lia). apply Z.eqb_neq. lia.
Qed.

(** A block of a height that was not asked for is a panic, whoever sends it. *)
Theorem stray_block_panics peerID t b blocks :
  Z.of_nat (length (tm_downloadInfoList t)) <= u64 (h_Height (b_Header b) - tm_fromNo t) -> deliverBlockMsg peerID (b :: blocks) t = None.
Proof.
  intros Hge. unfold deliverBlockMsg. cbn [place_blocks]. unfold go_bind, go_get, go_panic, go_deref.
  set (z := u64 (h_Height (b_Header b) - tm_fromNo t)) in *. destruct (Z.ltb_spec (i64 z) 0); [done|].
  assert (Hz : i64 z = z) by (unfold z in *; rewrite <-i64_index; done). rewrite (proj2 (lookup_ge_None _ _)) by (rewrite Hz; lia). done.
Qed.

Section outputs.
Context {S A : Type}.

(** Code that does not drop the peer. *)
Definition keeps_peer {X} (m : GoM (Blockchain (S := S) (A := A)) DlEffect X) : Prop :=
  forall nd x nd' o, m nd = Some (x, nd', o) -> DisconnectsPeer ∉ o.

Lemma keeps_ret {X} (x : X) : keeps_peer (go_ret x).
Proof. intros nd y nd' o [= <- <- <-]. apply not_elem_of_nil. Qed.
Lemma keeps_get : keeps_peer go_get.
Proof. intros nd y nd' o [= <- <- <-]. apply not_elem_of_nil. Qed.
Lemma keeps_modify f : keeps_peer (go_modify f).
Proof. intros nd y nd' o [= <- <- <-]. apply not_elem_of_nil. Qed.
Lemma keeps_deref {X} (x : option X) : keeps_peer (go_deref x).
Proof. intros nd y nd' o. destruct x; [|done]. intros [= <- <- <-]. apply not_elem_of_nil. Qed.
Lemma keeps_emit e : e <> DisconnectsPeer -> keeps_peer (go_emit e).
Proof. intros Hne nd y nd' o [= <- <- <-]. set_solver. Qed.
Lemma keeps_bind {X Y} (m : GoM (Blockchain (S := S) (A := A)) DlEffect X) (k : X -> GoM (Blockchain (S := S) (A := A)) DlEffect Y) :
  keeps_peer m -> (forall x, keeps_peer (k x)) -> keeps_peer (go_bind m k).
Proof. intros Hm Hk nd y nd' o (x & nd1 & o1 & o2 & E1 & E2 & ->)%bind_inv. apply Hm in E1. apply Hk in E2. set_solver. Qed.
Lemma keeps_node {X} (m : GoM (Blockchain (S := S) (A := A)) NodeEffect X) : keeps_peer (on_node m).
Proof.
  intros nd x nd' o. unfold on_node. destruct (m nd) as [[[y nd1] o1]|]; [|done]. intros [= <- <- <-].
  intros (e & E & _)%list_elem_of_fmap. done.
Qed.

Ltac keeps :=
  repeat first [apply keeps_ret | apply keeps_get | apply keeps_modify | apply keeps_deref | (apply keeps_emit; done) | apply keeps_node
    | (apply keeps_bind; [|intros]) | case_match].

Lemma updateHeadInfo_keeps `{StoreCodec} `{BlockchainStore S} n : keeps_peer (updateHeadInfo n).
Proof. unfold updateHeadInfo, AddBlockLeaves, UpdateCurrentBlock, bc_store. keeps. Qed.

Lemma reverse_loop_keeps `{StoreCodec} `{BlockchainStore S} n : forall h acc, keeps_peer (reverse_loop n h acc).
Proof.
  induction n as [|n IH]; intros h acc; cbn [reverse_loop]; [keeps|]. unfold RemoveBlockLeaves, bc_store.
  repeat first [apply updateHeadInfo_keeps | apply IH | progress keeps].
Qed.

Lemma reverseBCstore_keeps `{StoreCodec} `{BlockchainStore S} n : keeps_peer (reverseBCstore n).
Proof. unfold reverseBCstore, bc_store. repeat first [apply reverse_loop_keeps | progress keeps]. Qed.
End outputs.

(** The peer that made a session be abandoned is not dropped: the error of its block is
    overwritten by what happens when the local blocks are put back. *)
Theorem abandoned_session_keeps_the_peer {S A T : Type} {HC : StoreCodec} {HS : BlockchainStore S} {HSL : StoreLaws S} {HT : TrieOps T}
    {HV : @VmOps T HT} {HN : @NodeEnv S A T HT} `{BlockEnv} `{TrieEnv} `{HeaderCodec} `{MerkleEnv} `{StemEnv}
    bad_proof selRand block err ancestor localTD localBlocks (nd nd' : Blockchain (S := S) (A := A)) o td :
  store_inv (ch_store (nd_chain nd)) -> GetBlockTotalDifficulty (chain_db (nd_chain nd)) (b_HeaderHash (nd_current nd)) = inl td -> td < localTD ->
  (forall b, b ∈ localBlocks -> bad_proof (b_Header b) = false) ->
  write_failed bad_proof selRand block err ancestor localTD localBlocks nd = Some (tt, nd', o) -> DisconnectsPeer ∉ o.
Proof.
  intros Hi Htd Hlt Hbad. assert (Hwb : forall last, keeps_peer (write_back bad_proof selRand localBlocks last)
    /\ forall n x n' o', write_back bad_proof selRand localBlocks false n = Some (x, n', o') -> x = false).
  { clear -Hbad. induction localBlocks as [|b l IH]; intros last; cbn [write_back].
    - split; [apply keeps_ret|]. by intros n x n' o' [= <- _ _].
    - destruct (IH (fun b' Hb => Hbad b' (list_elem_of_further _ _ _ Hb)) false) as [Hk Hf]. split.
      + apply keeps_bind; [apply keeps_node|]. intros [e|]; [apply keeps_ret|apply Hk].
      + intros n x n' o' (e & n1 & o1 & o2 & _ & E & ->)%bind_inv. destruct e as [e|]; [|by eapply Hf].
        injection E as <- _ _. unfold proof_error. case_match; try done. apply Hbad. by left. }
  unfold write_failed. intros (x & n1 & o1 & o2 & E1 & Hrun & ->)%bind_inv. injection E1 as <- <- <-.
  apply bind_inv in Hrun as (ctd & n2 & o3 & o4 & E2 & Hrun & ->).
  assert (Hctd : ctd = inl td /\ o3 = []).
  { revert E2. unfold bc_store, on_node, BlockApply.on_chain, on_store.
    destruct (GetBlockTotalDifficulty_law (b_HeaderHash (nd_current nd)) _ Hi _ _ _ eq_refl) as (s' & -> & _). intros [= <- <- <-]. done. }
  destruct Hctd as [-> ->]. apply Z.ltb_lt in Hlt. rewrite Hlt in Hrun.
  apply bind_inv in Hrun as (bad & n3 & o5 & o6 & E3 & Hrun & ->). apply bind_inv in E3 as (r & n4 & o7 & o8 & E4 & E5 & ->).
  apply reverseBCstore_keeps in E4. pose proof (proj1 (Hwb false) _ _ _ _ E5) as Hk5. apply (proj2 (Hwb false)) in E5 as ->.
  apply bind_inv in Hrun as (u & n6 & o9 & oa & E6 & Hrun & ->). injection E6 as <- <- <-. injection Hrun as <- <-. set_solver.
Qed.

#[local] Existing Instance blockchainDatabase.

(** ** The theorems at work *)

Definition sync_peer : RemotePeer := serving_node (chain_db sync_c2) (sync_block sync_h2).
Definition sync_id : PeerID := [7].
Definition sync_tm : taskMgr := mkTaskMgr 1 2 1 0 0 0 [] ∅ [] sync_id.
Definition sync_rounds : list (list Turn) := repeat [TurnRun; TurnPeer false] 39.

Lemma sync_rounds_fair : Forall fair_round sync_rounds.
Proof.
  apply Forall_forall. intros ts Hts. apply list_elem_of_In, repeat_spec in Hts as ->.
  split; [by repeat constructor|]. split; [left|]. by right; left.
Qed.

Lemma sync_handed : chain_part (canonical_block (chain_db sync_c2)) 1 2 = [sync_block sync_h1; sync_block sync_h2].
Proof. vm_compute. reflexivity. Qed.

Lemma session_fetches_the_chain_witness : exists s,
  run_session sync_peer sync_id (fun _ _ => true) (concat sync_rounds) (mkSession sync_tm PcLoop false []) = Some s
  /\ isDone (ss_tm s) = true /\ ss_handed s = [sync_block sync_h1; sync_block sync_h2].
Proof.
  destruct (session_fetches_the_chain (chain_db sync_c2) sync_T2 (header_Hash sync_h2) sync_h2 (sync_block sync_h2) sync_id (fun _ _ => true) 1 2 0 0 [] sync_tm)
    as [Hend _].
  - exact (good_head_db _ _ _ good_c2).
  - reflexivity.
  - lia.
  - cbn [sync_h2 sync_header h_Height]. lia.
  - lia.
  - intros k _. exact eq_refl.
  - reflexivity.
  - destruct (Hend sync_rounds sync_rounds_fair) as (s & Hrun & Hd & Hh).
    + unfold sync_rounds. rewrite repeat_length. lia.
    + exists s. split; [exact Hrun|]. split; [exact Hd|]. rewrite Hh. exact sync_handed.
Defined.

(** The peer answers the request for the blocks with the first one. *)
Definition sync_ops : list tm_op :=
  [OpReqHeaders sync_id; OpHeaders sync_id [sync_h1; sync_h2]; OpReqBlocks sync_id; OpRun 5;
   OpBlocks sync_id [sync_block sync_h1]; OpRun 1; OpReqBlocks sync_id; OpBlocks sync_id [sync_block sync_h2]; OpRun 0].

(** The outcome of a run, checked without its state. *)
Lemma run_is {X} (r : option X) (check : X -> bool) : match r with Some x => check x | None => false end = true ->
  exists x, r = Some x /\ check x = true.
Proof. destruct r as [x|]; [|done]. by exists x. Qed.

Lemma blocks_are_handed_over_in_order_witness : exists t handed, exec_ops sync_tm sync_ops = Some (t, handed) /\ length handed = 2%nat
  /\ map (fun b => u64 (h_Height (b_Header b) - 1)) handed = [0; 1].
Proof.
  destruct (run_is (exec_ops sync_tm sync_ops) (fun x => (length (tm_downloadInfoList x.1) =? 2)%nat && (length x.2 =? 2)%nat)) as ([t handed] & E & Hl);
    [vm_compute; reflexivity|].
  apply andb_true_iff in Hl as [Hl Hh]. apply Nat.eqb_eq in Hl, Hh. cbn [fst snd] in Hl, Hh. exists t, handed. split; [exact E|]. split; [exact Hh|].
  destruct (blocks_are_handed_over_in_order sync_id 1 2 0 0 [] sync_tm sync_ops t handed) as (Hm & _).
  - unfold is_u64. lia.
  - reflexivity.
  - exact E.
  - rewrite Hl. lia.
  - rewrite Hm, Hh. reflexivity.
Defined.

Lemma common_ancestor_is_the_fork_point_witness :
  findCommonAncestorHeight 353 (chain_db sync_c2) 2 (serving_node (chain_db fork_c2) (sync_block sync_f2)) 2 = Some (inl 1)
  /\ agree (chain_db sync_c2) (chain_db fork_c2) 1 /\ ~ agree (chain_db sync_c2) (chain_db fork_c2) 2.
Proof.
  destruct (common_ancestor_is_the_fork_point (chain_db sync_c2) sync_T2 (header_Hash sync_h2) sync_h2
    (chain_db fork_c2) fork_T2 (header_Hash sync_f2) sync_f2 (sync_block sync_f2) 353) as (_ & r & Hrun & Hr).
  - exact (good_head_db _ _ _ good_c2).
  - exact (good_head_db _ _ _ good_fork).
  - reflexivity.
  - reflexivity.
  - vm_compute. reflexivity.
  - lia.
  - assert (E : findCommonAncestorHeight 353 (chain_db sync_c2) 2 (serving_node (chain_db fork_c2) (sync_block sync_f2)) 2 = Some (inl 1))
      by (vm_compute; reflexivity).
    change (h_Height sync_h2) with 2 in Hrun, Hr. change (h_Height sync_f2) with 2 in Hrun, Hr. rewrite E in Hrun. injection Hrun as <-.
    destruct Hr as (_ & Hsame & Hdiff). split; [exact E|]. split; [apply Hsame; lia|]. apply Hdiff. cbn. lia.
Defined.

Lemma reverse_leaves_the_ancestor_witness : exists td blocks nd' out a T',
  reverseBCstore 0 sync_node = Some ((2, Some td, blocks, None), nd', out) /\ length blocks = 2%nat /\ canonical (chain_db (nd_chain nd')) T' a.
Proof.
  destruct (reverse_leaves_the_ancestor sync_node sync_T2 (header_Hash sync_h2) sync_h2 0)
    as (td & blocks & nd' & out & a & T' & tda & Hrun & _ & Hc & _ & _ & _ & _ & _ & Hlen & _).
  - exact sync_node_synced.
  - cbn [sync_h2 sync_header h_Height]. lia.
  - exists td, blocks, nd', out, a, T'. split; [exact Hrun|]. split; [|exact Hc]. change (h_Height sync_h2) with 2 in Hlen. lia.
Defined.

Lemma crash_while_reversing_loses_a_height_witness : exists b d c2 c3 disks3, h_Height (b_Header b) = 1 /\ restarts d c2
  /\ put_block (sync_block sync_h1) [] 2 c2 = Some (Some ErrNotFound, c3, disks3).
Proof.
  destruct (crash_while_reversing_loses_a_height sync_node sync_T2 (header_Hash sync_h2) sync_h2 0) as (r & nd' & out & _ & Hall).
  - exact sync_node_synced.
  - exact (gc_rp _ _ _ good_c2).
  - exact (gc_idle _ _ _ good_c2).
  - cbn [sync_h2 sync_header h_Height]. lia.
  - destruct (Hall 1) as (b & d & c2 & Hb & _ & Hre & _ & Hput); [cbn [sync_h2 sync_header h_Height]; lia|].
    destruct (Hput (sync_block sync_h1) [] 2) as (c3 & disks3 & E & _); [by vm_compute|reflexivity|by eexists|by eexists|by eexists|by eexists|].
    exists b, d, c2, c3, disks3. split; [exact Hb|]. split; [exact Hre|exact E].
Defined.

Lemma forged_ancestor_cuts_and_panics_witness : exists lh ltd lbs nd' out,
  sync_prepare 1 (forged_peer sync_h1 sync_h2) sync_node = Some (inl (3, 1, lh, ltd, lbs), nd', out) /\ newTaskMgr sync_id 3 1 lh ltd lbs = None.
Proof.
  pose proof good_c2 as [HT Hc Hh Hhash _ _].
  assert (Hp : sync_T2 (header_Hash sync_h1) = Some sync_h1) by (vm_compute; reflexivity).
  destruct (forged_ancestor_cuts_and_panics sync_node sync_T2 (header_Hash sync_h2) sync_h2 1 2 (header_Hash sync_h1) (header_Hash sync_h2) sync_h1 sync_h2 1)
    as (lh & ltd & lbs & nd' & out & Hrun & _ & _ & Hnone).
  - exact sync_node_synced.
  - exact Hhash.
  - lia.
  - cbn [sync_h2 sync_header h_Height]. lia.
  - cbn [sync_h2 sync_header h_Height]. lia.
  - exact (on_chain_parent sync_T2 HT (header_Hash sync_h2) sync_h2 Hh eq_refl).
  - exact Hp.
  - exact (oc_here sync_T2 (header_Hash sync_h2) sync_h2 Hh).
  - exact Hh.
  - lia.
  - exists lh, ltd, lbs, nd', out. split; [exact Hrun|apply Hnone].
Defined.

(** ** What peers can do to a session *)

(** A peer that sends one header more than it was asked for makes the session go past its end. *)
Example extra_header_overshoots :
  match exec_ops (mkTaskMgr 1 1 1 0 0 0 [] ∅ [] sync_id) sync_ops with
  | Some (t, handed) => (tm_curNo t =? 3) && negb (isDone t) && (length handed =? 2)%nat
  | None => false
  end = true.
Proof. vm_compute. reflexivity. Qed.

(** Only the first of the headers is checked: a header of another height behind it is a panic when
    the blocks are assigned. *)
Example bad_header_panics :
  exec_ops sync_tm [OpReqHeaders sync_id; OpHeaders sync_id [sync_h1; sync_header EmptyHash 9 7]; OpReqBlocks sync_id;
    OpBlocks sync_id [sync_block sync_h1]; OpRun 1; OpReqHeaders sync_id; OpReqBlocks sync_id] = None.
Proof. vm_compute. reflexivity. Qed.

(** An answer that leaves out the first of the blocks it was asked for stalls the session: the
    block stays assigned and is not asked for again. *)
Example skipped_block_stalls :
  match exec_ops sync_tm [OpReqHeaders sync_id; OpHeaders sync_id [sync_h1; sync_h2]; OpReqBlocks sync_id; OpBlocks sync_id [sync_block sync_h2]] with
  | Some (t, _) =>
      match getReqHeaderInfo sync_id t, getReqBlocks sync_id t, getWaitProcessingBlocks t with
      | Some ((_, hs), _, _), Some ((_, bs), _, _), Some (positions, _, _) => (hs =? 0) && (bs =? 0) && (length positions =? 0)%nat && negb (isDone t)
      | _, _, _ => false
      end
  | None => false
  end = true.
Proof. vm_compute. reflexivity. Qed.
